(* ===== verification/_CoqProject ===== *)
-Q . S2P
Prelude.v
Text.v
SortedMap.v
Cbor.v
Ordering.v
Keys.v
FallbackRecords.v
KeyRegistry.v
FallbackPolicy.v
FallbackPayload.v
ErasureGate.v
Events.v
ChainProperties.v
EventStore.v
StoreHistory.v
StoreCorrect.v
StoreProperties.v
KeyRegistryInvariant.v
KeyRegistryProperties.v
KeyRegistryStore.v
KeyRegistryReader.v
KeyRegistryReaderProperties.v
KeyRegistrySample.v
StorePort.v
Query.v
Merge.v
FallbackRegistry.v
FallbackFold.v
FallbackInvariant.v
FallbackReach.v
FallbackProperties.v
StrictCbor.v
PluginTrust.v
PluginTrustCodec.v
PluginTrustChain.v
WireSyntax.v
TrustPolicy.v
TrustBridge.v
BridgeProperties.v
TrustRegistry.v
TrustInvariant.v
PluginTrustProperties.v
TrustProperties.v
TrustSample.v
TrustedClock.v
TrustedClockSpec.v
TrustedClockSystem.v
TrustedClockInvariant.v
TrustedClockProperties.v
TrustedClockSample.v
Consent.v
ConsentCodec.v
ConsentSystem.v
ConsentProperties.v
Projection.v
Candidate.v
ProjectionProperties.v
ProjectionReach.v
CandidateProperties.v
StagedExecutor.v
StagedExecutorProperties.v
ExecutorHealth.v
InstallProperties.v
ForkAncestry.v
RelationshipIndex.v
StagedCatalogue.v
CfCodec.v
CounterfactualInputs.v
CounterfactualPlan.v
FrontierArtifacts.v
FrontierArtifactsProperties.v
DependencyGraph.v
DependencyGraphProperties.v
RecomputationFrontier.v
CounterfactualPort.v
DependencyRecords.v
RecordParity.v
FrontierSources.v
CounterfactualSample.v
ProjectionSample.v
