(* ===== verification/Prelude.v ===== *)
(** * PiglorOS kernel: a verification library

    PiglorOS records what happens in a world as Events on Timelines, in a store
    with copy-on-write forks and a hash chain, under an erasure gate that fences
    every access.  A composition of Plugins may fall back to declared
    alternatives; the fallback registry keeps which implementation is in force,
    as rows that must equal the fold of declaration and activation Events.  Which
    Plugin releases may run is decided by the trust registry, from signed root
    and revocation histories bound to an operator-signed policy snapshot.
    Queries and merges are clients of the Event store.  Subjects grant and
    revoke consent, which tokens carry.  Reducers project the Events of a
    Timeline into State; protected State is folded by a staged executor, and is
    published only inside the window of a trusted clock.  Keys of owners are
    registered, rotated and destroyed in a registry the store enforces.  A
    counterfactual asks what an Intervention changes: a plan, a graph of inputs and
    outputs, and the frontier of what must be recomputed.  This library models that
    core from the Rust sources and proves what makes it correct.

    ** The parts and how they interact

    Values and records:

    - [Prelude], [Text], [SortedMap], [Ordering]: results, machine integers, bytes,
      UTF-8 text, hashes, ordered maps; Rust's [Ord] as a class with its laws, and
      the searches of a sorted slice.
    - [Cbor] (crates/pos-core/src/lib.rs): the canonical CBOR writer and the
      strict cursor every fallback decoder is built on.
    - [FallbackRecords], [FallbackPolicy], [FallbackPayload]
      (crates/pos-core/src/composition_fallback.rs, .../policy.rs, .../payload.rs):
      the records IMK1, PPN1, DFP1 and the two Event payloads, each with its
      constructor, encoder and decoder.  [Codec]/[CodecLaws] is the interface a
      record promises; [decode_exact] turns it into "the decoder accepts exactly
      the canonical encodings".

    The Event store:

    - [ErasureGate] (crates/pos-core/src/erasure.rs, fork_ancestry.rs): the
      gate's decision and [with_fence], which runs an effect or refuses it.
    - [Events] (crates/pos-core/src/{event,timeline,clock,store,error,hasher}.rs,
      crates/pos-crypto/src/chain.rs, crates/pos-store/src/stitch.rs): the data,
      the chain step, [verify_chain], paging and batch validation.
    - [EventStore] (crates/pos-store/src/{memory,lib}.rs): the record [Store] of
      [MemoryStore] fields and one definition per operation: [read], [append],
      [append_committed], [fork], [create_timeline], [delete_timeline], heads and
      chain hashes, each inside the fence the source runs it in.
    - [StorePort] (crates/pos-core/src/store.rs): the class [EventStorePort] is
      the trait its clients hold, [EventStoreLaws] what they rely on; the
      in-memory store is an instance.
    - [Query] (crates/pos-query/src/{query,traversal}.rs) and [Merge]
      (crates/pos-time/src/merge.rs): filtered reads, relationship traces,
      causation chains and the merge of two Timelines, over the class only.

    Keys:

    - [Keys], [KeyRegistry] (crates/pos-core/src/key_registry.rs): owners, roles,
      epochs, registration, rotation, authorization, two-step destruction,
      validation and the rule under which one registry may replace another.
    - [Keys] (.../key_registry/read_guard.rs), [KeyRegistryReader]
      (.../durable_cbor.rs and its cursor): the guarded read of a durable snapshot,
      over any guard of the class [KeyRegistryReadGuardV1].
    - [KeyRegistryStore] (crates/pos-store/src/memory.rs): loading, saving,
      destruction and authorized use in the Event store, whose append guards read
      the registry.

    The fallback registry:

    - [FallbackRegistry] (crates/pos-store/src/composition_fallback_registry/):
      the fold of a Timeline and the plans of [declare] and [activate], against
      a record of reads as in the source's trait; and
      (crates/pos-store/src/memory/composition_fallback_registry.rs,
      composition_fallback_registry/derived.rs) the in-memory adapter, on
      [MemoryStore] = Event store + registry tables.

    Plugin trust:

    - [StrictCbor] (crates/pos-crypto/src/strict_cbor.rs): the reader of the
      trust records.
    - [PluginTrust] (crates/pos-crypto/src/plugin_trust.rs): the trust roots
      PTR1, the revocations PRV1, the verification of their histories and the
      release query on the verified evidence.
    - [WireSyntax], [TrustPolicy] (crates/pos-conformance/src/wire_syntax.rs,
      trust_policy_snapshot.rs): the preflight, the text grammars and the policy
      snapshot TPS1.
    - [TrustBridge] (crates/pos-conformance/src/plugin_trust_bridge.rs): the
      anchor, the authentication of a snapshot, what binds it to the evidence,
      the civil calendar and the floor transitions.
    - [TrustRegistry] (crates/pos-store/src/plugin_trust_registry/,
      crates/pos-store/src/memory/plugin_trust_registry.rs): the plans of
      provisioning, advance, admission, rollback and evaluation, and the
      in-memory adapter, on [TrustStore] = [MemoryStore] + trust tables.
      Admissions and rollbacks append their activation Event to the Event store.

    The trusted clock:

    - [TrustedClock] (crates/pos-core/src/trusted_clock.rs): reservations,
      release guards, the checked handoff, overrun latches and acknowledgements,
      over the port classes [TrustedClockStorePortV1] and [ReleaseGuardPortV1];
      [TrustedClockSystem] (crates/pos-store/src/trusted_clock.rs): the in-memory
      authority, an instance of both, and many handles of one
      authority, one call at a time, with the removal of a pending flag a step of
      its own, since the source removes it outside the authority lock.

    Consent:

    - [Consent] (crates/pos-core/src/consent.rs): the records CGV1 and CRV1,
      tokens, sessions, fences, two-phase revocations and recovery from a
      history; [ConsentSystem]: the calls of many authorities on shared session
      tables.  The iteration order of a [HashMap] is an argument where the result
      can depend on it.

    State projection:

    - [Projection] (crates/pos-core/src/{state,staged_install,fork_ancestry}.rs,
      crates/pos-state/src/lib.rs): State, reducers, the registry with its fence,
      fold, refold, adoption, snapshots and restore; [ForkAncestry]: the walk by
      which a host finds the ancestry it binds; [RelationshipIndex].
    - [Candidate] (crates/pos-state/src/{candidate,staged}.rs): detached
      candidates, their size accounting and staged results; and the
      install checks and the exchange of State, a target of the trusted-clock
      handoff.
    - [StagedExecutor], [ExecutorHealth]
      (crates/pos-runtime/src/staged_executor.rs): the fold the worker runs, and
      the worker, its queue, the health of the process and the guard threads as a
      step relation, one atomic access per step.
    - [StagedCatalogue] (crates/pos-runtime/src/registry/staged_catalogue.rs): the
      admission of reviewed factories, the identities they are recorded under, and
      the host provider of the builds the executor runs.

    Counterfactuals:

    - [CfCodec], [CounterfactualInputs], [CounterfactualPlan], [FrontierArtifacts]
      (crates/pos-conformance/src/counterfactual/{codec,
      intervention,dependency,plan,replay_claim,frontier_artifacts}.rs and the record
      types of lib.rs): the field reader, which records the slot of the first failure,
      and the records INT1, IDP1, CFP1, RCF1 and SIV1.
    - [DependencyGraph], [RecomputationFrontier]
      (crates/pos-time/src/counterfactual/{dependency_graph,frontier}.rs): validation of
      a graph against its plan, the traversal from the Interventions, and the frontier
      that is sealed as RCF1.
    - [CounterfactualPort], [DependencyRecords]
      (crates/pos-core/src/{counterfactual_store,counterfactual_dependency}.rs): RCF1,
      SIV1 and IDP1 bytes as the storage port carries them, without their codec; the
      basis, command and receipt of an invalidation; the rows a Tick records and the
      pages a reader asks for.
    - [FrontierSources]
      (crates/pos-time/src/counterfactual/{frontier_source,prefix_seeded_source}.rs):
      the host sources that page the recorded rows of a plan out of a read port, or of
      its prefix only, and derive the frontier from the graph they stitch.

    Rust results are [result]; [let?] is the [?] operator.  An operation that
    writes takes the store and returns the store it leaves behind with its
    result, also on failure.  Integers are [Z] with their width written out
    ([checked_add], [saturating_add], [u64_wrap]).  [String], [Hash] and [Ulid]
    are raw bytes with a checked condition.  [BTreeMap] is a sorted association
    list where its order is observable ([SortedMap]) and [gmap] otherwise.

    Parameters: BLAKE3 ([Blake3]), the hasher of a store ([Hasher]), the text of
    a ULID ([UlidText]), the key check and strict verification of Ed25519
    ([Ed25519]), the reader and writer of CBOR values ([Ciborium],
    [CiboriumCursor]), JSON values ([Json]) and lower-case hexadecimal
    ([HexText]) come from third-party crates; wall and monotonic clocks, the
    surroundings of the worker ([WorkerGateV1]) and the Plugin provider are the
    host's.  Theorems hold for any of them; the only assumed facts are the two on
    ULID text in [ChainProperties] (26 characters, one text per ULID),
    [CiboriumLaws] (the reader inverts the writer, for [consent_codec_exact]),
    [ClockPortLaws] (which the in-memory authority satisfies), for
    [staged_fold_succeeds], [PromptWorker], for [counterfactual_canonical],
    [ShortArrays] (how CBOR writes short arrays and digests) and, for [record_parity],
    [PreferredWriter] (the preferred CBOR of integers, strings and arrays, from which
    [ShortArrays] follows).  No theorem assumes BLAKE3 injective or Ed25519
    unforgeable.  Where a collision matters, the conclusion names the two colliding
    strings among the ones the program hashed ([collides], [registry_invariant]), or
    the theorem is about runs in which none occurs: the steps [mstep] and [tstep] take
    a declaration or an advance only if its digest is not already retained with other
    bytes ([no_policy_collision], [no_snapshot_collision]), and append no Event of the
    two fallback types outside the registry.

    ** What the theorems show

    - Codecs ([Cbor], [FallbackRecords], [FallbackPolicy], [FallbackPayload],
      [PluginTrustCodec]): decoders accept exactly the canonical encodings of
      valid records, within the documented byte bounds; encodings are injective;
      heads are shortest.  [StrictCbor] states exactly what each reader accepts.
    - Gate ([ErasureGate]): what is authorized is not frozen; a poisoned gate
      stays closed.
    - Hash chain and pages ([ChainProperties]): the first broken link is found,
      chains are tamper evident, page plans are exact.
    - Store: [StoreHistory] gives the abstract specification, the inductive
      [history] of a Timeline, and shows that the segment walks compute it;
      [StoreCorrect] proves that every operation preserves [store_ok];
      [StoreProperties] states it for the public operations over [reachable]
      stores: reads refine histories, appends extend, forks share, nothing else
      changes, chain heads are recomputable, the ancestry walk terminates.
    - Clients: queries return exactly the Events of the history that match;
      causation chains are exact and return unless the causes are cyclic, which
      an accepted store can be ([Query]); merges add exactly the chosen Events
      behind the target, lose nothing, and conflicts are decided exactly
      ([Merge]).
    - Keys: [KeyRegistryInvariant] that validation decides a declarative invariant;
      [KeyRegistryProperties] that operations keep it, that replacements lose no
      history, that destruction is final and authorization exact; [KeyRegistryStore]
      that stores enforce it for good; [KeyRegistryReaderProperties] that a snapshot
      read ends, costs a fixed amount of work and is only cut short by its guard;
      [KeyRegistrySample] runs it.
    - Fallback registry: [FallbackFold] proves the invariant of folded states,
      the counting specification and that plans fail only by their checks;
      [FallbackInvariant] and [FallbackReach] prove over every sequence of public
      calls, of the Event store and of the registry, that the tables are right on all
      Timelines the callers did not disturb ([registry_ok_off], [disturbs]), and so
      everywhere ([registry_ok]) in runs that disturb none ([mreachable]);
      [FallbackProperties] states both and what callers of such runs rely on: all or nothing, replay,
      keys used once, isolation, optimistic concurrency, forks, effects of both
      operations, and that corruption is unreachable.
    - Trust evidence: [PluginTrustChain] proves the chain of custody from the
      anchor, the permanence of denials and that last digests bind whole
      histories; [BridgeProperties] that the calendar counts days, the binary
      search is membership, and an accepted snapshot carries every root and
      denial of its evidence; [PluginTrustProperties] states both for the
      public functions.
    - Trust registry: [TrustInvariant] proves that [scope_ok] is preserved;
      [TrustProperties] states the invariant over [treachable] stores, that
      policies never regress, that refused writes change nothing, the effects of
      admissions and rollbacks, retry, what an evaluation rules out, that an
      admitted release evaluates, and that corruption is unreachable.
      [TrustSample] runs the whole registry on concrete signed records.
    - Trusted clock: [TrustedClockSpec] gives a specification of every call over
      any port with the laws; [TrustedClockInvariant] and
      [TrustedClockProperties] prove the invariant of the system, that values
      are released only inside their window, that the clock never regresses, that
      an overrun closes release until it is acknowledged, and progress;
      [TrustedClockSample] shows how a delayed removal loses an overrun.
    - Consent: [ConsentCodec] proves the codecs exact, [ConsentSystem] what
      recovery computes, [ConsentProperties] that tokens were granted, that a
      revocation is final, that an abort undoes every closure published during its
      reservation, and that the choice of a session can depend on map order.
    - Projection: [ProjectionProperties] gives the abstract specification, the State
      of an entity as a function of the history ([entity_state]), and proves with
      [ProjectionReach] that registries refine it in every kind of read ([reads_as]),
      that snapshots restore, the invariant, and that reads are fenced: what a run of
      the registry did ([StateEffect]) gives the State of every slot by [replay] and
      the [labels] it was folded under;
      [CandidateProperties] that candidates fold like the live registry, that
      accounting bounds the size, and that a fold without accounting keeps the pass,
      [StagedExecutorProperties] that the worker returns exactly the State of the
      history, in time by the [Observation]s of its own run, and returns when left
      alone,
      [ExecutorHealth] exclusion, closed release after an abandoned fold, and
      recovery, [InstallProperties] that every read of what a protected handoff
      publishes is refused or is the history, [StagedCatalogue] that only admitted factories are built and
      what a recorded identity binds; [ProjectionSample] runs the fold.

    - Counterfactuals: the record files prove their decoders exact, and
      [FrontierArtifactsProperties] that they accept canonical bytes only and name
      every malformed field; [DependencyGraphProperties] gives a declarative account of
      closed graphs and gaps and shows that validation decides it;
      [RecomputationFrontier] that the traversal ends with exactly what the Interventions
      reach, that the frontier describes it and can be sealed, which views are
      stale, and that inherited Intervention nodes make up for those of the plan; [RecordParity] that the storage port accepts what the codec writes and
      reads the record's own fields from it; [FrontierSources] that the two sources
      return what validation says of the whole recorded graph, whatever the page
      limit; [CounterfactualSample] runs it, and shows a damaged store on which the page
      limit selects the fault.

    ** Fuel and bounds

    [fork_walk] gets one step per Timeline and one more, and
    [fork_walk_terminates] shows that this always suffices, also on cyclic
    ancestry.  The loop of [causal_chain] has no bound in the source: with fuel,
    [None] means that it has not returned yet; [causal_chain_exact] gives fuel
    with which it returns and [causal_cycle_never_returns] a store on which it
    never does.  [binary_search_loop] gets as many steps as the list has
    elements, and [BridgeProperties] proves the answer exact.  [ancestry_walk]
    gets one step per Timeline and one more, which [fork_ancestry_exact] shows to
    suffice.  [preflight_item] recurses
    on the nesting depth the source bounds.  The loops of the snapshot reader get
    what is left of the input as fuel, and [durable_read_exact] shows that they
    return.  [search_loop] gets one step per element, and [reach_loop] one turn per
    node and one more: [binary_search_sorted] and [frontier_exact] show that they
    suffice.  [collect_loop] gets one page per row and one more, and
    [frontier_sources_agree] shows that it then returns.  [room] says that a Timeline's
    own Event count stays within 64 bits.

    ** Not modelled

    The SQLite adapter (SQL text and transactions), the owner admission,
    fork-authority and replay ports of the stores, the erasure protocol records,
    manifests and the signature proofs they mint (the registry reads three of
    their values), the materialization of authorized observations (OBS1), the
    replay and comparison hosts, the counterfactual result, checkpoint and source
    records with the host that runs a plan, the adapters of the counterfactual
    storage port, the rest of the runtime, Plugin hosts,
    cryptographic envelopes and applications.  Lock poisoning and allocation
    failure are outside the model; the erasure gate is read as one snapshot per
    operation, as its lock guarantees.  A callback that unwinds leaves State that
    is dropped, so that State is not described.

    ** Plan

    Next: the in-memory adapter of the counterfactual port and the counterfactual
    result, the authority records and observations of pos-core, and comparison (pos-time) over [StorePort];
    then Plugin manifests (pos-crypto), the erasure lifecycle and the fork admission
    registry over the same [MemoryStore].

    This file: results, machine integers, lengths, bytes and checked values. *)

From Stdlib Require Import ZArith Lia Bool.
From Stdlib Require Export Strings.Byte.
From stdpp Require Export base option list gmap.

(** ** Results

    Rust's [Result<T, E>].  [let?] is the [?] operator: it returns the error of
    its argument and otherwise continues with the value. *)

Inductive result (E A : Type) : Type :=
| Ok (a : A)
| Err (e : E).
Arguments Ok {E A} a.
Arguments Err {E A} e.

Declare Scope result_scope.
Delimit Scope result_scope with result.

Definition rbind {E A B : Type} (m : result E A) (k : A -> result E B) : result E B :=
  match m with Ok a => k a | Err e => Err e end.

Definition map_err {E F A : Type} (f : E -> F) (m : result E A) : result F A :=
  match m with Ok a => Ok a | Err e => Err (f e) end.

Definition ok_or {E A : Type} (o : option A) (e : E) : result E A :=
  match o with Some a => Ok a | None => Err e end.

Definition is_ok {E A : Type} (m : result E A) : bool :=
  match m with Ok _ => true | Err _ => false end.

Notation "'let?' x ':=' e 'in' k" := (rbind e (fun x => k))
  (at level 10, x pattern, e at level 200, k at level 200,
   format "'[v' 'let?'  x  ':='  e  'in' '/' k ']'") : result_scope.
Open Scope result_scope.

Section ResultLemmas.
Context {E F A B : Type}.

Lemma rbind_ok_inv (m : result E A) (k : A -> result E B) (b : B) :
  rbind m k = Ok b -> exists a, m = Ok a /\ k a = Ok b.
Proof. destruct m as [a | e]; simpl; [by eauto | done]. Qed.

Lemma rbind_err_inv (m : result E A) (k : A -> result E B) (e : E) :
  rbind m k = Err e -> m = Err e \/ exists a, m = Ok a /\ k a = Err e.
Proof. destruct m as [a | e']; simpl; [by eauto | intros; left; congruence]. Qed.

Lemma map_err_ok_inv (f : E -> F) (m : result E A) (a : A) :
  map_err f m = Ok a -> m = Ok a.
Proof. destruct m; simpl; congruence. Qed.

Lemma ok_or_ok_inv (o : option A) (e : E) (a : A) :
  ok_or o e = Ok a -> o = Some a.
Proof. destruct o; simpl; congruence. Qed.

End ResultLemmas.

(** Split every [?] of a hypothesis that says a computation returned [Ok]. *)
Ltac ok_inv :=
  repeat match goal with
  | H : rbind _ _ = Ok _ |- _ =>
      let a := fresh "a" in let H1 := fresh "Hm" in let H2 := fresh "Hk" in
      apply rbind_ok_inv in H as (a & H1 & H2); simpl in H2
  | H : map_err _ _ = Ok _ |- _ => apply map_err_ok_inv in H
  | H : ok_or _ _ = Ok _ |- _ => apply ok_or_ok_inv in H
  | H : Ok _ = Ok _ |- _ => injection H as H
  | H : Err _ = Ok _ |- _ => discriminate H
  | H : Ok _ = Err _ |- _ => discriminate H
  | H : Some _ = Some _ |- _ => injection H as H
  | H : None = Some _ |- _ => discriminate H
  | H : (_, _) = (_, _) |- _ => injection H as H
  | H : (let (_, _) := ?p in _) = Ok _ |- _ => is_var p; destruct p; simpl in H
  | u : unit |- _ => destruct u
  | H : (if ?b then _ else _) = Ok _ |- _ =>
      lazymatch type of b with bool => let Hb := fresh "Hb" in destruct b eqn:Hb end
  end; subst.

(** ** Machine integers

    An unsigned integer of width [w] is a [Z] in [[0, 2^w)]. *)

Definition U8_MAX : Z := 255.
Definition U16_MAX : Z := 65535.
Definition U32_MAX : Z := 4294967295.
Definition U64_MAX : Z := 18446744073709551615.

Definition u8_ok (z : Z) : Prop := (0 <= z <= U8_MAX)%Z.
Definition u16_ok (z : Z) : Prop := (0 <= z <= U16_MAX)%Z.
Definition u64_ok (z : Z) : Prop := (0 <= z <= U64_MAX)%Z.

Definition u64_wrap (z : Z) : Z := Z.land z U64_MAX.

(** [u64::checked_add], [u64::checked_sub], [u64::saturating_add],
    [u64::saturating_sub]. *)
Definition checked_add (a b : Z) : option Z :=
  if (a + b <=? U64_MAX)%Z then Some (a + b)%Z else None.
Definition checked_sub (a b : Z) : option Z :=
  if (b <=? a)%Z then Some (a - b)%Z else None.
Definition saturating_add (a b : Z) : Z := Z.min (a + b) U64_MAX.
Definition saturating_sub (a b : Z) : Z := Z.max (a - b) 0.

(** The length of a [Vec] or slice, as the [usize] (and [u64]) the code sees. *)
Definition len {A : Type} (l : list A) : Z := Z.of_nat (length l).

Lemma len_nil {A} : len (@nil A) = 0%Z.
Proof. reflexivity. Qed.
Lemma len_cons {A} (x : A) l : len (x :: l) = (1 + len l)%Z.
Proof. unfold len; simpl length; lia. Qed.
Lemma len_app {A} (l1 l2 : list A) : len (l1 ++ l2) = (len l1 + len l2)%Z.
Proof. unfold len; rewrite length_app; lia. Qed.
Lemma len_nonneg {A} (l : list A) : (0 <= len l)%Z.
Proof. unfold len; lia. Qed.
Lemma len_to_nat {A} (l : list A) : Z.to_nat (len l) = length l.
Proof. unfold len; lia. Qed.
Lemma len_fmap {A B} (f : A -> B) l : len (f <$> l) = len l.
Proof. unfold len; by rewrite length_fmap. Qed.

Create Rewrite HintDb len.
#[export] Hint Rewrite @len_nil @len_cons @len_app @len_fmap : len.

(** Arithmetic on lengths. *)
Ltac len_lia :=
  autorewrite with len in *;
  repeat match goal with
  | |- context [@len ?A ?l] =>
      lazymatch goal with
      | _ : (0 <= len l)%Z |- _ => fail
      | _ => pose proof (@len_nonneg A l)
      end
  | _ : context [@len ?A ?l] |- _ =>
      lazymatch goal with
      | _ : (0 <= len l)%Z |- _ => fail
      | _ => pose proof (@len_nonneg A l)
      end
  end; lia.

(** ** Bytes *)

#[export] Instance byte_eq_dec : EqDecision byte := Byte.byte_eq_dec.

Definition Z_of_byte (b : byte) : Z := Z.of_N (Byte.to_N b).
(** [z as u8]: the low eight bits. *)
Definition byte_of_Z (z : Z) : byte :=
  match Byte.of_N (Z.to_N (Z.land z 255)) with Some b => b | None => x00 end.

Lemma Z_of_byte_range b : (0 <= Z_of_byte b <= 255)%Z.
Proof. unfold Z_of_byte. pose proof (Byte.to_N_bounded b). lia. Qed.

Lemma land_255 z : Z.land z 255 = (z mod 256)%Z.
Proof. change 255%Z with (Z.ones 8). by rewrite Z.land_ones by lia. Qed.

Lemma Z_of_byte_of_Z z : (0 <= z <= 255)%Z -> Z_of_byte (byte_of_Z z) = z.
Proof.
  intros Hz. unfold Z_of_byte, byte_of_Z.
  rewrite land_255, Z.mod_small by lia.
  destruct (Byte.of_N (Z.to_N z)) as [b |] eqn:Hb.
  - apply Byte.to_of_N in Hb. rewrite Hb. lia.
  - apply Byte.of_N_None_iff in Hb. lia.
Qed.

Lemma Z_of_byte_mod z : Z_of_byte (byte_of_Z z) = (z mod 256)%Z.
Proof.
  pose proof (Z.mod_pos_bound z 256).
  rewrite <- (Z_of_byte_of_Z (z mod 256)) by lia. f_equal.
  unfold byte_of_Z. by rewrite !land_255, Z.mod_mod by lia.
Qed.

Lemma byte_of_Z_of_byte b : byte_of_Z (Z_of_byte b) = b.
Proof.
  unfold byte_of_Z, Z_of_byte. pose proof (Byte.to_N_bounded b).
  rewrite land_255, Z.mod_small by lia. by rewrite N2Z.id, Byte.of_to_N.
Qed.

#[export] Instance Z_of_byte_inj : Inj (=) (=) Z_of_byte.
Proof. intros x y H. by rewrite <- (byte_of_Z_of_byte x), H, byte_of_Z_of_byte. Qed.

#[export] Instance byte_countable : Countable byte.
Proof.
  apply (inj_countable' Byte.to_N (fun n => default x00 (Byte.of_N n))).
  intros b; by rewrite Byte.of_to_N.
Defined.

(** [u64::to_be_bytes]: the eight big-endian bytes, and its [n]-byte form. *)
Fixpoint be_bytes (n : nat) (z : Z) : list byte :=
  match n with
  | O => []
  | S n' => byte_of_Z (Z.shiftr z (8 * Z.of_nat n')) :: be_bytes n' z
  end.

Definition to_be_bytes (z : Z) : list byte := be_bytes 8 z.

(** [to_le_bytes] of an [n]-byte integer. *)
Definition le_bytes (n : nat) (z : Z) : list byte := rev (be_bytes n z).

Lemma length_be_bytes n z : length (be_bytes n z) = n.
Proof. induction n; simpl; congruence. Qed.

(** ** Checked values

    A value of a type whose constructor checks a condition ([String] checks
    UTF-8, a 32-byte array checks its length) is the raw value with the
    evidence that the check passed.  The evidence is a boolean one, so it is
    unique and computation never meets anything but [I]. *)

Record checked {A : Type} (p : A -> bool) : Type := Checked {
  raw : A;
  raw_ok : Is_true (p raw)
}.
Arguments Checked {A p} raw raw_ok.
Arguments raw {A p} _.
Arguments raw_ok {A p} _.

Definition make_with {A : Type} {p : A -> bool} (a : A) (b : bool)
    : (Is_true b -> Is_true (p a)) -> option (checked p) :=
  match b with
  | true => fun H => Some (Checked a (H I))
  | false => fun _ => None
  end.

Definition make {A : Type} (p : A -> bool) (a : A) : option (checked p) :=
  make_with a (p a) (fun H => H).

Section Checked.
Context {A : Type} {p : A -> bool}.

Lemma checked_eq (x y : checked p) : raw x = raw y -> x = y.
Proof.
  destruct x as [a Ha], y as [b Hb]; simpl; intros ->. f_equal. apply Is_true_pi.
Qed.

Lemma make_with_cases (a : A) b (i : Is_true b -> Is_true (p a)) :
  (exists x : checked p, make_with a b i = Some x /\ raw x = a /\ b = true)
  \/ (make_with a b i = None /\ b = false).
Proof. destruct b; simpl; eauto. Qed.

Lemma make_cases (a : A) :
  (exists x : checked p, make p a = Some x /\ raw x = a /\ p a = true)
  \/ (make p a = None /\ p a = false).
Proof. apply make_with_cases. Qed.

Lemma make_raw (x : checked p) : make p (raw x) = Some x.
Proof.
  destruct (make_cases (raw x)) as [(y & Hy & Hr & _) | [_ Hf]].
  - rewrite Hy. f_equal. by apply checked_eq.
  - pose proof (raw_ok x) as Hok. by rewrite Hf in Hok.
Qed.

Lemma make_some (a : A) (x : checked p) : make p a = Some x -> raw x = a.
Proof. destruct (make_cases a) as [(y & -> & <- & _) | [-> _]]; congruence. Qed.

#[export] Instance raw_inj : Inj (=) (=) (@raw A p).
Proof. intros x y. apply checked_eq. Qed.

#[export] Instance checked_eq_dec `{EqDecision A} : EqDecision (checked p).
Proof.
  intros x y. destruct (decide (raw x = raw y)) as [H | H].
  - left. by apply checked_eq.
  - right. congruence.
Defined.

#[export] Instance checked_countable `{Countable A} : Countable (checked p).
Proof.
  apply (inj_countable raw (make p)). apply make_raw.
Defined.

End Checked.
