(* ===== verification/Text.v ===== *)
(** * Byte strings, UTF-8 text and 32-byte hashes

    The value types every record of the system is made of: Rust's [String]
    (bytes that are valid UTF-8, compared bytewise), [pos_core::Hash] (32
    bytes) and the 16-byte ULID identifiers, with slicing, the bytewise order
    and the duplicate and order scans the record constructors run. *)

From Stdlib Require Import String ZArith Lia Bool Sorting.Sorted.
From S2P Require Import Prelude.

Local Open Scope Z_scope.

(** ** Slices *)

(** [slice.get(start..)] and [slice.get(..end)]: [None] out of range. *)
Definition get_from {A} (l : list A) (start : Z) : option (list A) :=
  if start <=? len l then Some (drop (Z.to_nat start) l) else None.
Definition get_to {A} (l : list A) (stop : Z) : option (list A) :=
  if stop <=? len l then Some (take (Z.to_nat stop) l) else None.

Lemma get_from_app {A} (pre rest : list A) :
  get_from (pre ++ rest) (len pre) = Some rest.
Proof.
  unfold get_from. rewrite len_app. pose proof (len_nonneg rest).
  rewrite (proj2 (Z.leb_le _ _)) by lia. by rewrite len_to_nat, drop_app_length.
Qed.

Lemma get_to_app {A} (a rest : list A) : get_to (a ++ rest) (len a) = Some a.
Proof.
  unfold get_to. rewrite len_app. pose proof (len_nonneg rest).
  rewrite (proj2 (Z.leb_le _ _)) by lia. by rewrite len_to_nat, take_app_length.
Qed.

Lemma get_to_len {A} (l a : list A) n : 0 <= n -> get_to l n = Some a -> len a = n.
Proof.
  unfold get_to. intros Hn H. destruct (Z.leb_spec n (len l)); [|done].
  injection H as <-. unfold len in *. rewrite length_take. lia.
Qed.

(** ** UTF-8

    [std::str::from_utf8]: the well-formed byte sequences of the Unicode
    standard (no overlong form, no surrogate, nothing above U+10FFFF). *)

Definition in_range (lo hi : Z) (b : byte) : bool :=
  (lo <=? Z_of_byte b) && (Z_of_byte b <=? hi).

Definition continuation : byte -> bool := in_range 0x80 0xBF.

Definition second_of_three (b0 b1 : byte) : bool :=
  if Z_of_byte b0 =? 0xE0 then in_range 0xA0 0xBF b1
  else if Z_of_byte b0 =? 0xED then in_range 0x80 0x9F b1
  else in_range 0xE1 0xEF b0 && continuation b1.

Definition second_of_four (b0 b1 : byte) : bool :=
  if Z_of_byte b0 =? 0xF0 then in_range 0x90 0xBF b1
  else if Z_of_byte b0 =? 0xF4 then in_range 0x80 0x8F b1
  else in_range 0xF1 0xF3 b0 && continuation b1.

Fixpoint utf8_valid (bs : list byte) : bool :=
  match bs with
  | [] => true
  | b0 :: r0 =>
      if in_range 0 0x7F b0 then utf8_valid r0
      else match r0 with
      | [] => false
      | b1 :: r1 =>
          if in_range 0xC2 0xDF b0 then continuation b1 && utf8_valid r1
          else match r1 with
          | [] => false
          | b2 :: r2 =>
              if in_range 0xE0 0xEF b0
              then second_of_three b0 b1 && continuation b2 && utf8_valid r2
              else match r2 with
              | [] => false
              | b3 :: r3 =>
                  in_range 0xF0 0xF4 b0 && second_of_four b0 b1
                  && continuation b2 && continuation b3 && utf8_valid r3
              end
          end
      end
  end.

(** A Rust [String]. *)
Definition RString : Type := checked utf8_valid.

(** [str::from_utf8] and [str::as_bytes]. *)
Definition from_utf8 : list byte -> option RString := make utf8_valid.
Definition as_bytes (s : RString) : list byte := raw s.

Definition empty_string : RString := @Checked _ utf8_valid [] I.
(** A string literal of the source. *)
Definition lit (s : string) : RString :=
  default empty_string (from_utf8 (list_byte_of_string s)).

Definition is_empty (s : RString) : bool := len (as_bytes s) =? 0.
Definition str_len (s : RString) : Z := len (as_bytes s).

(** ** Fixed-width byte arrays *)

Definition has_len (n : Z) (bs : list byte) : bool := len bs =? n.

(** [pos_core::Hash], a newtype of [[u8; 32]]. *)
Definition Hash : Type := checked (has_len 32).
(** A ULID: [TimelineId], [EventId] and the entity identifiers. *)
Definition Ulid : Type := checked (has_len 16).

(** [<[u8; 32]>::try_from(bytes)]. *)
Definition hash_try_from : list byte -> option Hash := make (has_len 32).
Definition hash_bytes (h : Hash) : list byte := raw h.
Definition hash_zero : Hash := @Checked _ (has_len 32) (replicate 32 x00) I.

(** A concrete stand-in for a hash function, used only where a theorem about
    an arbitrary one is instantiated on a sample: the last 32 bytes, reversed
    and zero-padded. *)
Definition sample_digest (bs : list byte) : Hash :=
  default hash_zero (hash_try_from (take 32 (rev bs ++ replicate 32 x00))).

Definition ulid_bytes (u : Ulid) : list byte := raw u.

Lemma len_checked n (x : checked (has_len n)) : len (raw x) = n.
Proof.
  by apply Z.eqb_eq, Is_true_true_1, (raw_ok x).
Qed.

Lemma len_hash_bytes (h : Hash) : len (hash_bytes h) = 32.
Proof. apply len_checked. Qed.
Lemma len_ulid_bytes (u : Ulid) : len (ulid_bytes u) = 16.
Proof. apply len_checked. Qed.
#[export] Hint Rewrite len_hash_bytes len_ulid_bytes : len.

Lemma from_utf8_as_bytes s : from_utf8 (as_bytes s) = Some s.
Proof. apply make_raw. Qed.
Lemma hash_try_from_bytes h : hash_try_from (hash_bytes h) = Some h.
Proof. apply make_raw. Qed.

(** ** The bytewise order of [str] *)

Fixpoint bytes_lt (a b : list byte) : bool :=
  match a, b with
  | _, [] => false
  | [], _ :: _ => true
  | x :: a', y :: b' =>
      (Z_of_byte x <? Z_of_byte y)
      || ((Z_of_byte x =? Z_of_byte y) && bytes_lt a' b')
  end.

Lemma bytes_lt_irrefl a : bytes_lt a a = false.
Proof. induction a as [|x a IH]; simpl; [done|]. rewrite IH, Z.ltb_irrefl. by destruct (_ =? _). Qed.

Lemma bytes_lt_trans a b c :
  bytes_lt a b = true -> bytes_lt b c = true -> bytes_lt a c = true.
Proof.
  revert b c. induction a as [|x a IH]; intros [|y b] [|z c]; simpl; try done.
  rewrite !orb_true_iff, !andb_true_iff, !Z.ltb_lt, !Z.eqb_eq.
  intros [?|[? ?]] [?|[? ?]]; [left; lia ..|]. right. split; [lia|eauto].
Qed.

Lemma bytes_lt_total a b : bytes_lt a b = false -> a = b \/ bytes_lt b a = true.
Proof.
  revert b. induction a as [|x a IH]; intros [|y b]; simpl; [by auto ..|].
  rewrite orb_false_iff, andb_false_iff, Z.ltb_ge, Z.eqb_neq.
  intros [Hge Hor]. destruct (decide (Z_of_byte x = Z_of_byte y)) as [He|He].
  - destruct Hor as [?|Hl]; [lia|]. destruct (IH _ Hl) as [->|Hg].
    + left. f_equal. by apply (inj Z_of_byte).
    + right. by rewrite He, Z.eqb_refl, Hg, orb_true_r.
  - right. rewrite orb_true_iff, Z.ltb_lt. left. lia.
Qed.

Definition str_lt (a b : RString) : bool := bytes_lt (as_bytes a) (as_bytes b).

Lemma str_lt_irrefl s : str_lt s s = false.
Proof. apply bytes_lt_irrefl. Qed.
Lemma str_lt_trans a b c : str_lt a b = true -> str_lt b c = true -> str_lt a c = true.
Proof. apply bytes_lt_trans. Qed.
Lemma str_lt_total a b : str_lt a b = false -> a = b \/ str_lt b a = true.
Proof.
  unfold str_lt. intros H. destruct (bytes_lt_total _ _ H) as [He|]; [left|by right].
  by apply (inj raw).
Qed.

(** ** Order and duplicate scans *)

(** [items.windows(2).all(|pair| lt(pair[0], pair[1]))]. *)
Fixpoint windows_sorted {A} (lt : A -> A -> bool) (l : list A) : bool :=
  match l with
  | [] => true
  | x :: r => match r with [] => true | y :: _ => lt x y && windows_sorted lt r end
  end.

Definition strictly_sorted (items : list RString) : bool := windows_sorted str_lt items.

(** [let mut seen = BTreeSet::new(); items.iter().all(|item| seen.insert( *item))] *)
Fixpoint all_inserted {A} `{Countable A} (seen : gset A) (items : list A) : bool :=
  match items with
  | [] => true
  | x :: r => if decide (x ∈ seen) then false else all_inserted ({[x]} ∪ seen) r
  end.

Definition all_unique (items : list RString) : bool := all_inserted ∅ items.

Lemma all_inserted_NoDup {A} `{Countable A} (seen : gset A) l :
  all_inserted seen l = true <-> NoDup l /\ forall x, x ∈ l -> x ∉ seen.
Proof.
  revert seen. induction l as [|x l IH]; intros seen; simpl.
  - split; [|done]. intros _. split; [constructor|]. set_solver.
  - rewrite NoDup_cons. destruct (decide (x ∈ seen)) as [Hx|Hx].
    + split; [done|]. intros [_ Hs]. exfalso. by apply (Hs x); [left|].
    + rewrite IH. set_solver.
Qed.

Lemma all_unique_NoDup l : all_unique l = true <-> NoDup l.
Proof. unfold all_unique. rewrite all_inserted_NoDup. set_solver. Qed.

Lemma windows_sorted_StronglySorted {A} (lt : A -> A -> bool) l :
  (forall x y z, lt x y = true -> lt y z = true -> lt x z = true) ->
  windows_sorted lt l = true <-> StronglySorted (fun x y => lt x y = true) l.
Proof.
  intros Htr. induction l as [|x [|y r] IH].
  - split; [constructor|done].
  - split; [repeat constructor|done].
  - cbn [windows_sorted] in *. rewrite andb_true_iff, IH. split.
    + intros [Hxy Hs]. constructor; [done|]. constructor; [done|].
      apply StronglySorted_inv in Hs as [_ Hf].
      eapply Forall_impl; [exact Hf|]. simpl. intros z Hz. by eapply Htr.
    + intros Hs. apply StronglySorted_inv in Hs as [Hs Hf]. by inversion Hf.
Qed.

Lemma windows_sorted_NoDup {A} (lt : A -> A -> bool) l :
  (forall x, lt x x = false) ->
  (forall x y z, lt x y = true -> lt y z = true -> lt x z = true) ->
  windows_sorted lt l = true -> NoDup l.
Proof.
  intros Hir Htr Hs. apply windows_sorted_StronglySorted in Hs; [|done].
  induction Hs as [|x l _ IH Hf]; constructor; [|done].
  intros Hin. rewrite Forall_forall in Hf. specialize (Hf x Hin).
  by rewrite Hir in Hf.
Qed.

Lemma strictly_sorted_NoDup l : strictly_sorted l = true -> NoDup l.
Proof. apply windows_sorted_NoDup; [apply str_lt_irrefl|apply str_lt_trans]. Qed.
