(* ===== verification/SortedMap.v ===== *)
(** * Ordered maps

    Rust's [BTreeMap<String, V>] where the iteration order matters: an
    association list strictly sorted by key. *)

From Stdlib Require Import ZArith Lia Bool Sorting.Sorted.
From S2P Require Import Prelude Text.

Definition smap (V : Type) : Type := list (RString * V).

Section SortedMap.
Context {V : Type}.
Implicit Types (m : smap V) (k : RString) (v : V).

Fixpoint sm_get k m : option V :=
  match m with
  | [] => None
  | (k', v') :: r => if decide (k = k') then Some v' else sm_get k r
  end.

Fixpoint sm_insert k v m : smap V :=
  match m with
  | [] => [(k, v)]
  | (k', v') :: r =>
      if decide (k = k') then (k, v) :: r
      else if str_lt k k' then (k, v) :: m
      else (k', v') :: sm_insert k v r
  end.

(** [values_mut().for_each(...)]. *)
Definition sm_map_values (f : V -> V) m : smap V := (fun e => (e.1, f e.2)) <$> m.

(** [entry(k).or_insert(v)]. *)
Definition sm_or_insert k v m : smap V :=
  match sm_get k m with Some _ => m | None => sm_insert k v m end.

Definition sm_sorted m : Prop := StronglySorted (fun a b => str_lt a b = true) m.*1.

Lemma sm_get_insert_eq k v m : sm_get k (sm_insert k v m) = Some v.
Proof.
  induction m as [|[k' v'] m IH]; simpl; [by rewrite decide_True|].
  destruct (decide (k = k')); simpl; [by rewrite decide_True|].
  destruct (str_lt k k'); simpl; [by rewrite decide_True|]. by rewrite decide_False.
Qed.

Lemma sm_get_insert_ne k k' v m : k <> k' -> sm_get k' (sm_insert k v m) = sm_get k' m.
Proof.
  intros Hne. induction m as [|[j w] m IH]; simpl; [by rewrite decide_False|].
  destruct (decide (k = j)) as [->|]; simpl; [by rewrite !decide_False|].
  destruct (str_lt k j); simpl; [by rewrite (decide_False (P := k' = k))|]. by rewrite IH.
Qed.

Lemma sm_get_map_values f k m : sm_get k (sm_map_values f m) = f <$> sm_get k m.
Proof.
  induction m as [|[k' v'] m IH]; simpl; [done|]. by destruct (decide (k = k')).
Qed.

Lemma sm_keys_map_values f m : (sm_map_values f m).*1 = m.*1.
Proof. unfold sm_map_values. rewrite <- list_fmap_compose. by apply list_fmap_ext. Qed.

Lemma sm_insert_keys k v m x : x ∈ (sm_insert k v m).*1 -> x = k \/ x ∈ m.*1.
Proof.
  induction m as [|[k' v'] m IH]; simpl; [set_solver|].
  destruct (decide (k = k')) as [->|]; simpl; [set_solver|].
  destruct (str_lt k k'); simpl; set_solver.
Qed.

Lemma sm_sorted_insert k v m : sm_sorted m -> sm_sorted (sm_insert k v m).
Proof.
  unfold sm_sorted. induction m as [|[k' v'] m IH]; simpl; intros Hs.
  - repeat constructor.
  - apply StronglySorted_inv in Hs as [Hs Hf].
    destruct (decide (k = k')) as [->|Hne]; simpl; [by constructor|].
    destruct (str_lt k k') eqn:Hlt; simpl.
    + constructor; [by constructor|]. constructor; [done|].
      eapply Forall_impl; [exact Hf|]. simpl. intros x Hx. by eapply str_lt_trans.
    + constructor; [by apply IH|]. apply Forall_forall. intros x Hx.
      apply sm_insert_keys in Hx as [->|Hx].
      * by destruct (str_lt_total _ _ Hlt).
      * rewrite Forall_forall in Hf. by apply Hf.
Qed.

Lemma sm_sorted_map_values f m : sm_sorted m -> sm_sorted (sm_map_values f m).
Proof. unfold sm_sorted. by rewrite sm_keys_map_values. Qed.

Lemma sm_sorted_or_insert k v m : sm_sorted m -> sm_sorted (sm_or_insert k v m).
Proof. unfold sm_or_insert. intros. destruct (sm_get k m); [done|by apply sm_sorted_insert]. Qed.

Lemma sm_get_elem k v m : sm_sorted m -> (k, v) ∈ m <-> sm_get k m = Some v.
Proof.
  unfold sm_sorted. induction m as [|[k' v'] m IH]; simpl; intros Hs; [set_solver|].
  apply StronglySorted_inv in Hs as [Hs Hf]. rewrite elem_of_cons, IH by done.
  destruct (decide (k = k')) as [->|Hne]; [|naive_solver].
  split; [intros [[= ->]|Hin]; [done|]|by intros [= ->]; left].
  exfalso. apply IH in Hin; [|done]. rewrite Forall_forall in Hf.
  specialize (Hf k' (list_elem_of_fmap_2 fst _ _ Hin)). by rewrite str_lt_irrefl in Hf.
Qed.

Lemma sm_get_or_insert k v k' m :
  sm_get k' (sm_or_insert k v m)
  = match sm_get k' m with
    | Some w => Some w
    | None => if decide (k' = k) then Some v else None
    end.
Proof.
  unfold sm_or_insert. destruct (sm_get k m) as [w|] eqn:Hk.
  - destruct (sm_get k' m) eqn:Hk'; [done|]. rewrite decide_False; [done|]. congruence.
  - destruct (decide (k' = k)) as [->|Hne].
    + by rewrite sm_get_insert_eq, Hk.
    + rewrite sm_get_insert_ne by done. by destruct (sm_get k' m).
Qed.
End SortedMap.

Lemma StronglySorted_sublist {A} (R : A -> A -> Prop) (l k : list A) :
  sublist l k -> StronglySorted R k -> StronglySorted R l.
Proof.
  induction 1 as [|x l k Hs IH|x l k Hs IH]; intros Hk; [done| |];
    apply StronglySorted_inv in Hk as [Hk Hf]; [|by apply IH].
  constructor; [by apply IH|]. rewrite Forall_forall in *. intros y Hy. apply Hf.
  by eapply sublist_submseteq, elem_of_submseteq in Hs.
Qed.
