(* ===== verification/Cbor.v ===== *)
(** * Bounded structural CBOR

    The definite-length CBOR writer and the byte cursor of
    [crates/pos-core/src/lib.rs]: [encode_head], [encode_bytes], [encode_hash]
    and [CborCursor].  Every writer of the program only appends to its output
    buffer, so a writer is the list of bytes it appends.  A reader is a
    function from a cursor to a value and the advanced cursor, or an error:
    each caller of the cursor returns at the first error, so the cursor left
    behind by a failed read is never looked at again. *)

From Stdlib Require Import ZArith Lia Bool.
From S2P Require Import Prelude Text.

Local Open Scope Z_scope.

(** ** Writers *)

(** [major << 5] on a [u8]. *)
Definition head_prefix (major : Z) : Z := Z.land (Z.shiftl major 5) 255.

Definition encode_head (major value : Z) : list byte :=
  let prefix := head_prefix major in
  let bytes := to_be_bytes value in
  if value <=? 23 then [byte_of_Z (Z.lor prefix (Z_of_byte (nth 7 bytes x00)))]
  else if value <=? 0xff then byte_of_Z (Z.lor prefix 0x18) :: drop 7 bytes
  else if value <=? 0xffff then byte_of_Z (Z.lor prefix 0x19) :: drop 6 bytes
  else if value <=? 0xffffffff then byte_of_Z (Z.lor prefix 0x1a) :: drop 4 bytes
  else byte_of_Z (Z.lor prefix 0x1b) :: bytes.

Definition encode_bytes (bytes : list byte) (major : Z) : list byte :=
  encode_head major (len bytes) ++ bytes.

Definition encode_hash (hash : Hash) : list byte := encode_bytes (hash_bytes hash) 2.

(** ** The cursor *)

Inductive CborReadError := InvalidEncoding.

Record CborCursor := Cursor { cbytes : list byte; coffset : Z }.

Definition cursor_new (bytes : list byte) : CborCursor := Cursor bytes 0.

Definition is_finished (c : CborCursor) : bool := coffset c =? len (cbytes c).

Definition advance (n : Z) (c : CborCursor) : CborCursor :=
  Cursor (cbytes c) (coffset c + n).

(** A reader over the cursor, with error type [E]. *)
Definition Parser (E A : Type) : Type := CborCursor -> result E (A * CborCursor).

Definition pret {E A} (a : A) : Parser E A := fun c => Ok (a, c).
Definition pbind {E A B} (p : Parser E A) (k : A -> Parser E B) : Parser E B :=
  fun c => match p c with Ok (a, c') => k a c' | Err e => Err e end.
Definition plift {E A} (m : result E A) : Parser E A :=
  fun c => match m with Ok a => Ok (a, c) | Err e => Err e end.
Definition pmap_err {E F A} (f : E -> F) (p : Parser E A) : Parser F A :=
  fun c => map_err f (p c).

Declare Scope parser_scope.
Notation "'let!' x ':=' e 'in' k" := (pbind e (fun x => k))
  (at level 10, x pattern, e at level 200, k at level 200,
   format "'[v' 'let!'  x  ':='  e  'in' '/' k ']'") : parser_scope.
Open Scope parser_scope.

(** [consume_if] never fails: it reports whether the byte was there. *)
Definition consume_if (b : byte) (c : CborCursor) : bool * CborCursor :=
  match cbytes c !! Z.to_nat (coffset c) with
  | Some b' => if decide (b' = b) then (true, advance 1 c) else (false, c)
  | None => (false, c)
  end.

Definition ctake (length : Z) : Parser CborReadError (list byte) := fun c =>
  match get_from (cbytes c) (coffset c) ≫= (fun remaining => get_to remaining length) with
  | Some bs => Ok (bs, advance length c)
  | None => Err InvalidEncoding
  end.

Definition cbyte : Parser CborReadError byte :=
  let! bytes := ctake 1 in pret (default x00 (head bytes)).

Definition cfixed (expected : list byte) : Parser CborReadError unit :=
  let! actual := ctake (len expected) in
  if decide (actual = expected) then pret tt else plift (Err InvalidEncoding).

(** [(value << 8) | u64::from( *byte)] folded from zero. *)
Definition shift_in (value : Z) (b : byte) : Z :=
  Z.lor (u64_wrap (Z.shiftl value 8)) (Z_of_byte b).

Definition unsigned_bytes (length : Z) : Parser CborReadError Z :=
  let! bytes := ctake length in pret (fold_left shift_in bytes 0).

Definition cnumber (N : Z) : Parser CborReadError Z := unsigned_bytes N.

Definition chead (expected_major : Z) : Parser CborReadError Z :=
  let! first := cbyte in
  if negb (Z.shiftr (Z_of_byte first) 5 =? expected_major)
  then plift (Err InvalidEncoding)
  else let info := Z.land (Z_of_byte first) 0x1f in
    if info <=? 23 then pret info
    else if info =? 24 then cnumber 1
    else if info =? 25 then cnumber 2
    else if info =? 26 then cnumber 4
    else if info =? 27 then cnumber 8
    else plift (Err InvalidEncoding).

(** ** Two judgements on readers

    [yields p a enc]: wherever [enc] stands in the input, [p] started at it
    returns [a] and stops right after it.  [returns p P]: whatever [p] returns
    satisfies [P].  Both compose along [pbind], so a record's reader is
    verified field by field. *)

Definition yields {E A} (p : Parser E A) (a : A) (enc : list byte) : Prop :=
  forall pre rest,
    p (Cursor (pre ++ enc ++ rest) (len pre))
    = Ok (a, Cursor (pre ++ enc ++ rest) (len pre + len enc)).

Definition returns {E A} (p : Parser E A) (P : A -> Prop) : Prop :=
  forall c a c', p c = Ok (a, c') -> P a.

Create HintDb yields.
Create HintDb returns.

Section Judgements.
Context {E A B : Type}.

Lemma yields_ret (a : A) : yields (@pret E A a) a [].
Proof. intros pre rest. unfold pret. autorewrite with len. by rewrite Z.add_0_r. Qed.

Lemma yields_lift (m : result E A) (a : A) : m = Ok a -> yields (plift m) a [].
Proof. intros ->. apply yields_ret. Qed.

Lemma yields_bind (p : Parser E A) (k : A -> Parser E B) a b e1 e2 :
  yields p a e1 -> yields (k a) b e2 -> yields (pbind p k) b (e1 ++ e2).
Proof.
  intros Hp Hk pre rest. unfold pbind.
  specialize (Hp pre (e2 ++ rest)). specialize (Hk (pre ++ e1) rest).
  rewrite <- !app_assoc in *. rewrite Hp. rewrite len_app in *. rewrite Hk.
  by rewrite Z.add_assoc.
Qed.

Lemma yields_bind_last (p : Parser E A) (k : A -> Parser E B) a b e1 :
  yields p a e1 -> yields (k a) b [] -> yields (pbind p k) b e1.
Proof. intros H1 H2. rewrite <- (app_nil_r e1). by eapply yields_bind. Qed.

Lemma yields_map_err {F} (f : E -> F) (p : Parser E A) a e :
  yields p a e -> yields (pmap_err f p) a e.
Proof. intros H pre rest. unfold pmap_err. by rewrite H. Qed.

Lemma yields_run (p : Parser E A) a enc :
  yields p a enc -> p (cursor_new enc) = Ok (a, Cursor enc (len enc)).
Proof.
  intros H. specialize (H [] []). rewrite !app_nil_r in H. exact H.
Qed.

Lemma returns_ret (a : A) (P : A -> Prop) : P a -> returns (@pret E A a) P.
Proof. unfold returns, pret. intros ? ??? [= -> _]. done. Qed.

Lemma returns_lift (m : result E A) (P : A -> Prop) :
  (forall a, m = Ok a -> P a) -> returns (plift m) P.
Proof. unfold returns, plift. intros H ??? Hm. destruct m; [|done]. injection Hm as -> _. by apply H. Qed.

Lemma returns_bind (p : Parser E A) (k : A -> Parser E B) (P : A -> Prop) (Q : B -> Prop) :
  returns p P -> (forall a, P a -> returns (k a) Q) -> returns (pbind p k) Q.
Proof.
  unfold returns, pbind. intros Hp Hk c b c' H.
  destruct (p c) as [[a c1]|] eqn:Hc; [|done]. eauto.
Qed.

Lemma returns_map_err {F} (f : E -> F) (p : Parser E A) P :
  returns p P -> returns (pmap_err f p) P.
Proof. unfold returns, pmap_err. intros H ??? Hm. apply map_err_ok_inv in Hm. eauto. Qed.

Lemma returns_weaken (p : Parser E A) (P Q : A -> Prop) :
  returns p P -> (forall a, P a -> Q a) -> returns p Q.
Proof. unfold returns. eauto. Qed.

Lemma returns_any (p : Parser E A) : returns p (fun _ => True).
Proof. done. Qed.

End Judgements.

#[export] Hint Resolve yields_ret yields_map_err : yields.
#[export] Hint Resolve returns_ret returns_map_err : returns.

(** Every encoding that reads back is prefix-free, hence injective. *)
Lemma yields_inj {E A} (p : Parser E A) a b e1 e2 r1 r2 :
  yields p a e1 -> yields p b e2 -> e1 ++ r1 = e2 ++ r2 -> a = b /\ r1 = r2.
Proof.
  intros H1 H2 He. specialize (H1 [] r1). specialize (H2 [] r2). simpl in *.
  rewrite He in H1. rewrite H1 in H2. injection H2 as -> Hl.
  split; [done|]. eapply app_inj_1; [|exact He]. unfold len in *. lia.
Qed.

(** ** Big-endian numbers *)

Lemma u64_wrap_mod z : u64_wrap z = z mod 2 ^ 64.
Proof. unfold u64_wrap. change U64_MAX with (Z.ones 64). by rewrite Z.land_ones by lia. Qed.

Lemma lor_shifted v b : 0 <= b < 256 -> Z.lor (v * 256) b = v * 256 + b.
Proof.
  intros Hb. rewrite <- Z.add_lor_land.
  replace (Z.land (v * 256) b) with 0; [lia|].
  symmetry. apply Z.bits_inj'. intros n Hn. rewrite Z.land_spec, Z.bits_0.
  change 256 with (2 ^ 8). rewrite <- Z.shiftl_mul_pow2, Z.shiftl_spec by lia.
  destruct (Z.lt_ge_cases n 8) as [Hlt|Hge].
  - by rewrite (Z.testbit_neg_r v) by lia.
  - rewrite (Z.bits_above_log2 b n); [by rewrite andb_false_r|lia|].
    destruct (decide (b = 0)) as [->|]; [simpl; lia|].
    enough (Z.log2 b < 8) by lia. apply Z.log2_lt_pow2; lia.
Qed.

Lemma shift_in_small v b : 0 <= v < 2 ^ 56 -> shift_in v b = v * 256 + Z_of_byte b.
Proof.
  intros Hv. unfold shift_in. rewrite u64_wrap_mod, Z.shiftl_mul_pow2 by lia.
  rewrite Z.mod_small by (change (2 ^ 64) with (2 ^ 56 * 2 ^ 8); lia).
  change (2 ^ 8) with 256. apply lor_shifted. pose proof (Z_of_byte_range b). lia.
Qed.

Lemma shift_in_ok v b : u64_ok (shift_in v b).
Proof.
  unfold shift_in, u64_ok. pose proof (Z_of_byte_range b) as Hb.
  rewrite u64_wrap_mod, Z.shiftl_mul_pow2 by lia.
  change (2 ^ 64) with (2 ^ 56 * 2 ^ 8).
  rewrite Z.mul_mod_distr_r by lia. change (2 ^ 8) with 256.
  rewrite lor_shifted by lia. pose proof (Z.mod_pos_bound v (2 ^ 56) ltac:(lia)).
  unfold U64_MAX. lia.
Qed.

Lemma fold_shift_ok bs v : u64_ok v -> u64_ok (fold_left shift_in bs v).
Proof.
  revert v. induction bs as [|b bs IH]; simpl; intros v Hv; [done|].
  apply IH, shift_in_ok.
Qed.

(** The fold over [n] bytes continues the number read so far. *)
Lemma fold_be_bytes n z v :
  0 <= v -> 0 <= z -> v * 256 ^ Z.of_nat n + z mod 256 ^ Z.of_nat n <= U64_MAX ->
  fold_left shift_in (be_bytes n z) v = v * 256 ^ Z.of_nat n + z mod 256 ^ Z.of_nat n.
Proof.
  revert v. induction n as [|n IH]; intros v Hv Hz Hb.
  - simpl. rewrite Z.mod_1_r. lia.
  - cbn [be_bytes fold_left].
    set (d := Z.shiftr z (8 * Z.of_nat n)) in *.
    assert (Hd : Z_of_byte (byte_of_Z d) = d mod 256) by apply Z_of_byte_mod.
    assert (Hpow : 256 ^ Z.of_nat (S n) = 256 * 256 ^ Z.of_nat n)
      by (rewrite Nat2Z.inj_succ, Z.pow_succ_r; lia).
    assert (Hp : 0 < 256 ^ Z.of_nat n) by (apply Z.pow_pos_nonneg; lia).
    assert (Hdz : d = z / 256 ^ Z.of_nat n).
    { unfold d. rewrite Z.shiftr_div_pow2 by lia. f_equal.
      change 256 with (2 ^ 8). by rewrite <- Z.pow_mul_r by lia. }
    assert (Hm : z mod 256 ^ Z.of_nat (S n)
        = 256 ^ Z.of_nat n * (d mod 256) + z mod 256 ^ Z.of_nat n).
    { rewrite Hpow, (Z.mul_comm 256), Z.rem_mul_r, Hdz by lia. lia. }
    rewrite Hm, Hpow in *.
    pose proof (Z.mod_pos_bound z (256 ^ Z.of_nat n) Hp).
    pose proof (Z.mod_pos_bound d 256 ltac:(lia)).
    assert (v < 2 ^ 56) by (unfold U64_MAX in Hb; nia).
    rewrite shift_in_small, Hd by lia. rewrite IH; nia.
Qed.

Lemma fold_be_bytes_small n z :
  0 <= z < 256 ^ Z.of_nat n -> z <= U64_MAX ->
  fold_left shift_in (be_bytes n z) 0 = z.
Proof. intros Hz Hm. rewrite fold_be_bytes; rewrite ?Z.mod_small by lia; lia. Qed.

(** ** The cursor reads what the writers wrote *)

Lemma yields_ctake enc n : n = len enc -> yields (ctake n) enc enc.
Proof.
  intros -> pre rest. unfold ctake. cbn [cbytes coffset].
  rewrite get_from_app. cbn [mbind option_bind]. by rewrite get_to_app.
Qed.

Lemma ctake_ok n bs c c' : 0 <= n -> ctake n c = Ok (bs, c') -> len bs = n /\ c' = advance n c.
Proof.
  unfold ctake. intros Hn H. destruct (get_from _ _) as [r|]; [|done].
  cbn [mbind option_bind] in H. destruct (get_to r n) eqn:Hg; [|done].
  injection H as <- <-. split; [by eapply get_to_len|done].
Qed.

Lemma yields_cfixed enc : yields (cfixed enc) tt enc.
Proof.
  eapply yields_bind_last; [by apply yields_ctake|].
  rewrite decide_True by done. apply yields_ret.
Qed.

Lemma yields_cbyte b : yields cbyte b [b].
Proof. eapply yields_bind_last; [by apply yields_ctake|]. apply yields_ret. Qed.

Lemma yields_unsigned_bytes n z :
  0 <= z < 256 ^ Z.of_nat n -> z <= U64_MAX ->
  yields (unsigned_bytes (Z.of_nat n)) z (be_bytes n z).
Proof.
  intros Hz Hm. eapply yields_bind_last.
  - apply yields_ctake. unfold len. by rewrite length_be_bytes.
  - rewrite fold_be_bytes_small by done. apply yields_ret.
Qed.

Lemma returns_unsigned_bytes n : returns (unsigned_bytes n) u64_ok.
Proof.
  eapply returns_bind; [apply returns_any|]. intros bs _.
  apply returns_ret, fold_shift_ok. unfold u64_ok, U64_MAX. lia.
Qed.

Lemma returns_chead major : returns (chead major) u64_ok.
Proof.
  eapply returns_bind; [apply returns_any|]. intros b _. simpl.
  destruct (negb _); [apply returns_lift; done|].
  repeat match goal with
  | |- context [if ?b then _ else _] => destruct b eqn:?
  end; try apply returns_unsigned_bytes; [|apply returns_lift; done].
  apply returns_ret. unfold u64_ok, U64_MAX.
  change 0x1f with (Z.ones 5). rewrite Z.land_ones by lia.
  pose proof (Z.mod_pos_bound (Z_of_byte b) (2 ^ 5)). lia.
Qed.

(** The first byte of a head: three bits of major type, five of information. *)
Lemma head_byte major info :
  0 <= major <= 7 -> 0 <= info <= 31 ->
  Z_of_byte (byte_of_Z (Z.lor (head_prefix major) info)) = major * 32 + info.
Proof.
  intros Hm Hi. unfold head_prefix.
  assert (Hall : forallb (fun m => forallb (fun i =>
      Z_of_byte (byte_of_Z (Z.lor (Z.land (Z.shiftl m 5) 255) i)) =? m * 32 + i)
      (seqZ 0 32)) (seqZ 0 8) = true) by (vm_compute; reflexivity).
  rewrite forallb_forall in Hall.
  assert (Hin : In major (seqZ 0 8)) by (apply list_elem_of_In, elem_of_seqZ; lia).
  specialize (Hall _ Hin). rewrite forallb_forall in Hall.
  apply Z.eqb_eq, Hall. apply list_elem_of_In, elem_of_seqZ. lia.
Qed.

Lemma head_byte_major major info :
  0 <= info <= 31 -> Z.shiftr (major * 32 + info) 5 = major.
Proof.
  intros Hi. rewrite Z.shiftr_div_pow2 by lia. change (2 ^ 5) with 32.
  rewrite Z.div_add_l, Z.div_small by lia. lia.
Qed.

Lemma head_byte_info major info :
  0 <= info <= 31 -> Z.land (major * 32 + info) 0x1f = info.
Proof.
  intros Hi. change 0x1f with (Z.ones 5). rewrite Z.land_ones by lia.
  change (2 ^ 5) with 32. rewrite Z.add_comm, Z.mod_add by lia. apply Z.mod_small; lia.
Qed.

(** One head whose argument takes [n] further bytes. *)
Lemma yields_chead_long major value info n :
  0 <= major <= 7 -> 0 <= value < 256 ^ Z.of_nat n -> value <= U64_MAX ->
  (info, n) ∈ [(24, 1%nat); (25, 2%nat); (26, 4%nat); (27, 8%nat)] ->
  yields (chead major) value
    (byte_of_Z (Z.lor (head_prefix major) info) :: be_bytes n value).
Proof.
  intros Hm Hv Hmax Hin. change (?b :: ?r) with ([b] ++ r).
  assert (Hi : 24 <= info <= 27) by (set_unfold; naive_solver lia).
  eapply yields_bind; [apply yields_cbyte|]. cbn beta.
  rewrite head_byte, head_byte_major, head_byte_info, Z.eqb_refl by lia. cbn [negb].
  apply yields_unsigned_bytes in Hv; [|done]. set_unfold.
  destruct Hin as [[= -> ->]|[[= -> ->]|[[= -> ->]|[[= -> ->]|[]]]]]; exact Hv.
Qed.

Lemma yields_chead major value :
  0 <= major <= 7 -> u64_ok value -> yields (chead major) value (encode_head major value).
Proof.
  unfold u64_ok. intros Hm Hv. unfold encode_head, to_be_bytes.
  destruct (Z.leb_spec value 23) as [H|H].
  { eapply yields_bind_last; [apply yields_cbyte|]. cbn beta.
    cbn [be_bytes nth]. change (8 * Z.of_nat 0) with 0. rewrite Z.shiftr_0_r, (Z_of_byte_of_Z value) by lia.
    rewrite head_byte, head_byte_major, head_byte_info, Z.eqb_refl by lia. cbn [negb].
    rewrite (proj2 (Z.leb_le _ _)) by lia. apply yields_ret. }
  change (drop 7 (be_bytes 8 value)) with (be_bytes 1 value).
  change (drop 6 (be_bytes 8 value)) with (be_bytes 2 value).
  change (drop 4 (be_bytes 8 value)) with (be_bytes 4 value).
  repeat match goal with
  | |- context [?v <=? ?k] => destruct (Z.leb_spec v k)
  end; (eapply yields_chead_long; [done|cbn; unfold U64_MAX in *; lia|lia|set_solver]).
Qed.

Lemma len_encode_head_pos major value : 1 <= len (encode_head major value).
Proof.
  unfold encode_head. cbv zeta. repeat case_match; rewrite len_cons; len_lia.
Qed.

Lemma len_encode_head major value :
  len (encode_head major value)
  = if value <=? 23 then 1 else if value <=? 0xff then 2
    else if value <=? 0xffff then 3 else if value <=? 0xffffffff then 5 else 9.
Proof. unfold encode_head. cbv zeta. by repeat case_match. Qed.

Lemma len_encode_head_le9 major value : len (encode_head major value) <= 9.
Proof. rewrite len_encode_head. repeat case_match; lia. Qed.

Lemma len_encode_head_small major value k :
  value <= k -> len (encode_head major value) <= len (encode_head major k).
Proof. intros. rewrite !len_encode_head. repeat case_match; lia. Qed.

Lemma encode_hash_eq h : encode_hash h = x58 :: x20 :: hash_bytes h.
Proof. unfold encode_hash, encode_bytes. by rewrite len_hash_bytes. Qed.

Lemma len_encode_hash h : len (encode_hash h) = 34.
Proof.
  unfold encode_hash, encode_bytes. rewrite len_app, len_hash_bytes. reflexivity.
Qed.
#[export] Hint Rewrite len_encode_hash : len.

#[export] Hint Resolve yields_cfixed yields_chead yields_ctake : yields.
#[export] Hint Resolve returns_chead returns_any : returns.

(** ** The preferred head is the shortest one *)

Lemma fold_shift_bound bs v k :
  0 <= v < 256 ^ k -> 0 <= k -> k + len bs <= 8 ->
  0 <= fold_left shift_in bs v < 256 ^ (k + len bs).
Proof.
  revert v k. induction bs as [|b bs IH]; intros v k Hv Hk Hl.
  - change (len (@nil byte)) with 0. rewrite Z.add_0_r. done.
  - rewrite len_cons in *. pose proof (len_nonneg bs). pose proof (Z_of_byte_range b).
    assert (256 ^ k <= 256 ^ 7) by (apply Z.pow_le_mono_r; lia).
    replace (k + (1 + len bs)) with (Z.succ k + len bs) by lia.
    apply IH; [|lia ..]. rewrite shift_in_small by lia.
    rewrite Z.pow_succ_r by lia. lia.
Qed.

Lemma unsigned_bytes_bound n v c c' :
  0 <= n <= 8 -> unsigned_bytes n c = Ok (v, c') ->
  0 <= v < 256 ^ n /\ coffset c' = coffset c + n.
Proof.
  unfold unsigned_bytes, pbind. intros Hn H.
  destruct (ctake n c) as [[bs c1]|] eqn:Hc; [|done].
  apply ctake_ok in Hc as [Hl ->]; [|lia]. injection H as <- <-. split; [|done].
  pose proof (fold_shift_bound bs 0 0) as Hb. rewrite Hl in Hb. apply Hb; cbn; lia.
Qed.

(** The writer's heads are the shortest the cursor accepts.  Whenever
    [CborCursor::head] accepts some head of the expected major type and returns
    [value], the head it consumed is at least as long as the one [encode_head]
    writes for [value]; and [encode_head]'s own output, wherever it stands in
    the input, is read back as [value] with the cursor right behind it. *)
Theorem encode_head_preferred major value c c' :
  0 <= major <= 7 ->
  chead major c = Ok (value, c') ->
  len (encode_head major value) <= coffset c' - coffset c
  /\ u64_ok value
  /\ forall pre rest,
      chead major (Cursor (pre ++ encode_head major value ++ rest) (len pre))
      = Ok (value, Cursor (pre ++ encode_head major value ++ rest)
                     (len pre + len (encode_head major value))).
Proof.
  intros Hm Hc. assert (Hok : u64_ok value) by (eapply returns_chead; exact Hc).
  split; [|split; [done|by apply yields_chead]].
  rewrite len_encode_head. unfold chead, pbind in Hc.
  destruct (cbyte c) as [[b c1]|] eqn:Hb; [|done].
  assert (Ho : coffset c1 = coffset c + 1).
  { unfold cbyte, pbind in Hb. destruct (ctake 1 c) as [[bs c2]|] eqn:Ht; [|done].
    apply ctake_ok in Ht as [_ ->]; [|lia]. injection Hb as _ <-. done. }
  destruct (negb _); [done|]. cbv zeta in Hc. unfold u64_ok in Hok. unfold pret in Hc.
  repeat match type of Hc with
  | context [if ?b then _ else _] => destruct b eqn:?
  end; try done; try (apply unsigned_bytes_bound in Hc as [? Hc]; [|lia]);
    try (injection Hc as <- <-);
    change (256 ^ 1) with 256 in *; change (256 ^ 2) with 65536 in *;
    change (256 ^ 4) with 4294967296 in *; repeat case_match; lia.
Qed.

Lemma encode_head_preferred_witness :
  len (encode_head 0 500) <= 9 - 0.
Proof.
  refine (proj1 (encode_head_preferred 0 500
    (cursor_new [x1b; x00; x00; x00; x00; x00; x00; x01; xf4])
    (Cursor [x1b; x00; x00; x00; x00; x00; x00; x01; xf4] 9) _ _)).
  - lia.
  - vm_compute. reflexivity.
Defined.
