(* ===== verification/Ordering.v ===== *)
(** * Total orders

    Rust's [Ord]: derived comparisons of numbers, byte strings, tuples, options and
    structs, the strictly-ascending scan of a slice, and the searches of a sorted
    slice.  [OrdLaws] states that a comparison is a total order; the derived ones
    discharge it by instances. *)

From Stdlib Require Import ZArith Lia Bool Sorted.
From stdpp Require Import sorting.
From S2P Require Import Prelude Text.

Local Open Scope Z_scope.

(** ** Comparisons *)

Class Ord (A : Type) := cmp : A -> A -> comparison.

Class OrdLaws (A : Type) `{Ord A} : Prop := {
  cmp_eq (x y : A) : cmp x y = Eq <-> x = y;
  cmp_sym (x y : A) : cmp y x = CompOpp (cmp x y);
  cmp_trans (x y z : A) : cmp x y = Lt -> cmp y z = Lt -> cmp x z = Lt;
}.

(** [Ordering::then_with]. *)
Definition then_cmp (a b : comparison) : comparison := match a with Eq => b | _ => a end.

(** A struct compares by its fields, in order: by a tuple of them. *)
Definition ord_by {A B} `{Ord B} (f : A -> B) : Ord A := fun x y => cmp (f x) (f y).

#[export] Instance Z_ord : Ord Z := Z.compare.
#[export] Instance nat_ord : Ord nat := Nat.compare.
#[export] Instance byte_ord : Ord byte := ord_by Z_of_byte.
#[export] Instance list_ord {A} `{Ord A} : Ord (list A) :=
  fix go l1 l2 := match l1, l2 with
  | [], [] => Eq
  | [], _ => Lt
  | _, [] => Gt
  | x :: r1, y :: r2 => then_cmp (cmp x y) (go r1 r2)
  end.
#[export] Instance checked_ord {A} `{Ord A} (p : A -> bool) : Ord (checked p) := ord_by raw.
#[export] Instance prod_ord {A B} `{Ord A} `{Ord B} : Ord (A * B) :=
  fun x y => then_cmp (cmp x.1 y.1) (cmp x.2 y.2).
#[export] Instance option_ord {A} `{Ord A} : Ord (option A) := fun x y =>
  match x, y with
  | None, None => Eq | None, Some _ => Lt | Some _, None => Gt | Some a, Some b => cmp a b
  end.

Definition ltb {A} `{Ord A} (x y : A) : bool := match cmp x y with Lt => true | _ => false end.
Definition leb {A} `{Ord A} (x y : A) : bool := match cmp x y with Gt => false | _ => true end.

(** ** Laws *)

Lemma ord_by_laws {A B} `{OrdLaws B} (f : A -> B) : Inj (=) (=) f -> @OrdLaws A (ord_by f).
Proof.
  intros Hf. split; unfold cmp, ord_by; intros.
  - rewrite cmp_eq. split; [apply Hf|by intros ->].
  - apply cmp_sym.
  - by eapply cmp_trans.
Qed.

#[export] Instance Z_ord_laws : OrdLaws Z.
Proof.
  split; unfold cmp, Z_ord; intros; [apply Z.compare_eq_iff|symmetry; apply Zcompare_antisym|].
  rewrite Z.compare_lt_iff in *. lia.
Qed.
#[export] Instance nat_ord_laws : OrdLaws nat.
Proof.
  split; unfold cmp, nat_ord; intros; [apply Nat.compare_eq_iff|apply Nat.compare_antisym|].
  rewrite Nat.compare_lt_iff in *. lia.
Qed.
#[export] Instance byte_ord_laws : OrdLaws byte := ord_by_laws Z_of_byte _.
#[export] Instance checked_ord_laws {A} `{OrdLaws A} (p : A -> bool) : OrdLaws (checked p) :=
  ord_by_laws raw _.

Section Combine.
Context {A B : Type} `{OrdLaws A} `{OrdLaws B}.

Lemma cmp_refl (x : A) : cmp x x = Eq.
Proof. by apply cmp_eq. Qed.

Lemma then_cmp_lt a b : then_cmp a b = Lt <-> a = Lt \/ (a = Eq /\ b = Lt).
Proof. destruct a, b; naive_solver. Qed.

Lemma pair_lt_trans (x y z : A) (c d e : comparison) :
  (c = Lt -> d = Lt -> e = Lt) ->
  then_cmp (cmp x y) c = Lt -> then_cmp (cmp y z) d = Lt -> then_cmp (cmp x z) e = Lt.
Proof.
  intros Hc [Hxy|[->%cmp_eq Hxy]]%then_cmp_lt [Hyz|[->%cmp_eq Hyz]]%then_cmp_lt; apply then_cmp_lt.
  - left. by eapply cmp_trans.
  - by left.
  - by left.
  - right. rewrite cmp_refl. auto.
Qed.

#[export] Instance prod_ord_laws : OrdLaws (A * B).
Proof.
  split; unfold cmp, prod_ord; [intros [] []; cbn..|intros ???; apply pair_lt_trans, cmp_trans].
  - destruct (cmp a a0) eqn:Hc; cbn; [|naive_solver (rewrite cmp_refl in *; done)..].
    apply cmp_eq in Hc as ->. rewrite cmp_eq. naive_solver.
  - rewrite (cmp_sym a), (cmp_sym b). by destruct (cmp a a0).
Qed.

#[export] Instance list_ord_laws : OrdLaws (list A).
Proof.
  split; unfold cmp.
  - induction x as [|a x IH]; intros [|b y]; cbn; [done..|]. destruct (cmp a b) eqn:Hc; cbn.
    + apply cmp_eq in Hc as ->. rewrite IH. naive_solver.
    + split; [done|]. intros [= -> _]. by rewrite cmp_refl in Hc.
    + split; [done|]. intros [= -> _]. by rewrite cmp_refl in Hc.
  - induction x as [|a x IH]; intros [|b y]; cbn; [done..|]. rewrite (cmp_sym a), IH. by destruct (cmp a b).
  - induction x as [|a x IH]; intros [|b y] [|c z]; cbn; try done. apply pair_lt_trans, IH.
Qed.

#[export] Instance option_ord_laws : OrdLaws (option A).
Proof.
  split; unfold cmp, option_ord.
  - intros [x|] [y|]; [rewrite cmp_eq|..]; naive_solver.
  - intros [x|] [y|]; [apply cmp_sym|done..].
  - intros [x|] [y|] [z|]; try done. apply cmp_trans.
Qed.
End Combine.

Section Lt.
Context {A : Type} `{OrdLaws A}.
Implicit Types x y z : A.

Lemma ltb_lt x y : ltb x y = true <-> cmp x y = Lt.
Proof. unfold ltb. by destruct (cmp x y). Qed.
Lemma ltb_irrefl x : ltb x x = false.
Proof. unfold ltb. by rewrite cmp_refl. Qed.
Lemma ltb_trans x y z : ltb x y = true -> ltb y z = true -> ltb x z = true.
Proof. rewrite !ltb_lt. apply cmp_trans. Qed.
Lemma ltb_asym x y : ltb x y = true -> ltb y x = false.
Proof. intros Hx. destruct (ltb y x) eqn:Hy; [|done]. pose proof (ltb_trans _ _ _ Hx Hy). by rewrite ltb_irrefl in *. Qed.
Lemma cmp_gt x y : cmp x y = Gt <-> cmp y x = Lt.
Proof. rewrite (cmp_sym x y). by destruct (cmp x y). Qed.
Lemma leb_ltb x y : leb x y = negb (ltb y x).
Proof. unfold leb, ltb. rewrite (cmp_sym x y). by destruct (cmp x y). Qed.
Lemma ltb_total x y : ltb x y = false -> x = y \/ ltb y x = true.
Proof. rewrite !ltb_lt, <- cmp_gt, <- cmp_eq. unfold ltb. destruct (cmp x y); naive_solver. Qed.
Lemma leb_ltb_trans x y z : leb x y = true -> ltb y z = true -> ltb x z = true.
Proof.
  rewrite leb_ltb. intros Hxy%negb_true_iff Hyz. destruct (ltb_total _ _ Hxy) as [->|]; [done|by eapply ltb_trans].
Qed.
Lemma leb_refl x : leb x x = true.
Proof. rewrite leb_ltb. by rewrite ltb_irrefl. Qed.
Lemma ltb_leb x y : ltb x y = true -> leb x y = true.
Proof. intros Hx. rewrite leb_ltb. by rewrite ltb_asym. Qed.
Lemma leb_trans x y z : leb x y = true -> leb y z = true -> leb x z = true.
Proof.
  rewrite !leb_ltb, !negb_true_iff. intros Hxy Hyz. destruct (ltb_total _ _ Hxy) as [->|Hx]; [done|].
  destruct (ltb_total _ _ Hyz) as [->|Hy]; [by apply ltb_asym|]. apply ltb_asym. by eapply ltb_trans.
Qed.
End Lt.

(** ** The ascending scan

    [items.windows(2).try_for_each(..)], with the errors of an equal and of a
    descending pair. *)

Section Ascending.
Context {E A : Type} (compare : A -> A -> comparison) (equal greater : E).

Fixpoint ascending (items : list A) : result E unit :=
  match items with
  | [] => Ok tt
  | x :: rest =>
      match rest with
      | [] => Ok tt
      | y :: _ => let? _ := match compare x y with Lt => Ok tt | Eq => Err equal | Gt => Err greater end in
                  ascending rest
      end
  end.

Definition below (x y : A) : bool := match compare x y with Lt => true | _ => false end.

Lemma ascending_windows items : ascending items = Ok tt <-> windows_sorted below items = true.
Proof.
  induction items as [|x [|y items] IH]; [done..|]. cbn [ascending windows_sorted]. unfold below at 1.
  destruct (compare x y); cbn [rbind andb]; done.
Qed.
End Ascending.

Lemma ascending_sorted {E A K} `{OrdLaws K} (f : A -> K) (equal greater : E) items :
  ascending (fun x y => cmp (f x) (f y)) equal greater items = Ok tt
  <-> StronglySorted (fun x y => ltb (f x) (f y) = true) items.
Proof.
  rewrite ascending_windows. rewrite <- windows_sorted_StronglySorted; [done|].
  intros x y z. apply ltb_trans.
Qed.

Lemma sorted_map {A B} (R : B -> B -> Prop) (f : A -> B) items :
  StronglySorted (fun x y => R (f x) (f y)) items <-> StronglySorted R (f <$> items).
Proof.
  induction items as [|x items IH]; cbn; [split; constructor|]. split; intros [Hs Hf]%StronglySorted_inv;
    constructor; [by apply IH|by rewrite Forall_fmap|by apply IH|by rewrite Forall_fmap in Hf].
Qed.

Lemma sorted_lookup {A} (R : A -> A -> Prop) items i j x y :
  StronglySorted R items -> items !! i = Some x -> items !! j = Some y -> (i < j)%nat -> R x y.
Proof.
  intros Hs. revert i j. induction Hs as [|a l _ IH Hf]; intros [|i] [|j]; cbn; intros Hi Hj Hlt; try (done || lia).
  - injection Hi as ->. rewrite Forall_lookup in Hf. by eapply Hf.
  - eapply IH; [done..|lia].
Qed.

Lemma sorted_ltb_NoDup {A K} `{OrdLaws K} (f : A -> K) items :
  StronglySorted (fun x y => ltb (f x) (f y) = true) items -> NoDup (f <$> items).
Proof.
  rewrite (sorted_map (fun a b => ltb a b = true)). induction 1 as [|a l _ IH Hf]; constructor; [|done].
  rewrite Forall_forall in Hf. intros Ha%Hf. by rewrite ltb_irrefl in Ha.
Qed.

Lemma ltb_pair {A B} `{Ord A} `{Ord B} (a c : A) (u v : B) :
  ltb (a, u) (c, v) = match cmp a c with Lt => true | Eq => ltb u v | Gt => false end.
Proof. unfold ltb, cmp at 1, prod_ord. cbn [fst snd]. by destruct (cmp a c). Qed.

Lemma elem_of_concat_map {A B} (f : A -> list B) l u : u ∈ concat (f <$> l) <-> exists x, x ∈ l /\ u ∈ f x.
Proof.
  induction l as [|x l IH]; cbn; [set_solver|]. rewrite elem_of_app, IH. setoid_rewrite elem_of_cons. naive_solver.
Qed.

Lemma sorted_concat {A B} (R : A -> A -> Prop) (T : B -> B -> Prop) (f : A -> list B) l :
  StronglySorted R l -> (forall x, x ∈ l -> StronglySorted T (f x)) ->
  (forall x y u v, R x y -> u ∈ f x -> v ∈ f y -> T u v) -> StronglySorted T (concat (f <$> l)).
Proof.
  intros Hl Hs HT. induction Hl as [|x l _ IH Hx]; cbn; [constructor|]. rewrite Forall_forall in Hx.
  apply StronglySorted_app_2; [|apply Hs; by left|apply IH; set_solver].
  intros u v Hu (y & Hy & Hv)%elem_of_concat_map. eauto.
Qed.

(** Two lists in ascending order with the same elements are equal. *)
Lemma sorted_unique {K} `{OrdLaws K} (l k : list K) :
  StronglySorted (fun x y => ltb x y = true) l -> StronglySorted (fun x y => ltb x y = true) k ->
  (forall x, x ∈ l <-> x ∈ k) -> l = k.
Proof.
  intros Hl. revert k. induction Hl as [|x l _ IH Hx]; intros k Hk Hlk.
  - destruct k as [|y k]; [done|]. exfalso. by apply (not_elem_of_nil y), Hlk; left.
  - destruct Hk as [|y k Hk Hy]; [exfalso; by apply (not_elem_of_nil x), Hlk; left|]. rewrite Forall_forall in Hx, Hy.
    assert (x = y) as <-.
    { assert (x ∈ y :: k) as Hxk by (apply Hlk; by left). assert (y ∈ x :: l) as Hyl by (apply Hlk; by left).
      apply elem_of_cons in Hxk as [->|Hxk]; [done|]. apply elem_of_cons in Hyl as [->|Hyl]; [done|].
      pose proof (ltb_asym _ _ (Hy _ Hxk)) as Ha. cbv beta in Ha. pose proof (Hx _ Hyl). congruence. }
    f_equal. apply IH; [done|]. intros z. specialize (Hlk z). rewrite !elem_of_cons in Hlk.
    split; intros Hz; [destruct (proj1 Hlk (or_intror Hz)) as [->|]|destruct (proj2 Hlk (or_intror Hz)) as [->|]]; try done.
    + apply Hx in Hz. by rewrite ltb_irrefl in Hz.
    + apply Hy in Hz. by rewrite ltb_irrefl in Hz.
Qed.

Lemma sorted_weaken {A} (R T : A -> A -> Prop) l :
  (forall x y, x ∈ l -> y ∈ l -> R x y -> T x y) -> StronglySorted R l -> StronglySorted T l.
Proof.
  intros HR. induction 1 as [|x l _ IH Hx]; constructor; [apply IH; set_solver|]. rewrite Forall_forall in *. set_solver.
Qed.

Lemma sorted_sublist {A} (R : A -> A -> Prop) k l : k `sublist_of` l -> StronglySorted R l -> StronglySorted R k.
Proof.
  induction 1 as [|x k l Hsub IH|x k l _ IH]; [done|intros [Hs Hx]%StronglySorted_inv..]; [|by apply IH].
  constructor; [by apply IH|]. rewrite Forall_forall in *. intros y Hy. apply Hx. by eapply elem_of_sublist.
Qed.

Lemma sorted_filter {A} (R : A -> A -> Prop) (P : A -> Prop) `{!forall x, Decision (P x)} l :
  StronglySorted R l -> StronglySorted R (filter P l).
Proof.
  induction 1 as [|x l _ IH Hx]; [constructor|]. rewrite filter_cons. case_decide; [|done].
  constructor; [done|]. rewrite Forall_forall in *. intros y [_ Hy]%list_elem_of_filter. by apply Hx.
Qed.

(** A list in ascending order of a key: what is below [k], what has the key [k],
    what is above it. *)
Lemma sorted_split {A K} `{OrdLaws K} (key : A -> K) (k : K) l :
  StronglySorted (fun x y => leb (key x) (key y) = true) l ->
  exists l1 l2 l3, l = l1 ++ l2 ++ l3 /\ Forall (fun x => ltb (key x) k = true) l1
    /\ Forall (fun x => key x = k) l2 /\ Forall (fun x => ltb k (key x) = true) l3.
Proof.
  induction 1 as [|x l _ (l1 & l2 & l3 & -> & H1 & H2 & H3) Hx]; [by exists [], [], []|].
  destruct (ltb (key x) k) eqn:Hlt; [exists (x :: l1), l2, l3; by repeat constructor|].
  assert (l1 = []) as ->.
  { destruct l1 as [|y l1]; [done|]. apply Forall_cons in H1 as [Hy _]. apply Forall_cons in Hx as [Hxy _].
    by rewrite (leb_ltb_trans _ _ _ Hxy Hy) in Hlt. }
  destruct (ltb_total _ _ Hlt) as [Hk|Hk]; [exists [], (x :: l2), l3; by repeat constructor|].
  assert (l2 = []) as ->.
  { destruct l2 as [|y l2]; [done|]. apply Forall_cons in H2 as [Hy _]. apply Forall_cons in Hx as [Hxy _].
    rewrite Hy, leb_ltb, Hk in Hxy. done. }
  exists [], [], (x :: l3). by repeat constructor.
Qed.

(** ** Searches

    [slice::binary_search_by]: halve the window that starts at [base] until one
    element is left; [Ok] is its position, [Err] where it would be inserted. *)

Section Search.
Context {A : Type} (f : A -> comparison).

Fixpoint search_loop (fuel : nat) (items : list A) (base size : nat) : nat :=
  match fuel with
  | O => base
  | S fuel' =>
      if (size <=? 1)%nat then base
      else
        let half := Nat.div2 size in
        let mid := (base + half)%nat in
        let base' := match items !! mid with
                     | Some x => match f x with Gt => base | _ => mid end
                     | None => base
                     end in
        search_loop fuel' items base' (size - half)
  end.

Definition binary_search_by (items : list A) : result nat nat :=
  let base := search_loop (length items) items 0 (length items) in
  match items !! base with
  | None => Err 0%nat
  | Some x => match f x with Eq => Ok base | Lt => Err (S base) | Gt => Err base end
  end.

(** Elements up to some position are not above the target, those from it on are:
    the window always holds the last one that is not. *)
Lemma search_loop_last fuel items base size n :
  (n <= length items)%nat ->
  (forall i x, items !! i = Some x -> f x = Gt <-> (n <= i)%nat) ->
  (size <= fuel)%nat -> (0 < size)%nat -> (base < n)%nat -> (n <= base + size)%nat ->
  search_loop fuel items base size = (n - 1)%nat.
Proof.
  intros Hn Hf. revert base size. induction fuel as [|fuel IH]; intros base size Hs H0 Hb Hbs; [lia|].
  cbn [search_loop]. destruct (Nat.leb_spec size 1); [lia|].
  pose proof (Nat.div2_div size) as Hd. pose proof (Nat.div_mod_eq size 2). pose proof (Nat.mod_upper_bound size 2).
  rewrite Hd. destruct (items !! (base + size / 2)%nat) as [x|] eqn:Hx.
  - specialize (Hf _ _ Hx). destruct (f x) eqn:He.
    + apply IH; try lia. destruct (decide (n <= base + size / 2)%nat); [|lia]. exfalso. by apply Hf in l.
    + apply IH; try lia. destruct (decide (n <= base + size / 2)%nat); [|lia]. exfalso. by apply Hf in l.
    + pose proof (proj1 Hf eq_refl). apply IH; lia.
  - apply lookup_ge_None in Hx. apply IH; lia.
Qed.

Lemma search_loop_first fuel items base size :
  (forall i x, items !! i = Some x -> f x = Gt) -> search_loop fuel items base size = base.
Proof.
  intros Hf. revert base size. induction fuel as [|fuel IH]; intros base size; [done|]. cbn [search_loop].
  destruct (size <=? 1)%nat; [done|]. destruct (items !! _) as [x|] eqn:Hx; [|apply IH].
  rewrite (Hf _ _ Hx). apply IH.
Qed.

Lemma binary_search_ok items i :
  binary_search_by items = Ok i -> exists x, items !! i = Some x /\ f x = Eq.
Proof.
  unfold binary_search_by. destruct (items !! _) as [x|] eqn:Hx; [|done].
  destruct (f x) eqn:He; intros [= <-]. by exists x.
Qed.
End Search.

(** [slice::partition_point]. *)
Definition partition_point {A} (p : A -> bool) (items : list A) : nat :=
  match binary_search_by (fun x => if p x then Lt else Gt) items with Ok i | Err i => i end.

(** A list whose prefix of length [n] satisfies [p], and nothing behind it. *)
Definition partitioned {A} (p : A -> bool) (items : list A) (n : nat) : Prop :=
  (n <= length items)%nat /\ forall i x, items !! i = Some x -> p x = true <-> (i < n)%nat.

Lemma partition_point_spec {A} (p : A -> bool) items n :
  partitioned p items n -> partition_point p items = n.
Proof.
  intros [Hn Hp]. unfold partition_point, binary_search_by. destruct n as [|n].
  - rewrite search_loop_first.
    + destruct (items !! 0%nat) as [x|] eqn:Hx; [|done]. specialize (Hp _ _ Hx).
      destruct (p x); [|done]. exfalso. by apply (Nat.nlt_0_r 0), Hp.
    + intros i x Hx%Hp. destruct (p x); [|done]. lia.
  - assert (length items > 0)%nat as Hl by lia.
    rewrite (search_loop_last _ _ _ _ _ (S n)); try lia.
    + replace (S n - 1)%nat with n by lia. destruct (lookup_lt_is_Some_2 items n) as [x Hx]; [lia|].
      rewrite Hx. by rewrite (proj2 (Hp _ _ Hx)) by lia.
    + intros i x Hx%Hp. destruct (p x); [split; [done|lia]|]. split; [|done]. intros _.
      destruct (decide (S n <= i)%nat); [done|]. lia.
Qed.

(** On a list in ascending order of [key] a search for [k] finds exactly the
    element with that key. *)
Lemma binary_search_sorted {A K} `{OrdLaws K} (key : A -> K) (k : K) items :
  StronglySorted (fun x y => ltb (key x) (key y) = true) items ->
  match binary_search_by (fun x => cmp (key x) k) items with
  | Ok i => exists x, items !! i = Some x /\ key x = k
  | Err _ => k ∉ key <$> items
  end.
Proof.
  intros Hs. destruct (binary_search_by _ items) as [i|i] eqn:Hb.
  - apply binary_search_ok in Hb as (x & Hx & Hk%cmp_eq). by exists x.
  - intros (x & -> & [j Hj]%list_elem_of_lookup)%list_elem_of_fmap. unfold binary_search_by in Hb.
    pose proof (lookup_lt_Some _ _ _ Hj). rewrite (search_loop_last _ _ _ _ _ (S j)) in Hb; try lia.
    + replace (S j - 1)%nat with j in Hb by lia. rewrite Hj in Hb. by rewrite cmp_refl in Hb.
    + intros m y Hy. destruct (decide (m = j)) as [->|Hm].
      * rewrite Hj in Hy. injection Hy as ->. rewrite cmp_refl. split; [done|lia].
      * destruct (decide (m < j)%nat) as [Hlt|Hge].
        -- pose proof (sorted_lookup _ _ _ _ _ _ Hs Hy Hj Hlt) as Hl%ltb_lt. cbv beta in Hl. rewrite Hl. split; [done|lia].
        -- assert (j < m)%nat as Hlt by lia. pose proof (sorted_lookup _ _ _ _ _ _ Hs Hj Hy Hlt) as Hl%ltb_lt%cmp_gt.
           cbv beta in Hl. rewrite Hl. split; [lia|done].
Qed.
