(* ===== verification/Keys.v ===== *)
(** * Key owners, roles and identities

    The identity data of [crates/pos-core/src/key_registry.rs]: owners, the seven
    roles with their codes and purposes, and owner-scoped role epochs with their
    derived order. *)

From Stdlib Require Import String ZArith Lia Bool.
From stdpp Require Import sorting.
From S2P Require Import Prelude Text.

Local Open Scope Z_scope.

(** ** Owners *)

Definition owner_text_ok (value : RString) : bool := (1 <=? str_len value) && (str_len value <=? 128).

(** [OwnerIdV1]: 1 to 128 bytes of UTF-8, kept in a zero-padded array with its
    length; the derived order compares the array, then the length. *)
Definition OwnerIdV1 : Type := checked owner_text_ok.
Definition owner_new : RString -> option OwnerIdV1 := make owner_text_ok.
Definition owner_array (o : OwnerIdV1) : list byte :=
  as_bytes (raw o) ++ replicate (128 - length (as_bytes (raw o))) x00.
Definition owner_lt (a b : OwnerIdV1) : bool :=
  bytes_lt (owner_array a) (owner_array b)
  || (bool_decide (owner_array a = owner_array b) && (str_len (raw a) <? str_len (raw b))).

Lemma owner_text_bound (o : OwnerIdV1) : 1 <= str_len (raw o) <= 128.
Proof. pose proof (raw_ok o) as Ho. apply Is_true_true, andb_true_iff in Ho as [? ?]. lia. Qed.

(** ** Roles *)

Inductive KeyRoleV1 :=
| SubjectDataEncryption | SubjectAttributionSigning | TimelineIntegritySigning
| PluginReleaseSigning | ExportRecipientEncryption | ConformanceEvaluatorSigning
| ConformanceReportSigning.

#[export] Instance key_role_eq_dec : EqDecision KeyRoleV1.
Proof. solve_decision. Defined.

(** [self as u8]. *)
Definition role_code (r : KeyRoleV1) : Z :=
  match r with
  | SubjectDataEncryption => 0 | SubjectAttributionSigning => 1 | TimelineIntegritySigning => 2
  | PluginReleaseSigning => 3 | ExportRecipientEncryption => 4 | ConformanceEvaluatorSigning => 5
  | ConformanceReportSigning => 6
  end.

Definition ROLES_BY_CODE : list KeyRoleV1 :=
  [SubjectDataEncryption; SubjectAttributionSigning; TimelineIntegritySigning; PluginReleaseSigning;
   ExportRecipientEncryption; ConformanceEvaluatorSigning; ConformanceReportSigning].

(** [None] is the error of an unknown code. *)
Definition role_from_code (code : Z) : option KeyRoleV1 :=
  if code <=? role_code ConformanceReportSigning then ROLES_BY_CODE !! Z.to_nat code else None.

Lemma role_from_code_of r : role_from_code (role_code r) = Some r.
Proof. by destruct r. Qed.

#[export] Instance key_role_countable : Countable KeyRoleV1.
Proof. apply (inj_countable role_code role_from_code). apply role_from_code_of. Defined.

Definition is_signing (r : KeyRoleV1) : bool :=
  match r with
  | SubjectAttributionSigning | TimelineIntegritySigning | PluginReleaseSigning
  | ConformanceEvaluatorSigning | ConformanceReportSigning => true
  | _ => false
  end.

Definition is_conformance_signing (r : KeyRoleV1) : bool :=
  match r with ConformanceEvaluatorSigning | ConformanceReportSigning => true | _ => false end.

Definition is_encryption (r : KeyRoleV1) : bool :=
  match r with SubjectDataEncryption | ExportRecipientEncryption => true | _ => false end.

(** A role signs or encrypts, and never both. *)
Lemma is_encryption_signing r : is_encryption r = negb (is_signing r).
Proof. by destruct r. Qed.

(** ** Identities *)

Record KeyIdentityV1 := MkKeyIdentity {
  key_owner_id : OwnerIdV1;
  key_role : KeyRoleV1;
  key_epoch : Z;
}.

#[export] Instance key_identity_eq_dec : EqDecision KeyIdentityV1.
Proof. solve_decision. Defined.

#[export] Instance key_identity_countable : Countable KeyIdentityV1.
Proof.
  apply (inj_countable' (fun i => (key_owner_id i, key_role i, key_epoch i))
           (fun '(o, r, e) => MkKeyIdentity o r e)). by intros [].
Defined.

(** [(identity.owner_id, identity.role)]. *)
Definition KeyScope : Type := OwnerIdV1 * KeyRoleV1.
Definition scope_of (i : KeyIdentityV1) : KeyScope := (key_owner_id i, key_role i).

Definition role_lt (a b : KeyRoleV1) : bool := role_code a <? role_code b.
Definition scope_lt (a b : KeyScope) : bool :=
  owner_lt a.1 b.1 || (bool_decide (a.1 = b.1) && role_lt a.2 b.2).
Definition identity_lt (a b : KeyIdentityV1) : bool :=
  scope_lt (scope_of a) (scope_of b)
  || (bool_decide (scope_of a = scope_of b) && (key_epoch a <? key_epoch b)).

Lemma identity_eta i : MkKeyIdentity (scope_of i).1 (scope_of i).2 (key_epoch i) = i.
Proof. by destruct i. Qed.

Lemma identity_ext i j : scope_of i = scope_of j -> key_epoch i = key_epoch j -> i = j.
Proof. destruct i, j. cbn. unfold scope_of. cbn. naive_solver. Qed.

(** ** Ordered iteration

    A [BTreeMap] is a [gmap] that is read in the order of its keys. *)

Definition entry_le {K V} (lt : K -> K -> bool) (a b : K * V) : Prop := Is_true (negb (lt b.1 a.1)).
#[export] Instance entry_le_dec {K V} lt : RelDecision (@entry_le K V lt).
Proof. intros a b. unfold entry_le. apply _. Defined.

Definition btree_iter {K V} `{Countable K} (lt : K -> K -> bool) (m : gmap K V) : list (K * V) :=
  merge_sort (entry_le lt) (map_to_list m).

Section Iteration.
Context {K V : Type} `{Countable K} (lt : K -> K -> bool).
Implicit Types (m : gmap K V).

Lemma btree_iter_perm m : btree_iter lt m ≡ₚ map_to_list m.
Proof. apply merge_sort_Permutation. Qed.

Lemma elem_of_btree_iter m k v : (k, v) ∈ btree_iter lt m <-> m !! k = Some v.
Proof. by rewrite btree_iter_perm, elem_of_map_to_list. Qed.

Lemma btree_iter_keys_NoDup m : NoDup (btree_iter lt m).*1.
Proof. rewrite btree_iter_perm. apply NoDup_fst_map_to_list. Qed.

Lemma Forall_btree_iter m (P : K * V -> Prop) :
  Forall P (btree_iter lt m) <-> forall k v, m !! k = Some v -> P (k, v).
Proof.
  rewrite Forall_forall. split; [|intros HP [k v] Hkv; apply HP; by apply elem_of_btree_iter in Hkv].
  intros HP k v Hkv. apply HP. by apply elem_of_btree_iter.
Qed.
End Iteration.

(** * Guarded reads of the key registry

    [crates/pos-core/src/key_registry/read_guard.rs]: the work a native read
    reports, the guard that may refuse it, and the context that latches a
    refusal.  A guard is any state machine of the class
    [KeyRegistryReadGuardV1]; a read is a [Guarded] computation, which threads the
    context and fails with [KeyRegistryReadErrorV1].

    [lawful] says what every read of the registry is, for all guards at once: one
    list of observations and one result, fixed by the input alone, which the guard
    can only cut short.  Its consequences are proved here once. *)

Inductive KeyRegistryReadWorkV1 := Checkpoint | MaterializeBytes (bytes : Z).

Inductive KeyRegistryReadErrorV1 := InvalidSnapshot | ReadRefused.

#[export] Instance read_error_eq_dec : EqDecision KeyRegistryReadErrorV1.
Proof. solve_decision. Defined.

(** [observe]: the guard moves on, and accepts the work or refuses it. *)
Class KeyRegistryReadGuardV1 (G : Type) :=
  guard_observe : KeyRegistryReadWorkV1 -> G -> G * result unit unit.

Record ReadContext (G : Type) := MkReadContext { ctx_guard : G; ctx_refused : bool }.
Arguments MkReadContext {G} _ _.
Arguments ctx_guard {G} _.
Arguments ctx_refused {G} _.

Definition context_new {G} (guard : G) : ReadContext G := MkReadContext guard false.

Definition Guarded (G A : Type) : Type := ReadContext G -> ReadContext G * result KeyRegistryReadErrorV1 A.

Definition gret {G A} (a : A) : Guarded G A := fun c => (c, Ok a).
Definition gerr {G A} (e : KeyRegistryReadErrorV1) : Guarded G A := fun c => (c, Err e).
Definition gbind {G A B} (m : Guarded G A) (k : A -> Guarded G B) : Guarded G B := fun c =>
  let (c', r) := m c in match r with Ok a => k a c' | Err e => (c', Err e) end.
Definition gmap_ok {G A B} (f : A -> B) (m : Guarded G A) : Guarded G B := gbind m (fun a => gret (f a)).

Notation "'let!' x ':=' e 'in' k" := (gbind e (fun x => k))
  (at level 10, x pattern, e at level 200, k at level 200,
   format "'[v' 'let!'  x  ':='  e  'in' '/' k ']'") : result_scope.

(** [if fault { return Err(InvalidSnapshot) }]. *)
Definition reject_if {G} (fault : bool) : Guarded G unit :=
  if fault then gerr InvalidSnapshot else gret tt.
(** [o.ok_or(InvalidSnapshot)]. *)
Definition required {G A} (o : option A) : Guarded G A :=
  match o with Some a => gret a | None => gerr InvalidSnapshot end.

(** Only ordinary native validation uses this infallible guard. *)
Definition OrdinaryReadGuard : Type := unit.
#[export] Instance ordinary_guard : KeyRegistryReadGuardV1 OrdinaryReadGuard := fun _ g => (g, Ok tt).

Section Context.
Context {G : Type} `{KeyRegistryReadGuardV1 G}.

Definition observe (work : KeyRegistryReadWorkV1) : Guarded G unit := fun c =>
  if ctx_refused c then (c, Err ReadRefused)
  else let (g, r) := guard_observe work (ctx_guard c) in
       match r with
       | Ok _ => (MkReadContext g (ctx_refused c), Ok tt)
       | Err _ => (MkReadContext g true, Err ReadRefused)
       end.

Definition checkpoint : Guarded G unit := observe Checkpoint.

Definition materialize (bytes : Z) : Guarded G unit :=
  if bytes =? 0 then checkpoint else observe (MaterializeBytes bytes).

(** [usize] is 64 bits wide. *)
Definition materialize_sum (field_bytes extra_bytes : Z) : Guarded G unit :=
  let! _ := checkpoint in
  match checked_add field_bytes extra_bytes with
  | Some bytes => materialize bytes
  | None => fun c => (MkReadContext (ctx_guard c) true, Err ReadRefused)
  end.

Definition step {A} (work : Guarded G A) : Guarded G A :=
  let! _ := checkpoint in
  fun c =>
    let (c', r) := work c in
    match r with
    | Err ReadRefused => (c', r)
    | _ => (let! _ := checkpoint in (fun c => (c, r))) c'
    end.

Definition context_scope (owner : OwnerIdV1) (role : KeyRoleV1) : Guarded G KeyScope :=
  step (let! _ := materialize_sum (str_len (raw owner)) 1 in gret (owner, role)).

Definition context_identity (owner : OwnerIdV1) (role : KeyRoleV1) (epoch : Z) : Guarded G KeyIdentityV1 :=
  step (let! _ := materialize_sum (str_len (raw owner)) 9 in gret (MkKeyIdentity owner role epoch)).

(** [for item in items { .. }], with the variables the body assigns in [acc]. *)
Fixpoint for_fold {A S} (items : list A) (f : S -> A -> Guarded G S) (acc : S) : Guarded G S :=
  match items with
  | [] => gret acc
  | x :: rest => let! acc := f acc x in for_fold rest f acc
  end.

Definition for_each {A} (items : list A) (f : A -> Guarded G unit) : Guarded G unit :=
  for_fold items (fun _ x => f x) tt.
End Context.

(** ** What a guard can do to a read *)

Section Works.
Context {G : Type} `{KeyRegistryReadGuardV1 G}.

(** Report work after work until one is refused. *)
Fixpoint run_works (ws : list KeyRegistryReadWorkV1) (g : G) : G * bool :=
  match ws with
  | [] => (g, true)
  | w :: rest => match guard_observe w g with
                 | (g', Ok _) => run_works rest g'
                 | (g', Err _) => (g', false)
                 end
  end.

Definition is_refused {A} (r : result KeyRegistryReadErrorV1 A) : bool :=
  match r with Err ReadRefused => true | _ => false end.

Definition settle {A} (ws : list KeyRegistryReadWorkV1) (r : result KeyRegistryReadErrorV1 A) : Guarded G A := fun c =>
  let (g, accepted) := run_works ws (ctx_guard c) in
  if accepted then (MkReadContext g (is_refused r), r) else (MkReadContext g true, Err ReadRefused).

Lemma run_works_app ws ws' g :
  run_works (ws ++ ws') g = let (g', ok) := run_works ws g in if ok then run_works ws' g' else (g', false).
Proof.
  revert g. induction ws as [|w ws IH]; intros g; cbn; [done|]. by destruct (guard_observe w g) as [g' []].
Qed.

Lemma settle_bind {A B} ws ws' (r : result KeyRegistryReadErrorV1 A) (k : A -> Guarded G B) r' c :
  (forall a c', r = Ok a -> ctx_refused c' = false -> k a c' = settle ws' r' c') ->
  (forall e, r = Err e -> ws' = [] /\ r' = Err e) ->
  gbind (settle ws r) k c = settle (ws ++ ws') r' c.
Proof.
  intros Hok Herr. unfold gbind. unfold settle at 1 2. rewrite run_works_app.
  destruct (run_works ws (ctx_guard c)) as [g ok] eqn:Hr. destruct ok; [|done]. destruct r as [a|e].
  - rewrite (Hok a) by done. by unfold settle.
  - destruct (Herr e) as [-> ->]; [done|]. cbn. by destruct e.
Qed.
End Works.

(** The bytes a read debits are never zero. *)
Definition work_ok (w : KeyRegistryReadWorkV1) : Prop :=
  match w with Checkpoint => True | MaterializeBytes bytes => 0 < bytes end.

(** A read, for every guard. *)
Definition Reading (A : Type) : Type := forall G, KeyRegistryReadGuardV1 G -> Guarded G A.

Definition lawful {A} (m : Reading A) : Prop :=
  exists ws r, Forall work_ok ws /\ is_refused r = false
    /\ forall G (guard : KeyRegistryReadGuardV1 G) c, ctx_refused c = false -> m G guard c = settle ws r c.

Create HintDb lawful discriminated.

Lemma lawful_ret {A} (a : A) : lawful (fun G _ => gret a).
Proof. exists [], (Ok a). split_and!; [done..|]. intros G ? [g f] Hf. cbn in *. by subst. Qed.

Lemma lawful_invalid {A} : lawful (fun G _ => @gerr G A InvalidSnapshot).
Proof. exists [], (Err InvalidSnapshot). split_and!; [done..|]. intros G ? [g f] Hf. cbn in *. by subst. Qed.

Lemma lawful_bind {A B} (m : Reading A)
    (k : forall G, KeyRegistryReadGuardV1 G -> A -> Guarded G B) :
  lawful m -> (forall a, lawful (fun G _ => k G _ a)) -> lawful (fun G _ => gbind (m G _) (k G _)).
Proof.
  intros (ws & [a|e] & Hws & Hr & Hm) Hk.
  - destruct (Hk a) as (ws' & r' & Hws' & Hr' & Hka). exists (ws ++ ws'), r'. split_and!; [by apply Forall_app|done|].
    intros G ? c Hc. rewrite <- (settle_bind ws ws' (Ok a) (k G _) r'); [|naive_solver|done].
    unfold gbind. by rewrite Hm.
  - exists ws, (Err e). split_and!; [done|by destruct e|]. intros G ? c Hc.
    rewrite <- (app_nil_r ws), <- (settle_bind ws [] (Err e) (k G _)); [|done|naive_solver].
    unfold gbind. by rewrite Hm.
Qed.

Lemma lawful_observe w : work_ok w -> lawful (fun G _ => observe w).
Proof.
  intros Hw. exists [w], (Ok tt). split_and!; [by constructor|done|]. intros G ? [g f] Hf. cbn in *. subst.
  unfold observe, settle. cbn. by destruct (guard_observe w g) as [g' []].
Qed.

Lemma lawful_checkpoint : lawful (fun G _ => checkpoint).
Proof. by apply lawful_observe. Qed.
#[export] Hint Resolve lawful_ret lawful_invalid lawful_checkpoint : lawful.

Lemma lawful_materialize bytes : 0 <= bytes -> lawful (fun G _ => materialize bytes).
Proof.
  intros Hb. unfold materialize. destruct (Z.eqb_spec bytes 0); [apply lawful_checkpoint|].
  apply lawful_observe. cbn. lia.
Qed.

Lemma lawful_materialize_sum a b : u64_ok (a + b) -> lawful (fun G _ => materialize_sum a b).
Proof.
  intros [Hb Hm]. apply lawful_bind; [apply lawful_checkpoint|]. intros _. unfold checked_add.
  rewrite (proj2 (Z.leb_le _ _) Hm). by apply lawful_materialize.
Qed.

Lemma lawful_step {A} (m : Reading A) :
  lawful m -> lawful (fun G _ => step (m G _)).
Proof.
  intros (ws & r & Hws & Hr & Hm). apply lawful_bind; [apply lawful_checkpoint|]. intros _.
  exists (ws ++ [Checkpoint]), r. split_and!; [by apply Forall_app; split; [|repeat constructor]|done|].
  intros G ? c Hc. rewrite Hm by done. unfold settle. rewrite run_works_app.
  destruct (run_works ws (ctx_guard c)) as [g []]; [|done].
  destruct r as [a|[]]; [| |done]; cbn; unfold gbind, checkpoint, observe; cbn;
    by destruct (guard_observe Checkpoint g) as [g' []].
Qed.
#[export] Hint Resolve lawful_step : lawful.

Lemma lawful_scope owner role : lawful (fun G _ => context_scope owner role).
Proof.
  apply lawful_step, lawful_bind; [|eauto with lawful]. apply lawful_materialize_sum.
  pose proof (owner_text_bound owner). unfold u64_ok, U64_MAX. lia.
Qed.

Lemma lawful_identity owner role epoch : lawful (fun G _ => context_identity owner role epoch).
Proof.
  apply lawful_step, lawful_bind; [|eauto with lawful]. apply lawful_materialize_sum.
  pose proof (owner_text_bound owner). unfold u64_ok, U64_MAX. lia.
Qed.

Lemma lawful_for_fold {A S} (items : list A) (f : forall G, KeyRegistryReadGuardV1 G -> S -> A -> Guarded G S) acc :
  (forall s x, lawful (fun G _ => f G _ s x)) -> lawful (fun G _ => for_fold items (f G _) acc).
Proof.
  intros Hf. revert acc. induction items as [|x items IH]; intros acc; cbn [for_fold]; [apply lawful_ret|].
  apply lawful_bind; [apply Hf|apply IH].
Qed.

Lemma lawful_for_each {A} (items : list A) (f : forall G, KeyRegistryReadGuardV1 G -> A -> Guarded G unit) :
  (forall x, lawful (fun G _ => f G _ x)) -> lawful (fun G _ => for_each items (f G _)).
Proof. intros Hf. apply lawful_for_fold. auto. Qed.

Lemma lawful_reject_if b : lawful (fun G _ => reject_if b).
Proof. destruct b; [apply lawful_invalid|apply lawful_ret]. Qed.

Lemma lawful_require {A} (o : option A) : lawful (fun G _ => required o).
Proof. destruct o; [apply lawful_ret|apply lawful_invalid]. Qed.
#[export] Hint Resolve lawful_scope lawful_identity lawful_for_fold lawful_for_each
  lawful_reject_if lawful_require : lawful.

(** ** Ordinary results *)

(** The result of a read that no guard cuts short. *)
Definition ordinary {A} (m : Reading A) : result KeyRegistryReadErrorV1 A :=
  (m OrdinaryReadGuard _ (context_new tt)).2.

Lemma run_works_ordinary ws (g : OrdinaryReadGuard) : run_works ws g = (g, true).
Proof. induction ws; cbn; auto. Qed.

Lemma lawful_ordinary {A} (m : Reading A) :
  lawful m -> is_refused (ordinary m) = false /\ exists ws, Forall work_ok ws /\
    forall G (guard : KeyRegistryReadGuardV1 G) c, ctx_refused c = false -> m G guard c = settle ws (ordinary m) c.
Proof.
  intros (ws & r & Hws & Hr & Hm).
  assert (ordinary m = r) as ->.
  { unfold ordinary. rewrite Hm by done. unfold settle. by rewrite run_works_ordinary. }
  split; [done|]. by exists ws.
Qed.

(** The continuation matters only at the result of the first read. *)
Lemma lawful_bind_at {A B} (m : Reading A) (k : forall G, KeyRegistryReadGuardV1 G -> A -> Guarded G B) :
  lawful m -> (forall a, ordinary m = Ok a -> lawful (fun G _ => k G _ a)) -> lawful (fun G _ => gbind (m G _) (k G _)).
Proof.
  intros (Hr & ws & Hws & Hm)%lawful_ordinary Hk. destruct (ordinary m) as [a|e].
  - destruct (Hk a eq_refl) as (ws' & r' & Hws' & Hr' & Hka). exists (ws ++ ws'), r'. split_and!; [by apply Forall_app|done|].
    intros G ? c Hc. rewrite <- (settle_bind ws ws' (Ok a) (k G _) r'); [|naive_solver|done].
    unfold gbind. by rewrite Hm.
  - exists ws, (Err e). split_and!; [done|by destruct e|]. intros G ? c Hc.
    rewrite <- (app_nil_r ws), <- (settle_bind ws [] (Err e) (k G _)); [|done|naive_solver].
    unfold gbind. by rewrite Hm.
Qed.

Lemma ordinary_bind {A B} (m : Reading A)
    (k : forall G, KeyRegistryReadGuardV1 G -> A -> Guarded G B) :
  lawful m ->
  ordinary (fun G _ => gbind (m G _) (k G _)) = let? a := ordinary m in ordinary (fun G _ => k G _ a).
Proof.
  intros (_ & ws & _ & Hm)%lawful_ordinary. unfold ordinary at 1, gbind. rewrite Hm by done. unfold settle.
  rewrite run_works_ordinary. destruct (ordinary m) as [a|e]; [|done]. done.
Qed.

Lemma ordinary_step {A} (m : Reading A) :
  lawful m -> ordinary (fun G _ => step (m G _)) = ordinary m.
Proof.
  intros (_ & ws & _ & Hm)%lawful_ordinary. unfold step. rewrite ordinary_bind by apply lawful_checkpoint. cbn.
  unfold ordinary at 1. rewrite Hm by done. unfold settle. rewrite run_works_ordinary.
  by destruct (ordinary m) as [a|[]].
Qed.

Lemma ordinary_scope owner role : ordinary (fun G _ => context_scope owner role) = Ok (owner, role).
Proof.
  unfold context_scope, ordinary, step, materialize_sum, checked_add, materialize. cbn.
  pose proof (owner_text_bound owner).
  rewrite (proj2 (Z.leb_le _ _)) by (unfold U64_MAX; lia). cbn.
  rewrite (proj2 (Z.eqb_neq _ _)) by lia. done.
Qed.

Lemma ordinary_identity owner role epoch :
  ordinary (fun G _ => context_identity owner role epoch) = Ok (MkKeyIdentity owner role epoch).
Proof.
  unfold context_identity, ordinary, step, materialize_sum, checked_add, materialize. cbn.
  pose proof (owner_text_bound owner).
  rewrite (proj2 (Z.leb_le _ _)) by (unfold U64_MAX; lia). cbn.
  rewrite (proj2 (Z.eqb_neq _ _)) by lia. done.
Qed.

Lemma ordinary_for_each {A} (items : list A) (f : forall G, KeyRegistryReadGuardV1 G -> A -> Guarded G unit) :
  (forall x, lawful (fun G _ => f G _ x)) ->
  ordinary (fun G _ => for_each items (f G _)) = Ok tt
  <-> Forall (fun x => ordinary (fun G _ => f G _ x) = Ok tt) items.
Proof.
  intros Hf. unfold for_each. induction items as [|x items IH]; cbn [for_fold]; [by split|].
  rewrite (ordinary_bind (fun G _ => f G _ x)) by apply Hf. rewrite Forall_cons.
  destruct (ordinary (fun G _ => f G _ x)) as [[]|e]; cbn; [rewrite IH; naive_solver|naive_solver].
Qed.

(** ** Guards and budgets *)

(** A guard changes only whether a read is refused, never what it returns. *)
Lemma guard_agrees {A} (m : Reading A) G `{KeyRegistryReadGuardV1 G} (g : G) :
  lawful m -> (m G _ (context_new g)).2 = Err ReadRefused \/ (m G _ (context_new g)).2 = ordinary m.
Proof.
  intros (_ & ws & _ & Hm)%lawful_ordinary. rewrite Hm by done. unfold settle.
  destruct (run_works ws _) as [g' []]; [by right|by left].
Qed.

(** The guard that debits a budget of bytes. *)
Record ByteBudget := MkByteBudget { budget_remaining : Z }.
#[export] Instance budget_guard : KeyRegistryReadGuardV1 ByteBudget := fun work g =>
  match work with
  | Checkpoint => (g, Ok tt)
  | MaterializeBytes bytes =>
      match checked_sub (budget_remaining g) bytes with
      | Some rest => (MkByteBudget rest, Ok tt)
      | None => (g, Err tt)
      end
  end.

Definition work_bytes (w : KeyRegistryReadWorkV1) : Z :=
  match w with Checkpoint => 0 | MaterializeBytes bytes => bytes end.
Fixpoint works_bytes (ws : list KeyRegistryReadWorkV1) : Z :=
  match ws with [] => 0 | w :: rest => work_bytes w + works_bytes rest end.

Lemma works_bytes_nonneg ws : Forall work_ok ws -> 0 <= works_bytes ws.
Proof. induction 1 as [|[|b] ws Hw _ IH]; cbn [works_bytes work_bytes work_ok] in *; lia. Qed.

Lemma run_works_budget ws g :
  Forall work_ok ws ->
  (run_works ws g).2 = (works_bytes ws <=? budget_remaining g)
  /\ ((run_works ws g).2 = true -> (run_works ws g).1 = MkByteBudget (budget_remaining g - works_bytes ws))
  \/ budget_remaining g < 0.
Proof.
  intros Hws. revert g. induction Hws as [|[|b] ws Hw Hws IH]; intros [rem]; cbn.
  - destruct (Z.leb_spec 0 rem); [left|right; lia]. split; [done|]. intros _. f_equal. lia.
  - destruct (IH (MkByteBudget rem)) as [[Hb1 Hb2]|]; [left|by right]. by rewrite Hb1 in *.
  - destruct (Z.ltb_spec rem 0); [by right|left]. unfold checked_sub. cbn. pose proof (works_bytes_nonneg ws Hws).
    cbn in Hw. destruct (Z.leb_spec b rem).
    + destruct (IH (MkByteBudget (rem - b))) as [[Hb1 Hb2]|]; cbn in *; [|lia]. rewrite Hb1. split.
      * apply eq_true_iff_eq. rewrite !Z.leb_le. lia.
      * intros Hb. rewrite Hb2 by congruence. f_equal. lia.
    + cbn. split; [|done]. symmetry. apply Z.leb_gt. lia.
Qed.

(** Every read has one cost in bytes: a budget that covers it is debited exactly
    that, and a smaller one refuses the read. *)
Lemma read_cost {A} (m : Reading A) :
  lawful m -> exists cost, 0 <= cost /\ forall limit, 0 <= limit ->
    (cost <= limit -> m ByteBudget _ (context_new (MkByteBudget limit))
                      = (context_new (MkByteBudget (limit - cost)), ordinary m))
    /\ (limit < cost -> (m ByteBudget _ (context_new (MkByteBudget limit))).2 = Err ReadRefused).
Proof.
  intros (Hr & ws & Hws & Hm)%lawful_ordinary. exists (works_bytes ws). split; [by apply works_bytes_nonneg|].
  intros limit Hl. rewrite Hm by done. unfold settle. cbn [ctx_guard context_new].
  destruct (run_works_budget ws (MkByteBudget limit) Hws) as [[Hb1 Hb2]|]; [|cbn in *; lia].
  destruct (run_works ws _) as [g []]; cbn in *; split; intros Hc; symmetry in Hb1.
  - rewrite Hr. by rewrite Hb2 by done.
  - apply Z.leb_le in Hb1. lia.
  - apply Z.leb_gt in Hb1. lia.
  - done.
Qed.
