(* ===== verification/FallbackRecords.v ===== *)
(** * Explicit domain fallback: codes, reader, implementation keys and pins

    [crates/pos-core/src/composition_fallback.rs]: the closed code sets of the
    fallback protocol, the bounded [Reader] every decoder shares, and the two
    innermost records, IMK1 ([ImplementationKeyV1]) and PPN1
    ([CompositionPinV1]).

    A record type is a Rocq record of its fields; [*_new] is its validating
    constructor, [*_write] the bytes it appends, [*_from_canonical_cbor] its
    decoder.  [*_valid] is the condition the constructor establishes; since
    the fields are private in the source, every value the program can hold
    satisfies it. *)

From Stdlib Require Import String ZArith Lia Bool.
From S2P Require Import Prelude Text Cbor.

Local Open Scope Z_scope.

(** BLAKE3 is a third-party function from byte strings to 32 bytes. *)
Class Blake3 := blake3 : list byte -> Hash.

(** ** Bounds *)

Definition MAX_FALLBACK_PLUGIN_ID_BYTES_V1 : Z := 128.
Definition MAX_FALLBACK_VERSION_BYTES_V1 : Z := 64.
Definition MAX_FALLBACK_ROLE_BYTES_V1 : Z := 64.
Definition MAX_FALLBACK_ROLES_V1 : Z := 16.
Definition MAX_FALLBACK_ENTRY_KEY_BYTES_V1 : Z := 64.
Definition MAX_FALLBACK_SCOPE_BYTES_V1 : Z := 128.
Definition MAX_FALLBACK_CANDIDATES_V1 : Z := 2.
Definition MAX_FALLBACK_ENTRIES_V1 : Z := 32.
Definition MAX_FALLBACK_SKIPPED_V1 : Z := 2.
Definition MAX_IMPLEMENTATION_KEY_BYTES_V1 : Z := 237.
Definition MAX_COMPOSITION_PIN_BYTES_V1 : Z := 1301.
Definition MAX_FALLBACK_ENTRY_BYTES_V1 : Z := 3978.
Definition MAX_FALLBACK_POLICY_BYTES_V1 : Z := 135168.
Definition MAX_FALLBACK_EVENT_PAYLOAD_BYTES_V1 : Z := 4096.

Definition IMPLEMENTATION_KEY_DIGEST_DOMAIN_V1 : list byte :=
  list_byte_of_string "PiglorOS.Composition.ImplementationKey.v1" ++ [x00].
Definition COMPOSITION_PIN_DIGEST_DOMAIN_V1 : list byte :=
  list_byte_of_string "PiglorOS.Composition.Pin.v1" ++ [x00].
Definition FALLBACK_POLICY_DIGEST_DOMAIN_V1 : list byte :=
  list_byte_of_string "PiglorOS.Composition.FallbackPolicy.v1" ++ [x00].

Definition IMK1_HEADER : list byte := [x85; x44; "I"; "M"; "K"; "1"; x01]%byte.
Definition PPN1_HEADER : list byte := [x84; x44; "P"; "P"; "N"; "1"; x01]%byte.

(** ** Errors *)

Inductive FallbackFieldV1 :=
| PluginId | Version | Roles | EntryKey | Candidates | Triggers | ActivationMode
| Distinctness | Scope | Entries | Rebased | Skipped | SkipReason | TriggerCode
| TriggerOrigin | Implementation.

#[export] Instance field_eq_dec : EqDecision FallbackFieldV1.
Proof. solve_decision. Defined.

Inductive FallbackRecordErrorV1 :=
| RecordInvalidEncoding
| NonCanonical
| TooLarge
| InvalidField (field : FallbackFieldV1)
| PolicyDigestMismatch.

#[export] Instance record_error_eq_dec : EqDecision FallbackRecordErrorV1.
Proof. solve_decision. Defined.

Definition Outcome (T : Type) : Type := result FallbackRecordErrorV1 T.

(** ** Wire codes

    The four closed enumerations share one shape: a [#[repr(u8)]] code, the
    array [ALL] in ascending order, and [from_code], the first element of
    [ALL] with that code. *)

Inductive FallbackTriggerCodeV1 :=
| MissingImplementation | ComponentTrap | ResourceLimit | ArtifactRevoked | WorkerCrashed.

Inductive FallbackActivationModeV1 := ModeAutomatic | ModeManual.

Inductive FallbackActivationOriginV1 := OriginAutomatic | OriginOwner.

Inductive FallbackSkipReasonV1 :=
| ReleaseNotCurrent | FactsMismatch | SourceUnavailable | MemberBuildFailed
| PrepareRefused | SwapRefused.

#[export] Instance trigger_eq_dec : EqDecision FallbackTriggerCodeV1.
Proof. solve_decision. Defined.
#[export] Instance mode_eq_dec : EqDecision FallbackActivationModeV1.
Proof. solve_decision. Defined.
#[export] Instance origin_eq_dec : EqDecision FallbackActivationOriginV1.
Proof. solve_decision. Defined.
#[export] Instance skip_eq_dec : EqDecision FallbackSkipReasonV1.
Proof. solve_decision. Defined.

Class WireCode (T : Type) := { code : T -> Z; ALL : list T }.

#[export] Instance trigger_codes : WireCode FallbackTriggerCodeV1 := {|
  code t := match t with
            | MissingImplementation => 1 | ComponentTrap => 2 | ResourceLimit => 3
            | ArtifactRevoked => 4 | WorkerCrashed => 5
            end;
  ALL := [MissingImplementation; ComponentTrap; ResourceLimit; ArtifactRevoked; WorkerCrashed]
|}.

#[export] Instance mode_codes : WireCode FallbackActivationModeV1 := {|
  code m := match m with ModeAutomatic => 0 | ModeManual => 1 end;
  ALL := [ModeAutomatic; ModeManual]
|}.

#[export] Instance origin_codes : WireCode FallbackActivationOriginV1 := {|
  code o := match o with OriginAutomatic => 0 | OriginOwner => 1 end;
  ALL := [OriginAutomatic; OriginOwner]
|}.

#[export] Instance skip_codes : WireCode FallbackSkipReasonV1 := {|
  code r := match r with
            | ReleaseNotCurrent => 1 | FactsMismatch => 2 | SourceUnavailable => 3
            | MemberBuildFailed => 4 | PrepareRefused => 5 | SwapRefused => 6
            end;
  ALL := [ReleaseNotCurrent; FactsMismatch; SourceUnavailable; MemberBuildFailed;
          PrepareRefused; SwapRefused]
|}.

Definition from_code {T} `{WireCode T} (c : Z) : option T :=
  List.find (fun value => code value =? c) ALL.

(** What every code set promises its readers and writers. *)
Class WireCodeLaws (T : Type) `{WireCode T} := {
  code_small : forall t : T, 0 <= code t <= 23;
  from_code_code : forall t : T, from_code (code t) = Some t;
}.

#[export] Instance trigger_laws : WireCodeLaws FallbackTriggerCodeV1.
Proof. split; intros []; simpl; (lia || reflexivity). Qed.
#[export] Instance mode_laws : WireCodeLaws FallbackActivationModeV1.
Proof. split; intros []; simpl; (lia || reflexivity). Qed.
#[export] Instance origin_laws : WireCodeLaws FallbackActivationOriginV1.
Proof. split; intros []; simpl; (lia || reflexivity). Qed.
#[export] Instance skip_laws : WireCodeLaws FallbackSkipReasonV1.
Proof. split; intros []; simpl; (lia || reflexivity). Qed.

Section WireCodes.
Context {T : Type} `{WireCodeLaws T}.

Lemma from_code_some (c : Z) (t : T) : from_code c = Some t -> code t = c.
Proof. unfold from_code. intros Hf. apply List.find_some in Hf as [_ Hc]. lia. Qed.

#[export] Instance code_inj : Inj (=) (=) (@code T _).
Proof.
  intros a b Hab. enough (Some a = Some b) by congruence.
  by rewrite <- !from_code_code, Hab.
Qed.
End WireCodes.

(** ** Field checks *)

Definition invalid (field : FallbackFieldV1) : FallbackRecordErrorV1 := InvalidField field.
Definition encoding (_ : CborReadError) : FallbackRecordErrorV1 := RecordInvalidEncoding.

Definition require (condition : bool) (field : FallbackFieldV1) : Outcome unit :=
  if condition then Ok tt else Err (invalid field).

Definition text_within (text : RString) (maximum : Z) : bool :=
  negb (is_empty text) && (str_len text <=? maximum).

Definition check_text (text : RString) (maximum : Z) (field : FallbackFieldV1) : Outcome unit :=
  require (text_within text maximum) field.

Definition count_within (count minimum maximum : Z) : bool :=
  (minimum <=? count) && (count <=? maximum).

Definition valid_roles (roles : list RString) : bool :=
  count_within (len roles) 1 MAX_FALLBACK_ROLES_V1
  && all_unique roles
  && forallb (fun role => text_within role MAX_FALLBACK_ROLE_BYTES_V1) roles.

Definition is_slot_byte (b : byte) : bool :=
  in_range 0x30 0x39 b || in_range 0x41 0x5A b || in_range 0x61 0x7A b
  || bool_decide (b ∈ ["."; "_"; "-"]%byte).

Definition entry_key_ok (key : RString) : bool :=
  text_within key MAX_FALLBACK_ENTRY_KEY_BYTES_V1 && forallb is_slot_byte (as_bytes key).

Definition check_entry_key (key : RString) : Outcome unit :=
  require (entry_key_ok key) EntryKey.

(** [usize::try_from(value).unwrap_or(usize::MAX)] on a 64-bit target. *)
Definition to_length (value : Z) : Z := Z.min value U64_MAX.

Definition write_text (text : RString) : list byte := encode_bytes (as_bytes text) 3.

Definition write_optional_hash (hash : option Hash) : list byte :=
  match hash with Some hash => encode_hash hash | None => [xf6] end.

(** The writers' common loop: an array head, then every item in order. *)
Definition write_list {T} (write : T -> list byte) (items : list T) : list byte :=
  encode_head 4 (len items) ++ flat_map write items.

Definition domain_digest `{Blake3} (domain bytes : list byte) : Hash := blake3 (domain ++ bytes).

(** ** The reader *)

Definition Reader (A : Type) : Type := Parser FallbackRecordErrorV1 A.

Definition reader_open (bytes : list byte) (maximum : Z) : Outcome CborCursor :=
  if len bytes >? maximum then Err TooLarge else Ok (cursor_new bytes).

Definition reader_finish (c : CborCursor) (bytes encoded : list byte) : Outcome unit :=
  if is_finished c && bool_decide (encoded = bytes) then Ok tt else Err NonCanonical.

Definition r_require (condition : bool) (field : FallbackFieldV1) : Reader unit :=
  plift (require condition field).

Definition r_fixed (expected : list byte) : Reader unit := pmap_err encoding (cfixed expected).

Definition r_unsigned : Reader Z := pmap_err encoding (chead 0).

Definition r_take (length : Z) : Reader (list byte) := pmap_err encoding (ctake length).

(** [u8::try_from(value).unwrap_or(u8::MAX)], then the code table. *)
Definition r_lookup {T} (decode : Z -> option T) (field : FallbackFieldV1) : Reader T :=
  let! value := r_unsigned in
  plift (ok_or (decode (if value <=? U8_MAX then value else U8_MAX)) (invalid field)).

Definition r_count (maximum : Z) (field : FallbackFieldV1) : Reader Z :=
  let! head := pmap_err encoding (chead 4) in
  let length := to_length head in
  let! _ := r_require (length <=? maximum) field in
  pret length.

Definition r_blob (major : Z) : Reader (list byte) :=
  let! head := pmap_err encoding (chead major) in
  pmap_err encoding (ctake (to_length head)).

Definition r_text : Reader RString :=
  let! bytes := r_blob 3 in
  plift (ok_or (from_utf8 bytes) RecordInvalidEncoding).

Definition r_hash : Reader Hash :=
  let! bytes := r_blob 2 in
  plift (ok_or (hash_try_from bytes) RecordInvalidEncoding).

Definition r_optional_hash : Reader (option Hash) := fun c =>
  let (found, c') := consume_if xf6 c in
  if found then Ok (None, c') else (let! h := r_hash in pret (Some h)) c'.

(** [(0..count).map(|_| item(self)).collect()]: stops at the first error. *)
Fixpoint repeat_item {T} (item : Reader T) (count : nat) : Reader (list T) :=
  match count with
  | O => pret []
  | S count' =>
      let! x := item in
      let! xs := repeat_item item count' in
      pret (x :: xs)
  end.

Definition r_list {T} (maximum : Z) (field : FallbackFieldV1) (item : Reader T) : Reader (list T) :=
  let! count := r_count maximum field in
  repeat_item item (Z.to_nat count).

(** ** IMK1 *)

Record ImplementationKeyV1 := MkImplementationKey {
  imk_plugin_id : RString;
  imk_version : RString;
  imk_release_digest : Hash;
}.

#[export] Instance imk_eq_dec : EqDecision ImplementationKeyV1.
Proof. solve_decision. Defined.

Definition imk_valid (k : ImplementationKeyV1) : bool :=
  text_within (imk_plugin_id k) MAX_FALLBACK_PLUGIN_ID_BYTES_V1
  && text_within (imk_version k) MAX_FALLBACK_VERSION_BYTES_V1.

Definition imk_new (plugin_id version : RString) (release_digest : Hash)
    : Outcome ImplementationKeyV1 :=
  let? _ := check_text plugin_id MAX_FALLBACK_PLUGIN_ID_BYTES_V1 PluginId in
  let? _ := check_text version MAX_FALLBACK_VERSION_BYTES_V1 Version in
  Ok (MkImplementationKey plugin_id version release_digest).

Definition imk_write (k : ImplementationKeyV1) : list byte :=
  IMK1_HEADER ++ write_text (imk_plugin_id k) ++ write_text (imk_version k)
  ++ encode_hash (imk_release_digest k).

Definition imk_to_canonical_cbor (k : ImplementationKeyV1) : list byte := imk_write k.

Definition imk_digest `{Blake3} (k : ImplementationKeyV1) : Hash :=
  domain_digest IMPLEMENTATION_KEY_DIGEST_DOMAIN_V1 (imk_to_canonical_cbor k).

Definition read_implementation : Reader ImplementationKeyV1 :=
  let! _ := r_fixed IMK1_HEADER in
  let! plugin_id := r_text in
  let! version := r_text in
  let! release_digest := r_hash in
  plift (imk_new plugin_id version release_digest).

(** The shape all decoders share: open under the bound, read, and accept only
    if nothing is left and the value re-encodes to the input. *)
Definition decode_canonical {T} (maximum : Z) (read : Reader T) (encode : T -> list byte)
    (bytes : list byte) : Outcome T :=
  let? reader := reader_open bytes maximum in
  let? (value, reader) := read reader in
  let? _ := reader_finish reader bytes (encode value) in
  Ok value.

Definition imk_from_canonical_cbor (bytes : list byte) : Outcome ImplementationKeyV1 :=
  decode_canonical MAX_IMPLEMENTATION_KEY_BYTES_V1 read_implementation imk_to_canonical_cbor bytes.

(** ** PPN1 *)

Record CompositionPinV1 := MkCompositionPin {
  pin_implementation : ImplementationKeyV1;
  pin_roles : list RString;
}.

#[export] Instance pin_eq_dec : EqDecision CompositionPinV1.
Proof. solve_decision. Defined.

Definition pin_valid (p : CompositionPinV1) : bool :=
  imk_valid (pin_implementation p) && valid_roles (pin_roles p).

Definition pin_new (implementation : ImplementationKeyV1) (roles : list RString)
    : Outcome CompositionPinV1 :=
  let? _ := require (valid_roles roles) Roles in
  Ok (MkCompositionPin implementation roles).

Definition pin_with_implementation (p : CompositionPinV1) (implementation : ImplementationKeyV1)
    : CompositionPinV1 :=
  MkCompositionPin implementation (pin_roles p).

Definition pin_plugin_id (p : CompositionPinV1) : RString := imk_plugin_id (pin_implementation p).

Definition pin_write (p : CompositionPinV1) : list byte :=
  PPN1_HEADER ++ imk_write (pin_implementation p)
  ++ write_list write_text (pin_roles p).

Definition pin_to_canonical_cbor (p : CompositionPinV1) : list byte := pin_write p.

Definition pin_digest `{Blake3} (p : CompositionPinV1) : Hash :=
  domain_digest COMPOSITION_PIN_DIGEST_DOMAIN_V1 (pin_to_canonical_cbor p).

Definition read_pin : Reader CompositionPinV1 :=
  let! _ := r_fixed PPN1_HEADER in
  let! implementation := read_implementation in
  let! roles := r_list MAX_FALLBACK_ROLES_V1 Roles r_text in
  plift (pin_new implementation roles).

Definition pin_from_canonical_cbor (bytes : list byte) : Outcome CompositionPinV1 :=
  decode_canonical MAX_COMPOSITION_PIN_BYTES_V1 read_pin pin_to_canonical_cbor bytes.

(** ** The codec interface

    What a record's reader and writer promise each other.  [decode_exact]
    turns the promise into the contract of the public decoder: it accepts
    exactly the encodings of the valid values, each decoding to its value. *)

Class Codec (T : Type) := {
  c_read : Reader T;
  c_write : T -> list byte;
  c_valid : T -> bool;
}.

Class CodecLaws (T : Type) `{Codec T} := {
  codec_yields : forall t, c_valid t = true -> yields c_read t (c_write t);
  codec_returns : returns c_read (fun t => c_valid t = true);
}.

Lemma is_finished_whole bs : is_finished (Cursor bs (len bs)) = true.
Proof. apply Z.eqb_refl. Qed.

Lemma reader_finish_ok c bs enc : reader_finish c bs enc = Ok tt -> enc = bs.
Proof.
  unfold reader_finish. destruct (is_finished c); [|done]. simpl.
  by destruct (bool_decide_reflect (enc = bs)).
Qed.

Lemma decode_exact {T} `{CodecLaws T} (maximum : Z) bs t :
  (forall u, c_valid u = true -> len (c_write u) <= maximum) ->
  decode_canonical maximum c_read c_write bs = Ok t
  <-> c_valid t = true /\ bs = c_write t.
Proof.
  intros Hmax. unfold decode_canonical, reader_open. split.
  - intros Hd. ok_inv.
    match goal with H : reader_finish _ _ _ = _ |- _ => apply reader_finish_ok in H as <- end.
    split; [|done]. match goal with H : c_read _ = _ |- _ => by apply codec_returns in H end.
  - intros [Hv ->]. specialize (Hmax _ Hv).
    destruct (len (c_write t) >? maximum) eqn:Hgt; [lia|]. simpl.
    erewrite yields_run by (by apply codec_yields). simpl.
    unfold reader_finish. by rewrite is_finished_whole, bool_decide_true.
Qed.

(** Prefix-freeness of every codec: what follows an encoding cannot change
    what it decodes to. *)
Lemma codec_inj {T} `{CodecLaws T} (t u : T) r1 r2 :
  c_valid t = true -> c_valid u = true ->
  c_write t ++ r1 = c_write u ++ r2 -> t = u /\ r1 = r2.
Proof. intros Ht Hu. eapply yields_inj; by apply codec_yields. Qed.

(** *** Readers of the primitive fields *)

Lemma require_ok b f : require b f = Ok tt <-> b = true.
Proof. unfold require. by destruct b. Qed.

Lemma yields_r_fixed enc : yields (r_fixed enc) tt enc.
Proof. apply yields_map_err, yields_cfixed. Qed.

Lemma yields_r_unsigned v : u64_ok v -> yields r_unsigned v (encode_head 0 v).
Proof. intros. apply yields_map_err, yields_chead; [lia|done]. Qed.

Lemma returns_r_unsigned : returns r_unsigned u64_ok.
Proof. apply returns_map_err, returns_chead. Qed.

Lemma yields_r_take bs n : n = len bs -> yields (r_take n) bs bs.
Proof. intros. by apply yields_map_err, yields_ctake. Qed.

Lemma to_length_ok v : u64_ok v -> to_length v = v.
Proof. unfold u64_ok, to_length. lia. Qed.

Lemma yields_r_blob major bs :
  0 <= major <= 7 -> len bs <= U64_MAX -> yields (r_blob major) bs (encode_bytes bs major).
Proof.
  intros Hm Hl. pose proof (len_nonneg bs).
  eapply yields_bind; [apply yields_map_err, yields_chead; [done|unfold u64_ok; lia]|].
  apply yields_map_err, yields_ctake. apply to_length_ok. unfold u64_ok. lia.
Qed.

Lemma returns_r_blob major : returns (r_blob major) (fun bs => len bs <= U64_MAX).
Proof.
  eapply returns_bind; [apply returns_map_err, returns_chead|]. intros v Hv.
  apply returns_map_err. intros c bs c' Ht. rewrite to_length_ok in Ht by done.
  unfold u64_ok in Hv. apply ctake_ok in Ht as [? _]; lia.
Qed.

#[export] Instance text_codec : Codec RString := {|
  c_read := r_text; c_write := write_text; c_valid s := str_len s <=? U64_MAX |}.

#[export] Instance text_codec_laws : CodecLaws RString.
Proof.
  split.
  - intros s Hs. eapply yields_bind_last.
    + apply yields_r_blob; [lia|]. apply Z.leb_le. exact Hs.
    + apply yields_lift. by rewrite from_utf8_as_bytes.
  - eapply returns_bind; [apply returns_r_blob|]. intros bs Hl. cbn beta in Hl.
    apply returns_lift. intros s Hs. apply ok_or_ok_inv, make_some in Hs. simpl.
    unfold str_len, as_bytes. rewrite Hs. by apply Z.leb_le.
Qed.

#[export] Instance hash_codec : Codec Hash := {|
  c_read := r_hash; c_write := encode_hash; c_valid _ := true |}.

#[export] Instance hash_codec_laws : CodecLaws Hash.
Proof.
  split; [|done]. intros h _. eapply yields_bind_last.
  - apply yields_r_blob; [lia|]. rewrite len_hash_bytes. unfold U64_MAX. lia.
  - apply yields_lift. by rewrite hash_try_from_bytes.
Qed.

#[export] Instance optional_hash_codec : Codec (option Hash) := {|
  c_read := r_optional_hash; c_write := write_optional_hash; c_valid _ := true |}.

Lemma consume_if_at b b' pre rest :
  consume_if b (Cursor (pre ++ b' :: rest) (len pre))
  = if decide (b' = b) then (true, Cursor (pre ++ b' :: rest) (len pre + 1))
    else (false, Cursor (pre ++ b' :: rest) (len pre)).
Proof.
  unfold consume_if, advance. cbn [cbytes coffset].
  by rewrite len_to_nat, list_lookup_middle.
Qed.

#[export] Instance optional_hash_codec_laws : CodecLaws (option Hash).
Proof.
  split; [|done]. intros [h|] _ pre rest; cbn [c_read c_write optional_hash_codec write_optional_hash].
  - unfold r_optional_hash.
    assert (Hh : exists tl, encode_hash h ++ rest = x58 :: tl) by (rewrite encode_hash_eq; by eexists).
    destruct Hh as [tl Hh]. rewrite Hh, consume_if_at, <- Hh.
    rewrite decide_False by done.
    refine (yields_bind_last r_hash _ h (Some h) (encode_hash h) _ _ pre rest).
    + exact (codec_yields h eq_refl).
    + apply yields_ret.
  - unfold r_optional_hash. cbn [app]. rewrite consume_if_at.
    by rewrite decide_True.
Qed.

Lemma yields_r_lookup {T} `{WireCodeLaws T} (t : T) field :
  yields (r_lookup from_code field) t (encode_head 0 (code t)).
Proof.
  pose proof (code_small t). eapply yields_bind_last.
  - apply yields_r_unsigned. unfold u64_ok, U64_MAX. lia.
  - apply yields_lift. rewrite (proj2 (Z.leb_le _ _)) by (unfold U8_MAX; lia).
    by rewrite from_code_code.
Qed.

(** *** Lists *)

Lemma yields_repeat_item {T} (item : Reader T) (enc : T -> list byte) xs :
  Forall (fun x => yields item x (enc x)) xs ->
  yields (repeat_item item (length xs)) xs (flat_map enc xs).
Proof.
  induction 1 as [|x xs Hx _ IH]; simpl; [apply yields_ret|].
  eapply yields_bind; [exact Hx|]. eapply yields_bind_last; [exact IH|]. apply yields_ret.
Qed.

Lemma returns_repeat_item {T} (item : Reader T) (P : T -> Prop) n :
  returns item P -> returns (repeat_item item n) (fun xs => Forall P xs /\ length xs = n).
Proof.
  intros Hi. induction n as [|n IH]; simpl.
  - apply returns_ret. by split.
  - eapply returns_bind; [exact Hi|]. intros x Hx.
    eapply returns_bind; [exact IH|]. intros xs [Hf Hl].
    apply returns_ret. split; [by constructor|]. simpl. lia.
Qed.

Lemma yields_r_count maximum field n :
  0 <= n <= maximum -> n <= U64_MAX ->
  yields (r_count maximum field) n (encode_head 4 n).
Proof.
  intros Hn Hm. assert (Hok : u64_ok n) by (unfold u64_ok; lia).
  eapply yields_bind_last; [apply yields_map_err, yields_chead; [lia|exact Hok]|].
  cbn beta zeta. rewrite to_length_ok by done. eapply yields_bind_last.
  - apply yields_lift, require_ok. lia.
  - apply yields_ret.
Qed.

Lemma returns_r_count maximum field :
  returns (r_count maximum field) (fun n => 0 <= n <= maximum).
Proof.
  eapply returns_bind; [apply returns_map_err, returns_chead|]. intros v Hv.
  cbn beta zeta. rewrite to_length_ok by done. unfold u64_ok in Hv.
  eapply returns_bind with (P := fun _ => v <= maximum).
  - apply returns_lift. intros [] Hr. apply require_ok in Hr. lia.
  - intros _ Hle. apply returns_ret. lia.
Qed.

Lemma yields_r_list {T} (item : Reader T) (enc : T -> list byte) maximum field xs :
  Forall (fun x => yields item x (enc x)) xs ->
  len xs <= maximum -> maximum <= U64_MAX ->
  yields (r_list maximum field item) xs (write_list enc xs).
Proof.
  intros Hf Hl Hm. pose proof (len_nonneg xs). eapply yields_bind.
  - apply yields_r_count; lia.
  - cbn beta. rewrite len_to_nat. by apply yields_repeat_item.
Qed.

Lemma returns_r_list {T} (item : Reader T) (P : T -> Prop) maximum field :
  returns item P ->
  returns (r_list maximum field item) (fun xs => Forall P xs /\ len xs <= maximum).
Proof.
  intros Hi. eapply returns_bind; [apply returns_r_count|]. intros n Hn. cbn beta in Hn.
  eapply returns_weaken; [by apply returns_repeat_item|].
  intros xs [Hf Hl]. split; [done|]. unfold len. lia.
Qed.

Lemma text_within_len s m : text_within s m = true <-> 1 <= str_len s <= m.
Proof. unfold text_within, is_empty, str_len. pose proof (len_nonneg (as_bytes s)). lia. Qed.

Lemma yields_text s m :
  text_within s m = true -> m <= U64_MAX -> yields r_text s (write_text s).
Proof.
  rewrite text_within_len. intros Hs Hm. refine (codec_yields s _). simpl. lia.
Qed.

Lemma yields_hash h : yields r_hash h (encode_hash h).
Proof. exact (codec_yields h eq_refl). Qed.

Lemma yields_optional_hash o : yields r_optional_hash o (write_optional_hash o).
Proof. exact (codec_yields o eq_refl). Qed.

Lemma len_write_text s m :
  text_within s m = true -> len (write_text s) <= len (encode_head 3 m) + m.
Proof.
  rewrite text_within_len. unfold write_text, encode_bytes, str_len. intros Hs.
  rewrite len_app. pose proof (len_encode_head_small 3 (len (as_bytes s)) m). lia.
Qed.

Lemma len_flat_map_le {T} (enc : T -> list byte) k xs :
  0 <= k -> Forall (fun x => len (enc x) <= k) xs -> len (flat_map enc xs) <= len xs * k.
Proof.
  intros Hk. induction 1 as [|x xs Hx _ IH]; simpl; [reflexivity|].
  rewrite len_app, len_cons. lia.
Qed.

Lemma len_write_optional_hash o : len (write_optional_hash o) <= 34.
Proof. destruct o; simpl; len_lia. Qed.

#[export] Hint Resolve yields_r_fixed yields_r_unsigned yields_r_lookup yields_hash
  yields_optional_hash : yields.
#[export] Hint Resolve returns_r_unsigned : returns.

Lemma len_write_list {T} (enc : T -> list byte) k m xs :
  0 <= k -> len xs <= m -> Forall (fun x => len (enc x) <= k) xs ->
  len (write_list enc xs) <= len (encode_head 4 m) + m * k.
Proof.
  intros Hk Hm Hf. unfold write_list. rewrite len_app.
  pose proof (len_flat_map_le enc k xs Hk Hf).
  pose proof (len_encode_head_small 4 (len xs) m Hm). nia.
Qed.

(** Run a record reader field by field: each [let!] is split along the
    writer's concatenation, and the field's reader is found in the [yields]
    database or left as a goal. *)
Ltac yields_fields :=
  repeat lazymatch goal with
  | |- yields (pbind (plift _) _) _ ?e =>
      eapply (yields_bind _ _ _ _ [] e); [apply yields_lift|cbn beta]
  | |- yields (pbind _ _) _ (_ ++ _) =>
      eapply yields_bind; [try solve [eauto with yields typeclass_instances]|cbn beta]
  | |- yields (pbind _ _) _ _ =>
      eapply yields_bind_last; [try solve [eauto with yields typeclass_instances]|cbn beta]
  | |- yields (plift _) _ [] => apply yields_lift
  end.

(** Walk a record reader forwards, keeping what each field returns. *)
Ltac returns_step :=
  eapply returns_bind; [try solve [eauto with returns]|cbn beta; intros ? ?].

(** *** IMK1 and PPN1 *)

Lemma imk_new_valid k :
  imk_valid k = true ->
  imk_new (imk_plugin_id k) (imk_version k) (imk_release_digest k) = Ok k.
Proof.
  unfold imk_valid, imk_new, check_text, require. rewrite andb_true_iff.
  intros [-> ->]. by destruct k.
Qed.

Lemma imk_new_ok p v d k :
  imk_new p v d = Ok k -> k = MkImplementationKey p v d /\ imk_valid k = true.
Proof.
  unfold imk_new, check_text, require, imk_valid. intros H. ok_inv. simpl. by rewrite Hb, Hb0.
Qed.

#[export] Instance imk_codec : Codec ImplementationKeyV1 := {|
  c_read := read_implementation; c_write := imk_write; c_valid := imk_valid |}.

#[export] Instance imk_codec_laws : CodecLaws ImplementationKeyV1.
Proof.
  split.
  - intros k Hk. pose proof Hk as Hk'. simpl in Hk'. unfold imk_valid in Hk'.
    rewrite andb_true_iff in Hk'. destruct Hk' as [Hp Hv].
    change (yields read_implementation k (imk_write k)).
    unfold read_implementation, imk_write. yields_fields.
    + by eapply yields_text.
    + by eapply yields_text.
    + by apply imk_new_valid.
  - change (returns read_implementation (fun t => imk_valid t = true)).
    unfold read_implementation. do 4 returns_step.
    apply returns_lift. intros k Hk. by apply imk_new_ok in Hk as [_ ?].
Qed.

Lemma imk_write_bound k : imk_valid k = true -> len (imk_write k) <= MAX_IMPLEMENTATION_KEY_BYTES_V1.
Proof.
  unfold imk_valid. rewrite andb_true_iff. intros [Hp Hv].
  apply len_write_text in Hp, Hv. unfold imk_write. rewrite !len_app, len_encode_hash.
  change (len IMK1_HEADER) with 7.
  change (len (encode_head 3 MAX_FALLBACK_PLUGIN_ID_BYTES_V1)) with 2 in Hp.
  change (len (encode_head 3 MAX_FALLBACK_VERSION_BYTES_V1)) with 2 in Hv.
  unfold MAX_FALLBACK_PLUGIN_ID_BYTES_V1, MAX_FALLBACK_VERSION_BYTES_V1,
    MAX_IMPLEMENTATION_KEY_BYTES_V1 in *. lia.
Qed.

Lemma valid_roles_spec roles :
  valid_roles roles = true <->
  1 <= len roles <= MAX_FALLBACK_ROLES_V1 /\ NoDup roles
  /\ Forall (fun r => text_within r MAX_FALLBACK_ROLE_BYTES_V1 = true) roles.
Proof.
  unfold valid_roles, count_within. rewrite !andb_true_iff, all_unique_NoDup, forallb_forall.
  rewrite Forall_forall. setoid_rewrite list_elem_of_In. rewrite !Z.leb_le. tauto.
Qed.

Lemma pin_new_ok k roles p :
  pin_new k roles = Ok p -> p = MkCompositionPin k roles /\ valid_roles roles = true.
Proof. unfold pin_new, require. intros H. by ok_inv. Qed.

#[export] Instance pin_codec : Codec CompositionPinV1 := {|
  c_read := read_pin; c_write := pin_write; c_valid := pin_valid |}.

Lemma yields_imk k : imk_valid k = true -> yields read_implementation k (imk_write k).
Proof. exact (codec_yields k). Qed.
Lemma returns_imk : returns read_implementation (fun k => imk_valid k = true).
Proof. exact codec_returns. Qed.
#[export] Hint Resolve yields_imk : yields.
#[export] Hint Resolve returns_imk : returns.

Lemma yields_texts xs m :
  m <= U64_MAX -> Forall (fun x => text_within x m = true) xs ->
  Forall (fun x => yields r_text x (write_text x)) xs.
Proof. intros Hm Hf. eapply Forall_impl; [exact Hf|]. intros x Hx. exact (yields_text x m Hx Hm). Qed.

#[export] Instance pin_codec_laws : CodecLaws CompositionPinV1.
Proof.
  split.
  - intros p Hp. change (yields read_pin p (pin_write p)).
    change (pin_valid p = true) in Hp. unfold pin_valid in Hp.
    apply andb_true_iff in Hp as [Hk Hr]. pose proof Hr as Hr'.
    apply valid_roles_spec in Hr' as (Hl & _ & Hf).
    unfold read_pin, pin_write. yields_fields.
    + apply yields_r_list; [eapply yields_texts, Hf; done|lia|done].
    + unfold pin_new, require. rewrite Hr. by destruct p.
  - change (returns read_pin (fun t => pin_valid t = true)). unfold read_pin.
    do 3 returns_step. apply returns_lift. intros p Hp.
    apply pin_new_ok in Hp as [-> Hr]. unfold pin_valid. simpl. by rewrite Hr, andb_true_r.
Qed.

Lemma pin_write_bound p : pin_valid p = true -> len (pin_write p) <= MAX_COMPOSITION_PIN_BYTES_V1.
Proof.
  unfold pin_valid. rewrite andb_true_iff, valid_roles_spec. intros (Hk & Hl & _ & Hf).
  apply imk_write_bound in Hk. unfold pin_write. rewrite !len_app.
  change (len PPN1_HEADER) with 7.
  pose proof (len_write_list write_text 66 16 (pin_roles p)) as Hw.
  change (len (encode_head 4 16)) with 1 in Hw.
  unfold MAX_FALLBACK_ROLES_V1, MAX_IMPLEMENTATION_KEY_BYTES_V1, MAX_COMPOSITION_PIN_BYTES_V1 in *.
  assert (len (write_list write_text (pin_roles p)) <= 1 + 16 * 66); [|lia].
  apply Hw; [lia..|]. eapply Forall_impl; [exact Hf|]. simpl. intros r Hr.
  by apply len_write_text in Hr.
Qed.

Lemma imk_decodes bs k :
  imk_from_canonical_cbor bs = Ok k <-> imk_valid k = true /\ bs = imk_write k.
Proof. exact (decode_exact MAX_IMPLEMENTATION_KEY_BYTES_V1 bs k imk_write_bound). Qed.

(** ** Properties *)

(** The IMK1 decoder accepts exactly the canonical encodings.  On every
    input, [ImplementationKeyV1::from_canonical_cbor] returns [Ok(k)] if and
    only if [k] satisfies the constructor's rules and the input is the encoding
    of [k]: no other byte string (other integer widths, trailing bytes, another
    header, an over-long field) is accepted, and no valid key is refused. *)
Theorem imk_decode_exact bs k :
  imk_from_canonical_cbor bs = Ok k <-> imk_valid k = true /\ bs = imk_to_canonical_cbor k.
Proof. exact (decode_exact MAX_IMPLEMENTATION_KEY_BYTES_V1 bs k imk_write_bound). Qed.

(** The PPN1 decoder accepts exactly the canonical encodings of valid pins,
    with the nested implementation key and the 1 to 16 distinct bounded roles. *)
Theorem pin_decode_exact bs p :
  pin_from_canonical_cbor bs = Ok p <-> pin_valid p = true /\ bs = pin_to_canonical_cbor p.
Proof. exact (decode_exact MAX_COMPOSITION_PIN_BYTES_V1 bs p pin_write_bound). Qed.
