(* ===== verification/KeyRegistry.v ===== *)
(** * The key registry

    [crates/pos-core/src/key_registry.rs]: the reference state machine of key
    epochs, with registration, the three authorizations, two-phase destruction,
    the validation of a snapshot and of a replacement.

    The private material of a key is known to the registry by its digest only.  An
    authorization runs the caller's operation, here a state transformer of the
    caller's world, and otherwise leaves that world as it was. *)

From Stdlib Require Import String ZArith Lia Bool.
From S2P Require Import Prelude Text FallbackRecords Keys.

Local Open Scope Z_scope.

(** [pos_core::PublicKey], a newtype of [[u8; 32]]. *)
Definition PublicKey : Type := checked (has_len 32).

Record KeyRegistrationV1 := MkRegistration {
  reg_identity : KeyIdentityV1;
  reg_private_material_digest : Hash;
  reg_public_verification_key : option PublicKey;
}.

Record KeyRecordV1 := MkKeyRecord {
  kr_identity : KeyIdentityV1;
  kr_private_material_digest : option Hash;
  kr_public_verification_key : option PublicKey;
}.

Record KeyTombstoneV1 := MkTombstone {
  tb_identity : KeyIdentityV1;
  tb_destroyed_material_digest : Hash;
  tb_destruction_digest : Hash;
  tb_deletion_receipt : Hash;
}.

Record KeyDestructionRequestV1 := MkDestructionRequest {
  dr_identity : KeyIdentityV1;
  dr_expected_material_digest : Hash;
  dr_authorization_digest : Hash;
}.

#[export] Instance key_record_eq_dec : EqDecision KeyRecordV1.
Proof. solve_decision. Defined.
#[export] Instance tombstone_eq_dec : EqDecision KeyTombstoneV1.
Proof. solve_decision. Defined.
#[export] Instance destruction_request_eq_dec : EqDecision KeyDestructionRequestV1.
Proof. solve_decision. Defined.

Inductive KeyDestructionBeginOutcomeV1 :=
| Started | AlreadyPending | BeginAlreadyDestroyed (tombstone : KeyTombstoneV1).

Inductive KeyDestructionOutcomeV1 :=
| Destroyed (tombstone : KeyTombstoneV1) | AlreadyDestroyed (tombstone : KeyTombstoneV1).

Definition outcome_tombstone (o : KeyDestructionOutcomeV1) : KeyTombstoneV1 :=
  match o with Destroyed t | AlreadyDestroyed t => t end.

Inductive KeyRegistrationOutcomeV1 := Registered | AlreadyRegistered.

Module KeyError.
Inductive KeyRegistryErrorV1 :=
| InvalidOwnerId | InvalidEpoch | InvalidRoleCode
| StaleEpoch (role : KeyRoleV1) (requested active : Z)
| IdentityConflict | MaterialReuse | MissingPublicVerificationKey | UnexpectedPublicVerificationKey
| SigningRoleRequired | EncryptionRoleRequired | SigningPurposeMismatch
| Destroyed | NotFound | InactiveKey | SigningKeyMismatch | EncryptionKeyMismatch
| HistoricalDecryptionRoleRequired | RegistryUnavailable | InvalidState | MaterialDigestMismatch
| DestructionAuthorizationMismatch | DestructionPending | DestructionNotPending | DeletionReceiptMismatch.
End KeyError.

Notation KeyResult := (result KeyError.KeyRegistryErrorV1).

Definition require_role_bound_signing (r : KeyRoleV1) : KeyResult unit :=
  match r with
  | SubjectAttributionSigning | TimelineIntegritySigning | PluginReleaseSigning => Ok tt
  | ConformanceEvaluatorSigning | ConformanceReportSigning => Err KeyError.SigningPurposeMismatch
  | SubjectDataEncryption | ExportRecipientEncryption => Err KeyError.SigningRoleRequired
  end.

Definition validate_historical_decryption (i : KeyIdentityV1) : KeyResult unit :=
  if key_epoch i =? 0 then Err KeyError.InvalidEpoch
  else match key_role i with
       | SubjectDataEncryption | ExportRecipientEncryption => Ok tt
       | _ => Err KeyError.HistoricalDecryptionRoleRequired
       end.

(** ** State *)

Record KeyRegistryStateV1 := MkRegistry {
  kg_records : gmap KeyIdentityV1 KeyRecordV1;
  kg_active : gmap KeyScope KeyIdentityV1;
  kg_tombstones : gmap KeyIdentityV1 KeyTombstoneV1;
  kg_highest_epoch : gmap KeyScope Z;
  kg_pending_destructions : gmap KeyIdentityV1 KeyDestructionRequestV1;
}.

#[export] Instance registry_eq_dec : EqDecision KeyRegistryStateV1.
Proof. solve_decision. Defined.

Definition registry_new : KeyRegistryStateV1 := MkRegistry ∅ ∅ ∅ ∅ ∅.

(** [contains_key]. *)
Definition has_key {K V} `{Countable K} (m : gmap K V) (k : K) : bool :=
  match m !! k with Some _ => true | None => false end.

Definition pending_destruction_requests (s : KeyRegistryStateV1) : list KeyDestructionRequestV1 :=
  (btree_iter identity_lt (kg_pending_destructions s)).*2.
Definition committed_destruction_facts (s : KeyRegistryStateV1) : list KeyTombstoneV1 :=
  (btree_iter identity_lt (kg_tombstones s)).*2.
Definition key_records (s : KeyRegistryStateV1) : list KeyRecordV1 := (btree_iter identity_lt (kg_records s)).*2.

Definition active_key (s : KeyRegistryStateV1) (owner : OwnerIdV1) (role : KeyRoleV1) : option KeyRecordV1 :=
  identity ← kg_active s !! (owner, role); kg_records s !! identity.
Definition highest_epoch (s : KeyRegistryStateV1) (owner : OwnerIdV1) (role : KeyRoleV1) : option Z :=
  kg_highest_epoch s !! (owner, role).
Definition key_record (s : KeyRegistryStateV1) (identity : KeyIdentityV1) : option KeyRecordV1 :=
  kg_records s !! identity.
Definition key_tombstone (s : KeyRegistryStateV1) (identity : KeyIdentityV1) : option KeyTombstoneV1 :=
  kg_tombstones s !! identity.

(** ** Validation of a snapshot *)

Section Validation.
Context {G : Type} `{KeyRegistryReadGuardV1 G}.

Definition reserve_material (reserved : gset Hash) (digest : Hash) : Guarded G (gset Hash) :=
  step (if decide (digest ∈ reserved) then gerr InvalidSnapshot
        else let! _ := materialize 32 in gret ({[digest]} ∪ reserved)).

Definition validate_record (s : KeyRegistryStateV1) (reserved : gset Hash) (entry : KeyIdentityV1 * KeyRecordV1)
    : Guarded G (gset Hash) :=
  let (identity, record) := entry in
  step (
    let! _ := reject_if (negb (bool_decide (kr_identity record = identity))) in
    let! _ := reject_if (negb (owner_text_ok (raw (key_owner_id identity))) || (key_epoch identity =? 0)) in
    let! _ := reject_if (negb (Bool.eqb (is_signing (key_role identity))
                                 (bool_decide (is_Some (kr_public_verification_key record))))) in
    let! scope := context_scope (key_owner_id identity) (key_role identity) in
    let! _ := reject_if (negb (has_key (kg_highest_epoch s) scope)) in
    let! reserved := match kr_private_material_digest record with
      | Some digest => reserve_material reserved digest
      | None => gret reserved
      end in
    let! _ := reject_if (bool_decide (kr_private_material_digest record = None)
                         && negb (has_key (kg_tombstones s) identity)) in
    gret reserved).

Definition validate_records (s : KeyRegistryStateV1) (reserved : gset Hash) : Guarded G (gset Hash) :=
  for_fold (btree_iter identity_lt (kg_records s)) (validate_record s) reserved.

Definition validate_pending (s : KeyRegistryStateV1) (entry : KeyIdentityV1 * KeyDestructionRequestV1) : Guarded G unit :=
  let (identity, request) := entry in
  step (
    let! record := required (kg_records s !! identity) in
    let! _ := reject_if (negb (bool_decide (dr_identity request = identity))
      || negb (bool_decide (kr_private_material_digest record = Some (dr_expected_material_digest request)))
      || has_key (kg_tombstones s) identity) in
    let! scope := context_scope (key_owner_id identity) (key_role identity) in
    reject_if (bool_decide (kg_active s !! scope = Some identity))).

Definition validate_pending_destructions (s : KeyRegistryStateV1) : Guarded G unit :=
  for_each (btree_iter identity_lt (kg_pending_destructions s)) (validate_pending s).

Definition raise_maximum (scope : KeyScope) (maximum : option Z) (identity : KeyIdentityV1) : option Z :=
  if bool_decide (raw (key_owner_id identity) = raw scope.1) && bool_decide (key_role identity = scope.2)
  then Some (match maximum with None => key_epoch identity | Some previous => Z.max previous (key_epoch identity) end)
  else maximum.

Definition validate_maximum (s : KeyRegistryStateV1) (entry : KeyScope * Z) : Guarded G unit :=
  let (scope, highest) := entry in
  step (
    let! maximum := for_fold (btree_iter identity_lt (kg_records s)).*1
      (fun maximum identity => step (gret (raise_maximum scope maximum identity))) None in
    reject_if (negb (bool_decide (maximum = Some highest)))).

Definition validate_high_water_maxima (s : KeyRegistryStateV1) : Guarded G unit :=
  for_each (btree_iter scope_lt (kg_highest_epoch s)) (validate_maximum s).

Definition validate_active_entry (s : KeyRegistryStateV1) (entry : KeyScope * KeyIdentityV1) : Guarded G unit :=
  let '((owner_id, role), identity) := entry in
  step (
    let! _ := reject_if (negb (owner_text_ok (raw owner_id))) in
    let! _ := reject_if (negb (bool_decide (key_role identity = role))) in
    let! _ := reject_if (negb (bool_decide (raw (key_owner_id identity) = raw owner_id))) in
    let! _ := reject_if (has_key (kg_tombstones s) identity) in
    let! _ := reject_if (negb (has_key (kg_records s) identity)) in
    let! scope := context_scope owner_id role in
    reject_if (negb (bool_decide (kg_highest_epoch s !! scope = Some (key_epoch identity))))).

Definition validate_active (s : KeyRegistryStateV1) : Guarded G unit :=
  for_each (btree_iter scope_lt (kg_active s)) (validate_active_entry s).

Definition validate_latest_epoch (s : KeyRegistryStateV1) (entry : KeyScope * Z) : Guarded G unit :=
  let '((owner_id, role), highest) := entry in
  step (
    let! identity := context_identity owner_id role highest in
    if negb (has_key (kg_tombstones s) identity) && negb (has_key (kg_pending_destructions s) identity)
    then let! scope := context_scope owner_id role in
         reject_if (negb (bool_decide (kg_active s !! scope = Some identity)))
    else gret tt).

Definition validate_latest_epochs (s : KeyRegistryStateV1) : Guarded G unit :=
  for_each (btree_iter scope_lt (kg_highest_epoch s)) (validate_latest_epoch s).

Definition validate_tombstone (s : KeyRegistryStateV1) (reserved : gset Hash)
    (entry : KeyIdentityV1 * KeyTombstoneV1) : Guarded G (gset Hash) :=
  let (identity, tombstone) := entry in
  step (
    let! record := required (kg_records s !! identity) in
    let! _ := reject_if (negb (bool_decide (tb_identity tombstone = identity))) in
    let! _ := reject_if (bool_decide (is_Some (kr_private_material_digest record))) in
    reserve_material reserved (tb_destroyed_material_digest tombstone)).

Definition validate_tombstones (s : KeyRegistryStateV1) (reserved : gset Hash) : Guarded G (gset Hash) :=
  for_fold (btree_iter identity_lt (kg_tombstones s)) (validate_tombstone s) reserved.

Definition validate_native_invariants (s : KeyRegistryStateV1) : Guarded G unit :=
  let! reserved := validate_records s ∅ in
  let! _ := validate_pending_destructions s in
  let! _ := validate_high_water_maxima s in
  let! _ := validate_active s in
  let! _ := validate_latest_epochs s in
  let! _ := validate_tombstones s reserved in gret tt.

Definition validate_with_read_context (s : KeyRegistryStateV1) : Guarded G unit := step (validate_native_invariants s).
End Validation.

Definition registry_validate (s : KeyRegistryStateV1) : KeyResult unit :=
  map_err (fun _ => KeyError.InvalidState)
    (@validate_with_read_context OrdinaryReadGuard _ s (context_new tt)).2.

(** ** Operations *)

Section Registry.
Context `{Blake3}.

Definition deletion_receipt (r : KeyDestructionRequestV1) : Hash :=
  blake3 (list_byte_of_string "pigloros/key-deletion-receipt/v1"
    ++ as_bytes (raw (key_owner_id (dr_identity r))) ++ [byte_of_Z (role_code (key_role (dr_identity r)))]
    ++ to_be_bytes (key_epoch (dr_identity r)) ++ hash_bytes (dr_expected_material_digest r)
    ++ hash_bytes (dr_authorization_digest r)).

Definition destruction_digest (r : KeyDestructionRequestV1) : Hash :=
  let owner_bytes := as_bytes (raw (key_owner_id (dr_identity r))) in
  blake3 (list_byte_of_string "pigloros/key-destruction/v1"
    ++ be_bytes 4 (if len owner_bytes <=? U32_MAX then len owner_bytes else 0)
    ++ owner_bytes ++ [byte_of_Z (role_code (key_role (dr_identity r)))]
    ++ to_be_bytes (key_epoch (dr_identity r)) ++ hash_bytes (dr_expected_material_digest r)
    ++ hash_bytes (dr_authorization_digest r)).

Definition validate_registration (r : KeyRegistrationV1) : KeyResult unit :=
  if key_epoch (reg_identity r) =? 0 then Err KeyError.InvalidEpoch
  else if is_signing (key_role (reg_identity r)) && bool_decide (reg_public_verification_key r = None)
  then Err KeyError.MissingPublicVerificationKey
  else if is_encryption (key_role (reg_identity r)) && bool_decide (is_Some (reg_public_verification_key r))
  then Err KeyError.UnexpectedPublicVerificationKey
  else Ok tt.

Definition material_is_reserved (s : KeyRegistryStateV1) (digest : Hash) : bool :=
  existsb (fun record => bool_decide (kr_private_material_digest record = Some digest)) (key_records s)
  || existsb (fun tombstone => bool_decide (tb_destroyed_material_digest tombstone = digest))
       (committed_destruction_facts s).

Definition registration_checks (s : KeyRegistryStateV1) (r : KeyRegistrationV1) : KeyResult bool :=
  let identity := reg_identity r in
  let? _ := registry_validate s in
  let? _ := validate_registration r in
  if has_key (kg_tombstones s) identity then Err KeyError.Destroyed
  else if has_key (kg_pending_destructions s) identity then Err KeyError.DestructionPending
  else
    let? _ := match kg_highest_epoch s !! scope_of identity with
      | Some highest => if key_epoch identity <? highest
                        then Err (KeyError.StaleEpoch (key_role identity) (key_epoch identity) highest) else Ok tt
      | None => Ok tt
      end in
    match kg_records s !! identity with
    | Some existing =>
        if bool_decide (kr_private_material_digest existing = Some (reg_private_material_digest r))
           && bool_decide (kr_public_verification_key existing = reg_public_verification_key r)
        then Ok false else Err KeyError.IdentityConflict
    | None => if material_is_reserved s (reg_private_material_digest r) then Err KeyError.MaterialReuse else Ok true
    end.

(** The checks say whether the record is new. *)
Definition register_key (r : KeyRegistrationV1) (s : KeyRegistryStateV1)
    : KeyRegistryStateV1 * KeyResult KeyRegistrationOutcomeV1 :=
  let identity := reg_identity r in
  match registration_checks s r with
  | Err e => (s, Err e)
  | Ok false => (s, Ok AlreadyRegistered)
  | Ok true =>
      (MkRegistry
         (<[identity := MkKeyRecord identity (Some (reg_private_material_digest r)) (reg_public_verification_key r)]>
            (kg_records s))
         (<[scope_of identity := identity]> (kg_active s))
         (kg_tombstones s)
         (<[scope_of identity := key_epoch identity]> (kg_highest_epoch s))
         (kg_pending_destructions s), Ok Registered)
  end.

(** [records.get(..).ok_or(NotFound)], then destroyed, pending. *)
Definition live_record (s : KeyRegistryStateV1) (identity : KeyIdentityV1) : KeyResult KeyRecordV1 :=
  let? record := ok_or (kg_records s !! identity) KeyError.NotFound in
  if has_key (kg_tombstones s) identity then Err KeyError.Destroyed
  else if has_key (kg_pending_destructions s) identity then Err KeyError.DestructionPending
  else Ok record.

Definition active_record (s : KeyRegistryStateV1) (identity : KeyIdentityV1) : KeyResult KeyRecordV1 :=
  let? record := live_record s identity in
  let? active := ok_or (kg_active s !! scope_of identity) KeyError.InactiveKey in
  if bool_decide (active = identity) then Ok record else Err KeyError.InactiveKey.

Definition registry_available (s : KeyRegistryStateV1) : KeyResult unit :=
  map_err (fun _ => KeyError.RegistryUnavailable) (registry_validate s).

Definition signing_checks (s : KeyRegistryStateV1) (identity : KeyIdentityV1) (digest : Hash) (key : PublicKey)
    : KeyResult unit :=
  if key_epoch identity =? 0 then Err KeyError.InvalidEpoch
  else if negb (is_signing (key_role identity)) then Err KeyError.SigningRoleRequired
  else
    let? _ := registry_available s in
    let? record := active_record s identity in
    if negb (bool_decide (kr_private_material_digest record = Some digest))
       || negb (bool_decide (kr_public_verification_key record = Some key))
    then Err KeyError.SigningKeyMismatch else Ok tt.

Definition encryption_checks (s : KeyRegistryStateV1) (identity : KeyIdentityV1) (digest : Hash) : KeyResult unit :=
  if key_epoch identity =? 0 then Err KeyError.InvalidEpoch
  else if negb (is_encryption (key_role identity)) then Err KeyError.EncryptionRoleRequired
  else
    let? _ := registry_available s in
    let? record := active_record s identity in
    if negb (bool_decide (kr_private_material_digest record = Some digest))
    then Err KeyError.EncryptionKeyMismatch else Ok tt.

Definition decryption_checks (s : KeyRegistryStateV1) (identity : KeyIdentityV1) (digest : Hash) : KeyResult unit :=
  let? _ := validate_historical_decryption identity in
  let? _ := registry_available s in
  let? record := live_record s identity in
  if negb (bool_decide (kr_private_material_digest record = Some digest))
  then Err KeyError.EncryptionKeyMismatch else Ok tt.

(** Run the operation when the checks passed. *)
Definition authorized {W T} (checks : KeyResult unit) (operation : W -> W * T) (w : W) : W * KeyResult T :=
  match checks with
  | Err e => (w, Err e)
  | Ok _ => let (w', t) := operation w in (w', Ok t)
  end.

Definition with_signing_authorization {W T} (s : KeyRegistryStateV1) (identity : KeyIdentityV1) (digest : Hash)
    (key : PublicKey) (operation : W -> W * T) : W -> W * KeyResult T :=
  authorized (signing_checks s identity digest key) operation.

Definition with_encryption_authorization {W T} (s : KeyRegistryStateV1) (identity : KeyIdentityV1) (digest : Hash)
    (operation : W -> W * T) : W -> W * KeyResult T :=
  authorized (encryption_checks s identity digest) operation.

Definition with_decryption_authorization {W T} (s : KeyRegistryStateV1) (identity : KeyIdentityV1) (digest : Hash)
    (operation : W -> W * T) : W -> W * KeyResult T :=
  authorized (decryption_checks s identity digest) operation.

Definition begin_key_destruction (r : KeyDestructionRequestV1) (s : KeyRegistryStateV1)
    : KeyRegistryStateV1 * KeyResult KeyDestructionBeginOutcomeV1 :=
  let identity := dr_identity r in
  if key_epoch identity =? 0 then (s, Err KeyError.InvalidEpoch)
  else match registry_validate s with
  | Err e => (s, Err e)
  | Ok _ =>
  match kg_tombstones s !! identity with
  | Some tombstone =>
      (s, if negb (bool_decide (tb_destroyed_material_digest tombstone = dr_expected_material_digest r))
          then Err KeyError.MaterialDigestMismatch
          else if negb (bool_decide (tb_destruction_digest tombstone = destruction_digest r))
          then Err KeyError.DestructionAuthorizationMismatch
          else if negb (bool_decide (tb_deletion_receipt tombstone = deletion_receipt r))
          then Err KeyError.DeletionReceiptMismatch
          else Ok (BeginAlreadyDestroyed tombstone))
  | None =>
  match kg_pending_destructions s !! identity with
  | Some pending =>
      (s, if negb (bool_decide (pending = r)) then Err KeyError.DestructionAuthorizationMismatch
          else Ok AlreadyPending)
  | None =>
  match kg_records s !! identity with
  | None => (s, Err KeyError.NotFound)
  | Some record =>
      if negb (bool_decide (kr_private_material_digest record = Some (dr_expected_material_digest r)))
      then (s, Err KeyError.MaterialDigestMismatch)
      else (MkRegistry (kg_records s)
              (if bool_decide (kg_active s !! scope_of identity = Some identity)
               then delete (scope_of identity) (kg_active s) else kg_active s)
              (kg_tombstones s) (kg_highest_epoch s)
              (<[identity := r]> (kg_pending_destructions s)), Ok Started)
  end end end end.

Definition complete_key_destruction (r : KeyDestructionRequestV1) (receipt : Hash) (s : KeyRegistryStateV1)
    : KeyRegistryStateV1 * KeyResult KeyDestructionOutcomeV1 :=
  let identity := dr_identity r in
  if key_epoch identity =? 0 then (s, Err KeyError.InvalidEpoch)
  else match registry_validate s with
  | Err e => (s, Err e)
  | Ok _ =>
  match kg_tombstones s !! identity with
  | Some tombstone =>
      (s, if negb (bool_decide (tb_destroyed_material_digest tombstone = dr_expected_material_digest r))
          then Err KeyError.MaterialDigestMismatch
          else if negb (bool_decide (tb_destruction_digest tombstone = destruction_digest r))
                  || negb (bool_decide (tb_deletion_receipt tombstone = receipt))
          then Err KeyError.DestructionAuthorizationMismatch
          else Ok (AlreadyDestroyed tombstone))
  | None =>
      if negb (bool_decide (kg_pending_destructions s !! identity = Some r))
      then (s, if has_key (kg_pending_destructions s) identity
               then Err KeyError.DestructionAuthorizationMismatch else Err KeyError.DestructionNotPending)
      else if negb (bool_decide (receipt = deletion_receipt r)) then (s, Err KeyError.DeletionReceiptMismatch)
      else match kg_records s !! identity with
      | None => (s, Err KeyError.InvalidState)
      | Some record =>
          let tombstone := MkTombstone identity (dr_expected_material_digest r) (destruction_digest r) receipt in
          (MkRegistry
             (<[identity := MkKeyRecord (kr_identity record) None (kr_public_verification_key record)]> (kg_records s))
             (kg_active s) (<[identity := tombstone]> (kg_tombstones s)) (kg_highest_epoch s)
             (delete identity (kg_pending_destructions s)), Ok (Destroyed tombstone))
      end
  end end.

(** ** Validation of a replacement *)

Fixpoint all_ok {A} (f : A -> bool) (items : list A) : KeyResult unit :=
  match items with
  | [] => Ok tt
  | x :: rest => if f x then all_ok f rest else Err KeyError.InvalidState
  end.

(** An identity only [next] has. *)
Definition appended_later (s next : KeyRegistryStateV1) (identity : KeyIdentityV1) : bool :=
  has_key (kg_records s) identity
  || (negb (has_key (kg_tombstones next) identity || has_key (kg_pending_destructions next) identity)
      && negb (match kg_highest_epoch s !! scope_of identity with
               | Some highest => key_epoch identity <=? highest
               | None => false
               end)).

Definition record_kept (s next : KeyRegistryStateV1) (entry : KeyIdentityV1 * KeyRecordV1) : bool :=
  let (identity, previous) := entry in
  match kg_records next !! identity with
  | None => false
  | Some current =>
      bool_decide (kr_identity current = kr_identity previous)
      && bool_decide (kr_public_verification_key current = kr_public_verification_key previous)
      && match kr_private_material_digest previous, kr_private_material_digest current with
         | Some previous_digest, Some current_digest => bool_decide (previous_digest = current_digest)
         | None, Some _ => false
         | Some _, None => has_key (kg_pending_destructions s) identity
         | None, None => bool_decide (kg_tombstones next !! identity = kg_tombstones s !! identity)
         end
  end.

Definition pending_kept (next : KeyRegistryStateV1) (entry : KeyIdentityV1 * KeyDestructionRequestV1) : bool :=
  let (identity, request) := entry in
  bool_decide (kg_pending_destructions next !! identity = Some request)
  || match kg_tombstones next !! identity with
     | None => false
     | Some tombstone =>
         bool_decide (tb_destroyed_material_digest tombstone = dr_expected_material_digest request)
         && bool_decide (tb_destruction_digest tombstone = destruction_digest request)
         && bool_decide (tb_deletion_receipt tombstone = deletion_receipt request)
     end.

Definition validate_replacement (s next : KeyRegistryStateV1) : KeyResult unit :=
  let? _ := registry_validate s in
  let? _ := registry_validate next in
  let? _ := all_ok (appended_later s next) (btree_iter identity_lt (kg_records next)).*1 in
  let? _ := all_ok (record_kept s next) (btree_iter identity_lt (kg_records s)) in
  all_ok (pending_kept next) (btree_iter identity_lt (kg_pending_destructions s)).
End Registry.
