(* ===== verification/FallbackPolicy.v ===== *)
(** * Explicit domain fallback: the policy record DFP1

    [crates/pos-core/src/composition_fallback/policy.rs]: the entries of a
    domain fallback policy ([FallbackEntryV1]) and the policy itself
    ([DomainFallbackPolicyV1]), whose digest is recomputed by the constructor
    and compared by the decoder. *)

From Stdlib Require Import String ZArith Lia Bool Sorting.Sorted.
From S2P Require Import Prelude Text Cbor FallbackRecords.

Local Open Scope Z_scope.

Definition DFP1_HEADER : list byte := [x86; x44; "D"; "F"; "P"; "1"; x01]%byte.
Definition TRIGGERS_MAX : Z := len (ALL : list FallbackTriggerCodeV1).

(** ** Entries *)

Record FallbackEntryV1 := MkFallbackEntry {
  entry_entry_key : RString;
  entry_primary : CompositionPinV1;
  entry_candidates : list CompositionPinV1;
  entry_triggers : list FallbackTriggerCodeV1;
  entry_activation_mode : FallbackActivationModeV1;
}.

#[export] Instance entry_eq_dec : EqDecision FallbackEntryV1.
Proof. solve_decision. Defined.

Definition valid_triggers (triggers : list FallbackTriggerCodeV1) : bool :=
  let codes := code <$> triggers in
  negb (len codes =? 0) && windows_sorted Z.ltb codes.

Definition entry_plugin_ids (e : FallbackEntryV1) : list RString :=
  pin_plugin_id <$> entry_primary e :: entry_candidates e.

Definition entry_new (entry_key : RString) (primary : CompositionPinV1)
    (candidates : list CompositionPinV1) (triggers : list FallbackTriggerCodeV1)
    (activation_mode : FallbackActivationModeV1) : Outcome FallbackEntryV1 :=
  let? _ := check_entry_key entry_key in
  let chain := count_within (len candidates) 1 MAX_FALLBACK_CANDIDATES_V1 in
  let? _ := require chain Candidates in
  let? _ := require (valid_triggers triggers) Triggers in
  let entry := MkFallbackEntry entry_key primary candidates triggers activation_mode in
  let? _ := require (all_unique (entry_plugin_ids entry)) Distinctness in
  Ok entry.

Definition entry_valid (e : FallbackEntryV1) : bool :=
  entry_key_ok (entry_entry_key e)
  && count_within (len (entry_candidates e)) 1 MAX_FALLBACK_CANDIDATES_V1
  && valid_triggers (entry_triggers e)
  && all_unique (entry_plugin_ids e)
  && pin_valid (entry_primary e) && forallb pin_valid (entry_candidates e).

Definition write_trigger (t : FallbackTriggerCodeV1) : list byte := encode_head 0 (code t).

Definition entry_write (e : FallbackEntryV1) : list byte :=
  [x85] ++ write_text (entry_entry_key e) ++ pin_write (entry_primary e)
  ++ write_list pin_write (entry_candidates e)
  ++ write_list write_trigger (entry_triggers e)
  ++ encode_head 0 (code (entry_activation_mode e)).

Definition entry_to_canonical_cbor (e : FallbackEntryV1) : list byte := entry_write e.

Definition read_trigger : Reader FallbackTriggerCodeV1 := r_lookup from_code Triggers.

Definition read_entry_tail (entry_key : RString) (primary : CompositionPinV1)
    (candidates : list CompositionPinV1) : Reader FallbackEntryV1 :=
  let! triggers := r_list TRIGGERS_MAX Triggers read_trigger in
  let! mode := r_lookup from_code ActivationMode in
  plift (entry_new entry_key primary candidates triggers mode).

Definition read_entry : Reader FallbackEntryV1 :=
  let! _ := r_fixed [x85] in
  let! entry_key := r_text in
  let! primary := read_pin in
  let! candidates := r_list MAX_FALLBACK_CANDIDATES_V1 Candidates read_pin in
  read_entry_tail entry_key primary candidates.

(** ** Policies *)

Record DomainFallbackPolicyV1 := MkDomainFallbackPolicy {
  policy_scope : RString;
  policy_entries : list FallbackEntryV1;
  policy_previous_policy_digest : option Hash;
  policy_policy_digest : Hash;
}.

#[export] Instance policy_eq_dec : EqDecision DomainFallbackPolicyV1.
Proof. solve_decision. Defined.

Definition valid_entries (entries : list FallbackEntryV1) : bool :=
  (len entries <=? MAX_FALLBACK_ENTRIES_V1)
  && strictly_sorted (entry_entry_key <$> entries).

Definition distinct_plugins (entries : list FallbackEntryV1) : bool :=
  all_unique (flat_map entry_plugin_ids entries).

Definition policy_is_withdrawal (p : DomainFallbackPolicyV1) : bool :=
  len (policy_entries p) =? 0.

Definition policy_fields (p : DomainFallbackPolicyV1) (array_header : byte) : list byte :=
  [array_header] ++ tail DFP1_HEADER ++ write_text (policy_scope p)
  ++ write_list entry_write (policy_entries p)
  ++ write_optional_hash (policy_previous_policy_digest p).

Definition policy_to_canonical_cbor (p : DomainFallbackPolicyV1) : list byte :=
  policy_fields p x86 ++ encode_hash (policy_policy_digest p).

Section Policy.
Context `{Blake3}.

Definition policy_new (scope : RString) (entries : list FallbackEntryV1)
    (previous_policy_digest : option Hash) : Outcome DomainFallbackPolicyV1 :=
  let? _ := check_text scope MAX_FALLBACK_SCOPE_BYTES_V1 Scope in
  let? _ := require (valid_entries entries) Entries in
  let? _ := require (distinct_plugins entries) Distinctness in
  let policy := MkDomainFallbackPolicy scope entries previous_policy_digest hash_zero in
  let preimage := policy_fields policy x85 in
  Ok (MkDomainFallbackPolicy scope entries previous_policy_digest
        (domain_digest FALLBACK_POLICY_DIGEST_DOMAIN_V1 preimage)).

Definition policy_valid (p : DomainFallbackPolicyV1) : bool :=
  text_within (policy_scope p) MAX_FALLBACK_SCOPE_BYTES_V1
  && valid_entries (policy_entries p)
  && distinct_plugins (policy_entries p)
  && forallb entry_valid (policy_entries p)
  && bool_decide (policy_policy_digest p
                  = domain_digest FALLBACK_POLICY_DIGEST_DOMAIN_V1 (policy_fields p x85)).

Definition check_policy_digest (policy : DomainFallbackPolicyV1) : Reader DomainFallbackPolicyV1 :=
  let! digest := r_hash in
  if decide (digest = policy_policy_digest policy) then pret policy
  else plift (Err PolicyDigestMismatch).

Definition read_policy : Reader DomainFallbackPolicyV1 :=
  let! _ := r_fixed DFP1_HEADER in
  let! scope := r_text in
  let! entries := r_list MAX_FALLBACK_ENTRIES_V1 Entries read_entry in
  let! previous := r_optional_hash in
  let! policy := plift (policy_new scope entries previous) in
  check_policy_digest policy.

Definition policy_from_canonical_cbor (bytes : list byte) : Outcome DomainFallbackPolicyV1 :=
  decode_canonical MAX_FALLBACK_POLICY_BYTES_V1 read_policy policy_to_canonical_cbor bytes.

End Policy.

(** ** Entries: constructor and codec *)

Lemma entry_new_ok key primary cands trig mode e :
  entry_new key primary cands trig mode = Ok e <->
  e = MkFallbackEntry key primary cands trig mode
  /\ entry_key_ok key = true
  /\ count_within (len cands) 1 MAX_FALLBACK_CANDIDATES_V1 = true
  /\ valid_triggers trig = true /\ all_unique (entry_plugin_ids e) = true.
Proof.
  unfold entry_new, check_entry_key, require. split.
  - intros Hn. ok_inv. by auto.
  - intros (-> & -> & -> & -> & ->). done.
Qed.

Lemma valid_triggers_count trig :
  valid_triggers trig = true -> len trig <= TRIGGERS_MAX.
Proof.
  unfold valid_triggers. rewrite andb_true_iff. intros [_ Hs].
  apply windows_sorted_NoDup in Hs; [|intros; lia ..].
  apply NoDup_fmap_1 in Hs. unfold TRIGGERS_MAX, len. apply inj_le, submseteq_length.
  apply NoDup_submseteq; [done|]. intros [] _; set_solver.
Qed.

Lemma entry_valid_spec e :
  entry_valid e = true <->
  entry_new (entry_entry_key e) (entry_primary e) (entry_candidates e) (entry_triggers e)
    (entry_activation_mode e) = Ok e
  /\ pin_valid (entry_primary e) = true /\ Forall (fun p => pin_valid p = true) (entry_candidates e).
Proof.
  rewrite entry_new_ok. unfold entry_valid. rewrite !andb_true_iff, forallb_forall, Forall_forall.
  setoid_rewrite list_elem_of_In. destruct e; simpl. tauto.
Qed.

Lemma entry_key_ok_len k : entry_key_ok k = true -> text_within k MAX_FALLBACK_ENTRY_KEY_BYTES_V1 = true.
Proof. unfold entry_key_ok. rewrite andb_true_iff. tauto. Qed.

Lemma yields_pin p : pin_valid p = true -> yields read_pin p (pin_write p).
Proof. exact (codec_yields p). Qed.
Lemma returns_pin : returns read_pin (fun p => pin_valid p = true).
Proof. exact codec_returns. Qed.
#[export] Hint Resolve yields_pin : yields.
#[export] Hint Resolve returns_pin : returns.

Lemma yields_pins ps :
  Forall (fun p => pin_valid p = true) ps -> Forall (fun p => yields read_pin p (pin_write p)) ps.
Proof. intros Hf. eapply Forall_impl; [exact Hf|]. apply yields_pin. Qed.

Lemma yields_triggers ts : Forall (fun t => yields read_trigger t (write_trigger t)) ts.
Proof. apply Forall_forall. intros t _. apply yields_r_lookup. Qed.

#[export] Instance entry_codec : Codec FallbackEntryV1 := {|
  c_read := read_entry; c_write := entry_write; c_valid := entry_valid |}.

Lemma count_within_spec n a b : count_within n a b = true <-> a <= n <= b.
Proof. unfold count_within. lia. Qed.

#[export] Instance entry_codec_laws : CodecLaws FallbackEntryV1.
Proof.
  split.
  - intros e He. change (yields read_entry e (entry_write e)).
    apply entry_valid_spec in He as (Hn & Hp & Hc). pose proof Hn as Hn'.
    apply entry_new_ok in Hn' as (_ & Hk & Hcount & Ht & _).
    apply count_within_spec in Hcount. apply entry_key_ok_len in Hk.
    unfold read_entry, entry_write, read_entry_tail. yields_fields.
    + by eapply yields_text.
    + apply yields_r_list; [by apply yields_pins|lia|done].
    + apply yields_r_list; [apply yields_triggers|by apply valid_triggers_count|done].
    + exact Hn.
  - change (returns read_entry (fun t => entry_valid t = true)).
    unfold read_entry, read_entry_tail. do 3 returns_step.
    eapply returns_bind; [apply returns_r_list, returns_pin|]. cbn beta. intros cs [Hcs _].
    do 2 returns_step. apply returns_lift. intros e He. apply entry_valid_spec.
    pose proof He as He'. apply entry_new_ok in He' as (-> & _). done.
Qed.

Lemma entry_write_bound e : entry_valid e = true -> len (entry_write e) <= MAX_FALLBACK_ENTRY_BYTES_V1.
Proof.
  intros He. apply entry_valid_spec in He as (Hn & Hp & Hc).
  apply entry_new_ok in Hn as (_ & Hk & Hcount & Ht & _).
  apply count_within_spec in Hcount. apply entry_key_ok_len, len_write_text in Hk.
  apply pin_write_bound in Hp. apply valid_triggers_count in Ht.
  change TRIGGERS_MAX with 5 in Ht.
  change (len (encode_head 3 MAX_FALLBACK_ENTRY_KEY_BYTES_V1)) with 2 in Hk.
  unfold MAX_FALLBACK_ENTRY_KEY_BYTES_V1, MAX_FALLBACK_CANDIDATES_V1 in *.
  assert (Hw : len (write_list pin_write (entry_candidates e)) <= 1 + 2 * 1301).
  { apply (len_write_list pin_write 1301 2); [lia..|].
    eapply Forall_impl; [exact Hc|]. apply pin_write_bound. }
  assert (Ht' : len (write_list write_trigger (entry_triggers e)) <= 1 + 5 * 1).
  { apply (len_write_list write_trigger 1 5); [lia..|]. apply Forall_forall.
    intros [] _; simpl; reflexivity. }
  assert (len (encode_head 0 (code (entry_activation_mode e))) = 1)
    by (by destruct (entry_activation_mode e)).
  unfold entry_write. rewrite !len_app. change (len [x85]) with 1.
  unfold MAX_COMPOSITION_PIN_BYTES_V1, MAX_FALLBACK_ENTRY_BYTES_V1 in *. lia.
Qed.

(** ** Policies: constructor and codec *)

Lemma yields_entries es :
  Forall (fun e => entry_valid e = true) es ->
  Forall (fun e => yields read_entry e (entry_write e)) es.
Proof. intros Hf. eapply Forall_impl; [exact Hf|]. exact codec_yields. Qed.

Lemma returns_entry : returns read_entry (fun e => entry_valid e = true).
Proof. exact codec_returns. Qed.

Section PolicyCodec.
Context `{Blake3}.

(** The digest the constructor computes does not depend on the digest field. *)
Lemma policy_fields_digest scope entries prev d1 d2 b :
  policy_fields (MkDomainFallbackPolicy scope entries prev d1) b
  = policy_fields (MkDomainFallbackPolicy scope entries prev d2) b.
Proof. reflexivity. Qed.

Lemma policy_new_ok scope entries prev p :
  policy_new scope entries prev = Ok p <->
  p = MkDomainFallbackPolicy scope entries prev (policy_policy_digest p)
  /\ text_within scope MAX_FALLBACK_SCOPE_BYTES_V1 = true
  /\ valid_entries entries = true /\ distinct_plugins entries = true
  /\ policy_policy_digest p = domain_digest FALLBACK_POLICY_DIGEST_DOMAIN_V1 (policy_fields p x85).
Proof.
  unfold policy_new, check_text, require. split.
  - intros Hn. ok_inv. by auto.
  - intros (Hp & -> & -> & -> & Hd). simpl. rewrite Hp. simpl. rewrite Hp in Hd. simpl in Hd.
    f_equal. f_equal. by rewrite Hd at 1.
Qed.

Lemma policy_valid_spec p :
  policy_valid p = true <->
  policy_new (policy_scope p) (policy_entries p) (policy_previous_policy_digest p) = Ok p
  /\ Forall (fun e => entry_valid e = true) (policy_entries p).
Proof.
  rewrite policy_new_ok. unfold policy_valid.
  rewrite !andb_true_iff, forallb_forall, bool_decide_eq_true, Forall_forall.
  setoid_rewrite list_elem_of_In. destruct p; simpl. tauto.
Qed.

#[export] Instance policy_codec : Codec DomainFallbackPolicyV1 := {|
  c_read := read_policy; c_write := policy_to_canonical_cbor; c_valid := policy_valid |}.

Lemma yields_check_policy_digest p :
  yields (check_policy_digest p) p (encode_hash (policy_policy_digest p)).
Proof.
  eapply yields_bind_last; [apply yields_hash|]. cbn beta.
  rewrite decide_True by done. apply yields_ret.
Qed.

Lemma returns_check_policy_digest p : returns (check_policy_digest p) (fun q => q = p).
Proof.
  eapply returns_bind; [apply returns_any|]. intros h _.
  case_decide; [by apply returns_ret|by apply returns_lift].
Qed.

Lemma valid_entries_count es : valid_entries es = true -> len es <= MAX_FALLBACK_ENTRIES_V1.
Proof. unfold valid_entries. lia. Qed.

#[export] Instance policy_codec_laws : CodecLaws DomainFallbackPolicyV1.
Proof.
  split.
  - intros p Hp. change (yields read_policy p (policy_to_canonical_cbor p)).
    apply policy_valid_spec in Hp as [Hn Hes]. pose proof Hn as Hn'.
    apply policy_new_ok in Hn' as (_ & Hs & He & _ & _). apply valid_entries_count in He.
    unfold policy_to_canonical_cbor, policy_fields. rewrite !app_assoc.
    change ([x86] ++ tail DFP1_HEADER) with DFP1_HEADER. rewrite <- !app_assoc.
    unfold read_policy. yields_fields.
    + by eapply yields_text.
    + apply yields_r_list; [by apply yields_entries|done|done].
    + exact Hn.
    + apply yields_check_policy_digest.
  - change (returns read_policy (fun t => policy_valid t = true)). unfold read_policy.
    do 2 returns_step. eapply returns_bind; [apply returns_r_list, returns_entry|].
    cbn beta. intros es [Hes _]. returns_step.
    eapply returns_bind; [apply returns_lift; intros q Hq; exact Hq|]. cbn beta. intros p Hp.
    eapply returns_weaken; [apply returns_check_policy_digest|]. intros q ->.
    apply policy_valid_spec. pose proof Hp as Hp'. apply policy_new_ok in Hp' as (He & _).
    rewrite He. simpl. rewrite He in Hp. done.
Qed.

Lemma policy_write_bound p :
  policy_valid p = true -> len (policy_to_canonical_cbor p) <= 127503.
Proof.
  intros Hp. apply policy_valid_spec in Hp as [Hn Hes].
  apply policy_new_ok in Hn as (_ & Hs & He & _ & _). apply valid_entries_count in He.
  apply len_write_text in Hs.
  change (len (encode_head 3 MAX_FALLBACK_SCOPE_BYTES_V1)) with 2 in Hs.
  unfold MAX_FALLBACK_SCOPE_BYTES_V1, MAX_FALLBACK_ENTRIES_V1 in *.
  assert (Hw : len (write_list entry_write (policy_entries p)) <= 2 + 32 * 3978).
  { apply (len_write_list entry_write 3978 32); [lia..|].
    eapply Forall_impl; [exact Hes|]. apply entry_write_bound. }
  pose proof (len_write_optional_hash (policy_previous_policy_digest p)).
  unfold policy_to_canonical_cbor, policy_fields. rewrite !len_app, len_encode_hash.
  change (len (tail DFP1_HEADER)) with 6. change (len [x86]) with 1. lia.
Qed.

Lemma policy_size_bound p :
  policy_valid p = true -> len (policy_to_canonical_cbor p) <= MAX_FALLBACK_POLICY_BYTES_V1.
Proof.
  intros Hp. apply policy_write_bound in Hp. unfold MAX_FALLBACK_POLICY_BYTES_V1. lia.
Qed.

Lemma policy_decodes bs p :
  policy_from_canonical_cbor bs = Ok p <-> policy_valid p = true /\ bs = policy_to_canonical_cbor p.
Proof. exact (decode_exact MAX_FALLBACK_POLICY_BYTES_V1 bs p policy_size_bound). Qed.

(** ** Properties *)

(** The DFP1 decoder accepts exactly the canonical encodings of valid
    policies: bounded scope, at most 32 entries strictly sorted by key, every
    entry valid, no Plugin named twice anywhere in the policy, and a policy
    digest equal to the domain-separated digest of fields 0 to 4. *)
Theorem policy_decode_exact bs p :
  policy_from_canonical_cbor bs = Ok p <-> policy_valid p = true /\ bs = policy_to_canonical_cbor p.
Proof. apply policy_decodes. Qed.

(** The constructor and the byte bounds.  [DomainFallbackPolicyV1::new] on
    valid entries returns a policy only under its documented rules; the policy
    it returns decodes from its own encoding, which is at most 127503 bytes
    (inside the 135168-byte decode bound), each entry at most 3978. *)
Theorem policy_new_roundtrip scope entries prev p :
  Forall (fun e => entry_valid e = true) entries ->
  policy_new scope entries prev = Ok p ->
  policy_from_canonical_cbor (policy_to_canonical_cbor p) = Ok p
  /\ len (policy_to_canonical_cbor p) <= 127503
  /\ Forall (fun e => len (entry_to_canonical_cbor e) <= MAX_FALLBACK_ENTRY_BYTES_V1)
       (policy_entries p)
  /\ NoDup (entry_entry_key <$> policy_entries p)
  /\ NoDup (flat_map entry_plugin_ids (policy_entries p)).
Proof.
  intros Hes Hn. pose proof Hn as Hn'. apply policy_new_ok in Hn' as (Hp & _ & Hv & Hd & _).
  assert (Hvalid : policy_valid p = true)
    by (apply policy_valid_spec; rewrite Hp; simpl; rewrite <- Hp; done).
  rewrite Hp in *. simpl in *. split_and!.
  - by apply policy_decodes.
  - by apply policy_write_bound.
  - eapply Forall_impl; [exact Hes|]. apply entry_write_bound.
  - apply strictly_sorted_NoDup. unfold valid_entries in Hv. by apply andb_true_iff in Hv as [_ ?].
  - by apply all_unique_NoDup.
Qed.

End PolicyCodec.

(** ** A concrete policy *)

Module PolicySample.

#[export] Instance blake3_sample : Blake3 := sample_digest.

Definition key (plugin : RString) : ImplementationKeyV1 :=
  MkImplementationKey plugin (lit "1.0.0") hash_zero.
Definition pin (plugin : RString) : CompositionPinV1 := MkCompositionPin (key plugin) [lit "world"].
Definition entry : FallbackEntryV1 :=
  MkFallbackEntry (lit "world.main") (pin (lit "org.primary")) [pin (lit "org.backup")]
    [ComponentTrap; WorkerCrashed] ModeAutomatic.
Definition policy : DomainFallbackPolicyV1 :=
  match policy_new (lit "scope") [entry] None with
  | Ok p => p
  | Err _ => MkDomainFallbackPolicy empty_string [] None hash_zero
  end.

Lemma policy_new_roundtrip_witness :
  policy_from_canonical_cbor (policy_to_canonical_cbor policy) = Ok policy
  /\ len (policy_to_canonical_cbor policy) <= 127503.
Proof.
  assert (Hn : policy_new (lit "scope") [entry] None = Ok policy) by (vm_compute; reflexivity).
  assert (He : Forall (fun e => entry_valid e = true) [entry])
    by (constructor; [vm_compute; reflexivity|constructor]).
  destruct (policy_new_roundtrip (lit "scope") [entry] None policy He Hn) as (Hd & Hl & _).
  split; [exact Hd|exact Hl].
Defined.

End PolicySample.
