(* ===== verification/FallbackPayload.v ===== *)
(** * Explicit domain fallback: the two Event payloads

    [crates/pos-core/src/composition_fallback/payload.rs]: the payload of the
    declaration Event ([FallbackDeclaredPayloadV1]) and of the activation Event
    ([FallbackActivatedPayloadV1]). *)

From Stdlib Require Import String ZArith Lia Bool.
From S2P Require Import Prelude Text Cbor FallbackRecords FallbackPolicy.

Local Open Scope Z_scope.

Definition PAYLOAD_MAX : Z := MAX_FALLBACK_EVENT_PAYLOAD_BYTES_V1.
Definition REBASED_MAX : Z := MAX_FALLBACK_ENTRIES_V1.
Definition SKIPPED_MAX : Z := MAX_FALLBACK_SKIPPED_V1.

(** ** The declaration payload *)

Record FallbackRebasedEntryV1 := MkRebased {
  rebased_entry_key : RString;
  rebased_implementation_digest : Hash;
}.

#[export] Instance rebased_eq_dec : EqDecision FallbackRebasedEntryV1.
Proof. solve_decision. Defined.

Definition rebased_new (entry_key : RString) (implementation_digest : Hash)
    : Outcome FallbackRebasedEntryV1 :=
  let? _ := check_entry_key entry_key in
  Ok (MkRebased entry_key implementation_digest).

Record FallbackDeclaredPayloadV1 := MkDeclared {
  declared_scope : RString;
  declared_policy_digest : Hash;
  declared_previous_policy_digest : option Hash;
  declared_rebased : list FallbackRebasedEntryV1;
}.

#[export] Instance declared_eq_dec : EqDecision FallbackDeclaredPayloadV1.
Proof. solve_decision. Defined.

Definition valid_rebased (rebased : list FallbackRebasedEntryV1) : bool :=
  (len rebased <=? REBASED_MAX) && strictly_sorted (rebased_entry_key <$> rebased).

Definition declared_new (scope : RString) (policy_digest : Hash)
    (previous_policy_digest : option Hash) (rebased : list FallbackRebasedEntryV1)
    : Outcome FallbackDeclaredPayloadV1 :=
  let? _ := check_text scope MAX_FALLBACK_SCOPE_BYTES_V1 Scope in
  let? _ := require (valid_rebased rebased) Rebased in
  Ok (MkDeclared scope policy_digest previous_policy_digest rebased).

Definition declared_for_policy (policy : DomainFallbackPolicyV1)
    (rebased : list FallbackRebasedEntryV1) : Outcome FallbackDeclaredPayloadV1 :=
  declared_new (policy_scope policy) (policy_policy_digest policy)
    (policy_previous_policy_digest policy) rebased.

Definition declared_valid (d : FallbackDeclaredPayloadV1) : bool :=
  text_within (declared_scope d) MAX_FALLBACK_SCOPE_BYTES_V1
  && valid_rebased (declared_rebased d)
  && forallb (fun r => entry_key_ok (rebased_entry_key r)) (declared_rebased d).

Definition rebased_write (pair : FallbackRebasedEntryV1) : list byte :=
  [x82] ++ write_text (rebased_entry_key pair) ++ encode_hash (rebased_implementation_digest pair).

Definition declared_to_canonical_cbor (d : FallbackDeclaredPayloadV1) : list byte :=
  [x84] ++ write_text (declared_scope d) ++ encode_hash (declared_policy_digest d)
  ++ write_optional_hash (declared_previous_policy_digest d)
  ++ write_list rebased_write (declared_rebased d).

Definition read_head (header : byte) : Reader (RString * Hash) :=
  let! _ := r_fixed [header] in
  let! scope := r_text in
  let! digest := r_hash in
  pret (scope, digest).

Definition read_rebased : Reader FallbackRebasedEntryV1 :=
  let! _ := r_fixed [x82] in
  let! entry_key := r_text in
  let! implementation_digest := r_hash in
  plift (rebased_new entry_key implementation_digest).

Definition read_declared : Reader FallbackDeclaredPayloadV1 :=
  let! (scope, policy_digest) := read_head x84 in
  let! previous := r_optional_hash in
  let! rebased := r_list REBASED_MAX Rebased read_rebased in
  plift (declared_new scope policy_digest previous rebased).

Definition declared_from_canonical_cbor (bytes : list byte) : Outcome FallbackDeclaredPayloadV1 :=
  decode_canonical PAYLOAD_MAX read_declared declared_to_canonical_cbor bytes.

(** ** The activation payload *)

Record FallbackSkippedCandidateV1 := MkSkipped {
  skipped_implementation_digest : Hash;
  skipped_reason : FallbackSkipReasonV1;
}.

Record FallbackTriggerBasisV1 := MkBasis {
  basis_cause : Z;  (* u16 *)
  basis_origin : FallbackActivationOriginV1;
}.

Record FallbackActivatedInputV1 := MkActivatedInput {
  act_scope : RString;
  act_policy_digest : Hash;
  act_entry_key : RString;
  act_closing_tenure_ordinal : Z;  (* u64 *)
  act_from : ImplementationKeyV1;
  act_to : ImplementationKeyV1;
  act_skipped : list FallbackSkippedCandidateV1;
  act_trigger_code : FallbackTriggerCodeV1;
  act_trigger_basis : FallbackTriggerBasisV1;
  act_activation_ordinal : Z;  (* u64 *)
}.

#[export] Instance skipped_eq_dec : EqDecision FallbackSkippedCandidateV1.
Proof. solve_decision. Defined.
#[export] Instance basis_eq_dec : EqDecision FallbackTriggerBasisV1.
Proof. solve_decision. Defined.
#[export] Instance activated_eq_dec : EqDecision FallbackActivatedInputV1.
Proof. solve_decision. Defined.

(** [FallbackActivatedPayloadV1] is a private newtype of the input, so a
    payload is an input that [activated_new] accepted. *)
Definition activated_new (input : FallbackActivatedInputV1) : Outcome FallbackActivatedInputV1 :=
  let? _ := check_text (act_scope input) MAX_FALLBACK_SCOPE_BYTES_V1 Scope in
  let? _ := check_entry_key (act_entry_key input) in
  let? _ := require (len (act_skipped input) <=? SKIPPED_MAX) Skipped in
  let switched := negb (bool_decide (imk_plugin_id (act_from input) = imk_plugin_id (act_to input))) in
  let? _ := require switched Implementation in
  Ok input.

Definition opening_tenure_ordinal (input : FallbackActivatedInputV1) : option Z :=
  checked_add (act_closing_tenure_ordinal input) 1.

(** The machine ranges of the integer fields. *)
Definition activated_ranges (a : FallbackActivatedInputV1) : bool :=
  count_within (act_closing_tenure_ordinal a) 0 U64_MAX
  && count_within (act_activation_ordinal a) 0 U64_MAX
  && count_within (basis_cause (act_trigger_basis a)) 0 U16_MAX.

Definition activated_valid (a : FallbackActivatedInputV1) : bool :=
  is_ok (activated_new a) && activated_ranges a
  && imk_valid (act_from a) && imk_valid (act_to a).

Definition skipped_write (s : FallbackSkippedCandidateV1) : list byte :=
  [x82] ++ encode_hash (skipped_implementation_digest s) ++ encode_head 0 (code (skipped_reason s)).

Definition basis_write (b : FallbackTriggerBasisV1) : list byte :=
  [x43] ++ be_bytes 2 (basis_cause b) ++ [byte_of_Z (code (basis_origin b))].

Definition activated_to_canonical_cbor (a : FallbackActivatedInputV1) : list byte :=
  [x8a] ++ write_text (act_scope a) ++ encode_hash (act_policy_digest a)
  ++ write_text (act_entry_key a) ++ encode_head 0 (act_closing_tenure_ordinal a)
  ++ encode_bytes (imk_to_canonical_cbor (act_from a)) 2
  ++ encode_bytes (imk_to_canonical_cbor (act_to a)) 2
  ++ write_list skipped_write (act_skipped a)
  ++ encode_head 0 (code (act_trigger_code a))
  ++ basis_write (act_trigger_basis a)
  ++ encode_head 0 (act_activation_ordinal a).

Definition read_implementation_bytes : Reader ImplementationKeyV1 :=
  let! bytes := r_blob 2 in
  plift (imk_from_canonical_cbor bytes).

Definition read_skipped : Reader FallbackSkippedCandidateV1 :=
  let! _ := r_fixed [x82] in
  let! implementation_digest := r_hash in
  let! reason := r_lookup from_code SkipReason in
  pret (MkSkipped implementation_digest reason).

Definition read_basis : Reader FallbackTriggerBasisV1 :=
  let! _ := r_fixed [x43] in
  let! bytes := r_take 3 in
  let b i := Z_of_byte (nth i bytes x00) in
  let! origin := plift (ok_or (from_code (b 2%nat)) (InvalidField TriggerOrigin)) in
  pret (MkBasis (b 0%nat * 256 + b 1%nat) origin).

Definition read_activation_trigger
    : Reader (FallbackTriggerCodeV1 * FallbackTriggerBasisV1 * Z) :=
  let! code := r_lookup from_code TriggerCode in
  let! basis := read_basis in
  let! ordinal := r_unsigned in
  pret (code, basis, ordinal).

Definition read_activated_rest (scope : RString) (policy_digest : Hash) (entry_key : RString)
    (closing_tenure_ordinal : Z) : Reader FallbackActivatedInputV1 :=
  let! from := read_implementation_bytes in
  let! to := read_implementation_bytes in
  let! skipped := r_list SKIPPED_MAX Skipped read_skipped in
  let! (trigger_code, trigger_basis, activation_ordinal) := read_activation_trigger in
  plift (activated_new (MkActivatedInput scope policy_digest entry_key closing_tenure_ordinal
    from to skipped trigger_code trigger_basis activation_ordinal)).

Definition read_activated : Reader FallbackActivatedInputV1 :=
  let! (scope, policy_digest) := read_head x8a in
  let! entry_key := r_text in
  let! closing_tenure_ordinal := r_unsigned in
  read_activated_rest scope policy_digest entry_key closing_tenure_ordinal.

Definition activated_from_canonical_cbor (bytes : list byte) : Outcome FallbackActivatedInputV1 :=
  decode_canonical PAYLOAD_MAX read_activated activated_to_canonical_cbor bytes.

(** ** The declaration codec *)

Lemma declared_new_ok s d p r x :
  declared_new s d p r = Ok x <->
  x = MkDeclared s d p r /\ text_within s MAX_FALLBACK_SCOPE_BYTES_V1 = true
  /\ valid_rebased r = true.
Proof.
  unfold declared_new, check_text, require. split.
  - intros Hn. ok_inv. by auto.
  - intros (-> & -> & ->). done.
Qed.

Lemma rebased_new_ok k d x :
  rebased_new k d = Ok x <-> x = MkRebased k d /\ entry_key_ok k = true.
Proof.
  unfold rebased_new, check_entry_key, require. split.
  - intros Hn. ok_inv. by auto.
  - intros (-> & ->). done.
Qed.

Lemma declared_valid_spec d :
  declared_valid d = true <->
  declared_new (declared_scope d) (declared_policy_digest d) (declared_previous_policy_digest d)
    (declared_rebased d) = Ok d
  /\ Forall (fun r => entry_key_ok (rebased_entry_key r) = true) (declared_rebased d).
Proof.
  rewrite declared_new_ok. unfold declared_valid.
  rewrite !andb_true_iff, forallb_forall, Forall_forall.
  setoid_rewrite list_elem_of_In. destruct d; simpl. tauto.
Qed.

Lemma valid_rebased_count r : valid_rebased r = true -> len r <= REBASED_MAX.
Proof. unfold valid_rebased. lia. Qed.

Lemma yields_rebased r :
  entry_key_ok (rebased_entry_key r) = true -> yields read_rebased r (rebased_write r).
Proof.
  intros Hk. unfold read_rebased, rebased_write. yields_fields.
  - eapply yields_text; [by apply entry_key_ok_len|done].
  - apply rebased_new_ok. by destruct r.
Qed.

Lemma returns_rebased :
  returns read_rebased (fun r => entry_key_ok (rebased_entry_key r) = true).
Proof.
  unfold read_rebased. do 3 returns_step. apply returns_lift.
  intros r Hr. by apply rebased_new_ok in Hr as [-> ?].
Qed.

Lemma yields_read_head b s h :
  text_within s MAX_FALLBACK_SCOPE_BYTES_V1 = true ->
  yields (read_head b) (s, h) ([b] ++ write_text s ++ encode_hash h).
Proof.
  intros Hs. unfold read_head. yields_fields; [by eapply yields_text|]. apply yields_ret.
Qed.

#[export] Instance declared_codec : Codec FallbackDeclaredPayloadV1 := {|
  c_read := read_declared; c_write := declared_to_canonical_cbor; c_valid := declared_valid |}.

#[export] Instance declared_codec_laws : CodecLaws FallbackDeclaredPayloadV1.
Proof.
  split.
  - intros d Hd. change (yields read_declared d (declared_to_canonical_cbor d)).
    apply declared_valid_spec in Hd as [Hn Hf]. pose proof Hn as Hn'.
    apply declared_new_ok in Hn' as (_ & Hs & Hr). apply valid_rebased_count in Hr.
    pose proof (yields_read_head x84 _ (declared_policy_digest d) Hs) as Hh.
    unfold declared_to_canonical_cbor.
    rewrite (app_assoc (write_text _)), (app_assoc [x84]).
    unfold read_declared. eapply yields_bind; [exact Hh|]. cbn beta iota.
    yields_fields; [|exact Hn].
    apply yields_r_list; [|done|done]. eapply Forall_impl; [exact Hf|]. apply yields_rebased.
  - change (returns read_declared (fun t => declared_valid t = true)). unfold read_declared.
    returns_step. case_match. returns_step.
    eapply returns_bind; [apply returns_r_list, returns_rebased|]. cbn beta. intros rs [Hrs _].
    apply returns_lift. intros d Hd. apply declared_valid_spec.
    pose proof Hd as Hd'. apply declared_new_ok in Hd' as (-> & _). done.
Qed.

Lemma rebased_write_bound r :
  entry_key_ok (rebased_entry_key r) = true -> len (rebased_write r) <= 101.
Proof.
  intros Hk. apply entry_key_ok_len, len_write_text in Hk.
  change (len (encode_head 3 MAX_FALLBACK_ENTRY_KEY_BYTES_V1)) with 2 in Hk.
  unfold MAX_FALLBACK_ENTRY_KEY_BYTES_V1 in Hk. unfold rebased_write.
  rewrite !len_app, len_encode_hash. change (len [x82]) with 1. lia.
Qed.

Lemma declared_write_bound d : declared_valid d = true -> len (declared_to_canonical_cbor d) <= 3433.
Proof.
  intros Hd. apply declared_valid_spec in Hd as [Hn Hf].
  apply declared_new_ok in Hn as (_ & Hs & Hr). apply valid_rebased_count in Hr.
  apply len_write_text in Hs.
  change (len (encode_head 3 MAX_FALLBACK_SCOPE_BYTES_V1)) with 2 in Hs.
  unfold MAX_FALLBACK_SCOPE_BYTES_V1, REBASED_MAX, MAX_FALLBACK_ENTRIES_V1 in *.
  assert (Hw : len (write_list rebased_write (declared_rebased d)) <= 2 + 32 * 101).
  { apply (len_write_list rebased_write 101 32); [lia..|].
    eapply Forall_impl; [exact Hf|]. apply rebased_write_bound. }
  pose proof (len_write_optional_hash (declared_previous_policy_digest d)).
  unfold declared_to_canonical_cbor. rewrite !len_app, len_encode_hash.
  change (len [x84]) with 1. lia.
Qed.

Lemma declared_size_bound d :
  declared_valid d = true -> len (declared_to_canonical_cbor d) <= PAYLOAD_MAX.
Proof.
  intros Hd. apply declared_write_bound in Hd.
  unfold PAYLOAD_MAX, MAX_FALLBACK_EVENT_PAYLOAD_BYTES_V1. lia.
Qed.

(** ** The activation codec *)

Lemma activated_new_ok a x :
  activated_new a = Ok x <->
  x = a /\ text_within (act_scope a) MAX_FALLBACK_SCOPE_BYTES_V1 = true
  /\ entry_key_ok (act_entry_key a) = true /\ len (act_skipped a) <= SKIPPED_MAX
  /\ imk_plugin_id (act_from a) <> imk_plugin_id (act_to a).
Proof.
  unfold activated_new, check_text, check_entry_key, require.
  destruct (bool_decide_reflect (imk_plugin_id (act_from a) = imk_plugin_id (act_to a))); split.
  - intros Hn. ok_inv.
  - naive_solver.
  - intros Hn. ok_inv. split_and!; auto. lia.
  - intros (-> & -> & -> & Hl & _). simpl.
    by rewrite (proj2 (Z.leb_le _ _) Hl).
Qed.

Lemma activated_valid_spec a :
  activated_valid a = true <->
  activated_new a = Ok a /\ u64_ok (act_closing_tenure_ordinal a)
  /\ u64_ok (act_activation_ordinal a) /\ u16_ok (basis_cause (act_trigger_basis a))
  /\ imk_valid (act_from a) = true /\ imk_valid (act_to a) = true.
Proof.
  unfold activated_valid, activated_ranges. rewrite !andb_true_iff, !count_within_spec.
  unfold u64_ok, u16_ok. split.
  - intros (((Hn & ?) & ?) & ?). destruct (activated_new a) as [x|] eqn:Hx; [|done].
    apply activated_new_ok in Hx as (-> & _). intuition.
  - intros (-> & ?). simpl. intuition.
Qed.

Lemma u16_be_bytes c :
  u16_ok c ->
  Z_of_byte (nth 0 (be_bytes 2 c) x00) * 256 + Z_of_byte (nth 1 (be_bytes 2 c) x00) = c.
Proof.
  unfold u16_ok, U16_MAX. intros Hc. cbn [be_bytes nth].
  change (8 * Z.of_nat 1) with 8. change (8 * Z.of_nat 0) with 0.
  rewrite !Z_of_byte_mod, Z.shiftr_0_r, Z.shiftr_div_pow2 by lia. change (2 ^ 8) with 256.
  rewrite (Z.mod_small (c / 256)); [|split; [apply Z.div_pos; lia|apply Z.div_lt_upper_bound; lia]].
  rewrite Z.mul_comm, <- Z.div_mod by lia. done.
Qed.

Lemma yields_basis b : u16_ok (basis_cause b) -> yields read_basis b (basis_write b).
Proof.
  intros Hc. unfold read_basis, basis_write.
  eapply yields_bind; [apply yields_r_fixed|]. cbn beta.
  eapply yields_bind_last; [apply yields_r_take; reflexivity|]. cbn beta zeta.
  eapply yields_bind_last with (a := basis_origin b).
  - apply yields_lift. pose proof (code_small (basis_origin b)). cbn [be_bytes app nth].
    rewrite Z_of_byte_of_Z by lia. by rewrite from_code_code.
  - cbn beta. destruct b as [c o]. cbn [basis_cause basis_origin] in *.
    replace (_ * 256 + _) with c; [apply yields_ret|].
    symmetry. exact (u16_be_bytes c Hc).
Qed.

Lemma returns_basis : returns read_basis (fun b => u16_ok (basis_cause b)).
Proof.
  unfold read_basis. do 3 returns_step. apply returns_ret. simpl.
  pose proof (Z_of_byte_range (nth 0 a0 x00)). pose proof (Z_of_byte_range (nth 1 a0 x00)).
  unfold u16_ok, U16_MAX. lia.
Qed.

Lemma yields_implementation_bytes k :
  imk_valid k = true ->
  yields read_implementation_bytes k (encode_bytes (imk_to_canonical_cbor k) 2).
Proof.
  intros Hk. pose proof (imk_write_bound k Hk) as Hl. eapply yields_bind_last.
  - apply yields_r_blob; [lia|]. unfold MAX_IMPLEMENTATION_KEY_BYTES_V1, U64_MAX in *.
    unfold imk_to_canonical_cbor. lia.
  - apply yields_lift. by apply imk_decodes.
Qed.

Lemma returns_implementation_bytes :
  returns read_implementation_bytes (fun k => imk_valid k = true).
Proof.
  eapply returns_bind; [apply returns_any|]. intros bs _. apply returns_lift. intros k Hk.
  by apply imk_decodes in Hk as [? _].
Qed.

Lemma yields_skipped s : yields read_skipped s (skipped_write s).
Proof.
  unfold read_skipped, skipped_write. yields_fields. destruct s. apply yields_ret.
Qed.

Lemma yields_activation_trigger t b n :
  u16_ok (basis_cause b) -> u64_ok n ->
  yields read_activation_trigger (t, b, n)
    (encode_head 0 (code t) ++ basis_write b ++ encode_head 0 n).
Proof.
  intros Hb Hn. unfold read_activation_trigger. yields_fields; [by apply yields_basis|].
  apply yields_ret.
Qed.

Lemma returns_activation_trigger :
  returns read_activation_trigger (fun x => u16_ok (basis_cause x.1.2) /\ u64_ok x.2).
Proof.
  unfold read_activation_trigger. returns_step.
  eapply returns_bind; [apply returns_basis|]. cbn beta. intros b Hb.
  eapply returns_bind; [apply returns_r_unsigned|]. cbn beta. intros n Hn.
  by apply returns_ret.
Qed.

#[export] Instance activated_codec : Codec FallbackActivatedInputV1 := {|
  c_read := read_activated; c_write := activated_to_canonical_cbor; c_valid := activated_valid |}.

Lemma yields_activated a :
  activated_valid a = true -> yields read_activated a (activated_to_canonical_cbor a).
Proof.
  intros Ha. apply activated_valid_spec in Ha as (Hn & Hc & Ho & Hb & Hf & Ht).
  pose proof Hn as Hn'. apply activated_new_ok in Hn' as (_ & Hs & Hk & Hsk & _).
  pose proof (yields_read_head x8a _ (act_policy_digest a) Hs) as Hh.
  pose proof (yields_activation_trigger (act_trigger_code a) _ _ Hb Ho) as Htr.
  unfold activated_to_canonical_cbor. set (trigger := encode_head 0 (code _) ++ _) in *.
  rewrite (app_assoc (write_text (act_scope a))), (app_assoc [x8a]).
  unfold read_activated. eapply yields_bind; [exact Hh|]. cbn beta iota.
  unfold read_activated_rest. yields_fields.
  - eapply yields_text; [by apply entry_key_ok_len|done].
  - by apply yields_implementation_bytes.
  - by apply yields_implementation_bytes.
  - apply yields_r_list; [|done|done]. apply Forall_forall. intros s _. apply yields_skipped.
  - apply yields_lift. by destruct a.
Qed.

#[export] Instance activated_codec_laws : CodecLaws FallbackActivatedInputV1.
Proof.
  split; [exact yields_activated|].
  change (returns read_activated (fun t => activated_valid t = true)).
  unfold read_activated, read_activated_rest. returns_step. case_match. returns_step.
  eapply returns_bind; [apply returns_r_unsigned|]. cbn beta. intros c Hc.
  eapply returns_bind; [apply returns_implementation_bytes|]. cbn beta. intros k1 Hk1.
  eapply returns_bind; [apply returns_implementation_bytes|]. cbn beta. intros k2 Hk2.
  returns_step. eapply returns_bind; [apply returns_activation_trigger|]. cbn beta.
  intros [[t b] n] [Hb Hn]. apply returns_lift. intros act Ha. apply activated_valid_spec.
  pose proof Ha as Ha'. apply activated_new_ok in Ha' as (-> & _). done.
Qed.

Lemma activated_write_bound a :
  activated_valid a = true -> len (activated_to_canonical_cbor a) <= 805.
Proof.
  intros Ha. apply activated_valid_spec in Ha as (Hn & Hc & Ho & Hb & Hf & Ht).
  apply activated_new_ok in Hn as (_ & Hs & Hk & Hsk & _).
  apply len_write_text in Hs. apply entry_key_ok_len, len_write_text in Hk.
  change (len (encode_head 3 MAX_FALLBACK_SCOPE_BYTES_V1)) with 2 in Hs.
  change (len (encode_head 3 MAX_FALLBACK_ENTRY_KEY_BYTES_V1)) with 2 in Hk.
  assert (Himk : forall k, imk_valid k = true ->
      len (encode_bytes (imk_to_canonical_cbor k) 2) <= 239).
  { intros k Hv. apply imk_write_bound in Hv. unfold encode_bytes, imk_to_canonical_cbor.
    rewrite len_app. unfold MAX_IMPLEMENTATION_KEY_BYTES_V1 in Hv.
    pose proof (len_encode_head_small 2 _ 237 Hv) as Hh.
    change (len (encode_head 2 237)) with 2 in Hh. lia. }
  apply Himk in Hf, Ht. clear Himk.
  unfold SKIPPED_MAX, MAX_FALLBACK_SKIPPED_V1, MAX_FALLBACK_SCOPE_BYTES_V1,
    MAX_FALLBACK_ENTRY_KEY_BYTES_V1 in *.
  assert (Hw : len (write_list skipped_write (act_skipped a)) <= 1 + 2 * 36).
  { apply (len_write_list skipped_write 36 2); [lia..|]. apply Forall_forall.
    intros [h r] _. unfold skipped_write. rewrite !len_app, len_encode_hash. by destruct r. }
  assert (len (encode_head 0 (code (act_trigger_code a))) = 1)
    by (by destruct (act_trigger_code a)).
  pose proof (len_encode_head_le9 0 (act_closing_tenure_ordinal a)).
  pose proof (len_encode_head_le9 0 (act_activation_ordinal a)).
  unfold activated_to_canonical_cbor. rewrite !len_app, len_encode_hash.
  change (len [x8a]) with 1. change (len (basis_write _)) with 4. lia.
Qed.

Lemma activated_size_bound a :
  activated_valid a = true -> len (activated_to_canonical_cbor a) <= PAYLOAD_MAX.
Proof.
  intros Ha. apply activated_write_bound in Ha.
  unfold PAYLOAD_MAX, MAX_FALLBACK_EVENT_PAYLOAD_BYTES_V1. lia.
Qed.

Lemma declared_decodes bs d :
  declared_from_canonical_cbor bs = Ok d
  <-> declared_valid d = true /\ bs = declared_to_canonical_cbor d.
Proof. exact (decode_exact PAYLOAD_MAX bs d declared_size_bound). Qed.

Lemma activated_decodes bs a :
  activated_from_canonical_cbor bs = Ok a
  <-> activated_valid a = true /\ bs = activated_to_canonical_cbor a.
Proof. exact (decode_exact PAYLOAD_MAX bs a activated_size_bound). Qed.

(** ** Properties *)

(** The declaration payload decoder accepts exactly the canonical encodings
    of valid payloads, and those take at most 3433 of the 4096 bytes allowed. *)
Theorem declared_decode_exact bs d :
  declared_from_canonical_cbor bs = Ok d <->
  declared_valid d = true /\ bs = declared_to_canonical_cbor d /\ len bs <= 3433.
Proof.
  rewrite declared_decodes. split; [|tauto]. intros [Hd ->].
  split_and!; [done|done|by apply declared_write_bound].
Qed.

(** The activation payload decoder accepts exactly the canonical encodings
    of valid payloads: bounded scope and entry key, at most two skipped
    candidates, two valid implementation keys of different Plugins, 64-bit
    ordinals and a 16-bit cause; they take at most 805 bytes. *)
Theorem activated_decode_exact bs a :
  activated_from_canonical_cbor bs = Ok a <->
  activated_valid a = true /\ bs = activated_to_canonical_cbor a /\ len bs <= 805.
Proof.
  rewrite activated_decodes. split; [|tauto]. intros [Ha ->].
  split_and!; [done|done|by apply activated_write_bound].
Qed.

(** Payload encodings are unambiguous.  Two valid activation payloads whose
    encodings agree, even when each is followed by arbitrary bytes, are the
    same payload followed by the same bytes. *)
Theorem activated_encoding_injective a b r1 r2 :
  activated_valid a = true -> activated_valid b = true ->
  activated_to_canonical_cbor a ++ r1 = activated_to_canonical_cbor b ++ r2 ->
  a = b /\ r1 = r2.
Proof. exact (codec_inj a b r1 r2). Qed.

(** A concrete activation payload. *)
Definition sample_activation : FallbackActivatedInputV1 :=
  MkActivatedInput (lit "scope") hash_zero (lit "world.main") 0
    (PolicySample.key (lit "org.primary")) (PolicySample.key (lit "org.backup"))
    [MkSkipped hash_zero FactsMismatch] ComponentTrap (MkBasis 513 OriginAutomatic) 1.

Lemma activated_encoding_injective_witness :
  sample_activation = sample_activation /\ [x00] = [x00].
Proof.
  apply (activated_encoding_injective sample_activation sample_activation [x00] [x00]);
    vm_compute; reflexivity.
Defined.
