(* ===== verification/ErasureGate.v ===== *)
(** * The erasure containment gate

    The decision part of [ErasureContainmentGateV1]
    ([crates/pos-core/src/erasure.rs]) with the verified states and inventory
    it reads, and the two helpers of [fork_ancestry.rs] the stores call.  Every
    store operation runs inside [with_fence], so these decisions bound what the
    stores can do.

    The gate is read as a snapshot: the source holds its lock for the whole
    fenced effect, and lock poisoning (a panic in another thread) is outside
    the model. *)

From Stdlib Require Import ZArith Lia Bool.
From S2P Require Import Prelude Text.

Local Open Scope Z_scope.

Definition TimelineId : Type := Ulid.
Definition EventId : Type := Ulid.
Definition EntityId : Type := Ulid.

(** [ErasureReferenceV1], an opaque 32-byte reference. *)
Definition ErasureReferenceV1 : Type := Hash.

Inductive ErasureProtectedOperationV1 :=
| OpAppend | OpRead | OpExport | OpSnapshot | OpProposedAction | OpPluginInput | OpFork.

Inductive ErasureContainmentErrorV1 := AccessFrozen | RecoveryUnavailable.

#[export] Instance containment_error_eq_dec : EqDecision ErasureContainmentErrorV1.
Proof. solve_decision. Defined.

Definition Containment (A : Type) : Type := result ErasureContainmentErrorV1 A.

Inductive ErasureLifecycleV1 :=
| LSubmitted | LAuthorized | LAccessFrozen | LDestructionDispatched
| LAwaitingAcknowledgements | LComplete | LPartialFailure | LRejected.

#[export] Instance lifecycle_eq_dec : EqDecision ErasureLifecycleV1.
Proof. solve_decision. Defined.

(** ** Verified states *)

(** The fields of [ErasureVerifiedStateV1] the gate reads: the manifest, the
    lifecycle and freeze position of its ERS1 state, the members of the
    committed scope (absent before the freeze), the forks of its extensions. *)
Record ErasureVerifiedStateV1 := MkVerifiedState {
  vs_manifest_digest : ErasureReferenceV1;
  vs_lifecycle : ErasureLifecycleV1;
  vs_freeze_position : option Z;
  vs_scope_members : option (list ErasureReferenceV1);
  vs_scope_forks : list ErasureReferenceV1;
}.

Definition scope_contains (s : ErasureVerifiedStateV1) (scope : ErasureReferenceV1) : bool :=
  match vs_scope_members s with
  | Some members => bool_decide (scope ∈ members)
  | None => false
  end || bool_decide (scope ∈ vs_scope_forks s).

Definition permit_protected_operation (s : ErasureVerifiedStateV1) (scope : ErasureReferenceV1)
    : Containment unit :=
  if bool_decide (vs_lifecycle s ∈ [LRejected; LSubmitted; LAuthorized]) then Ok tt
  else if bool_decide (vs_scope_members s = None) || bool_decide (vs_freeze_position s = None)
  then Err RecoveryUnavailable
  else if scope_contains s scope then Err AccessFrozen else Ok tt.

(** ** The verified inventory *)

Inductive ErasureInventoryMembershipV1 :=
| Included (scope : ErasureReferenceV1)
| Excluded.

Definition included_scope (m : ErasureInventoryMembershipV1) : option ErasureReferenceV1 :=
  match m with Included scope => Some scope | Excluded => None end.

Record ErasureInventoryClassificationV1 := MkClassification {
  cl_request : ErasureReferenceV1;
  cl_membership : ErasureInventoryMembershipV1;
  cl_frozen : bool;
}.

Record ErasureVerifiedInventoryV1 := MkInventory {
  inv_generation : ErasureReferenceV1;
  inv_request_heads : list (ErasureReferenceV1 * ErasureReferenceV1);
  inv_classifications : list (TimelineId * list ErasureInventoryClassificationV1);
}.

(** The binary search of the source on a list sorted by Timeline, without
    duplicates, finds the entry of the Timeline. *)
Definition classification_for (inv : ErasureVerifiedInventoryV1) (timeline : TimelineId)
    : option (list ErasureInventoryClassificationV1) :=
  snd <$> List.find (fun entry => bool_decide (fst entry = timeline)) (inv_classifications inv).

Definition inventory_authorize (inv : ErasureVerifiedInventoryV1) (timeline : TimelineId)
    : Containment unit :=
  let? classifications := ok_or (classification_for inv timeline) RecoveryUnavailable in
  if bool_decide (cl_request <$> classifications = fst <$> inv_request_heads inv) then
    if existsb (fun c => cl_frozen c && bool_decide (is_Some (included_scope (cl_membership c))))
         classifications
    then Err AccessFrozen else Ok tt
  else Err RecoveryUnavailable.

(** ** The gate *)

Record ErasureContainmentGateV1 := MkGate {
  gate_poisoned : bool;
  gate_fail_closed_unbound : bool;
  gate_inventory : option ErasureVerifiedInventoryV1;
  gate_timeline_scopes : gmap TimelineId ErasureReferenceV1;
  gate_verified_unaffected : gmap TimelineId ErasureReferenceV1;
  gate_states : list (ErasureReferenceV1 * ErasureVerifiedStateV1);
  gate_blocked_timelines : gset TimelineId;
  gate_frozen_timelines : gset TimelineId;
}.

Definition gate_new_fail_closed : ErasureContainmentGateV1 :=
  MkGate false true None ∅ ∅ [] ∅ ∅.

Definition gate_new_test_open : ErasureContainmentGateV1 :=
  MkGate false false None ∅ ∅ [] ∅ ∅.

Definition gate_poison (g : ErasureContainmentGateV1) : ErasureContainmentGateV1 :=
  MkGate true (gate_fail_closed_unbound g) (gate_inventory g) (gate_timeline_scopes g)
    (gate_verified_unaffected g) (gate_states g) (gate_blocked_timelines g)
    (gate_frozen_timelines g).

Definition ensure_available (g : ErasureContainmentGateV1) : Containment unit :=
  if gate_poisoned g then Err RecoveryUnavailable else Ok tt.

Definition inventory_generation (g : ErasureContainmentGateV1) : Containment ErasureReferenceV1 :=
  let? _ := ensure_available g in
  ok_or (inv_generation <$> gate_inventory g) RecoveryUnavailable.

Definition permits_unverified_test_fixture (g : ErasureContainmentGateV1) : bool :=
  negb (gate_fail_closed_unbound g) && is_ok (ensure_available g)
  && bool_decide (gate_inventory g = None).

Definition reject_frozen_timeline (g : ErasureContainmentGateV1) (timeline : TimelineId)
    : Containment unit :=
  if decide (timeline ∈ gate_frozen_timelines g) then Err AccessFrozen else Ok tt.

(** The loop over the states whose effective scope contains [scope]. *)
Fixpoint authorize_states (states : list (ErasureReferenceV1 * ErasureVerifiedStateV1))
    (scope : ErasureReferenceV1) (matched : bool) : Containment unit :=
  match states with
  | [] => if matched then Ok tt else Err RecoveryUnavailable
  | (_, state) :: rest =>
      if scope_contains state scope then
        let? _ := permit_protected_operation state scope in
        authorize_states rest scope true
      else authorize_states rest scope matched
  end.

Definition authorize_unfrozen_state (g : ErasureContainmentGateV1) (timeline : TimelineId)
    : Containment unit :=
  match gate_inventory g with
  | Some inventory => inventory_authorize inventory timeline
  | None =>
      if decide (timeline ∈ gate_blocked_timelines g) then Err RecoveryUnavailable
      else match gate_timeline_scopes g !! timeline with
      | None =>
          match gate_verified_unaffected g !! timeline with
          | Some manifest =>
              if existsb (fun st => bool_decide (vs_manifest_digest (snd st) = manifest))
                   (gate_states g)
              then Ok tt else Err RecoveryUnavailable
          | None => if gate_fail_closed_unbound g then Err RecoveryUnavailable else Ok tt
          end
      | Some scope => authorize_states (gate_states g) scope false
      end
  end.

Definition authorize_state (g : ErasureContainmentGateV1) (timeline : TimelineId)
    (_operation : ErasureProtectedOperationV1) : Containment unit :=
  let? _ := reject_frozen_timeline g timeline in
  authorize_unfrozen_state g timeline.

(** [authorize_with_fence_state]: the same decision inside and outside a fence. *)
Definition gate_authorize (g : ErasureContainmentGateV1) (timeline : TimelineId)
    (operation : ErasureProtectedOperationV1) : Containment unit :=
  let? _ := ensure_available g in
  authorize_state g timeline operation.

(** [fence_then]: decide, then run the effect. *)
Definition fence_then {A} (g : ErasureContainmentGateV1) (timeline : TimelineId)
    (operation : ErasureProtectedOperationV1) (effect : unit -> A) : Containment A :=
  let? _ := ensure_available g in
  let? _ := authorize_state g timeline operation in
  Ok (effect tt).

(** [with_fence] on an effect over a state [S]: the state the effect leaves
    behind is kept even when the gate is no longer available afterwards; the
    effect's own value is [None] when it did not run. *)
Definition with_fence {S A} (g : ErasureContainmentGateV1) (timeline : TimelineId)
    (operation : ErasureProtectedOperationV1) (effect : S -> S * A) (s : S)
    : S * option A * Containment unit :=
  match fence_then g timeline operation (fun _ => effect s) with
  | Ok (s', a) => (s', Some a, ensure_available g)
  | Err e => (s, None, Err e)
  end.

Fixpoint authorize_fork_scopes (g : ErasureContainmentGateV1) (scopes : list TimelineId)
    (operation : ErasureProtectedOperationV1) : Containment unit :=
  match scopes with
  | [] => Ok tt
  | scope :: rest =>
      let? _ := gate_authorize g scope operation in
      authorize_fork_scopes g rest operation
  end.

(** ** Decisions *)

Lemma permit_ok_lifecycle st scope :
  permit_protected_operation st scope = Ok tt -> scope_contains st scope = true ->
  vs_lifecycle st ∈ [LRejected; LSubmitted; LAuthorized].
Proof.
  unfold permit_protected_operation. intros Hp Hc. rewrite Hc in Hp.
  destruct (bool_decide_reflect (vs_lifecycle st ∈ [LRejected; LSubmitted; LAuthorized])); [done|].
  by destruct (_ || _).
Qed.

Lemma authorize_states_ok states scope matched :
  authorize_states states scope matched = Ok tt ->
  forall k st, (k, st) ∈ states -> scope_contains st scope = true ->
    vs_lifecycle st ∈ [LRejected; LSubmitted; LAuthorized].
Proof.
  revert matched. induction states as [|[k st] states IH]; intros m Ha k' st' Hin Hc.
  { by apply elem_of_nil in Hin. }
  apply elem_of_cons in Hin as [[= -> ->]|Hin]; simpl in Ha.
  - rewrite Hc in Ha. ok_inv. by apply (permit_ok_lifecycle st scope).
  - destruct (scope_contains st scope); ok_inv; by eapply IH.
Qed.

Lemma gate_authorize_ok g t op :
  gate_authorize g t op = Ok tt ->
  gate_poisoned g = false /\ (t ∉ gate_frozen_timelines g) /\ authorize_unfrozen_state g t = Ok tt.
Proof.
  unfold gate_authorize, ensure_available, authorize_state, reject_frozen_timeline.
  intros Ha. destruct (gate_poisoned g); ok_inv. by case_decide.
Qed.

Lemma inventory_authorize_ok inv t :
  inventory_authorize inv t = Ok tt ->
  exists cls, classification_for inv t = Some cls
    /\ forall c, c ∈ cls -> cl_frozen c = true -> included_scope (cl_membership c) = None.
Proof.
  unfold inventory_authorize. intros Ha. ok_inv. eexists; split; [done|].
  intros c Hin Hf. destruct (included_scope (cl_membership c)) eqn:Hi; [|done].
  apply not_true_iff_false in Hb0. destruct Hb0. apply existsb_exists.
  exists c. rewrite Hf, Hi. split; [by apply list_elem_of_In|]. by rewrite bool_decide_true.
Qed.

Lemma fence_then_authorized {A} g t op (effect : unit -> A) a :
  fence_then g t op effect = Ok a <-> gate_authorize g t op = Ok tt /\ a = effect tt.
Proof.
  unfold fence_then, gate_authorize.
  destruct (ensure_available g); simpl; [|naive_solver].
  destruct (authorize_state g t op) as [[]|]; simpl; naive_solver.
Qed.

(** A refused fence leaves the state alone; a passed one runs the effect once. *)
Lemma with_fence_spec {S A} g t op (effect : S -> S * A) s :
  with_fence g t op effect s =
    match gate_authorize g t op with
    | Ok _ => let (s', a) := effect s in (s', Some a, Ok tt)
    | Err e => (s, None, Err e)
    end.
Proof.
  unfold with_fence, fence_then, gate_authorize, ensure_available.
  destruct (gate_poisoned g); simpl; [done|].
  destruct (authorize_state g t op) as [[]|e]; simpl; [|done]. by destruct (effect s).
Qed.

(** ** Properties *)

(** The gate admits nothing frozen.  If the gate authorizes an operation on
    a Timeline, it has not been poisoned, the Timeline is not in the frozen
    set, no verified state at or past [AccessFrozen] (the terminal outcomes
    [Complete] and [PartialFailure] included) has the Timeline's scope in its
    effective scope, and with a complete inventory no frozen request includes
    the Timeline. *)
Theorem authorized_is_unfrozen g t op :
  gate_authorize g t op = Ok tt ->
  gate_poisoned g = false
  /\ (t ∉ gate_frozen_timelines g)
  /\ (forall scope k st, gate_inventory g = None ->
        gate_timeline_scopes g !! t = Some scope -> (k, st) ∈ gate_states g ->
        scope_contains st scope = true ->
        vs_lifecycle st ∈ [LRejected; LSubmitted; LAuthorized])
  /\ (forall inv, gate_inventory g = Some inv ->
        exists cls, classification_for inv t = Some cls
          /\ forall c, c ∈ cls -> cl_frozen c = true -> included_scope (cl_membership c) = None).
Proof.
  intros Ha. apply gate_authorize_ok in Ha as (Hp & Hf & Hu). split_and!; [done|done| |].
  - intros scope k st Hi Hs Hin Hc. unfold authorize_unfrozen_state in Hu.
    rewrite Hi, Hs in Hu. case_decide; [done|]. by eapply authorize_states_ok.
  - intros inv Hi. unfold authorize_unfrozen_state in Hu. rewrite Hi in Hu.
    by apply inventory_authorize_ok.
Qed.

Definition sample_timeline : TimelineId := @Checked _ (has_len 16) (replicate 16 x01) I.

(** A gate with one authorized, not yet frozen request over the Timeline. *)
Definition sample_gate : ErasureContainmentGateV1 :=
  MkGate false true None {[ sample_timeline := hash_zero ]} ∅
    [(hash_zero, MkVerifiedState hash_zero LAuthorized None (Some [hash_zero]) [])] ∅ ∅.

Lemma authorized_is_unfrozen_witness :
  gate_poisoned sample_gate = false /\ sample_timeline ∉ gate_frozen_timelines sample_gate.
Proof.
  pose proof (authorized_is_unfrozen sample_gate sample_timeline OpRead
    ltac:(vm_compute; reflexivity)) as (Hp & Hf & _). split; [exact Hp|exact Hf].
Defined.

(** A poisoned gate stays closed.  After [poison] every operation on every
    Timeline is refused with [RecoveryUnavailable], the inventory generation is
    unavailable, the test fixture exemption is off, and a fenced effect does
    not run. *)
Theorem poisoned_gate_closed {S A} g t op (effect : S -> S * A) s :
  gate_authorize (gate_poison g) t op = Err RecoveryUnavailable
  /\ inventory_generation (gate_poison g) = Err RecoveryUnavailable
  /\ permits_unverified_test_fixture (gate_poison g) = false
  /\ with_fence (gate_poison g) t op effect s = (s, None, Err RecoveryUnavailable).
Proof.
  split_and!; try reflexivity. unfold permits_unverified_test_fixture. simpl.
  by rewrite andb_false_r.
Qed.
