(* ===== verification/Events.v ===== *)
(** * Events, Timelines and the hash chain

    The kernel data of [crates/pos-core/src/{event,timeline,clock,error,hasher}.rs],
    the chain hash of [crates/pos-crypto/src/chain.rs], the page and stitching
    arithmetic of [crates/pos-store/src/stitch.rs] and the committed-batch
    validation of [crates/pos-core/src/store.rs]. *)

From Stdlib Require Import String ZArith Lia Bool.
From S2P Require Import Prelude Text FallbackRecords Keys KeyRegistry ErasureGate.

Local Open Scope Z_scope.

(** The text form of a ULID is produced by the third-party [ulid] crate. *)
Class UlidText := ulid_to_string : Ulid -> list byte.

(** ** Sequence numbers *)

Definition SEQ_ZERO : Z := 0.
(** [Seq::next] adds one to a [u64]. *)
Definition seq_next (s : Z) : Z := u64_wrap (s + 1).

Record SeqRange := MkSeqRange { range_from : Z; range_to : option Z }.
Definition seq_range_all : SeqRange := MkSeqRange 0 None.

Definition in_seq_range (r : SeqRange) (s : Z) : bool :=
  (range_from r <=? s) && match range_to r with Some to => s <=? to | None => true end.

(** ** Events *)

Record EventOriginV1 := MkOrigin {
  origin_timeline_id : TimelineId;
  origin_logical_seq : Z;
}.

#[export] Instance event_origin_eq_dec : EqDecision EventOriginV1.
Proof. solve_decision. Defined.

(** [SchemaVersion] has the single value 1 and is left out. *)
Record Event := MkEvent {
  ev_id : EventId;
  ev_entity : EntityId;
  ev_event_type : RString;
  ev_payload : list byte;
  ev_wall_time : Z;
  ev_seq : Z;
  ev_causation_id : option EventId;
  ev_correlation_id : option Ulid;
  ev_signature : option (list byte);
  ev_signature_identity : option KeyIdentityV1;
  ev_origin : option EventOriginV1;
  ev_payload_hash : Hash;
}.

#[export] Instance event_eq_dec : EqDecision Event.
Proof. solve_decision. Defined.

Definition with_seq (seq : Z) (e : Event) : Event :=
  MkEvent (ev_id e) (ev_entity e) (ev_event_type e) (ev_payload e) (ev_wall_time e) seq
    (ev_causation_id e) (ev_correlation_id e) (ev_signature e) (ev_signature_identity e)
    (ev_origin e) (ev_payload_hash e).

Definition with_origin (origin : EventOriginV1) (e : Event) : Event :=
  MkEvent (ev_id e) (ev_entity e) (ev_event_type e) (ev_payload e) (ev_wall_time e) (ev_seq e)
    (ev_causation_id e) (ev_correlation_id e) (ev_signature e) (ev_signature_identity e)
    (Some origin) (ev_payload_hash e).

Record EventDraft := MkDraft {
  draft_entity : EntityId;
  draft_event_type : RString;
  draft_payload : list byte;
  draft_causation_id : option EventId;
  draft_correlation_id : option Ulid;
  draft_wall_time : option Z;
}.

Definition draft_new (entity : EntityId) (event_type : RString) (payload : list byte) : EventDraft :=
  MkDraft entity event_type payload None None None.

(** ** Timelines *)

Inductive TimelineMode := Historical | Live | Future.

Record TimelineMeta := MkMeta {
  meta_id : TimelineId;
  meta_mode : TimelineMode;
  meta_name : option RString;
  meta_owner : option EntityId;
  meta_fork_point : option (TimelineId * Z);
}.

Definition meta_root (id : TimelineId) (name : RString) : TimelineMeta :=
  MkMeta id Live (Some name) None None.

Definition meta_forked_from (id parent : TimelineId) (at_seq : Z) (name : RString) : TimelineMeta :=
  MkMeta id Historical (Some name) None (Some (parent, at_seq)).

Definition meta_forked_from_owned (id parent : TimelineId) (at_seq : Z) (name : RString)
    (owner : EntityId) : TimelineMeta :=
  MkMeta id Historical (Some name) (Some owner) (Some (parent, at_seq)).

Record Timeline := MkTimeline { tl_meta : TimelineMeta; tl_head : Z }.

Definition timeline_new (meta : TimelineMeta) : Timeline := MkTimeline meta SEQ_ZERO.
Definition timeline_id (t : Timeline) : TimelineId := meta_id (tl_meta t).

(** ** Errors

    The messages of [CoreError::Storage] as constructors. *)

Inductive StorageError :=
| FenceDidNotExecute
| ForkCycle (at_timeline : TimelineId)
| MissingLogicalPrefix
| ForkPrecedesInherited (timeline : TimelineId)
| ForkExceedsHead (timeline : TimelineId)
| LogicalHeadOverflow
| LogicalSeqOverflow
| TimelineExists (timeline : TimelineId)
| StillHasForks
| OriginMismatch
| AdmittedForkAppend
| InvalidSignature
| SeqZero
| SeqNotContiguous (found expected : Z)
| DuplicateEventId (id : EventId)
| PayloadHashMismatch
| MergeOverlap (entity : EntityId)
| KeyRegistryUnavailable
| KeyRegistryChanged
| KeyDestruction (error : KeyError.KeyRegistryErrorV1)
| EnvelopeSeamRequired.

Inductive CoreError :=
| TimelineNotFound (timeline : TimelineId)
| AdmittedForkNotDeletable (timeline : TimelineId)
| ForkBeyondHead (fork_seq head : Z)
| Storage (message : StorageError)
| ErasureAccessFrozen
| ErasureContainmentUnavailable
| SubjectPlaintextPreferenceRefused
| ArtifactUnavailable
| Serialization (error : KeyError.KeyRegistryErrorV1).

Definition erasure_containment_error (e : ErasureContainmentErrorV1) : CoreError :=
  match e with
  | AccessFrozen => ErasureAccessFrozen
  | RecoveryUnavailable => ErasureContainmentUnavailable
  end.

(** ** The hash chain *)

Class Hasher := {
  genesis_hash : Hash;
  hash_payload : list byte -> Hash;
  hash_event : Hash -> list byte -> list byte -> Hash;
}.

(** [pos_crypto::Blake3Hasher]: the chain hash covers the previous hash, the
    Event id text and the payload. *)
#[export] Instance Blake3Hasher `{Blake3} : Hasher := {|
  genesis_hash := hash_zero;
  hash_payload payload := blake3 payload;
  hash_event previous_hash event_id_bytes payload :=
    blake3 (hash_bytes previous_hash ++ event_id_bytes ++ payload);
|}.

(** [pos_crypto::verify_chain]: [Err i] is the first index whose stored hash is
    not the computed one. *)
Fixpoint verify_chain_from `{Hasher} (i : Z) (prev : Hash)
    (entries : list (list byte * list byte * Hash)) : result Z Hash :=
  match entries with
  | [] => Ok prev
  | (event_id_bytes, payload, expected_hash) :: rest =>
      let computed := hash_event prev event_id_bytes payload in
      if decide (computed = expected_hash) then verify_chain_from (i + 1) computed rest
      else Err i
  end.

Definition verify_chain `{Hasher} (genesis : Hash)
    (entries : list (list byte * list byte * Hash)) : result Z Hash :=
  verify_chain_from 0 genesis entries.

(** The chain value after a list of Events. *)
Definition chain_over `{Hasher} `{UlidText} (start : Hash) (events : list Event) : Hash :=
  fold_left (fun hash event => hash_event hash (ulid_to_string (ev_id event)) (ev_payload event))
    events start.

(** ** Stitching *)

Record PagePlan := MkPagePlan { raw_start : Z; page_take : Z }.

Definition plan_page (logical_offset segment_len from to remaining : Z) : option PagePlan :=
  let segment_start := saturating_add logical_offset 1 in
  let segment_end := saturating_add logical_offset segment_len in
  let selected_start := Z.max from segment_start in
  let selected_end := Z.min to segment_end in
  if (remaining =? 0) || (selected_end <? selected_start) then None
  else
    let available := selected_end - selected_start + 1 in
    Some (MkPagePlan (selected_start - logical_offset) (Z.min available remaining)).

Definition renumber (events : list Event) : list Event :=
  imap (fun i e => with_seq (Z.of_nat i + 1) e) events.

Definition renumber_and_filter (segments : list Event) (range : SeqRange) : list Event :=
  List.filter (fun e => in_seq_range range (ev_seq e)) (renumber segments).

(** ** Committed batches *)

Definition validate_event_signature (e : Event) : result CoreError unit :=
  match ev_signature e, ev_signature_identity e with
  | None, None => Ok tt
  | Some _, Some identity =>
      if (key_epoch identity =? 0)
         || negb (bool_decide (key_role identity = TimelineIntegritySigning))
      then Err (Storage InvalidSignature) else Ok tt
  | _, _ => Err (Storage InvalidSignature)
  end.

(** [sort_by_key(|e| e.seq)], a stable sort. *)
Fixpoint insert_by_seq (e : Event) (l : list Event) : list Event :=
  match l with
  | [] => [e]
  | y :: r => if ev_seq e <? ev_seq y then e :: l else y :: insert_by_seq e r
  end.

Definition sort_by_seq (events : list Event) : list Event :=
  fold_left (fun acc e => insert_by_seq e acc) events [].

Fixpoint validate_ordered `{Hasher} (expected : Z) (seen : gset EventId)
    (id_is_taken : EventId -> bool) (events : list Event) : result CoreError unit :=
  match events with
  | [] => Ok tt
  | event :: rest =>
      let? _ := validate_event_signature event in
      if ev_seq event =? 0 then Err (Storage SeqZero)
      else if negb (ev_seq event =? expected)
      then Err (Storage (SeqNotContiguous (ev_seq event) expected))
      else if bool_decide (ev_id event ∈ seen) || id_is_taken (ev_id event)
      then Err (Storage (DuplicateEventId (ev_id event)))
      else if negb (bool_decide (hash_payload (ev_payload event) = ev_payload_hash event))
      then Err (Storage PayloadHashMismatch)
      else validate_ordered (seq_next expected) ({[ev_id event]} ∪ seen) id_is_taken rest
  end.

Definition validate_committed_batch `{Hasher} (head : Z) (events : list Event)
    (id_is_taken : EventId -> bool) : result CoreError (list Event) :=
  match events with
  | [] => Ok []
  | _ =>
      let ordered := sort_by_seq events in
      let? _ := validate_ordered (seq_next head) ∅ id_is_taken ordered in
      Ok ordered
  end.
