(* ===== verification/ChainProperties.v ===== *)
(** * Hash chain verification and page planning

    Theorems of [Events]: [verify_chain] finds the first broken link,
    BLAKE3 chains are tamper evident, and [plan_page] selects exactly the
    requested part of a segment. *)

From Stdlib Require Import String ZArith Lia Bool.
From S2P Require Import Prelude Text FallbackRecords ErasureGate Events.

Local Open Scope Z_scope.

(** ** Verification *)

Section Verify.
Context `{Hasher}.
Implicit Types (entries : list (list byte * list byte * Hash)).

(** The hash entry [i] should be linked to: the genesis or its predecessor's. *)
Definition previous_hash (genesis : Hash) entries (i : nat) : Hash :=
  match i with
  | O => genesis
  | S j => from_option (fun e => e.2) genesis (entries !! j)
  end.

(** Entry [i] is linked: its stored hash is the chain step over its id and
    payload from the previous stored hash. *)
Definition linked (genesis : Hash) entries (i : nat) : Prop :=
  exists id payload hash, entries !! i = Some (id, payload, hash)
    /\ hash = hash_event (previous_hash genesis entries i) id payload.

Definition final_hash (genesis : Hash) entries : Hash :=
  from_option (fun e => e.2) genesis (last entries).

Lemma linked_cons g id payload hash entries i :
  linked g ((id, payload, hash) :: entries) (S i) <-> linked hash entries i.
Proof.
  unfold linked, previous_hash. simpl. destruct i as [|i]; simpl; [done|].
  destruct (entries !! i) as [e|] eqn:He; [done|].
  apply lookup_ge_None in He. rewrite (lookup_ge_None_2 entries (S i)) by lia. naive_solver.
Qed.

Lemma linked_zero g id payload hash entries :
  linked g ((id, payload, hash) :: entries) 0 <-> hash = hash_event g id payload.
Proof. unfold linked. simpl. naive_solver. Qed.

Lemma verify_chain_from_spec n g entries :
  match verify_chain_from n g entries with
  | Ok head => (forall i, (i < length entries)%nat -> linked g entries i) /\ head = final_hash g entries
  | Err k => exists i, k = n + Z.of_nat i /\ (i < length entries)%nat /\ ~ linked g entries i
             /\ forall j, (j < i)%nat -> linked g entries j
  end.
Proof.
  revert n g. induction entries as [|[[id payload] hash] entries IH]; intros n g; simpl.
  - split; [lia|done].
  - destruct (decide (hash_event g id payload = hash)) as [<-|Hne].
    + specialize (IH (n + 1) (hash_event g id payload)).
      assert (Hshift : forall i, (forall j, (j < i)%nat -> linked (hash_event g id payload) entries j) ->
        forall j, (j < S i)%nat -> linked g ((id, payload, hash_event g id payload) :: entries) j).
      { intros i Hi [|j] Hj; [by apply linked_zero|]. apply linked_cons, Hi. lia. }
      destruct (verify_chain_from (n + 1) (hash_event g id payload) entries) as [head|k].
      * destruct IH as [Hl ->]. split; [by apply Hshift|]. unfold final_hash.
        destruct entries as [|e entries]; [done|]. rewrite last_cons_cons. by destruct (last (e :: entries)) eqn:Hlast;
          [|apply last_None in Hlast].
      * destruct IH as (i & -> & Hi & Hn & Hj). exists (S i). split_and!; [lia|simpl; lia|by rewrite linked_cons|].
        by apply Hshift.
    + exists 0%nat. split_and!; [lia|simpl; lia| |lia]. rewrite linked_zero. congruence.
Qed.

(** [verify_chain] finds the first broken link.  It returns [Ok] with the
    last stored hash exactly when every entry is linked to its predecessor, and
    otherwise the index of the first entry that is not. *)
Theorem verify_chain_first_broken genesis entries :
  match verify_chain genesis entries with
  | Ok head => (forall i, (i < length entries)%nat -> linked genesis entries i)
               /\ head = final_hash genesis entries
  | Err k => exists i, k = Z.of_nat i /\ (i < length entries)%nat /\ ~ linked genesis entries i
             /\ forall j, (j < i)%nat -> linked genesis entries j
  end.
Proof. exact (verify_chain_from_spec 0 genesis entries). Qed.
End Verify.

(** ** Tamper evidence *)

Section Tamper.
Context `{Blake3} `{UlidText}.

(** The ULID text of the [ulid] crate: 26 characters, one text per ULID. *)
Context (ulid_text_length : forall u, length (ulid_to_string u) = 26%nat).
Context (ulid_text_inj : forall u v, ulid_to_string u = ulid_to_string v -> u = v).

(** The byte strings the chain over [events] hashes, in order. *)
Fixpoint chain_preimages (start : Hash) (events : list Event) : list (list byte) :=
  match events with
  | [] => []
  | e :: rest =>
      let preimage := hash_bytes start ++ ulid_to_string (ev_id e) ++ ev_payload e in
      preimage :: chain_preimages (blake3 preimage) rest
  end.

Lemma chain_over_cons start e events :
  chain_over start (e :: events)
  = chain_over (blake3 (hash_bytes start ++ ulid_to_string (ev_id e) ++ ev_payload e)) events.
Proof. reflexivity. Qed.

Lemma length_hash_bytes h : length (hash_bytes h) = 32%nat.
Proof. pose proof (len_hash_bytes h) as Hl. unfold len in Hl. lia. Qed.

Lemma preimage_inj s1 s2 e1 e2 :
  hash_bytes s1 ++ ulid_to_string (ev_id e1) ++ ev_payload e1
  = hash_bytes s2 ++ ulid_to_string (ev_id e2) ++ ev_payload e2 ->
  s1 = s2 /\ ev_id e1 = ev_id e2 /\ ev_payload e1 = ev_payload e2.
Proof.
  intros Heq. apply app_inj_1 in Heq as [Hs Heq]; [|by rewrite !length_hash_bytes].
  apply app_inj_1 in Heq as [Hi Hp]; [|by rewrite !ulid_text_length].
  split_and!; [by apply checked_eq|by apply ulid_text_inj|done].
Qed.

(** The chain is tamper evident.  Two Event sequences of one length whose
    BLAKE3 chains end in one hash either agree in every id and payload, and in
    where they start, or two different byte strings that the two chains hashed
    have the same BLAKE3 hash. *)
Theorem chain_tamper_evident events1 events2 start1 start2 :
  length events1 = length events2 -> chain_over start1 events1 = chain_over start2 events2 ->
  (start1 = start2 /\ Forall2 (fun a b => ev_id a = ev_id b /\ ev_payload a = ev_payload b) events1 events2)
  \/ exists x y, x ∈ chain_preimages start1 events1 /\ y ∈ chain_preimages start2 events2
     /\ x <> y /\ blake3 x = blake3 y.
Proof.
  revert events2 start1 start2. induction events1 as [|e1 events1 IH];
    intros [|e2 events2] start1 start2 Hlen Hc; [by left|done|done|].
  rewrite !chain_over_cons in Hc. cbn [chain_preimages].
  set (x := hash_bytes start1 ++ _). set (y := hash_bytes start2 ++ _).
  destruct (IH events2 (blake3 x) (blake3 y)) as [[Heq Hf]|(x' & y' & Hx & Hy & Hne & Hb)]; [simpl in *; lia|done| |].
  - destruct (decide (x = y)) as [Hxy|Hxy]; [left|right; exists x, y; split_and!; [left|left|done|done]].
    destruct (preimage_inj _ _ _ _ Hxy) as (-> & Hi & Hp). split; [done|]. by constructor.
  - right. exists x', y'. split_and!; [by right|by right|done|done].
Qed.
End Tamper.

(** ** Pages *)

(** [plan_page] selects exactly the requested part of a segment.  With
    segment Events at logical positions [offset + 1 .. offset + length] within
    64 bits, it
    returns nothing exactly when no room remains or the segment holds no
    requested position, and otherwise the first [remaining] own positions whose
    logical position lies in [from ..= to]. *)
Theorem plan_page_exact offset length from to remaining :
  0 <= offset < U64_MAX -> 0 <= length -> offset + length <= U64_MAX -> 0 <= remaining ->
  let wanted p := 1 <= p <= length /\ from <= offset + p <= to in
  match plan_page offset length from to remaining with
  | None => remaining = 0 \/ forall p, ~ wanted p
  | Some page => exists first, wanted first /\ (forall p, wanted p -> first <= p) /\
      forall p, raw_start page <= p < raw_start page + page_take page
                <-> wanted p /\ p < first + remaining
  end.
Proof.
  intros Ho Hl Hm Hr. cbv zeta. unfold plan_page, saturating_add.
  destruct (Z.eqb_spec remaining 0) as [->|Hrem]; simpl; [by left|].
  match goal with |- context [if ?a <? ?b then _ else _] => destruct (Z.ltb_spec a b) end.
  - right. lia.
  - exists (Z.max from (Z.min (offset + 1) U64_MAX) - offset). simpl. split_and!; lia.
Qed.

(** ** Witnesses *)

Module ChainSample.

#[export] Instance blake3_sample : Blake3 := sample_digest.

(** A text of 26 bytes that determines the ULID. *)
#[export] Instance ulid_text_sample : UlidText := fun u => ulid_bytes u ++ replicate 10 x30.

Lemma sample_text_length u : length (ulid_to_string u) = 26%nat.
Proof.
  unfold ulid_to_string, ulid_text_sample. rewrite length_app, length_replicate.
  pose proof (len_ulid_bytes u) as Hl. unfold len in Hl. lia.
Qed.

Lemma sample_text_inj u v : ulid_to_string u = ulid_to_string v -> u = v.
Proof. intros Heq. apply app_inv_tail in Heq. by apply checked_eq. Qed.

Definition sample_ulid (b : byte) : Ulid := @Checked _ (has_len 16) (replicate 16 b) I.
Definition sample_event (b : byte) : Event :=
  MkEvent (sample_ulid b) (sample_ulid x05) (lit "note") [b] 7 1 None None None None None hash_zero.

Lemma chain_tamper_evident_witness :
  (hash_zero = hash_zero /\ Forall2 (fun a b => ev_id a = ev_id b /\ ev_payload a = ev_payload b)
     [sample_event x01; sample_event x02] [sample_event x01; sample_event x02])
  \/ exists x y, x ∈ chain_preimages hash_zero [sample_event x01; sample_event x02]
     /\ y ∈ chain_preimages hash_zero [sample_event x01; sample_event x02]
     /\ x <> y /\ blake3 x = blake3 y.
Proof.
  apply (chain_tamper_evident sample_text_length sample_text_inj
    [sample_event x01; sample_event x02] [sample_event x01; sample_event x02] hash_zero hash_zero);
    vm_compute; reflexivity.
Defined.

(** A segment of five Events behind three others, positions 5 to 7 wanted, two
    of them: the own positions 2 and 3. *)
Lemma plan_page_exact_witness :
  plan_page 3 5 5 7 2 = Some (MkPagePlan 2 2)
  /\ exists first, (1 <= first <= 5 /\ 5 <= 3 + first <= 7).
Proof.
  assert (Hp : plan_page 3 5 5 7 2 = Some (MkPagePlan 2 2)) by (vm_compute; reflexivity).
  split; [exact Hp|].
  pose proof (plan_page_exact 3 5 5 7 2 ltac:(unfold U64_MAX; lia) ltac:(lia) ltac:(unfold U64_MAX; lia)
    ltac:(lia)) as Hx. cbv zeta in Hx. rewrite Hp in Hx. destruct Hx as (first & Hw & _).
  exists first. exact Hw.
Defined.

End ChainSample.
