(* ===== verification/EventStore.v ===== *)
(** * The in-memory Event store

    [crates/pos-store/src/memory.rs] with the shared checks of
    [crates/pos-store/src/lib.rs]: Timelines with copy-on-write forks, append,
    committed append, read, logical head, chain hash, fork, creation and
    deletion, every one inside the erasure fence the source runs it in.

    The record [Store] holds the fields of [MemoryStore] these operations read
    and write.  [EventId::new()], [TimelineId::new()] and [WallTime::now()] are
    arguments: a draft comes with the id and clock reading it will be given.
    An operation that writes returns the store it leaves behind together with
    its result, also on failure. *)

From Stdlib Require Import String ZArith Lia Bool.
From S2P Require Import Prelude Text FallbackRecords Keys KeyRegistry ErasureGate Events.

Local Open Scope Z_scope.

(** ** State *)

Record TimelineState := MkTimelineState {
  ts_timeline : Timeline;
  ts_events : list Event;
  ts_chain_head : Hash;
}.

Definition timeline_state_new (timeline : Timeline) (chain_head : Hash) : TimelineState :=
  MkTimelineState timeline [] chain_head.

Definition fork_point_of (st : TimelineState) : option (TimelineId * Z) :=
  meta_fork_point (tl_meta (ts_timeline st)).

Record Store := MkStore {
  st_timelines : gmap TimelineId TimelineState;
  st_event_ids : gset EventId;
  st_geographic_timelines : gset TimelineId;
  st_key_registry : option KeyRegistryStateV1;
  st_fork_admissions : gset TimelineId;
  st_imported_fork_admissions : gset TimelineId;
  st_erasure_gate : option ErasureContainmentGateV1;
  st_erasure_gate_bound : bool;
  st_erasure_inventory_generation : option ErasureReferenceV1;
  st_erasure_topology_requires_permit : bool;
}.

Definition set_timelines (f : gmap TimelineId TimelineState -> gmap TimelineId TimelineState)
    (s : Store) : Store :=
  MkStore (f (st_timelines s)) (st_event_ids s) (st_geographic_timelines s) (st_key_registry s)
    (st_fork_admissions s) (st_imported_fork_admissions s) (st_erasure_gate s)
    (st_erasure_gate_bound s) (st_erasure_inventory_generation s)
    (st_erasure_topology_requires_permit s).

Definition set_event_ids (f : gset EventId -> gset EventId) (s : Store) : Store :=
  MkStore (st_timelines s) (f (st_event_ids s)) (st_geographic_timelines s) (st_key_registry s)
    (st_fork_admissions s) (st_imported_fork_admissions s) (st_erasure_gate s)
    (st_erasure_gate_bound s) (st_erasure_inventory_generation s)
    (st_erasure_topology_requires_permit s).

Definition set_geographic (f : gset TimelineId -> gset TimelineId) (s : Store) : Store :=
  MkStore (st_timelines s) (st_event_ids s) (f (st_geographic_timelines s)) (st_key_registry s)
    (st_fork_admissions s) (st_imported_fork_admissions s) (st_erasure_gate s)
    (st_erasure_gate_bound s) (st_erasure_inventory_generation s)
    (st_erasure_topology_requires_permit s).

Definition Read (A : Type) : Type := result CoreError A.
Definition Write (A : Type) : Type := Store * result CoreError A.

(** ** Shared checks *)

Definition PERSONA_PREFERENCE : RString := lit "persona.preference".

(** Lower-case hexadecimal digits. *)
Definition hex_digit (n : Z) : byte := byte_of_Z (if n <? 10 then 48 + n else 87 + n).
Definition hex_of_bytes (bs : list byte) : list byte :=
  flat_map (fun b => [hex_digit (Z.shiftr (Z_of_byte b) 4); hex_digit (Z.land (Z_of_byte b) 15)]) bs.

(** [format!("subject:{:032x}", u128::from_be_bytes(...))]. *)
Definition subject_owner (entity : EntityId) : list byte :=
  list_byte_of_string "subject:" ++ hex_of_bytes (ulid_bytes entity).

Definition ensure_plaintext_preference_allowed (registry : option KeyRegistryStateV1)
    (entity : EntityId) (event_type : RString) : Read unit :=
  if decide (event_type = PERSONA_PREFERENCE) then
    let owner := subject_owner entity in
    let subject := match registry with
      | Some registry => existsb (fun record =>
          bool_decide (key_role (kr_identity record) = SubjectDataEncryption)
          && bool_decide (as_bytes (raw (key_owner_id (kr_identity record))) = owner)) (key_records registry)
      | None => false
      end in
    if subject then Err SubjectPlaintextPreferenceRefused else Ok tt
  else Ok tt.

Definition is_geographic_event_type (kind : RString) : bool :=
  bool_decide (kind = lit "geo.location") || bool_decide (kind = lit "geo.cell").

Definition is_consent_event_type (kind : RString) : bool :=
  let prefix := list_byte_of_string "consent." in
  bool_decide (take (length prefix) (as_bytes kind) = prefix).

Definition is_sensitive (kind : RString) : bool :=
  is_geographic_event_type kind || is_consent_event_type kind.

Definition ensure_non_geographic_drafts (drafts : list EventDraft) (timeline : TimelineId)
    : Read unit :=
  match List.find (fun d => is_sensitive (draft_event_type d)) drafts with
  | Some _ => Err (TimelineNotFound timeline)
  | None => Ok tt
  end.

Definition ensure_non_geographic_events (events : list Event) (timeline : TimelineId)
    : Read unit :=
  match List.find (fun e => is_sensitive (ev_event_type e)) events with
  | Some _ => Err (TimelineNotFound timeline)
  | None => Ok tt
  end.

Definition checked_logical_head (logical_prefix owned_head : Z) : Read Z :=
  ok_or (checked_add logical_prefix owned_head) (Storage LogicalSeqOverflow).

Definition bounded_owned_head (owned_head batch_len max_owned_events : Z) : Read (option Z) :=
  let? next_head := ok_or (checked_add owned_head batch_len) (Storage LogicalHeadOverflow) in
  Ok (if next_head <=? max_owned_events then Some next_head else None).

Definition validate_bound_erasure_inventory_generation (gate_bound : bool)
    (gate : ErasureContainmentGateV1) (generation : option ErasureReferenceV1) : Read unit :=
  if negb gate_bound then Ok tt
  else match inventory_generation gate with
  | Ok g => if decide (Some g = generation) then Ok tt else Err ErasureContainmentUnavailable
  | Err _ => if permits_unverified_test_fixture gate then Ok tt
             else Err ErasureContainmentUnavailable
  end.

Definition validated_erasure_gate (s : Store) : Read ErasureContainmentGateV1 :=
  let? gate := ok_or (st_erasure_gate s) ErasureContainmentUnavailable in
  let? _ := validate_bound_erasure_inventory_generation (st_erasure_gate_bound s) gate
              (st_erasure_inventory_generation s) in
  Ok gate.

(** [with_validated_erasure_write_fence] over the store's validated gate.  The
    state [S] is the whole [MemoryStore] as far as the caller needs it; [get] is
    its [Store] part. *)
Definition with_erasure_fence_on {S A} (get : S -> Store) (timeline : TimelineId)
    (operation : ErasureProtectedOperationV1) (effect : S -> S * result CoreError A) (s : S)
    : S * result CoreError A :=
  match validated_erasure_gate (get s) with
  | Err e => (s, Err e)
  | Ok gate =>
      let '(s', value, fenced) := with_fence gate timeline operation effect s in
      (s', let? _ := map_err erasure_containment_error fenced in
           default (Err (Storage FenceDidNotExecute)) value)
  end.

Definition with_erasure_fence {A} (timeline : TimelineId) (operation : ErasureProtectedOperationV1)
    (effect : Store -> Write A) (s : Store) : Write A :=
  with_erasure_fence_on (fun s => s) timeline operation effect s.

(** [with_erasure_read_fence] and [complete_erasure_read_fence]. *)
Definition with_erasure_read_fence {A} (timeline : TimelineId)
    (operation : ErasureProtectedOperationV1) (effect : Store -> Read A) (s : Store) : Read A :=
  let? gate := validated_erasure_gate s in
  let '(_, value, fenced) :=
    with_fence gate timeline operation (fun s => (s, effect s)) s in
  let? _ := validate_bound_erasure_inventory_generation (st_erasure_gate_bound s) gate
              (st_erasure_inventory_generation s) in
  let? _ := map_err erasure_containment_error fenced in
  default (Err (Storage FenceDidNotExecute)) value.

Definition with_direct_topology_mutation {A} (effect : Store -> Write A) (s : Store) : Write A :=
  if st_erasure_topology_requires_permit s then (s, Err ErasureContainmentUnavailable)
  else effect s.

(** ** Lookup *)

Definition timeline (s : Store) (id : TimelineId) : Read Timeline :=
  match st_timelines s !! id with
  | Some state => Ok (ts_timeline state)
  | None => Err (TimelineNotFound id)
  end.

Definition prefix_of (st : TimelineState) : Z :=
  match fork_point_of st with Some (_, fork) => fork | None => 0 end.

Definition logical_prefix (s : Store) (id : TimelineId) : Read Z :=
  let? tl := timeline s id in
  Ok (match meta_fork_point (tl_meta tl) with Some (_, fork) => fork | None => 0 end).

Definition logical_event (prefix : Z) (e : Event) : Read Event :=
  let? seq := ok_or (checked_add prefix (ev_seq e)) (Storage LogicalSeqOverflow) in
  Ok (with_seq seq e).

Definition timeline_contains_geographic_evidence (s : Store) (id : TimelineId) : Read bool :=
  let? _ := timeline s id in
  Ok (bool_decide (id ∈ st_geographic_timelines s)).

Definition generic_timeline_is_visible (geographic_presence : Read bool) : Read bool :=
  match geographic_presence with
  | Ok false => Ok true
  | Ok true => Ok false
  | Err error => Err error
  end.

Definition ensure_generic_timeline_visibility (s : Store) (id : TimelineId) : Read unit :=
  let? visible := generic_timeline_is_visible (timeline_contains_geographic_evidence s id) in
  if visible then Ok tt else Err (TimelineNotFound id).

Definition fork_is_admitted (s : Store) (id : TimelineId) : bool :=
  bool_decide (id ∈ st_fork_admissions s) || bool_decide (id ∈ st_imported_fork_admissions s).

Definition ensure_generic_fork_append_is_rejected (s : Store) (id : TimelineId) : Read unit :=
  if fork_is_admitted s id then Err (Storage AdmittedForkAppend) else Ok tt.

(** ** The fork chain *)

Record ForkChain := MkForkChain {
  fc_timelines : list TimelineId;
  fc_fork_seqs : list Z;
}.

(** The loop of [fork_chain_with_context] in its ordinary context, where every
    budget check is a no-op.  [chain] and [fork_seqs] are pushed at the back by
    the source and reversed at the end; here they grow at the front.  [None]
    means the fuel ran out; [fork_chain] supplies one step per Timeline and
    one more, and the visited set makes that enough ([fork_walk_total]). *)
Fixpoint fork_walk (fuel : nat) (tls : gmap TimelineId TimelineState)
    (visited : gset TimelineId) (chain : list TimelineId) (fork_seqs : list Z)
    (current : TimelineId) : option (Read ForkChain) :=
  match fuel with
  | O => None
  | S fuel' =>
      if decide (current ∈ visited) then Some (Err (Storage (ForkCycle current)))
      else match tls !! current with
      | None => Some (Err (TimelineNotFound current))
      | Some state =>
          match fork_point_of state with
          | Some (parent, fork_seq) =>
              fork_walk fuel' tls ({[current]} ∪ visited) (current :: chain)
                (fork_seq :: fork_seqs) parent
          | None => Some (Ok (MkForkChain (current :: chain) fork_seqs))
          end
      end
  end.

Definition fork_chain (s : Store) (id : TimelineId) : Read ForkChain :=
  default (Err (Storage (ForkCycle id)))
    (fork_walk (S (size (st_timelines s))) (st_timelines s) ∅ [] [] id).

Definition segment_prefix (c : ForkChain) (index : nat) : Read Z :=
  match index with
  | O => Ok 0
  | S i => ok_or (fc_fork_seqs c !! i) (Storage MissingLogicalPrefix)
  end.

(** [self.state(timeline)] indexes the map and panics on a missing Timeline;
    the chain only lists Timelines the walk has found. *)
Definition segment_length (c : ForkChain) (s : Store) (index : nat) (id : TimelineId) : Read Z :=
  let? prefix := segment_prefix c index in
  let? tl := timeline s id in
  let local_head := tl_head tl in
  let? length := match fc_fork_seqs c !! index with
                 | Some fork => ok_or (checked_sub fork prefix) (Storage (ForkPrecedesInherited id))
                 | None => Ok local_head
                 end in
  if local_head <? length then Err (Storage (ForkExceedsHead id)) else Ok length.

(** [authorize_inherited_scopes]: every stitched segment's own decision. *)
Definition authorize_inherited_scopes (s : Store) (id : TimelineId)
    (operation : ErasureProtectedOperationV1) : Read unit :=
  let? gate := validated_erasure_gate s in
  let? chain := fork_chain s id in
  map_err erasure_containment_error (authorize_fork_scopes gate (fc_timelines chain) operation).

(** ** Reading *)

Fixpoint collect_segments (s : Store) (c : ForkChain) (index : nat) (ids : list TimelineId)
    (all : list Event) : Read (list Event) :=
  match ids with
  | [] => Ok all
  | tid :: rest =>
      let? _ := timeline s tid in
      let events := from_option ts_events [] (st_timelines s !! tid) in
      let? length := segment_length c s index tid in
      collect_segments s c (S index) rest
        (all ++ List.filter (fun e => ev_seq e <=? length) events)
  end.

Definition collect_events_in_range (s : Store) (id : TimelineId) (range : SeqRange)
    : Read (list Event) :=
  let? chain := fork_chain s id in
  let? all := collect_segments s chain 0 (fc_timelines chain) [] in
  Ok (renumber_and_filter all range).

Fixpoint sum_lengths (s : Store) (c : ForkChain) (index : nat) (ids : list TimelineId)
    (logical_head : Z) : Read Z :=
  match ids with
  | [] => Ok logical_head
  | tid :: rest =>
      let? length := segment_length c s index tid in
      let? logical_head := ok_or (checked_add logical_head length) (Storage LogicalHeadOverflow) in
      sum_lengths s c (S index) rest logical_head
  end.

Definition logical_head_unchecked (s : Store) (id : TimelineId) : Read Z :=
  let? chain := fork_chain s id in
  sum_lengths s chain 0 (fc_timelines chain) 0.

Definition read (s : Store) (id : TimelineId) (range : SeqRange) : Read (list Event) :=
  with_erasure_read_fence id OpRead (fun s =>
    let? _ := ensure_generic_timeline_visibility s id in
    let? _ := authorize_inherited_scopes s id OpRead in
    collect_events_in_range s id range) s.

(** A Timeline that is absent or hidden is [None]. *)
Definition get_timeline (s : Store) (id : TimelineId) : Read (option Timeline) :=
  with_erasure_read_fence id OpRead (fun s =>
    match st_timelines s !! id with
    | None => Ok None
    | Some state =>
        let? visible := generic_timeline_is_visible
                          (Ok (bool_decide (id ∈ st_geographic_timelines s))) in
        Ok (if visible then Some (ts_timeline state) else None)
    end) s.

Definition read_own (s : Store) (id : TimelineId) (range : SeqRange) : Read (list Event) :=
  with_erasure_read_fence id OpExport (fun s =>
    let? _ := ensure_generic_timeline_visibility s id in
    Ok (List.filter (fun e => in_seq_range range (ev_seq e))
          (from_option ts_events [] (st_timelines s !! id)))) s.

Definition logical_head (s : Store) (id : TimelineId) : Read Z :=
  with_erasure_read_fence id OpRead (fun s =>
    let? _ := ensure_generic_timeline_visibility s id in
    logical_head_unchecked s id) s.

Section Operations.
Context `{Hasher} `{UlidText}.

(** ** The chain hash at a cut *)

(** [events.partition_point(|event| event.seq <= end)], then one hash step per
    selected Event.  The binary search finds the end of the prefix that
    satisfies the condition. *)
Fixpoint take_while_seq (stop : Z) (events : list Event) : list Event :=
  match events with
  | [] => []
  | e :: r => if ev_seq e <=? stop then e :: take_while_seq stop r else []
  end.

Fixpoint hash_segments (s : Store) (c : ForkChain) (head at_seq : Z) (index : nat)
    (ids : list TimelineId) (logical_offset : Z) (hash : Hash) : Hash :=
  match ids with
  | [] => hash
  | tid :: rest =>
      let logical_end := default head (fc_fork_seqs c !! index) in
      let stop := Z.min logical_end at_seq - logical_offset in
      let events := from_option ts_events [] (st_timelines s !! tid) in
      let hash := chain_over hash (take_while_seq stop events) in
      let logical_offset := logical_offset + stop in
      if logical_offset =? at_seq then hash
      else hash_segments s c head at_seq (S index) rest logical_offset hash
  end.

Definition compute_chain_hash_at (s : Store) (id : TimelineId) (at_seq : Z) : Read Hash :=
  let? chain := fork_chain s id in
  let? head := sum_lengths s chain 0 (fc_timelines chain) 0 in
  if head <? at_seq then Err (ForkBeyondHead at_seq head)
  else if at_seq =? SEQ_ZERO then Ok genesis_hash
  else Ok (hash_segments s chain head at_seq 0 (fc_timelines chain) 0 genesis_hash).

Definition chain_hash_at (s : Store) (id : TimelineId) (at_seq : Z) : Read Hash :=
  with_erasure_read_fence id OpExport (fun s =>
    let? _ := ensure_generic_timeline_visibility s id in
    let? _ := authorize_inherited_scopes s id OpExport in
    compute_chain_hash_at s id at_seq) s.

(** ** Appending *)

(** A draft with the Event id and clock reading its append will draw. *)
Record FreshDraft := MkFresh { fd_draft : EventDraft; fd_id : EventId; fd_now : Z }.

Definition prepare_one_for_state (state : TimelineState) (d : FreshDraft)
    (registry : option KeyRegistryStateV1) : Read (Event * Hash) :=
  let draft := fd_draft d in
  let? _ := ensure_plaintext_preference_allowed registry (draft_entity draft)
              (draft_event_type draft) in
  let seq := seq_next (tl_head (ts_timeline state)) in
  let? origin_logical_seq := checked_logical_head (prefix_of state) seq in
  let payload_hash := hash_payload (draft_payload draft) in
  let chain_head := hash_event (ts_chain_head state) (ulid_to_string (fd_id d)) (draft_payload draft) in
  let event := MkEvent (fd_id d) (draft_entity draft) (draft_event_type draft)
    (draft_payload draft) (default (fd_now d) (draft_wall_time draft)) seq
    (draft_causation_id draft) (draft_correlation_id draft) None None
    (Some (MkOrigin (timeline_id (ts_timeline state)) origin_logical_seq)) payload_hash in
  Ok (event, chain_head).

Definition commit_prepared_to_state (state : TimelineState) (event : Event) (chain_head : Hash)
    : TimelineState :=
  MkTimelineState (MkTimeline (tl_meta (ts_timeline state)) (ev_seq event))
    (ts_events state ++ [event]) chain_head.

Definition append_one_to_state (state : TimelineState) (d : FreshDraft)
    (registry : option KeyRegistryStateV1) : TimelineState * Read Event :=
  match prepare_one_for_state state d registry with
  | Ok (event, chain_head) => (commit_prepared_to_state state event chain_head, Ok event)
  | Err e => (state, Err e)
  end.

(** [.map(append_one_to_state).collect()]: stops at the first error, keeping
    what the earlier drafts committed. *)
Fixpoint append_all_to_state (state : TimelineState) (ds : list FreshDraft)
    (registry : option KeyRegistryStateV1) : TimelineState * Read (list Event) :=
  match ds with
  | [] => (state, Ok [])
  | d :: rest =>
      match append_one_to_state state d registry with
      | (state', Err e) => (state', Err e)
      | (state', Ok event) =>
          let (state'', r) := append_all_to_state state' rest registry in
          (state'', let? events := r in Ok (event :: events))
      end
  end.

Fixpoint try_for_each {A} (f : A -> Read unit) (l : list A) : Read unit :=
  match l with
  | [] => Ok tt
  | x :: r => let? _ := f x in try_for_each f r
  end.

Fixpoint try_map {A B} (f : A -> Read B) (l : list A) : Read (list B) :=
  match l with
  | [] => Ok []
  | x :: r => let? y := f x in let? ys := try_map f r in Ok (y :: ys)
  end.

Definition append_visible_with_prefix (s : Store) (id : TimelineId) (ds : list FreshDraft)
    (prefix : Z) : Write (list Event) :=
  match try_for_each (fun d => ensure_plaintext_preference_allowed (st_key_registry s)
          (draft_entity (fd_draft d)) (draft_event_type (fd_draft d))) ds with
  | Err e => (s, Err e)
  | Ok _ =>
      match st_timelines s !! id with
      | None => (s, Err (TimelineNotFound id))
      | Some state =>
          let (state', committed) := append_all_to_state state ds (st_key_registry s) in
          let s' := set_timelines (insert id state') s in
          match committed with
          | Err e => (s', Err e)
          | Ok events =>
              (set_event_ids (union (list_to_set (ev_id <$> events))) s',
               try_map (logical_event prefix) events)
          end
      end
  end.

Definition append_visible (s : Store) (id : TimelineId) (ds : list FreshDraft)
    : Write (list Event) :=
  match logical_prefix s id with
  | Err e => (s, Err e)
  | Ok prefix => append_visible_with_prefix s id ds prefix
  end.

Definition guarded_generic_append (s : Store) (id : TimelineId) (ds : list FreshDraft)
    : Write (list Event) :=
  match (let? _ := ensure_non_geographic_drafts (fd_draft <$> ds) id in
         let? _ := ensure_generic_fork_append_is_rejected s id in
         ensure_generic_timeline_visibility s id) with
  | Err e => (s, Err e)
  | Ok _ => append_visible s id ds
  end.

Definition append (s : Store) (id : TimelineId) (ds : list FreshDraft) : Write (list Event) :=
  with_erasure_fence id OpAppend (fun s => guarded_generic_append s id ds) s.

(** ** Appending committed Events *)

Fixpoint finalize_committed_origins (id : TimelineId) (inherited_prefix : Z) (events : list Event)
    : Read (list Event) :=
  match events with
  | [] => Ok []
  | event :: rest =>
      let? logical_seq := checked_logical_head inherited_prefix (ev_seq event) in
      let expected := MkOrigin id logical_seq in
      if match ev_origin event with
         | Some origin => negb (bool_decide (origin = expected))
         | None => false
         end
      then Err (Storage OriginMismatch)
      else
        let? rest := finalize_committed_origins id inherited_prefix rest in
        Ok (with_origin expected event :: rest)
  end.

Definition append_committed_body (s : Store) (id : TimelineId) (events : list Event)
    : Read Store :=
  let? _ := ensure_non_geographic_events events id in
  let? _ := ensure_generic_fork_append_is_rejected s id in
  let? _ := ensure_generic_timeline_visibility s id in
  match events with
  | [] => Ok s
  | _ =>
      let? state := ok_or (st_timelines s !! id) (TimelineNotFound id) in
      let head := tl_head (ts_timeline state) in
      let? ordered := validate_committed_batch head events
                        (fun eid => bool_decide (eid ∈ st_event_ids s)) in
      let? ordered := finalize_committed_origins id (prefix_of state) ordered in
      let new_head := fold_left (fun _ e => ev_seq e) ordered head in
      let new_hash := chain_over (ts_chain_head state) ordered in
      let state' := MkTimelineState (MkTimeline (tl_meta (ts_timeline state)) new_head)
                      (ts_events state ++ ordered) new_hash in
      Ok (set_timelines (insert id state')
            (set_event_ids (union (list_to_set (ev_id <$> ordered))) s))
  end.

Definition append_committed (s : Store) (id : TimelineId) (events : list Event) : Write unit :=
  with_erasure_fence id OpAppend (fun s =>
    match append_committed_body s id events with
    | Ok s' => (s', Ok tt)
    | Err e => (s, Err e)
    end) s.

(** ** Creating, forking and deleting Timelines *)

Definition create_timeline_with_meta_unchecked (s : Store) (meta : TimelineMeta)
    : Write Timeline :=
  let chain := match meta_fork_point meta with
    | Some (parent, at_seq) =>
        let? _ := ensure_generic_timeline_visibility s parent in
        let? parent_head := logical_head_unchecked s parent in
        if parent_head <? at_seq then Err (ForkBeyondHead at_seq parent_head)
        else compute_chain_hash_at s parent at_seq
    | None => Ok genesis_hash
    end in
  match chain with
  | Err e => (s, Err e)
  | Ok chain =>
      if bool_decide (is_Some (st_timelines s !! meta_id meta))
      then (s, Err (Storage (TimelineExists (meta_id meta))))
      else
        let tl := timeline_new meta in
        (set_timelines (insert (meta_id meta) (timeline_state_new tl chain)) s, Ok tl)
  end.

Definition create_timeline_with_meta (s : Store) (meta : TimelineMeta) : Write Timeline :=
  with_direct_topology_mutation (fun s =>
    match meta_fork_point meta with
    | Some (parent, _) =>
        with_erasure_fence parent OpFork (fun s => create_timeline_with_meta_unchecked s meta) s
    | None => create_timeline_with_meta_unchecked s meta
    end) s.

(** [create_timeline]: [id] is the fresh [TimelineId::new()]. *)
Definition create_timeline (s : Store) (id : TimelineId) (name : RString) : Write Timeline :=
  with_direct_topology_mutation (fun s =>
    let tl := timeline_new (meta_root id name) in
    (set_timelines (insert id (timeline_state_new tl genesis_hash)) s, Ok tl)) s.

Definition fork_timeline_unchecked (s : Store) (id parent : TimelineId) (at_seq : Z)
    (name : RString) : Write Timeline :=
  match (let? parent_head := logical_head_unchecked s parent in
         if parent_head <? at_seq then Err (ForkBeyondHead at_seq parent_head)
         else compute_chain_hash_at s parent at_seq) with
  | Err e => (s, Err e)
  | Ok fork_hash =>
      let owner := st_timelines s !! parent ≫= (fun st => meta_owner (tl_meta (ts_timeline st))) in
      let meta := match owner with
                  | None => meta_forked_from id parent at_seq name
                  | Some owner => meta_forked_from_owned id parent at_seq name owner
                  end in
      let child := timeline_new meta in
      (set_timelines (insert id (timeline_state_new child fork_hash)) s, Ok child)
  end.

Definition fork (s : Store) (id parent : TimelineId) (at_seq : Z) (name : RString)
    : Write Timeline :=
  with_direct_topology_mutation
    (with_erasure_fence parent OpFork (fun s =>
      match ensure_generic_timeline_visibility s parent with
      | Err e => (s, Err e)
      | Ok _ => fork_timeline_unchecked s id parent at_seq name
      end)) s.

Definition has_child_timeline (tls : gmap TimelineId TimelineState) (parent : TimelineId) : bool :=
  existsb (fun entry => match fork_point_of entry.2 with
                        | Some (child_parent, _) => bool_decide (child_parent = parent)
                        | None => false
                        end) (map_to_list tls).

Definition ensure_timeline_deletable (s : Store) (id : TimelineId) : Read unit :=
  if has_child_timeline (st_timelines s) id then Err (Storage StillHasForks)
  else if bool_decide (is_Some (st_timelines s !! id)) && fork_is_admitted s id
  then Err (AdmittedForkNotDeletable id) else Ok tt.

(** The sidecar tables the source also clears for the deleted Timeline (append
    identities, geographic admission, pipeline and counterfactual state) are
    not fields of [Store]. *)
Definition delete_visible_timeline (s : Store) (id : TimelineId) : Write unit :=
  match ensure_timeline_deletable s id with
  | Err e => (s, Err e)
  | Ok _ =>
      match st_timelines s !! id with
      | None => (s, Err (TimelineNotFound id))
      | Some state =>
          let event_ids : gset EventId := list_to_set (ev_id <$> ts_events state) in
          (set_geographic (fun g => g ∖ {[id]})
             (set_event_ids (fun ids => ids ∖ event_ids)
                (set_timelines (base.delete id) s)), Ok tt)
      end
  end.

Definition delete_timeline (s : Store) (id : TimelineId) : Write unit :=
  with_direct_topology_mutation (fun s =>
    match ensure_generic_timeline_visibility s id with
    | Err e => (s, Err e)
    | Ok _ => delete_visible_timeline s id
    end) s.

End Operations.
