(* ===== verification/StoreHistory.v ===== *)
(** * What a Timeline is: histories

    The abstract view of the Event store: a Timeline denotes one list of
    Events, its history, which for a fork is the parent's history cut at the
    fork point followed by the fork's own Events.  This file defines that view
    ([history]) and the well-formed stores, and proves that the loops of
    [EventStore] (the chain walk, segment lengths, stitching, the chain hash)
    compute it. *)

From Stdlib Require Import ZArith Lia Bool.
From S2P Require Import Prelude Text FallbackRecords ErasureGate Events EventStore.

Local Open Scope Z_scope.

Abbreviation Timelines := (gmap TimelineId TimelineState).

(** ** Histories *)

Inductive history (tls : Timelines) : TimelineId -> list Event -> Prop :=
| history_root id st :
    tls !! id = Some st -> fork_point_of st = None -> history tls id (ts_events st)
| history_fork id st parent pst sq hp :
    tls !! id = Some st -> fork_point_of st = Some (parent, sq) ->
    tls !! parent = Some pst -> history tls parent hp ->
    prefix_of pst <= sq <= len hp ->
    history tls id (take (Z.to_nat sq) hp ++ ts_events st).

Lemma history_deterministic tls id h1 h2 : history tls id h1 -> history tls id h2 -> h1 = h2.
Proof.
  intros H1. revert h2. induction H1 as [id st Hst Hfp|id st p pst sq hp Hst Hfp Hp Hh IH Hle];
    intros h2 H2; inversion H2; simplify_eq; [done|].
  f_equal. f_equal. by apply IH.
Qed.

Lemma history_state tls id h : history tls id h -> is_Some (tls !! id).
Proof. intros []; eauto. Qed.

Lemma history_len tls id st h :
  tls !! id = Some st -> 0 <= prefix_of st -> history tls id h ->
  len h = prefix_of st + len (ts_events st).
Proof.
  intros Hst Hpos Hh. inversion Hh as [id' st' Hst' Hfp|id' st' p pst sq hp Hst' Hfp Hp Hhp Hle];
    simplify_eq; unfold prefix_of in *; rewrite Hfp in *; [done|].
  rewrite len_app. unfold len in *. rewrite length_take. lia.
Qed.

(** ** Well-formed Timelines *)

Record state_ok (id : TimelineId) (st : TimelineState) : Prop := {
  so_id : timeline_id (ts_timeline st) = id;
  so_seqs : forall i e, ts_events st !! i = Some e -> ev_seq e = Z.of_nat i + 1;
  so_head : tl_head (ts_timeline st) = len (ts_events st);
  so_prefix : 0 <= prefix_of st;
  so_bound : prefix_of st + len (ts_events st) <= U64_MAX;
}.

(** Every fork was cut from a readable parent, below its head, and parents come
    before their forks. *)
Record timelines_wf (tls : Timelines) : Prop := {
  wf_states : forall id st, tls !! id = Some st -> state_ok id st;
  wf_parents : forall id st parent sq, tls !! id = Some st ->
    fork_point_of st = Some (parent, sq) ->
    exists hp, history tls parent hp /\ sq <= len hp;
  wf_rank : exists rank : TimelineId -> nat, forall id st parent sq,
    tls !! id = Some st -> fork_point_of st = Some (parent, sq) -> (rank parent < rank id)%nat;
}.

(** ** The chain *)

Inductive chain_of (tls : Timelines) : TimelineId -> list TimelineId -> list Z -> Prop :=
| chain_root id st :
    tls !! id = Some st -> fork_point_of st = None -> chain_of tls id [id] []
| chain_fork id st parent sq ids seqs :
    tls !! id = Some st -> fork_point_of st = Some (parent, sq) ->
    chain_of tls parent ids seqs -> chain_of tls id (ids ++ [id]) (seqs ++ [sq]).

Lemma chain_of_length tls id ids seqs : chain_of tls id ids seqs -> length ids = S (length seqs).
Proof. induction 1; rewrite ?length_app; simpl; lia. Qed.

Lemma chain_of_in_dom tls id ids seqs x :
  chain_of tls id ids seqs -> x ∈ ids -> is_Some (tls !! x).
Proof.
  induction 1 as [id st Hst|id st p sq ids seqs Hst _ _ IH]; intros Hx.
  - apply list_elem_of_singleton in Hx as ->. eauto.
  - apply elem_of_app in Hx as [Hx|Hx]; [eauto|]. apply list_elem_of_singleton in Hx as ->. eauto.
Qed.

Section Ranked.
Context (tls : Timelines) (rank : TimelineId -> nat).
Context (Hrank : forall id st parent sq, tls !! id = Some st ->
  fork_point_of st = Some (parent, sq) -> (rank parent < rank id)%nat).

Lemma chain_of_rank id ids seqs x : chain_of tls id ids seqs -> x ∈ ids -> (rank x <= rank id)%nat.
Proof.
  induction 1 as [id st Hst|id st p sq ids seqs Hst Hfp _ IH]; intros Hx.
  - by apply list_elem_of_singleton in Hx as ->.
  - apply elem_of_app in Hx as [Hx|Hx].
    + specialize (IH Hx). pose proof (Hrank _ _ _ _ Hst Hfp). lia.
    + by apply list_elem_of_singleton in Hx as ->.
Qed.

Lemma chain_of_NoDup id ids seqs : chain_of tls id ids seqs -> NoDup ids.
Proof.
  induction 1 as [id st Hst|id st p sq ids seqs Hst Hfp Hc IH].
  - apply NoDup_singleton.
  - apply NoDup_app. split; [done|]. split; [|apply NoDup_singleton].
    intros x Hx Hs. apply list_elem_of_singleton in Hs as ->.
    pose proof (chain_of_rank _ _ _ _ Hc Hx). pose proof (Hrank _ _ _ _ Hst Hfp). lia.
Qed.

(** With fuel for every link, the walk returns the chain. *)
Lemma fork_walk_chain id ids seqs fuel visited chain fseqs :
  chain_of tls id ids seqs -> (length ids <= fuel)%nat ->
  (forall x, x ∈ visited -> (rank id < rank x)%nat) ->
  fork_walk fuel tls visited chain fseqs id
  = Some (Ok (MkForkChain (ids ++ chain) (seqs ++ fseqs))).
Proof.
  intros Hc. revert fuel visited chain fseqs.
  induction Hc as [id st Hst Hfp|id st p sq ids seqs Hst Hfp Hc IH];
    intros fuel visited chain fseqs Hfuel Hvis.
  - destruct fuel; simpl in *; [lia|].
    rewrite decide_False by (intros Hin; apply Hvis in Hin; lia). by rewrite Hst, Hfp.
  - rewrite length_app in Hfuel. simpl in Hfuel. destruct fuel; simpl; [lia|].
    rewrite decide_False by (intros Hin; apply Hvis in Hin; lia). rewrite Hst, Hfp.
    rewrite IH; [by rewrite <- !app_assoc|lia|].
    pose proof (Hrank _ _ _ _ Hst Hfp) as Hr. intros x Hx.
    apply elem_of_union in Hx as [Hx|Hx].
    + by apply elem_of_singleton in Hx as ->.
    + apply Hvis in Hx. lia.
Qed.

(** Parents exist, so every Timeline has a chain. *)
Lemma chain_exists id :
  (forall id st p sq, tls !! id = Some st -> fork_point_of st = Some (p, sq) -> is_Some (tls !! p)) ->
  is_Some (tls !! id) -> exists ids seqs, chain_of tls id ids seqs.
Proof.
  intros Hpar. remember (rank id) as n eqn:Hn. revert id Hn.
  induction (lt_wf n) as [n _ IH]; intros id -> [st Hst].
  destruct (fork_point_of st) as [[p sq]|] eqn:Hfp.
  - edestruct (IH (rank p)) as (ids & seqs & Hc); [by eapply Hrank|done|by eapply Hpar|].
    exists (ids ++ [id]), (seqs ++ [sq]). by econstructor.
  - exists [id], []. by econstructor.
Qed.

End Ranked.

Lemma chain_fuel tls id ids seqs :
  chain_of tls id ids seqs -> NoDup ids -> (length ids <= size tls)%nat.
Proof.
  intros Hc Hnd. rewrite <- size_dom, <- (size_list_to_set (C := gset TimelineId) ids) by done.
  apply subseteq_size. intros x Hx. apply elem_of_list_to_set in Hx.
  apply elem_of_dom. by eapply chain_of_in_dom.
Qed.

(** ** Totality of the walk on any store, well-formed or not *)

Lemma fork_walk_total tls fuel visited chain seqs current :
  (size (dom tls ∖ visited) < fuel)%nat ->
  fork_walk fuel tls visited chain seqs current <> None.
Proof.
  revert visited chain seqs current. induction fuel as [|fuel IH]; intros visited chain seqs cur Hf;
    [lia|]. simpl. case_decide as Hv; [done|].
  destruct (tls !! cur) as [st|] eqn:Hst; [|done].
  destruct (fork_point_of st) as [[p sq]|]; [|done]. apply IH.
  assert (Hin : cur ∈ dom tls ∖ visited) by (apply elem_of_difference; split; [by apply elem_of_dom_2 in Hst|done]).
  assert (Heq : dom tls ∖ ({[cur]} ∪ visited) = (dom tls ∖ visited) ∖ {[cur]}) by set_solver.
  rewrite Heq, size_difference by set_solver. rewrite size_singleton.
  assert (0 < size (dom tls ∖ visited))%nat; [|lia].
  destruct (decide (size (dom tls ∖ visited) = 0%nat)) as [Hz|]; [|lia].
  apply size_empty_inv in Hz. set_solver.
Qed.

(** ** Segments

    The chain read from the root: each Timeline but the last contributes its
    Events up to its successor's fork point.  [off] is the logical position the
    first segment starts behind, [head] the position after the last. *)

Inductive segs (tls : Timelines)
    : Z -> list TimelineId -> list Z -> list (list Event) -> Z -> Prop :=
| segs_last off id st :
    tls !! id = Some st -> segs tls off [id] [] [ts_events st] (off + len (ts_events st))
| segs_cons off id st sq ids seqs ss head :
    tls !! id = Some st -> off <= sq -> sq - off <= len (ts_events st) ->
    segs tls sq ids seqs ss head ->
    segs tls off (id :: ids) (sq :: seqs) (take (Z.to_nat (sq - off)) (ts_events st) :: ss) head.

Lemma take_take_app {A} (a b : list A) n :
  (n <= length a)%nat -> take n a = take n (a ++ b).
Proof. intros. by rewrite take_app_le by lia. Qed.

Lemma segs_length tls off ids seqs ss head :
  segs tls off ids seqs ss head -> len (concat ss) = head - off /\ off <= head.
Proof.
  induction 1 as [|off id st sq ids seqs ss head Hst Hle Hl Hs [IH1 IH2]]; simpl.
  - rewrite app_nil_r. len_lia.
  - rewrite len_app, IH1. split; [|lia]. unfold len. rewrite length_take. unfold len in Hl. lia.
Qed.

Lemma default_last_cons (off z : Z) seqs : default off (last (z :: seqs)) = default z (last seqs).
Proof. rewrite last_cons. by destruct (last seqs). Qed.

Lemma segs_last_seq tls off ids seqs ss head :
  segs tls off ids seqs ss head -> off <= default off (last seqs).
Proof.
  induction 1 as [|off id st sq ids seqs ss head Hst Hle Hl Hs IH]; [simpl; lia|].
  rewrite default_last_cons. lia.
Qed.

(** Cutting the last segment at [sq] and adding one Timeline behind it. *)
Lemma segs_snoc tls off ids seqs ss head id st sq :
  segs tls off ids seqs ss head -> tls !! id = Some st ->
  default off (last seqs) <= sq <= head ->
  exists ss', segs tls off (ids ++ [id]) (seqs ++ [sq]) ss' (sq + len (ts_events st))
    /\ concat ss' = take (Z.to_nat (sq - off)) (concat ss) ++ ts_events st.
Proof.
  intros Hs Hst. induction Hs as [off id0 st0 Hst0|off id0 st0 sq0 ids seqs ss head Hst0 Hle Hl Hs IH];
    intros Hsq.
  - simpl in Hsq. eexists. split.
    + simpl. eapply segs_cons; [done|lia|lia|]. by apply segs_last.
    + simpl. by rewrite !app_nil_r.
  - rewrite default_last_cons in Hsq.
    destruct (IH Hsq) as (ss' & Hs' & Hc). eexists. split.
    + simpl. eapply segs_cons; [done|lia|lia|exact Hs'].
    + simpl. rewrite Hc. rewrite app_assoc. f_equal.
      pose proof (segs_last_seq _ _ _ _ _ _ Hs).
      rewrite take_app, length_take. unfold len in Hl.
      rewrite (firstn_all2 (n := Z.to_nat (sq - off))) by (rewrite length_take; lia).
      f_equal. f_equal. lia.
Qed.

(** The inverse: the chain without its last Timeline, before the cut. *)
Lemma segs_snoc_inv tls off ids seqs ss head id sq :
  segs tls off (ids ++ [id]) (seqs ++ [sq]) ss head -> length ids = S (length seqs) ->
  exists st ss0 head0, tls !! id = Some st /\ segs tls off ids seqs ss0 head0
    /\ default off (last seqs) <= sq <= head0
    /\ concat ss = take (Z.to_nat (sq - off)) (concat ss0) ++ ts_events st.
Proof.
  revert off seqs ss. induction ids as [|i0 ids IH]; intros off seqs ss Hs Hlen; [simpl in Hlen; lia|].
  destruct seqs as [|z seqs]; simpl in Hlen.
  - destruct ids; [|simpl in Hlen; lia]. inversion Hs; simplify_eq/=.
    match goal with H : segs _ _ [_] [] _ _ |- _ => inversion H; simplify_eq/= end.
    exists st0, [ts_events st], (off + len (ts_events st)). split_and!; try done; try lia.
    + by apply segs_last.
    + simpl. by rewrite !app_nil_r.
  - inversion Hs; simplify_eq/=.
    match goal with H : segs _ _ (_ ++ _) _ _ _ |- _ =>
      apply IH in H as (st1 & ss1 & head0 & Hst1 & Hs0 & Hb & Hc); [|lia] end.
    exists st1, (take (Z.to_nat (z - off)) (ts_events st) :: ss1), head0.
    pose proof (default_last_cons off z seqs) as Hl.
    split_and!; try done; try lia.
    + by eapply segs_cons.
    + simpl. rewrite Hc, app_assoc. f_equal.
      pose proof (segs_last_seq _ _ _ _ _ _ Hs0).
      match goal with H : z - off <= len _ |- _ => unfold len in H end.
      rewrite take_app, length_take.
      rewrite (firstn_all2 (n := Z.to_nat (sq - off))) by (rewrite length_take; lia).
      f_equal. f_equal. lia.
Qed.

(** *** Segments and histories *)

Lemma chain_of_last tls id st ids seqs :
  chain_of tls id ids seqs -> tls !! id = Some st -> prefix_of st = default 0 (last seqs).
Proof.
  intros Hc Hst. unfold prefix_of.
  inversion Hc as [id' st' Hst' Hfp|id' st' p sq ids' seqs' Hst' Hfp Hc']; simplify_eq;
    rewrite Hfp; [done|]. by rewrite last_snoc.
Qed.

Lemma history_segs tls id ids seqs h :
  history tls id h -> chain_of tls id ids seqs ->
  exists ss, segs tls 0 ids seqs ss (len h) /\ concat ss = h.
Proof.
  intros Hh. revert ids seqs.
  induction Hh as [id st Hst Hfp|id st p pst sq hp Hst Hfp Hp Hh IH Hle]; intros ids seqs Hc.
  - inversion Hc; simplify_eq. exists [ts_events st]. split; [|simpl; by rewrite app_nil_r].
    rewrite <- (Z.add_0_l (len _)). by apply segs_last.
  - inversion Hc as [|id' st' p' sq' ids' seqs' Hst' Hfp' Hc']; simplify_eq.
    destruct (IH _ _ Hc') as (ss & Hs & <-).
    pose proof (chain_of_last _ _ _ _ _ Hc' Hp) as Hl. rewrite Hl in Hle.
    destruct (segs_snoc _ _ _ _ _ _ id st sq Hs Hst Hle) as (ss' & Hs' & Hc2).
    rewrite Z.sub_0_r in Hc2. exists ss'. split; [|done].
    replace (len _) with (sq + len (ts_events st)); [done|].
    pose proof (segs_last_seq _ _ _ _ _ _ Hs).
    rewrite len_app. unfold len in *. rewrite length_take. lia.
Qed.

Lemma segs_history tls id ids seqs ss head :
  (forall id st, tls !! id = Some st -> 0 <= prefix_of st) ->
  chain_of tls id ids seqs -> segs tls 0 ids seqs ss head ->
  history tls id (concat ss) /\ head = len (concat ss).
Proof.
  intros Hpos Hc Hs. split; [|pose proof (segs_length _ _ _ _ _ _ Hs) as [? _]; lia].
  revert ss head Hs. induction Hc as [id st Hst Hfp|id st p sq ids seqs Hst Hfp Hc IH];
    intros ss head Hs.
  - inversion Hs; simplify_eq. simpl. rewrite app_nil_r. by apply history_root.
  - apply segs_snoc_inv in Hs as (st' & ss0 & head0 & Hst' & Hs0 & Hb & Hcat);
      [|by eapply chain_of_length]. simplify_eq. rewrite Hcat, Z.sub_0_r.
    pose proof (IH _ _ Hs0) as Hp. destruct (history_state _ _ _ Hp) as [pst Hpst].
    pose proof (segs_length _ _ _ _ _ _ Hs0) as [Hlen _].
    eapply history_fork; [done|done|done|done|].
    rewrite (chain_of_last _ _ _ _ _ Hc Hpst). lia.
Qed.

(** *** The loops over the chain *)

Lemma filter_take_seq events n :
  (forall i e, events !! i = Some e -> ev_seq e = Z.of_nat i + 1) -> 0 <= n ->
  List.filter (fun e => ev_seq e <=? n) events = take (Z.to_nat n) events.
Proof.
  intros Hs Hn. assert (Hgen : forall k, (forall i e, events !! i = Some e -> ev_seq e = k + Z.of_nat i + 1) ->
    List.filter (fun e => ev_seq e <=? n) events = take (Z.to_nat (n - k)) events).
  { clear Hs. induction events as [|e events IH]; intros k Hs; [by rewrite take_nil|]. simpl.
    rewrite (Hs 0%nat e eq_refl).
    assert (Htl : forall i e', events !! i = Some e' -> ev_seq e' = (k + 1) + Z.of_nat i + 1)
      by (intros i e' He'; rewrite (Hs (S i) e' He'); lia).
    rewrite (IH _ Htl). destruct (Z.leb_spec (k + Z.of_nat 0 + 1) n) as [Hle|Hgt].
    - replace (Z.to_nat (n - k)) with (S (Z.to_nat (n - (k + 1)))) by lia. done.
    - replace (Z.to_nat (n - (k + 1))) with 0%nat by lia. by replace (Z.to_nat (n - k)) with 0%nat by lia. }
  rewrite (Hgen 0); [by rewrite Z.sub_0_r|]. intros i e He. rewrite (Hs i e He). lia.
Qed.

Lemma take_while_seq_take events n :
  (forall i e, events !! i = Some e -> ev_seq e = Z.of_nat i + 1) -> 0 <= n ->
  take_while_seq n events = take (Z.to_nat n) events.
Proof.
  intros Hs Hn. assert (Hgen : forall k, (forall i e, events !! i = Some e -> ev_seq e = k + Z.of_nat i + 1) ->
    take_while_seq n events = take (Z.to_nat (n - k)) events).
  { clear Hs. induction events as [|e events IH]; intros k Hs; [by rewrite take_nil|]. simpl.
    rewrite (Hs 0%nat e eq_refl).
    assert (Htl : forall i e', events !! i = Some e' -> ev_seq e' = (k + 1) + Z.of_nat i + 1)
      by (intros i e' He'; rewrite (Hs (S i) e' He'); lia).
    rewrite (IH _ Htl). destruct (Z.leb_spec (k + Z.of_nat 0 + 1) n) as [Hle|Hgt].
    - replace (Z.to_nat (n - k)) with (S (Z.to_nat (n - (k + 1)))) by lia. done.
    - by replace (Z.to_nat (n - k)) with 0%nat by lia. }
  rewrite (Hgen 0); [by rewrite Z.sub_0_r|]. intros i e He. rewrite (Hs i e He). lia.
Qed.

Lemma segment_prefix_at ids done seqs :
  segment_prefix (MkForkChain ids (done ++ seqs)) (length done) = Ok (default 0 (last done)).
Proof.
  destruct done as [|x d _] using rev_ind; [done|]. rewrite last_snoc, length_app.
  simpl. rewrite Nat.add_1_r. simpl. rewrite <- app_assoc. simpl. by rewrite list_lookup_middle.
Qed.

Section Loops.
Context (s : Store).
Abbreviation tls := (st_timelines s).
Context (Hstates : forall id st, tls !! id = Some st -> state_ok id st).

Lemma segment_length_at cids done seqs id st :
  tls !! id = Some st ->
  segment_length (MkForkChain cids (done ++ seqs)) s (length done) id
  = match head seqs with
    | None => Ok (len (ts_events st))
    | Some sq =>
        if sq <? default 0 (last done) then Err (Storage (ForkPrecedesInherited id))
        else if len (ts_events st) <? sq - default 0 (last done)
        then Err (Storage (ForkExceedsHead id)) else Ok (sq - default 0 (last done))
    end.
Proof.
  intros Hst. unfold segment_length. rewrite segment_prefix_at. unfold timeline. rewrite Hst.
  simpl. rewrite (so_head _ _ (Hstates _ _ Hst)).
  rewrite lookup_app_r, Nat.sub_diag by lia. destruct seqs as [|sq seqs]; simpl.
  - by rewrite Z.ltb_irrefl.
  - unfold checked_sub. destruct (Z.leb_spec (default 0 (last done)) sq), (Z.ltb_spec sq (default 0 (last done)));
      simpl; try lia; done.
Qed.

Lemma snoc_shift {A} (done : list A) x seqs : done ++ x :: seqs = (done ++ [x]) ++ seqs.
Proof. by rewrite <- app_assoc. Qed.

Lemma collect_segments_segs cids done off ids seqs ss head all :
  segs tls off ids seqs ss head -> off = default 0 (last done) ->
  collect_segments s (MkForkChain cids (done ++ seqs)) (length done) ids all
  = Ok (all ++ concat ss).
Proof.
  intros Hs. revert done all. induction Hs as [off id st Hst|off id st sq ids seqs ss head Hst Hle Hl Hs IH];
    intros done all ->; simpl; unfold timeline at 1; rewrite Hst; simpl;
    rewrite (segment_length_at _ _ _ _ _ Hst); simpl.
  - rewrite filter_take_seq by (apply len_nonneg || apply (so_seqs _ _ (Hstates _ _ Hst))).
    by rewrite len_to_nat, take_ge, app_nil_r by lia.
  - destruct (Z.ltb_spec sq (default 0 (last done))); [lia|].
    destruct (Z.ltb_spec (len (ts_events st)) (sq - default 0 (last done))); [lia|]. simpl.
    rewrite filter_take_seq by (lia || apply (so_seqs _ _ (Hstates _ _ Hst))).
    rewrite snoc_shift. replace (S (length done)) with (length (done ++ [sq])) by (rewrite length_app; simpl; lia).
    rewrite IH by (by rewrite last_snoc). by rewrite <- app_assoc.
Qed.

Lemma sum_lengths_segs cids done off ids seqs ss head :
  segs tls off ids seqs ss head -> off = default 0 (last done) -> head <= U64_MAX ->
  sum_lengths s (MkForkChain cids (done ++ seqs)) (length done) ids off = Ok head.
Proof.
  intros Hs. revert done. induction Hs as [off id st Hst|off id st sq ids seqs ss head Hst Hle Hl Hs IH];
    intros done Hoff Hmax; simpl; rewrite (segment_length_at _ _ _ _ _ Hst); simpl.
  - unfold checked_add. by rewrite (proj2 (Z.leb_le _ _)) by lia.
  - rewrite <- Hoff. destruct (Z.ltb_spec sq off); [lia|].
    destruct (Z.ltb_spec (len (ts_events st)) (sq - off)); [lia|]. simpl.
    pose proof (segs_length _ _ _ _ _ _ Hs) as [_ ?].
    unfold checked_add. rewrite (proj2 (Z.leb_le _ _)) by lia. simpl.
    replace (off + (sq - off)) with sq by lia.
    rewrite snoc_shift. replace (S (length done)) with (length (done ++ [sq])) by (rewrite length_app; simpl; lia).
    apply IH; [by rewrite last_snoc|done].
Qed.

(** The length loop succeeds only on ordered fork points. *)
Lemma sum_lengths_inv cids done off ids seqs head :
  length ids = S (length seqs) -> off = default 0 (last done) ->
  (forall id, id ∈ ids -> is_Some (tls !! id)) ->
  sum_lengths s (MkForkChain cids (done ++ seqs)) (length done) ids off = Ok head ->
  exists ss, segs tls off ids seqs ss head.
Proof.
  revert done off seqs. induction ids as [|id ids IH]; intros done off seqs Hlen Hoff Hdom Hsum;
    [simpl in Hlen; lia|]. simpl in Hsum.
  destruct (Hdom id ltac:(left)) as [st Hst]. rewrite (segment_length_at _ _ _ _ _ Hst) in Hsum.
  destruct seqs as [|sq seqs]; simpl in *.
  - destruct ids; [|simpl in Hlen; lia]. simpl in Hsum. unfold checked_add in Hsum.
    destruct (_ <=? _); [|done]. simpl in Hsum. injection Hsum as <-.
    eexists. by apply segs_last.
  - rewrite <- Hoff in Hsum. destruct (Z.ltb_spec sq off); [done|].
    destruct (Z.ltb_spec (len (ts_events st)) (sq - off)); [done|]. simpl in Hsum.
    unfold checked_add in Hsum. destruct (_ <=? _); [|done]. simpl in Hsum.
    replace (off + (sq - off)) with sq in Hsum by lia. rewrite snoc_shift in Hsum.
    replace (S (length done)) with (length (done ++ [sq])) in Hsum by (rewrite length_app; simpl; lia).
    apply IH in Hsum as [ss Hs]; [|lia|by rewrite last_snoc|intros; apply Hdom; by right].
    eexists. by eapply segs_cons.
Qed.

(** So does the stitching loop. *)
Lemma collect_segments_inv cids done ids seqs acc all :
  length ids = S (length seqs) -> (forall x, x ∈ ids -> is_Some (tls !! x)) ->
  collect_segments s (MkForkChain cids (done ++ seqs)) (length done) ids acc = Ok all ->
  exists ss head, segs tls (default 0 (last done)) ids seqs ss head.
Proof.
  revert seqs done acc. induction ids as [|x ids IH]; intros seqs done acc Hlen Hdom Hcol;
    [simpl in Hlen; lia|]. simpl in Hcol. apply rbind_ok_inv in Hcol as (_ & _ & Hcol).
  apply rbind_ok_inv in Hcol as (n & Hn & Hcol). destruct (Hdom x ltac:(left)) as [xst Hx].
  rewrite (segment_length_at _ _ _ _ _ Hx) in Hn. destruct seqs as [|sq seqs]; simpl in *.
  - destruct ids; [|simpl in Hlen; lia]. do 2 eexists. by apply segs_last.
  - destruct (Z.ltb_spec sq (default 0 (last done))); [done|].
    destruct (Z.ltb_spec (len (ts_events xst)) (sq - default 0 (last done))); [done|].
    rewrite snoc_shift in Hcol.
    replace (S (length done)) with (length (done ++ [sq])) in Hcol by (rewrite length_app; simpl; lia).
    apply IH in Hcol as (ss & head & Hs); [|lia|intros; apply Hdom; by right].
    rewrite last_snoc in Hs. do 2 eexists. by eapply segs_cons.
Qed.

Section HashLoop.
Context `{Hasher} `{UlidText}.

Lemma chain_over_app h a b : chain_over h (a ++ b) = chain_over (chain_over h a) b.
Proof. apply fold_left_app. Qed.

Lemma hash_segments_segs cids done off ids seqs ss head at_seq hash :
  segs tls off ids seqs ss head -> off = default 0 (last done) -> off <= at_seq <= head ->
  hash_segments s (MkForkChain cids (done ++ seqs)) head at_seq (length done) ids off hash
  = chain_over hash (take (Z.to_nat (at_seq - off)) (concat ss)).
Proof.
  intros Hs. revert done hash. induction Hs as [off id st Hst|off id st sq ids seqs ss head Hst Hle Hl Hs IH];
    intros done hash Hoff Hat; simpl; rewrite Hst; cbn [from_option fc_fork_seqs];
    rewrite lookup_app_r, Nat.sub_diag by lia; simpl;
    rewrite take_while_seq_take by (lia || apply (so_seqs _ _ (Hstates _ _ Hst))).
  - rewrite Z.min_r by lia. rewrite (proj2 (Z.eqb_eq _ _)) by lia. by rewrite app_nil_r.
  - destruct (Z.le_gt_cases at_seq sq) as [Hcut|Hfull].
    + rewrite Z.min_r by lia. rewrite (proj2 (Z.eqb_eq _ _)) by lia.
      unfold len in Hl. rewrite take_app, length_take, take_take.
      replace (Z.to_nat (at_seq - off) - _)%nat with 0%nat by lia.
      rewrite take_0, app_nil_r. f_equal. f_equal. lia.
    + rewrite Z.min_l by lia. rewrite (proj2 (Z.eqb_neq _ _)) by lia.
      replace (off + (sq - off)) with sq by lia. rewrite snoc_shift.
      replace (S (length done)) with (length (done ++ [sq])) by (rewrite length_app; simpl; lia).
      rewrite IH by (rewrite ?last_snoc; simpl; lia || done). rewrite <- chain_over_app. f_equal.
      unfold len in Hl. rewrite take_app, length_take.
      rewrite (take_ge (take _ _)) by (rewrite length_take; lia). f_equal. f_equal. lia.
Qed.

End HashLoop.
End Loops.

(** ** The operations compute the history *)

Lemma wf_parent_exists tls id st p sq :
  timelines_wf tls -> tls !! id = Some st -> fork_point_of st = Some (p, sq) -> is_Some (tls !! p).
Proof. intros Hwf Hst Hfp. destruct (wf_parents _ Hwf _ _ _ _ Hst Hfp) as (hp & Hh & _). by eapply history_state. Qed.

Lemma wf_prefix_nonneg tls id st : timelines_wf tls -> tls !! id = Some st -> 0 <= prefix_of st.
Proof. intros Hwf Hst. exact (so_prefix _ _ (wf_states _ Hwf _ _ Hst)). Qed.

Lemma fork_chain_wf s id :
  timelines_wf (st_timelines s) -> is_Some (st_timelines s !! id) ->
  exists ids seqs, chain_of (st_timelines s) id ids seqs
    /\ fork_chain s id = Ok (MkForkChain ids seqs).
Proof.
  intros Hwf Hid. destruct (wf_rank _ Hwf) as [rank Hrank].
  destruct (chain_exists _ rank Hrank id) as (ids & seqs & Hc); [|done|].
  { intros ????. by eapply wf_parent_exists. }
  exists ids, seqs. split; [done|]. unfold fork_chain.
  pose proof (chain_fuel _ _ _ _ Hc (chain_of_NoDup _ rank Hrank _ _ _ Hc)).
  rewrite (fork_walk_chain _ rank Hrank _ _ _ _ _ _ _ Hc); [|lia|set_solver].
  simpl. by rewrite !app_nil_r.
Qed.

Lemma fork_chain_missing s id : st_timelines s !! id = None -> fork_chain s id = Err (TimelineNotFound id).
Proof. intros Hn. unfold fork_chain. simpl. by rewrite decide_False, Hn by set_solver. Qed.

Lemma history_bound s id h :
  timelines_wf (st_timelines s) -> history (st_timelines s) id h -> len h <= U64_MAX.
Proof.
  intros Hwf Hh. destruct (history_state _ _ _ Hh) as [st Hst].
  rewrite (history_len _ _ _ _ Hst (wf_prefix_nonneg _ _ _ Hwf Hst) Hh).
  exact (so_bound _ _ (wf_states _ Hwf _ _ Hst)).
Qed.

Lemma collect_history s id h range :
  timelines_wf (st_timelines s) -> history (st_timelines s) id h ->
  collect_events_in_range s id range = Ok (renumber_and_filter h range).
Proof.
  intros Hwf Hh. destruct (fork_chain_wf s id Hwf (history_state _ _ _ Hh)) as (ids & seqs & Hc & Hf).
  destruct (history_segs _ _ _ _ _ Hh Hc) as (ss & Hs & <-).
  unfold collect_events_in_range. rewrite Hf. simpl.
  pose proof (collect_segments_segs s (wf_states _ Hwf) ids [] 0 _ _ _ _ [] Hs eq_refl) as Hcol.
  simpl in Hcol. by rewrite Hcol.
Qed.

Lemma logical_head_history s id h :
  timelines_wf (st_timelines s) -> history (st_timelines s) id h ->
  logical_head_unchecked s id = Ok (len h).
Proof.
  intros Hwf Hh. destruct (fork_chain_wf s id Hwf (history_state _ _ _ Hh)) as (ids & seqs & Hc & Hf).
  destruct (history_segs _ _ _ _ _ Hh Hc) as (ss & Hs & Hcat).
  unfold logical_head_unchecked. rewrite Hf. simpl.
  exact (sum_lengths_segs s (wf_states _ Hwf) ids [] 0 _ _ _ _ Hs eq_refl (history_bound _ _ _ Hwf Hh)).
Qed.

Lemma logical_head_inv s id head :
  timelines_wf (st_timelines s) -> logical_head_unchecked s id = Ok head ->
  exists h, history (st_timelines s) id h /\ head = len h.
Proof.
  intros Hwf Hl. unfold logical_head_unchecked in Hl. ok_inv.
  destruct (st_timelines s !! id) as [st|] eqn:Hst; [|by rewrite fork_chain_missing in Hm].
  destruct (fork_chain_wf s id Hwf ltac:(by eexists)) as (ids & seqs & Hc & Hf).
  rewrite Hf in Hm. injection Hm as <-. simpl in Hk.
  destruct (sum_lengths_inv s (wf_states _ Hwf) ids [] 0 ids seqs head) as [ss Hs];
    [by eapply chain_of_length|done|intros; by eapply chain_of_in_dom|done|].
  exists (concat ss). eapply segs_history; [intros ???; by eapply wf_prefix_nonneg|done|done].
Qed.

Lemma chain_hash_history `{Hasher} `{UlidText} s id h at_seq :
  timelines_wf (st_timelines s) -> history (st_timelines s) id h -> 0 <= at_seq <= len h ->
  compute_chain_hash_at s id at_seq = Ok (chain_over genesis_hash (take (Z.to_nat at_seq) h)).
Proof.
  intros Hwf Hh Hat. destruct (fork_chain_wf s id Hwf (history_state _ _ _ Hh)) as (ids & seqs & Hc & Hf).
  destruct (history_segs _ _ _ _ _ Hh Hc) as (ss & Hs & <-).
  pose proof (sum_lengths_segs s (wf_states _ Hwf) ids [] 0 _ _ _ _ Hs eq_refl
    (history_bound _ _ _ Hwf Hh)) as Hsum. simpl in Hsum.
  unfold compute_chain_hash_at. rewrite Hf. cbn [rbind fc_timelines]. rewrite Hsum. simpl.
  destruct (Z.ltb_spec (len (concat ss)) at_seq); [lia|].
  destruct (Z.eqb_spec at_seq SEQ_ZERO) as [->|]; [done|].
  pose proof (hash_segments_segs s (wf_states _ Hwf) ids [] 0 _ _ _ _ at_seq genesis_hash Hs eq_refl Hat) as Hh2.
  rewrite Z.sub_0_r in Hh2. simpl in Hh2. by rewrite Hh2.
Qed.

Lemma collect_inv s id range evs :
  timelines_wf (st_timelines s) -> collect_events_in_range s id range = Ok evs ->
  exists h, history (st_timelines s) id h /\ evs = renumber_and_filter h range.
Proof.
  intros Hwf Hc. pose proof Hc as Hc'. unfold collect_events_in_range in Hc'.
  apply rbind_ok_inv in Hc' as (chain & Hf & Hc'). apply rbind_ok_inv in Hc' as (all & Hcol & _).
  destruct (st_timelines s !! id) as [st|] eqn:Hst; [|by rewrite fork_chain_missing in Hf].
  destruct (fork_chain_wf s id Hwf ltac:(by eexists)) as (ids & seqs & Hch & Hf').
  rewrite Hf' in Hf. injection Hf as <-. simpl in Hcol.
  destruct (collect_segments_inv s (wf_states _ Hwf) ids [] ids seqs [] all) as (ss & head & Hs);
    [by eapply chain_of_length|intros; by eapply chain_of_in_dom|done|].
  destruct (segs_history _ _ _ _ _ _ (fun i t => wf_prefix_nonneg _ i t Hwf) Hch Hs) as [Hh _].
  exists (concat ss). split; [done|]. rewrite (collect_history _ _ _ _ Hwf Hh) in Hc. congruence.
Qed.

Lemma chain_of_deterministic tls id ids1 seqs1 ids2 seqs2 :
  chain_of tls id ids1 seqs1 -> chain_of tls id ids2 seqs2 -> ids1 = ids2 /\ seqs1 = seqs2.
Proof.
  intros H1. revert ids2 seqs2. induction H1 as [id st Hst Hfp|id st p sq ids seqs Hst Hfp Hc IH];
    intros ids2 seqs2 H2; inversion H2; simplify_eq; [done|].
  match goal with H : chain_of tls p _ _ |- _ => destruct (IH _ _ H) as [-> ->] end. done.
Qed.
