(* ===== verification/StoreCorrect.v ===== *)
(** * Correctness of the Event store

    Every operation of [EventStore] preserves well-formedness; appending
    extends exactly one history, forking shares a prefix, and neither changes
    any other Timeline.  The store's chain heads are the hash chain of the
    history.  Reachable stores are the ones built by the public operations. *)

From Stdlib Require Import ZArith Lia Bool.
From S2P Require Import Prelude Text FallbackRecords ErasureGate Events EventStore StoreHistory.

Local Open Scope Z_scope.

(** ** Histories under the three kinds of update *)

Section Extend.
Context (tls : Timelines) (id : TimelineId) (st st' : TimelineState) (new : list Event).
Context (Hst : tls !! id = Some st).
Context (Hfp : fork_point_of st' = fork_point_of st).
Context (Hev : ts_events st' = ts_events st ++ new).

Abbreviation tls' := (<[id := st']> tls).
Definition ext (x : TimelineId) (h : list Event) : list Event :=
  if decide (x = id) then h ++ new else h.

Lemma extend_prefix : prefix_of st' = prefix_of st.
Proof. unfold prefix_of. by rewrite Hfp. Qed.

Lemma ext_self h : ext id h = h ++ new.
Proof. unfold ext. by rewrite decide_True. Qed.
Lemma ext_other x h : x <> id -> ext x h = h.
Proof. intros. unfold ext. by rewrite decide_False. Qed.
Lemma ext_len x h : len h <= len (ext x h).
Proof. unfold ext. destruct (decide (x = id)); [rewrite len_app; pose proof (len_nonneg new)|]; lia. Qed.
Lemma ext_take x h sq : sq <= len h -> take (Z.to_nat sq) (ext x h) = take (Z.to_nat sq) h.
Proof.
  unfold ext, len. intros. destruct (decide (x = id)); [|done]. rewrite take_app_le; [done|lia].
Qed.
Lemma ext_app x a b : ext x (a ++ b) = a ++ ext x b.
Proof. unfold ext. destruct (decide (x = id)); [by rewrite app_assoc|done]. Qed.

Lemma extend_lookup x xst : tls !! x = Some xst ->
  exists xst', tls' !! x = Some xst' /\ fork_point_of xst' = fork_point_of xst
    /\ prefix_of xst' = prefix_of xst /\ ts_events xst' = ext x (ts_events xst).
Proof.
  intros Hx. destruct (decide (x = id)) as [->|Hne].
  - rewrite Hst in Hx. injection Hx as <-. exists st'. rewrite lookup_insert_eq, ext_self.
    split_and!; [done|done|apply extend_prefix|done].
  - exists xst. by rewrite lookup_insert_ne, ext_other.
Qed.

Lemma history_extend x h : history tls x h -> history tls' x (ext x h).
Proof.
  induction 1 as [x xst Hx Hr|x xst p pst sq hp Hx Hf Hp Hh IH Hle].
  - destruct (extend_lookup _ _ Hx) as (xst' & Hx' & Hf' & _ & He').
    rewrite <- He'. apply history_root; [done|]. by rewrite Hf'.
  - destruct (extend_lookup _ _ Hx) as (xst' & Hx' & Hf' & _ & He').
    destruct (extend_lookup _ _ Hp) as (pst' & Hp' & _ & Hpre & _).
    rewrite ext_app, <- He', <- (ext_take p) by lia.
    eapply history_fork; [done|by rewrite Hf'|done|done|].
    rewrite Hpre. pose proof (ext_len p hp). lia.
Qed.

Lemma extend_lookup_inv x xst' : tls' !! x = Some xst' ->
  exists xst, tls !! x = Some xst /\ fork_point_of xst' = fork_point_of xst
    /\ prefix_of xst' = prefix_of xst.
Proof.
  intros Hx. destruct (decide (x = id)) as [->|Hne].
  - rewrite lookup_insert_eq in Hx. injection Hx as <-. exists st.
    split_and!; [done|done|apply extend_prefix].
  - rewrite lookup_insert_ne in Hx by done. by exists xst'.
Qed.

(** Nothing becomes readable by appending. *)
Lemma history_extend_inv x h' :
  timelines_wf tls -> history tls' x h' -> exists h, history tls x h /\ h' = ext x h.
Proof.
  intros Hwf Hh'. enough (exists h, history tls x h) as [h Hh].
  { exists h. split; [done|]. eapply history_deterministic; [done|]. by apply history_extend. }
  induction Hh' as [x xst' Hx Hr|x xst' p pst' sq hp' Hx Hf Hp Hh' [hp IH] Hle].
  - destruct (extend_lookup_inv _ _ Hx) as (xst & Hx0 & Hf0 & _).
    exists (ts_events xst). apply history_root; [done|]. by rewrite <- Hf0.
  - destruct (extend_lookup_inv _ _ Hx) as (xst & Hx0 & Hf0 & _). rewrite Hf in Hf0. symmetry in Hf0.
    destruct (extend_lookup_inv _ _ Hp) as (pst & Hp0 & _ & Hpre).
    destruct (wf_parents _ Hwf _ _ _ _ Hx0 Hf0) as (hp2 & Hhp2 & Hsq).
    eexists. eapply history_fork; [done|done|done|done|]. lia.
Qed.

Lemma timelines_wf_extend :
  timelines_wf tls -> state_ok id st' -> timelines_wf tls'.
Proof.
  intros Hwf Hok. split.
  - intros x xst Hx. destruct (decide (x = id)) as [->|Hne].
    + rewrite lookup_insert_eq in Hx. by simplify_eq.
    + rewrite lookup_insert_ne in Hx by done. by apply (wf_states _ Hwf).
  - intros x xst' p sq Hx Hf. destruct (extend_lookup_inv _ _ Hx) as (xst & Hx0 & Hf0 & _).
    rewrite Hf in Hf0. symmetry in Hf0. destruct (wf_parents _ Hwf _ _ _ _ Hx0 Hf0) as (hp & Hh & Hsq).
    exists (ext p hp). split; [by apply history_extend|]. pose proof (ext_len p hp). lia.
  - destruct (wf_rank _ Hwf) as [rank Hrank]. exists rank. intros x xst' p sq Hx Hf.
    destruct (extend_lookup_inv _ _ Hx) as (xst & Hx0 & Hf0 & _). rewrite Hf in Hf0. by eapply Hrank.
Qed.
End Extend.

Section Insert.
Context (tls : Timelines) (id : TimelineId) (st : TimelineState).
Context (Hnew : tls !! id = None).

Lemma insert_other x xst : tls !! x = Some xst -> <[id := st]> tls !! x = Some xst.
Proof. intros Hx. rewrite lookup_insert_ne; [done|]. congruence. Qed.

Lemma history_insert x h : history tls x h -> history (<[id := st]> tls) x h.
Proof.
  induction 1 as [x xst Hx Hr|x xst p pst sq hp Hx Hf Hp Hh IH Hle].
  - apply history_root; [by apply insert_other|done].
  - eapply history_fork; [by apply insert_other|done|by apply insert_other|done|done].
Qed.

Lemma history_insert_inv x h :
  timelines_wf tls -> x <> id -> history (<[id := st]> tls) x h -> history tls x h.
Proof.
  intros Hwf Hne Hh. revert Hne. induction Hh as [x xst Hx Hr|x xst p pst sq hp Hx Hf Hp Hh IH Hle]; intros Hne.
  - rewrite lookup_insert_ne in Hx by done. by apply history_root.
  - rewrite lookup_insert_ne in Hx by done.
    assert (p <> id) by (intros ->; destruct (wf_parent_exists _ _ _ _ _ Hwf Hx Hf) as [? ?]; congruence).
    rewrite lookup_insert_ne in Hp by done. eapply history_fork; eauto.
Qed.

Lemma timelines_wf_insert :
  timelines_wf tls -> state_ok id st ->
  (forall p sq, fork_point_of st = Some (p, sq) -> exists hp, history tls p hp /\ sq <= len hp) ->
  timelines_wf (<[id := st]> tls).
Proof.
  intros Hwf Hok Hpar. split.
  - intros x xst Hx. destruct (decide (x = id)) as [->|Hne].
    + rewrite lookup_insert_eq in Hx. by simplify_eq.
    + rewrite lookup_insert_ne in Hx by done. by apply (wf_states _ Hwf).
  - intros x xst p sq Hx Hf. destruct (decide (x = id)) as [->|Hne].
    + rewrite lookup_insert_eq in Hx. injection Hx as <-.
      destruct (Hpar _ _ Hf) as (hp & Hh & Hsq).
      exists hp. split; [by apply history_insert|done].
    + rewrite lookup_insert_ne in Hx by done. destruct (wf_parents _ Hwf _ _ _ _ Hx Hf) as (hp & Hh & Hsq).
      exists hp. split; [by apply history_insert|done].
  - destruct (wf_rank _ Hwf) as [rank Hrank].
    set (top := match fork_point_of st with Some (p, _) => S (rank p) | None => 0%nat end).
    exists (fun x => if decide (x = id) then top else rank x). intros x xst p sq Hx Hf.
    assert (p <> id).
    { intros ->. destruct (decide (x = id)) as [->|Hne].
      - rewrite lookup_insert_eq in Hx. injection Hx as <-. destruct (Hpar _ _ Hf) as (hp & Hh & _).
        destruct (history_state _ _ _ Hh) as [? ?]. congruence.
      - rewrite lookup_insert_ne in Hx by done.
        destruct (wf_parent_exists _ _ _ _ _ Hwf Hx Hf) as [? ?]. congruence. }
    rewrite (decide_False (P := p = id)) by done. destruct (decide (x = id)) as [->|Hne].
    + rewrite lookup_insert_eq in Hx. injection Hx as <-. unfold top. rewrite Hf. lia.
    + rewrite lookup_insert_ne in Hx by done. by eapply Hrank.
Qed.
End Insert.

Section Delete.
Context (tls : Timelines) (id : TimelineId).
Context (Hleaf : forall x xst p sq, tls !! x = Some xst -> fork_point_of xst = Some (p, sq) -> p <> id).

Lemma history_delete x h : x <> id -> history tls x h -> history (base.delete id tls) x h.
Proof.
  intros Hne Hh. revert Hne. induction Hh as [x xst Hx Hr|x xst p pst sq hp Hx Hf Hp Hh IH Hle]; intros Hne.
  - apply history_root; [by rewrite lookup_delete_ne|done].
  - pose proof (Hleaf _ _ _ _ Hx Hf).
    eapply history_fork; [by rewrite lookup_delete_ne|done|by rewrite lookup_delete_ne|by apply IH|done].
Qed.

Lemma history_delete_inv x h : history (base.delete id tls) x h -> history tls x h.
Proof.
  induction 1 as [x xst Hx Hr|x xst p pst sq hp Hx Hf Hp Hh IH Hle].
  - apply lookup_delete_Some in Hx as [_ Hx]. by apply history_root.
  - apply lookup_delete_Some in Hx as [_ Hx]. apply lookup_delete_Some in Hp as [_ Hp].
    eapply history_fork; eauto.
Qed.

Lemma timelines_wf_delete : timelines_wf tls -> timelines_wf (base.delete id tls).
Proof.
  intros Hwf. split.
  - intros x xst Hx. apply lookup_delete_Some in Hx as [_ Hx]. by apply (wf_states _ Hwf).
  - intros x xst p sq Hx Hf. apply lookup_delete_Some in Hx as [_ Hx].
    destruct (wf_parents _ Hwf _ _ _ _ Hx Hf) as (hp & Hh & Hsq). exists hp. split; [|done].
    apply history_delete; [by eapply Hleaf|done].
  - destruct (wf_rank _ Hwf) as [rank Hrank]. exists rank. intros x xst p sq Hx Hf.
    apply lookup_delete_Some in Hx as [_ Hx]. by eapply Hrank.
Qed.
End Delete.

(** ** The store invariant *)

Section Correct.
Context `{Hasher} `{UlidText}.

(** Every readable Timeline's chain head is the hash chain of its history. *)
Definition chain_ok (tls : Timelines) : Prop :=
  forall id st h, tls !! id = Some st -> history tls id h ->
    ts_chain_head st = chain_over genesis_hash h.

Definition store_ok (s : Store) : Prop :=
  timelines_wf (st_timelines s) /\ chain_ok (st_timelines s).

(** One Timeline state grew by [new]. *)
Record extends (id : TimelineId) (st st' : TimelineState) (new : list Event) : Prop := {
  ex_meta : tl_meta (ts_timeline st') = tl_meta (ts_timeline st);
  ex_events : ts_events st' = ts_events st ++ new;
  ex_chain : ts_chain_head st' = chain_over (ts_chain_head st) new;
  ex_ok : state_ok id st';
}.

Lemma extends_fork_point id st st' new : extends id st st' new -> fork_point_of st' = fork_point_of st.
Proof. intros He. unfold fork_point_of. by rewrite (ex_meta _ _ _ _ He). Qed.

Lemma extends_refl id st : state_ok id st -> extends id st st [].
Proof. intros Hok. split; [done|by rewrite app_nil_r|done|done]. Qed.

Lemma extends_trans id st1 st2 st3 n1 n2 :
  extends id st1 st2 n1 -> extends id st2 st3 n2 -> extends id st1 st3 (n1 ++ n2).
Proof.
  intros H1 H2. split.
  - by rewrite (ex_meta _ _ _ _ H2), (ex_meta _ _ _ _ H1).
  - by rewrite (ex_events _ _ _ _ H2), (ex_events _ _ _ _ H1), app_assoc.
  - by rewrite (ex_chain _ _ _ _ H2), (ex_chain _ _ _ _ H1), chain_over_app.
  - by apply (ex_ok _ _ _ _ H2).
Qed.

(** Replacing one Timeline's state by an extension keeps the invariant. *)
Lemma store_ok_extend tls id st st' new :
  timelines_wf tls -> chain_ok tls -> tls !! id = Some st -> extends id st st' new ->
  timelines_wf (<[id := st']> tls) /\ chain_ok (<[id := st']> tls).
Proof.
  intros Hwf Hch Hst He. pose proof (extends_fork_point _ _ _ _ He) as Hfp.
  pose proof (ex_events _ _ _ _ He) as Hev. split.
  - eapply timelines_wf_extend; eauto. by apply (ex_ok _ _ _ _ He).
  - intros x xst h' Hx Hh'.
    destruct (history_extend_inv _ _ _ _ _ Hst Hfp Hev _ _ Hwf Hh') as (h & Hh & ->).
    destruct (decide (x = id)) as [->|Hne].
    + rewrite lookup_insert_eq in Hx. injection Hx as <-.
      rewrite ext_self, (ex_chain _ _ _ _ He), chain_over_app. by rewrite (Hch _ _ _ Hst Hh).
    + rewrite lookup_insert_ne in Hx by done. rewrite ext_other by done. by eapply Hch.
Qed.

(** ** Appending drafts *)

(** The Event a draft becomes at own sequence [seq] of Timeline [id]. *)
Definition committed_event (id : TimelineId) (prefix seq : Z) (d : FreshDraft) : Event :=
  let draft := fd_draft d in
  MkEvent (fd_id d) (draft_entity draft) (draft_event_type draft) (draft_payload draft)
    (default (fd_now d) (draft_wall_time draft)) seq (draft_causation_id draft)
    (draft_correlation_id draft) None None (Some (MkOrigin id (prefix + seq)))
    (hash_payload (draft_payload draft)).

Fixpoint committed_events (id : TimelineId) (prefix head : Z) (ds : list FreshDraft) : list Event :=
  match ds with
  | [] => []
  | d :: rest => committed_event id prefix (head + 1) d :: committed_events id prefix (head + 1) rest
  end.

Lemma seq_next_small z : 0 <= z < U64_MAX -> seq_next z = z + 1.
Proof.
  intros Hz. unfold seq_next. rewrite Cbor.u64_wrap_mod. apply Z.mod_small.
  unfold U64_MAX in Hz. lia.
Qed.

Lemma state_ok_snoc id st e ch :
  state_ok id st -> ev_seq e = len (ts_events st) + 1 ->
  prefix_of st + ev_seq e <= U64_MAX ->
  state_ok id (commit_prepared_to_state st e ch).
Proof.
  intros [Hid Hseq Hhead Hpos Hb] He Hmax. split; simpl.
  - done.
  - intros i x Hx. apply lookup_app_Some in Hx as [Hx|[Hge Hx]]; [by apply Hseq|].
    apply list_lookup_singleton_Some in Hx as [Hi <-]. rewrite He. unfold len. lia.
  - rewrite len_app. cbn. unfold len. simpl. unfold len in He. lia.
  - done.
  - rewrite len_app. change (len [e]) with 1. change (prefix_of (commit_prepared_to_state st e ch)) with (prefix_of st). lia.
Qed.

Lemma append_one_spec id st d reg st' r :
  state_ok id st -> len (ts_events st) + 1 <= U64_MAX ->
  append_one_to_state st d reg = (st', r) ->
  (exists err, r = Err err /\ st' = st) \/
  (r = Ok (committed_event id (prefix_of st) (len (ts_events st) + 1) d)
   /\ extends id st st' [committed_event id (prefix_of st) (len (ts_events st) + 1) d]).
Proof.
  intros Hok Hroom Ha. unfold append_one_to_state in Ha.
  destruct (prepare_one_for_state st d reg) as [[e ch]|err] eqn:Hp; [right|left; naive_solver].
  injection Ha as <- <-. unfold prepare_one_for_state, checked_logical_head in Hp. ok_inv.
  rewrite (so_head _ _ Hok), (so_id _ _ Hok) in *. pose proof (len_nonneg (ts_events st)).
  rewrite seq_next_small in * by lia.
  unfold checked_add in *. destruct (Z.leb_spec (prefix_of st + (len (ts_events st) + 1)) U64_MAX); [|done].
  simplify_eq. split; [done|]. split; try done. by apply state_ok_snoc.
Qed.

Lemma extends_prefix id st st' new : extends id st st' new -> prefix_of st' = prefix_of st.
Proof. intros He. unfold prefix_of. by rewrite (extends_fork_point _ _ _ _ He). Qed.

Lemma append_all_spec id st ds reg st' r :
  state_ok id st -> len (ts_events st) + len ds <= U64_MAX ->
  append_all_to_state st ds reg = (st', r) ->
  exists new, extends id st st' new
    /\ (exists k, new = committed_events id (prefix_of st) (len (ts_events st)) (take k ds))
    /\ forall events, r = Ok events ->
         events = committed_events id (prefix_of st) (len (ts_events st)) ds /\ new = events.
Proof.
  revert st st' r. induction ds as [|d ds IH]; intros st st' r Hok Hroom Ha; simpl in Ha.
  - injection Ha as <- <-. exists []. split; [by apply extends_refl|].
    split; [by exists 0%nat|]. naive_solver.
  - rewrite len_cons in Hroom. pose proof (len_nonneg ds).
    destruct (append_one_to_state st d reg) as [st1 r1] eqn:Hone.
    apply (append_one_spec id) in Hone as [(err & -> & ->)|(-> & He1)]; [| |done|lia].
    + injection Ha as <- <-. exists []. split; [by apply extends_refl|]. split; [by exists 0%nat|]. done.
    + destruct (append_all_to_state st1 ds reg) as [st2 r2] eqn:Hall. injection Ha as <- <-.
      pose proof (ex_events _ _ _ _ He1) as Hev1.
      assert (Hl1 : len (ts_events st1) = len (ts_events st) + 1) by (rewrite Hev1, len_app; done).
      apply IH in Hall as (new & He2 & [k Hk] & Hr2); [|by apply (ex_ok _ _ _ _ He1)|lia].
      rewrite (extends_prefix _ _ _ _ He1), Hl1 in Hk.
      eexists. split; [by eapply extends_trans|]. split; [exists (S k); by rewrite Hk|]. intros events Hev. ok_inv.
      destruct (Hr2 _ eq_refl) as [-> ->]. rewrite (extends_prefix _ _ _ _ He1), Hl1. done.
Qed.

(** ** Fences *)

Lemma with_erasure_fence_on_cases {S A} (get : S -> Store) t op
    (effect : S -> S * result CoreError A) s s' r :
  with_erasure_fence_on get t op effect s = (s', r) ->
  (s' = s /\ exists e, r = Err e) \/ effect s = (s', r).
Proof.
  unfold with_erasure_fence_on. destruct (validated_erasure_gate (get s)) as [g|e]; [|naive_solver].
  rewrite with_fence_spec. destruct (gate_authorize g t op) as [[]|e]; simpl.
  - destruct (effect s) as [s1 r1]. simpl. naive_solver.
  - intros [= <- <-]. left. split; [done|]. by destruct e; eexists.
Qed.

Lemma with_erasure_fence_cases {A} t op (effect : Store -> Write A) s s' r :
  with_erasure_fence t op effect s = (s', r) ->
  (s' = s /\ exists e, r = Err e) \/ effect s = (s', r).
Proof. apply with_erasure_fence_on_cases. Qed.

Lemma with_erasure_read_fence_ok {A} t op (effect : Store -> Read A) s a :
  with_erasure_read_fence t op effect s = Ok a -> effect s = Ok a.
Proof.
  unfold with_erasure_read_fence. intros Hr. apply rbind_ok_inv in Hr as (g & _ & Hr).
  rewrite with_fence_spec in Hr. destruct (gate_authorize g t op) as [[]|e]; simpl in Hr; ok_inv; done.
Qed.

(** With the store's gate valid and authorizing, the read fence is transparent. *)
Lemma with_erasure_read_fence_open {A} t op (effect : Store -> Read A) s g :
  validated_erasure_gate s = Ok g -> gate_authorize g t op = Ok tt ->
  with_erasure_read_fence t op effect s = effect s.
Proof.
  intros Hg Ha. unfold with_erasure_read_fence. rewrite Hg. simpl. rewrite with_fence_spec, Ha. simpl.
  unfold validated_erasure_gate in Hg. ok_inv. by rewrite Hm0.
Qed.

(** ** Append *)

Lemma store_ok_set_event_ids s f : store_ok s -> store_ok (set_event_ids f s).
Proof. done. Qed.

(** What any append does to the Timelines, also when it fails midway. *)
Lemma guarded_append_spec s id ds s' r :
  store_ok s ->
  (forall st, st_timelines s !! id = Some st -> len (ts_events st) + len ds <= U64_MAX) ->
  guarded_generic_append s id ds = (s', r) ->
  (st_timelines s' = st_timelines s /\ exists e, r = Err e) \/
  exists st st' new, st_timelines s !! id = Some st
    /\ st_timelines s' = <[id := st']> (st_timelines s)
    /\ extends id st st' new
    /\ (exists k, new = committed_events id (prefix_of st) (len (ts_events st)) (take k ds))
    /\ forall events, r = Ok events ->
         new = committed_events id (prefix_of st) (len (ts_events st)) ds
         /\ try_map (logical_event (prefix_of st)) new = Ok events.
Proof.
  intros [Hwf Hch] Hroom Ha. unfold guarded_generic_append in Ha.
  destruct (rbind _ _) as [_|e] in Ha; [|left; naive_solver].
  unfold append_visible, logical_prefix, timeline in Ha.
  destruct (st_timelines s !! id) as [st|] eqn:Hst; simpl in Ha; [|left; naive_solver].
  unfold append_visible_with_prefix in Ha.
  destruct (try_for_each _ ds) as [_|e] in Ha; [|left; naive_solver]. rewrite Hst in Ha.
  destruct (append_all_to_state st ds (st_key_registry s)) as [st' committed] eqn:Hall.
  destruct (append_all_spec id st ds _ _ _ (wf_states _ Hwf _ _ Hst) (Hroom _ eq_refl) Hall)
    as (new & Hex & Hk & Hok).
  right. exists st, st', new. destruct committed as [events|e]; injection Ha as <- <-.
  - destruct (Hok _ eq_refl) as [Hc ->]. by split_and!.
  - by split_and!.
Qed.

Lemma guarded_append_store_ok s id ds s' r :
  store_ok s ->
  (forall st, st_timelines s !! id = Some st -> len (ts_events st) + len ds <= U64_MAX) ->
  guarded_generic_append s id ds = (s', r) -> store_ok s'.
Proof.
  intros Hok Hroom Ha. destruct (guarded_append_spec _ _ _ _ _ Hok Hroom Ha)
    as [[Heq _]|(st & st' & new & Hst & Heq & Hex & _)]; unfold store_ok; rewrite Heq; [done|].
  destruct Hok as [Hwf Hch]. by eapply store_ok_extend.
Qed.

(** ** Committed append *)

Lemma validate_ordered_seqs expected seen taken events :
  0 <= expected -> expected + len events <= U64_MAX + 1 ->
  validate_ordered expected seen taken events = Ok tt ->
  forall i e, events !! i = Some e -> ev_seq e = expected + Z.of_nat i.
Proof.
  revert expected seen. induction events as [|x events IH]; intros expected seen Hpos Hmax Hv i e He;
    [done|]. simpl in Hv. rewrite len_cons in Hmax. ok_inv.
  destruct (ev_seq x =? 0); [done|]. destruct (Z.eqb_spec (ev_seq x) expected) as [Hx|]; [|done].
  simpl in Hk. destruct (_ || _); [done|]. destruct (negb _); [done|].
  destruct i as [|i]; simpl in He; [injection He as <-; lia|].
  destruct (decide (events = [])) as [->|Hne]; [done|].
  assert (0 < len events) by (destruct events; [done|rewrite len_cons; pose proof (len_nonneg events); lia]).
  rewrite seq_next_small in Hk by lia. rewrite (IH (expected + 1) _ ltac:(lia) ltac:(lia) Hk i e He). lia.
Qed.

Lemma finalize_origins_spec id prefix events events' :
  finalize_committed_origins id prefix events = Ok events' ->
  Forall2 (fun e e' => e' = with_origin (MkOrigin id (prefix + ev_seq e)) e
                       /\ prefix + ev_seq e <= U64_MAX) events events'.
Proof.
  revert events'. induction events as [|e events IH]; intros events' Hf; simpl in Hf.
  - injection Hf as <-. constructor.
  - unfold checked_logical_head, checked_add in Hf. apply rbind_ok_inv in Hf as (q & Hq & Hf).
    apply ok_or_ok_inv in Hq. destruct (Z.leb_spec (prefix + ev_seq e) U64_MAX); [|done].
    injection Hq as <-. cbv zeta in Hf. match type of Hf with (if ?b then _ else _) = _ => destruct b; [done|] end.
    ok_inv. constructor; [done|]. by apply IH.
Qed.

Lemma length_insert_by_seq e l : length (insert_by_seq e l) = S (length l).
Proof. induction l as [|y l IH]; simpl; [done|]. destruct (_ <? _); simpl; lia. Qed.

Lemma length_sort_by_seq l : length (sort_by_seq l) = length l.
Proof.
  unfold sort_by_seq. assert (Hg : forall acc, length (fold_left (fun acc e => insert_by_seq e acc) l acc)
    = (length acc + length l)%nat); [|by rewrite Hg].
  induction l as [|x l IH]; intros acc; simpl; [lia|]. rewrite IH, length_insert_by_seq. lia.
Qed.

Lemma fold_last_seq (events : list Event) z :
  fold_left (fun _ e => ev_seq e) events z = default z (ev_seq <$> last events).
Proof.
  revert z. induction events as [|e events IH]; intros z; simpl; [done|]. rewrite IH.
  destruct events as [|y events]; [done|]. rewrite last_cons_cons. by destruct (last (y :: events)) eqn:Hl; [|apply last_None in Hl].
Qed.

Lemma append_committed_extends s id st events ordered final :
  state_ok id st -> len (ts_events st) + len events <= U64_MAX -> events <> [] ->
  validate_committed_batch (tl_head (ts_timeline st)) events
    (fun eid => bool_decide (eid ∈ st_event_ids s)) = Ok ordered ->
  finalize_committed_origins id (prefix_of st) ordered = Ok final ->
  extends id st
    (MkTimelineState
       (MkTimeline (tl_meta (ts_timeline st))
          (fold_left (fun _ e => ev_seq e) final (tl_head (ts_timeline st))))
       (ts_events st ++ final) (chain_over (ts_chain_head st) final)) final.
Proof.
  intros Hok Hroom Hne Hv Hf. pose proof (len_nonneg (ts_events st)) as Hl0.
  assert (Hord : validate_ordered (seq_next (tl_head (ts_timeline st))) ∅
      (fun eid => bool_decide (eid ∈ st_event_ids s)) ordered = Ok tt /\ length ordered = length events).
  { unfold validate_committed_batch in Hv. destruct events; [done|]. ok_inv.
    split; [done|]. apply length_sort_by_seq. }
  destruct Hord as [Hord Hlen]. rewrite (so_head _ _ Hok) in Hord.
  assert (Hpos : 0 < len events) by (destruct events; [done|rewrite len_cons; pose proof (len_nonneg events); lia]).
  rewrite seq_next_small in Hord by lia.
  apply finalize_origins_spec in Hf. pose proof (Forall2_length _ _ _ Hf) as Hlf.
  assert (Hseq : forall i e, final !! i = Some e ->
      ev_seq e = len (ts_events st) + 1 + Z.of_nat i /\ prefix_of st + ev_seq e <= U64_MAX).
  { intros i e He. destruct (Forall2_lookup_r _ _ _ _ _ Hf He) as (e0 & He0 & -> & Hb). simpl.
    split; [|done]. eapply validate_ordered_seqs; [| |exact Hord|exact He0]; [lia|].
    unfold len in *. lia. }
  assert (Hlast : exists e, last final = Some e /\ ev_seq e = len (ts_events st) + len final).
  { destruct (last final) as [e|] eqn:Hl.
    - exists e. split; [done|]. rewrite last_lookup in Hl. apply Hseq in Hl as [-> _].
      unfold len in *. lia.
    - apply last_None in Hl as ->. simpl in Hlf. unfold len in Hpos. lia. }
  destruct Hlast as (le & Hle & Hles).
  split; simpl; try done. destruct Hok as [Hid Hs Hh Hp Hb]. split; simpl.
  - done.
  - intros i e He. apply lookup_app_Some in He as [He|[Hge He]]; [by apply Hs|].
    apply Hseq in He as [-> _]. unfold len. lia.
  - rewrite fold_last_seq, Hle, len_app. simpl. lia.
  - done.
  - rewrite len_app. change (prefix_of (MkTimelineState _ _ _)) with (prefix_of st).
    rewrite last_lookup in Hle. apply Hseq in Hle as [_ Hb2]. lia.
Qed.

Lemma insert_by_seq_perm e l : insert_by_seq e l ≡ₚ e :: l.
Proof.
  induction l as [|y l IH]; simpl; [done|]. destruct (_ <? _); [done|]. rewrite IH. apply perm_swap.
Qed.

Lemma sort_by_seq_perm l : sort_by_seq l ≡ₚ l.
Proof.
  unfold sort_by_seq. assert (Hg : forall acc, fold_left (fun acc e => insert_by_seq e acc) l acc ≡ₚ acc ++ l);
    [|by rewrite Hg].
  induction l as [|x l IH]; intros acc; simpl; [by rewrite app_nil_r|].
  rewrite IH, insert_by_seq_perm. apply Permutation_middle.
Qed.

(** The Events a committed batch becomes: the given ones in some order, each
    with its origin on Timeline [id] set. *)
Definition committed_as (id : TimelineId) (events new : list Event) : Prop :=
  exists sorted, sorted ≡ₚ events
    /\ Forall2 (fun e e' => exists n, e' = with_origin (MkOrigin id n) e) sorted new.

Lemma append_committed_body_ok s id events s' :
  store_ok s ->
  (forall st, st_timelines s !! id = Some st -> len (ts_events st) + len events <= U64_MAX) ->
  append_committed_body s id events = Ok s' ->
  store_ok s' /\
  exists new, committed_as id events new
    /\ (forall x h, history (st_timelines s) x h -> history (st_timelines s') x (ext id new x h))
    /\ forall x h', history (st_timelines s') x h' -> exists h, history (st_timelines s) x h.
Proof.
  intros [Hwf Hch] Hroom Ha. unfold append_committed_body in Ha.
  apply rbind_ok_inv in Ha as ([] & _ & Ha). apply rbind_ok_inv in Ha as ([] & _ & Ha).
  apply rbind_ok_inv in Ha as ([] & _ & Ha). destruct events as [|e0 events].
  { injection Ha as <-. split; [done|]. exists []. split_and!; [by exists []| |by eauto]. intros x h Hh.
    unfold ext. destruct (decide _); by rewrite ?app_nil_r. }
  apply rbind_ok_inv in Ha as (st & Hst & Ha). apply ok_or_ok_inv in Hst.
  apply rbind_ok_inv in Ha as (ordered & Hv & Ha). apply rbind_ok_inv in Ha as (final & Hf & Ha).
  injection Ha as <-.
  pose proof (append_committed_extends s id st _ _ _ (wf_states _ Hwf _ _ Hst) (Hroom _ Hst)
    ltac:(done) Hv Hf) as Hex.
  destruct (store_ok_extend _ _ _ _ _ Hwf Hch Hst Hex) as [Hwf' Hch'].
  split; [by split|]. exists final. split_and!.
  - apply finalize_origins_spec in Hf. unfold validate_committed_batch in Hv.
    apply rbind_ok_inv in Hv as (? & _ & [= <-]). exists (sort_by_seq (e0 :: events)).
    split; [apply sort_by_seq_perm|]. eapply Forall2_impl; [exact Hf|]. naive_solver.
  - intros x h Hh. apply (history_extend _ _ _ _ _ Hst (extends_fork_point _ _ _ _ Hex) eq_refl x h Hh).
  - intros x h' Hh'. simpl in Hh'.
    destruct (history_extend_inv _ _ _ _ _ Hst (extends_fork_point _ _ _ _ Hex) eq_refl x h' Hwf Hh')
      as (h & Hh & _). by exists h.
Qed.

(** ** Creating, forking, deleting *)

Definition new_timeline_cond (s : Store) (meta : TimelineMeta) (hash : Hash) : Prop :=
  match meta_fork_point meta with
  | None => hash = genesis_hash
  | Some (p, sq) => 0 <= sq /\ exists hp, history (st_timelines s) p hp /\ sq <= len hp
      /\ hash = chain_over genesis_hash (take (Z.to_nat sq) hp)
  end.

Lemma new_timeline_ok s meta hash :
  store_ok s -> st_timelines s !! meta_id meta = None -> new_timeline_cond s meta hash ->
  store_ok (set_timelines (insert (meta_id meta) (timeline_state_new (timeline_new meta) hash)) s).
Proof.
  intros [Hwf Hch] Hnew Hcond. set (st := timeline_state_new (timeline_new meta) hash).
  unfold store_ok, new_timeline_cond in *.
  change (st_timelines (set_timelines _ s)) with (<[meta_id meta := st]> (st_timelines s)). split.
  - apply timelines_wf_insert; [done|done| |].
    + split; try done; unfold prefix_of, fork_point_of; simpl;
        destruct (meta_fork_point meta) as [[p sq]|]; try done; [by destruct Hcond|].
      destruct Hcond as (Hpos & hp & Hh & Hsq & _). pose proof (history_bound _ _ _ Hwf Hh).
      rewrite len_nil. lia.
    + intros p sq Hfp. change (fork_point_of st) with (meta_fork_point meta) in Hfp.
      rewrite Hfp in Hcond. destruct Hcond as (_ & hp & Hh & Hsq & _). by exists hp.
  - intros x xst h Hx Hh. destruct (decide (x = meta_id meta)) as [->|Hne].
    + rewrite lookup_insert_eq in Hx. injection Hx as <-.
      inversion Hh as [? st' Hst' Hfp|? st' p pst sq hp Hst' Hfp Hp Hhp Hle];
        rewrite lookup_insert_eq in Hst'; injection Hst' as <-;
        change (fork_point_of st) with (meta_fork_point meta) in Hfp; rewrite Hfp in Hcond; [done|].
      destruct Hcond as (_ & hp' & Hh' & Hsq & Hhash).
      assert (p <> meta_id meta) by (intros ->; destruct (history_state _ _ _ Hh'); congruence).
      apply history_insert_inv in Hhp; [|done..].
      rewrite (history_deterministic _ _ _ _ Hhp Hh'). simpl. by rewrite app_nil_r.
    + rewrite lookup_insert_ne in Hx by done. apply history_insert_inv in Hh; [|done..]. by eapply Hch.
Qed.

(** The parent checks of [fork] and [create_timeline_with_meta]. *)
Lemma fork_hash_cond s p sq hash :
  store_ok s -> 0 <= sq ->
  (let? parent_head := logical_head_unchecked s p in
   if parent_head <? sq then Err (ForkBeyondHead sq parent_head)
   else compute_chain_hash_at s p sq) = Ok hash ->
  exists hp, history (st_timelines s) p hp /\ sq <= len hp
    /\ hash = chain_over genesis_hash (take (Z.to_nat sq) hp).
Proof.
  intros [Hwf _] Hpos Hf. apply rbind_ok_inv in Hf as (head & Hhead & Hf).
  apply logical_head_inv in Hhead as (hp & Hh & ->); [|done].
  destruct (Z.ltb_spec (len hp) sq); [done|]. exists hp. split_and!; [done|done|].
  rewrite (chain_hash_history _ _ hp) in Hf by done || lia. congruence.
Qed.

Lemma fork_unchecked_spec s id p sq name s' r :
  store_ok s -> 0 <= sq -> st_timelines s !! id = None ->
  fork_timeline_unchecked s id p sq name = (s', r) ->
  (s' = s /\ exists e, r = Err e) \/
  (store_ok s' /\ exists tl hp, r = Ok tl /\ timeline_id tl = id
     /\ history (st_timelines s) p hp /\ sq <= len hp
     /\ meta_fork_point (tl_meta tl) = Some (p, sq)
     /\ st_timelines s' = <[id := timeline_state_new tl
          (chain_over genesis_hash (take (Z.to_nat sq) hp))]> (st_timelines s)).
Proof.
  intros Hok Hpos Hnew Hf. unfold fork_timeline_unchecked in Hf.
  destruct (rbind _ _) as [hash|e] eqn:Hh in Hf; [|left; naive_solver].
  destruct (fork_hash_cond _ _ _ _ Hok Hpos Hh) as (hp & Hhp & Hsq & ->). right.
  set (meta := match _ with None => _ | Some _ => _ end) in Hf. injection Hf as <- <-.
  assert (Hmeta : meta_id meta = id /\ meta_fork_point meta = Some (p, sq))
    by (unfold meta; by destruct (_ ≫= _)).
  destruct Hmeta as [Hid Hfp]. split.
  - rewrite <- Hid in *. apply new_timeline_ok; [done|done|].
    unfold new_timeline_cond. rewrite Hfp. split; [done|]. by exists hp.
  - exists (timeline_new meta), hp. by split_and!.
Qed.

Lemma create_with_meta_unchecked_ok s meta s' r :
  store_ok s -> (forall p sq, meta_fork_point meta = Some (p, sq) -> 0 <= sq) ->
  create_timeline_with_meta_unchecked s meta = (s', r) -> store_ok s'.
Proof.
  intros Hok Hpos Hc. unfold create_timeline_with_meta_unchecked in Hc.
  match type of Hc with context [match ?m with Ok _ => _ | Err _ => _ end] => destruct m as [hash|e] eqn:Hm end;
    [|naive_solver].
  destruct (bool_decide_reflect (is_Some (st_timelines s !! meta_id meta))) as [?|Hn]; [naive_solver|].
  injection Hc as <- <-. apply new_timeline_ok; [done|by apply eq_None_not_Some|].
  unfold new_timeline_cond. destruct (meta_fork_point meta) as [[p sq]|]; [|naive_solver].
  split; [by eapply Hpos|]. apply rbind_ok_inv in Hm as ([] & _ & Hm).
  by eapply fork_hash_cond; [|by eapply Hpos|].
Qed.

Lemma has_child_false tls id :
  has_child_timeline tls id = false ->
  forall x xst p sq, tls !! x = Some xst -> fork_point_of xst = Some (p, sq) -> p <> id.
Proof.
  intros Hc x xst p sq Hx Hf ->. apply not_true_iff_false in Hc. apply Hc.
  apply existsb_exists. exists (x, xst). split; [by apply list_elem_of_In, elem_of_map_to_list|].
  simpl. rewrite Hf. by apply bool_decide_eq_true.
Qed.

Lemma delete_visible_ok s id s' r :
  store_ok s -> delete_visible_timeline s id = (s', r) ->
  (s' = s /\ exists e, r = Err e) \/
  (store_ok s' /\ r = Ok tt /\ is_Some (st_timelines s !! id)
   /\ st_timelines s' = base.delete id (st_timelines s)
   /\ forall x h, x <> id -> history (st_timelines s) x h -> history (st_timelines s') x h).
Proof.
  intros [Hwf Hch] Hd. unfold delete_visible_timeline, ensure_timeline_deletable in Hd.
  destruct (has_child_timeline (st_timelines s) id) eqn:Hc; [left; naive_solver|].
  destruct (_ && _); [left; naive_solver|].
  destruct (st_timelines s !! id) as [st|] eqn:Hst; [right|left; naive_solver].
  injection Hd as <- <-. pose proof (has_child_false _ _ Hc) as Hleaf. unfold store_ok. simpl. split_and!; try done.
  - by apply timelines_wf_delete.
  - intros x xst h Hx Hh. apply lookup_delete_Some in Hx as [_ Hx].
    apply history_delete_inv in Hh. by eapply Hch.
  - intros x h Hne Hh. by apply history_delete.
Qed.

(** ** Reachable stores *)

(** A fresh [MemoryStore]: no Timelines. *)
Definition initial_store (gate : option ErasureContainmentGateV1) : Store :=
  MkStore ∅ ∅ ∅ None ∅ ∅ gate false None false.

(** A Timeline's Event vector never holds more than [u64::MAX] Events. *)
Definition room (s : Store) (id : TimelineId) (n : Z) : Prop :=
  forall st, st_timelines s !! id = Some st -> len (ts_events st) + n <= U64_MAX.

(** One public operation, with any arguments.  Ids drawn by [TimelineId::new()]
    are fresh; sequence numbers are unsigned.  [step_host] stands for the
    host-side changes of the other fields (gate, keys, admissions, markers). *)
Inductive step : Store -> Store -> Prop :=
| step_append s id ds : room s id (len ds) -> step s (append s id ds).1
| step_append_committed s id events :
    room s id (len events) -> step s (append_committed s id events).1
| step_create s id name : st_timelines s !! id = None -> step s (create_timeline s id name).1
| step_create_with_meta s meta :
    (forall p sq, meta_fork_point meta = Some (p, sq) -> 0 <= sq) ->
    step s (create_timeline_with_meta s meta).1
| step_fork s id parent at_seq name :
    st_timelines s !! id = None -> 0 <= at_seq -> step s (fork s id parent at_seq name).1
| step_delete s id : step s (delete_timeline s id).1
| step_host s s' : st_timelines s' = st_timelines s -> step s s'.

Definition reachable (s : Store) : Prop := exists gate, rtc step (initial_store gate) s.

Lemma store_ok_initial gate : store_ok (initial_store gate).
Proof. split; [|done]. split; [done|done|]. by exists (fun _ => 0%nat). Qed.

Lemma store_ok_timelines s s' : st_timelines s' = st_timelines s -> store_ok s -> store_ok s'.
Proof. unfold store_ok. by intros ->. Qed.

Lemma topology_cases {A} (effect : Store -> Write A) s :
  (with_direct_topology_mutation effect s).1 = s \/
  with_direct_topology_mutation effect s = effect s.
Proof. unfold with_direct_topology_mutation. destruct (st_erasure_topology_requires_permit s); auto. Qed.

Lemma fence_store {A} t op (effect : Store -> Write A) s :
  (with_erasure_fence t op effect s).1 = s \/ (with_erasure_fence t op effect s).1 = (effect s).1.
Proof.
  destruct (with_erasure_fence t op effect s) as [s' r] eqn:Hf.
  apply with_erasure_fence_cases in Hf as [[-> _]| ->]; auto.
Qed.

(** Strip the topology and erasure guards around an operation. *)
Ltac strip_guards :=
  repeat match goal with
  | |- store_ok (with_direct_topology_mutation ?f ?s).1 =>
      destruct (topology_cases f s) as [->| ->]; [done|]; cbv beta
  | |- store_ok (with_erasure_fence ?t ?o ?f ?s).1 =>
      destruct (fence_store t o f s) as [->| ->]; [done|]; cbv beta
  end.

Lemma step_store_ok s s' : store_ok s -> step s s' -> store_ok s'.
Proof.
  intros Hok Hs. destruct Hs as [s id ds Hroom|s id events Hroom|s id name Hn|s meta Hpos
    |s id p sq name Hn Hpos|s id|s s' Heq].
  - unfold append. strip_guards. destruct (guarded_generic_append s id ds) as [s' r] eqn:Ha.
    by eapply guarded_append_store_ok.
  - unfold append_committed. strip_guards.
    destruct (append_committed_body s id events) as [s'|] eqn:Ha; [|done].
    by destruct (append_committed_body_ok _ _ _ _ Hok Hroom Ha).
  - unfold create_timeline. strip_guards. simpl.
    apply (new_timeline_ok s (meta_root id name)); [done|done|reflexivity].
  - unfold create_timeline_with_meta. strip_guards.
    destruct (create_timeline_with_meta_unchecked s meta) as [s' r] eqn:Hc.
    pose proof (create_with_meta_unchecked_ok _ _ _ _ Hok Hpos Hc) as Hok'.
    destruct (meta_fork_point meta) as [[p sq]|]; strip_guards; by rewrite ?Hc.
  - unfold fork. strip_guards. destruct (ensure_generic_timeline_visibility s p); [|done].
    destruct (fork_timeline_unchecked s id p sq name) as [s' r] eqn:Hf.
    by apply fork_unchecked_spec in Hf as [[-> _]|[? _]].
  - unfold delete_timeline. strip_guards. destruct (ensure_generic_timeline_visibility s id); [|done].
    destruct (delete_visible_timeline s id) as [s' r] eqn:Hd.
    by apply delete_visible_ok in Hd as [[-> _]|[? _]].
  - by eapply store_ok_timelines.
Qed.

Lemma reachable_ok s : reachable s -> store_ok s.
Proof.
  intros [gate Hr]. remember (initial_store gate) as s0 eqn:H0'.
  assert (Hok : store_ok s0) by (subst; apply store_ok_initial). clear H0'.
  induction Hr as [|s1 s2 s3 Hs _ IH]; [done|]. apply IH. by eapply step_store_ok.
Qed.

End Correct.
