(* ===== verification/StoreProperties.v ===== *)
(** * What the Event store promises its callers

    The theorems of the public store operations, over every reachable store:
    reads are the history, appends extend it, forks share it, deletes and
    appends leave the other Timelines alone, and the hash chain commits to it. *)

From Stdlib Require Import String ZArith Lia Bool.
From S2P Require Import Prelude Text FallbackRecords ErasureGate Events EventStore StoreHistory.
From S2P Require Import StoreCorrect.

Local Open Scope Z_scope.

(** ** Reading, inverted *)

Lemma read_ok_inv s id range evs :
  read s id range = Ok evs ->
  exists g, validated_erasure_gate s = Ok g /\ gate_authorize g id OpRead = Ok tt
    /\ ensure_generic_timeline_visibility s id = Ok tt
    /\ authorize_inherited_scopes s id OpRead = Ok tt
    /\ collect_events_in_range s id range = Ok evs.
Proof.
  intros Hr. pose proof Hr as Hr'. unfold read in Hr'. apply with_erasure_read_fence_ok in Hr'.
  apply rbind_ok_inv in Hr' as ([] & Hv & Hr'). apply rbind_ok_inv in Hr' as ([] & Ha & Hc).
  unfold read, with_erasure_read_fence in Hr. apply rbind_ok_inv in Hr as (g & Hg & Hr).
  exists g. split_and!; try done. rewrite with_fence_spec in Hr.
  destruct (gate_authorize g id OpRead) as [[]|e]; [done|]. simpl in Hr. ok_inv.
Qed.

(** The fields the read guards depend on. *)
Record same_guards (s s' : Store) : Prop := {
  sg_gate : st_erasure_gate s' = st_erasure_gate s;
  sg_bound : st_erasure_gate_bound s' = st_erasure_gate_bound s;
  sg_generation : st_erasure_inventory_generation s' = st_erasure_inventory_generation s;
  sg_geographic : forall x, x ∈ st_geographic_timelines s' -> x ∈ st_geographic_timelines s;
}.

Lemma same_guards_gate s s' : same_guards s s' -> validated_erasure_gate s' = validated_erasure_gate s.
Proof. intros [Hg Hb Hgen _]. unfold validated_erasure_gate. by rewrite Hg, Hb, Hgen. Qed.

Lemma visibility_ok s id :
  ensure_generic_timeline_visibility s id = Ok tt <->
  is_Some (st_timelines s !! id) /\ id ∉ st_geographic_timelines s.
Proof.
  unfold ensure_generic_timeline_visibility, timeline_contains_geographic_evidence, timeline.
  destruct (st_timelines s !! id) as [st|]; simpl.
  - destruct (bool_decide_reflect (id ∈ st_geographic_timelines s)); simpl; naive_solver.
  - split; [done|]. by intros [[? ?] _].
Qed.

(** A read that succeeded before succeeds after any change that keeps the
    guards and the chain, and returns the new history. *)
Lemma read_preserved s s' x range evs h' :
  timelines_wf (st_timelines s) -> timelines_wf (st_timelines s') -> same_guards s s' ->
  (forall ids seqs, chain_of (st_timelines s) x ids seqs -> chain_of (st_timelines s') x ids seqs) ->
  history (st_timelines s') x h' -> read s x range = Ok evs ->
  read s' x range = Ok (renumber_and_filter h' range).
Proof.
  intros Hwf Hwf' Hg Hch Hh' Hr. destruct (read_ok_inv _ _ _ _ Hr) as (g & Hval & Hauth & Hvis & Hinh & Hcol).
  pose proof (same_guards_gate _ _ Hg) as Hval'. rewrite Hval in Hval'.
  unfold read. rewrite (with_erasure_read_fence_open _ _ _ _ g Hval' Hauth).
  apply visibility_ok in Hvis as [Hx Hgeo].
  rewrite (proj2 (visibility_ok s' x)).
  2: { split; [by eapply history_state|]. intros Hin. by apply Hgeo, (sg_geographic _ _ Hg). }
  destruct (fork_chain_wf s x Hwf Hx) as (ids & seqs & Hc & Hf).
  destruct (fork_chain_wf s' x Hwf' (history_state _ _ _ Hh')) as (ids' & seqs' & Hc' & Hf').
  destruct (chain_of_deterministic _ _ _ _ _ _ (Hch _ _ Hc) Hc') as [<- <-].
  unfold authorize_inherited_scopes in *. rewrite Hval, Hf in Hinh. rewrite Hval', Hf'.
  simpl in *. rewrite Hinh. simpl. by apply collect_history.
Qed.

Lemma chain_of_extend tls id st st' x ids seqs :
  tls !! id = Some st -> fork_point_of st' = fork_point_of st ->
  chain_of tls x ids seqs -> chain_of (<[id := st']> tls) x ids seqs.
Proof.
  intros Hst Hfp. induction 1 as [x xst Hx Hr|x xst p sq ids seqs Hx Hf Hc IH];
    (destruct (decide (x = id)) as [->|Hne]; [rewrite Hst in Hx; injection Hx as <-|]).
  - apply chain_root with st'; [by rewrite lookup_insert_eq|by rewrite Hfp].
  - apply chain_root with xst; [by rewrite lookup_insert_ne|done].
  - apply chain_fork with st' p; [by rewrite lookup_insert_eq|by rewrite Hfp|done].
  - apply chain_fork with xst p; [by rewrite lookup_insert_ne|done|done].
Qed.

Lemma chain_of_insert tls id st x ids seqs :
  tls !! id = None -> chain_of tls x ids seqs -> chain_of (<[id := st]> tls) x ids seqs.
Proof.
  intros Hn. induction 1 as [x xst Hx Hr|x xst p sq ids seqs Hx Hf Hc IH].
  - apply chain_root with xst; [by apply insert_other|done].
  - apply chain_fork with xst p; [by apply insert_other|done|done].
Qed.

(** ** Renumbering *)

Lemma renumber_app h new :
  renumber (h ++ new) = renumber h ++ imap (fun i e => with_seq (len h + Z.of_nat i + 1) e) new.
Proof.
  unfold renumber. rewrite imap_app. f_equal. apply imap_ext. intros i e _. unfold len.
  simpl. f_equal. lia.
Qed.

Lemma renumber_all h : (forall e, e ∈ renumber h -> 0 <= ev_seq e) ->
  renumber_and_filter h seq_range_all = renumber h.
Proof.
  intros Hpos. unfold renumber_and_filter. apply forallb_filter_id, forallb_forall.
  intros e He. apply list_elem_of_In in He. unfold in_seq_range. simpl. rewrite andb_true_r.
  apply Z.leb_le. by apply Hpos.
Qed.

Lemma renumber_lookup h i e :
  renumber h !! i = Some e -> exists e0, h !! i = Some e0 /\ e = with_seq (Z.of_nat i + 1) e0.
Proof.
  unfold renumber. rewrite list_lookup_imap. intros He. apply fmap_Some in He as (e0 & He0 & ->). eauto.
Qed.

Lemma renumber_read_all h : renumber_and_filter h seq_range_all = renumber h.
Proof.
  apply renumber_all. intros e He. apply list_elem_of_lookup in He as [i He].
  apply renumber_lookup in He as (e0 & _ & ->). simpl. lia.
Qed.

Section Properties.
Context `{Hasher} `{UlidText}.

Lemma logical_events_spec id prefix head ds evs :
  try_map (logical_event prefix) (committed_events id prefix head ds) = Ok evs ->
  evs = imap (fun i e => with_seq (prefix + head + Z.of_nat i + 1) e)
          (committed_events id prefix head ds).
Proof.
  revert head evs. induction ds as [|d ds IH]; intros head evs Hm; simpl in Hm.
  - by injection Hm as <-.
  - apply rbind_ok_inv in Hm as (e & He & Hm). apply rbind_ok_inv in Hm as (es & Hes & Hm).
    injection Hm as <-. unfold logical_event, checked_add in He. simpl in He.
    destruct (_ <=? _) in He; [|done]. injection He as <-. simpl. f_equal.
    + f_equal. lia.
    + rewrite (IH _ _ Hes). apply imap_ext. intros i x _. simpl. f_equal. lia.
Qed.

Lemma length_committed_events id prefix head ds : length (committed_events id prefix head ds) = length ds.
Proof. revert head. induction ds; intros; simpl; congruence. Qed.

Lemma guarded_append_guards s id ds s' r :
  guarded_generic_append s id ds = (s', r) -> same_guards s s'.
Proof.
  unfold guarded_generic_append, append_visible, append_visible_with_prefix. intros Ha.
  repeat first [case_match | progress simplify_eq/=]; by split.
Qed.

(** A successful append, seen from every Timeline. *)
Lemma append_ok_spec s id ds s' evs :
  store_ok s -> room s id (len ds) -> append s id ds = (s', Ok evs) ->
  store_ok s' /\ same_guards s s'
  /\ exists st st', st_timelines s !! id = Some st
    /\ st_timelines s' = <[id := st']> (st_timelines s) /\ fork_point_of st' = fork_point_of st
    /\ let new := committed_events id (prefix_of st) (len (ts_events st)) ds in
       ts_events st' = ts_events st ++ new
       /\ evs = imap (fun i e => with_seq (prefix_of st + len (ts_events st) + Z.of_nat i + 1) e) new.
Proof.
  intros Hok Hroom Ha. unfold append in Ha.
  apply with_erasure_fence_cases in Ha as [[_ [e He]]|Ha]; [done|].
  split; [by eapply guarded_append_store_ok|]. split; [by eapply guarded_append_guards|].
  destruct (guarded_append_spec _ _ _ _ _ Hok Hroom Ha)
    as [[_ [e He]]|(st & st' & new & Hst & Heq & Hex & _ & Hr)]; [done|].
  destruct (Hr _ eq_refl) as [-> Hm]. exists st, st'. split_and!; [done|done|by eapply extends_fork_point|].
  split; [by apply (ex_events _ _ _ _ Hex)|]. by apply logical_events_spec.
Qed.

(** ** Properties *)

(** C10: the store invariant.  Every store reachable by the public operations
    (append, committed append, create, create with metadata, fork, delete, in
    any order, failing or not) is well-formed: own sequence numbers run 1 to the
    head, every fork point lies within its parent's readable history, ancestry
    is acyclic, nothing overflows 64 bits, and each readable Timeline's stored
    chain head is the hash chain over its whole history. *)
Theorem reachable_store_ok s : reachable s -> store_ok s.
Proof. apply reachable_ok. Qed.

(** C9: reads refine histories.  On a reachable store, whatever [read] returns
    is the Timeline's history (the parent's cut at the fork point, then its own
    Events) renumbered 1, 2, 3, ... and filtered by the requested range; in
    particular a full read is numbered contiguously from 1. *)
Theorem read_refines_history s id range evs :
  reachable s -> read s id range = Ok evs ->
  exists h, history (st_timelines s) id h
    /\ evs = List.filter (fun e => in_seq_range range (ev_seq e)) (renumber h)
    /\ forall i e, renumber h !! i = Some e -> ev_seq e = Z.of_nat i + 1.
Proof.
  intros Hr Hread. apply reachable_ok in Hr as [Hwf _].
  destruct (read_ok_inv _ _ _ _ Hread) as (g & _ & _ & _ & _ & Hcol).
  destruct (collect_inv _ _ _ _ Hwf Hcol) as (h & Hh & ->). exists h. split_and!; [done|done|].
  intros i e He. by apply renumber_lookup in He as (e0 & _ & ->).
Qed.

(** Reads are total on readable Timelines.  If the gate is valid and
    authorizes reading every Timeline, a visible Timeline with a history is
    read without error, its logical head is the length of the history, and the
    chain hash at any cut is the hash chain over that prefix. *)
Theorem read_total s g id h range at_seq :
  reachable s -> validated_erasure_gate s = Ok g ->
  (forall x op, is_Some (st_timelines s !! x) -> gate_authorize g x op = Ok tt) ->
  history (st_timelines s) id h -> id ∉ st_geographic_timelines s -> 0 <= at_seq <= len h ->
  read s id range = Ok (renumber_and_filter h range)
  /\ logical_head s id = Ok (len h)
  /\ chain_hash_at s id at_seq = Ok (chain_over genesis_hash (take (Z.to_nat at_seq) h)).
Proof.
  intros Hr Hg Hauth Hh Hgeo Hat. apply reachable_ok in Hr as [Hwf _].
  pose proof (history_state _ _ _ Hh) as Hid.
  assert (Hvis : ensure_generic_timeline_visibility s id = Ok tt) by (by apply visibility_ok).
  destruct (fork_chain_wf s id Hwf Hid) as (ids & seqs & Hc & Hf).
  assert (Hinh : forall op, authorize_inherited_scopes s id op = Ok tt).
  { intros op. unfold authorize_inherited_scopes. rewrite Hg, Hf. simpl.
    assert (Hdom : forall x, x ∈ ids -> is_Some (st_timelines s !! x)) by (intros; by eapply chain_of_in_dom).
    clear -Hauth Hdom. induction ids as [|x ids IH]; simpl; [done|].
    rewrite Hauth by (apply Hdom; left). simpl. apply IH. intros; apply Hdom; by right. }
  unfold read, logical_head, chain_hash_at.
  rewrite !(with_erasure_read_fence_open _ _ _ _ g Hg (Hauth _ _ Hid)), Hvis, !Hinh. simpl.
  rewrite (collect_history _ _ _ _ Hwf Hh), (logical_head_history _ _ _ Hwf Hh).
  by rewrite (chain_hash_history _ _ _ _ Hwf Hh Hat).
Qed.

(** Appends extend the read.  When [append] succeeds on a Timeline that
    could be read, the next full read is exactly the previous one followed by
    the returned Events: nothing is lost, reordered or renumbered, and the
    returned sequence numbers are the ones a reader sees. *)
Theorem append_extends_read s id ds s' old new :
  reachable s -> room s id (len ds) ->
  read s id seq_range_all = Ok old -> append s id ds = (s', Ok new) ->
  read s' id seq_range_all = Ok (old ++ new) /\ length new = length ds.
Proof.
  intros Hr Hroom Hread Ha. apply reachable_ok in Hr as Hok.
  destruct (append_ok_spec _ _ _ _ _ Hok Hroom Ha)
    as (Hok' & Hg & st & st' & Hst & Heq & Hfp & Hev & Hnew). destruct Hok as [Hwf _], Hok' as [Hwf' _].
  destruct (read_ok_inv _ _ _ _ Hread) as (g & _ & _ & _ & _ & Hcol).
  destruct (collect_inv _ _ _ _ Hwf Hcol) as (h & Hh & Hold). rewrite renumber_read_all in Hold.
  pose proof (history_extend _ _ _ _ _ Hst Hfp Hev id h Hh) as Hh'. rewrite ext_self in Hh'.
  rewrite <- Heq in Hh'.
  pose proof (history_len _ _ _ _ Hst (wf_prefix_nonneg _ _ _ Hwf Hst) Hh) as Hlen. split.
  - rewrite (read_preserved s s' id _ _ _ Hwf Hwf' Hg) with (2 := Hh') (3 := Hread).
    + rewrite renumber_read_all, renumber_app, Hold, Hnew. do 2 f_equal.
      apply imap_ext. intros i e _. simpl. f_equal. lia.
    + intros ids seqs Hc. rewrite Heq. by eapply chain_of_extend.
  - rewrite Hnew, length_imap. apply length_committed_events.
Qed.

(** Copy-on-write isolation.  Appending to one Timeline, with success or
    failure, changes no other Timeline's reads: neither its forks nor its
    parent nor an unrelated one. *)
Theorem append_isolated s id ds s' r x range evs :
  reachable s -> room s id (len ds) -> append s id ds = (s', r) -> x <> id ->
  read s x range = Ok evs -> read s' x range = Ok evs.
Proof.
  intros Hr Hroom Ha Hne Hread. apply reachable_ok in Hr as Hok. unfold append in Ha.
  apply with_erasure_fence_cases in Ha as [[-> _]|Ha]; [done|].
  pose proof (guarded_append_guards _ _ _ _ _ Ha) as Hg.
  pose proof (guarded_append_store_ok _ _ _ _ _ Hok Hroom Ha) as [Hwf' _].
  pose proof Hok as [Hwf _].
  destruct (read_ok_inv _ _ _ _ Hread) as (g & _ & _ & _ & _ & Hcol).
  destruct (collect_inv _ _ _ _ Hwf Hcol) as (h & Hh & ->).
  destruct (guarded_append_spec _ _ _ _ _ Hok Hroom Ha)
    as [[Heq _]|(st & st' & new & Hst & Heq & Hex & _)].
  - eapply read_preserved; [done|done|done| | |done]; rewrite Heq; auto.
  - pose proof (extends_fork_point _ _ _ _ Hex) as Hfp.
    eapply read_preserved; [done|done|done| | |done]; rewrite Heq.
    + intros ids seqs. by apply chain_of_extend with st.
    + pose proof (history_extend _ _ _ _ _ Hst Hfp (ex_events _ _ _ _ Hex) x h Hh) as Hh'.
      by rewrite ext_other in Hh'.
Qed.

(** A successful fork, seen from every Timeline. *)
Lemma fork_ok_spec s id parent at_seq name s' child :
  store_ok s -> st_timelines s !! id = None -> 0 <= at_seq ->
  fork s id parent at_seq name = (s', Ok child) ->
  store_ok s' /\ timeline_id child = id
  /\ (exists chain_head, st_timelines s' !! id = Some (timeline_state_new child chain_head))
  /\ (exists hp, history (st_timelines s) parent hp /\ at_seq <= len hp
      /\ forall pst, st_timelines s !! parent = Some pst -> prefix_of pst <= at_seq ->
           history (st_timelines s') id (take (Z.to_nat at_seq) hp))
  /\ forall x h, history (st_timelines s) x h -> history (st_timelines s') x h.
Proof.
  intros Hok Hnew Hpos Hf. unfold fork in Hf.
  unfold with_direct_topology_mutation in Hf.
  destruct (st_erasure_topology_requires_permit s); [done|].
  apply with_erasure_fence_cases in Hf as [[_ [e He]]|Hf]; [done|]. cbv beta in Hf.
  destruct (ensure_generic_timeline_visibility s parent); [|done].
  destruct (fork_unchecked_spec _ _ _ _ _ _ _ Hok Hpos Hnew Hf)
    as [[_ [e He]]|(Hok' & tl & hp & [= <-] & Hid & Hhp & Hsq & Hfp & Heq)]; [done|].
  rewrite Heq. split_and!; [done|done|by eexists; apply lookup_insert_eq| |intros; by apply history_insert].
  exists hp. split_and!; [done|done|]. intros pst Hpst Hpre.
  assert (parent <> id) by (intros ->; congruence).
  rewrite <- (app_nil_r (take _ hp)).
  refine (history_fork _ id (timeline_state_new child _) parent pst at_seq hp _ Hfp _ _ _).
  - apply lookup_insert_eq.
  - by rewrite lookup_insert_ne.
  - by apply history_insert.
  - lia.
Qed.

(** Forks share their parent's prefix.  A successful [fork] at [at_seq]
    yields a new, empty Timeline whose fork point is recorded; unless the cut
    lies inside the part the parent itself inherited, its history is exactly
    the first [at_seq] Events of the parent's; and every other Timeline,
    the parent included, keeps its history. *)
Theorem fork_shares_prefix s id parent at_seq name s' child :
  reachable s -> st_timelines s !! id = None -> 0 <= at_seq ->
  fork s id parent at_seq name = (s', Ok child) ->
  timeline_id child = id
  /\ (exists hp, history (st_timelines s) parent hp /\ at_seq <= len hp
      /\ forall pst, st_timelines s !! parent = Some pst -> prefix_of pst <= at_seq ->
           history (st_timelines s') id (take (Z.to_nat at_seq) hp))
  /\ forall x h, history (st_timelines s) x h -> history (st_timelines s') x h.
Proof.
  intros Hr Hnew Hpos Hf. apply reachable_ok in Hr as Hok.
  by destruct (fork_ok_spec _ _ _ _ _ _ _ Hok Hnew Hpos Hf) as (_ & Hid & _ & Hhp & Hx).
Qed.

(** The stored chain head is the recomputed chain hash.  On a reachable
    store, recomputing the chain hash of a readable Timeline at its logical
    head (walking every inherited segment) gives the chain head the store keeps
    incrementally. *)
Theorem chain_head_is_chain_hash s id st h :
  reachable s -> st_timelines s !! id = Some st -> history (st_timelines s) id h ->
  compute_chain_hash_at s id (len h) = Ok (ts_chain_head st).
Proof.
  intros Hr Hst Hh. apply reachable_ok in Hr as [Hwf Hch].
  rewrite (chain_hash_history _ _ _ _ Hwf Hh) by (pose proof (len_nonneg h); lia).
  rewrite len_to_nat, take_ge by done. f_equal. symmetry. by eapply Hch.
Qed.

(** Deletion is confined.  A successful [delete_timeline] removes exactly
    one Timeline that no other was forked from and that was not an admitted
    fork; every other history survives; a refused deletion changes nothing. *)
Theorem delete_confined s id s' r :
  reachable s -> delete_timeline s id = (s', r) ->
  (s' = s /\ exists e, r = Err e) \/
  (r = Ok tt /\ fork_is_admitted s id = false
   /\ (forall x xst p sq, st_timelines s !! x = Some xst -> fork_point_of xst = Some (p, sq) -> p <> id)
   /\ st_timelines s' = base.delete id (st_timelines s)
   /\ forall x h, x <> id -> history (st_timelines s) x h -> history (st_timelines s') x h).
Proof.
  intros Hr Hd. apply reachable_ok in Hr as Hok. unfold delete_timeline, with_direct_topology_mutation in Hd.
  destruct (st_erasure_topology_requires_permit s); [left; naive_solver|].
  destruct (ensure_generic_timeline_visibility s id); [|left; naive_solver].
  pose proof Hd as Hd'. apply delete_visible_ok in Hd' as [?|(_ & -> & [st Hst] & Heq & Hh)]; [by left| |done].
  right. unfold delete_visible_timeline, ensure_timeline_deletable in Hd.
  destruct (has_child_timeline (st_timelines s) id) eqn:Hc; [done|].
  rewrite bool_decide_true in Hd by (by eexists). simpl in Hd.
  destruct (fork_is_admitted s id) eqn:Hadm; [done|]. split_and!; try done.
  by apply has_child_false.
Qed.

(** Committed batches.  A successful [append_committed] appends exactly the
    given Events, reordered by sequence and with their origin set, to one
    Timeline's history, leaves every other history alone, and a refusal leaves
    the store unchanged. *)
Theorem append_committed_extends_history s id events s' r :
  reachable s -> room s id (len events) -> append_committed s id events = (s', r) ->
  (s' = s /\ exists e, r = Err e) \/
  (r = Ok tt /\ exists new, committed_as id events new /\
     forall x h, history (st_timelines s) x h ->
       history (st_timelines s') x (if decide (x = id) then h ++ new else h)).
Proof.
  intros Hr Hroom Ha. apply reachable_ok in Hr as Hok. unfold append_committed in Ha.
  apply with_erasure_fence_cases in Ha as [[-> He]|Ha]; [left; naive_solver|]. cbv beta in Ha.
  destruct (append_committed_body s id events) as [s1|e] eqn:Hb; [|left; naive_solver].
  injection Ha as <- <-. right. split; [done|].
  destruct (append_committed_body_ok _ _ _ _ Hok Hroom Hb) as (_ & new & Hn & Hh & _). by exists new.
Qed.

End Properties.

(** The ancestry walk terminates on every store, also on a corrupted one
    with missing parents or cyclic fork points: the fuel [fork_chain] gives it
    is never exhausted. *)
Theorem fork_walk_terminates s id :
  fork_walk (S (size (st_timelines s))) (st_timelines s) ∅ [] [] id <> None.
Proof. apply fork_walk_total. rewrite difference_empty_L, size_dom. lia. Qed.

(** ** A concrete run

    A sample hash function and ULID text, and a store built by five operations:
    a root Timeline with two Events, a fork of it behind the second, one Event
    on the fork. *)

Module Sample.

#[export] Instance blake3_sample : Blake3 := sample_digest.
#[export] Instance ulid_sample : UlidText := ulid_bytes.

Definition ulid (b : byte) : Ulid := @Checked _ (has_len 16) (b :: replicate 15 x00) I.
Definition root_id : TimelineId := ulid x01.
Definition fork_id : TimelineId := ulid x02.
Definition nested_id : TimelineId := ulid x03.

Definition draft (b : byte) : FreshDraft :=
  MkFresh (draft_new (ulid xaa) (lit "world.observation") [b]) (ulid b) 1000.

Definition s0 : Store := initial_store (Some gate_new_test_open).
Definition s1 : Store := (create_timeline s0 root_id (lit "main")).1.
Definition s2 : Store := (append s1 root_id [draft x11; draft x12]).1.
Definition s3 : Store := (fork s2 fork_id root_id 2 (lit "alternative")).1.
Definition s4 : Store := (append s3 fork_id [draft x13]).1.

(** Reads as (sequence, payload) pairs. *)
Definition view (r : Read (list Event)) : option (list (Z * list byte)) :=
  match r with Ok evs => Some ((fun e => (ev_seq e, ev_payload e)) <$> evs) | Err _ => None end.

Lemma lookup_room s id n st0 :
  st_timelines s !! id = Some st0 -> len (ts_events st0) + n <= U64_MAX -> room s id n.
Proof. intros Hs Hl st Hst. rewrite Hs in Hst. injection Hst as <-. done. Qed.

Lemma room_sample s id n :
  match st_timelines s !! id with
  | Some st => len (ts_events st) + n <=? U64_MAX
  | None => true
  end = true -> room s id n.
Proof. intros Hb st Hst. rewrite Hst in Hb. by apply Z.leb_le. Qed.

Lemma reachable_step s s' : reachable s -> step s s' -> reachable s'.
Proof. intros [g Hg] Hs. exists g. by eapply rtc_r. Qed.

Lemma s0_reachable : reachable s0.
Proof. exists (Some gate_new_test_open). apply rtc_refl. Qed.
Lemma s1_reachable : reachable s1.
Proof. apply (reachable_step s0); [apply s0_reachable|]. by apply step_create. Qed.
Lemma s2_reachable : reachable s2.
Proof.
  apply (reachable_step s1); [apply s1_reachable|]. apply step_append, room_sample.
  vm_compute. reflexivity.
Qed.
Lemma s3_reachable : reachable s3.
Proof.
  apply (reachable_step s2); [apply s2_reachable|].
  apply step_fork; [vm_compute; reflexivity|lia].
Qed.
Lemma s4_reachable : reachable s4.
Proof.
  apply (reachable_step s3); [apply s3_reachable|]. apply step_append, room_sample.
  vm_compute. reflexivity.
Qed.

(** The fork sees the parent's two Events and its own third; the parent does not. *)
Example fork_view :
  view (read s4 fork_id seq_range_all) = Some [(1, [x11]); (2, [x12]); (3, [x13])]
  /\ view (read s4 root_id seq_range_all) = Some [(1, [x11]); (2, [x12])]
  /\ view (read s4 fork_id (MkSeqRange 2 (Some 3))) = Some [(2, [x12]); (3, [x13])].
Proof. vm_compute. done. Qed.

Lemma fork_history : exists h, history (st_timelines s4) fork_id h /\ len h = 3.
Proof.
  destruct (logical_head_inv s4 fork_id 3) as (h & Hh & Hl); [apply reachable_ok, s4_reachable| |eauto].
  vm_compute. reflexivity.
Qed.

Lemma reachable_store_ok_witness : store_ok s4.
Proof. apply (reachable_store_ok s4). apply s4_reachable. Defined.

Lemma read_refines_history_witness :
  exists evs h, read s4 fork_id seq_range_all = Ok evs /\ history (st_timelines s4) fork_id h
    /\ len h = 3.
Proof.
  destruct (read s4 fork_id seq_range_all) as [evs|] eqn:Hr; [|vm_compute in Hr; discriminate].
  destruct (read_refines_history s4 fork_id seq_range_all evs s4_reachable Hr) as (h & Hh & _).
  exists evs, h. split_and!; [done|done|]. destruct fork_history as (h' & Hh' & Hl).
  rewrite (history_deterministic _ _ _ _ Hh Hh'). done.
Defined.

Lemma sample_gate_open x op : gate_authorize gate_new_test_open x op = Ok tt.
Proof. reflexivity. Qed.

Lemma read_total_witness :
  exists h, history (st_timelines s4) fork_id h /\ logical_head s4 fork_id = Ok (len h).
Proof.
  destruct fork_history as (h & Hh & Hl). exists h. split; [done|].
  refine (proj1 (proj2 (read_total s4 gate_new_test_open fork_id h seq_range_all 2
    s4_reachable _ _ Hh _ _))).
  - vm_compute. reflexivity.
  - intros x op _. apply sample_gate_open.
  - vm_compute. intros Hin. discriminate Hin.
  - lia.
Defined.

Lemma append_extends_read_witness :
  exists old new, read s4 fork_id seq_range_all = Ok (old ++ new) /\ length new = 1%nat.
Proof.
  destruct (read s3 fork_id seq_range_all) as [old|] eqn:Hr; [|vm_compute in Hr; discriminate].
  destruct (append s3 fork_id [draft x13]) as [s' r] eqn:Ha.
  assert (Hs : s4 = s') by (unfold s4; by rewrite Ha).
  assert (Hok : is_ok (append s3 fork_id [draft x13]).2 = true) by (vm_compute; reflexivity).
  rewrite Ha in Hok. destruct r as [new|]; [|discriminate Hok].
  exists old, new. rewrite Hs.
  refine (append_extends_read s3 fork_id [draft x13] s' old new s3_reachable _ Hr Ha).
  apply room_sample. vm_compute. reflexivity.
Defined.

Lemma append_isolated_witness :
  exists s' r, append s3 fork_id [draft x13] = (s', r)
    /\ view (read s' root_id seq_range_all) = Some [(1, [x11]); (2, [x12])].
Proof.
  destruct (append s3 fork_id [draft x13]) as [s' r] eqn:Ha. exists s', r. split; [reflexivity|].
  destruct (read s3 root_id seq_range_all) as [evs|] eqn:Hr; [|vm_compute in Hr; discriminate].
  assert (Hv : view (read s3 root_id seq_range_all) = Some [(1, [x11]); (2, [x12])])
    by (vm_compute; reflexivity).
  refine (eq_trans (f_equal view (append_isolated s3 fork_id [draft x13] s' r root_id seq_range_all
    evs s3_reachable (room_sample _ _ _ _) Ha _ Hr)) (eq_trans (eq_sym (f_equal view Hr)) Hv)).
  - vm_compute. reflexivity.
  - vm_compute. discriminate.
Defined.

Lemma fork_shares_prefix_witness :
  exists child hp, (fork s2 fork_id root_id 2 (lit "alternative")).2 = Ok child
    /\ history (st_timelines s2) root_id hp /\ 2 <= len hp.
Proof.
  destruct (fork s2 fork_id root_id 2 (lit "alternative")) as [s' r] eqn:Hf.
  assert (Hok : is_ok (fork s2 fork_id root_id 2 (lit "alternative")).2 = true)
    by (vm_compute; reflexivity).
  rewrite Hf in Hok. destruct r as [child|]; [|discriminate Hok].
  destruct (fork_shares_prefix s2 fork_id root_id 2 (lit "alternative") s' child s2_reachable
    ltac:(vm_compute; reflexivity) ltac:(lia) Hf) as (_ & (hp & Hh & Hl & _) & _).
  exists child, hp. split; [reflexivity|]. split; assumption.
Defined.

Lemma chain_head_is_chain_hash_witness :
  exists st (h : list Event), st_timelines s4 !! fork_id = Some st
    /\ compute_chain_hash_at s4 fork_id (len h) = Ok (ts_chain_head st).
Proof.
  destruct (st_timelines s4 !! fork_id) as [st|] eqn:Hst; [|vm_compute in Hst; discriminate].
  destruct fork_history as (h & Hh & _). exists st, h. split; [reflexivity|].
  exact (chain_head_is_chain_hash s4 fork_id st h s4_reachable Hst Hh).
Defined.

Lemma delete_confined_witness :
  exists s' e, delete_timeline s4 root_id = (s', Err e) /\ s' = s4.
Proof.
  destruct (delete_timeline s4 root_id) as [s' r] eqn:Hd.
  destruct (delete_confined s4 root_id s' r s4_reachable Hd) as [(Hs & e & He)|(Hr & _)].
  - exists s', e. rewrite He. split; [reflexivity|exact Hs].
  - exfalso. assert (Hx : (delete_timeline s4 root_id).2 = Err (Storage StillHasForks))
      by (vm_compute; reflexivity).
    rewrite Hd, Hr in Hx. discriminate Hx.
Defined.

(** A committed Event for position 3 of the root Timeline. *)
Definition committed_sample : Event :=
  MkEvent (ulid x33) (ulid x05) (lit "note") [x2a] 7 3 None None None None None (blake3 [x2a]).

Lemma append_committed_extends_history_witness :
  exists s' new, append_committed s4 root_id [committed_sample] = (s', Ok tt)
    /\ committed_as root_id [committed_sample] new
    /\ forall h, history (st_timelines s4) root_id h -> history (st_timelines s') root_id (h ++ new).
Proof.
  assert (Hok : is_ok (append_committed s4 root_id [committed_sample]).2 = true) by (vm_compute; reflexivity).
  destruct (append_committed s4 root_id [committed_sample]) as [s' r] eqn:Ha. exists s'.
  destruct (append_committed_extends_history s4 root_id [committed_sample] s' r s4_reachable
    (room_sample s4 root_id (len [committed_sample]) ltac:(vm_compute; reflexivity)) Ha)
    as [[_ [e He]]|(Hr & new & Hn & Hh)]; [rewrite He in Hok; discriminate Hok|].
  exists new. rewrite Hr. split; [reflexivity|]. split; [exact Hn|].
  intros h Hroot. specialize (Hh root_id h Hroot). rewrite decide_True in Hh by reflexivity. exact Hh.
Defined.

(** ** A fork point inside the inherited prefix *)

(** Forking [fork_id], which inherited two Events, at position 1. *)
Definition s5 : Store := (fork s4 nested_id fork_id 1 (lit "nested")).1.

Lemma s5_reachable : reachable s5.
Proof.
  apply (reachable_step s4); [apply s4_reachable|].
  apply step_fork; [vm_compute; reflexivity|lia].
Qed.

(** [fork] accepts a cut inside the history its parent inherited (only a
    cut beyond the parent's head is refused), but the Timeline it creates can
    never be read: every read, head and chain-hash request on it fails with
    [ForkPrecedesInherited].  Shown on a reachable store: the fork of a fork at
    position 1, where the parent inherited two Events. *)
Theorem fork_inside_inherited_unreadable :
  reachable s5
  /\ is_ok (fork s4 nested_id fork_id 1 (lit "nested")).2 = true
  /\ (forall range, read s5 nested_id range = Err (Storage (ForkPrecedesInherited fork_id)))
  /\ logical_head s5 nested_id = Err (Storage (ForkPrecedesInherited fork_id))
  /\ chain_hash_at s5 nested_id 0 = Err (Storage (ForkPrecedesInherited fork_id)).
Proof.
  split; [apply s5_reachable|]. split; [vm_compute; reflexivity|].
  split; [|split; vm_compute; reflexivity]. intros range. vm_compute. reflexivity.
Qed.

End Sample.
