(* ===== verification/KeyRegistryInvariant.v ===== *)
(** * The invariant of the key registry

    [registry_ok] says declaratively what a valid registry is; [validate_exact]
    shows that the guarded validation decides exactly that, and the lemmas after it
    that every operation keeps it. *)

From Stdlib Require Import String ZArith Lia Bool.
From S2P Require Import Prelude Text FallbackRecords Keys KeyRegistry.

Local Open Scope Z_scope.

(** The fingerprint an identity reserves: of its live material, or of the material
    its tombstone says was destroyed. *)
Definition material_of (s : KeyRegistryStateV1) (i : KeyIdentityV1) : option Hash :=
  match kg_tombstones s !! i with
  | Some t => Some (tb_destroyed_material_digest t)
  | None => kg_records s !! i ≫= kr_private_material_digest
  end.

Definition latest (sc : KeyScope) (epoch : Z) : KeyIdentityV1 := MkKeyIdentity sc.1 sc.2 epoch.

Record record_ok (s : KeyRegistryStateV1) (i : KeyIdentityV1) (r : KeyRecordV1) : Prop := {
  rk_identity : kr_identity r = i;
  rk_epoch : key_epoch i <> 0;
  rk_public : is_signing (key_role i) = bool_decide (is_Some (kr_public_verification_key r));
  rk_scope : is_Some (kg_highest_epoch s !! scope_of i);
  rk_live : kr_private_material_digest r = None -> is_Some (kg_tombstones s !! i);
}.

Record registry_ok (s : KeyRegistryStateV1) : Prop := {
  ro_record : forall i r, kg_records s !! i = Some r -> record_ok s i r;
  ro_pending : forall i q, kg_pending_destructions s !! i = Some q ->
    dr_identity q = i /\ kg_tombstones s !! i = None /\ kg_active s !! scope_of i <> Some i
    /\ exists r, kg_records s !! i = Some r /\ kr_private_material_digest r = Some (dr_expected_material_digest q);
  ro_highest : forall sc h, kg_highest_epoch s !! sc = Some h ->
    is_Some (kg_records s !! latest sc h)
    /\ forall i, is_Some (kg_records s !! i) -> scope_of i = sc -> key_epoch i <= h;
  ro_active : forall sc i, kg_active s !! sc = Some i ->
    scope_of i = sc /\ kg_tombstones s !! i = None /\ is_Some (kg_records s !! i)
    /\ kg_highest_epoch s !! sc = Some (key_epoch i);
  ro_latest : forall sc h, kg_highest_epoch s !! sc = Some h ->
    kg_tombstones s !! latest sc h = None -> kg_pending_destructions s !! latest sc h = None ->
    kg_active s !! sc = Some (latest sc h);
  ro_tombstone : forall i t, kg_tombstones s !! i = Some t ->
    tb_identity t = i /\ exists r, kg_records s !! i = Some r /\ kr_private_material_digest r = None;
  ro_material : forall i j d, material_of s i = Some d -> material_of s j = Some d -> i = j;
}.

Lemma has_key_true {K V} `{Countable K} (m : gmap K V) k : has_key m k = true <-> is_Some (m !! k).
Proof. unfold has_key. by destruct (m !! k). Qed.
Lemma has_key_false {K V} `{Countable K} (m : gmap K V) k : has_key m k = false <-> m !! k = None.
Proof. unfold has_key. by destruct (m !! k). Qed.

(** ** Loops that reserve material *)

Lemma ordinary_reject_if b : ordinary (fun G _ => reject_if b) = Ok tt <-> b = false.
Proof. by destruct b. Qed.

Lemma ordinary_require {A} (o : option A) a : ordinary (fun G _ => required o) = Ok a <-> o = Some a.
Proof. destruct o; cbn; unfold ordinary; cbn; split; congruence. Qed.

Lemma ordinary_gret {A} (a b : A) : ordinary (fun G _ => gret a) = Ok b <-> b = a.
Proof. unfold ordinary. cbn. naive_solver. Qed.

Lemma ordinary_ret_bind {A B} (a : A) (k : forall G, KeyRegistryReadGuardV1 G -> A -> Guarded G B) :
  ordinary (fun G _ => gbind (gret a) (k G _)) = ordinary (fun G _ => k G _ a).
Proof. done. Qed.

Lemma ordinary_bind_ok {A B} (m : Reading A) (k : forall G, KeyRegistryReadGuardV1 G -> A -> Guarded G B) r :
  lawful m -> ordinary (fun G _ => gbind (m G _) (k G _)) = Ok r
  <-> exists a, ordinary m = Ok a /\ ordinary (fun G _ => k G _ a) = Ok r.
Proof. intros Hm. rewrite (ordinary_bind m) by done. destruct (ordinary m); cbn; naive_solver. Qed.

Lemma ordinary_reject_bind {A} b (m : Reading A) r :
  ordinary (fun G _ => gbind (reject_if b) (fun _ => m G _)) = Ok r <-> b = false /\ ordinary m = Ok r.
Proof.
  rewrite (ordinary_bind (fun G _ => reject_if b)) by apply lawful_reject_if.
  destruct b; cbn; unfold ordinary at 1; cbn; naive_solver.
Qed.

Lemma ordinary_require_bind {A B} (o : option A) (m : forall G, KeyRegistryReadGuardV1 G -> A -> Guarded G B) r :
  ordinary (fun G _ => gbind (required o) (m G _)) = Ok r
  <-> exists a, o = Some a /\ ordinary (fun G _ => m G _ a) = Ok r.
Proof.
  rewrite (ordinary_bind (fun G _ => required o)) by apply lawful_require.
  destruct o as [a|]; cbn; [unfold ordinary at 1; cbn; naive_solver|]. unfold ordinary at 1. cbn. naive_solver.
Qed.

Lemma lawful_reserve reserved digest : lawful (fun G _ => reserve_material reserved digest).
Proof.
  apply lawful_step. destruct (decide (digest ∈ reserved)); [apply lawful_invalid|].
  apply lawful_bind; [by apply lawful_materialize|eauto with lawful].
Qed.
#[export] Hint Resolve lawful_reserve : lawful.

Lemma ordinary_reserve reserved digest r :
  ordinary (fun G _ => reserve_material reserved digest) = Ok r <-> digest ∉ reserved /\ r = {[digest]} ∪ reserved.
Proof.
  unfold reserve_material. rewrite (ordinary_step (fun G _ => if decide (digest ∈ reserved) then _ else _)).
  - destruct (decide (digest ∈ reserved)); unfold ordinary; cbn; naive_solver.
  - destruct (decide (digest ∈ reserved)); [apply lawful_invalid|].
    apply lawful_bind; [by apply lawful_materialize|eauto with lawful].
Qed.

(** A loop that checks [P] of each item and reserves what [g] says of it. *)
Lemma ordinary_reserving_loop {A} (P : A -> Prop) (g : A -> option Hash)
    (f : forall G, KeyRegistryReadGuardV1 G -> gset Hash -> A -> Guarded G (gset Hash)) items reserved r :
  (forall s x, lawful (fun G _ => f G _ s x)) ->
  (forall s x s', ordinary (fun G _ => f G _ s x) = Ok s' <->
     P x /\ match g x with Some d => d ∉ s /\ s' = {[d]} ∪ s | None => s' = s end) ->
  ordinary (fun G _ => for_fold items (f G _) reserved) = Ok r <->
  Forall P items /\ NoDup (omap g items) /\ (forall d, d ∈ omap g items -> d ∉ reserved)
  /\ r = list_to_set (omap g items) ∪ reserved.
Proof.
  intros Hl Hf. revert reserved. induction items as [|x items IH]; intros reserved; cbn [for_fold].
  - unfold ordinary. cbn. split.
    + intros [= <-]. split_and!; [done|constructor|set_solver|set_solver].
    + intros (_ & _ & _ & ->). f_equal. set_solver.
  - rewrite (ordinary_bind_ok (fun G _ => f G _ reserved x)) by apply Hl.
    setoid_rewrite IH. setoid_rewrite Hf. rewrite Forall_cons. cbn [omap list_omap].
    destruct (g x) as [d|]; [|naive_solver]. change (list_omap A Hash g items) with (omap g items). rewrite NoDup_cons.
    split.
    + intros (s' & [HP [Hd ->]] & HF & Hn & Hi & ->). clear IH Hl Hf. split_and!; [done|done| |done| |].
      * intros Hin. apply (Hi d Hin). by apply elem_of_union_l, elem_of_singleton.
      * intros e [->|He]%elem_of_cons; [done|]. specialize (Hi e He). by intros Hr; apply Hi, elem_of_union_r.
      * cbn. by rewrite union_assoc_L, (union_comm_L _ {[d]}).
    + intros ([HP HF] & [Hd Hn] & Hi & ->). exists ({[d]} ∪ reserved). split_and!; [done|apply Hi; by left|done|done|done| |].
      * intros e He [->%elem_of_singleton|Hr]%elem_of_union; [done|]. apply (Hi e); [by right|done].
      * cbn. by rewrite union_assoc_L, (union_comm_L _ {[d]}).
Qed.

Lemma NoDup_omap {A B} (f : A -> option B) (l : list A) :
  NoDup l -> (NoDup (omap f l)) <-> forall x y b, x ∈ l -> y ∈ l -> f x = Some b -> f y = Some b -> x = y.
Proof.
  induction 1 as [|a l Ha Hl IH]; cbn; [split; [set_solver|constructor]|].
  destruct (f a) as [b|] eqn:Hf.
  - rewrite NoDup_cons. change (list_omap A B f l) with (omap f l). rewrite IH, list_elem_of_omap. split.
    + intros [Hn Hi] x y c [->|Hx]%elem_of_cons [->|Hy]%elem_of_cons Hfx Hfy; [done| | |by eapply Hi].
      * destruct Hn. exists y. split; [done|congruence].
      * destruct Hn. exists x. split; [done|congruence].
    + intros Hi. split.
      * intros (x & Hx & Hfx). destruct Ha. by rewrite (Hi a x b) by (set_solver || done).
      * intros x y c Hx Hy. by apply Hi; right.
  - change (list_omap A B f l) with (omap f l). rewrite IH. split.
    + intros Hi x y c [->|Hx]%elem_of_cons [->|Hy]%elem_of_cons Hfx Hfy; try congruence. by eapply Hi.
    + intros Hi x y c Hx Hy. by apply Hi; right.
Qed.

(** ** Validation decides the invariant *)

Section Exact.
Implicit Types s : KeyRegistryStateV1.

Ltac lawful_body := repeat first
  [ progress (eauto with lawful) | apply lawful_step | apply lawful_bind; [|intros ?]
  | match goal with |- context [match ?x with _ => _ end] => destruct x end ].

Lemma lawful_record s reserved entry : lawful (fun G _ => validate_record s reserved entry).
Proof. destruct entry. cbn. lawful_body. Qed.

Lemma lawful_pending s entry : lawful (fun G _ => validate_pending s entry).
Proof. destruct entry. cbn. lawful_body. Qed.

Lemma lawful_high_water s entry : lawful (fun G _ => validate_maximum s entry).
Proof. destruct entry. cbn. lawful_body. Qed.

Lemma lawful_active s entry : lawful (fun G _ => validate_active_entry s entry).
Proof. destruct entry as [[]]. cbn. lawful_body. Qed.

Lemma lawful_latest s entry : lawful (fun G _ => validate_latest_epoch s entry).
Proof. destruct entry as [[]]. cbn. lawful_body. Qed.

Lemma lawful_tombstone s reserved entry : lawful (fun G _ => validate_tombstone s reserved entry).
Proof. destruct entry. cbn. lawful_body. Qed.

Hint Resolve lawful_record lawful_pending lawful_high_water lawful_active lawful_latest lawful_tombstone : lawful.

Lemma lawful_validate s : lawful (fun G _ => validate_with_read_context s).
Proof.
  apply lawful_step. unfold validate_native_invariants, validate_records, validate_pending_destructions,
    validate_high_water_maxima, validate_active, validate_latest_epochs, validate_tombstones. lawful_body.
Qed.

Lemma ordinary_scope_bind {A} owner role (k : forall G, KeyRegistryReadGuardV1 G -> KeyScope -> Guarded G A) :
  ordinary (fun G _ => gbind (context_scope owner role) (k G _)) = ordinary (fun G _ => k G _ (owner, role)).
Proof. rewrite (ordinary_bind (fun G _ => context_scope owner role)) by apply lawful_scope. by rewrite ordinary_scope. Qed.

Lemma owner_text_ok_raw (o : OwnerIdV1) : owner_text_ok (raw o) = true.
Proof. apply Is_true_true, raw_ok. Qed.

Lemma record_ok_checks s i r :
  record_ok s i r <->
  negb (bool_decide (kr_identity r = i)) = false
  /\ negb (owner_text_ok (raw (key_owner_id i))) || (key_epoch i =? 0) = false
  /\ negb (Bool.eqb (is_signing (key_role i)) (bool_decide (is_Some (kr_public_verification_key r)))) = false
  /\ negb (has_key (kg_highest_epoch s) (scope_of i)) = false
  /\ bool_decide (kr_private_material_digest r = None) && negb (has_key (kg_tombstones s) i) = false.
Proof.
  rewrite owner_text_ok_raw, andb_false_iff, !negb_false_iff, !has_key_true, bool_decide_eq_true, eqb_true_iff.
  rewrite bool_decide_eq_false. cbn. rewrite Z.eqb_neq. split.
  - intros [H1 H2 H3 H4 H5]. split_and!; try done. destruct (kr_private_material_digest r); [by left|right; auto].
  - intros (H1 & H2 & H3 & H4 & H5). constructor; try done. naive_solver.
Qed.

Lemma ordinary_record s reserved i r reserved' :
  ordinary (fun G _ => validate_record s reserved (i, r)) = Ok reserved' <->
  record_ok s i r /\ match kr_private_material_digest r with
                     | Some d => d ∉ reserved /\ reserved' = {[d]} ∪ reserved
                     | None => reserved' = reserved
                     end.
Proof.
  rewrite record_ok_checks. unfold validate_record.
  rewrite (ordinary_step (fun G _ => gbind (reject_if _) _)) by (pose proof lawful_record; lawful_body).
  rewrite !ordinary_reject_bind, ordinary_scope_bind, ordinary_reject_bind. unfold scope_of.
  destruct (kr_private_material_digest r) as [d|].
  - rewrite (ordinary_bind_ok (fun G _ => reserve_material reserved d)) by apply lawful_reserve.
    setoid_rewrite ordinary_reserve. setoid_rewrite ordinary_reject_bind. setoid_rewrite ordinary_gret. naive_solver.
  - rewrite ordinary_ret_bind, ordinary_reject_bind, ordinary_gret. naive_solver.
Qed.

Lemma ordinary_pending s i q :
  ordinary (fun G _ => validate_pending s (i, q)) = Ok tt <->
  dr_identity q = i /\ kg_tombstones s !! i = None /\ kg_active s !! scope_of i <> Some i
  /\ exists r, kg_records s !! i = Some r /\ kr_private_material_digest r = Some (dr_expected_material_digest q).
Proof.
  unfold validate_pending. rewrite (ordinary_step (fun G _ => gbind (required _) _)) by lawful_body.
  rewrite ordinary_require_bind. setoid_rewrite ordinary_reject_bind. setoid_rewrite ordinary_scope_bind.
  setoid_rewrite ordinary_reject_if. setoid_rewrite orb_false_iff. setoid_rewrite orb_false_iff.
  setoid_rewrite negb_false_iff. setoid_rewrite bool_decide_eq_true. setoid_rewrite bool_decide_eq_false.
  setoid_rewrite has_key_false. unfold scope_of. naive_solver.
Qed.

Lemma ordinary_active s sc i :
  ordinary (fun G _ => validate_active_entry s (sc, i)) = Ok tt <->
  scope_of i = sc /\ kg_tombstones s !! i = None /\ is_Some (kg_records s !! i)
  /\ kg_highest_epoch s !! sc = Some (key_epoch i).
Proof.
  destruct sc as [o r]. unfold validate_active_entry. rewrite (ordinary_step (fun G _ => gbind (reject_if _) _)) by lawful_body.
  rewrite !ordinary_reject_bind, ordinary_scope_bind, ordinary_reject_if, owner_text_ok_raw.
  rewrite !negb_false_iff, !bool_decide_eq_true, has_key_true, has_key_false.
  unfold scope_of. assert (Ho : raw (key_owner_id i) = raw o <-> key_owner_id i = o) by (split; [apply (inj raw)|by intros ->]).
  rewrite Ho. naive_solver.
Qed.

Lemma ordinary_latest s sc h :
  ordinary (fun G _ => validate_latest_epoch s (sc, h)) = Ok tt <->
  (kg_tombstones s !! latest sc h = None -> kg_pending_destructions s !! latest sc h = None ->
   kg_active s !! sc = Some (latest sc h)).
Proof.
  destruct sc as [o r]. unfold validate_latest_epoch. rewrite (ordinary_step (fun G _ => gbind (context_identity _ _ _) _)) by lawful_body.
  rewrite (ordinary_bind (fun G _ => context_identity o r h)) by apply lawful_identity. rewrite ordinary_identity. cbn [rbind].
  change (MkKeyIdentity o r h) with (latest (o, r) h).
  destruct (has_key (kg_tombstones s) (latest (o, r) h)) eqn:Ht; cbn [negb andb].
  { apply has_key_true in Ht as [t Ht]. unfold ordinary. cbn. naive_solver. }
  destruct (has_key (kg_pending_destructions s) (latest (o, r) h)) eqn:Hp; cbn [negb andb].
  { apply has_key_true in Hp as [t Hp]. unfold ordinary. cbn. naive_solver. }
  rewrite ordinary_scope_bind, ordinary_reject_if, negb_false_iff, bool_decide_eq_true.
  apply has_key_false in Ht, Hp. naive_solver.
Qed.

Lemma ordinary_tombstone s reserved i t reserved' :
  ordinary (fun G _ => validate_tombstone s reserved (i, t)) = Ok reserved' <->
  (tb_identity t = i /\ exists r, kg_records s !! i = Some r /\ kr_private_material_digest r = None)
  /\ (tb_destroyed_material_digest t ∉ reserved /\ reserved' = {[tb_destroyed_material_digest t]} ∪ reserved).
Proof.
  unfold validate_tombstone. rewrite (ordinary_step (fun G _ => gbind (required _) _)) by lawful_body.
  rewrite ordinary_require_bind. setoid_rewrite ordinary_reject_bind. setoid_rewrite ordinary_reject_bind.
  setoid_rewrite ordinary_reserve. setoid_rewrite negb_false_iff. setoid_rewrite bool_decide_eq_true.
  setoid_rewrite bool_decide_eq_false. setoid_rewrite <- eq_None_not_Some. naive_solver.
Qed.

Lemma raise_maximum_spec sc m i :
  raise_maximum sc m i = if decide (scope_of i = sc)
    then Some (match m with None => key_epoch i | Some p => Z.max p (key_epoch i) end) else m.
Proof.
  unfold raise_maximum. destruct sc as [o r]. unfold scope_of. cbn.
  case_decide as Hd.
  - injection Hd as <- <-. by rewrite !bool_decide_true.
  - destruct (bool_decide_reflect (raw (key_owner_id i) = raw o)) as [He%(inj raw)|]; [|done]. cbn.
    rewrite bool_decide_false; [done|]. congruence.
Qed.

(** [h] is the largest epoch of the scope among [m] and [ids]. *)
Definition is_maximum (sc : KeyScope) (ids : list KeyIdentityV1) (m : option Z) (h : Z) : Prop :=
  (m = Some h \/ exists i, i ∈ ids /\ scope_of i = sc /\ key_epoch i = h)
  /\ (forall p, m = Some p -> p <= h) /\ forall i, i ∈ ids -> scope_of i = sc -> key_epoch i <= h.

Lemma is_maximum_raise sc i ids m h : is_maximum sc ids (raise_maximum sc m i) h <-> is_maximum sc (i :: ids) m h.
Proof.
  unfold is_maximum. rewrite raise_maximum_spec. setoid_rewrite elem_of_cons. case_decide as Hd; [|naive_solver].
  split; intros (Hor & Hm & Hall).
  - specialize (Hm _ eq_refl). split_and!.
    + destruct Hor as [Hor|(j & ? & ? & ?)]; [|right; eauto]. injection Hor as Hor.
      destruct m as [p|]; [|right; eauto]. destruct (Z.max_spec p (key_epoch i)) as [[_ Hx]|[_ Hx]];
        rewrite Hx in Hor; [right; eauto|left; congruence].
    + intros p ->. lia.
    + intros j [->|Hj] Hs; [destruct m; lia|by apply Hall].
  - pose proof (Hall i (or_introl eq_refl) Hd) as Hi. split_and!.
    + destruct Hor as [->|(j & [->|Hj] & Hs & He)]; [left; f_equal; lia| |right; eauto].
      left. f_equal. destruct m as [p|]; [|done]. specialize (Hm _ eq_refl). lia.
    + intros p [= <-]. destruct m as [p|]; [specialize (Hm _ eq_refl)|]; lia.
    + intros j Hj. apply Hall. by right.
Qed.

Lemma fold_maximum sc ids m h : fold_left (raise_maximum sc) ids m = Some h <-> is_maximum sc ids m h.
Proof.
  revert m. induction ids as [|i ids IH]; intros m; cbn [fold_left]; [|by rewrite IH, is_maximum_raise].
  unfold is_maximum. split; [intros ->; split_and!; [by left|by intros p [= ->]|]|].
  - intros i Hi. by apply not_elem_of_nil in Hi.
  - intros ([?|(i & Hi & _)] & _); [done|]. by apply not_elem_of_nil in Hi.
Qed.

Lemma ordinary_high_water s sc h :
  ordinary (fun G _ => validate_maximum s (sc, h)) = Ok tt <->
  is_Some (kg_records s !! latest sc h)
  /\ forall i, is_Some (kg_records s !! i) -> scope_of i = sc -> key_epoch i <= h.
Proof.
  unfold validate_maximum. rewrite (ordinary_step (fun G _ => gbind (for_fold _ _ _) _)) by lawful_body.
  assert (Hfold : forall ids m, ordinary (fun G _ => for_fold ids
    (fun maximum identity => step (gret (raise_maximum sc maximum identity))) m) = Ok (fold_left (raise_maximum sc) ids m)).
  { induction ids as [|i ids IH]; intros m; cbn [for_fold fold_left]; [done|].
    rewrite (ordinary_bind (fun G _ => step _)) by lawful_body. rewrite (ordinary_step (fun G _ => gret _)) by apply lawful_ret.
    cbn. apply IH. }
  rewrite (ordinary_bind (fun G _ => for_fold _ _ None)) by lawful_body. rewrite Hfold. cbn [rbind].
  rewrite ordinary_reject_if, negb_false_iff, bool_decide_eq_true, fold_maximum. unfold is_maximum.
  assert (Hin : forall i, i ∈ (btree_iter identity_lt (kg_records s)).*1 <-> is_Some (kg_records s !! i)).
  { intros i. rewrite list_elem_of_fmap. split.
    - intros ([j r] & -> & Hj%elem_of_btree_iter). by exists r.
    - intros [r Hr]. exists (i, r). by rewrite elem_of_btree_iter. }
  setoid_rewrite Hin. split.
  - intros ([?|(i & Hi & <- & <-)] & _ & Hall); [done|]. split; [by destruct i|done].
  - intros [Hl Hall]. split_and!; [|done|done]. right. exists (latest sc h). by destruct sc.
Qed.

Definition live_material s : list Hash :=
  omap (fun e => kr_private_material_digest e.2) (btree_iter identity_lt (kg_records s)).
Definition destroyed_material s : list Hash :=
  omap (fun e => Some (tb_destroyed_material_digest e.2)) (btree_iter identity_lt (kg_tombstones s)).

Lemma elem_of_live_material s d :
  d ∈ live_material s <-> exists i r, kg_records s !! i = Some r /\ kr_private_material_digest r = Some d.
Proof.
  unfold live_material. rewrite list_elem_of_omap. split.
  - intros ([i r] & Hi%elem_of_btree_iter & Hd). eauto.
  - intros (i & r & Hi & Hd). exists (i, r). by rewrite elem_of_btree_iter.
Qed.

Lemma elem_of_destroyed_material s d :
  d ∈ destroyed_material s <-> exists i t, kg_tombstones s !! i = Some t /\ tb_destroyed_material_digest t = d.
Proof.
  unfold destroyed_material. rewrite list_elem_of_omap. split.
  - intros ([i t] & Hi%elem_of_btree_iter & [= Hd]). eauto.
  - intros (i & t & Hi & Hd). exists (i, t). rewrite elem_of_btree_iter. naive_solver.
Qed.

Lemma NoDup_live_material s :
  NoDup (live_material s) <-> forall i j r r' d, kg_records s !! i = Some r -> kg_records s !! j = Some r' ->
    kr_private_material_digest r = Some d -> kr_private_material_digest r' = Some d -> i = j.
Proof.
  unfold live_material. rewrite NoDup_omap; [|eapply NoDup_fmap_1, btree_iter_keys_NoDup]. split.
  - intros Hi i j r r' d Hr Hr' Hd Hd'. enough ((i, r) = (j, r')) by congruence.
    eapply Hi; [by apply elem_of_btree_iter..|done|done].
  - intros Hi [i r] [j r'] d Hr%elem_of_btree_iter Hr'%elem_of_btree_iter Hd Hd'. cbn in *.
    rewrite (Hi i j r r' d) in * by done. congruence.
Qed.

Lemma NoDup_destroyed_material s :
  NoDup (destroyed_material s) <-> forall i j t t', kg_tombstones s !! i = Some t -> kg_tombstones s !! j = Some t' ->
    tb_destroyed_material_digest t = tb_destroyed_material_digest t' -> i = j.
Proof.
  unfold destroyed_material. rewrite NoDup_omap; [|eapply NoDup_fmap_1, btree_iter_keys_NoDup]. split.
  - intros Hi i j t t' Ht Ht' Hd. enough ((i, t) = (j, t')) by congruence.
    eapply Hi; [by apply elem_of_btree_iter..|done|cbn; congruence].
  - intros Hi [i t] [j t'] d Ht%elem_of_btree_iter Ht'%elem_of_btree_iter Hd Hd'. cbn in *.
    rewrite (Hi i j t t') in * by congruence. congruence.
Qed.

(** Scanning both maps for a repeated fingerprint finds exactly the identities
    that share material. *)
Lemma material_unique s :
  (forall i t, kg_tombstones s !! i = Some t ->
     exists r, kg_records s !! i = Some r /\ kr_private_material_digest r = None) ->
  (NoDup (live_material s) /\ NoDup (destroyed_material s)
   /\ forall d, d ∈ destroyed_material s -> d ∉ live_material s)
  <-> forall i j d, material_of s i = Some d -> material_of s j = Some d -> i = j.
Proof.
  intros Ht. rewrite NoDup_live_material, NoDup_destroyed_material.
  setoid_rewrite elem_of_live_material. setoid_rewrite elem_of_destroyed_material.
  assert (Hcases : forall i d, material_of s i = Some d <->
    (exists t, kg_tombstones s !! i = Some t /\ tb_destroyed_material_digest t = d)
    \/ exists r, kg_records s !! i = Some r /\ kr_private_material_digest r = Some d).
  { intros i d. unfold material_of. destruct (kg_tombstones s !! i) as [t|] eqn:Hi.
    - destruct (Ht i t Hi) as (r & Hr & Hn). naive_solver congruence.
    - destruct (kg_records s !! i); cbn; naive_solver. }
  setoid_rewrite Hcases. clear Hcases. split.
  - intros (Hl & Hd & Hx) i j d [(t & Hi & He)|(r & Hi & Hr)] [(t' & Hj & He')|(r' & Hj & Hr')].
    + eapply Hd; [done..|congruence].
    + destruct (Hx d); eauto.
    + destruct (Hx d); eauto.
    + by eapply Hl.
  - intros Hall. split_and!; [by eauto 10|intros; eapply Hall; eauto|].
    intros d (i & t & Hi & <-) (j & r & Hj & Hr). destruct (Ht i t Hi) as (r' & Hr' & Hn).
    assert (i = j) as -> by (eapply Hall; eauto). congruence.
Qed.

Lemma ordinary_scan {K V B} `{Countable K} (lt : K -> K -> bool) (m : gmap K V) (P : K -> V -> Prop)
    (f : forall G, KeyRegistryReadGuardV1 G -> K * V -> Guarded G unit) (rest : Reading B) r :
  (forall e, lawful (fun G _ => f G _ e)) ->
  (forall k v, ordinary (fun G _ => f G _ (k, v)) = Ok tt <-> P k v) ->
  ordinary (fun G _ => gbind (for_each (btree_iter lt m) (f G _)) (fun _ => rest G _)) = Ok r
  <-> (forall k v, m !! k = Some v -> P k v) /\ ordinary rest = Ok r.
Proof.
  intros Hl Hf. rewrite (ordinary_bind_ok (fun G _ => for_each (btree_iter lt m) (f G _))) by auto with lawful.
  assert (Hscan : ordinary (fun G _ => for_each (btree_iter lt m) (f G _)) = Ok tt
                  <-> forall k v, m !! k = Some v -> P k v).
  { rewrite ordinary_for_each, Forall_btree_iter by done. naive_solver. }
  rewrite <- Hscan. split; [intros ([] & ? & ?); auto|intros [? ?]; by exists tt].
Qed.

(** Validation succeeds exactly on the registries that satisfy the invariant. *)
Lemma validate_native_exact s :
  ordinary (fun G _ => validate_with_read_context s) = Ok tt <-> registry_ok s.
Proof.
  unfold validate_with_read_context. rewrite (ordinary_step (fun G _ => validate_native_invariants s)).
  2: { unfold validate_native_invariants, validate_records, validate_pending_destructions,
    validate_high_water_maxima, validate_active, validate_latest_epochs, validate_tombstones. lawful_body. }
  unfold validate_native_invariants.
  rewrite (ordinary_bind_ok (fun G _ => validate_records s ∅)) by (unfold validate_records; lawful_body).
  unfold validate_records, validate_pending_destructions, validate_high_water_maxima, validate_active,
    validate_latest_epochs, validate_tombstones.
  setoid_rewrite (ordinary_reserving_loop (fun e => record_ok s e.1 e.2) (fun e => kr_private_material_digest e.2)
    (fun G _ => validate_record s)); [|apply lawful_record|intros ? []; apply ordinary_record].
  setoid_rewrite (ordinary_scan identity_lt _ _ (fun G _ => validate_pending s)); [|apply lawful_pending|apply ordinary_pending].
  setoid_rewrite (ordinary_scan scope_lt _ _ (fun G _ => validate_maximum s)); [|apply lawful_high_water|apply ordinary_high_water].
  setoid_rewrite (ordinary_scan scope_lt _ _ (fun G _ => validate_active_entry s)); [|apply lawful_active|apply ordinary_active].
  setoid_rewrite (ordinary_scan scope_lt _ _ (fun G _ => validate_latest_epoch s)); [|apply lawful_latest|apply ordinary_latest].
  setoid_rewrite (ordinary_bind_ok (fun G _ => for_fold _ _ _)); [|lawful_body].
  setoid_rewrite (ordinary_reserving_loop
    (fun e => tb_identity e.2 = e.1 /\ exists r, kg_records s !! e.1 = Some r /\ kr_private_material_digest r = None)
    (fun e => Some (tb_destroyed_material_digest e.2)) (fun G _ => validate_tombstone s));
    [|apply lawful_tombstone|intros ? []; apply ordinary_tombstone].
  setoid_rewrite Forall_btree_iter. cbn [fst snd]. fold (live_material s). fold (destroyed_material s). split.
  - intros (a & (Hr & Hn & _ & ->) & Hp & Hh & Ha & Hl & b & (Ht & Hd & Hx & _) & _).
    constructor; try done. apply material_unique; [naive_solver|]. split_and!; [done..|].
    intros d Hdd Hld. apply (Hx d Hdd). rewrite elem_of_union, elem_of_list_to_set. by left.
  - intros [Hr Hp Hh Ha Hl Ht Hm]. apply material_unique in Hm as (Hn & Hd & Hx); [|naive_solver].
    eexists. split_and!; [done|done|set_solver|reflexivity|done..|].
    eexists. split; [|done]. split_and!; [done|done| |reflexivity].
    intros d Hdd. rewrite elem_of_union, elem_of_list_to_set. intros [Hld|He]; [by eapply Hx|set_solver].
Qed.

Lemma validate_exact s : registry_validate s = Ok tt <-> registry_ok s.
Proof.
  rewrite <- validate_native_exact. unfold registry_validate.
  change ((@validate_with_read_context OrdinaryReadGuard _ s (context_new tt)).2)
    with (ordinary (fun G _ => validate_with_read_context s)).
  by destruct (ordinary (fun G _ => validate_with_read_context s)) as [[]|e].
Qed.

Lemma validate_cases s : registry_validate s = Ok tt \/ registry_validate s = Err KeyError.InvalidState.
Proof. unfold registry_validate. destruct (_.2) as [[]|]; cbn; auto. Qed.
End Exact.
