(* ===== verification/KeyRegistryProperties.v ===== *)
(** * What the key registry guarantees

    Every operation keeps the invariant and is an accepted replacement; accepted
    replacements never lose history; a key whose destruction was requested is
    never authorized again, and its material never registered again. *)

From Stdlib Require Import String ZArith Lia Bool.
From S2P Require Import Prelude Text FallbackRecords Keys KeyRegistry KeyRegistryInvariant.

Local Open Scope Z_scope.

Section Registry.
Context `{Blake3}.
Implicit Types (s next : KeyRegistryStateV1) (i : KeyIdentityV1).

(** ** Facts of a valid registry *)

Lemma material_is_reserved_spec s d :
  registry_ok s -> material_is_reserved s d = true <-> exists i, material_of s i = Some d.
Proof.
  intros Hok. unfold material_is_reserved, key_records, committed_destruction_facts.
  rewrite orb_true_iff, !existsb_exists. setoid_rewrite bool_decide_eq_true. split.
  - intros [(r & Hin & Hd)|(t & Hin & Hd)];
      apply list_elem_of_In, list_elem_of_fmap in Hin as ([i x] & -> & Hi%elem_of_btree_iter); exists i; unfold material_of; cbn in *.
    + destruct (kg_tombstones s !! i) as [t|] eqn:Ht; [|by rewrite Hi].
      destruct (ro_tombstone s Hok i t Ht) as (_ & r & Hr & Hn). congruence.
    + by rewrite Hi, Hd.
  - intros [i Hi]. unfold material_of in Hi. destruct (kg_tombstones s !! i) as [t|] eqn:Ht.
    + right. exists t. split; [|congruence]. apply list_elem_of_In, list_elem_of_fmap. exists (i, t).
      split; [done|by apply elem_of_btree_iter].
    + destruct (kg_records s !! i) as [r|] eqn:Hr; [|done]. left. exists r. split; [|done].
      apply list_elem_of_In, list_elem_of_fmap. exists (i, r). split; [done|by apply elem_of_btree_iter].
Qed.

Record registers (s : KeyRegistryStateV1) (r : KeyRegistrationV1) : Prop := {
  rg_epoch : key_epoch (reg_identity r) <> 0;
  rg_public : is_signing (key_role (reg_identity r)) = bool_decide (is_Some (reg_public_verification_key r));
  rg_tombstone : kg_tombstones s !! reg_identity r = None;
  rg_pending : kg_pending_destructions s !! reg_identity r = None;
  rg_highest : forall h, kg_highest_epoch s !! scope_of (reg_identity r) = Some h -> h < key_epoch (reg_identity r);
  rg_record : kg_records s !! reg_identity r = None;
  rg_material : forall j, material_of s j <> Some (reg_private_material_digest r);
}.

Lemma validate_registration_spec r :
  validate_registration r = Ok tt <->
  key_epoch (reg_identity r) <> 0
  /\ is_signing (key_role (reg_identity r)) = bool_decide (is_Some (reg_public_verification_key r)).
Proof.
  unfold validate_registration. rewrite is_encryption_signing.
  destruct (Z.eqb_spec (key_epoch (reg_identity r)) 0); [naive_solver|].
  destruct (is_signing _), (reg_public_verification_key r); cbn; naive_solver.
Qed.

(** A registration is new exactly when its identity is above the high-water mark of
    its role and its material was never used. *)
Lemma registration_new s r :
  registry_ok s -> registration_checks s r = Ok true <-> registers s r.
Proof.
  intros Hok. unfold registration_checks. rewrite (proj2 (validate_exact s) Hok). cbn [rbind]. split.
  - intros ([] & [He Hp]%validate_registration_spec & Hc)%rbind_ok_inv.
    destruct (has_key (kg_tombstones s) _) eqn:Ht; [done|]. apply has_key_false in Ht.
    destruct (has_key (kg_pending_destructions s) _) eqn:Hd; [done|]. apply has_key_false in Hd.
    apply rbind_ok_inv in Hc as (u & Hhigh & Hc).
    destruct (kg_records s !! reg_identity r) eqn:Hr; [by destruct (_ && _)|].
    destruct (material_is_reserved s _) eqn:Hm; [done|]. constructor; try done.
    + intros h Hh. rewrite Hh in Hhigh. destruct (Z.ltb_spec (key_epoch (reg_identity r)) h); [done|].
      destruct (ro_highest s Hok _ _ Hh) as [[x Hx] _]. destruct (decide (h = key_epoch (reg_identity r))) as [->|]; [|lia].
      unfold latest in Hx. rewrite identity_eta in Hx. congruence.
    + intros j Hj. assert (material_is_reserved s (reg_private_material_digest r) = true); [|congruence].
      apply material_is_reserved_spec; eauto.
  - intros [He Hp Ht Hd Hh Hr Hm]. rewrite (proj2 (validate_registration_spec r)) by done. cbn [rbind].
    rewrite (proj2 (has_key_false _ _) Ht), (proj2 (has_key_false _ _) Hd), Hr.
    destruct (material_is_reserved s _) eqn:Hres; [apply material_is_reserved_spec in Hres as [j Hj]; [by destruct (Hm j)|done]|].
    destruct (kg_highest_epoch s !! _) as [h|] eqn:Hhh; [|done]. specialize (Hh h eq_refl).
    by rewrite (proj2 (Z.ltb_ge _ _)) by lia.
Qed.

(** ** The invariant is kept *)

Definition registered (s : KeyRegistryStateV1) (r : KeyRegistrationV1) : KeyRegistryStateV1 :=
  MkRegistry
    (<[reg_identity r := MkKeyRecord (reg_identity r) (Some (reg_private_material_digest r)) (reg_public_verification_key r)]>
       (kg_records s))
    (<[scope_of (reg_identity r) := reg_identity r]> (kg_active s)) (kg_tombstones s)
    (<[scope_of (reg_identity r) := key_epoch (reg_identity r)]> (kg_highest_epoch s)) (kg_pending_destructions s).

Lemma material_of_registered s r i :
  registers s r ->
  material_of (registered s r) i
  = if decide (i = reg_identity r) then Some (reg_private_material_digest r) else material_of s i.
Proof.
  intros Hr. unfold material_of. cbn. case_decide as Hi.
  - subst. by rewrite (rg_tombstone s r Hr), lookup_insert_eq.
  - by rewrite lookup_insert_ne by congruence.
Qed.

Lemma registered_ok s r : registry_ok s -> registers s r -> registry_ok (registered s r).
Proof.
  intros Hok Hr. pose proof Hr as [He Hp Ht Hd Hh Hrec Hm]. constructor; cbn.
  - intros i x [[<- <-]|[Hne Hx]]%lookup_insert_Some.
    + constructor; cbn; try done. by rewrite lookup_insert_eq.
    + destruct (ro_record s Hok i x Hx) as [H1 H2 H3 H4 H5]. constructor; cbn; try done.
      apply lookup_insert_is_Some. destruct (decide (scope_of (reg_identity r) = scope_of i)); auto.
  - intros i q Hq. destruct (ro_pending s Hok i q Hq) as (Hid & Hti & Hact & x & Hx & Hdx).
    assert (reg_identity r <> i) by congruence. split_and!; [done|done| |exists x; by rewrite lookup_insert_ne].
    intros [[_ ?]|[_ ?]]%lookup_insert_Some; congruence.
  - intros sc h [[<- <-]|[Hne Hsc]]%lookup_insert_Some.
    + unfold latest. rewrite identity_eta, lookup_insert_eq. split; [done|].
      intros j [x [[<- _]|[_ Hx]]%lookup_insert_Some] Hsj; [lia|].
      destruct (rk_scope _ _ _ (ro_record s Hok j x Hx)) as [h Hhj]. rewrite Hsj in Hhj. specialize (Hh h Hhj).
      pose proof (proj2 (ro_highest s Hok _ h Hhj) j (ex_intro _ x Hx) Hsj). lia.
    + destruct (ro_highest s Hok sc h Hsc) as [Hl Hall]. split.
      * apply lookup_insert_is_Some'. by right.
      * intros j [x [[<- _]|[_ Hx]]%lookup_insert_Some] Hsj; [done|]. apply Hall; [by exists x|done].
  - intros sc i [[<- <-]|[Hne Hi]]%lookup_insert_Some; [by rewrite !lookup_insert_eq|].
    destruct (ro_active s Hok sc i Hi) as (Hs & Hti & Hri & Hhi). rewrite (lookup_insert_ne _ (scope_of _)) by done.
    split_and!; try done. apply lookup_insert_is_Some'. by right.
  - intros sc h [[<- <-]|[Hne Hsc]]%lookup_insert_Some Hti Hpi.
    + unfold latest. by rewrite identity_eta, lookup_insert_eq.
    + rewrite lookup_insert_ne by done. by apply (ro_latest s Hok).
  - intros i t Hi. destruct (ro_tombstone s Hok i t Hi) as (Hid & x & Hx & Hn). split; [done|].
    exists x. rewrite lookup_insert_ne by congruence. done.
  - intros i j d. change (MkRegistry _ _ _ _ _) with (registered s r). rewrite !material_of_registered by done.
    do 2 case_decide; subst; try done; [| |by apply (ro_material s Hok)];
      intros Hi Hj; exfalso; [apply (Hm j)|apply (Hm i)]; congruence.
Qed.

Definition pending_state (s : KeyRegistryStateV1) (q : KeyDestructionRequestV1) : KeyRegistryStateV1 :=
  MkRegistry (kg_records s)
    (if bool_decide (kg_active s !! scope_of (dr_identity q) = Some (dr_identity q))
     then delete (scope_of (dr_identity q)) (kg_active s) else kg_active s)
    (kg_tombstones s) (kg_highest_epoch s) (<[dr_identity q := q]> (kg_pending_destructions s)).

(** The request names a live identity and its material. *)
Record destroys (s : KeyRegistryStateV1) (q : KeyDestructionRequestV1) : Prop := {
  ds_tombstone : kg_tombstones s !! dr_identity q = None;
  ds_pending : kg_pending_destructions s !! dr_identity q = None;
  ds_record : exists r, kg_records s !! dr_identity q = Some r
                /\ kr_private_material_digest r = Some (dr_expected_material_digest q);
}.

Lemma pending_active s q sc i :
  registry_ok s -> kg_active (pending_state s q) !! sc = Some i <-> kg_active s !! sc = Some i /\ i <> dr_identity q.
Proof.
  intros Hok. cbn. case_bool_decide as Ha.
  - rewrite lookup_delete_Some. split; [|intros [Hi Hne]; split; [|done]].
    + intros [Hne Hi]. split; [done|]. intros ->. destruct (ro_active s Hok _ _ Hi) as [Hs _]. congruence.
    + intros <-. congruence.
  - split; [|by intros []]. intros Hi. split; [done|]. intros ->. destruct (ro_active s Hok _ _ Hi) as [Hs _]. congruence.
Qed.

Lemma pending_state_ok s q : registry_ok s -> destroys s q -> registry_ok (pending_state s q).
Proof.
  intros Hok [Ht Hp (r & Hr & Hd)]. constructor.
  - intros i x Hx. by destruct (ro_record s Hok i x Hx).
  - intros i q' Hq. cbn [kg_pending_destructions pending_state] in Hq.
    rewrite pending_active by done. apply lookup_insert_Some in Hq as [[<- <-]|[Hne Hq]].
    + split_and!; [done|done|naive_solver|by exists r].
    + destruct (ro_pending s Hok i q' Hq) as (Hid & Hti & Hact & Hx). split_and!; [done|done|naive_solver|done].
  - intros sc h Hh. by apply (ro_highest s Hok).
  - intros sc i [Hi _]%pending_active; [|done]. by apply (ro_active s Hok).
  - intros sc h Hh Hti Hpi. cbn in Hh, Hti, Hpi. apply lookup_insert_None in Hpi as [Hpi Hne].
    apply pending_active; [done|]. split; [by apply (ro_latest s Hok)|done].
  - intros i t Hi. by apply (ro_tombstone s Hok).
  - intros i j d. apply (ro_material s Hok).
Qed.

Definition tombstone_of (q : KeyDestructionRequestV1) : KeyTombstoneV1 :=
  MkTombstone (dr_identity q) (dr_expected_material_digest q) (destruction_digest q) (deletion_receipt q).

Definition destroyed_state (s : KeyRegistryStateV1) (q : KeyDestructionRequestV1) (r : KeyRecordV1) : KeyRegistryStateV1 :=
  MkRegistry
    (<[dr_identity q := MkKeyRecord (kr_identity r) None (kr_public_verification_key r)]> (kg_records s))
    (kg_active s) (<[dr_identity q := tombstone_of q]> (kg_tombstones s)) (kg_highest_epoch s)
    (delete (dr_identity q) (kg_pending_destructions s)).

Lemma material_of_destroyed s q r i :
  registry_ok s -> kg_pending_destructions s !! dr_identity q = Some q ->
  material_of (destroyed_state s q r) i = material_of s i.
Proof.
  intros Hok Hq. destruct (ro_pending s Hok _ _ Hq) as (_ & Ht & _ & x & Hx & Hd). unfold material_of. cbn.
  destruct (decide (i = dr_identity q)) as [->|Hne].
  - rewrite lookup_insert_eq, Ht, Hx. by cbn.
  - by rewrite !lookup_insert_ne by congruence.
Qed.

Lemma destroyed_state_ok s q r :
  registry_ok s -> kg_pending_destructions s !! dr_identity q = Some q -> kg_records s !! dr_identity q = Some r ->
  registry_ok (destroyed_state s q r).
Proof.
  intros Hok Hq Hr. pose proof (ro_pending s Hok _ _ Hq) as (_ & Ht & Hact & x & Hx & Hd).
  assert (Hsome : forall i, is_Some (kg_records (destroyed_state s q r) !! i) <-> is_Some (kg_records s !! i)).
  { intros i. cbn. rewrite lookup_insert_is_Some'. destruct (decide (dr_identity q = i)) as [<-|]; [|naive_solver].
    split; [by eexists|by left]. }
  constructor.
  - intros i y Hy. cbn in Hy. apply lookup_insert_Some in Hy as [[<- <-]|[Hne Hy]].
    + destruct (ro_record s Hok _ _ Hr) as [H1 H2 H3 H4 _]. constructor; cbn; try done. by rewrite lookup_insert_eq.
    + destruct (ro_record s Hok _ _ Hy) as [H1 H2 H3 H4 H5]. constructor; cbn; try done.
      intros Hn. apply lookup_insert_is_Some'. auto.
  - intros i q' Hq'. cbn in Hq'. apply lookup_delete_Some in Hq' as [Hne Hq']. destruct (ro_pending s Hok _ _ Hq') as (Hid & Hti & Ha & y & Hy & Hdy).
    cbn. rewrite !lookup_insert_ne by done. split_and!; [done..|by exists y].
  - intros sc h Hh. destruct (ro_highest s Hok sc h Hh) as [Hl Hall]. split; [by apply Hsome|].
    intros i Hi. by apply Hall, Hsome.
  - intros sc i Hi. destruct (ro_active s Hok sc i Hi) as (Hs & Hti & Hri & Hh).
    assert (dr_identity q <> i) by (intros <-; apply Hact; by rewrite Hs).
    split_and!; [done|cbn; by rewrite lookup_insert_ne|by apply Hsome|done].
  - intros sc h Hh Hti Hpi. cbn in Hh, Hti, Hpi. apply lookup_insert_None in Hti as [Hti Hne]. rewrite lookup_delete_ne in Hpi by done.
    by apply (ro_latest s Hok).
  - intros i t Hi. cbn in Hi. apply lookup_insert_Some in Hi as [[<- <-]|[Hne Hi]]; cbn.
    + split; [done|]. eexists. by rewrite lookup_insert_eq.
    + rewrite lookup_insert_ne by done. by apply (ro_tombstone s Hok).
  - intros i j d. rewrite !material_of_destroyed by done. apply (ro_material s Hok).
Qed.

(** ** Steps and replacements *)

Inductive registry_op :=
| OpRegister (r : KeyRegistrationV1)
| OpBegin (q : KeyDestructionRequestV1)
| OpComplete (q : KeyDestructionRequestV1) (receipt : Hash).

Definition run_registry_op (op : registry_op) (s : KeyRegistryStateV1) : KeyRegistryStateV1 :=
  match op with
  | OpRegister r => (register_key r s).1
  | OpBegin q => (begin_key_destruction q s).1
  | OpComplete q receipt => (complete_key_destruction q receipt s).1
  end.

Inductive registry_reachable : KeyRegistryStateV1 -> Prop :=
| registry_start : registry_reachable registry_new
| registry_runs op s : registry_reachable s -> registry_reachable (run_registry_op op s).

(** What an operation can do to a registry. *)
Inductive registry_step (s : KeyRegistryStateV1) : KeyRegistryStateV1 -> Prop :=
| step_same : registry_step s s
| step_register r : registers s r -> registry_step s (registered s r)
| step_begin q : destroys s q -> registry_step s (pending_state s q)
| step_complete q r :
    kg_pending_destructions s !! dr_identity q = Some q -> kg_records s !! dr_identity q = Some r ->
    registry_step s (destroyed_state s q r).

Lemma run_registry_op_step op s : registry_ok s -> registry_step s (run_registry_op op s).
Proof.
  intros Hok. pose proof (proj2 (validate_exact s) Hok) as Hv. destruct op as [r|q|q receipt]; cbn.
  - unfold register_key. destruct (registration_checks s r) as [[]|] eqn:Hr; try apply step_same.
    by apply step_register, registration_new.
  - unfold begin_key_destruction. destruct (key_epoch _ =? 0); [apply step_same|]. rewrite Hv.
    destruct (kg_tombstones s !! _) eqn:Ht; [apply step_same|]. destruct (kg_pending_destructions s !! _) eqn:Hp; [apply step_same|].
    destruct (kg_records s !! _) as [x|] eqn:Hx; [|apply step_same].
    case_bool_decide as Hd; [|apply step_same]. apply step_begin. by constructor; eauto.
  - unfold complete_key_destruction. destruct (key_epoch _ =? 0); [apply step_same|]. rewrite Hv.
    destruct (kg_tombstones s !! _) eqn:Ht; [apply step_same|].
    case_bool_decide as Hp; [|apply step_same]. case_bool_decide as Hr; [|apply step_same]. subst receipt.
    destruct (kg_records s !! _) as [x|] eqn:Hx; [|apply step_same]. by apply step_complete.
Qed.

Lemma registry_step_ok s s' : registry_ok s -> registry_step s s' -> registry_ok s'.
Proof.
  intros Hok [|r Hr|q Hq|q r Hq Hr];
    [done|by apply registered_ok|by apply pending_state_ok|by apply destroyed_state_ok].
Qed.

Lemma registry_new_ok : registry_ok registry_new.
Proof. constructor; cbn; unfold material_of; cbn; try done. Qed.

Lemma reachable_registry_ok s : registry_reachable s -> registry_ok s.
Proof.
  induction 1 as [|op s _ IH]; [apply registry_new_ok|].
  by eapply registry_step_ok, run_registry_op_step.
Qed.

(** What the validation of a replacement accepts. *)
Record replaces (s next : KeyRegistryStateV1) : Prop := {
  rp_previous : registry_ok s;
  rp_next : registry_ok next;
  rp_appended : forall i, is_Some (kg_records next !! i) -> kg_records s !! i = None ->
    kg_tombstones next !! i = None /\ kg_pending_destructions next !! i = None
    /\ forall h, kg_highest_epoch s !! scope_of i = Some h -> h < key_epoch i;
  rp_retained : forall i r, kg_records s !! i = Some r -> exists r', kg_records next !! i = Some r'
    /\ kr_public_verification_key r' = kr_public_verification_key r
    /\ (kr_private_material_digest r' = kr_private_material_digest r
        \/ kr_private_material_digest r' = None /\ is_Some (kg_pending_destructions s !! i))
    /\ (kr_private_material_digest r = None -> kg_tombstones next !! i = kg_tombstones s !! i);
  rp_pending : forall i q, kg_pending_destructions s !! i = Some q ->
    kg_pending_destructions next !! i = Some q
    \/ exists t, kg_tombstones next !! i = Some t /\ tb_destroyed_material_digest t = dr_expected_material_digest q
         /\ tb_destruction_digest t = destruction_digest q /\ tb_deletion_receipt t = deletion_receipt q;
}.

Lemma all_ok_spec {A} (f : A -> bool) l : all_ok f l = Ok tt <-> Forall (fun x => f x = true) l.
Proof.
  induction l as [|x l IH]; cbn; [by split|]. rewrite Forall_cons. destruct (f x); [rewrite IH|]; naive_solver.
Qed.

Lemma retained_ok_spec s next i r :
  registry_ok s -> registry_ok next -> kg_records s !! i = Some r -> record_kept s next (i, r) = true <->
  exists r', kg_records next !! i = Some r'
    /\ kr_public_verification_key r' = kr_public_verification_key r
    /\ (kr_private_material_digest r' = kr_private_material_digest r
        \/ kr_private_material_digest r' = None /\ is_Some (kg_pending_destructions s !! i))
    /\ (kr_private_material_digest r = None -> kg_tombstones next !! i = kg_tombstones s !! i).
Proof.
  intros Hs Hn Hr. unfold record_kept. destruct (kg_records next !! i) as [r'|] eqn:Hr'; [|naive_solver].
  rewrite !andb_true_iff, !bool_decide_eq_true.
  rewrite (rk_identity _ _ _ (ro_record next Hn i r' Hr')), (rk_identity _ _ _ (ro_record s Hs i r Hr)).
  transitivity (kr_public_verification_key r' = kr_public_verification_key r
    /\ (kr_private_material_digest r' = kr_private_material_digest r
        \/ kr_private_material_digest r' = None /\ is_Some (kg_pending_destructions s !! i))
    /\ (kr_private_material_digest r = None -> kg_tombstones next !! i = kg_tombstones s !! i)); [|naive_solver].
  destruct (kr_private_material_digest r) as [d|], (kr_private_material_digest r') as [d'|];
    rewrite ?bool_decide_eq_true, ?has_key_true; try naive_solver.
Qed.

Lemma validate_replacement_exact s next : validate_replacement s next = Ok tt <-> replaces s next.
Proof.
  unfold validate_replacement. transitivity (registry_ok s /\ registry_ok next
    /\ Forall (fun i => appended_later s next i = true) (btree_iter identity_lt (kg_records next)).*1
    /\ Forall (fun e => record_kept s next e = true) (btree_iter identity_lt (kg_records s))
    /\ Forall (fun e => pending_kept next e = true) (btree_iter identity_lt (kg_pending_destructions s))).
  { rewrite <- !validate_exact, <- !all_ok_spec.
    destruct (registry_validate s) as [[]|]; cbn; [|naive_solver]. destruct (registry_validate next) as [[]|]; cbn; [|naive_solver].
    destruct (all_ok (appended_later s next) _) as [[]|]; cbn; [|naive_solver].
    destruct (all_ok (record_kept s next) _) as [[]|]; cbn; naive_solver. }
  rewrite Forall_fmap, !Forall_btree_iter. split.
  - intros (Hs & Hn & Ha & Hr & Hp). constructor; [done|done| | |].
    + intros i [r Hi] Hno. specialize (Ha i r Hi). cbn in Ha. unfold appended_later in Ha.
      rewrite (proj2 (has_key_false _ _) Hno) in Ha. cbn in Ha.
      apply andb_true_iff in Ha as [[Ht Hq]%negb_true_iff%orb_false_iff Hh%negb_true_iff].
      split_and!; [by apply has_key_false in Ht|by apply has_key_false in Hq|]. intros h Heq. rewrite Heq in Hh. lia.
    + intros i r Hi. by apply (retained_ok_spec s next), Hr.
    + intros i q Hq. specialize (Hp i q Hq). cbn in Hp. apply orb_true_iff in Hp as [Hp%bool_decide_eq_true|Hp]; [by left|right].
      destruct (kg_tombstones next !! i) as [t|]; [|done]. exists t.
      rewrite !andb_true_iff, !bool_decide_eq_true in Hp. naive_solver.
  - intros [Hs Hn Ha Hr Hp]. split_and!; [done|done| | |].
    + intros i r Hi. cbn. unfold appended_later. destruct (has_key (kg_records s) i) eqn:Hno; [done|].
      apply has_key_false in Hno. destruct (Ha i (ex_intro _ r Hi) Hno) as (Ht & Hq & Hh). cbn.
      rewrite (proj2 (has_key_false _ _) Ht), (proj2 (has_key_false _ _) Hq). cbn.
      destruct (kg_highest_epoch s !! scope_of i) as [h|]; [|done]. specialize (Hh h eq_refl). lia.
    + intros i r Hi. by apply retained_ok_spec, Hr.
    + intros i q Hq. cbn. apply orb_true_iff. destruct (Hp i q Hq) as [Hq'|(t & Ht & H1 & H2 & H3)].
      * left. by apply bool_decide_eq_true.
      * right. by rewrite Ht, !bool_decide_true.
Qed.

Lemma registry_step_replaces s s' : registry_ok s -> registry_step s s' -> replaces s s'.
Proof.
  intros Hok Hst. pose proof (registry_step_ok s s' Hok Hst) as Hok'. destruct Hst as [|r Hr|q Hq|q r Hq Hr].
  - constructor; [done|done| | |by left].
    + intros i [r Hi] Hno. congruence.
    + intros i r Hi. exists r. auto.
  - constructor; [done|done| | |by left].
    + intros i Hi Hno. cbn in Hi. apply lookup_insert_is_Some' in Hi as [<-|[r' Hi]]; [|congruence].
      by destruct Hr.
    + intros i x Hx. exists x. cbn. rewrite lookup_insert_ne by (intros <-; by rewrite (rg_record _ _ Hr) in Hx). auto.
  - constructor; [done|done| | |].
    + intros i [r Hi] Hno. cbn in Hi. congruence.
    + intros i r Hi. exists r. auto.
    + intros i q' Hi. left. cbn. rewrite lookup_insert_ne; [done|]. intros <-. by rewrite (ds_pending _ _ Hq) in Hi.
  - constructor; [done|done| | |].
    + intros i Hi Hno. cbn in Hi. apply lookup_insert_is_Some' in Hi as [<-|[x Hi]]; congruence.
    + intros i x Hx. cbn. destruct (decide (dr_identity q = i)) as [<-|Hne].
      * rewrite lookup_insert_eq. eexists. split; [done|]. cbn. rewrite Hx in Hr. injection Hr as ->.
        split_and!; [done|right; split; [done|by exists q]|]. intros Hn.
        destruct (ro_pending s Hok _ _ Hq) as (_ & _ & _ & y & Hy & Hd). congruence.
      * rewrite !lookup_insert_ne by done. eauto 10.
    + intros i q' Hi. cbn. destruct (decide (dr_identity q = i)) as [<-|Hne].
      * right. exists (tombstone_of q). rewrite lookup_insert_eq. split; [done|]. by rewrite Hq in Hi; injection Hi as <-.
      * left. by rewrite lookup_delete_ne.
Qed.

(** ** History *)

(** [next] knows everything [s] knows. *)
Record registry_extends (s next : KeyRegistryStateV1) : Prop := {
  ex_record : forall i r, kg_records s !! i = Some r ->
    exists r', kg_records next !! i = Some r' /\ kr_public_verification_key r' = kr_public_verification_key r;
  ex_tombstone : kg_tombstones s ⊆ kg_tombstones next;
  ex_material : forall i d, material_of s i = Some d -> material_of next i = Some d;
  ex_highest : forall sc h, kg_highest_epoch s !! sc = Some h ->
    exists h', kg_highest_epoch next !! sc = Some h' /\ h <= h';
  ex_pending : forall i q, kg_pending_destructions s !! i = Some q ->
    kg_pending_destructions next !! i = Some q
    \/ exists t, kg_tombstones next !! i = Some t /\ tb_destroyed_material_digest t = dr_expected_material_digest q
         /\ tb_destruction_digest t = destruction_digest q /\ tb_deletion_receipt t = deletion_receipt q;
}.

#[export] Instance extends_preorder : PreOrder registry_extends.
Proof.
  split.
  - intros s. constructor; eauto.
    intros sc h Hh. exists h. split; [done|lia].
  - intros a b c [R1 T1 M1 H1 P1] [R2 T2 M2 H2 P2]. constructor.
    + intros i r (r' & Hr' & He)%R1. destruct (R2 i r' Hr') as (r'' & ? & ?). exists r''. split; congruence.
    + by transitivity (kg_tombstones b).
    + auto.
    + intros sc h (h' & Hh' & ?)%H1. destruct (H2 sc h' Hh') as (h'' & ? & ?). exists h''. split; [done|lia].
    + intros i q [Hq|(t & Ht & ?)]%P1; [by apply P2|]. right. exists t. split; [|done]. by eapply lookup_weaken.
Qed.

Lemma replaces_extends s next : replaces s next -> registry_extends s next.
Proof.
  intros [Hs Hn Ha Hr Hp]. constructor; [| | | |done].
  - intros i r Hi. destruct (Hr i r Hi) as (r' & Hr' & Hpub & _). eauto.
  - apply map_subseteq_spec. intros i t Ht. destruct (ro_tombstone s Hs i t Ht) as (_ & r & Hi & Hd).
    destruct (Hr i r Hi) as (r' & _ & _ & _ & Heq). by rewrite Heq.
  - intros i d. unfold material_of at 1. destruct (kg_tombstones s !! i) as [t|] eqn:Ht.
    + intros [= <-]. destruct (ro_tombstone s Hs i t Ht) as (_ & r & Hi & Hd).
      destruct (Hr i r Hi) as (r' & _ & _ & _ & Heq). unfold material_of. by rewrite Heq, Ht by done.
    + destruct (kg_records s !! i) as [r|] eqn:Hi; [|done]. cbn. intros Hd.
      destruct (Hr i r Hi) as (r' & Hi' & _ & [Heq|[Hnone [q Hq]]] & _); unfold material_of.
      * destruct (kg_tombstones next !! i) as [t|] eqn:Ht'; [|by rewrite Hi', <- Hd].
        destruct (ro_tombstone next Hn i t Ht') as (_ & x & Hx & Hxd). congruence.
      * destruct (ro_pending s Hs i q Hq) as (_ & _ & _ & x & Hx & Hxd).
        destruct (Hp i q Hq) as [Hq'|(t & -> & Htd & _)].
        -- destruct (ro_pending next Hn i q Hq') as (_ & _ & _ & y & Hy & Hyd). congruence.
        -- congruence.
  - intros sc h Hh. destruct (ro_highest s Hs sc h Hh) as [[r Hl] _]. destruct (Hr _ r Hl) as (r' & Hl' & _).
    destruct (rk_scope _ _ _ (ro_record next Hn _ r' Hl')) as [h' Hh']. destruct sc as [o ro]. cbn in Hh'.
    exists h'. split; [done|]. by apply (proj2 (ro_highest next Hn _ h' Hh') (latest (o, ro) h)); [exists r'|].
Qed.

Lemma replacements_extend s next : rtc replaces s next -> registry_extends s next.
Proof. induction 1 as [|a b c Hab _ IH]; [done|]. etrans; [by apply replaces_extends|done]. Qed.

(** ** Authorization *)

(** A destruction of the identity was requested. *)
Definition retired (s : KeyRegistryStateV1) (i : KeyIdentityV1) : Prop :=
  is_Some (kg_tombstones s !! i) \/ is_Some (kg_pending_destructions s !! i).

Lemma extends_retired s next i : registry_extends s next -> retired s i -> retired next i.
Proof.
  intros He [[t Ht]|[q Hq]].
  - left. exists t. by eapply lookup_weaken, (ex_tombstone _ _ He).
  - destruct (ex_pending _ _ He i q Hq) as [Hq'|(t & Ht & _)]; [right|left]; by eexists.
Qed.

(** The identity holds this live material. *)
Definition holds (s : KeyRegistryStateV1) (i : KeyIdentityV1) (d : Hash) (r : KeyRecordV1) : Prop :=
  kg_records s !! i = Some r /\ kr_private_material_digest r = Some d /\ ~ retired s i.

Definition can_sign s i d (k : PublicKey) : Prop :=
  kg_highest_epoch s !! scope_of i = Some (key_epoch i)
  /\ exists r, holds s i d r /\ kr_public_verification_key r = Some k.
Definition can_encrypt s i d : Prop :=
  is_encryption (key_role i) = true /\ kg_highest_epoch s !! scope_of i = Some (key_epoch i) /\ exists r, holds s i d r.
Definition can_decrypt s i d : Prop := is_encryption (key_role i) = true /\ exists r, holds s i d r.

Lemma live_record_spec s i r : live_record s i = Ok r <-> kg_records s !! i = Some r /\ ~ retired s i.
Proof.
  unfold live_record, retired. rewrite <- !has_key_true. destruct (kg_records s !! i) as [x|]; cbn; [|naive_solver].
  destruct (has_key (kg_tombstones s) i), (has_key (kg_pending_destructions s) i); naive_solver.
Qed.

(** The active identity of a role is its latest one, while it is not retired. *)
Lemma active_record_spec s i r :
  registry_ok s ->
  active_record s i = Ok r
  <-> (kg_records s !! i = Some r /\ ~ retired s i) /\ kg_highest_epoch s !! scope_of i = Some (key_epoch i).
Proof.
  intros Hok. rewrite <- live_record_spec. unfold active_record. destruct (live_record s i) as [x|e] eqn:Hl; cbn; [|naive_solver].
  apply live_record_spec in Hl as [Hx Hnr].
  transitivity (x = r /\ kg_active s !! scope_of i = Some i).
  { destruct (kg_active s !! scope_of i) as [j|]; cbn; [|naive_solver]. case_bool_decide; naive_solver. }
  split; intros [He Ha]; simplify_eq; split; try done.
  - by apply (ro_active s Hok).
  - rewrite (ro_latest s Hok _ _ Ha); unfold latest; rewrite ?identity_eta; [done| |];
      apply eq_None_not_Some; intros Hs; apply Hnr; [by left|by right].
Qed.

Lemma authorized_spec {W T} (checks : KeyResult unit) (operation : W -> W * T) (P : Prop) w :
  (checks = Ok tt <-> P) ->
  (P -> authorized checks operation w = (let (w', t) := operation w in (w', Ok t)))
  /\ (~ P -> exists e, authorized checks operation w = (w, Err e)).
Proof. unfold authorized. destruct checks as [[]|e]; naive_solver. Qed.

Section Checks.
Context (s : KeyRegistryStateV1) (Hok : registry_ok s) (i : KeyIdentityV1) (d : Hash).

Lemma available : registry_available s = Ok tt.
Proof. unfold registry_available. by rewrite (proj2 (validate_exact s) Hok). Qed.

Lemma epoch_nonzero r : kg_records s !! i = Some r -> (key_epoch i =? 0) = false.
Proof. intros Hr. apply Z.eqb_neq. by destruct (ro_record s Hok i r Hr). Qed.

Lemma signing_checks_spec k : signing_checks s i d k = Ok tt <-> can_sign s i d k.
Proof.
  unfold signing_checks, can_sign, holds. rewrite available. cbn [rbind]. split.
  - destruct (key_epoch i =? 0); [done|]. destruct (is_signing (key_role i)); [|done]. cbn.
    intros (r & [[Hr Hn] Hh]%active_record_spec & Hc)%rbind_ok_inv; [|done].
    do 2 (case_bool_decide; [|done]). eauto 10.
  - intros (Hh & r & (Hr & Hd & Hn) & Hk). rewrite (epoch_nonzero r Hr).
    rewrite (rk_public _ _ _ (ro_record s Hok i r Hr)), bool_decide_true by (by eexists). cbn.
    rewrite (proj2 (active_record_spec s i r Hok)) by done. cbn. by rewrite !bool_decide_true.
Qed.

Lemma encryption_checks_spec : encryption_checks s i d = Ok tt <-> can_encrypt s i d.
Proof.
  unfold encryption_checks, can_encrypt, holds. rewrite available. cbn [rbind]. split.
  - destruct (key_epoch i =? 0); [done|]. destruct (is_encryption (key_role i)); [|done]. cbn.
    intros (r & [[Hr Hn] Hh]%active_record_spec & Hc)%rbind_ok_inv; [|done].
    case_bool_decide; [|done]. eauto 10.
  - intros (He & Hh & r & Hr & Hd & Hn). rewrite (epoch_nonzero r Hr), He. cbn.
    rewrite (proj2 (active_record_spec s i r Hok)) by done. cbn. by rewrite bool_decide_true.
Qed.

Lemma decryption_checks_spec : decryption_checks s i d = Ok tt <-> can_decrypt s i d.
Proof.
  unfold decryption_checks, can_decrypt, holds, validate_historical_decryption. rewrite available. split.
  - destruct (key_epoch i =? 0); [done|]. intros ([] & Hrole & Hrest)%rbind_ok_inv. cbn in Hrest.
    apply rbind_ok_inv in Hrest as (r & [Hr Hn]%live_record_spec & Hc). case_bool_decide; [|done].
    split; [by destruct (key_role i)|eauto].
  - intros (He & r & Hr & Hd & Hn). rewrite (epoch_nonzero r Hr).
    rewrite (proj2 (live_record_spec s i r)) by done. destruct (key_role i); try done; cbn; by rewrite bool_decide_true.
Qed.
End Checks.

(** ** The guarantees *)

Definition accepted (s next : KeyRegistryStateV1) : Prop := validate_replacement s next = Ok tt.

Lemma accepted_replaces s next : rtc accepted s next -> rtc replaces s next.
Proof. apply rtc_subrel. intros a b. apply validate_replacement_exact. Qed.

Lemma accepted_ok s next : registry_ok s -> rtc accepted s next -> registry_ok next.
Proof. intros Hok. induction 1 as [|a b c Hab%validate_replacement_exact _ IH]; [done|]. apply IH, Hab. Qed.

Lemma retired_registration_refused s i d r :
  registry_ok s -> retired s i -> material_of s i = Some d ->
  reg_identity r = i \/ reg_private_material_digest r = d -> exists e, register_key r s = (s, Err e).
Proof.
  intros Hok Hret Hd Hor. unfold register_key. destruct (registration_checks s r) as [[]|e] eqn:Hc; [..|by eexists].
  - apply registration_new in Hc as [_ _ Ht Hp _ _ Hm]; [|done]. destruct Hor as [<-|<-]; [|by destruct (Hm i)].
    destruct Hret as [[? ?]|[? ?]]; congruence.
  - unfold registration_checks in Hc. apply rbind_ok_inv in Hc as (? & _ & Hc). apply rbind_ok_inv in Hc as (? & _ & Hc).
    destruct (has_key (kg_tombstones s) _) eqn:Ht; [done|]. apply has_key_false in Ht.
    destruct (has_key (kg_pending_destructions s) _) eqn:Hp; [done|]. apply has_key_false in Hp.
    apply rbind_ok_inv in Hc as (? & _ & Hc). destruct (kg_records s !! reg_identity r) as [y|] eqn:Hx; [|by destruct (material_is_reserved _ _)].
    case_bool_decide as Hxd; [|done]. assert (reg_identity r = i) as He.
    { destruct Hor as [|<-]; [done|]. apply (ro_material s Hok _ _ (reg_private_material_digest r)); [|done].
      unfold material_of. by rewrite Ht, Hx. }
    rewrite He in *. destruct Hret as [[? ?]|[? ?]]; congruence.
Qed.

(** C11: the registry's invariant and its history.  Every registry that registrations
    and destructions reach is valid, so no operation ever refuses for an invalid
    state, and every further operation leaves a registry that the store accepts as
    a replacement. *)
Theorem key_registry_invariant s op :
  registry_reachable s ->
  registry_validate s = Ok tt /\ validate_replacement s (run_registry_op op s) = Ok tt.
Proof.
  intros Hok%reachable_registry_ok. split; [by apply validate_exact|].
  by apply validate_replacement_exact, registry_step_replaces, run_registry_op_step.
Qed.

(** C26: snapshots that validation accepts.  The guarded scan of the five maps succeeds
    exactly on the registries that satisfy the declarative invariant [registry_ok]:
    the scan neither misses a violation nor refuses a valid registry. *)
Theorem registry_validate_exact s : registry_validate s = Ok tt <-> registry_ok s.
Proof. apply validate_exact. Qed.

(** Accepted replacements never roll history back.  Along any chain of accepted
    replacements every record keeps its public key, every tombstone and every used
    fingerprint stays, the high-water mark of a role never falls, and a pending
    destruction stays pending or becomes the tombstone of that very request. *)
Theorem replacement_keeps_history s next : rtc accepted s next -> registry_extends s next.
Proof. intros Hr. by apply replacements_extend, accepted_replaces. Qed.

(** C12: destruction is final.  Once the destruction of a key was requested, then after
    any chain of accepted replacements no signing, encryption or decryption is run
    under its identity, and neither its identity nor its material is ever
    registered again, under any identity. *)
Theorem destruction_final s next i d :
  registry_validate s = Ok tt -> retired s i -> material_of s i = Some d -> rtc accepted s next ->
  (forall W T (operation : W -> W * T) w d' k,
     (exists e, with_signing_authorization next i d' k operation w = (w, Err e))
     /\ (exists e, with_encryption_authorization next i d' operation w = (w, Err e))
     /\ exists e, with_decryption_authorization next i d' operation w = (w, Err e))
  /\ forall r, reg_identity r = i \/ reg_private_material_digest r = d ->
       exists e, register_key r next = (next, Err e).
Proof.
  intros Hok%validate_exact Hret Hd Hrtc. pose proof (accepted_ok _ _ Hok Hrtc) as Hok'.
  pose proof (replacements_extend _ _ (accepted_replaces _ _ Hrtc)) as Hex.
  pose proof (extends_retired _ _ _ Hex Hret) as Hret'. split.
  - intros W T operation w d' k. split_and!; eapply authorized_spec.
    + by apply signing_checks_spec.
    + intros (_ & r & (_ & _ & Hn) & _). done.
    + by apply encryption_checks_spec.
    + intros (_ & _ & r & _ & _ & Hn). done.
    + by apply decryption_checks_spec.
    + intros (_ & r & _ & _ & Hn). done.
  - intros r Hr. eapply retired_registration_refused; [done|done|by apply (ex_material _ _ Hex)|done].
Qed.

(** Authorization is exact.  On a valid registry an operation runs exactly when
    the identity holds that live material: to sign or encrypt it must also be the
    latest epoch of its role, to decrypt any retained epoch of an encryption role
    will do; otherwise the operation is not run.  At most one epoch of a role can
    sign. *)
Theorem authorization_exact s i d k {W T} (operation : W -> W * T) w :
  registry_validate s = Ok tt ->
  ((can_sign s i d k -> with_signing_authorization s i d k operation w = (let (w', t) := operation w in (w', Ok t)))
   /\ (~ can_sign s i d k -> exists e, with_signing_authorization s i d k operation w = (w, Err e)))
  /\ ((can_encrypt s i d -> with_encryption_authorization s i d operation w = (let (w', t) := operation w in (w', Ok t)))
      /\ (~ can_encrypt s i d -> exists e, with_encryption_authorization s i d operation w = (w, Err e)))
  /\ ((can_decrypt s i d -> with_decryption_authorization s i d operation w = (let (w', t) := operation w in (w', Ok t)))
      /\ (~ can_decrypt s i d -> exists e, with_decryption_authorization s i d operation w = (w, Err e)))
  /\ forall j d' k', can_sign s i d k -> can_sign s j d' k' -> scope_of i = scope_of j -> i = j.
Proof.
  intros Hok%validate_exact. split_and!; try eapply authorized_spec.
  1,2: by apply signing_checks_spec.
  1,2: by apply encryption_checks_spec.
  1,2: by apply decryption_checks_spec.
  intros j d' k' [Hi _] [Hj _] Hs. apply identity_ext; [done|]. rewrite Hs in Hi. congruence.
Qed.

Lemma begin_starts s q :
  registry_ok s -> destroys s q -> begin_key_destruction q s = (pending_state s q, Ok Started).
Proof.
  intros Hok [Ht Hp (r & Hr & Hd)]. unfold begin_key_destruction.
  rewrite (epoch_nonzero s Hok _ r Hr), (proj2 (validate_exact s) Hok), Ht, Hp, Hr, bool_decide_true by done. done.
Qed.

Lemma complete_destroys s q r :
  registry_ok s -> kg_pending_destructions s !! dr_identity q = Some q -> kg_records s !! dr_identity q = Some r ->
  complete_key_destruction q (deletion_receipt q) s = (destroyed_state s q r, Ok (Destroyed (tombstone_of q))).
Proof.
  intros Hok Hq Hr. destruct (ro_pending s Hok _ _ Hq) as (_ & Ht & _). unfold complete_key_destruction.
  by rewrite (epoch_nonzero s Hok _ r Hr), (proj2 (validate_exact s) Hok), Ht, Hr, !bool_decide_true.
Qed.

(** Destruction completes and is idempotent.  A request that names a live key and
    its material is started, then finalized by its receipt, which leaves its
    tombstone; the public key stays, and repeating either command afterwards
    changes nothing and returns that same tombstone. *)
Theorem destruction_completes s q r :
  registry_validate s = Ok tt -> destroys s q -> kg_records s !! dr_identity q = Some r ->
  exists pending destroyed,
    begin_key_destruction q s = (pending, Ok Started)
    /\ complete_key_destruction q (deletion_receipt q) pending = (destroyed, Ok (Destroyed (tombstone_of q)))
    /\ key_record destroyed (dr_identity q) = Some (MkKeyRecord (kr_identity r) None (kr_public_verification_key r))
    /\ begin_key_destruction q destroyed = (destroyed, Ok (BeginAlreadyDestroyed (tombstone_of q)))
    /\ complete_key_destruction q (deletion_receipt q) destroyed = (destroyed, Ok (AlreadyDestroyed (tombstone_of q))).
Proof.
  intros Hok%validate_exact Hq Hr. pose proof (pending_state_ok s q Hok Hq) as Hok1.
  assert (Hp : kg_pending_destructions (pending_state s q) !! dr_identity q = Some q) by apply lookup_insert_eq.
  pose proof (destroyed_state_ok (pending_state s q) q r Hok1 Hp Hr) as Hok2.
  exists (pending_state s q), (destroyed_state (pending_state s q) q r).
  split_and!; [by apply begin_starts|by apply complete_destroys|apply lookup_insert_eq|..];
    [unfold begin_key_destruction|unfold complete_key_destruction];
    rewrite (epoch_nonzero s Hok _ r Hr), (proj2 (validate_exact _) Hok2);
    unfold destroyed_state; cbn [kg_tombstones]; by rewrite lookup_insert_eq, !bool_decide_true.
Qed.

(** Rotation.  A registration above the high-water mark of its role with unused
    material always succeeds and becomes the active epoch, whether the previous
    epoch is live, pending or destroyed; the epochs registered before keep their
    records, and no epoch at or below it can be registered anew. *)
Theorem rotation_succeeds s r :
  registry_validate s = Ok tt -> registers s r ->
  exists s', register_key r s = (s', Ok Registered)
    /\ active_key s' (key_owner_id (reg_identity r)) (key_role (reg_identity r))
       = Some (MkKeyRecord (reg_identity r) (Some (reg_private_material_digest r)) (reg_public_verification_key r))
    /\ (forall i, i <> reg_identity r -> key_record s' i = key_record s i)
    /\ forall r', scope_of (reg_identity r') = scope_of (reg_identity r) ->
         key_epoch (reg_identity r') <= key_epoch (reg_identity r) -> (register_key r' s').2 <> Ok Registered.
Proof.
  intros Hok%validate_exact Hr. pose proof (registered_ok s r Hok Hr) as Hok'. exists (registered s r). split_and!.
  - unfold register_key. by rewrite (proj2 (registration_new s r Hok) Hr).
  - unfold active_key. cbn. change (key_owner_id (reg_identity r), key_role (reg_identity r)) with (scope_of (reg_identity r)).
    rewrite lookup_insert_eq. cbn. by rewrite lookup_insert_eq.
  - intros i Hi. unfold key_record. cbn. by rewrite lookup_insert_ne.
  - intros r' Hs He. unfold register_key. destruct (registration_checks (registered s r) r') as [[]|e] eqn:Hc; [|done..].
    apply registration_new in Hc; [|done]. pose proof (rg_highest _ _ Hc (key_epoch (reg_identity r))) as Hh.
    cbn in Hh. rewrite Hs, lookup_insert_eq in Hh. specialize (Hh eq_refl). lia.
Qed.
End Registry.
