(* ===== verification/KeyRegistryStore.v ===== *)
(** * The key registry of the in-memory store

    The registry operations of [crates/pos-store/src/memory.rs]: loading and saving
    under the replacement rule, destruction, retained decryption, and the append
    of an externally signed Event.  Over the operations of [EventStore] they give
    the composition: what a registry once knew, every later store still enforces. *)

From Stdlib Require Import String ZArith Lia Bool.
From S2P Require Import Prelude Text FallbackRecords Keys KeyRegistry ErasureGate Events EventStore.
From S2P Require Import KeyRegistryInvariant KeyRegistryProperties StoreHistory StoreCorrect.

Local Open Scope Z_scope.

Definition set_key_registry (registry : KeyRegistryStateV1) (s : Store) : Store :=
  MkStore (st_timelines s) (st_event_ids s) (st_geographic_timelines s) (Some registry)
    (st_fork_admissions s) (st_imported_fork_admissions s) (st_erasure_gate s)
    (st_erasure_gate_bound s) (st_erasure_inventory_generation s)
    (st_erasure_topology_requires_permit s).

Definition load_key_registry (s : Store) : Read (option KeyRegistryStateV1) :=
  match st_key_registry s with
  | None => Ok None
  | Some registry => let? _ := map_err Serialization (registry_validate registry) in Ok (Some registry)
  end.

Definition ensure_key_registry_write_allowed (s : Store) : Read unit :=
  match st_erasure_gate s with
  | Some gate => validate_bound_erasure_inventory_generation (st_erasure_gate_bound s) gate
                   (st_erasure_inventory_generation s)
  | None => if st_erasure_gate_bound s then Err ErasureContainmentUnavailable else Ok tt
  end.

(** [load_key_registry()?.ok_or_else(..)]. *)
Definition required_key_registry (s : Store) : Read KeyRegistryStateV1 :=
  let? registry := load_key_registry s in ok_or registry (Storage KeyRegistryUnavailable).

Definition checked_signing_registry (s : Store) (expected : KeyRegistryStateV1) : Read KeyRegistryStateV1 :=
  let? persisted := required_key_registry s in
  if decide (persisted = expected) then Ok persisted else Err (Storage KeyRegistryChanged).

Section Operations.
Context `{Blake3} `{Hasher} `{UlidText}.

Definition save_key_registry_unchecked (registry : KeyRegistryStateV1) (s : Store) : Write unit :=
  match (let? _ := map_err Serialization (registry_validate registry) in
         match st_key_registry s with
         | Some previous => map_err Serialization (validate_replacement previous registry)
         | None => Ok tt
         end) with
  | Ok _ => (set_key_registry registry s, Ok tt)
  | Err e => (s, Err e)
  end.

Definition save_key_registry (registry : KeyRegistryStateV1) (s : Store) : Write unit :=
  match ensure_key_registry_write_allowed s with
  | Ok _ => save_key_registry_unchecked registry s
  | Err e => (s, Err e)
  end.

(** Change a copy of the registry, then save the copy. *)
Definition change_key_registry {A} (change : KeyRegistryStateV1 -> KeyRegistryStateV1 * KeyResult A) (s : Store)
    : Write (A * KeyRegistryStateV1) :=
  match required_key_registry s with
  | Err e => (s, Err e)
  | Ok registry =>
      let (registry', outcome) := change registry in
      match outcome with
      | Err error => (s, Err (Storage (KeyDestruction error)))
      | Ok outcome =>
          let (s', saved) := save_key_registry registry' s in (s', let? _ := saved in Ok (outcome, registry'))
      end
  end.

Definition begin_key_registry_destruction (q : KeyDestructionRequestV1)
    : Store -> Write (KeyDestructionBeginOutcomeV1 * KeyRegistryStateV1) :=
  change_key_registry (begin_key_destruction q).

Definition complete_key_registry_destruction (q : KeyDestructionRequestV1) (receipt : Hash)
    : Store -> Write (KeyDestructionOutcomeV1 * KeyRegistryStateV1) :=
  change_key_registry (complete_key_destruction q receipt).

(** [MemoryStore::with_decryption_authorization]. *)
Definition store_decryption_authorization {W T} (s : Store) (identity : KeyIdentityV1) (digest : Hash)
    (operation : W -> W * T) (w : W) : W * KeyResult T :=
  match (let? _ := validate_historical_decryption identity in
         let? registry := map_err (fun _ => KeyError.RegistryUnavailable) (load_key_registry s) in
         ok_or registry KeyError.RegistryUnavailable) with
  | Err e => (w, Err e)
  | Ok registry => with_decryption_authorization registry identity digest operation w
  end.

Definition append_signed_authorized (id : TimelineId) (expected : KeyRegistryStateV1)
    (create_event : KeyRegistryStateV1 -> Z -> Read Event) (s : Store) : Write unit :=
  match (let? persisted := checked_signing_registry s expected in
         let? head := get_timeline s id in
         let? head := ok_or head (TimelineNotFound id) in
         let? event := create_event persisted (seq_next (tl_head head)) in
         let? _ := ensure_plaintext_preference_allowed (Some persisted) (ev_entity event) (ev_event_type event) in
         if (match ev_signature_identity event with
             | Some identity => bool_decide (key_role identity = TimelineIntegritySigning)
             | None => false
             end)
         then Err (Storage EnvelopeSeamRequired) else Ok event) with
  | Err e => (s, Err e)
  | Ok event => append_committed s id [event]
  end.

(** ** What a registry knew stays enforced *)

(** A public operation of the store, with any arguments. *)
Inductive store_step (s : Store) : Store -> Prop :=
| keeps_append id ds : store_step s (append s id ds).1
| keeps_append_committed id events : store_step s (append_committed s id events).1
| keeps_create id name : store_step s (create_timeline s id name).1
| keeps_create_with_meta meta : store_step s (create_timeline_with_meta s meta).1
| keeps_fork id parent at_seq name : store_step s (fork s id parent at_seq name).1
| keeps_delete id : store_step s (delete_timeline s id).1
| keeps_signed id expected create_event : store_step s (append_signed_authorized id expected create_event s).1
| saves registry : store_step s (save_key_registry registry s).1
| begins q : store_step s (begin_key_registry_destruction q s).1
| completes q receipt : store_step s (complete_key_registry_destruction q receipt s).1.

Lemma fence_keeps_registry {A} t op (effect : Store -> Write A) s :
  st_key_registry (effect s).1 = st_key_registry s ->
  st_key_registry (with_erasure_fence t op effect s).1 = st_key_registry s.
Proof. intros He. by destruct (fence_store t op effect s) as [->| ->]. Qed.

Lemma topology_keeps_registry {A} (effect : Store -> Write A) s :
  st_key_registry (effect s).1 = st_key_registry s ->
  st_key_registry (with_direct_topology_mutation effect s).1 = st_key_registry s.
Proof. intros He. destruct (topology_cases effect s) as [->| ->]; done. Qed.

Ltac registry_untouched :=
  repeat first
    [ reflexivity
    | apply fence_keeps_registry | apply topology_keeps_registry
    | match goal with |- context [match ?x with _ => _ end] => destruct x end ].

Lemma append_keeps_registry s id ds : st_key_registry (append s id ds).1 = st_key_registry s.
Proof. apply fence_keeps_registry. unfold guarded_generic_append, append_visible, append_visible_with_prefix. registry_untouched. Qed.

Lemma append_committed_keeps_registry s id events : st_key_registry (append_committed s id events).1 = st_key_registry s.
Proof.
  apply fence_keeps_registry. destruct (append_committed_body s id events) as [s'|] eqn:Hb; [|done]. cbn.
  unfold append_committed_body in Hb. ok_inv. destruct events; ok_inv; [by subst|]. by subst.
Qed.

Lemma create_with_meta_keeps_registry s meta :
  st_key_registry (create_timeline_with_meta_unchecked s meta).1 = st_key_registry s.
Proof. unfold create_timeline_with_meta_unchecked. registry_untouched. Qed.

Lemma signed_keeps_registry id expected create_event s :
  st_key_registry (append_signed_authorized id expected create_event s).1 = st_key_registry s.
Proof. unfold append_signed_authorized. destruct (rbind _ _); [apply append_committed_keeps_registry|done]. Qed.

(** A write of the registry that replaces what is stored, under the rule. *)
Definition registry_moves (before after : option KeyRegistryStateV1) : Prop :=
  after = before \/ exists r', after = Some r' /\ registry_ok r' /\ forall r, before = Some r -> accepted r r'.

Lemma save_moves registry s : registry_moves (st_key_registry s) (st_key_registry (save_key_registry registry s).1).
Proof.
  unfold save_key_registry, save_key_registry_unchecked. destruct (ensure_key_registry_write_allowed s); [|by left].
  destruct (registry_validate registry) as [[]|] eqn:Hv; cbn; [|by left]. apply validate_exact in Hv.
  destruct (st_key_registry s) as [previous|] eqn:Hk.
  - destruct (validate_replacement previous registry) as [[]|] eqn:Hr; cbn; [|by left]. right. exists registry.
    split_and!; [done|done|]. by intros r [= <-].
  - right. by exists registry.
Qed.

Lemma change_moves {A} (change : KeyRegistryStateV1 -> KeyRegistryStateV1 * KeyResult A) s :
  registry_moves (st_key_registry s) (st_key_registry (change_key_registry change s).1).
Proof.
  unfold change_key_registry. destruct (required_key_registry s) as [registry|]; [|by left].
  destruct (change registry) as [registry' [a|e]]; [|by left].
  pose proof (save_moves registry' s) as Hm. by destruct (save_key_registry registry' s).
Qed.

Lemma store_step_moves s s' : store_step s s' -> registry_moves (st_key_registry s) (st_key_registry s').
Proof.
  intros []; [left..|apply save_moves|apply change_moves|apply change_moves].
  - apply append_keeps_registry.
  - apply append_committed_keeps_registry.
  - unfold create_timeline. registry_untouched.
  - apply topology_keeps_registry. destruct (meta_fork_point meta) as [[]|];
      [apply fence_keeps_registry|]; apply create_with_meta_keeps_registry.
  - unfold fork. apply topology_keeps_registry. apply fence_keeps_registry. unfold fork_timeline_unchecked. registry_untouched.
  - apply topology_keeps_registry. destruct (ensure_generic_timeline_visibility s id); [|done].
    unfold delete_visible_timeline. registry_untouched.
  - apply signed_keeps_registry.
Qed.

Lemma store_steps_accept s s' r :
  st_key_registry s = Some r -> rtc store_step s s' ->
  exists r', st_key_registry s' = Some r' /\ rtc accepted r r'.
Proof.
  intros Hr Hst. revert r Hr. induction Hst as [s|s s1 s' Hs _ IH]; intros r Hr; [by exists r|].
  apply store_step_moves in Hs. rewrite Hr in Hs. destruct Hs as [Hs|(r1 & Hr1 & _ & Ha)]; [by apply IH|].
  destruct (IH r1 Hr1) as (r' & Hr' & Hacc). exists r'. split; [done|]. eapply rtc_l; [|done]. by apply Ha.
Qed.

(** The subject has, or once had, a data key. *)
Definition subject_has_key (registry : KeyRegistryStateV1) (entity : EntityId) : Prop :=
  exists i r, kg_records registry !! i = Some r /\ key_role i = SubjectDataEncryption
    /\ as_bytes (raw (key_owner_id i)) = subject_owner entity.

Lemma plaintext_refused registry entity :
  registry_ok registry -> subject_has_key registry entity ->
  ensure_plaintext_preference_allowed (Some registry) entity PERSONA_PREFERENCE = Err SubjectPlaintextPreferenceRefused.
Proof.
  intros Hok (i & r & Hi & Hrole & Ho). unfold ensure_plaintext_preference_allowed. rewrite decide_True by done.
  assert (Hex : existsb (fun record => bool_decide (key_role (kr_identity record) = SubjectDataEncryption)
    && bool_decide (as_bytes (raw (key_owner_id (kr_identity record))) = subject_owner entity)) (key_records registry) = true).
  { apply existsb_exists. exists r. rewrite (rk_identity _ _ _ (ro_record _ Hok i r Hi)).
    split; [|by rewrite !bool_decide_true]. apply list_elem_of_In, list_elem_of_fmap. exists (i, r).
    split; [done|]. by apply elem_of_btree_iter. }
  by rewrite Hex.
Qed.

Lemma try_for_each_err {A} (f : A -> Read unit) l x e :
  x ∈ l -> f x = Err e -> exists e', try_for_each f l = Err e'.
Proof.
  induction 1 as [x l|x y l _ IH]; intros Hx; cbn.
  - rewrite Hx. by eexists.
  - destruct (f y) as [[]|]; cbn; [by apply IH|by eexists].
Qed.

(** C22: protected preferences.  Once the store holds a data key for a subject, in every
    store that appends, forks, deletions and registry writes reach, also after the
    key was rotated or destroyed, an append that contains a plaintext preference
    of that subject is refused and changes nothing. *)
Theorem plaintext_refused_forever s s' registry entity d id ds :
  st_key_registry s = Some registry -> registry_validate registry = Ok tt -> subject_has_key registry entity ->
  rtc store_step s s' ->
  d ∈ ds -> draft_entity (fd_draft d) = entity -> draft_event_type (fd_draft d) = PERSONA_PREFERENCE ->
  exists e, append s' id ds = (s', Err e).
Proof.
  intros Hr Hok%validate_exact (i & r & Hi & Hrole & Ho) Hst Hd Hent Htype.
  destruct (store_steps_accept _ _ _ Hr Hst) as (r' & Hr' & Hacc).
  pose proof (replacements_extend _ _ (accepted_replaces _ _ Hacc)) as Hex.
  destruct (ex_record _ _ Hex i r Hi) as (x & Hx & _).
  assert (Hp : exists e, guarded_generic_append s' id ds = (s', Err e)).
  { unfold guarded_generic_append. destruct (rbind _ _); [|by eexists]. unfold append_visible.
    destruct (logical_prefix s' id); [|by eexists]. unfold append_visible_with_prefix.
    destruct (try_for_each_err (fun d => ensure_plaintext_preference_allowed (st_key_registry s')
      (draft_entity (fd_draft d)) (draft_event_type (fd_draft d))) ds d SubjectPlaintextPreferenceRefused) as [e ->]; [done| |by eexists].
    rewrite Hent, Htype, Hr'. apply plaintext_refused; [by eapply accepted_ok|]. by exists i, x. }
  destruct Hp as [e Hp]. unfold append. destruct (with_erasure_fence id OpAppend _ s') as [s2 r2] eqn:Hf.
  apply with_erasure_fence_cases in Hf as [[-> [e' ->]]|Hf]; [by eexists|]. cbv beta in Hf. rewrite Hp in Hf.
  injection Hf as <- <-. by eexists.
Qed.

(** Keys of a store.  After the destruction of a key was requested in a store, no
    later store decrypts under it, and no operation loses its tombstone, its
    fingerprint or its pending request. *)
Theorem stored_destruction_final s s' registry i {W T} (operation : W -> W * T) w d :
  st_key_registry s = Some registry -> registry_validate registry = Ok tt -> retired registry i ->
  rtc store_step s s' ->
  (exists e, store_decryption_authorization s' i d operation w = (w, Err e))
  /\ exists registry', load_key_registry s' = Ok (Some registry') /\ retired registry' i /\ registry_extends registry registry'.
Proof.
  intros Hr Hok%validate_exact Hret Hst. destruct (store_steps_accept _ _ _ Hr Hst) as (r' & Hr' & Hacc).
  pose proof (accepted_ok _ _ Hok Hacc) as Hok'. pose proof (replacements_extend _ _ (accepted_replaces _ _ Hacc)) as Hex.
  pose proof (extends_retired _ _ _ Hex Hret) as Hret'.
  assert (Hl : load_key_registry s' = Ok (Some r')).
  { unfold load_key_registry. by rewrite Hr', (proj2 (validate_exact r') Hok'). }
  split; [|by exists r']. unfold store_decryption_authorization. rewrite Hl. cbn.
  destruct (validate_historical_decryption i) as [[]|]; cbn; [|by eexists].
  eapply authorized_spec; [by apply decryption_checks_spec|]. by intros (_ & x & _ & _ & Hn).
Qed.
End Operations.
