(* ===== verification/KeyRegistryReader.v ===== *)
(** * The durable snapshot of the key registry

    [crates/pos-core/src/key_registry/durable_cbor.rs] and its cursor
    [durable_cbor/cursor.rs]: the guarded CBOR reader of a registry snapshot.

    A reader moves a cursor, reports its work to the guard and fails with a read
    error; the cursor of a failed read is dropped, as the source drops it.  Loops
    run on fuel, and [None] says that it ran out: loops take what is left of the
    input as fuel, and [KeyRegistryReaderProperties] proves that it never does. *)

From Stdlib Require Import String ZArith Lia Bool.
From S2P Require Import Prelude Text FallbackRecords Keys KeyRegistry.

Local Open Scope Z_scope.

Definition CHUNK_BYTES : Z := 4096.

Inductive Header :=
| HPositive (value : Z) | HNegative | HBytes (length : option Z) | HText (length : option Z)
| HArray (length : option Z) | HMap (length : option Z) | HTag (tag : Z) | HSimple (value : Z)
| HFloat | HBreak.

Record Cursor := MkCursor { cur_bytes : list byte; cur_buffered : option Header; cur_recursion : Z }.

Definition durable_cursor (bytes : list byte) : Cursor := MkCursor bytes None 256.

(** What is left to read. *)
Definition cursor_size (c : Cursor) : nat :=
  length (cur_bytes c) + match cur_buffered c with Some _ => 1 | None => 0 end.

Section Cursor.
Context {G : Type} `{KeyRegistryReadGuardV1 G}.

Definition DurableReader (A : Type) : Type := Cursor -> Guarded G (option (A * Cursor)).

Definition cret {A} (a : A) : DurableReader A := fun c => gret (Some (a, c)).
Definition cfail {A} : DurableReader A := fun _ => gerr InvalidSnapshot.
Definition cout {A} : DurableReader A := fun _ => gret None.
Definition cbind {A B} (m : DurableReader A) (k : A -> DurableReader B) : DurableReader B := fun c =>
  let! r := m c in match r with Some (a, c') => k a c' | None => gret None end.
Definition cwork {A} (m : Guarded G A) : DurableReader A := fun c => let! a := m in gret (Some (a, c)).
Definition cstep {A} (m : DurableReader A) : DurableReader A := fun c => step (m c).
Definition crequire {A} (o : option A) : DurableReader A := match o with Some a => cret a | None => cfail end.

Notation "'let^' x ':=' e 'in' k" := (cbind e (fun x => k))
  (at level 10, x pattern, e at level 200, k at level 200,
   format "'[v' 'let^'  x  ':='  e  'in' '/' k ']'") : result_scope.

(** Loops over the rest of the input. *)
Definition on_size {A} (loop : nat -> DurableReader A) : DurableReader A := fun c => loop (S (cursor_size c)) c.

(** ** The cursor *)

Definition cur_take (n : Z) : DurableReader (list byte) :=
  cstep (fun c =>
    if n <=? len (cur_bytes c)
    then gret (Some (take (Z.to_nat n) (cur_bytes c),
                     MkCursor (drop (Z.to_nat n) (cur_bytes c)) (cur_buffered c) (cur_recursion c)))
    else gerr InvalidSnapshot).

(** At most eight bytes: the sum stays within 64 bits. *)
Definition number_of (bytes : list byte) : Z := fold_left (fun v b => Z.shiftl v 8 + Z_of_byte b) bytes 0.

Definition cur_number (n : Z) : DurableReader Z := let^ bytes := cur_take n in cret (number_of bytes).

Definition simple_header (minor : Z) : DurableReader Header :=
  if minor <=? 23 then cret (HSimple minor)
  else if minor =? 24 then let^ bytes := cur_take 1 in cret (HSimple (number_of bytes))
  else if minor =? 25 then let^ _ := cur_take 2 in cret HFloat
  else if minor =? 26 then let^ _ := cur_take 4 in cret HFloat
  else if minor =? 27 then let^ _ := cur_take 8 in cret HFloat
  else if minor =? 31 then cret HBreak
  else cfail.

Definition header_number (minor : Z) : DurableReader (option Z) :=
  if minor <=? 23 then cret (Some minor)
  else if minor =? 24 then let^ n := cur_number 1 in cret (Some n)
  else if minor =? 25 then let^ n := cur_number 2 in cret (Some n)
  else if minor =? 26 then let^ n := cur_number 4 in cret (Some n)
  else if minor =? 27 then let^ n := cur_number 8 in cret (Some n)
  else if minor =? 31 then cret None
  else cfail.

(** [usize] is as wide as [u64]. *)
Definition header_of (major : Z) (number : option Z) : option Header :=
  if major =? 0 then HPositive <$> number
  else if major =? 1 then (fun _ => HNegative) <$> number
  else if major =? 2 then Some (HBytes number)
  else if major =? 3 then Some (HText number)
  else if major =? 4 then Some (HArray number)
  else if major =? 5 then Some (HMap number)
  else HTag <$> number.

Definition cur_header : DurableReader Header :=
  cstep (fun c =>
    match cur_buffered c with
    | Some header => gret (Some (header, MkCursor (cur_bytes c) None (cur_recursion c)))
    | None =>
        (let^ prefix := cur_take 1 in
         let major := Z.shiftr (number_of prefix) 5 in
         let minor := Z.land (number_of prefix) 31 in
         if major =? 7 then simple_header minor
         else let^ number := header_number minor in crequire (header_of major number)) c
    end).

Definition return_header (header : Header) : DurableReader unit :=
  fun c => gret (Some (tt, MkCursor (cur_bytes c) (Some header) (cur_recursion c))).

Definition cur_peek : DurableReader Header :=
  let^ header := cur_header in let^ _ := return_header header in cret header.

Definition is_tag (h : Header) : bool := match h with HTag _ => true | _ => false end.

Fixpoint untagged_loop (fuel : nat) : DurableReader Header :=
  match fuel with
  | O => cout
  | S n => let^ header := cur_header in if is_tag header then untagged_loop n else cret header
  end.
Definition cur_untagged : DurableReader Header := on_size untagged_loop.

Definition cur_nested {A} (read : DurableReader A) : DurableReader A :=
  cstep (fun c =>
    match checked_sub (cur_recursion c) 1 with
    | None => gerr InvalidSnapshot
    | Some rest =>
        (let^ a := read in
         fun c' => gret (Some (a, MkCursor (cur_bytes c') (cur_buffered c') (cur_recursion c))))
          (MkCursor (cur_bytes c) (cur_buffered c) rest)
    end).

Definition cur_next (remaining : option Z) : DurableReader (bool * option Z) :=
  cstep (match remaining with
         | Some count => if count =? 0 then cret (false, remaining) else cret (true, Some (count - 1))
         | None =>
             let^ header := cur_header in
             match header with
             | HBreak => cret (false, None)
             | _ => let^ _ := return_header header in cret (true, None)
             end
         end).

(** [while cursor.next(&mut remaining, context)? { .. }]. *)
Fixpoint while_next {S} (fuel : nat) (remaining : option Z) (body : S -> DurableReader S) (acc : S) : DurableReader S :=
  match fuel with
  | O => cout
  | Datatypes.S n =>
      let^ next := cur_next remaining in
      if fst next then let^ acc := body acc in while_next n (snd next) body acc else cret acc
  end.
Definition for_entries {S} (remaining : option Z) (body : S -> DurableReader S) (acc : S) : DurableReader S :=
  on_size (fun fuel => while_next fuel remaining body acc).

Definition cur_identifier : DurableReader (list byte) :=
  cstep (
    let^ header := cur_untagged in
    match header with
    | HText (Some n) => if n <=? CHUNK_BYTES
                        then let^ bytes := cur_take n in if utf8_valid bytes then cret bytes else cfail
                        else cfail
    | HBytes (Some n) => if n <=? CHUNK_BYTES then cur_take n else cfail
    | _ => cfail
    end).

(** [while length != 0 && bytes[length] & 0xc0 == 0x80 { length -= 1 }]. *)
Fixpoint chunk_boundary (bytes : list byte) (n : nat) : nat :=
  match n with
  | O => O
  | S n' => if Z.land (Z_of_byte (nth n bytes x00)) 0xc0 =? 0x80 then chunk_boundary bytes n' else n
  end.

Definition chunk_length (text : bool) (bytes : list byte) : nat :=
  let n := Nat.min (length bytes) (Z.to_nat CHUNK_BYTES) in
  if text && (n <? length bytes)%nat then chunk_boundary bytes n else n.

Fixpoint chunks_loop {S} (fuel : nat) (text : bool) (visit : S -> list byte -> Guarded G S) (bytes : list byte) (acc : S)
    : DurableReader S :=
  match fuel with
  | O => cout
  | Datatypes.S n =>
      match bytes with
      | [] => cret acc
      | _ =>
          let length := chunk_length text bytes in
          let^ acc := cstep (if (length =? 0)%nat then cfail else cwork (visit acc (take length bytes))) in
          chunks_loop n text visit (drop length bytes) acc
      end
  end.

Definition chunks {S} (bytes : list byte) (text : bool) (visit : S -> list byte -> Guarded G S) (acc : S) : DurableReader S :=
  let^ _ := cwork checkpoint in
  let^ acc := chunks_loop (Datatypes.S (length bytes)) text visit bytes acc in
  let^ _ := cwork checkpoint in cret acc.

(** The number of open indefinite strings is at most the headers read, so it
    stays within [usize]. *)
Definition cur_segment {S} (length : option Z) (text : bool) (visit : S -> list byte -> Guarded G S)
    (state : Z * S) : DurableReader (Z * S) :=
  match length with
  | Some n => let^ bytes := cur_take n in let^ acc := chunks bytes text visit (snd state) in cret (fst state, acc)
  | None => cret (fst state + 1, snd state)
  end.

Fixpoint segments_loop {S} (fuel : nat) (text : bool) (visit : S -> list byte -> Guarded G S) (state : Z * S)
    : DurableReader S :=
  match fuel with
  | O => cout
  | Datatypes.S n =>
      if fst state =? 0 then cret (snd state)
      else
        let^ state := cstep (
          let^ header := cur_header in
          match header with
          | HBreak => cret (fst state - 1, snd state)
          | HText length => if text then cur_segment length true visit state else cfail
          | HBytes length => if text then cfail else cur_segment length false visit state
          | _ => cfail
          end) in
        segments_loop n text visit state
  end.

Definition cur_segments {S} (length : option Z) (text : bool) (visit : S -> list byte -> Guarded G S) (acc : S)
    : DurableReader S :=
  match length with
  | Some n => let^ bytes := cur_take n in chunks bytes text visit acc
  | None => on_size (fun fuel => segments_loop fuel text visit (1, acc))
  end.

Definition U128_MAX : Z := 2 ^ 128 - 1.
Definition I128_MAX : Z := 2 ^ 127 - 1.

(** [value.checked_mul(256).and_then(|v| v.checked_add(byte))] on [u128]. *)
Definition append_byte (value : Z) (b : byte) : option Z :=
  if value * 256 <=? U128_MAX
  then if value * 256 + Z_of_byte b <=? U128_MAX then Some (value * 256 + Z_of_byte b) else None
  else None.

Definition append_bytes (value : Z) (bytes : list byte) : Guarded G Z :=
  for_fold bytes (fun value b => step (required (append_byte value b))) value.

Definition big_integer : DurableReader Z :=
  let^ header := cur_header in
  match header with
  | HBytes length => cur_segments length false append_bytes 0
  | _ => cfail
  end.

Fixpoint integer_loop (fuel : nat) : DurableReader Z :=
  match fuel with
  | O => cout
  | S n =>
      let^ header := cur_header in
      match header with
      | HPositive value => cret value
      | HTag tag =>
          if tag =? 2 then let^ value := big_integer in if value <=? U64_MAX then cret value else cfail
          else if tag =? 3 then let^ _ := big_integer in cfail
          else integer_loop n
      | _ => cfail
      end
  end.
Definition cur_integer : DurableReader Z := on_size integer_loop.

Definition no_visit (acc : unit) (_ : list byte) : Guarded G unit := gret tt.
Definition utf8_visit (acc : unit) (bytes : list byte) : Guarded G unit := reject_if (negb (utf8_valid bytes)).

(** A short definite bignum after its tag. *)
Definition is_short_bytes (h : Header) : bool :=
  match h with HBytes (Some n) => n <=? 16 | _ => false end.

Definition skip_tag (skip : DurableReader unit) (tag : Z) : DurableReader unit :=
  let body := cur_nested skip in
  if (tag =? 2) || (tag =? 3)
  then let^ header := cur_peek in
       if is_short_bytes header
       then let^ value := big_integer in
            if (tag =? 3) && negb (value <=? I128_MAX) then cfail else cret tt
       else body
  else body.

Fixpoint cur_skip (fuel : nat) : DurableReader unit :=
  match fuel with
  | O => cout
  | S n =>
      let skip_entries (map : bool) (remaining : option Z) :=
        for_entries remaining (fun _ => let^ _ := cur_skip n in if map then cur_skip n else cret tt) tt in
      cstep (
        let^ header := cur_header in
        match header with
        | HPositive _ | HNegative | HFloat => cret tt
        | HSimple value => if (20 <=? value) && (value <=? 23) then cret tt else cfail
        | HBytes length => cur_segments length false no_visit tt
        | HText length => cur_segments length true utf8_visit tt
        | HArray length => cur_nested (skip_entries false length)
        | HMap length => cur_nested (skip_entries true length)
        | HTag tag => skip_tag (cur_skip n) tag
        | HBreak => cfail
        end)
  end.
Definition skip_value : DurableReader unit := on_size cur_skip.

(** ** The registry grammar *)

Definition read_fields {S} (field : list byte -> S -> DurableReader S) (acc : S) : DurableReader S :=
  let^ header := cur_untagged in
  match header with
  | HMap remaining =>
      cur_nested (for_entries remaining (fun acc =>
        cstep (let^ name := cur_identifier in field name acc)) acc)
  | _ => cfail
  end.

(** [cursor.field(context, &mut slot, read)]. *)
Definition read_slot {A} (slot : option A) (read : DurableReader A) : DurableReader (option A) :=
  cstep (match slot with
         | Some _ => cfail
         | None => let^ value := read in cret (Some value)
         end).

(** A later entry of a repeated key replaces the earlier one. *)
Definition read_map {K V} `{Countable K} (key : DurableReader K) (value : DurableReader V) : DurableReader (gmap K V) :=
  let^ header := cur_untagged in
  match header with
  | HMap remaining =>
      cur_nested (for_entries remaining (fun map =>
        cstep (let^ k := key in let^ v := value in let^ _ := cwork checkpoint in cret (<[k := v]> map))) ∅)
  | _ => cfail
  end.

Definition append_text (owner : list byte) (bytes : list byte) : Guarded G (list byte) :=
  let! _ := reject_if (negb (utf8_valid bytes)) in
  let! _ := materialize (len bytes) in gret (owner ++ bytes).

(** The chunks are checked one by one; their concatenation is a [String]. *)
Definition read_owner_id : DurableReader OwnerIdV1 :=
  cstep (
    let^ header := cur_untagged in
    match header with
    | HText length =>
        let^ text := cur_segments length true append_text [] in
        let^ text := crequire (from_utf8 text) in
        let^ owner := crequire (owner_new text) in
        let^ _ := cwork (materialize (str_len text)) in
        cret owner
    | _ => cfail
    end).

Definition role_of_name (name : list byte) : option KeyRoleV1 :=
  if bool_decide (name = list_byte_of_string "SubjectDataEncryption") then Some SubjectDataEncryption
  else if bool_decide (name = list_byte_of_string "SubjectAttributionSigning") then Some SubjectAttributionSigning
  else if bool_decide (name = list_byte_of_string "TimelineIntegritySigning") then Some TimelineIntegritySigning
  else if bool_decide (name = list_byte_of_string "PluginReleaseSigning") then Some PluginReleaseSigning
  else if bool_decide (name = list_byte_of_string "ExportRecipientEncryption") then Some ExportRecipientEncryption
  else if bool_decide (name = list_byte_of_string "ConformanceEvaluatorSigning") then Some ConformanceEvaluatorSigning
  else if bool_decide (name = list_byte_of_string "ConformanceReportSigning") then Some ConformanceReportSigning
  else None.

Definition read_role : DurableReader KeyRoleV1 :=
  cstep (
    let^ header := cur_untagged in
    let^ _ := match header with
      | HText _ => return_header header
      | HMap (Some n) => if n =? 1 then cret tt else cfail
      | _ => cfail
      end in
    cur_nested (
      let^ name := cur_identifier in
      let^ role := crequire (role_of_name name) in
      let^ _ := cwork (materialize 1) in cret role)).

Definition read_epoch : DurableReader Z :=
  cstep (let^ epoch := cur_integer in let^ _ := cwork (materialize 8) in cret epoch).

Definition read_version : DurableReader unit :=
  cstep (let^ version := cur_integer in
         if negb (version =? 1) then cfail else cwork (materialize 1)).

Definition read_optional {A} (read : DurableReader A) : DurableReader (option A) :=
  cstep (
    let^ header := cur_header in
    match header with
    | HSimple value => if (value =? 22) || (value =? 23) then cret None
                       else let^ _ := return_header header in let^ a := read in cret (Some a)
    | _ => let^ _ := return_header header in let^ a := read in cret (Some a)
    end).

Definition append_chunk (bytes chunk : list byte) : Guarded G (list byte) :=
  let! _ := materialize (len chunk) in gret (bytes ++ chunk).

(** [u8::try_from]. *)
Definition byte_of_integer (value : Z) : option byte := if value <=? 255 then Some (byte_of_Z value) else None.

Definition read_fixed_bytes : DurableReader (checked (has_len 32)) :=
  cstep (
    let^ header := cur_untagged in
    let^ bytes := match header with
      | HBytes length => cur_segments length false append_chunk []
      | HArray remaining =>
          cur_nested (for_entries remaining (fun bytes =>
            cstep (let^ value := cur_integer in
                   let^ b := crequire (byte_of_integer value) in
                   let^ _ := cwork (materialize 1) in cret (bytes ++ [b]))) [])
      | _ => cfail
      end in
    let^ fixed := crequire (make (has_len 32) bytes) in
    let^ _ := cwork (materialize 32) in cret fixed).

Definition read_digest : DurableReader Hash := read_fixed_bytes.
Definition read_public_key : DurableReader PublicKey := read_fixed_bytes.

Definition field_is (name : list byte) (s : string) : bool := bool_decide (name = list_byte_of_string s).

(** A field read into the slot of the accumulator it belongs to. *)
Definition into {A S} (slot : option A) (read : DurableReader A) (set : option A -> S) : DurableReader S :=
  let^ value := read_slot slot read in cret (set value).

Definition read_identity : DurableReader KeyIdentityV1 :=
  cstep (
    let^ (owner_id, role, epoch) := read_fields (fun name '(owner_id, role, epoch) =>
      if field_is name "owner_id" then into owner_id read_owner_id (fun v => (v, role, epoch))
      else if field_is name "role" then into role read_role (fun v => (owner_id, v, epoch))
      else if field_is name "epoch" then into epoch read_epoch (fun v => (owner_id, role, v))
      else let^ _ := skip_value in cret (owner_id, role, epoch)) (None, None, None) in
    let^ owner_id := crequire owner_id in let^ role := crequire role in let^ epoch := crequire epoch in
    cret (MkKeyIdentity owner_id role epoch)).

Definition read_scope : DurableReader KeyScope :=
  let^ header := cur_untagged in
  match header with
  | HArray remaining =>
      cur_nested (
        let^ next := cur_next remaining in
        if negb (fst next) then cfail
        else
          let^ owner := read_owner_id in
          let^ next := cur_next (snd next) in
          if negb (fst next) then cfail else let^ role := read_role in cret (owner, role))
  | _ => cfail
  end.

Definition read_record : DurableReader KeyRecordV1 :=
  cstep (
    let^ (identity, digest, key) := read_fields (fun name '(identity, digest, key) =>
      if field_is name "identity" then into identity read_identity (fun v => (v, digest, key))
      else if field_is name "private_material_digest"
      then into digest (read_optional read_digest) (fun v => (identity, v, key))
      else if field_is name "public_verification_key"
      then into key (read_optional read_public_key) (fun v => (identity, digest, v))
      else let^ _ := skip_value in cret (identity, digest, key)) (None, None, None) in
    let^ identity := crequire identity in
    cret (MkKeyRecord identity (default None digest) (default None key))).

Definition read_tombstone : DurableReader KeyTombstoneV1 :=
  cstep (
    let^ (identity, material, destruction, receipt) := read_fields (fun name '(identity, material, destruction, receipt) =>
      if field_is name "identity" then into identity read_identity (fun v => (v, material, destruction, receipt))
      else if field_is name "destroyed_material_digest"
      then into material read_digest (fun v => (identity, v, destruction, receipt))
      else if field_is name "destruction_digest" then into destruction read_digest (fun v => (identity, material, v, receipt))
      else if field_is name "deletion_receipt" then into receipt read_digest (fun v => (identity, material, destruction, v))
      else let^ _ := skip_value in cret (identity, material, destruction, receipt)) (None, None, None, None) in
    let^ identity := crequire identity in let^ material := crequire material in
    let^ destruction := crequire destruction in let^ receipt := crequire receipt in
    cret (MkTombstone identity material destruction receipt)).

Definition read_request : DurableReader KeyDestructionRequestV1 :=
  cstep (
    let^ (identity, material, authorization) := read_fields (fun name '(identity, material, authorization) =>
      if field_is name "identity" then into identity read_identity (fun v => (v, material, authorization))
      else if field_is name "expected_material_digest" then into material read_digest (fun v => (identity, v, authorization))
      else if field_is name "authorization_digest" then into authorization read_digest (fun v => (identity, material, v))
      else let^ _ := skip_value in cret (identity, material, authorization)) (None, None, None) in
    let^ identity := crequire identity in let^ material := crequire material in
    let^ authorization := crequire authorization in
    cret (MkDestructionRequest identity material authorization)).

(** The fields of the snapshot read so far. *)
Record Slots := MkSlots {
  sl_records : option (gmap KeyIdentityV1 KeyRecordV1);
  sl_active : option (gmap KeyScope KeyIdentityV1);
  sl_tombstones : option (gmap KeyIdentityV1 KeyTombstoneV1);
  sl_highest_epoch : option (gmap KeyScope Z);
  sl_pending : option (gmap KeyIdentityV1 KeyDestructionRequestV1);
  sl_version : option unit;
}.

Definition registry_field (name : list byte) (acc : Slots) : DurableReader Slots :=
  let '(MkSlots records active tombstones highest pending version) := acc in
  if field_is name "records"
  then into records (read_map read_identity read_record) (fun v => MkSlots v active tombstones highest pending version)
  else if field_is name "active"
  then into active (read_map read_scope read_identity) (fun v => MkSlots records v tombstones highest pending version)
  else if field_is name "tombstones"
  then into tombstones (read_map read_identity read_tombstone) (fun v => MkSlots records active v highest pending version)
  else if field_is name "highest_epoch"
  then into highest (read_map read_scope read_epoch) (fun v => MkSlots records active tombstones v pending version)
  else if field_is name "pending_destructions"
  then into pending (read_map read_identity read_request) (fun v => MkSlots records active tombstones highest v version)
  else if field_is name "version"
  then into version read_version (fun v => MkSlots records active tombstones highest pending v)
  else cfail.

Definition read_registry : DurableReader KeyRegistryStateV1 :=
  let^ acc := read_fields registry_field (MkSlots None None None None None None) in
  let^ records := crequire (sl_records acc) in let^ active := crequire (sl_active acc) in
  let^ tombstones := crequire (sl_tombstones acc) in let^ highest := crequire (sl_highest_epoch acc) in
  let^ pending := crequire (sl_pending acc) in let^ _ := crequire (sl_version acc) in
  cret (MkRegistry records active tombstones highest pending).

(** [durable_cbor::read], and [from_durable_cbor_with_read_guard] on a new context. *)
Definition read_durable (bytes : list byte) : Guarded G (option KeyRegistryStateV1) :=
  step (
    let! r := read_registry (durable_cursor bytes) in
    match r with
    | None => gret None
    | Some (registry, _) => let! _ := validate_with_read_context registry in gret (Some registry)
    end).

Definition from_durable_cbor_with_read_guard (bytes : list byte) (guard : G)
    : ReadContext G * result KeyRegistryReadErrorV1 (option KeyRegistryStateV1) :=
  read_durable bytes (context_new guard).
End Cursor.
