(* ===== verification/KeyRegistryReaderProperties.v ===== *)
(** * What the snapshot reader guarantees

    [upto k n m c]: on the cursor [c] the reader [m] is lawful for every guard,
    never runs out of fuel, and leaves a cursor [k] below [n].  One lemma per
    reader, then the guarantees: reading terminates, yields valid registries only,
    and depends on the guard only in being cut short. *)

From Stdlib Require Import String ZArith Lia Bool.
From S2P Require Import Prelude Text FallbackRecords Keys KeyRegistry KeyRegistryInvariant KeyRegistryReader.

Local Open Scope Z_scope.

Definition PReader (A : Type) : Type := forall G, KeyRegistryReadGuardV1 G -> DurableReader (G := G) A.

Definition leaves {A} (k n : nat) (r : result KeyRegistryReadErrorV1 (option (A * Cursor))) : Prop :=
  match r with
  | Ok None => False
  | Ok (Some (_, c)) => (cursor_size c + k <= n)%nat
  | Err _ => True
  end.

Definition upto {A} (k n : nat) (m : PReader A) (c : Cursor) : Prop :=
  lawful (fun G guard => m G guard c) /\ leaves k n (ordinary (fun G guard => m G guard c)).

Lemma upto_ret {A} (a : A) k n c : (cursor_size c + k <= n)%nat -> upto k n (fun G _ => cret a) c.
Proof. intros Hc. split; [apply lawful_ret|done]. Qed.

Lemma upto_fail {A} k n c : upto k n (fun G _ => @cfail G A) c.
Proof. split; [apply lawful_invalid|done]. Qed.

Lemma upto_bind {A B} k1 k n (m : PReader A) (f : forall G, KeyRegistryReadGuardV1 G -> A -> DurableReader B) c :
  upto k1 n m c ->
  (forall a c', (cursor_size c' + k1 <= n)%nat -> upto k n (fun G _ => f G _ a) c') ->
  upto k n (fun G _ => cbind (m G _) (f G _)) c.
Proof.
  intros [Hl Hm] Hf. unfold upto, cbind.
  rewrite (ordinary_bind (fun G _ => m G _ c) (fun G _ r => match r with Some (a, c') => f G _ a c' | None => gret None end)) by done.
  split.
  - apply (lawful_bind_at (fun G _ => m G _ c)
      (fun G _ r => match r with Some (a, c') => f G _ a c' | None => gret None end)); [done|].
    intros [[a c']|] Hr; [|apply lawful_ret]. rewrite Hr in Hm. by apply Hf.
  - destruct (ordinary (fun G _ => m G _ c)) as [[[a c']|]|e]; cbn in *; [by apply Hf|done|done].
Qed.

Lemma upto_step {A} k n (m : PReader A) c : upto k n m c -> upto k n (fun G _ => cstep (m G _)) c.
Proof.
  intros [Hl Hm]. split; [by apply (lawful_step (fun G _ => m G _ c))|].
  unfold cstep. by rewrite (ordinary_step (fun G _ => m G _ c)).
Qed.

Lemma upto_step_fail {A B} k n (f : forall G, KeyRegistryReadGuardV1 G -> A -> DurableReader B) c :
  upto k n (fun G _ => cbind (cstep cfail) (f G _)) c.
Proof. apply (upto_bind (S n) k n (fun G _ => cstep cfail)); [apply upto_step, upto_fail|intros; lia]. Qed.

Lemma upto_work {A} k n (m : Reading A) c :
  lawful m -> (cursor_size c + k <= n)%nat -> upto k n (fun G _ => cwork (m G _)) c.
Proof.
  intros Hl Hc. unfold upto, cwork. rewrite (ordinary_bind m (fun G _ a => gret (Some (a, c)))) by done. split.
  - apply (lawful_bind m (fun G _ a => gret (Some (a, c)))); [done|]. intros a. apply lawful_ret.
  - by destruct (ordinary m).
Qed.

Lemma upto_require {A} (o : option A) k n c : (cursor_size c + k <= n)%nat -> upto k n (fun G _ => crequire o) c.
Proof. intros Hc. destruct o; [by apply upto_ret|apply upto_fail]. Qed.

Lemma upto_on_size {A} k n (loop : forall G, KeyRegistryReadGuardV1 G -> nat -> DurableReader A) c :
  upto k n (fun G _ => loop G _ (S (cursor_size c))) c -> upto k n (fun G _ => on_size (loop G _)) c.
Proof. done. Qed.

(** ** The cursor *)

Lemma upto_take bytes k n c : (cursor_size c + k <= n)%nat -> upto k n (fun G _ => cur_take bytes) c.
Proof.
  intros Hc. apply upto_step. unfold upto. destruct (bytes <=? len (cur_bytes c)).
  - split; [apply lawful_ret|]. cbn. unfold cursor_size in *. cbn. rewrite length_drop. lia.
  - split; [apply lawful_invalid|done].
Qed.

Lemma upto_take_one k n c : (cursor_size c + k <= n)%nat -> upto (S k) n (fun G _ => cur_take 1) c.
Proof.
  intros Hc. apply upto_step. unfold upto. destruct (Z.leb_spec 1 (len (cur_bytes c))) as [Hl|].
  - split; [apply lawful_ret|]. cbn. unfold cursor_size, len in *. cbn. rewrite length_drop. lia.
  - split; [apply lawful_invalid|done].
Qed.

Lemma upto_weaken {A} k k' n (m : PReader A) c : upto k' n m c -> (k <= k')%nat -> upto k n m c.
Proof. intros [Hl Hm] Hk. split; [done|]. destruct (ordinary _) as [[[a c']|]|e]; cbn in *; lia || done. Qed.

Create HintDb reader discriminated.
#[local] Hint Resolve upto_take upto_fail upto_require : reader.

(** Follow a reader, carrying what is left of the input. *)
Ltac reader_leaf := solve [eauto with reader nocore].
Ltac reader_step :=
  first
    [ apply upto_ret; lia
    | apply upto_fail
    | match goal with |- upto _ _ (fun G _ => cstep _) _ => apply upto_step end
    | match goal with |- upto _ _ (fun G _ => cbind _ _) _ => eapply upto_bind; [reader_leaf|intros ? ? ?; cbv beta] end
    | eapply upto_weaken; [reader_leaf|lia]
    | match goal with |- upto _ _ (fun G _ => match ?x with _ => _ end) _ => destruct x end ].
Ltac reader := repeat reader_step.

Lemma upto_number bytes k n c : (cursor_size c + k <= n)%nat -> upto k n (fun G _ => cur_number bytes) c.
Proof. intros Hc. unfold cur_number. reader. Qed.
#[local] Hint Resolve upto_number : reader.

Lemma upto_simple_header minor k n c : (cursor_size c + k <= n)%nat -> upto k n (fun G _ => simple_header minor) c.
Proof. intros Hc. unfold simple_header. reader. Qed.

Lemma upto_header_number minor k n c : (cursor_size c + k <= n)%nat -> upto k n (fun G _ => header_number minor) c.
Proof. intros Hc. unfold header_number. reader. Qed.
#[local] Hint Resolve upto_simple_header upto_header_number : reader.

Lemma upto_header k n c : (cursor_size c + k <= n)%nat -> upto (S k) n (fun G _ => cur_header) c.
Proof.
  intros Hc. apply upto_step. unfold upto. destruct (cur_buffered c) as [h|] eqn:Hb.
  - split; [apply lawful_ret|]. cbn. unfold cursor_size in *. rewrite Hb in Hc. cbn. lia.
  - fold (upto (S k) n (fun G _ => cbind (cur_take 1) (fun prefix =>
      if Z.shiftr (number_of prefix) 5 =? 7 then simple_header (Z.land (number_of prefix) 31)
      else cbind (header_number (Z.land (number_of prefix) 31)) (fun number => crequire (header_of (Z.shiftr (number_of prefix) 5) number)))) c).
    eapply upto_bind; [by apply upto_take_one|]. intros a c' Hc'. cbv beta. reader.
Qed.
#[local] Hint Resolve upto_header : reader.

Lemma upto_return header k n c : (cursor_size c + S k <= n)%nat -> upto k n (fun G _ => return_header header) c.
Proof. intros Hc. split; [apply lawful_ret|]. unfold cursor_size in *. cbn. lia. Qed.
#[local] Hint Resolve upto_return : reader.

Lemma upto_peek k n c : (cursor_size c + k <= n)%nat -> upto k n (fun G _ => cur_peek) c.
Proof. intros Hc. unfold cur_peek. reader. Qed.
#[local] Hint Resolve upto_peek : reader.

Lemma upto_untagged_loop fuel k n c :
  (cursor_size c < fuel)%nat -> (cursor_size c + k <= n)%nat -> upto (S k) n (fun G _ => untagged_loop fuel) c.
Proof.
  revert k n c. induction fuel as [|fuel IH]; intros k n c Hf Hc; [lia|]. cbn [untagged_loop].
  eapply upto_bind; [apply (upto_header (n - cursor_size c)); lia|]. intros h c' Hc'. cbv beta. destruct (is_tag h); [|reader].
  eapply upto_weaken; [apply (IH k)|]; lia.
Qed.

Lemma upto_untagged k n c : (cursor_size c + k <= n)%nat -> upto (S k) n (fun G _ => cur_untagged) c.
Proof. intros Hc. apply upto_on_size, upto_untagged_loop; lia. Qed.
#[local] Hint Resolve upto_untagged : reader.

Lemma upto_nested {A} (m : PReader A) k n c :
  (forall c', cursor_size c' = cursor_size c -> upto k n m c') -> upto k n (fun G _ => cur_nested (m G _)) c.
Proof.
  intros Hm. apply upto_step. unfold upto. destruct (checked_sub (cur_recursion c) 1) as [rest|]; [|split; [apply lawful_invalid|done]].
  apply (upto_bind k k n m (fun G _ a => fun c' => gret (Some (a, MkCursor (cur_bytes c') (cur_buffered c') (cur_recursion c))))).
  - by apply Hm.
  - intros a c' Hc'. split; [apply lawful_ret|done].
Qed.

Lemma upto_next remaining k n c : (cursor_size c + k <= n)%nat -> upto k n (fun G _ => cur_next remaining) c.
Proof. intros Hc. unfold cur_next. reader. Qed.
#[local] Hint Resolve upto_next : reader.

(** A loop over entries is fine when its body reads something. *)
Lemma upto_for_entries {S} remaining (body : forall G, KeyRegistryReadGuardV1 G -> S -> DurableReader S) acc k n c :
  (forall acc c' k n, (cursor_size c' <= cursor_size c)%nat -> (cursor_size c' + k <= n)%nat ->
     upto (1 + k) n (fun G _ => body G _ acc) c') ->
  (cursor_size c + k <= n)%nat -> upto k n (fun G _ => for_entries remaining (body G _) acc) c.
Proof.
  intros Hbody Hc. apply upto_on_size.
  assert (Hloop : forall fuel remaining acc c', (cursor_size c' < fuel)%nat -> (cursor_size c' <= cursor_size c)%nat ->
    upto k n (fun G _ => while_next fuel remaining (body G _) acc) c').
  { clear remaining acc. induction fuel as [|fuel IH]; intros remaining acc c' Hf Hle; [lia|]. cbn [while_next].
    eapply upto_bind; [apply (upto_next remaining (n - cursor_size c')); lia|]. intros next c1 Hc1. cbv beta.
    destruct (fst next); [|apply upto_ret; lia].
    eapply upto_bind; [apply (Hbody acc c1 (n - cursor_size c1)%nat); lia|]. intros acc' c2 Hc2. cbv beta. apply IH; lia. }
  apply Hloop; lia.
Qed.

Lemma upto_identifier k n c : (cursor_size c + k <= n)%nat -> upto (S k) n (fun G _ => cur_identifier) c.
Proof. intros Hc. unfold cur_identifier. reader. Qed.
#[local] Hint Resolve upto_identifier : reader.

(** ** Strings and numbers *)

Lemma chunk_boundary_le bytes m : (chunk_boundary bytes m <= m)%nat.
Proof. induction m as [|m IH]; cbn [chunk_boundary]; [done|]. destruct (_ =? _); lia. Qed.

Lemma chunk_length_le text bytes : (chunk_length text bytes <= length bytes)%nat.
Proof.
  unfold chunk_length. pose proof (chunk_boundary_le bytes (Nat.min (length bytes) (Z.to_nat CHUNK_BYTES))).
  destruct (_ && _); lia.
Qed.

Section Visit.
Context {T : Type} (visit : forall G, KeyRegistryReadGuardV1 G -> T -> list byte -> Guarded G T).
Context (Hvisit : forall acc bytes, lawful (fun G _ => visit G _ acc bytes)).

Lemma upto_chunks bytes text acc k n c :
  (cursor_size c + k <= n)%nat -> upto k n (fun G _ => chunks bytes text (visit G _) acc) c.
Proof using Hvisit.
  intros Hc. unfold chunks.
  assert (Hloop : forall fuel bytes acc c, (length bytes < fuel)%nat -> (cursor_size c + k <= n)%nat ->
    upto k n (fun G _ => chunks_loop fuel text (visit G _) bytes acc) c).
  { clear c Hc bytes acc. induction fuel as [|fuel IH]; intros bytes acc c Hf Hc; [lia|]. cbn [chunks_loop].
    destruct bytes as [|b bytes]; [by apply upto_ret|]. set (all := b :: bytes) in *.
    destruct (chunk_length text all =? 0)%nat eqn:Hl; [apply upto_step_fail|]. apply Nat.eqb_neq in Hl.
    eapply upto_bind; [apply upto_step, (upto_work k n (fun G _ => visit G _ acc _)); [apply Hvisit|done]|].
    intros acc' c' Hc'. cbv beta. apply IH; [|done]. rewrite length_drop. subst all. cbn [length] in *. lia. }
  assert (Hcp : forall c, (cursor_size c + k <= n)%nat -> upto k n (fun G _ => cwork checkpoint) c)
    by (intros; apply (upto_work k n (fun G _ => checkpoint)); [apply lawful_checkpoint|done]).
  eapply upto_bind; [by apply Hcp|]. intros _ c1 Hc1. cbv beta.
  eapply upto_bind; [apply Hloop; [lia|done]|]. intros acc' c2 Hc2. cbv beta.
  eapply upto_bind; [by apply Hcp|]. intros _ c3 Hc3. by apply upto_ret.
Qed.

Lemma upto_segments length text acc k n c :
  (cursor_size c + k <= n)%nat -> upto k n (fun G _ => cur_segments length text (visit G _) acc) c.
Proof using Hvisit.
  intros Hc. unfold cur_segments. destruct length as [m|].
  { eapply upto_bind; [by apply upto_take|]. intros bytes c' Hc'. by apply upto_chunks. }
  apply upto_on_size.
  assert (Hloop : forall fuel state c, (cursor_size c < fuel)%nat -> (cursor_size c + k <= n)%nat ->
    upto k n (fun G _ => segments_loop fuel text (visit G _) state) c); [|apply Hloop; lia].
  clear c Hc. induction fuel as [|fuel IH]; intros state c Hf Hc; [lia|]. cbn [segments_loop].
  destruct (fst state =? 0); [by apply upto_ret|].
  eapply (upto_bind (S (n - cursor_size c)%nat)); [apply upto_step|intros state' c' Hc'; cbv beta; apply IH; lia].
  eapply upto_bind; [apply (upto_header (n - cursor_size c)); lia|]. intros h c' Hc'. cbv beta.
  assert (Hseg : forall length b, upto (S (n - cursor_size c)%nat) n (fun G _ => cur_segment length b (visit G _) state) c').
  { intros [m|] b; cbn [cur_segment]; [|by apply upto_ret].
    eapply upto_bind; [by apply upto_take|]. intros bytes c1 Hc1. cbv beta.
    eapply upto_bind; [by apply upto_chunks|]. intros acc' c2 Hc2. by apply upto_ret. }
  destruct h; try apply upto_fail; [destruct text; [apply upto_fail|apply Hseg]|destruct text; [apply Hseg|apply upto_fail]|].
  by apply upto_ret.
Qed.
End Visit.
#[local] Hint Resolve upto_segments : reader.

Lemma lawful_append_bytes value bytes : lawful (fun G _ => append_bytes value bytes).
Proof. apply lawful_for_fold. intros. apply lawful_step, lawful_require. Qed.

Lemma lawful_no_visit acc bytes : lawful (fun G _ => no_visit acc bytes).
Proof. apply lawful_ret. Qed.

Lemma lawful_utf8_visit acc bytes : lawful (fun G _ => utf8_visit acc bytes).
Proof. apply lawful_reject_if. Qed.

Lemma lawful_append_text acc bytes : lawful (fun G _ => append_text acc bytes).
Proof.
  apply lawful_bind; [apply lawful_reject_if|]. intros _.
  apply lawful_bind; [apply lawful_materialize, len_nonneg|intros; apply lawful_ret].
Qed.

Lemma lawful_append_chunk acc bytes : lawful (fun G _ => append_chunk acc bytes).
Proof. apply lawful_bind; [apply lawful_materialize, len_nonneg|intros; apply lawful_ret]. Qed.
#[local] Hint Resolve lawful_append_bytes lawful_no_visit lawful_utf8_visit lawful_append_text lawful_append_chunk : reader.

Lemma upto_big_integer k n c : (cursor_size c + k <= n)%nat -> upto (S k) n (fun G _ => big_integer) c.
Proof. intros Hc. unfold big_integer. reader. Qed.
#[local] Hint Resolve upto_big_integer : reader.

Lemma upto_integer k n c : (cursor_size c + k <= n)%nat -> upto (S k) n (fun G _ => cur_integer) c.
Proof.
  intros Hc. apply upto_on_size.
  assert (Hloop : forall fuel c, (cursor_size c < fuel)%nat -> (cursor_size c + k <= n)%nat ->
    upto (S k) n (fun G _ => integer_loop fuel) c); [|apply Hloop; lia].
  clear c Hc. induction fuel as [|fuel IH]; intros c Hf Hc; [lia|]. cbn [integer_loop].
  eapply upto_bind; [apply (upto_header (n - cursor_size c)); lia|]. intros h c' Hc'. cbv beta.
  destruct h; try apply upto_fail; [apply upto_ret; lia|]. destruct (tag =? 2); [reader|]. destruct (tag =? 3); [reader|].
  apply IH; lia.
Qed.
#[local] Hint Resolve upto_integer : reader.

Lemma upto_skip fuel k n c :
  (cursor_size c < fuel)%nat -> (cursor_size c + k <= n)%nat -> upto (S k) n (fun G _ => cur_skip fuel) c.
Proof.
  revert k n c. induction fuel as [|fuel IH]; intros k n c Hf Hc; [lia|]. cbn [cur_skip]. apply upto_step.
  eapply upto_bind; [apply (upto_header (n - cursor_size c)); lia|]. intros h c' Hc'. cbv beta.
  assert (Hk : (cursor_size c' + S k <= n)%nat) by lia. assert (Hlt : (cursor_size c' < fuel)%nat) by lia. clear Hc'.
  assert (Hnest : upto (S k) n (fun G _ => cur_nested (cur_skip fuel)) c').
  { apply upto_nested. intros c1 Hc1. eapply upto_weaken; [apply (IH (S k)); lia|lia]. }
  assert (Hentries : forall (map : bool) remaining, upto (S k) n (fun G _ => cur_nested (for_entries remaining
    (fun _ : unit => cbind (cur_skip fuel) (fun _ : unit => if map then cur_skip fuel else cret tt)) tt)) c').
  { intros map remaining. apply upto_nested. intros c1 Hc1.
    apply (upto_for_entries remaining (fun G _ (_ : unit) => cbind (cur_skip fuel) (fun _ : unit => if map then cur_skip fuel else cret tt)));
      [|lia].
    intros _ c2 k2 n2 Hle2 Hc2. eapply upto_bind; [apply (IH (n2 - cursor_size c2)%nat); lia|].
    intros _ c3 Hc3. cbv beta. destruct map; [|apply upto_ret; lia]. eapply upto_weaken; [apply (IH (1 + k2)%nat)|]; lia. }
  destruct h as [v| |length|length|length|length|tag|v| |];
    [by apply upto_ret|by apply upto_ret| | |apply (Hentries false)|apply (Hentries true)| | |by apply upto_ret|apply upto_fail].
  { by apply (upto_segments (fun G _ => no_visit)); [apply lawful_no_visit|]. }
  { by apply (upto_segments (fun G _ => utf8_visit)); [apply lawful_utf8_visit|]. }
  2: { destruct (_ && _); [by apply upto_ret|apply upto_fail]. }
  unfold skip_tag. destruct (_ || _); [|done]. 
  eapply upto_bind; [apply (upto_peek (n - cursor_size c')); lia|]. intros h c1 Hc1. cbv beta.
  destruct (is_short_bytes h).
  - eapply upto_bind; [apply (upto_big_integer k); lia|]. intros v c2 Hc2. cbv beta. reader.
  - apply upto_nested. intros c2 Hc2. eapply upto_weaken; [apply (IH (S k)); lia|lia].
Qed.

Lemma upto_skip_value k n c : (cursor_size c + k <= n)%nat -> upto (S k) n (fun G _ => skip_value) c.
Proof. intros Hc. apply upto_on_size, upto_skip; lia. Qed.
#[local] Hint Resolve upto_skip_value : reader.

(** ** The grammar *)

Lemma upto_fields {T} (field : forall G, KeyRegistryReadGuardV1 G -> list byte -> T -> DurableReader T) acc k n c :
  (forall name acc k n c, (cursor_size c + k <= n)%nat -> upto k n (fun G _ => field G _ name acc) c) ->
  (cursor_size c + k <= n)%nat -> upto (S k) n (fun G _ => read_fields (field G _) acc) c.
Proof.
  intros Hf Hc. unfold read_fields. eapply upto_bind; [by apply upto_untagged|]. intros h c' Hc'. cbv beta.
  destruct h; try apply upto_fail. apply upto_nested. intros c1 Hc1.
  apply (upto_for_entries _ (fun G _ acc => cstep (cbind cur_identifier (fun name => field G _ name acc)))); [|lia].
  intros acc' c2 k2 n2 _ Hc2. apply upto_step. eapply upto_bind; [by apply upto_identifier|]. intros name c3 Hc3. by apply Hf.
Qed.

Lemma upto_map {K V} `{Countable K} (key : PReader K) (value : PReader V) k n c :
  (forall k n c, (cursor_size c + k <= n)%nat -> upto (S k) n key c) ->
  (forall k n c, (cursor_size c + k <= n)%nat -> upto (S k) n value c) ->
  (cursor_size c + k <= n)%nat -> upto (S k) n (fun G _ => read_map (key G _) (value G _)) c.
Proof.
  intros Hk Hv Hc. unfold read_map. eapply upto_bind; [by apply upto_untagged|]. intros h c' Hc'. cbv beta.
  destruct h; try apply upto_fail. apply upto_nested. intros c1 Hc1.
  apply (upto_for_entries _ (fun G _ map => cstep (cbind (key G _) (fun k => cbind (value G _) (fun v =>
    cbind (cwork checkpoint) (fun _ => cret (<[k := v]> map))))))); [|lia].
  intros acc c2 k2 n2 _ Hc2. apply upto_step. eapply upto_bind; [by apply Hk|]. intros x c3 Hc3. cbv beta.
  eapply upto_bind; [by apply Hv|]. intros v c4 Hc4. cbv beta.
  eapply upto_bind; [apply (upto_work _ _ (fun G _ => checkpoint)); [apply lawful_checkpoint|exact Hc4]|].
  intros _ c5 Hc5. apply upto_ret. lia.
Qed.

Lemma upto_materialize b k n c : 0 <= b -> (cursor_size c + k <= n)%nat -> upto k n (fun G _ => cwork (materialize b)) c.
Proof. intros Hb Hc. by apply (upto_work k n (fun G _ => materialize b)); [apply lawful_materialize|]. Qed.

Lemma upto_owner_id k n c : (cursor_size c + k <= n)%nat -> upto (S k) n (fun G _ => read_owner_id) c.
Proof.
  intros Hc. unfold read_owner_id. do 3 reader_step; try apply upto_fail. do 3 reader_step.
  eapply upto_bind; [apply upto_materialize; [apply len_nonneg|eassumption]|]. intros [] c4 Hc4. by apply upto_ret.
Qed.

Lemma upto_materialize_1 k n c : (cursor_size c + k <= n)%nat -> upto k n (fun G _ => cwork (materialize 1)) c.
Proof. by apply upto_materialize. Qed.
Lemma upto_materialize_8 k n c : (cursor_size c + k <= n)%nat -> upto k n (fun G _ => cwork (materialize 8)) c.
Proof. by apply upto_materialize. Qed.
Lemma upto_materialize_32 k n c : (cursor_size c + k <= n)%nat -> upto k n (fun G _ => cwork (materialize 32)) c.
Proof. by apply upto_materialize. Qed.
#[local] Hint Resolve upto_owner_id upto_materialize_1 upto_materialize_8 upto_materialize_32 : reader.

Lemma upto_role k n c : (cursor_size c + k <= n)%nat -> upto (S k) n (fun G _ => read_role) c.
Proof.
  intros Hc. unfold read_role. apply upto_step. eapply upto_bind; [by apply upto_untagged|]. intros h c' Hc'. cbv beta.
  eapply (upto_bind k); [destruct h; reader; lia|]. intros [] c1 Hc1. cbv beta. apply upto_nested. intros c2 Hc2.
  rewrite <- Hc2 in Hc1. clear Hc2. reader.
Qed.

Lemma upto_epoch k n c : (cursor_size c + k <= n)%nat -> upto (S k) n (fun G _ => read_epoch) c.
Proof. intros Hc. unfold read_epoch. reader. Qed.

Lemma upto_version k n c : (cursor_size c + k <= n)%nat -> upto (S k) n (fun G _ => read_version) c.
Proof. intros Hc. unfold read_version. reader. Qed.
#[local] Hint Resolve upto_role upto_epoch upto_version : reader.

Lemma upto_fixed_bytes k n c : (cursor_size c + k <= n)%nat -> upto (S k) n (fun G _ => read_fixed_bytes) c.
Proof.
  intros Hc. unfold read_fixed_bytes. apply upto_step. eapply upto_bind; [by apply upto_untagged|]. intros h c' Hc'. cbv beta.
  eapply (upto_bind (S k)); [|intros bytes c1 Hc1; cbv beta; reader].
  destruct h; try apply upto_fail; [reader|]. apply upto_nested. intros c1 Hc1.
  apply (upto_for_entries _ (fun G _ bytes => cstep (cbind cur_integer (fun value =>
    cbind (crequire (byte_of_integer value)) (fun b => cbind (cwork (materialize 1)) (fun _ => cret (bytes ++ [b]))))))); [|lia].
  intros acc c2 k2 n2 _ Hc2. reader.
Qed.

Lemma upto_digest k n c : (cursor_size c + k <= n)%nat -> upto (S k) n (fun G _ => read_digest) c.
Proof. apply upto_fixed_bytes. Qed.
Lemma upto_public_key k n c : (cursor_size c + k <= n)%nat -> upto (S k) n (fun G _ => read_public_key) c.
Proof. apply upto_fixed_bytes. Qed.
#[local] Hint Resolve upto_digest upto_public_key : reader.

Lemma upto_optional {A} (m : PReader A) k n c :
  (forall k n c, (cursor_size c + k <= n)%nat -> upto (S k) n m c) ->
  (cursor_size c + k <= n)%nat -> upto (S k) n (fun G _ => read_optional (m G _)) c.
Proof.
  intros Hm Hc. unfold read_optional. apply upto_step. eapply upto_bind; [by apply upto_header|]. intros h c' Hc'. cbv beta.
  assert (Hread : upto (S k) n (fun G _ => cbind (return_header h) (fun _ => cbind (m G _) (fun a => cret (Some a)))) c').
  { eapply upto_bind; [by apply upto_return|]. intros [] c1 Hc1. cbv beta.
    eapply upto_bind; [by apply Hm|]. intros a c2 Hc2. by apply upto_ret. }
  destruct h; try exact Hread. destruct (_ || _); [by apply upto_ret|exact Hread].
Qed.

Lemma upto_into {A T} (slot : option A) (m : PReader A) (set : option A -> T) k n c :
  (forall k n c, (cursor_size c + k <= n)%nat -> upto (S k) n m c) ->
  (cursor_size c + k <= n)%nat -> upto k n (fun G _ => into slot (m G _) set) c.
Proof.
  intros Hm Hc. unfold into, read_slot. eapply (upto_bind k).
  - apply upto_step. destruct slot; [apply upto_fail|].
    eapply upto_bind; [by apply Hm|]. intros a c' Hc'. apply upto_ret. lia.
  - intros v c' Hc'. by apply upto_ret.
Qed.

(** One field of a record: its slot, or a value that is skipped. *)
Ltac fields := repeat first
  [ match goal with |- upto _ _ (fun G _ => into _ _ _) _ => apply upto_into; [intros|done] end
  | eapply upto_optional; [intros|eassumption]
  | apply upto_map; [intros..|eassumption]
  | reader_step ].

Lemma upto_identity k n c : (cursor_size c + k <= n)%nat -> upto (S k) n (fun G _ => read_identity) c.
Proof.
  intros Hc. unfold read_identity. apply upto_step. eapply upto_bind.
  - apply upto_fields; [|exact Hc]. intros name [[o r] e] k' n' c' Hc'. cbv beta iota. fields.
  - intros [[o r] e] c' Hc'. cbv beta iota. reader.
Qed.
#[local] Hint Resolve upto_identity : reader.

Lemma upto_scope k n c : (cursor_size c + k <= n)%nat -> upto (S k) n (fun G _ => read_scope) c.
Proof.
  intros Hc. unfold read_scope. eapply upto_bind; [by apply upto_untagged|]. intros h c' Hc'. cbv beta.
  destruct h; try apply upto_fail. apply upto_nested. intros c1 Hc1. rewrite <- Hc1 in Hc'. reader.
Qed.
#[local] Hint Resolve upto_scope : reader.

Lemma upto_record k n c : (cursor_size c + k <= n)%nat -> upto (S k) n (fun G _ => read_record) c.
Proof.
  intros Hc. unfold read_record. apply upto_step. eapply upto_bind.
  - apply upto_fields; [|exact Hc]. intros name [[o r] e] k' n' c' Hc'. cbv beta iota. fields.
  - intros [[o r] e] c' Hc'. cbv beta iota. reader.
Qed.

Lemma upto_tombstone k n c : (cursor_size c + k <= n)%nat -> upto (S k) n (fun G _ => read_tombstone) c.
Proof.
  intros Hc. unfold read_tombstone. apply upto_step. eapply upto_bind.
  - apply upto_fields; [|exact Hc]. intros name [[[o r] e] f] k' n' c' Hc'. cbv beta iota. fields.
  - intros [[[o r] e] f] c' Hc'. cbv beta iota. reader.
Qed.

Lemma upto_request k n c : (cursor_size c + k <= n)%nat -> upto (S k) n (fun G _ => read_request) c.
Proof.
  intros Hc. unfold read_request. apply upto_step. eapply upto_bind.
  - apply upto_fields; [|exact Hc]. intros name [[o r] e] k' n' c' Hc'. cbv beta iota. fields.
  - intros [[o r] e] c' Hc'. cbv beta iota. reader.
Qed.
#[local] Hint Resolve upto_record upto_tombstone upto_request : reader.

Lemma upto_registry k n c : (cursor_size c + k <= n)%nat -> upto k n (fun G _ => read_registry) c.
Proof.
  intros Hc. unfold read_registry. eapply upto_bind.
  - apply upto_fields; [|exact Hc]. intros name [r a t h p v] k' n' c' Hc'. unfold registry_field. cbv iota. fields.
  - intros acc c' Hc'. cbv beta. reader.
Qed.

Lemma lawful_read_body bytes :
  lawful (fun G _ => gbind (read_registry (durable_cursor bytes)) (fun r => match r with
    | None => gret None
    | Some (registry, _) => gbind (validate_with_read_context registry) (fun _ => gret (Some registry))
    end)).
Proof.
  apply lawful_bind; [apply (upto_registry 0 (cursor_size (durable_cursor bytes))); lia|].
  intros [[registry c]|]; [|apply lawful_ret]. apply lawful_bind; [apply lawful_validate|intros; apply lawful_ret].
Qed.

Lemma lawful_read_durable bytes : lawful (fun G _ => read_durable bytes).
Proof. apply lawful_step, lawful_read_body. Qed.

Lemma read_durable_ordinary bytes :
  ordinary (fun G _ => read_durable bytes) = Err InvalidSnapshot
  \/ exists registry, ordinary (fun G _ => read_durable bytes) = Ok (Some registry) /\ registry_ok registry.
Proof.
  destruct (lawful_ordinary _ (lawful_read_durable bytes)) as [Hnr _]. revert Hnr. unfold read_durable.
  rewrite (ordinary_step (fun G _ => gbind (read_registry (durable_cursor bytes)) _)) by apply lawful_read_body.
  destruct (upto_registry 0 (cursor_size (durable_cursor bytes)) (durable_cursor bytes)) as [Hl Hr]; [lia|].
  rewrite (ordinary_bind (fun G _ => read_registry (durable_cursor bytes)) (fun G _ r => match r with
    | None => gret None
    | Some (registry, _) => gbind (validate_with_read_context registry) (fun _ => gret (Some registry))
    end)) by done.
  destruct (ordinary (fun G _ => read_registry (durable_cursor bytes))) as [[[registry c]|]|[]]; cbn [rbind leaves] in *;
    [|done|by left|done]. intros Hnr. revert Hnr.
  rewrite (ordinary_bind (fun G _ => validate_with_read_context registry) (fun G _ _ => gret (Some registry))) by apply lawful_validate.
  destruct (ordinary (fun G _ => validate_with_read_context registry)) as [[]|[]] eqn:Hv; intros Hnr; [|by left|done].
  right. exists registry. split; [done|]. by apply validate_native_exact.
Qed.

(** C21: guarded reads are exact.  Reading a snapshot always ends.  Its work is one list
    of observations fixed by the bytes; every guard is shown that list in order
    until it refuses one, which ends the read at once and for good, and otherwise
    receives the same answer: the snapshot is invalid, or a registry that satisfies
    the invariant. *)
Theorem durable_read_exact bytes : exists ws r,
  (r = Err InvalidSnapshot \/ exists registry, r = Ok (Some registry) /\ registry_validate registry = Ok tt)
  /\ forall G (guard : KeyRegistryReadGuardV1 G) (g : G),
       from_durable_cbor_with_read_guard bytes g = settle ws r (context_new g).
Proof.
  destruct (lawful_ordinary _ (lawful_read_durable bytes)) as (_ & ws & _ & Hm).
  exists ws, (ordinary (fun G _ => read_durable bytes)). split; [|intros; by apply Hm].
  destruct (read_durable_ordinary bytes) as [->|(registry & -> & Hok)]; [by left|right].
  exists registry. split; [done|]. by apply validate_exact.
Qed.

(** The cost of a read.  Every snapshot has one cost in materialized bytes: a budget
    that covers it reads the snapshot and is debited exactly that cost, a smaller
    one is refused. *)
Theorem durable_read_cost bytes : exists cost, 0 <= cost /\ forall limit, 0 <= limit ->
  (cost <= limit -> from_durable_cbor_with_read_guard bytes (MkByteBudget limit)
     = (context_new (MkByteBudget (limit - cost)),
        (from_durable_cbor_with_read_guard bytes (tt : OrdinaryReadGuard)).2))
  /\ (limit < cost -> (from_durable_cbor_with_read_guard bytes (MkByteBudget limit)).2 = Err ReadRefused).
Proof. exact (read_cost (fun G guard => @read_durable G guard bytes) (lawful_read_durable bytes)). Qed.
