(* ===== verification/KeyRegistrySample.v ===== *)
(** * Concrete key registries

    A subject with a data key that is rotated and destroyed, in a registry and in a
    store, and a durable snapshot: what the theorems of the key registry promise. *)

From Stdlib Require Import String ZArith Lia Bool.
From S2P Require Import Prelude Text FallbackRecords Keys KeyRegistry ErasureGate Events EventStore.
From S2P Require Import StoreHistory StoreCorrect StoreProperties.
From S2P Require Import KeyRegistryInvariant KeyRegistryProperties KeyRegistryStore KeyRegistryReader KeyRegistryReaderProperties.

Local Open Scope Z_scope.

Module KeySample.
#[export] Instance blake3_keys : Blake3 := sample_digest.
#[export] Instance ulid_keys : UlidText := ulid_bytes.

Definition digest_of (b : byte) : Hash := default hash_zero (hash_try_from (replicate 32 b)).
Definition subject : EntityId := @Checked _ (has_len 16) (replicate 16 x11) I.
Definition owner_text : RString := lit "subject:11111111111111111111111111111111".
Definition data_owner : OwnerIdV1 := @Checked _ owner_text_ok owner_text I.

Definition data_key (epoch : Z) : KeyIdentityV1 := MkKeyIdentity data_owner SubjectDataEncryption epoch.
Definition signing_key : KeyIdentityV1 := MkKeyIdentity data_owner TimelineIntegritySigning 1.
Definition registration (epoch : Z) (b : byte) : KeyRegistrationV1 :=
  MkRegistration (data_key epoch) (digest_of b) None.
Definition signing_registration : KeyRegistrationV1 :=
  MkRegistration signing_key (digest_of x51) (Some (digest_of x52)).

Definition registry1 : KeyRegistryStateV1 := (register_key (registration 1 x41) registry_new).1.
Definition registry2 : KeyRegistryStateV1 := (register_key signing_registration registry1).1.
Definition request : KeyDestructionRequestV1 := MkDestructionRequest (data_key 1) (digest_of x41) (digest_of x61).
Definition registry3 : KeyRegistryStateV1 := (begin_key_destruction request registry2).1.
Definition registry4 : KeyRegistryStateV1 := (complete_key_destruction request (deletion_receipt request) registry3).1.

Lemma registry2_reachable : registry_reachable registry2.
Proof. apply (registry_runs (OpRegister signing_registration)), (registry_runs (OpRegister (registration 1 x41))), registry_start. Defined.

Example rotation_outcomes :
  (register_key (registration 1 x41) registry_new).2 = Ok Registered
  /\ (begin_key_destruction request registry2).2 = Ok Started
  /\ (complete_key_destruction request (deletion_receipt request) registry3).2 = Ok (Destroyed (tombstone_of request))
  /\ (register_key (registration 1 x71) registry4).2 = Err KeyError.Destroyed
  /\ (register_key (registration 2 x41) registry4).2 = Err KeyError.MaterialReuse
  /\ (register_key (registration 2 x42) registry4).2 = Ok Registered.
Proof. split_and!; vm_compute; reflexivity. Qed.

(** ** The guarantees, on the sample *)

Lemma registry2_valid : registry_validate registry2 = Ok tt.
Proof. vm_compute. reflexivity. Defined.

Lemma registry3_valid : registry_validate registry3 = Ok tt.
Proof. vm_compute. reflexivity. Defined.

Lemma step34 : accepted registry3 registry4.
Proof. vm_compute. reflexivity. Defined.

Lemma key_registry_invariant_witness :
  registry_validate registry2 = Ok tt
  /\ validate_replacement registry2 (run_registry_op (OpBegin request) registry2) = Ok tt.
Proof. apply (key_registry_invariant registry2 (OpBegin request)), registry2_reachable. Defined.

Lemma replacement_keeps_history_witness : registry_extends registry3 registry4.
Proof. apply replacement_keeps_history. eapply rtc_l; [apply step34|apply rtc_refl]. Defined.

Lemma registry3_retired : retired registry3 (data_key 1).
Proof. right. exists request. vm_compute. reflexivity. Defined.

Lemma destruction_final_witness :
  exists e, register_key (registration 7 x41) registry4 = (registry4, Err e).
Proof.
  eapply (destruction_final registry3 registry4 (data_key 1) (digest_of x41)).
  - apply registry3_valid.
  - apply registry3_retired.
  - vm_compute. reflexivity.
  - eapply rtc_l; [apply step34|apply rtc_refl].
  - right. reflexivity.
Defined.

Lemma registry2_can_sign : can_sign registry2 signing_key (digest_of x51) (digest_of x52).
Proof.
  split; [vm_compute; reflexivity|].
  exists (MkKeyRecord signing_key (Some (digest_of x51)) (Some (digest_of x52))).
  split; [split_and!|reflexivity]; [vm_compute; reflexivity|reflexivity|].
  intros [[t Ht]|[q Hq]]; vm_compute in *; discriminate.
Defined.

Lemma authorization_exact_witness :
  with_signing_authorization registry2 signing_key (digest_of x51) (digest_of x52) (fun w : Z => (w + 1, true)) 41
  = (42, Ok true).
Proof.
  apply (authorization_exact registry2 signing_key (digest_of x51) (digest_of x52) (fun w : Z => (w + 1, true)) 41).
  - apply registry2_valid.
  - apply registry2_can_sign.
Defined.

Lemma registry2_destroys : destroys registry2 request.
Proof.
  constructor; [vm_compute; reflexivity|vm_compute; reflexivity|].
  exists (MkKeyRecord (data_key 1) (Some (digest_of x41)) None). split; [vm_compute; reflexivity|reflexivity].
Defined.

Lemma destruction_completes_witness : exists pending destroyed,
  begin_key_destruction request registry2 = (pending, Ok Started)
  /\ complete_key_destruction request (deletion_receipt request) pending = (destroyed, Ok (Destroyed (tombstone_of request))).
Proof.
  destruct (destruction_completes registry2 request (MkKeyRecord (data_key 1) (Some (digest_of x41)) None))
    as (p & d & H1 & H2 & _).
  - apply registry2_valid.
  - apply registry2_destroys.
  - vm_compute. reflexivity.
  - exists p, d. split; assumption.
Defined.

Lemma registers_next : registers registry2 (registration 2 x42).
Proof.
  constructor; [discriminate|reflexivity|vm_compute; reflexivity|vm_compute; reflexivity| |vm_compute; reflexivity|].
  - intros h Hh. vm_compute in Hh. injection Hh as <-. reflexivity.
  - intros j Hj. assert (Hr : material_is_reserved registry2 (digest_of x42) = false) by (vm_compute; reflexivity).
    assert (material_is_reserved registry2 (digest_of x42) = true); [|congruence].
    apply material_is_reserved_spec; [|by exists j]. apply reachable_registry_ok, registry2_reachable.
Defined.

Lemma rotation_succeeds_witness : exists s', register_key (registration 2 x42) registry2 = (s', Ok Registered).
Proof.
  destruct (rotation_succeeds registry2 (registration 2 x42)) as (s' & Hs & _).
  - apply registry2_valid.
  - apply registers_next.
  - exists s'. assumption.
Defined.

(** ** In a store *)

Definition store0 : Store := initial_store (Some gate_new_test_open).
Definition main_id : TimelineId := @Checked _ (has_len 16) (replicate 16 x01) I.
Definition store1 : Store := (create_timeline store0 main_id (lit "main")).1.
Definition store2 : Store := (save_key_registry registry2 store1).1.
Definition store3 : Store := (begin_key_registry_destruction request store2).1.
Definition store4 : Store := (complete_key_registry_destruction request (deletion_receipt request) store3).1.
Definition preference : FreshDraft :=
  MkFresh (draft_new subject PERSONA_PREFERENCE [x41]) (@Checked _ (has_len 16) (replicate 16 x02) I) 1000.

Lemma store2_registry : st_key_registry store2 = Some registry2.
Proof.
  unfold store2, save_key_registry, save_key_registry_unchecked. rewrite registry2_valid.
  change (ensure_key_registry_write_allowed store1) with (@Ok CoreError unit tt).
  change (st_key_registry store1) with (@None KeyRegistryStateV1). reflexivity.
Qed.

Lemma step23 : accepted registry2 registry3.
Proof. vm_compute. reflexivity. Qed.

Lemma store3_registry : st_key_registry store3 = Some registry3.
Proof.
  unfold store3, begin_key_registry_destruction, change_key_registry, required_key_registry, load_key_registry.
  rewrite store2_registry, registry2_valid. cbn [map_err rbind ok_or].
  rewrite (begin_starts registry2 request); [|apply reachable_registry_ok, registry2_reachable|apply registry2_destroys].
  unfold save_key_registry, save_key_registry_unchecked.
  assert (pending_state registry2 request = registry3) as ->.
  { unfold registry3. rewrite (begin_starts registry2 request); [reflexivity| |apply registry2_destroys].
    apply reachable_registry_ok, registry2_reachable. }
  assert (ensure_key_registry_write_allowed store2 = Ok tt) as ->.
  { unfold store2, save_key_registry, save_key_registry_unchecked. rewrite registry2_valid. reflexivity. }
  rewrite registry3_valid, store2_registry. cbn [map_err rbind]. rewrite step23. reflexivity.
Qed.

Lemma store_steps : rtc store_step store2 store4.
Proof.
  eapply rtc_l; [apply (begins store2 request)|]. eapply rtc_l; [apply (completes _ request (deletion_receipt request))|].
  apply rtc_refl.
Defined.

Lemma plaintext_refused_forever_witness : exists e, append store4 main_id [preference] = (store4, Err e).
Proof.
  eapply (plaintext_refused_forever store2 store4 registry2 subject preference).
  - apply store2_registry.
  - apply registry2_valid.
  - exists (data_key 1), (MkKeyRecord (data_key 1) (Some (digest_of x41)) None).
    split_and!; [vm_compute; reflexivity|reflexivity|vm_compute; reflexivity].
  - apply store_steps.
  - apply list_elem_of_singleton. reflexivity.
  - reflexivity.
  - reflexivity.
Defined.

Lemma stored_destruction_final_witness :
  exists e, store_decryption_authorization store4 (data_key 1) (digest_of x41) (fun w : Z => (w + 1, true)) 41 = (41, Err e).
Proof.
  eapply (stored_destruction_final store3 store4 registry3 (data_key 1)).
  - apply store3_registry.
  - apply registry3_valid.
  - apply registry3_retired.
  - eapply rtc_l; [apply (completes _ request (deletion_receipt request))|apply rtc_refl].
Defined.

(** ** A snapshot *)

Definition text (s : string) : list byte := byte_of_Z (96 + len (list_byte_of_string s)) :: list_byte_of_string s.
Definition empty_snapshot : list byte :=
  xa6 :: text "records" ++ [xa0] ++ text "active" ++ [xa0] ++ text "tombstones" ++ [xa0]
  ++ text "highest_epoch" ++ [xa0] ++ text "pending_destructions" ++ [xa0] ++ text "version" ++ [x01].

Example empty_snapshot_reads :
  from_durable_cbor_with_read_guard empty_snapshot (MkByteBudget 1)
  = (context_new (MkByteBudget 0), Ok (Some registry_new)).
Proof. vm_compute. reflexivity. Qed.

Example empty_snapshot_refused :
  (from_durable_cbor_with_read_guard empty_snapshot (MkByteBudget 0)).2 = Err ReadRefused.
Proof. vm_compute. reflexivity. Qed.
End KeySample.
