(* ===== verification/StorePort.v ===== *)
(** * The Event store as its clients see it

    [pos_core::store::EventStore], the trait behind [&dyn EventStore], with the
    operations the query and merge crates call; what they rely on, stated as
    laws over the histories a store holds; and the in-memory store as an
    instance. *)

From Stdlib Require Import String ZArith Lia Bool.
From S2P Require Import Prelude Text FallbackRecords ErasureGate Events EventStore StoreHistory.
From S2P Require Import StoreCorrect StoreProperties.

Local Open Scope Z_scope.

(** An implementation chooses the ids of new Timelines and Events and the
    clock; they are arguments here, as in [EventStore]. *)
Class EventStorePort (S : Type) := {
  port_read : S -> TimelineId -> SeqRange -> Read (list Event);
  port_get_timeline : S -> TimelineId -> Read (option Timeline);
  port_fork : S -> TimelineId -> TimelineId -> Z -> RString -> S * Read Timeline;
  port_append : S -> TimelineId -> list FreshDraft -> S * Read (list Event);
}.

(** The Event a draft becomes. *)
Definition carries (d : FreshDraft) (e : Event) : Prop :=
  ev_id e = fd_id d /\ ev_entity e = draft_entity (fd_draft d)
  /\ ev_event_type e = draft_event_type (fd_draft d) /\ ev_payload e = draft_payload (fd_draft d)
  /\ ev_wall_time e = default (fd_now d) (draft_wall_time (fd_draft d))
  /\ ev_causation_id e = draft_causation_id (fd_draft d)
  /\ ev_correlation_id e = draft_correlation_id (fd_draft d).

(** What a client relies on.  [port_history s id h]: the Timeline [id] of [s]
    holds the Events [h], inherited ones first.  A refused fork changes nothing;
    an append that fails midway has committed a prefix of its drafts. *)
Class EventStoreLaws (S : Type) `{EventStorePort S} := {
  port_ok : S -> Prop;
  port_history : S -> TimelineId -> list Event -> Prop;
  port_can_fork : S -> TimelineId -> TimelineId -> Z -> Prop;
  port_room : S -> TimelineId -> Z -> Prop;
  law_history_unique s id h h' : port_history s id h -> port_history s id h' -> h = h';
  law_read s id range evs :
    port_ok s -> port_read s id range = Ok evs ->
    exists h, port_history s id h /\ evs = renumber_and_filter h range
      /\ port_read s id seq_range_all = Ok (renumber h);
  law_fork s id parent at_seq name s' child :
    port_ok s -> port_can_fork s id parent at_seq ->
    port_fork s id parent at_seq name = (s', Ok child) ->
    port_ok s' /\ timeline_id child = id /\ (forall n, n <= U64_MAX -> port_room s' id n)
    /\ (exists hp, port_history s parent hp /\ at_seq <= len hp
        /\ port_history s' id (take (Z.to_nat at_seq) hp))
    /\ forall x h, port_history s x h -> port_history s' x h;
  law_fork_error s id parent at_seq name s' e :
    port_fork s id parent at_seq name = (s', Err e) -> s' = s;
  law_append s id ds s' r :
    port_ok s -> port_room s id (len ds) -> port_append s id ds = (s', r) ->
    port_ok s' /\ exists new k, Forall2 carries (take k ds) new /\ (is_ok r = true -> take k ds = ds)
      /\ forall x h, port_history s x h -> port_history s' x (if decide (x = id) then h ++ new else h);
}.

(** ** The in-memory store *)

Section Memory.
Context `{Hasher} `{UlidText}.

#[export] Instance memory_port : EventStorePort Store := {|
  port_read := read;
  port_get_timeline := get_timeline;
  port_fork := fork;
  port_append := append;
|}.

(** The new id is free, and the cut is not inside what the parent inherited. *)
Definition memory_can_fork (s : Store) (id parent : TimelineId) (at_seq : Z) : Prop :=
  st_timelines s !! id = None /\ 0 <= at_seq
  /\ forall pst, st_timelines s !! parent = Some pst -> prefix_of pst <= at_seq.

Lemma same_guards_refl s : same_guards s s.
Proof. by split. Qed.

Lemma memory_law_read s id range evs :
  store_ok s -> read s id range = Ok evs ->
  exists h, history (st_timelines s) id h /\ evs = renumber_and_filter h range
    /\ read s id seq_range_all = Ok (renumber h).
Proof.
  intros [Hwf _] Hr. destruct (read_ok_inv _ _ _ _ Hr) as (g & Hg & Hau & Hv & Hi & Hc).
  destruct (collect_inv _ _ _ _ Hwf Hc) as (h & Hh & ->). exists h. split_and!; [done|done|].
  unfold read. rewrite (with_erasure_read_fence_open _ _ _ _ g Hg Hau), Hv, Hi. simpl.
  by rewrite (collect_history _ _ _ _ Hwf Hh), renumber_read_all.
Qed.

Lemma committed_events_carry id prefix head ds : Forall2 carries ds (committed_events id prefix head ds).
Proof. revert head. induction ds as [|d ds IH]; intros head; simpl; constructor; [by split_and!|apply IH]. Qed.

Lemma memory_law_append s id ds s' r :
  store_ok s -> room s id (len ds) -> append s id ds = (s', r) ->
  store_ok s' /\ exists new k, Forall2 carries (take k ds) new /\ (is_ok r = true -> take k ds = ds)
    /\ forall x h, history (st_timelines s) x h ->
         history (st_timelines s') x (if decide (x = id) then h ++ new else h).
Proof.
  intros Hok Hroom Ha. unfold append in Ha.
  assert (Hsame : st_timelines s' = st_timelines s -> store_ok s' ->
    store_ok s' /\ exists new k, Forall2 carries (take k ds) new /\ (is_ok (Err ErasureAccessFrozen : Read unit) = true ->
      take k ds = ds) /\ forall x h, history (st_timelines s) x h ->
         history (st_timelines s') x (if decide (x = id) then h ++ new else h)).
  { intros Heq Hok'. split; [done|]. exists [], 0%nat. split_and!; [constructor|done|]. rewrite Heq. intros x h Hh.
    destruct (decide _); [by rewrite app_nil_r|done]. }
  apply with_erasure_fence_cases in Ha as [[-> [e ->]]|Ha]; [by apply Hsame|].
  pose proof (guarded_append_store_ok _ _ _ _ _ Hok Hroom Ha) as Hok'.
  destruct (guarded_append_spec _ _ _ _ _ Hok Hroom Ha)
    as [[Heq [e ->]]|(st & st' & new & Hst & Heq & Hex & [k ->] & Hr)]; [by apply Hsame|].
  split; [done|]. pose proof (extends_fork_point _ _ _ _ Hex) as Hfp.
  assert (Hh : forall x h, history (st_timelines s) x h -> history (st_timelines s') x
    (if decide (x = id) then h ++ committed_events id (prefix_of st) (len (ts_events st)) (take k ds) else h)).
  { intros x h Hx. rewrite Heq. exact (history_extend _ _ _ _ _ Hst Hfp (ex_events _ _ _ _ Hex) x h Hx). }
  exists (committed_events id (prefix_of st) (len (ts_events st)) (take k ds)), k.
  split_and!; [apply committed_events_carry| |done].
  destruct r as [evs|e]; [|done]. intros _. destruct (Hr evs eq_refl) as [He _].
  apply (f_equal length) in He. rewrite !length_committed_events in He. rewrite length_take in He.
  apply take_ge. lia.
Qed.

Lemma memory_law_fork_error s id parent at_seq name s' e :
  fork s id parent at_seq name = (s', Err e) -> s' = s.
Proof.
  unfold fork, with_direct_topology_mutation. destruct (st_erasure_topology_requires_permit s); [by intros [= <-]|].
  intros [[-> _]|Hf]%with_erasure_fence_cases; [done|]. cbv beta in Hf.
  destruct (ensure_generic_timeline_visibility s parent); [|by injection Hf as <- _].
  unfold fork_timeline_unchecked in Hf. destruct (rbind _ _) in Hf; [done|]. by injection Hf as <- _.
Qed.

Lemma memory_law_fork s id parent at_seq name s' child :
  store_ok s -> memory_can_fork s id parent at_seq -> fork s id parent at_seq name = (s', Ok child) ->
  store_ok s' /\ timeline_id child = id /\ (forall n, n <= U64_MAX -> room s' id n)
  /\ (exists hp, history (st_timelines s) parent hp /\ at_seq <= len hp
      /\ history (st_timelines s') id (take (Z.to_nat at_seq) hp))
  /\ forall x h, history (st_timelines s) x h -> history (st_timelines s') x h.
Proof.
  intros Hok (Hnew & Hpos & Hpre) Hf.
  destruct (fork_ok_spec _ _ _ _ _ _ _ Hok Hnew Hpos Hf) as (Hok' & Hid & [ch Hst] & (hp & Hhp & Hle & Hh) & Hx).
  split_and!; [done|done| | |done].
  - intros n Hn st Hst'. rewrite Hst in Hst'. injection Hst' as <-. done.
  - exists hp. split_and!; [done|done|]. destruct (history_state _ _ _ Hhp) as [pst Hp]. by eapply Hh, Hpre.
Qed.

#[export] Instance memory_laws : EventStoreLaws Store := {|
  port_ok := store_ok;
  port_history s := history (st_timelines s);
  port_can_fork := memory_can_fork;
  port_room := room;
  law_history_unique s := history_deterministic (st_timelines s);
  law_read := memory_law_read;
  law_fork := memory_law_fork;
  law_fork_error := memory_law_fork_error;
  law_append := memory_law_append;
|}.
End Memory.
