(* ===== verification/Query.v ===== *)
(** * Queries over a Timeline

    [crates/pos-query/src/{query,traversal}.rs]: filtered reads, relationship
    traces and causation chains, over any store that satisfies the laws of
    [StorePort].

    The loop of [causal_chain] has no bound in the source; here it runs on fuel
    and [None] says that it has not returned after that many iterations.  The
    theorems give fuel with which it returns and an accepted store on which it
    returns with none. *)

From Stdlib Require Import String ZArith Lia Bool Sorted.
From stdpp Require Import sorting.
From S2P Require Import Prelude Text FallbackRecords ErasureGate Events EventStore StoreHistory.
From S2P Require Import StoreCorrect StoreProperties StorePort.

Local Open Scope Z_scope.

(** ** Definitions *)

Record EventQuery := MkQuery {
  q_timeline : TimelineId;
  q_from_seq : option Z;
  q_to_seq : option Z;
  q_entity_filter : option EntityId;
  q_event_type_filter : option RString;
}.

Definition query_on (timeline : TimelineId) : EventQuery := MkQuery timeline None None None None.
Definition query_from_seq (seq : Z) (q : EventQuery) : EventQuery :=
  MkQuery (q_timeline q) (Some seq) (q_to_seq q) (q_entity_filter q) (q_event_type_filter q).
Definition query_to_seq (seq : Z) (q : EventQuery) : EventQuery :=
  MkQuery (q_timeline q) (q_from_seq q) (Some seq) (q_entity_filter q) (q_event_type_filter q).
Definition query_for_entity (entity : EntityId) (q : EventQuery) : EventQuery :=
  MkQuery (q_timeline q) (q_from_seq q) (q_to_seq q) (Some entity) (q_event_type_filter q).
Definition query_of_type (event_type : RString) (q : EventQuery) : EventQuery :=
  MkQuery (q_timeline q) (q_from_seq q) (q_to_seq q) (q_entity_filter q) (Some event_type).

Definition query_range (q : EventQuery) : SeqRange :=
  match q_from_seq q, q_to_seq q with
  | Some from, Some to => MkSeqRange from (Some to)
  | Some from, None => MkSeqRange from None
  | None, Some to => MkSeqRange SEQ_ZERO (Some to)
  | None, None => seq_range_all
  end.

(** [HashMap] collected from the Events: a later Event replaces an earlier one
    with its id. *)
Definition index_by_id (events : list Event) : gmap EventId Event :=
  fold_left (fun index e => <[ev_id e := e]> index) events ∅.

Fixpoint chain_walk (fuel : nat) (index : gmap EventId Event) (chain : list Event)
    (current_id : option EventId) : option (list Event) :=
  match fuel with
  | O => None
  | S fuel' =>
      match current_id with
      | None => Some chain
      | Some id =>
          match index !! id with
          | Some event => chain_walk fuel' index (chain ++ [event]) (ev_causation_id event)
          | None => Some chain
          end
      end
  end.

Section Operations.
Context {S : Type} `{EventStorePort S}.

Definition execute (q : EventQuery) (store : S) : Read (list Event) :=
  let? events := port_read store (q_timeline q) (query_range q) in
  let events := match q_entity_filter q with
                | Some entity => List.filter (fun e => bool_decide (ev_entity e = entity)) events
                | None => events end in
  let events := match q_event_type_filter q with
                | Some event_type => List.filter (fun e => bool_decide (ev_event_type e = event_type)) events
                | None => events end in
  Ok events.

Definition trace_relationships (store : S) (timeline : TimelineId) (entity : EntityId)
    (relationship_event_type : RString) : Read (list Event) :=
  let? all := port_read store timeline seq_range_all in
  let matching := List.filter (fun e => bool_decide (ev_event_type e = relationship_event_type)
                                        && bool_decide (ev_entity e = entity)) all in
  Ok (sort_by_seq matching).

Definition causal_chain (fuel : nat) (store : S) (timeline : TimelineId) (event_id : EventId)
    : Read (option (list Event)) :=
  let? all := port_read store timeline seq_range_all in
  let index := index_by_id all in
  if bool_decide (index !! event_id = None) then Ok (Some [])
  else Ok (@rev Event <$> chain_walk fuel index [] (Some event_id)).
End Operations.

(** ** Filters *)

(** What a query asks of an Event. *)
Definition query_matches (q : EventQuery) (e : Event) : bool :=
  match q_from_seq q with Some from => from <=? ev_seq e | None => true end
  && match q_to_seq q with Some to => ev_seq e <=? to | None => true end
  && match q_entity_filter q with Some x => bool_decide (ev_entity e = x) | None => true end
  && match q_event_type_filter q with Some t => bool_decide (ev_event_type e = t) | None => true end.

Lemma filter_filter {A} (f g : A -> bool) l :
  List.filter f (List.filter g l) = List.filter (fun x => g x && f x) l.
Proof. induction l as [|x l IH]; [done|]. simpl. destruct (g x); simpl; by rewrite IH. Qed.

Lemma filter_optional {A B} (f : B -> A -> bool) (o : option B) l :
  (match o with Some b => List.filter (f b) l | None => l end)
  = List.filter (fun x => match o with Some b => f b x | None => true end) l.
Proof. destruct o; [done|]. symmetry. apply forallb_filter_id. by apply forallb_forall. Qed.

Lemma renumber_seq_pos h e : e ∈ renumber h -> 1 <= ev_seq e.
Proof.
  intros [i He]%list_elem_of_lookup. apply renumber_lookup in He as (e0 & _ & ->). simpl. lia.
Qed.

Lemma query_range_matches q h e :
  e ∈ renumber h ->
  in_seq_range (query_range q) (ev_seq e)
  = match q_from_seq q with Some from => from <=? ev_seq e | None => true end
    && match q_to_seq q with Some to => ev_seq e <=? to | None => true end.
Proof.
  intros He%renumber_seq_pos. unfold in_seq_range, query_range.
  assert (H0 : (0 <=? ev_seq e) = true) by (apply Z.leb_le; lia).
  destruct (q_from_seq q), (q_to_seq q); unfold seq_range_all, SEQ_ZERO; cbn [range_from range_to];
    by rewrite ?H0.
Qed.

(** ** Sorting sorted Events *)

Definition seq_le (a b : Event) : Prop := ev_seq a <= ev_seq b.

Lemma insert_by_seq_last e l : Forall (fun x => seq_le x e) l -> insert_by_seq e l = l ++ [e].
Proof.
  induction l as [|y l IH]; intros Hf; [done|]. apply Forall_cons in Hf as [Hy Hf]. simpl.
  unfold seq_le in Hy. rewrite (proj2 (Z.ltb_ge _ _)) by lia. by rewrite IH.
Qed.

Lemma sort_sorted l : StronglySorted seq_le l -> sort_by_seq l = l.
Proof.
  unfold sort_by_seq. intros Hs.
  assert (Hg : forall acc, StronglySorted seq_le (acc ++ l) ->
    fold_left (fun acc e => insert_by_seq e acc) l acc = acc ++ l); [|by rewrite Hg].
  clear Hs. induction l as [|e l IH]; intros acc Hs; simpl; [by rewrite app_nil_r|].
  rewrite insert_by_seq_last.
  - rewrite IH; [by rewrite <- app_assoc|]. by rewrite <- app_assoc.
  - clear IH. induction acc as [|y acc IHa]; [done|]. apply StronglySorted_inv in Hs as [Hs Hy].
    constructor; [|by apply IHa]. apply Forall_app in Hy as [_ Hy]. by apply Forall_cons in Hy as [? _].
Qed.

Lemma StronglySorted_filter {A} (R : A -> A -> Prop) f l :
  StronglySorted R l -> StronglySorted R (List.filter f l).
Proof.
  induction 1 as [|x l Hs IH Hf]; simpl; [constructor|]. destruct (f x); [|done].
  constructor; [done|]. apply Forall_forall. intros y Hy. rewrite Forall_forall in Hf. apply Hf.
  apply list_elem_of_In, filter_In in Hy as [Hy _]. by apply list_elem_of_In.
Qed.

Lemma StronglySorted_rev {A} (R : A -> A -> Prop) l :
  StronglySorted (fun a b => R b a) l -> StronglySorted R (rev l).
Proof.
  induction 1 as [|x l _ IH Hf]; simpl; [constructor|]. apply sorting.StronglySorted_app.
  split_and!; [|done|repeat constructor]. intros a b Ha ->%list_elem_of_singleton.
  rewrite Forall_forall in Hf. apply Hf. apply list_elem_of_In in Ha. by apply list_elem_of_In, in_rev.
Qed.

Lemma renumber_sorted h : StronglySorted seq_le (renumber h).
Proof.
  unfold renumber. assert (Hg : forall n, StronglySorted seq_le (imap (fun i e => with_seq (Z.of_nat (n + i) + 1) e) h)).
  { induction h as [|e h IH]; intros n; [constructor|]. cbn [imap]. constructor.
    - specialize (IH (n + 1)%nat). erewrite imap_ext; [exact IH|]. intros i x _. simpl. f_equal. lia.
    - apply Forall_forall. intros x (i & y & -> & Hi)%elem_of_lookup_imap. unfold seq_le. simpl. lia. }
  apply (Hg 0%nat).
Qed.

(** ** Causation *)

Lemma index_lookup events id e :
  NoDup (ev_id <$> events) -> index_by_id events !! id = Some e <-> e ∈ events /\ ev_id e = id.
Proof.
  unfold index_by_id. assert (Hg : forall m : gmap EventId Event, NoDup (ev_id <$> events) ->
    (fold_left (fun index e => <[ev_id e := e]> index) events m) !! id = Some e
    <-> (e ∈ events /\ ev_id e = id) \/ ((id ∉ ev_id <$> events) /\ m !! id = Some e)).
  { clear. induction events as [|x l IH]; intros m Hnd; cbn [fold_left].
    - rewrite fmap_nil. set_solver.
    - rewrite fmap_cons, NoDup_cons in Hnd. destruct Hnd as [Hx Hnd]. rewrite IH by done. rewrite fmap_cons.
      destruct (decide (ev_id x = id)) as [<-|Hne].
      + rewrite lookup_insert_eq. split.
        * intros [[He Hid]|[_ [= ->]]]; [|set_solver]. left. set_solver.
        * intros [[[->|He]%elem_of_cons Hid]|[Hni _]]; [by right| |set_solver].
          exfalso. apply Hx. rewrite <- Hid. by apply list_elem_of_fmap_2.
      + rewrite lookup_insert_ne by done. set_solver. }
  intros Hnd. rewrite Hg by done. rewrite lookup_empty. naive_solver.
Qed.

(** Every cause that is on the Timeline comes before its effect. *)
Definition causally_ordered (events : list Event) : Prop :=
  forall e c, e ∈ events -> c ∈ events -> ev_causation_id e = Some (ev_id c) -> ev_seq c < ev_seq e.

(** [causes index l]: each Event of [l] is caused by the one after it, and the
    last one has no cause on the Timeline. *)
Inductive causes (index : gmap EventId Event) : option EventId -> list Event -> Prop :=
| causes_none : causes index None []
| causes_absent id : index !! id = None -> causes index (Some id) []
| causes_link id e l : index !! id = Some e -> causes index (ev_causation_id e) l -> causes index (Some id) (e :: l).

Lemma chain_walk_step fuel index chain id e :
  index !! id = Some e ->
  chain_walk (S fuel) index chain (Some id) = chain_walk fuel index (chain ++ [e]) (ev_causation_id e).
Proof. intros Hi. cbn [chain_walk]. by rewrite Hi. Qed.

(** Enough fuel: one iteration for every Event that is not later, and one. *)
Lemma chain_walk_returns events : NoDup (ev_id <$> events) -> causally_ordered events ->
  forall fuel e chain, e ∈ events -> Forall (fun x => 1 <= ev_seq x) events -> ev_seq e < Z.of_nat fuel ->
  exists l, chain_walk (S fuel) (index_by_id events) chain (Some (ev_id e)) = Some (chain ++ l)
    /\ causes (index_by_id events) (Some (ev_id e)) l
    /\ StronglySorted (fun a b => ev_seq b < ev_seq a) l /\ Forall (fun x => x ∈ events /\ ev_seq x <= ev_seq e) l.
Proof.
  intros Hnd Hord. induction fuel as [|fuel IH]; intros e chain He Hpos Hfuel.
  { rewrite Forall_forall in Hpos. specialize (Hpos e He). lia. }
  assert (Hi : index_by_id events !! ev_id e = Some e) by (by apply index_lookup).
  rewrite (chain_walk_step _ _ _ _ _ Hi). destruct (ev_causation_id e) as [c|] eqn:Hc.
  - destruct (index_by_id events !! c) as [x|] eqn:Hx.
    + apply index_lookup in Hx as Hx'; [|done]. destruct Hx' as [Hin Hid]. rewrite <- Hid in Hc.
      pose proof (Hord e x He Hin Hc) as Hlt. subst c.
      destruct (IH x (chain ++ [e]) Hin Hpos) as (l & Hl & Hcs & Hs & Hf); [lia|].
      exists (e :: l). rewrite <- app_assoc in Hl. split_and!; [exact Hl| | |].
      * econstructor; [exact Hi|]. by rewrite Hc.
      * constructor; [done|]. eapply Forall_impl; [exact Hf|]. simpl. intros y [_ ?]. lia.
      * constructor; [split; [done|lia]|]. eapply Forall_impl; [exact Hf|]. simpl. intros y [? ?]. split; [done|lia].
    + exists [e]. split_and!; [cbn [chain_walk]; by rewrite Hx| | |].
      * econstructor; [exact Hi|]. rewrite Hc. by constructor.
      * repeat constructor.
      * constructor; [split; [done|lia]|done].
  - exists [e]. split_and!; [done| | |].
    + econstructor; [exact Hi|]. rewrite Hc. constructor.
    + repeat constructor.
    + constructor; [split; [done|lia]|done].
Qed.

(** A cycle of length one is never left. *)
Lemma chain_walk_cycle index id e fuel chain :
  index !! id = Some e -> ev_causation_id e = Some id -> chain_walk fuel index chain (Some id) = None.
Proof.
  intros Hi Hc. revert chain. induction fuel as [|fuel IH]; intros chain; [done|].
  by rewrite (chain_walk_step _ _ _ _ _ Hi), Hc, IH.
Qed.

(** ** Theorems *)

Section Laws.
Context {S : Type} `{EventStoreLaws S}.

(** Queries are filters.  On a store that satisfies its laws a query fails
    exactly with the error of its read, and otherwise returns the Events of the
    Timeline's whole history, numbered from 1 and in order, that satisfy every
    condition the builder set: no Event is missed, added, renumbered or moved. *)
Theorem query_exact (q : EventQuery) (s : S) :
  port_ok s ->
  (forall e, execute q s = Err e <-> port_read s (q_timeline q) (query_range q) = Err e)
  /\ forall evs, execute q s = Ok evs ->
       exists h, port_history s (q_timeline q) h /\ evs = List.filter (query_matches q) (renumber h).
Proof.
  intros Hok. unfold execute. split.
  - intros e. destruct (port_read s (q_timeline q) (query_range q)); cbn [rbind]; split; intros; congruence.
  - intros evs Hx. apply rbind_ok_inv in Hx as (l & Hr & [= <-]).
    destruct (law_read _ _ _ _ Hok Hr) as (h & Hh & -> & _). exists h. split; [done|].
    rewrite (filter_optional (fun x e => bool_decide (ev_entity e = x))),
      (filter_optional (fun t e => bool_decide (ev_event_type e = t))).
    unfold renumber_and_filter. rewrite !filter_filter. apply filter_ext_in. intros e He%list_elem_of_In.
    unfold query_matches. rewrite (query_range_matches q h e He). by rewrite ?andb_assoc.
Qed.

(** Relationship traces.  A trace returns exactly the Events of the history
    with the given type and entity, in history order: the final sort never
    moves an Event, since reads are numbered. *)
Theorem relationships_exact (s : S) timeline entity event_type evs :
  port_ok s -> trace_relationships s timeline entity event_type = Ok evs ->
  exists h, port_history s timeline h
    /\ evs = List.filter (fun e => bool_decide (ev_event_type e = event_type) && bool_decide (ev_entity e = entity))
               (renumber h).
Proof.
  intros Hok Ht. unfold trace_relationships in Ht. apply rbind_ok_inv in Ht as (l & Hr & [= <-]).
  destruct (law_read _ _ _ _ Hok Hr) as (h & Hh & -> & _). exists h. split; [done|].
  rewrite renumber_read_all. apply sort_sorted, StronglySorted_filter, renumber_sorted.
Qed.

(** C36: causal chains.  On a Timeline whose Event ids are distinct and whose
    causes come before their effects, [causal_chain] returns within one
    iteration more than the Timeline has Events: nothing for an unknown id, and
    otherwise the Events from the first known cause up to the given one, each
    the cause of the next, in strictly increasing order, stopping only at an
    Event without a cause on the Timeline. *)
Theorem causal_chain_exact (s : S) timeline id all (fuel : nat) :
  port_ok s -> port_read s timeline seq_range_all = Ok all ->
  NoDup (ev_id <$> all) -> causally_ordered all -> len all + 1 < Z.of_nat fuel ->
  exists chain, causal_chain fuel s timeline id = Ok (Some chain)
    /\ (id ∉ ev_id <$> all -> chain = [])
    /\ forall e, e ∈ all -> ev_id e = id ->
         last chain = Some e /\ causes (index_by_id all) (Some id) (rev chain)
         /\ StronglySorted (fun a b => ev_seq a < ev_seq b) chain.
Proof.
  intros Hok Hr Hnd Hord Hfuel. unfold causal_chain. rewrite Hr. cbn [rbind].
  destruct (law_read _ _ _ _ Hok Hr) as (h & Hh & Hall & _). rewrite renumber_read_all in Hall.
  destruct (index_by_id all !! id) as [e|] eqn:Hi.
  - rewrite bool_decide_false by done. pose proof Hi as Hi'. apply index_lookup in Hi' as [Hin <-]; [|done].
    destruct fuel as [|fuel]; [pose proof (len_nonneg all); lia|].
    assert (Hbound : 1 <= ev_seq e <= len all).
    { rewrite Hall in Hin. apply list_elem_of_lookup in Hin as [i Hin]. pose proof (lookup_lt_Some _ _ _ Hin) as Hlt.
      apply renumber_lookup in Hin as (e0 & _ & ->). rewrite Hall. unfold len. simpl. lia. }
    destruct (chain_walk_returns all Hnd Hord fuel e [] Hin) as (l & -> & Hc & Hs & _).
    + apply Forall_forall. intros x Hx. rewrite Hall in Hx. by apply renumber_seq_pos in Hx.
    + lia.
    + exists (rev l). cbn [fmap option_fmap option_map app]. split_and!; [done| |].
      * intros Hni. exfalso. by apply Hni, list_elem_of_fmap_2.
      * intros e' Hin' Hid. assert (e' = e) as ->.
        { assert (Hi' : index_by_id all !! ev_id e = Some e') by (by apply index_lookup). congruence. }
        rewrite rev_involutive. split_and!; [|done|by apply StronglySorted_rev].
        inversion Hc as [| |? e0 l0 Hi0 _]; subst.
        -- congruence.
        -- rewrite Hi in Hi0. injection Hi0 as <-. cbn [rev]. by rewrite last_snoc.
  - rewrite bool_decide_true by done. exists []. split_and!; [done|done|].
    intros e He Hid. exfalso. assert (Hi' : index_by_id all !! id = Some e) by (by apply index_lookup). congruence.
Qed.
End Laws.

(** ** A concrete Timeline *)

Module QuerySample.
Import StoreProperties.Sample.

Definition caused (b : byte) (cause : option EventId) : FreshDraft :=
  MkFresh (MkDraft (ulid xaa) (lit "world.observation") [b] cause None None) (ulid b) 1000.

(** Three Events, the second caused by the first and the third by the second. *)
Definition chained : Store :=
  (append s1 root_id [caused x11 None; caused x12 (Some (ulid x11)); caused x13 (Some (ulid x12))]).1.

Definition chained_events : list Event :=
  match read chained root_id seq_range_all with Ok l => l | Err _ => [] end.

Lemma chained_ok : port_ok chained.
Proof.
  apply reachable_ok, (reachable_step s1); [apply s1_reachable|]. apply step_append, room_sample.
  vm_compute. reflexivity.
Qed.

Lemma chained_read : read chained root_id seq_range_all = Ok chained_events.
Proof. vm_compute. reflexivity. Qed.

Lemma chained_ids : NoDup (ev_id <$> chained_events).
Proof. apply (bool_decide_unpack _). vm_compute. exact I. Qed.

Lemma chained_order : causally_ordered chained_events.
Proof.
  assert (Hb : forallb (fun e => forallb (fun c =>
    negb (bool_decide (ev_causation_id e = Some (ev_id c))) || (ev_seq c <? ev_seq e)) chained_events)
    chained_events = true) by (vm_compute; reflexivity).
  intros e c He Hc Hcause. rewrite forallb_forall in Hb. apply list_elem_of_In in He, Hc.
  specialize (Hb e He). rewrite forallb_forall in Hb. specialize (Hb c Hc).
  rewrite bool_decide_true in Hb by exact Hcause. by apply Z.ltb_lt.
Qed.

Lemma query_exact_witness : exists evs h,
  execute (query_of_type (lit "world.observation") (query_from_seq 2 (query_on root_id))) chained = Ok evs
  /\ history (st_timelines chained) root_id h
  /\ evs = List.filter (query_matches (query_of_type (lit "world.observation") (query_from_seq 2 (query_on root_id))))
             (renumber h).
Proof.
  destruct (query_exact (query_of_type (lit "world.observation") (query_from_seq 2 (query_on root_id))) chained
    chained_ok) as [_ Hq].
  destruct (Hq (drop 1 chained_events)) as (h & Hh & He); [vm_compute; reflexivity|].
  exists (drop 1 chained_events), h. split; [vm_compute; reflexivity|split; [exact Hh|exact He]].
Defined.

Lemma relationships_exact_witness : exists h, history (st_timelines chained) root_id h
  /\ chained_events = List.filter (fun e => bool_decide (ev_event_type e = lit "world.observation")
       && bool_decide (ev_entity e = ulid xaa)) (renumber h).
Proof.
  apply (relationships_exact chained root_id (ulid xaa) (lit "world.observation") chained_events chained_ok).
  vm_compute. reflexivity.
Defined.

Lemma causal_chain_exact_witness : exists chain,
  causal_chain 10 chained root_id (ulid x13) = Ok (Some chain) /\ ((ulid x13 ∉ ev_id <$> chained_events) -> chain = []).
Proof.
  destruct (causal_chain_exact chained root_id (ulid x13) chained_events 10 chained_ok chained_read chained_ids
    chained_order) as (chain & Hc & Hn & _); [vm_compute; reflexivity|].
  exists chain. split; [exact Hc|exact Hn].
Defined.

(** ** A cycle *)

(** A committed Event that names itself as its cause. *)
Definition self_caused : Event :=
  MkEvent (ulid x21) (ulid xaa) (lit "world.observation") [x21] 1000 1 (Some (ulid x21)) None None None None
    (hash_payload [x21]).
Definition cyclic : Store := (append_committed s1 root_id [self_caused]).1.

Lemma cyclic_reachable : reachable cyclic.
Proof.
  apply (reachable_step s1); [apply s1_reachable|]. apply step_append_committed, room_sample.
  vm_compute. reflexivity.
Qed.

(** Causation cycles are accepted and never left.  A committed append takes
    an Event that is its own cause, and on the Timeline it leaves behind
    [causal_chain] of that Event does not return, whatever the number of
    iterations: the walk keeps no record of what it visited. *)
Theorem causal_cycle_never_returns :
  reachable cyclic /\ (append_committed s1 root_id [self_caused]).2 = Ok tt
  /\ forall fuel, causal_chain fuel cyclic root_id (ulid x21) = Ok None.
Proof.
  split; [apply cyclic_reachable|]. split; [vm_compute; reflexivity|]. intros fuel. unfold causal_chain.
  assert (Hr : exists e, read cyclic root_id seq_range_all = Ok [e]
    /\ ev_id e = ulid x21 /\ ev_causation_id e = Some (ulid x21)).
  { eexists. split; [vm_compute; reflexivity|]. split; vm_compute; reflexivity. }
  destruct Hr as (e & Hr & Hid & Hc). change (port_read cyclic) with (read cyclic). rewrite Hr. cbn [rbind]. cbv zeta.
  assert (Hi : index_by_id [e] !! ulid x21 = Some e).
  { unfold index_by_id. cbn [fold_left]. rewrite Hid. apply lookup_insert_eq. }
  case_bool_decide as Hb; [discriminate (eq_trans (eq_sym Hi) Hb)|]. by rewrite (chain_walk_cycle _ _ _ _ _ Hi Hc).
Qed.
End QuerySample.
