(* ===== verification/Merge.v ===== *)
(** * Merging two Timelines

    [crates/pos-time/src/merge.rs]: the strategies, the merge of what two
    Timelines hold behind a common position, and the conflict check, over any
    store that satisfies the laws of [StorePort].

    [sort_by_key] is a stable sort by wall time.  The error of a refused merge
    names one overlapping entity, the first one a [HashSet] yields; the model
    picks one of them too, and no theorem says which. *)

From Stdlib Require Import String ZArith Lia Bool Sorted Permutation.
From stdpp Require Import sorting.
From S2P Require Import Prelude Text FallbackRecords ErasureGate Events EventStore StoreHistory.
From S2P Require Import StoreCorrect StoreProperties StorePort.

Local Open Scope Z_scope.

(** ** Definitions *)

Inductive MergeStrategy := DisjointCrdt | PreferA | PreferB.

(** [str::to_ascii_lowercase], on the bytes of the name. *)
Definition ascii_lowercase (b : byte) : byte :=
  if in_range 0x41 0x5A b then byte_of_Z (Z_of_byte b + 32) else b.

Definition strategy_parse (name : RString) : option MergeStrategy :=
  let name := ascii_lowercase <$> as_bytes name in
  let is_one_of (names : list string) := existsb (fun n => bool_decide (name = list_byte_of_string n)) names in
  if is_one_of ["disjoint"; "disjoint-crdt"; "disjoint_crdt"]%string then Some DisjointCrdt
  else if is_one_of ["prefer-a"; "prefer_a"; "a"]%string then Some PreferA
  else if is_one_of ["prefer-b"; "prefer_b"; "b"]%string then Some PreferB
  else None.

Definition entities (events : list Event) : gset EntityId := list_to_set (ev_entity <$> events).

(** [merged.sort_by_key(|e| e.wall_time)]. *)
Fixpoint insert_by_time (e : Event) (l : list Event) : list Event :=
  match l with
  | [] => [e]
  | y :: r => if ev_wall_time e <? ev_wall_time y then e :: l else y :: insert_by_time e r
  end.
Definition sort_by_wall_time (events : list Event) : list Event :=
  fold_left (fun acc e => insert_by_time e acc) events [].

(** The strategy match of [merge_with_strategy]. *)
Definition merged_events (strategy : MergeStrategy) (events_a events_b : list Event)
    : Read (list Event) :=
  let overlap := entities events_a ∩ entities events_b in
  let outside e := negb (bool_decide (ev_entity e ∈ overlap)) in
  match strategy with
  | DisjointCrdt =>
      match elements overlap with
      | entity :: _ => Err (Storage (MergeOverlap entity))
      | [] => Ok (events_a ++ events_b)
      end
  | PreferA => Ok (events_a ++ List.filter outside events_b)
  | PreferB => Ok (List.filter outside events_a ++ events_b)
  end.

(** The draft of [merge_append_merged]; [mint i] is the id and the clock the
    store gives the [i]-th draft. *)
Definition merge_draft (e : Event) : EventDraft :=
  MkDraft (ev_entity e) (ev_event_type e) (ev_payload e) (ev_causation_id e) (ev_correlation_id e)
    (Some (ev_wall_time e)).
Definition merge_drafts (mint : nat -> EventId * Z) (merged : list Event) : list FreshDraft :=
  imap (fun i e => MkFresh (merge_draft e) (mint i).1 (mint i).2) merged.

Section Operations.
Context {S : Type} `{EventStorePort S}.

Definition merge_post_fork_events (store : S) (timeline_a timeline_b : TimelineId) (next_seq : Z)
    : Read (list Event * list Event) :=
  let? events_a := port_read store timeline_a (MkSeqRange next_seq None) in
  let? events_b := port_read store timeline_b (MkSeqRange next_seq None) in
  Ok (events_a, events_b).

Definition merge_append_merged (store : S) (timeline : TimelineId) (mint : nat -> EventId * Z)
    (merged : list Event) : S * Read unit :=
  let (s', r) := port_append store timeline (merge_drafts mint merged) in
  (s', let? _ := r in Ok tt).

Definition merge_result_timeline (store : S) (id : TimelineId) : Read Timeline :=
  let? found := port_get_timeline store id in
  ok_or found (TimelineNotFound id).

(** The reads and decisions before the first write: the merged Events and the
    Timeline to fork. *)
Definition merge_plan (store : S) (timeline_a timeline_b : TimelineId) (fork_seq : Z)
    (strategy : MergeStrategy) : Read (list Event * TimelineId) :=
  let next_seq := u64_wrap (fork_seq + 1) in
  let? (events_a, events_b) := merge_post_fork_events store timeline_a timeline_b next_seq in
  let? merged := merged_events strategy events_a events_b in
  let? found := port_get_timeline store timeline_a in
  let? base_timeline := ok_or found (TimelineNotFound timeline_a) in
  let parent_id := match meta_fork_point (tl_meta base_timeline) with
                   | Some (parent, _) => parent | None => timeline_a end in
  Ok (sort_by_wall_time merged, parent_id).

Definition merge_with_strategy (store : S) (timeline_a timeline_b : TimelineId) (fork_seq : Z)
    (target_name : RString) (strategy : MergeStrategy) (new_id : TimelineId)
    (mint : nat -> EventId * Z) : S * Read Timeline :=
  match merge_plan store timeline_a timeline_b fork_seq strategy with
  | Err e => (store, Err e)
  | Ok (merged, parent_id) =>
      match port_fork store new_id parent_id fork_seq target_name with
      | (s', Err e) => (s', Err e)
      | (s', Ok result_timeline) =>
          let id := timeline_id result_timeline in
          let (s'', appended) := if bool_decide (merged = []) then (s', Ok tt)
                                 else merge_append_merged s' id mint merged in
          match appended with
          | Err e => (s'', Err e)
          | Ok _ => (s'', merge_result_timeline s'' id)
          end
      end
  end.

Definition merge (store : S) (timeline_a timeline_b : TimelineId) (fork_seq : Z)
    (target_name : RString) (new_id : TimelineId) (mint : nat -> EventId * Z) : S * Read Timeline :=
  merge_with_strategy store timeline_a timeline_b fork_seq target_name DisjointCrdt new_id mint.

Definition can_merge_conflict_free (store : S) (timeline_a timeline_b : TimelineId) (fork_seq : Z)
    : Read bool :=
  let next_seq := u64_wrap (fork_seq + 1) in
  let? (events_a, events_b) := merge_post_fork_events store timeline_a timeline_b next_seq in
  Ok (bool_decide (entities events_a ## entities events_b)).
End Operations.

(** ** The stable sort *)

Definition time_le (a b : Event) : Prop := ev_wall_time a <= ev_wall_time b.

Lemma insert_by_time_perm e l : insert_by_time e l ≡ₚ e :: l.
Proof.
  induction l as [|y l IH]; simpl; [done|]. destruct (_ <? _); [done|]. rewrite IH. apply Permutation_swap.
Qed.

Lemma sort_acc_perm l acc : fold_left (fun acc e => insert_by_time e acc) l acc ≡ₚ acc ++ l.
Proof.
  revert acc. induction l as [|x l IH]; intros acc; simpl; [by rewrite app_nil_r|].
  rewrite IH, insert_by_time_perm. apply Permutation_middle.
Qed.

Lemma sort_by_wall_time_perm l : sort_by_wall_time l ≡ₚ l.
Proof. apply (sort_acc_perm l []). Qed.

Lemma insert_by_time_sorted e l : StronglySorted time_le l -> StronglySorted time_le (insert_by_time e l).
Proof.
  induction 1 as [|y l Hs IH Hf]; simpl; [repeat constructor|].
  destruct (Z.ltb_spec (ev_wall_time e) (ev_wall_time y)).
  - constructor; [by constructor|]. constructor; [unfold time_le; lia|].
    eapply Forall_impl; [exact Hf|]. unfold time_le. simpl. lia.
  - constructor; [done|]. rewrite insert_by_time_perm. constructor; [unfold time_le; lia|done].
Qed.

Lemma sort_acc_sorted l acc :
  StronglySorted time_le acc -> StronglySorted time_le (fold_left (fun acc e => insert_by_time e acc) l acc).
Proof. revert acc. induction l as [|x l IH]; intros acc Hs; simpl; [done|]. by apply IH, insert_by_time_sorted. Qed.

Lemma sort_by_wall_time_sorted l : StronglySorted time_le (sort_by_wall_time l).
Proof. apply sort_acc_sorted. constructor. Qed.

Lemma insert_head e l : Forall (fun y => ev_wall_time e < ev_wall_time y) l -> insert_by_time e l = e :: l.
Proof. intros Hf. destruct Hf as [|y l Hy Hf]; [done|]. simpl. by rewrite (proj2 (Z.ltb_lt _ _) Hy). Qed.

Lemma filter_insert f e l :
  StronglySorted time_le l ->
  List.filter f (insert_by_time e l) = if f e then insert_by_time e (List.filter f l) else List.filter f l.
Proof.
  induction 1 as [|y l Hs IH Hf]; simpl; [done|].
  destruct (Z.ltb_spec (ev_wall_time e) (ev_wall_time y)) as [Hlt|Hge]; simpl.
  - destruct (f e); [|done]. rewrite insert_head; [done|].
    assert (Hall : Forall (fun x => ev_wall_time e < ev_wall_time x) (List.filter f l)).
    { apply Forall_forall. intros x Hx. apply list_elem_of_In, filter_In in Hx as [Hx _].
      rewrite Forall_forall in Hf. specialize (Hf x (proj2 (list_elem_of_In _ _) Hx)). unfold time_le in Hf. lia. }
    by destruct (f y); [constructor|].
  - rewrite IH. destruct (f y), (f e); simpl; rewrite ?(proj2 (Z.ltb_ge _ _) Hge); done.
Qed.

(** Stability: sorting commutes with selecting. *)
Lemma filter_sort f l : List.filter f (sort_by_wall_time l) = sort_by_wall_time (List.filter f l).
Proof.
  unfold sort_by_wall_time. assert (Hg : forall acc, StronglySorted time_le acc ->
    List.filter f (fold_left (fun acc e => insert_by_time e acc) l acc)
    = fold_left (fun acc e => insert_by_time e acc) (List.filter f l) (List.filter f acc)).
  2: { by rewrite (Hg []) by constructor. }
  induction l as [|x l IH]; intros acc Hs; simpl; [done|].
  rewrite IH by (by apply insert_by_time_sorted). rewrite filter_insert by done. by destruct (f x).
Qed.

(** ** Which Events survive *)

Lemma elem_of_entities (x : EntityId) (l : list Event) : x ∈ entities l <-> exists e, e ∈ l /\ ev_entity e = x.
Proof. unfold entities. rewrite elem_of_list_to_set, list_elem_of_fmap. naive_solver. Qed.

Definition of_entity (x : EntityId) (e : Event) : bool := bool_decide (ev_entity e = x).

Lemma of_entity_none (x : EntityId) (l : list Event) : x ∉ entities l -> List.filter (of_entity x) l = [].
Proof.
  intros Hx. induction l as [|e l IH]; [done|]. simpl. unfold of_entity at 1.
  rewrite bool_decide_false; [apply IH|]; unfold entities in *; set_solver.
Qed.

Lemma of_entity_outside (x : EntityId) (o : gset EntityId) (l : list Event) :
  List.filter (of_entity x) (List.filter (fun e => negb (bool_decide (ev_entity e ∈ o))) l)
  = if decide (x ∈ o) then [] else List.filter (of_entity x) l.
Proof.
  induction l as [|e l IH]; [by destruct (decide _)|]. simpl. unfold of_entity at 2.
  destruct (decide (ev_entity e = x)) as [He|He].
  - rewrite (bool_decide_true (ev_entity e = x)) by done. rewrite He.
    destruct (decide (x ∈ o)) as [Hx|Hx].
    + by rewrite bool_decide_true.
    + rewrite (bool_decide_false (x ∈ o)) by done. simpl. unfold of_entity at 1.
      by rewrite bool_decide_true, IH.
  - rewrite (bool_decide_false (ev_entity e = x)) by done. destruct (bool_decide (ev_entity e ∈ o)); simpl; [done|].
    unfold of_entity at 1. by rewrite bool_decide_false.
Qed.

(** The arm whose Events of an entity survive. *)
Definition winner (strategy : MergeStrategy) (events_a events_b : list Event) (x : EntityId) : list Event :=
  match strategy with
  | PreferB => if decide (x ∈ entities events_b) then events_b else events_a
  | _ => if decide (x ∈ entities events_a) then events_a else events_b
  end.

Lemma merged_events_winner strategy events_a events_b merged x :
  merged_events strategy events_a events_b = Ok merged ->
  List.filter (of_entity x) merged = List.filter (of_entity x) (winner strategy events_a events_b x).
Proof.
  unfold merged_events, winner. intros Hm. destruct strategy.
  - destruct (elements _) as [|y l] eqn:Ho; [|done]. injection Hm as <-. rewrite List.filter_app.
    apply elements_empty_inv in Ho. destruct (decide (x ∈ entities events_a)) as [Ha|Ha].
    + rewrite (of_entity_none x events_b), app_nil_r by set_solver. done.
    + by rewrite (of_entity_none x events_a).
  - injection Hm as <-. rewrite List.filter_app, of_entity_outside.
    destruct (decide (x ∈ entities events_a)) as [Ha|Ha].
    + destruct (decide _) as [|Hn]; [by rewrite app_nil_r|].
      rewrite (of_entity_none x events_b), app_nil_r by set_solver. done.
    + rewrite decide_False by set_solver. by rewrite (of_entity_none x events_a).
  - injection Hm as <-. rewrite List.filter_app, of_entity_outside.
    destruct (decide (x ∈ entities events_b)) as [Hb|Hb].
    + destruct (decide _) as [|Hn]; [done|]. by rewrite (of_entity_none x events_a) by set_solver.
    + rewrite decide_False by set_solver. by rewrite (of_entity_none x events_b), app_nil_r.
Qed.

Lemma merged_events_disjoint events_a events_b :
  is_ok (merged_events DisjointCrdt events_a events_b) = bool_decide (entities events_a ## entities events_b).
Proof.
  unfold merged_events. destruct (elements _) as [|y l] eqn:Ho; simpl; symmetry.
  - apply elements_empty_inv in Ho. apply bool_decide_eq_true. set_solver.
  - apply bool_decide_eq_false. assert (y ∈ entities events_a ∩ entities events_b).
    { apply elem_of_elements. rewrite Ho. left. }
    set_solver.
Qed.

(** ** The arms *)

Lemma filter_from_drop h n :
  0 <= n -> renumber_and_filter h (MkSeqRange (n + 1) None) = drop (Z.to_nat n) (renumber h).
Proof.
  intros Hn. unfold renumber_and_filter, in_seq_range. cbn [range_from range_to].
  assert (Hg : forall k (l : list Event), (forall i e, l !! i = Some e -> ev_seq e = Z.of_nat k + Z.of_nat i + 1) ->
    List.filter (fun e => (n + 1 <=? ev_seq e) && true) l = drop (Z.to_nat n - k) l).
  2: { replace (Z.to_nat n) with (Z.to_nat n - 0)%nat by lia. apply Hg. intros i e He.
       apply renumber_lookup in He as (e0 & _ & ->). simpl. lia. }
  intros k l. revert k. induction l as [|x l IH]; intros k Hl; [by rewrite drop_nil|]. simpl.
  pose proof (Hl 0%nat x eq_refl) as Hx. rewrite (IH (S k)).
  2: { intros i e He. rewrite (Hl (S i) e He). lia. }
  destruct (Z.leb_spec (n + 1) (ev_seq x)) as [Hle|Hlt]; cbn [andb].
  - replace (Z.to_nat n - k)%nat with 0%nat by lia. replace (Z.to_nat n - S k)%nat with 0%nat by lia. by rewrite !drop_0.
  - by replace (Z.to_nat n - k)%nat with (S (Z.to_nat n - S k)) by lia.
Qed.

Lemma next_seq_small n : 0 <= n < U64_MAX -> u64_wrap (n + 1) = n + 1.
Proof. apply seq_next_small. Qed.

(** The content a merged Event keeps. *)
Definition same_content (e e' : Event) : Prop :=
  ev_entity e' = ev_entity e /\ ev_event_type e' = ev_event_type e /\ ev_payload e' = ev_payload e
  /\ ev_wall_time e' = ev_wall_time e /\ ev_causation_id e' = ev_causation_id e
  /\ ev_correlation_id e' = ev_correlation_id e.

Lemma drafts_content mint merged new :
  Forall2 carries (merge_drafts mint merged) new -> Forall2 same_content merged new.
Proof.
  unfold merge_drafts. revert mint new. induction merged as [|e l IH]; intros mint new Hf; cbn [imap] in Hf.
  - apply Forall2_nil_inv_l in Hf as ->. constructor.
  - apply Forall2_cons_inv_l in Hf as (e' & new' & (_ & ? & ? & ? & Ht & ? & ?) & Hf & ->). constructor.
    + by split_and!.
    + apply (IH (fun i => mint (Datatypes.S i))). exact Hf.
Qed.

Section Laws.
Context {S : Type} `{EventStoreLaws S}.
Implicit Types (s : S).

Lemma merge_plan_ok s a b n strategy merged parent :
  port_ok s -> 0 <= n < U64_MAX -> merge_plan s a b n strategy = Ok (merged, parent) ->
  exists ha hb l, port_history s a ha /\ port_history s b hb
    /\ merged_events strategy (drop (Z.to_nat n) (renumber ha)) (drop (Z.to_nat n) (renumber hb)) = Ok l
    /\ merged = sort_by_wall_time l.
Proof.
  intros Hok Hn Hp. unfold merge_plan, merge_post_fork_events in Hp. rewrite next_seq_small in Hp by done.
  apply rbind_ok_inv in Hp as ([ea eb] & Hr & Hp). apply rbind_ok_inv in Hr as (ea' & Hra & Hr).
  apply rbind_ok_inv in Hr as (eb' & Hrb & [= -> ->]). apply rbind_ok_inv in Hp as (l & Hm & Hp).
  apply rbind_ok_inv in Hp as (found & _ & Hp). apply rbind_ok_inv in Hp as (tl & _ & [= <- _]).
  destruct (law_read _ _ _ _ Hok Hra) as (ha & Hha & -> & _).
  destruct (law_read _ _ _ _ Hok Hrb) as (hb & Hhb & -> & _).
  rewrite !filter_from_drop in Hm by lia. by exists ha, hb, l.
Qed.

(** What the caller of a merge ensures: the new id and the cut are acceptable to
    the store, and the merged Events can be numbered. *)
Definition merge_ready s a b n strategy new_id : Prop :=
  port_ok s /\ 0 <= n < U64_MAX
  /\ forall merged parent, merge_plan s a b n strategy = Ok (merged, parent) ->
       port_can_fork s new_id parent n /\ len merged <= U64_MAX.

(** The stages of a merge that passed its plan. *)
Lemma merge_stages s a b n name strategy new_id mint s' r :
  merge_ready s a b n strategy new_id ->
  merge_with_strategy s a b n name strategy new_id mint = (s', r) ->
  (s' = s /\ exists e, r = Err e)
  \/ exists merged parent hp new k, merge_plan s a b n strategy = Ok (merged, parent)
     /\ port_history s parent hp /\ n <= len hp
     /\ Forall2 same_content (take k merged) new /\ (is_ok r = true -> take k merged = merged)
     /\ port_history s' new_id (take (Z.to_nat n) hp ++ new)
     /\ forall x h, x <> new_id -> port_history s x h -> port_history s' x h.
Proof.
  intros (Hok & Hn & Hready) Hm. unfold merge_with_strategy in Hm.
  destruct (merge_plan s a b n strategy) as [[merged parent]|e] eqn:Hp; [|left; naive_solver].
  destruct (Hready _ _ eq_refl) as [Hcan Hlen].
  destruct (port_fork s new_id parent n name) as [s1 [child|e]] eqn:Hf;
    [|left; apply law_fork_error in Hf as ->; naive_solver].
  right. destruct (law_fork _ _ _ _ _ _ _ Hok Hcan Hf) as (Hok1 & Hid & Hroom & (hp & Hhp & Hle & Hnew) & Hkeep).
  rewrite Hid in Hm. exists merged, parent, hp. case_bool_decide as Hempty.
  - injection Hm as <- <-. subst merged. exists [], 0%nat. rewrite take_nil, app_nil_r.
    split_and!; [done|done|done|constructor|done|done|]. intros x h _. apply Hkeep.
  - unfold merge_append_merged in Hm.
    destruct (port_append s1 new_id (merge_drafts mint merged)) as [s2 ra] eqn:Ha.
    assert (Hlens : len (merge_drafts mint merged) = len merged) by (unfold merge_drafts, len; by rewrite length_imap).
    destruct (law_append _ _ _ _ _ Hok1 (Hroom (len (merge_drafts mint merged)) ltac:(lia)) Ha)
      as (_ & new & k & Hc & Hall & Hh). exists new, k.
    assert (Htake : take k (merge_drafts mint merged) = merge_drafts mint (take k merged)).
    { unfold merge_drafts. clear. revert mint k. induction merged as [|x l IH]; intros mint [|k]; [done..|].
      cbn [imap take]. f_equal. exact (IH (fun i => mint (Datatypes.S i)) k). }
    assert (Hs2 : s' = s2 /\ (is_ok r = true -> is_ok ra = true)).
    { destruct ra as [evs|e]; cbn [rbind] in Hm; injection Hm as <- <-; done. }
    destruct Hs2 as [-> Hra]. split_and!; [done|done|done| | | |].
    + rewrite Htake in Hc. by eapply drafts_content.
    + intros Hr. apply Hra, Hall in Hr. apply (f_equal length) in Hr. unfold merge_drafts in Hr.
      rewrite length_take, !length_imap in Hr. apply take_ge. lia.
    + specialize (Hh _ _ Hnew). by rewrite decide_True in Hh.
    + intros x h Hne Hx. specialize (Hh _ _ (Hkeep _ _ Hx)). by rewrite decide_False in Hh.
Qed.

(** ** Theorems *)

(** What a merge leaves.  A successful merge of [a] and [b] at [n] holds on
    the new Timeline the first [n] Events of the forked parent, and behind them
    exactly the surviving Events of both Timelines beyond [n], ordered by wall
    time, with their entity, type, payload, wall time, causation and
    correlation; every Timeline that existed keeps its history. *)
Theorem merge_effect s a b n name strategy new_id mint s' tl :
  merge_ready s a b n strategy new_id ->
  merge_with_strategy s a b n name strategy new_id mint = (s', Ok tl) ->
  exists ha hb hp parent merged new, port_history s a ha /\ port_history s b hb
    /\ merged_events strategy (drop (Z.to_nat n) (renumber ha)) (drop (Z.to_nat n) (renumber hb)) = Ok merged
    /\ port_history s parent hp /\ n <= len hp
    /\ port_history s' new_id (take (Z.to_nat n) hp ++ new)
    /\ Forall2 same_content (sort_by_wall_time merged) new
    /\ forall x h, x <> new_id -> port_history s x h -> port_history s' x h.
Proof.
  intros Hready Hm. destruct (merge_stages _ _ _ _ _ _ _ _ _ _ Hready Hm)
    as [[_ [e [=]]]|(sorted & parent & hp & new & k & Hp & Hhp & Hle & Hc & Hall & Hnew & Hkeep)].
  destruct Hready as (Hok & Hn & _). rewrite (Hall eq_refl) in Hc.
  destruct (merge_plan_ok _ _ _ _ _ _ _ Hok Hn Hp) as (ha & hb & l & Hha & Hhb & Hl & ->).
  by exists ha, hb, hp, parent, l, new.
Qed.

(** A merge never harms.  Whatever a merge returns, also when the store
    refuses it midway, every Timeline other than the new one keeps its history;
    and a merge refused before it forks changes nothing at all. *)
Theorem merge_keeps_histories s a b n name strategy new_id mint s' r :
  merge_ready s a b n strategy new_id ->
  merge_with_strategy s a b n name strategy new_id mint = (s', r) ->
  (forall x h, x <> new_id -> port_history s x h -> port_history s' x h)
  /\ forall e, merge_plan s a b n strategy = Err e -> s' = s /\ r = Err e.
Proof.
  intros Hready Hm. split.
  - destruct (merge_stages _ _ _ _ _ _ _ _ _ _ Hready Hm)
      as [[-> _]|(sorted & parent & hp & new & k & _ & _ & _ & _ & _ & _ & Hkeep)]; [done|exact Hkeep].
  - intros e He. unfold merge_with_strategy in Hm. rewrite He in Hm. by injection Hm as <- <-.
Qed.

(** The conflict check decides.  For two readable Timelines whose first one
    is visible, [can_merge_conflict_free] answers exactly whether the disjoint
    merge passes its conflict check, and the two preferring strategies always
    pass it. *)
Theorem conflict_check_decides s a b n tl ok :
  can_merge_conflict_free s a b n = Ok ok -> port_get_timeline s a = Ok (Some tl) ->
  is_ok (merge_plan s a b n DisjointCrdt) = ok
  /\ is_ok (merge_plan s a b n PreferA) = true /\ is_ok (merge_plan s a b n PreferB) = true.
Proof.
  unfold can_merge_conflict_free, merge_plan. intros Hc Ht.
  apply rbind_ok_inv in Hc as ([ea eb] & -> & [= <-]). cbn [rbind]. rewrite Ht. cbn [rbind ok_or].
  rewrite <- merged_events_disjoint. split_and!; [|done..].
  by destruct (merged_events DisjointCrdt ea eb).
Qed.
End Laws.

(** Whose Events survive.  In the merged sequence the Events of an entity
    are exactly those of one arm: of A under disjoint and prefer-A when A has
    any, of B under prefer-B when B has any, and otherwise of the other arm;
    they are ordered by wall time, Events of one time in their arm's order, and
    nothing else is in the merged sequence. *)
Theorem merge_entity_winner strategy events_a events_b merged x :
  merged_events strategy events_a events_b = Ok merged ->
  List.filter (of_entity x) (sort_by_wall_time merged)
  = sort_by_wall_time (List.filter (of_entity x) (winner strategy events_a events_b x))
  /\ StronglySorted time_le (sort_by_wall_time merged) /\ sort_by_wall_time merged ≡ₚ merged.
Proof.
  intros Hm. split_and!; [|apply sort_by_wall_time_sorted|apply sort_by_wall_time_perm].
  rewrite filter_sort. f_equal. by apply merged_events_winner.
Qed.

(** Swapping the arms. *)
Definition swap_strategy (strategy : MergeStrategy) : MergeStrategy :=
  match strategy with DisjointCrdt => DisjointCrdt | PreferA => PreferB | PreferB => PreferA end.

(** Merges commute.  Merging B into A instead, with the strategy turned
    around, succeeds on the same inputs and gives every entity the same Events
    in the same order. *)
Theorem merge_commutes strategy events_a events_b merged :
  merged_events strategy events_a events_b = Ok merged ->
  exists merged', merged_events (swap_strategy strategy) events_b events_a = Ok merged'
    /\ forall x, List.filter (of_entity x) (sort_by_wall_time merged)
                = List.filter (of_entity x) (sort_by_wall_time merged').
Proof.
  intros Hm. assert (Hok : exists merged', merged_events (swap_strategy strategy) events_b events_a = Ok merged').
  { destruct strategy; [|by eexists..]. cbn [swap_strategy].
    pose proof (merged_events_disjoint events_a events_b) as H1. rewrite Hm in H1. symmetry in H1.
    apply bool_decide_eq_true in H1. pose proof (merged_events_disjoint events_b events_a) as H2.
    rewrite bool_decide_true in H2 by (by symmetry).
    destruct (merged_events DisjointCrdt events_b events_a) as [l|]; [by exists l|done]. }
  destruct Hok as [merged' Hm']. exists merged'. split; [done|]. intros x.
  rewrite !filter_sort. f_equal. rewrite (merged_events_winner _ _ _ _ x Hm), (merged_events_winner _ _ _ _ x Hm').
  destruct strategy; cbn [winner swap_strategy]; [|done..].
  pose proof (merged_events_disjoint events_a events_b) as H1. rewrite Hm in H1. symmetry in H1.
  apply bool_decide_eq_true in H1.
  destruct (decide (x ∈ entities events_a)), (decide (x ∈ entities events_b)); [set_solver|done..|].
  by rewrite !of_entity_none.
Qed.

(** ** The common prefix of a comparison

    [require_shared_fork] of [crates/pos-time/src/compare.rs].  Its
    [partition_point] is the length of the prefix the predicate holds on, which
    is what the binary search returns on Events in sequence order. *)

Definition require_shared_fork (fork_seq : Z) (events_a events_b : list Event) : Read unit :=
  let prefix_a := take_while_seq fork_seq events_a in
  let prefix_b := take_while_seq fork_seq events_b in
  if (fork_seq =? SEQ_ZERO) || negb (bool_decide (prefix_a = prefix_b))
     || match last prefix_a with Some event => negb (ev_seq event =? fork_seq) | None => true end
     || (bool_decide (is_Some (events_a !! length prefix_a))
         && bool_decide (events_a !! length prefix_a = events_b !! length prefix_b))
  then Err ArtifactUnavailable else Ok tt.

Lemma take_while_renumber n h : 0 <= n -> take_while_seq n (renumber h) = take (Z.to_nat n) (renumber h).
Proof.
  intros Hn. apply take_while_seq_take; [|done]. intros i e He. by apply renumber_lookup in He as (e0 & _ & ->).
Qed.

(** The comparison's prefix check.  Two complete histories pass it exactly
    if they both reach the fork position, which is at least 1, agree on every
    Event up to it, and do not have one and the same next Event. *)
Theorem shared_fork_exact n ha hb :
  0 <= n ->
  require_shared_fork n (renumber ha) (renumber hb) = Ok tt <->
  1 <= n <= len ha /\ n <= len hb
  /\ take (Z.to_nat n) (renumber ha) = take (Z.to_nat n) (renumber hb)
  /\ forall e, renumber ha !! Z.to_nat n = Some e -> renumber hb !! Z.to_nat n <> Some e.
Proof.
  intros Hn. unfold require_shared_fork, SEQ_ZERO. rewrite !take_while_renumber by done.
  assert (Hla : length (renumber ha) = length ha) by apply length_imap.
  assert (Hlb : length (renumber hb) = length hb) by apply length_imap.
  destruct (decide (1 <= n <= len ha)) as [Hr|Hr].
  - assert (Hta : length (take (Z.to_nat n) (renumber ha)) = Z.to_nat n) by (rewrite length_take; unfold len in *; lia).
    rewrite (proj2 (Z.eqb_neq n 0)) by lia. cbn [orb].
    destruct (decide (take (Z.to_nat n) (renumber ha) = take (Z.to_nat n) (renumber hb))) as [Ht|Ht].
    2: { rewrite bool_decide_false by done. naive_solver. }
    rewrite bool_decide_true by done. cbn [negb orb]. rewrite <- Ht, Hta.
    assert (Hb : n <= len hb).
    { rewrite Ht, length_take in Hta. unfold len. lia. }
    assert (Hlast : exists e, last (take (Z.to_nat n) (renumber ha)) = Some e /\ ev_seq e = n).
    { destruct (renumber ha !! pred (Z.to_nat n)) as [e|] eqn:He; [|apply lookup_ge_None in He; unfold len in *; lia].
      exists e. rewrite last_lookup, Hta, lookup_take_lt by lia. split; [done|].
      apply renumber_lookup in He as (e0 & _ & ->). simpl. lia. }
    destruct Hlast as (e & -> & ->). rewrite Z.eqb_refl. cbn [negb orb].
    destruct (renumber ha !! Z.to_nat n) as [x|] eqn:Hx.
    + rewrite bool_decide_true by (by eexists). cbn [andb]. case_bool_decide; naive_solver.
    + rewrite bool_decide_false by (by intros [? ?]). naive_solver.
  - split; [|naive_solver]. intros Hok. exfalso. destruct (decide (n = 0)) as [->|Hz]; [done|].
    rewrite (proj2 (Z.eqb_neq n 0)) in Hok by done. cbn [orb] in Hok.
    assert (Hge : take (Z.to_nat n) (renumber ha) = renumber ha) by (apply take_ge; unfold len in *; lia).
    rewrite Hge in Hok. destruct (negb (bool_decide _)); [done|]. cbn [orb] in Hok.
    destruct (last (renumber ha)) as [e|] eqn:Hl; [|done]. rewrite last_lookup in Hl.
    pose proof (lookup_lt_Some _ _ _ Hl). apply renumber_lookup in Hl as (e0 & _ & ->). cbn [ev_seq with_seq] in Hok.
    rewrite (proj2 (Z.eqb_neq _ n)) in Hok by (unfold len in *; lia). done.
Qed.

(** ** A concrete merge *)

Module MergeSample.
Import StoreProperties.Sample.

Definition about (entity b : byte) (time : Z) : FreshDraft :=
  MkFresh (MkDraft (ulid entity) (lit "world.observation") [b] None None (Some time)) (ulid b) time.

(** Two forks of the root behind its second Event: the first observes entities
    1 and 2, the second entity 3. *)
Definition fork_a : TimelineId := ulid x0a.
Definition fork_b : TimelineId := ulid x0b.
Definition target : TimelineId := ulid x0c.
Definition f1 : Store := (fork s2 fork_a root_id 2 (lit "a")).1.
Definition f2 : Store := (fork f1 fork_b root_id 2 (lit "b")).1.
Definition f3 : Store := (append f2 fork_a [about x01 x41 50; about x02 x42 30]).1.
Definition f4 : Store := (append f3 fork_b [about x03 x43 40]).1.
Definition mint (i : nat) : EventId * Z := (ulid (byte_of_Z (80 + Z.of_nat i)), 2000).

Lemma f4_ok : port_ok f4.
Proof.
  apply reachable_ok, (reachable_step f3); [|apply step_append, room_sample; vm_compute; reflexivity].
  apply (reachable_step f2); [|apply step_append, room_sample; vm_compute; reflexivity].
  apply (reachable_step f1); [|apply step_fork; [vm_compute; reflexivity|lia]].
  apply (reachable_step s2); [apply s2_reachable|apply step_fork; [vm_compute; reflexivity|lia]].
Qed.

Definition plan_fits (strategy : MergeStrategy) : bool :=
  match merge_plan f4 fork_a fork_b 2 strategy with
  | Ok (merged, parent) => bool_decide (parent = root_id) && (len merged <=? U64_MAX)
  | Err _ => true
  end.

Lemma f4_ready : merge_ready f4 fork_a fork_b 2 DisjointCrdt target.
Proof.
  split; [apply f4_ok|]. split; [vm_compute; split; congruence|]. intros merged parent Hp.
  assert (Hb : plan_fits DisjointCrdt = true) by (vm_compute; reflexivity). unfold plan_fits in Hb. rewrite Hp in Hb.
  apply andb_true_iff in Hb as [->%bool_decide_eq_true Hl%Z.leb_le]. split; [|exact Hl].
  split; [vm_compute; reflexivity|]. split; [lia|]. intros pst Hpst.
  assert (Hz : prefix_of <$> st_timelines f4 !! root_id = Some 0) by (vm_compute; reflexivity).
  rewrite Hpst in Hz. injection Hz as ->. lia.
Qed.

Definition merged_store : Store := (merge f4 fork_a fork_b 2 (lit "merged") target mint).1.

(** The root's two Events, then the others by wall time. *)
Example merged_view : view (read merged_store target seq_range_all)
  = Some [(1, [x11]); (2, [x12]); (3, [x42]); (4, [x43]); (5, [x41])].
Proof. vm_compute. reflexivity. Qed.

Lemma merge_committed : exists tl, merge_with_strategy f4 fork_a fork_b 2 (lit "merged") DisjointCrdt target mint
  = (merged_store, Ok tl).
Proof.
  assert (Hb : is_ok (merge f4 fork_a fork_b 2 (lit "merged") target mint).2 = true) by (vm_compute; reflexivity).
  unfold merged_store. change (merge_with_strategy f4 fork_a fork_b 2 (lit "merged") DisjointCrdt target mint)
    with (merge f4 fork_a fork_b 2 (lit "merged") target mint).
  destruct (merge f4 fork_a fork_b 2 (lit "merged") target mint) as [m [tl|e]]; [exists tl; reflexivity|discriminate Hb].
Qed.

Lemma merge_effect_witness : exists hp new, history (st_timelines f4) root_id hp
  /\ history (st_timelines merged_store) target new.
Proof.
  destruct merge_committed as [tl Hm].
  destruct (merge_effect f4 fork_a fork_b 2 (lit "merged") DisjointCrdt target mint merged_store tl f4_ready Hm)
    as (ha & hb & hp & parent & merged & new & Hha & _ & _ & _ & _ & Hn & _ & Hkeep).
  exists (match st_timelines f4 !! root_id with Some st => ts_events st | None => [] end),
    (take (Z.to_nat 2) hp ++ new).
  split; [|exact Hn].
  destruct (st_timelines f4 !! root_id) as [st|] eqn:Hst; [|vm_compute in Hst; discriminate Hst].
  refine (history_root _ _ st Hst _).
  assert (Hz : fork_point_of <$> st_timelines f4 !! root_id = Some None) by (vm_compute; reflexivity).
  rewrite Hst in Hz. injection Hz as Hz. exact Hz.
Defined.

Lemma merge_keeps_histories_witness : forall h,
  history (st_timelines f4) fork_a h -> history (st_timelines merged_store) fork_a h.
Proof.
  intros h. destruct merge_committed as [tl Hm].
  destruct (merge_keeps_histories f4 fork_a fork_b 2 (lit "merged") DisjointCrdt target mint merged_store (Ok tl)
    f4_ready Hm) as [Hk _]. apply Hk. apply (bool_decide_unpack _). vm_compute. exact I.
Defined.

Lemma conflict_check_decides_witness : is_ok (merge_plan f4 fork_a fork_b 2 DisjointCrdt) = true.
Proof.
  assert (Hg : exists tl, get_timeline f4 fork_a = Ok (Some tl)) by (eexists; vm_compute; reflexivity).
  destruct Hg as [tl Hg].
  destruct (conflict_check_decides f4 fork_a fork_b 2 tl true) as [Hd _]; [vm_compute; reflexivity|exact Hg|exact Hd].
Defined.

Definition obs (entity b : byte) (time : Z) : Event :=
  MkEvent (ulid b) (ulid entity) (lit "world.observation") [b] time 1 None None None None None hash_zero.

Lemma merge_entity_winner_witness :
  List.filter (of_entity (ulid x01)) (sort_by_wall_time [obs x01 x41 50; obs x02 x42 30])
  = sort_by_wall_time (List.filter (of_entity (ulid x01))
      (winner PreferA [obs x01 x41 50; obs x02 x42 30] [obs x01 x43 40] (ulid x01))).
Proof.
  destruct (merge_entity_winner PreferA [obs x01 x41 50; obs x02 x42 30] [obs x01 x43 40]
    [obs x01 x41 50; obs x02 x42 30] (ulid x01)) as [Hw _]; [vm_compute; reflexivity|exact Hw].
Defined.

Lemma shared_fork_exact_witness :
  require_shared_fork 1 (renumber [obs x01 x41 50; obs x02 x42 30]) (renumber [obs x01 x41 50; obs x03 x43 40]) = Ok tt
  <-> (1 <= 1 <= 2 /\ 1 <= 2
       /\ take 1 (renumber [obs x01 x41 50; obs x02 x42 30]) = take 1 (renumber [obs x01 x41 50; obs x03 x43 40])
       /\ forall e, renumber [obs x01 x41 50; obs x02 x42 30] !! 1%nat = Some e ->
            renumber [obs x01 x41 50; obs x03 x43 40] !! 1%nat <> Some e).
Proof.
  apply (shared_fork_exact 1 [obs x01 x41 50; obs x02 x42 30] [obs x01 x41 50; obs x03 x43 40]). lia.
Defined.

Lemma merge_commutes_witness : exists merged',
  merged_events PreferB [obs x01 x43 40] [obs x01 x41 50; obs x02 x42 30] = Ok merged'.
Proof.
  destruct (merge_commutes PreferA [obs x01 x41 50; obs x02 x42 30] [obs x01 x43 40]
    [obs x01 x41 50; obs x02 x42 30]) as (m' & Hm & _); [vm_compute; reflexivity|].
  exists m'. exact Hm.
Defined.
End MergeSample.
