(* ===== verification/FallbackRegistry.v ===== *)
(** * The composition fallback registry: decisions

    [crates/pos-store/src/composition_fallback_registry/{types,error,logic,derived}.rs]:
    the adapter-independent decisions of the fallback registry.  The registry
    state of a (scope, Timeline) is the fold of the Timeline's declaration and
    activation Events; [plan_declare] and [plan_activate] check one request
    against it and return a replay of the original row or a complete commit.

    An adapter is a record of reads ([FallbackReadsV1]), as in the source. *)

From Stdlib Require Import String ZArith Lia Bool.
From S2P Require Import Prelude Text SortedMap Cbor FallbackRecords FallbackPolicy FallbackPayload ErasureGate.
From S2P Require Import Events EventStore.

Local Open Scope Z_scope.

(** ** Errors *)

Inductive CompositionFallbackRegistryErrorV1 :=
| MissingState | CorruptState | InvalidRecord (e : FallbackRecordErrorV1) | ScopeMismatch
| EntityMismatch | Conflict | StaleState | StaleHead | StalePolicy | EmptyFirstPolicy
| PrimaryNotEffective | UnknownEntry | StaleActivation | InvalidTarget | TriggerNotDeclared
| ManualEntry | InvalidSkipped | TimelineUnavailable | EventRejected
| NestedTransaction | WalRequired | StorageBusy | StorageFailed | StorageIndeterminate | StorePoisoned.

Definition FallbackResult (A : Type) : Type := result CompositionFallbackRegistryErrorV1 A.

Definition reg_require (condition : bool) (error : CompositionFallbackRegistryErrorV1) : FallbackResult unit :=
  if condition then Ok tt else Err error.

(** [.or(Err(error))]. *)
Definition or_err {E F A} (m : result E A) (error : F) : result F A :=
  match m with Ok a => Ok a | Err _ => Err error end.

(** ** Values *)

Record CompositionFallbackTargetV1 := MkTarget {
  target_timeline : TimelineId;
  target_entity : EntityId;
}.

(** [BTreeMap<String, BTreeSet<Hash>>], in iteration order. *)
Definition FallbackConformanceSetsV1 : Type := smap (list Hash).

Record FallbackDeclareRequestV1 := MkDeclareRequest {
  dreq_scope : RString;
  dreq_target : CompositionFallbackTargetV1;
  dreq_expected_state_revision : Z;
  dreq_expected_logical_head : Z;
  dreq_policy_bytes : list byte;
  dreq_conformance : FallbackConformanceSetsV1;
}.

Record FallbackActivateRequestV1 := MkActivateRequest {
  areq_scope : RString;
  areq_target : CompositionFallbackTargetV1;
  areq_expected_state_revision : Z;
  areq_expected_logical_head : Z;
  areq_entry_key : RString;
  areq_closing_tenure_ordinal : Z;
  areq_from : ImplementationKeyV1;
  areq_to : ImplementationKeyV1;
  areq_trigger_code : FallbackTriggerCodeV1;
  areq_trigger_basis : FallbackTriggerBasisV1;
  areq_skipped : list FallbackSkippedCandidateV1;
  areq_tick : Z;
}.

Record FallbackEntryStateV1 := MkEntryState {
  es_tenure_ordinal : Z;
  es_effective_digest : Hash;
  es_chain_position : Z;
}.

#[export] Instance entry_state_eq_dec : EqDecision FallbackEntryStateV1.
Proof. solve_decision. Defined.

Record FallbackRegistryStateV1 := MkRegistryState {
  rst_state_revision : Z;
  rst_policy_digest : option Hash;
  rst_activation_ordinal : Z;
  rst_entries : smap FallbackEntryStateV1;
}.

#[export] Instance registry_state_eq_dec : EqDecision FallbackRegistryStateV1.
Proof. solve_decision. Defined.

Definition registry_state_default : FallbackRegistryStateV1 := MkRegistryState 0 None 0 [].

Record FallbackRegistryRowV1 := MkRow {
  row_entity : EntityId;
  row_state : FallbackRegistryStateV1;
}.

Record FallbackEventIdentityV1 := MkEventIdentity {
  fei_event_id : EventId;
  fei_seq : Z;
  fei_payload_digest : Hash;
}.

Inductive FallbackLedgerBodyV1 :=
| Declaration (conformance_digest : Hash)
| Activation (entry_key : RString) (closing_tenure_ordinal activation_ordinal tick : Z).

Record FallbackLedgerRowV1 := MkLedgerRow {
  lr_row_seq : Z;
  lr_entity : EntityId;
  lr_state_revision : Z;
  lr_policy_digest : Hash;
  lr_request_digest : Hash;
  lr_event : FallbackEventIdentityV1;
  lr_body : FallbackLedgerBodyV1;
}.

Definition declares (row : FallbackLedgerRowV1) (policy_digest : Hash) : bool :=
  match lr_body row with
  | Declaration _ => bool_decide (lr_policy_digest row = policy_digest)
  | Activation _ _ _ _ => false
  end.

Definition closes (row : FallbackLedgerRowV1) (key : RString) (closing : Z) : bool :=
  match lr_body row with
  | Activation entry_key closing_tenure_ordinal _ _ =>
      bool_decide (entry_key = key) && (closing_tenure_ordinal =? closing)
  | Declaration _ => false
  end.

Inductive FallbackCommitOutcomeV1 := Committed | IdempotentReplay.

Record FallbackCommitReceiptV1 := MkReceipt {
  receipt_row : FallbackLedgerRowV1;
  receipt_outcome : FallbackCommitOutcomeV1;
}.

Inductive FallbackProvisionOutcomeV1 := Created | Unchanged.

Definition COMPOSITION_FALLBACK_DECLARED_EVENT_TYPE_V1 : RString :=
  lit "pigloros.composition.fallback-declared".
Definition COMPOSITION_FALLBACK_ACTIVATED_EVENT_TYPE_V1 : RString :=
  lit "pigloros.composition.fallback-activated".

(** ** An adapter's reads *)

Record FallbackReadsV1 := MkReads {
  stored_row : RString -> TimelineId -> FallbackResult (option FallbackRegistryRowV1);
  stored_policy : Hash -> FallbackResult (option (list byte));
  stored_ledger : RString -> TimelineId -> FallbackResult (list FallbackLedgerRowV1);
  timeline_events : TimelineId -> FallbackResult (list Event);
  timeline_head : TimelineId -> FallbackResult Z;
}.

(** ** Digests *)

Definition update_len (length : Z) : list byte := le_bytes 8 length.
Definition update_text (text : RString) : list byte := update_len (str_len text) ++ as_bytes text.

Definition CONFORMANCE_DIGEST_DOMAIN_V1 : list byte :=
  list_byte_of_string "PiglorOS.Composition.FallbackConformance.v1" ++ [x00].
Definition REQUEST_DIGEST_DOMAIN_V1 : list byte :=
  list_byte_of_string "PiglorOS.Composition.FallbackRequest.v1" ++ [x00].

Section Logic.
Context `{Blake3}.

Definition conformance_digest_of (c : FallbackConformanceSetsV1) : Hash :=
  blake3 (CONFORMANCE_DIGEST_DOMAIN_V1 ++ update_len (len c)
    ++ flat_map (fun e => update_text e.1 ++ update_len (len e.2) ++ flat_map hash_bytes e.2) c).

(** The bytes fed to the hasher by [new_request_hasher]. *)
Definition new_request_hasher (kind : byte) (entity : EntityId) : list byte :=
  REQUEST_DIGEST_DOMAIN_V1 ++ [kind] ++ ulid_bytes entity.

Definition declare_request_digest (entity : EntityId) (conformance : FallbackConformanceSetsV1)
    : Hash :=
  blake3 (new_request_hasher x01 entity ++ hash_bytes (conformance_digest_of conformance)).

Definition activate_request_digest (r : FallbackActivateRequestV1) : Hash :=
  blake3 (new_request_hasher x02 (target_entity (areq_target r))
    ++ update_text (areq_scope r)
    ++ le_bytes 8 (areq_expected_state_revision r)
    ++ le_bytes 8 (areq_expected_logical_head r)
    ++ update_text (areq_entry_key r)
    ++ le_bytes 8 (areq_closing_tenure_ordinal r)
    ++ hash_bytes (imk_digest (areq_from r))
    ++ hash_bytes (imk_digest (areq_to r))
    ++ [byte_of_Z (code (areq_trigger_code r)); byte_of_Z (code (basis_origin (areq_trigger_basis r)))]
    ++ le_bytes 2 (basis_cause (areq_trigger_basis r))
    ++ update_len (len (areq_skipped r))
    ++ flat_map (fun s => hash_bytes (skipped_implementation_digest s)
                          ++ [byte_of_Z (code (skipped_reason s))]) (areq_skipped r)
    ++ le_bytes 8 (areq_tick r)).

(** ** The folded state *)

Record FallbackFoldV1 := MkFold {
  fold_state : FallbackRegistryStateV1;
  fold_policy : option DomainFallbackPolicyV1;
}.

Definition fold_default : FallbackFoldV1 := MkFold registry_state_default None.

Definition primary_digest (entry : FallbackEntryV1) : Hash :=
  imk_digest (pin_implementation (entry_primary entry)).

Definition implementations (entry : FallbackEntryV1) : list Hash :=
  (fun pin => imk_digest (pin_implementation pin)) <$> entry_primary entry :: entry_candidates entry.

(** [position(..)], then [u8::try_from]. *)
Definition chain_index (entry : FallbackEntryV1) (digest : Hash) : option Z :=
  match list_find (fun listed => listed = digest) (implementations entry) with
  | Some (index, _) => if Z.of_nat index <=? U8_MAX then Some (Z.of_nat index) else None
  | None => None
  end.

Definition is_candidate (entry : FallbackEntryV1) (digest : Hash) : bool :=
  existsb (fun listed => bool_decide (listed = digest)) (drop 1 (implementations entry)).

(** The entries in a candidate tenure, in key order. *)
Definition rebased_entries (s : FallbackRegistryStateV1) : list FallbackRebasedEntryV1 :=
  omap (fun e => match rebased_new e.1 (es_effective_digest e.2) with
                 | Ok r => Some r
                 | Err _ => None
                 end)
    (List.filter (fun e => 0 <? es_chain_position e.2) (rst_entries s)).

Definition primary_mismatch (s : FallbackRegistryStateV1) (policy : DomainFallbackPolicyV1) : bool :=
  existsb (fun entry => match sm_get (entry_entry_key entry) (rst_entries s) with
                        | Some st => negb (bool_decide (es_effective_digest st = primary_digest entry))
                        | None => false
                        end) (policy_entries policy).

Definition restart_chain (e : FallbackEntryStateV1) : FallbackEntryStateV1 :=
  MkEntryState (es_tenure_ordinal e) (es_effective_digest e) 0.

Definition state_declare (s : FallbackRegistryStateV1) (policy : DomainFallbackPolicyV1)
    : FallbackRegistryStateV1 :=
  let entries := sm_map_values restart_chain (rst_entries s) in
  let entries := fold_left (fun es entry =>
      sm_or_insert (entry_entry_key entry) (MkEntryState 0 (primary_digest entry) 0) es)
    (policy_entries policy) entries in
  MkRegistryState (saturating_add (rst_state_revision s) 1) (Some (policy_policy_digest policy))
    (rst_activation_ordinal s) entries.

Definition state_activate (s : FallbackRegistryStateV1) (input : FallbackActivatedInputV1)
    (next : FallbackEntryStateV1) : FallbackRegistryStateV1 :=
  MkRegistryState (saturating_add (rst_state_revision s) 1) (rst_policy_digest s)
    (act_activation_ordinal input) (sm_insert (act_entry_key input) next (rst_entries s)).

Definition payload_names_policy (payload : FallbackDeclaredPayloadV1)
    (policy : DomainFallbackPolicyV1) : bool :=
  bool_decide (declared_scope payload = policy_scope policy)
  && bool_decide (declared_policy_digest payload = policy_policy_digest policy)
  && bool_decide (declared_previous_policy_digest payload = policy_previous_policy_digest policy).

Definition declared_consistent (s : FallbackRegistryStateV1) (payload : FallbackDeclaredPayloadV1)
    (policy : DomainFallbackPolicyV1) (rebased : list FallbackRebasedEntryV1) : bool :=
  payload_names_policy payload policy
  && bool_decide (declared_previous_policy_digest payload = rst_policy_digest s)
  && bool_decide (declared_rebased payload = rebased)
  && negb (primary_mismatch s policy).

Definition apply_declared (f : FallbackFoldV1) (payload : FallbackDeclaredPayloadV1)
    (policy : DomainFallbackPolicyV1) : FallbackResult FallbackFoldV1 :=
  let rebased := rebased_entries (fold_state f) in
  let consistent := declared_consistent (fold_state f) payload policy rebased in
  let? _ := reg_require consistent CorruptState in
  Ok (MkFold (state_declare (fold_state f) policy) (Some policy)).


(** ** One activation *)

Record TransitionV1 := MkTransition {
  tr_entry : FallbackEntryV1;
  tr_current : FallbackEntryStateV1;
  tr_next : FallbackEntryStateV1;
}.

Definition closes_tenure (current : FallbackEntryStateV1) (input : FallbackActivatedInputV1) : bool :=
  (es_tenure_ordinal current =? act_closing_tenure_ordinal input)
  && bool_decide (es_effective_digest current = imk_digest (act_from input)).

Definition transition (policy : DomainFallbackPolicyV1) (state : FallbackRegistryStateV1)
    (input : FallbackActivatedInputV1) : FallbackResult TransitionV1 :=
  let? current := ok_or (sm_get (act_entry_key input) (rst_entries state)) UnknownEntry in
  let? entry := ok_or (List.find (fun e => bool_decide (entry_entry_key e = act_entry_key input))
                         (policy_entries policy)) UnknownEntry in
  let? _ := reg_require (closes_tenure current input) StaleActivation in
  let to := imk_digest (act_to input) in
  let? chain_position := ok_or (chain_index entry to) InvalidTarget in
  let next := MkEntryState (saturating_add (es_tenure_ordinal current) 1) to chain_position in
  Ok (MkTransition entry current next).

Definition check_origin (t : TransitionV1) (origin : FallbackActivationOriginV1)
    : FallbackResult unit :=
  match origin with
  | OriginAutomatic =>
      let? _ := reg_require (bool_decide (entry_activation_mode (tr_entry t) = ModeAutomatic))
                  ManualEntry in
      reg_require (es_chain_position (tr_current t) <? es_chain_position (tr_next t)) InvalidTarget
  | OriginOwner => Ok tt
  end.

Definition check_rules (t : TransitionV1) (input : FallbackActivatedInputV1) : FallbackResult unit :=
  let? _ := check_origin t (basis_origin (act_trigger_basis input)) in
  let returns := es_chain_position (tr_next t) =? 0 in
  let declared := returns
    || existsb (fun c => bool_decide (c = act_trigger_code input)) (entry_triggers (tr_entry t)) in
  let? _ := reg_require declared TriggerNotDeclared in
  let to := imk_digest (act_to input) in
  let skipped := forallb (fun s =>
      let digest := skipped_implementation_digest s in
      negb (bool_decide (digest = to)) && is_candidate (tr_entry t) digest) (act_skipped input) in
  reg_require skipped InvalidSkipped.

Definition apply_activated (f : FallbackFoldV1) (input : FallbackActivatedInputV1)
    : FallbackResult FallbackFoldV1 :=
  let? policy := ok_or (match fold_policy f with
                        | Some p => if bool_decide (policy_policy_digest p = act_policy_digest input)
                                    then Some p else None
                        | None => None
                        end) CorruptState in
  let? t := or_err (transition policy (fold_state f) input) CorruptState in
  let ordinal := saturating_add (rst_activation_ordinal (fold_state f)) 1 in
  let? _ := reg_require (act_activation_ordinal input =? ordinal) CorruptState in
  Ok (MkFold (state_activate (fold_state f) input (tr_next t)) (fold_policy f)).

(** ** The fold of a Timeline *)

Definition load_policy (reads : FallbackReadsV1) (digest : Hash)
    : FallbackResult DomainFallbackPolicyV1 :=
  let? bytes := stored_policy reads digest in
  ok_or (match bytes with
         | Some bytes => match policy_from_canonical_cbor bytes with
                         | Ok policy => if bool_decide (policy_policy_digest policy = digest)
                                        then Some policy else None
                         | Err _ => None
                         end
         | None => None
         end) CorruptState.

Definition fold_declared (reads : FallbackReadsV1) (scope : RString) (f : FallbackFoldV1)
    (bytes : list byte) : FallbackResult FallbackFoldV1 :=
  let? payload := or_err (declared_from_canonical_cbor bytes) CorruptState in
  if negb (bool_decide (declared_scope payload = scope)) then Ok f
  else
    let? policy := load_policy reads (declared_policy_digest payload) in
    apply_declared f payload policy.

Definition fold_activated (scope : RString) (f : FallbackFoldV1) (bytes : list byte)
    : FallbackResult FallbackFoldV1 :=
  let? payload := or_err (activated_from_canonical_cbor bytes) CorruptState in
  if negb (bool_decide (act_scope payload = scope)) then Ok f
  else apply_activated f payload.

Definition fold_event (reads : FallbackReadsV1) (scope : RString) (f : FallbackFoldV1) (event : Event)
    : FallbackResult FallbackFoldV1 :=
  if bool_decide (ev_event_type event = COMPOSITION_FALLBACK_DECLARED_EVENT_TYPE_V1)
  then fold_declared reads scope f (ev_payload event)
  else if bool_decide (ev_event_type event = COMPOSITION_FALLBACK_ACTIVATED_EVENT_TYPE_V1)
  then fold_activated scope f (ev_payload event)
  else Ok f.

Fixpoint try_fold (reads : FallbackReadsV1) (scope : RString) (f : FallbackFoldV1)
    (events : list Event) : FallbackResult FallbackFoldV1 :=
  match events with
  | [] => Ok f
  | event :: rest => let? f := fold_event reads scope f event in try_fold reads scope f rest
  end.

Definition fold_timeline (reads : FallbackReadsV1) (scope : RString) (timeline : TimelineId)
    : FallbackResult FallbackFoldV1 :=
  let? events := timeline_events reads timeline in
  try_fold reads scope fold_default events.

(** ** The committed state, checked against its fold *)

Record CurrentV1 := MkCurrent {
  cur_fold : FallbackFoldV1;
  cur_ledger : list FallbackLedgerRowV1;
}.

Definition check_row (stored : option FallbackRegistryRowV1) (ledger : list FallbackLedgerRowV1)
    (state : FallbackRegistryStateV1) (entity : EntityId) : FallbackResult unit :=
  match stored with
  | None => reg_require (len ledger =? 0) CorruptState
  | Some row =>
      let folded := bool_decide (row_state row = state)
        && match last (lr_state_revision <$> ledger) with
           | None => true
           | Some last => last =? rst_state_revision state
           end in
      let? _ := reg_require folded CorruptState in
      reg_require (bool_decide (row_entity row = entity)) EntityMismatch
  end.

Definition current (reads : FallbackReadsV1) (scope : RString) (target : CompositionFallbackTargetV1)
    : FallbackResult CurrentV1 :=
  let timeline := target_timeline target in
  let? stored := stored_row reads scope timeline in
  let? ledger := stored_ledger reads scope timeline in
  let? f := fold_timeline reads scope timeline in
  let? _ := check_row stored ledger (fold_state f) (target_entity target) in
  Ok (MkCurrent f ledger).

(** ** Plans *)

Record WriteV1 := MkWrite {
  w_scope : RString;
  w_target : CompositionFallbackTargetV1;
  w_expected_state_revision : Z;
  w_expected_logical_head : Z;
  w_request_digest : Hash;
}.

Record FallbackCommitV1 := MkCommit {
  commit_row : FallbackRegistryRowV1;
  commit_policy : option (Hash * list byte);
  commit_draft : EventDraft;
  commit_row_seq : Z;
  commit_policy_digest : Hash;
  commit_request_digest : Hash;
  commit_body : FallbackLedgerBodyV1;
}.

Inductive FallbackPlanV1 :=
| Replay (row : FallbackLedgerRowV1)
| Commit (commit : FallbackCommitV1).

Definition ledger_row (c : FallbackCommitV1) (event : FallbackEventIdentityV1) : FallbackLedgerRowV1 :=
  MkLedgerRow (commit_row_seq c) (row_entity (commit_row c))
    (rst_state_revision (row_state (commit_row c))) (commit_policy_digest c)
    (commit_request_digest c) event (commit_body c).

Definition replay (row : FallbackLedgerRowV1) (request_digest : Hash) : FallbackResult FallbackPlanV1 :=
  let? _ := reg_require (bool_decide (lr_request_digest row = request_digest)) Conflict in
  Ok (Replay row).

Definition check_fresh (w : WriteV1) (reads : FallbackReadsV1) (state_revision : Z)
    : FallbackResult unit :=
  let? _ := reg_require (w_expected_state_revision w =? state_revision) StaleState in
  let? head := timeline_head reads (target_timeline (w_target w)) in
  reg_require (head =? w_expected_logical_head w) StaleHead.

Definition plan (w : WriteV1) (reads : FallbackReadsV1) (occupies : FallbackLedgerRowV1 -> bool)
    (fresh : CurrentV1 -> FallbackResult FallbackPlanV1) : FallbackResult FallbackPlanV1 :=
  let? found := current reads (w_scope w) (w_target w) in
  match List.find occupies (cur_ledger found) with
  | Some row => replay row (w_request_digest w)
  | None =>
      let revision := rst_state_revision (fold_state (cur_fold found)) in
      let? _ := check_fresh w reads revision in
      fresh found
  end.

Definition next_row_seq (ledger : list FallbackLedgerRowV1) : Z := saturating_add (len ledger) 1.

Record CommitPartsV1 := MkParts {
  parts_entity : EntityId;
  parts_row_seq : Z;
  parts_policy_digest : Hash;
  parts_request_digest : Hash;
}.

Definition write_parts (w : WriteV1) (found : CurrentV1) (policy_digest : Hash) : CommitPartsV1 :=
  MkParts (target_entity (w_target w)) (next_row_seq (cur_ledger found)) policy_digest
    (w_request_digest w).

Definition parts_commit (p : CommitPartsV1) (f : FallbackFoldV1) (draft : EventDraft)
    (body : FallbackLedgerBodyV1) (policy : option (Hash * list byte)) : FallbackPlanV1 :=
  Commit (MkCommit (MkRow (parts_entity p) (fold_state f)) policy draft (parts_row_seq p)
            (parts_policy_digest p) (parts_request_digest p) body).

Definition check_declaration (state : FallbackRegistryStateV1) (policy : DomainFallbackPolicyV1)
    : FallbackResult unit :=
  let previous := policy_previous_policy_digest policy in
  let? _ := reg_require (bool_decide (previous = rst_policy_digest state)) StalePolicy in
  let withdraws_nothing := bool_decide (previous = None) && policy_is_withdrawal policy in
  let? _ := reg_require (negb withdraws_nothing) EmptyFirstPolicy in
  reg_require (negb (primary_mismatch state policy)) PrimaryNotEffective.

(** [draft]: the Event draft an operation appends. *)
Definition fallback_draft (entity : EntityId) (event_type : RString) (payload : list byte)
    : EventDraft := draft_new entity event_type payload.

Definition declare_fresh (w : WriteV1) (found : CurrentV1) (policy : DomainFallbackPolicyV1)
    (request : FallbackDeclareRequestV1) : FallbackResult FallbackPlanV1 :=
  let state := fold_state (cur_fold found) in
  let? _ := check_declaration state policy in
  let policy_digest := policy_policy_digest policy in
  let parts := write_parts w found policy_digest in
  let body := Declaration (conformance_digest_of (dreq_conformance request)) in
  let retained := Some (policy_digest, dreq_policy_bytes request) in
  let rebased := rebased_entries state in
  let? payload := map_err InvalidRecord (declared_for_policy policy rebased) in
  let event := fallback_draft (target_entity (w_target w))
    COMPOSITION_FALLBACK_DECLARED_EVENT_TYPE_V1 (declared_to_canonical_cbor payload) in
  let? f := apply_declared (cur_fold found) payload policy in
  Ok (parts_commit parts f event body retained).

Definition plan_declare (reads : FallbackReadsV1) (request : FallbackDeclareRequestV1)
    : FallbackResult FallbackPlanV1 :=
  let? policy := map_err InvalidRecord (policy_from_canonical_cbor (dreq_policy_bytes request)) in
  let? _ := reg_require (bool_decide (policy_scope policy = dreq_scope request)) ScopeMismatch in
  let target := dreq_target request in
  let write := MkWrite (dreq_scope request) target (dreq_expected_state_revision request)
    (dreq_expected_logical_head request)
    (declare_request_digest (target_entity target) (dreq_conformance request)) in
  let digest := policy_policy_digest policy in
  plan write reads (fun row => declares row digest)
    (fun found => declare_fresh write found policy request).

Definition activation_input (r : FallbackActivateRequestV1) (policy_digest : Hash)
    (activation_ordinal : Z) : FallbackActivatedInputV1 :=
  MkActivatedInput (areq_scope r) policy_digest (areq_entry_key r) (areq_closing_tenure_ordinal r)
    (areq_from r) (areq_to r) (areq_skipped r) (areq_trigger_code r) (areq_trigger_basis r)
    (saturating_add activation_ordinal 1).

Definition activate_fresh (w : WriteV1) (found : CurrentV1) (request : FallbackActivateRequestV1)
    : FallbackResult FallbackPlanV1 :=
  let state := fold_state (cur_fold found) in
  let? policy := ok_or (fold_policy (cur_fold found)) UnknownEntry in
  let input := activation_input request (policy_policy_digest policy) (rst_activation_ordinal state) in
  let? payload := map_err InvalidRecord (activated_new input) in
  let? t := transition policy state payload in
  let? _ := check_rules t payload in
  let parts := write_parts w found (act_policy_digest payload) in
  let body := Activation (act_entry_key payload) (act_closing_tenure_ordinal payload)
    (act_activation_ordinal payload) (areq_tick request) in
  let event := fallback_draft (target_entity (w_target w))
    COMPOSITION_FALLBACK_ACTIVATED_EVENT_TYPE_V1 (activated_to_canonical_cbor payload) in
  let? f := apply_activated (cur_fold found) payload in
  Ok (parts_commit parts f event body None).

Definition plan_activate (reads : FallbackReadsV1) (request : FallbackActivateRequestV1)
    : FallbackResult FallbackPlanV1 :=
  let write := MkWrite (areq_scope request) (areq_target request)
    (areq_expected_state_revision request) (areq_expected_logical_head request)
    (activate_request_digest request) in
  plan write reads
    (fun row => closes row (areq_entry_key request) (areq_closing_tenure_ordinal request))
    (fun found => activate_fresh write found request).

(** ** The appended Event *)

Definition payload_digest (hash_payload : list byte -> Hash) (draft : EventDraft)
    : FallbackResult Hash :=
  let digest := blake3 (draft_payload draft) in
  let? _ := reg_require (bool_decide (hash_payload (draft_payload draft) = digest)) EventRejected in
  Ok digest.

Definition event_identity {E} (appended : result E (list Event)) (payload_digest : Hash)
    : FallbackResult FallbackEventIdentityV1 :=
  ok_or (match appended with
         | Ok (event :: _) => Some (MkEventIdentity (ev_id event) (ev_seq event) payload_digest)
         | _ => None
         end) EventRejected.

End Logic.

(** * The in-memory fallback registry

    [crates/pos-store/src/memory/composition_fallback_registry.rs]: the
    [MemoryStore] adapter of the registry port, and
    [composition_fallback_registry/derived.rs], which folds a Timeline through
    the public port.

    [MemoryStore] here is the Event store of [EventStore] and the registry
    state beside it.  The Event id and clock reading the append draws are
    arguments of the writing operations. *)

Definition RowKey : Type := RString * TimelineId.

Record MemoryCompositionFallbackStateV1 := MkFallbackState {
  fs_provisioned : bool;
  fs_rows : gmap RowKey FallbackRegistryRowV1;
  fs_policies : gmap Hash (list byte);
  fs_ledgers : gmap RowKey (list FallbackLedgerRowV1);
}.

Definition fallback_state_default : MemoryCompositionFallbackStateV1 := MkFallbackState false ∅ ∅ ∅.

Record MemoryStore := MkMemoryStore {
  ms_store : Store;
  ms_fallback : MemoryCompositionFallbackStateV1;
}.

Definition require_provisioned (f : MemoryCompositionFallbackStateV1) : FallbackResult unit :=
  reg_require (fs_provisioned f) MissingState.

Definition ledger (f : MemoryCompositionFallbackStateV1) (scope : RString) (timeline : TimelineId)
    : list FallbackLedgerRowV1 :=
  default [] (fs_ledgers f !! (scope, timeline)).

(** [policies.extend(commit.policy)]: an [Option] extends by at most one pair. *)
Definition extend_policies (policies : gmap Hash (list byte)) (policy : option (Hash * list byte))
    : gmap Hash (list byte) :=
  match policy with Some (digest, bytes) => <[digest := bytes]> policies | None => policies end.

Definition commit (f : MemoryCompositionFallbackStateV1) (scope : RString) (timeline : TimelineId)
    (c : FallbackCommitV1) (row : FallbackLedgerRowV1) : MemoryCompositionFallbackStateV1 :=
  let key := (scope, timeline) in
  MkFallbackState (fs_provisioned f) (<[key := commit_row c]> (fs_rows f))
    (extend_policies (fs_policies f) (commit_policy c))
    (<[key := ledger f scope timeline ++ [row]]> (fs_ledgers f)).

(** [MemoryFallbackViewV1]: the reads the registry plans from. *)
Definition memory_view (m : MemoryStore) : FallbackReadsV1 :=
  MkReads
    (fun scope timeline => Ok (fs_rows (ms_fallback m) !! (scope, timeline)))
    (fun digest => Ok (fs_policies (ms_fallback m) !! digest))
    (fun scope timeline => Ok (ledger (ms_fallback m) scope timeline))
    (fun timeline => or_err (collect_events_in_range (ms_store m) timeline seq_range_all)
                       TimelineUnavailable)
    (fun timeline => or_err (logical_head_unchecked (ms_store m) timeline) TimelineUnavailable).

Section Memory.
Context `{Blake3} `{Hasher} `{UlidText}.

(** Writes keep what they did also on failure. *)
Definition FallbackWrite (A : Type) : Type := MemoryStore * FallbackResult A.

Definition append_fallback_event (m : MemoryStore) (timeline : TimelineId) (draft : EventDraft)
    (id : EventId) (now : Z) : FallbackWrite FallbackEventIdentityV1 :=
  match payload_digest hash_payload draft with
  | Err e => (m, Err e)
  | Ok digest =>
      let (s', appended) := guarded_generic_append (ms_store m) timeline [MkFresh draft id now] in
      (MkMemoryStore s' (ms_fallback m), event_identity appended digest)
  end.

Definition write_fallback_plan (m : MemoryStore) (scope : RString) (timeline : TimelineId)
    (p : FallbackPlanV1) (id : EventId) (now : Z) : FallbackWrite FallbackCommitReceiptV1 :=
  match p with
  | Replay row => (m, Ok (MkReceipt row IdempotentReplay))
  | Commit c =>
      let (m', appended) := append_fallback_event m timeline (commit_draft c) id now in
      match appended with
      | Err e => (m', Err e)
      | Ok event =>
          let row := ledger_row c event in
          (MkMemoryStore (ms_store m') (commit (ms_fallback m') scope timeline c row),
           Ok (MkReceipt row Committed))
      end
  end.

Definition plan_and_write_fallback (m : MemoryStore) (scope : RString) (timeline : TimelineId)
    (plan : FallbackReadsV1 -> FallbackResult FallbackPlanV1) (id : EventId) (now : Z)
    : FallbackWrite FallbackCommitReceiptV1 :=
  match plan (memory_view m) with
  | Err e => (m, Err e)
  | Ok planned => write_fallback_plan m scope timeline planned id now
  end.

(** [fenced.or(Err(EventRejected)).and_then(identity)]. *)
Definition flatten_fenced {A} (fenced : result CoreError (FallbackResult A)) : FallbackResult A :=
  let? inner := or_err fenced EventRejected in inner.

Definition fenced_fallback_operation (m : MemoryStore) (scope : RString) (timeline : TimelineId)
    (plan : FallbackReadsV1 -> FallbackResult FallbackPlanV1) (id : EventId) (now : Z)
    : FallbackWrite FallbackCommitReceiptV1 :=
  match require_provisioned (ms_fallback m) with
  | Err e => (m, Err e)
  | Ok _ =>
      let (m', fenced) := with_erasure_fence_on ms_store timeline OpAppend (fun m =>
        let (m', r) := plan_and_write_fallback m scope timeline plan id now in (m', Ok r)) m in
      (m', flatten_fenced fenced)
  end.

(** ** The port *)

Definition provision_fallback_registry (m : MemoryStore) : FallbackWrite FallbackProvisionOutcomeV1 :=
  let f := ms_fallback m in
  let outcome := if fs_provisioned f then Unchanged else Created in
  (MkMemoryStore (ms_store m) (MkFallbackState true (fs_rows f) (fs_policies f) (fs_ledgers f)),
   Ok outcome).

Definition declare (m : MemoryStore) (request : FallbackDeclareRequestV1) (id : EventId) (now : Z)
    : FallbackWrite FallbackCommitReceiptV1 :=
  fenced_fallback_operation m (dreq_scope request) (target_timeline (dreq_target request))
    (fun reads => plan_declare reads request) id now.

Definition activate (m : MemoryStore) (request : FallbackActivateRequestV1) (id : EventId) (now : Z)
    : FallbackWrite FallbackCommitReceiptV1 :=
  fenced_fallback_operation m (areq_scope request) (target_timeline (areq_target request))
    (fun reads => plan_activate reads request) id now.

Definition registry_row (m : MemoryStore) (scope : RString) (timeline : TimelineId)
    : FallbackResult (option FallbackRegistryRowV1) :=
  let? _ := require_provisioned (ms_fallback m) in
  stored_row (memory_view m) scope timeline.

Definition fallback_ledger (m : MemoryStore) (scope : RString) (timeline : TimelineId)
    : FallbackResult (list FallbackLedgerRowV1) :=
  let? _ := require_provisioned (ms_fallback m) in
  Ok (ledger (ms_fallback m) scope timeline).

Definition lookup_declaration (m : MemoryStore) (scope : RString) (timeline : TimelineId)
    (policy_digest : Hash) : FallbackResult (option FallbackLedgerRowV1) :=
  let? rows := fallback_ledger m scope timeline in
  Ok (List.find (fun row => declares row policy_digest) rows).

Definition lookup_activation (m : MemoryStore) (scope : RString) (timeline : TimelineId)
    (entry_key : RString) (closing_tenure_ordinal : Z)
    : FallbackResult (option FallbackLedgerRowV1) :=
  let? rows := fallback_ledger m scope timeline in
  Ok (List.find (fun row => closes row entry_key closing_tenure_ordinal) rows).

Definition retained_policy (m : MemoryStore) (policy_digest : Hash)
    : FallbackResult (option (list byte)) :=
  let? _ := require_provisioned (ms_fallback m) in
  stored_policy (memory_view m) policy_digest.

(** ** The state derived through the public port *)

Definition port_reads (m : MemoryStore) : FallbackReadsV1 :=
  MkReads (registry_row m) (retained_policy m) (fallback_ledger m)
    (fun timeline => or_err (read (ms_store m) timeline seq_range_all) TimelineUnavailable)
    (fun timeline => or_err (logical_head (ms_store m) timeline) TimelineUnavailable).

Definition derived_fallback_state_v1 (m : MemoryStore) (scope : RString) (timeline : TimelineId)
    : FallbackResult FallbackRegistryStateV1 :=
  let? f := fold_timeline (port_reads m) scope timeline in
  Ok (fold_state f).
End Memory.
