(* ===== verification/FallbackFold.v ===== *)
(** * The fallback fold

    Lemmas and theorems about [FallbackRegistry]'s fold of a Timeline: what
    each Event does to the folded state, the invariant of every folded state,
    the counting specification of its ordinals, and that planning a write
    against a folded state fails only for the documented reasons. *)

From Stdlib Require Import String ZArith Lia Bool Sorting.Sorted.
From S2P Require Import Prelude Text SortedMap Cbor FallbackRecords FallbackPolicy FallbackPayload.
From S2P Require Import ErasureGate Events EventStore StoreHistory StoreCorrect FallbackRegistry.

Local Open Scope Z_scope.

Lemma reg_require_ok b e : reg_require b e = Ok tt <-> b = true.
Proof. destruct b; simpl; naive_solver. Qed.

Lemma or_err_ok {E F A} (m : result E A) (e : F) a : or_err m e = Ok a <-> m = Ok a.
Proof. destruct m; simpl; naive_solver. Qed.

(** Splits a successful plan into the facts of its checks. *)
Ltac reg_inv :=
  repeat (ok_inv; match goal with
  | H : reg_require _ _ = Ok _ |- _ => apply reg_require_ok in H
  | H : or_err _ _ = Ok _ |- _ => apply or_err_ok in H
  | H : bool_decide _ = true |- _ => apply bool_decide_eq_true in H
  | H : negb _ = true |- _ => apply negb_true_iff in H
  | H : _ && _ = true |- _ => apply andb_true_iff in H as [? ?]
  | H : (_ =? _) = true |- _ => apply Z.eqb_eq in H
  end); ok_inv.

Section Fold.
Context `{Blake3}.
Implicit Types (f : FallbackFoldV1) (p : DomainFallbackPolicyV1) (scope : RString).

(** ** The fold over lists *)

Lemma try_fold_app reads scope f a b :
  try_fold reads scope f (a ++ b)
  = (let? f' := try_fold reads scope f a in try_fold reads scope f' b).
Proof.
  revert f. induction a as [|e a IH]; intros f; simpl; [done|].
  destruct (fold_event reads scope f e); simpl; auto.
Qed.

(** Sequence numbers play no role in the fold. *)
Lemma try_fold_imap reads scope f (g : nat -> Z) h :
  try_fold reads scope f (imap (fun i e => with_seq (g i) e) h) = try_fold reads scope f h.
Proof.
  revert f g. induction h as [|e h IH]; intros f g; simpl; [done|].
  change (fold_event reads scope f (with_seq (g 0%nat) e)) with (fold_event reads scope f e).
  destruct (fold_event reads scope f e); simpl; [|done]. apply (IH _ (fun i => g (S i))).
Qed.

Lemma try_fold_renumber reads scope f h : try_fold reads scope f (renumber h) = try_fold reads scope f h.
Proof. apply (try_fold_imap reads scope f (fun i => Z.of_nat i + 1)). Qed.

(** ** Retained policies *)

(** Every policy [reads] retains is retained, with the same bytes, by [reads']. *)
Definition retains (reads reads' : FallbackReadsV1) : Prop :=
  forall d bytes, stored_policy reads d = Ok (Some bytes) -> stored_policy reads' d = Ok (Some bytes).

Lemma load_policy_ok reads d p :
  load_policy reads d = Ok p <->
  exists bytes, stored_policy reads d = Ok (Some bytes)
    /\ policy_from_canonical_cbor bytes = Ok p /\ policy_policy_digest p = d.
Proof.
  unfold load_policy. split.
  - intros Hl. ok_inv. destruct a as [bytes|]; [|done]. exists bytes.
    destruct (policy_from_canonical_cbor bytes); [|done]. by case_bool_decide; simplify_eq.
  - intros (bytes & -> & Hd & Hp). simpl. by rewrite Hd, bool_decide_true.
Qed.

Lemma load_policy_mono reads reads' d p :
  retains reads reads' -> load_policy reads d = Ok p -> load_policy reads' d = Ok p.
Proof. intros Hr. rewrite !load_policy_ok. naive_solver. Qed.

Lemma fold_event_mono reads reads' scope f e f' :
  retains reads reads' -> fold_event reads scope f e = Ok f' -> fold_event reads' scope f e = Ok f'.
Proof.
  intros Hr. unfold fold_event. repeat case_bool_decide; try done. unfold fold_declared.
  destruct (or_err _ _) as [d|]; simpl; [|done]. destruct (negb _); [done|]. intros Hf. ok_inv.
  by rewrite (load_policy_mono _ _ _ _ Hr Hm).
Qed.

Lemma try_fold_mono reads reads' scope f h f' :
  retains reads reads' -> try_fold reads scope f h = Ok f' -> try_fold reads' scope f h = Ok f'.
Proof.
  intros Hr. revert f. induction h as [|e h IH]; intros f Hf; simpl in *; [done|]. ok_inv.
  rewrite (fold_event_mono _ _ _ _ _ _ Hr Hm). by apply IH.
Qed.

(** ** The policy digest binds the policy *)

(** The bytes the policy digest hashes.  Two different valid policies with one
    digest are a collision of BLAKE3 on their preimages. *)
Definition policy_preimage p : list byte := FALLBACK_POLICY_DIGEST_DOMAIN_V1 ++ policy_fields p x85.

Lemma policy_digest_binds p q :
  policy_valid p = true -> policy_valid q = true -> policy_policy_digest p = policy_policy_digest q ->
  p <> q ->
  policy_preimage p <> policy_preimage q /\ blake3 (policy_preimage p) = blake3 (policy_preimage q).
Proof.
  intros Hp Hq Hd Hne. split.
  - unfold policy_preimage. intros Heq. apply app_inv_head in Heq. apply Hne.
    assert (Henc : policy_to_canonical_cbor p ++ [] = policy_to_canonical_cbor q ++ []).
    { unfold policy_to_canonical_cbor. rewrite Hd. do 2 f_equal. unfold policy_fields in *. simpl in *.
      by injection Heq as ->. }
    destruct (codec_inj p q [] []); done.
  - apply policy_valid_spec in Hp as [Hp _], Hq as [Hq _].
    apply policy_new_ok in Hp as (_ & _ & _ & _ & Hp), Hq as (_ & _ & _ & _ & Hq).
    unfold policy_preimage, domain_digest in *. congruence.
Qed.

(** ** What one Event of a registry write folds to *)

(** The two Event types the registry appends. *)
Definition is_fallback_type (kind : RString) : bool :=
  bool_decide (kind = COMPOSITION_FALLBACK_DECLARED_EVENT_TYPE_V1)
  || bool_decide (kind = COMPOSITION_FALLBACK_ACTIVATED_EVENT_TYPE_V1).

Lemma fold_other_type reads scope f e :
  is_fallback_type (ev_event_type e) = false -> fold_event reads scope f e = Ok f.
Proof. unfold is_fallback_type, fold_event. intros Hn. apply orb_false_iff in Hn as [-> ->]. done. Qed.

Lemma try_fold_other reads scope f h :
  Forall (fun e => is_fallback_type (ev_event_type e) = false) h -> try_fold reads scope f h = Ok f.
Proof. induction 1 as [|e h He _ IH]; simpl; [done|]. by rewrite fold_other_type. Qed.

Lemma fold_declared_event reads scope f e d :
  ev_event_type e = COMPOSITION_FALLBACK_DECLARED_EVENT_TYPE_V1 ->
  ev_payload e = declared_to_canonical_cbor d -> declared_valid d = true ->
  fold_event reads scope f e
  = if decide (declared_scope d = scope)
    then let? p := load_policy reads (declared_policy_digest d) in apply_declared f d p
    else Ok f.
Proof.
  intros Ht Hp Hv. unfold fold_event. rewrite Ht, bool_decide_true by done. rewrite Hp.
  unfold fold_declared. rewrite (proj2 (declared_decodes _ d)) by done. simpl.
  case_bool_decide; [by rewrite decide_True|by rewrite decide_False].
Qed.

Lemma fold_activated_event reads scope f e a :
  ev_event_type e = COMPOSITION_FALLBACK_ACTIVATED_EVENT_TYPE_V1 ->
  ev_payload e = activated_to_canonical_cbor a -> activated_valid a = true ->
  fold_event reads scope f e
  = if decide (act_scope a = scope) then apply_activated f a else Ok f.
Proof.
  intros Ht Hp Hv. unfold fold_event. rewrite Ht, bool_decide_false by done.
  rewrite bool_decide_true by done. rewrite Hp. unfold fold_activated.
  rewrite (proj2 (activated_decodes _ a)) by done. simpl.
  case_bool_decide; [by rewrite decide_True|by rewrite decide_False].
Qed.

(** ** The invariant of a folded state *)

(** The entry's state names one of the declared implementations by its chain
    position. *)
Definition on_chain (e : FallbackEntryV1) (st : FallbackEntryStateV1) : Prop :=
  0 <= es_chain_position st
  /\ implementations e !! Z.to_nat (es_chain_position st) = Some (es_effective_digest st).

Record fold_wf f : Prop := {
  fw_initial : fold_policy f = None -> fold_state f = registry_state_default;
  fw_current p : fold_policy f = Some p ->
    policy_valid p = true /\ rst_policy_digest (fold_state f) = Some (policy_policy_digest p);
  fw_entries p e : fold_policy f = Some p -> e ∈ policy_entries p ->
    exists st, sm_get (entry_entry_key e) (rst_entries (fold_state f)) = Some st /\ on_chain e st;
  fw_frozen p k st : fold_policy f = Some p -> sm_get k (rst_entries (fold_state f)) = Some st ->
    k ∉ entry_entry_key <$> policy_entries p -> es_chain_position st = 0;
  fw_sorted : sm_sorted (rst_entries (fold_state f));
  fw_keys k st : sm_get k (rst_entries (fold_state f)) = Some st -> entry_key_ok k = true;
  fw_ordinal : u64_ok (rst_activation_ordinal (fold_state f));
}.

Lemma fold_wf_default : fold_wf fold_default.
Proof. split; simpl; try done. constructor. Qed.

Lemma policy_keys_NoDup p : policy_valid p = true -> NoDup (entry_entry_key <$> policy_entries p).
Proof.
  unfold policy_valid, valid_entries. rewrite !andb_true_iff. intros Hp.
  apply strictly_sorted_NoDup. tauto.
Qed.

Lemma policy_entry_valid p e : policy_valid p = true -> e ∈ policy_entries p -> entry_valid e = true.
Proof. intros Hp He. apply policy_valid_spec in Hp as [_ Hf]. rewrite Forall_forall in Hf. auto. Qed.

Lemma find_entry es k :
  match List.find (fun e => bool_decide (entry_entry_key e = k)) es with
  | Some e => e ∈ es /\ entry_entry_key e = k
  | None => k ∉ entry_entry_key <$> es
  end.
Proof.
  destruct (List.find _ es) as [e|] eqn:Hf.
  - apply find_some in Hf as [He Hk]. apply bool_decide_eq_true in Hk. by apply list_elem_of_In in He.
  - intros Hin. apply list_elem_of_fmap in Hin as (e & -> & He). apply list_elem_of_In in He.
    pose proof (find_none _ _ Hf _ He) as Hn. simpl in Hn. by case_bool_decide.
Qed.

Lemma entry_by_key es e e' :
  NoDup (entry_entry_key <$> es) -> e ∈ es -> e' ∈ es -> entry_entry_key e = entry_entry_key e' -> e = e'.
Proof.
  intros Hnd He He' Hk. apply list_elem_of_lookup in He as [i Hi], He' as [j Hj].
  assert (i = j) as ->; [|congruence].
  eapply NoDup_lookup; [exact Hnd| |]; rewrite list_lookup_fmap; [by rewrite Hi|by rewrite Hj; simpl; rewrite Hk].
Qed.

(** The entries after a declaration. *)
Lemma declare_get s p k :
  sm_get k (rst_entries (state_declare s p))
  = match sm_get k (rst_entries s) with
    | Some st => Some (restart_chain st)
    | None => (fun e => MkEntryState 0 (primary_digest e) 0)
              <$> List.find (fun e => bool_decide (entry_entry_key e = k)) (policy_entries p)
    end.
Proof.
  simpl. pose proof (sm_get_map_values restart_chain k (rst_entries s)) as Hg.
  revert Hg. generalize (sm_map_values restart_chain (rst_entries s)). intros m Hm.
  replace (match sm_get k (rst_entries s) with Some st => Some (restart_chain st) | None => _ end)
    with (match sm_get k m with
          | Some st => Some st
          | None => (fun e => MkEntryState 0 (primary_digest e) 0)
              <$> List.find (fun e => bool_decide (entry_entry_key e = k)) (policy_entries p)
          end) by (rewrite Hm; by destruct (sm_get k (rst_entries s))).
  clear Hm. revert m. induction (policy_entries p) as [|e es IH]; intros m; simpl; [by destruct (sm_get k m)|].
  rewrite IH, sm_get_or_insert. destruct (sm_get k m) as [st|]; [done|].
  case_decide; case_bool_decide; naive_solver.
Qed.

Lemma declare_sorted s p : sm_sorted (rst_entries s) -> sm_sorted (rst_entries (state_declare s p)).
Proof.
  intros Hs. simpl. apply (sm_sorted_map_values restart_chain) in Hs. revert Hs.
  generalize (sm_map_values restart_chain (rst_entries s)).
  induction (policy_entries p) as [|e es IH]; intros m Hm; simpl; [done|]. apply IH.
  by apply sm_sorted_or_insert.
Qed.

Lemma primary_mismatch_false s p e st :
  primary_mismatch s p = false -> e ∈ policy_entries p ->
  sm_get (entry_entry_key e) (rst_entries s) = Some st -> es_effective_digest st = primary_digest e.
Proof.
  intros Hm He Hst. unfold primary_mismatch in Hm. apply list_elem_of_In in He.
  apply not_true_iff_false in Hm. destruct (decide (es_effective_digest st = primary_digest e)); [done|].
  exfalso. apply Hm, existsb_exists. exists e. split; [done|]. rewrite Hst.
  by rewrite bool_decide_false.
Qed.

Lemma saturating_add_1_ok z : u64_ok z -> u64_ok (saturating_add z 1).
Proof. unfold u64_ok, saturating_add. lia. Qed.

Lemma declare_wf f p :
  fold_wf f -> policy_valid p = true -> primary_mismatch (fold_state f) p = false ->
  fold_wf (MkFold (state_declare (fold_state f) p) (Some p)).
Proof.
  intros Hwf Hp Hm. split; cbn [fold_policy fold_state].
  - done.
  - by intros ? [= <-].
  - intros ? e [= <-] He. rewrite declare_get.
    destruct (sm_get (entry_entry_key e) (rst_entries (fold_state f))) as [st|] eqn:Hst.
    + exists (restart_chain st). split; [done|]. split; [done|]. simpl.
      by rewrite (primary_mismatch_false _ _ _ _ Hm He Hst).
    + pose proof (find_entry (policy_entries p) (entry_entry_key e)) as Hf.
      destruct (List.find _ (policy_entries p)) as [e'|]; simpl in *.
      * destruct Hf as [He' Hk]. rewrite (entry_by_key _ e' e (policy_keys_NoDup _ Hp) He' He Hk).
        by eexists.
      * exfalso. apply Hf. by apply list_elem_of_fmap_2.
  - intros ? k st [= <-] Hk _. rewrite declare_get in Hk.
    destruct (sm_get k (rst_entries (fold_state f))); [by simplify_eq|].
    apply fmap_Some in Hk as (? & _ & ->). done.
  - apply declare_sorted, Hwf.
  - intros k st Hk. rewrite declare_get in Hk.
    destruct (sm_get k (rst_entries (fold_state f))) as [st'|] eqn:Hst; [by eapply fw_keys|].
    pose proof (find_entry (policy_entries p) k) as Hf.
    destruct (List.find _ (policy_entries p)) as [e|]; [|done]. destruct Hf as [He <-].
    pose proof (policy_entry_valid _ _ Hp He) as Hv. unfold entry_valid in Hv.
    rewrite !andb_true_iff in Hv. tauto.
  - apply (fw_ordinal _ Hwf).
Qed.

Lemma chain_index_spec e d i :
  chain_index e d = Some i -> 0 <= i /\ implementations e !! Z.to_nat i = Some d.
Proof.
  unfold chain_index. destruct (list_find _ _) as [[n x]|] eqn:Hf; [|done].
  apply list_find_Some in Hf as (Hl & -> & _). destruct (_ <=? _); [|done]. intros [= <-].
  rewrite Nat2Z.id. split; [lia|done].
Qed.

(** What a permitted transition is. *)
Lemma transition_ok p s a t :
  transition p s a = Ok t <->
  sm_get (act_entry_key a) (rst_entries s) = Some (tr_current t)
  /\ List.find (fun e => bool_decide (entry_entry_key e = act_entry_key a)) (policy_entries p)
     = Some (tr_entry t)
  /\ es_tenure_ordinal (tr_current t) = act_closing_tenure_ordinal a
  /\ es_effective_digest (tr_current t) = imk_digest (act_from a)
  /\ exists i, chain_index (tr_entry t) (imk_digest (act_to a)) = Some i
     /\ tr_next t = MkEntryState (saturating_add (es_tenure_ordinal (tr_current t)) 1)
          (imk_digest (act_to a)) i.
Proof.
  unfold transition, closes_tenure. split.
  - intros Ht. reg_inv. split_and!; try done. by eexists.
  - intros (-> & -> & Ht & He & i & Hi & Hn). simpl. rewrite Ht, Z.eqb_refl, bool_decide_true by done.
    simpl. rewrite Hi. simpl. destruct t; simpl in *. by rewrite Hn, Ht.
Qed.

Lemma apply_activated_ok f a f' :
  apply_activated f a = Ok f' <->
  exists p t, fold_policy f = Some p /\ policy_policy_digest p = act_policy_digest a
    /\ transition p (fold_state f) a = Ok t
    /\ act_activation_ordinal a = saturating_add (rst_activation_ordinal (fold_state f)) 1
    /\ f' = MkFold (state_activate (fold_state f) a (tr_next t)) (Some p).
Proof.
  unfold apply_activated. split.
  - intros Ha. reg_inv. destruct (fold_policy f) as [p|]; [|done].
    case_bool_decide; simplify_eq. by eexists _, _.
  - intros (p & t & -> & Hd & Ht & Ho & ->). rewrite bool_decide_true by done. simpl.
    rewrite Ht. simpl. by rewrite Ho, Z.eqb_refl.
Qed.

Lemma activate_wf f a f' : fold_wf f -> activated_valid a = true -> apply_activated f a = Ok f' -> fold_wf f'.
Proof.
  intros Hwf Hv Ha. apply apply_activated_ok in Ha as (p & t & Hp & Hd & Ht & Ho & ->).
  apply transition_ok in Ht as (Hcur & Hent & Hten & Heff & i & Hi & Hnext).
  pose proof (find_entry (policy_entries p) (act_entry_key a)) as Hf. rewrite Hent in Hf.
  destruct Hf as [He Hk]. destruct (fw_current _ Hwf _ Hp) as [Hpv Hpd].
  apply chain_index_spec in Hi as [Hi0 Hi].
  split; cbn [fold_policy fold_state state_activate rst_entries rst_policy_digest rst_activation_ordinal].
  - done.
  - by intros ? [= <-].
  - intros ? e [= <-] He'. destruct (decide (entry_entry_key e = act_entry_key a)) as [Hk'|Hne].
    + rewrite (entry_by_key _ e (tr_entry t) (policy_keys_NoDup _ Hpv) He' He) by congruence.
      exists (tr_next t). rewrite Hk, sm_get_insert_eq. split; [done|]. rewrite Hnext. by split.
    + rewrite sm_get_insert_ne by done. by apply (fw_entries _ Hwf p).
  - intros ? k st [= <-] Hst Hnin.
    assert (act_entry_key a <> k) by (intros <-; apply Hnin; rewrite <- Hk; by apply list_elem_of_fmap_2).
    rewrite sm_get_insert_ne in Hst by done. by apply (fw_frozen _ Hwf p k).
  - by apply sm_sorted_insert, Hwf.
  - intros k st Hst. destruct (decide (act_entry_key a = k)) as [<-|Hne].
    + by apply (fw_keys _ Hwf _ _ Hcur).
    + rewrite sm_get_insert_ne in Hst by done. by apply (fw_keys _ Hwf _ _ Hst).
  - rewrite Ho. apply saturating_add_1_ok, Hwf.
Qed.

Lemma apply_declared_ok f d p f' :
  apply_declared f d p = Ok f' <->
  declared_consistent (fold_state f) d p (rebased_entries (fold_state f)) = true
  /\ f' = MkFold (state_declare (fold_state f) p) (Some p).
Proof.
  unfold apply_declared. split; [intros Ha; by reg_inv|]. intros [-> ->]. done.
Qed.

Lemma declared_consistent_ok s d p r :
  declared_consistent s d p r = true <->
  declared_scope d = policy_scope p /\ declared_policy_digest d = policy_policy_digest p
  /\ declared_previous_policy_digest d = policy_previous_policy_digest p
  /\ declared_previous_policy_digest d = rst_policy_digest s
  /\ declared_rebased d = r /\ primary_mismatch s p = false.
Proof.
  unfold declared_consistent, payload_names_policy.
  rewrite !andb_true_iff, !bool_decide_eq_true, negb_true_iff. tauto.
Qed.

Lemma fold_event_wf reads scope f e f' : fold_wf f -> fold_event reads scope f e = Ok f' -> fold_wf f'.
Proof.
  intros Hwf. unfold fold_event. repeat case_bool_decide; [| |by intros [= <-]].
  - unfold fold_declared. intros Hf. apply rbind_ok_inv in Hf as (d & _ & Hf).
    destruct (negb _); [by injection Hf as <-|]. apply rbind_ok_inv in Hf as (p & Hp & Ha).
    apply load_policy_ok in Hp as (bytes & _ & Hdec & _). apply policy_decodes in Hdec as [Hv _].
    apply apply_declared_ok in Ha as [Hc ->]. apply declared_consistent_ok in Hc.
    apply declare_wf; tauto.
  - unfold fold_activated. intros Hf. apply rbind_ok_inv in Hf as (a & Ha & Hf). apply or_err_ok in Ha.
    destruct (negb _); [by injection Hf as <-|].
    apply activated_decodes in Ha as [Hv _]. by eapply activate_wf.
Qed.

Lemma try_fold_wf reads scope f h f' : fold_wf f -> try_fold reads scope f h = Ok f' -> fold_wf f'.
Proof.
  revert f. induction h as [|e h IH]; intros f Hwf Hf; simpl in Hf; ok_inv; [done|].
  eapply IH; [|done]. by eapply fold_event_wf.
Qed.

Lemma fold_timeline_wf reads scope tl f : fold_timeline reads scope tl = Ok f -> fold_wf f.
Proof. unfold fold_timeline. intros Hf. ok_inv. by eapply try_fold_wf, Hk; apply fold_wf_default. Qed.

(** ** Planning against a folded state *)

(** The entries a declaration re-bases are all the entries in a candidate
    tenure; none is dropped. *)
Lemma rebased_entries_all f :
  fold_wf f ->
  rebased_entries (fold_state f)
  = (fun e => MkRebased e.1 (es_effective_digest e.2))
    <$> List.filter (fun e => 0 <? es_chain_position e.2) (rst_entries (fold_state f)).
Proof.
  intros Hwf. unfold rebased_entries. pose proof (fw_sorted _ Hwf) as Hs. pose proof (fw_keys _ Hwf) as Hk.
  assert (Hall : Forall (fun e => entry_key_ok e.1 = true) (rst_entries (fold_state f))).
  { apply Forall_forall. intros [k st] Hin. apply sm_get_elem in Hin; [|done]. by eapply Hk. }
  clear Hs Hk. induction Hall as [|[k st] l Hkey _ IH]; simpl in *; [done|].
  destruct (0 <? es_chain_position st); simpl; [|done].
  rewrite (proj2 (rebased_new_ok k _ _) (conj eq_refl Hkey)). by f_equal.
Qed.

Lemma filter_fmap_sublist {A B} (g : A -> B) (P : A -> bool) l :
  sublist (g <$> List.filter P l) (g <$> l).
Proof. induction l as [|x l IH]; simpl; [done|]. destruct (P x); by constructor. Qed.

Lemma rebased_keys_in_policy f p k :
  fold_wf f -> fold_policy f = Some p ->
  k ∈ rebased_entry_key <$> rebased_entries (fold_state f) -> k ∈ entry_entry_key <$> policy_entries p.
Proof.
  intros Hwf Hp Hin. rewrite (rebased_entries_all _ Hwf), <- list_fmap_compose in Hin.
  apply list_elem_of_fmap in Hin as ([k' st] & -> & Hin). simpl. apply list_elem_of_In, filter_In in Hin as [Hin Hpos].
  apply list_elem_of_In, sm_get_elem in Hin; [|by apply Hwf]. simpl in Hpos.
  destruct (decide (k' ∈ entry_entry_key <$> policy_entries p)) as [|Hn]; [done|].
  rewrite (fw_frozen _ Hwf _ _ _ Hp Hin Hn) in Hpos. done.
Qed.

Lemma rebased_entries_valid f : fold_wf f -> valid_rebased (rebased_entries (fold_state f)) = true.
Proof.
  intros Hwf. unfold valid_rebased.
  assert (Hsorted : strictly_sorted (rebased_entry_key <$> rebased_entries (fold_state f)) = true).
  { rewrite (rebased_entries_all _ Hwf), <- list_fmap_compose.
    apply windows_sorted_StronglySorted; [apply str_lt_trans|].
    eapply StronglySorted_sublist; [|exact (fw_sorted _ Hwf)]. apply filter_fmap_sublist. }
  rewrite Hsorted, andb_true_r. apply Z.leb_le. destruct (fold_policy f) as [p|] eqn:Hp.
  - destruct (fw_current _ Hwf _ Hp) as [Hv _]. unfold policy_valid, valid_entries in Hv.
    rewrite !andb_true_iff in Hv. destruct Hv as ((((_ & Hl & _) & _) & _) & _). apply Z.leb_le in Hl.
    transitivity (len (policy_entries p)); [|done].
    rewrite <- (len_fmap rebased_entry_key), <- (len_fmap entry_entry_key). unfold len.
    apply inj_le, submseteq_length, NoDup_submseteq; [by apply strictly_sorted_NoDup|].
    intros k. by apply rebased_keys_in_policy.
  - rewrite (fw_initial _ Hwf Hp). done.
Qed.

(** The payload of a declaration of [p] in state [s]. *)
Definition declared_payload p (s : FallbackRegistryStateV1) : FallbackDeclaredPayloadV1 :=
  MkDeclared (policy_scope p) (policy_policy_digest p) (policy_previous_policy_digest p)
    (rebased_entries s).

Lemma declared_payload_valid f p :
  fold_wf f -> policy_valid p = true -> declared_valid (declared_payload p (fold_state f)) = true.
Proof.
  intros Hwf Hp. unfold declared_valid. simpl. rewrite (rebased_entries_valid _ Hwf).
  unfold policy_valid in Hp. rewrite !andb_true_iff in Hp. destruct Hp as ((((-> & _) & _) & _) & _). simpl.
  apply forallb_forall. intros r Hr. rewrite (rebased_entries_all _ Hwf) in Hr.
  apply list_elem_of_In, list_elem_of_fmap in Hr as ([k st] & -> & Hin). simpl.
  apply list_elem_of_In, filter_In in Hin as [Hin _]. apply list_elem_of_In, sm_get_elem in Hin; [|by apply Hwf].
  by apply (fw_keys _ Hwf _ _ Hin).
Qed.

Lemma check_declaration_ok s p :
  check_declaration s p = Ok tt <->
  policy_previous_policy_digest p = rst_policy_digest s
  /\ (policy_previous_policy_digest p = None -> policy_entries p <> [])
  /\ primary_mismatch s p = false.
Proof.
  unfold check_declaration, policy_is_withdrawal. split.
  - intros Hc. reg_inv. split_and!; [done| |done]. intros Hn Hnil.
    rewrite Hn, Hnil in *. done.
  - intros (-> & Hne & ->). rewrite bool_decide_true by done. simpl.
    case_bool_decide; [|done]. destruct (policy_entries p); [naive_solver|done].
Qed.

(** Once its checks pass, a declaration always plans this commit. *)
Lemma declare_fresh_exact w found p r :
  fold_wf (cur_fold found) -> policy_valid p = true ->
  declare_fresh w found p r
  = let s := fold_state (cur_fold found) in
    let? _ := check_declaration s p in
    Ok (parts_commit (write_parts w found (policy_policy_digest p))
          (MkFold (state_declare s p) (Some p))
          (fallback_draft (target_entity (w_target w)) COMPOSITION_FALLBACK_DECLARED_EVENT_TYPE_V1
             (declared_to_canonical_cbor (declared_payload p s)))
          (Declaration (conformance_digest_of (dreq_conformance r)))
          (Some (policy_policy_digest p, dreq_policy_bytes r))).
Proof.
  intros Hwf Hp. unfold declare_fresh. cbv zeta.
  destruct (check_declaration _ p) as [[]|] eqn:Hc; [|done]. simpl.
  pose proof (declared_payload_valid _ _ Hwf Hp) as Hv. apply declared_valid_spec in Hv as [Hn _].
  unfold declared_for_policy. simpl in Hn. rewrite Hn. simpl.
  rewrite (proj2 (apply_declared_ok (cur_fold found) (declared_payload p (fold_state (cur_fold found))) p
    (MkFold (state_declare (fold_state (cur_fold found)) p) (Some p)))); [done|]. split; [|done].
  apply declared_consistent_ok. simpl. apply check_declaration_ok in Hc. naive_solver.
Qed.

(** Once its checks pass, an activation always plans this commit. *)
Lemma activate_fresh_exact w found r :
  fold_wf (cur_fold found) ->
  activate_fresh w found r
  = let s := fold_state (cur_fold found) in
    let? p := ok_or (fold_policy (cur_fold found)) UnknownEntry in
    let a := activation_input r (policy_policy_digest p) (rst_activation_ordinal s) in
    let? _ := map_err InvalidRecord (activated_new a) in
    let? t := transition p s a in
    let? _ := check_rules t a in
    Ok (parts_commit (write_parts w found (policy_policy_digest p))
          (MkFold (state_activate s a (tr_next t)) (Some p))
          (fallback_draft (target_entity (w_target w)) COMPOSITION_FALLBACK_ACTIVATED_EVENT_TYPE_V1
             (activated_to_canonical_cbor a))
          (Activation (areq_entry_key r) (areq_closing_tenure_ordinal r)
             (saturating_add (rst_activation_ordinal s) 1) (areq_tick r)) None).
Proof.
  intros Hwf. unfold activate_fresh. cbv zeta.
  destruct (fold_policy (cur_fold found)) as [p|] eqn:Hp; [|done]. simpl.
  destruct (activated_new _) as [a|e] eqn:Ha; [|done]. simpl. apply activated_new_ok in Ha as [-> _].
  destruct (transition p _ _) as [t|e] eqn:Ht; [|done]. simpl.
  destruct (check_rules t _) as [[]|e]; [|done]. simpl.
  erewrite (proj2 (apply_activated_ok (cur_fold found) _ _)); [done|]. exists p, t. by split_and!.
Qed.

(** ** The counting specification *)

(** The registry operation of [scope] an Event records: a declaration
    ([Some None]) or an activation of an entry ([Some (Some key)]). *)
Definition recorded_operation scope (e : Event) : option (option RString) :=
  if bool_decide (ev_event_type e = COMPOSITION_FALLBACK_DECLARED_EVENT_TYPE_V1)
  then match declared_from_canonical_cbor (ev_payload e) with
       | Ok d => if bool_decide (declared_scope d = scope) then Some None else None
       | Err _ => None
       end
  else if bool_decide (ev_event_type e = COMPOSITION_FALLBACK_ACTIVATED_EVENT_TYPE_V1)
  then match activated_from_canonical_cbor (ev_payload e) with
       | Ok a => if bool_decide (act_scope a = scope) then Some (Some (act_entry_key a)) else None
       | Err _ => None
       end
  else None.

Definition recorded scope (h : list Event) : list (option RString) := omap (recorded_operation scope) h.

(** How many recorded operations satisfy [P], capped at [u64::MAX]. *)
Definition capped_count (P : option RString -> bool) (ops : list (option RString)) : Z :=
  Z.min (len (List.filter P ops)) U64_MAX.

Definition is_activation (o : option RString) : bool := bool_decide (is_Some o).

Record counts (ops : list (option RString)) (s : FallbackRegistryStateV1) : Prop := {
  ct_revision : rst_state_revision s = capped_count (fun _ => true) ops;
  ct_ordinal : rst_activation_ordinal s = capped_count is_activation ops;
  ct_tenure k st : sm_get k (rst_entries s) = Some st ->
    es_tenure_ordinal st = capped_count (fun o => bool_decide (o = Some k)) ops;
  ct_unrecorded k : sm_get k (rst_entries s) = None -> Some k ∉ ops;
}.

Lemma capped_count_snoc P ops o :
  capped_count P (ops ++ [o]) = if P o then saturating_add (capped_count P ops) 1 else capped_count P ops.
Proof.
  unfold capped_count, saturating_add. rewrite List.filter_app. simpl. destruct (P o); len_lia.
Qed.

Lemma capped_count_absent k ops :
  Some k ∉ ops -> capped_count (fun o => bool_decide (o = Some k)) ops = 0.
Proof.
  intros Hk. unfold capped_count. replace (List.filter _ ops) with (@nil (option RString)); [done|].
  induction ops as [|o ops IH]; simpl; [done|]. rewrite bool_decide_false by set_solver. apply IH. set_solver.
Qed.

Lemma counts_declare ops s p : counts ops s -> counts (ops ++ [None]) (state_declare s p).
Proof.
  intros [Hr Ho Ht Hu]. split.
  - rewrite capped_count_snoc, <- Hr. done.
  - rewrite capped_count_snoc. done.
  - intros k st. rewrite declare_get, capped_count_snoc. simpl.
    destruct (sm_get k (rst_entries s)) as [st'|] eqn:Hk; simpl.
    + intros [= <-]. simpl. by apply Ht.
    + intros Hf. apply fmap_Some in Hf as (e & _ & ->). simpl. by rewrite capped_count_absent by auto.
  - intros k. rewrite declare_get. destruct (sm_get k (rst_entries s)) eqn:Hk; [done|]. intros _.
    specialize (Hu k Hk). set_solver.
Qed.

Lemma counts_activate ops s p a t :
  counts ops s -> transition p s a = Ok t ->
  act_activation_ordinal a = saturating_add (rst_activation_ordinal s) 1 ->
  counts (ops ++ [Some (act_entry_key a)]) (state_activate s a (tr_next t)).
Proof.
  intros [Hr Ho Ht Hu] Htr Hord. apply transition_ok in Htr as (Hcur & _ & _ & _ & i & _ & Hn). split; simpl.
  - by rewrite capped_count_snoc, <- Hr.
  - rewrite capped_count_snoc, <- Ho, Hord. done.
  - intros k st. rewrite capped_count_snoc. destruct (decide (act_entry_key a = k)) as [<-|Hne].
    + rewrite sm_get_insert_eq, bool_decide_true by done. intros [= <-]. rewrite Hn. simpl.
      by rewrite (Ht _ _ Hcur).
    + rewrite sm_get_insert_ne, bool_decide_false by congruence. by apply Ht.
  - intros k. destruct (decide (act_entry_key a = k)) as [<-|Hne]; [by rewrite sm_get_insert_eq|].
    rewrite sm_get_insert_ne by done. intros Hk. specialize (Hu k Hk). set_solver.
Qed.

Lemma counts_event reads scope f e f' ops :
  counts ops (fold_state f) -> fold_event reads scope f e = Ok f' ->
  counts (ops ++ option_list (recorded_operation scope e)) (fold_state f').
Proof.
  intros Hc. unfold fold_event, recorded_operation. repeat case_bool_decide.
  - unfold fold_declared. destruct (declared_from_canonical_cbor _) as [d|]; simpl; [|done].
    case_bool_decide; simpl; [|intros [= <-]; by rewrite app_nil_r].
    intros Hf. apply rbind_ok_inv in Hf as (p & _ & Ha). apply apply_declared_ok in Ha as [_ ->].
    by apply counts_declare.
  - unfold fold_activated. destruct (activated_from_canonical_cbor _) as [a|]; simpl; [|done].
    case_bool_decide; simpl; [|intros [= <-]; by rewrite app_nil_r].
    intros Ha. apply apply_activated_ok in Ha as (p & t & _ & _ & Ht & Ho & ->). by eapply counts_activate.
  - intros [= <-]. simpl. by rewrite app_nil_r.
Qed.

Lemma try_fold_counts reads scope f h f' ops :
  counts ops (fold_state f) -> try_fold reads scope f h = Ok f' ->
  counts (ops ++ recorded scope h) (fold_state f').
Proof.
  revert f ops. induction h as [|e h IH]; intros f ops Hc Hf; simpl in Hf; ok_inv.
  - by rewrite app_nil_r.
  - pose proof (counts_event _ _ _ _ _ _ Hc Hm) as Hc'. specialize (IH _ _ Hc' Hk).
    rewrite <- app_assoc in IH. unfold recorded in *. simpl.
    by destruct (recorded_operation scope e).
Qed.

Lemma counts_default : counts [] registry_state_default.
Proof. split; simpl; try done. set_solver. Qed.

(** ** Properties *)

(** Folded states are sound.  Whatever an adapter's reads return, a state the
    fold accepts records every entry of the current policy on one of its
    declared implementations, at the chain position it says; entries outside
    the current policy sit at position 0; the recorded policy digest is the
    current policy's; keys are sorted and well-formed. *)
Theorem folded_state_sound reads scope tl f : fold_timeline reads scope tl = Ok f -> fold_wf f.
Proof. apply fold_timeline_wf. Qed.

(** The counters count.  The folded revision is the number of the scope's
    declarations and activations on the Timeline, the activation ordinal the
    number of its activations, and every entry's tenure ordinal the number of
    activations of that entry (each capped at [u64::MAX]). *)
Theorem fold_counts_operations reads scope tl evs f :
  timeline_events reads tl = Ok evs -> fold_timeline reads scope tl = Ok f ->
  counts (recorded scope evs) (fold_state f).
Proof.
  intros Hevs Hf. unfold fold_timeline in Hf. rewrite Hevs in Hf. cbn [rbind] in Hf.
  exact (try_fold_counts reads scope fold_default evs f [] counts_default Hf).
Qed.

(** Re-basing is complete.  For a folded state and any valid policy, the
    declaration payload can always be built, it lists every entry in a
    candidate tenure with its effective implementation and no other, and it
    decodes from its own encoding. *)
Theorem rebasing_complete reads scope tl f p :
  fold_timeline reads scope tl = Ok f -> policy_valid p = true ->
  exists d, declared_for_policy p (rebased_entries (fold_state f)) = Ok d
    /\ declared_from_canonical_cbor (declared_to_canonical_cbor d) = Ok d
    /\ forall k i, MkRebased k i ∈ declared_rebased d <->
         exists st, sm_get k (rst_entries (fold_state f)) = Some st
           /\ 0 < es_chain_position st /\ es_effective_digest st = i.
Proof.
  intros Hf Hp. apply fold_timeline_wf in Hf as Hwf. exists (declared_payload p (fold_state f)).
  pose proof (declared_payload_valid _ _ Hwf Hp) as Hv. split_and!.
  - by apply declared_valid_spec in Hv as [Hn _].
  - by apply declared_decodes.
  - intros k i. cbn [declared_payload declared_rebased]. rewrite (rebased_entries_all _ Hwf), list_elem_of_fmap.
    setoid_rewrite list_elem_of_In. setoid_rewrite filter_In. setoid_rewrite <- list_elem_of_In.
    setoid_rewrite Z.ltb_lt. split.
    + intros ([k' st] & [= -> ->] & Hin & Hpos). apply sm_get_elem in Hin; [|by apply Hwf]. by exists st.
    + intros (st & Hst & Hpos & <-). exists (k, st). split; [done|]. split; [|done].
      by apply sm_get_elem; [apply Hwf|].
Qed.
End Fold.
