(* ===== verification/FallbackInvariant.v ===== *)
(** * The registry invariant

    [registry_ok_off] says what the registry tables of a [MemoryStore] mean: every
    row is the fold of its Timeline's Events, every ledger row names a real
    Event, keys are used once, and retained policies decode to their digests; the
    first for the Timelines nobody disturbed.  [registry_ok] is the case in which
    there is no other.  Every registry write preserves it. *)

From Stdlib Require Import String ZArith Lia Bool Sorting.Sorted.
From S2P Require Import Prelude Text SortedMap Cbor FallbackRecords FallbackPolicy FallbackPayload.
From S2P Require Import ErasureGate Events EventStore StoreHistory StoreCorrect StoreProperties.
From S2P Require Import FallbackRegistry FallbackFold.

Local Open Scope Z_scope.

(** The key a ledger row occupies: a policy digest or a closed tenure. *)
Definition ledger_key (r : FallbackLedgerRowV1) : Hash + RString * Z :=
  match lr_body r with
  | Declaration _ => inl (lr_policy_digest r)
  | Activation key closing _ _ => inr (key, closing)
  end.

Lemma declares_key r d : declares r d = true <-> ledger_key r = inl d.
Proof.
  unfold declares, ledger_key. destruct (lr_body r); [rewrite bool_decide_eq_true|]; naive_solver.
Qed.

Lemma closes_key r k c : closes r k c = true <-> ledger_key r = inr (k, c).
Proof.
  unfold closes, ledger_key. destruct (lr_body r); [naive_solver|].
  rewrite andb_true_iff, bool_decide_eq_true, Z.eqb_eq. naive_solver.
Qed.

Definition body_event_type (b : FallbackLedgerBodyV1) : RString :=
  match b with
  | Declaration _ => COMPOSITION_FALLBACK_DECLARED_EVENT_TYPE_V1
  | Activation _ _ _ _ => COMPOSITION_FALLBACK_ACTIVATED_EVENT_TYPE_V1
  end.

Section Invariant.
Context `{Blake3} `{Hasher} `{UlidText}.
Implicit Types (m : MemoryStore) (scope : RString) (tl : TimelineId) (h : list Event).

(** A ledger row names an Event of the history by position, id, author, type
    and payload digest. *)
Definition names_event h (r : FallbackLedgerRowV1) : Prop :=
  exists e, h !! Z.to_nat (fei_seq (lr_event r) - 1) = Some e /\ 1 <= fei_seq (lr_event r)
    /\ ev_id e = fei_event_id (lr_event r) /\ ev_entity e = lr_entity r
    /\ ev_event_type e = body_event_type (lr_body r)
    /\ blake3 (ev_payload e) = fei_payload_digest (lr_event r).

Record ledger_ok h (row : FallbackRegistryRowV1) (rows : list FallbackLedgerRowV1) : Prop := {
  lk_last : last (lr_state_revision <$> rows) = Some (rst_state_revision (row_state row));
  lk_entity : Forall (fun r => lr_entity r = row_entity row) rows;
  lk_numbered i r : rows !! i = Some r -> lr_row_seq r = Z.min (Z.of_nat i + 1) U64_MAX;
  lk_unique : NoDup (ledger_key <$> rows);
  lk_events : Forall (names_event h) rows;
}.

(** The row of (scope, Timeline) is the fold of the Timeline. *)
Definition row_ok m scope tl (row : FallbackRegistryRowV1) : Prop :=
  exists h f, history (st_timelines (ms_store m)) tl h
    /\ try_fold (memory_view m) scope fold_default h = Ok f
    /\ fold_state f = row_state row /\ ledger_ok h row (ledger (ms_fallback m) scope tl).

(** The tables outside the Timelines of [disturbed]: there every row is the
    fold of its Timeline, and every Timeline folds.  The store, the retained
    policies and the absent rows are right everywhere. *)
Record registry_ok_off (disturbed : TimelineId -> Prop) m : Prop := {
  off_store : store_ok (ms_store m);
  off_policies d bytes : fs_policies (ms_fallback m) !! d = Some bytes ->
    exists p, policy_from_canonical_cbor bytes = Ok p /\ policy_policy_digest p = d;
  off_absent scope tl : fs_rows (ms_fallback m) !! (scope, tl) = None ->
    ledger (ms_fallback m) scope tl = [];
  off_rows scope tl row : ~ disturbed tl -> fs_rows (ms_fallback m) !! (scope, tl) = Some row ->
    is_Some (st_timelines (ms_store m) !! tl) -> row_ok m scope tl row;
  off_folds scope tl h : ~ disturbed tl -> history (st_timelines (ms_store m)) tl h ->
    exists f, try_fold (memory_view m) scope fold_default h = Ok f;
}.

(** No Timeline is disturbed. *)
Definition undisturbed (x : TimelineId) : Prop := False.

Definition registry_ok m : Prop := registry_ok_off undisturbed m.

Lemma ro_store m : registry_ok m -> store_ok (ms_store m).
Proof. apply off_store. Qed.

Lemma ro_rows m (Hok : registry_ok m) scope tl row :
  fs_rows (ms_fallback m) !! (scope, tl) = Some row ->
  is_Some (st_timelines (ms_store m) !! tl) -> row_ok m scope tl row.
Proof. apply (off_rows _ _ Hok). intros []. Qed.

Lemma ro_folds m (Hok : registry_ok m) scope tl h :
  history (st_timelines (ms_store m)) tl h ->
  exists f, try_fold (memory_view m) scope fold_default h = Ok f.
Proof. apply (off_folds _ _ Hok). intros []. Qed.

Lemma registry_ok_off_weaken (D D' : TimelineId -> Prop) m :
  (forall x, D x -> D' x) -> registry_ok_off D m -> registry_ok_off D' m.
Proof. intros Hsub [Hs Hp Ha Hr Hf]. split; eauto. Qed.

Lemma names_event_app h new r : names_event h r -> names_event (h ++ new) r.
Proof. intros (e & He & ?). exists e. split; [by apply lookup_app_l_Some|done]. Qed.

Lemma ledger_ok_app h new row rows : ledger_ok h row rows -> ledger_ok (h ++ new) row rows.
Proof.
  intros []. split; try done. eapply Forall_impl; [done|]. intros r. apply names_event_app.
Qed.

(** ** The view of a store *)

Lemma timeline_events_history m tl h :
  store_ok (ms_store m) -> history (st_timelines (ms_store m)) tl h ->
  timeline_events (memory_view m) tl = Ok (renumber h).
Proof.
  intros [Hwf _] Hh. simpl. rewrite (collect_history _ _ _ _ Hwf Hh). simpl. by rewrite renumber_read_all.
Qed.

Lemma fold_timeline_history m scope tl h :
  store_ok (ms_store m) -> history (st_timelines (ms_store m)) tl h ->
  fold_timeline (memory_view m) scope tl = try_fold (memory_view m) scope fold_default h.
Proof.
  intros Hok Hh. unfold fold_timeline. rewrite (timeline_events_history _ _ _ Hok Hh). simpl.
  apply try_fold_renumber.
Qed.

Lemma fold_timeline_inv m scope tl f :
  store_ok (ms_store m) -> fold_timeline (memory_view m) scope tl = Ok f ->
  exists h, history (st_timelines (ms_store m)) tl h
    /\ try_fold (memory_view m) scope fold_default h = Ok f.
Proof.
  intros Hok Hf. pose proof Hf as Hf'. unfold fold_timeline in Hf'.
  apply rbind_ok_inv in Hf' as (evs & Hevs & _). simpl in Hevs. apply or_err_ok in Hevs.
  destruct Hok as [Hwf Hch]. destruct (collect_inv _ _ _ _ Hwf Hevs) as (h & Hh & _).
  exists h. split; [done|]. by rewrite <- (fold_timeline_history m scope tl h).
Qed.

Lemma check_row_ok stored rows s entity :
  check_row stored rows s entity = Ok tt <->
  match stored with
  | None => rows = []
  | Some row => row_state row = s /\ row_entity row = entity
      /\ (forall z, last (lr_state_revision <$> rows) = Some z -> z = rst_state_revision s)
  end.
Proof.
  unfold check_row. destruct stored as [row|].
  - split.
    + intros Hc. reg_inv. split_and!; [done|done|]. intros z Hz. rewrite Hz in *. lia.
    + intros (-> & -> & Hz). rewrite !bool_decide_true by done. simpl.
      destruct (last _) as [z|]; [|done]. rewrite (Hz z), Z.eqb_refl by done. done.
  - destruct rows as [|r rows]; [done|]. rewrite reg_require_ok, Z.eqb_eq. split; [|done]. len_lia.
Qed.

(** What planning learns about the committed state. *)
Lemma current_off_inv D m scope target found :
  registry_ok_off D m -> current (memory_view m) scope target = Ok found ->
  exists h, history (st_timelines (ms_store m)) (target_timeline target) h
    /\ try_fold (memory_view m) scope fold_default h = Ok (cur_fold found)
    /\ cur_ledger found = ledger (ms_fallback m) scope (target_timeline target)
    /\ forall row, fs_rows (ms_fallback m) !! (scope, target_timeline target) = Some row ->
         row_entity row = target_entity target
         /\ row_state row = fold_state (cur_fold found)
         /\ (~ D (target_timeline target) -> ledger_ok h row (cur_ledger found)).
Proof.
  intros Hok Hc. unfold current in Hc. cbn [memory_view stored_row stored_ledger rbind] in Hc.
  apply rbind_ok_inv in Hc as (f & Hf & Hc). apply rbind_ok_inv in Hc as ([] & Hrow & [= <-]).
  destruct (fold_timeline_inv _ _ _ _ (off_store _ _ Hok) Hf) as (h & Hh & Hfold).
  exists h. cbn [cur_fold cur_ledger]. split_and!; [done|done|done|]. intros row Hr. rewrite Hr in Hrow.
  apply check_row_ok in Hrow as (Hs & He & _). split_and!; [done|done|]. intros Hd.
  destruct (off_rows _ _ Hok _ _ _ Hd Hr (history_state _ _ _ Hh)) as (h' & f' & Hh' & _ & _ & Hl).
  by rewrite (history_deterministic _ _ _ _ Hh Hh').
Qed.

Lemma current_inv m scope target found :
  registry_ok m -> current (memory_view m) scope target = Ok found ->
  exists h, history (st_timelines (ms_store m)) (target_timeline target) h
    /\ try_fold (memory_view m) scope fold_default h = Ok (cur_fold found)
    /\ cur_ledger found = ledger (ms_fallback m) scope (target_timeline target)
    /\ forall row, fs_rows (ms_fallback m) !! (scope, target_timeline target) = Some row ->
         row_entity row = target_entity target
         /\ row_state row = fold_state (cur_fold found) /\ ledger_ok h row (cur_ledger found).
Proof.
  intros Hok Hc. destruct (current_off_inv _ _ _ _ _ Hok Hc) as (h & ? & ? & ? & Hrow). exists h.
  split_and!; [done..|]. intros row Hr. destruct (Hrow _ Hr) as (? & ? & Hl). split_and!; [done..|]. apply Hl. intros [].
Qed.

(** The replay search fails exactly when the key is free. *)
Lemma find_none_key occupies (key : Hash + RString * Z) rows :
  (forall r, occupies r = true <-> ledger_key r = key) ->
  List.find occupies rows = None -> key ∉ ledger_key <$> rows.
Proof.
  intros Ho Hf Hin. apply list_elem_of_fmap in Hin as (r & -> & Hr). apply list_elem_of_In in Hr.
  pose proof (find_none _ _ Hf _ Hr) as Hn. simpl in Hn. rewrite (proj2 (Ho r) eq_refl) in Hn. done.
Qed.

(** ** Commits *)

(** The new policy of a commit, as the reads after it see it. *)
Definition policy_retained (c : FallbackCommitV1) (reads : FallbackReadsV1) : Prop :=
  match commit_policy c with
  | Some (d, bytes) => stored_policy reads d = Ok (Some bytes)
  | None => True
  end.

Definition event_of_draft (d : EventDraft) (e : Event) : Prop :=
  ev_event_type e = draft_event_type d /\ ev_payload e = draft_payload d
  /\ ev_entity e = draft_entity d.

(** A commit planned against [found] whose Event folds [found] to [f']. *)
Record commit_sound scope target (found : CurrentV1) (c : FallbackCommitV1) (f' : FallbackFoldV1)
    : Prop := {
  cs_row : commit_row c = MkRow (target_entity target) (fold_state f');
  cs_seq : commit_row_seq c = saturating_add (len (cur_ledger found)) 1;
  cs_free ev : ledger_key (ledger_row c ev) ∉ ledger_key <$> cur_ledger found;
  cs_policy d bytes : commit_policy c = Some (d, bytes) ->
    exists p, policy_from_canonical_cbor bytes = Ok p /\ policy_policy_digest p = d;
  cs_draft : draft_entity (commit_draft c) = target_entity target
    /\ draft_event_type (commit_draft c) = body_event_type (commit_body c);
  cs_fold reads e : event_of_draft (commit_draft c) e -> policy_retained c reads ->
    fold_event reads scope (cur_fold found) e = Ok f';
  cs_other reads e scope' f : event_of_draft (commit_draft c) e -> scope' <> scope ->
    fold_event reads scope' f e = Ok f;
}.

Lemma plan_commit_inv w reads occupies fresh c :
  plan w reads occupies fresh = Ok (Commit c) ->
  exists found, current reads (w_scope w) (w_target w) = Ok found
    /\ List.find occupies (cur_ledger found) = None
    /\ w_expected_state_revision w = rst_state_revision (fold_state (cur_fold found))
    /\ timeline_head reads (target_timeline (w_target w)) = Ok (w_expected_logical_head w)
    /\ fresh found = Ok (Commit c).
Proof.
  unfold plan. intros Hp. apply rbind_ok_inv in Hp as (found & Hc & Hp). exists found.
  destruct (List.find occupies (cur_ledger found)) as [r|] eqn:Hf.
  - unfold replay in Hp. reg_inv. done.
  - apply rbind_ok_inv in Hp as ([] & Hfr & Hp). unfold check_fresh in Hfr.
    apply rbind_ok_inv in Hfr as ([] & Hrev & Hfr). apply rbind_ok_inv in Hfr as (head & Hh & Hfr).
    apply reg_require_ok, Z.eqb_eq in Hrev, Hfr. subst head. done.
Qed.

Ltac cbn_commit :=
  cbn [commit_row commit_policy commit_draft commit_row_seq commit_policy_digest commit_request_digest
       commit_body ledger_row lr_body lr_policy_digest fallback_draft draft_new draft_event_type
       draft_payload draft_entity parts_commit write_parts parts_entity parts_row_seq
       parts_policy_digest parts_request_digest w_target w_request_digest policy_retained
       body_event_type ledger_key] in *.

(** A declaration commit is sound. *)
Lemma plan_declare_sound m r c :
  plan_declare (memory_view m) r = Ok (Commit c) ->
  exists found p, current (memory_view m) (dreq_scope r) (dreq_target r) = Ok found
    /\ policy_from_canonical_cbor (dreq_policy_bytes r) = Ok p
    /\ check_declaration (fold_state (cur_fold found)) p = Ok tt
    /\ commit_policy c = Some (policy_policy_digest p, dreq_policy_bytes r)
    /\ commit_request_digest c = declare_request_digest (target_entity (dreq_target r)) (dreq_conformance r)
    /\ commit_policy_digest c = policy_policy_digest p
    /\ commit_body c = Declaration (conformance_digest_of (dreq_conformance r))
    /\ commit_sound (dreq_scope r) (dreq_target r) found c
         (MkFold (state_declare (fold_state (cur_fold found)) p) (Some p)).
Proof.
  intros Hp. unfold plan_declare in Hp. apply rbind_ok_inv in Hp as (p & Hdec & Hp).
  apply map_err_ok_inv in Hdec. apply rbind_ok_inv in Hp as ([] & Hsc & Hp). apply reg_require_ok, bool_decide_eq_true in Hsc.
  apply plan_commit_inv in Hp as (found & Hcur & Hfind & _ & _ & Hfresh).
  cbn [w_scope w_target] in *. exists found, p. split; [done|]. split; [done|].
  pose proof Hdec as Hpv. apply policy_decodes in Hpv as [Hpv _].
  assert (Hwf : fold_wf (cur_fold found)).
  { unfold current in Hcur. reg_inv. by eapply fold_timeline_wf. }
  rewrite declare_fresh_exact in Hfresh by done. cbv zeta in Hfresh.
  apply rbind_ok_inv in Hfresh as ([] & Hchk & [= <-]). split_and!; try done.
  split; cbn_commit; try done.
  - intros _. eapply find_none_key; [|done]. intros row. apply declares_key.
  - intros d bytes [= <- <-]. by exists p.
  - intros reads e (Ht & Hpay & _) Hret. cbn_commit.
    rewrite (fold_declared_event _ _ _ _ _ Ht Hpay) by (by apply declared_payload_valid).
    cbn [declared_scope declared_policy_digest declared_payload]. rewrite decide_True by done.
    rewrite (proj2 (load_policy_ok reads (policy_policy_digest p) p)) by (by exists (dreq_policy_bytes r)).
    simpl. apply apply_declared_ok. split; [|done]. apply declared_consistent_ok. simpl.
    apply check_declaration_ok in Hchk. naive_solver.
  - intros reads e scope' f (Ht & Hpay & _) Hne. cbn_commit.
    rewrite (fold_declared_event _ _ _ _ _ Ht Hpay) by (by apply declared_payload_valid).
    cbn [declared_scope declared_payload]. rewrite decide_False by congruence. done.
Qed.

(** The activation rules, as a specification. *)
Definition origin_permitted (t : TransitionV1) (origin : FallbackActivationOriginV1) : Prop :=
  origin = OriginAutomatic ->
  entry_activation_mode (tr_entry t) = ModeAutomatic
  /\ es_chain_position (tr_current t) < es_chain_position (tr_next t).

Definition trigger_permitted (t : TransitionV1) (trigger : FallbackTriggerCodeV1) : Prop :=
  es_chain_position (tr_next t) = 0 \/ trigger ∈ entry_triggers (tr_entry t).

Definition skipped_permitted (t : TransitionV1) (to : Hash) (s : FallbackSkippedCandidateV1) : Prop :=
  skipped_implementation_digest s <> to
  /\ skipped_implementation_digest s ∈ drop 1 (implementations (tr_entry t)).

Lemma check_origin_ok t origin : check_origin t origin = Ok tt <-> origin_permitted t origin.
Proof.
  unfold check_origin, origin_permitted. destruct origin; [|naive_solver].
  destruct (bool_decide_reflect (entry_activation_mode (tr_entry t) = ModeAutomatic)); simpl;
    [rewrite reg_require_ok, Z.ltb_lt|]; naive_solver.
Qed.

Lemma trigger_rule t trigger :
  (es_chain_position (tr_next t) =? 0)
  || existsb (fun c => bool_decide (c = trigger)) (entry_triggers (tr_entry t)) = true
  <-> trigger_permitted t trigger.
Proof.
  unfold trigger_permitted. rewrite orb_true_iff, Z.eqb_eq, existsb_exists, list_elem_of_In.
  setoid_rewrite bool_decide_eq_true. naive_solver.
Qed.

Lemma skipped_rule t to skipped :
  forallb (fun s => negb (bool_decide (skipped_implementation_digest s = to))
                    && is_candidate (tr_entry t) (skipped_implementation_digest s)) skipped = true
  <-> Forall (skipped_permitted t to) skipped.
Proof.
  rewrite forallb_forall, Forall_forall. unfold is_candidate, skipped_permitted.
  setoid_rewrite list_elem_of_In. setoid_rewrite andb_true_iff. setoid_rewrite negb_true_iff.
  setoid_rewrite bool_decide_eq_false. setoid_rewrite existsb_exists.
  setoid_rewrite bool_decide_eq_true. naive_solver.
Qed.

Lemma check_rules_ok t a :
  check_rules t a = Ok tt <->
  origin_permitted t (basis_origin (act_trigger_basis a)) /\ trigger_permitted t (act_trigger_code a)
  /\ Forall (skipped_permitted t (imk_digest (act_to a))) (act_skipped a).
Proof.
  unfold check_rules. cbv zeta. rewrite <- check_origin_ok, <- trigger_rule, <- skipped_rule. split.
  - intros Hc. apply rbind_ok_inv in Hc as ([] & Ho & Hc). apply rbind_ok_inv in Hc as ([] & Ht & Hs).
    by apply reg_require_ok in Ht, Hs.
  - intros (-> & -> & ->). done.
Qed.

(** The values a Rust [FallbackActivateRequestV1] can hold. *)
Definition activate_request_typed (r : FallbackActivateRequestV1) : bool :=
  count_within (areq_closing_tenure_ordinal r) 0 U64_MAX
  && count_within (basis_cause (areq_trigger_basis r)) 0 U16_MAX
  && imk_valid (areq_from r) && imk_valid (areq_to r).

(** An activation commit is sound. *)
Lemma plan_activate_sound m r c :
  activate_request_typed r = true -> plan_activate (memory_view m) r = Ok (Commit c) ->
  exists found p t, current (memory_view m) (areq_scope r) (areq_target r) = Ok found
    /\ fold_policy (cur_fold found) = Some p
    /\ let s := fold_state (cur_fold found) in
       let a := activation_input r (policy_policy_digest p) (rst_activation_ordinal s) in
       transition p s a = Ok t /\ check_rules t a = Ok tt
       /\ commit_policy c = None
       /\ commit_request_digest c = activate_request_digest r
       /\ commit_policy_digest c = policy_policy_digest p
       /\ commit_body c = Activation (areq_entry_key r) (areq_closing_tenure_ordinal r)
            (saturating_add (rst_activation_ordinal s) 1) (areq_tick r)
       /\ commit_sound (areq_scope r) (areq_target r) found c
            (MkFold (state_activate s a (tr_next t)) (Some p)).
Proof.
  intros Hty Hp. apply plan_commit_inv in Hp as (found & Hcur & Hfind & _ & _ & Hfresh).
  cbn [w_scope w_target] in *.
  assert (Hwf : fold_wf (cur_fold found)).
  { unfold current in Hcur. reg_inv. by eapply fold_timeline_wf. }
  rewrite activate_fresh_exact in Hfresh by done. cbv zeta in Hfresh.
  apply rbind_ok_inv in Hfresh as (p & Hpol & Hfresh). apply ok_or_ok_inv in Hpol.
  apply rbind_ok_inv in Hfresh as (a' & Hnew & Hfresh). apply map_err_ok_inv in Hnew.
  apply rbind_ok_inv in Hfresh as (t & Ht & Hfresh). apply rbind_ok_inv in Hfresh as ([] & Hr & [= <-]).
  exists found, p, t. split; [done|]. split; [done|]. cbv zeta.
  set (a := activation_input r (policy_policy_digest p)
              (rst_activation_ordinal (fold_state (cur_fold found)))) in *.
  assert (Hv : activated_valid a = true).
  { apply activated_valid_spec. unfold activate_request_typed in Hty.
    rewrite !andb_true_iff, !count_within_spec in Hty. destruct Hty as (((? & ?) & ?) & ?).
    pose proof Hnew as Hnew'. apply activated_new_ok in Hnew' as [-> _].
    split_and!; try done. apply saturating_add_1_ok, Hwf. }
  split_and!; try done. split; cbn_commit; try done.
  - intros _. eapply find_none_key; [|done]. intros row. apply closes_key.
  - intros reads e (Hty' & Hpay & _) _. cbn_commit.
    rewrite (fold_activated_event _ _ _ _ _ Hty' Hpay Hv). rewrite decide_True by done.
    apply apply_activated_ok. exists p, t. by split_and!.
  - intros reads e scope' f (Hty' & Hpay & _) Hne. cbn_commit.
    rewrite (fold_activated_event _ _ _ _ _ Hty' Hpay Hv). rewrite decide_False; [done|]. intros Heq. by apply Hne.
Qed.

(** ** The guarded append of one Event *)

Lemma set_timelines_same s tl st : st_timelines s !! tl = Some st -> set_timelines (insert tl st) s = s.
Proof. intros Hst. unfold set_timelines. rewrite insert_id by done. by destruct s. Qed.

(** Appending one draft fails before it changes anything. *)
Lemma guarded_append_one_error s tl d s' e :
  guarded_generic_append s tl [d] = (s', Err e) -> s' = s.
Proof.
  unfold guarded_generic_append. destruct (rbind _ _) as [_|e0]; [|naive_solver].
  unfold append_visible, logical_prefix, timeline.
  destruct (st_timelines s !! tl) as [st|] eqn:Hst; simpl; [|naive_solver].
  unfold append_visible_with_prefix. destruct (try_for_each _ _) as [_|e0]; [|naive_solver].
  rewrite Hst. simpl. unfold append_one_to_state.
  destruct (prepare_one_for_state st d (st_key_registry s)) as [[ev ch]|e0] eqn:Hp; simpl.
  - unfold prepare_one_for_state, checked_logical_head in Hp. ok_inv. unfold logical_event. simpl.
    change (match meta_fork_point (tl_meta (ts_timeline st)) with Some (_, fork) => fork | None => 0 end)
      with (prefix_of st). rewrite Hm0. done.
  - intros [= <- _]. by apply set_timelines_same.
Qed.

Lemma guarded_append_one s tl d s' evs :
  store_ok s -> room s tl 1 -> guarded_generic_append s tl [d] = (s', Ok evs) ->
  store_ok s' /\ exists st st', st_timelines s !! tl = Some st
    /\ st_timelines s' = <[tl := st']> (st_timelines s)
    /\ fork_point_of st' = fork_point_of st
    /\ let e := committed_event tl (prefix_of st) (len (ts_events st) + 1) d in
       ts_events st' = ts_events st ++ [e]
       /\ evs = [with_seq (prefix_of st + len (ts_events st) + 1) e].
Proof.
  intros Hok Hroom Ha. split; [by eapply (guarded_append_store_ok s tl [d])|].
  destruct (guarded_append_spec s tl [d] _ _ Hok Hroom Ha)
    as [[_ [e He]]|(st & st' & new & Hst & Heq & Hex & _ & Hr)]; [done|].
  destruct (Hr _ eq_refl) as [-> Hm]. exists st, st'.
  split_and!; [done|done|by eapply extends_fork_point|]. cbv zeta.
  split; [by apply (ex_events _ _ _ _ Hex)|]. apply logical_events_spec in Hm. subst evs. simpl.
  do 2 f_equal. lia.
Qed.

Lemma append_fallback_event_error m tl draft id now m' e :
  append_fallback_event m tl draft id now = (m', Err e) -> m' = m.
Proof.
  unfold append_fallback_event. destruct (payload_digest _ _) as [d|e0]; [|naive_solver].
  destruct (guarded_generic_append _ _ _) as [s' r] eqn:Ha. intros [= <- He].
  assert (s' = ms_store m) as ->; [|by destruct m]. destruct r as [evs|e0]; [|by eapply guarded_append_one_error].
  exfalso. unfold guarded_generic_append in Ha. destruct (rbind _ _) in Ha; [|done].
  unfold append_visible, append_visible_with_prefix in Ha.
  repeat case_match; simplify_eq. simpl in *. unfold append_one_to_state in *.
  repeat case_match; simplify_eq/=. ok_inv. done.
Qed.

(** A refused registry write leaves the whole store unchanged. *)
Lemma fenced_error_unchanged m scope tl plan id now m' e :
  fenced_fallback_operation m scope tl plan id now = (m', Err e) -> m' = m.
Proof.
  unfold fenced_fallback_operation. destruct (require_provisioned _); [|naive_solver].
  destruct (with_erasure_fence_on _ _ _ _ m) as [m1 fenced] eqn:Hf. intros [= <- He].
  apply with_erasure_fence_on_cases in Hf as [[-> _]|Hf]; [done|].
  destruct (plan_and_write_fallback m scope tl plan id now) as [m2 r] eqn:Hw. injection Hf as <- <-.
  unfold flatten_fenced in He. simpl in He. subst r. unfold plan_and_write_fallback in Hw.
  destruct (plan (memory_view m)) as [[r|c]|]; simpl in Hw; [done| |naive_solver].
  destruct (append_fallback_event m tl (commit_draft c) id now) as [m3 [ev|e0]] eqn:Ha; [done|].
  injection Hw as <- _. by eapply append_fallback_event_error.
Qed.

(** ** A committed write *)

(** What a successful registry operation did: replayed a row, or planned a
    commit, appended its Event and wrote it. *)
Lemma fenced_ok_inv m scope tl plan id now m' receipt :
  fenced_fallback_operation m scope tl plan id now = (m', Ok receipt) ->
  fs_provisioned (ms_fallback m) = true /\
  ((m' = m /\ exists row, plan (memory_view m) = Ok (Replay row) /\ receipt = MkReceipt row IdempotentReplay)
   \/ exists c s' evs ev, plan (memory_view m) = Ok (Commit c)
     /\ guarded_generic_append (ms_store m) tl [MkFresh (commit_draft c) id now] = (s', Ok (ev :: evs))
     /\ let row := ledger_row c (MkEventIdentity (ev_id ev) (ev_seq ev) (blake3 (draft_payload (commit_draft c)))) in
        m' = MkMemoryStore s' (commit (ms_fallback m) scope tl c row)
        /\ receipt = MkReceipt row Committed).
Proof.
  unfold fenced_fallback_operation, require_provisioned.
  destruct (fs_provisioned (ms_fallback m)); simpl; [|done].
  destruct (with_erasure_fence_on _ _ _ _ m) as [m1 fenced] eqn:Hf. intros [= <- Hr]. split; [done|].
  apply with_erasure_fence_on_cases in Hf as [[_ [e ->]]|Hf]; [done|].
  destruct (plan_and_write_fallback m scope tl plan id now) as [m2 r] eqn:Hw. injection Hf as <- <-.
  unfold flatten_fenced in Hr. simpl in Hr. subst r. unfold plan_and_write_fallback in Hw.
  destruct (plan (memory_view m)) as [[r|c]|]; simpl in Hw; [left| |done].
  - injection Hw as <- <-. eauto.
  - right. unfold append_fallback_event, payload_digest in Hw.
    destruct (reg_require _ _) as [[]|]; simpl in Hw; [|done].
    destruct (guarded_generic_append _ _ _) as [s' [[|ev evs]|]] eqn:Ha; simpl in Hw; try done.
    injection Hw as <- <-. by exists c, s', evs, ev.
Qed.

(** The appended Event, seen from every Timeline. *)
Lemma append_one_histories s tl h d s' ev evs :
  store_ok s -> room s tl 1 -> history (st_timelines s) tl h ->
  guarded_generic_append s tl [d] = (s', Ok (ev :: evs)) ->
  store_ok s' /\ (forall x, is_Some (st_timelines s' !! x) -> is_Some (st_timelines s !! x))
  /\ exists e, event_of_draft (fd_draft d) e /\ ev_id e = ev_id ev /\ ev_seq ev = len h + 1
     /\ (forall x hx, history (st_timelines s) x hx ->
          history (st_timelines s') x (if decide (x = tl) then hx ++ [e] else hx))
     /\ forall x h', history (st_timelines s') x h' -> exists h, history (st_timelines s) x h.
Proof.
  intros Hok Hroom Hh Ha.
  destruct (guarded_append_one _ _ _ _ _ Hok Hroom Ha) as (Hok' & st & st' & Hst & Heq & Hfp & Hev & [= -> ->]).
  split; [done|]. split.
  - intros x. rewrite Heq. destruct (decide (x = tl)) as [->|]; [by rewrite Hst|by rewrite lookup_insert_ne].
  - exists (committed_event tl (prefix_of st) (len (ts_events st) + 1) d).
    destruct Hok as [Hwf _]. split; [done|]. split; [done|]. split_and!.
    + simpl. rewrite (history_len _ _ _ _ Hst (wf_prefix_nonneg _ _ _ Hwf Hst) Hh). done.
    + intros x hx Hx. rewrite Heq. exact (history_extend _ _ _ _ _ Hst Hfp Hev x hx Hx).
    + intros x h' Hx. rewrite Heq in Hx.
      destruct (history_extend_inv _ _ _ _ _ Hst Hfp Hev x h' Hwf Hx) as (h0 & Hh0 & _). by exists h0.
Qed.

Lemma last_revision_snoc rows (r : FallbackLedgerRowV1) :
  last (lr_state_revision <$> rows ++ [r]) = Some (lr_state_revision r).
Proof. rewrite fmap_app. simpl. by rewrite last_snoc. Qed.

(** The policy a commit retains is new, or already retained with these bytes. *)
Definition policy_fresh m (c : FallbackCommitV1) : Prop :=
  forall d bytes old, commit_policy c = Some (d, bytes) ->
    fs_policies (ms_fallback m) !! d = Some old -> old = bytes.

Section CommitPreserves.
Context (m : MemoryStore) (scope : RString) (target : CompositionFallbackTargetV1).
Context (found : CurrentV1) (c : FallbackCommitV1) (f' : FallbackFoldV1).
Context (id : EventId) (now : Z) (s' : Store) (ev : Event) (evs : list Event).
Abbreviation tl := (target_timeline target).
Definition committed_row : FallbackLedgerRowV1 :=
  ledger_row c (MkEventIdentity (ev_id ev) (ev_seq ev) (blake3 (draft_payload (commit_draft c)))).
Definition committed_store : MemoryStore :=
  MkMemoryStore s' (commit (ms_fallback m) scope tl c committed_row).
Context (D : TimelineId -> Prop) (Hok : registry_ok_off D m) (Hroom : room (ms_store m) tl 1).
Context (Hcur : current (memory_view m) scope target = Ok found).
Context (Hsound : commit_sound scope target found c f').
Context (Hfresh : forall x, ~ D x -> policy_fresh m c).
Context (Happ : guarded_generic_append (ms_store m) tl [MkFresh (commit_draft c) id now]
                = (s', Ok (ev :: evs))).

Lemma committed_retains x : ~ D x -> retains (memory_view m) (memory_view committed_store).
Proof.
  intros HD.  intros d bytes. simpl. intros [= Hd]. f_equal. unfold extend_policies.
  destruct (commit_policy c) as [[d' bytes']|] eqn:Hc; [|done].
  destruct (decide (d' = d)) as [->|Hne]; [|by rewrite lookup_insert_ne].
  rewrite lookup_insert_eq. by rewrite (Hfresh _ HD _ _ _ Hc Hd).
Qed.

Lemma committed_policy_retained : policy_retained c (memory_view committed_store).
Proof.
  unfold policy_retained. simpl. destruct (commit_policy c) as [[d bytes]|]; [|done].
  simpl. by rewrite lookup_insert_eq.
Qed.

Lemma committed_ledger scope' x :
  ledger (ms_fallback committed_store) scope' x
  = if decide ((scope', x) = (scope, tl)) then ledger (ms_fallback m) scope tl ++ [committed_row]
    else ledger (ms_fallback m) scope' x.
Proof.
  unfold ledger at 1. simpl. case_decide as Heq; [rewrite Heq, lookup_insert_eq|rewrite lookup_insert_ne]; done.
Qed.

Lemma committed_rows scope' x :
  fs_rows (ms_fallback committed_store) !! (scope', x)
  = if decide ((scope', x) = (scope, tl)) then Some (commit_row c)
    else fs_rows (ms_fallback m) !! (scope', x).
Proof.
  simpl. case_decide as Heq; [by rewrite Heq, lookup_insert_eq|by rewrite lookup_insert_ne].
Qed.

(** The ledger after the commit. *)
Lemma committed_ledger_ok h e :
  (forall row, fs_rows (ms_fallback m) !! (scope, tl) = Some row ->
     row_entity row = target_entity target /\ ledger_ok h row (cur_ledger found)) ->
  cur_ledger found = ledger (ms_fallback m) scope tl ->
  event_of_draft (commit_draft c) e -> ev_id e = ev_id ev -> ev_seq ev = len h + 1 ->
  ledger_ok (h ++ [e]) (commit_row c) (ledger (ms_fallback m) scope tl ++ [committed_row]).
Proof.
  intros Hrow Hled (Het & Hep & Hee) Hid Hseq. rewrite <- Hled.
  destruct (cs_draft _ _ _ _ _ Hsound) as [Hde Hdt].
  assert (Hold : Forall (fun r => lr_entity r = target_entity target) (cur_ledger found)
    /\ (forall i r, cur_ledger found !! i = Some r -> lr_row_seq r = Z.min (Z.of_nat i + 1) U64_MAX)
    /\ NoDup (ledger_key <$> cur_ledger found) /\ Forall (names_event (h ++ [e])) (cur_ledger found)).
  { destruct (fs_rows (ms_fallback m) !! (scope, tl)) as [row|] eqn:Hr.
    - destruct (Hrow _ eq_refl) as [<- Hl]. apply (ledger_ok_app h [e]) in Hl. by destruct Hl.
    - rewrite Hled, (off_absent _ _ Hok _ _ Hr). split_and!; try done; by constructor. }
  destruct Hold as (He & Hn & Hu & Hev). split.
  - apply last_revision_snoc.
  - apply Forall_app. rewrite (cs_row _ _ _ _ _ Hsound). split; [done|]. constructor; [|done].
    simpl. by rewrite (cs_row _ _ _ _ _ Hsound).
  - intros i r Hi. apply lookup_app_Some in Hi as [Hi|[Hge Hi]]; [by apply Hn|].
    apply list_lookup_singleton_Some in Hi as [Hi <-]. simpl. rewrite (cs_seq _ _ _ _ _ Hsound).
    unfold saturating_add, len. lia.
  - rewrite fmap_app. apply NoDup_app. split_and!; [done| |apply NoDup_singleton].
    intros k Hk Hin. apply list_elem_of_singleton in Hin as ->. by apply (cs_free _ _ _ _ _ Hsound) in Hk.
  - apply Forall_app. split; [done|]. constructor; [|done]. exists e. simpl. rewrite Hseq.
    split_and!; [|pose proof (len_nonneg h); lia|done| | |by rewrite Hep].
    + apply list_lookup_middle. unfold len. lia.
    + by rewrite Hee, Hde, (cs_row _ _ _ _ _ Hsound).
    + by rewrite Het.
Qed.

Lemma commit_preserves : registry_ok_off D committed_store.
Proof.
  destruct (current_off_inv _ _ _ _ _ Hok Hcur) as (h & Hh & Hfold & Hled & Hrow).
  destruct (append_one_histories _ _ _ _ _ _ _ (off_store _ _ Hok) Hroom Hh Happ)
    as (Hok' & Hdom & e & Hed & Hid & Hseq & Hhist & Hback). split.
  - done.
  - intros d bytes. simpl. unfold extend_policies.
    destruct (commit_policy c) as [[d' bytes']|] eqn:Hc; [|apply (off_policies _ _ Hok)].
    destruct (decide (d' = d)) as [->|Hne]; [|rewrite lookup_insert_ne by done; apply (off_policies _ _ Hok)].
    rewrite lookup_insert_eq. intros [= ->]. by apply (cs_policy _ _ _ _ _ Hsound).
  - intros scope' x. rewrite committed_rows, committed_ledger. case_decide; [done|apply (off_absent _ _ Hok)].
  - intros scope' x row HD. rewrite committed_rows. unfold row_ok. rewrite committed_ledger. intros Hr Hx.
    case_decide as Hkey.
    + injection Hkey as -> ->. injection Hr as <-. exists (h ++ [e]), f'. split_and!.
      * specialize (Hhist _ _ Hh). by rewrite decide_True in Hhist.
      * rewrite try_fold_app, (try_fold_mono _ _ _ _ _ _ (committed_retains _ HD) Hfold). simpl.
        rewrite (cs_fold _ _ _ _ _ Hsound _ _ Hed committed_policy_retained). done.
      * by rewrite (cs_row _ _ _ _ _ Hsound).
      * apply committed_ledger_ok; try done. intros row Hr. destruct (Hrow _ Hr) as (? & _ & Hl). auto.
    + destruct (off_rows _ _ Hok _ _ _ HD Hr (Hdom _ Hx)) as (hx & f & Hhx & Hfx & Hs & Hl).
      pose proof (Hhist _ _ Hhx) as Hhx'. destruct (decide (x = tl)) as [->|Hne].
      * exists (hx ++ [e]), f. split_and!; [done| |done|by apply ledger_ok_app].
        rewrite try_fold_app, (try_fold_mono _ _ _ _ _ _ (committed_retains _ HD) Hfx). simpl.
        rewrite (cs_other _ _ _ _ _ Hsound) by (done || congruence). done.
      * exists hx, f. split_and!; [done|by apply (try_fold_mono _ _ _ _ _ _ (committed_retains _ HD) Hfx)|done|done].
  - intros scope' x h' HD Hh'. destruct (Hback _ _ Hh') as [hx Hhx].
    rewrite (history_deterministic _ _ _ _ Hh' (Hhist _ _ Hhx)).
    destruct (off_folds _ _ Hok scope' _ _ HD Hhx) as [f Hfx].
    apply (try_fold_mono _ _ _ _ _ _ (committed_retains _ HD)) in Hfx.
    case_decide as Hx; [subst x|by exists f]. rewrite try_fold_app, Hfx. cbn [rbind try_fold].
    destruct (decide (scope' = scope)) as [->|Hne].
    + rewrite (history_deterministic _ _ _ _ Hhx Hh), (try_fold_mono _ _ _ _ _ _ (committed_retains _ HD) Hfold) in Hfx.
      injection Hfx as <-. rewrite (cs_fold _ _ _ _ _ Hsound _ _ Hed committed_policy_retained). by eexists.
    + rewrite (cs_other _ _ _ _ _ Hsound) by done. by eexists.
Qed.
End CommitPreserves.
End Invariant.
