(* ===== verification/FallbackReach.v ===== *)
(** * Reachable registries

    The public calls of a [MemoryStore] with its registry, Event store and
    registry operations alike, with any arguments, and the Timelines they
    disturb.  Every store they reach satisfies [registry_ok_off] outside those
    Timelines; runs that disturb none ([mreachable]) satisfy [registry_ok]. *)

From Stdlib Require Import String ZArith Lia Bool.
From S2P Require Import Prelude Text SortedMap Cbor FallbackRecords FallbackPolicy FallbackPayload.
From S2P Require Import ErasureGate Events EventStore StoreHistory StoreCorrect StoreProperties.
From S2P Require Import FallbackRegistry FallbackFold FallbackInvariant.

Local Open Scope Z_scope.

Section Reach.
Context `{Blake3} `{Hasher} `{UlidText}.
Implicit Types (m : MemoryStore) (s : Store) (D : TimelineId -> Prop).

(** No registry row names the Timeline. *)
Definition unseen m (x : TimelineId) : Prop := forall scope, fs_rows (ms_fallback m) !! (scope, x) = None.

Lemma unseen_stable m x : ~ ~ unseen m x -> unseen m x.
Proof.
  intros Hn scope. destruct (fs_rows (ms_fallback m) !! (scope, x)) eqn:Hr; [|done].
  exfalso. apply Hn. intros Hu. by rewrite (Hu scope) in Hr.
Qed.

Abbreviation plain_draft d := (is_fallback_type (draft_event_type (fd_draft d)) = false).
Abbreviation plain_event e := (is_fallback_type (ev_event_type e) = false).

(** ** Event store operations under the registry *)

Section Quiet.
Context (D D' un : TimelineId -> Prop).

(** [D'] extends [D], and outside [D'] every Timeline of [s'] is new to the
    registry or grew by Events that are not fallback Events; a readable one was
    readable before, is empty, or shares a prefix with one outside [D]. *)
Record quiet s s' : Prop := {
  quiet_grow x : ~ D' x -> is_Some (st_timelines s' !! x) -> un x \/ is_Some (st_timelines s !! x);
  quiet_new x h : ~ D' x -> is_Some (st_timelines s' !! x) -> history (st_timelines s) x h ->
    exists new, history (st_timelines s') x (h ++ new) /\ Forall (fun e => plain_event e) new;
  quiet_back x h' : ~ D' x -> history (st_timelines s') x h' ->
    (exists h, history (st_timelines s) x h) \/
    (exists y h n, ~ D y /\ history (st_timelines s) y h /\ h' = take n h) \/ h' = [];
}.

Lemma quiet_same s s' : st_timelines s' = st_timelines s -> quiet s s'.
Proof.
  intros Heq. split; rewrite Heq.
  - by right.
  - intros x h _ _ Hh. exists []. by rewrite app_nil_r.
  - intros x h _ Hh. left. by exists h.
Qed.

Lemma quiet_extend s s' id st st' new :
  timelines_wf (st_timelines s) ->
  st_timelines s !! id = Some st -> st_timelines s' = <[id := st']> (st_timelines s) ->
  fork_point_of st' = fork_point_of st -> ts_events st' = ts_events st ++ new ->
  (~ D' id -> Forall (fun e => plain_event e) new) -> quiet s s'.
Proof.
  intros Hwf Hst Heq Hfp Hev Hnew. split; rewrite Heq.
  - intros x _ Hx. right.
    destruct (decide (x = id)) as [->|Hne]; [by rewrite Hst|by rewrite lookup_insert_ne in Hx].
  - intros x h HD _ Hh. pose proof (history_extend _ _ _ _ _ Hst Hfp Hev _ _ Hh) as Hh'. unfold ext in Hh'.
    case_decide; [subst x; exists new; auto|]. exists []. by rewrite app_nil_r.
  - intros x h' _ Hh'. left. destruct (history_extend_inv _ _ _ _ _ Hst Hfp Hev _ _ Hwf Hh') as (h & Hh & _).
    by exists h.
Qed.

Lemma committed_events_types id prefix head ds :
  Forall (fun d => plain_draft d) ds ->
  Forall (fun e => plain_event e) (committed_events id prefix head ds).
Proof. intros Hd. revert head. induction Hd; intros head; constructor; auto. Qed.

Lemma quiet_append s id ds s' r :
  store_ok s -> room s id (len ds) ->
  (~ D' id -> Forall (fun d => plain_draft d) ds) ->
  append s id ds = (s', r) -> quiet s s'.
Proof.
  intros Hok Hroom Hds Ha. unfold append in Ha.
  apply with_erasure_fence_cases in Ha as [[-> _]|Ha]; [by apply quiet_same|].
  destruct (guarded_append_spec _ _ _ _ _ Hok Hroom Ha)
    as [[Heq _]|(st & st' & new & Hst & Heq & Hex & [k ->] & _)]; [by apply quiet_same|].
  eapply quiet_extend; [apply Hok|done|done|by eapply extends_fork_point|by apply (ex_events _ _ _ _ Hex)|].
  intros HD. by apply committed_events_types, Forall_take, Hds.
Qed.

Lemma committed_as_types id events new :
  Forall (fun e => plain_event e) events -> committed_as id events new ->
  Forall (fun e => plain_event e) new.
Proof.
  intros He (sorted & Hperm & Hf). rewrite <- Hperm in He. clear Hperm.
  induction Hf as [|e e' l l' [n ->] _ IH]; inversion_clear He; constructor; auto.
Qed.

(** Committed Events keep their Timelines; histories only grow. *)
Lemma quiet_append_committed s id events s' r :
  store_ok s -> room s id (len events) ->
  (~ D' id -> Forall (fun e => plain_event e) events) ->
  append_committed s id events = (s', r) -> quiet s s'.
Proof.
  intros Hok Hroom He Ha. unfold append_committed in Ha.
  apply with_erasure_fence_cases in Ha as [[-> _]|Ha]; [by apply quiet_same|]. cbv beta in Ha.
  destruct (append_committed_body s id events) as [s1|] eqn:Hb;
    [|injection Ha as <- <-; by apply quiet_same].
  injection Ha as <- <-.
  destruct (append_committed_body_ok _ _ _ _ Hok Hroom Hb) as (_ & new & Hnew & Hh & Hback). split.
  - intros x _ Hx. right. unfold append_committed_body in Hb. ok_inv.
    destruct events as [|e0 events]; [by ok_inv|]. ok_inv. simpl in Hx.
    destruct (decide (x = id)) as [->|Hne]; [by eexists|by rewrite lookup_insert_ne in Hx].
  - intros x h HD _ Hhx. specialize (Hh _ _ Hhx). unfold ext in Hh. case_decide; [subst x|].
    + exists new. split; [done|]. by eapply committed_as_types; [apply He|].
    + exists []. by rewrite app_nil_r.
  - intros x h' _ Hh'. left. by eapply Hback.
Qed.

(** The new Timeline is known to be disturbed, or is new to the registry and
    no disturbed Timeline is its parent. *)
Definition clean_start (id : TimelineId) (parent : option TimelineId) : Prop :=
  ~ D' id -> un id /\ forall p, parent = Some p -> ~ D p.

Lemma quiet_insert s s' id st :
  store_ok s -> store_ok s' -> st_timelines s !! id = None -> clean_start id (fst <$> fork_point_of st) ->
  st_timelines s' = <[id := st]> (st_timelines s) -> ts_events st = [] -> quiet s s'.
Proof.
  intros [Hwf _] [Hwf' _] Hn Hu Heq Hev. split; rewrite ?Heq.
  - intros x HD Hx. destruct (decide (x = id)) as [->|Hne]; [left; by apply Hu|right]. by rewrite lookup_insert_ne in Hx.
  - intros x h _ _ Hh. exists []. rewrite app_nil_r. split; [|done]. by apply history_insert.
  - intros x h' HD Hh'. destruct (decide (x = id)) as [->|Hne];
      [right|left; exists h'; by apply history_insert_inv in Hh'].
    inversion Hh' as [? st' Hst' Hfp|? st' p pst sq hp Hst' Hfp Hp Hhp Hle];
      rewrite lookup_insert_eq in Hst'; injection Hst' as <-; [by right|left].
    destruct (wf_rank _ Hwf') as [rank Hrank]. assert (Hid : st_timelines s' !! id = Some st)
      by (rewrite Heq; apply lookup_insert_eq).
    pose proof (Hrank _ _ _ _ Hid Hfp) as Hlt. assert (p <> id) by (intros ->; lia).
    apply history_insert_inv in Hhp; [|done..]. exists p, hp, (Z.to_nat sq). rewrite Hev, app_nil_r.
    split; [|done]. destruct (Hu HD) as [_ Hpar]. apply Hpar. by rewrite Hfp.
Qed.

Lemma quiet_create s id name :
  store_ok s -> st_timelines s !! id = None -> clean_start id None -> quiet s (create_timeline s id name).1.
Proof.
  intros Hok Hn Hu. pose proof (step_store_ok _ _ Hok (step_create s id name Hn)) as Hok'.
  revert Hok'. unfold create_timeline, with_direct_topology_mutation.
  destruct (st_erasure_topology_requires_permit s); intros Hok'; [by apply quiet_same|].
  eapply quiet_insert; [exact Hok|exact Hok'|exact Hn| |reflexivity|reflexivity]. exact Hu.
Qed.

Lemma quiet_create_unchecked s meta :
  store_ok s -> (forall p sq, meta_fork_point meta = Some (p, sq) -> 0 <= sq) ->
  clean_start (meta_id meta) (fst <$> meta_fork_point meta) ->
  quiet s (create_timeline_with_meta_unchecked s meta).1.
Proof.
  intros Hok Hpos Hu.
  destruct (create_timeline_with_meta_unchecked s meta) as [s' r] eqn:Hc. cbn [fst].
  pose proof (create_with_meta_unchecked_ok _ _ _ _ Hok Hpos Hc) as Hok'.
  unfold create_timeline_with_meta_unchecked in Hc.
  match type of Hc with context [match ?c with Ok _ => _ | Err _ => _ end] => destruct c as [ch|] end;
    [|injection Hc as <- _; by apply quiet_same].
  case_bool_decide as Hd; [injection Hc as <- _; by apply quiet_same|]. apply eq_None_not_Some in Hd.
  injection Hc as <- _. eapply quiet_insert; [exact Hok|exact Hok'|exact Hd| |reflexivity|reflexivity]. exact Hu.
Qed.

Lemma quiet_fence {A} t op (effect : Store -> Write A) s :
  quiet s (effect s).1 -> quiet s (with_erasure_fence t op effect s).1.
Proof. intros Hq. destruct (fence_store t op effect s) as [->| ->]; [by apply quiet_same|done]. Qed.

Lemma quiet_topology {A} (effect : Store -> Write A) s :
  quiet s (effect s).1 -> quiet s (with_direct_topology_mutation effect s).1.
Proof. intros Hq. destruct (topology_cases effect s) as [->| ->]; [by apply quiet_same|done]. Qed.

Lemma quiet_create_with_meta s meta :
  store_ok s -> (forall p sq, meta_fork_point meta = Some (p, sq) -> 0 <= sq) ->
  clean_start (meta_id meta) (fst <$> meta_fork_point meta) ->
  quiet s (create_timeline_with_meta s meta).1.
Proof.
  intros Hok Hpos Hu. pose proof (quiet_create_unchecked s meta Hok Hpos Hu).
  unfold create_timeline_with_meta. apply quiet_topology.
  destruct (meta_fork_point meta) as [[p sq]|]; [by apply quiet_fence|done].
Qed.

Lemma quiet_fork s id p sq name :
  store_ok s -> st_timelines s !! id = None -> 0 <= sq -> clean_start id (Some p) -> quiet s (fork s id p sq name).1.
Proof.
  intros Hok Hn Hpos Hu. unfold fork. apply quiet_topology, quiet_fence.
  destruct (ensure_generic_timeline_visibility s p); [|by apply quiet_same].
  destruct (fork_timeline_unchecked s id p sq name) as [s' r] eqn:Hf.
  apply fork_unchecked_spec in Hf as [[-> _]|(Hok' & tl & hp & _ & _ & _ & _ & Hfp & Heq)]; [by apply quiet_same| |done..].
  eapply quiet_insert; [done|done|done| |exact Heq|done].
  unfold fork_point_of. simpl. by rewrite Hfp.
Qed.

Lemma quiet_delete s id : store_ok s -> quiet s (delete_timeline s id).1.
Proof.
  intros Hok. unfold delete_timeline. apply quiet_topology.
  destruct (ensure_generic_timeline_visibility s id); [|by apply quiet_same].
  destruct (delete_visible_timeline s id) as [s' r] eqn:Hd.
  apply delete_visible_ok in Hd as [[-> _]|(_ & _ & _ & Heq & Hh)]; [by apply quiet_same| |done].
  cbn [fst]. split.
  - intros x _ Hx. right. rewrite Heq in Hx. destruct Hx as [xst Hx].
    apply lookup_delete_Some in Hx as [Hne Hx]. by eexists.
  - intros x h _ Hx Hhx. rewrite Heq in Hx. destruct Hx as [xst Hx].
    apply lookup_delete_Some in Hx as [Hne Hx]. exists []. rewrite app_nil_r. split; [|done]. by apply Hh.
  - intros x h' _ Hh'. left. exists h'. rewrite Heq in Hh'. by apply history_delete_inv in Hh'.
Qed.

End Quiet.

Lemma registry_ok_quiet D D' m s' :
  registry_ok_off D m -> (forall x, D x -> D' x) -> store_ok s' -> quiet D D' (unseen m) (ms_store m) s' ->
  registry_ok_off D' (MkMemoryStore s' (ms_fallback m)).
Proof.
  intros Hok Hsub Hok' Hq.
  assert (Hret : retains (memory_view m) (memory_view (MkMemoryStore s' (ms_fallback m))))
    by (intros d bytes Hd; exact Hd).
  split.
  - done.
  - apply (off_policies _ _ Hok).
  - apply (off_absent _ _ Hok).
  - intros scope x row HD Hr Hx. cbn [ms_fallback ms_store] in Hr, Hx.
    destruct (quiet_grow _ _ _ _ _ Hq _ HD Hx) as [Hun|Hx0].
    { rewrite (Hun scope) in Hr. done. }
    destruct (off_rows _ _ Hok scope x row) as (h & f & Hhx & Hf & Hs & Hl); [auto|done|done|].
    destruct (quiet_new _ _ _ _ _ Hq _ _ HD Hx Hhx) as (new & Hh' & Hnew). exists (h ++ new), f.
    split_and!; [done| |done|by apply ledger_ok_app].
    rewrite try_fold_app, (try_fold_mono _ _ _ _ _ _ Hret Hf). simpl. by apply try_fold_other.
  - intros scope x h' HD Hh'. cbn [ms_store] in Hh'.
    destruct (quiet_back _ _ _ _ _ Hq _ _ HD Hh') as [[h Hh]|[(y & h & n & Hy & Hh & ->)| ->]]; [| |by eexists].
    + destruct (quiet_new _ _ _ _ _ Hq _ _ HD (history_state _ _ _ Hh') Hh) as (new & Hnew & Hf).
      rewrite (history_deterministic _ _ _ _ Hh' Hnew), try_fold_app.
      destruct (off_folds _ _ Hok scope x h) as [f Hfold]; [auto|done|]. exists f.
      rewrite (try_fold_mono _ _ _ _ _ _ Hret Hfold). simpl. by apply try_fold_other.
    + destruct (off_folds _ _ Hok scope _ _ Hy Hh) as [f Hfold].
      rewrite <- (take_drop n h), try_fold_app in Hfold. apply rbind_ok_inv in Hfold as (f0 & Hf0 & _).
      exists f0. by apply (try_fold_mono _ _ _ _ _ _ Hret Hf0).
Qed.

(** ** Registry operations *)

(** The policy bytes a declaration brings are new under their digest, or are
    the bytes already retained.  [policy_digest_binds] turns a violation into
    a BLAKE3 collision ([collision_of_retained]). *)
Definition no_policy_collision m (bytes : list byte) : Prop :=
  forall p old, policy_from_canonical_cbor bytes = Ok p ->
    fs_policies (ms_fallback m) !! policy_policy_digest p = Some old -> old = bytes.

Lemma collision_of_retained D m bytes p old :
  registry_ok_off D m -> policy_from_canonical_cbor bytes = Ok p ->
  fs_policies (ms_fallback m) !! policy_policy_digest p = Some old -> old <> bytes ->
  exists q, policy_from_canonical_cbor old = Ok q /\ policy_preimage p <> policy_preimage q
    /\ blake3 (policy_preimage p) = blake3 (policy_preimage q).
Proof.
  intros Hok Hp Hold Hne. destruct (off_policies _ _ Hok _ _ Hold) as (q & Hq & Hd).
  exists q. split; [done|]. apply policy_decodes in Hp as [Hp ->], Hq as [Hq ->].
  apply policy_digest_binds; [done|done|done|]. by intros ->.
Qed.

Lemma no_policy_collision_dec m bytes :
  no_policy_collision m bytes \/
  exists p old, policy_from_canonical_cbor bytes = Ok p
    /\ fs_policies (ms_fallback m) !! policy_policy_digest p = Some old /\ old <> bytes.
Proof.
  unfold no_policy_collision.
  destruct (policy_from_canonical_cbor bytes) as [p|e]; [|by left].
  destruct (fs_policies (ms_fallback m) !! policy_policy_digest p) as [old|] eqn:Hold;
    [destruct (decide (old = bytes)) as [->|Hne]|]; naive_solver.
Qed.

Lemma no_policy_collision_stable m bytes : ~ ~ no_policy_collision m bytes -> no_policy_collision m bytes.
Proof.
  intros Hn. destruct (no_policy_collision_dec m bytes) as [?|(p & old & Hp & Hold & Hne)]; [done|].
  exfalso. apply Hn. intros Hc. by apply Hne, (Hc p).
Qed.

(** A declaration that would replace retained bytes brings, with the policy it
    would replace, two inputs of BLAKE3 with one digest. *)
Lemma policy_collision_found D m bytes :
  registry_ok_off D m -> ~ no_policy_collision m bytes ->
  exists p q, policy_from_canonical_cbor bytes = Ok p
    /\ fs_policies (ms_fallback m) !! policy_policy_digest p = Some (policy_to_canonical_cbor q)
    /\ policy_preimage p <> policy_preimage q /\ blake3 (policy_preimage p) = blake3 (policy_preimage q).
Proof.
  intros Hok Hn. destruct (no_policy_collision_dec m bytes) as [?|(p & old & Hp & Hold & Hne)]; [done|].
  destruct (collision_of_retained _ _ _ _ _ Hok Hp Hold Hne) as (q & [_ ->]%policy_decodes & ?). by exists p, q.
Qed.

Lemma declare_preserves D m r id now :
  registry_ok_off D m -> room (ms_store m) (target_timeline (dreq_target r)) 1 ->
  (forall x, ~ D x -> no_policy_collision m (dreq_policy_bytes r)) -> registry_ok_off D (declare m r id now).1.
Proof.
  intros Hok Hroom Hcol. destruct (declare m r id now) as [m' [receipt|e]] eqn:Hd; cbn [fst].
  2: { apply fenced_error_unchanged in Hd. by subst. }
  apply fenced_ok_inv in Hd as [_ [[-> _]|(c & s' & evs & ev & Hplan & Happ & -> & _)]]; [done|].
  destruct (plan_declare_sound _ _ _ Hplan) as (found & p & Hcur & Hdec & _ & Hpol & _ & _ & _ & Hs).
  eapply commit_preserves; [done|done|done|done| |done].
  intros x HD d bytes old Hc Hold. rewrite Hpol in Hc. injection Hc as <- <-. by eapply Hcol.
Qed.

Lemma activate_preserves D m r id now :
  registry_ok_off D m -> room (ms_store m) (target_timeline (areq_target r)) 1 ->
  activate_request_typed r = true -> registry_ok_off D (activate m r id now).1.
Proof.
  intros Hok Hroom Hty. destruct (activate m r id now) as [m' [receipt|e]] eqn:Hd; cbn [fst].
  2: { apply fenced_error_unchanged in Hd. by subst. }
  apply fenced_ok_inv in Hd as [_ [[-> _]|(c & s' & evs & ev & Hplan & Happ & -> & _)]]; [done|].
  destruct (plan_activate_sound _ _ _ Hty Hplan)
    as (found & p & t & Hcur & _ & _ & _ & Hpol & _ & _ & _ & Hs).
  eapply commit_preserves; [done|done|done|done| |done]. intros x _ d bytes old Hc. by rewrite Hpol in Hc.
Qed.

Lemma provision_preserves D m : registry_ok_off D m -> registry_ok_off D (provision_fallback_registry m).1.
Proof. intros []. by split. Qed.

(** ** The public operations *)

Definition on_store m s' : MemoryStore := MkMemoryStore s' (ms_fallback m).

(** One call of a [MemoryStore] that can change it, with any arguments. *)
Inductive PublicCall :=
| CallAppend (id : TimelineId) (ds : list FreshDraft)
| CallAppendCommitted (id : TimelineId) (events : list Event)
| CallCreate (id : TimelineId) (name : RString)
| CallCreateWithMeta (meta : TimelineMeta)
| CallFork (id parent : TimelineId) (at_seq : Z) (name : RString)
| CallDelete (id : TimelineId)
| CallHost (s' : Store)
| CallProvision
| CallDeclare (r : FallbackDeclareRequestV1) (id : EventId) (now : Z)
| CallActivate (r : FallbackActivateRequestV1) (id : EventId) (now : Z).

Definition run_call m (c : PublicCall) : MemoryStore :=
  match c with
  | CallAppend id ds => on_store m (append (ms_store m) id ds).1
  | CallAppendCommitted id events => on_store m (append_committed (ms_store m) id events).1
  | CallCreate id name => on_store m (create_timeline (ms_store m) id name).1
  | CallCreateWithMeta meta => on_store m (create_timeline_with_meta (ms_store m) meta).1
  | CallFork id parent at_seq name => on_store m (fork (ms_store m) id parent at_seq name).1
  | CallDelete id => on_store m (delete_timeline (ms_store m) id).1
  | CallHost s' => on_store m s'
  | CallProvision => (provision_fallback_registry m).1
  | CallDeclare r id now => (declare m r id now).1
  | CallActivate r id now => (activate m r id now).1
  end.

(** Values the program can pass: sequence numbers stay in 64 bits, the ids
    the store draws for new Timelines are unused, requests hold machine-width
    fields, and host changes (gates, keys, permits) keep the Timelines. *)
Definition call_typed m (c : PublicCall) : Prop :=
  match c with
  | CallAppend id ds => room (ms_store m) id (len ds)
  | CallAppendCommitted id events => room (ms_store m) id (len events)
  | CallCreate id _ => st_timelines (ms_store m) !! id = None
  | CallCreateWithMeta meta => forall p sq, meta_fork_point meta = Some (p, sq) -> 0 <= sq
  | CallFork id _ at_seq _ => st_timelines (ms_store m) !! id = None /\ 0 <= at_seq
  | CallHost s' => st_timelines s' = st_timelines (ms_store m)
  | CallDeclare r _ _ => room (ms_store m) (target_timeline (dreq_target r)) 1
  | CallActivate r _ _ => room (ms_store m) (target_timeline (areq_target r)) 1 /\ activate_request_typed r = true
  | CallDelete _ | CallProvision => True
  end.

(** A new Timeline starts disturbed when registry rows of a deleted Timeline
    still name its id, or it continues a disturbed one. *)
Definition disturbs_new D m (id : TimelineId) (parent : option TimelineId) : Prop :=
  ~ unseen m id \/ exists p, parent = Some p /\ D p.

(** The Timelines a call disturbs: those it gives a fallback Event the registry
    did not write, new ones as above, and all of them when a declaration brings
    other bytes under the digest of a retained policy. *)
Definition disturbs D m (c : PublicCall) (x : TimelineId) : Prop :=
  match c with
  | CallAppend id ds => x = id /\ ~ Forall (fun d => plain_draft d) ds
  | CallAppendCommitted id events => x = id /\ ~ Forall (fun e => plain_event e) events
  | CallCreate id _ => x = id /\ disturbs_new D m id None
  | CallCreateWithMeta meta => x = meta_id meta /\ disturbs_new D m (meta_id meta) (fst <$> meta_fork_point meta)
  | CallFork id parent _ _ => x = id /\ disturbs_new D m id (Some parent)
  | CallDeclare r _ _ => ~ no_policy_collision m (dreq_policy_bytes r)
  | _ => False
  end.

Definition disturbed_after D m (c : PublicCall) (x : TimelineId) : Prop := D x \/ disturbs D m c x.

Definition initial_memory (gate : option ErasureContainmentGateV1) : MemoryStore :=
  MkMemoryStore (initial_store gate) fallback_state_default.

(** The stores any sequence of public calls reaches, with the Timelines those
    calls disturbed. *)
Inductive preachable : (TimelineId -> Prop) -> MemoryStore -> Prop :=
| preach_start gate : preachable undisturbed (initial_memory gate)
| preach_call D m c : preachable D m -> call_typed m c -> preachable (disturbed_after D m c) (run_call m c).

Lemma Forall_stable {A} (P : A -> Prop) `{!forall x, Decision (P x)} l : ~ ~ Forall P l -> Forall P l.
Proof. intros Hn. by destruct (decide (Forall P l)). Qed.

Lemma disturbs_new_clean D (D' : TimelineId -> Prop) m id parent :
  (disturbs_new D m id parent -> D' id) -> clean_start D D' (unseen m) id parent.
Proof.
  intros Hd HD. split; [apply unseen_stable; intros Hu; apply HD, Hd; by left|].
  intros p Hp Hdp. apply HD, Hd. right. eauto.
Qed.

Lemma run_call_ok D m c :
  registry_ok_off D m -> call_typed m c -> registry_ok_off (disturbed_after D m c) (run_call m c).
Proof.
  intros Hok Ht. pose proof (off_store _ _ Hok) as Hst.
  assert (Hsub : forall x, D x -> disturbed_after D m c x) by (by left).
  destruct c as [id ds|id evs|id name|meta|id p sq name|id|s'| |r id now|r id now];
    cbn [call_typed run_call] in *; unfold on_store.
  - eapply registry_ok_quiet; [done|done|by eapply step_store_ok; [|apply step_append]|].
    destruct (append (ms_store m) id ds) as [s' r] eqn:Ha. eapply quiet_append; [done|done| |done].
    intros HD. apply Forall_stable; [apply _|]. intros Hn. apply HD. by right.
  - eapply registry_ok_quiet; [done|done|by eapply step_store_ok; [|apply step_append_committed]|].
    destruct (append_committed (ms_store m) id evs) as [s' r] eqn:Ha.
    eapply quiet_append_committed; [done|done| |done].
    intros HD. apply Forall_stable; [apply _|]. intros Hn. apply HD. by right.
  - eapply registry_ok_quiet; [done|done|by eapply step_store_ok; [|apply step_create]|].
    apply quiet_create; [done|done|]. apply disturbs_new_clean. by right.
  - eapply registry_ok_quiet; [done|done|by eapply step_store_ok; [|apply step_create_with_meta]|].
    apply quiet_create_with_meta; [done|done|]. apply disturbs_new_clean. by right.
  - destruct Ht as [Hn Hp].
    eapply registry_ok_quiet; [done|done|by eapply step_store_ok; [|apply step_fork]|].
    apply quiet_fork; [done|done|done|]. apply disturbs_new_clean. by right.
  - eapply registry_ok_quiet; [done|done|by eapply step_store_ok; [|apply step_delete]|]. by apply quiet_delete.
  - eapply registry_ok_quiet; [done|done|by eapply step_store_ok; [|apply step_host]|]. by apply quiet_same.
  - eapply registry_ok_off_weaken; [done|]. by apply provision_preserves.
  - apply declare_preserves; [by eapply registry_ok_off_weaken|done|].
    intros x HD. apply no_policy_collision_stable. intros Hc. apply HD. by right.
  - destruct Ht. eapply registry_ok_off_weaken; [done|]. by apply activate_preserves.
Qed.

Lemma registry_ok_initial gate : registry_ok (initial_memory gate).
Proof.
  split; [apply store_ok_initial|done|done|done|]. intros scope tl h _ Hh.
  by destruct (history_state _ _ _ Hh) as [? Hst].
Qed.

Lemma preachable_ok D m : preachable D m -> registry_ok_off D m.
Proof. induction 1; [apply registry_ok_initial|by apply run_call_ok]. Qed.

(** ** Runs that respect the registry's Event types *)

(** One public call that disturbs nothing: generic appends carry no fallback
    Event types (the runtime reserves both,
    [crates/pos-runtime/src/registry.rs]), new Timelines are new to the
    registry, and no declaration meets other bytes under its digest. *)
Inductive mstep : MemoryStore -> MemoryStore -> Prop :=
| mstep_append m id ds :
    room (ms_store m) id (len ds) ->
    Forall (fun d => is_fallback_type (draft_event_type (fd_draft d)) = false) ds ->
    mstep m (on_store m (append (ms_store m) id ds).1)
| mstep_append_committed m id events :
    room (ms_store m) id (len events) ->
    Forall (fun e => is_fallback_type (ev_event_type e) = false) events ->
    mstep m (on_store m (append_committed (ms_store m) id events).1)
| mstep_create m id name :
    st_timelines (ms_store m) !! id = None -> unseen m id ->
    mstep m (on_store m (create_timeline (ms_store m) id name).1)
| mstep_create_with_meta m meta :
    (forall p sq, meta_fork_point meta = Some (p, sq) -> 0 <= sq) -> unseen m (meta_id meta) ->
    mstep m (on_store m (create_timeline_with_meta (ms_store m) meta).1)
| mstep_fork m id parent at_seq name :
    st_timelines (ms_store m) !! id = None -> unseen m id -> 0 <= at_seq ->
    mstep m (on_store m (fork (ms_store m) id parent at_seq name).1)
| mstep_delete m id : mstep m (on_store m (delete_timeline (ms_store m) id).1)
| mstep_host m s' : st_timelines s' = st_timelines (ms_store m) -> mstep m (on_store m s')
| mstep_provision m : mstep m (provision_fallback_registry m).1
| mstep_declare m r id now :
    room (ms_store m) (target_timeline (dreq_target r)) 1 ->
    no_policy_collision m (dreq_policy_bytes r) -> mstep m (declare m r id now).1
| mstep_activate m r id now :
    room (ms_store m) (target_timeline (areq_target r)) 1 ->
    activate_request_typed r = true -> mstep m (activate m r id now).1.

Definition mreachable m : Prop := exists gate, rtc mstep (initial_memory gate) m.

(** Such a step is a typed call that disturbs no Timeline. *)
Lemma mstep_call m m' : mstep m m' -> exists c, m' = run_call m c /\ call_typed m c
  /\ forall x, ~ disturbed_after undisturbed m c x.
Proof.
  assert (Hnew : forall m id parent, unseen m id -> ~ disturbs_new undisturbed m id parent)
    by (intros ? id parent Hu [Hn|(p & _ & [])]; by apply Hn).
  destruct 1 as [m id ds|m id evs|m id name|m meta|m id p sq name|m id|m s'|m|m r id now|m r id now];
    [exists (CallAppend id ds)|exists (CallAppendCommitted id evs)|exists (CallCreate id name)
    |exists (CallCreateWithMeta meta)|exists (CallFork id p sq name)|exists (CallDelete id)|exists (CallHost s')
    |exists CallProvision|exists (CallDeclare r id now)|exists (CallActivate r id now)];
    (split; [done|]); (split; [by simpl; split_and?|]);
    intros x [[]|Hd]; cbn [disturbs] in Hd; try done; try (destruct Hd as [_ Hd]; try done); by eapply Hnew.
Qed.

Lemma mstep_ok m m' : registry_ok m -> mstep m m' -> registry_ok m'.
Proof.
  intros Hok (c & -> & Ht & Hd)%mstep_call.
  eapply registry_ok_off_weaken; [|by apply (run_call_ok undisturbed)]. intros x Hx. by apply Hd in Hx.
Qed.

Lemma disturbs_mono (D D' : TimelineId -> Prop) m c x :
  (forall y, D y -> D' y) -> disturbs D m c x -> disturbs D' m c x.
Proof. intros Hs. destruct c; cbn [disturbs]; unfold disturbs_new; naive_solver. Qed.

(** Such runs are among the runs of public calls, and disturb nothing. *)
Lemma mreachable_preachable m : mreachable m -> exists D, preachable D m /\ forall x, ~ D x.
Proof.
  intros [gate Hr]. revert m Hr. apply (rtc_ind_r (fun m => exists D, preachable D m /\ forall x, ~ D x)).
  - exists undisturbed. split; [constructor|]. intros x [].
  - intros m1 m2 _ (c & -> & Ht & Hd)%mstep_call (D & HD & Hn). exists (disturbed_after D m1 c). split; [by constructor|]. intros x [Hx|Hx]; [by apply (Hn x)|].
    apply (Hd x). right. eapply disturbs_mono; [|done]. intros y Hy. by apply Hn in Hy.
Qed.

Lemma mreachable_ok m : mreachable m -> registry_ok m.
Proof.
  intros [gate Hr]. pose proof (registry_ok_initial gate) as Hok. revert Hok.
  induction Hr as [|m1 m2 m3 Hs _ IH]; intros Hok; [done|]. apply IH. by eapply mstep_ok.
Qed.
End Reach.
