(* ===== verification/FallbackProperties.v ===== *)
(** * What the fallback registry promises its callers

    The invariant of the registry tables under every sequence of public calls;
    then the theorems of the registry port over every [MemoryStore] that calls
    reach without disturbing a Timeline: refused writes change nothing, repeats
    replay, keys are used once, writes stay in their (scope, Timeline), Forks
    derive their parent's state, and what declarations and activations may do. *)

From Stdlib Require Import String ZArith Lia Bool.
From S2P Require Import Prelude Text SortedMap Cbor FallbackRecords FallbackPolicy FallbackPayload.
From S2P Require Import ErasureGate Events EventStore StoreHistory StoreCorrect StoreProperties.
From S2P Require Import FallbackRegistry FallbackFold FallbackInvariant.
From S2P Require Import FallbackReach.

Local Open Scope Z_scope.

(** ** Requests *)

(** The two writes of the port as one type. *)
Inductive FallbackRequest :=
| DeclareRequest (r : FallbackDeclareRequestV1)
| ActivateRequest (r : FallbackActivateRequestV1).

Definition request_scope (q : FallbackRequest) : RString :=
  match q with DeclareRequest r => dreq_scope r | ActivateRequest r => areq_scope r end.
Definition request_target (q : FallbackRequest) : CompositionFallbackTargetV1 :=
  match q with DeclareRequest r => dreq_target r | ActivateRequest r => areq_target r end.
Definition request_timeline (q : FallbackRequest) : TimelineId := target_timeline (request_target q).
Definition request_revision (q : FallbackRequest) : Z :=
  match q with
  | DeclareRequest r => dreq_expected_state_revision r
  | ActivateRequest r => areq_expected_state_revision r
  end.
Definition request_head (q : FallbackRequest) : Z :=
  match q with
  | DeclareRequest r => dreq_expected_logical_head r
  | ActivateRequest r => areq_expected_logical_head r
  end.

Section Requests.
Context `{Blake3} `{Hasher} `{UlidText}.
Implicit Types (m : MemoryStore) (q : FallbackRequest).

Definition request_plan q (reads : FallbackReadsV1) : FallbackResult FallbackPlanV1 :=
  match q with
  | DeclareRequest r => plan_declare reads r
  | ActivateRequest r => plan_activate reads r
  end.

Definition submit m q (id : EventId) (now : Z) : FallbackWrite FallbackCommitReceiptV1 :=
  match q with
  | DeclareRequest r => declare m r id now
  | ActivateRequest r => activate m r id now
  end.

Definition request_digest q : Hash :=
  match q with
  | DeclareRequest r => declare_request_digest (target_entity (dreq_target r)) (dreq_conformance r)
  | ActivateRequest r => activate_request_digest r
  end.

(** The key the request occupies, when its record is acceptable. *)
Definition request_key q : option (Hash + RString * Z) :=
  match q with
  | DeclareRequest r =>
      match policy_from_canonical_cbor (dreq_policy_bytes r) with
      | Ok p => if decide (policy_scope p = dreq_scope r) then Some (inl (policy_policy_digest p)) else None
      | Err _ => None
      end
  | ActivateRequest r => Some (inr (areq_entry_key r, areq_closing_tenure_ordinal r))
  end.

(** What every caller supplies: room for one more Event, values of the Rust
    types, and no collision with a retained policy. *)
Definition request_ok m q : Prop :=
  room (ms_store m) (request_timeline q) 1 /\
  match q with
  | DeclareRequest r => no_policy_collision m (dreq_policy_bytes r)
  | ActivateRequest r => activate_request_typed r = true
  end.

Lemma submit_fenced m q id now :
  submit m q id now
  = fenced_fallback_operation m (request_scope q) (request_timeline q) (request_plan q) id now.
Proof. by destruct q. Qed.

Lemma submit_mstep m q id now : request_ok m q -> mstep m (submit m q id now).1.
Proof. destruct q; intros [Hr Ho]; by constructor. Qed.

Lemma submit_ok m q id now : registry_ok m -> request_ok m q -> registry_ok (submit m q id now).1.
Proof. intros Hok Hq. by eapply mstep_ok, submit_mstep. Qed.

Definition request_write q : WriteV1 :=
  MkWrite (request_scope q) (request_target q) (request_revision q) (request_head q) (request_digest q).

(** Every plan is the shared prelude over the request's key. *)
Lemma request_plan_shape q reads p :
  request_plan q reads = Ok p ->
  exists key, request_key q = Some key.
Proof.
  destruct q as [r|r]; simpl; [|by eexists]. unfold plan_declare. intros Hp.
  apply rbind_ok_inv in Hp as (pol & Hdec & Hp). apply map_err_ok_inv in Hdec.
  apply rbind_ok_inv in Hp as ([] & Hs & _). apply reg_require_ok, bool_decide_eq_true in Hs.
  rewrite Hdec, decide_True by done. by eexists.
Qed.

Lemma request_plan_plan q key :
  request_key q = Some key ->
  exists occupies fresh, (forall reads, request_plan q reads = plan (request_write q) reads occupies fresh)
    /\ (forall r, occupies r = true <-> ledger_key r = key)
    /\ forall found r, fresh found <> Ok (Replay r).
Proof.
  destruct q as [r|r]; simpl.
  - destruct (policy_from_canonical_cbor (dreq_policy_bytes r)) as [p|] eqn:Hdec; [|done].
    case_decide as Hs; [|done]. intros [= <-]. eexists _, _. split_and!.
    + intros reads. unfold plan_declare. rewrite Hdec. cbn [map_err rbind].
      rewrite bool_decide_true by done. reflexivity.
    + intros row. apply declares_key.
    + intros found row Hf. unfold declare_fresh in Hf. ok_inv. done.
  - intros [= <-]. eexists _, _. split_and!; [intros reads; reflexivity|intros row; apply closes_key|].
    intros found row Hf. unfold activate_fresh in Hf. ok_inv. done.
Qed.

(** A planned commit, for both operations. *)
Lemma request_commit m q c :
  request_ok m q -> request_plan q (memory_view m) = Ok (Commit c) ->
  exists found f' key, current (memory_view m) (request_scope q) (request_target q) = Ok found
    /\ request_key q = Some key /\ (forall ev, ledger_key (ledger_row c ev) = key)
    /\ commit_request_digest c = request_digest q
    /\ commit_sound (request_scope q) (request_target q) found c f' /\ policy_fresh m c
    /\ rst_state_revision (fold_state f')
       = saturating_add (rst_state_revision (fold_state (cur_fold found))) 1.
Proof.
  intros [_ Hq] Hp. destruct q as [r|r]; simpl in *.
  - pose proof Hp as Hk. apply (request_plan_shape (DeclareRequest r)) in Hk as [key Hk]. simpl in Hk.
    destruct (plan_declare_sound _ _ _ Hp) as (found & p & Hcur & Hdec & _ & Hpol & Hrd & Hpd & Hb & Hs).
    rewrite Hdec in Hk. case_decide as Hsc; [|done].
    eexists found, _, _. rewrite Hdec, decide_True by done.
    split_and!; [done|done| |done|exact Hs| |reflexivity].
    + intros ev. unfold ledger_key. simpl. rewrite Hb, Hpd. congruence.
    + intros d bytes old Hc Hold. rewrite Hpol in Hc. injection Hc as <- <-. by eapply Hq.
  - destruct (plan_activate_sound _ _ _ Hq Hp)
      as (found & p & t & Hcur & _ & _ & _ & Hpol & Hrd & Hpd & Hb & Hs).
    eexists found, _, _. split_and!; [done|done| |done|exact Hs| |reflexivity].
    + intros ev. unfold ledger_key. simpl. by rewrite Hb.
    + intros d bytes old Hc. by rewrite Hpol in Hc.
Qed.

(** ** The fence around a write *)

Lemma fenced_open m scope tl plan id now m' receipt :
  fenced_fallback_operation m scope tl plan id now = (m', Ok receipt) ->
  exists g, validated_erasure_gate (ms_store m) = Ok g /\ gate_authorize g tl OpAppend = Ok tt.
Proof.
  unfold fenced_fallback_operation. destruct (require_provisioned _); [|done].
  unfold with_erasure_fence_on. destruct (validated_erasure_gate (ms_store m)) as [g|]; [|done].
  rewrite with_fence_spec. destruct (gate_authorize g tl OpAppend) as [[]|] eqn:Ha; [|done]. intros _. by exists g.
Qed.

Lemma fenced_runs m scope tl plan id now g :
  fs_provisioned (ms_fallback m) = true -> validated_erasure_gate (ms_store m) = Ok g ->
  gate_authorize g tl OpAppend = Ok tt ->
  fenced_fallback_operation m scope tl plan id now = plan_and_write_fallback m scope tl plan id now.
Proof.
  intros Hp Hg Ha. unfold fenced_fallback_operation, require_provisioned, with_erasure_fence_on.
  rewrite Hp, Hg. cbn [reg_require]. rewrite with_fence_spec, Ha.
  by destruct (plan_and_write_fallback m scope tl plan id now).
Qed.

(** ** Occupied keys *)

Lemma ledger_nonempty_row m scope tl r :
  registry_ok m -> r ∈ ledger (ms_fallback m) scope tl ->
  exists row, fs_rows (ms_fallback m) !! (scope, tl) = Some row.
Proof.
  intros Hok Hr. destruct (fs_rows (ms_fallback m) !! (scope, tl)) as [row|] eqn:Hrow; [by eexists|].
  rewrite (off_absent _ _ Hok _ _ Hrow) in Hr. by apply not_elem_of_nil in Hr.
Qed.

Lemma current_of_row m scope target row :
  registry_ok m -> fs_rows (ms_fallback m) !! (scope, target_timeline target) = Some row ->
  row_entity row = target_entity target -> is_Some (st_timelines (ms_store m) !! target_timeline target) ->
  exists found, current (memory_view m) scope target = Ok found
    /\ cur_ledger found = ledger (ms_fallback m) scope (target_timeline target)
    /\ fold_state (cur_fold found) = row_state row.
Proof.
  intros Hok Hr He Ht. destruct (ro_rows _ Hok _ _ _ Hr Ht) as (h & f & Hh & Hf & Hs & Hl).
  exists (MkCurrent f (ledger (ms_fallback m) scope (target_timeline target))). split_and!; [|done|done].
  unfold current. cbn [memory_view stored_row stored_ledger rbind]. rewrite Hr.
  change (fold_timeline _ scope (target_timeline target))
    with (fold_timeline (memory_view m) scope (target_timeline target)).
  rewrite (fold_timeline_history _ _ _ _ (ro_store _ Hok) Hh), Hf. cbn [rbind].
  rewrite (proj2 (check_row_ok (Some row) _ _ _)); [done|]. split_and!; [done|done|].
  intros z Hz. rewrite (lk_last _ _ _ Hl) in Hz. injection Hz as <-. by rewrite Hs.
Qed.

Lemma find_unique_key occ key rows r :
  (forall r, occ r = true <-> ledger_key r = key) -> NoDup (ledger_key <$> rows) ->
  r ∈ rows -> ledger_key r = key -> List.find occ rows = Some r.
Proof.
  intros Hocc Hnd Hr Hk. destruct (List.find occ rows) as [r'|] eqn:Hf.
  - apply find_some in Hf as [Hr' Ho]. apply list_elem_of_In in Hr'. apply Hocc in Ho.
    apply list_elem_of_lookup in Hr as [i Hi], Hr' as [j Hj].
    assert (i = j) as ->; [|congruence]. eapply NoDup_lookup; [exact Hnd| |];
      rewrite list_lookup_fmap; [by rewrite Hi|by rewrite Hj; simpl; congruence].
  - exfalso. apply list_elem_of_In in Hr. pose proof (find_none _ _ Hf _ Hr) as Hn. simpl in Hn.
    apply (Hocc r) in Hk. congruence.
Qed.

Lemma occupied_plan m q key r found :
  registry_ok m -> current (memory_view m) (request_scope q) (request_target q) = Ok found ->
  request_key q = Some key -> r ∈ ledger (ms_fallback m) (request_scope q) (request_timeline q) ->
  ledger_key r = key -> request_plan q (memory_view m) = replay r (request_digest q).
Proof.
  intros Hok Hcur Hkey Hr Hrk. destruct (request_plan_plan _ _ Hkey) as (occ & fresh & Hplan & Hocc & _).
  rewrite Hplan. unfold plan. cbn [request_write w_scope w_target w_request_digest]. rewrite Hcur. cbn [rbind].
  destruct (current_inv _ _ _ _ Hok Hcur) as (h & _ & _ & Hled & Hrow).
  destruct (ledger_nonempty_row _ _ _ _ Hok Hr) as [row Hrow'].
  destruct (Hrow _ Hrow') as (_ & _ & Hl). unfold request_timeline in Hr. rewrite <- Hled in Hr.
  by rewrite (find_unique_key _ _ _ _ Hocc (lk_unique _ _ _ Hl) Hr Hrk).
Qed.

(** A committed row is in the ledger, under its key, with its request digest. *)
Lemma submit_row m q id now m' receipt :
  registry_ok m -> request_ok m q -> submit m q id now = (m', Ok receipt) ->
  exists key, request_key q = Some key /\ ledger_key (receipt_row receipt) = key
    /\ receipt_row receipt ∈ ledger (ms_fallback m') (request_scope q) (request_timeline q)
    /\ lr_request_digest (receipt_row receipt) = request_digest q
    /\ fs_provisioned (ms_fallback m') = true
    /\ (exists found, current (memory_view m') (request_scope q) (request_target q) = Ok found)
    /\ validated_erasure_gate (ms_store m') = validated_erasure_gate (ms_store m).
Proof.
  intros Hok Hq Hs. rewrite submit_fenced in Hs. pose proof (submit_ok m q id now Hok Hq) as Hok'.
  rewrite submit_fenced, Hs in Hok'. cbn [fst] in Hok'.
  apply fenced_ok_inv in Hs as [Hprov [(-> & r & Hplan & ->)|(c & s' & evs & ev & Hplan & Happ & Hm' & ->)]].
  - destruct (request_plan_shape _ _ _ Hplan) as [key Hkey]. exists key.
    destruct (request_plan_plan _ _ Hkey) as (occ & fresh & Hshape & Hocc & Hnr).
    rewrite Hshape in Hplan. unfold plan in Hplan. cbn [request_write w_scope w_target w_request_digest] in Hplan.
    apply rbind_ok_inv in Hplan as (found & Hcur & Hplan).
    destruct (current_inv _ _ _ _ Hok Hcur) as (_ & _ & _ & Hled & _).
    destruct (List.find occ (cur_ledger found)) as [r'|] eqn:Hf.
    2: { exfalso. apply rbind_ok_inv in Hplan as (? & _ & Hfresh). by apply Hnr in Hfresh. }
    unfold replay in Hplan. apply rbind_ok_inv in Hplan as ([] & Hd & [= ->]).
    apply reg_require_ok, bool_decide_eq_true in Hd. apply find_some in Hf as [Hin Ho].
    apply list_elem_of_In in Hin. rewrite Hled in Hin. apply Hocc in Ho. split_and!; try done. by eexists.
  - destruct (request_commit _ _ _ Hq Hplan) as (found & f' & key & Hcur & Hkey & Hck & Hrd & Hs & _ & _).
    change (m' = committed_store m (request_scope q) (request_target q) c s' ev) in Hm'.
    exists key. cbn [receipt_row]. split_and!; [done|by apply Hck| |done| | |].
    + rewrite Hm', committed_ledger, decide_True by done. apply elem_of_app. right. left.
    + by rewrite Hm'.
    + destruct (current_inv _ _ _ _ Hok Hcur) as (h & Hh & _).
      destruct (append_one_histories _ _ _ _ _ _ _ (ro_store _ Hok) (proj1 Hq) Hh Happ)
        as (_ & _ & e & _ & _ & _ & Hhist & _).
      destruct (current_of_row m' (request_scope q) (request_target q) (commit_row c)) as (found' & Hcur' & _);
        [done| | | |by eexists].
      * by rewrite Hm', committed_rows, decide_True.
      * by rewrite (cs_row _ _ _ _ _ Hs).
      * rewrite Hm'. by eapply history_state, Hhist.
    + rewrite Hm'. apply same_guards_gate. by eapply guarded_append_guards.
Qed.

Lemma request_commit_fresh m q c found :
  request_plan q (memory_view m) = Ok (Commit c) ->
  current (memory_view m) (request_scope q) (request_target q) = Ok found ->
  request_revision q = rst_state_revision (fold_state (cur_fold found))
  /\ logical_head_unchecked (ms_store m) (request_timeline q) = Ok (request_head q).
Proof.
  intros Hp Hcur. destruct (request_plan_shape _ _ _ Hp) as [key Hk].
  destruct (request_plan_plan _ _ Hk) as (occ & fresh & Hshape & _). rewrite Hshape in Hp.
  apply plan_commit_inv in Hp as (found' & Hcur' & _ & Hrev & Hhead & _).
  cbn [request_write w_scope w_target w_expected_state_revision w_expected_logical_head] in *.
  rewrite Hcur in Hcur'. injection Hcur' as <-. split; [done|]. simpl in Hhead. by apply or_err_ok in Hhead.
Qed.

Lemma current_fold reads scope target found :
  current reads scope target = Ok found ->
  fold_timeline reads scope (target_timeline target) = Ok (cur_fold found).
Proof.
  unfold current. intros Hcur. apply rbind_ok_inv in Hcur as (? & _ & Hcur).
  apply rbind_ok_inv in Hcur as (? & _ & Hcur). apply rbind_ok_inv in Hcur as (f & Hf & Hcur).
  by apply rbind_ok_inv in Hcur as (? & _ & [= <-]).
Qed.

(** ** No corruption *)

Lemma fold_timeline_error m scope tl e :
  registry_ok m -> fold_timeline (memory_view m) scope tl = Err e -> e = TimelineUnavailable.
Proof.
  intros Hok Hf. unfold fold_timeline in Hf. apply rbind_err_inv in Hf as [Hf|(evs & Hevs & Hf)].
  - simpl in Hf. destruct (collect_events_in_range _ _ _); simpl in Hf; [done|congruence].
  - simpl in Hevs. apply or_err_ok in Hevs. destruct (ro_store _ Hok) as [Hwf _].
    destruct (collect_inv _ _ _ _ Hwf Hevs) as (h & Hh & ->). rewrite renumber_read_all, try_fold_renumber in Hf.
    destruct (ro_folds _ Hok scope _ _ Hh) as [f Hfold]. congruence.
Qed.

Lemma current_error m scope target e :
  registry_ok m -> current (memory_view m) scope target = Err e ->
  e = TimelineUnavailable \/ e = EntityMismatch.
Proof.
  intros Hok Hc. unfold current in Hc. cbn [memory_view stored_row stored_ledger rbind] in Hc.
  apply rbind_err_inv in Hc as [Hc|(f & Hf & Hc)]; [left; by eapply fold_timeline_error|].
  apply rbind_err_inv in Hc as [Hc|(? & _ & ?)]; [right|done]. revert Hc.
  destruct (fold_timeline_inv _ _ _ _ (ro_store _ Hok) Hf) as (h & Hh & Hfold). unfold check_row.
  destruct (fs_rows (ms_fallback m) !! (scope, target_timeline target)) as [row|] eqn:Hrow;
    [|by rewrite (off_absent _ _ Hok _ _ Hrow)].
  destruct (ro_rows _ Hok _ _ _ Hrow (history_state _ _ _ Hh)) as (h' & f' & Hh' & Hf' & Hs & Hl).
  rewrite <- (history_deterministic _ _ _ _ Hh Hh') in Hf'. rewrite Hfold in Hf'. injection Hf' as <-.
  rewrite bool_decide_true, (lk_last _ _ _ Hl), Hs, Z.eqb_refl by done. simpl.
  case_bool_decide; [done|]. by intros [= <-].
Qed.

(** The first step of a failing chain of checks. *)
Ltac err_inv H :=
  repeat (apply rbind_err_inv in H as [H|(? & ? & H)]);
  try (unfold reg_require in H; case_match); try congruence.

Lemma check_declaration_error s p : check_declaration s p <> Err CorruptState.
Proof. unfold check_declaration. intros Hc. by err_inv Hc. Qed.

Lemma transition_error p s a : transition p s a <> Err CorruptState.
Proof.
  unfold transition. intros Hc.
  repeat (apply rbind_err_inv in Hc as [Hc|(? & ? & Hc)]); try (unfold ok_or in Hc; case_match; congruence);
    [unfold reg_require in Hc; case_match; congruence|done].
Qed.

Lemma check_rules_error t a : check_rules t a <> Err CorruptState.
Proof.
  unfold check_rules, check_origin. intros Hc. destruct (basis_origin _); by err_inv Hc.
Qed.

Lemma declare_fresh_error w found p r :
  fold_wf (cur_fold found) -> policy_valid p = true -> declare_fresh w found p r <> Err CorruptState.
Proof.
  intros Hwf Hp. rewrite declare_fresh_exact by done. cbv zeta. intros Hc.
  apply rbind_err_inv in Hc as [Hc|(? & _ & Hc)]; [by apply check_declaration_error in Hc|done].
Qed.

Lemma activate_fresh_error w found r :
  fold_wf (cur_fold found) -> activate_fresh w found r <> Err CorruptState.
Proof.
  intros Hwf. rewrite activate_fresh_exact by done. cbv zeta. intros Hc.
  apply rbind_err_inv in Hc as [Hc|(p & _ & Hc)]; [by destruct (fold_policy _)|].
  apply rbind_err_inv in Hc as [Hc|(? & _ & Hc)]; [by destruct (activated_new _)|].
  apply rbind_err_inv in Hc as [Hc|(t & _ & Hc)]; [by apply transition_error in Hc|].
  by apply rbind_err_inv in Hc as [Hc|(? & _ & Hc)]; [apply check_rules_error in Hc|].
Qed.

Lemma plan_not_corrupt m w occ fresh :
  registry_ok m -> (forall found, fold_wf (cur_fold found) -> fresh found <> Err CorruptState) ->
  plan w (memory_view m) occ fresh <> Err CorruptState.
Proof.
  intros Hok Hfresh Hp. unfold plan in Hp. apply rbind_err_inv in Hp as [Hp|(found & Hcur & Hp)].
  { by apply current_error in Hp as [|]. }
  destruct (List.find occ (cur_ledger found)) as [r|].
  { unfold replay in Hp. by err_inv Hp. }
  apply rbind_err_inv in Hp as [Hp|(? & _ & Hp)].
  - unfold check_fresh in Hp. apply rbind_err_inv in Hp as [Hp|(? & _ & Hp)]; [by err_inv Hp|].
    apply rbind_err_inv in Hp as [Hp|(? & _ & Hp)]; [|by err_inv Hp].
    simpl in Hp. by destruct (logical_head_unchecked _ _).
  - apply (Hfresh found); [|done]. by eapply fold_timeline_wf, current_fold.
Qed.

Lemma request_plan_not_corrupt m q : registry_ok m -> request_plan q (memory_view m) <> Err CorruptState.
Proof.
  intros Hok. destruct q as [r|r]; simpl.
  - unfold plan_declare. intros Hp. apply rbind_err_inv in Hp as [Hp|(p & Hdec & Hp)].
    { by destruct (policy_from_canonical_cbor _). }
    apply map_err_ok_inv, policy_decodes in Hdec as [Hpv _].
    apply rbind_err_inv in Hp as [Hp|(? & _ & Hp)]; [by err_inv Hp|]. revert Hp.
    apply plan_not_corrupt; [done|]. intros. by apply declare_fresh_error.
  - apply plan_not_corrupt; [done|]. intros. by apply activate_fresh_error.
Qed.

(** ** Properties *)

(** C1: the registry invariant under every public call.  Whatever sequence of
    appends (of any Event types), committed appends, new Timelines, Forks,
    deletions, gate and key changes, provisioning, declarations and activations
    a store has seen (arguments of their machine types, unused ids for new
    Timelines, Event counts within 64 bits), it is well formed, every retained policy decodes and has
    the digest it is filed under, and an absent row has an empty ledger.  On
    every Timeline outside [D] every row is the fold of the Timeline's
    declaration and activation Events, its ledger ends at the row's revision,
    is numbered from 1, uses each key once and names real Events by position,
    id, author, type and payload digest, and the fold of every scope succeeds.
    [D] holds exactly the Timelines that a caller disturbed: by appending a
    fallback Event the registry did not write, by reusing the id of a deleted
    Timeline whose rows remain, by continuing a disturbed Timeline, or, for
    all Timelines, by declaring a policy whose digest retained bytes already
    have; the last needs a BLAKE3 collision between two policy preimages, which
    the declaration and the store exhibit. *)
Theorem registry_invariant D m :
  preachable D m ->
  registry_ok_off D m
  /\ forall bytes, ~ no_policy_collision m bytes ->
       exists p old, policy_from_canonical_cbor bytes = Ok p
         /\ fs_policies (ms_fallback m) !! policy_policy_digest p = Some (policy_to_canonical_cbor old)
         /\ policy_preimage p <> policy_preimage old
         /\ blake3 (policy_preimage p) = blake3 (policy_preimage old).
Proof.
  intros Hok%preachable_ok. split; [done|]. intros bytes. by apply (policy_collision_found D).
Qed.

(** C15: all or nothing.  A registry write leaves the whole store unchanged, and
    then reports an error or a replay, or it appends exactly one Event to the
    target Timeline, replaces exactly one row and adds exactly one ledger row,
    which names that Event and carries the new row's revision; every other
    Timeline keeps its history. *)
Theorem write_all_or_nothing m q id now m' r :
  mreachable m -> request_ok m q -> submit m q id now = (m', r) ->
  (m' = m /\ forall receipt, r = Ok receipt -> receipt_outcome receipt = IdempotentReplay) \/
  exists receipt row h e,
    r = Ok receipt /\ receipt_outcome receipt = Committed
    /\ fs_rows (ms_fallback m') = <[(request_scope q, request_timeline q) := row]> (fs_rows (ms_fallback m))
    /\ fs_ledgers (ms_fallback m')
       = <[(request_scope q, request_timeline q) :=
             ledger (ms_fallback m) (request_scope q) (request_timeline q) ++ [receipt_row receipt]]>
           (fs_ledgers (ms_fallback m))
    /\ lr_state_revision (receipt_row receipt) = rst_state_revision (row_state row)
    /\ names_event (h ++ [e]) (receipt_row receipt)
    /\ forall x hx, history (st_timelines (ms_store m)) x hx ->
         history (st_timelines (ms_store m')) x (if decide (x = request_timeline q) then hx ++ [e] else hx)
         /\ (x = request_timeline q -> hx = h).
Proof.
  intros Hr Hq Hs. apply mreachable_ok in Hr as Hok. rewrite submit_fenced in Hs.
  destruct r as [receipt|err]; [|left; apply fenced_error_unchanged in Hs; by subst].
  apply fenced_ok_inv in Hs as [_ [(-> & r & _ & ->)|(c & s' & evs & ev & Hplan & Happ & -> & ->)]].
  { left. split; [done|]. by intros ? [= <-]. }
  right. destruct (request_commit _ _ _ Hq Hplan) as (found & f' & key & Hcur & _ & _ & _ & Hs & _ & _).
  destruct (current_inv _ _ _ _ Hok Hcur) as (h & Hh & _).
  destruct (append_one_histories _ _ _ _ _ _ _ (ro_store _ Hok) (proj1 Hq) Hh Happ)
    as (_ & _ & e & (Het & Hep & Hee) & Hid & Hseq & Hhist & _).
  eexists _, (commit_row c), h, e. split_and!; [done|done|done|done|done| |].
  - destruct (cs_draft _ _ _ _ _ Hs) as [Hde Hdt]. exists e. simpl. rewrite Hseq.
    split_and!; [|pose proof (len_nonneg h); lia|done| | |by rewrite Hep].
    + apply list_lookup_middle. unfold len. lia.
    + simpl in Hee. by rewrite Hee, Hde, (cs_row _ _ _ _ _ Hs).
    + simpl in Het. by rewrite Het.
  - intros x hx Hx. split; [by apply Hhist|]. intros ->. by eapply history_deterministic.
Qed.

(** Idempotency.  Repeating a write that succeeded, at any later moment and
    with any Event id and clock, returns the original ledger row as a replay
    and changes nothing. *)
Theorem write_idempotent m q id now m' receipt id' now' :
  mreachable m -> request_ok m q -> submit m q id now = (m', Ok receipt) ->
  submit m' q id' now' = (m', Ok (MkReceipt (receipt_row receipt) IdempotentReplay)).
Proof.
  intros Hr Hq Hs. apply mreachable_ok in Hr as Hok. pose proof (submit_ok m q id now Hok Hq) as Hok'.
  rewrite Hs in Hok'. cbn [fst] in Hok'.
  destruct (submit_row _ _ _ _ _ _ Hok Hq Hs) as (key & Hkey & Hrk & Hin & Hd & Hprov & [found Hcur] & Hgate).
  rewrite submit_fenced in Hs. destruct (fenced_open _ _ _ _ _ _ _ _ Hs) as (g & Hg & Ha).
  rewrite submit_fenced. rewrite Hg in Hgate. rewrite (fenced_runs _ _ _ _ _ _ g Hprov Hgate Ha).
  unfold plan_and_write_fallback. rewrite (occupied_plan _ _ _ _ _ Hok' Hcur Hkey Hin Hrk).
  unfold replay. by rewrite Hd, bool_decide_true.
Qed.

(** Occupied keys.  When a ledger row of (scope, Timeline) occupies the key
    of a request for the recorded entity, the request never writes: it replays
    that row if it is byte-identical by digest, and is a [Conflict] otherwise,
    whatever revision and head it expects. *)
Theorem occupied_key_decides m q key r g id now :
  mreachable m -> fs_provisioned (ms_fallback m) = true ->
  validated_erasure_gate (ms_store m) = Ok g -> gate_authorize g (request_timeline q) OpAppend = Ok tt ->
  is_Some (st_timelines (ms_store m) !! request_timeline q) ->
  request_key q = Some key -> r ∈ ledger (ms_fallback m) (request_scope q) (request_timeline q) ->
  ledger_key r = key -> lr_entity r = target_entity (request_target q) ->
  submit m q id now
  = (m, if decide (lr_request_digest r = request_digest q)
        then Ok (MkReceipt r IdempotentReplay) else Err Conflict).
Proof.
  intros Hr Hprov Hg Ha Ht Hkey Hin Hrk He. apply mreachable_ok in Hr as Hok.
  destruct (ledger_nonempty_row _ _ _ _ Hok Hin) as [row Hrow].
  destruct (ro_rows _ Hok _ _ _ Hrow Ht) as (h & f & _ & _ & _ & Hl).
  pose proof (proj1 (Forall_forall _ _) (lk_entity _ _ _ Hl) _ Hin) as Hre. cbn beta in Hre.
  rewrite He in Hre.
  destruct (current_of_row _ _ (request_target q) _ Hok Hrow (eq_sym Hre) Ht) as (found & Hcur & _ & _).
  rewrite submit_fenced, (fenced_runs _ _ _ _ _ _ g Hprov Hg Ha). unfold plan_and_write_fallback.
  rewrite (occupied_plan _ _ _ _ _ Hok Hcur Hkey Hin Hrk). unfold replay.
  case_decide; [by rewrite bool_decide_true|by rewrite bool_decide_false].
Qed.

(** Committed rows can be looked up.  After a write returned a ledger row,
    freshly or as a replay, the lookup of its key returns that row: a
    declaration by its policy digest, an activation by entry key and closed
    tenure. *)
Theorem committed_lookup m q id now m' receipt :
  mreachable m -> request_ok m q -> submit m q id now = (m', Ok receipt) ->
  match q with
  | DeclareRequest r => forall p, policy_from_canonical_cbor (dreq_policy_bytes r) = Ok p ->
      lookup_declaration m' (dreq_scope r) (request_timeline q) (policy_policy_digest p)
      = Ok (Some (receipt_row receipt))
  | ActivateRequest r =>
      lookup_activation m' (areq_scope r) (request_timeline q) (areq_entry_key r)
        (areq_closing_tenure_ordinal r) = Ok (Some (receipt_row receipt))
  end.
Proof.
  intros Hr Hq Hs. apply mreachable_ok in Hr as Hok. pose proof (submit_ok m q id now Hok Hq) as Hok'.
  rewrite Hs in Hok'. cbn [fst] in Hok'.
  destruct (submit_row _ _ _ _ _ _ Hok Hq Hs) as (key & Hkey & Hrk & Hin & _ & Hprov & [found Hcur] & _).
  destruct (current_inv _ _ _ _ Hok' Hcur) as (h & _ & _ & Hled & Hrow).
  destruct (ledger_nonempty_row _ _ _ _ Hok' Hin) as [row Hrow'].
  destruct (Hrow _ Hrow') as (_ & _ & Hl). rewrite Hled in Hl. pose proof (lk_unique _ _ _ Hl) as Hnd.
  destruct q as [r|r]; simpl in Hkey.
  - intros p Hp. rewrite Hp in Hkey. case_decide; [|done]. injection Hkey as <-.
    unfold lookup_declaration, fallback_ledger, require_provisioned. rewrite Hprov. cbn [reg_require rbind].
    f_equal. eapply find_unique_key; [intros; apply declares_key|exact Hnd|exact Hin|done].
  - injection Hkey as <-. unfold lookup_activation, fallback_ledger, require_provisioned.
    rewrite Hprov. cbn [reg_require rbind]. f_equal.
    eapply find_unique_key; [intros; apply closes_key|exact Hnd|exact Hin|done].
Qed.

(** Isolation.  A registry write changes nothing of any other (scope,
    Timeline): not its row, not its ledger, not the state its Events fold to,
    also for another scope on the same Timeline and for Forks of it. *)
Theorem write_isolated m q id now m' r scope tl :
  mreachable m -> request_ok m q -> submit m q id now = (m', r) ->
  (scope, tl) <> (request_scope q, request_timeline q) ->
  fs_rows (ms_fallback m') !! (scope, tl) = fs_rows (ms_fallback m) !! (scope, tl)
  /\ ledger (ms_fallback m') scope tl = ledger (ms_fallback m) scope tl
  /\ forall f, fold_timeline (memory_view m) scope tl = Ok f ->
       fold_timeline (memory_view m') scope tl = Ok f.
Proof.
  intros Hr Hq Hs Hne. apply mreachable_ok in Hr as Hok. rewrite submit_fenced in Hs.
  destruct r as [receipt|err]; [|by apply fenced_error_unchanged in Hs as ->].
  apply fenced_ok_inv in Hs as [_ [[-> _]|(c & s' & evs & ev & Hplan & Happ & Hm' & _)]]; [done|].
  change (m' = committed_store m (request_scope q) (request_target q) c s' ev) in Hm'.
  destruct (request_commit _ _ _ Hq Hplan) as (found & f' & key & Hcur & _ & _ & _ & Hs & Hfr & _).
  destruct (current_inv _ _ _ _ Hok Hcur) as (h & Hh & _).
  destruct (append_one_histories _ _ _ _ _ _ _ (ro_store _ Hok) (proj1 Hq) Hh Happ)
    as (Hok' & _ & e & Hed & _ & _ & Hhist & _).
  subst m'. rewrite committed_rows, committed_ledger, !decide_False by done. split_and!; [done|done|].
  intros f Hf. destruct (fold_timeline_inv _ _ _ _ (ro_store _ Hok) Hf) as (hx & Hhx & Hfx).
  specialize (Hhist _ _ Hhx). erewrite fold_timeline_history; [|exact Hok'|exact Hhist].
  pose proof (committed_retains m (request_scope q) (request_target q) c s' ev undisturbed
    (fun _ _ => Hfr) tl (fun HD => HD)) as Hret.
  destruct (decide (tl = request_timeline q)) as [->|Hnt]; [|by apply (try_fold_mono _ _ _ _ _ _ Hret Hfx)].
  rewrite try_fold_app, (try_fold_mono _ _ _ _ _ _ Hret Hfx). cbn [rbind try_fold].
  rewrite (cs_other _ _ _ _ _ Hs) by (done || congruence). done.
Qed.

(** The public derivation agrees with the row.  On a reachable store, a
    reader who may read the Timeline and folds its Events through the public
    port derives exactly the state the registry row holds. *)
Theorem derived_state_is_row m scope tl row evs :
  mreachable m -> registry_row m scope tl = Ok (Some row) ->
  read (ms_store m) tl seq_range_all = Ok evs ->
  derived_fallback_state_v1 m scope tl = Ok (row_state row).
Proof.
  intros Hr Hrow Hread. apply mreachable_ok in Hr as Hok. unfold registry_row, require_provisioned in Hrow.
  destruct (fs_provisioned (ms_fallback m)) eqn:Hprov; [|done]. simpl in Hrow. injection Hrow as Hrow.
  destruct (read_ok_inv _ _ _ _ Hread) as (g & _ & _ & Hvis & _ & Hcol).
  apply visibility_ok in Hvis as [Hx _].
  destruct (ro_rows _ Hok _ _ _ Hrow Hx) as (h & f & Hh & Hf & Hs & _).
  destruct (ro_store _ Hok) as [Hwf _]. rewrite (collect_history _ _ _ _ Hwf Hh), renumber_read_all in Hcol.
  injection Hcol as <-. unfold derived_fallback_state_v1, fold_timeline. cbn [port_reads timeline_events].
  rewrite Hread. cbn [or_err rbind]. rewrite try_fold_renumber.
  assert (Hret : retains (memory_view m) (port_reads m)).
  { intros d bytes Hd. cbn [port_reads stored_policy]. unfold retained_policy, require_provisioned.
    by rewrite Hprov. }
  rewrite (try_fold_mono _ _ _ _ _ _ Hret Hf). cbn [rbind]. by rewrite Hs.
Qed.

(** Forks derive their state at the cut.  A successful fork, beyond what the
    parent itself inherited, copies no registry row; the state its Timeline
    folds to is the one the parent's Events fold to up to the cut. *)
Theorem fork_derives_state_at_cut m scope id parent at_seq name s' child pst :
  mreachable m -> st_timelines (ms_store m) !! id = None -> unseen m id -> 0 <= at_seq ->
  st_timelines (ms_store m) !! parent = Some pst -> prefix_of pst <= at_seq ->
  fork (ms_store m) id parent at_seq name = (s', Ok child) ->
  fs_rows (ms_fallback (on_store m s')) !! (scope, id) = None
  /\ exists hp, history (st_timelines (ms_store m)) parent hp /\ at_seq <= len hp
     /\ fold_timeline (memory_view (on_store m s')) scope id
        = try_fold (memory_view m) scope fold_default (take (Z.to_nat at_seq) hp).
Proof.
  intros Hr Hn Hu Hpos Hp Hpre Hf. apply mreachable_ok in Hr as Hok. split; [apply Hu|].
  pose proof (mstep_ok m _ Hok (mstep_fork m id parent at_seq name Hn Hu Hpos)) as Hok'.
  rewrite Hf in Hok'. cbn [fst] in Hok'. unfold fork, with_direct_topology_mutation in Hf.
  destruct (st_erasure_topology_requires_permit (ms_store m)); [done|].
  apply with_erasure_fence_cases in Hf as [[_ [e He]]|Hf]; [done|]. cbv beta in Hf.
  destruct (ensure_generic_timeline_visibility (ms_store m) parent); [|done].
  destruct (fork_unchecked_spec _ _ _ _ _ _ _ (ro_store _ Hok) Hpos Hn Hf)
    as [[_ [e He]]|(_ & tl & hp & _ & _ & Hhp & Hsq & Hfp & Heq)]; [done|].
  exists hp. split_and!; [done|done|].
  assert (Hh : history (st_timelines s') id (take (Z.to_nat at_seq) hp)).
  { rewrite Heq, <- (app_nil_r (take _ hp)).
    refine (history_fork _ id (timeline_state_new tl _) parent pst at_seq hp _ Hfp _ _ _).
    - apply lookup_insert_eq.
    - rewrite lookup_insert_ne; [done|]. congruence.
    - by apply history_insert.
    - lia. }
  rewrite (fold_timeline_history (on_store m s') scope id _ (ro_store _ Hok') Hh).
  generalize (take (Z.to_nat at_seq) hp). generalize fold_default. intros f h. revert f.
  induction h as [|e h IH]; intros f; [done|]. cbn [try_fold].
  change (fold_event (memory_view (on_store m s')) scope f e) with (fold_event (memory_view m) scope f e).
  destruct (fold_event (memory_view m) scope f e); cbn [rbind]; [apply IH|done].
Qed.

(** Optimistic concurrency.  Of two requests for one (scope, Timeline,
    entity) that expect the same revision, at most one commits: once the first
    committed, a second one with a free key is refused as [StaleState] and
    changes nothing. *)
Theorem stale_after_commit m q1 q2 id now id' now' m' row key :
  mreachable m -> request_ok m q1 -> submit m q1 id now = (m', Ok (MkReceipt row Committed)) ->
  request_scope q2 = request_scope q1 -> request_target q2 = request_target q1 ->
  request_revision q2 = request_revision q1 -> request_revision q1 < U64_MAX ->
  request_key q2 = Some key ->
  key ∉ ledger_key <$> ledger (ms_fallback m') (request_scope q1) (request_timeline q1) ->
  submit m' q2 id' now' = (m', Err StaleState).
Proof.
  intros Hr Hq Hs Hsc Htg Hrev Hmax Hkey Hfree. apply mreachable_ok in Hr as Hok.
  pose proof (submit_ok m q1 id now Hok Hq) as Hok'. rewrite Hs in Hok'. cbn [fst] in Hok'.
  destruct (submit_row _ _ _ _ _ _ Hok Hq Hs) as (_ & _ & _ & _ & _ & Hprov & [found' Hcur'] & Hgate).
  rewrite submit_fenced in Hs. destruct (fenced_open _ _ _ _ _ _ _ _ Hs) as (g & Hg & Ha).
  apply fenced_ok_inv in Hs as [_ [(_ & ? & _ & [= _])|(c & s' & evs & ev & Hplan & _ & Hm' & _)]].
  change (m' = committed_store m (request_scope q1) (request_target q1) c s' ev) in Hm'.
  destruct (request_commit _ _ _ Hq Hplan) as (found & f' & _ & Hcur & _ & _ & _ & Hsound & _ & Hrev').
  destruct (request_commit_fresh _ _ _ _ Hplan Hcur) as [Hexp _].
  destruct (current_inv _ _ _ _ Hok' Hcur') as (h & _ & _ & Hled & Hrow').
  destruct (Hrow' (commit_row c)) as (_ & Hst & _);
    [rewrite Hm'; unfold request_timeline; by rewrite committed_rows, decide_True|].
  rewrite (cs_row _ _ _ _ _ Hsound) in Hst. cbn [row_state] in Hst.
  destruct (request_plan_plan _ _ Hkey) as (occ & fresh & Hshape & Hocc & _).
  rewrite submit_fenced. unfold request_timeline. rewrite Hsc, Htg. rewrite Hg in Hgate.
  rewrite (fenced_runs _ _ _ _ _ _ g Hprov Hgate Ha). unfold plan_and_write_fallback.
  rewrite Hshape. unfold plan. cbn [request_write w_scope w_target]. rewrite Hsc, Htg, Hcur'. cbn [rbind].
  destruct (List.find occ (cur_ledger found')) as [r|] eqn:Hf.
  { exfalso. apply find_some in Hf as [Hin Ho]. apply Hocc in Ho as <-. apply Hfree.
    apply list_elem_of_fmap_2. apply list_elem_of_In in Hin. by rewrite Hled in Hin. }
  unfold check_fresh. cbn [request_write w_expected_state_revision].
  destruct (Z.eqb_spec (request_revision q2) (rst_state_revision (fold_state (cur_fold found')))) as [Heq|];
    [|done].
  exfalso. rewrite <- Hst, Hrev', Hrev, Hexp in Heq. rewrite Hexp in Hmax. unfold saturating_add in Heq. lia.
Qed.

(** What an activation may do.  A committed activation closed the entry's
    current tenure on the implementation that was effective, and opened the
    next tenure on a declared implementation of the entry in the current
    policy; an automatic one had automatic mode and moved strictly forward
    along the chain; the trigger was declared unless it returned to the
    primary; every skipped implementation is another candidate.  The new row
    differs from the folded state in exactly that entry and the two counters,
    and the request expected the current revision and logical head. *)
Theorem activation_effect m r id now m' row :
  mreachable m -> request_ok m (ActivateRequest r) ->
  activate m r id now = (m', Ok (MkReceipt row Committed)) ->
  exists f p t, let s := fold_state f in
    fold_timeline (memory_view m) (areq_scope r) (target_timeline (areq_target r)) = Ok f
    /\ fold_policy f = Some p /\ rst_policy_digest s = Some (policy_policy_digest p)
    /\ tr_entry t ∈ policy_entries p /\ entry_entry_key (tr_entry t) = areq_entry_key r
    /\ sm_get (areq_entry_key r) (rst_entries s) = Some (tr_current t)
    /\ es_tenure_ordinal (tr_current t) = areq_closing_tenure_ordinal r
    /\ es_effective_digest (tr_current t) = imk_digest (areq_from r)
    /\ es_tenure_ordinal (tr_next t) = saturating_add (areq_closing_tenure_ordinal r) 1
    /\ es_effective_digest (tr_next t) = imk_digest (areq_to r) /\ on_chain (tr_entry t) (tr_next t)
    /\ origin_permitted t (basis_origin (areq_trigger_basis r))
    /\ trigger_permitted t (areq_trigger_code r)
    /\ Forall (skipped_permitted t (imk_digest (areq_to r))) (areq_skipped r)
    /\ fs_rows (ms_fallback m') !! (areq_scope r, target_timeline (areq_target r))
       = Some (MkRow (target_entity (areq_target r))
                 (MkRegistryState (saturating_add (rst_state_revision s) 1) (rst_policy_digest s)
                    (saturating_add (rst_activation_ordinal s) 1)
                    (sm_insert (areq_entry_key r) (tr_next t) (rst_entries s))))
    /\ areq_expected_state_revision r = rst_state_revision s
    /\ logical_head_unchecked (ms_store m) (target_timeline (areq_target r))
       = Ok (areq_expected_logical_head r).
Proof.
  intros Hr [Hroom Hty] Ha. apply mreachable_ok in Hr as Hok.
  apply fenced_ok_inv in Ha as [_ [(_ & ? & _ & [= _])|(c & s' & evs & ev & Hplan & _ & Hm' & _)]].
  change (m' = committed_store m (areq_scope r) (areq_target r) c s' ev) in Hm'.
  destruct (plan_activate_sound _ _ _ Hty Hplan)
    as (found & p & t & Hcur & Hp & Ht & Hrules & _ & _ & _ & _ & Hs).
  destruct (request_commit_fresh m (ActivateRequest r) c found Hplan Hcur) as [Hrev Hhead].
  apply check_rules_ok in Hrules as (Ho & Htr & Hsk).
  apply transition_ok in Ht as (Hc & Hf & Hten & Heff & i & Hi & Hn).
  pose proof (find_entry (policy_entries p) (areq_entry_key r)) as Hfe. simpl in Hf. rewrite Hf in Hfe.
  apply chain_index_spec in Hi as [Hi0 Hi].
  pose proof (current_fold _ _ _ _ Hcur) as Hfold.
  exists (cur_fold found), p, t. cbv zeta. destruct Hfe as [Hin Hk].
  split_and!; try done.
  - by apply (fw_current _ (fold_timeline_wf _ _ _ _ Hfold)).
  - rewrite Hn. simpl in *. by rewrite Hten.
  - by rewrite Hn.
  - rewrite Hn. by split.
  - rewrite Hm', committed_rows, decide_True by done. by rewrite (cs_row _ _ _ _ _ Hs).
Qed.

(** What a declaration may do.  A committed declaration names the current
    policy as its predecessor and is no empty first policy; afterwards its
    policy is current, every chain restarts at position 0, no recorded entry
    changes its implementation or tenure, the only new entries are those of the
    policy, in tenure 0 on their primary, and the effective implementation of
    every declared entry is its primary. *)
Theorem declaration_effect m r id now m' row :
  mreachable m -> request_ok m (DeclareRequest r) ->
  declare m r id now = (m', Ok (MkReceipt row Committed)) ->
  exists f p s', let s := fold_state f in
    fold_timeline (memory_view m) (dreq_scope r) (target_timeline (dreq_target r)) = Ok f
    /\ policy_from_canonical_cbor (dreq_policy_bytes r) = Ok p
    /\ fs_rows (ms_fallback m') !! (dreq_scope r, target_timeline (dreq_target r))
       = Some (MkRow (target_entity (dreq_target r)) s')
    /\ policy_previous_policy_digest p = rst_policy_digest s
    /\ (rst_policy_digest s = None -> policy_entries p <> [])
    /\ rst_policy_digest s' = Some (policy_policy_digest p)
    /\ rst_state_revision s' = saturating_add (rst_state_revision s) 1
    /\ rst_activation_ordinal s' = rst_activation_ordinal s
    /\ (forall k st, sm_get k (rst_entries s) = Some st ->
          sm_get k (rst_entries s') = Some (restart_chain st))
    /\ (forall k st, sm_get k (rst_entries s) = None -> sm_get k (rst_entries s') = Some st ->
          es_tenure_ordinal st = 0 /\ k ∈ entry_entry_key <$> policy_entries p)
    /\ (forall e, e ∈ policy_entries p -> exists st,
          sm_get (entry_entry_key e) (rst_entries s') = Some st
          /\ es_effective_digest st = primary_digest e /\ es_chain_position st = 0).
Proof.
  intros Hr [Hroom Hcol] Hd. apply mreachable_ok in Hr as Hok.
  apply fenced_ok_inv in Hd as [_ [(_ & ? & _ & [= _])|(c & s1 & evs & ev & Hplan & _ & Hm' & _)]].
  change (m' = committed_store m (dreq_scope r) (dreq_target r) c s1 ev) in Hm'.
  destruct (plan_declare_sound _ _ _ Hplan) as (found & p & Hcur & Hdec & Hchk & _ & _ & _ & _ & Hs).
  apply check_declaration_ok in Hchk as (Hprev & Hempty & Hmis).
  pose proof (current_fold _ _ _ _ Hcur) as Hfold.
  pose proof (fold_timeline_wf _ _ _ _ Hfold) as Hwf. apply policy_decodes in Hdec as Hpv. destruct Hpv as [Hpv _].
  exists (cur_fold found), p, (state_declare (fold_state (cur_fold found)) p). cbv zeta.
  split_and!; try done.
  - rewrite Hm', committed_rows, decide_True by done. by rewrite (cs_row _ _ _ _ _ Hs).
  - intros Hn. apply Hempty. congruence.
  - intros k st Hk. by rewrite declare_get, Hk.
  - intros k st Hk. rewrite declare_get, Hk. pose proof (find_entry (policy_entries p) k) as Hf.
    intros Hst. apply fmap_Some in Hst as (e & He & ->). rewrite He in Hf. destruct Hf as [Hin <-].
    split; [done|]. by apply list_elem_of_fmap_2.
  - intros e He. destruct (fw_entries _ (declare_wf _ _ Hwf Hpv Hmis) p e eq_refl He) as (st & Hst & _ & Hch).
    exists st. cbn [fold_state] in Hst. split; [done|].
    assert (Hpos : es_chain_position st = 0).
    { rewrite declare_get in Hst. destruct (sm_get _ _); [by simplify_eq|].
      apply fmap_Some in Hst as (? & _ & ->). done. }
    rewrite Hpos in Hch. injection Hch as <-. done.
Qed.

(** Corruption is unreachable.  On a reachable store no registry write is
    ever refused as [CorruptState], whatever the request: the row always equals
    the fold, and every Timeline's Events fold for every scope. *)
Theorem corruption_unreachable m q id now m' e :
  mreachable m -> submit m q id now = (m', Err e) -> e <> CorruptState.
Proof.
  intros Hr Hs ->. apply mreachable_ok in Hr as Hok. rewrite submit_fenced in Hs.
  unfold fenced_fallback_operation, require_provisioned in Hs.
  destruct (fs_provisioned (ms_fallback m)); [|done]. cbn [reg_require] in Hs.
  destruct (with_erasure_fence_on _ _ _ _ m) as [m1 fenced] eqn:Hf. injection Hs as -> Hs.
  apply with_erasure_fence_on_cases in Hf as [[_ [e ->]]|Hf]; [done|].
  destruct (plan_and_write_fallback _ _ _ _ _ _) as [m2 r] eqn:Hw. injection Hf as <- <-.
  unfold flatten_fenced in Hs. simpl in Hs. subst r. unfold plan_and_write_fallback in Hw.
  destruct (request_plan q (memory_view m)) as [[r|c]|e] eqn:Hplan; cbn [write_fallback_plan] in Hw; [done| |].
  - unfold append_fallback_event, payload_digest in Hw.
    destruct (reg_require _ _) as [[]|e] eqn:Hreq; cbn [rbind] in Hw;
      [|unfold reg_require in Hreq; case_match; congruence].
    destruct (guarded_generic_append _ _ _) as [s' [[|ev evs]|]]; simpl in Hw; congruence.
  - injection Hw as _ ->. by apply (request_plan_not_corrupt _ q Hok).
Qed.
End Requests.

(** ** A concrete run

    A provisioned store with one Timeline, a policy of one automatic entry with
    one candidate, declared and then activated by a trap of the primary, and a
    fork behind both Events. *)

Module RegistrySample.
Import StoreProperties.Sample.

Definition digest (b : byte) : Hash := @Checked _ (has_len 32) (replicate 32 b) I.
Definition key (plugin : RString) (b : byte) : ImplementationKeyV1 :=
  MkImplementationKey plugin (lit "1.0.0") (digest b).
Definition primary : ImplementationKeyV1 := key (lit "org.primary") x01.
Definition backup : ImplementationKeyV1 := key (lit "org.backup") x02.
Definition entry : FallbackEntryV1 :=
  MkFallbackEntry (lit "world.main") (MkCompositionPin primary [lit "world"])
    [MkCompositionPin backup [lit "world"]] [ComponentTrap; WorkerCrashed] ModeAutomatic.
Definition policy : DomainFallbackPolicyV1 :=
  match policy_new (lit "scope") [entry] None with
  | Ok p => p
  | Err _ => MkDomainFallbackPolicy empty_string [] None hash_zero
  end.
Definition target : CompositionFallbackTargetV1 := MkTarget root_id (ulid xaa).
Definition declaration : FallbackDeclareRequestV1 :=
  MkDeclareRequest (lit "scope") target 0 0 (policy_to_canonical_cbor policy) [].
Definition activation : FallbackActivateRequestV1 :=
  MkActivateRequest (lit "scope") target 1 1 (lit "world.main") 0 primary backup ComponentTrap
    (MkBasis 7 OriginAutomatic) [] 5.

Definition m0 : MemoryStore := initial_memory (Some gate_new_test_open).
Definition m1 : MemoryStore := (provision_fallback_registry m0).1.
Definition m2 : MemoryStore := on_store m1 (create_timeline (ms_store m1) root_id (lit "main")).1.
Definition m3 : MemoryStore := (declare m2 declaration (ulid x31) 1000).1.
Definition m4 : MemoryStore := (activate m3 activation (ulid x32) 1001).1.
Definition m5 : MemoryStore := on_store m4 (fork (ms_store m4) fork_id root_id 2 (lit "fork")).1.

(** Another request for the declaration's key, and one that comes too late. *)
Definition conflicting : FallbackDeclareRequestV1 :=
  MkDeclareRequest (lit "scope") target 0 0 (policy_to_canonical_cbor policy)
    [(lit "world.main", [digest x09])].
Definition late : FallbackActivateRequestV1 :=
  MkActivateRequest (lit "scope") target 0 1 (lit "world.main") 0 primary backup WorkerCrashed
    (MkBasis 7 OriginAutomatic) [] 6.

Definition committed {A} (w : FallbackWrite A) (receipt : A -> FallbackCommitOutcomeV1) : bool :=
  match w.2 with Ok r => match receipt r with Committed => true | IdempotentReplay => false end | Err _ => false end.

Lemma mreachable_step m m' : mreachable m -> mstep m m' -> mreachable m'.
Proof. intros [g Hg] Hs. exists g. by eapply rtc_r. Qed.

Lemma m2_reachable : mreachable m2.
Proof.
  apply (mreachable_step m1).
  - apply (mreachable_step m0); [exists (Some gate_new_test_open); apply rtc_refl|apply mstep_provision].
  - apply mstep_create; [vm_compute; reflexivity|]. intros scope. reflexivity.
Qed.

Lemma declaration_ok : request_ok m2 (DeclareRequest declaration).
Proof.
  split; [apply room_sample; vm_compute; reflexivity|]. intros p old _ Hold.
  change (fs_policies (ms_fallback m2)) with (∅ : gmap Hash (list byte)) in Hold.
  by rewrite lookup_empty in Hold.
Qed.

Lemma m3_reachable : mreachable m3.
Proof.
  apply (mreachable_step m2); [apply m2_reachable|].
  exact (submit_mstep m2 (DeclareRequest declaration) (ulid x31) 1000 declaration_ok).
Qed.

Lemma activation_ok : request_ok m3 (ActivateRequest activation).
Proof. split; [apply room_sample|]; vm_compute; reflexivity. Qed.

Lemma m4_reachable : mreachable m4.
Proof.
  apply (mreachable_step m3); [apply m3_reachable|].
  exact (submit_mstep m3 (ActivateRequest activation) (ulid x32) 1001 activation_ok).
Qed.

(** A caller appends a declaration of its own, which does not decode, to the
    fork: the fork no longer folds, and the parent keeps its row. *)
Definition foreign : FreshDraft :=
  MkFresh (draft_new (ulid xaa) COMPOSITION_FALLBACK_DECLARED_EVENT_TYPE_V1 [x00]) (ulid x33) 1002.
Definition fork_call : PublicCall := CallFork fork_id root_id 2 (lit "fork").
Definition foreign_call : PublicCall := CallAppend fork_id [foreign].
Definition m6 : MemoryStore := run_call m5 foreign_call.

Lemma m6_reachable : exists D, preachable D m6 /\ D fork_id /\ ~ D root_id.
Proof.
  destruct (mreachable_preachable m4 m4_reachable) as (D & HD & Hn).
  assert (Hf : call_typed m4 fork_call) by (split; [vm_compute; reflexivity|done]).
  assert (Ha : call_typed m5 foreign_call) by (apply room_sample; vm_compute; reflexivity).
  pose proof (preach_call D m4 fork_call HD Hf) as H5. change (run_call m4 fork_call) with m5 in H5.
  exists (disturbed_after (disturbed_after D m4 fork_call) m5 foreign_call). split_and!.
  - exact (preach_call _ m5 foreign_call H5 Ha).
  - right. split; [done|]. intros [Hc _]%Forall_cons. vm_compute in Hc. done.
  - intros [[Hx|[Hx _]]|[Hx _]]; [by apply Hn in Hx|..]; by vm_compute in Hx.
Qed.

Lemma registry_invariant_witness :
  (exists row, fs_rows (ms_fallback m6) !! (lit "scope", root_id) = Some row
     /\ row_ok m6 (lit "scope") root_id row)
  /\ fold_timeline (memory_view m6) (lit "scope") fork_id = Err CorruptState.
Proof.
  split; [|vm_compute; reflexivity]. destruct m6_reachable as (D & Hr & _ & Hn).
  destruct (registry_invariant D m6 Hr) as [Hok _].
  destruct (fs_rows (ms_fallback m6) !! (lit "scope", root_id)) as [row|] eqn:Hrow.
  - exists row. split; [done|]. apply (off_rows _ _ Hok _ _ _ Hn Hrow). eexists. vm_compute. reflexivity.
  - exfalso. vm_compute in Hrow. done.
Defined.

(** A write that has to commit did so. *)
Ltac by_commit H w :=
  assert (H : committed w receipt_outcome = true) by (vm_compute; reflexivity).

Lemma write_all_or_nothing_witness :
  exists m' receipt row h e, submit m3 (ActivateRequest activation) (ulid x32) 1001 = (m', Ok receipt)
    /\ fs_rows (ms_fallback m') = <[(lit "scope", root_id) := row]> (fs_rows (ms_fallback m3))
    /\ names_event (h ++ [e]) (receipt_row receipt).
Proof.
  by_commit Hc (submit m3 (ActivateRequest activation) (ulid x32) 1001).
  destruct (submit m3 (ActivateRequest activation) (ulid x32) 1001) as [m' r] eqn:Hs. exists m'.
  destruct (write_all_or_nothing m3 (ActivateRequest activation) (ulid x32) 1001 m' r
    m3_reachable activation_ok Hs) as [[_ Hr]|(receipt & row & h & e & Hr & _ & Hrows & _ & _ & Hn & _)].
  - exfalso. unfold committed in Hc. cbn [snd] in Hc. destruct r as [receipt|]; [|discriminate Hc].
    specialize (Hr receipt eq_refl). rewrite Hr in Hc. discriminate Hc.
  - exists receipt, row, h, e. rewrite Hr. split; [reflexivity|]. split; [exact Hrows|exact Hn].
Defined.

Lemma write_idempotent_witness :
  exists m' receipt, submit m3 (ActivateRequest activation) (ulid x32) 1001 = (m', Ok receipt)
    /\ submit m' (ActivateRequest activation) (ulid x33) 1002
       = (m', Ok (MkReceipt (receipt_row receipt) IdempotentReplay)).
Proof.
  by_commit Hc (submit m3 (ActivateRequest activation) (ulid x32) 1001).
  destruct (submit m3 (ActivateRequest activation) (ulid x32) 1001) as [m' [receipt|e]] eqn:Hs;
    [|discriminate Hc].
  exists m', receipt. split; [reflexivity|].
  exact (write_idempotent m3 (ActivateRequest activation) (ulid x32) 1001 m' receipt (ulid x33) 1002
    m3_reachable activation_ok Hs).
Defined.

Lemma occupied_key_decides_witness :
  submit m3 (DeclareRequest conflicting) (ulid x34) 1003 = (m3, Err Conflict).
Proof.
  assert (Hl : exists r, ledger (ms_fallback m3) (lit "scope") root_id = [r]
    /\ ledger_key r = inl (policy_policy_digest policy) /\ lr_entity r = ulid xaa
    /\ lr_request_digest r = request_digest (DeclareRequest declaration))
    by (eexists; split; [vm_compute; reflexivity|]; split; [|split]; vm_compute; reflexivity).
  destruct Hl as (r & Hl & Hk & He & Hd).
  rewrite (occupied_key_decides m3 (DeclareRequest conflicting) (inl (policy_policy_digest policy)) r
    gate_new_test_open (ulid x34) 1003 m3_reachable).
  - rewrite Hd. rewrite decide_False; [reflexivity|]. vm_compute. intros Heq. discriminate Heq.
  - vm_compute. reflexivity.
  - vm_compute. reflexivity.
  - vm_compute. reflexivity.
  - eexists. vm_compute. reflexivity.
  - vm_compute. reflexivity.
  - change (request_scope (DeclareRequest conflicting)) with (lit "scope").
    change (request_timeline (DeclareRequest conflicting)) with root_id. rewrite Hl. left.
  - exact Hk.
  - exact He.
Defined.

Lemma committed_lookup_witness :
  exists m' receipt, submit m3 (ActivateRequest activation) (ulid x32) 1001 = (m', Ok receipt)
    /\ lookup_activation m' (lit "scope") root_id (lit "world.main") 0 = Ok (Some (receipt_row receipt)).
Proof.
  by_commit Hc (submit m3 (ActivateRequest activation) (ulid x32) 1001).
  destruct (submit m3 (ActivateRequest activation) (ulid x32) 1001) as [m' [receipt|e]] eqn:Hs;
    [|discriminate Hc].
  exists m', receipt. split; [reflexivity|].
  exact (committed_lookup m3 (ActivateRequest activation) (ulid x32) 1001 m' receipt
    m3_reachable activation_ok Hs).
Defined.

Lemma write_isolated_witness :
  exists m' r, submit m3 (ActivateRequest activation) (ulid x32) 1001 = (m', r)
    /\ ledger (ms_fallback m') (lit "other") root_id = ledger (ms_fallback m3) (lit "other") root_id.
Proof.
  destruct (submit m3 (ActivateRequest activation) (ulid x32) 1001) as [m' r] eqn:Hs. exists m', r.
  split; [reflexivity|].
  refine (proj1 (proj2 (write_isolated m3 (ActivateRequest activation) (ulid x32) 1001 m' r
    (lit "other") root_id m3_reachable activation_ok Hs _))).
  intros Heq. apply (f_equal fst) in Heq. vm_compute in Heq. discriminate Heq.
Defined.

Lemma derived_state_is_row_witness :
  exists row, registry_row m4 (lit "scope") root_id = Ok (Some row)
    /\ derived_fallback_state_v1 m4 (lit "scope") root_id = Ok (row_state row).
Proof.
  assert (Hr : exists row, registry_row m4 (lit "scope") root_id = Ok (Some row))
    by (eexists; vm_compute; reflexivity).
  assert (He : exists evs, read (ms_store m4) root_id seq_range_all = Ok evs)
    by (eexists; vm_compute; reflexivity).
  destruct Hr as [row Hr], He as [evs He]. exists row. split; [exact Hr|].
  exact (derived_state_is_row m4 (lit "scope") root_id row evs m4_reachable Hr He).
Defined.

(** The fork inherits the state after the activation and has no row of its own. *)
Lemma fork_derives_state_at_cut_witness :
  exists s' child hp, fork (ms_store m4) fork_id root_id 2 (lit "fork") = (s', Ok child)
    /\ history (st_timelines (ms_store m4)) root_id hp
    /\ fold_timeline (memory_view (on_store m4 s')) (lit "scope") fork_id
       = try_fold (memory_view m4) (lit "scope") fold_default (take 2 hp).
Proof.
  assert (Hok : is_ok (fork (ms_store m4) fork_id root_id 2 (lit "fork")).2 = true)
    by (vm_compute; reflexivity).
  assert (Hp : exists pst, st_timelines (ms_store m4) !! root_id = Some pst /\ prefix_of pst <= 2)
    by (eexists; split; [vm_compute; reflexivity|vm_compute; discriminate]).
  destruct Hp as (pst & Hp & Hpre).
  destruct (fork (ms_store m4) fork_id root_id 2 (lit "fork")) as [s' [child|e]] eqn:Hf; [|discriminate Hok].
  destruct (fork_derives_state_at_cut m4 (lit "scope") fork_id root_id 2 (lit "fork") s' child pst
    m4_reachable) as (_ & hp & Hh & _ & Hfold).
  - vm_compute. reflexivity.
  - intros scope. destruct (fs_rows (ms_fallback m4) !! (scope, fork_id)) as [row|] eqn:Hrow; [|reflexivity].
    exfalso. change (fs_rows (ms_fallback m4)) with
      (fs_rows (ms_fallback (activate m3 activation (ulid x32) 1001).1)) in Hrow.
    apply elem_of_map_to_list in Hrow. apply (list_elem_of_fmap_2 (fun e => e.1.2)) in Hrow.
    assert (Hkeys : (fun e => e.1.2) <$> map_to_list (fs_rows (ms_fallback (activate m3 activation (ulid x32) 1001).1))
      = [root_id]) by (vm_compute; reflexivity).
    rewrite Hkeys in Hrow. apply list_elem_of_singleton in Hrow. vm_compute in Hrow. discriminate Hrow.
  - lia.
  - exact Hp.
  - exact Hpre.
  - exact Hf.
  - exists s', child, hp. split; [reflexivity|]. split; [exact Hh|exact Hfold].
Defined.

Lemma stale_after_commit_witness :
  exists m', (submit m2 (DeclareRequest declaration) (ulid x31) 1000).1 = m'
    /\ submit m' (ActivateRequest late) (ulid x35) 1004 = (m', Err StaleState).
Proof.
  by_commit Hc (submit m2 (DeclareRequest declaration) (ulid x31) 1000).
  assert (Hk : (ledger_key <$> ledger (ms_fallback (submit m2 (DeclareRequest declaration) (ulid x31) 1000).1)
    (lit "scope") root_id) = [inl (policy_policy_digest policy)]) by (vm_compute; reflexivity).
  destruct (submit m2 (DeclareRequest declaration) (ulid x31) 1000) as [m' [[row []]|e]] eqn:Hs;
    [|discriminate Hc|discriminate Hc].
  exists m'. split; [reflexivity|].
  apply (stale_after_commit m2 (DeclareRequest declaration) (ActivateRequest late) (ulid x31) 1000
    (ulid x35) 1004 m' row (inr (lit "world.main", 0)) m2_reachable declaration_ok Hs);
    [reflexivity|reflexivity|reflexivity|reflexivity|reflexivity|].
  change (request_scope (DeclareRequest declaration)) with (lit "scope").
  change (request_timeline (DeclareRequest declaration)) with root_id.
  cbn [fst] in Hk. rewrite Hk. intros Hin. apply list_elem_of_singleton in Hin. discriminate Hin.
Defined.

Lemma activation_effect_witness :
  exists m' row f p t, activate m3 activation (ulid x32) 1001 = (m', Ok (MkReceipt row Committed))
    /\ fold_timeline (memory_view m3) (lit "scope") root_id = Ok f /\ fold_policy f = Some p
    /\ tr_entry t ∈ policy_entries p /\ es_effective_digest (tr_next t) = imk_digest backup.
Proof.
  by_commit Hc (activate m3 activation (ulid x32) 1001).
  destruct (activate m3 activation (ulid x32) 1001) as [m' [[row []]|e]] eqn:Hs;
    [|discriminate Hc|discriminate Hc].
  destruct (activation_effect m3 activation (ulid x32) 1001 m' row m3_reachable activation_ok Hs)
    as (f & p & t & Hf & Hp & _ & Hin & _ & _ & _ & _ & _ & Heff & _).
  exists m', row, f, p, t. split; [reflexivity|]. split; [exact Hf|]. split; [exact Hp|].
  split; [exact Hin|exact Heff].
Defined.

Lemma declaration_effect_witness :
  exists m' row f p s', declare m2 declaration (ulid x31) 1000 = (m', Ok (MkReceipt row Committed))
    /\ fold_timeline (memory_view m2) (lit "scope") root_id = Ok f
    /\ policy_from_canonical_cbor (dreq_policy_bytes declaration) = Ok p
    /\ rst_policy_digest s' = Some (policy_policy_digest p).
Proof.
  by_commit Hc (declare m2 declaration (ulid x31) 1000).
  destruct (declare m2 declaration (ulid x31) 1000) as [m' [[row []]|e]] eqn:Hs;
    [|discriminate Hc|discriminate Hc].
  destruct (declaration_effect m2 declaration (ulid x31) 1000 m' row m2_reachable declaration_ok Hs)
    as (f & p & s' & Hf & Hp & _ & _ & _ & Hd & _).
  exists m', row, f, p, s'. split; [reflexivity|]. split; [exact Hf|]. split; [exact Hp|exact Hd].
Defined.

Lemma corruption_unreachable_witness :
  exists m' e, submit m3 (ActivateRequest late) (ulid x35) 1004 = (m', Err e) /\ e <> CorruptState.
Proof.
  assert (Hok : is_ok (submit m3 (ActivateRequest late) (ulid x35) 1004).2 = false)
    by (vm_compute; reflexivity).
  destruct (submit m3 (ActivateRequest late) (ulid x35) 1004) as [m' [r|e]] eqn:Hs; [discriminate Hok|].
  exists m', e. split; [reflexivity|].
  exact (corruption_unreachable m3 (ActivateRequest late) (ulid x35) 1004 m' e m3_reachable Hs).
Defined.

(** The fold of the sample Timeline. *)
Lemma sample_fold : exists f, fold_timeline (memory_view m4) (lit "scope") root_id = Ok f.
Proof. eexists. vm_compute. reflexivity. Qed.

Lemma folded_state_sound_witness :
  exists f, fold_timeline (memory_view m4) (lit "scope") root_id = Ok f /\ fold_wf f.
Proof.
  destruct sample_fold as [f Hf]. exists f. split; [exact Hf|].
  exact (folded_state_sound (memory_view m4) (lit "scope") root_id f Hf).
Defined.

Definition sample_events : list Event :=
  match timeline_events (memory_view m4) root_id with Ok evs => evs | Err _ => [] end.

Lemma fold_counts_operations_witness :
  exists f, recorded (lit "scope") sample_events = [None; Some (lit "world.main")]
    /\ counts (recorded (lit "scope") sample_events) (fold_state f).
Proof.
  assert (He : timeline_events (memory_view m4) root_id = Ok sample_events) by (vm_compute; reflexivity).
  destruct sample_fold as [f Hf]. exists f. split; [vm_compute; reflexivity|].
  exact (fold_counts_operations (memory_view m4) (lit "scope") root_id sample_events f He Hf).
Defined.

Lemma rebasing_complete_witness :
  exists f d, fold_timeline (memory_view m4) (lit "scope") root_id = Ok f
    /\ declared_for_policy policy (rebased_entries (fold_state f)) = Ok d.
Proof.
  destruct sample_fold as [f Hf].
  destruct (rebasing_complete (memory_view m4) (lit "scope") root_id f policy Hf
    ltac:(vm_compute; reflexivity)) as (d & Hd & _).
  exists f, d. split; [exact Hf|exact Hd].
Defined.

End RegistrySample.
