(* ===== verification/StrictCbor.v ===== *)
(** * The strict deterministic CBOR reader

    [crates/pos-crypto/src/strict_cbor.rs]: the reader of the Plugin trust
    records, which accepts only definite-length items in their shortest form.
    It reports a failure at the field ordinal last selected with [at]; the
    trust records never select one, so every failure is reported at ordinal 0.

    [reads p R] states exactly what a reader accepts: started anywhere in the
    input it returns [a] if and only if the input continues with some [enc]
    such that [R a enc], and it stops right behind [enc]. *)

From Stdlib Require Import ZArith Lia Bool.
From S2P Require Import Prelude Text Cbor.

Local Open Scope Z_scope.

Class StrictCborError (E : Type) := {
  invalid_encoding : Z -> E;
  bounds_exceeded : Z -> E;
}.

(** [u64::from_be_bytes]. *)
Definition from_be_bytes (bs : list byte) : Z :=
  fold_left (fun value b => value * 256 + Z_of_byte b) bs 0.

(** ** The reader *)

Section Reader.
Context {E : Type} `{StrictCborError E}.

Definition s_invalid : E := invalid_encoding 0.
Definition s_exceeded : E := bounds_exceeded 0.
Definition s_fail {A} : Parser E A := plift (Err s_invalid).

Definition s_byte : Parser E byte := fun c =>
  match cbytes c !! Z.to_nat (coffset c) with
  | Some b => Ok (b, advance 1 c)
  | None => Err s_invalid
  end.

Definition s_take (count : Z) : Parser E (list byte) := fun c =>
  if len (cbytes c) - coffset c <? count then Err s_invalid
  else Ok (take (Z.to_nat count) (drop (Z.to_nat (coffset c)) (cbytes c)), advance count c).

(** The argument of a head whose additional information is 24 to 27: [width]
    bytes, right-aligned in the eight-byte buffer, at least [minimum]. *)
Definition s_argument (major : Z) (width : nat) (minimum : Z) : Parser E (Z * Z) :=
  let! taken := s_take (Z.of_nat width) in
  let value := from_be_bytes (replicate (8 - width) x00 ++ taken) in
  if value <? minimum then s_fail else pret (major, value).

Definition s_head : Parser E (Z * Z) :=
  let! first := s_byte in
  let small := Z.land (Z_of_byte first) 31 in
  let major := Z.shiftr (Z_of_byte first) 5 in
  if small <=? 23 then pret (major, small)
  else if small =? 24 then s_argument major 1 24
  else if small =? 25 then s_argument major 2 0x100
  else if small =? 26 then s_argument major 4 0x10000
  else if small =? 27 then s_argument major 8 0x100000000
  else s_fail.

(** [usize] is 64 bits wide. *)
Definition s_bounded (count max : Z) : Parser E Z :=
  plift (if (count <=? U64_MAX) && (count <=? max) then Ok count else Err s_exceeded).

Definition s_array (max : Z) : Parser E Z :=
  let! (major, count) := s_head in
  if negb (major =? 4) then s_fail else s_bounded count max.

Definition s_unsigned : Parser E Z :=
  let! (major, value) := s_head in
  if negb (major =? 0) then s_fail else pret value.

Definition I64_MAX : Z := 9223372036854775807.

Definition s_signed : Parser E Z :=
  let! (major, value) := s_head in
  if major =? 0 then (if value <=? I64_MAX then pret value else s_fail)
  else if major =? 1 then (if value <=? I64_MAX then pret (-1 - value) else s_fail)
  else s_fail.

(** The preferred encoding of a signed integer. *)
Definition encode_signed (v : Z) : list byte :=
  if bool_decide (0 <= v) then encode_head 0 v else encode_head 1 (-1 - v).

Definition s_text (max : Z) : Parser E RString :=
  let! (major, length) := s_head in
  if negb (major =? 3) then s_fail
  else
    let! length := s_bounded length max in
    let! taken := s_take length in
    plift (ok_or (from_utf8 taken) s_invalid).

(** [bytes::<N>()]: a byte string of exactly [N] bytes. *)
Definition s_bytes (N : Z) : Parser E (checked (has_len N)) :=
  let! (major, length) := s_head in
  if negb (major =? 2) || negb (length =? N) then s_fail
  else
    let! taken := s_take N in
    plift (ok_or (make (has_len N) taken) s_invalid).

Definition s_null (c : CborCursor) : bool * CborCursor := consume_if xf6 c.

(** [if reader.null() { Ok(None) } else { item(reader).map(Some) }]. *)
Definition s_optional {T} (item : Parser E T) : Parser E (option T) := fun c =>
  let (null, c') := s_null c in
  if null then Ok (None, c') else (let! x := item in pret (Some x)) c'.

Definition s_optional_bytes (N : Z) : Parser E (option (checked (has_len N))) :=
  s_optional (s_bytes N).

Definition s_finish (c : CborCursor) : result E unit :=
  if coffset c =? len (cbytes c) then Ok tt else Err s_invalid.

(** [for _ in 0..count { .. }], pushing one item per round.  The item reader
    sees what was pushed before: the loops check it against the last item and
    against sets that hold a field of every pushed one. *)
Fixpoint s_repeat {T} (item : list T -> Parser E T) (pushed : list T) (count : nat)
    : Parser E (list T) :=
  match count with
  | O => pret pushed
  | S count' =>
      let! x := item pushed in
      s_repeat item (pushed ++ [x]) count'
  end.
End Reader.

(** ** What readers accept *)

Definition reads {E A} (p : Parser E A) (R : A -> list byte -> Prop) : Prop :=
  forall pre bs a c',
    p (Cursor (pre ++ bs) (len pre)) = Ok (a, c')
    <-> exists enc rest, bs = enc ++ rest /\ R a enc
        /\ c' = Cursor (pre ++ bs) (len pre + len enc).

Section Reads.
Context {E A B : Type}.

Lemma reads_iff (p : Parser E A) (R R' : A -> list byte -> Prop) :
  reads p R -> (forall a e, R a e <-> R' a e) -> reads p R'.
Proof.
  intros Hp HR pre bs a c'. rewrite (Hp pre bs a c'). by setoid_rewrite HR.
Qed.

Lemma reads_ret (a : A) : reads (@pret E A a) (fun x e => x = a /\ e = []).
Proof.
  intros pre bs x c'. unfold pret. split.
  - intros [= -> <-]. exists [], bs. autorewrite with len. by rewrite Z.add_0_r.
  - intros (enc & rest & -> & [-> ->] & ->). autorewrite with len. by rewrite Z.add_0_r.
Qed.

Lemma reads_lift (m : result E A) : reads (plift m) (fun x e => m = Ok x /\ e = []).
Proof.
  intros pre bs x c'. unfold plift. destruct m as [a|err].
  - rewrite (reads_ret a pre bs x c'). split; intros (enc & rest & ? & [? ?] & ?);
      exists enc, rest; naive_solver.
  - split; [done|]. by intros (enc & rest & _ & [? _] & _).
Qed.

Lemma reads_fail (e : E) : reads (@plift E A (Err e)) (fun _ _ => False).
Proof. eapply reads_iff; [apply reads_lift|]. naive_solver. Qed.

Lemma reads_bind (p : Parser E A) (k : A -> Parser E B) R1 R2 :
  reads p R1 -> (forall a e, R1 a e -> reads (k a) (R2 a)) ->
  reads (pbind p k) (fun b e => exists a e1 e2, e = e1 ++ e2 /\ R1 a e1 /\ R2 a b e2).
Proof.
  intros Hp Hk pre bs b c'. unfold pbind. split.
  - destruct (p (Cursor (pre ++ bs) (len pre))) as [[a c1]|] eqn:Hpa; [|done].
    apply Hp in Hpa as (e1 & rest & -> & HR1 & ->). intros Hb.
    specialize (Hk a e1 HR1 (pre ++ e1) rest b c'). rewrite len_app, <- app_assoc in Hk.
    apply Hk in Hb as (e2 & rest2 & -> & HR2 & ->).
    exists (e1 ++ e2), rest2. rewrite app_assoc, len_app, <- Z.add_assoc. naive_solver.
  - intros (enc & rest & -> & (a & e1 & e2 & -> & HR1 & HR2) & ->).
    assert (Hpa : p (Cursor (pre ++ (e1 ++ e2) ++ rest) (len pre))
      = Ok (a, Cursor (pre ++ (e1 ++ e2) ++ rest) (len pre + len e1))).
    { apply Hp. exists e1, (e2 ++ rest). by rewrite app_assoc. }
    rewrite Hpa. specialize (Hk a e1 HR1 (pre ++ e1) (e2 ++ rest) b
      (Cursor (pre ++ (e1 ++ e2) ++ rest) (len pre + len (e1 ++ e2)))).
    rewrite !len_app, <- !app_assoc in *. apply Hk.
    exists e2, rest. by rewrite Z.add_assoc.
Qed.

(** Two inputs with one parsed value and one relation agree on the encoding;
    a reader with a functional relation is a bijection between the values it
    can return and their encodings. *)
Lemma reads_run (p : Parser E A) R bytes a c' :
  reads p R -> p (cursor_new bytes) = Ok (a, c') ->
  exists enc rest, bytes = enc ++ rest /\ R a enc /\ c' = Cursor bytes (len enc).
Proof. intros Hp Ha. by apply (Hp [] bytes a c') in Ha. Qed.

Lemma reads_run_back (p : Parser E A) R enc a :
  reads p R -> R a enc -> p (cursor_new enc) = Ok (a, Cursor enc (len enc)).
Proof. intros Hp Ha. apply (Hp [] enc). exists enc, []. by rewrite app_nil_r. Qed.
End Reads.

Lemma reads_bind2 {E A1 A2 B} (p : Parser E (A1 * A2)) (k : A1 -> A2 -> Parser E B) R1 R2 :
  reads p R1 -> (forall x y e, R1 (x, y) e -> reads (k x y) (R2 x y)) ->
  reads (let! (x, y) := p in k x y)
    (fun b e => exists x y e1 e2, e = e1 ++ e2 /\ R1 (x, y) e1 /\ R2 x y b e2).
Proof.
  intros Hp Hk. eapply reads_iff.
  - eapply (reads_bind _ _ _ (fun r => R2 r.1 r.2)); [exact Hp|]. intros [x y] e Hr. by eapply Hk.
  - intros b e. split; [intros ([x y] & ?); by exists x, y|intros (x & y & ?); by exists (x, y)].
Qed.

(** A reader behind a guard. *)
Lemma reads_guard {E A} (c : bool) (err : E) (p : Parser E A) R :
  reads p R -> reads (if c then plift (Err err) else p) (fun a e => R a e /\ c = false).
Proof.
  intros Hp. destruct c.
  - eapply reads_iff; [apply reads_fail|]. naive_solver.
  - eapply reads_iff; [apply Hp|]. naive_solver.
Qed.

Lemma reads_unless {E A} (c : bool) (err : E) (p : Parser E A) R :
  reads p R -> reads (if c then p else plift (Err err)) (fun a e => R a e /\ c = true).
Proof.
  intros Hp. destruct c.
  - eapply reads_iff; [apply Hp|]. naive_solver.
  - eapply reads_iff; [apply reads_fail|]. naive_solver.
Qed.

(** The last field of a record. *)
Lemma reads_bind_ret {E A B} (p : Parser E A) (f : A -> B) R :
  reads p R -> reads (let! a := p in pret (f a)) (fun b e => exists a, R a e /\ b = f a).
Proof.
  intros Hp. eapply reads_iff; [eapply reads_bind; [apply Hp|]; intros a e0 _; apply reads_ret|].
  intros b e. split.
  - intros (a & e1 & e2 & -> & HR & -> & ->). exists a. by rewrite app_nil_r.
  - intros (a & HR & ->). exists a, e, []. by rewrite app_nil_r.
Qed.

Lemma reads_bind_check_ret {E A B} (p : Parser E A) (f : A -> B) (c : A -> bool) (err : E) R :
  reads p R ->
  reads (let! a := p in if c a then plift (Err err) else pret (f a))
    (fun b e => exists a, R a e /\ b = f a /\ c a = false).
Proof.
  intros Hp. eapply reads_iff.
  { eapply reads_bind; [apply Hp|]. intros a e0 _. apply reads_guard, reads_ret. }
  intros b e. split.
  - intros (a & e1 & e2 & -> & HR & [-> ->] & Hc). exists a. by rewrite app_nil_r.
  - intros (a & HR & -> & Hc). exists a, e, []. by rewrite app_nil_r.
Qed.

(** A conversion of what was read. *)
Lemma reads_bind_lift {E A B} (p : Parser E A) (f : A -> result E B) R :
  reads p R -> reads (let! a := p in plift (f a)) (fun b e => exists a, R a e /\ f a = Ok b).
Proof.
  intros Hp. eapply reads_iff; [eapply reads_bind; [apply Hp|]; intros a e0 _; apply reads_lift|].
  intros b e. split.
  - intros (a & e1 & e2 & -> & HR & Hf & ->). exists a. by rewrite app_nil_r.
  - intros (a & HR & Hf). exists a, e, []. by rewrite app_nil_r.
Qed.

(** A check between two fields. *)
Lemma reads_then_lift {E A B} (m : result E A) (k : Parser E B) R :
  reads k R -> reads (let! _ := plift m in k) (fun b e => R b e /\ is_ok m = true).
Proof.
  intros Hk. eapply reads_iff.
  { eapply (reads_bind _ _ _ (fun _ => R)); [apply reads_lift|]. intros a e0 _. exact Hk. }
  intros b e. split.
  - intros (a & e1 & e2 & -> & [Hm ->] & HR). by rewrite Hm.
  - intros [HR Hm]. destruct m as [a|]; [|done]. by exists a, [], e.
Qed.

Lemma reads_bind_lift_ret {E A B C} (p : Parser E A) (m : A -> result E C) (f : A -> B) R :
  reads p R ->
  reads (let! a := p in let! _ := plift (m a) in pret (f a))
    (fun b e => exists a, R a e /\ b = f a /\ is_ok (m a) = true).
Proof.
  intros Hp. eapply reads_iff.
  { eapply reads_bind; [apply Hp|]. intros a e0 _. apply reads_then_lift, reads_ret. }
  intros b e. split.
  - intros (a & e1 & e2 & -> & HR & [-> ->] & Hc). exists a. by rewrite app_nil_r.
  - intros (a & HR & -> & Hc). exists a, e, []. by rewrite app_nil_r.
Qed.

Create HintDb reads.
#[export] Hint Resolve reads_ret reads_lift reads_fail : reads.

(** ** Big-endian numbers *)

Lemma from_be_bytes_snoc bs b : from_be_bytes (bs ++ [b]) = from_be_bytes bs * 256 + Z_of_byte b.
Proof. unfold from_be_bytes. by rewrite fold_left_app. Qed.

Lemma from_be_bytes_range bs : 0 <= from_be_bytes bs < 256 ^ len bs.
Proof.
  induction bs as [|b bs IH] using rev_ind; [done|].
  rewrite from_be_bytes_snoc, len_app. change (len [b]) with 1.
  pose proof (Z_of_byte_range b). pose proof (len_nonneg bs).
  rewrite Z.add_1_r, Z.pow_succ_r by lia. lia.
Qed.

Lemma from_be_bytes_zeros n bs : from_be_bytes (replicate n x00 ++ bs) = from_be_bytes bs.
Proof.
  unfold from_be_bytes. rewrite fold_left_app. f_equal.
  induction n as [|n IH]; [done|]. rewrite replicate_S_end, fold_left_app, IH. done.
Qed.

Lemma from_be_bytes_inj a b :
  length a = length b -> from_be_bytes a = from_be_bytes b -> a = b.
Proof.
  revert b. induction a as [|x a IH] using rev_ind; intros b Hl He.
  - by destruct b.
  - destruct b as [|y b _] using rev_ind; [rewrite length_app in Hl; simpl in Hl; lia|].
    rewrite !length_app in Hl. simpl in Hl. rewrite !from_be_bytes_snoc in He.
    pose proof (Z_of_byte_range x). pose proof (Z_of_byte_range y).
    rewrite (IH b) by lia. repeat f_equal. apply (inj Z_of_byte). lia.
Qed.

Lemma from_be_bytes_be_bytes n z : 0 <= z -> from_be_bytes (be_bytes n z) = z mod 256 ^ Z.of_nat n.
Proof.
  intros Hz. unfold from_be_bytes.
  assert (Hgen : forall v, fold_left (fun value b => value * 256 + Z_of_byte b) (be_bytes n z) v
    = v * 256 ^ Z.of_nat n + z mod 256 ^ Z.of_nat n); [|by rewrite Hgen].
  induction n as [|n IH]; intros v.
  - simpl. change (256 ^ Z.of_nat 0) with 1. rewrite Z.mod_1_r. lia.
  - cbn [be_bytes fold_left]. rewrite IH, Z_of_byte_mod, Z.shiftr_div_pow2 by lia.
    rewrite (Z.pow_mul_r 2 8) by lia. change (2 ^ 8) with 256.
    rewrite Nat2Z.inj_succ, Z.pow_succ_r by lia.
    pose proof (Z.pow_pos_nonneg 256 (Z.of_nat n)).
    rewrite (Z.mul_comm 256), Z.rem_mul_r by lia. lia.
Qed.

Lemma be_bytes_from_be_bytes bs : be_bytes (length bs) (from_be_bytes bs) = bs.
Proof.
  pose proof (from_be_bytes_range bs) as Hr. apply from_be_bytes_inj; [apply length_be_bytes|].
  rewrite from_be_bytes_be_bytes by lia. by apply Z.mod_small.
Qed.

(** ** The primitive readers *)

Section Primitives.
Context {E : Type} `{StrictCborError E}.

Lemma reads_byte : reads (s_byte (E:=E)) (fun b e => e = [b]).
Proof.
  intros pre bs b c'. unfold s_byte, advance. cbn [cbytes coffset]. rewrite len_to_nat.
  rewrite lookup_app_r, Nat.sub_diag by lia. split.
  - destruct bs as [|x bs]; [done|]. simpl. intros [= -> <-]. by exists [b], bs.
  - intros (enc & rest & -> & -> & ->). done.
Qed.

Lemma reads_take n : 0 <= n -> reads (s_take (E:=E) n) (fun bs e => e = bs /\ len bs = n).
Proof.
  intros Hn pre bs a c'. unfold s_take, advance. cbn [cbytes coffset].
  rewrite len_to_nat, len_app, drop_app_length. split.
  - destruct (Z.ltb_spec (len pre + len bs - len pre) n) as [|Hle]; [done|]. intros [= <- <-].
    exists (take (Z.to_nat n) bs), (drop (Z.to_nat n) bs). rewrite take_drop.
    assert (len (take (Z.to_nat n) bs) = n) as ->; [|done].
    unfold len in *. rewrite length_take. lia.
  - intros (enc & rest & -> & [-> <-] & ->). rewrite len_app.
    destruct (Z.ltb_spec (len pre + (len a + len rest) - len pre) (len a)); [len_lia|].
    by rewrite len_to_nat, take_app_length.
Qed.

(** The encodings of one head: the argument follows in [width] bytes. *)
Lemma reads_argument major width minimum :
  (width <= 8)%nat ->
  reads (s_argument (E:=E) major width minimum)
    (fun r e => exists value, r = (major, value) /\ minimum <= value < 256 ^ Z.of_nat width
      /\ 0 <= value /\ e = be_bytes width value).
Proof.
  intros Hw. unfold s_argument. eapply reads_iff.
  { eapply reads_bind; [apply reads_take; lia|]. intros taken e0 _. cbv zeta.
    instantiate (1 := fun taken r e => r = (major, from_be_bytes taken) /\ e = []
      /\ minimum <= from_be_bytes taken). cbv beta.
    rewrite from_be_bytes_zeros. destruct (Z.ltb_spec (from_be_bytes taken) minimum).
    - eapply reads_iff; [apply reads_fail|]. naive_solver lia.
    - eapply reads_iff; [apply reads_ret|]. naive_solver. }
  intros r e. split.
  - intros (taken & e1 & e2 & -> & [-> Hl] & -> & -> & Hmin). exists (from_be_bytes taken).
    pose proof (from_be_bytes_range taken) as Hr. rewrite Hl in Hr.
    rewrite app_nil_r. assert (Hlw : length taken = width) by (unfold len in Hl; lia).
    split_and!; [done|done|lia|lia|]. by rewrite <- Hlw, be_bytes_from_be_bytes.
  - intros (value & -> & Hv & Hz & ->).
    exists (be_bytes width value), (be_bytes width value), []. rewrite app_nil_r.
    rewrite from_be_bytes_be_bytes, Z.mod_small by lia.
    unfold len. rewrite length_be_bytes. split_and!; done || lia.
Qed.

Lemma first_byte_split b :
  Z_of_byte b = Z.shiftr (Z_of_byte b) 5 * 32 + Z.land (Z_of_byte b) 31
  /\ 0 <= Z.shiftr (Z_of_byte b) 5 <= 7 /\ 0 <= Z.land (Z_of_byte b) 31 <= 31.
Proof.
  pose proof (Z_of_byte_range b). change 31 with (Z.ones 5) at 1 2 3. rewrite Z.land_ones, Z.shiftr_div_pow2 by lia.
  change (2 ^ 5) with 32. pose proof (Z.div_mod (Z_of_byte b) 32).
  pose proof (Z.mod_pos_bound (Z_of_byte b) 32).
  split_and!; lia.
Qed.

(** Additional information, argument width and least argument of the long
    heads. *)
Definition long_forms : list (Z * nat * Z) :=
  [(24, 1%nat, 24); (25, 2%nat, 0x100); (26, 4%nat, 0x10000); (27, 8%nat, 0x100000000)].

Lemma long_form_cases info w mn : (info, w, mn) ∈ long_forms ->
  (info = 24 /\ w = 1%nat /\ mn = 24) \/ (info = 25 /\ w = 2%nat /\ mn = 0x100)
  \/ (info = 26 /\ w = 4%nat /\ mn = 0x10000) \/ (info = 27 /\ w = 8%nat /\ mn = 0x100000000).
Proof. unfold long_forms. set_unfold. naive_solver. Qed.

(** What a head may be: the first byte and what follows it. *)
Definition head_tail (b : byte) (r : Z * Z) (e : list byte) : Prop :=
  r.1 = Z.shiftr (Z_of_byte b) 5 /\
  (Z.land (Z_of_byte b) 31 <= 23 /\ r.2 = Z.land (Z_of_byte b) 31 /\ e = []
   \/ exists width minimum, (Z.land (Z_of_byte b) 31, width, minimum) ∈ long_forms
      /\ minimum <= r.2 < 256 ^ Z.of_nat width /\ 0 <= r.2 /\ e = be_bytes width r.2).

Lemma reads_head_long b w mn :
  (Z.land (Z_of_byte b) 31, w, mn) ∈ long_forms ->
  reads (s_argument (E:=E) (Z.shiftr (Z_of_byte b) 5) w mn) (head_tail b).
Proof.
  intros Hw. pose proof (long_form_cases _ _ _ Hw) as Hc.
  eapply reads_iff; [apply reads_argument; lia|]. intros [m v] e. unfold head_tail. simpl. split.
  - intros (value & [= -> ->] & Hv & Hz & ->). split; [done|right]. by exists w, mn.
  - intros (-> & [(? & _)|(w' & mn' & Hw' & Hv & Hz & ->)]); [lia|]. exists v.
    apply long_form_cases in Hw'. assert (w' = w /\ mn' = mn) as [-> ->] by lia. done.
Qed.

(** The encodings a head reader accepts: the preferred one. *)
Definition head_enc (r : Z * Z) (e : list byte) : Prop :=
  0 <= r.1 <= 7 /\ u64_ok r.2 /\ e = encode_head r.1 r.2.

Lemma encode_head_small major value :
  0 <= major <= 7 -> 0 <= value <= 23 -> encode_head major value = [byte_of_Z (major * 32 + value)].
Proof.
  intros Hm Hv. unfold encode_head, to_be_bytes. rewrite (proj2 (Z.leb_le _ 23)) by lia.
  cbn [be_bytes nth]. change (8 * Z.of_nat 0) with 0.
  rewrite Z.shiftr_0_r, (Z_of_byte_of_Z value) by lia. simpl. f_equal.
  apply (inj Z_of_byte). rewrite head_byte by lia. by rewrite Z_of_byte_of_Z by lia.
Qed.

Lemma encode_head_long major value info width minimum :
  0 <= major <= 7 -> minimum <= value < 256 ^ Z.of_nat width -> 0 <= value ->
  (info, width, minimum) ∈ long_forms ->
  encode_head major value = byte_of_Z (major * 32 + info) :: be_bytes width value
  /\ u64_ok value.
Proof.
  intros Hm Hv Hz Hin. pose proof (long_form_cases _ _ _ Hin) as Hc.
  assert (byte_of_Z (major * 32 + info) = byte_of_Z (Z.lor (head_prefix major) info)) as ->.
  { apply (inj Z_of_byte). rewrite head_byte by lia. by rewrite Z_of_byte_of_Z by lia. }
  unfold u64_ok, U64_MAX, encode_head, to_be_bytes.
  destruct Hc as [(-> & -> & ->)|[(-> & -> & ->)|[(-> & -> & ->)|(-> & -> & ->)]]]; cbn in Hv;
    (split; [|lia]);
    repeat match goal with |- context [value <=? ?k] => destruct (Z.leb_spec value k); try lia end; done.
Qed.

Lemma head_enc_tail r e : head_enc r e <-> exists b e2, e = b :: e2 /\ head_tail b r e2.
Proof.
  destruct r as [m v]. unfold head_enc, head_tail. simpl. split.
  - intros (Hm & Hv & ->). unfold u64_ok, U64_MAX in Hv. destruct (Z.leb_spec v 23) as [Hs|Hs].
    { rewrite encode_head_small by lia. exists (byte_of_Z (m * 32 + v)), [].
      rewrite Z_of_byte_of_Z, head_byte_major, head_byte_info by lia. split; [done|].
      split; [done|left]. done. }
    assert (exists info w mn, (info, w, mn) ∈ long_forms /\ mn <= v < 256 ^ Z.of_nat w)
      as (info & w & mn & Hin & Hr).
    { destruct (Z.lt_ge_cases v 0x100); [exists 24, 1%nat, 24; split; [set_solver|cbn; lia]|].
      destruct (Z.lt_ge_cases v 0x10000); [exists 25, 2%nat, 0x100; split; [set_solver|cbn; lia]|].
      destruct (Z.lt_ge_cases v 0x100000000); [exists 26, 4%nat, 0x10000; split; [set_solver|cbn; lia]|].
      exists 27, 8%nat, 0x100000000. split; [set_solver|cbn; lia]. }
    pose proof (long_form_cases _ _ _ Hin).
    destruct (encode_head_long m v info w mn) as [-> _]; [done|done|lia|done|].
    exists (byte_of_Z (m * 32 + info)), (be_bytes w v).
    rewrite Z_of_byte_of_Z, head_byte_major, head_byte_info by lia.
    split; [done|]. split; [done|right]. exists w, mn. split_and!; done || lia.
  - intros (b & e2 & -> & -> & Hor). destruct (first_byte_split b) as (Hb & Hm & Hs).
    split; [done|]. destruct Hor as [(Hle & -> & ->)|(w & mn & Hin & Hv & Hz & ->)].
    + split; [unfold u64_ok, U64_MAX; lia|]. rewrite encode_head_small by lia.
      by rewrite <- Hb, byte_of_Z_of_byte.
    + destruct (encode_head_long _ _ _ _ _ Hm Hv Hz Hin) as [-> Hok]. split; [done|].
      by rewrite <- Hb, byte_of_Z_of_byte.
Qed.

Lemma reads_head : reads (s_head (E:=E)) head_enc.
Proof.
  unfold s_head. eapply reads_iff.
  { eapply (reads_bind _ _ _ head_tail); [apply reads_byte|]. intros b e0 _. cbv zeta.
    destruct (Z.leb_spec (Z.land (Z_of_byte b) 31) 23) as [Hs|Hs].
    { eapply reads_iff; [apply reads_ret|]. intros [m v] e. unfold head_tail. simpl.
      split; [naive_solver|]. intros (-> & [(_ & -> & ->)|(w & mn & Hin & _)]); [done|].
      apply long_form_cases in Hin. lia. }
    repeat match goal with |- context [if ?x =? ?k then _ else _] => destruct (Z.eqb_spec x k) as [Hk|] end;
      try (apply reads_head_long; rewrite Hk; set_solver).
    eapply reads_iff; [apply reads_fail|]. intros [m v] e. unfold head_tail. split; [done|].
    intros (_ & [(? & _)|(w & mn & Hin & _)]); [lia|]. apply long_form_cases in Hin. lia. }
  intros r e. rewrite head_enc_tail. split.
  - intros (b & e1 & e2 & -> & -> & Ht). by exists b, e2.
  - intros (b & e2 & -> & Ht). by exists b, [b], e2.
Qed.

Lemma reads_bounded count max :
  u64_ok count ->
  reads (s_bounded (E:=E) count max) (fun n e => e = [] /\ n = count /\ count <= max).
Proof.
  unfold u64_ok. intros Hc. eapply reads_iff; [apply reads_lift|]. intros n e.
  rewrite (proj2 (Z.leb_le count U64_MAX)) by lia. simpl. split.
  - destruct (Z.leb_spec count max); [|naive_solver]. intros [[= ->] ->]. done.
  - intros (-> & -> & Hm). by rewrite (proj2 (Z.leb_le _ _)).
Qed.

Lemma reads_array max :
  reads (s_array (E:=E) max) (fun n e => e = encode_head 4 n /\ u64_ok n /\ n <= max).
Proof.
  unfold s_array. eapply reads_iff.
  { eapply reads_bind2; [apply reads_head|]. intros m n e0 (_ & Hn & _).
    apply reads_guard, reads_bounded. exact Hn. }
  intros n e. split.
  - intros (m & k & e1 & e2 & -> & (Hm & Hk & ->) & (-> & -> & Hle) & Hg).
    apply negb_false_iff, Z.eqb_eq in Hg as ->. by rewrite app_nil_r.
  - intros (-> & Hn & Hle). exists 4, n, (encode_head 4 n), []. rewrite app_nil_r.
    unfold head_enc. simpl. split_and!; done || lia.
Qed.

Lemma reads_unsigned : reads (s_unsigned (E:=E)) (fun v e => e = encode_head 0 v /\ u64_ok v).
Proof.
  unfold s_unsigned. eapply reads_iff.
  { eapply reads_bind2; [apply reads_head|]. intros m v e0 _. apply reads_guard, reads_ret. }
  intros n e. split.
  - intros (m & k & e1 & e2 & -> & (Hm & Hk & ->) & [-> ->] & Hg).
    apply negb_false_iff, Z.eqb_eq in Hg as ->. by rewrite app_nil_r.
  - intros (-> & Hn). exists 0, n, (encode_head 0 n), []. rewrite app_nil_r.
    unfold head_enc. simpl. split_and!; done || lia.
Qed.

Lemma reads_signed :
  reads (s_signed (E:=E)) (fun v e => e = encode_signed v /\ - I64_MAX - 1 <= v <= I64_MAX).
Proof.
  unfold s_signed. eapply reads_iff.
  { eapply reads_bind2; [apply reads_head|]. intros m v e0 _.
    instantiate (1 := fun m v n e => v <= I64_MAX /\ e = []
      /\ (m = 0 /\ n = v \/ m = 1 /\ n = -1 - v)). cbv beta.
    destruct (Z.eqb_spec m 0) as [->|]; [|destruct (Z.eqb_spec m 1) as [->|]];
      [eapply reads_iff; [apply reads_unless, reads_ret|]; intros x e; cbv beta; rewrite Z.leb_le; naive_solver lia..|].
    eapply reads_iff; [apply reads_fail|]. naive_solver lia. }
  intros n e. unfold encode_signed, I64_MAX. split.
  - intros (m & k & e1 & e2 & -> & (Hm & Hk & ->) & Hle & -> & Hor). unfold u64_ok in Hk. simpl in *.
    rewrite app_nil_r. destruct Hor as [[-> ->]|[-> ->]]; case_bool_decide; try lia; split; try lia; try done.
    f_equal. lia.
  - intros (-> & Hr). case_bool_decide.
    + exists 0, n, (encode_head 0 n), []. rewrite app_nil_r. simpl. unfold head_enc, u64_ok, U64_MAX. simpl.
      split_and!; done || lia || by left.
    + exists 1, (-1 - n), (encode_head 1 (-1 - n)), []. rewrite app_nil_r. simpl.
      unfold head_enc, u64_ok, U64_MAX. simpl. split_and!; done || lia || (right; lia).
Qed.

(** A string of [length] bytes behind its head. *)
Lemma reads_text max :
  max <= U64_MAX ->
  reads (s_text (E:=E) max) (fun t e => e = encode_bytes (as_bytes t) 3 /\ str_len t <= max).
Proof.
  intros Hmax. unfold s_text. eapply reads_iff.
  { eapply reads_bind2; [apply reads_head|]. intros m n e0 (_ & Hn & _).
    apply reads_guard. eapply reads_bind; [apply reads_bounded; exact Hn|]. intros a e1 (_ & Ha & _).
    eapply reads_bind; [apply reads_take; unfold u64_ok in Hn; simpl in Hn; lia|]. intros bs e2 _.
    apply reads_lift. }
  intros t e. unfold encode_bytes, str_len. split.
  - intros (m & k & e1 & e2 & -> & (Hm & Hk & ->) & (n & e3 & e4 & -> & (-> & -> & Hle)
      & bs & e5 & e6 & -> & [-> <-] & Hu & ->) & Hg).
    apply negb_false_iff, Z.eqb_eq in Hg as ->. apply ok_or_ok_inv, make_some in Hu as <-.
    simpl. by rewrite app_nil_r.
  - intros (-> & Hle). pose proof (len_nonneg (as_bytes t)).
    exists 3, (len (as_bytes t)), (encode_head 3 (len (as_bytes t))), (as_bytes t).
    unfold head_enc, u64_ok. simpl. split_and!; [done|lia..|done| |done].
    exists (len (as_bytes t)), [], (as_bytes t). split_and!; try done.
    exists (as_bytes t), (as_bytes t), []. rewrite app_nil_r, from_utf8_as_bytes. done.
Qed.

Lemma reads_bytes N :
  0 <= N <= U64_MAX ->
  reads (s_bytes (E:=E) N) (fun b e => e = encode_bytes (raw b) 2).
Proof.
  intros HN. unfold s_bytes. eapply reads_iff.
  { eapply reads_bind2; [apply reads_head|]. intros m n e0 _.
    apply reads_guard. eapply reads_bind; [apply reads_take; lia|]. intros bs e2 _.
    apply reads_lift. }
  intros b e. unfold encode_bytes. rewrite len_checked. split.
  - intros (m & k & e1 & e2 & -> & (Hm & Hk & ->) & (bs & e5 & e6 & -> & [-> Hl] & Hu & ->) & Hg).
    apply orb_false_iff in Hg as [Hg1 Hg2]. apply negb_false_iff, Z.eqb_eq in Hg1 as ->, Hg2 as ->.
    apply ok_or_ok_inv, make_some in Hu as <-. simpl. by rewrite app_nil_r.
  - intros ->. exists 2, N, (encode_head 2 N), (raw b).
    unfold head_enc, u64_ok. simpl. rewrite Z.eqb_refl. split_and!; [done|lia..|done| |done].
    exists (raw b), (raw b), []. rewrite app_nil_r, make_raw, len_checked. done.
Qed.

Lemma encode_head_first_byte major v :
  0 <= major <= 7 -> u64_ok v ->
  exists b r, encode_head major v = b :: r /\ Z.shiftr (Z_of_byte b) 5 = major.
Proof.
  intros Hm Hv. assert (head_enc (major, v) (encode_head major v)) as Hh by done.
  apply head_enc_tail in Hh as (b & r & -> & Hm' & _). by exists b, r.
Qed.

(** [null] or an item whose encoding never begins like [null]. *)
Lemma reads_optional {T} (p : Parser E T) R :
  reads p R -> (forall x e r t, R x e -> e ++ r <> xf6 :: t) ->
  reads (s_optional p) (fun o e => match o with Some x => R x e | None => e = [xf6] end).
Proof.
  intros Hp Hne pre bs o c'. unfold s_optional, s_null, consume_if, advance. cbn [cbytes coffset].
  rewrite len_to_nat, lookup_app_r, Nat.sub_diag by lia.
  assert (Hsome : reads (let! x := p in pret (Some x)) (fun o e => exists x, o = Some x /\ R x e)).
  { eapply reads_iff; [eapply reads_bind; [apply Hp|]; intros x e0 _; apply reads_ret|].
    intros y e. split.
    - intros (x & e1 & e2 & -> & HR & -> & ->). exists x. by rewrite app_nil_r.
    - intros (x & -> & HR). exists x, e, []. by rewrite app_nil_r. }
  assert ((exists t, bs = xf6 :: t) \/ ((forall t, bs <> xf6 :: t) /\
    match bs !! 0%nat with
    | Some b' => if decide (b' = xf6) then (true, Cursor (pre ++ bs) (len pre + 1))
                 else (false, Cursor (pre ++ bs) (len pre))
    | None => (false, Cursor (pre ++ bs) (len pre)) end = (false, Cursor (pre ++ bs) (len pre))))
    as [[t ->]|[Hno ->]].
  { destruct bs as [|x bs]; [by right|]. simpl. destruct (decide (x = xf6)) as [->|Hx]; [by left; eexists|].
    right. split; [|done]. by intros t [= -> _]. }
  - simpl. split.
    + intros [= <- <-]. by exists [xf6], t.
    + intros (enc & rest & Heq & HR & ->). destruct o as [x|]; [|by subst enc].
      by destruct (Hne _ _ rest t HR).
  - rewrite (Hsome pre bs o c'). split.
    + intros (enc & rest & -> & (x & -> & HR) & ->). by exists enc, rest.
    + intros (enc & rest & -> & HR & ->). destruct o as [x|]; [|subst enc; by destruct (Hno rest)].
      exists enc, rest. split_and!; [done|by exists x|done].
Qed.

Lemma encode_head_not_null major v r t :
  0 <= major <= 6 -> u64_ok v -> encode_head major v ++ r <> xf6 :: t.
Proof.
  intros Hm Hv. destruct (encode_head_first_byte major v) as (b & e & -> & Hb); [lia|done|].
  intros [= -> _]. change (7 = major) in Hb. lia.
Qed.

Lemma reads_optional_bytes N :
  0 <= N <= U64_MAX ->
  reads (s_optional_bytes (E:=E) N)
    (fun o e => match o with Some b => e = encode_bytes (raw b) 2 | None => e = [xf6] end).
Proof.
  intros HN. apply reads_optional; [by apply reads_bytes|]. intros b e r t ->.
  unfold encode_bytes. rewrite len_checked, <- app_assoc. apply encode_head_not_null; [lia|done].
Qed.

(** A loop of [count] items, each checked against what was pushed before. *)
Fixpoint chained {T} (R : list T -> T -> list byte -> Prop) (pushed xs : list T) (e : list byte)
    : Prop :=
  match xs with
  | [] => e = []
  | x :: xs => exists e1 e2, e = e1 ++ e2 /\ R pushed x e1 /\ chained R (pushed ++ [x]) xs e2
  end.

Lemma reads_repeat {T} (item : list T -> Parser E T) R pushed count :
  (forall pushed, reads (item pushed) (R pushed)) ->
  reads (s_repeat item pushed count)
    (fun all e => exists xs, all = pushed ++ xs /\ length xs = count /\ chained R pushed xs e).
Proof.
  intros Hi. revert pushed. induction count as [|count IH]; intros pushed; cbn [s_repeat].
  - eapply reads_iff; [apply reads_ret|]. intros all e. split.
    + intros [-> ->]. exists []. by rewrite app_nil_r.
    + intros ([|x xs] & -> & Hl & Hc); [|done]. by rewrite app_nil_r.
  - eapply reads_iff.
    { eapply reads_bind; [apply Hi|]. intros x e0 _. apply (IH (pushed ++ [x])). }
    intros all e. split.
    + intros (x & e1 & e2 & -> & Hx & xs & -> & Hl & Hc). exists (x :: xs).
      rewrite <- app_assoc. simpl. split_and!; [done|lia|]. by exists e1, e2.
    + intros ([|x xs] & -> & Hl & Hc); [done|]. destruct Hc as (e1 & e2 & -> & Hx & Hc).
      exists x, e1, e2. split_and!; [done..|]. exists xs. rewrite <- app_assoc. simpl in Hl.
      split_and!; [done|lia|done].
Qed.
End Primitives.

(** Every item passes [ok] against the items before it. *)
Fixpoint all_pushed {T} (ok : list T -> T -> bool) (pushed xs : list T) : bool :=
  match xs with
  | [] => true
  | x :: xs => ok pushed x && all_pushed ok (pushed ++ [x]) xs
  end.

Lemma chained_iff {T} (R : list T -> T -> list byte -> Prop) ok enc pushed xs e :
  (forall pushed x e, R pushed x e <-> e = enc x /\ ok pushed x = true) ->
  chained R pushed xs e <-> e = flat_map enc xs /\ all_pushed ok pushed xs = true.
Proof.
  intros HR. revert pushed e. induction xs as [|x xs IH]; intros pushed e; simpl; [naive_solver|].
  rewrite andb_true_iff. split.
  - intros (e1 & e2 & -> & Hx & Hc). apply HR in Hx as [-> Hx]. apply IH in Hc as [-> Hc]. done.
  - intros [-> [Hx Hc]]. exists (enc x), (flat_map enc xs). rewrite HR, IH. done.
Qed.

#[export] Hint Resolve reads_unsigned reads_signed reads_array reads_bytes reads_text
  reads_optional_bytes : reads.

(** Step through a record reader, field by field. *)
Ltac reads_step :=
  cbv zeta;
  first
    [ apply reads_bind_ret; solve [eauto with reads]
    | apply reads_bind_check_ret; solve [eauto with reads]
    | apply reads_bind_lift_ret; solve [eauto with reads]
    | apply reads_bind_lift; solve [eauto with reads]
    | apply reads_guard
    | apply reads_unless
    | apply reads_then_lift
    | apply reads_ret
    | eapply reads_bind2; [solve [eauto with reads]|intros ? ? ? _]
    | eapply reads_bind; [solve [eauto with reads]|intros ? ? _] ].

Ltac reads_record := eapply reads_iff; [repeat reads_step|].

(** From the fields of an accepted record to its encoding, and back. *)
Ltac reads_split := repeat match goal with
  | H : exists _, _ |- _ => destruct H
  | H : _ /\ _ |- _ => destruct H
  | u : unit |- _ => destruct u
  end; subst.

Ltac reads_build := lazymatch goal with
  | |- exists _, _ => eexists; reads_build
  | |- _ /\ _ => split; [reads_build|reads_build]
  | |- _ = _ :> bool => idtac
  | |- _ => first [reflexivity | idtac]
  end.

(** Boolean conditions as propositions. *)
Ltac bool_props := repeat match goal with
  | H : _ && _ = true |- _ => apply andb_true_iff in H as [? ?]
  | H : _ || _ = false |- _ => apply orb_false_iff in H as [? ?]
  | H : negb _ = true |- _ => apply negb_true_iff in H
  | H : negb _ = false |- _ => apply negb_false_iff in H
  | H : (_ =? _) = true |- _ => apply Z.eqb_eq in H
  | H : (_ =? _) = false |- _ => apply Z.eqb_neq in H
  | H : (_ <=? _) = true |- _ => apply Z.leb_le in H
  | H : (_ <=? _) = false |- _ => apply Z.leb_gt in H
  | H : (_ <? _) = true |- _ => apply Z.ltb_lt in H
  | H : (_ <? _) = false |- _ => apply Z.ltb_ge in H
  | H : bool_decide _ = true |- _ => apply bool_decide_eq_true in H
  | H : bool_decide _ = false |- _ => apply bool_decide_eq_false in H
  | |- _ && _ = true => apply andb_true_iff; split
  | |- _ || _ = false => apply orb_false_iff; split
  | |- negb _ = true => apply negb_true_iff
  | |- negb _ = false => apply negb_false_iff
  | |- (_ =? _) = true => apply Z.eqb_eq
  | |- (_ =? _) = false => apply Z.eqb_neq
  | |- (_ <=? _) = true => apply Z.leb_le
  | |- (_ <=? _) = false => apply Z.leb_gt
  | |- (_ <? _) = true => apply Z.ltb_lt
  | |- (_ <? _) = false => apply Z.ltb_ge
  | |- bool_decide _ = true => apply bool_decide_eq_true
  | |- bool_decide _ = false => apply bool_decide_eq_false
  end.

(** An array head and the encodings of the items. *)
Definition encode_list {T} (enc : T -> list byte) (xs : list T) : list byte :=
  encode_head 4 (len xs) ++ flat_map enc xs.

(** An array of at most [max] items, read in a loop. *)
Definition s_list {E T} `{StrictCborError E} (max : Z) (item : list T -> Parser E T)
    : Parser E (list T) :=
  let! count := s_array max in s_repeat item [] (Z.to_nat count).

Lemma reads_list_guarded {E T} `{StrictCborError E} max (c : Z -> bool) (err : E)
    (item : list T -> Parser E T) ok enc :
  max <= U64_MAX ->
  (forall pushed, reads (item pushed) (fun x e => e = enc x /\ ok pushed x = true)) ->
  reads (let! count := s_array max in
         if c count then plift (Err err) else s_repeat item [] (Z.to_nat count))
    (fun xs e => e = encode_list enc xs /\ len xs <= max /\ c (len xs) = false
      /\ all_pushed ok [] xs = true).
Proof.
  intros Hmax Hi. eapply reads_iff.
  { eapply reads_bind; [apply reads_array|]. intros n e0 _. apply reads_guard, reads_repeat, Hi. }
  intros xs e. split.
  - intros (n & e1 & e2 & -> & (-> & Hn & Hle) & (ys & -> & Hl & Hc) & Hg). simpl.
    apply (chained_iff _ ok enc) in Hc as [-> Hok]; [|done]. unfold u64_ok in Hn.
    assert (len ys = n) as <- by (unfold len; lia). done.
  - intros (-> & Hle & Hg & Hok). exists (len xs), (encode_head 4 (len xs)), (flat_map enc xs).
    pose proof (len_nonneg xs). unfold u64_ok. split_and!; [done|done|lia..| |done].
    exists xs. rewrite len_to_nat. split_and!; [done..|]. by apply (chained_iff _ ok enc).
Qed.

Lemma reads_list {E T} `{StrictCborError E} max (item : list T -> Parser E T) ok enc :
  max <= U64_MAX ->
  (forall pushed, reads (item pushed) (fun x e => e = enc x /\ ok pushed x = true)) ->
  reads (s_list max item) (fun xs e => e = encode_list enc xs
    /\ len xs <= max /\ all_pushed ok [] xs = true).
Proof.
  intros Hmax Hi. eapply reads_iff.
  { apply (reads_list_guarded max (fun _ => false) s_invalid item ok enc Hmax Hi). }
  naive_solver.
Qed.
