(* ===== verification/PluginTrust.v ===== *)
(** * Plugin trust records and their verification

    [crates/pos-crypto/src/plugin_trust.rs]: the strict decoders of the trust
    root record PTR1 and the revocation record PRV1, the verification of their
    genesis-anchored histories, and the release query on the evidence it
    yields.  [OwnerIdV1] is from [crates/pos-core/src/key_registry.rs] and the
    identifier grammar from [crates/pos-crypto/src/plugin_manifest.rs].

    Ed25519 is third-party code: [Ed25519] is its key check and its strict
    verification. *)

From Stdlib Require Import String ZArith Lia Bool.
From S2P Require Import Prelude Text Cbor FallbackRecords Keys StrictCbor.

Local Open Scope Z_scope.

(** [VerifyingKey::from_bytes(key).is_ok()] and
    [key.verify_strict(message, signature).is_ok()]. *)
Class Ed25519 := {
  valid_key : Hash -> bool;
  verify_strict : Hash -> list byte -> checked (has_len 64) -> bool;
}.

Definition Sig64 : Type := checked (has_len 64).

(** [iter.map(f).collect::<Result<Vec<_>, _>>()]. *)
Fixpoint try_collect {E A B} (f : A -> result E B) (l : list A) : result E (list B) :=
  match l with
  | [] => Ok []
  | x :: r => let? y := f x in let? ys := try_collect f r in Ok (y :: ys)
  end.

(** [iter.map(|x| (key(x), x)).collect::<BTreeMap<_, _>>()]: a later entry
    replaces an earlier one. *)
Definition map_by {K V} `{Countable K} (key : V -> K) (l : list V) : gmap K V :=
  fold_left (fun m x => <[key x := x]> m) l ∅.

(** ** Identifiers *)

Definition ascii_lower (b : byte) : bool := in_range 0x61 0x7A b.
Definition ascii_digit (b : byte) : bool := in_range 0x30 0x39 b.

Definition MAX_ID_BYTES : Z := 128.

Definition valid_id_text (value : RString) : bool :=
  (str_len value <=? MAX_ID_BYTES)
  && match as_bytes value with
     | [] => false
     | first :: rest =>
         (ascii_lower first || ascii_digit first)
         && forallb (fun b => ascii_lower b || ascii_digit b
                              || bool_decide (b ∈ ["."; "_"; "/"; "-"]%byte)) rest
     end.

Definition hash_lt (a b : Hash) : bool := bytes_lt (hash_bytes a) (hash_bytes b).

(** ** Errors *)

Module TrustError.
Inductive PluginTrustErrorV1 :=
| InvalidEncoding | BoundsExceeded | InvalidSignature | UnknownRootKey | ThresholdNotMet
| AnchorMismatch | ChainDiscontinuity | DigestMismatch | Expired
| RootHistoryCapacityExceeded | RevocationHistoryCapacityExceeded | RevocationCapacityExhausted
| IncompleteManifestProjection | ManifestExpired | UnknownPublisherKey | PluginIdNotGranted
| PublisherKeyRevoked | ArtifactRevoked.
End TrustError.

#[export] Instance trust_cbor_error : StrictCborError TrustError.PluginTrustErrorV1 := {|
  invalid_encoding _ := TrustError.InvalidEncoding;
  bounds_exceeded _ := TrustError.BoundsExceeded;
|}.

Definition TrustResult (A : Type) : Type := result TrustError.PluginTrustErrorV1 A.
Definition TrustReader (A : Type) : Type := Parser TrustError.PluginTrustErrorV1 A.

Definition reject {A} (e : TrustError.PluginTrustErrorV1) : TrustReader A := plift (Err e).
Definition check (b : bool) (e : TrustError.PluginTrustErrorV1) : TrustResult unit :=
  if b then Ok tt else Err e.

(** ** Bounds *)

Definition MAX_RECORD_BYTES : Z := 1024 * 1024.
Definition MAX_TEXT_BYTES : Z := 128.
Definition MAX_ROOT_KEYS : Z := 32.
Definition MAX_PUBLISHER_ENTRIES : Z := 256.
Definition MAX_SIGNATURES : Z := 64.
Definition MAX_REVOCATION_ENTRIES : Z := 4096.
Definition MAX_ROOT_HISTORY : Z := 64.
Definition MAX_REVOCATION_HISTORY : Z := 256.

Definition ROOT_KEY_DOMAIN : list byte :=
  list_byte_of_string "pigloros/plugin-root-key-id/v1" ++ [x00].
Definition ROOT_SIGNATURE_DOMAIN : list byte :=
  list_byte_of_string "pigloros/plugin-trust-root/v1" ++ [x00].
Definition REVOCATION_SIGNATURE_DOMAIN : list byte :=
  list_byte_of_string "pigloros/plugin-revocation/v1" ++ [x00].

(** ** Records *)

Definition validate_plugin_id (value : RString) : TrustResult unit :=
  check (valid_id_text value) TrustError.InvalidEncoding.

Record TrustedPluginRootAnchorV1 := MkRootAnchor {
  anchor_scope : RString;
  anchor_genesis_digest : Hash;
}.

#[export] Instance root_anchor_eq_dec : EqDecision TrustedPluginRootAnchorV1.
Proof. solve_decision. Defined.

Definition root_anchor_new (scope : RString) (genesis_digest : Hash)
    : TrustResult TrustedPluginRootAnchorV1 :=
  let? _ := validate_plugin_id scope in
  Ok (MkRootAnchor scope genesis_digest).

Record RootKey := MkRootKey { rk_id : Hash; rk_public : Hash }.

Record PublisherKey := MkPublisher {
  pk_owner : OwnerIdV1;
  pk_epoch : Z;
  pk_public : Hash;
}.

#[export] Instance publisher_eq_dec : EqDecision PublisherKey.
Proof. solve_decision. Defined.
#[export] Instance publisher_countable : Countable PublisherKey.
Proof.
  apply (inj_countable' (fun p => (pk_owner p, pk_epoch p, pk_public p))
    (fun '(o, e, k) => MkPublisher o e k)). by intros [].
Defined.

(** The derived lexicographic order. *)
Definition publisher_lt (a b : PublisherKey) : bool :=
  owner_lt (pk_owner a) (pk_owner b)
  || (bool_decide (pk_owner a = pk_owner b)
      && ((pk_epoch a <? pk_epoch b)
          || ((pk_epoch a =? pk_epoch b) && hash_lt (pk_public a) (pk_public b)))).

Record Grant := MkGrant { grant_plugin_id : RString; grant_owner : OwnerIdV1 }.

Record RootSignature := MkRootSignature { sig_id : Hash; sig_bytes : Sig64 }.

Record PluginTrustRootRecordV1 := MkRootRecord {
  root_scope : RString;
  root_version : Z;
  root_not_before : Z;
  root_expires : Z;
  root_previous : option Hash;
  root_threshold : Z;
  root_keys : list RootKey;
  root_publishers : list PublisherKey;
  root_grants : list Grant;
  root_signatures : list RootSignature;
  root_message : list byte;
  root_digest : Hash;
}.

Record RevokedPublisherKey := MkRevokedKey {
  rvk_publisher : PublisherKey;
  rvk_tick : Z;
  rvk_reason : Z;
  rvk_replacement : option PublisherKey;
}.

Record RevokedArtifact := MkRevokedArtifact {
  rva_digest : Hash;
  rva_tick : Z;
  rva_reason : Z;
  rva_replacement : option Hash;
}.

#[export] Instance revoked_key_eq_dec : EqDecision RevokedPublisherKey.
Proof. solve_decision. Defined.
#[export] Instance revoked_artifact_eq_dec : EqDecision RevokedArtifact.
Proof. solve_decision. Defined.

Record PluginRevocationRecordV1 := MkRevocationRecord {
  rev_scope : RString;
  rev_epoch : Z;
  rev_not_before : Z;
  rev_expires : Z;
  rev_root_digest : Hash;
  rev_previous : option Hash;
  rev_tick : Z;
  rev_keys : list RevokedPublisherKey;
  rev_artifacts : list RevokedArtifact;
  rev_signatures : list RootSignature;
  rev_message : list byte;
  rev_digest : Hash;
}.

(** ** Decoding *)

(** [if reader.array(n)? != n { return Err(InvalidEncoding) }]. *)
Definition read_array_exact (n : Z) : TrustReader unit :=
  let! count := s_array n in
  if negb (count =? n) then reject TrustError.InvalidEncoding else pret tt.

Definition read_owner : TrustReader OwnerIdV1 :=
  let! text := s_text MAX_TEXT_BYTES in
  plift (ok_or (owner_new text) TrustError.InvalidEncoding).

Section Decode.
Context `{Blake3} `{Ed25519}.

Definition read_publisher : TrustReader PublisherKey :=
  let! _ := read_array_exact 4 in
  let! owner := read_owner in
  let! role := s_unsigned in
  if negb (role =? 3) then reject TrustError.InvalidEncoding else
  let! epoch := s_unsigned in
  if epoch =? 0 then reject TrustError.InvalidEncoding else
  let! public := s_bytes 32 in
  if negb (valid_key public) then reject TrustError.InvalidEncoding else
  pret (MkPublisher owner epoch public).

Definition read_optional_publisher : TrustReader (option PublisherKey) := s_optional read_publisher.

(** [!pushed.last().is_some_and(|old| old.key >= k)]. *)
Definition after_last {T K} (key : T -> K) (lt : K -> K -> bool) (pushed : list T) (k : K) : bool :=
  match last pushed with Some old => lt (key old) k | None => true end.

Definition read_signature (pushed : list RootSignature) : TrustReader RootSignature :=
  let! _ := read_array_exact 2 in
  let! id := s_bytes 32 in
  if negb (after_last sig_id hash_lt pushed id) then reject TrustError.InvalidEncoding else
  let! bytes := s_bytes 64 in
  pret (MkRootSignature id bytes).

Definition read_signatures : TrustReader (list RootSignature) :=
  let! count := s_array MAX_SIGNATURES in
  if count =? 0 then reject TrustError.InvalidEncoding else
  s_repeat read_signature [] (Z.to_nat count).

Definition read_header (magic : RString) : TrustReader RString :=
  let! count := s_array 12 in
  if negb (count =? 12) then reject TrustError.InvalidEncoding else
  let! text := s_text 4 in
  if negb (bool_decide (text = magic)) then reject TrustError.InvalidEncoding else
  let! version := s_unsigned in
  if negb (version =? 1) then reject TrustError.InvalidEncoding else
  let! scope := s_text MAX_TEXT_BYTES in
  let! _ := plift (validate_plugin_id scope) in
  pret scope.

Definition read_interval : TrustReader (Z * Z) :=
  let! not_before := s_signed in
  let! expires := s_signed in
  let duration := expires - not_before in
  if negb ((1 <=? duration) && (duration <=? 31622400)) then reject TrustError.InvalidEncoding else
  pret (not_before, expires).

(** The unsigned prefix: the twelve-element head replaced by the
    eleven-element one. *)
Definition signature_message (domain bytes : list byte) (prefix_end : Z) : list byte :=
  domain ++ [x8b] ++ drop 1 (take (Z.to_nat prefix_end) bytes).

Definition root_key_id (public : Hash) : Hash := blake3 (ROOT_KEY_DOMAIN ++ hash_bytes public).

(** [root_publics] holds the public key of every pushed key. *)
Definition read_root_key (pushed : list RootKey) : TrustReader RootKey :=
  let! _ := read_array_exact 2 in
  let! id := s_bytes 32 in
  let! public := s_bytes 32 in
  if negb (valid_key public)
     || negb (bool_decide (id = root_key_id public)) || negb (after_last rk_id hash_lt pushed id)
     || bool_decide (public ∈ rk_public <$> pushed)
  then reject TrustError.InvalidEncoding else
  pret (MkRootKey id public).

Definition read_root_keys (threshold : Z) : TrustReader (list RootKey) :=
  let! key_count := s_array MAX_ROOT_KEYS in
  if (key_count =? 0) || (threshold =? 0) || (key_count <? threshold)
  then reject TrustError.InvalidEncoding else
  s_repeat read_root_key [] (Z.to_nat key_count).

Definition read_root_threshold : TrustReader Z :=
  let! threshold := s_unsigned in
  if (threshold <=? U8_MAX) && (1 <=? threshold) && (threshold <=? MAX_ROOT_KEYS)
  then pret threshold else reject TrustError.InvalidEncoding.

Definition publisher_identity (p : PublisherKey) : OwnerIdV1 * Z := (pk_owner p, pk_epoch p).

Definition read_new_publisher (pushed : list PublisherKey) : TrustReader PublisherKey :=
  let! publisher := read_publisher in
  if negb (after_last (fun p => p) publisher_lt pushed publisher)
     || bool_decide (pk_public publisher ∈ pk_public <$> pushed)
     || bool_decide (publisher_identity publisher ∈ publisher_identity <$> pushed)
  then reject TrustError.InvalidEncoding else pret publisher.

Definition read_publishers : TrustReader (list PublisherKey) :=
  let! publisher_count := s_array MAX_PUBLISHER_ENTRIES in
  s_repeat read_new_publisher [] (Z.to_nat publisher_count).

Definition read_grant (publishers : list PublisherKey) (pushed : list Grant) : TrustReader Grant :=
  let! _ := read_array_exact 2 in
  let! plugin_id := s_text MAX_TEXT_BYTES in
  let! _ := plift (validate_plugin_id plugin_id) in
  let! owner := read_owner in
  if negb (after_last grant_plugin_id str_lt pushed plugin_id)
     || negb (existsb (fun publisher => bool_decide (pk_owner publisher = owner)) publishers)
  then reject TrustError.InvalidEncoding else
  pret (MkGrant plugin_id owner).

Definition read_grants (publishers : list PublisherKey) : TrustReader (list Grant) :=
  let! grant_count := s_array MAX_PUBLISHER_ENTRIES in
  s_repeat (read_grant publishers) [] (Z.to_nat grant_count).

(** [reader.offset()]. *)
Definition read_offset : TrustReader Z := fun c => Ok (coffset c, c).
Definition read_finish : TrustReader unit := fun c => let? _ := s_finish c in Ok (tt, c).

Definition read_root_record (bytes : list byte) : TrustReader PluginTrustRootRecordV1 :=
  let! scope := read_header (lit "PTR1") in
  let! version := s_unsigned in
  if version =? 0 then reject TrustError.InvalidEncoding else
  let! (not_before, expires) := read_interval in
  let! previous := s_optional_bytes 32 in
  let! threshold := read_root_threshold in
  let! keys := read_root_keys threshold in
  let! publishers := read_publishers in
  let! grants := read_grants publishers in
  let! prefix_end := read_offset in
  let! signatures := read_signatures in
  let! _ := read_finish in
  pret (MkRootRecord scope version not_before expires previous threshold keys publishers grants
    signatures (signature_message ROOT_SIGNATURE_DOMAIN bytes prefix_end) (blake3 bytes)).

(** [PluginTrustRootRecordV1::decode]. *)
Definition root_decode (bytes : list byte) : TrustResult PluginTrustRootRecordV1 :=
  if MAX_RECORD_BYTES <? len bytes then Err TrustError.BoundsExceeded else
  let? (record, _) := read_root_record bytes (cursor_new bytes) in
  Ok record.

Definition read_reason : TrustReader Z :=
  let! reason := s_unsigned in
  if negb ((1 <=? reason) && (reason <=? 4)) then reject TrustError.InvalidEncoding else pret reason.

Definition read_revoked_key (effective_tick : Z) (pushed : list RevokedPublisherKey)
    : TrustReader RevokedPublisherKey :=
  let! _ := read_array_exact 7 in
  let! owner := read_owner in
  let! role := s_unsigned in
  if negb (role =? 3) then reject TrustError.InvalidEncoding else
  let! epoch := s_unsigned in
  if epoch =? 0 then reject TrustError.InvalidEncoding else
  let! public := s_bytes 32 in
  let! tick := s_unsigned in
  let! reason := read_reason in
  let! replacement := read_optional_publisher in
  let publisher := MkPublisher owner epoch public in
  if (effective_tick <? tick) || negb (after_last rvk_publisher publisher_lt pushed publisher)
  then reject TrustError.InvalidEncoding else
  pret (MkRevokedKey publisher tick reason replacement).

(** [usize::MAX] bounds nothing: the capacity is its own error. *)
Definition read_revoked_keys (effective_tick : Z) : TrustReader (list RevokedPublisherKey) :=
  let! count := s_array U64_MAX in
  if MAX_REVOCATION_ENTRIES <? count then reject TrustError.RevocationCapacityExhausted else
  s_repeat (read_revoked_key effective_tick) [] (Z.to_nat count).

Definition read_revoked_artifact (effective_tick : Z) (pushed : list RevokedArtifact)
    : TrustReader RevokedArtifact :=
  let! _ := read_array_exact 4 in
  let! digest := s_bytes 32 in
  let! tick := s_unsigned in
  let! reason := read_reason in
  let! replacement := s_optional_bytes 32 in
  if (effective_tick <? tick) || negb (after_last rva_digest hash_lt pushed digest)
  then reject TrustError.InvalidEncoding else
  pret (MkRevokedArtifact digest tick reason replacement).

Definition read_revoked_artifacts (effective_tick : Z) : TrustReader (list RevokedArtifact) :=
  let! count := s_array U64_MAX in
  if MAX_REVOCATION_ENTRIES <? count then reject TrustError.RevocationCapacityExhausted else
  s_repeat (read_revoked_artifact effective_tick) [] (Z.to_nat count).

Definition read_revocation_record (bytes : list byte) : TrustReader PluginRevocationRecordV1 :=
  let! scope := read_header (lit "PRV1") in
  let! epoch := s_unsigned in
  if epoch =? 0 then reject TrustError.InvalidEncoding else
  let! (not_before, expires) := read_interval in
  let! root_digest := s_bytes 32 in
  let! previous := s_optional_bytes 32 in
  let! tick := s_unsigned in
  let! keys := read_revoked_keys tick in
  let! artifacts := read_revoked_artifacts tick in
  let! prefix_end := read_offset in
  let! signatures := read_signatures in
  let! _ := read_finish in
  pret (MkRevocationRecord scope epoch not_before expires root_digest previous tick keys artifacts
    signatures (signature_message REVOCATION_SIGNATURE_DOMAIN bytes prefix_end) (blake3 bytes)).

(** [PluginRevocationRecordV1::decode]. *)
Definition revocation_decode (bytes : list byte) : TrustResult PluginRevocationRecordV1 :=
  if MAX_RECORD_BYTES <? len bytes then Err TrustError.BoundsExceeded else
  let? (record, _) := read_revocation_record bytes (cursor_new bytes) in
  Ok record.

(** ** Verification *)

Definition find_root_key (keys : list RootKey) (id : Hash) : option RootKey :=
  List.find (fun key => bool_decide (rk_id key = id)) keys.

(** The loop of [verify_signature_set], returning both counts. *)
Fixpoint count_signatures (message : list byte) (old : list RootKey) (current : list RootKey)
    (signatures : list RootSignature) (old_count current_count : Z) : TrustResult (Z * Z) :=
  match signatures with
  | [] => Ok (old_count, current_count)
  | signature :: rest =>
      let old_key := find_root_key old (sig_id signature) in
      let current_key := find_root_key current (sig_id signature) in
      let? public := ok_or (match current_key with Some key => Some key | None => old_key end)
                       TrustError.UnknownRootKey in
      let? _ := check (valid_key (rk_public public)) TrustError.InvalidSignature in
      let? _ := check (verify_strict (rk_public public) message (sig_bytes signature))
                  TrustError.InvalidSignature in
      count_signatures message old current rest
        (old_count + if bool_decide (is_Some old_key) then 1 else 0)
        (current_count + if bool_decide (is_Some current_key) then 1 else 0)
  end.

Definition verify_signature_set (message : list byte) (signatures : list RootSignature)
    (old : option (list RootKey * Z)) (current : list RootKey * Z) : TrustResult unit :=
  let? (old_count, current_count) :=
    count_signatures message (from_option fst [] old) current.1 signatures 0 0 in
  if (current_count <? current.2)
     || match old with Some (_, threshold) => old_count <? threshold | None => false end
  then Err TrustError.ThresholdNotMet else Ok tt.

(** [validate_cumulative_keys] and [validate_cumulative_artifacts] are one
    check over the key and Tick of an entry. *)
Definition validate_cumulative {K V} `{Countable K} `{EqDecision V} (key : V -> K) (entry_tick : V -> Z)
    (previous current : list V) (tick : Z) : TrustResult unit :=
  let old := map_by key previous in
  let next := map_by key current in
  if negb (forallb (fun entry => bool_decide (next !! key entry = Some entry)) previous)
  then Err TrustError.ChainDiscontinuity
  else if existsb (fun entry => bool_decide (old !! key entry = None)
                                && negb (entry_tick entry =? tick)) current
  then Err TrustError.ChainDiscontinuity else Ok tt.

Definition validate_cumulative_keys : list RevokedPublisherKey -> list RevokedPublisherKey -> Z
    -> TrustResult unit := validate_cumulative rvk_publisher rvk_tick.
Definition validate_cumulative_artifacts : list RevokedArtifact -> list RevokedArtifact -> Z
    -> TrustResult unit := validate_cumulative rva_digest rva_tick.

Definition within (second not_before expires : Z) : bool :=
  (not_before <=? second) && (second <? expires).

Definition check_root_link (previous root : PluginTrustRootRecordV1) : TrustResult unit :=
  if negb (bool_decide (root_previous root = Some (root_digest previous)))
  then Err TrustError.DigestMismatch else
  let? next := ok_or (checked_add (root_version previous) 1) TrustError.ChainDiscontinuity in
  check (root_version root =? next) TrustError.ChainDiscontinuity.

(** The loop over [roots.iter().enumerate()]; [previous] is the record before. *)
Fixpoint check_roots (scope : RString) (previous : option PluginTrustRootRecordV1)
    (roots : list PluginTrustRootRecordV1) : TrustResult unit :=
  match roots with
  | [] => Ok tt
  | root :: rest =>
      let? _ := check (bool_decide (root_scope root = scope)) TrustError.ChainDiscontinuity in
      let? _ := match previous with Some p => check_root_link p root | None => Ok tt end in
      let? _ := verify_signature_set (root_message root) (root_signatures root)
                  ((fun p => (root_keys p, root_threshold p)) <$> previous)
                  (root_keys root, root_threshold root) in
      check_roots scope (Some root) rest
  end.

(** The publics of all root keys and of all publisher keys of a history. *)
Definition root_publics (roots : list PluginTrustRootRecordV1) : gset Hash :=
  list_to_set (roots ≫= fun r => rk_public <$> root_keys r).
Definition publisher_publics (roots : list PluginTrustRootRecordV1) : gset Hash :=
  list_to_set (roots ≫= fun r => pk_public <$> root_publishers r).

Definition verify_root_history (anchor : TrustedPluginRootAnchorV1) (root_bytes : list (list byte))
    (evaluation_utc_second : Z) : TrustResult (list PluginTrustRootRecordV1) :=
  let? roots := try_collect root_decode root_bytes in
  match head roots, last roots with
  | Some genesis, Some terminal =>
      let? _ := check (bool_decide (root_digest genesis = anchor_genesis_digest anchor))
                  TrustError.AnchorMismatch in
      let? _ := check (bool_decide (root_scope genesis = anchor_scope anchor)
                       && bool_decide (root_previous genesis = None)) TrustError.AnchorMismatch in
      let? _ := check_roots (anchor_scope anchor) None roots in
      let? _ := check (bool_decide (root_publics roots ## publisher_publics roots))
                  TrustError.ChainDiscontinuity in
      let? _ := check (within evaluation_utc_second (root_not_before terminal) (root_expires terminal))
                  TrustError.Expired in
      Ok roots
  | _, _ => Err TrustError.ChainDiscontinuity
  end.

(** [roots.iter().position(|root| root.digest == digest)], with the record. *)
Definition root_position (roots : list PluginTrustRootRecordV1) (digest : Hash)
    : option (nat * PluginTrustRootRecordV1) :=
  list_find (fun root => root_digest root = digest) roots.

Definition known_publishers (roots : list PluginTrustRootRecordV1) : gset PublisherKey :=
  list_to_set (roots ≫= root_publishers).

(** What a record must be with respect to the one before it, or as the first. *)
Definition check_revocation_link (prior : option PluginRevocationRecordV1)
    (revocation : PluginRevocationRecordV1) : TrustResult unit :=
  match prior with
  | Some prior =>
      if negb (bool_decide (rev_previous revocation = Some (rev_digest prior)))
      then Err TrustError.DigestMismatch
      else if (rev_epoch revocation <=? rev_epoch prior) || (rev_tick revocation <? rev_tick prior)
      then Err TrustError.ChainDiscontinuity
      else
        let? _ := validate_cumulative_keys (rev_keys prior) (rev_keys revocation)
                    (rev_tick revocation) in
        validate_cumulative_artifacts (rev_artifacts prior) (rev_artifacts revocation)
          (rev_tick revocation)
  | None =>
      if bool_decide (is_Some (rev_previous revocation)) then Err TrustError.DigestMismatch
      else if existsb (fun entry => negb (rvk_tick entry =? rev_tick revocation)) (rev_keys revocation)
           || existsb (fun entry => negb (rva_tick entry =? rev_tick revocation))
                (rev_artifacts revocation)
      then Err TrustError.ChainDiscontinuity else Ok tt
  end.

Fixpoint check_revocations (scope : RString) (roots : list PluginTrustRootRecordV1)
    (previous_root_index : nat) (prior : option PluginRevocationRecordV1)
    (revocations : list PluginRevocationRecordV1) : TrustResult unit :=
  match revocations with
  | [] => Ok tt
  | revocation :: rest =>
      let? _ := check (bool_decide (rev_scope revocation = scope)) TrustError.ChainDiscontinuity in
      let? (root_index, authority) :=
        ok_or (root_position roots (rev_root_digest revocation)) TrustError.DigestMismatch in
      let? _ := check (negb (root_index <? previous_root_index)%nat) TrustError.ChainDiscontinuity in
      let? _ := verify_signature_set (rev_message revocation) (rev_signatures revocation) None
                  (root_keys authority, root_threshold authority) in
      let? _ := check (forallb (fun entry => bool_decide (rvk_publisher entry ∈ known_publishers roots))
                         (rev_keys revocation)) TrustError.ChainDiscontinuity in
      let? _ := check_revocation_link prior revocation in
      check_revocations scope roots root_index (Some revocation) rest
  end.

Definition verify_revocation_history (scope : RString) (roots : list PluginTrustRootRecordV1)
    (revocation_bytes : list (list byte)) (evaluation_utc_second : Z)
    : TrustResult (list PluginRevocationRecordV1) :=
  let? revocations := try_collect revocation_decode revocation_bytes in
  let? _ := check_revocations scope roots 0 None revocations in
  let? terminal := ok_or (last revocations) TrustError.ChainDiscontinuity in
  let? terminal_root := ok_or (last roots) TrustError.ChainDiscontinuity in
  let? _ := check (bool_decide (rev_root_digest terminal = root_digest terminal_root))
              TrustError.DigestMismatch in
  let? _ := check (within evaluation_utc_second (rev_not_before terminal) (rev_expires terminal))
              TrustError.Expired in
  Ok revocations.

(** ** Evidence *)

Record VerifiedPluginTrustEvidenceV1 := MkEvidence {
  evd_scope : RString;
  evd_root_history : list (Z * Hash);
  evd_revocation_history : list (Z * Hash);
  evd_root_version : Z;
  evd_root_digest : Hash;
  evd_policy_epoch : Z;
  evd_revocation_digest : Hash;
  evd_utc_second : Z;
  evd_tick : Z;
  evd_root_validity : Z * Z;
  evd_revocation_validity : Z * Z;
  evd_root_keys : list RootKey;
  evd_publishers : list PublisherKey;
  evd_grants : list Grant;
  evd_revoked_keys : gset PublisherKey;
  evd_revoked_artifacts : gset Hash;
  evd_revoked_key_count : Z;
  evd_revoked_artifact_count : Z;
}.

Definition terminal_root (e : VerifiedPluginTrustEvidenceV1) : Z * Hash :=
  (evd_root_version e, evd_root_digest e).
Definition terminal_revocation (e : VerifiedPluginTrustEvidenceV1) : Z * Hash :=
  (evd_policy_epoch e, evd_revocation_digest e).

Definition effective_keys (tick : Z) (keys : list RevokedPublisherKey) : gset PublisherKey :=
  list_to_set (rvk_publisher <$> List.filter (fun entry => rvk_tick entry <=? tick) keys).
Definition effective_artifacts (tick : Z) (artifacts : list RevokedArtifact) : gset Hash :=
  list_to_set (rva_digest <$> List.filter (fun entry => rva_tick entry <=? tick) artifacts).

Definition verify_plugin_trust_v1 (anchor : TrustedPluginRootAnchorV1)
    (root_bytes revocation_bytes : list (list byte)) (evaluation_utc_second evaluation_tick : Z)
    : TrustResult VerifiedPluginTrustEvidenceV1 :=
  if MAX_ROOT_HISTORY <? len root_bytes then Err TrustError.RootHistoryCapacityExceeded
  else if MAX_REVOCATION_HISTORY <? len revocation_bytes
  then Err TrustError.RevocationHistoryCapacityExceeded
  else
    let? roots := verify_root_history anchor root_bytes evaluation_utc_second in
    let? revocations := verify_revocation_history (anchor_scope anchor) roots revocation_bytes
                          evaluation_utc_second in
    let? root := ok_or (last roots) TrustError.ChainDiscontinuity in
    let? revocation := ok_or (last revocations) TrustError.ChainDiscontinuity in
    Ok (MkEvidence (anchor_scope anchor)
      ((fun r => (root_version r, root_digest r)) <$> roots)
      ((fun r => (rev_epoch r, rev_digest r)) <$> revocations)
      (root_version root) (root_digest root) (rev_epoch revocation) (rev_digest revocation)
      evaluation_utc_second evaluation_tick
      (root_not_before root, root_expires root)
      (rev_not_before revocation, rev_expires revocation)
      (root_keys root) (root_publishers root) (root_grants root)
      (effective_keys evaluation_tick (rev_keys revocation))
      (effective_artifacts evaluation_tick (rev_artifacts revocation))
      (len (rev_keys revocation)) (len (rev_artifacts revocation))).

(** ** The release query *)

Record ValidatedPluginManifestProjectionV1 := MkProjection {
  prj_pmf1_digest : Hash;
  prj_plugin_id : RString;
  prj_owner : OwnerIdV1;
  prj_role : Z;
  prj_epoch : Z;
  prj_not_before : Z;
  prj_not_after : Z;
  prj_release_digest : Hash;
  prj_previous_release_digest : option Hash;
  prj_descriptor_digests : list Hash;
}.

Definition projection_is_complete (p : ValidatedPluginManifestProjectionV1) : bool :=
  (prj_role p =? 3) && negb (prj_epoch p =? 0) && (prj_not_before p <? prj_not_after p)
  && is_ok (validate_plugin_id (prj_plugin_id p))
  && windows_sorted hash_lt (prj_descriptor_digests p).

Record ResolvedPluginTrustAuthorizationV1 := MkAuthorization {
  auth_public_key : Hash;
  auth_pmf1_digest : Hash;
  auth_plugin_id : RString;
  auth_release_digest : Hash;
  auth_descriptor_digests : list Hash;
  auth_previous_release_digest : option Hash;
  auth_terminal_root : Z * Hash;
  auth_terminal_revocation : Z * Hash;
  auth_utc_second : Z;
  auth_tick : Z;
}.

Definition find_publisher (publishers : list PublisherKey) (owner : OwnerIdV1) (epoch : Z)
    : option PublisherKey :=
  List.find (fun key => bool_decide (pk_owner key = owner) && (pk_epoch key =? epoch)) publishers.

Definition authorize_release (e : VerifiedPluginTrustEvidenceV1)
    (manifest : ValidatedPluginManifestProjectionV1)
    : TrustResult ResolvedPluginTrustAuthorizationV1 :=
  if (evd_revoked_key_count e =? MAX_REVOCATION_ENTRIES)
     || (evd_revoked_artifact_count e =? MAX_REVOCATION_ENTRIES)
  then Err TrustError.RevocationCapacityExhausted
  else if negb (projection_is_complete manifest) then Err TrustError.IncompleteManifestProjection
  else if (evd_utc_second e <? prj_not_before manifest) || (prj_not_after manifest <=? evd_utc_second e)
  then Err TrustError.ManifestExpired
  else
    let? publisher := ok_or (find_publisher (evd_publishers e) (prj_owner manifest) (prj_epoch manifest))
                        TrustError.UnknownPublisherKey in
    if negb (existsb (fun grant => bool_decide (grant_plugin_id grant = prj_plugin_id manifest)
                                   && bool_decide (grant_owner grant = prj_owner manifest))
               (evd_grants e))
    then Err TrustError.PluginIdNotGranted
    else if bool_decide (publisher ∈ evd_revoked_keys e) then Err TrustError.PublisherKeyRevoked
    else if existsb (fun digest => bool_decide (digest ∈ evd_revoked_artifacts e))
              (prj_release_digest manifest :: prj_descriptor_digests manifest)
    then Err TrustError.ArtifactRevoked
    else Ok (MkAuthorization (pk_public publisher) (prj_pmf1_digest manifest)
      (prj_plugin_id manifest) (prj_release_digest manifest) (prj_descriptor_digests manifest)
      (prj_previous_release_digest manifest) (terminal_root e) (terminal_revocation e)
      (evd_utc_second e) (evd_tick e)).
End Decode.
