(* ===== verification/PluginTrustCodec.v ===== *)
(** * The encodings of Plugin trust records

    The PTR1 and PRV1 decoders of [PluginTrust] accept exactly one byte string
    per record: [root_decode_exact] and [revocation_decode_exact] describe the
    accepted bytes by a reference encoder and the accepted records by a
    declarative validity condition. *)

From Stdlib Require Import String ZArith Lia Bool Sorting.Sorted.
From S2P Require Import Prelude Text Cbor FallbackRecords Keys StrictCbor PluginTrust.

Local Open Scope Z_scope.

(** ** Loops as conditions on the list they build *)

Lemma all_pushed_and {T} (a b : list T -> T -> bool) pushed xs :
  all_pushed (fun p x => a p x && b p x) pushed xs = all_pushed a pushed xs && all_pushed b pushed xs.
Proof.
  revert pushed. induction xs as [|x xs IH]; intros pushed; simpl; [done|]. rewrite IH.
  by destruct (a pushed x), (b pushed x), (all_pushed a _ xs).
Qed.

Lemma all_pushed_local {T} (P : T -> bool) pushed xs : all_pushed (fun _ x => P x) pushed xs = forallb P xs.
Proof. revert pushed. induction xs as [|x xs IH]; intros pushed; simpl; [done|]. by rewrite IH. Qed.

Lemma forallb_and {T} (a b : T -> bool) xs : forallb (fun x => a x && b x) xs = forallb a xs && forallb b xs.
Proof.
  induction xs as [|x xs IH]; simpl; [done|]. rewrite IH. by destruct (a x), (b x), (forallb a xs).
Qed.

Lemma all_pushed_after {T K} (key : T -> K) lt p y xs :
  all_pushed (fun p x => after_last key lt p (key x)) (p ++ [y]) xs
  = windows_sorted (fun a b => lt (key a) (key b)) (y :: xs).
Proof.
  revert y p. induction xs as [|x xs IH]; intros y p; [done|]. cbn [all_pushed].
  unfold after_last at 1. by rewrite last_snoc, IH.
Qed.

Lemma all_pushed_sorted {T K} (key : T -> K) lt xs :
  all_pushed (fun p x => after_last key lt p (key x)) [] xs
  = windows_sorted (fun a b => lt (key a) (key b)) xs.
Proof. destruct xs as [|x xs]; [done|]. apply (all_pushed_after key lt [] x xs). Qed.

Lemma all_pushed_fresh {T K} `{Countable K} (f : T -> K) pushed xs :
  NoDup (f <$> pushed) ->
  all_pushed (fun p x => negb (bool_decide (f x ∈ f <$> p))) pushed xs
  = bool_decide (NoDup (f <$> pushed ++ xs)).
Proof.
  revert pushed. induction xs as [|x xs IH]; intros pushed Hnd; simpl.
  - rewrite app_nil_r. by rewrite bool_decide_true.
  - destruct (decide (f x ∈ f <$> pushed)) as [Hin|Hin].
    + rewrite (bool_decide_true (f x ∈ _)), bool_decide_false; [done| |done].
      rewrite fmap_app, NoDup_app. intros (_ & Hd & _). apply (Hd (f x) Hin). left.
    + rewrite (bool_decide_false (f x ∈ _)) by done. simpl. rewrite IH.
      * by rewrite <- app_assoc.
      * rewrite fmap_app, NoDup_app. split_and!; [done| |apply NoDup_singleton].
        intros y Hy Hs. apply list_elem_of_singleton in Hs as ->. done.
Qed.

(** ** Reference encoders *)

Definition enc_publisher (p : PublisherKey) : list byte :=
  encode_head 4 4 ++ write_text (raw (pk_owner p)) ++ encode_head 0 3
  ++ encode_head 0 (pk_epoch p) ++ encode_bytes (raw (pk_public p)) 2.

Definition enc_optional {T} (enc : T -> list byte) (o : option T) : list byte :=
  match o with Some x => enc x | None => [xf6] end.

Definition enc_fixed {n} (b : checked (has_len n)) : list byte := encode_bytes (raw b) 2.

Definition enc_signature (s : RootSignature) : list byte :=
  encode_head 4 2 ++ enc_fixed (sig_id s) ++ enc_fixed (sig_bytes s).

Definition enc_root_key (k : RootKey) : list byte :=
  encode_head 4 2 ++ enc_fixed (rk_id k) ++ enc_fixed (rk_public k).

Definition enc_grant (g : Grant) : list byte :=
  encode_head 4 2 ++ write_text (grant_plugin_id g) ++ write_text (raw (grant_owner g)).

Definition enc_header (magic scope : RString) : list byte :=
  encode_head 4 12 ++ write_text magic ++ encode_head 0 1 ++ write_text scope.

Definition enc_root_prefix (r : PluginTrustRootRecordV1) : list byte :=
  enc_header (lit "PTR1") (root_scope r) ++ encode_head 0 (root_version r)
  ++ encode_signed (root_not_before r) ++ encode_signed (root_expires r)
  ++ enc_optional enc_fixed (root_previous r) ++ encode_head 0 (root_threshold r)
  ++ encode_list enc_root_key (root_keys r) ++ encode_list enc_publisher (root_publishers r)
  ++ encode_list enc_grant (root_grants r).

Definition enc_root (r : PluginTrustRootRecordV1) : list byte :=
  enc_root_prefix r ++ encode_list enc_signature (root_signatures r).

Definition enc_revoked_key (k : RevokedPublisherKey) : list byte :=
  encode_head 4 7 ++ write_text (raw (pk_owner (rvk_publisher k))) ++ encode_head 0 3
  ++ encode_head 0 (pk_epoch (rvk_publisher k)) ++ enc_fixed (pk_public (rvk_publisher k))
  ++ encode_head 0 (rvk_tick k) ++ encode_head 0 (rvk_reason k)
  ++ enc_optional enc_publisher (rvk_replacement k).

Definition enc_revoked_artifact (a : RevokedArtifact) : list byte :=
  encode_head 4 4 ++ enc_fixed (rva_digest a) ++ encode_head 0 (rva_tick a)
  ++ encode_head 0 (rva_reason a) ++ enc_optional enc_fixed (rva_replacement a).

Definition enc_revocation_prefix (r : PluginRevocationRecordV1) : list byte :=
  enc_header (lit "PRV1") (rev_scope r) ++ encode_head 0 (rev_epoch r)
  ++ encode_signed (rev_not_before r) ++ encode_signed (rev_expires r)
  ++ enc_fixed (rev_root_digest r) ++ enc_optional enc_fixed (rev_previous r)
  ++ encode_head 0 (rev_tick r) ++ encode_list enc_revoked_key (rev_keys r)
  ++ encode_list enc_revoked_artifact (rev_artifacts r).

Definition enc_revocation (r : PluginRevocationRecordV1) : list byte :=
  enc_revocation_prefix r ++ encode_list enc_signature (rev_signatures r).

(** ** Validity *)

Section Valid.
Context `{Blake3} `{Ed25519}.

Definition u64b (z : Z) : bool := (0 <=? z) && (z <=? U64_MAX).
Definition i64b (z : Z) : bool := (- I64_MAX - 1 <=? z) && (z <=? I64_MAX).

Definition publisher_valid (p : PublisherKey) : bool :=
  u64b (pk_epoch p) && negb (pk_epoch p =? 0) && valid_key (pk_public p).

Definition interval_valid (not_before expires : Z) : bool :=
  i64b not_before && i64b expires && (1 <=? expires - not_before)
  && (expires - not_before <=? 31622400).

Definition root_keys_valid (keys : list RootKey) : bool :=
  forallb (fun k => valid_key (rk_public k) && bool_decide (rk_id k = root_key_id (rk_public k))) keys
  && windows_sorted (fun a b => hash_lt (rk_id a) (rk_id b)) keys
  && bool_decide (NoDup (rk_public <$> keys)).

Definition publishers_valid (publishers : list PublisherKey) : bool :=
  forallb publisher_valid publishers && windows_sorted publisher_lt publishers
  && bool_decide (NoDup (pk_public <$> publishers))
  && bool_decide (NoDup (publisher_identity <$> publishers)).

Definition grants_valid (publishers : list PublisherKey) (grants : list Grant) : bool :=
  forallb (fun g => valid_id_text (grant_plugin_id g)
    && existsb (fun p => bool_decide (pk_owner p = grant_owner g)) publishers) grants
  && windows_sorted (fun a b => str_lt (grant_plugin_id a) (grant_plugin_id b)) grants.

Definition signatures_valid (signatures : list RootSignature) : bool :=
  (1 <=? len signatures) && (len signatures <=? MAX_SIGNATURES)
  && windows_sorted (fun a b => hash_lt (sig_id a) (sig_id b)) signatures.

Definition root_prefix_valid (r : PluginTrustRootRecordV1) : bool :=
  valid_id_text (root_scope r) && u64b (root_version r) && negb (root_version r =? 0)
  && interval_valid (root_not_before r) (root_expires r)
  && (1 <=? root_threshold r) && (root_threshold r <=? len (root_keys r))
  && (len (root_keys r) <=? MAX_ROOT_KEYS) && root_keys_valid (root_keys r)
  && (len (root_publishers r) <=? MAX_PUBLISHER_ENTRIES) && publishers_valid (root_publishers r)
  && (len (root_grants r) <=? MAX_PUBLISHER_ENTRIES)
  && grants_valid (root_publishers r) (root_grants r).

(** Signatures are on the prefix of the encoding, the digest on all of it. *)
Definition root_valid (r : PluginTrustRootRecordV1) : bool :=
  root_prefix_valid r && signatures_valid (root_signatures r)
  && bool_decide (root_message r = ROOT_SIGNATURE_DOMAIN ++ [x8b] ++ drop 1 (enc_root_prefix r))
  && bool_decide (root_digest r = blake3 (enc_root r)).

Definition reason_valid (reason : Z) : bool := (1 <=? reason) && (reason <=? 4).

Definition revoked_keys_valid (tick : Z) (keys : list RevokedPublisherKey) : bool :=
  forallb (fun k => u64b (pk_epoch (rvk_publisher k)) && negb (pk_epoch (rvk_publisher k) =? 0)
    && u64b (rvk_tick k) && (rvk_tick k <=? tick) && reason_valid (rvk_reason k)
    && match rvk_replacement k with Some p => publisher_valid p | None => true end) keys
  && windows_sorted (fun a b => publisher_lt (rvk_publisher a) (rvk_publisher b)) keys.

Definition revoked_artifacts_valid (tick : Z) (artifacts : list RevokedArtifact) : bool :=
  forallb (fun a => u64b (rva_tick a) && (rva_tick a <=? tick) && reason_valid (rva_reason a)) artifacts
  && windows_sorted (fun a b => hash_lt (rva_digest a) (rva_digest b)) artifacts.

Definition revocation_prefix_valid (r : PluginRevocationRecordV1) : bool :=
  valid_id_text (rev_scope r) && u64b (rev_epoch r) && negb (rev_epoch r =? 0)
  && interval_valid (rev_not_before r) (rev_expires r) && u64b (rev_tick r)
  && (len (rev_keys r) <=? MAX_REVOCATION_ENTRIES) && revoked_keys_valid (rev_tick r) (rev_keys r)
  && (len (rev_artifacts r) <=? MAX_REVOCATION_ENTRIES)
  && revoked_artifacts_valid (rev_tick r) (rev_artifacts r).

Definition revocation_valid (r : PluginRevocationRecordV1) : bool :=
  revocation_prefix_valid r && signatures_valid (rev_signatures r)
  && bool_decide (rev_message r
       = REVOCATION_SIGNATURE_DOMAIN ++ [x8b] ++ drop 1 (enc_revocation_prefix r))
  && bool_decide (rev_digest r = blake3 (enc_revocation r)).
End Valid.

(** ** The readers of the fields *)

Section Fields.
Context `{Blake3} `{Ed25519}.

Lemma u64b_ok z : u64b z = true <-> u64_ok z.
Proof. unfold u64b, u64_ok. rewrite andb_true_iff, !Z.leb_le. lia. Qed.
Lemma i64b_ok z : i64b z = true <-> - I64_MAX - 1 <= z <= I64_MAX.
Proof. unfold i64b. rewrite andb_true_iff, !Z.leb_le. lia. Qed.

Lemma is_ok_validate p : is_ok (validate_plugin_id p) = valid_id_text p.
Proof. unfold validate_plugin_id, check. by destruct (valid_id_text p). Qed.

Ltac leaf := bool_props; rewrite ?u64b_ok, ?i64b_ok, ?is_ok_validate in *;
  solve [done | congruence | unfold u64_ok, U64_MAX, U8_MAX, MAX_TEXT_BYTES, MAX_ROOT_KEYS in *; lia | eauto].

Lemma text_bound : MAX_TEXT_BYTES <= U64_MAX.
Proof. done. Qed.
Lemma fixed_bound (n : Z) : n = 32 \/ n = 64 -> 0 <= n <= U64_MAX.
Proof. unfold U64_MAX. lia. Qed.
Local Hint Resolve text_bound : reads.
Local Hint Extern 1 (0 <= _ <= U64_MAX) => (apply fixed_bound; lia) : reads.
Local Hint Extern 1 (_ <= U64_MAX) => (unfold U64_MAX; lia) : reads.

Lemma reads_array_exact n :
  0 <= n <= U64_MAX -> reads (read_array_exact n) (fun _ e => e = encode_head 4 n).
Proof.
  intros Hn. unfold read_array_exact, reject. reads_record. intros [] e. split.
  - intros. reads_split. leaf.
  - intros ->. reads_build; leaf.
Qed.
Local Hint Resolve reads_array_exact : reads.

Lemma reads_owner : reads read_owner (fun o e => e = write_text (raw o)).
Proof.
  unfold read_owner. reads_record. intros o e. split.
  - intros. reads_split. match goal with Ho : ok_or _ _ = _ |- _ => by apply ok_or_ok_inv, make_some in Ho as <- end.
  - intros ->. pose proof (owner_text_bound o). exists (raw o). unfold owner_new. rewrite make_raw.
    unfold MAX_TEXT_BYTES. split_and!; done || lia.
Qed.
Local Hint Resolve reads_owner : reads.

Ltac fields := cbn [pk_owner pk_epoch pk_public sig_id sig_bytes rk_id rk_public grant_plugin_id
  grant_owner rvk_publisher rvk_tick rvk_reason rvk_replacement rva_digest rva_tick rva_reason
  rva_replacement] in *.

Lemma reads_publisher :
  reads read_publisher (fun p e => e = enc_publisher p /\ publisher_valid p = true).
Proof.
  unfold read_publisher, reject. reads_record. intros [o ep k] e. split.
  - intros. reads_split. simplify_eq. bool_props. subst. split; [done|]. unfold publisher_valid. fields.
    bool_props; leaf.
  - unfold publisher_valid, enc_publisher. fields. intros [-> Hv]. bool_props. reads_build; leaf.
Qed.

Lemma enc_publisher_not_null p e r t :
  e = enc_publisher p /\ publisher_valid p = true -> e ++ r <> xf6 :: t.
Proof.
  intros [-> _]. unfold enc_publisher. rewrite <- app_assoc. apply encode_head_not_null; [lia|done].
Qed.

Lemma reads_optional_publisher :
  reads read_optional_publisher (fun o e => e = enc_optional enc_publisher o
    /\ match o with Some p => publisher_valid p | None => true end = true).
Proof.
  eapply reads_iff; [apply reads_optional; [apply reads_publisher|apply enc_publisher_not_null]|].
  intros [p|] e; simpl; naive_solver.
Qed.

Lemma reads_optional_fixed n : 0 <= n <= U64_MAX ->
  reads (s_optional_bytes n) (fun o e => e = enc_optional enc_fixed o).
Proof.
  intros Hn. eapply reads_iff; [by apply reads_optional_bytes|]. by intros [b|] e.
Qed.
Lemma reads_reason :
  reads read_reason (fun v e => e = encode_head 0 v /\ reason_valid v = true).
Proof.
  unfold read_reason, reject. reads_record. intros v e. unfold reason_valid. split.
  - intros. reads_split. bool_props. split; [done|]. leaf.
  - intros [-> Hv]. bool_props. reads_build; leaf.
Qed.
Local Hint Resolve reads_publisher reads_optional_publisher reads_optional_fixed reads_reason : reads.

(** One item of a loop, against the items before it. *)
Lemma reads_signature pushed :
  reads (read_signature pushed) (fun x e => e = enc_signature x
    /\ after_last sig_id hash_lt pushed (sig_id x) = true).
Proof.
  unfold read_signature, reject. reads_record. intros [i b] e. split.
  - intros. reads_split. simplify_eq. bool_props. done.
  - unfold enc_signature, enc_fixed. fields. intros [-> Hv]. reads_build; leaf.
Qed.

Lemma reads_root_key pushed :
  reads (read_root_key pushed) (fun x e => e = enc_root_key x
    /\ (valid_key (rk_public x) && bool_decide (rk_id x = root_key_id (rk_public x))
        && after_last rk_id hash_lt pushed (rk_id x)
        && negb (bool_decide (rk_public x ∈ rk_public <$> pushed))) = true).
Proof.
  unfold read_root_key, reject. reads_record. intros [i k] e. split.
  - intros. reads_split. simplify_eq. bool_props. split; [done|]. fields. leaf.
  - unfold enc_root_key, enc_fixed. fields. intros [-> Hv]. bool_props. reads_build; leaf.
Qed.

Lemma reads_new_publisher pushed :
  reads (read_new_publisher pushed) (fun x e => e = enc_publisher x
    /\ (publisher_valid x && after_last (fun p => p) publisher_lt pushed x
        && negb (bool_decide (pk_public x ∈ pk_public <$> pushed))
        && negb (bool_decide (publisher_identity x ∈ publisher_identity <$> pushed))) = true).
Proof.
  unfold read_new_publisher, reject. reads_record. intros x e. split.
  - intros. reads_split. simplify_eq. bool_props. split; [done|]. leaf.
  - intros [-> Hv]. bool_props. reads_build; leaf.
Qed.

Lemma valid_id_len p : valid_id_text p = true -> str_len p <= MAX_TEXT_BYTES.
Proof. unfold valid_id_text, MAX_ID_BYTES, MAX_TEXT_BYTES. intros Hv. bool_props. done. Qed.
Local Hint Resolve valid_id_len : core.

Lemma reads_grant publishers pushed :
  reads (read_grant publishers pushed) (fun x e => e = enc_grant x
    /\ (valid_id_text (grant_plugin_id x)
        && existsb (fun p => bool_decide (pk_owner p = grant_owner x)) publishers
        && after_last grant_plugin_id str_lt pushed (grant_plugin_id x)) = true).
Proof.
  unfold read_grant, reject. reads_record. intros [p o] e. split.
  - intros. reads_split. simplify_eq. bool_props. split; [done|]. fields. leaf.
  - unfold enc_grant. fields. intros [-> Hv]. bool_props. reads_build; leaf.
Qed.
Lemma reads_revoked_key tick pushed :
  reads (read_revoked_key tick pushed) (fun x e => e = enc_revoked_key x
    /\ (u64b (pk_epoch (rvk_publisher x)) && negb (pk_epoch (rvk_publisher x) =? 0)
        && u64b (rvk_tick x) && (rvk_tick x <=? tick) && reason_valid (rvk_reason x)
        && match rvk_replacement x with Some p => publisher_valid p | None => true end
        && after_last rvk_publisher publisher_lt pushed (rvk_publisher x)) = true).
Proof.
  unfold read_revoked_key, reject. reads_record. intros [[o ep k] t r rp] e. split.
  - intros. reads_split. simplify_eq. bool_props. subst. split; [done|]. fields. leaf.
  - unfold enc_revoked_key, enc_fixed. fields. intros [-> Hv]. bool_props. reads_build; leaf.
Qed.

Lemma reads_revoked_artifact tick pushed :
  reads (read_revoked_artifact tick pushed) (fun x e => e = enc_revoked_artifact x
    /\ (u64b (rva_tick x) && (rva_tick x <=? tick) && reason_valid (rva_reason x)
        && after_last rva_digest hash_lt pushed (rva_digest x)) = true).
Proof.
  unfold read_revoked_artifact, reject. reads_record. intros [d t r rp] e. split.
  - intros. reads_split. simplify_eq. bool_props. subst. split; [done|]. fields. leaf.
  - unfold enc_revoked_artifact, enc_fixed. fields. intros [-> Hv]. bool_props. reads_build; leaf.
Qed.

Lemma reads_header magic :
  str_len magic = 4 ->
  reads (read_header magic) (fun scope e => e = enc_header magic scope /\ valid_id_text scope = true).
Proof.
  intros Hm. unfold read_header, reject. reads_record. intros scope e. split.
  - intros. reads_split. bool_props. subst. split; [done|]. leaf.
  - unfold enc_header. intros [-> Hv]. reads_build; leaf.
Qed.

Lemma reads_interval :
  reads read_interval (fun i e => e = encode_signed i.1 ++ encode_signed i.2
    /\ interval_valid i.1 i.2 = true).
Proof.
  unfold read_interval, reject. reads_record. intros [a b] e. unfold interval_valid. cbn [fst snd]. split.
  - intros. reads_split. simplify_eq. bool_props. split; [done|]. leaf.
  - intros [-> Hv]. bool_props. reads_build; leaf.
Qed.

Lemma reads_threshold :
  reads read_root_threshold (fun v e => e = encode_head 0 v /\ 1 <= v <= MAX_ROOT_KEYS).
Proof.
  unfold read_root_threshold, reject, MAX_ROOT_KEYS. reads_record. intros v e. split.
  - intros. reads_split. bool_props. rewrite app_nil_r. split; [done|lia].
  - intros [-> Hv]. exists v, (encode_head 0 v), []. rewrite app_nil_r. split_and!; try done; leaf.
Qed.

(** ** The readers of the lists *)

Lemma hash_ids_sorted {T} (key : T -> Hash) xs :
  all_pushed (fun p x => after_last key hash_lt p (key x)) [] xs
  = windows_sorted (fun a b => hash_lt (key a) (key b)) xs.
Proof. apply all_pushed_sorted. Qed.

Lemma reads_signatures :
  reads read_signatures (fun l e => e = encode_list enc_signature l /\ signatures_valid l = true).
Proof.
  unfold read_signatures, reject. eapply reads_iff.
  { eapply (reads_list_guarded _ (fun n => n =? 0)); [done|apply reads_signature]. }
  intros l e. unfold signatures_valid. rewrite all_pushed_sorted. pose proof (len_nonneg l).
  rewrite !andb_true_iff, Z.leb_le, Z.leb_le, Z.eqb_neq.
  split; intros; destruct_and!; split_and!; done || lia.
Qed.

Lemma reads_root_keys threshold :
  reads (read_root_keys threshold) (fun l e => e = encode_list enc_root_key l
    /\ (negb (threshold =? 0) && (threshold <=? len l) && (1 <=? len l)
        && (len l <=? MAX_ROOT_KEYS) && root_keys_valid l) = true).
Proof.
  unfold read_root_keys, reject. eapply reads_iff.
  { eapply (reads_list_guarded _ (fun n => (n =? 0) || (threshold =? 0) || (n <? threshold)));
      [done|apply reads_root_key]. }
  intros l e. unfold root_keys_valid. pose proof (len_nonneg l).
  rewrite !all_pushed_and, ?forallb_and, !all_pushed_local, all_pushed_sorted, all_pushed_fresh by constructor.
  split; intros; destruct_and!; bool_props; split_and!; bool_props; done || lia.
Qed.

Lemma reads_publishers :
  reads read_publishers (fun l e => e = encode_list enc_publisher l
    /\ ((len l <=? MAX_PUBLISHER_ENTRIES) && publishers_valid l) = true).
Proof.
  eapply reads_iff; [apply reads_list; [done|apply reads_new_publisher]|].
  intros l e. unfold publishers_valid.
  rewrite !all_pushed_and, ?forallb_and, !all_pushed_local, (all_pushed_sorted (fun p => p)), !all_pushed_fresh by constructor.
  split; intros; destruct_and!; bool_props; split_and!; bool_props; done.
Qed.

Lemma reads_grants publishers :
  reads (read_grants publishers) (fun l e => e = encode_list enc_grant l
    /\ ((len l <=? MAX_PUBLISHER_ENTRIES) && grants_valid publishers l) = true).
Proof.
  eapply reads_iff; [apply reads_list; [done|apply reads_grant]|].
  intros l e. unfold grants_valid. rewrite !all_pushed_and, ?forallb_and, !all_pushed_local, all_pushed_sorted.
  split; intros; destruct_and!; bool_props; split_and!; bool_props; done.
Qed.

Lemma reads_revoked_keys tick :
  reads (read_revoked_keys tick) (fun l e => e = encode_list enc_revoked_key l
    /\ ((len l <=? MAX_REVOCATION_ENTRIES) && revoked_keys_valid tick l) = true).
Proof.
  unfold read_revoked_keys, reject. eapply reads_iff.
  { eapply (reads_list_guarded _ (fun n => MAX_REVOCATION_ENTRIES <? n)); [done|apply reads_revoked_key]. }
  intros l e. unfold revoked_keys_valid, MAX_REVOCATION_ENTRIES.
  rewrite !all_pushed_and, ?forallb_and, !all_pushed_local, all_pushed_sorted.
  split; intros; destruct_and!; bool_props; split_and!; bool_props; done || (unfold U64_MAX; lia).
Qed.

Lemma reads_revoked_artifacts tick :
  reads (read_revoked_artifacts tick) (fun l e => e = encode_list enc_revoked_artifact l
    /\ ((len l <=? MAX_REVOCATION_ENTRIES) && revoked_artifacts_valid tick l) = true).
Proof.
  unfold read_revoked_artifacts, reject. eapply reads_iff.
  { eapply (reads_list_guarded _ (fun n => MAX_REVOCATION_ENTRIES <? n)); [done|apply reads_revoked_artifact]. }
  intros l e. unfold revoked_artifacts_valid, MAX_REVOCATION_ENTRIES.
  rewrite !all_pushed_and, ?forallb_and, !all_pushed_local, all_pushed_sorted.
  split; intros; destruct_and!; bool_props; split_and!; bool_props; done || (unfold U64_MAX; lia).
Qed.

(** ** Whole records *)

Local Hint Resolve reads_header reads_interval reads_threshold reads_root_keys reads_publishers
  reads_grants reads_revoked_keys reads_revoked_artifacts : reads.

(** A prefix, the signatures over it, and the end of the input. *)
Lemma signed_record {P A} (prefix : TrustReader P) (mk : P -> Z -> list RootSignature -> A) R bytes r :
  reads prefix R ->
  (exists c, (let! p := prefix in
   let! prefix_end := read_offset in
   let! signatures := read_signatures in
   let! _ := read_finish in
   pret (mk p prefix_end signatures)) (cursor_new bytes) = Ok (r, c))
  <-> exists p e signatures, bytes = e ++ encode_list enc_signature signatures /\ R p e
      /\ signatures_valid signatures = true /\ r = mk p (len e) signatures.
Proof.
  intros Hp. unfold pbind at 1, cursor_new. split.
  - intros [c Hr]. destruct (prefix _) as [[p c1]|] eqn:He; [|done].
    apply (Hp [] bytes) in He as (e & rest & -> & HR & ->). cbn [app] in Hr.
    unfold pbind at 1, read_offset in Hr. cbn [coffset] in Hr. unfold pbind at 1 in Hr.
    destruct (read_signatures _) as [[sigs c2]|] eqn:He; [|done].
    apply (reads_signatures e rest) in He as (es & rest' & -> & [-> Hs] & ->).
    unfold pbind, read_finish, s_finish in Hr. cbn [coffset cbytes] in Hr.
    destruct (Z.eqb_spec (len e + len (encode_list enc_signature sigs))
      (len (e ++ encode_list enc_signature sigs ++ rest'))) as [Hl|]; [|done].
    rewrite !len_app in Hl. assert (rest' = []) as -> by (destruct rest'; [done|len_lia]).
    simpl in Hr. injection Hr as <- _. exists p, e, sigs. by rewrite app_nil_r.
  - intros (p & e & sigs & -> & HR & Hs & ->).
    assert (Hpe : prefix (Cursor (e ++ encode_list enc_signature sigs) 0)
      = Ok (p, Cursor (e ++ encode_list enc_signature sigs) (len e))).
    { apply (Hp [] (e ++ _)). by exists e, (encode_list enc_signature sigs). }
    rewrite Hpe. unfold pbind at 1, read_offset. cbn [coffset]. unfold pbind at 1.
    assert (Hse : read_signatures (Cursor (e ++ encode_list enc_signature sigs) (len e))
      = Ok (sigs, Cursor (e ++ encode_list enc_signature sigs) (len e + len (encode_list enc_signature sigs)))).
    { apply (reads_signatures e). exists (encode_list enc_signature sigs), []. by rewrite app_nil_r. }
    rewrite Hse. unfold pbind, read_finish, s_finish. cbn [coffset cbytes].
    rewrite len_app, Z.eqb_refl. by eexists.
Qed.

(** The fields of PTR1 before its signatures. *)
Definition read_root_prefix : TrustReader (Hash -> list byte -> list RootSignature -> PluginTrustRootRecordV1) :=
  let! scope := read_header (lit "PTR1") in
  let! version := s_unsigned in
  if version =? 0 then reject TrustError.InvalidEncoding else
  let! (not_before, expires) := read_interval in
  let! previous := s_optional_bytes 32 in
  let! threshold := read_root_threshold in
  let! keys := read_root_keys threshold in
  let! publishers := read_publishers in
  let! grants := read_grants publishers in
  pret (fun digest message signatures => MkRootRecord scope version not_before expires previous
    threshold keys publishers grants signatures message digest).

Definition read_revocation_prefix
    : TrustReader (Hash -> list byte -> list RootSignature -> PluginRevocationRecordV1) :=
  let! scope := read_header (lit "PRV1") in
  let! epoch := s_unsigned in
  if epoch =? 0 then reject TrustError.InvalidEncoding else
  let! (not_before, expires) := read_interval in
  let! root_digest := s_bytes 32 in
  let! previous := s_optional_bytes 32 in
  let! tick := s_unsigned in
  let! keys := read_revoked_keys tick in
  let! artifacts := read_revoked_artifacts tick in
  pret (fun digest message signatures => MkRevocationRecord scope epoch not_before expires
    root_digest previous tick keys artifacts signatures message digest).

Lemma read_root_record_prefix bytes c :
  read_root_record bytes c
  = (let! mk := read_root_prefix in
     let! prefix_end := read_offset in
     let! signatures := read_signatures in
     let! _ := read_finish in
     pret (mk (blake3 bytes) (signature_message ROOT_SIGNATURE_DOMAIN bytes prefix_end) signatures)) c.
Proof.
  unfold read_root_record, read_root_prefix, pbind.
  repeat (case_match; try done; simplify_eq).
Qed.

Lemma read_revocation_record_prefix bytes c :
  read_revocation_record bytes c
  = (let! mk := read_revocation_prefix in
     let! prefix_end := read_offset in
     let! signatures := read_signatures in
     let! _ := read_finish in
     pret (mk (blake3 bytes) (signature_message REVOCATION_SIGNATURE_DOMAIN bytes prefix_end) signatures)) c.
Proof.
  unfold read_revocation_record, read_revocation_prefix, pbind.
  repeat (case_match; try done; simplify_eq).
Qed.

Definition root_with (r : PluginTrustRootRecordV1) digest message signatures : PluginTrustRootRecordV1 :=
  MkRootRecord (root_scope r) (root_version r) (root_not_before r) (root_expires r) (root_previous r)
    (root_threshold r) (root_keys r) (root_publishers r) (root_grants r) signatures message digest.

Definition revocation_with (r : PluginRevocationRecordV1) digest message signatures
    : PluginRevocationRecordV1 :=
  MkRevocationRecord (rev_scope r) (rev_epoch r) (rev_not_before r) (rev_expires r)
    (rev_root_digest r) (rev_previous r) (rev_tick r) (rev_keys r) (rev_artifacts r) signatures
    message digest.

Ltac record_fields := cbn [root_scope root_version root_not_before root_expires root_previous
  root_threshold root_keys root_publishers root_grants rev_scope rev_epoch rev_not_before
  rev_expires rev_root_digest rev_previous rev_tick rev_keys rev_artifacts fst snd] in *.

Lemma reads_root_prefix :
  reads read_root_prefix (fun mk e => exists r, e = enc_root_prefix r /\ root_prefix_valid r = true
    /\ mk = root_with r).
Proof.
  unfold read_root_prefix, reject. reads_record. intros mk e. unfold root_prefix_valid. split.
  - intros. reads_split. eexists (MkRootRecord _ _ _ _ _ _ _ _ _ [] [] (blake3 [])). split_and!; cycle 2.
    { reflexivity. }
    + unfold enc_root_prefix. record_fields. by rewrite <- ?app_assoc.
    + record_fields. bool_props; leaf.
  - unfold enc_root_prefix. intros ([sc v nb ex prev th ks ps gs sg ms dg] & -> & Hv & ->).
    unfold root_with. record_fields.
    rewrite (app_assoc (encode_signed nb)). bool_props. reads_build; record_fields; leaf.
Qed.

Lemma reads_revocation_prefix :
  reads read_revocation_prefix (fun mk e => exists r, e = enc_revocation_prefix r
    /\ revocation_prefix_valid r = true /\ mk = revocation_with r).
Proof.
  unfold read_revocation_prefix, reject. reads_record. intros mk e. unfold revocation_prefix_valid. split.
  - intros. reads_split. eexists (MkRevocationRecord _ _ _ _ _ _ _ _ _ [] [] (blake3 [])). split_and!; cycle 2.
    { reflexivity. }
    + unfold enc_revocation_prefix, enc_fixed. record_fields. by rewrite <- ?app_assoc.
    + record_fields. bool_props; leaf.
  - unfold enc_revocation_prefix, enc_fixed. intros ([sc ep nb ex rd prev tk ks ar sg ms dg] & -> & Hv & ->).
    unfold revocation_with. record_fields.
    rewrite (app_assoc (encode_signed nb)). bool_props. reads_build; record_fields; leaf.
Qed.

(** ** Exactness *)

Lemma value_ok {E A C} (m : result E (A * C)) a :
  (let? (x, _) := m in Ok x) = Ok a <-> exists c, m = Ok (a, c).
Proof. destruct m as [[x c]|]; simpl; naive_solver. Qed.

Lemma signature_message_prefix domain prefix rest :
  signature_message domain (prefix ++ rest) (len prefix) = domain ++ [x8b] ++ drop 1 prefix.
Proof. unfold signature_message. by rewrite len_to_nat, take_app_length. Qed.

Lemma root_decode_exact bytes r :
  root_decode bytes = Ok r
  <-> root_valid r = true /\ bytes = enc_root r /\ len bytes <= MAX_RECORD_BYTES.
Proof.
  unfold root_decode, root_valid. destruct (Z.ltb_spec MAX_RECORD_BYTES (len bytes)) as [|Hle];
    [split; [done|intros; lia]|].
  rewrite read_root_record_prefix. etransitivity; [apply value_ok|]. rewrite (signed_record read_root_prefix (fun mk n sigs =>
    mk (blake3 bytes) (signature_message ROOT_SIGNATURE_DOMAIN bytes n) sigs) _ bytes r
    reads_root_prefix). unfold enc_root. split.
  - intros (mk & e & sigs & -> & (r0 & -> & Hv & ->) & Hs & ->). unfold root_with.
    cbn [root_signatures root_message root_digest]. rewrite signature_message_prefix. split_and!; try done.
    bool_props; try done.
  - intros (Hv & -> & _). bool_props.
    exists (root_with r), (enc_root_prefix r), (root_signatures r). split_and!; try done.
    { by exists r. }
    rewrite signature_message_prefix. destruct r. unfold root_with. simpl in *. by subst.
Qed.

Lemma revocation_decode_exact bytes r :
  revocation_decode bytes = Ok r
  <-> revocation_valid r = true /\ bytes = enc_revocation r /\ len bytes <= MAX_RECORD_BYTES.
Proof.
  unfold revocation_decode, revocation_valid. destruct (Z.ltb_spec MAX_RECORD_BYTES (len bytes)) as [|Hle];
    [split; [done|intros; lia]|].
  rewrite read_revocation_record_prefix. etransitivity; [apply value_ok|]. rewrite (signed_record read_revocation_prefix (fun mk n sigs =>
    mk (blake3 bytes) (signature_message REVOCATION_SIGNATURE_DOMAIN bytes n) sigs) _ bytes r
    reads_revocation_prefix). unfold enc_revocation. split.
  - intros (mk & e & sigs & -> & (r0 & -> & Hv & ->) & Hs & ->). unfold revocation_with.
    cbn [rev_signatures rev_message rev_digest]. rewrite signature_message_prefix. split_and!; try done.
    bool_props; try done.
  - intros (Hv & -> & _). bool_props.
    exists (revocation_with r), (enc_revocation_prefix r), (rev_signatures r). split_and!; try done.
    { by exists r. }
    rewrite signature_message_prefix. destruct r. unfold revocation_with. simpl in *. by subst.
Qed.
End Fields.
