(* ===== verification/PluginTrustChain.v ===== *)
(** * Authenticated trust histories

    What a successful [verify_plugin_trust_v1] establishes: the root records
    form a chain from the anchored genesis in which every record carries a
    quorum of its own keys and of its predecessor's; the terminal digests
    determine the histories; a denial of any revocation record of the history
    is a denial of the evidence; and a release is authorized only under a
    granted, undenied publisher key of the terminal root record. *)

From Stdlib Require Import String ZArith Lia Bool.
From S2P Require Import Prelude Text Cbor FallbackRecords StrictCbor PluginTrust PluginTrustCodec.

Local Open Scope Z_scope.

(** ** Generic lemmas *)

Lemma check_ok b e : check b e = Ok tt <-> b = true.
Proof. unfold check. by destruct b. Qed.

Lemma try_collect_ok {E A B} (f : A -> result E B) l ys :
  try_collect f l = Ok ys <-> Forall2 (fun x y => f x = Ok y) l ys.
Proof.
  revert ys. induction l as [|x l IH]; intros ys; simpl.
  - split; [by intros [= <-]|by inversion 1].
  - split.
    + intros Hc. ok_inv. constructor; [done|]. by apply IH.
    + inversion 1 as [|? y ? ys' Hy Hys]; subst. rewrite Hy. simpl. apply IH in Hys. by rewrite Hys.
Qed.

Lemma map_by_lookup {K V} `{Countable K} (key : V -> K) l k v :
  map_by key l !! k = Some v -> v ∈ l /\ key v = k.
Proof.
  unfold map_by. induction l as [|x l IH] using rev_ind; [done|].
  rewrite fold_left_app. simpl. destruct (decide (key x = k)) as [<-|Hne].
  - rewrite lookup_insert_eq. intros [= ->]. split; [set_solver|done].
  - rewrite lookup_insert_ne by done. intros Hl. apply IH in Hl as [? ?]. set_solver.
Qed.

Lemma hash_lt_irrefl a : hash_lt a a = false.
Proof. apply bytes_lt_irrefl. Qed.
Lemma hash_lt_trans a b c : hash_lt a b = true -> hash_lt b c = true -> hash_lt a c = true.
Proof. apply bytes_lt_trans. Qed.

Lemma sorted_ids_NoDup {T} (key : T -> Hash) xs :
  windows_sorted (fun a b => hash_lt (key a) (key b)) xs = true -> NoDup (key <$> xs).
Proof.
  intros Hs. apply (windows_sorted_NoDup hash_lt); [apply hash_lt_irrefl|apply hash_lt_trans|].
  induction xs as [|x [|y xs] IH]; [done..|]. cbn [windows_sorted fmap list_fmap] in *.
  apply andb_true_iff in Hs as [Hxy Hs]. by rewrite Hxy, IH.
Qed.

Lemma forall_or {T} (l : list T) (P : T -> Prop) (Q C : Prop) :
  (forall x, x ∈ l -> P x \/ C) -> ((forall x, x ∈ l -> P x) -> Q) -> Q \/ C.
Proof.
  intros Hl HQ. assert ((forall x, x ∈ l -> P x) \/ C) as [?|?]; [|left; auto|by right].
  clear HQ. induction l as [|x l IH]; [left; set_solver|].
  destruct (Hl x) as [Hx|]; [left|..|by right]. destruct IH as [IH|]; [set_solver|left|by right].
  intros y [->|Hy]%elem_of_cons; auto.
Qed.

Section Chain.
Context `{Blake3} `{Ed25519}.

(** Two different strings of [xs] and [ys] that were hashed to one digest: what
    the guarantees below are relative to. *)
Definition collides (xs ys : list (list byte)) : Prop :=
  exists a b, a ∈ xs /\ b ∈ ys /\ a <> b /\ blake3 a = blake3 b.

Lemma collides_mono xs ys xs' ys' : xs ⊆ xs' -> ys ⊆ ys' -> collides xs ys -> collides xs' ys'.
Proof. intros Hx Hy (a & b & Ha & Hb & Hc). exists a, b. auto. Qed.

Lemma inj_or_collides a b xs ys : a ∈ xs -> b ∈ ys -> blake3 a = blake3 b -> a = b \/ collides xs ys.
Proof. intros Ha Hb He. destruct (decide (a = b)); [by left|right]. by exists a, b. Qed.

(** The string a root key id is the digest of. *)
Definition key_preimage (k : RootKey) : list byte := ROOT_KEY_DOMAIN ++ hash_bytes (rk_public k).
Definition key_preimages (roots : list PluginTrustRootRecordV1) : list (list byte) :=
  roots ≫= fun r => key_preimage <$> root_keys r.

(** ** Quorums *)

(** At least [threshold] keys of [keys], told apart by their ids, each have a
    verifying signature of [message]. *)
Definition quorum (keys : list RootKey) (threshold : Z) (message : list byte)
    (signatures : list RootSignature) : Prop :=
  exists signers : gset Hash, threshold <= Z.of_nat (size signers)
    /\ forall id, id ∈ signers -> exists k s, k ∈ keys /\ rk_id k = id /\ s ∈ signatures
       /\ sig_id s = id /\ verify_strict (rk_public k) message (sig_bytes s) = true.

Definition in_keys (keys : list RootKey) (s : RootSignature) : bool :=
  bool_decide (is_Some (find_root_key keys (sig_id s))).

Lemma find_root_key_some keys id k :
  find_root_key keys id = Some k -> k ∈ keys /\ rk_id k = id.
Proof.
  unfold find_root_key. intros Hf. apply List.find_some in Hf as [Hin Hid].
  apply bool_decide_eq_true in Hid. split; [by apply list_elem_of_In|done].
Qed.

Lemma count_signatures_ok message old current sigs oc cc oc' cc' :
  count_signatures message old current sigs oc cc = Ok (oc', cc') ->
  oc' = oc + len (List.filter (in_keys old) sigs)
  /\ cc' = cc + len (List.filter (in_keys current) sigs)
  /\ forall s, s ∈ sigs -> exists k,
       match find_root_key current (sig_id s) with
       | Some k => Some k | None => find_root_key old (sig_id s) end = Some k
       /\ verify_strict (rk_public k) message (sig_bytes s) = true.
Proof.
  revert oc cc. induction sigs as [|s sigs IH]; intros oc cc; cbn [count_signatures].
  - intros [= -> ->]. autorewrite with len. split_and!; [len_lia..|]. set_solver.
  - intros Hc. ok_inv. rewrite check_ok in *. apply IH in Hk as (-> & -> & Hs).
    cbn [List.filter]. fold (in_keys old s). fold (in_keys current s). split_and!.
    1,2: destruct (in_keys _ s); autorewrite with len; lia.
    intros s' [->|Hin]%elem_of_cons; eauto.
Qed.

(** The ids of sorted signatures are as many as the signatures. *)
Lemma quorum_of_filter keys threshold message sigs (P : RootSignature -> bool) :
  NoDup (sig_id <$> sigs) ->
  threshold <= len (List.filter P sigs) ->
  (forall s, s ∈ sigs -> P s = true -> exists k, k ∈ keys /\ rk_id k = sig_id s
     /\ verify_strict (rk_public k) message (sig_bytes s) = true) ->
  quorum keys threshold message sigs.
Proof.
  intros Hnd Hle Hk. exists (list_to_set (sig_id <$> List.filter P sigs)). split.
  - rewrite size_list_to_set; [by rewrite length_fmap|].
    clear - Hnd. induction sigs as [|s sigs IH]; [constructor|].
    rewrite fmap_cons, NoDup_cons in Hnd. destruct Hnd as [Hni Hnd]. simpl.
    destruct (P s); [|by apply IH]. rewrite fmap_cons. constructor; [|by apply IH].
    intros Hin. apply Hni. apply list_elem_of_fmap in Hin as (s' & -> & Hin).
    apply list_elem_of_fmap. exists s'. split; [done|].
    apply list_elem_of_In, List.filter_In in Hin as [Hin _]. by apply list_elem_of_In.
  - intros id Hid. apply elem_of_list_to_set, list_elem_of_fmap in Hid as (s & -> & Hin).
    apply list_elem_of_In, List.filter_In in Hin as [Hin HP]. apply list_elem_of_In in Hin.
    destruct (Hk s Hin HP) as (k & ? & ? & ?). by exists k, s.
Qed.

Definition keys_derived (keys : list RootKey) : Prop :=
  forall k, k ∈ keys -> rk_id k = root_key_id (rk_public k).

Lemma verify_signature_set_quorum message sigs old current threshold :
  NoDup (sig_id <$> sigs) ->
  verify_signature_set message sigs old (current, threshold) = Ok tt ->
  quorum current threshold message sigs
  /\ (keys_derived current -> forall keys t, old = Some (keys, t) -> keys_derived keys ->
      quorum keys t message sigs \/ collides (key_preimage <$> current) (key_preimage <$> keys)).
Proof.
  intros Hnd Hv. unfold verify_signature_set in Hv. ok_inv. cbn [fst snd] in *.
  apply orb_false_iff in Hb as [Hc Ho]. apply Z.ltb_ge in Hc.
  apply count_signatures_ok in Hm as (-> & -> & Hs). rewrite !Z.add_0_l in *. split.
  { eapply quorum_of_filter; [done|exact Hc|]. intros s Hin HP. destruct (Hs s Hin) as (k & Hsel & Hver).
    apply bool_decide_eq_true in HP as [k' Hk']. rewrite Hk' in Hsel. injection Hsel as <-.
    apply find_root_key_some in Hk' as [? ?]. by exists k'. }
  intros Hcur keys t -> Hold. apply Z.ltb_ge in Ho. simpl in *.
  apply (forall_or sigs (fun s => in_keys keys s = true -> exists k, k ∈ keys
    /\ rk_id k = sig_id s /\ verify_strict (rk_public k) message (sig_bytes s) = true)).
  2: { intros Hall. by eapply quorum_of_filter. }
  intros s Hin. destruct (in_keys keys s) eqn:HP; [|by left].
  apply bool_decide_eq_true in HP as [k' Hk']. destruct (Hs s Hin) as (k & Hsel & Hver).
  apply find_root_key_some in Hk' as Hk''. destruct Hk'' as [Hin' Hid'].
  destruct (find_root_key current (sig_id s)) as [kc|] eqn:Hkc.
  - injection Hsel as ->. apply find_root_key_some in Hkc as [Hink Hidk].
    destruct (inj_or_collides (key_preimage k) (key_preimage k') (key_preimage <$> current) (key_preimage <$> keys))
      as [He|]; [by apply list_elem_of_fmap_2..| |left|by right].
    + change (root_key_id (rk_public k) = root_key_id (rk_public k')). rewrite <- Hcur, <- Hold by done. congruence.
    + apply app_inv_head, (inj raw) in He. intros _. exists k'. by rewrite <- He.
  - rewrite Hk' in Hsel. injection Hsel as ->. left. by exists k.
Qed.

(** ** Root histories *)

(** A root record decoded from its bytes: its keys are named by their hash and
    its signatures by pairwise distinct ids. *)
Definition root_decoded (r : PluginTrustRootRecordV1) : Prop :=
  exists bytes, root_decode bytes = Ok r.

Lemma root_valid_keys r : root_valid r = true -> keys_derived (root_keys r).
Proof.
  unfold root_valid, root_prefix_valid, root_keys_valid. intros Hv k Hin. bool_props.
  match goal with Hf : forallb _ (root_keys r) = true |- _ =>
    rewrite forallb_forall in Hf; specialize (Hf k) end.
  rewrite <- list_elem_of_In in *. by match goal with Hf : _ -> _ = true |- _ =>
    specialize (Hf Hin); bool_props end.
Qed.

Lemma signatures_valid_ids l : signatures_valid l = true -> NoDup (sig_id <$> l).
Proof. unfold signatures_valid. intros Hv. bool_props. by apply sorted_ids_NoDup. Qed.

Lemma root_valid_signatures r : root_valid r = true -> NoDup (sig_id <$> root_signatures r).
Proof. unfold root_valid. intros Hv. bool_props. by apply signatures_valid_ids. Qed.

(** The chain of custody from the anchor. *)
Inductive authenticated (anchor : TrustedPluginRootAnchorV1) : list PluginTrustRootRecordV1 -> Prop :=
| authenticated_genesis r :
    root_digest r = anchor_genesis_digest anchor -> root_scope r = anchor_scope anchor ->
    root_previous r = None ->
    quorum (root_keys r) (root_threshold r) (root_message r) (root_signatures r) ->
    authenticated anchor [r]
| authenticated_successor rs p r :
    authenticated anchor (rs ++ [p]) ->
    root_scope r = anchor_scope anchor ->
    root_previous r = Some (root_digest p) -> root_version r = root_version p + 1 ->
    quorum (root_keys r) (root_threshold r) (root_message r) (root_signatures r) ->
    quorum (root_keys p) (root_threshold p) (root_message r) (root_signatures r) ->
    authenticated anchor (rs ++ [p; r]).

Lemma check_root_link_ok p r :
  check_root_link p r = Ok tt -> root_previous r = Some (root_digest p) /\ root_version r = root_version p + 1.
Proof.
  unfold check_root_link, checked_add. intros Hc. ok_inv. rewrite check_ok in *.
  case_match; simplify_eq. bool_props. done.
Qed.

Lemma check_roots_authenticated anchor rs p rest :
  authenticated anchor (rs ++ [p]) -> root_valid p = true ->
  Forall (fun r => root_valid r = true) rest ->
  check_roots (anchor_scope anchor) (Some p) rest = Ok tt ->
  authenticated anchor (rs ++ p :: rest)
  \/ collides (key_preimages (p :: rest)) (key_preimages (p :: rest)).
Proof.
  revert rs p. induction rest as [|r rest IH]; intros rs p Ha Hp Hrest; cbn [check_roots]; [by left|].
  apply Forall_cons in Hrest as [Hr Hrest]. intros Hc. ok_inv. rewrite check_ok in *. bool_props.
  apply check_root_link_ok in Hm0 as [Hprev Hver].
  apply verify_signature_set_quorum in Hm1 as [Hq Hqp]; [|by apply root_valid_signatures].
  destruct (Hqp (root_valid_keys _ Hr) _ _ eq_refl (root_valid_keys _ Hp)) as [Hqo|Hcol].
  - assert (Ha' : authenticated anchor ((rs ++ [p]) ++ [r])).
    { rewrite <- app_assoc. by apply authenticated_successor. }
    destruct (IH (rs ++ [p]) r Ha' Hr Hrest Hk) as [Hx|Hx]; [left; by rewrite <- app_assoc in Hx|right].
    eapply collides_mono, Hx; unfold key_preimages; set_solver.
  - right. eapply collides_mono, Hcol; unfold key_preimages; set_solver.
Qed.

Lemma root_decoded_valid r : root_decoded r -> root_valid r = true.
Proof. by intros [bytes [Hv _]%root_decode_exact]. Qed.

Lemma collected_decoded {A B} (f : A -> TrustResult B) bytes rs :
  Forall2 (fun b r => f b = Ok r) bytes rs -> Forall (fun r => exists b, f b = Ok r) rs.
Proof. intros Hf. eapply Forall2_Forall_r; [exact Hf|]. apply Forall_forall. eauto. Qed.

Lemma verify_root_history_ok anchor root_bytes now roots :
  verify_root_history anchor root_bytes now = Ok roots ->
  Forall2 (fun b r => root_decode b = Ok r) root_bytes roots
  /\ (exists t, last roots = Some t /\ root_not_before t <= now < root_expires t)
  /\ root_publics roots ## publisher_publics roots
  /\ (authenticated anchor roots \/ collides (key_preimages roots) (key_preimages roots)).
Proof.
  unfold verify_root_history, within. intros Hv. ok_inv.
  destruct (head a) as [g|] eqn:Hg; [|done]. destruct (last a) as [t|] eqn:Ht; [|done]. ok_inv.
  rewrite check_ok in *. bool_props. apply try_collect_ok in Hm. split_and!; [done|by exists t|done|].
  destruct roots as [|g' rest]; [done|]. injection Hg as ->.
  pose proof (collected_decoded _ _ _ Hm) as Hd. apply Forall_cons in Hd as [Hgd Hrest].
  apply root_decoded_valid in Hgd. cbn [check_roots fmap option_fmap option_map] in Hm2.
  ok_inv. rewrite check_ok in *. bool_props.
  apply verify_signature_set_quorum in Hm2 as [Hq _]; [|by apply root_valid_signatures].
  apply (check_roots_authenticated anchor [] g rest); [by apply authenticated_genesis|done| |done].
  eapply Forall_impl; [exact Hrest|]. intros r. apply root_decoded_valid.
Qed.

(** ** Histories are bound by their terminal digests *)

Lemma root_decode_digest_inj b1 b2 r1 r2 :
  root_decode b1 = Ok r1 -> root_decode b2 = Ok r2 -> root_digest r1 = root_digest r2 ->
  collides [b1] [b2] \/ (b1 = b2 /\ r1 = r2).
Proof.
  intros H1 H2 He. pose proof H1 as Hx. pose proof H2 as Hy.
  apply root_decode_exact in Hx as (Hv1 & -> & _). apply root_decode_exact in Hy as (Hv2 & -> & _).
  unfold root_valid in Hv1, Hv2. bool_props.
  destruct (inj_or_collides (enc_root r1) (enc_root r2) [enc_root r1] [enc_root r2]) as [Heq|];
    [by left|by left|congruence|right|by left].
  rewrite Heq in H1. split; [done|congruence].
Qed.

Lemma revocation_decode_digest_inj b1 b2 r1 r2 :
  revocation_decode b1 = Ok r1 -> revocation_decode b2 = Ok r2 -> rev_digest r1 = rev_digest r2 ->
  collides [b1] [b2] \/ (b1 = b2 /\ r1 = r2).
Proof.
  intros H1 H2 He. pose proof H1 as Hx. pose proof H2 as Hy.
  apply revocation_decode_exact in Hx as (Hv1 & -> & _). apply revocation_decode_exact in Hy as (Hv2 & -> & _).
  unfold revocation_valid in Hv1, Hv2. bool_props.
  destruct (inj_or_collides (enc_revocation r1) (enc_revocation r2) [enc_revocation r1] [enc_revocation r2]) as [Heq|];
    [by left|by left|congruence|right|by left].
  rewrite Heq in H1. split; [done|congruence].
Qed.

(** Every record names the digest of the one before it; the first names none. *)
Definition digest_linked {R} (prev : R -> option Hash) (digest : R -> Hash) (rs : list R) : Prop :=
  forall i r, rs !! i = Some r -> prev r = match i with O => None | S j => digest <$> rs !! j end.

Lemma digest_linked_snoc {R} prev digest (rs : list R) r :
  digest_linked prev digest (rs ++ [r]) <-> digest_linked prev digest rs /\ prev r = digest <$> last rs.
Proof.
  unfold digest_linked. rewrite last_lookup. split.
  - intros Hl. split.
    + intros i x Hx. pose proof (lookup_lt_Some _ _ _ Hx). rewrite (Hl i x) by by apply lookup_app_l_Some.
      destruct i as [|j]; [done|]. by rewrite lookup_app_l by lia.
    + specialize (Hl (length rs) r). rewrite Hl by apply list_lookup_middle, eq_refl.
      destruct (length rs) as [|n] eqn:Hn; [by apply nil_length_inv in Hn as ->|]. by rewrite lookup_app_l by lia.
  - intros [Hl Hr] i x Hx. destruct (decide (i < length rs)%nat).
    + rewrite lookup_app_l in Hx by done. rewrite (Hl i x Hx). destruct i as [|j]; [done|].
      by rewrite lookup_app_l by lia.
    + apply lookup_snoc_Some in Hx as [[? _]|[-> <-]]; [done|]. rewrite Hr.
      destruct (length rs) as [|k] eqn:Hn; [by apply nil_length_inv in Hn as ->|]. by rewrite lookup_app_l by lia.
Qed.

Lemma linked_determined {R} (dec : list byte -> TrustResult R) prev digest b1 b2 rs1 rs2 t1 t2 :
  (forall b1 b2 r1 r2, dec b1 = Ok r1 -> dec b2 = Ok r2 -> digest r1 = digest r2 ->
     collides [b1] [b2] \/ (b1 = b2 /\ r1 = r2)) ->
  Forall2 (fun b r => dec b = Ok r) b1 rs1 -> Forall2 (fun b r => dec b = Ok r) b2 rs2 ->
  digest_linked prev digest rs1 -> digest_linked prev digest rs2 ->
  last rs1 = Some t1 -> last rs2 = Some t2 -> digest t1 = digest t2 ->
  collides b1 b2 \/ b1 = b2.
Proof.
  intros Hinj. revert b1 b2 rs2 t1 t2. induction rs1 as [|r1 rs1 IH] using rev_ind; [by intros|].
  intros b1 b2 rs2 t1 t2 Hd1 Hd2. destruct rs2 as [|r2 rs2 _] using rev_ind; [done|].
  rewrite !last_snoc, !digest_linked_snoc. intros [Ha1 Hp1] [Ha2 Hp2] [= ->] [= ->] He.
  apply Forall2_app_inv_r in Hd1 as (c1 & l1 & Hd1 & Hr1 & ->).
  apply Forall2_app_inv_r in Hd2 as (c2 & l2 & Hd2 & Hr2 & ->).
  apply Forall2_cons_inv_r in Hr1 as (x1 & y1 & Hx1 & Hy1 & ->). apply Forall2_nil_inv_r in Hy1 as ->.
  apply Forall2_cons_inv_r in Hr2 as (x2 & y2 & Hx2 & Hy2 & ->). apply Forall2_nil_inv_r in Hy2 as ->.
  destruct (Hinj _ _ _ _ Hx1 Hx2 He) as [Hc|[-> ->]]; [left; eapply collides_mono, Hc; set_solver|]. rewrite Hp1 in Hp2.
  destruct (last rs1) as [p1|] eqn:Hl1, (last rs2) as [p2|] eqn:Hl2; try done.
  - injection Hp2 as Hp2. destruct (IH c1 c2 rs2 p1 p2) as [Hc| ->]; [done..|left; eapply collides_mono, Hc; set_solver|by right].
  - apply last_None in Hl1 as ->. apply last_None in Hl2 as ->.
    apply Forall2_nil_inv_r in Hd1 as ->. apply Forall2_nil_inv_r in Hd2 as ->. by right.
Qed.

Lemma check_roots_linked scope done_ p rest :
  digest_linked root_previous root_digest (done_ ++ [p]) ->
  check_roots scope (Some p) rest = Ok tt ->
  digest_linked root_previous root_digest (done_ ++ p :: rest).
Proof.
  revert done_ p. induction rest as [|r rest IH]; intros d p Hl; cbn [check_roots]; [done|].
  intros Hc. ok_inv. apply check_root_link_ok in Hm0 as [Hprev _].
  specialize (IH (d ++ [p]) r). rewrite <- (app_assoc d [p] (r :: rest)) in IH. apply IH; [|done].
  apply digest_linked_snoc. by rewrite last_snoc.
Qed.

Lemma verify_root_history_linked anchor root_bytes now roots :
  verify_root_history anchor root_bytes now = Ok roots ->
  digest_linked root_previous root_digest roots.
Proof.
  unfold verify_root_history. intros Hv. ok_inv. do 2 (case_match; [|done]). ok_inv.
  rewrite check_ok in *. bool_props. destruct roots as [|g rest]; [done|]. simplify_eq/=.
  ok_inv. apply (check_roots_linked (anchor_scope anchor) [] p rest); [|done].
  intros [|i] r Hr; [by simplify_eq/=|done].
Qed.

(** ** Revocation histories *)

Local Arguments check_revocation_link : simpl never.

Definition rev_extends (r1 r2 : PluginRevocationRecordV1) : Prop :=
  rev_keys r1 ⊆ rev_keys r2 /\ rev_artifacts r1 ⊆ rev_artifacts r2.

Lemma rev_extends_refl r : rev_extends r r.
Proof. done. Qed.
Lemma rev_extends_trans r1 r2 r3 : rev_extends r1 r2 -> rev_extends r2 r3 -> rev_extends r1 r3.
Proof. unfold rev_extends. set_solver. Qed.

Lemma validate_cumulative_ok {K V} `{Countable K} `{EqDecision V} (key : V -> K) entry_tick previous current tick :
  validate_cumulative key entry_tick previous current tick = Ok tt -> previous ⊆ current.
Proof.
  unfold validate_cumulative. intros Hv. ok_inv. bool_props. rewrite forallb_forall in Hb.
  intros x Hx. apply list_elem_of_In, Hb in Hx. bool_props. by apply map_by_lookup in Hx as [? _].
Qed.

Lemma check_revocation_link_ok prior r :
  check_revocation_link prior r = Ok tt ->
  match prior with
  | Some p => rev_previous r = Some (rev_digest p) /\ rev_epoch p < rev_epoch r
              /\ rev_tick p <= rev_tick r /\ rev_extends p r
  | None => rev_previous r = None
  end.
Proof.
  unfold check_revocation_link. destruct prior as [p|]; intros Hc; ok_inv; bool_props.
  - apply validate_cumulative_ok in Hm, Hk. done.
  - by apply eq_None_not_Some.
Qed.

(** An accepted revocation history, with the root record that signs each. *)
Inductive revocation_chain (scope : RString) (roots : list PluginTrustRootRecordV1)
    : nat -> option PluginRevocationRecordV1 -> list PluginRevocationRecordV1 -> Prop :=
| chain_nil i prior : revocation_chain scope roots i prior []
| chain_cons i prior r rest j authority :
    rev_scope r = scope ->
    roots !! j = Some authority -> root_digest authority = rev_root_digest r -> (i <= j)%nat ->
    quorum (root_keys authority) (root_threshold authority) (rev_message r) (rev_signatures r) ->
    (forall k, k ∈ rev_keys r -> rvk_publisher k ∈ known_publishers roots) ->
    match prior with
    | Some p => rev_previous r = Some (rev_digest p) /\ rev_epoch p < rev_epoch r
                /\ rev_tick p <= rev_tick r /\ rev_extends p r
    | None => rev_previous r = None
    end ->
    revocation_chain scope roots j (Some r) rest ->
    revocation_chain scope roots i prior (r :: rest).

Lemma check_revocations_chain scope roots i prior rs :
  Forall (fun r => revocation_valid r = true) rs ->
  check_revocations scope roots i prior rs = Ok tt ->
  revocation_chain scope roots i prior rs.
Proof.
  revert i prior. induction rs as [|r rs IH]; intros i prior Hrs; cbn [check_revocations].
  { intros. constructor. }
  apply Forall_cons in Hrs as [Hr Hrs]. intros Hc. ok_inv. rewrite check_ok in *. bool_props.
  unfold root_position in *. apply list_find_Some in Hm0 as (Hj & Hd & _).
  apply verify_signature_set_quorum in Hm2 as [Hq _];
    [|unfold revocation_valid in Hr; bool_props; by apply signatures_valid_ids].
  match goal with Hl : check_revocation_link _ _ = _ |- _ => apply check_revocation_link_ok in Hl end.
  match goal with Hr' : check_revocations _ _ _ _ rs = _ |- _ =>
    pose proof (IH _ _ Hrs Hr') as Hch end.
  econstructor; try done.
  - match goal with Hn : (_ <? _)%nat = false |- _ => apply Nat.ltb_ge in Hn; exact Hn end.
  - match goal with Hf : forallb _ _ = true |- _ => rewrite forallb_forall in Hf end.
    intros k Hin%list_elem_of_In%Hm3. by bool_props.
Qed.

Lemma check_revocations_extends scope roots i prior rs t :
  check_revocations scope roots i prior rs = Ok tt -> last rs = Some t ->
  match prior with Some p => rev_extends p t | None => True end /\ forall r, r ∈ rs -> rev_extends r t.
Proof.
  revert i prior. induction rs as [|r rest IH]; intros i prior; cbn [check_revocations]; [done|].
  intros Hc Ht. ok_inv.
  match goal with Hl : check_revocation_link _ _ = _ |- _ => apply check_revocation_link_ok in Hl as Hlink end.
  assert (Hrt : rev_extends r t /\ forall r', r' ∈ rest -> rev_extends r' t).
  { destruct rest as [|r' rest]; [injection Ht as ->; split; [done|set_solver]|].
    rewrite last_cons_cons in Ht. by apply (IH n (Some r)). }
  destruct Hrt as [Hrt Hall]. split.
  - destruct prior as [q|]; [|done]. destruct Hlink as (_ & _ & _ & He). by eapply rev_extends_trans.
  - intros r' [->|Hin]%elem_of_cons; auto.
Qed.

Lemma check_revocations_linked scope roots i d p rest :
  digest_linked rev_previous rev_digest (d ++ [p]) ->
  check_revocations scope roots i (Some p) rest = Ok tt ->
  digest_linked rev_previous rev_digest (d ++ p :: rest).
Proof.
  revert i d p. induction rest as [|r rest IH]; intros i d p Hl; cbn [check_revocations]; [done|].
  intros Hc. ok_inv.
  match goal with Hx : check_revocation_link _ _ = _ |- _ => apply check_revocation_link_ok in Hx as [Hprev _] end.
  specialize (IH n (d ++ [p]) r). rewrite <- (app_assoc d [p] (r :: rest)) in IH. apply IH; [|done].
  apply digest_linked_snoc. by rewrite last_snoc.
Qed.

Lemma verify_revocation_history_ok scope roots bytes now rs :
  verify_revocation_history scope roots bytes now = Ok rs ->
  Forall2 (fun b r => revocation_decode b = Ok r) bytes rs
  /\ digest_linked rev_previous rev_digest rs
  /\ revocation_chain scope roots 0 None rs
  /\ exists t root, last rs = Some t /\ last roots = Some root /\ rev_root_digest t = root_digest root
     /\ rev_not_before t <= now < rev_expires t /\ forall r, r ∈ rs -> rev_extends r t.
Proof.
  unfold verify_revocation_history, within. intros Hv. ok_inv. rewrite check_ok in *.
  bool_props. apply try_collect_ok in Hm. split_and!; [done| |..].
  - destruct rs as [|r rs]; [done|]. cbn [check_revocations] in Hm0. ok_inv.
    match goal with Hl : check_revocation_link _ _ = _ |- _ => apply check_revocation_link_ok in Hl end.
    apply (check_revocations_linked scope roots n [] r rs); [|done].
    intros [|i] r' Hr; [by simplify_eq/=|done].
  - apply check_revocations_chain; [|done].
    eapply Forall_impl; [eapply collected_decoded; exact Hm|]. by intros r [b [? _]%revocation_decode_exact].
  - destruct (check_revocations_extends _ _ _ _ _ _ Hm0 Hm1) as [_ Hall]. eauto 10.
Qed.

(** ** Evidence *)

Lemma verify_plugin_trust_ok anchor root_bytes revocation_bytes now tick e :
  verify_plugin_trust_v1 anchor root_bytes revocation_bytes now tick = Ok e ->
  exists roots rs root t,
    verify_root_history anchor root_bytes now = Ok roots
    /\ verify_revocation_history (anchor_scope anchor) roots revocation_bytes now = Ok rs
    /\ last roots = Some root /\ last rs = Some t
    /\ evd_root_history e = (fun r => (root_version r, root_digest r)) <$> roots
    /\ evd_revocation_history e = (fun r => (rev_epoch r, rev_digest r)) <$> rs
    /\ evd_root_digest e = root_digest root /\ evd_revocation_digest e = rev_digest t
    /\ evd_publishers e = root_publishers root /\ evd_grants e = root_grants root
    /\ evd_utc_second e = now /\ evd_tick e = tick
    /\ evd_revoked_keys e = effective_keys tick (rev_keys t)
    /\ evd_revoked_artifacts e = effective_artifacts tick (rev_artifacts t).
Proof.
  unfold verify_plugin_trust_v1. intros Hv. ok_inv. exists a, a0, a1, a2. done.
Qed.

Lemma verify_root_history_valid anchor root_bytes now roots :
  verify_root_history anchor root_bytes now = Ok roots -> Forall (fun r => root_valid r = true) roots.
Proof.
  intros (Hd & _)%verify_root_history_ok. eapply Forall_impl; [eapply collected_decoded; exact Hd|].
  intros r. apply root_decoded_valid.
Qed.

Lemma evidence_denies anchor root_bytes revocation_bytes now tick e bytes r :
  verify_plugin_trust_v1 anchor root_bytes revocation_bytes now tick = Ok e ->
  bytes ∈ revocation_bytes -> revocation_decode bytes = Ok r ->
  (forall k, k ∈ rev_keys r -> rvk_tick k <= tick -> rvk_publisher k ∈ evd_revoked_keys e)
  /\ (forall a, a ∈ rev_artifacts r -> rva_tick a <= tick -> rva_digest a ∈ evd_revoked_artifacts e).
Proof.
  intros Hv Hin Hdec.
  apply verify_plugin_trust_ok in Hv as (roots & rs & root & t & Hroots & Hrs & _ & Ht & _ & _ & _
    & _ & _ & _ & _ & _ & -> & ->).
  destruct (verify_revocation_history_ok _ _ _ _ _ Hrs) as (Hd & _ & _ & t' & root' & Ht' & _ & _ & _ & Hall).
  rewrite Ht in Ht'. injection Ht' as <-.
  apply list_elem_of_lookup in Hin as [i Hi]. destruct (Forall2_lookup_l _ _ _ _ _ Hd Hi) as (r' & Hr' & Hr'').
  rewrite Hdec in Hr''. injection Hr'' as <-.
  destruct (Hall r) as [Hk Ha]; [by eapply list_elem_of_lookup_2|].
  unfold effective_keys, effective_artifacts. split; intros x Hx Htick;
    apply elem_of_list_to_set, list_elem_of_fmap; exists x; (split; [done|]);
    apply list_elem_of_In, List.filter_In; (split; [apply list_elem_of_In; set_solver|by apply Z.leb_le]).
Qed.

Lemma authorize_release_ok e m a :
  authorize_release e m = Ok a <->
  (evd_revoked_key_count e <> MAX_REVOCATION_ENTRIES
   /\ evd_revoked_artifact_count e <> MAX_REVOCATION_ENTRIES)
  /\ projection_is_complete m = true /\ prj_not_before m <= evd_utc_second e < prj_not_after m
  /\ (exists g, g ∈ evd_grants e /\ grant_plugin_id g = prj_plugin_id m /\ grant_owner g = prj_owner m)
  /\ (forall d, d ∈ prj_release_digest m :: prj_descriptor_digests m -> (d ∉ evd_revoked_artifacts e))
  /\ exists p, find_publisher (evd_publishers e) (prj_owner m) (prj_epoch m) = Some p
     /\ (p ∉ evd_revoked_keys e)
     /\ a = MkAuthorization (pk_public p) (prj_pmf1_digest m) (prj_plugin_id m) (prj_release_digest m)
              (prj_descriptor_digests m) (prj_previous_release_digest m) (terminal_root e)
              (terminal_revocation e) (evd_utc_second e) (evd_tick e).
Proof.
  unfold authorize_release. split.
  - intros Ha. ok_inv. bool_props. split_and!; try done.
    + match goal with Hg : existsb _ (evd_grants e) = true |- _ => apply existsb_exists in Hg as (g & Hin & Hg) end.
      bool_props. exists g. by rewrite list_elem_of_In.
    + intros d [->|Hd]%elem_of_cons Hin; [done|]. match goal with Hx : existsb _ _ = false |- _ =>
        apply not_true_iff_false in Hx; apply Hx end.
      apply existsb_exists. exists d. rewrite <- list_elem_of_In. by split; [|apply bool_decide_eq_true].
    + eauto.
  - intros ([H1 H2] & -> & [H3 H4] & (g & Hg & Hg1 & Hg2) & Hd & p & -> & Hp & ->).
    rewrite (proj2 (Z.eqb_neq _ _) H1), (proj2 (Z.eqb_neq _ _) H2).
    rewrite (proj2 (Z.ltb_ge _ _) H3), (proj2 (Z.leb_gt _ _) H4). cbn [orb negb ok_or rbind].
    replace (existsb _ (evd_grants e)) with true.
    2: { symmetry. apply existsb_exists. exists g. rewrite <- list_elem_of_In. split; [done|]. by bool_props. }
    cbn [negb]. rewrite bool_decide_false by done.
    replace (existsb _ (_ :: _)) with false; [done|]. symmetry. apply not_true_iff_false.
    intros (d & Hin & Hbad)%existsb_exists. bool_props. by apply (Hd d); [apply list_elem_of_In|].
Qed.
End Chain.
