(* ===== verification/WireSyntax.v ===== *)
(** * Wire syntax of the conformance records

    [crates/pos-conformance/src/wire_syntax.rs]: the structural CBOR preflight
    and the text grammars of identifiers, member paths, media types and
    semantic versions. *)

From Stdlib Require Import String ZArith Lia Bool.
From S2P Require Import Prelude Text Cbor FallbackRecords StrictCbor PluginTrust.

Local Open Scope Z_scope.

(** ** The preflight *)

Inductive CborPreflightError := PreflightInvalidEncoding | PreflightFieldOutOfBounds.

(** [bytes.get(start..end)], with [start <= end]. *)
Definition get_range (bytes : list byte) (from to : Z) : option (list byte) :=
  if to <=? len bytes then Some (take (Z.to_nat (to - from)) (drop (Z.to_nat from) bytes)) else None.

(** [read_length]: the value and the index behind it. *)
Definition read_length (bytes : list byte) (index additional : Z) : result CborPreflightError (Z * Z) :=
  if additional <=? 23 then Ok (additional, index) else
  let? width :=
    if additional =? 24 then Ok 1 else if additional =? 25 then Ok 2
    else if additional =? 26 then Ok 4 else if additional =? 27 then Ok 8
    else Err PreflightInvalidEncoding in
  let end_ := saturating_add index width in
  let? encoded := ok_or (get_range bytes index end_) PreflightInvalidEncoding in
  Ok (from_be_bytes (replicate (8 - Z.to_nat width) x00 ++ encoded), end_).

(** [(0..length).try_for_each(..)] threading the index. *)
Fixpoint try_times {E} (n : nat) (f : Z -> result E Z) (index : Z) : result E Z :=
  match n with
  | O => Ok index
  | S n' => let? index' := f index in try_times n' f index'
  end.

(** [item]: [levels] counts the nesting levels that are left,
    [maximum_depth + 1 - depth], so that none is left exactly when
    [depth > maximum_depth]. *)
Fixpoint preflight_item (levels : nat) (bytes : list byte) (maximum_items : Z)
    (allow_simple_values : bool) (index : Z) : result CborPreflightError Z :=
  match levels with
  | O => Err PreflightFieldOutOfBounds
  | S levels' =>
      let? initial := ok_or (bytes !! Z.to_nat index) PreflightInvalidEncoding in
      let additional := Z.land (Z_of_byte initial) 0x1f in
      let? (length, index) := read_length bytes (saturating_add index 1) additional in
      let major := Z.shiftr (Z_of_byte initial) 5 in
      if (major =? 0) || (major =? 1) then Ok index
      else if (major =? 2) || (major =? 3) then
        let? end_ := ok_or (checked_add index length) PreflightFieldOutOfBounds in
        let? _ := ok_or (get_range bytes index end_) PreflightInvalidEncoding in
        Ok end_
      else if (major =? 4) && (maximum_items <? length) then Err PreflightFieldOutOfBounds
      else if major =? 4 then
        try_times (Z.to_nat length)
          (preflight_item levels' bytes maximum_items allow_simple_values) index
      else if (major =? 7) && allow_simple_values && (20 <=? additional) && (additional <=? 22)
      then Ok index
      else Err PreflightInvalidEncoding
  end.

Definition preflight_array_cbor (bytes : list byte) (maximum_depth maximum_items : Z)
    (allow_simple_values : bool) : result CborPreflightError unit :=
  let? index := preflight_item (Z.to_nat (maximum_depth + 1)) bytes maximum_items
                  allow_simple_values 0 in
  if index =? len bytes then Ok tt else Err PreflightInvalidEncoding.

(** ** Grammars *)

Definition is_ascii (bytes : list byte) : bool := forallb (in_range 0 0x7F) bytes.

Definition id_char (b : byte) : bool :=
  ascii_lower b || ascii_digit b || bool_decide (b ∈ ["."; "_"; "/"; "-"]%byte).

Definition identifier (value : RString) (maximum_bytes : Z) : bool :=
  match as_bytes value with
  | [] => false
  | first :: _ =>
      (str_len value <=? maximum_bytes) && is_ascii (as_bytes value)
      && (ascii_lower first || ascii_digit first) && forallb id_char (as_bytes value)
  end.

(** [str::split(c)]: one component more than separators. *)
Fixpoint split_on (c : byte) (bytes : list byte) : list (list byte) :=
  match bytes with
  | [] => [[]]
  | b :: rest =>
      if decide (b = c) then [] :: split_on c rest
      else match split_on c rest with
           | [] => [[b]]
           | first :: others => (b :: first) :: others
           end
  end.

(** [str::split_once(c)]. *)
Fixpoint split_once (c : byte) (bytes : list byte) : option (list byte * list byte) :=
  match bytes with
  | [] => None
  | b :: rest =>
      if decide (b = c) then Some ([], rest)
      else (fun p => (b :: p.1, p.2)) <$> split_once c rest
  end.

Definition contains (c : byte) (bytes : list byte) : bool := existsb (fun b => bool_decide (b = c)) bytes.

Definition member_path (value : RString) (maximum_bytes maximum_components maximum_component_bytes : Z)
    : bool :=
  let bytes := as_bytes value in
  negb (is_empty value) && (str_len value <=? maximum_bytes) && is_ascii bytes
  && negb (bool_decide (head bytes = Some "/"%byte)) && negb (contains "\"%byte bytes)
  && negb (contains x00 bytes)
  && (1 <=? len (split_on "/" bytes)) && (len (split_on "/" bytes) <=? maximum_components)
  && forallb (fun component =>
       negb (len component =? 0) && negb (bool_decide (component = ["."%byte]))
       && negb (bool_decide (component = ["."; "."]%byte))
       && (len component <=? maximum_component_bytes)) (split_on "/" bytes).

Definition media_char (b : byte) : bool :=
  ascii_lower b || ascii_digit b
  || bool_decide (b ∈ ["!"; "#"; "$"; "&"; "^"; "_"; "."; "+"; "-"; "/"]%byte).

Definition media_type (value : RString) (maximum_bytes : Z) : bool :=
  match split_once "/" (as_bytes value) with
  | None => false
  | Some (type_name, subtype) =>
      (3 <=? str_len value) && (str_len value <=? maximum_bytes)
      && negb (len type_name =? 0) && negb (len subtype =? 0) && negb (contains "/" subtype)
      && is_ascii (as_bytes value) && forallb media_char (as_bytes value)
  end.

Definition ascii_alphanumeric (b : byte) : bool :=
  ascii_lower b || ascii_digit b || in_range 0x41 0x5A b.

(** A split at the first [c]: nothing behind it is [Some] of the whole and the
    empty string, an empty or otherwise refused suffix is [None]. *)
Definition split_suffix (c : byte) (suffix_ok : list byte -> bool) (bytes : list byte)
    : option (list byte * list byte) :=
  match split_once c bytes with
  | Some (core, suffix) => if suffix_ok suffix then Some (core, suffix) else None
  | None => Some (bytes, [])
  end.

Definition version_numeric (maximum : option Z) (component : list byte) : bool :=
  negb (len component =? 0)
  && match maximum with Some maximum => len component <=? maximum | None => true end
  && (bool_decide (component = ["0"%byte]) || negb (bool_decide (head component = Some "0"%byte)))
  && forallb ascii_digit component.

Definition version_identifiers (maximum : option Z) (suffix : list byte) (numeric_zero_forbidden : bool)
    : bool :=
  (len suffix =? 0)
  || forallb (fun component =>
       negb (len component =? 0)
       && forallb (fun b => ascii_alphanumeric b || bool_decide (b = "-"%byte)) component
       && (negb numeric_zero_forbidden || negb (forallb ascii_digit component)
           || version_numeric maximum component)) (split_on "." suffix).

Definition semantic_version (value : RString) (maximum_bytes : Z)
    (maximum_numeric_component_bytes : option Z) : bool :=
  if is_empty value || (maximum_bytes <? str_len value) || negb (is_ascii (as_bytes value))
  then false else
  match split_suffix "+" (fun s => negb (len s =? 0) && negb (contains "+" s)) (as_bytes value) with
  | None => false
  | Some (core_and_prerelease, build) =>
      match split_suffix "-" (fun s => negb (len s =? 0)) core_and_prerelease with
      | None => false
      | Some (core, prerelease) =>
          (len (split_on "." core) =? 3)
          && forallb (version_numeric maximum_numeric_component_bytes) (split_on "." core)
          && version_identifiers maximum_numeric_component_bytes prerelease true
          && version_identifiers maximum_numeric_component_bytes build false
      end
  end.

(** ** Hexadecimal digests *)

(** [blake3::Hash::to_hex], third-party code. *)
Class HexText := { to_hex : Hash -> RString }.

Definition hex_digest `{HexText} (bytes : Hash) : RString := to_hex bytes.

Definition lowercase_hex_nibble (b : byte) : Z :=
  if ascii_digit b then Z_of_byte b - 0x30 else Z_of_byte b - 0x61 + 10.

Fixpoint hex_pairs (encoded : list byte) : list byte :=
  match encoded with
  | a :: b :: rest =>
      byte_of_Z (Z.lor (Z.shiftl (lowercase_hex_nibble a) 4) (lowercase_hex_nibble b)) :: hex_pairs rest
  | _ => []
  end.

Definition decode_hex_digest (value : RString) : option Hash :=
  let encoded := as_bytes value in
  if negb (len encoded =? 64) || negb (forallb (fun b => ascii_digit b || in_range 0x61 0x66 b) encoded)
  then None else hash_try_from (hex_pairs encoded).

(** ** Theorems *)

Lemma id_char_ascii b : id_char b = true -> in_range 0 0x7F b = true.
Proof. by destruct b. Qed.

(** The identifier grammar of the conformance records, at 128 bytes, is the
    one of Plugin manifests: the two crates accept the same identifiers. *)
Lemma identifier_valid_id_text value : identifier value MAX_ID_BYTES = valid_id_text value.
Proof.
  unfold identifier, valid_id_text. destruct (as_bytes value) as [|first rest] eqn:He; [by rewrite andb_false_r|].
  destruct (str_len value <=? MAX_ID_BYTES); [|done]. cbn [andb]. fold id_char.
  unfold is_ascii. cbn [forallb].
  destruct (ascii_lower first || ascii_digit first) eqn:Hf; [|by rewrite andb_false_r].
  assert (id_char first = true) as Hc by (unfold id_char; by rewrite Hf).
  rewrite Hc, (id_char_ascii _ Hc). simpl. rewrite andb_true_r.
  destruct (forallb id_char rest) eqn:Hr; [|by rewrite andb_false_r]. rewrite andb_true_r.
  apply forallb_forall. intros b Hb. rewrite forallb_forall in Hr. by apply id_char_ascii, Hr.
Qed.

(** [split_on] loses nothing: the components joined by the separator are the
    text, and no component holds the separator. *)
Fixpoint join (c : byte) (components : list (list byte)) : list byte :=
  match components with
  | [] => []
  | [first] => first
  | first :: rest => first ++ c :: join c rest
  end.

Lemma split_on_nonempty c bytes : split_on c bytes <> [].
Proof. destruct bytes as [|b rest]; simpl; [done|]. destruct (decide (b = c)); [done|]. by case_match. Qed.

Lemma split_on_join c bytes :
  join c (split_on c bytes) = bytes /\ Forall (fun component => c ∉ component) (split_on c bytes).
Proof.
  induction bytes as [|b rest [IHj IHf]]; simpl; [split; [done|]; by repeat constructor; set_solver|].
  pose proof (split_on_nonempty c rest). destruct (decide (b = c)) as [->|Hne].
  - destruct (split_on c rest) as [|x xs] eqn:He; [done|]. split; [by rewrite <- IHj|].
    constructor; [set_solver|done].
  - destruct (split_on c rest) as [|x xs] eqn:He; [done|]. apply Forall_cons in IHf as [Hx Hxs]. split.
    + destruct xs; rewrite <- IHj; done.
    + constructor; [set_solver|done].
Qed.
