(* ===== verification/TrustPolicy.v ===== *)
(** * TPS1 trust-policy snapshots

    [crates/pos-conformance/src/trust_policy_snapshot.rs]: the snapshot record,
    its validation, its canonical encoding and its operator signature.

    The CBOR value tree and its reader and writer are the [ciborium] crate:
    [Ciborium] is [from_reader] and [into_writer]. *)

From Stdlib Require Import String ZArith Lia Bool.
From S2P Require Import Prelude Text Cbor FallbackRecords StrictCbor PluginTrust WireSyntax.

Local Open Scope Z_scope.

Set Warnings "-register-all".

(** [ciborium::value::Value], with every variant that no code here names as
    [VOther]. *)
Inductive Value : Type :=
| VInteger (z : Z)
| VBytes (bytes : list byte)
| VText (text : RString)
| VNull
| VBool (b : bool)
| VArray (items : list Value)
| VOther (tag : Z).

Class Ciborium := {
  from_reader : list byte -> option Value;
  into_writer : Value -> option (list byte);
}.

(** ** Errors *)

Module TpsError.
Inductive TrustPolicySnapshotContractErrorV1 :=
| InvalidEncoding | UnsupportedSchemaVersion | FieldOutOfBounds | NonCanonicalOrder.
Inductive TrustPolicySnapshotAuthenticationErrorV1 :=
| InvalidSnapshot | InvalidOperatorRole | InvalidOperatorKey | InvalidOperatorSignature.
End TpsError.

Definition TpsResult (A : Type) : Type := result TpsError.TrustPolicySnapshotContractErrorV1 A.
Definition tps_check (b : bool) (e : TpsError.TrustPolicySnapshotContractErrorV1) : TpsResult unit :=
  if b then Ok tt else Err e.

(** ** Records *)

Definition TPS1_MAX_TRUST_ROOTS : Z := 64.
Definition TPS1_MAX_REVOKED_KEYS : Z := 4096.
Definition TPS1_MAX_REVOKED_ARTIFACTS : Z := 4096.
Definition MAX_TRUST_POLICY_SNAPSHOT_BYTES_V1 : Z := 1024 * 1024.
Definition FIELD_COUNT : Z := 12.
Definition MAX_IDENTIFIER_BYTES : Z := 128.
Definition MAX_EXPIRY_BYTES : Z := 64.
Definition MAX_SEMANTIC_VERSION_BYTES : Z := 64.
Definition MAX_MINIMUM_VERSIONS : Z := 256.
Definition MAX_NESTED_ARRAY_ITEMS : Z := 4097.
Definition MAX_NESTING_DEPTH : Z := 3.
Definition OPERATOR_SIGNATURE_DOMAIN_V1 : list byte :=
  list_byte_of_string "PiglorOS.TPS1.operator-signature.v1" ++ [x00].

Record TrustPolicyRootV1 := MkPolicyRoot {
  pr_key_id : RString;
  pr_root_version : Z;
  pr_algorithm : RString;
  pr_public_key : Hash;
}.

Record MinimumArtifactVersionV1 := MkMinimumVersion {
  mv_artifact_kind : RString;
  mv_semantic_version : RString;
}.

Record TrustPolicySnapshotV1 := MkSnapshot {
  policy_id : RString;
  epoch : Z;
  effective_timeline_position : Z;
  trust_roots : list TrustPolicyRootV1;
  revoked_key_ids : list RString;
  revoked_artifact_digests : list Hash;
  minimum_versions : list MinimumArtifactVersionV1;
  offline_valid_through : RString;
  previous_snapshot_digest : option Hash;
  operator_signature : Sig64;
}.

(** ** Validation *)

(** The loop of [validate_trust_roots], over the roots that are left. *)
Fixpoint validate_trust_roots_from (public_keys : gset Hash) (previous_key_id : option RString)
    (roots : list TrustPolicyRootV1) : TpsResult unit :=
  match roots with
  | [] => Ok tt
  | root :: rest =>
      if negb (identifier (pr_key_id root) MAX_IDENTIFIER_BYTES) || (pr_root_version root =? 0)
      then Err TpsError.FieldOutOfBounds
      else if negb (bool_decide (pr_algorithm root = lit "Ed25519"))
      then Err TpsError.UnsupportedSchemaVersion
      else if match previous_key_id with
              | Some previous => negb (str_lt previous (pr_key_id root)) | None => false end
           || bool_decide (pr_public_key root ∈ public_keys)
      then Err TpsError.NonCanonicalOrder
      else validate_trust_roots_from ({[pr_public_key root]} ∪ public_keys) (Some (pr_key_id root)) rest
  end.

Definition validate_trust_roots : list TrustPolicyRootV1 -> TpsResult unit :=
  validate_trust_roots_from ∅ None.

Definition validate_revoked_keys (keys : list RString) : TpsResult unit :=
  if existsb (fun key_id => negb (identifier key_id MAX_IDENTIFIER_BYTES)) keys
  then Err TpsError.FieldOutOfBounds
  else tps_check (windows_sorted str_lt keys) TpsError.NonCanonicalOrder.

Definition validate_revoked_artifacts (digests : list Hash) : TpsResult unit :=
  tps_check (windows_sorted hash_lt digests) TpsError.NonCanonicalOrder.

Definition validate_minimum_versions (versions : list MinimumArtifactVersionV1) : TpsResult unit :=
  if existsb (fun version => negb (identifier (mv_artifact_kind version) MAX_IDENTIFIER_BYTES)
       || negb (semantic_version (mv_semantic_version version) MAX_SEMANTIC_VERSION_BYTES None)) versions
  then Err TpsError.FieldOutOfBounds
  else tps_check (windows_sorted (fun a b => str_lt (mv_artifact_kind a) (mv_artifact_kind b)) versions)
         TpsError.NonCanonicalOrder.

Definition valid_expiry (value : RString) : bool :=
  negb (is_empty value) && (str_len value <=? MAX_EXPIRY_BYTES).

Definition validate_fields (snapshot : TrustPolicySnapshotV1) : TpsResult unit :=
  if negb (identifier (policy_id snapshot) MAX_IDENTIFIER_BYTES) || (epoch snapshot =? 0)
     || negb (valid_expiry (offline_valid_through snapshot)) || (len (trust_roots snapshot) =? 0)
     || (TPS1_MAX_TRUST_ROOTS <? len (trust_roots snapshot))
     || (TPS1_MAX_REVOKED_KEYS <? len (revoked_key_ids snapshot))
     || (TPS1_MAX_REVOKED_ARTIFACTS <? len (revoked_artifact_digests snapshot))
     || (MAX_MINIMUM_VERSIONS <? len (minimum_versions snapshot))
  then Err TpsError.FieldOutOfBounds
  else
    let? _ := validate_trust_roots (trust_roots snapshot) in
    let? _ := validate_revoked_keys (revoked_key_ids snapshot) in
    let? _ := validate_revoked_artifacts (revoked_artifact_digests snapshot) in
    validate_minimum_versions (minimum_versions snapshot).

(** ** Encoding *)

Definition encode_trust_root (root : TrustPolicyRootV1) : Value :=
  VArray [VText (pr_key_id root); VInteger (pr_root_version root); VText (pr_algorithm root);
          VBytes (raw (pr_public_key root))].

Definition encode_minimum_version (version : MinimumArtifactVersionV1) : Value :=
  VArray [VText (mv_artifact_kind version); VText (mv_semantic_version version)].

Definition optional_digest (value : option Hash) : Value :=
  match value with Some digest => VBytes (raw digest) | None => VNull end.

Definition encode_snapshot_fields (snapshot : TrustPolicySnapshotV1) : list Value :=
  [VText (lit "TPS1"); VInteger 1; VText (policy_id snapshot); VInteger (epoch snapshot);
   VInteger (effective_timeline_position snapshot);
   VArray (encode_trust_root <$> trust_roots snapshot);
   VArray (VText <$> revoked_key_ids snapshot);
   VArray ((fun digest => VBytes (raw digest)) <$> revoked_artifact_digests snapshot);
   VArray (encode_minimum_version <$> minimum_versions snapshot);
   VText (offline_valid_through snapshot); optional_digest (previous_snapshot_digest snapshot);
   VBytes (raw (operator_signature snapshot))].

Definition encode_snapshot (snapshot : TrustPolicySnapshotV1) : Value :=
  VArray (encode_snapshot_fields snapshot).

(** ** Decoding *)

Definition v_array (value : Value) (length : Z) : TpsResult (list Value) :=
  match value with
  | VArray values => if len values =? length then Ok values else Err TpsError.InvalidEncoding
  | _ => Err TpsError.InvalidEncoding
  end.

Definition array_values (value : Value) : TpsResult (list Value) :=
  match value with VArray values => Ok values | _ => Err TpsError.InvalidEncoding end.

Definition text_value (value : Value) : TpsResult RString :=
  match value with VText text => Ok text | _ => Err TpsError.InvalidEncoding end.

Definition uint_value (value : Value) : TpsResult Z :=
  match value with
  | VInteger z => if (0 <=? z) && (z <=? U64_MAX) then Ok z else Err TpsError.InvalidEncoding
  | _ => Err TpsError.InvalidEncoding
  end.

Definition fixed_bytes (LENGTH : Z) (value : Value) : TpsResult (checked (has_len LENGTH)) :=
  match value with
  | VBytes bytes => ok_or (make (has_len LENGTH) bytes) TpsError.InvalidEncoding
  | _ => Err TpsError.InvalidEncoding
  end.

Definition optional_digest_value (value : Value) : TpsResult (option Hash) :=
  match value with
  | VNull => Ok None
  | _ => let? digest := fixed_bytes 32 value in Ok (Some digest)
  end.

(** [fields[i]] of an array whose length was checked. *)
Definition field (fields : list Value) (i : nat) : Value := default VNull (fields !! i).

Definition decode_trust_root (value : Value) : TpsResult TrustPolicyRootV1 :=
  let? fields := v_array value 4 in
  let? key_id := text_value (field fields 0) in
  let? root_version := uint_value (field fields 1) in
  let? algorithm := text_value (field fields 2) in
  let? public_key := fixed_bytes 32 (field fields 3) in
  Ok (MkPolicyRoot key_id root_version algorithm public_key).

Definition decode_minimum_version (value : Value) : TpsResult MinimumArtifactVersionV1 :=
  let? fields := v_array value 2 in
  let? artifact_kind := text_value (field fields 0) in
  let? semantic_version := text_value (field fields 1) in
  Ok (MkMinimumVersion artifact_kind semantic_version).

Definition decode_trust_roots (value : Value) : TpsResult (list TrustPolicyRootV1) :=
  let? values := array_values value in
  if (len values =? 0) || (TPS1_MAX_TRUST_ROOTS <? len values) then Err TpsError.FieldOutOfBounds
  else try_collect decode_trust_root values.

Definition decode_revoked_keys (value : Value) : TpsResult (list RString) :=
  let? values := array_values value in
  if TPS1_MAX_REVOKED_KEYS <? len values then Err TpsError.FieldOutOfBounds
  else try_collect text_value values.

Definition decode_revoked_artifacts (value : Value) : TpsResult (list Hash) :=
  let? values := array_values value in
  if TPS1_MAX_REVOKED_ARTIFACTS <? len values then Err TpsError.FieldOutOfBounds
  else try_collect (fixed_bytes 32) values.

Definition decode_minimum_versions (value : Value) : TpsResult (list MinimumArtifactVersionV1) :=
  let? values := array_values value in
  if MAX_MINIMUM_VERSIONS <? len values then Err TpsError.FieldOutOfBounds
  else try_collect decode_minimum_version values.

Definition decode_snapshot (value : Value) : TpsResult TrustPolicySnapshotV1 :=
  let? fields := v_array value FIELD_COUNT in
  let? magic := text_value (field fields 0) in
  let? _ := tps_check (bool_decide (magic = lit "TPS1")) TpsError.UnsupportedSchemaVersion in
  let? version := uint_value (field fields 1) in
  let? _ := tps_check (version =? 1) TpsError.UnsupportedSchemaVersion in
  let? policy_id := text_value (field fields 2) in
  let? epoch := uint_value (field fields 3) in
  let? effective_timeline_position := uint_value (field fields 4) in
  let? trust_roots := decode_trust_roots (field fields 5) in
  let? revoked_key_ids := decode_revoked_keys (field fields 6) in
  let? revoked_artifact_digests := decode_revoked_artifacts (field fields 7) in
  let? minimum_versions := decode_minimum_versions (field fields 8) in
  let? offline_valid_through := text_value (field fields 9) in
  let? previous_snapshot_digest := optional_digest_value (field fields 10) in
  let? operator_signature := fixed_bytes 64 (field fields 11) in
  Ok (MkSnapshot policy_id epoch effective_timeline_position trust_roots revoked_key_ids
    revoked_artifact_digests minimum_versions offline_valid_through previous_snapshot_digest
    operator_signature).

Definition preflight_cbor (bytes : list byte) : TpsResult unit :=
  map_err (fun error => match error with
    | PreflightInvalidEncoding => TpsError.InvalidEncoding
    | PreflightFieldOutOfBounds => TpsError.FieldOutOfBounds
    end) (preflight_array_cbor bytes MAX_NESTING_DEPTH MAX_NESTED_ARRAY_ITEMS true).

Section Codec.
Context `{Ciborium}.

Definition encode_value (value : Value) : TpsResult (list byte) :=
  ok_or (into_writer value) TpsError.InvalidEncoding.

Definition decode_value (bytes : list byte) : TpsResult Value :=
  let? _ := preflight_cbor bytes in
  let? value := ok_or (from_reader bytes) TpsError.InvalidEncoding in
  let? canonical := encode_value value in
  if decide (canonical = bytes) then Ok value else Err TpsError.InvalidEncoding.

Definition to_canonical_cbor (snapshot : TrustPolicySnapshotV1) : TpsResult (list byte) :=
  let? _ := validate_fields snapshot in
  encode_value (encode_snapshot snapshot).

Definition from_canonical_cbor (bytes : list byte) : TpsResult TrustPolicySnapshotV1 :=
  if MAX_TRUST_POLICY_SNAPSHOT_BYTES_V1 <? len bytes then Err TpsError.FieldOutOfBounds else
  let? value := decode_value bytes in
  let? snapshot := decode_snapshot value in
  let? _ := validate_fields snapshot in
  Ok snapshot.

Definition snapshot_digest `{Blake3} (snapshot : TrustPolicySnapshotV1) : TpsResult Hash :=
  let? bytes := to_canonical_cbor snapshot in
  Ok (blake3 bytes).

(** ** The operator signature *)

Definition operator_signature_message_from_unsigned_v1 (unsigned : list byte) : list byte :=
  OPERATOR_SIGNATURE_DOMAIN_V1 ++ unsigned.

(** Fields 0 to 10: [fields.truncate(FIELD_COUNT - 1)]. *)
Definition operator_signature_message_v1 (snapshot : TrustPolicySnapshotV1) : TpsResult (list byte) :=
  let? _ := validate_fields snapshot in
  let fields := take (Z.to_nat (FIELD_COUNT - 1)) (encode_snapshot_fields snapshot) in
  let? unsigned := encode_value (VArray fields) in
  Ok (operator_signature_message_from_unsigned_v1 unsigned).

Definition verify_operator_signature_v1 `{Ed25519} (snapshot : TrustPolicySnapshotV1)
    (operator_public_key : Hash) (operator_role : RString)
    : result TpsError.TrustPolicySnapshotAuthenticationErrorV1 unit :=
  if negb (bool_decide (operator_role = lit "deployment-operator"))
  then Err TpsError.InvalidOperatorRole else
  let? message := map_err (fun _ => TpsError.InvalidSnapshot) (operator_signature_message_v1 snapshot) in
  if negb (valid_key operator_public_key) then Err TpsError.InvalidOperatorKey
  else if verify_strict operator_public_key message (operator_signature snapshot)
  then Ok tt else Err TpsError.InvalidOperatorSignature.
End Codec.

(** ** Theorems *)

Lemma tps_check_ok b e : tps_check b e = Ok tt <-> b = true.
Proof. unfold tps_check. by destruct b. Qed.

Lemma text_value_ok v t : text_value v = Ok t -> v = VText t.
Proof. destruct v; simpl; intros; simplify_eq; done. Qed.
Lemma uint_value_ok v z : uint_value v = Ok z -> v = VInteger z /\ u64_ok z.
Proof.
  destruct v; simpl; intros; ok_inv; bool_props; [|done..]. done.
Qed.
Lemma fixed_bytes_ok n v b : fixed_bytes n v = Ok b -> v = VBytes (raw b).
Proof. destruct v; simpl; intros; ok_inv. by apply make_some in H as ->. Qed.
Lemma v_array_ok v n l : v_array v n = Ok l -> v = VArray l /\ len l = n.
Proof. destruct v; simpl; intros; ok_inv. by bool_props. Qed.
Lemma array_values_ok v l : array_values v = Ok l -> v = VArray l.
Proof. destruct v; simpl; intros; by ok_inv. Qed.
Lemma optional_digest_value_ok v o : optional_digest_value v = Ok o -> v = optional_digest o.
Proof.
  destruct v; cbn [optional_digest_value]; intros Ho; ok_inv; try done.
  by apply fixed_bytes_ok in Hm.
Qed.

Lemma try_collect_encode {E A} (f : Value -> result E A) (enc : A -> Value) vs l :
  (forall v a, f v = Ok a -> v = enc a) -> try_collect f vs = Ok l -> vs = enc <$> l.
Proof.
  intros Hf. revert l. induction vs as [|v vs IH]; intros l; simpl; intros Hl; ok_inv; [done|].
  simpl. by rewrite (Hf _ _ Hm), (IH _ Hm0) at 1.
Qed.

Lemma fields_of {n} (l : list Value) :
  length l = n -> l = field l <$> seq 0 n.
Proof.
  intros Hl. apply list_eq. intros i. rewrite list_lookup_fmap. destruct (decide (i < n)%nat) as [Hi|Hi].
  - rewrite lookup_seq_lt by done. simpl. unfold field.
    destruct (l !! i) eqn:He; [done|]. apply lookup_ge_None in He. lia.
  - rewrite (lookup_ge_None_2 l), (lookup_ge_None_2 (seq 0 n)) by (rewrite ?length_seq; lia). done.
Qed.

Lemma decode_trust_root_ok v r : decode_trust_root v = Ok r -> v = encode_trust_root r.
Proof.
  unfold decode_trust_root, encode_trust_root. intros Hd. ok_inv.
  apply v_array_ok in Hm as [-> Hl]. apply text_value_ok in Hm0, Hm2. apply uint_value_ok in Hm1 as [Hm1 _].
  apply fixed_bytes_ok in Hm3. cbn [pr_key_id pr_root_version pr_algorithm pr_public_key]. f_equal.
  rewrite (fields_of (n:=4) a) by (unfold len in Hl; lia). simpl. by rewrite Hm0, Hm1, Hm2, Hm3.
Qed.

Lemma decode_minimum_version_ok v r : decode_minimum_version v = Ok r -> v = encode_minimum_version r.
Proof.
  unfold decode_minimum_version, encode_minimum_version. intros Hd. ok_inv.
  apply v_array_ok in Hm as [-> Hl]. apply text_value_ok in Hm0, Hm1.
  cbn [mv_artifact_kind mv_semantic_version]. f_equal.
  rewrite (fields_of (n:=2) a) by (unfold len in Hl; lia). simpl. by rewrite Hm0, Hm1.
Qed.

(** The typed record of an accepted value tree is the tree's own encoding. *)
Lemma decode_snapshot_encode v s : decode_snapshot v = Ok s -> encode_snapshot s = v.
Proof.
  unfold decode_snapshot, decode_trust_roots, decode_revoked_keys, decode_revoked_artifacts,
    decode_minimum_versions. intros Hd. ok_inv. rewrite tps_check_ok in *. bool_props.
  repeat match goal with
  | Ht : text_value _ = Ok _ |- _ => apply text_value_ok in Ht
  | Ht : uint_value _ = Ok _ |- _ => apply uint_value_ok in Ht as [Ht _]
  | Ht : fixed_bytes _ _ = Ok _ |- _ => apply fixed_bytes_ok in Ht
  | Ht : array_values _ = Ok _ |- _ => apply array_values_ok in Ht
  | Ht : optional_digest_value _ = Ok _ |- _ => apply optional_digest_value_ok in Ht
  | Ht : v_array _ _ = Ok _ |- _ => apply v_array_ok in Ht as [-> ?]
  | Ht : try_collect decode_trust_root _ = Ok _ |- _ =>
      apply (try_collect_encode _ _ _ _ decode_trust_root_ok) in Ht
  | Ht : try_collect decode_minimum_version _ = Ok _ |- _ =>
      apply (try_collect_encode _ _ _ _ decode_minimum_version_ok) in Ht
  | Ht : try_collect text_value _ = Ok _ |- _ => apply (try_collect_encode _ _ _ _ text_value_ok) in Ht
  | Ht : try_collect (fixed_bytes 32) _ = Ok _ |- _ =>
      apply (try_collect_encode _ (fun d : Hash => VBytes (raw d)) _ _ (fixed_bytes_ok 32)) in Ht
  end; subst. unfold encode_snapshot. f_equal.
  rewrite (fields_of (n:=12) a) by (unfold len, FIELD_COUNT in *; lia).
  unfold encode_snapshot_fields. cbn [seq fmap list_fmap policy_id epoch effective_timeline_position
    trust_roots revoked_key_ids revoked_artifact_digests minimum_versions offline_valid_through
    previous_snapshot_digest operator_signature]. rewrite Hm0, Hm2, Hm4, Hm5, Hm6, Hm8, Hm9, Hm10, Hm14, Hm11, Hm12, Hm13. done.
Qed.

Lemma from_canonical_cbor_ok `{Ciborium} bytes s :
  from_canonical_cbor bytes = Ok s ->
  validate_fields s = Ok tt /\ into_writer (encode_snapshot s) = Some bytes
  /\ len bytes <= MAX_TRUST_POLICY_SNAPSHOT_BYTES_V1.
Proof.
  unfold from_canonical_cbor, decode_value, encode_value. intros Hd. ok_inv. bool_props.
  repeat (case_decide; [|done]). ok_inv.
  match goal with Hd : decode_snapshot _ = _ |- _ => rewrite (decode_snapshot_encode _ _ Hd) end. done.
Qed.

Lemma validate_fields_ok s :
  validate_fields s = Ok tt ->
  identifier (policy_id s) MAX_IDENTIFIER_BYTES = true /\ epoch s <> 0
  /\ windows_sorted hash_lt (revoked_artifact_digests s) = true.
Proof.
  unfold validate_fields, validate_revoked_artifacts. intros Hv. ok_inv. rewrite tps_check_ok in *.
  bool_props. done.
Qed.
