(* ===== verification/TrustBridge.v ===== *)
(** * The Plugin trust bridge

    [crates/pos-conformance/src/plugin_trust_bridge.rs]: the operator-pinned
    anchor, the authentication of TPS1 snapshots, the checks that bind a
    snapshot to verified PTR1/PRV1 evidence, the civil calendar of
    [offline_valid_through] and the floor transitions. *)

From Stdlib Require Import String ZArith Lia Bool.
From S2P Require Import Prelude Text Cbor FallbackRecords Keys StrictCbor PluginTrust WireSyntax TrustPolicy.

Local Open Scope Z_scope.

Module BridgeError.
Inductive PluginTrustBridgeErrorV1 :=
| InvalidAnchorScope | InvalidAnchorRole | InvalidAnchorOperatorKey | InvalidSnapshot
| InvalidOperatorSignature | ScopeMismatch | EpochMismatch | EvaluationUtcMismatch
| EvaluationTickMismatch | InvalidUtcFormat | Expired | BridgeRootMismatch
| BridgeRevocationMismatch | ReservedPrefix | TpsCapExceeded | InvalidGenesis | StaleSnapshot
| SnapshotDiscontinuity | TpsArtifactDenied.
End BridgeError.

Definition BridgeResult (A : Type) : Type := result BridgeError.PluginTrustBridgeErrorV1 A.
Definition bridge_check (b : bool) (e : BridgeError.PluginTrustBridgeErrorV1) : BridgeResult unit :=
  if b then Ok tt else Err e.

Definition PLUGIN_OPERATOR_ROLE_V1 : RString := lit "deployment-operator".
Definition PLUGIN_ROOT_KEY_ID_PREFIX_V1 : RString := lit "ptr1-".
Definition PLUGIN_REVOKED_KEY_ID_PREFIX_V1 : RString := lit "pkr1-".
Definition REVOKED_KEY_DOMAIN : list byte :=
  list_byte_of_string "pigloros/plugin-revoked-key-id/v1" ++ [x00].

Definition starts_with (prefix value : RString) : bool :=
  bool_decide (as_bytes prefix `prefix_of` as_bytes value).

(** ** The civil calendar *)

Record CivilTime := MkCivil {
  ct_year : Z; ct_month : Z; ct_day : Z; ct_hour : Z; ct_minute : Z; ct_second : Z;
}.

(** [digits.iter().try_fold(0, ..)]. *)
Definition decimal (digits : list byte) : option Z :=
  fold_left (fun value digit =>
    match value with
    | Some v => if ascii_digit digit then Some (v * 10 + (Z_of_byte digit - 0x30)) else None
    | None => None
    end) digits (Some 0).

Definition slice (bytes : list byte) (from to : nat) : list byte := take (to - from) (drop from bytes).

Definition separators : list (nat * byte) :=
  [(4, "-"%byte); (7, "-"%byte); (10, "T"%byte); (13, ":"%byte); (16, ":"%byte); (19, "Z"%byte)]%nat.

Definition civil_parse (bytes : list byte) : option CivilTime :=
  if negb ((len bytes =? 20)
           && forallb (fun p => bool_decide (bytes !! p.1 = Some p.2)) separators)
  then None else
  match decimal (slice bytes 0 4), decimal (slice bytes 5 7), decimal (slice bytes 8 10),
        decimal (slice bytes 11 13), decimal (slice bytes 14 16), decimal (slice bytes 17 19) with
  | Some year, Some month, Some day, Some hour, Some minute, Some second =>
      Some (MkCivil year month day hour minute second)
  | _, _, _, _, _, _ => None
  end.

(** [%] truncates; years are not negative here. *)
Definition days_in_month (year month : Z) : Z :=
  if month =? 2 then
    if (Z.rem year 4 =? 0) && (negb (Z.rem year 100 =? 0) || (Z.rem year 400 =? 0)) then 29 else 28
  else if (month =? 4) || (month =? 6) || (month =? 9) || (month =? 11) then 30
  else 31.

Definition civil_is_valid (t : CivilTime) : bool :=
  (1 <=? ct_month t) && (ct_month t <=? 12)
  && (1 <=? ct_day t) && (ct_day t <=? days_in_month (ct_year t) (ct_month t))
  && (ct_hour t <=? 23) && (ct_minute t <=? 59) && (ct_second t <=? 59).

Definition SECONDS_PER_DAY : Z := 86400.
Definition DAYS_FROM_CIVIL_EPOCH_OFFSET : Z := 719468.
Definition DAYS_PER_ERA : Z := 146097.

(** [div_euclid] and [rem_euclid] by 400 are [Z.div] and [Z.modulo]; [/] and
    [%] are [Z.quot] and [Z.rem]. *)
Definition unix_seconds (t : CivilTime) : Z :=
  let year := if ct_month t <=? 2 then ct_year t - 1 else ct_year t in
  let era := year / 400 in
  let year_of_era := year mod 400 in
  let shifted_month := Z.rem (ct_month t + 9) 12 in
  let day_of_year := Z.quot (153 * shifted_month + 2) 5 + ct_day t - 1 in
  let day_of_era := year_of_era * 365 + Z.quot year_of_era 4 - Z.quot year_of_era 100 + day_of_year in
  let days := era * DAYS_PER_ERA + day_of_era - DAYS_FROM_CIVIL_EPOCH_OFFSET in
  days * SECONDS_PER_DAY + ct_hour t * 3600 + ct_minute t * 60 + ct_second t.

Definition parse_offline_valid_through_v1 (value : RString) : BridgeResult Z :=
  match civil_parse (as_bytes value) with
  | Some time => if civil_is_valid time then Ok (unix_seconds time)
                 else Err BridgeError.InvalidUtcFormat
  | None => Err BridgeError.InvalidUtcFormat
  end.

(** ** Binary search

    [slice::binary_search]: halve the window that starts at [base] until one
    element is left. *)
Fixpoint binary_search_loop (fuel : nat) (digests : list Hash) (digest : Hash) (base size : nat) : nat :=
  match fuel with
  | O => base
  | S fuel' =>
      if (size <=? 1)%nat then base
      else
        let half := Nat.div2 size in
        let mid := (base + half)%nat in
        let greater := match digests !! mid with Some x => hash_lt digest x | None => true end in
        binary_search_loop fuel' digests digest (if greater then base else mid) (size - half)
  end.

Definition binary_search_is_ok (digests : list Hash) (digest : Hash) : bool :=
  bool_decide (digests !! binary_search_loop (length digests) digests digest 0 (length digests)
               = Some digest).

Definition lists_digest (snapshot : TrustPolicySnapshotV1) (digest : Hash) : bool :=
  binary_search_is_ok (revoked_artifact_digests snapshot) digest.

(** ** Floors *)

Inductive PluginFloorKindV1 := RootFloor | RevocationFloor.

Module FloorError.
Inductive PluginFloorErrorV1 :=
| PartialFloorState
| Rollback (kind : PluginFloorKindV1)
| Fork (kind : PluginFloorKindV1)
| Discontinuity (kind : PluginFloorKindV1).
End FloorError.

Definition FloorResult (A : Type) : Type := result FloorError.PluginFloorErrorV1 A.

Inductive PluginFloorTransitionV1 := FloorInitialize | FloorUnchanged | FloorAdvance.

Definition FloorPair : Type := Z * Hash.

Definition advance_proof (kind : PluginFloorKindV1) (retained candidate : FloorPair)
    (history : list FloorPair) : FloorResult PluginFloorTransitionV1 :=
  let well_formed := bool_decide (last history = Some candidate)
                     && windows_sorted (fun a b => a.1 <? b.1) history in
  if negb well_formed then Err (FloorError.Discontinuity kind)
  else match List.find (fun entry => entry.1 =? retained.1) history with
       | None => Err (FloorError.Discontinuity kind)
       | Some entry => if decide (entry.2 = retained.2) then Ok FloorAdvance else Err (FloorError.Fork kind)
       end.

Definition plugin_floor_transition_v1 (kind : PluginFloorKindV1) (retained : option FloorPair)
    (candidate : FloorPair) (history : list FloorPair) : FloorResult PluginFloorTransitionV1 :=
  match retained with
  | None => Ok FloorInitialize
  | Some retained =>
      if candidate.1 <? retained.1 then Err (FloorError.Rollback kind)
      else if candidate.1 =? retained.1 then
        (if decide (candidate.2 = retained.2) then Ok FloorUnchanged else Err (FloorError.Fork kind))
      else advance_proof kind retained candidate history
  end.

Inductive PluginFloorStateV1 :=
| FloorsAbsent
| FloorsPresent (root revocation : FloorPair).

Definition from_retained (root revocation : option FloorPair) : FloorResult PluginFloorStateV1 :=
  match root, revocation with
  | None, None => Ok FloorsAbsent
  | Some root, Some revocation => Ok (FloorsPresent root revocation)
  | _, _ => Err FloorError.PartialFloorState
  end.

Record PluginFloorPlanV1 := MkFloorPlan {
  plan_root : PluginFloorTransitionV1;
  plan_revocation : PluginFloorTransitionV1;
}.

Definition plan_plugin_floor_transition_v1 (state : PluginFloorStateV1)
    (evidence : VerifiedPluginTrustEvidenceV1) : FloorResult PluginFloorPlanV1 :=
  let (retained_root, retained_revocation) :=
    match state with
    | FloorsAbsent => (None, None)
    | FloorsPresent root revocation => (Some root, Some revocation)
    end in
  let root := plugin_floor_transition_v1 RootFloor retained_root (terminal_root evidence)
                (evd_root_history evidence) in
  let revocation := plugin_floor_transition_v1 RevocationFloor retained_revocation
                      (terminal_revocation evidence) (evd_revocation_history evidence) in
  let? root := root in
  let? revocation := revocation in
  Ok (MkFloorPlan root revocation).

Definition check_plugin_tps1_global_caps_v1 (trust_roots revoked_key_ids revoked_artifact_digests : Z)
    : BridgeResult unit :=
  if (TPS1_MAX_TRUST_ROOTS <? trust_roots) || (TPS1_MAX_REVOKED_KEYS <? revoked_key_ids)
     || (TPS1_MAX_REVOKED_ARTIFACTS <? revoked_artifact_digests)
  then Err BridgeError.TpsCapExceeded else Ok tt.

(** ** Identifiers of bridged keys *)

(** The shortest head, from the eight big-endian bytes of [value]. *)
Definition push_cbor_head (out : list byte) (major value : Z) : list byte :=
  let major := head_prefix major in
  let bytes := to_be_bytes value in
  if value <? 24 then out ++ [byte_of_Z (Z.lor major (Z_of_byte (default x00 (bytes !! 7%nat))))]
  else if value <=? 0xff then out ++ [byte_of_Z (Z.lor major 0x18)] ++ drop 7 bytes
  else if value <=? 0xffff then out ++ [byte_of_Z (Z.lor major 0x19)] ++ drop 6 bytes
  else if value <=? 0xffffffff then out ++ [byte_of_Z (Z.lor major 0x1a)] ++ drop 4 bytes
  else out ++ [byte_of_Z (Z.lor major 0x1b)] ++ bytes.

(** [format!("{prefix}{text}")]: the concatenation of two strings is UTF-8. *)
Definition str_concat (a b : RString) : RString :=
  default empty_string (from_utf8 (as_bytes a ++ as_bytes b)).

Section Bridge.
Context `{Blake3} `{Ed25519} `{Ciborium} `{HexText}.

Definition prefixed_hex (prefix : RString) (bytes : Hash) : RString :=
  str_concat prefix (hex_digest bytes).

Definition plugin_root_key_id_v1 (root_key_id : Hash) : RString :=
  prefixed_hex PLUGIN_ROOT_KEY_ID_PREFIX_V1 root_key_id.

Definition plugin_revoked_key_id_v1 (owner : OwnerIdV1) (epoch : Z) (public_key : Hash) : RString :=
  let preimage := REVOKED_KEY_DOMAIN in
  let preimage := push_cbor_head preimage 4 4 in
  let owner_text := as_bytes (raw owner) in
  let preimage := push_cbor_head preimage 3 (len owner_text) ++ owner_text in
  let preimage := push_cbor_head preimage 0 3 in
  let preimage := push_cbor_head preimage 0 epoch in
  let preimage := push_cbor_head preimage 2 32 ++ hash_bytes public_key in
  prefixed_hex PLUGIN_REVOKED_KEY_ID_PREFIX_V1 (blake3 preimage).

(** ** Anchors and authenticated snapshots *)

Record PluginTrustPolicyAnchorV1 := MkPolicyAnchor {
  root_anchor : TrustedPluginRootAnchorV1;
  pa_scope : RString;
  ptr1_genesis_digest : Hash;
  operator_key : Hash;
  genesis_tps1_digest : Hash;
}.

#[export] Instance policy_anchor_eq_dec : EqDecision PluginTrustPolicyAnchorV1.
Proof. solve_decision. Defined.

Definition policy_anchor_new (scope : RString) (ptr1_genesis_digest operator_key : Hash)
    (operator_role : RString) (genesis_tps1_digest : Hash) : BridgeResult PluginTrustPolicyAnchorV1 :=
  let? root_anchor := map_err (fun _ => BridgeError.InvalidAnchorScope)
                        (root_anchor_new scope ptr1_genesis_digest) in
  if negb (bool_decide (operator_role = PLUGIN_OPERATOR_ROLE_V1))
  then Err BridgeError.InvalidAnchorRole
  else if negb (valid_key operator_key) then Err BridgeError.InvalidAnchorOperatorKey
  else Ok (MkPolicyAnchor root_anchor scope ptr1_genesis_digest operator_key genesis_tps1_digest).

Record AuthenticatedPluginTps1V1 := MkAuthenticated {
  tps_snapshot : TrustPolicySnapshotV1;
  tps_bytes : list byte;
  tps_digest : Hash;
}.

Definition tps_epoch (t : AuthenticatedPluginTps1V1) : Z := epoch (tps_snapshot t).
Definition tps_position (t : AuthenticatedPluginTps1V1) : Z :=
  effective_timeline_position (tps_snapshot t).

Definition authenticate_plugin_tps1_v1 (anchor : PluginTrustPolicyAnchorV1) (tps1_bytes : list byte)
    : BridgeResult AuthenticatedPluginTps1V1 :=
  let? snapshot := map_err (fun _ => BridgeError.InvalidSnapshot) (from_canonical_cbor tps1_bytes) in
  if negb (bool_decide (policy_id snapshot = pa_scope anchor)) then Err BridgeError.ScopeMismatch else
  let? _ := map_err (fun _ => BridgeError.InvalidOperatorSignature)
              (verify_operator_signature_v1 snapshot (operator_key anchor) PLUGIN_OPERATOR_ROLE_V1) in
  Ok (MkAuthenticated snapshot tps1_bytes (blake3 tps1_bytes)).

(** ** The policy checks *)

Definition check_root_mapping (snapshot : TrustPolicySnapshotV1)
    (evidence : VerifiedPluginTrustEvidenceV1) : BridgeResult unit :=
  let version := (terminal_root evidence).1 in
  let expected := (fun k => (plugin_root_key_id_v1 (rk_id k), rk_public k)) <$> evd_root_keys evidence in
  if existsb (fun root => negb (existsb (fun e => bool_decide (e.1 = pr_key_id root)) expected))
       (List.filter (fun root => starts_with PLUGIN_ROOT_KEY_ID_PREFIX_V1 (pr_key_id root))
          (trust_roots snapshot))
  then Err BridgeError.ReservedPrefix
  else bridge_check
    (forallb (fun e => existsb (fun root => bool_decide (pr_key_id root = e.1)
                 && (pr_root_version root =? version) && bool_decide (pr_public_key root = e.2))
               (trust_roots snapshot)) expected) BridgeError.BridgeRootMismatch.

Definition check_revoked_key_mapping (snapshot : TrustPolicySnapshotV1)
    (evidence : VerifiedPluginTrustEvidenceV1) : BridgeResult unit :=
  let expected : gset RString := list_to_set ((fun p =>
    plugin_revoked_key_id_v1 (pk_owner p) (pk_epoch p) (pk_public p)) <$> elements (evd_revoked_keys evidence)) in
  let actual : gset RString := list_to_set
    (List.filter (starts_with PLUGIN_REVOKED_KEY_ID_PREFIX_V1) (revoked_key_ids snapshot)) in
  if negb (bool_decide (actual ⊆ expected)) then Err BridgeError.ReservedPrefix
  else if negb (bool_decide (expected ⊆ actual)) then Err BridgeError.BridgeRevocationMismatch
  else Ok tt.

Definition check_artifact_mapping (snapshot : TrustPolicySnapshotV1)
    (evidence : VerifiedPluginTrustEvidenceV1) : BridgeResult unit :=
  bridge_check (forallb (lists_digest snapshot) (elements (evd_revoked_artifacts evidence)))
    BridgeError.BridgeRevocationMismatch.

Definition verify_plugin_tps1_policy_v1 (tps1 : AuthenticatedPluginTps1V1)
    (evidence : VerifiedPluginTrustEvidenceV1) (trusted_utc_second trusted_tick : Z)
    : BridgeResult unit :=
  let snapshot := tps_snapshot tps1 in
  if negb (bool_decide (policy_id snapshot = evd_scope evidence)) then Err BridgeError.ScopeMismatch
  else if negb (epoch snapshot =? (terminal_revocation evidence).1) then Err BridgeError.EpochMismatch
  else if negb (evd_utc_second evidence =? trusted_utc_second)
  then Err BridgeError.EvaluationUtcMismatch
  else if negb (evd_tick evidence =? trusted_tick) then Err BridgeError.EvaluationTickMismatch
  else
    let? valid_through := parse_offline_valid_through_v1 (offline_valid_through snapshot) in
    if valid_through <=? trusted_utc_second then Err BridgeError.Expired else
    let? _ := check_root_mapping snapshot evidence in
    let? _ := check_revoked_key_mapping snapshot evidence in
    check_artifact_mapping snapshot evidence.

Definition check_plugin_tps1_artifact_denial_v1 (tps1 : AuthenticatedPluginTps1V1)
    (authorization : ResolvedPluginTrustAuthorizationV1) : BridgeResult unit :=
  let listed := lists_digest (tps_snapshot tps1) in
  if listed (auth_pmf1_digest authorization) || listed (auth_release_digest authorization)
     || existsb listed (auth_descriptor_digests authorization)
  then Err BridgeError.TpsArtifactDenied else Ok tt.

Definition check_plugin_tps1_genesis_v1 (anchor : PluginTrustPolicyAnchorV1)
    (tps1 : AuthenticatedPluginTps1V1) : BridgeResult unit :=
  bridge_check ((tps_epoch tps1 =? 1)
    && bool_decide (previous_snapshot_digest (tps_snapshot tps1) = None)
    && bool_decide (tps_digest tps1 = genesis_tps1_digest anchor)) BridgeError.InvalidGenesis.

Definition check_plugin_tps1_successor_v1 (retained_epoch : Z) (retained_digest : Hash)
    (candidate : AuthenticatedPluginTps1V1) : BridgeResult unit :=
  if tps_epoch candidate <=? retained_epoch then Err BridgeError.StaleSnapshot
  else if negb (bool_decide (previous_snapshot_digest (tps_snapshot candidate) = Some retained_digest))
  then Err BridgeError.SnapshotDiscontinuity
  else Ok tt.
End Bridge.
