(* ===== verification/BridgeProperties.v ===== *)
(** * Properties of the trust bridge

    The calendar agrees with counting days, the binary search of denied
    digests with membership, the hand-written CBOR head with the canonical
    one; authenticated snapshots are canonical; a snapshot that passes the
    policy checks carries every root key and denial of the evidence; floors
    move only forward along authenticated histories. *)

From Stdlib Require Import String ZArith Lia Bool Sorting.Sorted.
From S2P Require Import Prelude Text Cbor FallbackRecords StrictCbor PluginTrust PluginTrustCodec PluginTrustChain WireSyntax TrustPolicy TrustBridge.

Local Open Scope Z_scope.

(** ** The calendar *)

Definition leap_year (y : Z) : bool := (y mod 4 =? 0) && (negb (y mod 100 =? 0) || (y mod 400 =? 0)).
Definition year_length (y : Z) : Z := if leap_year y then 366 else 365.

(** Days before year [n], counted year by year from year 0. *)
Fixpoint days_before_year (n : nat) : Z :=
  match n with
  | O => 0
  | S m => days_before_year m + year_length (Z.of_nat m)
  end.

(** Days of year [y] before its month [n + 1], counted month by month. *)
Fixpoint days_before_month (y : Z) (n : nat) : Z :=
  match n with
  | O => 0
  | S m => days_before_month y m + days_in_month y (Z.of_nat n)
  end.

Definition day_number (y m d : Z) : Z :=
  days_before_year (Z.to_nat y) + days_before_month y (Z.to_nat (m - 1)) + (d - 1).

Lemma days_before_year_closed n :
  days_before_year n
  = 365 * Z.of_nat n + (Z.of_nat n + 3) / 4 - (Z.of_nat n + 99) / 100 + (Z.of_nat n + 399) / 400.
Proof.
  induction n as [|n IH]; [done|]. cbn [days_before_year]. rewrite IH.
  unfold year_length, leap_year. rewrite Nat2Z.inj_succ. unfold Z.succ.
  destruct (Z.eqb_spec (Z.of_nat n mod 4) 0), (Z.eqb_spec (Z.of_nat n mod 100) 0),
    (Z.eqb_spec (Z.of_nat n mod 400) 0); cbn [andb orb negb];
    Z.to_euclidean_division_equations; lia.
Qed.

Lemma rem_leap y : 0 <= y ->
  (Z.rem y 4 =? 0) && (negb (Z.rem y 100 =? 0) || (Z.rem y 400 =? 0)) = leap_year y.
Proof. intros Hy. unfold leap_year. by rewrite !Z.rem_mod_nonneg by lia. Qed.

(** Days before a month, as a table. *)
Lemma days_before_month_table y m :
  0 <= y -> 1 <= m <= 12 ->
  days_before_month y (Z.to_nat (m - 1))
  = nth (Z.to_nat (m - 1)) [0; 31; 59; 90; 120; 151; 181; 212; 243; 273; 304; 334] 0
    + (if leap_year y && (3 <=? m) then 1 else 0).
Proof.
  intros Hy Hm. assert (m = 1 \/ m = 2 \/ m = 3 \/ m = 4 \/ m = 5 \/ m = 6 \/ m = 7 \/ m = 8
    \/ m = 9 \/ m = 10 \/ m = 11 \/ m = 12) as Hc by lia.
  assert (days_in_month y 2 = if leap_year y then 29 else 28) as Hfeb
    by (unfold days_in_month; simpl (2 =? 2); cbv iota; by rewrite rem_leap).
  repeat (destruct Hc as [->|Hc]); try subst m;
    match goal with |- context [Z.to_nat ?z] => let n := eval vm_compute in (Z.to_nat z) in
      change (Z.to_nat z) with n end;
    cbn -[days_in_month Z.add]; change (Z.of_nat 2) with 2; rewrite ?Hfeb;
    by destruct (leap_year y).
Qed.

Lemma day_number_epoch : day_number 1970 1 1 = 719528.
Proof.
  unfold day_number. rewrite days_before_year_closed, Z2Nat.id by lia. reflexivity.
Qed.

(** The era decomposition counts a year's predecessors and their leap days. *)
Lemma era_days Y :
  Y / 400 * 146097 + (Y mod 400 * 365 + Z.quot (Y mod 400) 4 - Z.quot (Y mod 400) 100)
  = 365 * Y + Y / 4 - Y / 100 + Y / 400.
Proof.
  pose proof (Z.mod_pos_bound Y 400). rewrite !Z.quot_div_nonneg by lia.
  Z.to_euclidean_division_equations. lia.
Qed.

Lemma leap_days_to y :
  (y + 3) / 4 - (y + 99) / 100 + (y + 399) / 400
  = y / 4 - y / 100 + y / 400 + 1 - (if leap_year y then 1 else 0).
Proof.
  unfold leap_year.
  destruct (Z.eqb_spec (y mod 4) 0), (Z.eqb_spec (y mod 100) 0), (Z.eqb_spec (y mod 400) 0);
    cbn [andb orb negb]; Z.to_euclidean_division_equations; lia.
Qed.

Lemma leap_days_before y :
  (y - 1) / 4 - (y - 1) / 100 + (y - 1) / 400
  = (y + 3) / 4 - (y + 99) / 100 + (y + 399) / 400 - 1.
Proof.
  replace (y + 3) with (y - 1 + 1 * 4) by lia. replace (y + 99) with (y - 1 + 1 * 100) by lia.
  replace (y + 399) with (y - 1 + 1 * 400) by lia. rewrite !Z.div_add by lia. lia.
Qed.

Lemma days_from_civil y m d :
  0 <= y -> 1 <= m <= 12 ->
  let year := if m <=? 2 then y - 1 else y in
  year / 400 * 146097
  + (year mod 400 * 365 + Z.quot (year mod 400) 4 - Z.quot (year mod 400) 100
     + (Z.quot (153 * Z.rem (m + 9) 12 + 2) 5 + d - 1)) - 719468
  = day_number y m d - 719528.
Proof.
  intros Hy Hm year. unfold day_number.
  rewrite days_before_month_table, days_before_year_closed, Z2Nat.id by lia.
  pose proof (era_days year) as He. pose proof (leap_days_to y). pose proof (leap_days_before y).
  subst year. assert (m = 1 \/ m = 2 \/ m = 3 \/ m = 4 \/ m = 5 \/ m = 6 \/ m = 7 \/ m = 8
    \/ m = 9 \/ m = 10 \/ m = 11 \/ m = 12) as Hc by lia.
  repeat (destruct Hc as [->|Hc]); try subst m;
    repeat match goal with
    | |- context [nth ?n ?l 0] => let v := eval vm_compute in (nth n l 0) in change (nth n l 0) with v
    | |- context [Z.quot (153 * ?e + 2) 5] => let v := eval vm_compute in (Z.quot (153 * e + 2) 5) in
        change (Z.quot (153 * e + 2) 5) with v
    end; cbn [Z.leb Z.compare Pos.compare Pos.compare_cont] in *; rewrite ?andb_true_r, ?andb_false_r;
    destruct (leap_year y); lia.
Qed.

Lemma unix_seconds_day_number t :
  0 <= ct_year t -> civil_is_valid t = true ->
  unix_seconds t = (day_number (ct_year t) (ct_month t) (ct_day t) - day_number 1970 1 1) * 86400
    + ct_hour t * 3600 + ct_minute t * 60 + ct_second t.
Proof.
  intros Hy Hv. unfold civil_is_valid in Hv. bool_props. rewrite day_number_epoch.
  pose proof (days_from_civil (ct_year t) (ct_month t) (ct_day t)) as Hd. cbv zeta in Hd.
  unfold unix_seconds, DAYS_PER_ERA, DAYS_FROM_CIVIL_EPOCH_OFFSET, SECONDS_PER_DAY.
  rewrite <- Hd by lia. lia.
Qed.

(** ** The text of a civil time *)

Definition digit (n : Z) : byte := byte_of_Z (0x30 + n mod 10).
Definition digits2 (n : Z) : list byte := [digit (n / 10); digit n].
Definition digits4 (n : Z) : list byte := digits2 (n / 100) ++ digits2 n.

(** [YYYY-MM-DDTHH:MM:SSZ]. *)
Definition civil_print (t : CivilTime) : list byte :=
  digits4 (ct_year t) ++ ["-"%byte] ++ digits2 (ct_month t) ++ ["-"%byte] ++ digits2 (ct_day t)
  ++ ["T"%byte] ++ digits2 (ct_hour t) ++ [":"%byte] ++ digits2 (ct_minute t)
  ++ [":"%byte] ++ digits2 (ct_second t) ++ ["Z"%byte].

Definition fields_in_range (t : CivilTime) : Prop :=
  0 <= ct_year t < 10000 /\ 0 <= ct_month t < 100 /\ 0 <= ct_day t < 100
  /\ 0 <= ct_hour t < 100 /\ 0 <= ct_minute t < 100 /\ 0 <= ct_second t < 100.

Lemma ascii_digit_digit b : ascii_digit b = true <-> exists n, 0 <= n < 10 /\ b = digit n.
Proof.
  unfold ascii_digit, in_range. split.
  - intros Hb. bool_props. exists (Z_of_byte b - 0x30). split; [lia|]. unfold digit.
    rewrite Z.mod_small by lia. replace (0x30 + (Z_of_byte b - 0x30)) with (Z_of_byte b) by lia.
    by rewrite byte_of_Z_of_byte.
  - intros (n & Hn & ->). unfold digit. rewrite Z.mod_small, Z_of_byte_of_Z by lia. by bool_props; lia.
Qed.

Lemma digit_value n : 0 <= n < 10 -> Z_of_byte (digit n) - 0x30 = n.
Proof. intros Hn. unfold digit. rewrite Z.mod_small, Z_of_byte_of_Z by lia. lia. Qed.
Lemma digit_mod n : digit (n mod 10) = digit n.
Proof. unfold digit. by rewrite Z.mod_mod by lia. Qed.

Lemma decimal_snoc l b v :
  decimal (l ++ [b]) = Some v <-> exists u n, decimal l = Some u /\ 0 <= n < 10 /\ b = digit n /\ v = u * 10 + n.
Proof.
  unfold decimal. rewrite fold_left_app. simpl. destruct (fold_left _ l (Some 0)) as [u|]; [|naive_solver].
  destruct (ascii_digit b) eqn:Hb.
  - apply ascii_digit_digit in Hb as (n & Hn & ->). rewrite digit_value by done. split.
    + intros [= <-]. by exists u, n.
    + intros (u' & n' & [= <-] & Hn' & Hd & ->). do 2 f_equal.
      rewrite <- (digit_value n), <- (digit_value n') by done. by rewrite Hd.
  - split; [done|]. intros (u' & n & _ & Hn & -> & _).
    assert (ascii_digit (digit n) = true) by (apply ascii_digit_digit; by exists n). congruence.
Qed.

Lemma decimal_nil v : decimal [] = Some v <-> v = 0.
Proof. unfold decimal. simpl. naive_solver. Qed.

Lemma decimal2 a b v : decimal [a; b] = Some v <-> 0 <= v < 100 /\ [a; b] = digits2 v.
Proof.
  change [a; b] with (([] ++ [a]) ++ [b]). rewrite decimal_snoc. setoid_rewrite decimal_snoc.
  setoid_rewrite decimal_nil. unfold digits2. simpl. split.
  - intros (u & n & (u' & n' & -> & Hn' & -> & ->) & Hn & -> & ->). split; [lia|].
    rewrite <- (digit_mod ((0 * 10 + n') * 10 + n)). do 2 f_equal; [|f_equal]; f_equal;
      Z.to_euclidean_division_equations; lia.
  - intros [Hv [= -> ->]]. exists (v / 10), (v mod 10). rewrite digit_mod. split_and!; try done.
    + exists 0, (v / 10). split_and!; try done; Z.to_euclidean_division_equations; lia.
    + Z.to_euclidean_division_equations; lia.
    + Z.to_euclidean_division_equations; lia.
    + Z.to_euclidean_division_equations; lia.
Qed.

Lemma decimal4 a b c d v : decimal [a; b; c; d] = Some v <-> 0 <= v < 10000 /\ [a; b; c; d] = digits4 v.
Proof.
  change [a; b; c; d] with (([a; b] ++ [c]) ++ [d]). rewrite decimal_snoc. setoid_rewrite decimal_snoc.
  setoid_rewrite decimal2. unfold digits4, digits2. simpl. split.
  - intros (u & n & (w & n' & [Hw [= -> ->]] & Hn' & -> & ->) & Hn & -> & ->). split; [lia|].
    assert (((w * 10 + n') * 10 + n) / 100 = w) as -> by (Z.to_euclidean_division_equations; lia).
    do 2 f_equal. rewrite <- (digit_mod ((w * 10 + n') * 10 + n)), <- (digit_mod (_ / 10)).
    do 2 f_equal; [|f_equal]; f_equal; Z.to_euclidean_division_equations; lia.
  - intros [Hv [= -> -> -> ->]]. exists (v / 10), (v mod 10). rewrite digit_mod.
    split_and!; try done; [|Z.to_euclidean_division_equations; lia..].
    exists (v / 100), (v / 10 mod 10). rewrite digit_mod.
    split_and!; try done; Z.to_euclidean_division_equations; lia.
Qed.

Lemma twenty_bytes (bytes : list byte) : len bytes = 20 ->
  exists y1 y2 y3 y4 s1 m1 m2 s2 d1 d2 s3 h1 h2 s4 n1 n2 s5 c1 c2 s6,
    bytes = [y1; y2; y3; y4; s1; m1; m2; s2; d1; d2; s3; h1; h2; s4; n1; n2; s5; c1; c2; s6].
Proof.
  intros Hl. do 20 (destruct bytes as [|? bytes]; [done|]). destruct bytes; [by repeat eexists|len_lia].
Qed.

Lemma civil_parse_exact bytes t : civil_parse bytes = Some t <-> fields_in_range t /\ bytes = civil_print t.
Proof.
  unfold civil_parse, fields_in_range. split.
  - destruct (negb _) eqn:Hs; [done|]. bool_props. apply twenty_bytes in H as
      (y1 & y2 & y3 & y4 & s1 & m1 & m2 & s2 & d1 & d2 & s3 & h1 & h2 & s4 & n1 & n2 & s5 & c1 & c2 & s6 & ->).
    cbn [separators forallb fst snd lookup list_lookup] in H0. bool_props. simplify_eq.
    unfold slice. cbn [take drop Nat.sub].
    destruct (decimal [y1; y2; y3; y4]) eqn:H1; [|done]. destruct (decimal [m1; m2]) eqn:H2; [|done].
    destruct (decimal [d1; d2]) eqn:H3; [|done]. destruct (decimal [h1; h2]) eqn:H4; [|done].
    destruct (decimal [n1; n2]) eqn:H5; [|done]. destruct (decimal [c1; c2]) eqn:H6; [|done].
    intros [= <-]. apply decimal4 in H1 as [? Hy]. apply decimal2 in H2 as [? H2], H3 as [? H3],
      H4 as [? H4], H5 as [? H5], H6 as [? H6].
    cbn [ct_year ct_month ct_day ct_hour ct_minute ct_second]. split; [done|]. unfold civil_print.
    cbn [ct_year ct_month ct_day ct_hour ct_minute ct_second].
    by rewrite <- Hy, <- H2, <- H3, <- H4, <- H5, <- H6.
  - intros [Hr ->]. destruct t as [y m d h n c]. cbn [ct_year ct_month ct_day ct_hour ct_minute ct_second] in *.
    destruct Hr as (Hy & Hm & Hd & Hh & Hn & Hc). unfold civil_print.
    cbn [ct_year ct_month ct_day ct_hour ct_minute ct_second]. unfold digits4, digits2. cbn [app].
    replace (negb _) with false by reflexivity. unfold slice. cbn [take drop Nat.sub].
    repeat match goal with |- context [decimal [digit (?a / 100 / 10); ?x; ?y; ?z]] =>
      rewrite (proj2 (decimal4 (digit (a / 100 / 10)) x y z a)) by done end.
    repeat match goal with |- context [decimal [digit (?a / 10); digit ?a]] =>
      rewrite (proj2 (decimal2 (digit (a / 10)) (digit a) a)) by done end.
    done.
Qed.

(** ** Concatenated strings *)

Lemma utf8_valid_app : forall a b, utf8_valid a = true -> utf8_valid (a ++ b) = utf8_valid b.
Proof.
  fix IH 1. intros [|b0 r0] b; [done|]. cbn [utf8_valid app]. destruct (in_range 0 0x7F b0); [apply IH|].
  destruct r0 as [|b1 r1]; [done|]. cbn [app]. destruct (in_range 0xC2 0xDF b0).
  { intros [-> Hr]%andb_true_iff. by apply IH. }
  destruct r1 as [|b2 r2]; [done|]. cbn [app]. destruct (in_range 0xE0 0xEF b0).
  { intros [-> Hr]%andb_true_iff. by apply IH. }
  destruct r2 as [|b3 r3]; [done|]. cbn [app]. intros [-> Hr]%andb_true_iff. by apply IH.
Qed.

Lemma str_concat_bytes a b : as_bytes (str_concat a b) = as_bytes a ++ as_bytes b.
Proof.
  unfold str_concat, from_utf8. assert (utf8_valid (as_bytes a ++ as_bytes b) = true) as Hv.
  { rewrite utf8_valid_app; apply Is_true_true_1, raw_ok. }
  destruct (make_cases (p := utf8_valid) (as_bytes a ++ as_bytes b)) as [(x & -> & Hx & _)|[_ Hf]];
    [done|congruence].
Qed.

(** ** Binary search *)

Lemma sorted_lookup_lt digests i j x y :
  StronglySorted (fun a b => hash_lt a b = true) digests ->
  digests !! i = Some x -> digests !! j = Some y -> (i < j)%nat -> hash_lt x y = true.
Proof.
  intros Hs. revert i j. induction Hs as [|a l _ IH Hf]; intros i j; [done|].
  destruct i as [|i], j as [|j]; simpl; intros Hi Hj Hlt; try lia.
  - injection Hi as ->. rewrite Forall_lookup in Hf. by eapply Hf.
  - eapply IH; [done..|lia].
Qed.

(** The window always holds the position of a listed digest. *)
Lemma binary_search_loop_finds fuel digests digest base size k :
  StronglySorted (fun a b => hash_lt a b = true) digests ->
  digests !! k = Some digest -> (size <= fuel)%nat -> (base <= k < base + size)%nat ->
  binary_search_loop fuel digests digest base size = k.
Proof.
  intros Hs Hk. revert base size. induction fuel as [|fuel IH]; intros base size Hf Hb; [lia|].
  cbn [binary_search_loop]. destruct (Nat.leb_spec size 1); [lia|].
  pose proof (Nat.div2_div size) as Hd. pose proof (Nat.div_mod_eq size 2). pose proof (Nat.mod_upper_bound size 2).
  rewrite Hd. destruct (digests !! (base + size / 2)%nat) as [x|] eqn:Hx.
  - destruct (hash_lt digest x) eqn:Hlt; apply IH; try lia.
    + destruct (decide (k < base + size / 2)%nat); [lia|]. destruct (decide (k = base + size / 2)%nat) as [->|].
      * rewrite Hk in Hx. injection Hx as ->. by rewrite hash_lt_irrefl in Hlt.
      * assert (hash_lt x digest = true) as Hg by (eapply sorted_lookup_lt; [done..|lia]).
        pose proof (hash_lt_trans _ _ _ Hlt Hg) as Hc. by rewrite hash_lt_irrefl in Hc.
    + destruct (decide (base + size / 2 <= k)%nat); [lia|].
      assert (hash_lt digest x = true) as Hg by (eapply sorted_lookup_lt; [done..|lia]). congruence.
  - apply IH; [lia|]. apply lookup_ge_None in Hx. pose proof (lookup_lt_Some _ _ _ Hk). lia.
Qed.

Lemma binary_search_exact digests digest :
  windows_sorted hash_lt digests = true ->
  binary_search_is_ok digests digest = true <-> digest ∈ digests.
Proof.
  intros Hs. apply windows_sorted_StronglySorted in Hs; [|apply hash_lt_trans].
  unfold binary_search_is_ok. rewrite bool_decide_eq_true. split.
  - apply list_elem_of_lookup_2.
  - intros [k Hk]%list_elem_of_lookup. pose proof (lookup_lt_Some _ _ _ Hk).
    by rewrite (binary_search_loop_finds _ _ _ _ _ k) by (done || lia).
Qed.

(** ** The CBOR head *)

(** The hand-written head is the canonical one. *)
Lemma push_cbor_head_encode out major value :
  push_cbor_head out major value = out ++ encode_head major value.
Proof.
  unfold push_cbor_head, encode_head.
  destruct (Z.ltb_spec value 24), (Z.leb_spec value 23); try lia; [done|]. by repeat case_match.
Qed.

Section Bridge.
Context `{Blake3} `{Ed25519} `{Ciborium} `{HexText}.

(** The id of a denied publisher key hashes the canonical encoding of the key. *)
Lemma plugin_revoked_key_id_encoding p :
  plugin_revoked_key_id_v1 (pk_owner p) (pk_epoch p) (pk_public p)
  = prefixed_hex PLUGIN_REVOKED_KEY_ID_PREFIX_V1 (blake3 (REVOKED_KEY_DOMAIN ++ enc_publisher p)).
Proof.
  unfold plugin_revoked_key_id_v1, enc_publisher, write_text, encode_bytes. f_equal. f_equal.
  rewrite !push_cbor_head_encode, len_checked, <- !app_assoc. done.
Qed.

(** ** Authentication *)

Lemma authenticate_ok anchor bytes t :
  authenticate_plugin_tps1_v1 anchor bytes = Ok t ->
  from_canonical_cbor bytes = Ok (tps_snapshot t) /\ policy_id (tps_snapshot t) = pa_scope anchor
  /\ tps_bytes t = bytes /\ tps_digest t = blake3 bytes
  /\ verify_operator_signature_v1 (tps_snapshot t) (operator_key anchor) PLUGIN_OPERATOR_ROLE_V1 = Ok tt.
Proof. unfold authenticate_plugin_tps1_v1. intros Ha. ok_inv. bool_props. done. Qed.

Lemma authenticate_valid anchor bytes t :
  authenticate_plugin_tps1_v1 anchor bytes = Ok t -> validate_fields (tps_snapshot t) = Ok tt.
Proof. intros (Hc & _)%authenticate_ok. by apply from_canonical_cbor_ok in Hc as [? _]. Qed.

Lemma lists_digest_exact anchor bytes t d :
  authenticate_plugin_tps1_v1 anchor bytes = Ok t ->
  lists_digest (tps_snapshot t) d = true <-> d ∈ revoked_artifact_digests (tps_snapshot t).
Proof.
  intros Hv%authenticate_valid%validate_fields_ok. apply binary_search_exact. tauto.
Qed.

Lemma operator_signature_ok s key role :
  verify_operator_signature_v1 s key role = Ok tt ->
  exists unsigned, into_writer (VArray (take 11 (encode_snapshot_fields s))) = Some unsigned
    /\ verify_strict key (OPERATOR_SIGNATURE_DOMAIN_V1 ++ unsigned) (operator_signature s) = true.
Proof.
  unfold verify_operator_signature_v1, operator_signature_message_v1, encode_value.
  intros Hv. ok_inv. by eexists.
Qed.

(** ** The policy checks *)

Lemma bridge_check_ok b e : bridge_check b e = Ok tt <-> b = true.
Proof. unfold bridge_check. by destruct b. Qed.

Lemma check_root_mapping_ok s e :
  check_root_mapping s e = Ok tt ->
  forall k, k ∈ evd_root_keys e -> exists r, r ∈ trust_roots s
    /\ pr_key_id r = plugin_root_key_id_v1 (rk_id k) /\ pr_root_version r = evd_root_version e
    /\ pr_public_key r = rk_public k.
Proof.
  unfold check_root_mapping. intros Hc k Hk. ok_inv. rewrite bridge_check_ok, forallb_forall in Hc.
  specialize (Hc (plugin_root_key_id_v1 (rk_id k), rk_public k)).
  apply existsb_exists in Hc as (r & Hin & Hr).
  - bool_props. exists r. rewrite list_elem_of_In. done.
  - apply list_elem_of_In, list_elem_of_fmap. by exists k.
Qed.

Lemma check_revoked_key_mapping_ok s e :
  check_revoked_key_mapping s e = Ok tt ->
  forall p, p ∈ evd_revoked_keys e ->
    plugin_revoked_key_id_v1 (pk_owner p) (pk_epoch p) (pk_public p) ∈ revoked_key_ids s.
Proof.
  unfold check_revoked_key_mapping. intros Hc p Hp. ok_inv. bool_props.
  match goal with Hs : list_to_set _ ⊆ list_to_set (List.filter _ _) |- _ =>
    specialize (Hs (plugin_revoked_key_id_v1 (pk_owner p) (pk_epoch p) (pk_public p)));
    rewrite !elem_of_list_to_set in Hs; rename Hs into Hsub end.
  assert (Hin : plugin_revoked_key_id_v1 (pk_owner p) (pk_epoch p) (pk_public p)
    ∈ List.filter (starts_with PLUGIN_REVOKED_KEY_ID_PREFIX_V1) (revoked_key_ids s)).
  { apply Hsub, list_elem_of_fmap. exists p. split; [done|by apply elem_of_elements]. }
  apply list_elem_of_In, List.filter_In in Hin as [Hin _]. by apply list_elem_of_In.
Qed.

(** Conversely, every reserved name of the snapshot is that of a revoked key. *)
Lemma check_revoked_key_mapping_back s e id :
  check_revoked_key_mapping s e = Ok tt -> id ∈ revoked_key_ids s ->
  starts_with PLUGIN_REVOKED_KEY_ID_PREFIX_V1 id = true ->
  exists p, p ∈ evd_revoked_keys e /\ id = plugin_revoked_key_id_v1 (pk_owner p) (pk_epoch p) (pk_public p).
Proof.
  unfold check_revoked_key_mapping. intros Hc Hin Hpre. ok_inv. bool_props.
  match goal with Hs : list_to_set (List.filter _ _) ⊆ list_to_set _ |- _ =>
    specialize (Hs id); rewrite !elem_of_list_to_set in Hs; rename Hs into Hsub end.
  destruct (proj1 (list_elem_of_fmap _ _ _) (Hsub ltac:(apply list_elem_of_In, List.filter_In;
    by rewrite <- list_elem_of_In))) as (p & -> & Hp). exists p. by rewrite <- elem_of_elements.
Qed.

Lemma check_artifact_mapping_ok s e :
  check_artifact_mapping s e = Ok tt -> forall d, d ∈ evd_revoked_artifacts e -> lists_digest s d = true.
Proof.
  unfold check_artifact_mapping. rewrite bridge_check_ok, forallb_forall. intros Hf d Hd.
  by apply Hf, list_elem_of_In, elem_of_elements.
Qed.

Lemma verify_policy_ok t e utc tick :
  verify_plugin_tps1_policy_v1 t e utc tick = Ok tt ->
  policy_id (tps_snapshot t) = evd_scope e /\ tps_epoch t = evd_policy_epoch e
  /\ evd_utc_second e = utc /\ evd_tick e = tick
  /\ (exists through, parse_offline_valid_through_v1 (offline_valid_through (tps_snapshot t)) = Ok through
        /\ utc < through)
  /\ check_root_mapping (tps_snapshot t) e = Ok tt
  /\ check_revoked_key_mapping (tps_snapshot t) e = Ok tt
  /\ check_artifact_mapping (tps_snapshot t) e = Ok tt.
Proof.
  unfold verify_plugin_tps1_policy_v1, terminal_revocation. intros Hv. ok_inv. bool_props.
  split_and!; try done. by exists a.
Qed.

(** ** What a snapshot determines of the evidence *)

(** The Plugin root keys of a snapshot all have version [version]. *)
Definition bridged_version (s : TrustPolicySnapshotV1) (version : Z) : Prop :=
  (exists r, r ∈ trust_roots s /\ starts_with PLUGIN_ROOT_KEY_ID_PREFIX_V1 (pr_key_id r) = true)
  /\ forall r, r ∈ trust_roots s -> starts_with PLUGIN_ROOT_KEY_ID_PREFIX_V1 (pr_key_id r) = true ->
     pr_root_version r = version.

Lemma bridged_version_unique s v v' : bridged_version s v -> bridged_version s v' -> v = v'.
Proof. intros [(r & Hr & Hp) Hv] [_ Hv']. by rewrite <- (Hv r Hr Hp), (Hv' r Hr Hp). Qed.

Lemma root_key_id_prefixed id :
  starts_with PLUGIN_ROOT_KEY_ID_PREFIX_V1 (plugin_root_key_id_v1 id) = true.
Proof.
  unfold starts_with, plugin_root_key_id_v1, prefixed_hex. apply bool_decide_eq_true.
  rewrite str_concat_bytes. by eexists.
Qed.

(** Strictly ordered key ids name at most one root. *)
Lemma validate_trust_roots_from_unique seen previous roots :
  validate_trust_roots_from seen previous roots = Ok tt ->
  StronglySorted (fun a b => str_lt (pr_key_id a) (pr_key_id b) = true) roots
  /\ (forall p r, previous = Some p -> r ∈ roots -> str_lt p (pr_key_id r) = true).
Proof.
  revert seen previous. induction roots as [|r roots IH]; intros seen previous; cbn [validate_trust_roots_from].
  { intros _. split; [constructor|set_solver]. }
  intros Hv. ok_inv. apply IH in Hv as [Hs Hp]. apply orb_false_iff in Hb1 as [Hb1 _]. split.
  - constructor; [done|]. apply Forall_forall. intros x Hx. by eapply Hp.
  - intros p x -> [->|Hx]%elem_of_cons; apply negb_false_iff in Hb1; [done|].
    eapply str_lt_trans; [exact Hb1|by eapply Hp].
Qed.

Lemma trust_roots_unique s r r' :
  validate_fields s = Ok tt -> r ∈ trust_roots s -> r' ∈ trust_roots s ->
  pr_key_id r = pr_key_id r' -> r = r'.
Proof.
  intros Hv Hr Hr' He. unfold validate_fields in Hv. ok_inv.
  apply validate_trust_roots_from_unique in Hm as [Hs _]. revert Hr Hr'. clear - He Hs.
  induction Hs as [|x l _ IH Hf]; [set_solver|]. rewrite Forall_forall in Hf.
  intros [->|Hr]%elem_of_cons [->|Hr']%elem_of_cons; [done|..|by apply IH].
  - specialize (Hf r' Hr'). rewrite He, str_lt_irrefl in Hf. done.
  - specialize (Hf r Hr). rewrite <- He, str_lt_irrefl in Hf. done.
Qed.

Lemma bridged_version_of_policy a e utc tick :
  validate_fields (tps_snapshot a) = Ok tt -> evd_root_keys e <> [] ->
  verify_plugin_tps1_policy_v1 a e utc tick = Ok tt ->
  bridged_version (tps_snapshot a) (evd_root_version e).
Proof.
  intros Hv Hne Hp. apply verify_policy_ok in Hp as (_ & _ & _ & _ & _ & Hmap & _).
  pose proof (check_root_mapping_ok _ _ Hmap) as Hk. split.
  - destruct (evd_root_keys e) as [|k ks]; [done|]. destruct (Hk k) as (r & Hr & Hid & _); [left|].
    exists r. rewrite Hid. split; [done|apply root_key_id_prefixed].
  - intros r Hr Hpre. unfold check_root_mapping in Hmap. ok_inv. apply not_true_iff_false in Hb.
    destruct (existsb (fun e => bool_decide (e.1 = pr_key_id r))
      ((fun k => (plugin_root_key_id_v1 (rk_id k), rk_public k)) <$> evd_root_keys e)) eqn:Hx.
    + apply existsb_exists in Hx as ([id pub] & Hin & Hid). bool_props. simpl in Hid. subst id.
      apply list_elem_of_In, list_elem_of_fmap in Hin as (k & [= Hid ->] & Hin).
      destruct (Hk k Hin) as (r' & Hr' & Hid' & Hver & _).
      rewrite (trust_roots_unique _ r r' Hv Hr Hr'); [done|congruence].
    + destruct Hb. apply existsb_exists. exists r. rewrite Hx, List.filter_In, <- list_elem_of_In. done.
Qed.
End Bridge.

(** ** Floors *)

(** [floor_le a b]: [b] is [a] or lies above it. *)
Definition floor_le (a b : FloorPair) : Prop := a = b \/ a.1 < b.1.

Lemma floor_le_refl a : floor_le a a.
Proof. by left. Qed.
Lemma floor_le_trans a b c : floor_le a b -> floor_le b c -> floor_le a c.
Proof. unfold floor_le. intros [->|] [->|]; auto. right. lia. Qed.

Lemma floor_transition_ok kind retained candidate history tr :
  plugin_floor_transition_v1 kind retained candidate history = Ok tr ->
  match retained with
  | None => tr = FloorInitialize
  | Some r => (tr = FloorUnchanged /\ candidate = r)
              \/ (tr = FloorAdvance /\ r.1 < candidate.1 /\ r ∈ history /\ last history = Some candidate)
  end.
Proof.
  unfold plugin_floor_transition_v1, advance_proof. destruct retained as [r|]; [|by intros [= <-]].
  destruct (Z.ltb_spec candidate.1 r.1); [done|]. destruct (Z.eqb_spec candidate.1 r.1) as [He|].
  - destruct (decide (candidate.2 = r.2)); [|done]. intros [= <-]. left. split; [done|].
    destruct candidate, r; simpl in *; congruence.
  - destruct (negb _) eqn:Hw; [done|]. bool_props.
    destruct (List.find (fun entry => entry.1 =? r.1) history) as [p|] eqn:Hf; [|done]. destruct (decide (p.2 = r.2)); [|done].
    intros [= <-]. right. apply List.find_some in Hf as [Hin Hp]. bool_props. split_and!; try done; [lia|].
    apply list_elem_of_In. destruct p, r; simpl in *; by subst.
Qed.
