(* ===== verification/TrustRegistry.v ===== *)
(** * Decisions of the Plugin trust policy registry

    [crates/pos-store/src/plugin_trust_registry/{types,error,utc,logic}.rs]:
    the retained records and the adapter-independent [plan_*] functions.

    [Event::schema_version] has one value in this version of the program and is
    left out.  [VerifiedPluginReleaseSignatureV1] is the proof
    [crates/pos-crypto/src/plugin_manifest.rs] mints; the registry reads its
    three public values. *)

From Stdlib Require Import String ZArith Lia Bool.
From S2P Require Import Prelude Text SortedMap Cbor FallbackRecords ErasureGate Events EventStore.
From S2P Require Import FallbackRegistry StrictCbor PluginTrust WireSyntax TrustPolicy TrustBridge.

Local Open Scope Z_scope.

Module RegistryError.
Inductive PluginTrustPolicyRegistryErrorV1 :=
| MissingState | CorruptState | AnchorMismatch | TrustedTimeUnavailable | TrustedTimeRegressed
| ReleaseChainViolation | ReleaseConflict | UnknownRollbackTarget | NoActiveRelease
| RollbackTargetActive | ActivationEventRejected | NestedTransaction | WalRequired | StorageBusy
| StorageFailed | StorageIndeterminate | StorePoisoned | PolicyNotAdvanced | ReleaseNotActive
| ReleaseProofMismatch
| Bridge (e : BridgeError.PluginTrustBridgeErrorV1)
| Floor (e : FloorError.PluginFloorErrorV1)
| Trust (e : TrustError.PluginTrustErrorV1).
End RegistryError.

Definition RegistryResult (A : Type) : Type := result RegistryError.PluginTrustPolicyRegistryErrorV1 A.
Definition registry_check (b : bool) (e : RegistryError.PluginTrustPolicyRegistryErrorV1)
    : RegistryResult unit := if b then Ok tt else Err e.

Definition from_bridge {A} (r : BridgeResult A) : RegistryResult A := map_err RegistryError.Bridge r.
Definition from_floor {A} (r : FloorResult A) : RegistryResult A := map_err RegistryError.Floor r.
Definition from_trust {A} (r : TrustResult A) : RegistryResult A := map_err RegistryError.Trust r.

(** ** Trusted time *)

Definition MICROS_PER_SECOND : Z := 1000000.

(** [TrustedUtcSecondV1::from_source], on the sample the source returned. *)
Definition trusted_utc_from_source (sample : option Z) : RegistryResult Z :=
  let? micros := ok_or sample RegistryError.TrustedTimeUnavailable in
  Ok (Z.min (Z.quot micros MICROS_PER_SECOND) I64_MAX).

(** ** Activation Events *)

Record ActivationEventInputV1 := MkActivation {
  act_timeline : TimelineId;
  act_draft : EventDraft;
}.

Record ActivationEventIdentityV1 := MkActivationIdentity {
  aid_timeline : TimelineId;
  aid_event_id : EventId;
  aid_seq : Z;
  aid_event_type : RString;
  aid_payload_digest : Hash;
  aid_origin_logical_seq : option Z;
}.

Definition act_payload_digest `{Blake3} (a : ActivationEventInputV1) : Hash :=
  blake3 (draft_payload (act_draft a)).

Definition activation_from_event (timeline : TimelineId) (event : Event) (payload_digest : Hash)
    : ActivationEventIdentityV1 :=
  MkActivationIdentity timeline (ev_id event) (ev_seq event) (ev_event_type event) payload_digest
    (origin_logical_seq <$> ev_origin event).

Definition matches_input `{Blake3} (i : ActivationEventIdentityV1) (input : ActivationEventInputV1) : bool :=
  bool_decide (aid_timeline i = act_timeline input)
  && bool_decide (aid_event_type i = draft_event_type (act_draft input))
  && bool_decide (aid_payload_digest i = act_payload_digest input).

(** ** Retained records *)

Inductive PluginTrustCommitOutcomeV1 := TrustCommitted | TrustIdempotentReplay.
Inductive ProvisionOutcomeV1 := ScopeCreated | ScopeUnchanged.
Inductive PolicyAdvanceKindV1 := Advanced | PolicyUnchanged.

Record PolicyAdvanceOutcomeV1 := MkAdvanceOutcome {
  ao_outcome : PolicyAdvanceKindV1;
  ao_tps1_digest : Hash;
  ao_tps1_epoch : Z;
  ao_ptr1_floor : option FloorPair;
  ao_prv1_floor : option FloorPair;
}.

Record RetainedReleaseDecisionV1 := MkDecision {
  dec_scope : RString;
  dec_plugin_id : RString;
  dec_pmf1_digest : Hash;
  dec_release_digest : Hash;
  dec_previous_release_digest : option Hash;
  dec_tps1_digest : Hash;
  dec_tps1_epoch : Z;
  dec_tps1_effective_position : Z;
  dec_terminal_root : FloorPair;
  dec_terminal_revocation : FloorPair;
  dec_trusted_utc_second : Z;
  dec_tick : Z;
  dec_activation_event : ActivationEventIdentityV1;
}.

Record RollbackFactsV1 := MkRollbackFacts {
  rbf_scope : RString;
  rbf_plugin_id : RString;
  rbf_target_pmf1_digest : Hash;
  rbf_target_release_digest : Hash;
  rbf_replaced_pmf1_digest : Hash;
  rbf_tps1_digest : Hash;
  rbf_tps1_epoch : Z;
  rbf_tps1_effective_position : Z;
  rbf_terminal_root : FloorPair;
  rbf_terminal_revocation : FloorPair;
  rbf_trusted_utc_second : Z;
  rbf_tick : Z;
  rbf_activation_event : ActivationEventIdentityV1;
}.

Record ActiveReleaseV1 := MkActive {
  av_scope : RString;
  av_plugin_id : RString;
  av_pmf1_digest : Hash;
  av_release_digest : Hash;
  av_activation_event : ActivationEventIdentityV1;
}.

Record RetainedPolicyStateV1 := MkPolicyState {
  ps_scope : RString;
  ps_tps1_epoch : Z;
  ps_tps1_digest : Hash;
  ps_tps1_effective_position : Z;
  ps_tps1_bytes : list byte;
  ps_ptr1_floor : option FloorPair;
  ps_prv1_floor : option FloorPair;
  ps_highest_trusted_utc_second : option Z;
}.

Record CurrentReleaseEvaluationV1 := MkEvaluation {
  evl_scope : RString;
  evl_plugin_id : RString;
  evl_pmf1_digest : Hash;
  evl_release_digest : Hash;
  evl_previous_release_digest : option Hash;
  evl_tps1_digest : Hash;
  evl_tps1_epoch : Z;
  evl_tps1_effective_position : Z;
  evl_ptr1_floor : FloorPair;
  evl_prv1_floor : FloorPair;
  evl_trusted_utc_second : Z;
  evl_tick : Z;
  evl_activation_event : ActivationEventIdentityV1;
}.

Inductive PluginTrustLedgerBodyV1 :=
| RowProvision
| RowAdvance (utc tick : Z)
| RowAdmission (decision : RetainedReleaseDecisionV1) (previous_active_pmf1_digest : option Hash)
| RowRollback (facts : RollbackFactsV1).

Inductive PluginTrustLedgerKindV1 := KindProvision | KindAdvance | KindAdmission | KindRollback.

Definition body_kind (b : PluginTrustLedgerBodyV1) : PluginTrustLedgerKindV1 :=
  match b with
  | RowProvision => KindProvision | RowAdvance _ _ => KindAdvance
  | RowAdmission _ _ => KindAdmission | RowRollback _ => KindRollback
  end.

Definition body_coordinates (b : PluginTrustLedgerBodyV1) : option (Z * Z) :=
  match b with
  | RowProvision => None
  | RowAdvance utc tick => Some (utc, tick)
  | RowAdmission d _ => Some (dec_trusted_utc_second d, dec_tick d)
  | RowRollback f => Some (rbf_trusted_utc_second f, rbf_tick f)
  end.

Record ReleaseColumnsV1 := MkReleaseColumns {
  rc_plugin_id : RString;
  rc_pmf1_digest : Hash;
  rc_release_digest : Hash;
  rc_previous_active_pmf1_digest : option Hash;
  rc_event : ActivationEventIdentityV1;
}.

Definition body_release (b : PluginTrustLedgerBodyV1) : option ReleaseColumnsV1 :=
  match b with
  | RowProvision | RowAdvance _ _ => None
  | RowAdmission d previous => Some (MkReleaseColumns (dec_plugin_id d) (dec_pmf1_digest d)
      (dec_release_digest d) previous (dec_activation_event d))
  | RowRollback f => Some (MkReleaseColumns (rbf_plugin_id f) (rbf_target_pmf1_digest f)
      (rbf_target_release_digest f) (Some (rbf_replaced_pmf1_digest f)) (rbf_activation_event f))
  end.

Record PluginTrustLedgerRowV1 := MkTrustRow {
  tr_row_seq : Z;
  tr_tps1_digest : Hash;
  tr_tps1_epoch : Z;
  tr_tps1_effective_position : Z;
  tr_ptr1_floor : option FloorPair;
  tr_prv1_floor : option FloorPair;
  tr_body : PluginTrustLedgerBodyV1;
}.

Definition row_plugin_id (r : PluginTrustLedgerRowV1) : option RString :=
  rc_plugin_id <$> body_release (tr_body r).

(** ** Plans *)

Record RetainedScopeV1 := MkRetainedScope {
  rs_anchor : PluginTrustPolicyAnchorV1;
  rs_policy : RetainedPolicyStateV1;
}.

(** The reads an adapter provides inside one transaction. *)
Record PluginTrustTransactionV1 := MkTransaction {
  tx_scope : RString -> RegistryResult (option RetainedScopeV1);
  tx_decision : RString -> Hash -> RegistryResult (option RetainedReleaseDecisionV1);
  tx_active : RString -> RString -> RegistryResult (option ActiveReleaseV1);
  tx_latest_release_row : RString -> RString -> RegistryResult (option PluginTrustLedgerRowV1);
  tx_next_row_seq : RString -> RegistryResult Z;
}.

Record PolicyInputV1 := MkPolicyInput {
  in_anchor : PluginTrustPolicyAnchorV1;
  in_tps1_bytes : list byte;
  in_evidence : VerifiedPluginTrustEvidenceV1;
  in_utc : Z;
  in_tick : Z;
}.

Record PolicyWriteV1 := MkPolicyWrite {
  pw_tps1 : AuthenticatedPluginTps1V1;
  pw_root : FloorPair;
  pw_revocation : FloorPair;
  pw_utc : Z;
}.

Definition write_apply (w : PolicyWriteV1) (policy : RetainedPolicyStateV1) : RetainedPolicyStateV1 :=
  MkPolicyState (ps_scope policy) (tps_epoch (pw_tps1 w)) (tps_digest (pw_tps1 w))
    (tps_position (pw_tps1 w)) (tps_bytes (pw_tps1 w)) (Some (pw_root w)) (Some (pw_revocation w))
    (Some (pw_utc w)).

Definition write_row (w : PolicyWriteV1) (row_seq : Z) (body : PluginTrustLedgerBodyV1)
    : PluginTrustLedgerRowV1 :=
  MkTrustRow row_seq (tps_digest (pw_tps1 w)) (tps_epoch (pw_tps1 w)) (tps_position (pw_tps1 w))
    (Some (pw_root w)) (Some (pw_revocation w)) body.

Record ProvisionWriteV1 := MkProvisionWrite {
  pvw_scope : RetainedScopeV1;
  pvw_row : PluginTrustLedgerRowV1;
}.

Record CheckedPolicyV1 := MkCheckedPolicy {
  cp_scope : RetainedScopeV1;
  cp_floors : PluginFloorStateV1;
  cp_tps1 : AuthenticatedPluginTps1V1;
}.

Inductive Continuity := Retained | Successor.

Record AdvancePlanV1 := MkAdvancePlan {
  ap_write : PolicyWriteV1;
  ap_row : option PluginTrustLedgerRowV1;
  ap_outcome : PolicyAdvanceOutcomeV1;
}.

(** The three public values of a verified release signature. *)
Record VerifiedPluginReleaseSignatureV1 := MkReleaseProof {
  proof_pmf1_digest : Hash;
  proof_release_digest : Hash;
  proof_public_key : Hash;
}.

Record AdmitCommitV1 := MkAdmitCommit {
  ac_write : PolicyWriteV1;
  ac_scope : RString;
  ac_plugin_id : RString;
  ac_pmf1_digest : Hash;
  ac_release_digest : Hash;
  ac_previous_release_digest : option Hash;
  ac_previous_active_pmf1_digest : option Hash;
  ac_tick : Z;
  ac_row_seq : Z;
}.

Inductive AdmitPlanV1 :=
| AdmitReplay (decision : RetainedReleaseDecisionV1)
| AdmitCommit (c : AdmitCommitV1).

Record AdmitWritesV1 := MkAdmitWrites {
  aw_policy : PolicyWriteV1;
  aw_decision : RetainedReleaseDecisionV1;
  aw_active : ActiveReleaseV1;
  aw_row : PluginTrustLedgerRowV1;
}.

Record RollbackCommitV1 := MkRollbackCommit {
  rb_write : PolicyWriteV1;
  rb_scope : RString;
  rb_plugin_id : RString;
  rb_target_pmf1_digest : Hash;
  rb_target_release_digest : Hash;
  rb_replaced_pmf1_digest : Hash;
  rb_tick : Z;
  rb_row_seq : Z;
}.

Inductive RollbackPlanV1 :=
| RollbackReplay (facts : RollbackFactsV1)
| RollbackCommit (c : RollbackCommitV1).

Record RollbackWritesV1 := MkRollbackWrites {
  rw_policy : PolicyWriteV1;
  rw_facts : RollbackFactsV1;
  rw_active : ActiveReleaseV1;
  rw_row : PluginTrustLedgerRowV1;
}.

Definition admit_finish (c : AdmitCommitV1) (event : ActivationEventIdentityV1) : AdmitWritesV1 :=
  let tps1 := pw_tps1 (ac_write c) in
  let decision := MkDecision (ac_scope c) (ac_plugin_id c) (ac_pmf1_digest c) (ac_release_digest c)
    (ac_previous_release_digest c) (tps_digest tps1) (tps_epoch tps1) (tps_position tps1)
    (pw_root (ac_write c)) (pw_revocation (ac_write c)) (pw_utc (ac_write c)) (ac_tick c) event in
  let active := MkActive (ac_scope c) (ac_plugin_id c) (ac_pmf1_digest c) (ac_release_digest c) event in
  let row := write_row (ac_write c) (ac_row_seq c)
               (RowAdmission decision (ac_previous_active_pmf1_digest c)) in
  MkAdmitWrites (ac_write c) decision active row.

Definition rollback_finish (c : RollbackCommitV1) (event : ActivationEventIdentityV1) : RollbackWritesV1 :=
  let tps1 := pw_tps1 (rb_write c) in
  let facts := MkRollbackFacts (rb_scope c) (rb_plugin_id c) (rb_target_pmf1_digest c)
    (rb_target_release_digest c) (rb_replaced_pmf1_digest c) (tps_digest tps1) (tps_epoch tps1)
    (tps_position tps1) (pw_root (rb_write c)) (pw_revocation (rb_write c)) (pw_utc (rb_write c))
    (rb_tick c) event in
  let active := MkActive (rb_scope c) (rb_plugin_id c) (rb_target_pmf1_digest c)
    (rb_target_release_digest c) event in
  let row := write_row (rb_write c) (rb_row_seq c) (RowRollback facts) in
  MkRollbackWrites (rb_write c) facts active row.

Definition unchanged_floors (floors : PluginFloorStateV1) (plan : PluginFloorPlanV1)
    : option (FloorPair * FloorPair) :=
  match floors, plan_root plan, plan_revocation plan with
  | FloorsPresent root revocation, FloorUnchanged, FloorUnchanged => Some (root, revocation)
  | _, _, _ => None
  end.

Definition decision_describes (decision : RetainedReleaseDecisionV1) (active : ActiveReleaseV1)
    (authorization : ResolvedPluginTrustAuthorizationV1) : bool :=
  bool_decide (dec_plugin_id decision = av_plugin_id active)
  && bool_decide (dec_release_digest decision = av_release_digest active)
  && bool_decide (dec_release_digest decision = auth_release_digest authorization).

Definition chain_permits (active : option ActiveReleaseV1)
    (authorization : ResolvedPluginTrustAuthorizationV1) : bool :=
  match active with
  | None => true
  | Some active =>
      bool_decide (auth_release_digest authorization = av_release_digest active)
      || bool_decide (auth_previous_release_digest authorization = Some (av_release_digest active))
  end.

Definition check_release_proof (release_proof : VerifiedPluginReleaseSignatureV1)
    (authorization : ResolvedPluginTrustAuthorizationV1) : RegistryResult unit :=
  registry_check (bool_decide
    ((proof_pmf1_digest release_proof, proof_release_digest release_proof, proof_public_key release_proof)
     = (auth_pmf1_digest authorization, auth_release_digest authorization,
        auth_public_key authorization))) RegistryError.ReleaseProofMismatch.

Definition policy_write (tps1 : AuthenticatedPluginTps1V1) (input : PolicyInputV1) : PolicyWriteV1 :=
  MkPolicyWrite tps1 (terminal_root (in_evidence input)) (terminal_revocation (in_evidence input))
    (in_utc input).

Section Plans.
Context `{Blake3} `{Ed25519} `{Ciborium} `{HexText}.

Definition same_decision_identity (decision : RetainedReleaseDecisionV1)
    (tps1 : AuthenticatedPluginTps1V1) (input : PolicyInputV1) (activation : ActivationEventInputV1)
    : bool :=
  bool_decide (dec_tps1_digest decision = tps_digest tps1)
  && bool_decide (dec_terminal_root decision = terminal_root (in_evidence input))
  && bool_decide (dec_terminal_revocation decision = terminal_revocation (in_evidence input))
  && matches_input (dec_activation_event decision) activation.

Definition plan_provision (tx : PluginTrustTransactionV1) (anchor : PluginTrustPolicyAnchorV1)
    (tps1_bytes : list byte) : RegistryResult (option ProvisionWriteV1) :=
  let? existing := tx_scope tx (pa_scope anchor) in
  if match existing with Some retained => negb (bool_decide (rs_anchor retained = anchor)) | None => false end
  then Err RegistryError.AnchorMismatch else
  let? tps1 := from_bridge (authenticate_plugin_tps1_v1 anchor tps1_bytes) in
  let? _ := from_bridge (check_plugin_tps1_genesis_v1 anchor tps1) in
  if bool_decide (is_Some existing) then Ok None else
  let policy := MkPolicyState (pa_scope anchor) (tps_epoch tps1) (tps_digest tps1)
    (tps_position tps1) (tps_bytes tps1) None None None in
  let row := MkTrustRow 1 (tps_digest tps1) (tps_epoch tps1) (tps_position tps1) None None
    RowProvision in
  Ok (Some (MkProvisionWrite (MkRetainedScope anchor policy) row)).

Definition check_policy_prefix (tx : PluginTrustTransactionV1) (input : PolicyInputV1)
    : RegistryResult (CheckedPolicyV1 * Continuity) :=
  let? found := tx_scope tx (pa_scope (in_anchor input)) in
  let? scope := ok_or found RegistryError.MissingState in
  if negb (bool_decide (rs_anchor scope = in_anchor input)) then Err RegistryError.AnchorMismatch else
  let? floors := map_err (fun _ => RegistryError.CorruptState)
    (from_retained (ps_ptr1_floor (rs_policy scope)) (ps_prv1_floor (rs_policy scope))) in
  if match ps_highest_trusted_utc_second (rs_policy scope) with
     | Some highest => in_utc input <? highest | None => false end
  then Err RegistryError.TrustedTimeRegressed else
  let? tps1 := from_bridge (authenticate_plugin_tps1_v1 (in_anchor input) (in_tps1_bytes input)) in
  let? continuity :=
    if decide (tps_bytes tps1 = ps_tps1_bytes (rs_policy scope)) then Ok Retained
    else
      let? _ := from_bridge (check_plugin_tps1_successor_v1 (ps_tps1_epoch (rs_policy scope))
                  (ps_tps1_digest (rs_policy scope)) tps1) in
      Ok Successor in
  Ok (MkCheckedPolicy scope floors tps1, continuity).

Definition check_bridge (checked : CheckedPolicyV1) (input : PolicyInputV1) : RegistryResult unit :=
  from_bridge (verify_plugin_tps1_policy_v1 (cp_tps1 checked) (in_evidence input) (in_utc input)
    (in_tick input)).

Definition check_policy (tx : PluginTrustTransactionV1) (input : PolicyInputV1)
    : RegistryResult CheckedPolicyV1 :=
  let? (checked, _) := check_policy_prefix tx input in
  let? _ := check_bridge checked input in
  Ok checked.

Definition plan_advance (tx : PluginTrustTransactionV1) (input : PolicyInputV1)
    : RegistryResult AdvancePlanV1 :=
  let? checked := check_policy tx input in
  let? _ := from_floor (plan_plugin_floor_transition_v1 (cp_floors checked) (in_evidence input)) in
  let changed := match cp_floors checked with FloorsAbsent => true | _ => false end
    || negb (bool_decide (tps_digest (cp_tps1 checked) = ps_tps1_digest (rs_policy (cp_scope checked)))) in
  let write := policy_write (cp_tps1 checked) input in
  let? row :=
    if changed then
      let? row_seq := tx_next_row_seq tx (pa_scope (in_anchor input)) in
      Ok (Some (write_row write row_seq (RowAdvance (pw_utc write) (in_tick input))))
    else Ok None in
  Ok (MkAdvancePlan write row
    (MkAdvanceOutcome (if changed then Advanced else PolicyUnchanged) (tps_digest (pw_tps1 write))
       (tps_epoch (pw_tps1 write)) (Some (pw_root write)) (Some (pw_revocation write)))).

Definition check_authorized_release (checked : CheckedPolicyV1) (input : PolicyInputV1)
    (authorization : ResolvedPluginTrustAuthorizationV1) : RegistryResult PluginFloorPlanV1 :=
  let? _ := from_bridge (check_plugin_tps1_artifact_denial_v1 (cp_tps1 checked) authorization) in
  from_floor (plan_plugin_floor_transition_v1 (cp_floors checked) (in_evidence input)).

Definition check_release_tail (checked : CheckedPolicyV1) (input : PolicyInputV1)
    (projection : ValidatedPluginManifestProjectionV1)
    : RegistryResult (ResolvedPluginTrustAuthorizationV1 * PluginFloorPlanV1) :=
  let? authorization := from_trust (authorize_release (in_evidence input) projection) in
  let? plan := check_authorized_release checked input authorization in
  Ok (authorization, plan).

Definition check_proven_release (checked : CheckedPolicyV1) (input : PolicyInputV1)
    (projection : ValidatedPluginManifestProjectionV1)
    (release_proof : VerifiedPluginReleaseSignatureV1)
    : RegistryResult ResolvedPluginTrustAuthorizationV1 :=
  let? authorization := from_trust (authorize_release (in_evidence input) projection) in
  let? _ := check_release_proof release_proof authorization in
  let? _ := check_authorized_release checked input authorization in
  Ok authorization.

Definition check_release (tx : PluginTrustTransactionV1) (input : PolicyInputV1)
    (projection : ValidatedPluginManifestProjectionV1)
    (release_proof : VerifiedPluginReleaseSignatureV1)
    : RegistryResult (CheckedPolicyV1 * ResolvedPluginTrustAuthorizationV1) :=
  let? checked := check_policy tx input in
  let? authorization := check_proven_release checked input projection release_proof in
  Ok (checked, authorization).

Definition plan_evaluate (tx : PluginTrustTransactionV1) (input : PolicyInputV1)
    (projection : ValidatedPluginManifestProjectionV1) : RegistryResult CurrentReleaseEvaluationV1 :=
  let? (checked, continuity) := check_policy_prefix tx input in
  if match continuity with Successor => true | Retained => false end
  then Err RegistryError.PolicyNotAdvanced else
  let? _ := check_bridge checked input in
  let? (authorization, plan) := check_release_tail checked input projection in
  let? (root, revocation) := ok_or (unchanged_floors (cp_floors checked) plan)
                               RegistryError.PolicyNotAdvanced in
  let scope := pa_scope (in_anchor input) in
  let? found := tx_active tx scope (auth_plugin_id authorization) in
  let? active := ok_or (match found with
      | Some active => if decide (av_pmf1_digest active = auth_pmf1_digest authorization)
                       then Some active else None
      | None => None end) RegistryError.ReleaseNotActive in
  let? stored := tx_decision tx scope (av_pmf1_digest active) in
  let? decision := ok_or (match stored with
      | Some decision => if decision_describes decision active authorization
                         then Some decision else None
      | None => None end) RegistryError.CorruptState in
  let policy := rs_policy (cp_scope checked) in
  Ok (MkEvaluation (dec_scope decision) (dec_plugin_id decision) (dec_pmf1_digest decision)
    (dec_release_digest decision) (dec_previous_release_digest decision) (ps_tps1_digest policy)
    (ps_tps1_epoch policy) (ps_tps1_effective_position policy) root revocation (in_utc input)
    (in_tick input) (av_activation_event active)).

Definition plan_admit (tx : PluginTrustTransactionV1) (input : PolicyInputV1)
    (projection : ValidatedPluginManifestProjectionV1)
    (release_proof : VerifiedPluginReleaseSignatureV1) (activation : ActivationEventInputV1)
    : RegistryResult AdmitPlanV1 :=
  let? (checked, authorization) := check_release tx input projection release_proof in
  let scope := pa_scope (in_anchor input) in
  let? stored := tx_decision tx scope (auth_pmf1_digest authorization) in
  match stored with
  | Some existing =>
      if same_decision_identity existing (cp_tps1 checked) input activation
      then Ok (AdmitReplay existing) else Err RegistryError.ReleaseConflict
  | None =>
      let? active := tx_active tx scope (auth_plugin_id authorization) in
      if negb (chain_permits active authorization) then Err RegistryError.ReleaseChainViolation else
      let? row_seq := tx_next_row_seq tx scope in
      Ok (AdmitCommit (MkAdmitCommit (policy_write (cp_tps1 checked) input) scope
        (auth_plugin_id authorization) (auth_pmf1_digest authorization)
        (auth_release_digest authorization) (auth_previous_release_digest authorization)
        (av_pmf1_digest <$> active) (in_tick input) row_seq))
  end.

Definition identical_rollback (row : option PluginTrustLedgerRowV1) (target_pmf1_digest : Hash)
    (tps1 : AuthenticatedPluginTps1V1) (input : PolicyInputV1) (activation : ActivationEventInputV1)
    : option RollbackFactsV1 :=
  match row with
  | None => None
  | Some row =>
      match tr_body row with
      | RowRollback facts =>
          if bool_decide (rbf_target_pmf1_digest facts = target_pmf1_digest)
             && bool_decide (rbf_tps1_digest facts = tps_digest tps1)
             && bool_decide (rbf_terminal_root facts = terminal_root (in_evidence input))
             && bool_decide (rbf_terminal_revocation facts = terminal_revocation (in_evidence input))
             && matches_input (rbf_activation_event facts) activation
          then Some facts else None
      | _ => None
      end
  end.

Definition plan_rollback (tx : PluginTrustTransactionV1) (input : PolicyInputV1)
    (target : ValidatedPluginManifestProjectionV1)
    (release_proof : VerifiedPluginReleaseSignatureV1) (activation : ActivationEventInputV1)
    : RegistryResult RollbackPlanV1 :=
  let? (checked, authorization) := check_release tx input target release_proof in
  let scope := pa_scope (in_anchor input) in
  let target_pmf1_digest := auth_pmf1_digest authorization in
  let? stored := tx_decision tx scope target_pmf1_digest in
  if bool_decide (stored = None) then Err RegistryError.UnknownRollbackTarget else
  let? found := tx_active tx scope (auth_plugin_id authorization) in
  let? active := ok_or found RegistryError.NoActiveRelease in
  if decide (av_pmf1_digest active = target_pmf1_digest) then
    let? latest := tx_latest_release_row tx scope (auth_plugin_id authorization) in
    ok_or (RollbackReplay <$> identical_rollback latest target_pmf1_digest (cp_tps1 checked) input
             activation) RegistryError.RollbackTargetActive
  else
    let? row_seq := tx_next_row_seq tx scope in
    Ok (RollbackCommit (MkRollbackCommit (policy_write (cp_tps1 checked) input) scope
      (auth_plugin_id authorization) target_pmf1_digest (auth_release_digest authorization)
      (av_pmf1_digest active) (in_tick input) row_seq)).
End Plans.

(** * The in-memory Plugin trust registry

    [crates/pos-store/src/memory/plugin_trust_registry.rs]: the [MemoryStore]
    adapter of the trust registry port.  The registry state is one more field
    of the store of [FallbackRegistry]; every operation runs inside the erasure
    fence of the activation Timeline and appends the activation Event as its
    last fallible step. *)

Record MemoryScopeV1 := MkMemoryScope {
  msc_retained : RetainedScopeV1;
  msc_decisions : gmap Hash RetainedReleaseDecisionV1;
  msc_active : gmap RString ActiveReleaseV1;
  msc_ledger : list PluginTrustLedgerRowV1;
}.

Definition map_policy (f : RetainedPolicyStateV1 -> RetainedPolicyStateV1) (r : RetainedScopeV1)
    : RetainedScopeV1 := MkRetainedScope (rs_anchor r) (f (rs_policy r)).

Definition commit_admit (writes : AdmitWritesV1) (s : MemoryScopeV1) : MemoryScopeV1 :=
  MkMemoryScope (map_policy (write_apply (aw_policy writes)) (msc_retained s))
    (<[dec_pmf1_digest (aw_decision writes) := aw_decision writes]> (msc_decisions s))
    (<[av_plugin_id (aw_active writes) := aw_active writes]> (msc_active s))
    (msc_ledger s ++ [aw_row writes]).

Definition commit_rollback (writes : RollbackWritesV1) (s : MemoryScopeV1) : MemoryScopeV1 :=
  MkMemoryScope (map_policy (write_apply (rw_policy writes)) (msc_retained s)) (msc_decisions s)
    (<[av_plugin_id (rw_active writes) := rw_active writes]> (msc_active s))
    (msc_ledger s ++ [rw_row writes]).

Definition raise_utc (utc : Z) (s : MemoryScopeV1) : MemoryScopeV1 :=
  MkMemoryScope (map_policy (fun p => MkPolicyState (ps_scope p) (ps_tps1_epoch p) (ps_tps1_digest p)
      (ps_tps1_effective_position p) (ps_tps1_bytes p) (ps_ptr1_floor p) (ps_prv1_floor p) (Some utc))
      (msc_retained s))
    (msc_decisions s) (msc_active s) (msc_ledger s).

(** [row.row_seq + 1] on a [u64]. *)
Definition next_row_seq (s : MemoryScopeV1) : Z :=
  match last (msc_ledger s) with Some row => u64_wrap (tr_row_seq row + 1) | None => 1 end.

Definition latest_release_row (plugin_id : RString) (s : MemoryScopeV1)
    : option PluginTrustLedgerRowV1 :=
  List.find (fun row => bool_decide (row_plugin_id row = Some plugin_id)) (rev (msc_ledger s)).

Definition commit_advance (plan : AdvancePlanV1) (s : MemoryScopeV1) : MemoryScopeV1 :=
  MkMemoryScope (map_policy (write_apply (ap_write plan)) (msc_retained s)) (msc_decisions s)
    (msc_active s) (msc_ledger s ++ match ap_row plan with Some row => [row] | None => [] end).

Definition MemoryPluginTrustStateV1 : Type := gmap RString MemoryScopeV1.

Definition scope_state (t : MemoryPluginTrustStateV1) (scope : RString) : RegistryResult MemoryScopeV1 :=
  ok_or (t !! scope) RegistryError.MissingState.

Definition with_scope (t : MemoryPluginTrustStateV1) (scope : RString)
    (apply : MemoryScopeV1 -> MemoryScopeV1) : MemoryPluginTrustStateV1 * RegistryResult unit :=
  match t !! scope with
  | Some state => (<[scope := apply state]> t, Ok tt)
  | None => (t, Err RegistryError.MissingState)
  end.

Definition insert_scope (t : MemoryPluginTrustStateV1) (write : ProvisionWriteV1)
    : MemoryPluginTrustStateV1 :=
  <[ps_scope (rs_policy (pvw_scope write)) :=
      MkMemoryScope (pvw_scope write) ∅ ∅ [pvw_row write]]> t.

(** [impl PluginTrustTransactionV1 for MemoryPluginTrustStateV1]. *)
Definition memory_transaction (t : MemoryPluginTrustStateV1) : PluginTrustTransactionV1 :=
  MkTransaction
    (fun scope => Ok (msc_retained <$> t !! scope))
    (fun scope pmf1_digest => Ok (t !! scope ≫= fun state => msc_decisions state !! pmf1_digest))
    (fun scope plugin_id => Ok (t !! scope ≫= fun state => msc_active state !! plugin_id))
    (fun scope plugin_id => Ok (t !! scope ≫= latest_release_row plugin_id))
    (fun scope => Ok (match t !! scope with Some state => next_row_seq state | None => 1 end)).

Record TrustStore := MkTrustStore {
  ts_memory : MemoryStore;
  ts_trust : MemoryPluginTrustStateV1;
}.

Record AdmittedPluginReleaseReceiptV1 := MkAdmitReceipt {
  adr_decision : RetainedReleaseDecisionV1;
  adr_outcome : PluginTrustCommitOutcomeV1;
}.

Record PluginRollbackReceiptV1 := MkRollbackReceipt {
  rbr_facts : RollbackFactsV1;
  rbr_outcome : PluginTrustCommitOutcomeV1;
}.

(** Faults the adapter's tests inject; the port passes [faults_none]. *)
Record MemoryFaultsV1 := MkFaults {
  before_append : option RegistryError.PluginTrustPolicyRegistryErrorV1;
  after_commit : option RegistryError.PluginTrustPolicyRegistryErrorV1;
}.

Definition faults_none : MemoryFaultsV1 := MkFaults None None.

Definition TrustWrite (A : Type) : Type := TrustStore * RegistryResult A.

Definition on_store_of (m : TrustStore) (s : Store) : TrustStore :=
  MkTrustStore (MkMemoryStore s (ms_fallback (ts_memory m))) (ts_trust m).

Section Memory.
Context `{Blake3} `{Hasher} `{UlidText} `{Ed25519} `{Ciborium} `{HexText}.

Definition append_activation_event (m : TrustStore) (activation : ActivationEventInputV1)
    (id : EventId) (now : Z) : TrustWrite ActivationEventIdentityV1 :=
  let timeline := act_timeline activation in
  let digest := act_payload_digest activation in
  if negb (bool_decide (hash_payload (draft_payload (act_draft activation)) = digest))
  then (m, Err RegistryError.ActivationEventRejected)
  else
    let (s', appended) := guarded_generic_append (ms_store (ts_memory m)) timeline
                            [MkFresh (act_draft activation) id now] in
    (on_store_of m s',
     match appended with
     | Ok (event :: _) => Ok (activation_from_event timeline event digest)
     | _ => Err RegistryError.ActivationEventRejected
     end).

(** [fenced.or(Err(ActivationEventRejected)).and_then(identity)]. *)
Definition in_activation_fence {A} (timeline : TimelineId) (operation : TrustStore -> TrustWrite A)
    (m : TrustStore) : TrustWrite A :=
  let (m', fenced) := with_erasure_fence_on (fun m => ms_store (ts_memory m)) timeline OpAppend
    (fun m => let (m', r) := operation m in (m', Ok r)) m in
  (m', let? inner := map_err (fun _ => RegistryError.ActivationEventRejected) fenced in inner).

Definition with_trust_scope {A} (m : TrustStore) (scope : RString)
    (apply : MemoryScopeV1 -> MemoryScopeV1) (value : RegistryResult A) : TrustWrite A :=
  let (t', r) := with_scope (ts_trust m) scope apply in
  (MkTrustStore (ts_memory m) t', let? _ := r in value).

Definition fail_with {A} (fault : option RegistryError.PluginTrustPolicyRegistryErrorV1) (value : A)
    : RegistryResult A := match fault with Some e => Err e | None => Ok value end.

Definition admit_fenced (m : TrustStore) (input : PolicyInputV1)
    (projection : ValidatedPluginManifestProjectionV1)
    (release_proof : VerifiedPluginReleaseSignatureV1) (activation : ActivationEventInputV1)
    (faults : MemoryFaultsV1) (id : EventId) (now : Z) : TrustWrite AdmittedPluginReleaseReceiptV1 :=
  let scope := pa_scope (in_anchor input) in
  match plan_admit (memory_transaction (ts_trust m)) input projection release_proof activation with
  | Err e => (m, Err e)
  | Ok (AdmitReplay decision) =>
      with_trust_scope m scope (raise_utc (in_utc input))
        (Ok (MkAdmitReceipt decision TrustIdempotentReplay))
  | Ok (AdmitCommit c) =>
      match before_append faults with
      | Some e => (m, Err e)
      | None =>
          match append_activation_event m activation id now with
          | (m', Err e) => (m', Err e)
          | (m', Ok event) =>
              let writes := admit_finish c event in
              with_trust_scope m' scope (commit_admit writes)
                (fail_with (after_commit faults) (MkAdmitReceipt (aw_decision writes) TrustCommitted))
          end
      end
  end.

Definition admit_with_faults (m : TrustStore) (input : PolicyInputV1)
    (projection : ValidatedPluginManifestProjectionV1)
    (release_proof : VerifiedPluginReleaseSignatureV1) (activation : ActivationEventInputV1)
    (faults : MemoryFaultsV1) (id : EventId) (now : Z) : TrustWrite AdmittedPluginReleaseReceiptV1 :=
  in_activation_fence (act_timeline activation)
    (fun m => admit_fenced m input projection release_proof activation faults id now) m.

Definition rollback_fenced (m : TrustStore) (input : PolicyInputV1)
    (target : ValidatedPluginManifestProjectionV1)
    (release_proof : VerifiedPluginReleaseSignatureV1) (activation : ActivationEventInputV1)
    (faults : MemoryFaultsV1) (id : EventId) (now : Z) : TrustWrite PluginRollbackReceiptV1 :=
  let scope := pa_scope (in_anchor input) in
  match plan_rollback (memory_transaction (ts_trust m)) input target release_proof activation with
  | Err e => (m, Err e)
  | Ok (RollbackReplay facts) =>
      with_trust_scope m scope (raise_utc (in_utc input))
        (Ok (MkRollbackReceipt facts TrustIdempotentReplay))
  | Ok (RollbackCommit c) =>
      match before_append faults with
      | Some e => (m, Err e)
      | None =>
          match append_activation_event m activation id now with
          | (m', Err e) => (m', Err e)
          | (m', Ok event) =>
              let writes := rollback_finish c event in
              with_trust_scope m' scope (commit_rollback writes)
                (fail_with (after_commit faults) (MkRollbackReceipt (rw_facts writes) TrustCommitted))
          end
      end
  end.

Definition rollback_with_faults (m : TrustStore) (input : PolicyInputV1)
    (target : ValidatedPluginManifestProjectionV1)
    (release_proof : VerifiedPluginReleaseSignatureV1) (activation : ActivationEventInputV1)
    (faults : MemoryFaultsV1) (id : EventId) (now : Z) : TrustWrite PluginRollbackReceiptV1 :=
  in_activation_fence (act_timeline activation)
    (fun m => rollback_fenced m input target release_proof activation faults id now) m.

(** ** The port *)

Definition trust_provision (m : TrustStore) (anchor : PluginTrustPolicyAnchorV1)
    (tps1_bytes : list byte) : TrustWrite ProvisionOutcomeV1 :=
  match plan_provision (memory_transaction (ts_trust m)) anchor tps1_bytes with
  | Err e => (m, Err e)
  | Ok None => (m, Ok ScopeUnchanged)
  | Ok (Some write) => (MkTrustStore (ts_memory m) (insert_scope (ts_trust m) write), Ok ScopeCreated)
  end.

(** [admit] of the port. *)
Definition admit_release (m : TrustStore) (anchor : PluginTrustPolicyAnchorV1) (tps1_bytes : list byte)
    (evidence : VerifiedPluginTrustEvidenceV1) (projection : ValidatedPluginManifestProjectionV1)
    (release_proof : VerifiedPluginReleaseSignatureV1) (trusted_utc tick : Z)
    (activation : ActivationEventInputV1) (id : EventId) (now : Z)
    : TrustWrite AdmittedPluginReleaseReceiptV1 :=
  admit_with_faults m (MkPolicyInput anchor tps1_bytes evidence trusted_utc tick) projection
    release_proof activation faults_none id now.

Definition advance_policy (m : TrustStore) (anchor : PluginTrustPolicyAnchorV1)
    (tps1_bytes : list byte) (evidence : VerifiedPluginTrustEvidenceV1) (trusted_utc tick : Z)
    : TrustWrite PolicyAdvanceOutcomeV1 :=
  let input := MkPolicyInput anchor tps1_bytes evidence trusted_utc tick in
  match plan_advance (memory_transaction (ts_trust m)) input with
  | Err e => (m, Err e)
  | Ok plan => with_trust_scope m (pa_scope anchor) (commit_advance plan) (Ok (ap_outcome plan))
  end.

Definition rollback (m : TrustStore) (anchor : PluginTrustPolicyAnchorV1) (tps1_bytes : list byte)
    (evidence : VerifiedPluginTrustEvidenceV1) (target : ValidatedPluginManifestProjectionV1)
    (release_proof : VerifiedPluginReleaseSignatureV1) (trusted_utc tick : Z)
    (activation : ActivationEventInputV1) (id : EventId) (now : Z)
    : TrustWrite PluginRollbackReceiptV1 :=
  rollback_with_faults m (MkPolicyInput anchor tps1_bytes evidence trusted_utc tick) target
    release_proof activation faults_none id now.

Definition retained_release_decision (m : TrustStore) (scope : RString) (pmf1_digest : Hash)
    : RegistryResult (option RetainedReleaseDecisionV1) :=
  let? state := scope_state (ts_trust m) scope in Ok (msc_decisions state !! pmf1_digest).

Definition active_release (m : TrustStore) (scope plugin_id : RString)
    : RegistryResult (option ActiveReleaseV1) :=
  let? state := scope_state (ts_trust m) scope in Ok (msc_active state !! plugin_id).

Definition retained_policy_state (m : TrustStore) (scope : RString)
    : RegistryResult RetainedPolicyStateV1 :=
  let? state := scope_state (ts_trust m) scope in
  let policy := rs_policy (msc_retained state) in
  let? _ := map_err (fun _ => RegistryError.CorruptState)
              (from_retained (ps_ptr1_floor policy) (ps_prv1_floor policy)) in
  Ok policy.

Definition trust_ledger (m : TrustStore) (scope : RString) : RegistryResult (list PluginTrustLedgerRowV1) :=
  let? state := scope_state (ts_trust m) scope in Ok (msc_ledger state).

Definition evaluate_current_release (m : TrustStore) (anchor : PluginTrustPolicyAnchorV1)
    (tps1_bytes : list byte) (evidence : VerifiedPluginTrustEvidenceV1)
    (projection : ValidatedPluginManifestProjectionV1) (trusted_utc tick : Z)
    : RegistryResult CurrentReleaseEvaluationV1 :=
  plan_evaluate (memory_transaction (ts_trust m))
    (MkPolicyInput anchor tps1_bytes evidence trusted_utc tick) projection.
End Memory.
