(* ===== verification/TrustInvariant.v ===== *)
(** * The invariant of the Plugin trust registry

    What every plan of [TrustRegistry] establishes, the invariant [scope_ok] of
    a provisioned scope and its preservation by every registry operation. *)

From Stdlib Require Import String ZArith Lia Bool.
From S2P Require Import Prelude Text SortedMap Cbor FallbackRecords StrictCbor PluginTrust PluginTrustCodec PluginTrustChain WireSyntax TrustPolicy TrustBridge BridgeProperties.
From S2P Require Import ErasureGate Events EventStore StoreHistory StoreCorrect StoreProperties FallbackRegistry FallbackFold FallbackInvariant FallbackReach TrustRegistry.

Local Open Scope Z_scope.

Section Invariant.
Context `{Blake3} `{Hasher} `{UlidText} `{Ed25519} `{Ciborium} `{HexText}.
Implicit Types (t : MemoryPluginTrustStateV1) (m : TrustStore) (s : MemoryScopeV1).

(** ** What the checks establish *)

Definition policy_of s : RetainedPolicyStateV1 := rs_policy (msc_retained s).

(** The retained policy stems from the retained snapshot bytes. *)
Definition policy_authentic (anchor : PluginTrustPolicyAnchorV1) (p : RetainedPolicyStateV1) : Prop :=
  exists a, authenticate_plugin_tps1_v1 anchor (ps_tps1_bytes p) = Ok a
    /\ ps_tps1_epoch p = tps_epoch a /\ ps_tps1_digest p = tps_digest a
    /\ ps_tps1_effective_position p = tps_position a.

Record prefix_facts t input (checked : CheckedPolicyV1) (c : Continuity) s : Prop := {
  pf_scope : t !! pa_scope (in_anchor input) = Some s;
  pf_anchor : rs_anchor (msc_retained s) = in_anchor input;
  pf_retained : cp_scope checked = msc_retained s;
  pf_floors : from_retained (ps_ptr1_floor (policy_of s)) (ps_prv1_floor (policy_of s))
              = Ok (cp_floors checked);
  pf_utc : forall u, ps_highest_trusted_utc_second (policy_of s) = Some u -> u <= in_utc input;
  pf_tps1 : authenticate_plugin_tps1_v1 (in_anchor input) (in_tps1_bytes input) = Ok (cp_tps1 checked);
  pf_continuity : match c with
    | Retained => in_tps1_bytes input = ps_tps1_bytes (policy_of s)
    | Successor => ps_tps1_epoch (policy_of s) < tps_epoch (cp_tps1 checked)
        /\ previous_snapshot_digest (tps_snapshot (cp_tps1 checked)) = Some (ps_tps1_digest (policy_of s))
    end;
}.

Lemma registry_check_ok b e : registry_check b e = Ok tt <-> b = true.
Proof. unfold registry_check. by destruct b. Qed.

Lemma successor_ok epoch digest a :
  check_plugin_tps1_successor_v1 epoch digest a = Ok tt ->
  epoch < tps_epoch a /\ previous_snapshot_digest (tps_snapshot a) = Some digest.
Proof. unfold check_plugin_tps1_successor_v1. intros Hc. ok_inv. by bool_props. Qed.

Lemma check_policy_prefix_ok t input checked c :
  check_policy_prefix (memory_transaction t) input = Ok (checked, c) ->
  exists s, prefix_facts t input checked c s.
Proof.
  unfold check_policy_prefix, from_bridge. cbn [tx_scope memory_transaction]. intros Hc. ok_inv.
  destruct (t !! pa_scope (in_anchor input)) as [s|] eqn:Hs; [|done]. cbn [fmap option_fmap option_map] in *.
  ok_inv. bool_props. exists s.
  match goal with Ha : authenticate_plugin_tps1_v1 _ _ = Ok _ |- _ =>
    destruct (authenticate_ok _ _ _ Ha) as (_ & _ & Hbytes & _) end.
  split; try done.
  - intros u Hu. unfold policy_of in Hu. rewrite Hu in *. by bool_props.
  - destruct (decide _); ok_inv; [by rewrite <- Hbytes|]. by apply successor_ok.
Qed.

Lemma check_policy_ok t input checked :
  check_policy (memory_transaction t) input = Ok checked ->
  exists c s, prefix_facts t input checked c s
    /\ verify_plugin_tps1_policy_v1 (cp_tps1 checked) (in_evidence input) (in_utc input) (in_tick input)
       = Ok tt.
Proof.
  unfold check_policy, check_bridge, from_bridge. intros Hc. ok_inv.
  match goal with Hp : check_policy_prefix _ _ = Ok _ |- _ => apply check_policy_prefix_ok in Hp as [s Hs] end.
  eauto.
Qed.

Record release_facts input projection (proof : VerifiedPluginReleaseSignatureV1)
    (checked : CheckedPolicyV1) (auth : ResolvedPluginTrustAuthorizationV1) : Prop := {
  rf_authorized : authorize_release (in_evidence input) projection = Ok auth;
  rf_proof : (proof_pmf1_digest proof, proof_release_digest proof, proof_public_key proof)
             = (auth_pmf1_digest auth, auth_release_digest auth, auth_public_key auth);
  rf_undenied : check_plugin_tps1_artifact_denial_v1 (cp_tps1 checked) auth = Ok tt;
  rf_floors : exists plan, plan_plugin_floor_transition_v1 (cp_floors checked) (in_evidence input) = Ok plan;
}.

Lemma check_release_ok t input projection proof checked auth :
  check_release (memory_transaction t) input projection proof = Ok (checked, auth) ->
  check_policy (memory_transaction t) input = Ok checked
  /\ release_facts input projection proof checked auth.
Proof.
  unfold check_release, check_proven_release, check_authorized_release, check_release_proof, from_trust,
    from_bridge, from_floor. intros Hc. ok_inv. rewrite registry_check_ok in *. bool_props.
  split; [done|]. split; try done. by eexists.
Qed.

(** ** Floors and their plans *)

Local Arguments plugin_floor_transition_v1 : simpl never.

Definition floors_le (a b : option FloorPair) : Prop :=
  match a, b with Some x, Some y => floor_le x y | Some _, None => False | None, _ => True end.

Lemma floors_le_refl a : floors_le a a.
Proof. destruct a; simpl; [apply floor_le_refl|done]. Qed.

Lemma floor_plan_le state e plan root revocation :
  plan_plugin_floor_transition_v1 state e = Ok plan -> from_retained root revocation = Ok state ->
  floors_le root (Some (terminal_root e)) /\ floors_le revocation (Some (terminal_revocation e)).
Proof.
  unfold plan_plugin_floor_transition_v1, from_retained. intros Hp Hf.
  destruct root as [r|], revocation as [v|]; [|done..|by split]. injection Hf as <-. ok_inv.
  apply floor_transition_ok in Hm, Hm0. unfold floors_le, floor_le. naive_solver.
Qed.

(** ** The order of policies *)

Record policy_le (p p' : RetainedPolicyStateV1) : Prop := {
  ple_snapshot : (ps_tps1_bytes p = ps_tps1_bytes p' /\ ps_tps1_epoch p = ps_tps1_epoch p'
                  /\ ps_tps1_digest p = ps_tps1_digest p')
                 \/ ps_tps1_epoch p < ps_tps1_epoch p';
  ple_root : floors_le (ps_ptr1_floor p) (ps_ptr1_floor p');
  ple_revocation : floors_le (ps_prv1_floor p) (ps_prv1_floor p');
  ple_utc : forall u, ps_highest_trusted_utc_second p = Some u ->
    exists u', ps_highest_trusted_utc_second p' = Some u' /\ u <= u';
}.

Lemma policy_le_refl p : policy_le p p.
Proof. split; [by left|apply floors_le_refl|apply floors_le_refl|]. intros u Hu. exists u. split; [done|lia]. Qed.

Lemma floors_le_trans a b c : floors_le a b -> floors_le b c -> floors_le a c.
Proof. destruct a, b, c; simpl; try done. apply floor_le_trans. Qed.

Lemma policy_le_trans p q r : policy_le p q -> policy_le q r -> policy_le p r.
Proof.
  intros [Hs1 Hr1 Hv1 Hu1] [Hs2 Hr2 Hv2 Hu2]. split; [|by eapply floors_le_trans..|].
  - destruct Hs1 as [(Hb1 & He1 & Hd1)|], Hs2 as [(Hb2 & He2 & Hd2)|]; [left; split_and!; congruence|right; lia..].
  - intros u Hu. destruct (Hu1 u Hu) as (u' & Hu' & Hle). destruct (Hu2 u' Hu') as (u'' & ? & ?).
    exists u''. split; [done|lia].
Qed.

(** A write whose plan passed the checks moves the policy forward. *)
Lemma write_policy_le t input checked c s plan :
  prefix_facts t input checked c s -> policy_authentic (in_anchor input) (policy_of s) ->
  plan_plugin_floor_transition_v1 (cp_floors checked) (in_evidence input) = Ok plan ->
  policy_le (policy_of s) (write_apply (policy_write (cp_tps1 checked) input) (policy_of s)).
Proof.
  intros Hp (a & Ha & He & Hd & _) Hf. pose proof (pf_tps1 _ _ _ _ _ Hp) as Ht.
  destruct (floor_plan_le _ _ _ _ _ Hf (pf_floors _ _ _ _ _ Hp)) as [Hroot Hrev].
  split; cbn [write_apply policy_write ps_tps1_bytes ps_tps1_epoch ps_tps1_digest ps_ptr1_floor
    ps_prv1_floor ps_highest_trusted_utc_second pw_tps1 pw_root pw_revocation pw_utc].
  - pose proof (pf_continuity _ _ _ _ _ Hp) as Hc. destruct c; [left|right; by destruct Hc].
    rewrite Hc in Ht. rewrite Ht in Ha. injection Ha as <-.
    destruct (authenticate_ok _ _ _ Ht) as (_ & _ & -> & _). done.
  - done.
  - done.
  - intros u Hu. exists (in_utc input). split; [done|]. by apply (pf_utc _ _ _ _ _ Hp).
Qed.

Lemma write_policy_authentic anchor a input p :
  authenticate_plugin_tps1_v1 anchor (in_tps1_bytes input) = Ok a ->
  policy_authentic anchor (write_apply (policy_write a input) p).
Proof.
  intros Ha. exists a. destruct (authenticate_ok _ _ _ Ha) as (_ & _ & Hb & _).
  cbn [write_apply policy_write ps_tps1_bytes ps_tps1_epoch ps_tps1_digest ps_tps1_effective_position pw_tps1].
  by rewrite Hb.
Qed.

(** ** Verified evidence *)

(** [VerifiedPluginTrustEvidenceV1] has no other constructor. *)
Definition verified_evidence (e : VerifiedPluginTrustEvidenceV1) : Prop :=
  exists anchor root_bytes revocation_bytes utc tick,
    verify_plugin_trust_v1 anchor root_bytes revocation_bytes utc tick = Ok e.

Lemma verified_root_keys e : verified_evidence e -> evd_root_keys e <> [].
Proof.
  intros (anchor & rb & vb & utc & tick & Hv). unfold verify_plugin_trust_v1 in Hv. ok_inv.
  apply verify_root_history_valid in Hm. apply last_Some in Hm1 as [l ->].
  apply Forall_app in Hm as [_ Hr]. apply (proj1 (Forall_singleton _ _)) in Hr.
  unfold root_valid, root_prefix_valid in Hr. bool_props. cbn [evd_root_keys].
  intros He. match goal with Hl : root_threshold _ <= len (root_keys _) |- _ => rewrite He in Hl; len_lia end.
Qed.

(** ** Scopes *)

(** A ledger row records a policy. *)
Definition row_of (row : PluginTrustLedgerRowV1) (p : RetainedPolicyStateV1) : Prop :=
  tr_tps1_digest row = ps_tps1_digest p /\ tr_tps1_epoch row = ps_tps1_epoch p
  /\ tr_tps1_effective_position row = ps_tps1_effective_position p
  /\ tr_ptr1_floor row = ps_ptr1_floor p /\ tr_prv1_floor row = ps_prv1_floor p.

(** Rows never record an older policy than a row before them. *)
Definition row_le (a b : PluginTrustLedgerRowV1) : Prop :=
  tr_tps1_epoch a <= tr_tps1_epoch b /\ floors_le (tr_ptr1_floor a) (tr_ptr1_floor b)
  /\ floors_le (tr_prv1_floor a) (tr_prv1_floor b).

(** Both floors or none; present floors belong to the retained snapshot. *)
Definition floors_ok (anchor : PluginTrustPolicyAnchorV1) (p : RetainedPolicyStateV1) : Prop :=
  match ps_ptr1_floor p, ps_prv1_floor p with
  | None, None => True
  | Some root, Some revocation =>
      revocation.1 = ps_tps1_epoch p
      /\ forall a, authenticate_plugin_tps1_v1 anchor (ps_tps1_bytes p) = Ok a ->
         bridged_version (tps_snapshot a) root.1
  | _, _ => False
  end.

Definition active_of (key : RString) (c : ReleaseColumnsV1) : ActiveReleaseV1 :=
  MkActive key (rc_plugin_id c) (rc_pmf1_digest c) (rc_release_digest c) (rc_event c).

Record scope_ok (key : RString) s : Prop := {
  so_key : ps_scope (policy_of s) = key;
  so_anchor : pa_scope (rs_anchor (msc_retained s)) = key;
  so_policy : policy_authentic (rs_anchor (msc_retained s)) (policy_of s);
  so_floors : floors_ok (rs_anchor (msc_retained s)) (policy_of s);
  so_numbered i row : msc_ledger s !! i = Some row -> tr_row_seq row = Z.of_nat i + 1;
  so_provision i row : msc_ledger s !! i = Some row -> tr_body row = RowProvision <-> i = 0%nat;
  so_last : exists row, last (msc_ledger s) = Some row /\ row_of row (policy_of s);
  so_sorted i j a b : msc_ledger s !! i = Some a -> msc_ledger s !! j = Some b -> (i <= j)%nat -> row_le a b;
  so_decisions d dec : msc_decisions s !! d = Some dec
    <-> exists row previous, row ∈ msc_ledger s /\ tr_body row = RowAdmission dec previous
        /\ dec_pmf1_digest dec = d;
  so_active p a : msc_active s !! p = Some a
    <-> exists row c, latest_release_row p s = Some row /\ body_release (tr_body row) = Some c
        /\ rc_plugin_id c = p /\ a = active_of key c;
  so_admitted p a : msc_active s !! p = Some a -> is_Some (msc_decisions s !! av_pmf1_digest a);
}.

Lemma floors_le_antisym_row a : row_le a a.
Proof. split_and!; [lia|apply floors_le_refl..]. Qed.

Lemma row_le_trans a b c : row_le a b -> row_le b c -> row_le a c.
Proof. intros (? & ? & ?) (? & ? & ?). split_and!; [lia|by eapply floors_le_trans..]. Qed.

Lemma row_le_policy a b p q : row_of a p -> row_of b q -> policy_le p q -> row_le a b.
Proof.
  intros (_ & He & _ & Hr & Hv) (_ & He' & _ & Hr' & Hv') Hle. unfold row_le.
  rewrite He, He', Hr, Hr', Hv, Hv'. split_and!; [|apply (ple_root _ _ Hle)|apply (ple_revocation _ _ Hle)].
  destruct (ple_snapshot _ _ Hle) as [(_ & ? & _)|]; lia.
Qed.

(** ** A new ledger row *)

Definition extend_scope s (p : RetainedPolicyStateV1) (row : PluginTrustLedgerRowV1) : MemoryScopeV1 :=
  MkMemoryScope (MkRetainedScope (rs_anchor (msc_retained s)) p)
    (match tr_body row with
     | RowAdmission dec _ => <[dec_pmf1_digest dec := dec]> (msc_decisions s)
     | _ => msc_decisions s end)
    (match body_release (tr_body row) with
     | Some c => <[rc_plugin_id c := active_of (ps_scope p) c]> (msc_active s)
     | None => msc_active s end)
    (msc_ledger s ++ [row]).

Lemma latest_release_row_snoc p s s' row :
  msc_ledger s' = msc_ledger s ++ [row] ->
  latest_release_row p s' = if decide (row_plugin_id row = Some p) then Some row else latest_release_row p s.
Proof.
  intros Hl. unfold latest_release_row. rewrite Hl, rev_app_distr. simpl.
  case_bool_decide; by case_decide.
Qed.

(** What the row may be, given the scope. *)
Definition row_fits s (row : PluginTrustLedgerRowV1) : Prop :=
  match tr_body row with
  | RowProvision => False
  | RowAdvance _ _ => True
  | RowAdmission dec _ => msc_decisions s !! dec_pmf1_digest dec = None
  | RowRollback f => is_Some (msc_decisions s !! rbf_target_pmf1_digest f)
  end.

Lemma extend_decisions key s p row :
  scope_ok key s -> row_fits s row ->
  forall d dec, msc_decisions (extend_scope s p row) !! d = Some dec
    <-> exists row' previous, row' ∈ msc_ledger s ++ [row] /\ tr_body row' = RowAdmission dec previous
        /\ dec_pmf1_digest dec = d.
Proof.
  intros Hok Hfit d dec. setoid_rewrite elem_of_app. setoid_rewrite list_elem_of_singleton.
  unfold row_fits in Hfit. cbn [extend_scope msc_decisions].
  assert (Hold : msc_decisions s !! d = Some dec -> exists row' previous,
    (row' ∈ msc_ledger s \/ row' = row) /\ tr_body row' = RowAdmission dec previous /\ dec_pmf1_digest dec = d).
  { intros Hd. apply (so_decisions _ _ Hok) in Hd as (r & q & Hr & Hb & Hd). exists r, q. auto. }
  assert (Hback : forall r q, r ∈ msc_ledger s -> tr_body r = RowAdmission dec q -> dec_pmf1_digest dec = d ->
    msc_decisions s !! d = Some dec).
  { intros r q Hr Hb Hd. apply (so_decisions _ _ Hok). by exists r, q. }
  destruct (tr_body row) as [|u k|dec0 q0|f] eqn:Hrow; [done| | |].
  1,3: split; [done|]; intros (r & q & [Hr| ->] & Hb & Hd); [by eapply Hback|congruence].
  destruct (decide (d = dec_pmf1_digest dec0)) as [->|Hne].
  - rewrite lookup_insert_eq. split.
    + intros [= <-]. exists row, q0. auto.
    + intros (r & q & [Hr| ->] & Hb & Hd); [|congruence]. exfalso.
      pose proof (Hback _ _ Hr Hb Hd). congruence.
  - rewrite lookup_insert_ne by done. split; [done|].
    intros (r & q & [Hr| ->] & Hb & Hd); [by eapply Hback|]. congruence.
Qed.

Lemma extend_active key s p row :
  scope_ok key s -> ps_scope p = key ->
  forall pl a, msc_active (extend_scope s p row) !! pl = Some a
    <-> exists row' c, latest_release_row pl (extend_scope s p row) = Some row'
        /\ body_release (tr_body row') = Some c /\ rc_plugin_id c = pl /\ a = active_of key c.
Proof.
  intros Hok Hkey pl a. rewrite (latest_release_row_snoc pl s _ row) by done.
  unfold row_plugin_id. cbn [extend_scope msc_active]. rewrite Hkey.
  destruct (body_release (tr_body row)) as [c|] eqn:Hc; simpl.
  - destruct (decide (rc_plugin_id c = pl)) as [<-|Hne].
    + rewrite lookup_insert_eq, decide_True by done. split.
      * intros [= <-]. by exists row, c.
      * intros (r & c' & [= <-] & Hc' & _ & ->). congruence.
    + rewrite lookup_insert_ne, decide_False by congruence. apply (so_active _ _ Hok).
  - apply (so_active _ _ Hok).
Qed.

Lemma next_row_seq_numbered key s :
  scope_ok key s -> len (msc_ledger s) < U64_MAX -> next_row_seq s = len (msc_ledger s) + 1.
Proof.
  intros Hok Hlen. unfold next_row_seq. destruct (so_last _ _ Hok) as (row & Hlast & _). rewrite Hlast.
  rewrite last_lookup in Hlast. rewrite (so_numbered _ _ Hok _ _ Hlast).
  apply lookup_lt_Some in Hlast. unfold len in *. unfold u64_wrap, U64_MAX in *.
  change 18446744073709551615 with (Z.ones 64). rewrite Z.land_ones, Z.mod_small by lia. lia.
Qed.

Lemma extend_scope_ok key s p row :
  scope_ok key s -> len (msc_ledger s) < U64_MAX ->
  ps_scope p = key -> policy_le (policy_of s) p -> policy_authentic (rs_anchor (msc_retained s)) p ->
  floors_ok (rs_anchor (msc_retained s)) p -> row_of row p -> tr_row_seq row = next_row_seq s ->
  row_fits s row -> scope_ok key (extend_scope s p row).
Proof.
  intros Hok Hlen Hkey Hle Hauth Hfl Hrow Hseq Hfit.
  pose proof (next_row_seq_numbered _ _ Hok Hlen) as Hnext.
  destruct (so_last _ _ Hok) as (old & Hlast & Hold).
  split; try done.
  - by apply (so_anchor _ _ Hok).
  - cbn [extend_scope msc_ledger]. intros i r [[_ Hi]|[-> <-]]%lookup_snoc_Some.
    + by apply (so_numbered _ _ Hok).
    + rewrite Hseq, Hnext. unfold len. lia.
  - cbn [extend_scope msc_ledger]. intros i r [[_ Hi]|[-> <-]]%lookup_snoc_Some.
    + by apply (so_provision _ _ Hok).
    + unfold row_fits in Hfit. split; [intros Hb; by rewrite Hb in Hfit|]. intros Hz.
      apply nil_length_inv in Hz. by rewrite Hz in Hlast.
  - exists row. cbn [extend_scope msc_ledger]. by rewrite last_snoc.
  - cbn [extend_scope msc_ledger].
    assert (Hbelow : forall i r, msc_ledger s !! i = Some r -> row_le r row).
    { intros i r Hr. eapply row_le_trans; [|by eapply row_le_policy].
      rewrite last_lookup in Hlast. eapply (so_sorted _ _ Hok); [done..|]. apply lookup_lt_Some in Hr. lia. }
    intros i j a b [[_ Hi]|[-> <-]]%lookup_snoc_Some [[_ Hj]|[-> <-]]%lookup_snoc_Some Hij.
    + by eapply (so_sorted _ _ Hok).
    + by eapply Hbelow.
    + apply lookup_lt_Some in Hj. lia.
    + apply floors_le_antisym_row.
  - by apply (extend_decisions key).
  - by apply extend_active.
  - intros pl a Ha. cbn [extend_scope msc_active msc_decisions] in *. unfold row_fits in Hfit.
    destruct (tr_body row) as [|u k|dec q|f] eqn:Hb; cbn [body_release] in Ha; [done|by eapply (so_admitted _ _ Hok)|..].
    + destruct (decide (av_pmf1_digest a = dec_pmf1_digest dec)) as [->|Hne]; [by rewrite lookup_insert_eq; eexists|].
      rewrite lookup_insert_ne by done. apply lookup_insert_Some in Ha as [[_ <-]|[_ Ha]]; [done|].
      by eapply (so_admitted _ _ Hok).
    + apply lookup_insert_Some in Ha as [[_ <-]|[_ Ha]]; [done|]. by eapply (so_admitted _ _ Hok).
Qed.

(** ** The same policy at a later second *)

Definition at_utc (u : Z) (p : RetainedPolicyStateV1) : RetainedPolicyStateV1 :=
  MkPolicyState (ps_scope p) (ps_tps1_epoch p) (ps_tps1_digest p) (ps_tps1_effective_position p)
    (ps_tps1_bytes p) (ps_ptr1_floor p) (ps_prv1_floor p) (Some u).

Definition touch_scope (u : Z) s : MemoryScopeV1 :=
  MkMemoryScope (MkRetainedScope (rs_anchor (msc_retained s)) (at_utc u (policy_of s)))
    (msc_decisions s) (msc_active s) (msc_ledger s).

Lemma touch_scope_ok key u s : scope_ok key s -> scope_ok key (touch_scope u s).
Proof. intros []. by split. Qed.

(** ** The registry operations on a scope *)

Definition scopes_ok t : Prop := forall key s, t !! key = Some s -> scope_ok key s.

(** There is room for one more ledger row. *)
Definition row_room t (key : RString) : Prop :=
  forall s, t !! key = Some s -> len (msc_ledger s) < U64_MAX.

(** The offered snapshot does not collide with the retained one. *)
Definition no_snapshot_collision t (anchor : PluginTrustPolicyAnchorV1) (bytes : list byte) : Prop :=
  forall s, t !! pa_scope anchor = Some s -> blake3 bytes = ps_tps1_digest (policy_of s) ->
    bytes = ps_tps1_bytes (policy_of s).

Lemma scopes_ok_insert t key s : scopes_ok t -> scope_ok key s -> scopes_ok (<[key := s]> t).
Proof. intros Ht Hs k s' [[<- <-]|[_ Hk]]%lookup_insert_Some; [done|by apply Ht]. Qed.

Definition written t input (checked : CheckedPolicyV1) s : RetainedPolicyStateV1 :=
  write_apply (policy_write (cp_tps1 checked) input) (policy_of s).

(** The policy a checked write installs. *)
Lemma written_ok t input checked c s plan :
  scopes_ok t -> prefix_facts t input checked c s -> verified_evidence (in_evidence input) ->
  verify_plugin_tps1_policy_v1 (cp_tps1 checked) (in_evidence input) (in_utc input) (in_tick input) = Ok tt ->
  plan_plugin_floor_transition_v1 (cp_floors checked) (in_evidence input) = Ok plan ->
  let p := written t input checked s in
  scope_ok (pa_scope (in_anchor input)) s /\ ps_scope p = pa_scope (in_anchor input)
  /\ policy_le (policy_of s) p
  /\ policy_authentic (rs_anchor (msc_retained s)) p /\ floors_ok (rs_anchor (msc_retained s)) p.
Proof.
  intros Ht Hp He Hv Hf p. pose proof (Ht _ _ (pf_scope _ _ _ _ _ Hp)) as Hok.
  pose proof (pf_tps1 _ _ _ _ _ Hp) as Ha. pose proof (authenticate_valid _ _ _ Ha) as Hval.
  pose proof (pf_anchor _ _ _ _ _ Hp) as Hanchor.
  split_and!; [done|by apply (so_key _ _ Hok)| |rewrite Hanchor; by apply write_policy_authentic|].
  - eapply write_policy_le; [done| |done]. rewrite <- Hanchor. apply (so_policy _ _ Hok).
  - destruct (verify_policy_ok _ _ _ _ Hv) as (_ & Hepoch & _). split; [done|].
    intros a Ha'. rewrite Hanchor in Ha'. destruct (authenticate_ok _ _ _ Ha) as (_ & _ & Hb & _).
    cbn [p written write_apply policy_write ps_tps1_bytes pw_tps1] in Ha'. rewrite Hb, Ha in Ha'.
    injection Ha' as <-. eapply bridged_version_of_policy; [done|by apply verified_root_keys|done].
Qed.

(** An identical snapshot cannot move a floor: it binds the PTR1 version and
    the PRV1 epoch. *)
Lemma identical_snapshot_keeps_floors t input checked c s plan :
  scopes_ok t -> prefix_facts t input checked c s -> verified_evidence (in_evidence input) ->
  verify_plugin_tps1_policy_v1 (cp_tps1 checked) (in_evidence input) (in_utc input) (in_tick input) = Ok tt ->
  plan_plugin_floor_transition_v1 (cp_floors checked) (in_evidence input) = Ok plan ->
  in_tps1_bytes input = ps_tps1_bytes (policy_of s) -> cp_floors checked <> FloorsAbsent ->
  written t input checked s = at_utc (in_utc input) (policy_of s)
  /\ plan = MkFloorPlan FloorUnchanged FloorUnchanged.
Proof.
  intros Ht Hp He Hv Hf Hbytes Hne. pose proof (Ht _ _ (pf_scope _ _ _ _ _ Hp)) as Hok.
  pose proof (pf_tps1 _ _ _ _ _ Hp) as Ha. pose proof (pf_anchor _ _ _ _ _ Hp) as Hanchor.
  destruct (so_policy _ _ Hok) as (a & Ha' & He' & Hd' & Hpos'). pose proof (so_floors _ _ Hok) as Hfl.
  rewrite Hanchor in *. rewrite Hbytes in Ha. rewrite Ha' in Ha. injection Ha as ->.
  destruct (authenticate_ok _ _ _ Ha') as (_ & _ & Hb & _).
  pose proof (bridged_version_of_policy _ _ _ _ (authenticate_valid _ _ _ Ha') (verified_root_keys _ He) Hv) as Hver.
  destruct (verify_policy_ok _ _ _ _ Hv) as (_ & Hepoch & _).
  pose proof (pf_floors _ _ _ _ _ Hp) as Hret. unfold floors_ok in Hfl. unfold from_retained in Hret.
  destruct (ps_ptr1_floor (policy_of s)) as [root|] eqn:Hr, (ps_prv1_floor (policy_of s)) as [rev|] eqn:Hrv;
    try done; injection Hret as Hret; [|by rewrite <- Hret in Hne].
  destruct Hfl as [Hrev1 Hroot]. specialize (Hroot _ Ha'). rewrite <- Hret in Hf.
  unfold plan_plugin_floor_transition_v1 in Hf. ok_inv.
  apply floor_transition_ok in Hm as [[-> Hm]|(_ & Hlt & _)];
    [|pose proof (bridged_version_unique _ _ _ Hver Hroot); unfold terminal_root in Hlt; simpl in Hlt; lia].
  apply floor_transition_ok in Hm0 as [[-> Hm0]|(_ & Hlt & _)];
    [|unfold terminal_revocation in Hlt; simpl in Hlt; lia].
  split; [|done]. unfold written, at_utc, write_apply, policy_write.
  cbn [pw_tps1 pw_root pw_revocation pw_utc]. rewrite Hb, <- He', <- Hd', <- Hpos', Hm, Hm0, Hr, Hrv. done.
Qed.

Lemma advance_scope_ok t input plan s :
  scopes_ok t -> row_room t (pa_scope (in_anchor input)) -> verified_evidence (in_evidence input) ->
  no_snapshot_collision t (in_anchor input) (in_tps1_bytes input) ->
  plan_advance (memory_transaction t) input = Ok plan -> t !! pa_scope (in_anchor input) = Some s ->
  scope_ok (pa_scope (in_anchor input)) (commit_advance plan s)
  /\ policy_le (policy_of s) (policy_of (commit_advance plan s)).
Proof.
  intros Ht Hroom He Hcol Hp Hs. unfold plan_advance, from_floor in Hp.
  apply rbind_ok_inv in Hp as (a & Hm & Hp). apply rbind_ok_inv in Hp as (fp & Hm0 & Hp).
  apply map_err_ok_inv in Hm0. cbv zeta in Hp. apply check_policy_ok in Hm as (c & s' & Hfacts & Hv).
  pose proof (pf_scope _ _ _ _ _ Hfacts) as Hs'. rewrite Hs in Hs'. injection Hs' as <-.
  destruct (written_ok _ _ _ _ _ _ Ht Hfacts He Hv Hm0) as (Hok & Hkey & Hle & Hauth & Hfl).
  destruct (_ || negb _) eqn:Hch in Hp.
  - cbn [tx_next_row_seq memory_transaction rbind] in Hp. rewrite Hs in Hp. ok_inv.
    split; [|exact Hle].
    change (commit_advance _ s) with (extend_scope s (written t input a s)
      (write_row (policy_write (cp_tps1 a) input) (next_row_seq s) (RowAdvance (in_utc input) (in_tick input)))).
    apply extend_scope_ok; try done. by apply Hroom.
  - ok_inv. apply orb_false_iff in Hch as [Hpres Hdig]. bool_props.
    pose proof (pf_tps1 _ _ _ _ _ Hfacts) as Ha. destruct (authenticate_ok _ _ _ Ha) as (_ & _ & _ & Hd & _).
    rewrite (pf_retained _ _ _ _ _ Hfacts), Hd in Hdig.
    destruct (identical_snapshot_keeps_floors _ _ _ _ _ _ Ht Hfacts He Hv Hm0) as [Hw _];
      [by apply Hcol|by destruct (cp_floors a)|].
    split; [|exact Hle]. unfold commit_advance, map_policy. cbn [ap_row ap_write]. rewrite app_nil_r.
    change (rs_policy (msc_retained s)) with (policy_of s). unfold written in Hw. rewrite Hw.
    by apply touch_scope_ok.
Qed.

(** The facts every release plan starts from. *)
Record planned_facts t input projection proof (checked : CheckedPolicyV1)
    (auth : ResolvedPluginTrustAuthorizationV1) c s : Prop := {
  pl_prefix : prefix_facts t input checked c s;
  pl_policy : verify_plugin_tps1_policy_v1 (cp_tps1 checked) (in_evidence input) (in_utc input)
                (in_tick input) = Ok tt;
  pl_release : release_facts input projection proof checked auth;
}.

Lemma check_release_facts t input projection proof checked auth :
  check_release (memory_transaction t) input projection proof = Ok (checked, auth) ->
  exists c s, planned_facts t input projection proof checked auth c s.
Proof.
  intros [Hc Hr]%check_release_ok. apply check_policy_ok in Hc as (c & s & Hp & Hv). by exists c, s.
Qed.

Definition admit_commit input (checked : CheckedPolicyV1) (auth : ResolvedPluginTrustAuthorizationV1) s
    : AdmitCommitV1 :=
  MkAdmitCommit (policy_write (cp_tps1 checked) input) (pa_scope (in_anchor input))
    (auth_plugin_id auth) (auth_pmf1_digest auth) (auth_release_digest auth)
    (auth_previous_release_digest auth) (av_pmf1_digest <$> msc_active s !! auth_plugin_id auth)
    (in_tick input) (next_row_seq s).

Lemma plan_admit_ok t input projection proof activation plan :
  plan_admit (memory_transaction t) input projection proof activation = Ok plan ->
  exists checked auth c s, planned_facts t input projection proof checked auth c s
    /\ match plan with
       | AdmitReplay dec => msc_decisions s !! auth_pmf1_digest auth = Some dec
           /\ same_decision_identity dec (cp_tps1 checked) input activation = true
       | AdmitCommit cm => msc_decisions s !! auth_pmf1_digest auth = None
           /\ chain_permits (msc_active s !! auth_plugin_id auth) auth = true
           /\ cm = admit_commit input checked auth s
       end.
Proof.
  unfold plan_admit. intros Hp. apply rbind_ok_inv in Hp as ([checked auth] & Hm & Hp).
  apply check_release_facts in Hm as (c & s & Hf). exists checked, auth, c, s. split; [done|].
  pose proof (pf_scope _ _ _ _ _ (pl_prefix _ _ _ _ _ _ _ _ Hf)) as Hs.
  cbn [memory_transaction tx_decision tx_active tx_next_row_seq rbind] in Hp. rewrite Hs in Hp.
  cbn [mbind option_bind] in Hp.
  destruct (msc_decisions s !! auth_pmf1_digest auth) as [dec|]; ok_inv; [done|].
  bool_props. done.
Qed.

Definition rollback_commit input (checked : CheckedPolicyV1) (auth : ResolvedPluginTrustAuthorizationV1)
    (active : ActiveReleaseV1) s : RollbackCommitV1 :=
  MkRollbackCommit (policy_write (cp_tps1 checked) input) (pa_scope (in_anchor input))
    (auth_plugin_id auth) (auth_pmf1_digest auth) (auth_release_digest auth) (av_pmf1_digest active)
    (in_tick input) (next_row_seq s).

Lemma plan_rollback_ok t input target proof activation plan :
  plan_rollback (memory_transaction t) input target proof activation = Ok plan ->
  exists checked auth c s active, planned_facts t input target proof checked auth c s
    /\ is_Some (msc_decisions s !! auth_pmf1_digest auth)
    /\ msc_active s !! auth_plugin_id auth = Some active
    /\ match plan with
       | RollbackReplay facts => av_pmf1_digest active = auth_pmf1_digest auth
           /\ identical_rollback (latest_release_row (auth_plugin_id auth) s) (auth_pmf1_digest auth)
                (cp_tps1 checked) input activation = Some facts
       | RollbackCommit cm => av_pmf1_digest active <> auth_pmf1_digest auth
           /\ cm = rollback_commit input checked auth active s
       end.
Proof.
  unfold plan_rollback. intros Hp. apply rbind_ok_inv in Hp as ([checked auth] & Hm & Hp).
  apply check_release_facts in Hm as (c & s & Hf).
  pose proof (pf_scope _ _ _ _ _ (pl_prefix _ _ _ _ _ _ _ _ Hf)) as Hs.
  cbn [memory_transaction tx_decision tx_active tx_next_row_seq tx_latest_release_row rbind] in Hp.
  rewrite Hs in Hp. cbn [mbind option_bind] in Hp.
  case_bool_decide as Hd; [done|]. destruct (msc_active s !! auth_plugin_id auth) as [active|] eqn:Ha; [|done].
  exists checked, auth, c, s, active. split_and!; [done|by destruct (msc_decisions s !! _); [eexists|]|done|].
  cbn [ok_or rbind] in Hp. destruct (decide _); ok_inv; [|done].
  destruct (identical_rollback _ _ _ _ _); [|done]. simpl in Hp. by ok_inv.
Qed.

Lemma admit_scope_ok t input projection proof checked auth c s event :
  scopes_ok t -> row_room t (pa_scope (in_anchor input)) -> verified_evidence (in_evidence input) ->
  planned_facts t input projection proof checked auth c s ->
  msc_decisions s !! auth_pmf1_digest auth = None ->
  let s' := commit_admit (admit_finish (admit_commit input checked auth s) event) s in
  scope_ok (pa_scope (in_anchor input)) s' /\ policy_le (policy_of s) (policy_of s').
Proof.
  intros Ht Hroom He [Hp Hv [_ _ _ [plan Hf]]] Hnone s'.
  destruct (written_ok _ _ _ _ _ _ Ht Hp He Hv Hf) as (Hok & Hkey & Hle & Hauth & Hfl).
  split; [|exact Hle].
  assert (s' = extend_scope s (written t input checked s)
    (aw_row (admit_finish (admit_commit input checked auth s) event))) as ->.
  { unfold s', commit_admit, extend_scope, active_of. cbn [aw_row admit_finish write_row tr_body body_release
      rc_plugin_id rc_pmf1_digest rc_release_digest rc_event]. by rewrite Hkey. }
  apply extend_scope_ok; try done. apply Hroom, (pf_scope _ _ _ _ _ Hp).
Qed.

Lemma rollback_scope_ok t input target proof checked auth c s active event :
  scopes_ok t -> row_room t (pa_scope (in_anchor input)) -> verified_evidence (in_evidence input) ->
  planned_facts t input target proof checked auth c s ->
  is_Some (msc_decisions s !! auth_pmf1_digest auth) ->
  let s' := commit_rollback (rollback_finish (rollback_commit input checked auth active s) event) s in
  scope_ok (pa_scope (in_anchor input)) s' /\ policy_le (policy_of s) (policy_of s').
Proof.
  intros Ht Hroom He [Hp Hv [_ _ _ [plan Hf]]] Hsome s'.
  destruct (written_ok _ _ _ _ _ _ Ht Hp He Hv Hf) as (Hok & Hkey & Hle & Hauth & Hfl).
  split; [|exact Hle].
  assert (s' = extend_scope s (written t input checked s)
    (rw_row (rollback_finish (rollback_commit input checked auth active s) event))) as ->.
  { unfold s', commit_rollback, extend_scope, active_of. cbn [rw_row rollback_finish write_row tr_body
      body_release rc_plugin_id rc_pmf1_digest rc_release_digest rc_event]. by rewrite Hkey. }
  apply extend_scope_ok; try done. apply Hroom, (pf_scope _ _ _ _ _ Hp).
Qed.

(** A replay only raises the UTC second. *)
Lemma raise_scope_ok t input checked c s :
  scopes_ok t -> prefix_facts t input checked c s ->
  scope_ok (pa_scope (in_anchor input)) (raise_utc (in_utc input) s)
  /\ policy_le (policy_of s) (policy_of (raise_utc (in_utc input) s)).
Proof.
  intros Ht Hp. pose proof (Ht _ _ (pf_scope _ _ _ _ _ Hp)) as Hok. split.
  - by apply (touch_scope_ok _ (in_utc input)) in Hok.
  - split; [by left|apply floors_le_refl|apply floors_le_refl|]. intros u Hu. exists (in_utc input).
    split; [done|]. by apply (pf_utc _ _ _ _ _ Hp).
Qed.

Lemma provision_scope_ok t anchor bytes w :
  plan_provision (memory_transaction t) anchor bytes = Ok (Some w) ->
  t !! pa_scope anchor = None /\ ps_scope (rs_policy (pvw_scope w)) = pa_scope anchor
  /\ scope_ok (pa_scope anchor) (MkMemoryScope (pvw_scope w) ∅ ∅ [pvw_row w]).
Proof.
  unfold plan_provision, from_bridge. cbn [memory_transaction tx_scope rbind]. intros Hp. ok_inv. bool_props.
  match goal with Hn : ~ is_Some _ |- _ => apply eq_None_not_Some, fmap_None in Hn end.
  split; [done|]. split; [done|]. cbn [pvw_scope pvw_row].
  match goal with Ha : authenticate_plugin_tps1_v1 _ _ = Ok _ |- _ =>
    destruct (authenticate_ok _ _ _ Ha) as (_ & _ & Hbytes & _); rename Ha into Hauth end.
  assert (Hone : forall (row : PluginTrustLedgerRowV1) (i : nat) r, [row] !! i = Some r -> i = 0%nat /\ r = row).
  { intros row [|i] r; simpl; [by intros [= ->]|done]. }
  split; try done.
  - eexists; split; [|done]. unfold policy_of. cbn [ps_tps1_bytes rs_policy msc_retained ps_tps1_epoch]. by rewrite Hbytes.
  - intros i row [-> ->]%Hone. done.
  - intros i row [-> ->]%Hone. done.
  - by eexists.
  - intros i j x y [-> ->]%Hone [-> ->]%Hone _. apply floors_le_antisym_row.
  - intros d dec. cbn [msc_decisions msc_ledger]. rewrite lookup_empty. split; [done|].
    intros (row & q & ->%list_elem_of_singleton & Hbody & _). done.
  - intros p x. cbn [msc_active]. rewrite lookup_empty. split; [done|].
    intros (row & c & Hr & _). done.
Qed.
End Invariant.

(** ** The operations of the adapter *)

Section Operations.
Context `{Blake3} `{Hasher} `{UlidText} `{Ed25519} `{Ciborium} `{HexText}.
Implicit Types (t : MemoryPluginTrustStateV1) (m : TrustStore) (s : MemoryScopeV1).

Lemma in_activation_fence_cases {A} tl (op : TrustStore -> TrustWrite A) m m' r :
  in_activation_fence tl op m = (m', r) -> (m' = m /\ exists e, r = Err e) \/ op m = (m', r).
Proof.
  unfold in_activation_fence. destruct (with_erasure_fence_on _ _ _ _ m) as [m1 fenced] eqn:Hf.
  intros [= <- <-]. apply with_erasure_fence_on_cases in Hf as [[-> [e ->]]|Hf]; [left; by eauto|right].
  destruct (op m) as [m2 r2]. by injection Hf as <- <-.
Qed.

Lemma append_activation_cases m activation id now m' r :
  append_activation_event m activation id now = (m', r) ->
  (m' = m /\ exists e, r = Err e)
  \/ exists (s' : Store) ev evs,
       guarded_generic_append (ms_store (ts_memory m)) (act_timeline activation)
         [MkFresh (act_draft activation) id now] = (s', Ok (ev :: evs))
       /\ m' = on_store_of m s'
       /\ r = Ok (activation_from_event (act_timeline activation) ev (act_payload_digest activation)).
Proof.
  unfold append_activation_event. destruct (negb _); [left; naive_solver|].
  destruct (guarded_generic_append _ _ _) as [s' [[|ev evs]|e]] eqn:Ha; intros [= <- <-].
  - exfalso. unfold guarded_generic_append in Ha. destruct (rbind _ _) in Ha; [|done].
    unfold append_visible, append_visible_with_prefix in Ha.
    repeat case_match; simplify_eq. simpl in *. unfold append_one_to_state in *.
    repeat case_match; simplify_eq/=. ok_inv. done.
  - right. by exists s', ev, evs.
  - left. split; [|by eexists]. apply guarded_append_one_error in Ha as ->. by destruct m as [[] ?].
Qed.

Lemma with_trust_scope_some {A} m key f (v : RegistryResult A) s :
  ts_trust m !! key = Some s ->
  with_trust_scope m key f v = (MkTrustStore (ts_memory m) (<[key := f s]> (ts_trust m)), v).
Proof. intros Hs. unfold with_trust_scope, with_scope. by rewrite Hs. Qed.

(** How an admission ends: refused, replayed, or committed. *)
Inductive admit_ends m input projection proof activation faults id now
    : TrustStore -> RegistryResult AdmittedPluginReleaseReceiptV1 -> Prop :=
| admit_refused e : admit_ends m input projection proof activation faults id now m (Err e)
| admit_replayed checked auth c s dec :
    planned_facts (ts_trust m) input projection proof checked auth c s ->
    msc_decisions s !! auth_pmf1_digest auth = Some dec ->
    same_decision_identity dec (cp_tps1 checked) input activation = true ->
    admit_ends m input projection proof activation faults id now
      (MkTrustStore (ts_memory m)
        (<[pa_scope (in_anchor input) := raise_utc (in_utc input) s]> (ts_trust m)))
      (Ok (MkAdmitReceipt dec TrustIdempotentReplay))
| admit_committed checked auth c s (s' : Store) ev evs :
    planned_facts (ts_trust m) input projection proof checked auth c s ->
    msc_decisions s !! auth_pmf1_digest auth = None ->
    chain_permits (msc_active s !! auth_plugin_id auth) auth = true ->
    guarded_generic_append (ms_store (ts_memory m)) (act_timeline activation)
      [MkFresh (act_draft activation) id now] = (s', Ok (ev :: evs)) ->
    let event := activation_from_event (act_timeline activation) ev (act_payload_digest activation) in
    let writes := admit_finish (admit_commit input checked auth s) event in
    admit_ends m input projection proof activation faults id now
      (MkTrustStore (MkMemoryStore s' (ms_fallback (ts_memory m)))
        (<[pa_scope (in_anchor input) := commit_admit writes s]> (ts_trust m)))
      (fail_with (after_commit faults) (MkAdmitReceipt (aw_decision writes) TrustCommitted)).

Lemma admit_cases m input projection proof activation faults id now m' r :
  admit_with_faults m input projection proof activation faults id now = (m', r) ->
  admit_ends m input projection proof activation faults id now m' r.
Proof.
  unfold admit_with_faults. intros [[-> [e ->]]|Ha]%in_activation_fence_cases; [constructor|].
  unfold admit_fenced in Ha. destruct (plan_admit _ _ _ _ _) as [plan|e] eqn:Hp;
    [|injection Ha as <- <-; constructor].
  apply plan_admit_ok in Hp as (checked & auth & c & s & Hf & Hplan).
  pose proof (pf_scope _ _ _ _ _ (pl_prefix _ _ _ _ _ _ _ _ Hf)) as Hs.
  destruct plan as [dec|cm].
  - destruct Hplan as [Hd Hi]. rewrite (with_trust_scope_some _ _ _ _ _ Hs) in Ha. injection Ha as <- <-.
    by eapply admit_replayed.
  - destruct Hplan as (Hd & Hch & ->). destruct (before_append faults); [injection Ha as <- <-; constructor|].
    destruct (append_activation_event m activation id now) as [m1 r1] eqn:Happ.
    apply append_activation_cases in Happ as [[-> [e ->]]|(s' & ev & evs & Hg & -> & ->)];
      [injection Ha as <- <-; constructor|].
    rewrite (with_trust_scope_some (on_store_of m s') _ _ _ s Hs) in Ha. injection Ha as <- <-.
    by eapply admit_committed.
Qed.

(** How a rollback ends. *)
Inductive rollback_ends m input target proof activation faults id now
    : TrustStore -> RegistryResult PluginRollbackReceiptV1 -> Prop :=
| rollback_refused e : rollback_ends m input target proof activation faults id now m (Err e)
| rollback_replayed checked auth c s active facts :
    planned_facts (ts_trust m) input target proof checked auth c s ->
    msc_active s !! auth_plugin_id auth = Some active -> av_pmf1_digest active = auth_pmf1_digest auth ->
    identical_rollback (latest_release_row (auth_plugin_id auth) s) (auth_pmf1_digest auth)
      (cp_tps1 checked) input activation = Some facts ->
    rollback_ends m input target proof activation faults id now
      (MkTrustStore (ts_memory m)
        (<[pa_scope (in_anchor input) := raise_utc (in_utc input) s]> (ts_trust m)))
      (Ok (MkRollbackReceipt facts TrustIdempotentReplay))
| rollback_committed checked auth c s active (s' : Store) ev evs :
    planned_facts (ts_trust m) input target proof checked auth c s ->
    is_Some (msc_decisions s !! auth_pmf1_digest auth) ->
    msc_active s !! auth_plugin_id auth = Some active -> av_pmf1_digest active <> auth_pmf1_digest auth ->
    guarded_generic_append (ms_store (ts_memory m)) (act_timeline activation)
      [MkFresh (act_draft activation) id now] = (s', Ok (ev :: evs)) ->
    let event := activation_from_event (act_timeline activation) ev (act_payload_digest activation) in
    let writes := rollback_finish (rollback_commit input checked auth active s) event in
    rollback_ends m input target proof activation faults id now
      (MkTrustStore (MkMemoryStore s' (ms_fallback (ts_memory m)))
        (<[pa_scope (in_anchor input) := commit_rollback writes s]> (ts_trust m)))
      (fail_with (after_commit faults) (MkRollbackReceipt (rw_facts writes) TrustCommitted)).

Lemma rollback_cases m input target proof activation faults id now m' r :
  rollback_with_faults m input target proof activation faults id now = (m', r) ->
  rollback_ends m input target proof activation faults id now m' r.
Proof.
  unfold rollback_with_faults. intros [[-> [e ->]]|Ha]%in_activation_fence_cases; [constructor|].
  unfold rollback_fenced in Ha. destruct (plan_rollback _ _ _ _ _) as [plan|e] eqn:Hp;
    [|injection Ha as <- <-; constructor].
  apply plan_rollback_ok in Hp as (checked & auth & c & s & active & Hf & Hd & Hact & Hplan).
  pose proof (pf_scope _ _ _ _ _ (pl_prefix _ _ _ _ _ _ _ _ Hf)) as Hs.
  destruct plan as [facts|cm].
  - destruct Hplan as [He Hi]. rewrite (with_trust_scope_some _ _ _ _ _ Hs) in Ha. injection Ha as <- <-.
    by eapply rollback_replayed.
  - destruct Hplan as [Hne ->]. destruct (before_append faults); [injection Ha as <- <-; constructor|].
    destruct (append_activation_event m activation id now) as [m1 r1] eqn:Happ.
    apply append_activation_cases in Happ as [[-> [e ->]]|(s' & ev & evs & Hg & -> & ->)];
      [injection Ha as <- <-; constructor|].
    rewrite (with_trust_scope_some (on_store_of m s') _ _ _ s Hs) in Ha. injection Ha as <- <-.
    by eapply rollback_committed.
Qed.

Lemma advance_cases m anchor bytes e utc tick m' r :
  advance_policy m anchor bytes e utc tick = (m', r) ->
  (m' = m /\ exists err, r = Err err)
  \/ exists plan s, plan_advance (memory_transaction (ts_trust m)) (MkPolicyInput anchor bytes e utc tick) = Ok plan
     /\ ts_trust m !! pa_scope anchor = Some s
     /\ m' = MkTrustStore (ts_memory m) (<[pa_scope anchor := commit_advance plan s]> (ts_trust m))
     /\ r = Ok (ap_outcome plan).
Proof.
  unfold advance_policy. destruct (plan_advance _ _) as [plan|err] eqn:Hp; [|intros [= <- <-]; left; by eauto].
  intros Ha. right. exists plan. pose proof Hp as Hq. unfold plan_advance in Hq.
  apply rbind_ok_inv in Hq as (checked & Hc & _). apply check_policy_ok in Hc as (c & s & Hf & _).
  exists s. pose proof (pf_scope _ _ _ _ _ Hf) as Hs. cbn [in_anchor] in Hs.
  rewrite (with_trust_scope_some _ _ _ _ _ Hs) in Ha. by injection Ha as <- <-.
Qed.

Lemma provision_cases m anchor bytes m' r :
  trust_provision m anchor bytes = (m', r) ->
  (m' = m /\ r <> Ok ScopeCreated)
  \/ exists w, plan_provision (memory_transaction (ts_trust m)) anchor bytes = Ok (Some w)
     /\ m' = MkTrustStore (ts_memory m) (insert_scope (ts_trust m) w) /\ r = Ok ScopeCreated.
Proof.
  unfold trust_provision. destruct (plan_provision _ _ _) as [[w|]|err]; intros [= <- <-];
    [right; by exists w|left; done..].
Qed.

(** ** Steps *)

(** One public operation of the store or of either registry. *)
Inductive tstep : TrustStore -> TrustStore -> Prop :=
| tstep_memory m mem : mstep (ts_memory m) mem -> tstep m (MkTrustStore mem (ts_trust m))
| tstep_provision m anchor bytes : tstep m (trust_provision m anchor bytes).1
| tstep_advance m anchor bytes e utc tick :
    verified_evidence e -> row_room (ts_trust m) (pa_scope anchor) ->
    no_snapshot_collision (ts_trust m) anchor bytes ->
    tstep m (advance_policy m anchor bytes e utc tick).1
| tstep_admit m input projection proof activation faults id now :
    verified_evidence (in_evidence input) -> row_room (ts_trust m) (pa_scope (in_anchor input)) ->
    room (ms_store (ts_memory m)) (act_timeline activation) 1 ->
    is_fallback_type (draft_event_type (act_draft activation)) = false ->
    tstep m (admit_with_faults m input projection proof activation faults id now).1
| tstep_rollback m input target proof activation faults id now :
    verified_evidence (in_evidence input) -> row_room (ts_trust m) (pa_scope (in_anchor input)) ->
    room (ms_store (ts_memory m)) (act_timeline activation) 1 ->
    is_fallback_type (draft_event_type (act_draft activation)) = false ->
    tstep m (rollback_with_faults m input target proof activation faults id now).1.

Definition trust_initial (gate : option ErasureContainmentGateV1) : TrustStore :=
  MkTrustStore (initial_memory gate) ∅.
Definition treachable m : Prop := exists gate, rtc tstep (trust_initial gate) m.

Record trust_ok m : Prop := {
  to_registry : registry_ok (ts_memory m);
  to_scopes : scopes_ok (ts_trust m);
}.

(** Every scope survives with a policy that is not older. *)
Definition scopes_le t t' : Prop :=
  forall key s, t !! key = Some s -> exists s', t' !! key = Some s' /\ policy_le (policy_of s) (policy_of s')
    /\ msc_ledger s `prefix_of` msc_ledger s' /\ msc_decisions s ⊆ msc_decisions s'
    /\ rs_anchor (msc_retained s') = rs_anchor (msc_retained s).

Lemma scopes_le_refl t : scopes_le t t.
Proof. intros key s Hs. exists s. split_and!; [done|apply policy_le_refl|done..]. Qed.

Lemma scopes_le_trans t1 t2 t3 : scopes_le t1 t2 -> scopes_le t2 t3 -> scopes_le t1 t3.
Proof.
  intros H1' H2' key s Hs. destruct (H1' _ _ Hs) as (s2 & Hs2 & Hle2 & Hl2 & Hd2 & Ha2).
  destruct (H2' _ _ Hs2) as (s3 & Hs3 & Hle3 & Hl3 & Hd3 & Ha3). exists s3.
  split_and!; [done|by eapply policy_le_trans|by etrans|by etrans|congruence].
Qed.

Lemma scopes_le_insert t key s s' :
  t !! key = Some s -> policy_le (policy_of s) (policy_of s') ->
  msc_ledger s `prefix_of` msc_ledger s' -> msc_decisions s ⊆ msc_decisions s' ->
  rs_anchor (msc_retained s') = rs_anchor (msc_retained s) -> scopes_le t (<[key := s']> t).
Proof.
  intros Hs Hle Hl Hd Ha k x Hx. destruct (decide (k = key)) as [->|Hne].
  - exists s'. rewrite Hs in Hx. injection Hx as <-. by split; [apply lookup_insert_eq|].
  - exists x. split_and!; [by rewrite <- Hx; apply lookup_insert_ne|apply policy_le_refl|done..].
Qed.

(** The activation Event is an ordinary append. *)
Lemma registry_ok_activation mem activation id now (s' : Store) r :
  registry_ok mem -> room (ms_store mem) (act_timeline activation) 1 ->
  is_fallback_type (draft_event_type (act_draft activation)) = false ->
  guarded_generic_append (ms_store mem) (act_timeline activation)
    [MkFresh (act_draft activation) id now] = (s', r) ->
  registry_ok (MkMemoryStore s' (ms_fallback mem)).
Proof.
  intros Hok Hroom Hty Ha. pose proof (ro_store _ Hok) as Hst.
  eapply registry_ok_quiet; [done|done|by eapply (guarded_append_store_ok (ms_store mem) _ [_])|].
  destruct (guarded_append_spec (ms_store mem) _ [_] _ _ Hst Hroom Ha)
    as [[Heq _]|(st & st' & new & Hst' & Heq & Hex & [k ->] & _)]; [by apply quiet_same|].
  eapply quiet_extend; [apply Hst|done|done|by eapply extends_fork_point|by apply (ex_events _ _ _ _ Hex)|].
  intros _. apply committed_events_types, Forall_take. by repeat constructor.
Qed.

(** Every step preserves the invariant and moves every scope forward. *)
Lemma tstep_ok m m' : trust_ok m -> tstep m m' -> trust_ok m' /\ scopes_le (ts_trust m) (ts_trust m').
Proof.
  intros [Hreg Ht] Hs.
  destruct Hs as [m mem Hs|m anchor bytes|m anchor bytes e utc tick He Hroom Hcol
    |m input projection proof act faults id now He Hrow Hroom Hty
    |m input target proof act faults id now He Hrow Hroom Hty].
  - split; [|apply scopes_le_refl]. split; [by eapply mstep_ok|done].
  - destruct (trust_provision m anchor bytes) as [m' r] eqn:Hp. cbn [fst].
    apply provision_cases in Hp as [[-> _]|(w & Hp & -> & _)]; [split; [done|apply scopes_le_refl]|].
    apply provision_scope_ok in Hp as (Hnone & Hkey & Hok). cbn [ts_memory ts_trust].
    unfold insert_scope. rewrite Hkey. split; [split; [done|by apply scopes_ok_insert]|].
    intros key s Hs. exists s.
    split_and!; [rewrite <- Hs; apply lookup_insert_ne; congruence|apply policy_le_refl|done..].
  - destruct (advance_policy m anchor bytes e utc tick) as [m' r] eqn:Hp. cbn [fst].
    apply advance_cases in Hp as [[-> _]|(plan & s & Hp & Hsc & -> & _)]; [split; [done|apply scopes_le_refl]|].
    destruct (advance_scope_ok _ (MkPolicyInput anchor bytes e utc tick) plan s Ht) as [Hok Hle]; try done.
    split; [split; [done|by apply scopes_ok_insert]|]. cbn [ts_trust].
    eapply scopes_le_insert; try done. by apply prefix_app_r.
  - destruct (admit_with_faults m input projection proof act faults id now) as [m' r] eqn:Hp. cbn [fst].
    apply admit_cases in Hp. destruct Hp as [e|checked auth c s dec Hf Hd Hi
      |checked auth c s s' ev evs Hf Hd Hch Hg event writes]; [split; [done|apply scopes_le_refl]|..].
    + destruct (raise_scope_ok _ _ _ _ _ Ht (pl_prefix _ _ _ _ _ _ _ _ Hf)) as [Hok Hle].
      split; [split; [done|by apply scopes_ok_insert]|].
      eapply scopes_le_insert; [apply (pf_scope _ _ _ _ _ (pl_prefix _ _ _ _ _ _ _ _ Hf))|done..].
    + destruct (admit_scope_ok _ _ _ _ _ _ _ _ event Ht Hrow He Hf Hd) as [Hok Hle].
      split; [split; [by eapply registry_ok_activation|by apply scopes_ok_insert]|].
      eapply scopes_le_insert; [apply (pf_scope _ _ _ _ _ (pl_prefix _ _ _ _ _ _ _ _ Hf))|done| | |done].
      * by apply prefix_app_r.
      * by apply insert_subseteq.
  - destruct (rollback_with_faults m input target proof act faults id now) as [m' r] eqn:Hp. cbn [fst].
    apply rollback_cases in Hp. destruct Hp as [e|checked auth c s active facts Hf Ha He' Hi
      |checked auth c s active s' ev evs Hf Hd Ha Hne Hg event writes]; [split; [done|apply scopes_le_refl]|..].
    + destruct (raise_scope_ok _ _ _ _ _ Ht (pl_prefix _ _ _ _ _ _ _ _ Hf)) as [Hok Hle].
      split; [split; [done|by apply scopes_ok_insert]|].
      eapply scopes_le_insert; [apply (pf_scope _ _ _ _ _ (pl_prefix _ _ _ _ _ _ _ _ Hf))|done..].
    + destruct (rollback_scope_ok _ _ _ _ _ _ _ _ active event Ht Hrow He Hf Hd) as [Hok Hle].
      split; [split; [by eapply registry_ok_activation|by apply scopes_ok_insert]|].
      eapply scopes_le_insert; [apply (pf_scope _ _ _ _ _ (pl_prefix _ _ _ _ _ _ _ _ Hf))|done| |done|done].
      by apply prefix_app_r.
Qed.

Lemma tsteps_ok m m' : trust_ok m -> rtc tstep m m' -> trust_ok m' /\ scopes_le (ts_trust m) (ts_trust m').
Proof.
  intros Hok Hr. induction Hr as [|m1 m2 m3 Hs _ IH]; [split; [done|apply scopes_le_refl]|].
  destruct (tstep_ok _ _ Hok Hs) as [Hok2 Hle]. destruct (IH Hok2) as [Hok3 Hle3].
  split; [done|by eapply scopes_le_trans].
Qed.

Lemma trust_ok_initial gate : trust_ok (trust_initial gate).
Proof. split; [apply registry_ok_initial|]. intros key s Hs. done. Qed.

Lemma treachable_ok m : treachable m -> trust_ok m.
Proof. intros [gate Hr]. by apply (tsteps_ok _ _ (trust_ok_initial gate) Hr). Qed.
End Operations.
