(* ===== verification/PluginTrustProperties.v ===== *)
(** * Properties of Plugin trust evidence and its policy

    Theorems about the PTR1 and PRV1 records and histories of [PluginTrust],
    the TPS1 snapshots of [TrustPolicy] and the bridge between them: exact
    codecs, the chain of custody from the anchor, histories bound by their last
    digests, permanent denial, the calendar, and what an accepted policy binds.

    Guarantees that rest on BLAKE3 name the two strings a violation would need:
    [collides xs ys] is a pair of different strings of [xs] and [ys] with one
    digest. *)

From Stdlib Require Import String ZArith Lia Bool.
From S2P Require Import Prelude Text Cbor FallbackRecords StrictCbor PluginTrust PluginTrustCodec PluginTrustChain WireSyntax TrustPolicy TrustBridge BridgeProperties.

Local Open Scope Z_scope.

Section Evidence.
Context `{Blake3} `{Ed25519}.

(** The record decoders are exact.  [root_decode] and [revocation_decode]
    accept exactly the canonical encodings, of at most the byte bound, of valid
    records, and return the record that was encoded. *)
Theorem trust_records_exact bytes :
  (forall r, root_decode bytes = Ok r
     <-> root_valid r = true /\ bytes = enc_root r /\ len bytes <= MAX_RECORD_BYTES)
  /\ (forall r, revocation_decode bytes = Ok r
     <-> revocation_valid r = true /\ bytes = enc_revocation r /\ len bytes <= MAX_RECORD_BYTES).
Proof. split; intros r; [apply root_decode_exact|apply revocation_decode_exact]. Qed.

(** Custody of the root.  In an accepted root history the first record is
    the pinned genesis, every later one names the digest of its predecessor,
    raises the version by one and carries a quorum of its own keys and a quorum
    of its predecessor's keys, each signer a different key whose signature of
    the record verifies; no public key is both a root and a publisher key, and
    the last record is in force.  A rotation that an old key did not sign would
    need two root keys of the history with one key id. *)
Theorem root_history_custody anchor root_bytes now roots :
  verify_root_history anchor root_bytes now = Ok roots ->
  Forall2 (fun b r => root_decode b = Ok r) root_bytes roots
  /\ (exists t, last roots = Some t /\ root_not_before t <= now < root_expires t)
  /\ root_publics roots ## publisher_publics roots
  /\ (authenticated anchor roots \/ collides (key_preimages roots) (key_preimages roots)).
Proof. apply verify_root_history_ok. Qed.

(** The revocation history.  Every accepted record is signed by a quorum of
    one root of the accepted history, roots never going back; it names the
    digest of its predecessor, raises the epoch, does not lower the Tick, and
    drops no revoked key or artifact; the last one is in force and bound to the
    last root, and it contains the entries of every record before it. *)
Theorem revocation_history_cumulative scope roots bytes now rs :
  verify_revocation_history scope roots bytes now = Ok rs ->
  revocation_chain scope roots 0 None rs
  /\ exists t root, last rs = Some t /\ last roots = Some root /\ rev_root_digest t = root_digest root
     /\ rev_not_before t <= now < rev_expires t /\ forall r, r ∈ rs -> rev_extends r t.
Proof. intros (_ & _ & ? & ?)%verify_revocation_history_ok. done. Qed.

(** The last digests bind the histories.  Two accepted pieces of evidence,
    for any anchors and times, that end in the same root digest were made from
    the same root bytes, and those that end in the same revocation digest from
    the same revocation bytes, unless two different records of theirs have one
    BLAKE3 digest. *)
Theorem terminal_digests_bind_histories a1 a2 roots1 roots2 revs1 revs2 now1 now2 tick1 tick2 e1 e2 :
  verify_plugin_trust_v1 a1 roots1 revs1 now1 tick1 = Ok e1 ->
  verify_plugin_trust_v1 a2 roots2 revs2 now2 tick2 = Ok e2 ->
  (evd_root_digest e1 = evd_root_digest e2 -> collides roots1 roots2 \/ roots1 = roots2)
  /\ (evd_revocation_digest e1 = evd_revocation_digest e2 -> collides revs1 revs2 \/ revs1 = revs2).
Proof.
  intros (rs1 & vs1 & t1 & v1 & Hr1 & Hv1 & Hlr1 & Hlv1 & _ & _ & -> & -> & _)%verify_plugin_trust_ok
    (rs2 & vs2 & t2 & v2 & Hr2 & Hv2 & Hlr2 & Hlv2 & _ & _ & -> & -> & _)%verify_plugin_trust_ok.
  pose proof (verify_root_history_linked _ _ _ _ Hr1) as Hl1.
  pose proof (verify_root_history_linked _ _ _ _ Hr2) as Hl2.
  apply verify_root_history_ok in Hr1 as [Hd1 _], Hr2 as [Hd2 _].
  apply verify_revocation_history_ok in Hv1 as (Hw1 & Hk1 & _), Hv2 as (Hw2 & Hk2 & _).
  split; intros He.
  - by eapply (linked_determined root_decode); [apply root_decode_digest_inj|..].
  - by eapply (linked_determined revocation_decode); [apply revocation_decode_digest_inj|..].
Qed.

(** Denial is permanent.  Once any record of an accepted revocation history
    revokes an artifact or a publisher key as of a Tick, evidence built from a
    history with that record, at that Tick or later, authorizes no release that
    carries the artifact or that the key would verify. *)
Theorem denied_release_never_authorized anchor roots revocations now tick e b r m a :
  verify_plugin_trust_v1 anchor roots revocations now tick = Ok e ->
  b ∈ revocations -> revocation_decode b = Ok r ->
  (exists x, x ∈ rev_artifacts r /\ rva_tick x <= tick
     /\ rva_digest x ∈ prj_release_digest m :: prj_descriptor_digests m)
  \/ (exists k, k ∈ rev_keys r /\ rvk_tick k <= tick
     /\ find_publisher (evd_publishers e) (prj_owner m) (prj_epoch m) = Some (rvk_publisher k)) ->
  authorize_release e m <> Ok a.
Proof.
  intros He Hb Hr Hden (_ & _ & _ & _ & Hart & p & Hp & Hk & _)%authorize_release_ok.
  destruct (evidence_denies _ _ _ _ _ _ _ _ He Hb Hr) as [Hkeys Harts].
  destruct Hden as [(x & Hx & Htick & Hin)|(k & Hin & Htick & Hf)].
  - by eapply Hart, Harts.
  - rewrite Hp in Hf. injection Hf as ->. by apply Hk, Hkeys.
Qed.

(** What authorizes a release.  [authorize_release] returns an
    authorization exactly if neither revocation list is at capacity, the
    projection is complete, the evaluated second lies in its window, a grant
    gives the Plugin id to its owner, the owner's publisher key of that epoch
    is known and not revoked, and no artifact of the release is revoked; the
    authorization then carries that key and the projection's digests. *)
Theorem release_authorization_exact e m a :
  authorize_release e m = Ok a <->
  (evd_revoked_key_count e <> MAX_REVOCATION_ENTRIES
   /\ evd_revoked_artifact_count e <> MAX_REVOCATION_ENTRIES)
  /\ projection_is_complete m = true /\ prj_not_before m <= evd_utc_second e < prj_not_after m
  /\ (exists g, g ∈ evd_grants e /\ grant_plugin_id g = prj_plugin_id m /\ grant_owner g = prj_owner m)
  /\ (forall d, d ∈ prj_release_digest m :: prj_descriptor_digests m -> (d ∉ evd_revoked_artifacts e))
  /\ exists p, find_publisher (evd_publishers e) (prj_owner m) (prj_epoch m) = Some p
     /\ (p ∉ evd_revoked_keys e)
     /\ a = MkAuthorization (pk_public p) (prj_pmf1_digest m) (prj_plugin_id m) (prj_release_digest m)
              (prj_descriptor_digests m) (prj_previous_release_digest m) (terminal_root e)
              (terminal_revocation e) (evd_utc_second e) (evd_tick e).
Proof. apply authorize_release_ok. Qed.
End Evidence.

(** ** The calendar *)

(** The offline validity instant.  The parser accepts exactly the texts
    [YYYY-MM-DDThh:mm:ssZ] of existing civil times (leap years as in the
    Gregorian calendar, no leap seconds) and returns the number of seconds from
    the Unix epoch, counted in days of a calendar built year by year. *)
Theorem offline_validity_exact value n :
  parse_offline_valid_through_v1 value = Ok n <->
  exists t, fields_in_range t /\ civil_is_valid t = true /\ as_bytes value = civil_print t
    /\ n = (day_number (ct_year t) (ct_month t) (ct_day t) - day_number 1970 1 1) * 86400
           + ct_hour t * 3600 + ct_minute t * 60 + ct_second t.
Proof.
  unfold parse_offline_valid_through_v1. split.
  - destruct (civil_parse (as_bytes value)) as [t|] eqn:Hp; [|done].
    apply civil_parse_exact in Hp as [Hr Hb]. destruct (civil_is_valid t) eqn:Hv; [|done]. intros [= <-].
    exists t. split_and!; [done..|]. apply unix_seconds_day_number; [apply Hr|done].
  - intros (t & Hr & Hv & Hb & ->). rewrite (proj2 (civil_parse_exact (as_bytes value) t)) by done.
    rewrite Hv. f_equal. apply unix_seconds_day_number; [apply Hr|done].
Qed.

(** ** Snapshots *)

(** Two crates, one grammar.  The identifier check of the conformance
    records, at 128 bytes, accepts exactly the Plugin ids of the manifest
    crate. *)
Theorem identifier_grammars_agree value : identifier value MAX_ID_BYTES = valid_id_text value.
Proof. apply identifier_valid_id_text. Qed.

Section Policy.
Context `{Blake3} `{Ed25519} `{Ciborium} `{HexText}.

(** Snapshots are canonical.  Bytes that decode to a snapshot are within
    the byte bound and are exactly what the encoder writes for that snapshot,
    whose digest is their hash; so no two byte strings decode to one snapshot. *)
Theorem snapshot_canonical bytes s :
  from_canonical_cbor bytes = Ok s ->
  to_canonical_cbor s = Ok bytes /\ snapshot_digest s = Ok (blake3 bytes)
  /\ len bytes <= MAX_TRUST_POLICY_SNAPSHOT_BYTES_V1
  /\ forall bytes', from_canonical_cbor bytes' = Ok s -> bytes' = bytes.
Proof.
  intros (Hv & Hw & Hl)%from_canonical_cbor_ok.
  assert (Ht : to_canonical_cbor s = Ok bytes)
    by (unfold to_canonical_cbor, encode_value; rewrite Hv, Hw; done).
  split_and!; [done|unfold snapshot_digest; by rewrite Ht|done|].
  intros b' (_ & Hw' & _)%from_canonical_cbor_ok. congruence.
Qed.

(** The revocation lookup.  On an authenticated snapshot the binary search
    answers exactly whether the digest is listed. *)
Theorem revocation_lookup_exact anchor bytes t d :
  authenticate_plugin_tps1_v1 anchor bytes = Ok t ->
  lists_digest (tps_snapshot t) d = true <-> d ∈ revoked_artifact_digests (tps_snapshot t).
Proof. apply lists_digest_exact. Qed.

(** What an accepted policy binds.  When the operator's snapshot is
    authenticated and accepted for evidence at a second and a Tick: the anchored
    operator key signed the snapshot's first eleven fields; scope, policy epoch,
    second and Tick agree; the second is before the offline validity instant;
    every root key of the evidence is a trust root of the snapshot under its
    derived name, with the evidence's root version and the same public key; and
    every key and artifact the evidence revokes is listed. *)
Theorem policy_binds_evidence anchor bytes t e utc tick :
  authenticate_plugin_tps1_v1 anchor bytes = Ok t ->
  verify_plugin_tps1_policy_v1 t e utc tick = Ok tt ->
  let s := tps_snapshot t in
  (exists unsigned, into_writer (VArray (take 11 (encode_snapshot_fields s))) = Some unsigned
     /\ verify_strict (operator_key anchor) (OPERATOR_SIGNATURE_DOMAIN_V1 ++ unsigned)
          (operator_signature s) = true)
  /\ policy_id s = pa_scope anchor /\ policy_id s = evd_scope e /\ tps_epoch t = evd_policy_epoch e
  /\ evd_utc_second e = utc /\ evd_tick e = tick
  /\ (exists through, parse_offline_valid_through_v1 (offline_valid_through s) = Ok through /\ utc < through)
  /\ (forall k, k ∈ evd_root_keys e -> exists r, r ∈ trust_roots s
        /\ pr_key_id r = plugin_root_key_id_v1 (rk_id k) /\ pr_root_version r = evd_root_version e
        /\ pr_public_key r = rk_public k)
  /\ (forall p, p ∈ evd_revoked_keys e ->
        plugin_revoked_key_id_v1 (pk_owner p) (pk_epoch p) (pk_public p) ∈ revoked_key_ids s)
  /\ (forall d, d ∈ evd_revoked_artifacts e -> d ∈ revoked_artifact_digests s).
Proof.
  intros Ha (Hid & Hep & Hutc & Htick & Hth & Hr & Hk & Hart)%verify_policy_ok s.
  destruct (authenticate_ok _ _ _ Ha) as (_ & Hscope & _ & _ & Hsig). split_and!; try done.
  - by eapply operator_signature_ok.
  - by apply check_root_mapping_ok.
  - by apply check_revoked_key_mapping_ok.
  - intros d Hd. apply (lists_digest_exact _ _ _ d Ha). by eapply check_artifact_mapping_ok.
Qed.
End Policy.
