(* ===== verification/TrustProperties.v ===== *)
(** * Properties of the Plugin trust registry

    Theorems about the operations of [TrustRegistry] on reachable stores: the
    invariant, all-or-nothing writes, monotone policy, what an admission and a
    rollback did, that a committed admission can be retried and evaluated, and
    what an evaluation rules out. *)

From Stdlib Require Import String ZArith Lia Bool.
From S2P Require Import Prelude Text SortedMap Cbor FallbackRecords StrictCbor PluginTrust PluginTrustCodec PluginTrustChain WireSyntax TrustPolicy TrustBridge BridgeProperties.
From S2P Require Import ErasureGate Events EventStore StoreHistory StoreCorrect StoreProperties FallbackRegistry FallbackFold FallbackInvariant FallbackReach TrustRegistry TrustInvariant.

Local Open Scope Z_scope.

Section Properties.
Context `{Blake3} `{Hasher} `{UlidText} `{Ed25519} `{Ciborium} `{HexText}.
Implicit Types (t : MemoryPluginTrustStateV1) (m : TrustStore) (s : MemoryScopeV1).

(** ** The same input after a write *)

(** A scope whose policy was just written from [input]. *)
Record just_written t input (checked : CheckedPolicyV1) s : Prop := {
  jw_scope : t !! pa_scope (in_anchor input) = Some s;
  jw_anchor : rs_anchor (msc_retained s) = in_anchor input;
  jw_tps1 : authenticate_plugin_tps1_v1 (in_anchor input) (in_tps1_bytes input) = Ok (cp_tps1 checked);
  jw_bytes : ps_tps1_bytes (policy_of s) = in_tps1_bytes input;
  jw_root : ps_ptr1_floor (policy_of s) = Some (terminal_root (in_evidence input));
  jw_revocation : ps_prv1_floor (policy_of s) = Some (terminal_revocation (in_evidence input));
  jw_utc : ps_highest_trusted_utc_second (policy_of s) = Some (in_utc input);
}.

Definition rechecked input (checked : CheckedPolicyV1) s : CheckedPolicyV1 :=
  MkCheckedPolicy (msc_retained s)
    (FloorsPresent (terminal_root (in_evidence input)) (terminal_revocation (in_evidence input)))
    (cp_tps1 checked).

Lemma check_policy_prefix_again t input checked s :
  just_written t input checked s ->
  check_policy_prefix (memory_transaction t) input = Ok (rechecked input checked s, Retained).
Proof.
  intros [Hs Hanchor Ha Hb Hr Hv Hu]. unfold policy_of in *. unfold check_policy_prefix.
  cbn [memory_transaction tx_scope rbind]. rewrite Hs. cbn [fmap option_fmap option_map ok_or rbind].
  rewrite bool_decide_true by done. cbn [negb]. rewrite Hr, Hv, Hu. cbn [from_retained map_err rbind].
  rewrite Z.ltb_irrefl. unfold from_bridge. rewrite Ha. cbn [map_err rbind].
  destruct (authenticate_ok _ _ _ Ha) as (_ & _ & -> & _). by rewrite Hb, decide_True.
Qed.

Lemma floor_plan_again e :
  plan_plugin_floor_transition_v1 (FloorsPresent (terminal_root e) (terminal_revocation e)) e
  = Ok (MkFloorPlan FloorUnchanged FloorUnchanged).
Proof.
  unfold plan_plugin_floor_transition_v1, plugin_floor_transition_v1.
  by rewrite !Z.ltb_irrefl, !Z.eqb_refl, !decide_True.
Qed.

Lemma check_release_again t input projection proof checked auth s :
  just_written t input checked s -> release_facts input projection proof checked auth ->
  verify_plugin_tps1_policy_v1 (cp_tps1 checked) (in_evidence input) (in_utc input) (in_tick input) = Ok tt ->
  check_release (memory_transaction t) input projection proof = Ok (rechecked input checked s, auth).
Proof.
  intros Hj [Ha Hp Hd _] Hv. unfold check_release, check_policy. rewrite (check_policy_prefix_again _ _ _ _ Hj).
  cbn [rbind]. unfold check_bridge, from_bridge. cbn [cp_tps1 rechecked]. rewrite Hv. cbn [map_err rbind].
  unfold check_proven_release, from_trust. rewrite Ha. cbn [map_err rbind].
  unfold check_release_proof. rewrite bool_decide_true by done. cbn [registry_check rbind].
  unfold check_authorized_release, from_bridge, from_floor. cbn [cp_tps1 cp_floors rechecked].
  rewrite Hd, floor_plan_again. done.
Qed.

(** The scope of a committed admission. *)
Lemma admitted_just_written t input projection proof checked auth c s event :
  planned_facts t input projection proof checked auth c s ->
  let s' := commit_admit (admit_finish (admit_commit input checked auth s) event) s in
  just_written (<[pa_scope (in_anchor input) := s']> t) input checked s'.
Proof.
  intros Hf s'. pose proof (pl_prefix _ _ _ _ _ _ _ _ Hf) as Hp.
  destruct (authenticate_ok _ _ _ (pf_tps1 _ _ _ _ _ Hp)) as (_ & _ & Hb & _).
  split; try done; [apply lookup_insert_eq|apply (pf_anchor _ _ _ _ _ Hp)|apply (pf_tps1 _ _ _ _ _ Hp)].
Qed.

(** The Event that a guarded append of the activation draft returns. *)
Lemma activation_event_matches mem activation id now (s' : Store) ev evs :
  store_ok (ms_store mem) -> room (ms_store mem) (act_timeline activation) 1 ->
  guarded_generic_append (ms_store mem) (act_timeline activation)
    [MkFresh (act_draft activation) id now] = (s', Ok (ev :: evs)) ->
  matches_input (activation_from_event (act_timeline activation) ev (act_payload_digest activation)) activation
  = true.
Proof.
  intros Hok Hroom Ha. apply guarded_append_one in Ha as (_ & st & st' & _ & _ & _ & _ & Hev); [|done..].
  injection Hev as -> _. unfold matches_input, activation_from_event.
  cbn [aid_timeline aid_event_type aid_payload_digest ev_event_type with_seq committed_event fd_draft].
  by rewrite !bool_decide_true.
Qed.

Lemma fence_open_again {A} tl (op1 op : TrustStore -> TrustWrite A) m1 m2 m1' r1 (v : RegistryResult A) :
  in_activation_fence tl op1 m1 = (m1', Ok r1) ->
  validated_erasure_gate (ms_store (ts_memory m2)) = validated_erasure_gate (ms_store (ts_memory m1)) ->
  op m2 = (m2, v) -> in_activation_fence tl op m2 = (m2, v).
Proof.
  unfold in_activation_fence, with_erasure_fence_on. intros H1' Hg Hop. rewrite Hg.
  destruct (validated_erasure_gate (ms_store (ts_memory m1))) as [g|]; [|done].
  rewrite with_fence_spec in H1'. rewrite with_fence_spec.
  destruct (gate_authorize g tl OpAppend) as [[]|e]; [|by destruct e].
  rewrite Hop. done.
Qed.

(** ** Theorems *)

(** C2: the registry invariant.  In every store reachable by the operations of
    the Event store and of both registries, with faults injected anywhere, the
    fallback registry invariant holds and every provisioned scope is
    consistent: its policy is the one its retained, authenticated snapshot
    bytes determine; both floors are present or neither is, and present floors
    carry the epoch and the root version the snapshot binds; ledger rows are
    numbered from 1, the first and only the first is the provisioning, no row
    records an older policy than a row before it and the last one records the
    retained policy; a decision is retained exactly if an admission row holds
    it; and the active release of a Plugin is the one of its latest release
    row, and was admitted. *)
Theorem trust_registry_invariant m :
  treachable m -> registry_ok (ts_memory m) /\ forall key s, ts_trust m !! key = Some s -> scope_ok key s.
Proof. by intros [Hr Hs]%treachable_ok. Qed.

(** Nothing moves back.  Along any run, a scope keeps its anchor, its
    ledger only grows, no decision is lost or changed, and its policy never
    regresses: the snapshot stays or its epoch rises, each floor stays or its
    coordinate rises, and the trusted UTC second does not fall. *)
Theorem trust_policy_never_regresses m m' :
  treachable m -> rtc tstep m m' -> scopes_le (ts_trust m) (ts_trust m').
Proof. intros Hr%treachable_ok Hs. by apply (tsteps_ok _ _ Hr Hs). Qed.

(** Writes are all or nothing.  A provisioning, advance, admission or
    rollback that returns an error leaves the whole store unchanged: Events,
    fallback registry and trust registry. *)
Theorem refused_write_changes_nothing m anchor bytes e projection proof utc tick activation id now :
  (forall err, (trust_provision m anchor bytes).2 = Err err -> (trust_provision m anchor bytes).1 = m)
  /\ (forall err, (advance_policy m anchor bytes e utc tick).2 = Err err ->
       (advance_policy m anchor bytes e utc tick).1 = m)
  /\ (forall err, (admit_release m anchor bytes e projection proof utc tick activation id now).2 = Err err ->
       (admit_release m anchor bytes e projection proof utc tick activation id now).1 = m)
  /\ (forall err, (rollback m anchor bytes e projection proof utc tick activation id now).2 = Err err ->
       (rollback m anchor bytes e projection proof utc tick activation id now).1 = m).
Proof.
  split_and!; intros err.
  - destruct (trust_provision m anchor bytes) as [m' r] eqn:Hp. intros Hr. cbn [fst snd] in *.
    apply provision_cases in Hp as [[-> _]|(w & _ & _ & ->)]; [done|congruence].
  - destruct (advance_policy m anchor bytes e utc tick) as [m' r] eqn:Hp. intros Hr. cbn [fst snd] in *.
    apply advance_cases in Hp as [[-> _]|(plan & s & _ & _ & _ & ->)]; [done|congruence].
  - destruct (admit_release m anchor bytes e projection proof utc tick activation id now) as [m' r] eqn:Hp.
    intros Hr. cbn [fst snd] in *. unfold admit_release in Hp. apply admit_cases in Hp. by destruct Hp.
  - destruct (rollback m anchor bytes e projection proof utc tick activation id now) as [m' r] eqn:Hp.
    intros Hr. cbn [fst snd] in *. unfold rollback in Hp. apply rollback_cases in Hp. by destruct Hp.
Qed.

(** What is known of the store and the arguments of a registry write. *)
Definition write_ready m (anchor : PluginTrustPolicyAnchorV1) (e : VerifiedPluginTrustEvidenceV1)
    (activation : ActivationEventInputV1) : Prop :=
  treachable m /\ verified_evidence e /\ row_room (ts_trust m) (pa_scope anchor)
  /\ room (ms_store (ts_memory m)) (act_timeline activation) 1.

(** The Event of an activation is the one new Event of its Timeline, behind the
    Timeline's whole history. *)
Definition activation_committed m m' (activation : ActivationEventInputV1)
    (event : ActivationEventIdentityV1) : Prop :=
  exists st st' ev,
    st_timelines (ms_store (ts_memory m)) !! act_timeline activation = Some st
    /\ st_timelines (ms_store (ts_memory m'))
       = <[act_timeline activation := st']> (st_timelines (ms_store (ts_memory m)))
    /\ ts_events st' = ts_events st ++ [ev]
    /\ (forall h, history (st_timelines (ms_store (ts_memory m))) (act_timeline activation) h ->
         history (st_timelines (ms_store (ts_memory m'))) (act_timeline activation) (h ++ [ev]))
    /\ ev_id ev = aid_event_id event /\ ev_event_type ev = draft_event_type (act_draft activation)
    /\ ev_payload ev = draft_payload (act_draft activation)
    /\ aid_payload_digest event = blake3 (ev_payload ev)
    /\ aid_seq event = prefix_of st + len (ts_events st) + 1.

Lemma activation_commits m trust activation id now (s' : Store) ev evs :
  treachable m -> room (ms_store (ts_memory m)) (act_timeline activation) 1 ->
  guarded_generic_append (ms_store (ts_memory m)) (act_timeline activation)
    [MkFresh (act_draft activation) id now] = (s', Ok (ev :: evs)) ->
  activation_committed m (MkTrustStore (MkMemoryStore s' (ms_fallback (ts_memory m))) trust) activation
    (activation_from_event (act_timeline activation) ev (act_payload_digest activation)).
Proof.
  intros Hr%treachable_ok Hroom Ha. pose proof (ro_store _ (to_registry _ Hr)) as Hok.
  apply guarded_append_one in Ha as (_ & st & st' & Hst & Heq & Hfp & Hev & He); [|done..].
  cbv zeta in *. injection He as -> _. exists st, st', (committed_event (act_timeline activation) (prefix_of st) (len (ts_events st) + 1)
    (MkFresh (act_draft activation) id now)). cbn [ts_memory ms_store].
  split_and!; [exact Hst|exact Heq|exact Hev| |done..].
  intros h Hh. rewrite Heq. pose proof (history_extend _ _ _ _ _ Hst Hfp Hev _ _ Hh) as Hx. unfold ext in Hx.
  by rewrite decide_True in Hx.
Qed.

(** ** Admission *)

(** What one committed registry write did to its scope: one row was added, and
    the policy is the one of the offered snapshot and evidence. *)
Record scope_written m m' (anchor : PluginTrustPolicyAnchorV1) (bytes : list byte)
    (e : VerifiedPluginTrustEvidenceV1) (utc : Z) (body : PluginTrustLedgerBodyV1) s s' : Prop := {
  sw_before : ts_trust m !! pa_scope anchor = Some s;
  sw_after : ts_trust m' = <[pa_scope anchor := s']> (ts_trust m);
  sw_fallback : ms_fallback (ts_memory m') = ms_fallback (ts_memory m);
  sw_row : exists row, msc_ledger s' = msc_ledger s ++ [row] /\ tr_body row = body
    /\ tr_row_seq row = len (msc_ledger s) + 1 /\ row_of row (policy_of s');
  sw_snapshot : ps_tps1_bytes (policy_of s') = bytes;
  sw_floors : ps_ptr1_floor (policy_of s') = Some (terminal_root e)
    /\ ps_prv1_floor (policy_of s') = Some (terminal_revocation e);
  sw_utc : ps_highest_trusted_utc_second (policy_of s') = Some utc;
}.

(** The signature proof covers the authorized release. *)
Definition proof_covers (proof : VerifiedPluginReleaseSignatureV1)
    (auth : ResolvedPluginTrustAuthorizationV1) : Prop :=
  proof_pmf1_digest proof = auth_pmf1_digest auth /\ proof_release_digest proof = auth_release_digest auth
  /\ proof_public_key proof = auth_public_key auth.

Lemma planned_written m anchor bytes e utc tick projection proof checked auth c s :
  treachable m -> row_room (ts_trust m) (pa_scope anchor) ->
  planned_facts (ts_trust m) (MkPolicyInput anchor bytes e utc tick) projection proof checked auth c s ->
  ts_trust m !! pa_scope anchor = Some s /\ tps_bytes (cp_tps1 checked) = bytes
  /\ next_row_seq s = len (msc_ledger s) + 1 /\ authorize_release e projection = Ok auth
  /\ proof_covers proof auth.
Proof.
  intros Hr%treachable_ok Hroom [Hp Hv [Ha Hproof _ _]]. pose proof (pf_scope _ _ _ _ _ Hp) as Hs.
  destruct (authenticate_ok _ _ _ (pf_tps1 _ _ _ _ _ Hp)) as (_ & _ & Hb & _).
  split_and!; try done; [|by injection Hproof..].
  eapply next_row_seq_numbered; [by apply (to_scopes _ Hr)|by apply Hroom].
Qed.

(** A committed admission, opened. *)
Lemma admit_committed_inv m input projection proof activation id now m' dec :
  admit_with_faults m input projection proof activation faults_none id now
  = (m', Ok (MkAdmitReceipt dec TrustCommitted)) ->
  exists checked auth c s (s' : Store) ev evs,
    planned_facts (ts_trust m) input projection proof checked auth c s
    /\ msc_decisions s !! auth_pmf1_digest auth = None
    /\ chain_permits (msc_active s !! auth_plugin_id auth) auth = true
    /\ guarded_generic_append (ms_store (ts_memory m)) (act_timeline activation)
         [MkFresh (act_draft activation) id now] = (s', Ok (ev :: evs))
    /\ let writes := admit_finish (admit_commit input checked auth s)
                       (activation_from_event (act_timeline activation) ev (act_payload_digest activation)) in
       m' = MkTrustStore (MkMemoryStore s' (ms_fallback (ts_memory m)))
              (<[pa_scope (in_anchor input) := commit_admit writes s]> (ts_trust m))
       /\ dec = aw_decision writes.
Proof.
  intros Ha. apply admit_cases in Ha. remember (Ok _) as r eqn:Hreceipt.
  destruct Ha as [|?|checked auth c s s' ev evs Hf Hd Hch Hg event writes]; try done.
  injection Hreceipt as <-. by exists checked, auth, c, s, s', ev, evs.
Qed.

(** C23: what a committed admission did.  The evidence authorized the release,
    the signature proof covers exactly its manifest digest, release digest and
    publisher key, no decision existed for the manifest, and the release is a
    first one, a re-release of the active digest or names the active release as
    its predecessor.  One Event was committed, and one ledger row; the decision
    is retained, the release became the active one of its Plugin, and nothing
    else of the decisions or active releases changed. *)
Theorem admission_effect m m' anchor bytes e projection proof utc tick activation id now dec :
  write_ready m anchor e activation ->
  admit_release m anchor bytes e projection proof utc tick activation id now
  = (m', Ok (MkAdmitReceipt dec TrustCommitted)) ->
  exists auth s s', authorize_release e projection = Ok auth /\ proof_covers proof auth
    /\ scope_written m m' anchor bytes e utc
         (RowAdmission dec (av_pmf1_digest <$> msc_active s !! auth_plugin_id auth)) s s'
    /\ msc_decisions s !! auth_pmf1_digest auth = None
    /\ msc_decisions s' = <[auth_pmf1_digest auth := dec]> (msc_decisions s)
    /\ (forall a, msc_active s !! auth_plugin_id auth = Some a ->
         auth_release_digest auth = av_release_digest a
         \/ auth_previous_release_digest auth = Some (av_release_digest a))
    /\ msc_active s' = <[auth_plugin_id auth := MkActive (pa_scope anchor) (auth_plugin_id auth)
         (auth_pmf1_digest auth) (auth_release_digest auth) (dec_activation_event dec)]> (msc_active s)
    /\ activation_committed m m' activation (dec_activation_event dec).
Proof.
  intros (Hr & He & Hrow & Hroom) Ha.
  apply admit_committed_inv in Ha as (checked & auth & c & s & s' & ev & evs & Hf & Hd & Hch & Hg & -> & ->).
  set (writes := admit_finish _ _).
  destruct (planned_written _ _ _ _ _ _ _ _ _ _ _ _ Hr Hrow Hf) as (Hs & Hb & Hseq & Hauth & Hproof).
  exists auth, s, (commit_admit writes s). split_and!; try done.
  - split; try done. eexists. split_and!; [done..|]. by split_and!.
  - intros a Hact. unfold chain_permits in Hch. rewrite Hact in Hch.
    apply orb_true_iff in Hch as [Hx|Hx]; bool_props; auto.
  - by eapply activation_commits.
Qed.

(** A committed admission can be retried.  The same call on the store the
    admission left, whatever fresh Event id and time it is given, returns the
    same decision as an idempotent replay and changes nothing. *)
Theorem admission_retry m m' anchor bytes e projection proof utc tick activation id now id' now' dec :
  write_ready m anchor e activation ->
  admit_release m anchor bytes e projection proof utc tick activation id now
  = (m', Ok (MkAdmitReceipt dec TrustCommitted)) ->
  admit_release m' anchor bytes e projection proof utc tick activation id' now'
  = (m', Ok (MkAdmitReceipt dec TrustIdempotentReplay)).
Proof.
  intros (Hr%treachable_ok & He & Hrow & Hroom) Hadm. pose proof Hadm as Ha.
  apply admit_committed_inv in Ha as (checked & auth & c & s & s' & ev & evs & Hf & Hd & Hch & Hg & Hm & ->).
  eapply fence_open_again; [exact Hadm|rewrite Hm; apply same_guards_gate; by eapply guarded_append_guards|].
  pose proof (admitted_just_written _ _ _ _ _ _ _ _
    (activation_from_event (act_timeline activation) ev (act_payload_digest activation)) Hf) as Hj.
  unfold admit_fenced, plan_admit. rewrite Hm. cbn [ts_trust ts_memory].
  rewrite (check_release_again _ _ _ _ _ _ _ Hj (pl_release _ _ _ _ _ _ _ _ Hf) (pl_policy _ _ _ _ _ _ _ _ Hf)).
  cbn [rbind memory_transaction tx_decision]. rewrite (jw_scope _ _ _ _ Hj). cbn [mbind option_bind].
  replace (msc_decisions _ !! auth_pmf1_digest auth) with (Some (aw_decision (admit_finish (admit_commit (MkPolicyInput anchor bytes e utc tick) checked auth s)
      (activation_from_event (act_timeline activation) ev (act_payload_digest activation)))))
    by (symmetry; apply lookup_insert_eq).
  replace (same_decision_identity _ _ _ _) with true.
  - rewrite (with_trust_scope_some (MkTrustStore _ _) _ _ _ _ (jw_scope _ _ _ _ Hj)). cbn [ts_memory ts_trust].
    do 2 f_equal. apply insert_id, (jw_scope _ _ _ _ Hj).
  - unfold same_decision_identity. symmetry. rewrite !andb_true_iff. split_and!; [by bool_props..|].
    eapply activation_event_matches; [apply (ro_store _ (to_registry _ Hr))|done..].
Qed.

(** ** Rollback *)

Lemma rollback_committed_inv m input target proof activation id now m' facts :
  rollback_with_faults m input target proof activation faults_none id now
  = (m', Ok (MkRollbackReceipt facts TrustCommitted)) ->
  exists checked auth c s active (s' : Store) ev evs,
    planned_facts (ts_trust m) input target proof checked auth c s
    /\ is_Some (msc_decisions s !! auth_pmf1_digest auth)
    /\ msc_active s !! auth_plugin_id auth = Some active
    /\ av_pmf1_digest active <> auth_pmf1_digest auth
    /\ guarded_generic_append (ms_store (ts_memory m)) (act_timeline activation)
         [MkFresh (act_draft activation) id now] = (s', Ok (ev :: evs))
    /\ let writes := rollback_finish (rollback_commit input checked auth active s)
                       (activation_from_event (act_timeline activation) ev (act_payload_digest activation)) in
       m' = MkTrustStore (MkMemoryStore s' (ms_fallback (ts_memory m)))
              (<[pa_scope (in_anchor input) := commit_rollback writes s]> (ts_trust m))
       /\ facts = rw_facts writes.
Proof.
  intros Ha. apply rollback_cases in Ha. remember (Ok _) as r eqn:Hreceipt.
  destruct Ha as [|?|checked auth c s active s' ev evs Hf Hd Hact Hne Hg event writes]; try done.
  injection Hreceipt as <-. by exists checked, auth, c, s, active, s', ev, evs.
Qed.

(** What a committed rollback did.  Its target is a release the current
    evidence still authorizes and that an admission row of the ledger admitted
    before; another release of the Plugin was active and the facts name it as
    replaced.  One Event and one ledger row were committed, the target became
    the active release of its Plugin, and no decision changed. *)
Theorem rollback_effect m m' anchor bytes e target proof utc tick activation id now facts :
  write_ready m anchor e activation ->
  rollback m anchor bytes e target proof utc tick activation id now
  = (m', Ok (MkRollbackReceipt facts TrustCommitted)) ->
  exists auth s s' active, authorize_release e target = Ok auth /\ proof_covers proof auth
    /\ scope_written m m' anchor bytes e utc (RowRollback facts) s s'
    /\ (exists row dec previous, row ∈ msc_ledger s /\ tr_body row = RowAdmission dec previous
         /\ dec_pmf1_digest dec = auth_pmf1_digest auth)
    /\ msc_active s !! auth_plugin_id auth = Some active
    /\ av_pmf1_digest active <> auth_pmf1_digest auth
    /\ rbf_replaced_pmf1_digest facts = av_pmf1_digest active
    /\ msc_decisions s' = msc_decisions s
    /\ msc_active s' = <[auth_plugin_id auth := MkActive (pa_scope anchor) (auth_plugin_id auth)
         (auth_pmf1_digest auth) (auth_release_digest auth) (rbf_activation_event facts)]> (msc_active s)
    /\ activation_committed m m' activation (rbf_activation_event facts).
Proof.
  intros (Hr & He & Hrow & Hroom) Ha.
  apply rollback_committed_inv in Ha
    as (checked & auth & c & s & active & s' & ev & evs & Hf & [dec Hd] & Hact & Hne & Hg & -> & ->).
  set (writes := rollback_finish _ _).
  destruct (planned_written _ _ _ _ _ _ _ _ _ _ _ _ Hr Hrow Hf) as (Hs & Hb & Hseq & Hauth & Hproof).
  exists auth, s, (commit_rollback writes s), active. split_and!; try done.
  - split; try done. eexists. split_and!; [done..|]. by split_and!.
  - apply (so_decisions (pa_scope anchor) s) in Hd as (row & previous & ? & ? & ?); [by exists row, dec, previous|].
    by apply (to_scopes _ (treachable_ok _ Hr)).
  - by eapply activation_commits.
Qed.

(** ** Evaluation *)

(** A committed admission can be used.  On the store it left, the
    evaluation of the same manifest with the same snapshot, evidence and time
    succeeds, and returns the admitted release, the Event of its activation and
    the floors of the evidence. *)
Theorem admitted_release_evaluates m m' anchor bytes e projection proof utc tick activation id now dec :
  admit_release m anchor bytes e projection proof utc tick activation id now
  = (m', Ok (MkAdmitReceipt dec TrustCommitted)) ->
  evaluate_current_release m' anchor bytes e projection utc tick
  = Ok (MkEvaluation (pa_scope anchor) (prj_plugin_id projection) (prj_pmf1_digest projection)
      (prj_release_digest projection) (prj_previous_release_digest projection) (dec_tps1_digest dec)
      (dec_tps1_epoch dec) (dec_tps1_effective_position dec) (terminal_root e) (terminal_revocation e)
      utc tick (dec_activation_event dec)).
Proof.
  intros Ha.
  apply admit_committed_inv in Ha as (checked & auth & c & s & s' & ev & evs & Hf & Hd & Hch & Hg & -> & ->).
  pose proof (admitted_just_written _ _ _ _ _ _ _ _
    (activation_from_event (act_timeline activation) ev (act_payload_digest activation)) Hf) as Hj.
  pose proof (pl_policy _ _ _ _ _ _ _ _ Hf) as Hv. destruct (pl_release _ _ _ _ _ _ _ _ Hf) as [Hau _ Hden _].
  set (s2 := commit_admit _ s) in *. cbn [in_anchor in_evidence in_utc in_tick] in *.
  unfold evaluate_current_release, plan_evaluate. cbn [ts_trust].
  rewrite (check_policy_prefix_again _ _ _ _ Hj). cbn [rbind]. unfold check_bridge, from_bridge.
  cbn [cp_tps1 rechecked in_evidence in_utc in_tick]. rewrite Hv. cbn [map_err rbind].
  unfold check_release_tail, from_trust, check_authorized_release, from_bridge, from_floor.
  cbn [in_evidence cp_tps1 cp_floors rechecked]. rewrite Hau. cbn [map_err rbind]. rewrite Hden.
  cbn [map_err rbind]. rewrite floor_plan_again.
  cbn [map_err rbind unchanged_floors plan_root plan_revocation ok_or memory_transaction tx_active tx_decision].
  pose proof (jw_scope _ _ _ _ Hj) as Hs. cbn [in_anchor] in *. rewrite Hs. cbn [mbind option_bind].
  assert (Hact : msc_active s2 !! auth_plugin_id auth = Some (aw_active (admit_finish
    (admit_commit (MkPolicyInput anchor bytes e utc tick) checked auth s)
    (activation_from_event (act_timeline activation) ev (act_payload_digest activation))))) by apply lookup_insert_eq.
  rewrite Hact. cbn [admit_finish aw_active av_pmf1_digest admit_commit ac_pmf1_digest]. rewrite decide_True by done.
  cbn [ok_or rbind].
  assert (Hdec : msc_decisions s2 !! auth_pmf1_digest auth = Some (aw_decision (admit_finish
    (admit_commit (MkPolicyInput anchor bytes e utc tick) checked auth s)
    (activation_from_event (act_timeline activation) ev (act_payload_digest activation))))) by apply lookup_insert_eq.
  cbn [av_pmf1_digest]. rewrite Hdec. unfold decision_describes. cbn. rewrite !bool_decide_true by done. cbn.
  apply authorize_release_ok in Hau as (_ & _ & _ & _ & _ & p & _ & _ & ->). done.
Qed.

(** The digests by which an artifact of a release can be denied. *)
Definition artifact_digests (projection : ValidatedPluginManifestProjectionV1) : list Hash :=
  prj_release_digest projection :: prj_descriptor_digests projection.

Lemma artifact_denial_ok anchor bytes a auth :
  authenticate_plugin_tps1_v1 anchor bytes = Ok a -> check_plugin_tps1_artifact_denial_v1 a auth = Ok tt ->
  forall d, d ∈ auth_pmf1_digest auth :: auth_release_digest auth :: auth_descriptor_digests auth ->
    d ∉ revoked_artifact_digests (tps_snapshot a).
Proof.
  intros Ha Hc d Hd Hin. unfold check_plugin_tps1_artifact_denial_v1 in Hc.
  rewrite <- (lists_digest_exact _ _ _ d Ha) in Hin. destruct (_ || _) eqn:Hx in Hc; [done|].
  apply orb_false_iff in Hx as [[Hx1 Hx2]%orb_false_iff Hx3].
  apply elem_of_cons in Hd as [->|[->|Hd]%elem_of_cons]; [congruence..|].
  apply not_true_iff_false in Hx3. apply Hx3, existsb_exists. exists d. by rewrite <- list_elem_of_In.
Qed.

Lemma plan_evaluate_ok t input projection v :
  plan_evaluate (memory_transaction t) input projection = Ok v ->
  exists checked auth s active dec,
    prefix_facts t input checked Retained s
    /\ verify_plugin_tps1_policy_v1 (cp_tps1 checked) (in_evidence input) (in_utc input) (in_tick input) = Ok tt
    /\ authorize_release (in_evidence input) projection = Ok auth
    /\ check_plugin_tps1_artifact_denial_v1 (cp_tps1 checked) auth = Ok tt
    /\ cp_floors checked = FloorsPresent (terminal_root (in_evidence input)) (terminal_revocation (in_evidence input))
    /\ msc_active s !! auth_plugin_id auth = Some active /\ av_pmf1_digest active = auth_pmf1_digest auth
    /\ msc_decisions s !! auth_pmf1_digest auth = Some dec
    /\ decision_describes dec active auth = true
    /\ evl_activation_event v = av_activation_event active /\ evl_pmf1_digest v = dec_pmf1_digest dec
    /\ evl_ptr1_floor v = terminal_root (in_evidence input)
    /\ evl_prv1_floor v = terminal_revocation (in_evidence input).
Proof.
  unfold plan_evaluate. intros Hp. apply rbind_ok_inv in Hp as ([checked c] & Hpre & Hp).
  destruct c; [|done]. apply check_policy_prefix_ok in Hpre as [s Hf].
  apply rbind_ok_inv in Hp as ([] & Hb & Hp). apply map_err_ok_inv in Hb.
  apply rbind_ok_inv in Hp as ([auth plan] & Htail & Hp). unfold check_release_tail, from_trust in Htail.
  apply rbind_ok_inv in Htail as (auth' & Hau & Htail). apply map_err_ok_inv in Hau.
  apply rbind_ok_inv in Htail as (plan' & Hden & [= -> ->]). unfold check_authorized_release, from_bridge, from_floor in Hden.
  apply rbind_ok_inv in Hden as ([] & Hden & Hfl). apply map_err_ok_inv in Hden, Hfl.
  apply rbind_ok_inv in Hp as ([root rev] & Hun & Hp).
  pose proof (pf_scope _ _ _ _ _ Hf) as Hs. cbn [memory_transaction tx_active tx_decision rbind] in Hp.
  rewrite Hs in Hp. cbn [mbind option_bind] in Hp.
  destruct (msc_active s !! auth_plugin_id auth) as [active|] eqn:Hact; [|done].
  destruct (decide (av_pmf1_digest active = auth_pmf1_digest auth)) as [He|]; [|done]. cbn [ok_or rbind] in Hp.
  rewrite He in Hp. destruct (msc_decisions s !! auth_pmf1_digest auth) as [dec|] eqn:Hdec; [|done].
  destruct (decision_describes dec active auth) eqn:Hdesc; [|done]. cbn [ok_or rbind] in Hp.
  injection Hp as <-. unfold unchanged_floors in Hun.
  destruct (cp_floors checked) as [|r0 v0] eqn:Hcf; [done|]. unfold plan_plugin_floor_transition_v1 in Hfl.
  apply rbind_ok_inv in Hfl as (t1 & Ht1 & Hfl). apply rbind_ok_inv in Hfl as (t2 & Ht2 & [= <-]).
  cbn [plan_root plan_revocation] in Hun.
  apply floor_transition_ok in Ht1 as [[-> Ht1]|(-> & _)]; [|done].
  apply floor_transition_ok in Ht2 as [[-> Ht2]|(-> & _)]; [|done]. injection Hun as <- <-.
  exists checked, auth, s, active, dec. rewrite Ht1, Ht2. by split_and!.
Qed.

(** C6: what an evaluation guarantees.  The release is the active one of its
    Plugin in the scope and was admitted; the snapshot is the retained one and
    not past its offline validity, the evidence carries exactly the retained
    floors, the second is not before the retained one and lies in the
    manifest's validity window.  And nothing denies it: no record of the whole
    presented revocation history lists, at or before the evaluation tick, the
    release digest, a descriptor digest or the publisher key that verifies the
    release, and the retained snapshot lists neither the manifest nor the
    release nor a descriptor.  The Plugin key names the snapshot revokes are
    exactly those of the keys the evidence revokes, each of them another key than
    the publisher's, so the snapshot names the publisher's key only if another key
    has the same name. *)
Theorem evaluation_sound m anchor trust_anchor roots revocations bytes e projection utc tick v :
  verify_plugin_trust_v1 trust_anchor roots revocations utc tick = Ok e ->
  evaluate_current_release m anchor bytes e projection utc tick = Ok v ->
  exists s active dec snapshot through p,
    ts_trust m !! pa_scope anchor = Some s
    /\ msc_active s !! prj_plugin_id projection = Some active
    /\ av_pmf1_digest active = prj_pmf1_digest projection
    /\ msc_decisions s !! prj_pmf1_digest projection = Some dec
    /\ dec_release_digest dec = prj_release_digest projection
    /\ evl_activation_event v = av_activation_event active
    /\ bytes = ps_tps1_bytes (policy_of s) /\ from_canonical_cbor bytes = Ok snapshot
    /\ parse_offline_valid_through_v1 (offline_valid_through snapshot) = Ok through /\ utc < through
    /\ ps_ptr1_floor (policy_of s) = Some (terminal_root e)
    /\ ps_prv1_floor (policy_of s) = Some (terminal_revocation e)
    /\ (forall u, ps_highest_trusted_utc_second (policy_of s) = Some u -> u <= utc)
    /\ prj_not_before projection <= utc < prj_not_after projection
    /\ find_publisher (evd_publishers e) (prj_owner projection) (prj_epoch projection) = Some p
    /\ (forall b r, b ∈ revocations -> revocation_decode b = Ok r ->
         (forall k, k ∈ rev_keys r -> rvk_tick k <= tick -> rvk_publisher k <> p)
         /\ (forall a, a ∈ rev_artifacts r -> rva_tick a <= tick -> rva_digest a ∉ artifact_digests projection))
    /\ (forall d, d ∈ prj_pmf1_digest projection :: artifact_digests projection ->
         d ∉ revoked_artifact_digests snapshot)
    /\ (forall id, starts_with PLUGIN_REVOKED_KEY_ID_PREFIX_V1 id = true ->
         id ∈ revoked_key_ids snapshot <-> exists k, k ∈ evd_revoked_keys e /\ k <> p
           /\ id = plugin_revoked_key_id_v1 (pk_owner k) (pk_epoch k) (pk_public k)).
Proof.
  intros He (checked & auth & s & active & dec & Hf & Hv & Hau & Hden & Hfl & Hact & Hpmf & Hdec & Hdesc
    & Hev & _)%plan_evaluate_ok.
  cbn [in_evidence in_utc in_tick in_anchor] in *. pose proof Hau as Hau'.
  apply authorize_release_ok in Hau' as (_ & _ & Hwin & _ & Hart & p & Hp & Hrk & ->).
  cbn [auth_plugin_id auth_pmf1_digest auth_release_digest auth_descriptor_digests] in *.
  destruct (verify_policy_ok _ _ _ _ Hv) as (_ & _ & Hutc & _ & (through & Hth & Hlt) & _ & Hkm & _).
  pose proof (pf_tps1 _ _ _ _ _ Hf) as Ht. destruct (authenticate_ok _ _ _ Ht) as (Hcan & _).
  pose proof (pf_floors _ _ _ _ _ Hf) as Hret. rewrite Hfl in Hret. unfold from_retained in Hret.
  exists s, active, dec, (tps_snapshot (cp_tps1 checked)), through, p.
  split_and!; try done.
  - apply (pf_scope _ _ _ _ _ Hf).
  - unfold decision_describes in Hdesc. by bool_props.
  - apply (pf_continuity _ _ _ _ _ Hf).
  - destruct (ps_ptr1_floor (policy_of s)), (ps_prv1_floor (policy_of s)); try done. by injection Hret as -> _.
  - destruct (ps_ptr1_floor (policy_of s)), (ps_prv1_floor (policy_of s)); try done. by injection Hret as _ ->.
  - apply (pf_utc _ _ _ _ _ Hf).
  - lia.
  - lia.
  - intros b r Hb Hr. destruct (evidence_denies _ _ _ _ _ _ _ _ He Hb Hr) as [Hk Ha]. split.
    + intros k Hin Htick <-. by apply Hrk, Hk.
    + intros a Hin Htick Hx. by eapply Hart, Ha.
  - exact (artifact_denial_ok _ _ _ _ Ht Hden).
  - intros id Hpre. split.
    + intros Hin. destruct (check_revoked_key_mapping_back _ _ _ Hkm Hin Hpre) as (k & Hk & ->).
      exists k. split_and!; [done| |done]. by intros ->.
    + intros (k & Hk & _ & ->). by apply (check_revoked_key_mapping_ok _ _ Hkm).
Qed.

(** An identical snapshot cannot move a floor.  Advancing a scope that has
    floors with the retained snapshot bytes either fails or changes nothing but
    the trusted second: the snapshot binds the PTR1 version and the PRV1 epoch,
    so no other evidence passes. *)
Theorem identical_snapshot_is_stable m anchor e utc tick s m' r :
  treachable m -> verified_evidence e -> ts_trust m !! pa_scope anchor = Some s ->
  ps_ptr1_floor (policy_of s) <> None ->
  advance_policy m anchor (ps_tps1_bytes (policy_of s)) e utc tick = (m', Ok r) ->
  m' = MkTrustStore (ts_memory m) (<[pa_scope anchor := touch_scope utc s]> (ts_trust m))
  /\ ao_outcome r = PolicyUnchanged.
Proof.
  intros Hr%treachable_ok He Hs Hfl Ha.
  apply advance_cases in Ha as [[_ [err [=]]]|(plan & s' & Hp & Hs' & -> & [= ->])].
  rewrite Hs in Hs'. injection Hs' as <-. unfold plan_advance, from_floor in Hp.
  apply rbind_ok_inv in Hp as (checked & Hc & Hp). apply check_policy_ok in Hc as (c & s' & Hf & Hv).
  pose proof (pf_scope _ _ _ _ _ Hf) as Hs'. cbn [in_anchor] in Hs'. rewrite Hs in Hs'. injection Hs' as <-.
  apply rbind_ok_inv in Hp as (fp & Hplan & Hp). apply map_err_ok_inv in Hplan.
  assert (Hne : cp_floors checked <> FloorsAbsent).
  { pose proof (pf_floors _ _ _ _ _ Hf) as Hret. intros Hx. rewrite Hx in Hret. unfold from_retained in Hret.
    by destruct (ps_ptr1_floor (policy_of s)), (ps_prv1_floor (policy_of s)). }
  destruct (identical_snapshot_keeps_floors _ _ _ _ _ _ (to_scopes _ Hr) Hf He Hv Hplan eq_refl Hne) as [Hw _].
  pose proof (pf_tps1 _ _ _ _ _ Hf) as Ht. cbn [in_anchor in_tps1_bytes] in Ht.
  destruct (so_policy _ _ (to_scopes _ Hr _ _ Hs)) as (a & Hau & _ & Hd & _).
  rewrite (pf_anchor _ _ _ _ _ Hf) in Hau. cbn [in_anchor] in Hau. rewrite Ht in Hau. injection Hau as <-.
  rewrite (pf_retained _ _ _ _ _ Hf) in Hp. change (rs_policy (msc_retained s)) with (policy_of s) in Hp.
  rewrite bool_decide_true in Hp by done. destruct (cp_floors checked) as [|r0 v0]; [done|].
  cbn [negb orb rbind] in Hp. injection Hp as <-. split; [|done]. do 2 f_equal.
  unfold commit_advance, map_policy, touch_scope. cbn [ap_row ap_write]. rewrite app_nil_r.
  unfold written in Hw. cbn [in_utc] in Hw. by rewrite <- Hw.
Qed.

(** ** Corruption *)

Definition not_corrupt {A} (r : RegistryResult A) : Prop := r <> Err RegistryError.CorruptState.

Lemma not_corrupt_ok {A} (a : A) : not_corrupt (Ok a).
Proof. done. Qed.
Lemma not_corrupt_err {A} e : e <> RegistryError.CorruptState -> not_corrupt (Err e : RegistryResult A).
Proof. intros He [= ->]. done. Qed.
Lemma not_corrupt_bind {A B} (r : RegistryResult A) (f : A -> RegistryResult B) :
  not_corrupt r -> (forall a, not_corrupt (f a)) -> not_corrupt (let? a := r in f a).
Proof. intros Hr Hf. destruct r as [a|e]; [apply Hf|]. intros [= ->]. by apply Hr. Qed.
Lemma not_corrupt_retype {A B} e : not_corrupt (Err e : RegistryResult A) -> not_corrupt (Err e : RegistryResult B).
Proof. intros He [= ->]. by apply He. Qed.
Lemma not_corrupt_bridge {A} (r : BridgeResult A) : not_corrupt (from_bridge r).
Proof. by destruct r. Qed.
Lemma not_corrupt_floor {A} (r : FloorResult A) : not_corrupt (from_floor r).
Proof. by destruct r. Qed.
Lemma not_corrupt_trust {A} (r : TrustResult A) : not_corrupt (from_trust r).
Proof. by destruct r. Qed.
Lemma not_corrupt_option {A} (o : option A) e : e <> RegistryError.CorruptState -> not_corrupt (ok_or o e).
Proof. intros He. destruct o; [done|by apply not_corrupt_err]. Qed.
Lemma not_corrupt_check b e : e <> RegistryError.CorruptState -> not_corrupt (registry_check b e).
Proof. intros He. destruct b; [done|by apply not_corrupt_err]. Qed.

(** Walks through a plan. *)
Ltac uncorrupt :=
  repeat first
    [ done | apply not_corrupt_ok | apply not_corrupt_bridge | apply not_corrupt_floor | apply not_corrupt_trust
    | apply not_corrupt_option; done | apply not_corrupt_check; done | apply not_corrupt_err; done
    | assumption
    | apply not_corrupt_bind; [|intros ?]
    | match goal with
      | |- not_corrupt (let '(_, _) := ?p in _) => destruct p
      | |- not_corrupt (if ?b then _ else _) => destruct b
      | |- not_corrupt (match ?x with _ => _ end) => destruct x
      end ].

Lemma from_retained_floors m scope s :
  trust_ok m -> ts_trust m !! scope = Some s ->
  exists state, from_retained (ps_ptr1_floor (policy_of s)) (ps_prv1_floor (policy_of s)) = Ok state.
Proof.
  intros Hok Hs. pose proof (so_floors _ _ (to_scopes _ Hok _ _ Hs)) as Hf. unfold floors_ok in Hf.
  destruct (ps_ptr1_floor (policy_of s)), (ps_prv1_floor (policy_of s)); try done; by eexists.
Qed.

Lemma prefix_not_corrupt m input :
  trust_ok m -> not_corrupt (check_policy_prefix (memory_transaction (ts_trust m)) input).
Proof.
  intros Hok. unfold check_policy_prefix. cbn [memory_transaction tx_scope rbind].
  destruct (ts_trust m !! pa_scope (in_anchor input)) as [s|] eqn:Hs; [|done].
  destruct (from_retained_floors _ _ _ Hok Hs) as [state Hf]. unfold policy_of in Hf.
  cbn [fmap option_fmap option_map ok_or rbind]. rewrite Hf. cbn [map_err rbind]. uncorrupt.
Qed.

Lemma release_not_corrupt m input projection proof :
  trust_ok m -> not_corrupt (check_release (memory_transaction (ts_trust m)) input projection proof).
Proof.
  intros Hok. pose proof (prefix_not_corrupt m input Hok).
  unfold check_release, check_policy, check_bridge, check_proven_release, check_release_proof,
    check_authorized_release. uncorrupt.
Qed.

Lemma fenced_not_corrupt {A} tl (op : TrustStore -> TrustWrite A) m :
  not_corrupt (op m).2 -> not_corrupt (in_activation_fence tl op m).2.
Proof.
  intros Hop. destruct (in_activation_fence tl op m) as [m' r] eqn:Hf. pose proof Hf as Hf'.
  apply in_activation_fence_cases in Hf as [[-> [e ->]]|Hf]; [|by rewrite Hf in Hop].
  unfold in_activation_fence in Hf'. destruct (with_erasure_fence_on _ _ _ _ m) as [m1 [inner|e']] eqn:Hw.
  - cbn [map_err rbind] in Hf'. injection Hf' as -> ->.
    apply with_erasure_fence_on_cases in Hw as [[_ [? [=]]]|Hw].
    destruct (op m) as [m2 r2]. injection Hw as _ ->. exact Hop.
  - cbn [map_err rbind] in Hf'. by injection Hf' as _ <-.
Qed.

Lemma append_not_corrupt m activation id now :
  not_corrupt (append_activation_event m activation id now).2.
Proof.
  unfold append_activation_event. destruct (negb _); [done|].
  by destruct (guarded_generic_append _ _ _) as [s' [[|ev evs]|e]].
Qed.

Lemma scope_not_corrupt {A} m scope f (v : RegistryResult A) :
  not_corrupt v -> not_corrupt (with_trust_scope m scope f v).2.
Proof. intros Hv. unfold with_trust_scope, with_scope. by destruct (ts_trust m !! scope). Qed.

(** Corruption is unreachable.  On a reachable store no provisioning,
    advance, admission or rollback is refused as [CorruptState], and no read of
    a policy is, whatever the arguments. *)
Theorem trust_corruption_unreachable m anchor bytes e projection proof utc tick activation id now scope :
  treachable m ->
  not_corrupt (trust_provision m anchor bytes).2
  /\ not_corrupt (advance_policy m anchor bytes e utc tick).2
  /\ not_corrupt (admit_release m anchor bytes e projection proof utc tick activation id now).2
  /\ not_corrupt (rollback m anchor bytes e projection proof utc tick activation id now).2
  /\ not_corrupt (retained_policy_state m scope).
Proof.
  intros Hok%treachable_ok. pose proof (release_not_corrupt m (MkPolicyInput anchor bytes e utc tick) projection proof Hok) as Hrel.
  pose proof (prefix_not_corrupt m (MkPolicyInput anchor bytes e utc tick) Hok) as Hpre. split_and!.
  - unfold trust_provision. assert (Hp : not_corrupt (plan_provision (memory_transaction (ts_trust m)) anchor bytes))
      by (unfold plan_provision; cbn [memory_transaction tx_scope rbind]; uncorrupt).
    destruct (plan_provision _ _ _) as [[w|]|err]; [done|done|exact (not_corrupt_retype _ Hp)].
  - unfold advance_policy. assert (Hp : not_corrupt (plan_advance (memory_transaction (ts_trust m))
      (MkPolicyInput anchor bytes e utc tick))) by (unfold plan_advance, check_policy, check_bridge; uncorrupt).
    destruct (plan_advance _ _) as [plan|err]; [by apply scope_not_corrupt|exact (not_corrupt_retype _ Hp)].
  - apply fenced_not_corrupt. unfold admit_fenced. assert (Hp : not_corrupt (plan_admit (memory_transaction (ts_trust m))
      (MkPolicyInput anchor bytes e utc tick) projection proof activation)) by (unfold plan_admit; uncorrupt).
    destruct (plan_admit _ _ _ _ _) as [[d|c]|err]; [by apply scope_not_corrupt| |exact (not_corrupt_retype _ Hp)].
    cbn [before_append faults_none]. pose proof (append_not_corrupt m activation id now) as Ha.
    destruct (append_activation_event m activation id now) as [m' [ev|err]]; [by apply scope_not_corrupt|exact (not_corrupt_retype _ Ha)].
  - apply fenced_not_corrupt. unfold rollback_fenced. assert (Hp : not_corrupt (plan_rollback (memory_transaction (ts_trust m))
      (MkPolicyInput anchor bytes e utc tick) projection proof activation)) by (unfold plan_rollback; uncorrupt).
    destruct (plan_rollback _ _ _ _ _) as [[d|c]|err]; [by apply scope_not_corrupt| |exact (not_corrupt_retype _ Hp)].
    cbn [before_append faults_none]. pose proof (append_not_corrupt m activation id now) as Ha.
    destruct (append_activation_event m activation id now) as [m' [ev|err]]; [by apply scope_not_corrupt|exact (not_corrupt_retype _ Ha)].
  - unfold retained_policy_state, scope_state. destruct (ts_trust m !! scope) as [s|] eqn:Hs; [|done].
    destruct (from_retained_floors _ _ _ Hok Hs) as [state Hf]. cbn [ok_or rbind]. unfold policy_of in Hf.
    by rewrite Hf.
Qed.
End Properties.
