(* ===== verification/TrustSample.v ===== *)
(** * A concrete run of the Plugin trust registry

    Sample instances of the interfaces (a codec for the CBOR values a snapshot
    uses, a hexadecimal printer, a signature that is the key followed by the
    digest of the message), a root, a revocation record and a snapshot signed
    with them, and a store that provisioned a scope, admitted two releases of a
    Plugin and rolled back to the first.  Every theorem of [TrustProperties] and
    [PluginTrustProperties] with a hypothesis is applied to it. *)

From Stdlib Require Import String ZArith Lia Bool.
From S2P Require Import Prelude Text SortedMap Cbor FallbackRecords Keys StrictCbor PluginTrust PluginTrustCodec PluginTrustChain WireSyntax TrustPolicy TrustBridge BridgeProperties PluginTrustProperties.
From S2P Require Import ErasureGate Events EventStore StoreHistory StoreCorrect StoreProperties FallbackRegistry FallbackFold FallbackInvariant FallbackReach FallbackProperties TrustRegistry TrustInvariant TrustProperties.

Local Open Scope Z_scope.

(** ** Instances *)

Module TrustInstances.

Definition hex_char (n : Z) : byte := byte_of_Z (if n <? 10 then 0x30 + n else 0x61 + n - 10).
Definition hex_bytes (l : list byte) : list byte :=
  l ≫= fun b => [hex_char (Z_of_byte b / 16); hex_char (Z_of_byte b mod 16)].
Definition text_of (l : list byte) : RString := default empty_string (from_utf8 l).

#[export] Instance hex_sample : HexText := {| to_hex h := text_of (hex_bytes (hash_bytes h)) |}.

Definition sign (key : Hash) (message : list byte) : list byte :=
  hash_bytes key ++ hash_bytes (sample_digest message).
Definition signature (key : Hash) (message : list byte) : Sig64 :=
  default (@Checked _ (has_len 64) (replicate 64 x00) I) (make (has_len 64) (sign key message)).

#[export] Instance ed25519_sample : Ed25519 := {|
  valid_key _ := true;
  verify_strict key message sig := bool_decide (raw sig = sign key message);
|}.

Fixpoint write_value (v : Value) : option (list byte) :=
  match v with
  | VInteger z => Some (encode_head 0 z)
  | VBytes bs => Some (encode_head 2 (len bs) ++ bs)
  | VText t => Some (encode_head 3 (str_len t) ++ as_bytes t)
  | VNull => Some [xf6]
  | VBool b => Some [if b then xf5 else xf4]
  | VArray l =>
      (fun body => encode_head 4 (len l) ++ body)
      <$> fold_right (fun v acc => w ← write_value v; r ← acc; Some (w ++ r)) (Some []) l
  | VOther _ => None
  end.

Definition read_value_head (l : list byte) : option (Z * Z * list byte) :=
  match l with
  | [] => None
  | b :: rest =>
      let major := Z_of_byte b / 32 in
      let info := Z_of_byte b mod 32 in
      let width := if info =? 24 then 1%nat else if info =? 25 then 2%nat else if info =? 26 then 4%nat else 8%nat in
      if info <? 24 then Some (major, info, rest)
      else Some (major, from_be_bytes (take width rest), drop width rest)
  end.

(** One value, and the bytes behind it. *)
Fixpoint read_value (fuel : nat) (l : list byte) : option (Value * list byte) :=
  match fuel with
  | O => None
  | S fuel' =>
      if decide (head l = Some xf6) then Some (VNull, drop 1 l) else
      if decide (head l = Some xf5) then Some (VBool true, drop 1 l) else
      if decide (head l = Some xf4) then Some (VBool false, drop 1 l) else
      h ← read_value_head l;
      let '(major, n, rest) := h in
      if major =? 0 then Some (VInteger n, rest)
      else if major =? 2 then Some (VBytes (take (Z.to_nat n) rest), drop (Z.to_nat n) rest)
      else if major =? 3 then Some (VText (text_of (take (Z.to_nat n) rest)), drop (Z.to_nat n) rest)
      else if major =? 4 then
        items ← Nat.iter (Z.to_nat n) (fun acc =>
          a ← acc; i ← read_value fuel' a.2; Some (a.1 ++ [i.1], i.2)) (Some ([], rest));
        Some (VArray items.1, items.2)
      else None
  end.

#[export] Instance ciborium_sample : Ciborium := {|
  from_reader l := fst <$> read_value 6 l;
  into_writer := write_value;
|}.
End TrustInstances.

(** ** Records *)

Module TrustSample.
Import StoreProperties.Sample FallbackProperties.RegistrySample TrustInstances.

Definition ok_value {E A} (d : A) (r : result E A) : A := match r with Ok a => a | Err _ => d end.

Definition root_public : Hash := digest x21.
Definition operator : Hash := digest x31.
Definition owner : OwnerIdV1 := @Checked _ owner_text_ok (lit "owner") I.
Definition publisher : PublisherKey := MkPublisher owner 1 (digest x41).
Definition scope : RString := lit "scope".
Definition plugin : RString := lit "org.plugin".
Definition root_key : RootKey := MkRootKey (root_key_id root_public) root_public.

Definition root_signed (signatures : list RootSignature) : PluginTrustRootRecordV1 :=
  MkRootRecord scope 1 0 31536000 None 1 [root_key] [publisher] [MkGrant plugin owner] signatures [] hash_zero.
Definition root_msg : list byte :=
  ROOT_SIGNATURE_DOMAIN ++ [x8b] ++ drop 1 (enc_root_prefix (root_signed [])).
Definition root_bytes : list byte :=
  enc_root (root_signed [MkRootSignature (rk_id root_key) (signature root_public root_msg)]).

Definition revoked : Hash := digest x99.
Definition revocation_signed (signatures : list RootSignature) : PluginRevocationRecordV1 :=
  MkRevocationRecord scope 1 0 31536000 (blake3 root_bytes) None 5 []
    [MkRevokedArtifact revoked 5 1 None] signatures [] hash_zero.
Definition revocation_msg : list byte :=
  REVOCATION_SIGNATURE_DOMAIN ++ [x8b] ++ drop 1 (enc_revocation_prefix (revocation_signed [])).
Definition revocation_bytes : list byte :=
  enc_revocation (revocation_signed [MkRootSignature (rk_id root_key) (signature root_public revocation_msg)]).

Definition trust_anchor : TrustedPluginRootAnchorV1 := MkRootAnchor scope (blake3 root_bytes).
Definition no_evidence : VerifiedPluginTrustEvidenceV1 :=
  MkEvidence scope [] [] 0 hash_zero 0 hash_zero 0 0 (0, 0) (0, 0) [] [] [] ∅ ∅ 0 0.
Definition evidence : VerifiedPluginTrustEvidenceV1 :=
  ok_value no_evidence (verify_plugin_trust_v1 trust_anchor [root_bytes] [revocation_bytes] 1000 10).

Definition snapshot_signed (sig : Sig64) : TrustPolicySnapshotV1 :=
  MkSnapshot scope 1 7 [MkPolicyRoot (plugin_root_key_id_v1 (rk_id root_key)) 1 (lit "Ed25519") root_public]
    [] [revoked] [] (lit "1971-01-01T00:00:00Z") None sig.
Definition no_signature : Sig64 := @Checked _ (has_len 64) (replicate 64 x00) I.
Definition snapshot : TrustPolicySnapshotV1 :=
  snapshot_signed (signature operator
    (ok_value [] (operator_signature_message_v1 (snapshot_signed no_signature)))).
Definition tps1_bytes : list byte := ok_value [] (to_canonical_cbor snapshot).
Definition anchor : PluginTrustPolicyAnchorV1 :=
  MkPolicyAnchor trust_anchor scope (blake3 root_bytes) operator (blake3 tps1_bytes).

(** Two releases, the second naming the first. *)
Definition projection (pmf1 release : byte) (previous : option Hash) : ValidatedPluginManifestProjectionV1 :=
  MkProjection (digest pmf1) plugin owner 3 1 0 5000 (digest release) previous [digest xa1; digest xa2].
Definition release1 := projection x51 x61 None.
Definition release2 := projection x52 x62 (Some (digest x61)).
Definition proof_of (p : ValidatedPluginManifestProjectionV1) : VerifiedPluginReleaseSignatureV1 :=
  MkReleaseProof (prj_pmf1_digest p) (prj_release_digest p) (pk_public publisher).
Definition activation_of (b : byte) : ActivationEventInputV1 :=
  MkActivation root_id (draft_new (ulid xaa) (lit "plugin.activated") [b]).

(** ** The run *)

Definition t1 : TrustStore := MkTrustStore m2 ∅.
Definition t2 : TrustStore := (trust_provision t1 anchor tps1_bytes).1.
Definition admit1 (b : byte) : TrustStore -> TrustWrite AdmittedPluginReleaseReceiptV1 := fun t =>
  admit_release t anchor tps1_bytes evidence release1 (proof_of release1) 1000 10 (activation_of x01) (ulid b) 2000.
Definition t3 : TrustStore := (admit1 x71 t2).1.
Definition admit2 : TrustWrite AdmittedPluginReleaseReceiptV1 :=
  admit_release t3 anchor tps1_bytes evidence release2 (proof_of release2) 1000 10 (activation_of x02) (ulid x72) 2001.
Definition t4 : TrustStore := admit2.1.
Definition roll : TrustWrite PluginRollbackReceiptV1 :=
  rollback t4 anchor tps1_bytes evidence release1 (proof_of release1) 1000 10 (activation_of x03) (ulid x73) 2002.
Definition t5 : TrustStore := roll.1.

Definition active_digest (t : TrustStore) : option (list byte) :=
  s ← ts_trust t !! scope; a ← msc_active s !! plugin; Some (raw (av_pmf1_digest a)).
Example admitted : active_digest t4 = Some (replicate 32 x52).
Proof. vm_compute. reflexivity. Qed.
Example rolled_back : active_digest t5 = Some (replicate 32 x51).
Proof. vm_compute. reflexivity. Qed.

(** ** What the run establishes *)

Lemma ok_value_eq {E A} (d : A) (r : result E A) : is_ok r = true -> r = Ok (ok_value d r).
Proof. by destruct r. Qed.

Lemma evidence_eq :
  verify_plugin_trust_v1 trust_anchor [root_bytes] [revocation_bytes] 1000 10 = Ok evidence.
Proof. apply ok_value_eq. vm_compute. reflexivity. Qed.

Lemma evidence_verified : verified_evidence evidence.
Proof. exists trust_anchor, [root_bytes], [revocation_bytes], 1000, 10. apply evidence_eq. Qed.

Lemma treachable_step m m' : treachable m -> tstep m m' -> treachable m'.
Proof. intros [g Hg] Hs. exists g. by eapply rtc_r. Qed.

Lemma t1_reachable : treachable t1.
Proof.
  destruct m2_reachable as [g Hg]. exists g. unfold t1, trust_initial.
  assert (Hlift : forall a b, rtc mstep a b -> rtc tstep (MkTrustStore a ∅) (MkTrustStore b ∅)).
  { intros a b Hr. induction Hr as [|a b c Hs _ IH]; [apply rtc_refl|]. eapply rtc_l; [|exact IH].
    exact (tstep_memory (MkTrustStore a ∅) b Hs). }
  by apply Hlift.
Qed.

Lemma t2_reachable : treachable t2.
Proof. apply (treachable_step t1); [apply t1_reachable|apply tstep_provision]. Qed.

Lemma row_room_sample t key :
  match t !! key with Some s => len (msc_ledger s) <? U64_MAX | None => true end = true -> row_room t key.
Proof. intros Hb s Hs. rewrite Hs in Hb. by apply Z.ltb_lt. Qed.

Ltac ready := split_and!; [|apply evidence_verified|apply row_room_sample; vm_compute; reflexivity
                           |apply room_sample; vm_compute; reflexivity].

Lemma t3_reachable : treachable t3.
Proof.
  apply (treachable_step t2); [apply t2_reachable|]. apply tstep_admit;
    [apply evidence_verified|apply row_room_sample|apply room_sample|]; vm_compute; reflexivity.
Qed.

Lemma t4_reachable : treachable t4.
Proof.
  apply (treachable_step t3); [apply t3_reachable|]. apply tstep_admit;
    [apply evidence_verified|apply row_room_sample|apply room_sample|]; vm_compute; reflexivity.
Qed.

Lemma ready2 : write_ready t2 anchor evidence (activation_of x01).
Proof. ready. apply t2_reachable. Qed.
Lemma ready4 : write_ready t4 anchor evidence (activation_of x03).
Proof. ready. apply t4_reachable. Qed.

Definition admitted_decision (r : TrustWrite AdmittedPluginReleaseReceiptV1) : option RetainedReleaseDecisionV1 :=
  match r.2 with Ok (MkAdmitReceipt d TrustCommitted) => Some d | _ => None end.
Definition rollback_facts (r : TrustWrite PluginRollbackReceiptV1) : option RollbackFactsV1 :=
  match r.2 with Ok (MkRollbackReceipt f TrustCommitted) => Some f | _ => None end.

Lemma admitted_some r :
  bool_decide (is_Some (admitted_decision r)) = true ->
  exists d, r = (r.1, Ok (MkAdmitReceipt d TrustCommitted)).
Proof.
  intros Hb%bool_decide_eq_true. unfold admitted_decision in Hb.
  destruct r as [m' [[d []]|e]]; try by destruct Hb. by exists d.
Qed.

Lemma rolled_some r :
  bool_decide (is_Some (rollback_facts r)) = true ->
  exists f, r = (r.1, Ok (MkRollbackReceipt f TrustCommitted)).
Proof.
  intros Hb%bool_decide_eq_true. unfold rollback_facts in Hb.
  destruct r as [m' [[d []]|e]]; try by destruct Hb. by exists d.
Qed.

Lemma scope_of t : bool_decide (is_Some (ts_trust t !! scope)) = true -> exists s, ts_trust t !! scope = Some s.
Proof. by intros [s Hs]%bool_decide_eq_true; exists s. Qed.

Lemma admit1_committed : exists dec,
  admit_release t2 anchor tps1_bytes evidence release1 (proof_of release1) 1000 10 (activation_of x01) (ulid x71) 2000
  = (t3, Ok (MkAdmitReceipt dec TrustCommitted)).
Proof. apply (admitted_some (admit1 x71 t2)). vm_compute. reflexivity. Qed.

Lemma roll_committed : exists facts,
  rollback t4 anchor tps1_bytes evidence release1 (proof_of release1) 1000 10 (activation_of x03) (ulid x73) 2002
  = (t5, Ok (MkRollbackReceipt facts TrustCommitted)).
Proof. apply (rolled_some roll). vm_compute. reflexivity. Qed.

Lemma evaluation_some : exists v,
  evaluate_current_release t4 anchor tps1_bytes evidence release2 1000 10 = Ok v.
Proof.
  assert (Hb : is_ok (evaluate_current_release t4 anchor tps1_bytes evidence release2 1000 10) = true)
    by (vm_compute; reflexivity).
  destruct (evaluate_current_release t4 anchor tps1_bytes evidence release2 1000 10) as [v|e]; [by exists v|done].
Qed.

(** The scope of [t3] has floors and accepts its own snapshot again. *)
Definition stable (t : TrustStore) : bool :=
  match ts_trust t !! scope with
  | Some s => bool_decide (ps_ptr1_floor (policy_of s) <> None)
      && is_ok (advance_policy t anchor (ps_tps1_bytes (policy_of s)) evidence 1000 10).2
  | None => false
  end.

Lemma advance_again : exists s m' r, ts_trust t3 !! scope = Some s /\ ps_ptr1_floor (policy_of s) <> None
  /\ advance_policy t3 anchor (ps_tps1_bytes (policy_of s)) evidence 1000 10 = (m', Ok r).
Proof.
  assert (Hb : stable t3 = true) by (vm_compute; reflexivity). unfold stable in Hb.
  destruct (ts_trust t3 !! scope) as [s|]; [|done]. apply andb_true_iff in Hb as [Hf%bool_decide_eq_true Ha].
  destruct (advance_policy t3 anchor (ps_tps1_bytes (policy_of s)) evidence 1000 10) as [m' [r|]] eqn:He; [|done].
  exists s, m', r. split; [reflexivity|split; [exact Hf|exact He]].
Qed.

(** ** Witnesses *)

Lemma trust_registry_invariant_witness :
  registry_ok (ts_memory t4) /\ exists s, ts_trust t4 !! scope = Some s /\ scope_ok scope s.
Proof.
  destruct (trust_registry_invariant t4 t4_reachable) as [Hr Hs]. split; [exact Hr|].
  destruct (scope_of t4) as [s He]; [vm_compute; reflexivity|]. exists s. split; [exact He|apply Hs, He].
Defined.

Lemma trust_policy_never_regresses_witness : scopes_le (ts_trust t2) (ts_trust t3).
Proof.
  apply (trust_policy_never_regresses t2 t3 t2_reachable). apply rtc_once, tstep_admit;
    [apply evidence_verified|apply row_room_sample|apply room_sample|]; vm_compute; reflexivity.
Defined.

Lemma admission_effect_witness : exists dec auth s s',
  authorize_release evidence release1 = Ok auth
  /\ scope_written t2 t3 anchor tps1_bytes evidence 1000
       (RowAdmission dec (av_pmf1_digest <$> msc_active s !! auth_plugin_id auth)) s s'
  /\ activation_committed t2 t3 (activation_of x01) (dec_activation_event dec).
Proof.
  destruct admit1_committed as [dec Hd]. exists dec.
  destruct (admission_effect t2 t3 anchor tps1_bytes evidence release1 (proof_of release1) 1000 10
    (activation_of x01) (ulid x71) 2000 dec ready2 Hd) as (auth & s & s' & Ha & _ & Hw & _ & _ & _ & _ & Hc).
  exists auth, s, s'. split; [exact Ha|split; [exact Hw|exact Hc]].
Defined.

Lemma admission_retry_witness : exists dec,
  admit_release t3 anchor tps1_bytes evidence release1 (proof_of release1) 1000 10 (activation_of x01) (ulid x7f) 2500
  = (t3, Ok (MkAdmitReceipt dec TrustIdempotentReplay)).
Proof.
  destruct admit1_committed as [dec Hd]. exists dec.
  apply (admission_retry t2 t3 anchor tps1_bytes evidence release1 (proof_of release1) 1000 10
    (activation_of x01) (ulid x71) 2000 (ulid x7f) 2500 dec ready2 Hd).
Defined.

Lemma rollback_effect_witness : exists facts active,
  rbf_replaced_pmf1_digest facts = av_pmf1_digest active
  /\ activation_committed t4 t5 (activation_of x03) (rbf_activation_event facts).
Proof.
  destruct roll_committed as [facts Hd]. exists facts.
  destruct (rollback_effect t4 t5 anchor tps1_bytes evidence release1 (proof_of release1) 1000 10
    (activation_of x03) (ulid x73) 2002 facts ready4 Hd)
    as (auth & s & s' & active & _ & _ & _ & _ & _ & _ & Hr & _ & _ & Hc).
  exists active. split; [exact Hr|exact Hc].
Defined.

Lemma admitted_release_evaluates_witness : exists v,
  evaluate_current_release t3 anchor tps1_bytes evidence release1 1000 10 = Ok v
  /\ evl_pmf1_digest v = prj_pmf1_digest release1.
Proof.
  destruct admit1_committed as [dec Hd]. eexists. split.
  - apply (admitted_release_evaluates t2 t3 anchor tps1_bytes evidence release1 (proof_of release1) 1000 10
      (activation_of x01) (ulid x71) 2000 dec Hd).
  - reflexivity.
Defined.

Lemma evaluation_sound_witness : exists s active,
  ts_trust t4 !! pa_scope anchor = Some s /\ msc_active s !! prj_plugin_id release2 = Some active
  /\ av_pmf1_digest active = prj_pmf1_digest release2.
Proof.
  destruct evaluation_some as [v Hv].
  destruct (evaluation_sound t4 anchor trust_anchor [root_bytes] [revocation_bytes] tps1_bytes evidence release2
    1000 10 v evidence_eq Hv) as (s & active & dec & snap & through & p & Hs & Ha & Hd & _).
  exists s, active. split; [exact Hs|split; [exact Ha|exact Hd]].
Defined.

Lemma identical_snapshot_is_stable_witness : exists s r,
  ts_trust t3 !! pa_scope anchor = Some s
  /\ advance_policy t3 anchor (ps_tps1_bytes (policy_of s)) evidence 1000 10
     = (MkTrustStore (ts_memory t3) (<[pa_scope anchor := touch_scope 1000 s]> (ts_trust t3)), Ok r)
  /\ ao_outcome r = PolicyUnchanged.
Proof.
  destruct advance_again as (s & m' & r & Hs & Hf & Ha).
  destruct (identical_snapshot_is_stable t3 anchor evidence 1000 10 s m' r t3_reachable evidence_verified Hs Hf Ha)
    as [Hm Hr].
  exists s, r. split; [exact Hs|split; [|exact Hr]]. rewrite <- Hm. exact Ha.
Defined.

Lemma trust_corruption_unreachable_witness :
  not_corrupt (rollback t4 anchor tps1_bytes evidence release1 (proof_of release1) 1000 10 (activation_of x03)
    (ulid x73) 2002).2.
Proof.
  destruct (trust_corruption_unreachable t4 anchor tps1_bytes evidence release1 (proof_of release1) 1000 10
    (activation_of x03) (ulid x73) 2002 scope t4_reachable) as (_ & _ & _ & Hr & _). exact Hr.
Defined.

(** ** Evidence and policy *)

Definition roots : list PluginTrustRootRecordV1 :=
  ok_value [] (verify_root_history trust_anchor [root_bytes] 1000).
Definition revocations : list PluginRevocationRecordV1 :=
  ok_value [] (verify_revocation_history scope roots [revocation_bytes] 1000).
Definition revocation : PluginRevocationRecordV1 :=
  ok_value (revocation_signed []) (revocation_decode revocation_bytes).
Definition authenticated_tps1 : AuthenticatedPluginTps1V1 :=
  ok_value (MkAuthenticated snapshot [] hash_zero) (authenticate_plugin_tps1_v1 anchor tps1_bytes).

Lemma roots_eq : verify_root_history trust_anchor [root_bytes] 1000 = Ok roots.
Proof. apply ok_value_eq. vm_compute. reflexivity. Qed.
Lemma revocations_eq : verify_revocation_history scope roots [revocation_bytes] 1000 = Ok revocations.
Proof. apply ok_value_eq. vm_compute. reflexivity. Qed.
Lemma revocation_eq : revocation_decode revocation_bytes = Ok revocation.
Proof. apply ok_value_eq. vm_compute. reflexivity. Qed.
Lemma authenticated_eq : authenticate_plugin_tps1_v1 anchor tps1_bytes = Ok authenticated_tps1.
Proof. apply ok_value_eq. vm_compute. reflexivity. Qed.
Lemma snapshot_eq : from_canonical_cbor tps1_bytes = Ok snapshot.
Proof. vm_compute. reflexivity. Qed.
Lemma policy_eq : verify_plugin_tps1_policy_v1 authenticated_tps1 evidence 1000 10 = Ok tt.
Proof. vm_compute. reflexivity. Qed.

Lemma root_history_custody_witness :
  authenticated trust_anchor roots \/ collides (key_preimages roots) (key_preimages roots).
Proof. destruct (root_history_custody trust_anchor [root_bytes] 1000 roots roots_eq) as (_ & _ & _ & Ha). exact Ha. Defined.

Lemma revocation_history_cumulative_witness : revocation_chain scope roots 0 None revocations.
Proof.
  destruct (revocation_history_cumulative scope roots [revocation_bytes] 1000 revocations revocations_eq) as [Hc _].
  exact Hc.
Defined.

Lemma terminal_digests_bind_histories_witness :
  collides [root_bytes] [root_bytes] \/ [root_bytes] = [root_bytes].
Proof.
  destruct (terminal_digests_bind_histories trust_anchor trust_anchor [root_bytes] [root_bytes]
    [revocation_bytes] [revocation_bytes] 1000 1000 10 10 evidence evidence evidence_eq evidence_eq) as [Hr _].
  apply Hr. reflexivity.
Defined.

(** A release whose digest the revocation record lists. *)
Lemma denied_release_never_authorized_witness :
  is_ok (authorize_release evidence (projection x53 x99 None)) = false.
Proof.
  destruct (authorize_release evidence (projection x53 x99 None)) as [a|err] eqn:Ha; [exfalso|reflexivity].
  revert Ha.
  apply (denied_release_never_authorized trust_anchor [root_bytes] [revocation_bytes] 1000 10 evidence
    revocation_bytes revocation _ a evidence_eq); [apply list_elem_of_here|apply revocation_eq|].
  left. exists (MkRevokedArtifact revoked 5 1 None).
  split; [|split; [vm_compute; discriminate|apply list_elem_of_here]].
  replace (rev_artifacts revocation) with [MkRevokedArtifact revoked 5 1 None] by (vm_compute; reflexivity).
  apply list_elem_of_here.
Defined.

Lemma snapshot_canonical_witness : to_canonical_cbor snapshot = Ok tps1_bytes.
Proof. destruct (snapshot_canonical tps1_bytes snapshot snapshot_eq) as [Hc _]. exact Hc. Defined.

Lemma revocation_lookup_exact_witness :
  lists_digest (tps_snapshot authenticated_tps1) revoked = true
  <-> revoked ∈ revoked_artifact_digests (tps_snapshot authenticated_tps1).
Proof. exact (revocation_lookup_exact anchor tps1_bytes authenticated_tps1 revoked authenticated_eq). Defined.

Lemma policy_binds_evidence_witness :
  policy_id (tps_snapshot authenticated_tps1) = evd_scope evidence
  /\ forall d, d ∈ evd_revoked_artifacts evidence -> d ∈ revoked_artifact_digests (tps_snapshot authenticated_tps1).
Proof.
  destruct (policy_binds_evidence anchor tps1_bytes authenticated_tps1 evidence 1000 10 authenticated_eq policy_eq)
    as (_ & _ & Hs & _ & _ & _ & _ & _ & _ & Hd). split; [exact Hs|exact Hd].
Defined.
End TrustSample.
