(* ===== verification/TrustedClock.v ===== *)
(** * The trusted-clock fence

    [crates/pos-core/src/trusted_clock.rs]: the fence a protected release passes.
    A reservation commits a wall sample [t_r] durably; a guard holds the
    authority lock; the handoff exposes a staged value only if a fresh sample
    lies between the high water and the decision bound [D = t_r + 32 s]; an
    overrun seen after the handoff latches the authority closed until an
    operator acknowledges it.

    The storage and guard ports, the wall source and the monotonic source are
    the traits of the source, as classes.  A fence function runs on a [Host]:
    the port, the two sources, the wait budget and the process-wide table of
    pending overruns.  Durations and monotonic marks are nanoseconds, wall times
    microseconds.  Of the records of other modules only the fields the fence
    reads are kept. *)

From Stdlib Require Import String ZArith Lia Bool.
From S2P Require Import Prelude Text FallbackRecords StrictCbor.

Local Open Scope Z_scope.

(** ** Bounds *)

Definition TRUSTED_CLOCK_GUARD_BUDGET : Z := 30 * 1000000000.
Definition TRUSTED_CLOCK_RESERVATION_WINDOW : Z := 32 * 1000000000.
Definition TRUSTED_CLOCK_WAIT_BUDGET : Z := 250 * 1000000.
Definition TRUSTED_CLOCK_FORMAT_VERSION_V1 : Z := 1.
Definition RESERVATION_WINDOW_MICROS : Z := 32000000.
Definition CLOCK_MICROS_PER_SECOND : Z := 1000000.
Definition MAX_TRUSTED_MICROS : Z := I64_MAX.

(** [i64::checked_add] of a value that is not negative. *)
Definition i64_checked_add (a b : Z) : option Z :=
  if a + b <=? I64_MAX then Some (a + b) else None.

(** ** Outcomes *)

Inductive WaitPhaseV1 := OwnerLocks | ReservationPhase | GuardPhase.

Module ClockError.
Inductive TrustedClockErrorV1 :=
| SourceUnavailable | HighWaterMissing | HighWaterCorrupt | UnsupportedFormat | Rollback
| AuthorityRegressed | WaitBudgetExceeded (phase : WaitPhaseV1) | DurabilityUnavailable
| ReservationCommitFailed | Overflow | ExpiryUnknown | Expired | WindowExceeded | OverrunLatched
| StaleAcknowledgement | AcknowledgementUnauthorized.
End ClockError.

Inductive TrustedClockPortErrorV1 := PortBusy | PortStorage | PortCorrupt.

Definition ClockResult (A : Type) : Type := result ClockError.TrustedClockErrorV1 A.
Definition PortResult (A : Type) : Type := result TrustedClockPortErrorV1 A.

Inductive TrustedClockOverrunKindV1 :=
| MonotonicBudgetExceeded | WallBeyondDecisionBound | MonotonicRegression.

Definition overrun_code (k : TrustedClockOverrunKindV1) : Z :=
  match k with MonotonicBudgetExceeded => 1 | WallBeyondDecisionBound => 2 | MonotonicRegression => 3 end.

Inductive OverrunAckReasonV1 := BenignStall | SuspendOrVmPause | OtherRecordedIncident.

Definition ack_reason_code (r : OverrunAckReasonV1) : Z :=
  match r with BenignStall => 1 | SuspendOrVmPause => 2 | OtherRecordedIncident => 3 end.

(** ** Operator authority and expiry premises *)

Definition Bytes16 : Type := checked (has_len 16).

Record PrincipalRefV1 := MkPrincipal {
  principal_id : Bytes16;
  trust_domain : RString;
}.

#[export] Instance principal_eq_dec : EqDecision PrincipalRefV1.
Proof. solve_decision. Defined.

Record AuthenticatedPrincipalResultV1 := MkAuthenticated {
  apr_principal : PrincipalRefV1;
  apr_expires_at : Z;
}.

Inductive HostAdministrativeActionV1 := AcknowledgeTrustedClockOverrun.

Record HostAdministrativeAuthorizationV1 := MkHostAuthorization {
  haa_action : HostAdministrativeActionV1;
  haa_principal : PrincipalRefV1;
  haa_trust_revision : Hash;
  haa_provenance : Hash;
}.

Record TrustedClockOverrunAcknowledgementV1 := MkAcknowledgement {
  ack_operator : AuthenticatedPrincipalResultV1;
  ack_authorization : HostAdministrativeAuthorizationV1;
  ack_expected_overrun_count : Z;
  ack_reason : OverrunAckReasonV1;
}.

(** The retention deadlines of the leases, the [expiry_secs] of the grants, the
    [valid_until] of the references, and the access authorization. *)
Record ExpiryPremisesV1 := MkPremises {
  retention_leases : list Z;
  consent_grants : list Z;
  consent_references : list Z;
  premises_access : option AuthenticatedPrincipalResultV1;
}.

(** ** Time *)

(** [duration.as_nanos().div_ceil(1_000)], refused above [i64::MAX]. *)
Definition wall_time_from_epoch_duration (nanos : Z) : ClockResult Z :=
  let micros := (nanos + 999) / 1000 in
  if micros <=? MAX_TRUSTED_MICROS then Ok micros else Err ClockError.SourceUnavailable.

(** A [SystemTime] is its signed distance from the Unix epoch. *)
Definition wall_time_from_system_time (time : Z) : ClockResult Z :=
  if time <? 0 then Err ClockError.SourceUnavailable else wall_time_from_epoch_duration time.

Class TrustedWallSourceV1 (W : Type) := {
  wall_sample : W -> W * ClockResult Z;
  wall_sample_u64 w w' t : wall_sample w = (w', Ok t) -> u64_ok t;
}.

Class GuardMonotonicSourceV1 (M : Type) := {
  mono_mark : M -> M * Z;
}.

Definition checked_elapsed_since (later earlier : Z) : option Z :=
  if earlier <=? later then Some (later - earlier) else None.

Inductive ScriptedWallSampleV1 :=
| SinceEpoch (nanos : N)
| SystemSample (time : Z)
| SampleUnavailable.

Definition scripted_sample (script : list ScriptedWallSampleV1)
    : list ScriptedWallSampleV1 * ClockResult Z :=
  match script with
  | SinceEpoch nanos :: rest => (rest, wall_time_from_epoch_duration (Z.of_N nanos))
  | SystemSample time :: rest => (rest, wall_time_from_system_time time)
  | SampleUnavailable :: rest => (rest, Err ClockError.SourceUnavailable)
  | [] => ([], Err ClockError.SourceUnavailable)
  end.

Lemma wall_time_u64 nanos t : 0 <= nanos -> wall_time_from_epoch_duration nanos = Ok t -> u64_ok t.
Proof.
  unfold wall_time_from_epoch_duration, u64_ok, U64_MAX, MAX_TRUSTED_MICROS, I64_MAX. intros Hn.
  destruct (Z.leb_spec ((nanos + 999) / 1000) 9223372036854775807); [|done]. intros [= <-].
  split; [apply Z.div_pos|]; lia.
Qed.

#[export] Instance scripted_wall : TrustedWallSourceV1 (list ScriptedWallSampleV1).
Proof.
  refine {| wall_sample := scripted_sample |}.
  intros w w' t. unfold scripted_sample, wall_time_from_system_time.
  destruct w as [|[nanos|time|] rest]; intros [= <- Ht]; try done.
  - apply (wall_time_u64 (Z.of_N nanos)); [lia|done].
  - destruct (Z.ltb_spec time 0); [done|]. by apply (wall_time_u64 time).
Defined.

(** Offsets from one origin; an exhausted script repeats its last offset.  The
    count of marks taken is left out. *)
Record ScriptedGuardMonotonicSourceV1 := MkScriptedMono {
  sm_origin : Z;
  sm_script : list Z;
  sm_last : Z;
}.

Definition scripted_mark (m : ScriptedGuardMonotonicSourceV1)
    : ScriptedGuardMonotonicSourceV1 * Z :=
  match sm_script m with
  | offset :: rest => (MkScriptedMono (sm_origin m) rest offset, sm_origin m + offset)
  | [] => (m, sm_origin m + sm_last m)
  end.

#[export] Instance scripted_mono : GuardMonotonicSourceV1 ScriptedGuardMonotonicSourceV1 :=
  {| mono_mark := scripted_mark |}.

(** ** Durable records *)

Record TrustedClockHighWaterRowV1 := MkHighWaterRow {
  hwr_format_version : Z;
  hwr_clock_domain : list byte;
  hwr_high_water_micros : Z;
  hwr_reserved_until_micros : Z;
  hwr_reservation_seq : Z;
}.

Record TrustedClockOverrunLatchRowV1 := MkLatchRow {
  olr_format_version : Z;
  olr_latched : Z;
  olr_overrun_count : Z;
  olr_last_overrun_reservation : Z;
  olr_last_overrun_kind : Z;
  olr_last_overrun_at_micros : Z;
}.

Definition UNLATCHED : TrustedClockOverrunLatchRowV1 :=
  MkLatchRow TRUSTED_CLOCK_FORMAT_VERSION_V1 0 0 0 0 0.

Record TrustedClockAcknowledgementRowV1 := MkAckRow {
  akr_acknowledged_overrun_count : Z;
  akr_operator_principal_digest : Hash;
  akr_authorization_provenance_digest : Hash;
  akr_trust_revision_digest : Hash;
  akr_acknowledged_at_micros : Z;
  akr_reason_code : Z;
}.

Record TrustedClockRowsV1 := MkClockRows {
  cr_high_water : list TrustedClockHighWaterRowV1;
  cr_overrun_latch : list TrustedClockOverrunLatchRowV1;
}.

(** ** Ports *)

Class TrustedClockStorePortV1 (S : Type) := {
  tc_verify_durability_pragmas : S -> S * PortResult bool;
  tc_begin_immediate : Z -> S -> S * PortResult unit;
  tc_catalog_entries : S -> S * PortResult Z;
  tc_read_rows : S -> S * PortResult TrustedClockRowsV1;
  tc_generate_clock_domain : S -> S * PortResult Bytes16;
  tc_write_high_water : TrustedClockHighWaterRowV1 -> S -> S * PortResult unit;
  tc_write_overrun_latch : TrustedClockOverrunLatchRowV1 -> S -> S * PortResult unit;
  tc_append_acknowledgement : TrustedClockAcknowledgementRowV1 -> S -> S * PortResult unit;
  tc_commit : S -> S * PortResult unit;
  tc_rollback : S -> S;
}.

Class ReleaseGuardPortV1 (S : Type) := {
  rg_begin_guard : Z -> S -> S * PortResult unit;
  rg_reread_rows : S -> S * PortResult TrustedClockRowsV1;
  rg_rollback_and_release : S -> S;
}.

(** ** Validation of the rows *)

Record HighWaterStateV1 := MkHighWater {
  hw_domain : Bytes16;
  hw_high_water : Z;
  hw_reserved_until : Z;
  hw_seq : Z;
}.

Record LatchStateV1 := MkLatch {
  lt_latched : bool;
  lt_overrun_count : Z;
  lt_row : TrustedClockOverrunLatchRowV1;
}.

Definition single_row {T} (rows : list T) : ClockResult T :=
  match rows with
  | [row] => Ok row
  | [] => Err ClockError.HighWaterMissing
  | _ => Err ClockError.HighWaterCorrupt
  end.

Definition validate_high_water (row : TrustedClockHighWaterRowV1) : ClockResult HighWaterStateV1 :=
  let ordered := (0 <=? hwr_high_water_micros row)
    && (hwr_high_water_micros row <=? hwr_reserved_until_micros row)
    && (0 <=? hwr_reservation_seq row) in
  match make (has_len 16) (hwr_clock_domain row) with
  | Some domain =>
      if ordered then Ok (MkHighWater domain (hwr_high_water_micros row)
        (hwr_reserved_until_micros row) (hwr_reservation_seq row))
      else Err ClockError.HighWaterCorrupt
  | None => Err ClockError.HighWaterCorrupt
  end.

Definition validate_latch (row : TrustedClockOverrunLatchRowV1) : ClockResult LatchStateV1 :=
  if ((olr_latched row =? 0) || (olr_latched row =? 1))
     && (0 <=? olr_overrun_count row)
     && (0 <=? olr_last_overrun_reservation row)
     && ((0 <=? olr_last_overrun_kind row) && (olr_last_overrun_kind row <=? 3))
     && (0 <=? olr_last_overrun_at_micros row)
  then Ok (MkLatch (olr_latched row =? 1) (olr_overrun_count row) row)
  else Err ClockError.HighWaterCorrupt.

Definition validate_rows (rows : TrustedClockRowsV1) : ClockResult (HighWaterStateV1 * LatchStateV1) :=
  let? high_water := single_row (cr_high_water rows) in
  let? latch := single_row (cr_overrun_latch rows) in
  if negb (hwr_format_version high_water =? TRUSTED_CLOCK_FORMAT_VERSION_V1)
     || negb (olr_format_version latch =? TRUSTED_CLOCK_FORMAT_VERSION_V1)
  then Err ClockError.UnsupportedFormat else
  let? high_water := validate_high_water high_water in
  let? latch := validate_latch latch in
  Ok (high_water, latch).

(** ** Errors of the ports *)

Definition write_error (_ : TrustedClockPortErrorV1) : ClockError.TrustedClockErrorV1 :=
  ClockError.ReservationCommitFailed.

Definition durability_error (_ : TrustedClockPortErrorV1) : ClockError.TrustedClockErrorV1 :=
  ClockError.DurabilityUnavailable.

Definition lock_outcome (phase : WaitPhaseV1) (error : TrustedClockPortErrorV1)
    : ClockError.TrustedClockErrorV1 :=
  match error with
  | PortBusy => ClockError.WaitBudgetExceeded phase
  | PortStorage | PortCorrupt => ClockError.DurabilityUnavailable
  end.

Definition read_outcome (error : TrustedClockPortErrorV1) : ClockError.TrustedClockErrorV1 :=
  match error with
  | PortCorrupt => ClockError.HighWaterCorrupt
  | PortBusy | PortStorage => ClockError.DurabilityUnavailable
  end.

(** ** The host a fence function runs on *)

Record PendingOverrunV1 := MkPending {
  pd_kind : TrustedClockOverrunKindV1;
  pd_reservation_seq : Z;
  pd_at_micros : Z;
}.

(** [PENDING_OVERRUNS], keyed by clock domain. *)
Definition PendingOverruns : Type := gmap Bytes16 PendingOverrunV1.

Record Host (S W M : Type) := MkHost {
  h_port : S;
  h_wall : W;
  h_mono : M;
  h_wait : Z;
  h_pending : PendingOverruns;
}.
Arguments MkHost {S W M}.
Arguments h_port {S W M}.
Arguments h_wall {S W M}.
Arguments h_mono {S W M}.
Arguments h_wait {S W M}.
Arguments h_pending {S W M}.

Section Setters.
Context {S W M : Type}.
Implicit Type h : Host S W M.

Definition with_port (s : S) h := MkHost s (h_wall h) (h_mono h) (h_wait h) (h_pending h).
Definition with_wall (w : W) h := MkHost (h_port h) w (h_mono h) (h_wait h) (h_pending h).
Definition with_mono (m : M) h := MkHost (h_port h) (h_wall h) m (h_wait h) (h_pending h).
Definition with_wait (z : Z) h := MkHost (h_port h) (h_wall h) (h_mono h) z (h_pending h).
Definition with_pending (p : PendingOverruns) h := MkHost (h_port h) (h_wall h) (h_mono h) (h_wait h) p.
End Setters.

Definition FenceM (S W M A : Type) : Type := Host S W M -> Host S W M * ClockResult A.

Definition fret {S W M A} (a : A) : FenceM S W M A := fun h => (h, Ok a).
Definition flift {S W M A} (r : ClockResult A) : FenceM S W M A := fun h => (h, r).
Definition fbind {S W M A B} (m : FenceM S W M A) (k : A -> FenceM S W M B) : FenceM S W M B := fun h =>
  match m h with
  | (h', Ok a) => k a h'
  | (h', Err e) => (h', Err e)
  end.
(** The outcome of a step as a value, for the callers that clean up after it. *)
Definition fcatch {S W M A} (m : FenceM S W M A) : FenceM S W M (ClockResult A) := fun h =>
  let (h', r) := m h in (h', Ok r).

Declare Scope fence_scope.
Delimit Scope fence_scope with fence.
Notation "'do?' x ':=' e 'in' k" := (fbind e (fun x => k))
  (at level 10, x pattern, e at level 200, k at level 200,
   format "'[v' 'do?'  x  ':='  e  'in' '/' k ']'") : fence_scope.
Open Scope fence_scope.

Record TrustedClockReservationV1 := MkReservation {
  rsv_domain : Bytes16;
  rsv_seq : Z;
  rsv_sampled : Z;
  rsv_decision_bound : Z;
  rsv_g0 : Z;
}.

Inductive ReserveStepV1 :=
| Reserved (reservation : TrustedClockReservationV1)
| LatchCommitted (domain : Bytes16).

Record ReleaseGuardV1 := MkGuard {
  grd_reservation : TrustedClockReservationV1;
  grd_high_water : Z;
}.

Record ApplicableExpiriesV1 := MkExpiries {
  exp_domain : Bytes16;
  exp_reservation_seq : Z;
  exp_earliest : Z;
}.

Record AuthorizedArtifactUseV1 (C : Type) := MkUse {
  use_value : C;
  use_overrun : option TrustedClockOverrunKindV1;
}.
Arguments MkUse {C}.
Arguments use_value {C}.
Arguments use_overrun {C}.

Class ProtectedHandoffTargetV1 (T C : Type) := target_commit : T -> C.

Record StagedArtifactBytesV1 := MkStaged { staged_bytes : list byte }.

#[export] Instance staged_target : ProtectedHandoffTargetV1 StagedArtifactBytesV1 (list byte) :=
  staged_bytes.

(** ** Pure decisions *)

Definition latched_row (latch : LatchStateV1) (pending : PendingOverrunV1)
    : ClockResult TrustedClockOverrunLatchRowV1 :=
  match i64_checked_add (lt_overrun_count latch) 1 with
  | None => Err ClockError.Overflow
  | Some overrun_count =>
      Ok (MkLatchRow TRUSTED_CLOCK_FORMAT_VERSION_V1 1 overrun_count (pd_reservation_seq pending)
            (overrun_code (pd_kind pending)) (pd_at_micros pending))
  end.

Definition reserved_row (state : HighWaterStateV1) (sampled g0 : Z)
    : ClockResult (TrustedClockHighWaterRowV1 * TrustedClockReservationV1) :=
  if sampled <? hw_high_water state then Err ClockError.Rollback else
  match i64_checked_add (hw_seq state) 1, i64_checked_add sampled RESERVATION_WINDOW_MICROS with
  | Some seq, Some decision_bound =>
      Ok (MkHighWaterRow TRUSTED_CLOCK_FORMAT_VERSION_V1 (raw (hw_domain state)) sampled
            (Z.max (hw_reserved_until state) decision_bound) seq,
          MkReservation (hw_domain state) seq sampled decision_bound g0)
  | _, _ => Err ClockError.Overflow
  end.

Definition guarded_high_water (pending : PendingOverruns) (rows : TrustedClockRowsV1)
    (reservation : TrustedClockReservationV1) : ClockResult Z :=
  let? (high_water, latch) := validate_rows rows in
  let other_domain := negb (bool_decide (hw_domain high_water = rsv_domain reservation)) in
  let older_sequence := hw_seq high_water <? rsv_seq reservation in
  let older_sample := hw_high_water high_water <? rsv_sampled reservation in
  if other_domain || older_sequence || older_sample then Err ClockError.AuthorityRegressed
  else if lt_latched latch || bool_decide (is_Some (pending !! hw_domain high_water))
  then Err ClockError.OverrunLatched
  else Ok (hw_high_water high_water).

(** [Iterator::min] of the lease deadlines. *)
Definition list_min (l : list Z) : option Z :=
  match l with [] => None | x :: l => Some (fold_left Z.min l x) end.

Definition earliest_expiry (premises : ExpiryPremisesV1) : ClockResult Z :=
  let? access := ok_or (premises_access premises) ClockError.ExpiryUnknown in
  let? retention := ok_or (list_min (retention_leases premises)) ClockError.ExpiryUnknown in
  let consent := (fun secs => secs * CLOCK_MICROS_PER_SECOND)
    <$> List.filter (fun secs => negb (secs =? 0)) (consent_grants premises) in
  let floor := Z.min retention (apr_expires_at access) in
  Ok (fold_left Z.min (consent ++ consent_references premises) floor).

Definition applicable_expiries (guard : ReleaseGuardV1) (premises : ExpiryPremisesV1)
    : ClockResult ApplicableExpiriesV1 :=
  let? earliest := earliest_expiry premises in
  let reservation := grd_reservation guard in
  if rsv_decision_bound reservation <? earliest
  then Ok (MkExpiries (rsv_domain reservation) (rsv_seq reservation) earliest)
  else Err ClockError.Expired.

Definition authorize_acknowledgement (request : TrustedClockOverrunAcknowledgementV1) (sampled : Z)
    : ClockResult unit :=
  let authorized := bool_decide
    (haa_principal (ack_authorization request) = apr_principal (ack_operator request)) in
  let unexpired := sampled <? apr_expires_at (ack_operator request) in
  if authorized && unexpired then Ok tt else Err ClockError.AcknowledgementUnauthorized.

Section Digests.
Context `{Blake3}.

Definition PRINCIPAL_DIGEST_DOMAIN : list byte :=
  list_byte_of_string "pigloros.trusted-clock.operator-principal.v1" ++ [x00].

Definition principal_digest (principal : PrincipalRefV1) : Hash :=
  blake3 (PRINCIPAL_DIGEST_DOMAIN ++ raw (principal_id principal) ++ as_bytes (trust_domain principal)).

Definition acknowledgement_row (request : TrustedClockOverrunAcknowledgementV1)
    (overrun_count sampled : Z) : TrustedClockAcknowledgementRowV1 :=
  MkAckRow overrun_count (principal_digest (apr_principal (ack_operator request)))
    (haa_provenance (ack_authorization request)) (haa_trust_revision (ack_authorization request))
    sampled (ack_reason_code (ack_reason request)).
End Digests.

(** ** The fence *)

Section Fence.
Context {S W M : Type}.
Context `{TrustedClockStorePortV1 S} `{ReleaseGuardPortV1 S} `{TrustedWallSourceV1 W}
  `{GuardMonotonicSourceV1 M}.
Local Abbreviation Fence := (FenceM S W M).

(** One call of the port, its error mapped. *)
Definition on_port {A} (error : TrustedClockPortErrorV1 -> ClockError.TrustedClockErrorV1)
    (call : S -> S * PortResult A) : Fence A := fun h =>
  let (s', r) := call (h_port h) in
  (with_port s' h, map_err error r).

Definition port_cleanup (call : S -> S) : Fence unit := fun h =>
  (with_port (call (h_port h)) h, Ok tt).

Definition take_mark : Fence Z := fun h =>
  let (m', mark) := mono_mark (h_mono h) in
  (with_mono m' h, Ok mark).

Definition sample_trusted : Fence Z := fun h =>
  let (w', sample) := wall_sample (h_wall h) in
  (with_wall w' h,
   match sample with
   | Ok micros => if micros <=? I64_MAX then Ok micros else Err ClockError.SourceUnavailable
   | Err _ => Err ClockError.SourceUnavailable
   end).

Definition wait_remaining : Fence Z := fun h => (h, Ok (h_wait h)).

(** [WaitBudgetV1::charge]. *)
Definition charge (phase : WaitPhaseV1) (waited : Z) : Fence unit := fun h =>
  if waited <=? h_wait h
  then (with_wait (h_wait h - waited) h, Ok tt)
  else (h, Err (ClockError.WaitBudgetExceeded phase)).

Definition charge_wait (phase : WaitPhaseV1) (before after : Z) : Fence unit :=
  do? waited := flift (ok_or (checked_elapsed_since after before) ClockError.Rollback) in
  charge phase waited.

Definition pending_overrun (domain : Bytes16) : Fence (option PendingOverrunV1) := fun h =>
  (h, Ok (h_pending h !! domain)).

Definition update_pending (f : PendingOverruns -> PendingOverruns) : Fence unit := fun h =>
  (with_pending (f (h_pending h)) h, Ok tt).

Definition set_pending_overrun (domain : Bytes16) (pending : PendingOverrunV1) : Fence unit :=
  update_pending (insert domain pending).

Definition clear_pending_overrun (domain : Bytes16) : Fence unit := update_pending (delete domain).

Definition write_pending_latch (high_water : HighWaterStateV1) (latch : LatchStateV1) : Fence bool :=
  do? found := pending_overrun (hw_domain high_water) in
  match found with
  | None => fret false
  | Some pending =>
      do? row := flift (latched_row latch pending) in
      do? _ := on_port write_error (tc_write_overrun_latch row) in
      fret true
  end.

Definition commit_or_rollback (error : ClockError.TrustedClockErrorV1) : Fence unit :=
  do? committed := fcatch (on_port write_error tc_commit) in
  match committed with
  | Ok _ => fret tt
  | Err _ =>
      do? _ := port_cleanup tc_rollback in
      flift (Err error)
  end.

Definition begin_reservation_tx (timeout : Z) : Fence unit :=
  on_port (lock_outcome ReservationPhase) (tc_begin_immediate timeout).

Definition require_durability : Fence unit :=
  do? verified := fcatch (on_port durability_error tc_verify_durability_pragmas) in
  match verified with
  | Ok true => fret tt
  | _ => flift (Err ClockError.DurabilityUnavailable)
  end.

(** The two conditional writes of the migration. *)
Definition create_high_water (rows : TrustedClockRowsV1) (sampled : Z)
    : Fence (list TrustedClockHighWaterRowV1) :=
  match cr_high_water rows with
  | [] =>
      do? domain := on_port durability_error tc_generate_clock_domain in
      let row := MkHighWaterRow TRUSTED_CLOCK_FORMAT_VERSION_V1 (raw domain) sampled sampled 0 in
      do? _ := on_port write_error (tc_write_high_water row) in
      fret [row]
  | present => fret present
  end.

Definition create_overrun_latch (rows : TrustedClockRowsV1) : Fence (list TrustedClockOverrunLatchRowV1) :=
  match cr_overrun_latch rows with
  | [] =>
      do? _ := on_port write_error (tc_write_overrun_latch UNLATCHED) in
      fret [UNLATCHED]
  | present => fret present
  end.

Definition has_both_rows (rows : TrustedClockRowsV1) : bool :=
  negb (bool_decide (cr_high_water rows = [])) && negb (bool_decide (cr_overrun_latch rows = [])).

Definition migrate_missing_rows (rows : TrustedClockRowsV1) : Fence (TrustedClockRowsV1 * option Z) :=
  if has_both_rows rows then fret (rows, None) else
  do? entries := on_port read_outcome tc_catalog_entries in
  if negb (entries =? 0) then flift (Err ClockError.HighWaterMissing) else
  do? sampled := sample_trusted in
  do? high_water := create_high_water rows sampled in
  do? overrun_latch := create_overrun_latch rows in
  fret (MkClockRows high_water overrun_latch, Some sampled).

Definition reserve_in_transaction (g0 : Z) : Fence ReserveStepV1 :=
  do? stored := on_port read_outcome tc_read_rows in
  do? (rows, presampled) := migrate_missing_rows stored in
  do? (high_water, latch) := flift (validate_rows rows) in
  if lt_latched latch then flift (Err ClockError.OverrunLatched) else
  do? wrote := write_pending_latch high_water latch in
  if (wrote : bool) then fret (LatchCommitted (hw_domain high_water)) else
  do? sampled := match presampled with Some sampled => fret sampled | None => sample_trusted end in
  do? (row, reservation) := flift (reserved_row high_water sampled g0) in
  do? _ := on_port write_error (tc_write_high_water row) in
  fret (Reserved reservation).

Definition finish_reservation (step : ClockResult ReserveStepV1) : Fence TrustedClockReservationV1 :=
  match step with
  | Ok (Reserved reservation) =>
      do? _ := commit_or_rollback ClockError.ReservationCommitFailed in
      fret reservation
  | Ok (LatchCommitted domain) =>
      do? committed := fcatch (commit_or_rollback ClockError.OverrunLatched) in
      do? _ := if is_ok committed then clear_pending_overrun domain else fret tt in
      flift (Err ClockError.OverrunLatched)
  | Err error =>
      do? _ := port_cleanup tc_rollback in
      flift (Err error)
  end.

Definition reserve_trusted_clock (owner_lock_g0 : option Z) : Fence TrustedClockReservationV1 :=
  do? _ := require_durability in
  do? before := take_mark in
  if match owner_lock_g0 with Some mark => before <? mark | None => false end
  then flift (Err ClockError.Rollback) else
  do? remaining := wait_remaining in
  do? _ := begin_reservation_tx remaining in
  do? acquired := take_mark in
  let g0 := default acquired owner_lock_g0 in
  do? step := fcatch (do? _ := charge_wait ReservationPhase before acquired in
                      reserve_in_transaction g0) in
  finish_reservation step.

Definition open_release_guard (reservation : TrustedClockReservationV1) : Fence ReleaseGuardV1 :=
  do? before := take_mark in
  do? remaining := wait_remaining in
  do? _ := on_port (lock_outcome GuardPhase) (rg_begin_guard remaining) in
  do? acquired := take_mark in
  do? checked := fcatch (
    do? _ := charge_wait GuardPhase before acquired in
    do? rows := on_port read_outcome rg_reread_rows in
    fun h => (h, guarded_high_water (h_pending h) rows reservation)) in
  match checked with
  | Ok high_water => fret (MkGuard reservation high_water)
  | Err error =>
      do? _ := port_cleanup rg_rollback_and_release in
      flift (Err error)
  end.

(** [Drop for ReleaseGuardV1]. *)
Definition drop_guard : Fence unit := port_cleanup rg_rollback_and_release.

Definition final_check (guard : ReleaseGuardV1) : Fence unit :=
  let reservation := grd_reservation guard in
  do? mark := take_mark in
  do? elapsed := flift (ok_or (checked_elapsed_since mark (rsv_g0 reservation)) ClockError.Rollback) in
  if TRUSTED_CLOCK_GUARD_BUDGET <? elapsed then flift (Err ClockError.WindowExceeded) else
  do? final_sample := sample_trusted in
  if final_sample <? Z.max (rsv_sampled reservation) (grd_high_water guard)
  then flift (Err ClockError.Rollback) else
  if rsv_decision_bound reservation <? final_sample
  then flift (Err ClockError.WindowExceeded)
  else fret tt.

Definition overrun_kind (elapsed : option Z) (post_sample : ClockResult Z) (decision_bound : Z)
    : option TrustedClockOverrunKindV1 :=
  match elapsed with
  | None => Some MonotonicRegression
  | Some elapsed =>
      if TRUSTED_CLOCK_RESERVATION_WINDOW <? elapsed then Some MonotonicBudgetExceeded else
      match post_sample with
      | Ok sample => if sample <=? decision_bound then None else Some WallBeyondDecisionBound
      | Err _ => Some WallBeyondDecisionBound
      end
  end.

Definition post_handoff_overrun (guard : ReleaseGuardV1) : Fence (option TrustedClockOverrunKindV1) :=
  let reservation := grd_reservation guard in
  do? mark := take_mark in
  do? post_sample := fcatch sample_trusted in
  let kind := overrun_kind (checked_elapsed_since mark (rsv_g0 reservation)) post_sample
                (rsv_decision_bound reservation) in
  do? _ := match kind with
    | None => fret tt
    | Some kind =>
        let at_micros := match post_sample with Ok sample => sample | Err _ => rsv_decision_bound reservation end in
        set_pending_overrun (rsv_domain reservation)
          (MkPending kind (rsv_seq reservation) at_micros)
    end in
  fret kind.

(** The guard is dropped on every return. *)
Definition handoff_checked {T C} `{ProtectedHandoffTargetV1 T C} (guard : ReleaseGuardV1)
    (expiries : ApplicableExpiriesV1) (staged : T) : Fence (AuthorizedArtifactUseV1 C) :=
  do? outcome := fcatch (
    if negb (bool_decide (exp_domain expiries = rsv_domain (grd_reservation guard)))
       || negb (exp_reservation_seq expiries =? rsv_seq (grd_reservation guard))
    then flift (Err ClockError.AuthorityRegressed) else
    do? _ := final_check guard in
    let value := target_commit staged in
    do? overrun := post_handoff_overrun guard in
    fret (MkUse value overrun)) in
  do? _ := drop_guard in
  flift outcome.

Definition latch_in_transaction : Fence (option Bytes16) :=
  do? rows := on_port read_outcome tc_read_rows in
  do? (high_water, latch) := flift (validate_rows rows) in
  do? wrote := write_pending_latch high_water latch in
  fret (if (wrote : bool) then Some (hw_domain high_water) else None).

Definition commit_pending_overrun_latch : Fence bool :=
  do? _ := require_durability in
  do? _ := begin_reservation_tx TRUSTED_CLOCK_WAIT_BUDGET in
  do? step := fcatch latch_in_transaction in
  match step with
  | Ok (Some domain) =>
      do? _ := commit_or_rollback ClockError.DurabilityUnavailable in
      do? _ := clear_pending_overrun domain in
      fret true
  | Ok None =>
      do? _ := port_cleanup tc_rollback in
      fret false
  | Err error =>
      do? _ := port_cleanup tc_rollback in
      flift (Err error)
  end.

Section Acknowledge.
Context `{Blake3}.

Definition acknowledge_in_transaction (request : TrustedClockOverrunAcknowledgementV1) : Fence unit :=
  do? rows := on_port read_outcome tc_read_rows in
  do? (high_water, latch) := flift (validate_rows rows) in
  do? sampled := sample_trusted in
  if sampled <? hw_high_water high_water then flift (Err ClockError.Rollback) else
  do? _ := flift (authorize_acknowledgement request sampled) in
  let expected := ack_expected_overrun_count request in
  if negb (lt_latched latch) || negb ((expected <=? I64_MAX) && (expected =? lt_overrun_count latch))
  then flift (Err ClockError.StaleAcknowledgement) else
  let row := lt_row latch in
  let cleared := MkLatchRow (olr_format_version row) 0 (olr_overrun_count row)
    (olr_last_overrun_reservation row) (olr_last_overrun_kind row) (olr_last_overrun_at_micros row) in
  do? _ := on_port write_error (tc_write_overrun_latch cleared) in
  on_port write_error (tc_append_acknowledgement
    (acknowledgement_row request (lt_overrun_count latch) sampled)).

Definition acknowledge_trusted_clock_overrun (request : TrustedClockOverrunAcknowledgementV1)
    : Fence unit :=
  do? _ := require_durability in
  do? _ := begin_reservation_tx TRUSTED_CLOCK_WAIT_BUDGET in
  do? step := fcatch (acknowledge_in_transaction request) in
  match step with
  | Ok _ => commit_or_rollback ClockError.DurabilityUnavailable
  | Err error =>
      do? _ := port_cleanup tc_rollback in
      flift (Err error)
  end.
End Acknowledge.
End Fence.
