(* ===== verification/TrustedClockSpec.v ===== *)
(** * Specifications of the trusted-clock fence

    What the fence relies on and what each of its functions does.
    [ClockPortLaws] states the transactions a port promises, over the view of
    the authority a port gives; [wp] is the weakest precondition of a fence
    function; the [*_spec] lemmas describe every outcome of every function for
    any port that satisfies the laws and any time sources. *)

From Stdlib Require Import String ZArith Lia Bool.
From S2P Require Import Prelude Text FallbackRecords StrictCbor TrustedClock.

Local Open Scope Z_scope.

(** ** The view of a port *)

Record PortView := MkView {
  pv_rows : TrustedClockRowsV1;
  pv_acks : list TrustedClockAcknowledgementRowV1;
  pv_tx : option (TrustedClockRowsV1 * list TrustedClockAcknowledgementRowV1);
  pv_locked : bool;
  pv_held : bool;
}.

(** Nobody holds the authority lock. *)
Definition free (v : PortView) : Prop := pv_locked v = false /\ pv_held v = false.

(** A handle that lets go of the lock frees it. *)
Definition rolled_back (v : PortView) : PortView :=
  MkView (pv_rows v) (pv_acks v) None false (if pv_locked v then false else pv_held v).
Definition committed_view (v : PortView) rows acks : PortView :=
  MkView rows (pv_acks v ++ acks) None false (if pv_locked v then false else pv_held v).
Definition with_tx (v : PortView) rows acks : PortView :=
  MkView (pv_rows v) (pv_acks v) (Some (rows, acks)) (pv_locked v) (pv_held v).

Definition set_high_water (row : TrustedClockHighWaterRowV1) (rows : TrustedClockRowsV1) :=
  MkClockRows [row] (cr_overrun_latch rows).
Definition set_latch (row : TrustedClockOverrunLatchRowV1) (rows : TrustedClockRowsV1) :=
  MkClockRows (cr_high_water rows) [row].

(** A call leaves the view alone when it fails. *)
Definition call_law {S A} (pv : S -> PortView) (s : S) (out : S * PortResult A)
    (ok : A -> PortView -> Prop) : Prop :=
  match out with
  | (s', Ok a) => ok a (pv s')
  | (s', Err _) => pv s' = pv s
  end.

Class ClockPortLaws (S : Type) `{TrustedClockStorePortV1 S} `{ReleaseGuardPortV1 S} := {
  pv : S -> PortView;
  law_verify s : call_law pv s (tc_verify_durability_pragmas s) (fun _ v => v = pv s);
  law_begin t s : call_law pv s (tc_begin_immediate t s) (fun _ v => free (pv s)
    /\ v = MkView (pv_rows (pv s)) (pv_acks (pv s)) (Some (pv_rows (pv s), [])) true true);
  law_catalog s : call_law pv s (tc_catalog_entries s) (fun _ v => v = pv s);
  law_read s : call_law pv s (tc_read_rows s) (fun rows v => v = pv s
    /\ exists acks, pv_tx v = Some (rows, acks));
  law_domain s : call_law pv s (tc_generate_clock_domain s) (fun _ v => v = pv s);
  law_write_high_water row s : call_law pv s (tc_write_high_water row s) (fun _ v =>
    exists rows acks, pv_tx (pv s) = Some (rows, acks)
      /\ v = with_tx (pv s) (set_high_water row rows) acks);
  law_write_latch row s : call_law pv s (tc_write_overrun_latch row s) (fun _ v =>
    exists rows acks, pv_tx (pv s) = Some (rows, acks)
      /\ v = with_tx (pv s) (set_latch row rows) acks);
  law_append row s : call_law pv s (tc_append_acknowledgement row s) (fun _ v =>
    exists rows acks, pv_tx (pv s) = Some (rows, acks)
      /\ v = with_tx (pv s) rows (acks ++ [row]));
  law_commit s : call_law pv s (tc_commit s) (fun _ v =>
    exists rows acks, pv_tx (pv s) = Some (rows, acks)
      /\ v = committed_view (pv s) rows acks);
  law_rollback s : pv (tc_rollback s) = rolled_back (pv s);
  law_begin_guard t s : call_law pv s (rg_begin_guard t s) (fun _ v => free (pv s)
    /\ v = MkView (pv_rows (pv s)) (pv_acks (pv s)) (pv_tx (pv s)) true true);
  law_reread s : call_law pv s (rg_reread_rows s) (fun rows v => v = pv s /\ rows = pv_rows v);
  law_release s : pv (rg_rollback_and_release s) = rolled_back (pv s);
}.

(** ** Weakest preconditions *)

Section Wp.
Context {S W M : Type}.
Implicit Type h : Host S W M.

Definition wp {A} (m : FenceM S W M A) (Q : Host S W M -> ClockResult A -> Prop) h : Prop :=
  Q (m h).1 (m h).2.

Lemma wp_run {A} (m : FenceM S W M A) Q h h' r : m h = (h', r) -> wp m Q h -> Q h' r.
Proof. unfold wp. by intros ->. Qed.

Lemma wp_mono {A} (m : FenceM S W M A) (P Q : Host S W M -> ClockResult A -> Prop) h :
  (forall h' r, P h' r -> Q h' r) -> wp m P h -> wp m Q h.
Proof. unfold wp. auto. Qed.

Lemma wp_ret {A} (a : A) Q h : Q h (Ok a) -> wp (fret a) Q h.
Proof. done. Qed.

Lemma wp_lift {A} (r : ClockResult A) Q h : Q h r -> wp (flift r) Q h.
Proof. done. Qed.

Lemma wp_bind {A B} (m : FenceM S W M A) (k : A -> FenceM S W M B) Q h :
  wp m (fun h' r => match r with Ok a => wp (k a) Q h' | Err e => Q h' (Err e) end) h ->
  wp (fbind m k) Q h.
Proof. unfold wp, fbind. by destruct (m h) as [h' [a|e]]. Qed.

Lemma wp_catch {A} (m : FenceM S W M A) Q h :
  wp m (fun h' r => Q h' (Ok r)) h -> wp (fcatch m) Q h.
Proof. unfold wp, fcatch. by destruct (m h). Qed.
End Wp.

Section Primitives.
Context {S W M : Type}.
Context `{ClockPortLaws S} `{TrustedWallSourceV1 W} `{GuardMonotonicSourceV1 M}.
Implicit Type h : Host S W M.

Definition view h : PortView := pv (h_port h).

Lemma wp_on_port {A} error call (Q : Host S W M -> ClockResult A -> Prop) h
    (ok : A -> PortView -> Prop) :
  call_law pv (h_port h) (call (h_port h)) ok ->
  (forall s' a, ok a (pv s') -> Q (with_port s' h) (Ok a)) ->
  (forall s' e, pv s' = view h -> Q (with_port s' h) (Err (error e))) ->
  wp (on_port error call) Q h.
Proof. unfold wp, on_port, call_law. destruct (call (h_port h)) as [s' [a|e]]; simpl; auto. Qed.

Lemma wp_cleanup call (Q : Host S W M -> ClockResult unit -> Prop) h :
  Q (with_port (call (h_port h)) h) (Ok tt) -> wp (port_cleanup call) Q h.
Proof. done. Qed.

Lemma wp_mark (Q : Host S W M -> ClockResult Z -> Prop) h :
  (forall m' mark, mono_mark (h_mono h) = (m', mark) -> Q (with_mono m' h) (Ok mark)) ->
  wp take_mark Q h.
Proof. unfold wp, take_mark. destruct (mono_mark (h_mono h)) eqn:Hm. intros HQ. by apply HQ. Qed.

(** A trusted sample is what the wall source returned, if it fits an [i64]. *)
Definition sampled_from h (t : Z) (w' : W) : Prop :=
  wall_sample (h_wall h) = (w', Ok t) /\ 0 <= t <= I64_MAX.

Lemma wp_sample (Q : Host S W M -> ClockResult Z -> Prop) h :
  (forall w' t, sampled_from h t w' -> Q (with_wall w' h) (Ok t)) ->
  (forall w', Q (with_wall w' h) (Err ClockError.SourceUnavailable)) ->
  wp sample_trusted Q h.
Proof.
  intros Hok Herr. unfold wp, sample_trusted. destruct (wall_sample (h_wall h)) as [w' [t|e]] eqn:Hs; simpl; [|auto].
  destruct (t <=? I64_MAX) eqn:Ht; [|auto]. apply Hok. split; [exact Hs|].
  apply wall_sample_u64 in Hs as [? _]. lia.
Qed.

Lemma wp_charge_wait phase before after (Q : Host S W M -> ClockResult unit -> Prop) h :
  (before <= after -> after - before <= h_wait h -> Q (with_wait (h_wait h - (after - before)) h) (Ok tt)) ->
  (forall e, Q h (Err e)) -> wp (charge_wait phase before after) Q h.
Proof.
  intros Hok Herr. unfold charge_wait, checked_elapsed_since. apply wp_bind, wp_lift.
  destruct (before <=? after) eqn:Hb; simpl; [|auto]. unfold wp, charge.
  destruct (after - before <=? h_wait h) eqn:Hc; simpl; [apply Hok; lia|auto].
Qed.
Lemma wp_commit error (Q : Host S W M -> ClockResult unit -> Prop) h :
  (forall s' rows acks, pv_tx (view h) = Some (rows, acks) ->
     pv s' = committed_view (view h) rows acks -> Q (with_port s' h) (Ok tt)) ->
  (forall s', pv s' = rolled_back (view h) -> Q (with_port s' h) (Err error)) ->
  wp (commit_or_rollback error) Q h.
Proof.
  intros Hok Herr. apply wp_bind, wp_catch. eapply wp_on_port; [apply law_commit| |].
  - intros s' [] (rows & acks & Ht & Hv). apply wp_ret. by apply (Hok s' rows acks).
  - intros s' e Hv. apply wp_bind, wp_cleanup, wp_lift. apply (Herr (tc_rollback s')).
    rewrite law_rollback, Hv. done.
Qed.

Lemma wp_durability (Q : Host S W M -> ClockResult unit -> Prop) h :
  (forall s', pv s' = view h -> Q (with_port s' h) (Ok tt)) ->
  (forall s' e, pv s' = view h -> Q (with_port s' h) (Err e)) ->
  wp require_durability Q h.
Proof.
  intros Hok Herr. apply wp_bind, wp_catch. eapply wp_on_port; [apply law_verify| |].
  - intros s' [] Hv; [apply wp_ret|apply wp_lift]; auto.
  - intros s' e Hv. apply wp_lift; auto.
Qed.
End Primitives.

(** ** The rows a reservation works on

    Missing rows are created by the migration. *)
Definition fill_rows (sampled : Z) (domain : Bytes16) (rows : TrustedClockRowsV1) : TrustedClockRowsV1 :=
  MkClockRows
    match cr_high_water rows with
    | [] => [MkHighWaterRow TRUSTED_CLOCK_FORMAT_VERSION_V1 (raw domain) sampled sampled 0]
    | present => present
    end
    match cr_overrun_latch rows with [] => [UNLATCHED] | present => present end.

Definition loaded (rows rows' : TrustedClockRowsV1) : Prop :=
  exists sampled domain, 0 <= sampled <= I64_MAX /\ rows' = fill_rows sampled domain rows.

Section Transactions.
Context {S W M : Type}.
Context `{ClockPortLaws S} `{TrustedWallSourceV1 W} `{GuardMonotonicSourceV1 M}.
Implicit Type h : Host S W M.

(** Inside the transaction of [v]: the working rows and acknowledgements. *)
Definition in_tx (v : PortView) rows acks : PortView := MkView (pv_rows v) (pv_acks v) (Some (rows, acks)) true true.

(** Only the port view and the pending table matter to what follows. *)
Definition at_view h (v : PortView) (p : PendingOverruns) : Prop := view h = v /\ h_pending h = p.

(** What a transaction did: committed state and pending table are untouched, the
    working state is as the outcome says. *)
Definition tx_post {A} (v : PortView) (p : PendingOverruns)
    (ok : A -> TrustedClockRowsV1 -> list TrustedClockAcknowledgementRowV1 -> Prop)
    h' (r : ClockResult A) : Prop :=
  exists rows acks, at_view h' (in_tx v rows acks) p
    /\ match r with Ok a => ok a rows acks | Err _ => True end.

Lemma wp_write_latch v p rows acks row (Q : Host S W M -> ClockResult unit -> Prop) h :
  at_view h (in_tx v rows acks) p ->
  (forall h', at_view h' (in_tx v (set_latch row rows) acks) p -> Q h' (Ok tt)) ->
  (forall h' e, at_view h' (in_tx v rows acks) p -> Q h' (Err e)) ->
  wp (on_port write_error (tc_write_overrun_latch row)) Q h.
Proof.
  intros [Hv Hp] Hok Herr. unfold view in Hv. eapply wp_on_port; [apply law_write_latch| |].
  - intros s' [] (rows' & acks' & Ht & Hs). rewrite Hv in Ht. injection Ht as <- <-.
    apply Hok. split; [|done]. unfold view; simpl. by rewrite Hs, Hv.
  - intros s' e Hs. apply Herr. split; [|done]. unfold view in *; simpl. by rewrite Hs.
Qed.

Lemma wp_write_high_water v p rows acks row (Q : Host S W M -> ClockResult unit -> Prop) h :
  at_view h (in_tx v rows acks) p ->
  (forall h', at_view h' (in_tx v (set_high_water row rows) acks) p -> Q h' (Ok tt)) ->
  (forall h' e, at_view h' (in_tx v rows acks) p -> Q h' (Err e)) ->
  wp (on_port write_error (tc_write_high_water row)) Q h.
Proof.
  intros [Hv Hp] Hok Herr. unfold view in Hv. eapply wp_on_port; [apply law_write_high_water| |].
  - intros s' [] (rows' & acks' & Ht & Hs). rewrite Hv in Ht. injection Ht as <- <-.
    apply Hok. split; [|done]. unfold view; simpl. by rewrite Hs, Hv.
  - intros s' e Hs. apply Herr. split; [|done]. unfold view in *; simpl. by rewrite Hs.
Qed.

Lemma wp_append_ack v p rows acks row (Q : Host S W M -> ClockResult unit -> Prop) h :
  at_view h (in_tx v rows acks) p ->
  (forall h', at_view h' (in_tx v rows (acks ++ [row])) p -> Q h' (Ok tt)) ->
  (forall h' e, at_view h' (in_tx v rows acks) p -> Q h' (Err e)) ->
  wp (on_port write_error (tc_append_acknowledgement row)) Q h.
Proof.
  intros [Hv Hp] Hok Herr. unfold view in Hv. eapply wp_on_port; [apply law_append| |].
  - intros s' [] (rows' & acks' & Ht & Hs). rewrite Hv in Ht. injection Ht as <- <-.
    apply Hok. split; [|done]. unfold view; simpl. by rewrite Hs, Hv.
  - intros s' e Hs. apply Herr. split; [|done]. unfold view in *; simpl. by rewrite Hs.
Qed.

Lemma wp_read_rows v p rows acks (Q : Host S W M -> ClockResult TrustedClockRowsV1 -> Prop) h :
  at_view h (in_tx v rows acks) p ->
  (forall h', at_view h' (in_tx v rows acks) p -> Q h' (Ok rows)) ->
  (forall h' e, at_view h' (in_tx v rows acks) p -> Q h' (Err e)) ->
  wp (on_port read_outcome tc_read_rows) Q h.
Proof.
  intros [Hv Hp] Hok Herr. unfold view in Hv. eapply wp_on_port; [apply law_read| |].
  - intros s' r [Hs [acks' Ht]]. rewrite Hs, Hv in Ht. injection Ht as <- <-.
    apply Hok. split; [|done]. unfold view; simpl. by rewrite Hs.
  - intros s' e Hs. apply Herr. split; [|done]. unfold view in *; simpl. by rewrite Hs.
Qed.

Lemma wp_sample_at v p (Q : Host S W M -> ClockResult Z -> Prop) h :
  at_view h v p ->
  (forall h' t w', sampled_from h t w' -> at_view h' v p -> Q h' (Ok t)) ->
  (forall h' e, at_view h' v p -> Q h' (Err e)) -> wp sample_trusted Q h.
Proof. intros Hv Hok Herr. apply wp_sample; intros; [eapply Hok|apply Herr]; done. Qed.

(** ** The transactions *)

Lemma write_pending_latch_spec v p rows acks hw latch h :
  at_view h (in_tx v rows acks) p ->
  wp (write_pending_latch hw latch) (tx_post v p (fun wrote rows' acks' => acks' = acks /\
    match p !! hw_domain hw with
    | None => wrote = false /\ rows' = rows
    | Some o => wrote = true /\ exists row, latched_row latch o = Ok row /\ rows' = set_latch row rows
    end)) h.
Proof.
  intros Hv. apply wp_bind. unfold wp at 1, pending_overrun; simpl. destruct Hv as [Hv Hp]. rewrite Hp.
  destruct (p !! hw_domain hw) as [o|].
  - apply wp_bind, wp_lift. destruct (latched_row latch o) as [row|e]; [|by exists rows, acks].
    apply wp_bind. eapply wp_write_latch; [by split| |].
    + intros h' Hv'. apply wp_ret. exists (set_latch row rows), acks. eauto 6.
    + intros h' e Hv'. by exists rows, acks.
  - apply wp_ret. by exists rows, acks.
Qed.

Lemma create_high_water_spec v p rows acks sampled h :
  0 <= sampled <= I64_MAX -> at_view h (in_tx v rows acks) p ->
  wp (create_high_water rows sampled) (tx_post v p (fun filled rows' acks' => acks' = acks /\
    exists domain, filled = cr_high_water (fill_rows sampled domain rows)
      /\ rows' = MkClockRows filled (cr_overrun_latch rows))) h.
Proof.
  intros Ht Hv. unfold create_high_water, fill_rows. destruct (cr_high_water rows) eqn:Hh.
  - apply wp_bind. eapply wp_on_port; [apply law_domain| |].
    + intros s' domain Hs. apply wp_bind. destruct Hv as [Hv Hp].
      eapply wp_write_high_water; [split; [unfold view in *; simpl; by rewrite Hs|done]| |].
      * intros h' Hv'. apply wp_ret. eexists _, acks. eauto 6.
      * intros h' e Hv'. by exists rows, acks.
    + intros s' e Hs. destruct Hv as [Hv Hp]. exists rows, acks. split; [|done]. split; [|done].
      unfold view in *; simpl. by rewrite Hs.
  - apply wp_ret. exists rows, acks. split; [done|]. split; [done|]. exists (@Checked _ (has_len 16) (replicate 16 x00) I).
    split; [done|]. destruct rows; simpl in *; by subst.
Qed.

Lemma create_latch_spec v p rows high_water acks h :
  at_view h (in_tx v (MkClockRows high_water (cr_overrun_latch rows)) acks) p ->
  wp (create_overrun_latch rows) (tx_post v p (fun filled rows' acks' => acks' = acks /\
    rows' = MkClockRows high_water filled
    /\ forall sampled domain, filled = cr_overrun_latch (fill_rows sampled domain rows))) h.
Proof.
  intros Hv. unfold create_overrun_latch, fill_rows. destruct (cr_overrun_latch rows) eqn:Hl.
  - apply wp_bind. eapply wp_write_latch; [exact Hv| |].
    + intros h' Hv'. apply wp_ret. eexists _, acks. split; [exact Hv'|]. by split_and!.
    + intros h' e Hv'. by eexists _, acks.
  - apply wp_ret. eexists _, acks. by split_and!.
Qed.

Lemma fill_rows_present sampled domain rows :
  has_both_rows rows = true -> fill_rows sampled domain rows = rows.
Proof.
  unfold has_both_rows, fill_rows. destruct rows as [[] []]; naive_solver.
Qed.

Lemma migrate_spec v p rows acks h :
  at_view h (in_tx v rows acks) p ->
  wp (migrate_missing_rows rows) (tx_post v p (fun '(filled, presampled) rows' acks' =>
    acks' = acks /\ rows' = filled /\ loaded rows filled
    /\ forall t, presampled = Some t -> 0 <= t <= I64_MAX)) h.
Proof.
  intros Hv. unfold migrate_missing_rows. destruct (has_both_rows rows) eqn:Hb.
  { apply wp_ret. exists rows, acks. split; [done|]. split_and!; try done.
    exists 0, (@Checked _ (has_len 16) (replicate 16 x00) I). split; [unfold I64_MAX; lia|].
    by rewrite fill_rows_present. }
  apply wp_bind. eapply wp_on_port; [apply law_catalog| |]; intros s' entries Hs; destruct Hv as [Hv Hp];
    (assert (Hv' : at_view (with_port s' h) (in_tx v rows acks) p)
      by (split; [unfold view in *; simpl; by rewrite Hs|done])); [|by exists rows, acks].
  destruct (negb (entries =? 0)); [by exists rows, acks|].
  apply wp_bind. eapply wp_sample_at; [exact Hv'| |]; [|intros h' e ?; by exists rows, acks].
  intros h1 t w' [_ Ht] Hv1. apply wp_bind. eapply wp_mono; [|by apply create_high_water_spec].
  intros h2 [filled|e] (rows2 & acks2 & Hv2 & Hr2); [|by exists rows2, acks2].
  destruct Hr2 as (-> & domain & -> & ->). apply wp_bind. eapply wp_mono; [|by apply create_latch_spec].
  intros h3 [filled|e] (rows3 & acks3 & Hv3 & Hr3); [|by exists rows3, acks3].
  destruct Hr3 as (-> & -> & Hf). apply wp_ret. eexists _, acks. split; [exact Hv3|]. split_and!; try done.
  - exists t, domain. split; [done|]. by rewrite (Hf t domain).
  - by intros ? [= <-].
Qed.

(** What a reservation transaction decides.  [p] is the pending table it saw. *)
Inductive reserve_decided (rows : TrustedClockRowsV1) (p : PendingOverruns) (g0 : Z)
    : ReserveStepV1 -> TrustedClockRowsV1 -> Prop :=
| decided_reserved rows' hw latch sampled row reservation :
    loaded rows rows' -> validate_rows rows' = Ok (hw, latch) -> lt_latched latch = false ->
    p !! hw_domain hw = None -> 0 <= sampled <= I64_MAX ->
    reserved_row hw sampled g0 = Ok (row, reservation) ->
    reserve_decided rows p g0 (Reserved reservation) (set_high_water row rows')
| decided_latched rows' hw latch pending row :
    loaded rows rows' -> validate_rows rows' = Ok (hw, latch) -> lt_latched latch = false ->
    p !! hw_domain hw = Some pending -> latched_row latch pending = Ok row ->
    reserve_decided rows p g0 (LatchCommitted (hw_domain hw)) (set_latch row rows').

Lemma reserve_in_transaction_spec v p rows g0 h :
  at_view h (in_tx v rows []) p ->
  wp (reserve_in_transaction g0) (tx_post v p (fun step rows' acks' =>
    acks' = [] /\ reserve_decided rows p g0 step rows')) h.
Proof.
  intros Hv. apply wp_bind. eapply wp_read_rows; [exact Hv| |intros h' e ?; by exists rows, []].
  intros h1 Hv1. apply wp_bind. eapply wp_mono; [|by apply migrate_spec].
  intros h2 [[filled presampled]|e] (rows2 & acks2 & Hv2 & Hr2); [|by exists rows2, acks2].
  destruct Hr2 as (-> & -> & Hload & Hpre). apply wp_bind, wp_lift.
  destruct (validate_rows filled) as [[hw latch]|e] eqn:Hval; [|by exists filled, []].
  destruct (lt_latched latch) eqn:Hl; [by exists filled, []|].
  apply wp_bind. eapply wp_mono; [|by apply write_pending_latch_spec].
  intros h3 [wrote|e] (rows3 & acks3 & Hv3 & Hr3); [|by exists rows3, acks3]. destruct Hr3 as [-> Hp].
  destruct (p !! hw_domain hw) as [o|] eqn:Ho.
  { destruct Hp as (-> & row & Hrow & ->). apply wp_ret. eexists _, []. split; [exact Hv3|].
    split; [done|]. by eapply decided_latched. }
  destruct Hp as [-> ->]. apply wp_bind.
  assert (Hsample : forall h t, 0 <= t <= I64_MAX -> at_view h (in_tx v filled []) p ->
    wp (do? (row, reservation) := flift (reserved_row hw t g0) in
        do? _ := on_port write_error (tc_write_high_water row) in fret (Reserved reservation))
      (tx_post v p (fun step rows' acks' => acks' = [] /\ reserve_decided rows p g0 step rows')) h).
  { intros h4 t Ht Hv4. apply wp_bind, wp_lift.
    destruct (reserved_row hw t g0) as [[row rsv]|e] eqn:Hrow; [|by exists filled, []].
    apply wp_bind. eapply wp_write_high_water; [exact Hv4| |intros h' e ?; by exists filled, []].
    intros h5 Hv5. apply wp_ret. eexists _, []. split; [exact Hv5|]. split; [done|].
    by eapply decided_reserved. }
  destruct presampled as [t|].
  - apply wp_ret. apply Hsample; auto.
  - eapply wp_sample_at; [exact Hv3| |intros h' e ?; by exists filled, []].
    intros h4 t w' [_ Ht] Hv4. by apply Hsample.
Qed.
End Transactions.

(** ** The functions of the fence *)

Section Specs.
Context {S W M : Type}.
Context `{ClockPortLaws S} `{TrustedWallSourceV1 W} `{GuardMonotonicSourceV1 M}.
Implicit Type h : Host S W M.

(** A port between two calls: no transaction is open. *)
Definition idle (v : PortView) : Prop := pv_tx v = None.

Lemma wp_begin_tx timeout v p (Q : Host S W M -> ClockResult unit -> Prop) h :
  at_view h v p ->
  (forall h', free v -> at_view h' (in_tx v (pv_rows v) []) p -> Q h' (Ok tt)) ->
  (forall h' e, at_view h' v p -> Q h' (Err e)) ->
  wp (begin_reservation_tx timeout) Q h.
Proof.
  intros [Hv Hp] Hok Herr. eapply wp_on_port; [apply law_begin| |].
  - intros s' [] [Hl Hs]. unfold view in Hv. rewrite Hv in *. apply Hok; [done|]. split; [|done]. exact Hs.
  - intros s' e Hs. apply Herr. split; [|done]. unfold view in *; simpl. by rewrite Hs.
Qed.

Lemma wp_durable v p (Q : Host S W M -> ClockResult unit -> Prop) h :
  at_view h v p ->
  (forall h', at_view h' v p -> Q h' (Ok tt)) -> (forall h' e, at_view h' v p -> Q h' (Err e)) ->
  wp require_durability Q h.
Proof.
  intros [Hv Hp] Hok Herr. apply wp_durability; intros s' *; intros; [apply Hok|apply Herr];
    (split; [unfold view in *; simpl; congruence|done]).
Qed.

Lemma rolled_back_idle v : idle v -> free v -> rolled_back v = v.
Proof. destruct v; unfold idle, free, rolled_back; simpl. by intros -> [-> ->]. Qed.

Lemma committed_in_tx v rows0 acks0 rows acks :
  free v -> committed_view (in_tx v rows0 acks0) rows acks = committed_view v rows acks.
Proof. intros [Hl Hh]. unfold committed_view. by rewrite Hl, Hh. Qed.

Lemma rolled_back_in_tx v rows acks : free v -> rolled_back (in_tx v rows acks) = rolled_back v.
Proof. intros [Hl Hh]. unfold rolled_back. by rewrite Hl, Hh. Qed.

Lemma wp_rollback v p rows acks (Q : Host S W M -> ClockResult unit -> Prop) h :
  free v -> at_view h (in_tx v rows acks) p ->
  (forall h', at_view h' (rolled_back v) p -> Q h' (Ok tt)) ->
  wp (port_cleanup tc_rollback) Q h.
Proof.
  intros Hf [Hv Hp] HQ. apply wp_cleanup, HQ. split; [|done]. unfold view in *; simpl. by rewrite law_rollback, Hv, rolled_back_in_tx.
Qed.

Lemma wp_commit_tx error v p rows acks (Q : Host S W M -> ClockResult unit -> Prop) h :
  free v -> at_view h (in_tx v rows acks) p ->
  (forall h', at_view h' (committed_view v rows acks) p -> Q h' (Ok tt)) ->
  (forall h', at_view h' (rolled_back v) p -> Q h' (Err error)) ->
  wp (commit_or_rollback error) Q h.
Proof.
  intros Hf [Hv Hp] Hok Herr. apply wp_commit.
  - intros s' rows' acks' Ht Hs. rewrite Hv in Ht, Hs. injection Ht as <- <-. apply Hok. split; [|done].
    unfold view; simpl. by rewrite Hs, committed_in_tx.
  - intros s' Hs. rewrite Hv in Hs. apply Herr. split; [|done].
    unfold view; simpl. by rewrite Hs, rolled_back_in_tx.
Qed.

(** Every outcome of a reservation. *)
Definition reserve_post (v : PortView) (p : PendingOverruns) (owner_g0 : option Z) h'
    (r : ClockResult TrustedClockReservationV1) : Prop :=
  match r with
  | Ok reservation => exists g0 rows, free v
      /\ reserve_decided (pv_rows v) p g0 (Reserved reservation) rows
      /\ (forall mark, owner_g0 = Some mark -> g0 = mark)
      /\ at_view h' (committed_view v rows []) p
  | Err e => at_view h' v p
      \/ e = ClockError.OverrunLatched /\ exists g0 domain rows, free v
         /\ reserve_decided (pv_rows v) p g0 (LatchCommitted domain) rows
         /\ at_view h' (committed_view v rows []) (delete domain p)
  end.

Lemma finish_reservation_spec v p g0 owner_g0 rows step h :
  idle v -> free v -> (forall mark, owner_g0 = Some mark -> g0 = mark) ->
  at_view h (in_tx v rows []) p ->
  match step with Ok s => reserve_decided (pv_rows v) p g0 s rows | Err _ => True end ->
  wp (finish_reservation step) (reserve_post v p owner_g0) h.
Proof.
  intros Hi Hl Hg Hv Hd. pose proof (rolled_back_idle v Hi Hl) as Hrb. destruct step as [[rsv|domain]|e]; simpl.
  - apply wp_bind. eapply wp_commit_tx; [done|exact Hv| |]; rewrite ?Hrb; [|by left].
    intros h' Hv'. apply wp_ret. by exists g0, rows.
  - apply wp_bind, wp_catch. eapply wp_commit_tx; [done|exact Hv| |]; rewrite ?Hrb; intros h' [Hv' Hp'].
    + apply wp_bind. simpl. unfold wp at 1; simpl. apply wp_lift. right. split; [done|].
      exists g0, domain, rows. split_and!; try done. unfold with_pending; simpl. by rewrite Hp'.
    + apply wp_bind, wp_ret, wp_lift. by left.
  - apply wp_bind. eapply wp_rollback; [done|exact Hv|]. rewrite Hrb. intros h' Hv'. apply wp_lift. by left.
Qed.

Lemma reserve_spec v p owner_g0 h :
  at_view h v p -> idle v -> wp (reserve_trusted_clock owner_g0) (reserve_post v p owner_g0) h.
Proof.
  intros Hv Hi. apply wp_bind. eapply wp_durable; [exact Hv| |intros; by left].
  intros h1 Hv1. apply wp_bind, wp_mark. intros m' before Hbefore.
  destruct (match owner_g0 with Some mark => before <? mark | None => false end); [by left|].
  apply wp_bind. unfold wp at 1, wait_remaining; simpl.
  apply wp_bind. eapply (wp_begin_tx _ v p); [exact Hv1| |intros; by left].
  intros h2 Hl Hv2. apply wp_bind, wp_mark. intros m'' acquired Hacq. apply wp_bind, wp_catch, wp_bind.
  assert (Hg : forall mark, owner_g0 = Some mark -> default acquired owner_g0 = mark) by by intros ? ->.
  apply wp_charge_wait.
  - intros _ _. eapply wp_mono; [|by eapply reserve_in_transaction_spec].
    intros h3 step (rows & acks & Hv3 & Hd).
    destruct step as [s|e]; [destruct Hd as [-> Hd]; by eapply finish_reservation_spec|].
    destruct Hv3 as [Hv3 Hp3]. apply wp_bind. eapply wp_rollback; [done|by split|].
    rewrite rolled_back_idle by done. intros h' Hv'. apply wp_lift. by left.
  - intros e. eapply finish_reservation_spec; [done..|exact Hv2|done].
Qed.

(** Every outcome of opening a guard. *)
Definition guard_post (v : PortView) (p : PendingOverruns) (reservation : TrustedClockReservationV1) h'
    (r : ClockResult ReleaseGuardV1) : Prop :=
  match r with
  | Ok guard => free v /\ grd_reservation guard = reservation
      /\ guarded_high_water p (pv_rows v) reservation = Ok (grd_high_water guard)
      /\ at_view h' (MkView (pv_rows v) (pv_acks v) None true true) p
  | Err _ => at_view h' v p
  end.

Lemma guard_spec v p reservation h :
  at_view h v p -> idle v -> wp (open_release_guard reservation) (guard_post v p reservation) h.
Proof.
  intros [Hv Hp] Hi. apply wp_bind, wp_mark. intros m' before _.
  apply wp_bind. unfold wp at 1, wait_remaining; simpl. apply wp_bind.
  eapply wp_on_port; [apply law_begin_guard| |].
  2: { intros s' e Hs. split; [|done]. unfold view in *; simpl in *. by rewrite Hs. }
  intros s' [] [Hl Hs]. simpl in Hl, Hs. unfold view in Hv. rewrite Hv in Hl, Hs. rewrite Hi in Hs.
  assert (Hrel : forall s, pv s = MkView (pv_rows v) (pv_acks v) None true true -> pv (rg_rollback_and_release s) = v).
  { intros s Hsv. rewrite law_release, Hsv. transitivity (rolled_back v); [|by apply rolled_back_idle].
    destruct Hl as [Hl Hh]. unfold rolled_back. by rewrite Hl, Hh. }
  apply wp_bind, wp_mark. intros m'' acquired _. apply wp_bind, wp_catch, wp_bind, wp_charge_wait.
  - intros _ _. apply wp_bind. eapply wp_on_port; [apply law_reread| |]; simpl.
    + intros s2 rows [Hs2 Hrows]. unfold wp at 1; simpl. rewrite Hs in Hs2. rewrite Hs2 in Hrows. simpl in Hrows.
      rewrite Hp, Hrows. destruct (guarded_high_water p (pv_rows v) reservation) eqn:Hg.
      * apply wp_ret. split_and!; try done.
      * apply wp_bind, wp_cleanup, wp_lift. split; [|done]. by apply Hrel.
    + intros s2 e Hs2. apply wp_bind, wp_cleanup, wp_lift. split; [|done]. apply Hrel.
      unfold view in Hs2; simpl in *. by rewrite Hs2.
  - intros e. apply wp_bind, wp_cleanup, wp_lift. split; [|done]. by apply Hrel.
Qed.

(** The instant of a handoff: one mark and one wall sample. *)
Record in_window (guard : ReleaseGuardV1) (mark t : Z) : Prop := {
  iw_order : rsv_g0 (grd_reservation guard) <= mark;
  iw_budget : mark - rsv_g0 (grd_reservation guard) <= TRUSTED_CLOCK_GUARD_BUDGET;
  iw_reserved : rsv_sampled (grd_reservation guard) <= t;
  iw_high_water : grd_high_water guard <= t;
  iw_bound : t <= rsv_decision_bound (grd_reservation guard);
}.

Lemma final_check_spec v p guard h :
  at_view h v p ->
  wp (final_check guard) (fun h' r => at_view h' v p /\
    match r with
    | Ok _ => exists mark t, (mono_mark (h_mono h)).2 = mark /\ (wall_sample (h_wall h)).2 = Ok t
        /\ in_window guard mark t
    | Err _ => True
    end) h.
Proof.
  intros Hv. apply wp_bind, wp_mark. intros m' mark Hm. apply wp_bind, wp_lift. unfold checked_elapsed_since.
  destruct (Z.leb_spec (rsv_g0 (grd_reservation guard)) mark); simpl; [|by split].
  destruct (Z.ltb_spec TRUSTED_CLOCK_GUARD_BUDGET (mark - rsv_g0 (grd_reservation guard))); [by split|].
  apply wp_bind, wp_sample; [|by split]. intros w' t [Hs _]. simpl in Hs.
  destruct (Z.ltb_spec t (Z.max (rsv_sampled (grd_reservation guard)) (grd_high_water guard))); [by split|].
  destruct (Z.ltb_spec (rsv_decision_bound (grd_reservation guard)) t); [by split|].
  apply wp_ret. split; [done|]. exists mark, t. rewrite Hm, Hs. split_and!; try done. split; lia.
Qed.

Definition pending_after (guard : ReleaseGuardV1) (kind : option TrustedClockOverrunKindV1)
    (p p' : PendingOverruns) : Prop :=
  match kind with
  | None => p' = p
  | Some kind => exists at_micros, (0 <= at_micros \/ at_micros = rsv_decision_bound (grd_reservation guard))
      /\ p' = <[rsv_domain (grd_reservation guard)
               := MkPending kind (rsv_seq (grd_reservation guard)) at_micros]> p
  end.

Lemma post_handoff_spec v p guard h :
  at_view h v p ->
  wp (post_handoff_overrun guard) (fun h' r => view h' = v
    /\ exists kind, r = Ok kind /\ pending_after guard kind p (h_pending h')) h.
Proof.
  intros [Hv Hp]. apply wp_bind, wp_mark. intros m' mark _. apply wp_bind, wp_catch.
  apply wp_sample; intros *; [intros [_ Ht]|]; apply wp_bind;
    destruct (overrun_kind _ _ _) as [kind|] eqn:Hk; unfold wp; simpl;
    (split; [done|]; eexists; split; [done|]); simpl; rewrite ?Hp; eauto.
  eexists. split; [|done]. lia.
Qed.

(** Every outcome of a handoff: the guard is released. *)
Definition handoff_post {T C} `{ProtectedHandoffTargetV1 T C} (v : PortView) (p : PendingOverruns)
    (guard : ReleaseGuardV1) (expiries : ApplicableExpiriesV1) (staged : T) h h'
    (r : ClockResult (AuthorizedArtifactUseV1 C)) : Prop :=
  view h' = rolled_back v /\
  match r with
  | Ok use => use_value use = target_commit staged
      /\ exp_domain expiries = rsv_domain (grd_reservation guard)
      /\ exp_reservation_seq expiries = rsv_seq (grd_reservation guard)
      /\ (exists mark t, (mono_mark (h_mono h)).2 = mark /\ (wall_sample (h_wall h)).2 = Ok t
           /\ in_window guard mark t)
      /\ pending_after guard (use_overrun use) p (h_pending h')
  | Err _ => h_pending h' = p
  end.

Lemma handoff_spec {T C} `{ProtectedHandoffTargetV1 T C} v p guard expiries (staged : T) h :
  at_view h v p ->
  wp (handoff_checked guard expiries staged) (handoff_post v p guard expiries staged h) h.
Proof.
  intros Hv. pose proof Hv as [Hview Hp]. apply wp_bind, wp_catch.
  assert (Hdrop : forall h1 (r : ClockResult (AuthorizedArtifactUseV1 C)), view h1 = v ->
    wp (do? _ := drop_guard in flift r) (fun h' r' => view h' = rolled_back v /\ h_pending h' = h_pending h1 /\ r' = r) h1).
  { intros h1 r Hv1. apply wp_bind, wp_cleanup, wp_lift. split; [|done]. unfold view in *; simpl. by rewrite law_release, Hv1. }
  assert (Herr : forall h1 (e : ClockError.TrustedClockErrorV1), at_view h1 v p ->
    wp (do? _ := drop_guard in flift (Err e)) (handoff_post v p guard expiries staged h) h1).
  { intros h1 e [Hv1 Hp1]. eapply wp_mono; [|by apply Hdrop]. intros h' r (Hv' & Hp' & ->). split; [done|congruence]. }
  destruct (bool_decide_reflect (exp_domain expiries = rsv_domain (grd_reservation guard))) as [Hd|]; simpl;
    [|by apply wp_lift, Herr].
  destruct (Z.eqb_spec (exp_reservation_seq expiries) (rsv_seq (grd_reservation guard))) as [Hq|]; simpl;
    [|by apply wp_lift, Herr].
  apply wp_bind. eapply wp_mono; [|by apply final_check_spec].
  intros h1 [[]|e] [Hv1 Hw]; [|by apply Herr].
  apply wp_bind. eapply wp_mono; [|by apply post_handoff_spec].
  intros h2 r (Hv2 & kind & -> & Hk). apply wp_ret. eapply wp_mono; [|by apply Hdrop].
  intros h' r (Hv' & Hp' & ->). split; [done|]. rewrite Hp'. by split_and!.
Qed.

(** Every outcome of committing a pending latch. *)
Definition latch_post (v : PortView) (p : PendingOverruns) h' (r : ClockResult bool) : Prop :=
  match r with
  | Ok true => free v /\ exists hw latch pending row, validate_rows (pv_rows v) = Ok (hw, latch)
      /\ p !! hw_domain hw = Some pending /\ latched_row latch pending = Ok row
      /\ at_view h' (committed_view v (set_latch row (pv_rows v)) []) (delete (hw_domain hw) p)
  | Ok false => at_view h' v p
      /\ exists hw latch, validate_rows (pv_rows v) = Ok (hw, latch) /\ p !! hw_domain hw = None
  | Err _ => at_view h' v p
  end.

Lemma latch_spec v p h :
  at_view h v p -> idle v -> wp commit_pending_overrun_latch (latch_post v p) h.
Proof.
  intros Hv Hi. apply wp_bind. eapply wp_durable; [exact Hv| |done].
  intros h1 Hv1. apply wp_bind. eapply (wp_begin_tx _ v p); [exact Hv1| |done].
  intros h2 Hl Hv2. apply wp_bind, wp_catch.
  assert (Hback : forall h3 rows acks (r : ClockResult bool), at_view h3 (in_tx v rows acks) p ->
    (forall h', at_view h' v p -> latch_post v p h' r) ->
    wp (do? _ := port_cleanup tc_rollback in flift r) (latch_post v p) h3).
  { intros h3 rows acks r Hv3 Hpost. apply wp_bind. eapply wp_rollback; [done|exact Hv3|].
    rewrite rolled_back_idle by done. intros h' Hv'. by apply wp_lift, Hpost. }
  apply wp_bind. eapply wp_read_rows; [exact Hv2| |intros; by eapply Hback].
  intros h3 Hv3. apply wp_bind, wp_lift.
  destruct (validate_rows (pv_rows v)) as [[hw latch]|e] eqn:Hval; [|by eapply Hback].
  apply wp_bind. eapply wp_mono; [|by apply write_pending_latch_spec].
  intros h4 [wrote|e] (rows4 & acks4 & Hv4 & Hr4); [|by eapply Hback]. destruct Hr4 as [-> Hr4].
  apply wp_ret. destruct (p !! hw_domain hw) as [o|] eqn:Ho.
  - destruct Hr4 as (-> & row & Hrow & ->). apply wp_bind. eapply wp_commit_tx; [done|exact Hv4| |].
    + intros h5 [Hv5 Hp5]. apply wp_bind. unfold wp at 1; simpl. apply wp_ret. split; [done|].
      exists hw, latch, o, row. split_and!; try done. unfold with_pending; simpl. by rewrite Hp5.
    + rewrite rolled_back_idle by done. done.
  - destruct Hr4 as [-> ->]. eapply Hback; [exact Hv4|]. intros h' Hv'. split; [done|]. by exists hw, latch.
Qed.

Lemma on_port_wall {A} error (call : S -> S * PortResult A) h :
  h_wall (on_port (W:=W) (M:=M) error call h).1 = h_wall h.
Proof. unfold on_port. by destruct (call (h_port h)). Qed.

Lemma require_durability_wall h : h_wall (require_durability h).1 = h_wall h.
Proof.
  unfold require_durability, fbind, fcatch, on_port.
  by destruct (tc_verify_durability_pragmas (h_port h)) as [s' [[]|e]].
Qed.

Lemma wp_frame_wall {A} (m : FenceM S W M A) Q h :
  h_wall (m h).1 = h_wall h -> wp m Q h -> wp m (fun h' r => h_wall h' = h_wall h /\ Q h' r) h.
Proof. by split. Qed.

Definition unlatch (row : TrustedClockOverrunLatchRowV1) : TrustedClockOverrunLatchRowV1 :=
  MkLatchRow (olr_format_version row) 0 (olr_overrun_count row) (olr_last_overrun_reservation row)
    (olr_last_overrun_kind row) (olr_last_overrun_at_micros row).

(** Every outcome of an acknowledgement. *)
Definition ack_post `{Blake3} (v : PortView) (p : PendingOverruns)
    (request : TrustedClockOverrunAcknowledgementV1) h h' (r : ClockResult unit) : Prop :=
  match r with
  | Ok _ => free v /\ exists hw latch t, validate_rows (pv_rows v) = Ok (hw, latch)
      /\ (wall_sample (h_wall h)).2 = Ok t /\ hw_high_water hw <= t
      /\ authorize_acknowledgement request t = Ok tt
      /\ lt_latched latch = true /\ ack_expected_overrun_count request = lt_overrun_count latch
      /\ at_view h' (committed_view v (set_latch (unlatch (lt_row latch)) (pv_rows v))
           [acknowledgement_row request (lt_overrun_count latch) t]) p
  | Err _ => at_view h' v p
  end.

Lemma ack_spec `{Blake3} v p request h :
  at_view h v p -> idle v ->
  wp (acknowledge_trusted_clock_overrun request) (ack_post v p request h) h.
Proof.
  intros Hv Hi. apply wp_bind.
  eapply wp_mono; [|apply wp_frame_wall; [apply require_durability_wall|];
    apply (wp_durable v p (fun h' _ => at_view h' v p)); done].
  intros h1 [[]|e] [Hw1 Hv1]; [|exact Hv1]. apply wp_bind.
  eapply wp_mono; [|apply wp_frame_wall; [apply on_port_wall|];
    apply (wp_begin_tx _ v p (fun h' r => match r with
      | Ok _ => free v /\ at_view h' (in_tx v (pv_rows v) []) p
      | Err _ => at_view h' v p end)); done].
  intros h2 [[]|e] [Hw2 Hv2]; [destruct Hv2 as [Hl Hv2]|exact Hv2]. apply wp_bind, wp_catch.
  assert (Hback : forall h3 rows acks e, at_view h3 (in_tx v rows acks) p ->
    wp (do? _ := port_cleanup tc_rollback in flift (Err e)) (ack_post v p request h) h3).
  { intros h3 rows acks e Hv3. apply wp_bind. eapply wp_rollback; [done|exact Hv3|].
    rewrite rolled_back_idle by done. intros h' Hv'. by apply wp_lift. }
  apply wp_bind. eapply wp_mono; [|apply wp_frame_wall; [apply on_port_wall|];
    apply (wp_read_rows v p (pv_rows v) [] (fun h' r => at_view h' (in_tx v (pv_rows v) []) p
      /\ forall rows, r = Ok rows -> rows = pv_rows v)); naive_solver].
  intros h3 [rows|e] (Hw3 & Hv3 & Hr); [|by eapply Hback]. rewrite (Hr rows) by done.
  apply wp_bind, wp_lift.
  destruct (validate_rows (pv_rows v)) as [[hw latch]|e] eqn:Hval; [|by eapply Hback].
  apply wp_bind. eapply wp_sample_at; [exact Hv3| |intros; by eapply Hback].
  intros h4 t w' [Hs _] Hv4. destruct (Z.ltb_spec t (hw_high_water hw)); [by eapply Hback|].
  apply wp_bind, wp_lift. destruct (authorize_acknowledgement request t) as [[]|e] eqn:Ha; [|by eapply Hback].
  cbv zeta. destruct (lt_latched latch) eqn:Hlat; cbn [negb orb]; [|by eapply Hback].
  destruct ((ack_expected_overrun_count request <=? I64_MAX)
    && (ack_expected_overrun_count request =? lt_overrun_count latch)) eqn:He; [|by eapply Hback].
  apply andb_true_iff in He as [_ He%Z.eqb_eq].
  cbn [negb]. apply wp_bind. eapply wp_write_latch; [exact Hv4| |intros; by eapply Hback].
  intros h5 Hv5. eapply wp_append_ack; [exact Hv5| |intros; by eapply Hback].
  intros h6 Hv6. eapply wp_commit_tx; [done|exact Hv6| |rewrite rolled_back_idle by done; done].
  intros h7 Hv7. split; [done|]. exists hw, latch, t. split_and!; try done.
  by rewrite Hw3, Hw2, Hw1 in Hs; rewrite Hs.
Qed.
End Specs.
