(* ===== verification/TrustedClockSystem.v ===== *)
(** * The in-memory trusted-clock authority and its handles

    [crates/pos-store/src/trusted_clock.rs]: one authority identity shared by
    its handles.  A handle is the shared state with its own transaction and
    its hold on the writer lock; the shared state is threaded from call to call.

    [acquire] waits for the lock until its deadline; here it runs on the shared
    state as it is when the wait ends, so the lock is free or the deadline has
    passed.  The random bytes of [SysRng] are a list the handle draws from; an
    empty list is a source that fails. *)

From Stdlib Require Import String ZArith Lia Bool.
From S2P Require Import Prelude Text FallbackRecords StrictCbor TrustedClock TrustedClockSpec.

Local Open Scope Z_scope.

Record MemoryAuthorityStateV1 := MkAuthorityState {
  mas_rows : TrustedClockRowsV1;
  mas_acknowledgements : list TrustedClockAcknowledgementRowV1;
  mas_writer_held : bool;
}.

Definition authority_default : MemoryAuthorityStateV1 := MkAuthorityState (MkClockRows [] []) [] false.

Record MemoryTransactionV1 := MkMemoryTx {
  mt_rows : TrustedClockRowsV1;
  mt_acknowledgements : list TrustedClockAcknowledgementRowV1;
}.

Record MemoryTrustedClockAuthorityV1 := MkClockAuthority {
  ma_shared : MemoryAuthorityStateV1;
  ma_transaction : option MemoryTransactionV1;
  ma_holds_writer : bool;
  ma_entropy : list Bytes16;
}.

Implicit Type a : MemoryTrustedClockAuthorityV1.

Definition with_transaction (tx : option MemoryTransactionV1) a :=
  MkClockAuthority (ma_shared a) tx (ma_holds_writer a) (ma_entropy a).

(** [handle]: another handle on the same shared state. *)
Definition authority_handle (entropy : list Bytes16) a : MemoryTrustedClockAuthorityV1 :=
  MkClockAuthority (ma_shared a) None false entropy.

Definition fresh_clock_domain a : MemoryTrustedClockAuthorityV1 * PortResult Bytes16 :=
  match ma_entropy a with
  | domain :: rest => (MkClockAuthority (ma_shared a) (ma_transaction a) (ma_holds_writer a) rest, Ok domain)
  | [] => (a, Err PortStorage)
  end.

Definition set_writer_held (held : bool) (s : MemoryAuthorityStateV1) : MemoryAuthorityStateV1 :=
  MkAuthorityState (mas_rows s) (mas_acknowledgements s) held.

Definition acquire (timeout : Z) a : MemoryTrustedClockAuthorityV1 * PortResult unit :=
  if ma_holds_writer a then (a, Err PortStorage)
  else if mas_writer_held (ma_shared a) then (a, Err PortBusy)
  else (MkClockAuthority (set_writer_held true (ma_shared a)) (ma_transaction a) true (ma_entropy a), Ok tt).

Definition release a : MemoryTrustedClockAuthorityV1 :=
  if ma_holds_writer a
  then MkClockAuthority (set_writer_held false (ma_shared a)) (ma_transaction a) false (ma_entropy a)
  else a.

Definition memory_begin_immediate (busy_timeout : Z) a : MemoryTrustedClockAuthorityV1 * PortResult unit :=
  match acquire busy_timeout a with
  | (a', Err e) => (a', Err e)
  | (a', Ok _) => (with_transaction (Some (MkMemoryTx (mas_rows (ma_shared a')) [])) a', Ok tt)
  end.

Definition memory_read_rows a : MemoryTrustedClockAuthorityV1 * PortResult TrustedClockRowsV1 :=
  (a, ok_or (mt_rows <$> ma_transaction a) PortStorage).

(** [transaction_mut().map(..)]. *)
Definition on_transaction (f : MemoryTransactionV1 -> MemoryTransactionV1) a
    : MemoryTrustedClockAuthorityV1 * PortResult unit :=
  match ma_transaction a with
  | Some tx => (with_transaction (Some (f tx)) a, Ok tt)
  | None => (a, Err PortStorage)
  end.

Definition memory_write_high_water (row : TrustedClockHighWaterRowV1) :=
  on_transaction (fun tx => MkMemoryTx (MkClockRows [row] (cr_overrun_latch (mt_rows tx))) (mt_acknowledgements tx)).

Definition memory_write_overrun_latch (row : TrustedClockOverrunLatchRowV1) :=
  on_transaction (fun tx => MkMemoryTx (MkClockRows (cr_high_water (mt_rows tx)) [row]) (mt_acknowledgements tx)).

Definition memory_append_acknowledgement (row : TrustedClockAcknowledgementRowV1) :=
  on_transaction (fun tx => MkMemoryTx (mt_rows tx) (mt_acknowledgements tx ++ [row])).

Definition memory_commit a : MemoryTrustedClockAuthorityV1 * PortResult unit :=
  match ma_transaction a with
  | None => (a, Err PortStorage)
  | Some tx =>
      let shared := MkAuthorityState (mt_rows tx)
        (mas_acknowledgements (ma_shared a) ++ mt_acknowledgements tx) (mas_writer_held (ma_shared a)) in
      (release (MkClockAuthority shared None (ma_holds_writer a) (ma_entropy a)), Ok tt)
  end.

Definition memory_rollback a : MemoryTrustedClockAuthorityV1 := release (with_transaction None a).

#[export] Instance memory_store_port : TrustedClockStorePortV1 MemoryTrustedClockAuthorityV1 := {
  tc_verify_durability_pragmas a := (a, Ok true);
  tc_begin_immediate := memory_begin_immediate;
  tc_catalog_entries a := (a, Ok 0);
  tc_read_rows := memory_read_rows;
  tc_generate_clock_domain := fresh_clock_domain;
  tc_write_high_water := memory_write_high_water;
  tc_write_overrun_latch := memory_write_overrun_latch;
  tc_append_acknowledgement := memory_append_acknowledgement;
  tc_commit := memory_commit;
  tc_rollback := memory_rollback;
}.

#[export] Instance memory_guard_port : ReleaseGuardPortV1 MemoryTrustedClockAuthorityV1 := {
  rg_begin_guard := acquire;
  rg_reread_rows a := (a, Ok (mas_rows (ma_shared a)));
  rg_rollback_and_release := memory_rollback;
}.

(** ** The laws of the ports *)

Definition memory_view a : PortView :=
  MkView (mas_rows (ma_shared a)) (mas_acknowledgements (ma_shared a))
    ((fun tx => (mt_rows tx, mt_acknowledgements tx)) <$> ma_transaction a) (ma_holds_writer a)
    (mas_writer_held (ma_shared a)).

Lemma on_transaction_law f a :
  call_law memory_view a (on_transaction f a) (fun _ v =>
    exists tx, ma_transaction a = Some tx
      /\ v = with_tx (memory_view a) (mt_rows (f tx)) (mt_acknowledgements (f tx))).
Proof. unfold on_transaction, call_law. destruct (ma_transaction a) eqn:Ht; simpl; eauto. Qed.

Lemma release_view a :
  memory_view (release a)
  = MkView (pv_rows (memory_view a)) (pv_acks (memory_view a)) (pv_tx (memory_view a)) false
      (if ma_holds_writer a then false else mas_writer_held (ma_shared a)).
Proof. destruct a as [s tx [] en]; done. Qed.

Lemma memory_rollback_view a : memory_view (memory_rollback a) = rolled_back (memory_view a).
Proof. unfold memory_rollback. by rewrite release_view. Qed.

#[export] Instance memory_laws : ClockPortLaws MemoryTrustedClockAuthorityV1.
Proof.
  assert (Hwrite : forall f a (P : PortView -> Prop),
    (forall tx, ma_transaction a = Some tx ->
       P (with_tx (memory_view a) (mt_rows (f tx)) (mt_acknowledgements (f tx)))) ->
    call_law memory_view a (on_transaction f a) (fun _ v => P v)).
  { intros f a P HP. pose proof (on_transaction_law f a) as Hl. unfold call_law in *.
    destruct (on_transaction f a) as [s' [[]|e]]; [|done]. destruct Hl as (tx & Ht & ->). by apply HP. }
  refine {| pv := memory_view |}; simpl; try done.
  - intros t a. unfold memory_begin_immediate, acquire, call_law.
    by destruct a as [[rows acks []] tx [] en].
  - intros a. unfold memory_read_rows, call_law. destruct (ma_transaction a) eqn:Ht; simpl; [|done].
    split; [done|]. eauto.
  - intros a. unfold fresh_clock_domain, call_law. by destruct (ma_entropy a).
  - intros row a. apply (Hwrite _ a (fun v => _)). intros tx Ht.
    exists (mt_rows tx), (mt_acknowledgements tx). simpl. by rewrite Ht.
  - intros row a. apply (Hwrite _ a (fun v => _)). intros tx Ht.
    exists (mt_rows tx), (mt_acknowledgements tx). simpl. by rewrite Ht.
  - intros row a. apply (Hwrite _ a (fun v => _)). intros tx Ht.
    exists (mt_rows tx), (mt_acknowledgements tx). simpl. by rewrite Ht.
  - intros a. unfold memory_commit, call_law. destruct (ma_transaction a) as [tx|] eqn:Ht; [|done].
    exists (mt_rows tx), (mt_acknowledgements tx). split; [done|]. by rewrite release_view.
  - apply memory_rollback_view.
  - intros t a. unfold acquire, call_law. by destruct a as [[rows acks []] tx [] en].
  - apply memory_rollback_view.
Defined.

(** * Many handles on one trusted-clock authority

    The handles of one in-memory authority, used from any number of threads:
    their reservations, guards, handoffs, latch commits and acknowledgements in
    any order.  A call that takes the authority lock is one step, since the lock
    is held from its first read to its commit or rollback.  One thing happens
    after the lock is released: a reservation or latch commit that latched a
    pending overrun removes the pending flag behind its commit.  That removal is
    a step of its own ([step_clear]), so other calls can come between.

    The pending table is shared by all authorities of the process.  Other
    authorities have other clock domains (16 random bytes), and run the same
    code; [step_other] is what they may do to the table. *)

(** ** Valid rows *)

Record hw_ok (hw : HighWaterStateV1) : Prop := {
  hwo_high_water : 0 <= hw_high_water hw;
  hwo_reserved : hw_high_water hw <= hw_reserved_until hw <= I64_MAX;
  hwo_seq : 0 <= hw_seq hw <= I64_MAX;
}.

Record latch_ok (latch : LatchStateV1) : Prop := {
  lto_row : lt_row latch = MkLatchRow TRUSTED_CLOCK_FORMAT_VERSION_V1 (Z.b2z (lt_latched latch))
    (lt_overrun_count latch) (olr_last_overrun_reservation (lt_row latch))
    (olr_last_overrun_kind (lt_row latch)) (olr_last_overrun_at_micros (lt_row latch));
  lto_count : 0 <= lt_overrun_count latch;
  lto_reservation : 0 <= olr_last_overrun_reservation (lt_row latch);
  lto_kind : 0 <= olr_last_overrun_kind (lt_row latch) <= 3;
  lto_at : 0 <= olr_last_overrun_at_micros (lt_row latch);
}.

Definition rows_of (hw : HighWaterStateV1) (latch : LatchStateV1) : TrustedClockRowsV1 :=
  MkClockRows [MkHighWaterRow TRUSTED_CLOCK_FORMAT_VERSION_V1 (raw (hw_domain hw)) (hw_high_water hw)
                 (hw_reserved_until hw) (hw_seq hw)] [lt_row latch].

(** Decide the comparisons of the goal by arithmetic. *)
Ltac leb_true := repeat match goal with
  | |- context [?a <=? ?b] => replace (a <=? b) with true by (symmetry; apply Z.leb_le; lia)
  end; cbn.

Lemma validate_rows_of hw latch :
  hw_ok hw -> latch_ok latch -> validate_rows (rows_of hw latch) = Ok (hw, latch).
Proof.
  intros [] []. destruct hw as [d h u q], latch as [b c [f l c' r k t]]; cbn in *.
  injection lto_row0 as -> -> ->. unfold validate_rows, validate_high_water, validate_latch; cbn.
  rewrite make_raw. leb_true. by destruct b.
Qed.

Lemma validate_rows_inv rows hw latch :
  validate_rows rows = Ok (hw, latch) -> rows = rows_of hw latch /\ latch_ok latch
  /\ 0 <= hw_high_water hw <= hw_reserved_until hw /\ 0 <= hw_seq hw.
Proof.
  intros Hv. unfold validate_rows in Hv. ok_inv. destruct rows as [hs ls]; simpl in *.
  destruct hs as [|[fv dom h u q] [|]]; try discriminate. destruct ls as [|l [|]]; try discriminate.
  simpl in *. injection Hm as <-. injection Hm0 as <-. simpl in *.
  apply orb_false_iff in Hb as [Hf1%negb_false_iff%Z.eqb_eq Hf2%negb_false_iff%Z.eqb_eq]. simpl in Hf1. subst fv.
  unfold validate_high_water in Hm1. simpl in Hm1.
  destruct (make (has_len 16) dom) as [d|] eqn:Hd; [|done]. apply make_some in Hd. subst dom.
  destruct (_ && _) eqn:Ho in Hm1; [|done]. injection Hm1 as <-. simpl.
  rewrite !andb_true_iff, !Z.leb_le in Ho. unfold validate_latch in Hm2.
  destruct (_ && _) eqn:Hl in Hm2; [|done]. injection Hm2 as <-.
  rewrite !andb_true_iff, orb_true_iff, !Z.leb_le, !Z.eqb_eq in Hl. split_and!; try lia; [done|].
  destruct l as [f lat c r k at_]; cbn in *. subst f.
  split; cbn; try lia. by destruct Hl as [[[[[->| ->] _] _] _] _].
Qed.

(** The durable state: nothing yet, or one valid row in each table. *)
Inductive durable (rows : TrustedClockRowsV1) : Prop :=
| durable_none : rows = MkClockRows [] [] -> durable rows
| durable_some hw latch : rows = rows_of hw latch -> hw_ok hw -> latch_ok latch -> durable rows.

(** What a transaction starts from: the durable rows, or the migrated ones. *)
Inductive started (rows : TrustedClockRowsV1) (hw : HighWaterStateV1) (latch : LatchStateV1) : Prop :=
| started_durable : rows = rows_of hw latch -> started rows hw latch
| started_fresh t : rows = MkClockRows [] [] -> hw_high_water hw = t -> hw_reserved_until hw = t ->
    hw_seq hw = 0 -> latch = MkLatch false 0 UNLATCHED -> started rows hw latch.

Lemma unlatched_ok : latch_ok (MkLatch false 0 UNLATCHED).
Proof. by split. Qed.

Lemma rows_of_inj hw latch hw' latch' :
  latch_ok latch -> latch_ok latch' -> rows_of hw latch = rows_of hw' latch' -> hw = hw' /\ latch = latch'.
Proof.
  intros [Hr _ _ _ _] [Hr' _ _ _ _] [= Hd Hh Hu Hq Hl]. split.
  - destruct hw, hw'; simpl in *. f_equal; try done. by apply checked_eq.
  - destruct latch as [b c r], latch' as [b' c' r']; simpl in *. subst r'. rewrite Hr in Hr'.
    injection Hr' as Hb Hc. subst. f_equal. by destruct b, b'.
Qed.

Lemma loaded_started rows rows' hw latch :
  durable rows -> loaded rows rows' -> validate_rows rows' = Ok (hw, latch) ->
  started rows hw latch /\ rows' = rows_of hw latch /\ hw_ok hw /\ latch_ok latch.
Proof.
  intros [->|hw0 latch0 -> Hh Hl] (t & d & Ht & ->) Hv.
  - change (fill_rows t d (MkClockRows [] [])) with (rows_of (MkHighWater d t t 0) (MkLatch false 0 UNLATCHED)) in *.
    rewrite validate_rows_of in Hv; [|split; simpl; unfold I64_MAX in *; lia|apply unlatched_ok].
    injection Hv as <- <-. split_and!; [by eapply started_fresh|done|split; simpl; unfold I64_MAX in *; lia|apply unlatched_ok].
  - rewrite fill_rows_present in * by done. rewrite validate_rows_of in Hv by done. injection Hv as <- <-.
    split_and!; [by left|done..].
Qed.

Definition pending_ok (p : PendingOverruns) : Prop :=
  forall d o, p !! d = Some o -> 0 <= pd_reservation_seq o /\ 0 <= pd_at_micros o.

(** The high water behind a reservation. *)
Definition reserved_hw (hw : HighWaterStateV1) (r : TrustedClockReservationV1) : HighWaterStateV1 :=
  MkHighWater (hw_domain hw) (rsv_sampled r) (Z.max (hw_reserved_until hw) (rsv_decision_bound r)) (rsv_seq r).

Record reserves (hw : HighWaterStateV1) (r : TrustedClockReservationV1) : Prop := {
  rs_domain : rsv_domain r = hw_domain hw;
  rs_seq : rsv_seq r = hw_seq hw + 1;
  rs_sampled : hw_high_water hw <= rsv_sampled r;
  rs_bound : rsv_decision_bound r = rsv_sampled r + RESERVATION_WINDOW_MICROS;
}.

Lemma decided_reserved_rows rows p g0 r rows' :
  durable rows -> reserve_decided rows p g0 (Reserved r) rows' ->
  exists hw latch, started rows hw latch /\ hw_ok hw /\ latch_ok latch /\ lt_latched latch = false
    /\ p !! hw_domain hw = None /\ reserves hw r /\ rsv_g0 r = g0
    /\ rows' = rows_of (reserved_hw hw r) latch /\ hw_ok (reserved_hw hw r).
Proof.
  intros Hd Hdec. inversion Hdec as [rows1 hw latch t row r' Hload Hval Hl Hp Ht Hrow|]; subst.
  destruct (loaded_started _ _ _ _ Hd Hload Hval) as (Hst & -> & Hh & Hlo). exists hw, latch.
  unfold reserved_row, i64_checked_add, RESERVATION_WINDOW_MICROS in Hrow.
  destruct (Z.ltb_spec t (hw_high_water hw)); [done|].
  destruct (Z.leb_spec (hw_seq hw + 1) I64_MAX); [|done].
  destruct (Z.leb_spec (t + 32000000) I64_MAX); [|done].
  injection Hrow as <- <-. split_and!; try done.
  destruct Hh. split; cbn; unfold I64_MAX in *; lia.
Qed.

Definition latched_with (latch : LatchStateV1) (o : PendingOverrunV1) : LatchStateV1 :=
  let count := lt_overrun_count latch + 1 in
  MkLatch true count (MkLatchRow TRUSTED_CLOCK_FORMAT_VERSION_V1 1 count (pd_reservation_seq o)
    (overrun_code (pd_kind o)) (pd_at_micros o)).

Lemma latched_row_with latch o row :
  latched_row latch o = Ok row -> row = lt_row (latched_with latch o).
Proof.
  unfold latched_row, i64_checked_add. destruct (Z.leb_spec (lt_overrun_count latch + 1) I64_MAX); [|done].
  by intros [= <-].
Qed.

Lemma latched_with_ok latch o d p :
  latch_ok latch -> pending_ok p -> p !! d = Some o -> latch_ok (latched_with latch o).
Proof.
  intros [] Hp Ho. apply Hp in Ho as [? ?]. split; cbn; try lia; [done|]. destruct (pd_kind o); cbn; lia.
Qed.

Lemma decided_latched_rows rows p g0 d rows' :
  durable rows -> pending_ok p -> reserve_decided rows p g0 (LatchCommitted d) rows' ->
  exists hw latch o, started rows hw latch /\ hw_ok hw /\ latch_ok latch /\ hw_domain hw = d
    /\ p !! d = Some o /\ latch_ok (latched_with latch o) /\ rows' = rows_of hw (latched_with latch o).
Proof.
  intros Hd Hpo Hdec. inversion Hdec as [|rows1 hw latch o row Hload Hval Hl Hp Hrow]; subst.
  destruct (loaded_started _ _ _ _ Hd Hload Hval) as (Hst & -> & Hh & Hlo).
  apply latched_row_with in Hrow. subst row. exists hw, latch, o. split_and!; try done.
  by eapply latched_with_ok.
Qed.

(** ** The system *)

Record Handle := MkHandle {
  hd_transaction : option MemoryTransactionV1;
  hd_holds_writer : bool;
  hd_entropy : list Bytes16;
  hd_guard : option ReleaseGuardV1;
}.

Record System := MkSystem {
  sy_shared : MemoryAuthorityStateV1;
  sy_pending : PendingOverruns;
  sy_handles : gmap nat Handle;
  sy_reservations : list TrustedClockReservationV1;
  sy_clears : list Bytes16;
}.

Definition system_initial : System := MkSystem authority_default ∅ ∅ [] [].

Definition authority_of (y : System) (hd : Handle) : MemoryTrustedClockAuthorityV1 :=
  MkClockAuthority (sy_shared y) (hd_transaction hd) (hd_holds_writer hd) (hd_entropy hd).

Definition handle_of (a : MemoryTrustedClockAuthorityV1) (guard : option ReleaseGuardV1) : Handle :=
  MkHandle (ma_transaction a) (ma_holds_writer a) (ma_entropy a) guard.

(** The system after handle [i] became [a] with [guard]. *)
Definition put (i : nat) (a : MemoryTrustedClockAuthorityV1) (guard : option ReleaseGuardV1)
    (p : PendingOverruns) (rs : list TrustedClockReservationV1) (cs : list Bytes16) (y : System) : System :=
  MkSystem (ma_shared a) p (<[i := handle_of a guard]> (sy_handles y)) rs cs.

(** The flags a call removed from the pending table. *)
Definition removed (p p' : PendingOverruns) : list Bytes16 :=
  List.filter (fun d => negb (bool_decide (is_Some (p' !! d)))) (map_to_list p).*1.

Definition same_domain_pending (y : System) (p' : PendingOverruns) : Prop :=
  forall hw latch, validate_rows (mas_rows (sy_shared y)) = Ok (hw, latch) ->
    p' !! hw_domain hw = sy_pending y !! hw_domain hw.

Inductive Label :=
| LReserve (r : ClockResult TrustedClockReservationV1)
| LGuard (r : ClockResult ReleaseGuardV1)
| LHandoff (guard : ReleaseGuardV1) (r : ClockResult (option TrustedClockOverrunKindV1))
| LLatch (r : ClockResult bool)
| LAck (r : ClockResult unit)
| LInternal.

Section Steps.
Context {W M : Type} `{TrustedWallSourceV1 W} `{GuardMonotonicSourceV1 M} `{Blake3}.
Implicit Type (y : System).

Definition host_of y (hd : Handle) (wall : W) (mono : M) (wait : Z) : Host MemoryTrustedClockAuthorityV1 W M :=
  MkHost (authority_of y hd) wall mono wait (sy_pending y).

Inductive clock_step y : Label -> System -> Prop :=
| step_reserve i hd g0 wall mono wait h' r :
    sy_handles y !! i = Some hd -> hd_guard hd = None ->
    reserve_trusted_clock g0 (host_of y hd wall mono wait) = (h', r) ->
    clock_step y (LReserve r)
      (put i (h_port h') None (sy_pending y)
         (sy_reservations y ++ match r with Ok rsv => [rsv] | Err _ => [] end)
         (sy_clears y ++ removed (sy_pending y) (h_pending h')) y)
| step_latch i hd wall mono wait h' r :
    sy_handles y !! i = Some hd -> hd_guard hd = None ->
    commit_pending_overrun_latch (host_of y hd wall mono wait) = (h', r) ->
    clock_step y (LLatch r)
      (put i (h_port h') None (sy_pending y) (sy_reservations y)
         (sy_clears y ++ removed (sy_pending y) (h_pending h')) y)
| step_ack i hd request wall mono wait h' r :
    sy_handles y !! i = Some hd -> hd_guard hd = None ->
    acknowledge_trusted_clock_overrun request (host_of y hd wall mono wait) = (h', r) ->
    clock_step y (LAck r) (put i (h_port h') None (sy_pending y) (sy_reservations y) (sy_clears y) y)
| step_clear before d after :
    sy_clears y = before ++ d :: after ->
    clock_step y LInternal
      (MkSystem (sy_shared y) (delete d (sy_pending y)) (sy_handles y) (sy_reservations y) (before ++ after))
| step_guard i hd before rsv after wall mono wait h' r :
    sy_handles y !! i = Some hd -> hd_guard hd = None ->
    sy_reservations y = before ++ rsv :: after ->
    open_release_guard rsv (host_of y hd wall mono wait) = (h', r) ->
    clock_step y (LGuard r)
      (put i (h_port h') match r with Ok guard => Some guard | Err _ => None end (h_pending h')
         (before ++ after) (sy_clears y) y)
| step_handoff i hd guard expiries staged wall mono wait h' r :
    sy_handles y !! i = Some hd -> hd_guard hd = Some guard ->
    handoff_checked (T:=StagedArtifactBytesV1) guard expiries staged (host_of y hd wall mono wait) = (h', r) ->
    clock_step y (LHandoff guard match r with Ok use => Ok (use_overrun use) | Err e => Err e end)
      (put i (h_port h') None (h_pending h') (sy_reservations y) (sy_clears y) y)
| step_drop_guard i hd guard :
    sy_handles y !! i = Some hd -> hd_guard hd = Some guard ->
    clock_step y LInternal
      (put i (memory_rollback (authority_of y hd)) None (sy_pending y) (sy_reservations y) (sy_clears y) y)
| step_handle i entropy :
    sy_handles y !! i = None ->
    clock_step y LInternal
      (put i (MkClockAuthority (sy_shared y) None false entropy) None (sy_pending y) (sy_reservations y)
         (sy_clears y) y)
| step_close i hd :
    sy_handles y !! i = Some hd -> hd_guard hd = None ->
    clock_step y LInternal
      (MkSystem (ma_shared (release (authority_of y hd))) (sy_pending y) (delete i (sy_handles y))
         (sy_reservations y) (sy_clears y))
| step_other p' :
    pending_ok p' -> same_domain_pending y p' ->
    clock_step y LInternal (MkSystem (sy_shared y) p' (sy_handles y) (sy_reservations y) (sy_clears y)).

Inductive clock_run : System -> list Label -> System -> Prop :=
| run_nil y : clock_run y [] y
| run_step y l y1 ls y2 : clock_step y l y1 -> clock_run y1 ls y2 -> clock_run y (l :: ls) y2.

Definition clock_reachable y : Prop := exists ls, clock_run system_initial ls y.
End Steps.
