(* ===== verification/TrustedClockInvariant.v ===== *)
(** * The invariant of the trusted-clock system

    [clock_ok] relates the lock, the durable rows, the pending table and the
    reservations and guards handed out; every step of [TrustedClockSystem]
    preserves it, and the durable rows only move forward ([rows_le]). *)

From Stdlib Require Import String ZArith Lia Bool.
From S2P Require Import Prelude Text FallbackRecords StrictCbor TrustedClock TrustedClockSpec TrustedClockSystem.
From S2P Require Import TrustedClockSystem.

Local Open Scope Z_scope.

(** ** Forward motion *)

Record state_le (hw hw' : HighWaterStateV1) (latch latch' : LatchStateV1) : Prop := {
  sl_domain : hw_domain hw' = hw_domain hw;
  sl_high_water : hw_high_water hw <= hw_high_water hw';
  sl_reserved : hw_reserved_until hw <= hw_reserved_until hw';
  sl_seq : hw_seq hw <= hw_seq hw';
  sl_count : lt_overrun_count latch <= lt_overrun_count latch';
}.

Definition rows_le (rows rows' : TrustedClockRowsV1) : Prop :=
  forall hw latch, validate_rows rows = Ok (hw, latch) ->
    exists hw' latch', validate_rows rows' = Ok (hw', latch') /\ state_le hw hw' latch latch'.

Lemma rows_le_refl rows : rows_le rows rows.
Proof. intros hw latch Hv. exists hw, latch. split; [done|by split]. Qed.

Lemma rows_le_trans rows1 rows2 rows3 : rows_le rows1 rows2 -> rows_le rows2 rows3 -> rows_le rows1 rows3.
Proof.
  intros H12 H23 hw latch (hw2 & latch2 & (hw3 & latch3 & H3 & [])%H23 & [])%H12.
  exists hw3, latch3. split; [done|]. split; [congruence|lia..].
Qed.

Lemma started_le rows hw latch hw' latch' :
  started rows hw latch -> hw_ok hw -> latch_ok latch -> hw_ok hw' -> latch_ok latch' ->
  state_le hw hw' latch latch' -> rows_le rows (rows_of hw' latch').
Proof.
  intros Hs Hh Hl Hh' Hl' Hle hw0 latch0 Hv. exists hw', latch'. split; [by apply validate_rows_of|].
  destruct Hs as [->|t -> _ _ _ _]; [|done]. rewrite validate_rows_of in Hv by done. by injection Hv as <- <-.
Qed.

(** ** Reservations and guards *)

Definition issued (rows : TrustedClockRowsV1) (r : TrustedClockReservationV1) : Prop :=
  exists hw latch, validate_rows rows = Ok (hw, latch) /\ rsv_domain r = hw_domain hw
    /\ 1 <= rsv_seq r <= hw_seq hw /\ 0 <= rsv_sampled r <= hw_high_water hw
    /\ rsv_decision_bound r = rsv_sampled r + RESERVATION_WINDOW_MICROS
    /\ rsv_decision_bound r <= hw_reserved_until hw.

Lemma issued_le rows rows' r : rows_le rows rows' -> issued rows r -> issued rows' r.
Proof.
  intros Hle (hw & latch & (hw' & latch' & Hv & [])%Hle & Hd & Hq & Ht & Hb & Hu).
  exists hw', latch'. split_and!; [done|congruence|lia..].
Qed.

(** Release is open: nothing is latched and no overrun is pending. *)
Definition open_release (rows : TrustedClockRowsV1) (p : PendingOverruns) (high_water : Z) : Prop :=
  exists hw latch, validate_rows rows = Ok (hw, latch) /\ hw_high_water hw = high_water
    /\ lt_latched latch = false /\ p !! hw_domain hw = None.

Definition guard_ok (rows : TrustedClockRowsV1) (p : PendingOverruns) (g : ReleaseGuardV1) : Prop :=
  issued rows (grd_reservation g) /\ open_release rows p (grd_high_water g).

Definition seqs (rs : list TrustedClockReservationV1) : list Z := rsv_seq <$> rs.

Record clock_ok (y : System) : Prop := {
  co_idle i hd : sy_handles y !! i = Some hd -> hd_transaction hd = None;
  co_guard_lock i hd : sy_handles y !! i = Some hd -> (hd_holds_writer hd = true <-> is_Some (hd_guard hd));
  co_held i hd : sy_handles y !! i = Some hd -> hd_holds_writer hd = true ->
    mas_writer_held (sy_shared y) = true;
  co_holder : mas_writer_held (sy_shared y) = true ->
    exists i hd, sy_handles y !! i = Some hd /\ hd_holds_writer hd = true;
  co_one i j hd hd' : sy_handles y !! i = Some hd -> sy_handles y !! j = Some hd' ->
    hd_holds_writer hd = true -> hd_holds_writer hd' = true -> i = j;
  co_rows : durable (mas_rows (sy_shared y));
  co_pending : pending_ok (sy_pending y);
  co_issued : Forall (issued (mas_rows (sy_shared y))) (sy_reservations y);
  co_seqs : NoDup (seqs (sy_reservations y));
  co_guard i hd g : sy_handles y !! i = Some hd -> hd_guard hd = Some g ->
    guard_ok (mas_rows (sy_shared y)) (sy_pending y) g
    /\ rsv_seq (grd_reservation g) ∉ seqs (sy_reservations y);
}.

(** No other handle than [i] holds the lock. *)
Definition alone (y : System) (i : nat) : Prop :=
  forall j hd, j <> i -> sy_handles y !! j = Some hd -> hd_holds_writer hd = false.

Lemma alone_free y i hd :
  clock_ok y -> sy_handles y !! i = Some hd -> free (memory_view (authority_of y hd)) -> alone y i.
Proof.
  intros Hok Hi [_ Hh] j hd' _ Hj. destruct (hd_holds_writer hd') eqn:Hw; [|done].
  pose proof (co_held _ Hok j hd' Hj Hw). simpl in Hh. congruence.
Qed.

Lemma alone_holder y i hd :
  clock_ok y -> sy_handles y !! i = Some hd -> hd_holds_writer hd = true -> alone y i.
Proof.
  intros Hok Hi Hw j hd' Hne Hj. destruct (hd_holds_writer hd') eqn:Hw'; [|done].
  destruct Hne. by eapply (co_one _ Hok).
Qed.

(** A handle that no other competes with may change the shared state. *)
Lemma put_alone y i a g p rs cs :
  clock_ok y -> alone y i ->
  ma_transaction a = None -> (ma_holds_writer a = true <-> is_Some g) ->
  mas_writer_held (ma_shared a) = ma_holds_writer a ->
  durable (mas_rows (ma_shared a)) -> pending_ok p ->
  Forall (issued (mas_rows (ma_shared a))) rs -> NoDup (seqs rs) ->
  (forall g', g = Some g' -> guard_ok (mas_rows (ma_shared a)) p g' /\ rsv_seq (grd_reservation g') ∉ seqs rs) ->
  clock_ok (put i a g p rs cs y).
Proof.
  intros Hok Ha Htx Hw Hheld Hrows Hp Hi Hn Hg.
  assert (Hat : forall j hd, <[i := handle_of a g]> (sy_handles y) !! j = Some hd ->
    (j = i /\ hd = handle_of a g) \/ (j <> i /\ sy_handles y !! j = Some hd /\ hd_holds_writer hd = false
      /\ hd_guard hd = None)).
  { intros j hd Hj. destruct (decide (j = i)) as [->|Hne].
    - left. rewrite lookup_insert_eq in Hj. by injection Hj as <-.
    - right. rewrite lookup_insert_ne in Hj by done. pose proof (Ha j hd Hne Hj) as Hf. split_and!; try done.
      destruct (hd_guard hd) eqn:Hgd; [|done]. destruct (co_guard_lock _ Hok j hd Hj) as [_ Hc].
      rewrite Hc in Hf; [done|]. by rewrite Hgd. }
  split; simpl; try done.
  - intros j hd [[-> ->]|(_ & Hj & _)]%Hat; [done|]. by eapply (co_idle _ Hok).
  - intros j hd [[-> ->]|(_ & Hj & _)]%Hat; [done|]. by eapply (co_guard_lock _ Hok).
  - intros j hd [[-> ->]|(_ & _ & Hf & _)]%Hat; simpl; congruence.
  - intros Ht. exists i, (handle_of a g). rewrite lookup_insert_eq. simpl. split; [done|congruence].
  - intros j k hd hd' [[-> ->]|(_ & _ & Hf & _)]%Hat [[-> ->]|(_ & _ & Hf' & _)]%Hat; simpl; congruence.
  - intros j hd g' [[-> ->]|(_ & _ & _ & Hn')]%Hat Hgd; [by apply Hg|congruence].
Qed.

(** A handle that leaves the shared state as it was may do so at any time. *)
Lemma put_same y i hd a rs cs :
  clock_ok y -> (sy_handles y !! i = Some hd \/ sy_handles y !! i = None) ->
  (sy_handles y !! i = Some hd -> hd_holds_writer hd = false) ->
  ma_transaction a = None -> ma_holds_writer a = false -> ma_shared a = sy_shared y ->
  Forall (issued (mas_rows (sy_shared y))) rs -> NoDup (seqs rs) ->
  (forall j hd' g, sy_handles y !! j = Some hd' -> hd_guard hd' = Some g ->
     rsv_seq (grd_reservation g) ∉ seqs rs) ->
  clock_ok (put i a None (sy_pending y) rs cs y).
Proof.
  intros Hok Hi Hnh Htx Hw Hsh Hiss Hn Hg.
  assert (Hat : forall j hd', <[i := handle_of a None]> (sy_handles y) !! j = Some hd' ->
    hd' = handle_of a None \/ sy_handles y !! j = Some hd').
  { intros j hd' Hj. destruct (decide (j = i)) as [->|Hne]; [left|right].
    - rewrite lookup_insert_eq in Hj. by injection Hj as <-.
    - by rewrite lookup_insert_ne in Hj. }
  split; simpl; rewrite ?Hsh; try done; try (by destruct Hok).
  - intros j hd' [->|Hj]%Hat; [done|]. by eapply (co_idle _ Hok).
  - intros j hd' [->|Hj]%Hat; [simpl; rewrite Hw; by split; [|intros []]|]. by eapply (co_guard_lock _ Hok).
  - intros j hd' [->|Hj]%Hat; [simpl; congruence|]. by eapply (co_held _ Hok).
  - intros (j & hd' & Hj & Hwj)%(co_holder _ Hok). exists j, hd'. split; [|done].
    rewrite lookup_insert_ne; [done|]. intros ->. destruct Hi as [Hi|Hi]; [|congruence].
    rewrite Hi in Hj. injection Hj as <-. rewrite (Hnh Hi) in Hwj. done.
  - intros j k hd1 hd2 Hj Hk H1 H2.
    apply Hat in Hj as Hj'. apply Hat in Hk as Hk'. destruct Hj' as [->|Hj'], Hk' as [->|Hk']; simpl in *; try congruence.
    by eapply (co_one _ Hok).
  - intros j hd' g [->|Hj]%Hat Hgd; [done|]. split; [by eapply (co_guard _ Hok)|by eapply Hg].
Qed.

(** ** Every step *)

Lemma memory_view_inv a rows acks locked held :
  memory_view a = MkView rows acks None locked held ->
  ma_shared a = MkAuthorityState rows acks held /\ ma_transaction a = None /\ ma_holds_writer a = locked.
Proof. destruct a as [[r k h] [tx|] l en]; unfold memory_view; simpl; [done|]. by intros [= <- <- <- <-]. Qed.

Lemma started_issued rows hw latch r :
  started rows hw latch -> hw_ok hw -> latch_ok latch -> issued rows r -> rsv_seq r <= hw_seq hw.
Proof.
  intros [->|t -> _ _ _ _] Hh Hl (hw' & latch' & Hv & _ & Hq & _); [|done].
  rewrite validate_rows_of in Hv by done. injection Hv as <- <-. lia.
Qed.

Lemma guarded_inv p rows r high_water :
  guarded_high_water p rows r = Ok high_water ->
  exists hw latch, validate_rows rows = Ok (hw, latch) /\ hw_high_water hw = high_water
    /\ hw_domain hw = rsv_domain r /\ rsv_seq r <= hw_seq hw /\ rsv_sampled r <= high_water
    /\ lt_latched latch = false /\ p !! hw_domain hw = None.
Proof.
  unfold guarded_high_water. intros Hg.
  apply rbind_ok_inv in Hg as ([hw latch] & Hval & Hk). cbv zeta in Hk. exists hw, latch.
  destruct (negb _ || _ || _) eqn:Hb in Hk; [done|]. destruct (lt_latched latch || _) eqn:Hl in Hk; [done|].
  injection Hk as <-. rewrite !orb_false_iff, negb_false_iff, bool_decide_eq_true, !Z.ltb_ge in Hb.
  rewrite orb_false_iff, bool_decide_eq_false in Hl. destruct Hl as [Hl Hp]. split_and!; try done; try tauto.
  by destruct (p !! hw_domain hw); [destruct Hp|].
Qed.

Lemma NoDup_app_cons_inv {A} (l1 l2 : list A) x :
  NoDup (l1 ++ x :: l2) -> NoDup (l1 ++ l2) /\ x ∉ l1 ++ l2.
Proof. rewrite <- Permutation_middle. intros [? ?]%NoDup_cons. done. Qed.

Section Steps.
Context {W M : Type} `{TrustedWallSourceV1 W} `{GuardMonotonicSourceV1 M} `{Blake3}.
Implicit Type (y : System).

Definition moved y y' : Prop :=
  rows_le (mas_rows (sy_shared y)) (mas_rows (sy_shared y'))
  /\ mas_acknowledgements (sy_shared y) `prefix_of` mas_acknowledgements (sy_shared y').

Lemma moved_same y y' : sy_shared y' = sy_shared y -> moved y y'.
Proof. intros Hs. split; rewrite Hs; [apply rows_le_refl|done]. Qed.

Lemma host_at y hd wall mono wait :
  at_view (host_of (W:=W) (M:=M) y hd wall mono wait) (memory_view (authority_of y hd)) (sy_pending y).
Proof. done. Qed.

Lemma idle_at y i hd : clock_ok y -> sy_handles y !! i = Some hd -> idle (memory_view (authority_of y hd)).
Proof. intros Hok Hi. unfold idle. simpl. by rewrite (co_idle _ Hok _ _ Hi). Qed.

Lemma unguarded y i hd :
  clock_ok y -> sy_handles y !! i = Some hd -> hd_guard hd = None -> hd_holds_writer hd = false.
Proof.
  intros Hok Hi Hg. destruct (hd_holds_writer hd) eqn:Hw; [|done].
  apply (co_guard_lock _ Hok _ _ Hi) in Hw as [g Hg']. congruence.
Qed.

(** A call that left the view of its handle alone. *)
Lemma same_view_ok y i hd (h' : Host MemoryTrustedClockAuthorityV1 W M) rs cs :
  clock_ok y -> sy_handles y !! i = Some hd -> hd_guard hd = None ->
  view h' = memory_view (authority_of y hd) -> rs `sublist_of` sy_reservations y ->
  clock_ok (put i (h_port h') None (sy_pending y) rs cs y)
  /\ moved y (put i (h_port h') None (sy_pending y) rs cs y).
Proof.
  intros Hok Hi Hg Hv Hrs. pose proof (unguarded _ _ _ Hok Hi Hg) as Hw.
  unfold memory_view at 1 in Hv. simpl in Hv. rewrite (co_idle _ Hok _ _ Hi), Hw in Hv.
  apply memory_view_inv in Hv as (Hs & Ht & Hh).
  assert (Hsh : ma_shared (h_port h') = sy_shared y) by (rewrite Hs; by destruct (sy_shared y)).
  split; [|by apply moved_same]. eapply put_same; eauto.
  - apply Forall_forall. intros x Hx. pose proof (co_issued _ Hok) as Hall. rewrite Forall_forall in Hall.
    apply Hall. by eapply elem_of_sublist.
  - eapply sublist_NoDup; [apply (co_seqs _ Hok)|by apply fmap_sublist].
  - intros j hd' g Hj Hgj Hin. destruct (co_guard _ Hok _ _ _ Hj Hgj) as [_ Hn]. apply Hn.
    eapply elem_of_sublist; [exact Hin|by apply fmap_sublist].
Qed.

(** A call that committed [rows] and released the lock. *)
Lemma committed_ok y i hd (h' : Host MemoryTrustedClockAuthorityV1 W M) rows acks rs cs :
  clock_ok y -> sy_handles y !! i = Some hd -> free (memory_view (authority_of y hd)) ->
  view h' = committed_view (memory_view (authority_of y hd)) rows acks ->
  durable rows -> rows_le (mas_rows (sy_shared y)) rows ->
  Forall (issued rows) rs -> NoDup (seqs rs) ->
  clock_ok (put i (h_port h') None (sy_pending y) rs cs y)
  /\ moved y (put i (h_port h') None (sy_pending y) rs cs y).
Proof.
  intros Hok Hi Hf Hv Hd Hle Hiss Hn. pose proof (alone_free _ _ _ Hok Hi Hf) as Ha.
  unfold committed_view in Hv. destruct Hf as [Hl Hh]. rewrite Hl, Hh in Hv.
  apply memory_view_inv in Hv as (Hs & Ht & Hw). split.
  - apply put_alone; rewrite ?Hs, ?Hw; first [done|apply (co_pending _ Hok)|by split; [|intros []]].
  - unfold moved; simpl. rewrite Hs. simpl. split; [done|by apply prefix_app_r].
Qed.

Lemma latched_le hw latch o : state_le hw hw latch (latched_with latch o).
Proof. split; simpl; try done; lia. Qed.

Lemma step_reserve_ok y i hd g0 wall mono wait h' r cs :
  clock_ok y -> sy_handles y !! i = Some hd -> hd_guard hd = None ->
  reserve_trusted_clock g0 (host_of y hd wall mono wait) = (h', r) ->
  let y' := put i (h_port h') None (sy_pending y)
    (sy_reservations y ++ match r with Ok rsv => [rsv] | Err _ => [] end) cs y in
  clock_ok y' /\ moved y y'.
Proof.
  intros Hok Hi Hg Hr. eapply wp_run in Hr; [|eapply reserve_spec; [apply host_at|by eapply idle_at]].
  pose proof (co_rows _ Hok) as Hd. destruct r as [rsv|e]; simpl in Hr |- *.
  - destruct Hr as (g & rows & Hf & Hdec & _ & Hv & _).
    apply decided_reserved_rows in Hdec as (hw & latch & Hst & Hh & Hl & _ & _ & [] & _ & -> & Hh'); [|done].
    assert (Hle : rows_le (mas_rows (sy_shared y)) (rows_of (reserved_hw hw rsv) latch)).
    { eapply started_le; eauto. split; simpl; try done; lia. }
    assert (Hnew : issued (rows_of (reserved_hw hw rsv) latch) rsv).
    { exists (reserved_hw hw rsv), latch. destruct Hh. split_and!; simpl; try done; try lia.
      by apply validate_rows_of. }
    eapply committed_ok; eauto; [by eapply durable_some|..].
    + apply Forall_app. split; [|by constructor]. eapply Forall_impl; [apply (co_issued _ Hok)|].
      intros x. by apply issued_le.
    + unfold seqs. rewrite fmap_app. apply NoDup_app. split_and!; [apply (co_seqs _ Hok)| |apply NoDup_singleton].
      intros q (x & -> & Hx)%list_elem_of_fmap Hq. apply list_elem_of_singleton in Hq.
      pose proof (co_issued _ Hok) as Hall. rewrite Forall_forall in Hall.
      pose proof (started_issued _ _ _ _ Hst Hh Hl (Hall _ Hx)). lia.
  - rewrite app_nil_r. destruct Hr as [[Hv _]|(_ & g & d & rows & Hf & Hdec & Hv & _)].
    + eapply same_view_ok; eauto.
    + apply decided_latched_rows in Hdec as (hw & latch & o & Hst & Hh & Hl & _ & _ & Hl' & ->);
        [|done|apply (co_pending _ Hok)].
      assert (Hle : rows_le (mas_rows (sy_shared y)) (rows_of hw (latched_with latch o)))
        by (eapply started_le; eauto; apply latched_le).
      eapply committed_ok; eauto; [by eapply durable_some| |apply (co_seqs _ Hok)].
      eapply Forall_impl; [apply (co_issued _ Hok)|]. intros x. by apply issued_le.
Qed.

(** The durable rows a validated call works on. *)
Lemma validated_ok y hw latch :
  clock_ok y -> validate_rows (mas_rows (sy_shared y)) = Ok (hw, latch) ->
  mas_rows (sy_shared y) = rows_of hw latch /\ hw_ok hw /\ latch_ok latch.
Proof.
  intros Hok Hv. destruct (co_rows _ Hok) as [Hr|hw0 latch0 Hr Hh Hl]; rewrite Hr in *; [done|].
  rewrite validate_rows_of in Hv by done. by injection Hv as <- <-.
Qed.

(** A call that only rewrote the latch row. *)
Lemma relatched_ok y i hd (h' : Host MemoryTrustedClockAuthorityV1 W M) hw latch latch' acks cs :
  clock_ok y -> sy_handles y !! i = Some hd -> free (memory_view (authority_of y hd)) ->
  validate_rows (mas_rows (sy_shared y)) = Ok (hw, latch) -> latch_ok latch' ->
  lt_overrun_count latch <= lt_overrun_count latch' ->
  view h' = committed_view (memory_view (authority_of y hd))
    (set_latch (lt_row latch') (mas_rows (sy_shared y))) acks ->
  clock_ok (put i (h_port h') None (sy_pending y) (sy_reservations y) cs y)
  /\ moved y (put i (h_port h') None (sy_pending y) (sy_reservations y) cs y).
Proof.
  intros Hok Hi Hf Hval Hl' Hc Hv. destruct (validated_ok _ _ _ Hok Hval) as (Hr & Hh & Hl).
  rewrite Hr in Hv. change (set_latch _ (rows_of hw latch)) with (rows_of hw latch') in Hv.
  assert (Hle : rows_le (mas_rows (sy_shared y)) (rows_of hw latch')).
  { eapply started_le; [by left|done..|by split]. }
  eapply committed_ok; eauto; [by eapply durable_some| |apply (co_seqs _ Hok)].
  eapply Forall_impl; [apply (co_issued _ Hok)|]. intros x. by apply issued_le.
Qed.

Lemma step_latch_ok y i hd wall mono wait (h' : Host MemoryTrustedClockAuthorityV1 W M) r cs :
  clock_ok y -> sy_handles y !! i = Some hd -> hd_guard hd = None ->
  commit_pending_overrun_latch (host_of y hd wall mono wait) = (h', r) ->
  let y' := put i (h_port h') None (sy_pending y) (sy_reservations y) cs y in clock_ok y' /\ moved y y'.
Proof.
  intros Hok Hi Hg Hr. eapply wp_run in Hr; [|eapply latch_spec; [apply host_at|by eapply idle_at]].
  destruct r as [[]|e]; simpl in Hr |- *.
  - destruct Hr as (Hf & hw & latch & o & row & Hval & Ho & Hrow & Hv & _).
    apply latched_row_with in Hrow. subst row. destruct (validated_ok _ _ _ Hok Hval) as (_ & _ & Hl).
    eapply (relatched_ok _ _ _ _ _ _ (latched_with latch o)); eauto; [|simpl; lia].
    eapply latched_with_ok; eauto. apply (co_pending _ Hok).
  - destruct Hr as [[Hv _] _]. eapply same_view_ok; eauto.
  - destruct Hr as [Hv _]. eapply same_view_ok; eauto.
Qed.

Lemma unlatch_ok latch :
  latch_ok latch -> latch_ok (MkLatch false (lt_overrun_count latch) (unlatch (lt_row latch))).
Proof. intros []. split; simpl; try lia. unfold unlatch. by rewrite lto_row. Qed.

Lemma step_ack_ok y i hd request wall mono wait (h' : Host MemoryTrustedClockAuthorityV1 W M) r cs :
  clock_ok y -> sy_handles y !! i = Some hd -> hd_guard hd = None ->
  acknowledge_trusted_clock_overrun request (host_of y hd wall mono wait) = (h', r) ->
  let y' := put i (h_port h') None (sy_pending y) (sy_reservations y) cs y in clock_ok y' /\ moved y y'.
Proof.
  intros Hok Hi Hg Hr. eapply wp_run in Hr; [|eapply ack_spec; [apply host_at|by eapply idle_at]].
  destruct r as [[]|e]; simpl in Hr |- *.
  - destruct Hr as (Hf & hw & latch & t & Hval & _ & _ & _ & _ & _ & Hv & _).
    destruct (validated_ok _ _ _ Hok Hval) as (_ & _ & Hl).
    eapply (relatched_ok _ _ _ _ _ _ (MkLatch false (lt_overrun_count latch) (unlatch (lt_row latch)))); eauto;
      [by apply unlatch_ok|simpl; lia].
  - destruct Hr as [Hv _]. eapply same_view_ok; eauto.
Qed.

Lemma step_guard_ok y i hd before rsv after wall mono wait (h' : Host MemoryTrustedClockAuthorityV1 W M) r cs :
  clock_ok y -> sy_handles y !! i = Some hd -> hd_guard hd = None ->
  sy_reservations y = before ++ rsv :: after ->
  open_release_guard rsv (host_of y hd wall mono wait) = (h', r) ->
  let y' := put i (h_port h') match r with Ok guard => Some guard | Err _ => None end (h_pending h')
              (before ++ after) cs y in clock_ok y' /\ moved y y'.
Proof.
  intros Hok Hi Hg Hrs Hr. eapply wp_run in Hr; [|eapply guard_spec; [apply host_at|by eapply idle_at]].
  assert (Hsub : before ++ after `sublist_of` sy_reservations y).
  { rewrite Hrs. apply sublist_app; [done|by apply sublist_cons]. }
  destruct r as [g|e]; simpl in Hr |- *.
  - destruct Hr as (Hf & <- & Hgu & Hv & Hp). apply guarded_inv in Hgu as (hw & latch & Hval & Hhw & _ & _ & _ & Hl & Hpd).
    apply memory_view_inv in Hv as (Hs & Ht & Hw). simpl in Hs. split.
    + pose proof (co_issued _ Hok) as Hall. pose proof (co_seqs _ Hok) as Hn. rewrite Hrs in Hall, Hn.
      apply Forall_app in Hall as [Hb [Hr1 Ha]%Forall_cons].
      unfold seqs in *. rewrite fmap_app, fmap_cons in Hn. rewrite Hp.
      apply put_alone; rewrite ?Hs, ?Hw; simpl;
        first [done|apply (co_pending _ Hok)|apply (co_rows _ Hok)|by eapply alone_free|idtac].
      * by apply Forall_app.
      * unfold seqs. rewrite fmap_app. by apply NoDup_app_cons_inv in Hn as [? ?].
      * intros g' [= <-]. split; [split; [done|by exists hw, latch]|].
        unfold seqs. rewrite fmap_app. by apply NoDup_app_cons_inv in Hn as [? ?].
    + unfold moved; simpl. rewrite Hs. split; [apply rows_le_refl|done].
  - destruct Hr as [Hv Hp]. rewrite Hp. eapply same_view_ok; eauto.
Qed.

Lemma pending_after_ok rows p p' g kind :
  pending_ok p -> issued rows (grd_reservation g) -> pending_after g kind p p' -> pending_ok p'.
Proof.
  intros Hp (hw & latch & _ & _ & Hq & Ht & Hb & _) Ha. destruct kind as [k|]; simpl in Ha; [|by subst].
  destruct Ha as (t & Hat & ->). 
  intros d o [[_ <-]|[_ Ho]]%lookup_insert_Some; [simpl|by apply Hp in Ho]. unfold RESERVATION_WINDOW_MICROS in Hb. lia.
Qed.

(** A guard that was released, by a handoff or by dropping it. *)
Lemma released_ok y i hd g (a : MemoryTrustedClockAuthorityV1) p cs :
  clock_ok y -> sy_handles y !! i = Some hd -> hd_guard hd = Some g ->
  memory_view a = rolled_back (memory_view (authority_of y hd)) -> pending_ok p ->
  let y' := put i a None p (sy_reservations y) cs y in clock_ok y' /\ moved y y'.
Proof.
  intros Hok Hi Hg Hv Hp.
  assert (Hw : hd_holds_writer hd = true) by (apply (co_guard_lock _ Hok _ _ Hi); by rewrite Hg).
  unfold rolled_back in Hv. simpl in Hv. rewrite Hw in Hv. apply memory_view_inv in Hv as (Hs & Ht & Hh). split.
  - apply put_alone; rewrite ?Hs, ?Hh; simpl;
      first [done|by destruct Hok|by eapply alone_holder|by split; [|intros []]].
  - unfold moved; simpl. rewrite Hs. split; [apply rows_le_refl|done].
Qed.

Lemma step_handoff_ok y i hd g expiries staged wall mono wait (h' : Host MemoryTrustedClockAuthorityV1 W M) r cs :
  clock_ok y -> sy_handles y !! i = Some hd -> hd_guard hd = Some g ->
  handoff_checked (T:=StagedArtifactBytesV1) g expiries staged (host_of y hd wall mono wait) = (h', r) ->
  let y' := put i (h_port h') None (h_pending h') (sy_reservations y) cs y in clock_ok y' /\ moved y y'.
Proof.
  intros Hok Hi Hg Hr. eapply wp_run in Hr; [|apply handoff_spec; apply host_at]. destruct Hr as [Hv Hr].
  eapply released_ok; eauto. destruct (co_guard _ Hok _ _ _ Hi Hg) as [[Hiss _] _].
  destruct r as [use|e]; [|rewrite Hr; apply (co_pending _ Hok)].
  destruct Hr as (_ & _ & _ & _ & Ha). by eapply pending_after_ok; [apply (co_pending _ Hok)|..].
Qed.

(** A step on the pending table alone. *)
Lemma pending_step_ok y p cs :
  clock_ok y -> pending_ok p ->
  (forall hw latch, validate_rows (mas_rows (sy_shared y)) = Ok (hw, latch) ->
     sy_pending y !! hw_domain hw = None -> p !! hw_domain hw = None) ->
  clock_ok (MkSystem (sy_shared y) p (sy_handles y) (sy_reservations y) cs).
Proof.
  intros Hok Hp Hd. split; simpl; try done; try (by destruct Hok). intros i hd g Hi Hg.
  destruct (co_guard _ Hok _ _ _ Hi Hg) as [[Hiss (hw & latch & Hv & Hh & Hl & Hn)] Hs].
  split; [split|]; [done| |done]. exists hw, latch. split_and!; try done. by eapply Hd.
Qed.

Lemma close_ok y i hd :
  clock_ok y -> sy_handles y !! i = Some hd -> hd_guard hd = None ->
  clock_ok (MkSystem (sy_shared y) (sy_pending y) (delete i (sy_handles y)) (sy_reservations y) (sy_clears y)).
Proof.
  intros Hok Hi Hg. pose proof (unguarded _ _ _ Hok Hi Hg) as Hw.
  assert (Hat : forall j hd', delete i (sy_handles y) !! j = Some hd' -> sy_handles y !! j = Some hd').
  { by intros j hd' [_ ?]%lookup_delete_Some. }
  split; simpl; try (by destruct Hok).
  - intros j hd' Hj%Hat. by eapply (co_idle _ Hok).
  - intros j hd' Hj%Hat. by eapply (co_guard_lock _ Hok).
  - intros j hd' Hj%Hat. by eapply (co_held _ Hok).
  - intros (j & hd' & Hj & Hwj)%(co_holder _ Hok). exists j, hd'. split; [|done].
    rewrite lookup_delete_ne; [done|]. intros ->. congruence.
  - intros j k hd1 hd2 Hj%Hat Hk%Hat. by eapply (co_one _ Hok).
  - intros j hd' g Hj%Hat. by eapply (co_guard _ Hok).
Qed.

Lemma clock_step_ok y l y' :
  clock_ok y -> clock_step (W:=W) (M:=M) y l y' -> clock_ok y' /\ moved y y'.
Proof.
  intros Hok Hs. destruct Hs as [i hd g0 wall mono wait h' r Hi Hg Hr|i hd wall mono wait h' r Hi Hg Hr
    |i hd request wall mono wait h' r Hi Hg Hr|before d after Hc|i hd before rsv after wall mono wait h' r Hi Hg Hrs Hr
    |i hd g expiries staged wall mono wait h' r Hi Hg Hr|i hd g Hi Hg|i entropy Hi|i hd Hi Hg|p' Hp Hd].
  - by eapply step_reserve_ok.
  - by eapply step_latch_ok.
  - by eapply step_ack_ok.
  - split; [|by apply moved_same]. apply pending_step_ok; [done| |].
    + intros d' o [_ Ho]%lookup_delete_Some. by apply (co_pending _ Hok) in Ho.
    + intros hw latch _ Hn. by apply lookup_delete_None; right.
  - by eapply step_guard_ok.
  - by eapply step_handoff_ok.
  - eapply released_ok; eauto; [|apply (co_pending _ Hok)]. apply memory_rollback_view.
  - split; [|by apply moved_same]. eapply (put_same _ _ (MkHandle None false [] None)); try done; try (by destruct Hok).
    + by right.
    + intros j hd' g Hj Hg. by destruct (co_guard _ Hok _ _ _ Hj Hg).
  - unfold release. simpl. rewrite (unguarded _ _ _ Hok Hi Hg). simpl. split; [by eapply close_ok|by apply moved_same].
  - split; [|by apply moved_same]. apply pending_step_ok; [done..|]. intros hw latch Hv. by rewrite (Hd hw latch Hv).
Qed.

Lemma moved_trans y1 y2 y3 : moved y1 y2 -> moved y2 y3 -> moved y1 y3.
Proof. intros [? ?] [? ?]. split; [by eapply rows_le_trans|by etrans]. Qed.

Lemma clock_run_ok y ls y' :
  clock_ok y -> clock_run (W:=W) (M:=M) y ls y' -> clock_ok y' /\ moved y y'.
Proof.
  intros Hok Hr. induction Hr as [y|y l y1 ls y2 Hs _ IH]; [split; [done|by apply moved_same]|].
  destruct (clock_step_ok _ _ _ Hok Hs) as [Hok1 Hm1]. destruct (IH Hok1). split; [done|by eapply moved_trans].
Qed.

Lemma initial_ok : clock_ok system_initial.
Proof. split; simpl; try done; [by left|apply NoDup_nil_2]. Qed.

Lemma clock_reachable_ok y : clock_reachable (W:=W) (M:=M) y -> clock_ok y.
Proof. intros [ls Hr]. by apply (clock_run_ok _ _ _ initial_ok Hr). Qed.
End Steps.
