(* ===== verification/TrustedClockProperties.v ===== *)
(** * What the trusted-clock fence promises

    Theorems over every system reachable by any interleaving of the handles of
    an authority, and over any port that satisfies the laws: the invariant,
    durable time that never regresses, releases inside their window, latched
    overruns, acknowledgements, and progress. *)

From Stdlib Require Import String ZArith Lia Bool Sorting.Sorted.
From S2P Require Import Prelude Text FallbackRecords StrictCbor TrustedClock TrustedClockSpec TrustedClockSystem.
From S2P Require Import TrustedClockInvariant.

Local Open Scope Z_scope.

(** ** Calls on a port *)

Section Calls.
Context {S W M : Type}.
Context `{ClockPortLaws S} `{TrustedWallSourceV1 W} `{GuardMonotonicSourceV1 M}.
Implicit Type h : Host S W M.

(** What a reservation does, on any port that keeps the laws of its
    transactions.  A granted reservation committed the row that records it, from
    a free lock, with no latch and no pending overrun, and released the lock.  A
    refused one left durable rows, acknowledgements, lock and pending table as
    they were, except that a pending overrun of this identity may have been
    latched instead. *)
Theorem reservation_effect g0 h h' r :
  idle (view h) -> reserve_trusted_clock g0 h = (h', r) ->
  match r with
  | Ok reservation => exists mark rows, free (view h)
      /\ reserve_decided (pv_rows (view h)) (h_pending h) mark (Reserved reservation) rows
      /\ (forall m, g0 = Some m -> mark = m)
      /\ view h' = MkView rows (pv_acks (view h)) None false false /\ h_pending h' = h_pending h
  | Err e => (view h' = view h /\ h_pending h' = h_pending h)
      \/ e = ClockError.OverrunLatched /\ exists mark domain rows, free (view h)
         /\ reserve_decided (pv_rows (view h)) (h_pending h) mark (LatchCommitted domain) rows
         /\ view h' = MkView rows (pv_acks (view h)) None false false
         /\ h_pending h' = delete domain (h_pending h)
  end.
Proof.
  intros Hi Hr. eapply wp_run in Hr; [|by apply (reserve_spec (view h) (h_pending h))].
  assert (Hc : forall rows, free (view h) -> committed_view (view h) rows [] = MkView rows (pv_acks (view h)) None false false).
  { intros rows [Hl Hh]. unfold committed_view. by rewrite Hl, Hh, app_nil_r. }
  destruct r as [rsv|e].
  - destruct Hr as (mark & rows & Hf & Hd & Hm & Hv & Hp). rewrite Hc in Hv by done. by exists mark, rows.
  - destruct Hr as [[Hv Hp]|(He & mark & d & rows & Hf & Hd & Hv & Hp)]; [by left|right].
    rewrite Hc in Hv by done. split; [done|]. by exists mark, d, rows.
Qed.

(** What an acknowledgement does.  A successful one was made by the
    authorized, unexpired operator, at a sample not below the high water, for
    exactly the latched overrun count; it cleared the latch, kept everything
    else of the row and appended one immutable record of it.  A refused one
    changed nothing. *)
Theorem acknowledgement_effect `{Blake3} request h h' r :
  idle (view h) -> acknowledge_trusted_clock_overrun request h = (h', r) ->
  match r with
  | Ok _ => exists hw latch t, free (view h) /\ validate_rows (pv_rows (view h)) = Ok (hw, latch)
      /\ (wall_sample (h_wall h)).2 = Ok t /\ hw_high_water hw <= t
      /\ haa_principal (ack_authorization request) = apr_principal (ack_operator request)
      /\ t < apr_expires_at (ack_operator request)
      /\ lt_latched latch = true /\ ack_expected_overrun_count request = lt_overrun_count latch
      /\ view h' = MkView (set_latch (unlatch (lt_row latch)) (pv_rows (view h)))
           (pv_acks (view h) ++ [acknowledgement_row request (lt_overrun_count latch) t]) None false false
      /\ h_pending h' = h_pending h
  | Err _ => view h' = view h /\ h_pending h' = h_pending h
  end.
Proof.
  intros Hi Hr. eapply wp_run in Hr; [|by apply (ack_spec (view h) (h_pending h))].
  destruct r as [[]|e]; [|exact Hr].
  destruct Hr as (Hf & hw & latch & t & Hv & Hs & Ht & Ha & Hl & Hc & Hview & Hp). exists hw, latch, t.
  unfold authorize_acknowledgement in Ha. destruct (_ && _) eqn:Hb in Ha; [|done].
  apply andb_true_iff in Hb as [Hb1%bool_decide_eq_true Hb2%Z.ltb_lt].
  unfold committed_view in Hview. pose proof Hf as [Hl1 Hh1]. rewrite Hl1, Hh1 in Hview. by split_and!.
Qed.
End Calls.

(** ** Time *)

(** Trusted wall time never runs early.  A system time converts exactly if
    it is not before the epoch and fits [i64] microseconds, and then to the first
    whole microsecond that is not before it. *)
Theorem wall_time_rounds_up time :
  match wall_time_from_system_time time with
  | Ok micros => 0 <= micros <= I64_MAX /\ time <= micros * 1000 < time + 1000
  | Err e => e = ClockError.SourceUnavailable /\ (time < 0 \/ I64_MAX * 1000 < time)
  end.
Proof.
  unfold wall_time_from_system_time, wall_time_from_epoch_duration, MAX_TRUSTED_MICROS.
  destruct (Z.ltb_spec time 0); [by split; [|left]|].
  pose proof (Z.div_mod (time + 999) 1000 ltac:(lia)) as Hd.
  pose proof (Z.mod_pos_bound (time + 999) 1000 ltac:(lia)) as Hm.
  destruct (Z.leb_spec ((time + 999) / 1000) I64_MAX); [split; [split; [apply Z.div_pos|]|]; lia|].
  split; [done|]. right. lia.
Qed.

(** ** Expiries *)

Lemma fold_min_le l x y : y ∈ l -> fold_left Z.min l x <= y.
Proof.
  assert (Hle : forall l x, fold_left Z.min l x <= x).
  { clear. induction l as [|z l IH]; intros x; simpl; [lia|]. specialize (IH (Z.min x z)). lia. }
  revert x. induction l as [|z l IH]; intros x; [by intros ?%not_elem_of_nil|].
  intros [->|Hy]%elem_of_cons; simpl; [specialize (Hle l (Z.min x z)); lia|by apply IH].
Qed.

Lemma fold_min_le_start l x : fold_left Z.min l x <= x.
Proof. revert x. induction l as [|z l IH]; intros x; simpl; [lia|]. specialize (IH (Z.min x z)). lia. Qed.

Lemma list_min_le l m : list_min l = Some m -> forall y, y ∈ l -> m <= y.
Proof.
  destruct l as [|x l]; [done|]. intros [= <-] y [->|Hy]%elem_of_cons;
    [apply fold_min_le_start|by apply fold_min_le].
Qed.

(** [t] is before every expiry of the premises. *)
Record unexpired (premises : ExpiryPremisesV1) (t : Z) : Prop := {
  ux_leases : Forall (fun deadline => t < deadline) (retention_leases premises);
  ux_grants : Forall (fun secs => secs <> 0 -> t < secs * CLOCK_MICROS_PER_SECOND) (consent_grants premises);
  ux_references : Forall (fun until => t < until) (consent_references premises);
  ux_access : exists access, premises_access premises = Some access /\ t < apr_expires_at access;
}.

Lemma applicable_unexpired g premises e t :
  applicable_expiries g premises = Ok e -> t <= rsv_decision_bound (grd_reservation g) ->
  unexpired premises t /\ retention_leases premises <> [].
Proof.
  unfold applicable_expiries, earliest_expiry. intros He Ht.
  apply rbind_ok_inv in He as (earliest & He & Hlt).
  apply rbind_ok_inv in He as (access & Ha & He). apply rbind_ok_inv in He as (retention & Hret & He).
  apply ok_or_ok_inv in Ha, Hret. injection He as <-. cbv zeta in Hlt.
  destruct (Z.ltb_spec (rsv_decision_bound (grd_reservation g))
    (fold_left Z.min (((fun secs => secs * CLOCK_MICROS_PER_SECOND)
      <$> List.filter (fun secs => negb (secs =? 0)) (consent_grants premises)) ++ consent_references premises)
      (Z.min retention (apr_expires_at access)))) as [Hb|]; [|done].
  match type of Hb with _ < fold_left Z.min ?l ?x => pose proof (fold_min_le_start l x) as Hs;
    pose proof (fold_min_le l x) as Hin end.
  split; [|by destruct (retention_leases premises)]. split; try apply Forall_forall.
  - intros y Hy. pose proof (list_min_le _ _ Hret y Hy). lia.
  - intros secs Hy Hne. specialize (Hin (secs * CLOCK_MICROS_PER_SECOND)).
    enough (fold_left Z.min (((fun secs => secs * CLOCK_MICROS_PER_SECOND)
      <$> List.filter (fun secs => negb (secs =? 0)) (consent_grants premises)) ++ consent_references premises)
      (Z.min retention (apr_expires_at access)) <= secs * CLOCK_MICROS_PER_SECOND) by lia.
    apply Hin, elem_of_app. left. apply list_elem_of_fmap. exists secs. split; [done|].
    apply list_elem_of_In, filter_In. split; [by apply list_elem_of_In|]. by apply negb_true_iff, Z.eqb_neq.
  - intros y Hy. assert (Hy' : y ∈ ((fun secs => secs * CLOCK_MICROS_PER_SECOND)
      <$> List.filter (fun secs => negb (secs =? 0)) (consent_grants premises)) ++ consent_references premises)
      by (apply elem_of_app; by right). specialize (Hin y Hy'). lia.
  - exists access. split; [done|]. lia.
Qed.

(** ** The system *)

(** Release is closed: an overrun is latched or pending. *)
Definition closed (y : System) : Prop :=
  exists hw latch, validate_rows (mas_rows (sy_shared y)) = Ok (hw, latch)
    /\ (lt_latched latch = true \/ is_Some (sy_pending y !! hw_domain hw)).

(** Every flag about to be removed belongs to a latched overrun. *)
Definition clears_latched (y : System) : Prop :=
  forall d, d ∈ sy_clears y -> exists hw latch,
    validate_rows (mas_rows (sy_shared y)) = Ok (hw, latch) /\ hw_domain hw = d /\ lt_latched latch = true.

Lemma removed_spec (p p' : PendingOverruns) d :
  d ∈ removed p p' <-> is_Some (p !! d) /\ p' !! d = None.
Proof.
  unfold removed. rewrite list_elem_of_In, filter_In, <- list_elem_of_In, negb_true_iff, bool_decide_eq_false.
  rewrite eq_None_not_Some. apply and_iff_compat_r. rewrite list_elem_of_fmap. split.
  - intros ([d' o] & -> & Ho%elem_of_map_to_list). by exists o.
  - intros [o Ho%elem_of_map_to_list]. by exists (d, o).
Qed.

Lemma removed_same p d : d ∉ removed p p.
Proof. intros [[o Ho] Hn]%removed_spec. congruence. Qed.

Lemma removed_delete p d d' : d' ∈ removed p (delete d p) -> d' = d.
Proof.
  intros [[o Ho] Hn]%removed_spec. apply lookup_delete_None in Hn as [->|Hn]; [done|].
  discriminate (eq_trans (eq_sym Hn) Ho).
Qed.

Section System.
Context {W M : Type} `{TrustedWallSourceV1 W} `{GuardMonotonicSourceV1 M} `{Blake3}.
Implicit Type (y : System).

(** C7: the authority stays consistent under every interleaving.  At most one
    handle holds the lock, exactly the one whose guard is open; the tables hold
    nothing or one valid row each; every outstanding reservation is covered by
    the durable high water, sequence and reserved bound, with a sequence of its
    own; and while a guard is open release is open and the high water is the one
    the guard read. *)
Theorem clock_invariant y : clock_reachable (W:=W) (M:=M) y -> clock_ok y.
Proof. apply clock_reachable_ok. Qed.

(** Durable time never regresses.  Along any run the clock domain stays,
    high water, reserved bound, reservation sequence and overrun count never
    fall, and acknowledgements are only appended. *)
Theorem clock_never_regresses y ls y' :
  clock_reachable (W:=W) (M:=M) y -> clock_run (W:=W) (M:=M) y ls y' ->
  rows_le (mas_rows (sy_shared y)) (mas_rows (sy_shared y'))
  /\ mas_acknowledgements (sy_shared y) `prefix_of` mas_acknowledgements (sy_shared y').
Proof. intros Hok%clock_reachable_ok Hr. by apply (clock_run_ok _ _ _ Hok Hr). Qed.

(** The instant of a handoff of any target. *)
Lemma handoff_in_window {T C} `{ProtectedHandoffTargetV1 T C} y i hd g premises e (staged : T) wall mono wait h' use :
  clock_reachable (W:=W) (M:=M) y -> sy_handles y !! i = Some hd -> hd_guard hd = Some g ->
  applicable_expiries g premises = Ok e ->
  handoff_checked g e staged (host_of y hd wall mono wait) = (h', Ok use) ->
  exists t hw latch, (wall_sample wall).2 = Ok t
    /\ validate_rows (mas_rows (sy_shared y)) = Ok (hw, latch)
    /\ hw_high_water hw <= t <= rsv_sampled (grd_reservation g) + 32000000
    /\ unexpired premises t /\ retention_leases premises <> []
    /\ 0 <= (mono_mark mono).2 - rsv_g0 (grd_reservation g) <= 30 * 1000000000
    /\ use_value use = target_commit staged.
Proof.
  intros Hok%clock_reachable_ok Hi Hg He Hr.
  destruct (co_guard _ Hok _ _ _ Hi Hg) as [[(hw0 & latch0 & Hv0 & _ & _ & _ & Hb & _) (hw & latch & Hv & Hh & _)] _].
  eapply wp_run in Hr; [|apply handoff_spec; apply host_at].
  destruct Hr as (_ & Hval & _ & _ & (mark & t & Hmark & Ht & []) & _). simpl in Hmark, Ht.
  destruct (applicable_unexpired _ _ _ t He) as [Hu Hn]; [done|].
  unfold RESERVATION_WINDOW_MICROS in Hb. unfold TRUSTED_CLOCK_GUARD_BUDGET in iw_budget.
  exists t, hw, latch. rewrite Hmark. split_and!; try done; lia.
Qed.

(** C8: protected values are released inside their window.  A handoff that
    returns a value took it from the staged output at a wall sample [t] that is
    not below the durable high water, at most 32 seconds after the reservation
    and before every expiry read under the guard, and at most 30 seconds of
    monotonic time after the guard started. *)
Theorem release_in_window y i hd g premises e staged wall mono wait h' use :
  clock_reachable (W:=W) (M:=M) y -> sy_handles y !! i = Some hd -> hd_guard hd = Some g ->
  applicable_expiries g premises = Ok e ->
  handoff_checked (T:=StagedArtifactBytesV1) g e staged (host_of y hd wall mono wait) = (h', Ok use) ->
  exists t hw latch, (wall_sample wall).2 = Ok t
    /\ validate_rows (mas_rows (sy_shared y)) = Ok (hw, latch)
    /\ hw_high_water hw <= t <= rsv_sampled (grd_reservation g) + 32000000
    /\ unexpired premises t /\ retention_leases premises <> []
    /\ 0 <= (mono_mark mono).2 - rsv_g0 (grd_reservation g) <= 30 * 1000000000
    /\ use_value use = staged_bytes staged.
Proof.
  intros Hy Hi Hg He Hr. exact (handoff_in_window (T:=StagedArtifactBytesV1) _ _ _ _ _ _ _ _ _ _ _ _ Hy Hi Hg He Hr).
Qed.

Definition reservations (ls : list Label) : list TrustedClockReservationV1 :=
  omap (fun l => match l with LReserve (Ok r) => Some r | _ => None end) ls.

Definition later (r r' : TrustedClockReservationV1) : Prop :=
  rsv_domain r' = rsv_domain r /\ rsv_seq r < rsv_seq r' /\ rsv_sampled r <= rsv_sampled r'.

Lemma run_reservations y ls y' :
  clock_ok y -> clock_run (W:=W) (M:=M) y ls y' ->
  StronglySorted later (reservations ls)
  /\ forall hw latch r, validate_rows (mas_rows (sy_shared y)) = Ok (hw, latch) -> r ∈ reservations ls ->
       rsv_domain r = hw_domain hw /\ hw_seq hw < rsv_seq r /\ hw_high_water hw <= rsv_sampled r.
Proof.
  intros Hok Hr. induction Hr as [y|y l y1 ls y2 Hs _ IH].
  { split; [constructor|]. by intros hw latch r _ ?%not_elem_of_nil. }
  destruct (clock_step_ok _ _ _ Hok Hs) as [Hok1 [Hle _]]. destruct (IH Hok1) as [Hsort Hall].
  assert (Hrest : forall hw latch r, validate_rows (mas_rows (sy_shared y)) = Ok (hw, latch) ->
    r ∈ reservations ls -> rsv_domain r = hw_domain hw /\ hw_seq hw < rsv_seq r /\ hw_high_water hw <= rsv_sampled r).
  { intros hw latch r (hw1 & latch1 & Hv1 & [])%Hle Hin. destruct (Hall _ _ _ Hv1 Hin) as (? & ? & ?).
    split_and!; [congruence|lia..]. }
  destruct l as [[r|e]|g|g kind|b|u|]; try (by split). simpl.
  inversion Hs as [i hd g0 wall mono wait h' r' Hi Hg Hr| | | | | | | | |]; subst.
  eapply wp_run in Hr; [|eapply reserve_spec; [apply host_at|by eapply idle_at]].
  destruct Hr as (g & rows & Hf & Hdec & _ & Hv & _).
  apply decided_reserved_rows in Hdec as (hw & latch & Hst & Hh & Hl & _ & _ & [] & _ & -> & Hh');
    [|apply (co_rows _ Hok)].
  apply memory_view_inv in Hv as (Hsh & _). simpl in Hsh.
  assert (Hv1 : validate_rows (mas_rows (ma_shared (h_port h'))) = Ok (reserved_hw hw r, latch)).
  { rewrite Hsh. by apply validate_rows_of. }
  split.
  - constructor; [done|]. apply Forall_forall. intros r' Hin.
    destruct (Hall _ _ _ Hv1 Hin) as (? & ? & ?). split_and!; simpl in *; congruence || lia.
  - intros hw0 latch0 r0 Hv0 [->|Hin]%elem_of_cons; [|by eapply Hrest].
    destruct Hst as [Heq|t Heq _ _ _ _]; simpl in Heq; rewrite Heq in Hv0; [|done].
    rewrite validate_rows_of in Hv0 by done. injection Hv0 as <- <-. split_and!; [done|lia..].
Qed.

(** Reservations are ordered.  Whatever the interleaving, the reservations
    granted on one authority have one domain, strictly rising sequences and
    samples that never fall. *)
Theorem reservations_ordered ls y :
  clock_run (W:=W) (M:=M) system_initial ls y -> StronglySorted later (reservations ls).
Proof. intros Hr. by apply (run_reservations _ _ _ initial_ok Hr). Qed.

(** ** Overruns *)

(** No acknowledgement succeeds while the removal of a latched flag is still
    under way. *)
Definition quiet_step y l y' : Prop :=
  clock_step (W:=W) (M:=M) y l y' /\ (l = LAck (Ok tt) -> sy_clears y = []).

Inductive quiet_run : System -> list Label -> System -> Prop :=
| quiet_nil y : quiet_run y [] y
| quiet_cons y l y1 ls y2 : quiet_step y l y1 -> quiet_run y1 ls y2 -> quiet_run y (l :: ls) y2.

(** No reservation, guard or release was granted. *)
Definition refused (l : Label) : Prop :=
  match l with
  | LReserve (Ok _) | LGuard (Ok _) | LHandoff _ _ => False
  | _ => True
  end.

(** The rows and the pending table a reservation or latch commit leaves. *)
Lemma reserve_rows y i hd g0 wall mono wait (h' : Host MemoryTrustedClockAuthorityV1 W M) r :
  clock_ok y -> sy_handles y !! i = Some hd ->
  reserve_trusted_clock g0 (host_of y hd wall mono wait) = (h', r) ->
  (exists e, r = Err e /\ mas_rows (ma_shared (h_port h')) = mas_rows (sy_shared y) /\ h_pending h' = sy_pending y)
  \/ (exists rsv hw latch, r = Ok rsv /\ started (mas_rows (sy_shared y)) hw latch /\ hw_ok hw /\ latch_ok latch
       /\ lt_latched latch = false /\ sy_pending y !! hw_domain hw = None /\ h_pending h' = sy_pending y)
  \/ (exists e hw latch o, r = Err e /\ started (mas_rows (sy_shared y)) hw latch /\ hw_ok hw /\ latch_ok latch
       /\ validate_rows (mas_rows (ma_shared (h_port h'))) = Ok (hw, latched_with latch o)
       /\ h_pending h' = delete (hw_domain hw) (sy_pending y)).
Proof.
  intros Hok Hi Hr. eapply wp_run in Hr; [|eapply reserve_spec; [apply host_at|by eapply idle_at]].
  destruct r as [rsv|e].
  - right; left. destruct Hr as (g & rows & Hf & Hdec & _ & _ & Hp).
    apply decided_reserved_rows in Hdec as (hw & latch & Hst & Hh & Hl & Hu & Hn & _); [|apply (co_rows _ Hok)].
    exists rsv, hw, latch. by split_and!.
  - destruct Hr as [[Hv Hp]|(_ & g & d & rows & Hf & Hdec & Hv & Hp)].
    + left. exists e. split_and!; try done. by apply (f_equal pv_rows) in Hv.
    + right; right. apply decided_latched_rows in Hdec as (hw & latch & o & Hst & Hh & Hl & <- & _ & Hl' & ->);
        [|apply (co_rows _ Hok)|apply (co_pending _ Hok)].
      exists e, hw, latch, o. split_and!; try done. apply (f_equal pv_rows) in Hv. simpl in Hv. rewrite Hv.
      by apply validate_rows_of.
Qed.

Lemma latch_rows y i hd wall mono wait (h' : Host MemoryTrustedClockAuthorityV1 W M) r :
  clock_ok y -> sy_handles y !! i = Some hd ->
  commit_pending_overrun_latch (host_of y hd wall mono wait) = (h', r) ->
  (mas_rows (ma_shared (h_port h')) = mas_rows (sy_shared y) /\ h_pending h' = sy_pending y)
  \/ (exists hw latch o, validate_rows (mas_rows (sy_shared y)) = Ok (hw, latch)
       /\ validate_rows (mas_rows (ma_shared (h_port h'))) = Ok (hw, latched_with latch o)
       /\ h_pending h' = delete (hw_domain hw) (sy_pending y)).
Proof.
  intros Hok Hi Hr. eapply wp_run in Hr; [|eapply latch_spec; [apply host_at|by eapply idle_at]].
  destruct r as [[]|e]; [|destruct Hr as [Hr _]|]; [|left; destruct Hr as [Hv Hp]; split;
    [by apply (f_equal pv_rows) in Hv|done]..].
  right. destruct Hr as (Hf & hw & latch & o & row & Hval & Ho & Hrow & Hv & Hp).
  apply latched_row_with in Hrow. subst row. destruct (validated_ok _ _ _ Hok Hval) as (Hrows & Hh & Hl).
  exists hw, latch, o. split_and!; try done. apply (f_equal pv_rows) in Hv. simpl in Hv. rewrite Hv, Hrows.
  apply (validate_rows_of hw (latched_with latch o)); [done|]. eapply latched_with_ok; eauto. apply (co_pending _ Hok).
Qed.

Lemma started_validate rows hw latch hw' latch' :
  started rows hw latch -> hw_ok hw -> latch_ok latch -> validate_rows rows = Ok (hw', latch') ->
  hw' = hw /\ latch' = latch.
Proof.
  intros [->|t -> _ _ _ _] Hh Hl Hv; [|done]. rewrite validate_rows_of in Hv by done. by injection Hv as <- <-.
Qed.

Lemma clears_same y y' :
  mas_rows (sy_shared y') = mas_rows (sy_shared y) -> (forall d, d ∈ sy_clears y' -> d ∈ sy_clears y) ->
  clears_latched y -> clears_latched y'.
Proof. intros Hr Hc Hcl d Hd%Hc%Hcl. by rewrite Hr. Qed.

Lemma quiet_clears y l y' :
  clock_ok y -> clears_latched y -> quiet_step y l y' -> clears_latched y'.
Proof.
  intros Hok Hcl [Hs Hq]. destruct Hs as [i hd g0 wall mono wait h' r Hi Hg Hr|i hd wall mono wait h' r Hi Hg Hr
    |i hd request wall mono wait h' r Hi Hg Hr|before d after Hc|i hd before rsv after wall mono wait h' r Hi Hg Hrs Hr
    |i hd g expiries staged wall mono wait h' r Hi Hg Hr|i hd g Hi Hg|i entropy Hi|i hd Hi Hg|p' Hp Hd].
  - intros d [Hd|Hd]%elem_of_app; destruct (reserve_rows _ _ _ _ _ _ _ _ _ Hok Hi Hr)
      as [(e & -> & Hrw & Hp)|[(rsv & hw & latch & -> & Hst & Hh & Hl & Hu & _ & Hp)
         |(e & hw & latch & o & -> & Hst & Hh & Hl & Hv & Hp)]]; simpl; rewrite ?Hp in Hd;
      try (by destruct (removed_same (sy_pending y) d)).
    + rewrite Hrw. by apply Hcl.
    + destruct (Hcl d Hd) as (hw' & latch' & Hv' & _ & Hlat).
      destruct (started_validate _ _ _ _ _ Hst Hh Hl Hv') as [_ ->]. congruence.
    + destruct (Hcl d Hd) as (hw' & latch' & Hv' & <- & Hlat).
      destruct (started_validate _ _ _ _ _ Hst Hh Hl Hv') as [-> _]. by exists hw, (latched_with latch o).
    + apply removed_delete in Hd as ->. by exists hw, (latched_with latch o).
  - intros d [Hd|Hd]%elem_of_app; destruct (latch_rows _ _ _ _ _ _ _ _ Hok Hi Hr)
      as [[Hrw Hp]|(hw & latch & o & Hv & Hv' & Hp)]; simpl; rewrite ?Hp in Hd;
      try (by destruct (removed_same (sy_pending y) d)).
    + rewrite Hrw. by apply Hcl.
    + destruct (Hcl d Hd) as (hw' & latch' & Hv1 & <- & Hlat). rewrite Hv in Hv1. injection Hv1 as <- <-.
      by exists hw, (latched_with latch o).
    + apply removed_delete in Hd as ->. by exists hw, (latched_with latch o).
  - destruct r as [[]|e].
    + intros d Hd. simpl in Hd. rewrite Hq in Hd by done. by apply not_elem_of_nil in Hd.
    + eapply wp_run in Hr; [|eapply ack_spec; [apply host_at|by eapply idle_at]]. destruct Hr as [Hv _].
      apply (clears_same y); [|done..]. by apply (f_equal pv_rows) in Hv.
  - apply (clears_same y); [done| |done]. simpl. intros d' Hd'. rewrite Hc. set_solver.
  - apply (clears_same y); [|done..]. eapply wp_run in Hr; [|eapply guard_spec; [apply host_at|by eapply idle_at]].
    destruct r as [g|e]; [destruct Hr as (_ & _ & _ & Hv & _)|destruct Hr as [Hv _]]; by apply (f_equal pv_rows) in Hv.
  - apply (clears_same y); [|done..]. eapply wp_run in Hr; [|apply handoff_spec; apply host_at].
    destruct Hr as [Hv _]. by apply (f_equal pv_rows) in Hv.
  - apply (clears_same y); [|done..]. simpl. pose proof (memory_rollback_view (authority_of y hd)) as Hv.
    by apply (f_equal pv_rows) in Hv.
  - by apply (clears_same y).
  - apply (clears_same y); [|done..]. simpl. unfold release. by destruct (ma_holds_writer _).
  - by apply (clears_same y).
Qed.

Lemma closed_same y y' :
  mas_rows (sy_shared y') = mas_rows (sy_shared y) ->
  (forall hw latch, validate_rows (mas_rows (sy_shared y)) = Ok (hw, latch) ->
     is_Some (sy_pending y !! hw_domain hw) -> lt_latched latch = true \/ is_Some (sy_pending y' !! hw_domain hw)) ->
  closed y -> closed y'.
Proof.
  intros Hr Hp (hw & latch & Hv & Hc). exists hw, latch. rewrite Hr. split; [done|].
  destruct Hc as [Hl|Hc]; [by left|by eapply Hp].
Qed.

Lemma closed_unguarded y i hd g :
  clock_ok y -> closed y -> sy_handles y !! i = Some hd -> hd_guard hd = Some g -> False.
Proof.
  intros Hok (hw & latch & Hv & Hc) Hi Hg.
  destruct (co_guard _ Hok _ _ _ Hi Hg) as [[_ (hw' & latch' & Hv' & _ & Hl & Hn)] _].
  rewrite Hv in Hv'. injection Hv' as <- <-. destruct Hc as [Hc|[o Ho]]; [congruence|].
  discriminate (eq_trans (eq_sym Hn) Ho).
Qed.

Lemma closed_step y l y' :
  clock_ok y -> clears_latched y -> closed y -> clock_step (W:=W) (M:=M) y l y' -> l <> LAck (Ok tt) ->
  closed y' /\ refused l.
Proof.
  intros Hok Hcl Hclosed Hs Hl. destruct Hs as [i hd g0 wall mono wait h' r Hi Hg Hr|i hd wall mono wait h' r Hi Hg Hr
    |i hd request wall mono wait h' r Hi Hg Hr|before d after Hc|i hd before rsv after wall mono wait h' r Hi Hg Hrs Hr
    |i hd g expiries staged wall mono wait h' r Hi Hg Hr|i hd g Hi Hg|i entropy Hi|i hd Hi Hg|p' Hp Hd].
  - destruct (reserve_rows _ _ _ _ _ _ _ _ _ Hok Hi Hr)
      as [(e & -> & Hrw & Hp)|[(rsv & hw & latch & -> & Hst & Hh & Hlo & Hu & Hn & Hp)
         |(e & hw & latch & o & -> & Hst & Hh & Hlo & Hv & Hp)]].
    + split; [|done]. apply (closed_same y); try done. intros; by right.
    + exfalso. destruct Hclosed as (hw' & latch' & Hv' & Hc).
      destruct (started_validate _ _ _ _ _ Hst Hh Hlo Hv') as [-> ->].
      destruct Hc as [Hc|[o Ho]]; [congruence|]. discriminate (eq_trans (eq_sym Hn) Ho).
    + split; [|done]. exists hw, (latched_with latch o). split; [done|by left].
  - split; [|done]. destruct (latch_rows _ _ _ _ _ _ _ _ Hok Hi Hr) as [[Hrw Hp]|(hw & latch & o & Hv & Hv' & Hp)].
    + apply (closed_same y); try done. intros; by right.
    + exists hw, (latched_with latch o). split; [done|by left].
  - split; [|done]. destruct r as [[]|e]; [done|].
    eapply wp_run in Hr; [|eapply ack_spec; [apply host_at|by eapply idle_at]]. destruct Hr as [Hv Hp].
    apply (closed_same y); [by apply (f_equal pv_rows) in Hv| |done]. intros; by right.
  - split; [|done]. apply (closed_same y); [done| |done]. simpl. intros hw latch Hv Ho.
    destruct (decide (hw_domain hw = d)) as [<-|Hne]; [left|right; destruct Ho as [o Ho]; exists o; by apply lookup_delete_Some].
    destruct (Hcl (hw_domain hw)) as (hw' & latch' & Hv' & _ & Hlat); [rewrite Hc; set_solver|].
    rewrite Hv in Hv'. by injection Hv' as <- <-.
  - eapply wp_run in Hr; [|eapply guard_spec; [apply host_at|by eapply idle_at]]. destruct r as [g|e].
    + exfalso. destruct Hr as (_ & _ & Hgu & _). apply guarded_inv in Hgu as (hw & latch & Hv & _ & _ & _ & _ & Hu & Hn).
      destruct Hclosed as (hw' & latch' & Hv' & Hc). simpl in Hv. rewrite Hv' in Hv. injection Hv as -> ->.
      destruct Hc as [Hc|[o Ho]]; [congruence|]. discriminate (eq_trans (eq_sym Hn) Ho).
    + split; [|done]. destruct Hr as [Hv Hp]. apply (closed_same y); [by apply (f_equal pv_rows) in Hv| |done].
      simpl. rewrite Hp. intros; by right.
  - exfalso. by eapply closed_unguarded.
  - exfalso. by eapply closed_unguarded.
  - split; [|done]. apply (closed_same y); try done. intros; by right.
  - split; [|done]. apply (closed_same y); [|intros; by right|done]. simpl. unfold release. by destruct (ma_holds_writer _).
  - split; [|done]. apply (closed_same y); [done| |done]. simpl. intros hw latch Hv Ho. right. by rewrite (Hd hw latch Hv).
Qed.

Lemma quiet_run_ok y ls y' :
  clock_ok y -> clears_latched y -> quiet_run y ls y' -> clock_ok y' /\ clears_latched y'.
Proof.
  intros Hok Hcl Hr. induction Hr as [|y l y1 ls y2 Hs _ IH]; [done|]. apply IH.
  - by destruct (clock_step_ok _ _ _ Hok (proj1 Hs)).
  - by eapply quiet_clears.
Qed.

Lemma overrun_closes y g kind y' :
  clock_ok y -> clock_step (W:=W) (M:=M) y (LHandoff g (Ok (Some kind))) y' -> closed y'.
Proof.
  intros Hok Hs. remember (LHandoff g (Ok (Some kind))) as l eqn:Hl.
  destruct Hs as [| | | | |i hd g' expiries staged wall mono wait h' r Hi Hg Hr| | | |]; try discriminate.
  injection Hl as -> Hk.
  destruct (co_guard _ Hok _ _ _ Hi Hg) as [[(hw & latch & Hv & Hdom & _) _] _].
  eapply wp_run in Hr; [|apply handoff_spec; apply host_at]. destruct Hr as [Hview Hr].
  destruct r as [use|e]; [|done]. injection Hk as Hk. destruct Hr as (_ & _ & _ & _ & Ha). rewrite Hk in Ha.
  destruct Ha as (t & _ & Hp). exists hw, latch. simpl. apply (f_equal pv_rows) in Hview. simpl in Hview. rewrite Hview.
  split; [done|]. right. rewrite Hp, <- Hdom. eexists. apply lookup_insert_eq.
Qed.

(** C24: an overrun closes release until it is acknowledged.  After a handoff
    that detected an overrun, as long as no acknowledgement succeeds, the overrun
    stays latched or pending, and no handle of any thread gets a reservation, a
    guard or another release, provided no acknowledgement came between a latch
    commit and the removal of its flag. *)
Theorem overrun_closes_release ls0 y0 g kind y ls y' :
  quiet_run system_initial ls0 y0 -> quiet_step y0 (LHandoff g (Ok (Some kind))) y ->
  quiet_run y ls y' -> LAck (Ok tt) ∉ ls ->
  closed y' /\ Forall refused ls.
Proof.
  intros Hr0 Hs Hr Hn. destruct (quiet_run_ok _ _ _ initial_ok ltac:(by intros d ?%not_elem_of_nil) Hr0) as [Hok0 Hcl0].
  pose proof (overrun_closes _ _ _ _ Hok0 (proj1 Hs)) as Hc.
  assert (Hcl : clears_latched y) by by eapply quiet_clears.
  destruct (clock_step_ok _ _ _ Hok0 (proj1 Hs)) as [Hok _]. clear Hr0 Hs Hok0 Hcl0.
  induction Hr as [y|y l y1 ls y2 Hs _ IH]; [by split|]. apply not_elem_of_cons in Hn as [Hl Hn].
  destruct (closed_step _ _ _ Hok Hcl Hc (proj1 Hs) (not_eq_sym Hl)) as [Hc1 Hrf].
  destruct (clock_step_ok _ _ _ Hok (proj1 Hs)) as [Hok1 _].
  destruct (IH Hn Hc1 (quiet_clears _ _ _ Hok Hcl Hs) Hok1) as [Hc2 Hall]. split; [done|by constructor].
Qed.
End System.

(** * Progress of the trusted-clock fence

    A release goes through: on an authority that is free and open, with clock
    readings that stay inside the window, a reservation, a guard and a handoff
    all succeed.  The readings are the scripts of the scripted sources, which
    can be any. *)

Definition reading (n : N) : Z := (Z.of_N n + 999) / 1000.

(** A free handle on durable rows. *)
Definition free_authority hw latch acks entropy : MemoryTrustedClockAuthorityV1 :=
  MkClockAuthority (MkAuthorityState (rows_of hw latch) acks false) None false entropy.

Definition script (ns : list N) : list ScriptedWallSampleV1 := SinceEpoch <$> ns.

Lemma fbind_ok {S W M A B} (m : FenceM S W M A) (k : A -> FenceM S W M B) h h1 a :
  m h = (h1, Ok a) -> fbind m k h = k a h1.
Proof. unfold fbind. by intros ->. Qed.

Lemma fcatch_run {S W M A} (m : FenceM S W M A) h h1 r : m h = (h1, r) -> fcatch m h = (h1, Ok r).
Proof. unfold fcatch. by intros ->. Qed.

Lemma flift_ok {S W M A} (r : ClockResult A) (h : Host S W M) a : r = Ok a -> flift r h = (h, Ok a).
Proof. by intros ->. Qed.

Lemma elapsed_ok later earlier :
  earlier <= later -> checked_elapsed_since later earlier = Some (later - earlier).
Proof. unfold checked_elapsed_since. intros. by leb_true. Qed.

Lemma charge_ok {S W M} phase before after (h : Host S W M) :
  0 <= after - before <= h_wait h ->
  charge_wait phase before after h = (with_wait (h_wait h - (after - before)) h, Ok tt).
Proof.
  intros Hw. unfold charge_wait, checked_elapsed_since. leb_true. unfold charge. by leb_true.
Qed.

Lemma write_pending_none {S W M} `{TrustedClockStorePortV1 S} hw latch (h : Host S W M) :
  h_pending h !! hw_domain hw = None -> write_pending_latch hw latch h = (h, Ok false).
Proof. intros Hn. unfold write_pending_latch, fbind, pending_overrun. by rewrite Hn. Qed.

Lemma scripted_reading n rest h (p : h_wall h = SinceEpoch n :: rest) :
  reading n <= I64_MAX ->
  sample_trusted (S:=MemoryTrustedClockAuthorityV1) (M:=ScriptedGuardMonotonicSourceV1) h = (with_wall rest h, Ok (reading n)).
Proof.
  intros Hn. unfold sample_trusted. rewrite p. cbn [wall_sample scripted_wall scripted_sample].
  unfold wall_time_from_epoch_duration, MAX_TRUSTED_MICROS. fold (reading n).
  destruct (Z.leb_spec (reading n) I64_MAX); [|lia]. by destruct (Z.leb_spec (reading n) I64_MAX); [|lia].
Qed.

Ltac ltb_false := repeat match goal with
  | |- context [?a <? ?b] => replace (a <? b) with false by (symmetry; apply Z.ltb_ge; simpl; lia)
  end; cbv beta iota.

(** One step of a fence function that is known to succeed. *)
Tactic Notation "fstep" tactic3(t) := erewrite fbind_ok; [|t]; cbv beta iota; cbn [mt_rows].

Definition scripted_host (a : MemoryTrustedClockAuthorityV1) ns os last wait p
    : Host MemoryTrustedClockAuthorityV1 (list ScriptedWallSampleV1) ScriptedGuardMonotonicSourceV1 :=
  MkHost a (script ns) (MkScriptedMono 0 os last) wait p.

Lemma reserved_row_runs hw t g0 :
  hw_high_water hw <= t -> t + RESERVATION_WINDOW_MICROS <= I64_MAX -> hw_seq hw < I64_MAX ->
  let rsv := MkReservation (hw_domain hw) (hw_seq hw + 1) t (t + RESERVATION_WINDOW_MICROS) g0 in
  exists row, reserved_row hw t g0 = Ok (row, rsv)
    /\ forall latch, MkClockRows [row] [lt_row latch] = rows_of (reserved_hw hw rsv) latch.
Proof.
  intros Hh Hb Hq rsv. unfold reserved_row, i64_checked_add.
  destruct (Z.ltb_spec t (hw_high_water hw)); [lia|]. leb_true. eexists. by split.
Qed.

Lemma reserve_runs hw latch acks entropy p n ns o1 o2 os last wait :
  hw_ok hw -> latch_ok latch -> lt_latched latch = false -> p !! hw_domain hw = None ->
  hw_high_water hw <= reading n -> reading n + RESERVATION_WINDOW_MICROS <= I64_MAX ->
  hw_seq hw < I64_MAX -> 0 <= o2 - o1 <= wait ->
  let rsv := MkReservation (hw_domain hw) (hw_seq hw + 1) (reading n)
               (reading n + RESERVATION_WINDOW_MICROS) o2 in
  reserve_trusted_clock None (scripted_host (free_authority hw latch acks entropy) (n :: ns) (o1 :: o2 :: os) last wait p)
  = (scripted_host (free_authority (reserved_hw hw rsv) latch acks entropy) ns os o2 (wait - (o2 - o1)) p, Ok rsv).
Proof.
  intros Hh Hl Hu Hp Hn Hb Hq Ho rsv.
  assert (Hi : reading n <= I64_MAX) by (unfold RESERVATION_WINDOW_MICROS in Hb; lia).
  destruct (reserved_row_runs hw (reading n) o2 Hn Hb Hq) as (row & Hrow & Hrows).
  unfold reserve_trusted_clock. do 5 fstep reflexivity. cbv zeta.
  assert (Hstep : forall wait', reserve_in_transaction o2 (scripted_host
      (MkClockAuthority (MkAuthorityState (rows_of hw latch) acks true) (Some (MkMemoryTx (rows_of hw latch) [])) true entropy)
      (n :: ns) os o2 wait' p)
    = (scripted_host (MkClockAuthority (MkAuthorityState (rows_of hw latch) acks true)
         (Some (MkMemoryTx (rows_of (reserved_hw hw rsv) latch) [])) true entropy) ns os o2 wait' p, Ok (Reserved rsv))).
  { intros wait'. unfold reserve_in_transaction. do 2 fstep reflexivity.
    fstep (unfold flift; rewrite validate_rows_of by done; reflexivity).
    rewrite Hu. fstep (by apply write_pending_none).
    fstep (by apply (scripted_reading n (script ns))).
    fstep (unfold flift; rewrite Hrow; reflexivity).
    fstep reflexivity. rewrite <- Hrows. reflexivity. }
  fstep (apply fcatch_run; erewrite fbind_ok by (apply charge_ok; simpl; lia); apply Hstep).
  unfold finish_reservation. fstep reflexivity. unfold fret, scripted_host, free_authority, with_port. simpl.
  by rewrite app_nil_r.
Qed.

Lemma guard_runs hw latch acks entropy p rsv ns o1 o2 os last wait :
  hw_ok hw -> latch_ok latch -> lt_latched latch = false -> p !! hw_domain hw = None ->
  rsv_domain rsv = hw_domain hw -> rsv_seq rsv <= hw_seq hw -> rsv_sampled rsv <= hw_high_water hw ->
  0 <= o2 - o1 <= wait ->
  open_release_guard rsv (scripted_host (free_authority hw latch acks entropy) ns (o1 :: o2 :: os) last wait p)
  = (scripted_host (MkClockAuthority (MkAuthorityState (rows_of hw latch) acks true) None true entropy) ns os o2
       (wait - (o2 - o1)) p, Ok (MkGuard rsv (hw_high_water hw))).
Proof.
  intros Hh Hl Hu Hp Hd Hq Ht Ho.
  assert (Hg : guarded_high_water p (rows_of hw latch) rsv = Ok (hw_high_water hw)).
  { unfold guarded_high_water. rewrite validate_rows_of by done. simpl. rewrite bool_decide_true by done.
    destruct (Z.ltb_spec (hw_seq hw) (rsv_seq rsv)); [lia|]. destruct (Z.ltb_spec (hw_high_water hw) (rsv_sampled rsv)); [lia|].
    simpl. rewrite Hu, bool_decide_false; [done|]. intros [o Hs]. discriminate (eq_trans (eq_sym Hp) Hs). }
  unfold open_release_guard. do 4 fstep reflexivity.
  fstep (apply fcatch_run; erewrite fbind_ok by (apply charge_ok; simpl; lia); erewrite fbind_ok by reflexivity;
    apply (f_equal (pair _) Hg)).
  reflexivity.
Qed.

Lemma handoff_runs a p g e staged n1 n2 ns o1 o2 os last wait :
  exp_domain e = rsv_domain (grd_reservation g) -> exp_reservation_seq e = rsv_seq (grd_reservation g) ->
  rsv_g0 (grd_reservation g) <= o1 <= rsv_g0 (grd_reservation g) + TRUSTED_CLOCK_GUARD_BUDGET ->
  rsv_g0 (grd_reservation g) <= o2 <= rsv_g0 (grd_reservation g) + TRUSTED_CLOCK_RESERVATION_WINDOW ->
  rsv_sampled (grd_reservation g) <= reading n1 -> grd_high_water g <= reading n1 ->
  reading n1 <= rsv_decision_bound (grd_reservation g) ->
  reading n2 <= rsv_decision_bound (grd_reservation g) -> rsv_decision_bound (grd_reservation g) <= I64_MAX ->
  handoff_checked (T:=StagedArtifactBytesV1) g e staged (scripted_host a (n1 :: n2 :: ns) (o1 :: o2 :: os) last wait p)
  = (scripted_host (memory_rollback a) ns os o2 wait p, Ok (MkUse (staged_bytes staged) None)).
Proof.
  intros Hd Hq Ho1 Ho2 Ht1 Ht2 Hb1 Hb2 Hi. unfold handoff_checked.
  assert (Hf : final_check g (scripted_host a (n1 :: n2 :: ns) (o1 :: o2 :: os) last wait p)
    = (scripted_host a (n2 :: ns) (o2 :: os) o1 wait p, Ok tt)).
  { unfold final_check. cbv zeta. fstep reflexivity.
    fstep (apply flift_ok; unfold ok_or; rewrite elapsed_ok by (simpl; lia); reflexivity).
    ltb_false. fstep (apply (scripted_reading n1 (script (n2 :: ns))); [done|lia]). ltb_false. reflexivity. }
  assert (Hp : post_handoff_overrun g (scripted_host a (n2 :: ns) (o2 :: os) o1 wait p)
    = (scripted_host a ns os o2 wait p, Ok None)).
  { unfold post_handoff_overrun. cbv zeta. fstep reflexivity.
    fstep (unfold fcatch; rewrite (scripted_reading n2 (script ns)) by (done || lia); reflexivity).
    rewrite elapsed_ok by (simpl; lia).
    unfold overrun_kind. ltb_false.
    replace (reading n2 <=? rsv_decision_bound (grd_reservation g)) with true by (symmetry; apply Z.leb_le; lia).
    reflexivity. }
  rewrite bool_decide_true by done. rewrite Hq, Z.eqb_refl. cbn [negb orb].
  fstep (unfold fcatch; erewrite fbind_ok by exact Hf; erewrite fbind_ok by exact Hp; reflexivity).
  reflexivity.
Qed.

(** A release goes through.  On a free authority whose rows are valid, with
    nothing latched or pending, if the wall readings do not fall below the high
    water and stay within 32 seconds of the first, the waits for the lock fit
    the wait budget, the handoff happens within 30 seconds of the lock and its
    end within 32, the counters do not overflow and the earliest expiry lies
    behind the decision bound, then the reservation, the guard, the expiry check
    and the handoff succeed, the staged bytes are returned without an overrun,
    and the lock is free again. *)
Theorem fence_progress hw latch acks entropy (p : PendingOverruns) premises earliest staged
    n1 n2 n3 o1 o2 o3 o4 o5 o6 wait :
  hw_ok hw -> latch_ok latch -> lt_latched latch = false -> p !! hw_domain hw = None ->
  hw_seq hw < I64_MAX -> reading n1 + 32000000 <= I64_MAX ->
  hw_high_water hw <= reading n1 <= reading n2 ->
  reading n2 <= reading n1 + 32000000 -> reading n3 <= reading n1 + 32000000 ->
  o1 <= o2 -> o3 <= o4 -> (o2 - o1) + (o4 - o3) <= wait ->
  o2 <= o5 <= o2 + 30 * 1000000000 -> o2 <= o6 <= o2 + 32 * 1000000000 ->
  earliest_expiry premises = Ok earliest -> reading n1 + 32000000 < earliest ->
  exists rsv guard expiries h1 h2 h3,
    reserve_trusted_clock None
      (scripted_host (free_authority hw latch acks entropy) [n1; n2; n3] [o1; o2; o3; o4; o5; o6] 0 wait p)
    = (h1, Ok rsv)
    /\ open_release_guard rsv h1 = (h2, Ok guard)
    /\ applicable_expiries guard premises = Ok expiries
    /\ handoff_checked (T:=StagedArtifactBytesV1) guard expiries staged h2
       = (h3, Ok (MkUse (staged_bytes staged) None))
    /\ h_port h3 = free_authority (reserved_hw hw rsv) latch acks entropy /\ h_pending h3 = p.
Proof.
  intros Hh Hl Hu Hp Hq Hi Hn1 Hn2 Hn3 Ho1 Ho3 Hw Ho5 Ho6 He Hlt.
  eexists _, _, _, _, _, _. split; [apply reserve_runs; try done; unfold RESERVATION_WINDOW_MICROS; lia|].
  split; [apply guard_runs; try done; try (simpl; lia)|].
  { destruct Hh. split; simpl; unfold RESERVATION_WINDOW_MICROS, I64_MAX in *; lia. }
  split; [unfold applicable_expiries; rewrite He; simpl; unfold RESERVATION_WINDOW_MICROS;
    rewrite (proj2 (Z.ltb_lt _ _) Hlt); reflexivity|].
  split; [apply handoff_runs; try done; simpl;
    unfold TRUSTED_CLOCK_GUARD_BUDGET, TRUSTED_CLOCK_RESERVATION_WINDOW, RESERVATION_WINDOW_MICROS; lia|].
  by split.
Qed.
