(* ===== verification/TrustedClockSample.v ===== *)
(** * Concrete runs of the trusted-clock system

    [exec] runs a script of calls on the system and follows its steps.  Two
    threads share an authority: one release overruns and closes the authority,
    and the fence promises what [TrustedClockProperties] states; the last run
    shows what an acknowledgement between a latch commit and the removal of its
    flag can do. *)

From Stdlib Require Import String ZArith Lia Bool Sorting.Sorted.
From S2P Require Import Prelude Text Cbor FallbackRecords FallbackPolicy StrictCbor TrustedClock TrustedClockSpec TrustedClockSystem.
From S2P Require Import TrustedClockSystem TrustedClockInvariant TrustedClockProperties.

Local Open Scope Z_scope.

(** ** Scripts *)

Inductive Command :=
| CHandle (i : nat) (entropy : list Bytes16)
| CReserve (i : nat) (walls : list N) (marks : list Z)
| CGuard (i : nat) (marks : list Z)
| CHandoff (i : nat) (premises : ExpiryPremisesV1) (staged : list byte) (walls : list N) (marks : list Z)
| CLatch (i : nat)
| CAck (i : nat) (request : TrustedClockOverrunAcknowledgementV1) (walls : list N)
| CClear.

Section Exec.
Context `{Blake3}.
Implicit Type y : System.

Definition sample_host y hd walls marks := host_of y hd (script walls) (MkScriptedMono 0 marks 0) TRUSTED_CLOCK_WAIT_BUDGET.

Definition unguarded_handle y i : option Handle :=
  sy_handles y !! i ≫= fun hd => match hd_guard hd with None => Some hd | Some _ => None end.

Definition exec (c : Command) y : option (Label * System) :=
  match c with
  | CHandle i entropy =>
      match sy_handles y !! i with
      | Some _ => None
      | None => Some (LInternal, put i (MkClockAuthority (sy_shared y) None false entropy) None (sy_pending y)
                  (sy_reservations y) (sy_clears y) y)
      end
  | CReserve i walls marks =>
      hd ← unguarded_handle y i;
      let (h', r) := reserve_trusted_clock None (sample_host y hd walls marks) in
      Some (LReserve r, put i (h_port h') None (sy_pending y)
         (sy_reservations y ++ match r with Ok rsv => [rsv] | Err _ => [] end)
         (sy_clears y ++ removed (sy_pending y) (h_pending h')) y)
  | CGuard i marks =>
      hd ← unguarded_handle y i;
      match sy_reservations y with
      | [] => None
      | rsv :: after =>
          let (h', r) := open_release_guard rsv (sample_host y hd [] marks) in
          Some (LGuard r, put i (h_port h') match r with Ok guard => Some guard | Err _ => None end (h_pending h')
            ([] ++ after) (sy_clears y) y)
      end
  | CHandoff i premises staged walls marks =>
      hd ← sy_handles y !! i;
      guard ← hd_guard hd;
      match applicable_expiries guard premises with
      | Err _ => None
      | Ok expiries =>
          let (h', r) := handoff_checked guard expiries (MkStaged staged) (sample_host y hd walls marks) in
          Some (LHandoff guard match r with Ok use => Ok (use_overrun use) | Err e => Err e end,
            put i (h_port h') None (h_pending h') (sy_reservations y) (sy_clears y) y)
      end
  | CLatch i =>
      hd ← unguarded_handle y i;
      let (h', r) := commit_pending_overrun_latch (sample_host y hd [] []) in
      Some (LLatch r, put i (h_port h') None (sy_pending y) (sy_reservations y)
         (sy_clears y ++ removed (sy_pending y) (h_pending h')) y)
  | CAck i request walls =>
      hd ← unguarded_handle y i;
      let (h', r) := acknowledge_trusted_clock_overrun request (sample_host y hd walls []) in
      Some (LAck r, put i (h_port h') None (sy_pending y) (sy_reservations y) (sy_clears y) y)
  | CClear =>
      match sy_clears y with
      | [] => None
      | d :: after => Some (LInternal, MkSystem (sy_shared y) (delete d (sy_pending y)) (sy_handles y)
                        (sy_reservations y) ([] ++ after))
      end
  end.

Local Abbreviation ScriptedStep := (clock_step (W:=list ScriptedWallSampleV1) (M:=ScriptedGuardMonotonicSourceV1)).
Local Abbreviation ScriptedRun := (clock_run (W:=list ScriptedWallSampleV1) (M:=ScriptedGuardMonotonicSourceV1)).
Local Abbreviation ScriptedQuiet := (quiet_run (W:=list ScriptedWallSampleV1) (M:=ScriptedGuardMonotonicSourceV1)).

Lemma unguarded_handle_some y i hd :
  unguarded_handle y i = Some hd -> sy_handles y !! i = Some hd /\ hd_guard hd = None.
Proof.
  unfold unguarded_handle. intros (hd' & Hi & Hg)%bind_Some. destruct (hd_guard hd') eqn:Hg'; [done|].
  by injection Hg as ->.
Qed.

Lemma exec_step c y l y' : exec c y = Some (l, y') -> ScriptedStep y l y'.
Proof.
  destruct c as [i entropy|i walls marks|i marks|i premises staged walls marks|i|i request walls|]; cbn [exec]; intros He.
  - destruct (sy_handles y !! i) eqn:Hi; [done|]. injection He as <- <-. by apply step_handle.
  - apply bind_Some in He as (hd & [Hi Hg]%unguarded_handle_some & He).
    destruct (reserve_trusted_clock _ _) as [h' r] eqn:Hr in He. injection He as <- <-. by eapply step_reserve.
  - apply bind_Some in He as (hd & [Hi Hg]%unguarded_handle_some & He).
    destruct (sy_reservations y) as [|rsv after] eqn:Hrs; [done|].
    destruct (open_release_guard _ _) as [h' r] eqn:Hr in He. injection He as <- <-.
    eapply (step_guard y i hd [] rsv after); eauto.
  - apply bind_Some in He as (hd & Hi & He). apply bind_Some in He as (g & Hg & He).
    destruct (applicable_expiries g premises) as [e|]; [|done].
    destruct (handoff_checked _ _ _ _) as [h' r] eqn:Hr in He. injection He as <- <-. by eapply step_handoff.
  - apply bind_Some in He as (hd & [Hi Hg]%unguarded_handle_some & He).
    destruct (commit_pending_overrun_latch _) as [h' r] eqn:Hr in He. injection He as <- <-. by eapply step_latch.
  - apply bind_Some in He as (hd & [Hi Hg]%unguarded_handle_some & He).
    destruct (acknowledge_trusted_clock_overrun _ _) as [h' r] eqn:Hr in He. injection He as <- <-. by eapply step_ack.
  - destruct (sy_clears y) as [|d after] eqn:Hc; [done|]. injection He as <- <-. by apply (step_clear y []).
Qed.

Fixpoint exec_all (cs : list Command) y : option (list Label * System) :=
  match cs with
  | [] => Some ([], y)
  | c :: cs => '(l, y1) ← exec c y; '(ls, y2) ← exec_all cs y1; Some (l :: ls, y2)
  end.

Lemma exec_all_run cs y ls y' : exec_all cs y = Some (ls, y') -> ScriptedRun y ls y'.
Proof.
  revert y ls. induction cs as [|c cs IH]; intros y ls; cbn [exec_all].
  - intros [= <- <-]. constructor.
  - intros ([l y1] & Hc & ([ls1 y2] & Hr & [= <- <-])%bind_Some)%bind_Some.
    econstructor; [by eapply exec_step|by apply IH].
Qed.

(** Whether no acknowledgement runs while a removal is under way. *)
Fixpoint quiet_script (cs : list Command) y : bool :=
  match cs with
  | [] => true
  | c :: cs =>
      match c, sy_clears y with CAck _ _ _, _ :: _ => false | _, _ => true end
      && match exec c y with Some (_, y1) => quiet_script cs y1 | None => true end
  end.

Lemma exec_all_quiet cs y ls y' : exec_all cs y = Some (ls, y') -> quiet_script cs y = true -> ScriptedQuiet y ls y'.
Proof.
  revert y ls. induction cs as [|c cs IH]; intros y ls; cbn [exec_all quiet_script].
  - intros [= <- <-] _. constructor.
  - intros ([l y1] & Hc & ([ls1 y2] & Hr & [= <- <-])%bind_Some)%bind_Some Hq. rewrite Hc in Hq.
    apply andb_true_iff in Hq as [Hq Hrest]. econstructor; [|by apply IH]. split; [by eapply exec_step|].
    intros ->. destruct c as [i entropy|i walls marks|i marks|i premises staged walls marks|i|i request walls|].
    all: cbn [exec] in Hc; try (by destruct (sy_clears y)).
    all: clear - Hc; try (destruct (sy_handles y !! i); done).
    all: try (apply bind_Some in Hc as (hd & _ & Hc)).
    + by destruct (reserve_trusted_clock _ _) in Hc.
    + destruct (sy_reservations y); [done|]. by destruct (open_release_guard _ _) in Hc.
    + apply bind_Some in Hc as (g & _ & Hc). destruct (applicable_expiries g premises); [|done].
      by destruct (handoff_checked _ _ _ _) in Hc.
    + by destruct (commit_pending_overrun_latch _) in Hc.
Qed.
End Exec.

Module ClockSample.

#[export] Instance blake3_clock : Blake3 := sample_digest.

Definition domain16 : Bytes16 := @Checked _ (has_len 16) (replicate 16 x07) I.
Definition sample_hash : Hash := @Checked _ (has_len 32) (replicate 32 x05) I.
Definition operator : PrincipalRefV1 := MkPrincipal (@Checked _ (has_len 16) (replicate 16 x09) I) (lit "ops").
Definition access : AuthenticatedPrincipalResultV1 := MkAuthenticated operator 900000000.
Definition premises : ExpiryPremisesV1 := MkPremises [600000000; 500000000] [0; 700] [800000000] (Some access).
Definition request (count : Z) : TrustedClockOverrunAcknowledgementV1 :=
  MkAcknowledgement access (MkHostAuthorization AcknowledgeTrustedClockOverrun operator sample_hash sample_hash)
    count SuspendOrVmPause.

Definition sec (s : Z) : Z := s * 1000000000.
Definition at_sec (s : N) : N := s * 1000000000.

(** Reserve at [s] seconds and open the guard. *)
Definition reserve_and_guard (s : N) : list Command :=
  [CReserve 0 [at_sec s] [sec 1; sec 1]; CGuard 0 [sec 2; sec 2]].
(** Hand off at [s]; the end of the handoff is seen at the monotonic second [last]. *)
Definition hand_off (s : N) (last : Z) : Command :=
  CHandoff 0 premises [x2a] [at_sec s; at_sec s] [sec 3; sec last].

Definition opening : list Command := [CHandle 0 [domain16]; CHandle 1 []] ++ reserve_and_guard 10.
(** A release that overruns: its end is seen 33 seconds behind its lock. *)
Definition overrun : list Command := opening ++ [hand_off 12 34].
(** The other thread latches the overrun and removes its flag; release is refused. *)
Definition latching : list Command := [CLatch 1; CClear; CReserve 0 [at_sec 20] [sec 40; sec 40]].

Definition run_of (cs : list Command) : list Label * System :=
  default ([], system_initial) (exec_all cs system_initial).
Definition continue (y : System) (cs : list Command) : list Label * System := default ([], y) (exec_all cs y).

Definition guarded : System := (run_of opening).2.
Definition overran : System := (run_of overrun).2.
Definition latched : System := (continue overran latching).2.

Lemma run_reaches cs :
  bool_decide (is_Some (exec_all cs system_initial)) = true ->
  clock_run (W:=list ScriptedWallSampleV1) (M:=ScriptedGuardMonotonicSourceV1) system_initial (run_of cs).1 (run_of cs).2.
Proof.
  intros [[ls y] Hr]%bool_decide_eq_true. unfold run_of. rewrite Hr. by apply (exec_all_run cs).
Qed.

Lemma guarded_reachable :
  clock_reachable (W:=list ScriptedWallSampleV1) (M:=ScriptedGuardMonotonicSourceV1) guarded.
Proof. exists (run_of opening).1. apply run_reaches. vm_compute. reflexivity. Qed.

Lemma clock_invariant_witness : clock_ok guarded.
Proof.
  apply (clock_invariant (W:=list ScriptedWallSampleV1) (M:=ScriptedGuardMonotonicSourceV1)), guarded_reachable.
Defined.

Lemma reservations_ordered_witness :
  StronglySorted later (reservations (run_of (overrun ++ latching)).1).
Proof.
  apply (reservations_ordered (W:=list ScriptedWallSampleV1) (M:=ScriptedGuardMonotonicSourceV1) _ (run_of (overrun ++ latching)).2).
  apply run_reaches. vm_compute. reflexivity.
Defined.

(** ** Single calls *)

Definition first_host := sample_host system_initial (MkHandle None false [domain16] None) [at_sec 10] [sec 1; sec 1].

Lemma reservation_effect_witness : exists rsv rows h',
  reserve_trusted_clock None first_host = (h', Ok rsv) /\ view h' = MkView rows [] None false false.
Proof.
  assert (Hok : is_ok (reserve_trusted_clock None first_host).2 = true) by (vm_compute; reflexivity).
  destruct (reserve_trusted_clock None first_host) as [h' r] eqn:Hr.
  pose proof (reservation_effect None first_host h' r eq_refl Hr) as He. destruct r as [rsv|]; [|discriminate].
  destruct He as (mark & rows & _ & _ & _ & Hv & _). exists rsv, rows, h'. split; [reflexivity|exact Hv].
Defined.

Definition latched_host := sample_host latched (MkHandle None false [] None) [at_sec 21] [].

Lemma acknowledgement_effect_witness : exists t h', (wall_sample (h_wall latched_host)).2 = Ok t
  /\ acknowledge_trusted_clock_overrun (request 1) latched_host = (h', Ok tt) /\ t < 900000000.
Proof.
  assert (Hok : is_ok (acknowledge_trusted_clock_overrun (request 1) latched_host).2 = true) by (vm_compute; reflexivity).
  destruct (acknowledge_trusted_clock_overrun (request 1) latched_host) as [h' r] eqn:Hr.
  pose proof (acknowledgement_effect (request 1) latched_host h' r eq_refl Hr) as He.
  destruct r as [[]|]; [|discriminate]. destruct He as (hw & latch & t & _ & _ & Hs & _ & _ & Ht & _).
  exists t, h'. split; [exact Hs|split; [reflexivity|exact Ht]].
Defined.

Lemma fence_progress_witness : exists rsv h1,
  reserve_trusted_clock None
    (scripted_host (free_authority (MkHighWater domain16 5000000 5000000 3) (MkLatch false 0 UNLATCHED) [] [])
       [at_sec 10; at_sec 12; at_sec 13] [1; 2; 3; 4; 5; 6] 0 100 ∅) = (h1, Ok rsv).
Proof.
  destruct (fence_progress (MkHighWater domain16 5000000 5000000 3) (MkLatch false 0 UNLATCHED) [] [] ∅ premises
    500000000 (MkStaged [x2a]) (at_sec 10) (at_sec 12) (at_sec 13) 1 2 3 4 5 6 100)
    as (rsv & g & e & h1 & h2 & h3 & Hr & _); try (vm_compute; intuition discriminate).
  - split; vm_compute; intuition discriminate.
  - apply unlatched_ok.
  - exists rsv, h1. exact Hr.
Defined.

(** ** Runs *)

Lemma continue_run y cs :
  bool_decide (is_Some (exec_all cs y)) = true ->
  clock_run (W:=list ScriptedWallSampleV1) (M:=ScriptedGuardMonotonicSourceV1) y (continue y cs).1 (continue y cs).2.
Proof.
  intros [[ls y'] Hr]%bool_decide_eq_true. unfold continue. rewrite Hr. by apply (exec_all_run cs).
Qed.

Lemma continue_quiet y cs :
  bool_decide (is_Some (exec_all cs y)) = true -> quiet_script cs y = true ->
  quiet_run (W:=list ScriptedWallSampleV1) (M:=ScriptedGuardMonotonicSourceV1) y (continue y cs).1 (continue y cs).2.
Proof.
  intros [[ls y'] Hr]%bool_decide_eq_true. unfold continue. rewrite Hr. by apply (exec_all_quiet cs).
Qed.

Lemma clock_never_regresses_witness :
  rows_le (mas_rows (sy_shared guarded)) (mas_rows (sy_shared (continue guarded [hand_off 12 34; CLatch 1]).2)).
Proof.
  apply (clock_never_regresses (W:=list ScriptedWallSampleV1) (M:=ScriptedGuardMonotonicSourceV1) guarded
    (continue guarded [hand_off 12 34; CLatch 1]).1); [apply guarded_reachable|].
  apply continue_run. vm_compute. reflexivity.
Defined.

Lemma overrun_step : exists g,
  exec (hand_off 12 34) guarded = Some (LHandoff g (Ok (Some MonotonicBudgetExceeded)), overran).
Proof. eexists. vm_compute. reflexivity. Qed.

Lemma overrun_closes_release_witness : closed latched /\ Forall refused (continue overran latching).1.
Proof.
  destruct overrun_step as [g Hg].
  apply (overrun_closes_release (W:=list ScriptedWallSampleV1) (M:=ScriptedGuardMonotonicSourceV1)
    (continue system_initial opening).1 (continue system_initial opening).2 g MonotonicBudgetExceeded overran
    (continue overran latching).1 latched).
  - apply continue_quiet; vm_compute; reflexivity.
  - split; [apply (exec_step (hand_off 12 34)); exact Hg|discriminate].
  - apply continue_quiet; vm_compute; reflexivity.
  - intros Hin%list_elem_of_In. vm_compute in Hin. intuition discriminate.
Defined.

Lemma release_in_window_witness : exists t premises, unexpired premises t /\ retention_leases premises <> [].
Proof.
  assert (Hh : exists hd, sy_handles guarded !! 0%nat = Some hd) by (eexists; vm_compute; reflexivity).
  destruct Hh as [hd Hi]. assert (Hg : exists g, hd_guard hd = Some g /\ is_ok (applicable_expiries g premises) = true
    /\ forall e, applicable_expiries g premises = Ok e ->
         is_ok (handoff_checked g e (MkStaged [x2a]) (sample_host guarded hd [at_sec 12; at_sec 12] [sec 3; sec 4])).2 = true).
  { vm_compute in Hi. injection Hi as <-. eexists. split; [reflexivity|]. split; [vm_compute; reflexivity|].
    intros e He. vm_compute in He. injection He as <-. vm_compute. reflexivity. }
  destruct Hg as (g & Hg & He & Hr). destruct (applicable_expiries g premises) as [e|] eqn:Hexp; [|discriminate].
  specialize (Hr e eq_refl). unfold sample_host in Hr.
  destruct (handoff_checked g e (MkStaged [x2a]) _) as [h' [use|]] eqn:Hrun in Hr; [|discriminate].
  destruct (release_in_window guarded 0 hd g premises e (MkStaged [x2a]) _ _ _ h' use guarded_reachable Hi Hg Hexp Hrun)
    as (t & _ & _ & _ & _ & _ & Hu & Hn & _). exists t, premises. split; [exact Hu|exact Hn].
Defined.

(** ** A lost overrun *)

(** The first overrun is latched by thread 1, which is delayed before it removes
    the flag; an acknowledgement lets thread 0 latch the same flag again and
    remove it; a second acknowledgement opens release, and a second release
    overruns. *)
Definition delayed : list Command := overrun ++
  [CLatch 1; CAck 0 (request 1) [at_sec 20]; CLatch 0; CClear; CAck 0 (request 2) [at_sec 21]]
  ++ reserve_and_guard 30 ++ [hand_off 31 34].
(** Now thread 1 removes the flag it latched long ago. *)
Definition resumed : list Command := [CClear; CReserve 0 [at_sec 40] [sec 1; sec 1]].

(** C37: an overrun can be lost.  A latch commit removes its pending flag after
    it has released the authority lock.  If the latch is acknowledged before
    that, the removal can hit the flag of a later overrun: here a second release
    overruns, its flag is removed without being latched, and the next
    reservation is granted although nobody acknowledged the second overrun. *)
Theorem overrun_lost : exists ls g kind y ls' rsv y',
  clock_run (W:=list ScriptedWallSampleV1) (M:=ScriptedGuardMonotonicSourceV1) system_initial
    (ls ++ [LHandoff g (Ok (Some kind))]) y
  /\ clock_run (W:=list ScriptedWallSampleV1) (M:=ScriptedGuardMonotonicSourceV1) y ls' y'
  /\ LAck (Ok tt) ∉ ls' /\ LReserve (Ok rsv) ∈ ls' /\ ~ closed y'.
Proof.
  assert (Hlast : exists ls g, (run_of delayed).1 = ls ++ [LHandoff g (Ok (Some MonotonicBudgetExceeded))]).
  { exists (take 12 (run_of delayed).1). eexists. vm_compute. reflexivity. }
  destruct Hlast as (ls & g & Hls).
  assert (Hrsv : exists rsv, (continue (run_of delayed).2 resumed).1 = [LInternal; LReserve (Ok rsv)])
    by (eexists; vm_compute; reflexivity). destruct Hrsv as [rsv Hrsv].
  exists ls, g, MonotonicBudgetExceeded, (run_of delayed).2, [LInternal; LReserve (Ok rsv)], rsv,
    (continue (run_of delayed).2 resumed).2.
  split_and!.
  - rewrite <- Hls. apply run_reaches. vm_compute. reflexivity.
  - rewrite <- Hrsv. apply continue_run. vm_compute. reflexivity.
  - intros Hin%list_elem_of_In. destruct Hin as [Hin|[Hin|[]]]; discriminate.
  - apply elem_of_cons. right. apply list_elem_of_singleton. reflexivity.
  - intros (hw & latch & Hv & Hc). vm_compute in Hv. injection Hv as <- <-. destruct Hc as [Hc|[o Ho]]; [discriminate|].
    vm_compute in Ho. discriminate.
Qed.
End ClockSample.
