(* ===== verification/Consent.v ===== *)
(** * Consent records, sessions and the consent authority

    [crates/pos-core/src/consent.rs]: the CGV1 and CRV1 records with their CBOR
    codecs, the capability token, the authority with its sessions and
    reservations, and its implementation of [ConsentGate].

    All clones of an authority and all its reservations share one
    [Arc<Mutex<ActiveConsentSessions>>].  [ConsentHost] is the store of these
    shared tables, by authority identity; every operation takes the mutex of
    one table once, so it is one step on the host.  A [HashMap] iterates in an
    order of its own: an operation that searches one takes the iteration as the
    argument [order]. *)

From Stdlib Require Import String ZArith Lia Bool.
From S2P Require Import Prelude Text Cbor FallbackRecords ErasureGate Events EventStore.
From S2P Require Import StrictCbor PluginTrust WireSyntax TrustPolicy TrustBridge.

Local Open Scope Z_scope.

(** ** Constants and errors *)

Definition EVENT_TYPE_CONSENT_GRANTED_V1 : RString := lit "consent.granted.v1".
Definition EVENT_TYPE_CONSENT_REVOKED_V1 : RString := lit "consent.revoked.v1".
Definition MAGIC_CGV1 : list byte := list_byte_of_string "CGV1".
Definition MAGIC_CRV1 : list byte := list_byte_of_string "CRV1".
Definition VERSION_V1 : Z := 1.
Definition MAX_PURPOSE_BYTES : Z := 128.
Definition MODALITY_LOCATION : Z := 0x01.
Definition MODALITY_PERSONA : Z := 0x02.
Definition MODALITY_MODEL_FIT : Z := 0x04.
Definition MODALITY_EXPORT : Z := 0x08.
Definition MAX_CONSENT_HISTORY_EVENTS : Z := 10000.
Definition GEO_LOCATION_V1_RESOLUTION : Z := 1.

Module CodecError.
Inductive ConsentCodecError :=
| WrongMagic | WrongVersion | WrongArrayLength | WrongFieldType | PurposeTooLong (size : Z)
| TrailingBytes | CborError | NonCanonicalEncoding | FieldOutOfBounds | UnmatchedRevocation
| HistoryTooLong (count : Z) | HistoryCoordinateMismatch.
End CodecError.

Module ConsentDenial.
Inductive ConsentError :=
| NoConsent | Revoked | Expired | ModalityNotGranted | ExportNotPermitted | ForkNotPermitted
| GeoResolutionNotPermitted | RetentionNotPermitted | ConsentEventsForbidden.
End ConsentDenial.

Definition Codec (A : Type) : Type := result CodecError.ConsentCodecError A.
Definition Consented (A : Type) : Type := result ConsentDenial.ConsentError A.

(** ** Event families *)

Definition required_modality_for_event (event_type : RString) : Z :=
  if starts_with (lit "geo.") event_type || starts_with (lit "location.") event_type
  then MODALITY_LOCATION
  else if starts_with (lit "persona.") event_type then MODALITY_PERSONA
  else if starts_with (lit "model.") event_type then MODALITY_MODEL_FIT
  else if starts_with (lit "export.") event_type then MODALITY_EXPORT
  else 0.

Definition is_consent_sensitive_event_type (event_type : RString) : bool :=
  negb (required_modality_for_event event_type =? 0)
  || starts_with (lit "timeline.fork.") event_type
  || starts_with (lit "retention.") event_type.

Definition is_subject_controlled_event_type (event_type : RString) : bool :=
  is_consent_sensitive_event_type event_type || is_consent_event_type event_type.

(** ** CBOR values

    [CiboriumCursor] is [ciborium::from_reader] on a cursor: the value it reads
    and the position it stops at. *)

Class CiboriumCursor := cursor_reader : list byte -> option (Value * Z).

Definition cbor_bytes (b : list byte) : Value := VBytes b.
Definition cbor_uint (v : Z) : Value := VInteger v.
Definition cbor_bool (v : bool) : Value := VBool v.
Definition cbor_tstr (s : RString) : Value := VText s.
Definition cbor_id (id : EntityId) : Value := cbor_bytes (ulid_bytes id).

Section Codecs.
Context `{Ciborium} `{CiboriumCursor}.

Definition cbor_encode (value : Value) : Codec (list byte) :=
  ok_or (into_writer value) CodecError.CborError.

Definition decode_array (bytes : list byte) (expected_len : Z) : Codec (list Value) :=
  let? (value, position) := ok_or (cursor_reader bytes) CodecError.CborError in
  if negb (position =? len bytes) then Err CodecError.TrailingBytes else
  let? canonical := cbor_encode value in
  if negb (bool_decide (canonical = bytes)) then Err CodecError.NonCanonicalEncoding else
  match value with
  | VArray items => if len items =? expected_len then Ok items else Err CodecError.WrongArrayLength
  | _ => Err CodecError.CborError
  end.

Definition decode_magic (val : Value) (expected : list byte) : Codec unit :=
  match val with
  | VBytes b => if bool_decide (b = expected) then Ok tt else Err CodecError.WrongMagic
  | _ => Err CodecError.WrongMagic
  end.

(** [u8::try_from], [u16::try_from], [u32::try_from], [u64::try_from] of a CBOR
    integer. *)
Definition int_within (max n : Z) : bool := (0 <=? n) && (n <=? max).

Definition decode_version (val : Value) : Codec unit :=
  match val with
  | VInteger n => if int_within U8_MAX n && (n =? VERSION_V1) then Ok tt else Err CodecError.WrongVersion
  | _ => Err CodecError.WrongVersion
  end.

Definition decode_uint (max : Z) (val : Value) : Codec Z :=
  match val with
  | VInteger n => if int_within max n then Ok n else Err CodecError.WrongFieldType
  | _ => Err CodecError.WrongFieldType
  end.

Definition decode_u8 : Value -> Codec Z := decode_uint U8_MAX.
Definition decode_u16 : Value -> Codec Z := decode_uint U16_MAX.
Definition decode_u32 : Value -> Codec Z := decode_uint U32_MAX.
Definition decode_u64 : Value -> Codec Z := decode_uint U64_MAX.

Definition decode_bool (val : Value) : Codec bool :=
  match val with VBool b => Ok b | _ => Err CodecError.WrongFieldType end.

Definition decode_id (val : Value) : Codec EntityId :=
  match val with
  | VBytes b => ok_or (make (has_len 16) b) CodecError.WrongFieldType
  | _ => Err CodecError.WrongFieldType
  end.

Definition decode_tstr_max (val : Value) (max : Z) : Codec RString :=
  match val with
  | VText s => if max <? str_len s then Err (CodecError.PurposeTooLong (str_len s)) else Ok s
  | _ => Err CodecError.WrongFieldType
  end.

(** ** Grants *)

Record ConsentGrantedV1 := MkGranted {
  cg_subject_id : EntityId;
  cg_grantee_id : EntityId;
  cg_purpose : RString;
  cg_modalities : Z;
  cg_min_geo_resolution : Z;
  cg_fork_permitted : bool;
  cg_export_permitted : bool;
  cg_retention_days : Z;
  cg_expiry_secs : Z;
  cg_grant_seq : Z;
}.

(** [modalities & !0x0F != 0] on a [u8]. *)
Definition grant_validate (g : ConsentGrantedV1) : Codec unit :=
  if MAX_PURPOSE_BYTES <? str_len (cg_purpose g)
  then Err (CodecError.PurposeTooLong (str_len (cg_purpose g)))
  else if negb (Z.land (cg_modalities g) (Z.lxor 0xFF 0x0F) =? 0) || (1 <? cg_min_geo_resolution g)
  then Err CodecError.FieldOutOfBounds
  else Ok tt.

Definition grant_value (g : ConsentGrantedV1) : Value :=
  VArray [cbor_bytes MAGIC_CGV1; cbor_uint VERSION_V1; cbor_id (cg_subject_id g);
          cbor_id (cg_grantee_id g); cbor_tstr (cg_purpose g); cbor_uint (cg_modalities g);
          cbor_uint (cg_min_geo_resolution g); cbor_bool (cg_fork_permitted g);
          cbor_bool (cg_export_permitted g); cbor_uint (cg_retention_days g);
          cbor_uint (cg_expiry_secs g); cbor_uint (cg_grant_seq g)].

Definition grant_encode (g : ConsentGrantedV1) : Codec (list byte) :=
  let? _ := grant_validate g in cbor_encode (grant_value g).

Definition decode_grant_parties (items : list Value) : Codec (EntityId * EntityId * RString) :=
  let? subject_id := decode_id (field items 2) in
  let? grantee_id := decode_id (field items 3) in
  let? purpose := decode_tstr_max (field items 4) MAX_PURPOSE_BYTES in
  Ok (subject_id, grantee_id, purpose).

Definition decode_grant_permissions (items : list Value) : Codec (Z * Z * bool * bool) :=
  let? modalities := decode_u8 (field items 5) in
  let? min_geo_resolution := decode_u8 (field items 6) in
  let? fork_permitted := decode_bool (field items 7) in
  let? export_permitted := decode_bool (field items 8) in
  Ok (modalities, min_geo_resolution, fork_permitted, export_permitted).

Definition decode_grant_retention (items : list Value) : Codec (Z * Z * Z) :=
  let? retention_days := decode_u16 (field items 9) in
  let? expiry_secs := decode_u32 (field items 10) in
  let? grant_seq := decode_u64 (field items 11) in
  Ok (retention_days, expiry_secs, grant_seq).

Definition grant_decode (bytes : list byte) : Codec ConsentGrantedV1 :=
  let? items := decode_array bytes 12 in
  let? _ := decode_magic (field items 0) MAGIC_CGV1 in
  let? _ := decode_version (field items 1) in
  let? (subject_id, grantee_id, purpose) := decode_grant_parties items in
  let? (modalities, min_geo, fork, export) := decode_grant_permissions items in
  let? (retention_days, expiry_secs, grant_seq) := decode_grant_retention items in
  let grant := MkGranted subject_id grantee_id purpose modalities min_geo fork export
                 retention_days expiry_secs grant_seq in
  let? _ := grant_validate grant in
  Ok grant.

(** ** Revocations *)

Record ConsentRevokedV1 := MkRevoked {
  cr_subject_id : EntityId;
  cr_grantee_id : EntityId;
  cr_grant_seq : Z;
  cr_fence_seq : Z;
}.

Definition revocation_validate (r : ConsentRevokedV1) : Codec unit :=
  if (cr_grant_seq r =? 0) || (cr_fence_seq r =? 0) then Err CodecError.FieldOutOfBounds else Ok tt.

Definition revocation_value (r : ConsentRevokedV1) : Value :=
  VArray [cbor_bytes MAGIC_CRV1; cbor_uint VERSION_V1; cbor_id (cr_subject_id r);
          cbor_id (cr_grantee_id r); cbor_uint (cr_grant_seq r); cbor_uint (cr_fence_seq r)].

Definition consent_revocation_encode (r : ConsentRevokedV1) : Codec (list byte) :=
  let? _ := revocation_validate r in cbor_encode (revocation_value r).

Definition consent_revocation_decode (bytes : list byte) : Codec ConsentRevokedV1 :=
  let? items := decode_array bytes 6 in
  let? _ := decode_magic (field items 0) MAGIC_CRV1 in
  let? _ := decode_version (field items 1) in
  let? subject_id := decode_id (field items 2) in
  let? grantee_id := decode_id (field items 3) in
  let? grant_seq := decode_u64 (field items 4) in
  let? fence_seq := decode_u64 (field items 5) in
  let revocation := MkRevoked subject_id grantee_id grant_seq fence_seq in
  let? _ := revocation_validate revocation in
  Ok revocation.
End Codecs.

(** ** Capability tokens *)

Record ConsentCapabilityToken := MkToken {
  ct_authority_id : Z;
  ct_timeline_id : TimelineId;
  ct_subject_id : EntityId;
  ct_grantee_id : EntityId;
  ct_modalities : Z;
  ct_min_geo_resolution : Z;
  ct_fork_permitted : bool;
  ct_export_permitted : bool;
  ct_retention_days : Z;
  ct_grant_seq : Z;
  ct_fence_seq : Z;
}.

#[export] Instance token_eq_dec : EqDecision ConsentCapabilityToken.
Proof. solve_decision. Defined.

Definition with_fence_seq (fence : Z) (t : ConsentCapabilityToken) : ConsentCapabilityToken :=
  MkToken (ct_authority_id t) (ct_timeline_id t) (ct_subject_id t) (ct_grantee_id t) (ct_modalities t)
    (ct_min_geo_resolution t) (ct_fork_permitted t) (ct_export_permitted t) (ct_retention_days t)
    (ct_grant_seq t) fence.

Definition is_valid_at (t : ConsentCapabilityToken) (timeline_head : Z) : bool :=
  timeline_head <? ct_fence_seq t.

(** [modalities & required == required]. *)
Definition covers_modality (t : ConsentCapabilityToken) (required : Z) : bool :=
  Z.land (ct_modalities t) required =? required.

Definition authorize_event_type (t : ConsentCapabilityToken) (event_type : RString) : Consented unit :=
  let required := required_modality_for_event event_type in
  if negb (required =? 0) && negb (covers_modality t required)
  then Err ConsentDenial.ModalityNotGranted
  else if (required =? MODALITY_EXPORT) && negb (ct_export_permitted t)
  then Err ConsentDenial.ExportNotPermitted
  else if starts_with (lit "timeline.fork.") event_type && negb (ct_fork_permitted t)
  then Err ConsentDenial.ForkNotPermitted
  else if starts_with (lit "retention.") event_type && (ct_retention_days t =? 0)
  then Err ConsentDenial.RetentionNotPermitted
  else Ok tt.

Definition authorize_geo_resolution (t : ConsentCapabilityToken) (resolution : Z) : Consented unit :=
  if resolution <? ct_min_geo_resolution t then Err ConsentDenial.GeoResolutionNotPermitted else Ok tt.

Definition authorize_retention (t : ConsentCapabilityToken) (days : Z) : Consented unit :=
  if (ct_retention_days t =? 0) || (ct_retention_days t <? days)
  then Err ConsentDenial.RetentionNotPermitted else Ok tt.

(** The caller's token, as [invalidate_with] leaves it. *)
Definition invalidate_with (t : ConsentCapabilityToken) (r : ConsentRevokedV1)
    : ConsentCapabilityToken * Consented unit :=
  if negb (bool_decide (ct_subject_id t = cr_subject_id r))
     || negb (bool_decide (ct_grantee_id t = cr_grantee_id r))
     || negb (ct_grant_seq t =? cr_grant_seq r)
  then (t, Err ConsentDenial.NoConsent)
  else (with_fence_seq (Z.min (ct_fence_seq t) (cr_fence_seq r)) t, Ok tt).

(** ** Sessions *)

Record ActiveConsent := MkActive {
  ac_token : ConsentCapabilityToken;
  ac_expiry_secs : Z;
}.

Definition fence_session (fence : Z) (a : ActiveConsent) : ActiveConsent :=
  MkActive (with_fence_seq fence (ac_token a)) (ac_expiry_secs a).

Definition session_fence (a : ActiveConsent) : Z := ct_fence_seq (ac_token a).

Definition SessionKey : Type := TimelineId * EntityId * EntityId * Z.
Abbreviation ActiveConsentSessions := (gmap SessionKey ActiveConsent).

Definition key_timeline (k : SessionKey) : TimelineId := k.1.1.1.
Definition key_subject (k : SessionKey) : EntityId := k.1.1.2.

Definition grant_key (timeline : TimelineId) (g : ConsentGrantedV1) : SessionKey :=
  (timeline, cg_subject_id g, cg_grantee_id g, cg_grant_seq g).
Definition revocation_key (timeline : TimelineId) (r : ConsentRevokedV1) : SessionKey :=
  (timeline, cr_subject_id r, cr_grantee_id r, cr_grant_seq r).
Definition token_key (timeline : TimelineId) (t : ConsentCapabilityToken) : SessionKey :=
  (timeline, ct_subject_id t, ct_grantee_id t, ct_grant_seq t).

(** The session a grant opens. *)
Definition grant_token (authority_id : Z) (timeline : TimelineId) (g : ConsentGrantedV1)
    : ConsentCapabilityToken :=
  MkToken authority_id timeline (cg_subject_id g) (cg_grantee_id g) (cg_modalities g)
    (cg_min_geo_resolution g) (cg_fork_permitted g) (cg_export_permitted g) (cg_retention_days g)
    (cg_grant_seq g) U64_MAX.

Definition record_grant (authority_id : Z) (timeline : TimelineId) (g : ConsentGrantedV1)
    (sessions : ActiveConsentSessions) : ActiveConsentSessions :=
  <[grant_key timeline g := MkActive (grant_token authority_id timeline g) (cg_expiry_secs g)]> sessions.

Definition validate_revocation (timeline : TimelineId) (r : ConsentRevokedV1)
    (sessions : ActiveConsentSessions) : Consented unit :=
  match sessions !! revocation_key timeline r with
  | Some _ => Ok tt
  | None => Err ConsentDenial.NoConsent
  end.

Definition record_revocation (timeline : TimelineId) (r : ConsentRevokedV1)
    (sessions : ActiveConsentSessions) : ActiveConsentSessions * Consented unit :=
  let key := revocation_key timeline r in
  match sessions !! key with
  | Some active =>
      (<[key := fence_session (Z.min (session_fence active) (cr_fence_seq r)) active]> sessions, Ok tt)
  | None => (sessions, Err ConsentDenial.NoConsent)
  end.

Definition validate_from_sessions (sessions : ActiveConsentSessions) (key : SessionKey)
    (token : ConsentCapabilityToken) (timeline_head now_secs : Z) : Consented unit :=
  match sessions !! key with
  | None => Err ConsentDenial.NoConsent
  | Some active =>
      if negb (bool_decide (ac_token active = token) && is_valid_at (ac_token active) timeline_head)
      then Err ConsentDenial.Revoked
      else if negb (ac_expiry_secs active =? 0) && (ac_expiry_secs active <=? now_secs)
      then Err ConsentDenial.Expired
      else Ok tt
  end.

Definition validate_with_timeline (authority_id : Z) (timeline : TimelineId)
    (token : ConsentCapabilityToken) (timeline_head now_secs : Z) (sessions : ActiveConsentSessions)
    : Consented unit :=
  if negb (ct_authority_id token =? authority_id) then Err ConsentDenial.NoConsent
  else if negb (bool_decide (ct_timeline_id token = timeline)) then Err ConsentDenial.NoConsent
  else validate_from_sessions sessions (token_key timeline token) token timeline_head now_secs.

(** [order] is how the session map iterates. *)
Definition validate_location_subject_in_sessions (order : list (SessionKey * ActiveConsent))
    (sessions : ActiveConsentSessions) (timeline : TimelineId) (subject : EntityId)
    (timeline_head now_secs : Z) : Consented unit :=
  match List.find (fun entry => bool_decide (key_timeline entry.1 = timeline)
                                && bool_decide (key_subject entry.1 = subject)) order with
  | None => Err ConsentDenial.NoConsent
  | Some (key, active) =>
      let? _ := validate_from_sessions sessions key (ac_token active) timeline_head now_secs in
      let? _ := authorize_event_type (ac_token active) (lit "geo.location") in
      authorize_geo_resolution (ac_token active) GEO_LOCATION_V1_RESOLUTION
  end.

(** ** The gate of the authority *)

Definition check_consent (order : list (SessionKey * ActiveConsent)) (timeline : TimelineId)
    (subject : EntityId) (event_type : RString) (timeline_head now_secs : Z)
    : Consented ConsentCapabilityToken :=
  if is_consent_event_type event_type then Err ConsentDenial.ConsentEventsForbidden else
  let candidate := List.find (fun entry =>
    bool_decide (ct_timeline_id (ac_token entry.2) = timeline)
    && bool_decide (ct_subject_id (ac_token entry.2) = subject)
    && is_valid_at (ac_token entry.2) timeline_head) order in
  let required := required_modality_for_event event_type in
  match candidate with
  | None => Err ConsentDenial.NoConsent
  | Some (_, active) =>
      let token := ac_token active in
      if negb (ac_expiry_secs active =? 0) && (ac_expiry_secs active <=? now_secs)
      then Err ConsentDenial.Expired
      else if (required =? MODALITY_EXPORT) && negb (ct_export_permitted token)
      then Err ConsentDenial.ExportNotPermitted
      else if starts_with (lit "timeline.fork.") event_type && negb (ct_fork_permitted token)
      then Err ConsentDenial.ForkNotPermitted
      else if starts_with (lit "retention.") event_type && (ct_retention_days token =? 0)
      then Err ConsentDenial.RetentionNotPermitted
      else if negb (required =? 0) && negb (covers_modality token required)
      then Err ConsentDenial.ModalityNotGranted
      else Ok token
  end.

(** The append runs under the mutex of the sessions and does not touch them. *)
Definition with_token_fence {S : Type} (authority_id : Z) (timeline : TimelineId)
    (token : ConsentCapabilityToken) (timeline_head now_secs : Z) (sessions : ActiveConsentSessions)
    (append : S -> S) (s : S) : S * Consented unit :=
  if negb (ct_authority_id token =? authority_id) || negb (bool_decide (ct_timeline_id token = timeline))
  then (s, Err ConsentDenial.NoConsent)
  else match validate_from_sessions sessions (token_key timeline token) token timeline_head now_secs with
       | Ok _ => (append s, Ok tt)
       | Err e => (s, Err e)
       end.

Definition authorize_event (event_type : RString) : Consented unit :=
  if is_consent_event_type event_type then Err ConsentDenial.ConsentEventsForbidden
  else if is_consent_sensitive_event_type event_type then Err ConsentDenial.NoConsent
  else Ok tt.

(** The default method of [ConsentGate], with [validate_token] of the authority. *)
Definition authorize_projection (authority_id : Z) (timeline : TimelineId) (subject : EntityId)
    (timeline_head now_secs : Z) (token : ConsentCapabilityToken) (sessions : ActiveConsentSessions)
    : Consented unit :=
  if negb (bool_decide (ct_subject_id token = subject)) then Err ConsentDenial.NoConsent
  else validate_with_timeline authority_id timeline token timeline_head now_secs sessions.

(** Lower the fence of every session whose key satisfies [here]. *)
Definition fence_sessions (here : SessionKey -> bool) (fence_seq : Z) (sessions : ActiveConsentSessions)
    : ActiveConsentSessions :=
  map_imap (fun key active =>
    Some (if here key
          then fence_session (Z.min (session_fence active) (saturating_sub fence_seq 1)) active
          else active)) sessions.

Definition fence_timeline_at (timeline : TimelineId) (fence_seq : Z)
    : ActiveConsentSessions -> ActiveConsentSessions :=
  fence_sessions (fun key => bool_decide (key_timeline key = timeline)) fence_seq.

Definition fence_subject_at (timeline : TimelineId) (subject : EntityId) (fence_seq : Z)
    : ActiveConsentSessions -> ActiveConsentSessions :=
  fence_sessions (fun key => bool_decide (key_timeline key = timeline)
                             && bool_decide (key_subject key = subject)) fence_seq.

Definition with_revocation_fence {S : Type} (timeline : TimelineId) (subject : option EntityId) (fence_seq : Z)
    (sessions : ActiveConsentSessions) (append : S -> S) (s : S) : ActiveConsentSessions * S :=
  (fence_sessions (fun key => bool_decide (key_timeline key = timeline)
     && match subject with Some id => bool_decide (key_subject key = id) | None => true end)
     fence_seq sessions,
   append s).

(** ** Recovery from the durable history *)

Inductive RestoredConsentEvent :=
| Granted (g : ConsentGrantedV1)
| RevokedBy (r : ConsentRevokedV1).

Section Restore.
Context `{Ciborium} `{CiboriumCursor}.

(** One event of the decoding loop: [None] when the event is not a consent
    event. *)
Definition decode_consent_event (e : Event) : Codec (option RestoredConsentEvent) :=
  if bool_decide (ev_event_type e = EVENT_TYPE_CONSENT_GRANTED_V1) then
    let? grant := grant_decode (ev_payload e) in
    if negb (bool_decide (ev_entity e = cg_subject_id grant)) || negb (ev_seq e =? cg_grant_seq grant)
    then Err CodecError.HistoryCoordinateMismatch else Ok (Some (Granted grant))
  else if bool_decide (ev_event_type e = EVENT_TYPE_CONSENT_REVOKED_V1) then
    let? revocation := consent_revocation_decode (ev_payload e) in
    if negb (bool_decide (ev_entity e = cr_subject_id revocation))
       || negb (ev_seq e =? cr_fence_seq revocation)
    then Err CodecError.HistoryCoordinateMismatch else Ok (Some (RevokedBy revocation))
  else if is_consent_event_type (ev_event_type e) then Err CodecError.WrongVersion
  else Ok None.

Fixpoint decode_history (events : list Event) : Codec (list RestoredConsentEvent) :=
  match events with
  | [] => Ok []
  | e :: rest =>
      let? decoded := decode_consent_event e in
      let? others := decode_history rest in
      Ok (option_list decoded ++ others)
  end.

(** The second loop, on the table being restored. *)
Fixpoint restore_events (authority_id : Z) (timeline : TimelineId) (decoded : list RestoredConsentEvent)
    (restored : ActiveConsentSessions) : Codec ActiveConsentSessions :=
  match decoded with
  | [] => Ok restored
  | Granted grant :: rest =>
      restore_events authority_id timeline rest (record_grant authority_id timeline grant restored)
  | RevokedBy revocation :: rest =>
      let key := revocation_key timeline revocation in
      match restored !! key with
      | None => Err CodecError.UnmatchedRevocation
      | Some active =>
          restore_events authority_id timeline rest
            (<[key := fence_session (Z.min (session_fence active) (cr_fence_seq revocation)) active]>
               restored)
      end
  end.

Definition other_timelines (timeline : TimelineId) (sessions : ActiveConsentSessions)
    : ActiveConsentSessions :=
  filter (fun entry => key_timeline entry.1 <> timeline) sessions.

Definition restore_from_history (authority_id : Z) (timeline : TimelineId) (events : list Event)
    (sessions : ActiveConsentSessions) : ActiveConsentSessions * Codec unit :=
  if MAX_CONSENT_HISTORY_EVENTS <? len events
  then (sessions, Err (CodecError.HistoryTooLong (len events)))
  else match decode_history events with
       | Err e => (sessions, Err e)
       | Ok decoded =>
           match restore_events authority_id timeline decoded (other_timelines timeline sessions) with
           | Err e => (sessions, Err e)
           | Ok restored => (restored, Ok tt)
           end
       end.
End Restore.

(** ** Revocation reservations *)

Record ConsentRevocationReservation := MkConsentReservation {
  rr_authority_id : Z;
  rr_timeline_id : TimelineId;
  rr_subject_id : EntityId;
  rr_grantee_id : EntityId;
  rr_grant_seq : Z;
  rr_previous_fence_seq : Z;
  rr_pending_fence_seq : Z;
  rr_fence_seq : Z;
}.

Definition rr_key (r : ConsentRevocationReservation) : SessionKey :=
  (rr_timeline_id r, rr_subject_id r, rr_grantee_id r, rr_grant_seq r).

Definition begin_revocation (authority_id : Z) (timeline : TimelineId) (r : ConsentRevokedV1)
    (sessions : ActiveConsentSessions) : ActiveConsentSessions * Consented ConsentRevocationReservation :=
  let pending := saturating_sub (cr_fence_seq r) 1 in
  let key := revocation_key timeline r in
  match sessions !! key with
  | None => (sessions, Err ConsentDenial.NoConsent)
  | Some active =>
      if session_fence active <=? cr_fence_seq r then (sessions, Err ConsentDenial.Revoked)
      else (<[key := fence_session pending active]> sessions,
            Ok (MkConsentReservation authority_id timeline (cr_subject_id r) (cr_grantee_id r)
                  (cr_grant_seq r) (session_fence active) pending (cr_fence_seq r)))
  end.

(** [rollback], which dropping an unfinished reservation runs. *)
Definition reservation_rollback (r : ConsentRevocationReservation) (sessions : ActiveConsentSessions)
    : ActiveConsentSessions :=
  match sessions !! rr_key r with
  | Some active =>
      if session_fence active =? rr_pending_fence_seq r
      then <[rr_key r := fence_session (rr_previous_fence_seq r) active]> sessions
      else sessions
  | None => sessions
  end.

(** Both error returns drop the unfinished reservation. *)
Definition commit_durable (r : ConsentRevocationReservation) (sessions : ActiveConsentSessions)
    : ActiveConsentSessions * Consented unit :=
  match sessions !! rr_key r with
  | None => (reservation_rollback r sessions, Err ConsentDenial.NoConsent)
  | Some active =>
      if negb (session_fence active =? rr_pending_fence_seq r)
      then (reservation_rollback r sessions, Err ConsentDenial.NoConsent)
      else (<[rr_key r := fence_session (rr_fence_seq r) active]> sessions, Ok tt)
  end.

(** ** The host: every authority of the process

    [NEXT_CONSENT_AUTHORITY_ID] and the shared table of each authority. *)

Record ConsentHost := MkConsentHost {
  ch_next_authority_id : Z;
  ch_sessions : gmap Z ActiveConsentSessions;
}.

Definition consent_host_start : ConsentHost := MkConsentHost 1 ∅.

Definition authority_new (h : ConsentHost) : ConsentHost * Z :=
  (MkConsentHost (u64_wrap (ch_next_authority_id h + 1)) (<[ch_next_authority_id h := ∅]> (ch_sessions h)),
   ch_next_authority_id h).

Definition sessions_of (h : ConsentHost) (id : Z) : ActiveConsentSessions := default ∅ (ch_sessions h !! id).

Definition on_sessions (id : Z) (f : ActiveConsentSessions -> ActiveConsentSessions) (h : ConsentHost)
    : ConsentHost :=
  MkConsentHost (ch_next_authority_id h) (alter f id (ch_sessions h)).

(** A reservation of another authority is dropped: it rolls back in the table it
    was made on. *)
Definition commit_revocation (id : Z) (r : ConsentRevocationReservation) (h : ConsentHost)
    : ConsentHost * Consented unit :=
  if negb (rr_authority_id r =? id)
  then (on_sessions (rr_authority_id r) (reservation_rollback r) h, Err ConsentDenial.NoConsent)
  else (on_sessions id (fun s => (commit_durable r s).1) h, (commit_durable r (sessions_of h id)).2).

Definition abort_revocation (id : Z) (r : ConsentRevocationReservation) (h : ConsentHost)
    : ConsentHost * bool :=
  (on_sessions (rr_authority_id r) (reservation_rollback r) h, rr_authority_id r =? id).
