(* ===== verification/ConsentCodec.v ===== *)
(** * The consent codecs

    What [ciborium] promises on the values the consent records are made of, and
    the theorem that the CGV1 and CRV1 decoders accept exactly the encodings of
    valid records. *)

From Stdlib Require Import String ZArith Lia Bool.
From S2P Require Import Prelude Text Cbor FallbackRecords ErasureGate Events EventStore.
From S2P Require Import StrictCbor PluginTrust WireSyntax TrustPolicy TrustBridge Consent.

Local Open Scope Z_scope.

(** ** What the reader and writer promise

    A flat array of unsigned integers, byte strings, texts and booleans that was
    written is read back whole. *)

Definition scalar (v : Value) : bool :=
  match v with
  | VInteger n => int_within U64_MAX n
  | VBytes bs => len bs <=? U64_MAX
  | VText s => str_len s <=? U64_MAX
  | VBool _ => true
  | _ => false
  end.

Class CiboriumLaws `{Ciborium} `{CiboriumCursor} : Prop :=
  flat_round_trip : forall items bs, forallb scalar items = true -> len items <= 23 ->
    into_writer (VArray items) = Some bs -> cursor_reader bs = Some (VArray items, len bs).

(** The widths of the record fields in Rust. *)
Definition grant_typed (g : ConsentGrantedV1) : Prop :=
  u8_ok (cg_modalities g) /\ u8_ok (cg_min_geo_resolution g) /\ u16_ok (cg_retention_days g)
  /\ 0 <= cg_expiry_secs g <= U32_MAX /\ u64_ok (cg_grant_seq g).
Definition revocation_typed (r : ConsentRevokedV1) : Prop :=
  u64_ok (cr_grant_seq r) /\ u64_ok (cr_fence_seq r).

(** ** Field readers *)

Lemma int_within_spec max n : int_within max n = true <-> 0 <= n <= max.
Proof. unfold int_within. rewrite andb_true_iff, !Z.leb_le. done. Qed.

Lemma decode_uint_exact max v n : decode_uint max v = Ok n <-> v = cbor_uint n /\ 0 <= n <= max.
Proof.
  unfold decode_uint, cbor_uint. destruct v; try (split; [done|intros [? _]; done]).
  destruct (int_within max z) eqn:Hw.
  - apply int_within_spec in Hw. split; [intros [= <-]; done|intros [[= ->] _]; done].
  - split; [done|]. intros [[= ->] Hr%int_within_spec]. congruence.
Qed.

Lemma decode_bool_exact v b : decode_bool v = Ok b <-> v = cbor_bool b.
Proof. unfold decode_bool, cbor_bool. destruct v; naive_solver. Qed.

Lemma decode_id_exact v id : decode_id v = Ok id <-> v = cbor_id id.
Proof.
  unfold decode_id, cbor_id, cbor_bytes, ulid_bytes. destruct v; try (split; [done|intros ?; done]).
  split.
  - intros Hm. apply ok_or_ok_inv, make_some in Hm. congruence.
  - intros [= ->]. by rewrite make_raw.
Qed.

Lemma decode_tstr_exact v s max : decode_tstr_max v max = Ok s <-> v = cbor_tstr s /\ str_len s <= max.
Proof.
  unfold decode_tstr_max, cbor_tstr. destruct v; try (split; [done|intros [? _]; done]).
  destruct (Z.ltb_spec max (str_len text)).
  - split; [done|]. intros [[= ->] ?]. lia.
  - split; [intros [= <-]; done|intros [[= ->] _]; done].
Qed.

Lemma decode_magic_exact v magic : decode_magic v magic = Ok tt <-> v = cbor_bytes magic.
Proof.
  unfold decode_magic, cbor_bytes. destruct v; try (split; intros ?; done).
  case_bool_decide; naive_solver.
Qed.

Lemma decode_version_exact v : decode_version v = Ok tt <-> v = cbor_uint VERSION_V1.
Proof.
  unfold decode_version, cbor_uint. destruct v; try (split; intros ?; done).
  destruct (int_within U8_MAX z && (z =? VERSION_V1)) eqn:Hb.
  - apply andb_prop in Hb as [_ ->%Z.eqb_eq]. done.
  - split; [done|]. intros [= ->]. discriminate Hb.
Qed.

Lemma decode_uint_ok max n : 0 <= n <= max -> decode_uint max (cbor_uint n) = Ok n.
Proof. intros Hn. by apply decode_uint_exact. Qed.
Lemma decode_bool_ok b : decode_bool (cbor_bool b) = Ok b.
Proof. done. Qed.
Lemma decode_id_ok id : decode_id (cbor_id id) = Ok id.
Proof. by apply decode_id_exact. Qed.
Lemma decode_tstr_ok s max : str_len s <= max -> decode_tstr_max (cbor_tstr s) max = Ok s.
Proof. intros Hs. by apply decode_tstr_exact. Qed.

(** Read every field a successful decoder has read. *)
Ltac fields_exact :=
  repeat match goal with
  | H : decode_magic _ _ = Ok _ |- _ => apply decode_magic_exact in H
  | H : decode_version _ = Ok _ |- _ => apply decode_version_exact in H
  | H : decode_id _ = Ok _ |- _ => apply decode_id_exact in H
  | H : decode_bool _ = Ok _ |- _ => apply decode_bool_exact in H
  | H : decode_tstr_max _ _ = Ok _ |- _ => apply decode_tstr_exact in H as [H ?]
  | H : decode_u8 _ = Ok _ |- _ => apply decode_uint_exact in H as [H ?]
  | H : decode_u16 _ = Ok _ |- _ => apply decode_uint_exact in H as [H ?]
  | H : decode_u32 _ = Ok _ |- _ => apply decode_uint_exact in H as [H ?]
  | H : decode_u64 _ = Ok _ |- _ => apply decode_uint_exact in H as [H ?]
  end; subst.

(** ** Records *)

Section Exact.
Context `{CiboriumLaws}.

Lemma decode_array_ok bytes n items :
  decode_array bytes n = Ok items -> len items = n /\ into_writer (VArray items) = Some bytes.
Proof.
  unfold decode_array, cbor_encode. intros Hd.
  apply rbind_ok_inv in Hd as ([v position] & _ & Hd). simpl in Hd.
  destruct (negb (position =? len bytes)); [done|].
  apply rbind_ok_inv in Hd as (canonical & Hw%ok_or_ok_inv & Hd). simpl in Hd.
  destruct (bool_decide_reflect (canonical = bytes)) as [->|]; [|done]. simpl in Hd.
  destruct v; try done. destruct (Z.eqb_spec (len items0) n); [|done]. by injection Hd as <-.
Qed.

Lemma decode_array_runs bytes items n :
  forallb scalar items = true -> len items = n -> n <= 23 -> into_writer (VArray items) = Some bytes ->
  decode_array bytes n = Ok items.
Proof.
  intros Hs <- Hl Hw. unfold decode_array, cbor_encode.
  rewrite (flat_round_trip _ _ Hs Hl Hw). simpl. rewrite Z.eqb_refl. simpl. rewrite Hw. simpl.
  rewrite bool_decide_eq_true_2 by done. simpl. by rewrite Z.eqb_refl.
Qed.

(** An array of known length, element by element. *)
Ltac split_items items Hlen :=
  repeat (let v := fresh "v" in destruct items as [|v items]; [discriminate Hlen|]);
  destruct items; [clear Hlen|by unfold len in Hlen; simpl in Hlen; lia].

Lemma grant_parts g :
  grant_typed g -> grant_validate g = Ok tt ->
  forall items, VArray items = grant_value g ->
  decode_magic (field items 0) MAGIC_CGV1 = Ok tt /\ decode_version (field items 1) = Ok tt
  /\ decode_grant_parties items = Ok (cg_subject_id g, cg_grantee_id g, cg_purpose g)
  /\ decode_grant_permissions items
     = Ok (cg_modalities g, cg_min_geo_resolution g, cg_fork_permitted g, cg_export_permitted g)
  /\ decode_grant_retention items = Ok (cg_retention_days g, cg_expiry_secs g, cg_grant_seq g).
Proof.
  intros (Hm & Hr & Hd & He & Hs) Hv items [= ->].
  assert (Hp : str_len (cg_purpose g) <= MAX_PURPOSE_BYTES).
  { unfold grant_validate in Hv. destruct (Z.ltb_spec MAX_PURPOSE_BYTES (str_len (cg_purpose g))); [done|lia]. }
  unfold u8_ok, u16_ok, u64_ok in *.
  unfold decode_grant_parties, decode_grant_permissions, decode_grant_retention, decode_u8, decode_u16,
    decode_u32, decode_u64, field. cbn -[decode_id decode_uint decode_bool decode_tstr_max decode_magic].
  rewrite (proj2 (decode_magic_exact _ _) eq_refl), !decode_id_ok, !decode_bool_ok, decode_tstr_ok,
    !decode_uint_ok by done. done.
Qed.

Lemma id_scalar id : scalar (cbor_id id) = true.
Proof.
  unfold scalar, cbor_id, cbor_bytes, ulid_bytes. pose proof (raw_ok id) as Hi.
  destruct (has_len 16 (raw id)) eqn:He; [|done]. unfold has_len in He. apply Z.eqb_eq in He. apply Z.leb_le. etrans; [by apply Z.eq_le_incl, He|done].
Qed.

Lemma uint_scalar n max : 0 <= n <= max -> max <= U64_MAX -> scalar (cbor_uint n) = true.
Proof. intros Hn Hm. apply int_within_spec. lia. Qed.

Lemma grant_scalars g :
  grant_typed g -> grant_validate g = Ok tt ->
  forallb scalar [cbor_bytes MAGIC_CGV1; cbor_uint VERSION_V1; cbor_id (cg_subject_id g);
    cbor_id (cg_grantee_id g); cbor_tstr (cg_purpose g); cbor_uint (cg_modalities g);
    cbor_uint (cg_min_geo_resolution g); cbor_bool (cg_fork_permitted g);
    cbor_bool (cg_export_permitted g); cbor_uint (cg_retention_days g);
    cbor_uint (cg_expiry_secs g); cbor_uint (cg_grant_seq g)] = true.
Proof.
  intros (Hm & Hr & Hd & He & Hs) Hv. cbn -[scalar].
  rewrite !id_scalar, (uint_scalar _ U8_MAX Hm), (uint_scalar _ U8_MAX Hr), (uint_scalar _ U16_MAX Hd),
    (uint_scalar _ U32_MAX He), (uint_scalar _ U64_MAX Hs) by done.
  unfold grant_validate in Hv. destruct (Z.ltb_spec MAX_PURPOSE_BYTES (str_len (cg_purpose g))); [done|].
  assert (Ht : scalar (cbor_tstr (cg_purpose g)) = true).
  { apply Z.leb_le. unfold MAX_PURPOSE_BYTES, U64_MAX in *. lia. }
  by rewrite Ht.
Qed.

Lemma revocation_scalars r :
  u64_ok (cr_grant_seq r) -> u64_ok (cr_fence_seq r) ->
  forallb scalar [cbor_bytes MAGIC_CRV1; cbor_uint VERSION_V1; cbor_id (cr_subject_id r);
    cbor_id (cr_grantee_id r); cbor_uint (cr_grant_seq r); cbor_uint (cr_fence_seq r)] = true.
Proof.
  intros Hg Hf. cbn -[scalar].
  by rewrite !id_scalar, (uint_scalar _ U64_MAX Hg), (uint_scalar _ U64_MAX Hf) by done.
Qed.

Lemma grant_exact bs g : grant_decode bs = Ok g <-> grant_typed g /\ grant_encode g = Ok bs.
Proof.
  unfold grant_decode, grant_encode. split.
  - intros Hd. apply rbind_ok_inv in Hd as (items & [Hlen Hw]%decode_array_ok & Hd).
    change 12 with (Z.of_nat 12) in Hlen. split_items items Hlen.
    unfold decode_grant_parties, decode_grant_permissions, decode_grant_retention, field in Hd. cbn in Hd.
    ok_inv. fields_exact. split; [done|]. rewrite Hm11. simpl. unfold cbor_encode, grant_value.
    cbn. change MAGIC_CGV1 with (list_byte_of_string "CGV1"). cbn. by rewrite Hw.
  - intros [Ht He]. apply rbind_ok_inv in He as ([] & Hv & Hw%ok_or_ok_inv).
    destruct (grant_parts g Ht Hv _ eq_refl) as (Hm & Hver & Hp & Hs & Hr).
    rewrite (decode_array_runs bs _ 12 (grant_scalars g Ht Hv)) by (done || exact Hw).
    cbn [rbind]. rewrite Hm, Hver, Hp. cbn [rbind]. rewrite Hs. cbn [rbind]. rewrite Hr. cbn [rbind].
    assert (Hg : MkGranted (cg_subject_id g) (cg_grantee_id g) (cg_purpose g) (cg_modalities g)
      (cg_min_geo_resolution g) (cg_fork_permitted g) (cg_export_permitted g) (cg_retention_days g)
      (cg_expiry_secs g) (cg_grant_seq g) = g) by by destruct g.
    by rewrite Hg, Hv.
Qed.

Lemma revocation_exact bs r :
  consent_revocation_decode bs = Ok r <-> revocation_typed r /\ consent_revocation_encode r = Ok bs.
Proof.
  unfold consent_revocation_decode, consent_revocation_encode. split.
  - intros Hd. apply rbind_ok_inv in Hd as (items & [Hlen Hw]%decode_array_ok & Hd).
    change 6 with (Z.of_nat 6) in Hlen. split_items items Hlen. unfold field in Hd. cbn in Hd.
    ok_inv. fields_exact. split; [done|]. rewrite Hm5. simpl.
    unfold cbor_encode, revocation_value. change MAGIC_CRV1 with (list_byte_of_string "CRV1"). cbn. by rewrite Hw.
  - intros [[Hg Hf] He]. apply rbind_ok_inv in He as ([] & Hv & Hw%ok_or_ok_inv).
    rewrite (decode_array_runs bs _ 6 (revocation_scalars r Hg Hf)) by (done || exact Hw).
    cbn [rbind]. unfold field, decode_u64, u64_ok in *.
    cbn -[decode_id decode_uint decode_magic decode_version revocation_validate].
    rewrite (proj2 (decode_magic_exact _ _) eq_refl), (proj2 (decode_version_exact _) eq_refl), !decode_id_ok,
      !decode_uint_ok by done. cbn [rbind].
    assert (Hr : MkRevoked (cr_subject_id r) (cr_grantee_id r) (cr_grant_seq r) (cr_fence_seq r) = r)
      by by destruct r.
    by rewrite Hr, Hv.
Qed.
End Exact.

(** C31: the consent codecs are exact.  The decoders of grants and revocations
    return a record on exactly the bytes the encoder writes for it, so every
    accepted record is valid, in range and has one encoding, and every encoded
    record decodes to itself. *)
Theorem consent_codec_exact `{CiboriumLaws} bs :
  (forall g, grant_decode bs = Ok g <-> grant_typed g /\ grant_encode g = Ok bs)
  /\ (forall r, consent_revocation_decode bs = Ok r
      <-> revocation_typed r /\ consent_revocation_encode r = Ok bs).
Proof. split; intros; [apply grant_exact|apply revocation_exact]. Qed.

(** ** A reader and writer of flat CBOR arrays *)

Module ConsentCbor.

Definition write_scalar (v : Value) : list byte :=
  match v with
  | VInteger n => encode_head 0 n
  | VBytes bs => encode_bytes bs 2
  | VText s => encode_bytes (as_bytes s) 3
  | VBool b => [if b then xf5 else xf4]
  | _ => []
  end.

Definition read_blob (major : Z) : Parser CborReadError (list byte) :=
  let! n := chead major in ctake n.

(** The scalar at the cursor, by its first byte. *)
Definition read_scalar : Parser CborReadError Value := fun c =>
  match cbytes c !! Z.to_nat (coffset c) with
  | None => Err InvalidEncoding
  | Some b =>
      if decide (b = xf4) then Ok (VBool false, advance 1 c)
      else if decide (b = xf5) then Ok (VBool true, advance 1 c)
      else let major := Z.shiftr (Z_of_byte b) 5 in
      if major =? 0 then (let! n := chead 0 in pret (VInteger n)) c
      else if major =? 2 then (let! bs := read_blob 2 in pret (VBytes bs)) c
      else if major =? 3 then
        (let! bs := read_blob 3 in plift (ok_or (VText <$> from_utf8 bs) InvalidEncoding)) c
      else Err InvalidEncoding
  end.

Fixpoint read_scalars (n : nat) : Parser CborReadError (list Value) :=
  match n with
  | O => pret []
  | S n' => let! v := read_scalar in let! rest := read_scalars n' in pret (v :: rest)
  end.

Definition read_flat : Parser CborReadError Value :=
  let! n := chead 4 in let! items := read_scalars (Z.to_nat n) in pret (VArray items).

#[export] Instance flat_ciborium : Ciborium := {|
  from_reader bs := match read_flat (cursor_new bs) with Ok (v, _) => Some v | Err _ => None end;
  into_writer v := match v with
    | VArray items => if forallb scalar items
                      then Some (encode_head 4 (len items) ++ mjoin (write_scalar <$> items)) else None
    | _ => None end;
|}.

#[export] Instance flat_cursor : CiboriumCursor := fun bs =>
  match read_flat (cursor_new bs) with Ok (v, c) => Some (v, coffset c) | Err _ => None end.

Lemma read_scalar_at c b : cbytes c !! Z.to_nat (coffset c) = Some b ->
  b <> xf4 -> b <> xf5 ->
  read_scalar c =
    let major := Z.shiftr (Z_of_byte b) 5 in
    if major =? 0 then (let! n := chead 0 in pret (VInteger n)) c
    else if major =? 2 then (let! bs := read_blob 2 in pret (VBytes bs)) c
    else if major =? 3 then
      (let! bs := read_blob 3 in plift (ok_or (VText <$> from_utf8 bs) InvalidEncoding)) c
    else Err InvalidEncoding.
Proof. intros Hb H4 H5. unfold read_scalar. rewrite Hb, !decide_False by done. done. Qed.

Lemma encode_head_first major v :
  0 <= major <= 7 -> 0 <= v ->
  exists b rest, encode_head major v = b :: rest /\ Z.shiftr (Z_of_byte b) 5 = major.
Proof.
  intros Hm Hv. unfold encode_head. cbv zeta.
  repeat match goal with |- context [v <=? ?k] => destruct (Z.leb_spec v k) end;
    (eexists _, _; split; [reflexivity|]); rewrite head_byte, head_byte_major; try lia.
  all: cbn [be_bytes to_be_bytes nth]; change (8 * Z.of_nat 0) with 0; rewrite Z.shiftr_0_r, Z_of_byte_of_Z; lia.
Qed.

(** A reader chosen by the major type of the head it reads. *)
Lemma read_scalar_head major v body a (p : Parser CborReadError Value) :
  0 <= major <= 7 -> major <> 7 -> 0 <= v ->
  yields p a (encode_head major v ++ body) ->
  (forall c, (if major =? 0 then (let! n := chead 0 in pret (VInteger n)) c
    else if major =? 2 then (let! bs := read_blob 2 in pret (VBytes bs)) c
    else if major =? 3 then
      (let! bs := read_blob 3 in plift (ok_or (VText <$> from_utf8 bs) InvalidEncoding)) c
    else Err InvalidEncoding) = p c) ->
  yields read_scalar a (encode_head major v ++ body).
Proof.
  intros Hm H7 Hv Hp Heq pre rest. destruct (encode_head_first major v Hm Hv) as (b & tail & He & Hb).
  rewrite (read_scalar_at _ b).
  - cbv zeta. rewrite Hb, Heq. apply Hp.
  - cbn [cbytes coffset]. rewrite He, len_to_nat, lookup_app_r, Nat.sub_diag by lia. done.
  - intros ->. by apply H7.
  - intros ->. by apply H7.
Qed.

Lemma yields_read_blob major bs :
  0 <= major <= 7 -> len bs <= U64_MAX -> yields (read_blob major) bs (encode_bytes bs major).
Proof.
  intros Hm Hl. eapply yields_bind; [|by apply yields_ctake].
  apply yields_chead; [done|]. pose proof (len_nonneg bs). done.
Qed.

Lemma yields_read_scalar v : scalar v = true -> yields read_scalar v (write_scalar v).
Proof.
  destruct v as [n|bs|t| |b|items|tag]; try done; cbn [scalar write_scalar].
  - intros Hn%int_within_spec. rewrite <- (app_nil_r (encode_head 0 n)).
    eapply (read_scalar_head 0 n [] _ (let! n := chead 0 in pret (VInteger n))); [done|done|lia| |done].
    eapply yields_bind; [by apply yields_chead|]. apply yields_ret.
  - intros Hl%Z.leb_le. unfold encode_bytes.
    eapply (read_scalar_head 2 _ _ _ (let! bs := read_blob 2 in pret (VBytes bs)));
      [done|done|apply len_nonneg| |done].
    eapply yields_bind_last; [by apply yields_read_blob|]. apply yields_ret.
  - intros Hl%Z.leb_le. unfold encode_bytes.
    eapply (read_scalar_head 3 _ _ _
      (let! bs := read_blob 3 in plift (ok_or (VText <$> from_utf8 bs) InvalidEncoding)));
      [done|done|apply len_nonneg| |done].
    eapply yields_bind_last; [by apply yields_read_blob|]. apply yields_lift.
    unfold from_utf8, as_bytes. by rewrite make_raw.
  - intros _ pre rest. unfold read_scalar. cbn [cbytes coffset].
    rewrite len_to_nat, lookup_app_r, Nat.sub_diag by lia. by destruct b.
Qed.

Lemma yields_read_scalars items :
  forallb scalar items = true ->
  yields (read_scalars (length items)) items (mjoin (write_scalar <$> items)).
Proof.
  induction items as [|v items IH]; [intros _; apply yields_ret|].
  cbn [forallb]. intros [Hv Hi]%andb_prop.
  change (mjoin (write_scalar <$> v :: items)) with (write_scalar v ++ mjoin (write_scalar <$> items)).
  eapply yields_bind; [by apply yields_read_scalar|].
  eapply yields_bind_last; [by apply IH|]. apply yields_ret.
Qed.

#[export] Instance flat_laws : CiboriumLaws.
Proof.
  intros items bs Hs Hl. cbn. rewrite Hs. intros [= <-]. unfold cursor_reader, flat_cursor.
  pose proof (len_nonneg items).
  rewrite (yields_run read_flat (VArray items)); [done|].
  eapply yields_bind; [apply yields_chead; [done|unfold u64_ok, U64_MAX; lia]|].
  rewrite len_to_nat. eapply yields_bind_last; [by apply yields_read_scalars|]. apply yields_ret.
Qed.

Definition sample_id (b : byte) : EntityId := @Checked _ (has_len 16) (replicate 16 b) I.
Definition sample_grant : ConsentGrantedV1 :=
  MkGranted (sample_id x11) (sample_id x22) (lit "study") 9 1 true true 30 0 4.
Definition sample_revocation : ConsentRevokedV1 := MkRevoked (sample_id x11) (sample_id x22) 4 9.

Lemma consent_codec_exact_witness :
  exists bs, grant_encode sample_grant = Ok bs /\ grant_decode bs = Ok sample_grant
    /\ consent_revocation_decode bs <> Ok sample_revocation.
Proof.
  eexists. split; [vm_compute; reflexivity|].
  split.
  - apply (consent_codec_exact _). split; [|vm_compute; reflexivity]. vm_compute. done.
  - intros [_ He]%consent_codec_exact. vm_compute in He. discriminate He.
Defined.
End ConsentCbor.
