(* ===== verification/ConsentSystem.v ===== *)
(** * Runs of the consent host

    The operations of all authorities of a process as one list of steps, since
    every operation holds the mutex of its table while it runs: a run is any
    interleaving of grants, revocations, reservations, closures and restores.
    The invariants the theorems need, preserved by every step; then what a restore
    computes from a history. *)

From Stdlib Require Import String ZArith Lia Bool.
From S2P Require Import Prelude Text Cbor FallbackRecords ErasureGate Events EventStore StrictCbor PluginTrust.
From S2P Require Import WireSyntax TrustPolicy TrustBridge Consent.

Local Open Scope Z_scope.

Record ConsentSystem := MkConsentSystem {
  cs_host : ConsentHost;
  (** the reservations that are not finished, oldest first *)
  cs_reservations : list ConsentRevocationReservation;
}.

Definition consent_start : ConsentSystem := MkConsentSystem consent_host_start [].

Inductive ConsentOp :=
| OpNew
| OpGrant (id : Z) (timeline : TimelineId) (g : ConsentGrantedV1)
| OpRevoke (id : Z) (timeline : TimelineId) (r : ConsentRevokedV1)
| OpBegin (id : Z) (timeline : TimelineId) (r : ConsentRevokedV1)
| OpCommit (id : Z) (n : nat)
| OpAbort (id : Z) (n : nat)
| OpDrop (n : nat)
| OpRestore (id : Z) (timeline : TimelineId) (events : list Event)
| OpFenceTimeline (id : Z) (timeline : TimelineId) (fence : Z)
| OpFenceSubject (id : Z) (timeline : TimelineId) (subject : EntityId) (fence : Z)
| OpRevocationFence (id : Z) (timeline : TimelineId) (subject : option EntityId) (fence : Z).

Section Runs.
Context `{Ciborium} `{CiboriumCursor}.

Definition on_host (f : ConsentHost -> ConsentHost) (y : ConsentSystem) : ConsentSystem :=
  MkConsentSystem (f (cs_host y)) (cs_reservations y).

(** A step on the table of one authority. *)
Definition on_table (id : Z) (f : ActiveConsentSessions -> ActiveConsentSessions)
    : ConsentSystem -> ConsentSystem := on_host (on_sessions id f).

Definition push_reservation (r : Consented ConsentRevocationReservation) (y : ConsentSystem)
    : ConsentSystem :=
  match r with
  | Ok rsv => MkConsentSystem (cs_host y) (cs_reservations y ++ [rsv])
  | Err _ => y
  end.

(** A finished reservation is consumed. *)
Definition finish (n : nat) (f : ConsentRevocationReservation -> ConsentHost -> ConsentHost)
    (y : ConsentSystem) : ConsentSystem :=
  match cs_reservations y !! n with
  | Some r => MkConsentSystem (f r (cs_host y)) (delete n (cs_reservations y))
  | None => y
  end.

(** One identity is never issued twice: that would take [2^64] authorities. *)
Definition exec (y : ConsentSystem) (op : ConsentOp) : ConsentSystem :=
  match op with
  | OpNew =>
      match ch_sessions (cs_host y) !! ch_next_authority_id (cs_host y) with
      | Some _ => y
      | None => on_host (fun h => (authority_new h).1) y
      end
  | OpGrant id timeline g => on_table id (record_grant id timeline g) y
  | OpRevoke id timeline r => on_table id (fun s => (record_revocation timeline r s).1) y
  | OpBegin id timeline r =>
      push_reservation (begin_revocation id timeline r (sessions_of (cs_host y) id)).2
        (on_table id (fun s => (begin_revocation id timeline r s).1) y)
  | OpCommit id n => finish n (fun r h => (commit_revocation id r h).1) y
  | OpAbort id n => finish n (fun r h => (abort_revocation id r h).1) y
  | OpDrop n => finish n (fun r => on_sessions (rr_authority_id r) (reservation_rollback r)) y
  | OpRestore id timeline events =>
      on_table id (fun s => (restore_from_history id timeline events s).1) y
  | OpFenceTimeline id timeline fence => on_table id (fence_timeline_at timeline fence) y
  | OpFenceSubject id timeline subject fence => on_table id (fence_subject_at timeline subject fence) y
  | OpRevocationFence id timeline subject fence =>
      on_table id (fun s => (with_revocation_fence timeline subject fence s (fun u : unit => u) tt).1) y
  end.

Definition run (y : ConsentSystem) (ops : list ConsentOp) : ConsentSystem := fold_left exec ops y.

Definition table (y : ConsentSystem) (id : Z) : ActiveConsentSessions := sessions_of (cs_host y) id.

(** ** What a step does to one table *)

(** The function a step applies to the table of [id], if it may touch it. *)
Definition effect (y : ConsentSystem) (op : ConsentOp) (id : Z)
    : option (ActiveConsentSessions -> ActiveConsentSessions) :=
  let at_table i f := if i =? id then Some f else None in
  match op with
  | OpNew => None
  | OpGrant i timeline g => at_table i (record_grant i timeline g)
  | OpRevoke i timeline r => at_table i (fun s => (record_revocation timeline r s).1)
  | OpBegin i timeline r => at_table i (fun s => (begin_revocation i timeline r s).1)
  | OpCommit i n =>
      r ← cs_reservations y !! n;
      at_table (rr_authority_id r)
        (if i =? id then (fun s => (commit_durable r s).1) else reservation_rollback r)
  | OpAbort _ n | OpDrop n =>
      r ← cs_reservations y !! n; at_table (rr_authority_id r) (reservation_rollback r)
  | OpRestore i timeline events => at_table i (fun s => (restore_from_history i timeline events s).1)
  | OpFenceTimeline i timeline fence => at_table i (fence_timeline_at timeline fence)
  | OpFenceSubject i timeline subject fence => at_table i (fence_subject_at timeline subject fence)
  | OpRevocationFence i timeline subject fence =>
      at_table i (fun s => (with_revocation_fence timeline subject fence s (fun u : unit => u) tt).1)
  end.

Lemma sessions_on_sessions h i f id :
  sessions_of (on_sessions i f h) id = sessions_of h id
  \/ i = id /\ sessions_of (on_sessions i f h) id = f (sessions_of h id).
Proof.
  unfold sessions_of, on_sessions. cbn [ch_sessions].
  destruct (decide (i = id)) as [->|Hne].
  - rewrite lookup_alter_eq. destruct (ch_sessions h !! id); [by right|by left].
  - rewrite lookup_alter_ne by done. by left.
Qed.

Lemma exec_table y op id :
  table (exec y op) id = table y id
  \/ exists f, effect y op id = Some f /\ table (exec y op) id = f (table y id).
Proof.
  assert (Hat : forall i f h, table (MkConsentSystem (on_sessions i f (cs_host y)) h) id = table y id
    \/ exists f', (if i =? id then Some f else None) = Some f'
       /\ table (MkConsentSystem (on_sessions i f (cs_host y)) h) id = f' (table y id)).
  { intros i f h. unfold table. cbn [cs_host].
    destruct (sessions_on_sessions (cs_host y) i f id) as [->|[-> ->]]; [by left|].
    right. exists f. by rewrite Z.eqb_refl. }
  destruct op; cbn [exec effect]; try apply Hat.
  - left. destruct (ch_sessions _ !! _) eqn:Hn; [done|]. unfold table, sessions_of, authority_new. cbn.
    destruct (decide (ch_next_authority_id (cs_host y) = id)) as [<-|].
    + by rewrite lookup_insert_eq, Hn.
    + by rewrite lookup_insert_ne.
  - unfold push_reservation. destruct (begin_revocation _ _ _ _).2; apply Hat.
  - unfold finish. destruct (cs_reservations y !! n) as [rsv|]; [|by left]. cbn.
    unfold commit_revocation. destruct (Z.eqb_spec (rr_authority_id rsv) id0) as [<-|Hne]; cbn.
    + destruct (Hat (rr_authority_id rsv) (fun s => (commit_durable rsv s).1) (delete n (cs_reservations y)))
        as [->|(f & Hf & ->)]; [by left|].
      right. exists f. destruct (rr_authority_id rsv =? id) eqn:He; done.
    + destruct (Hat (rr_authority_id rsv) (reservation_rollback rsv) (delete n (cs_reservations y)))
        as [->|(f & Hf & ->)]; [by left|].
      right. exists f. destruct (Z.eqb_spec (rr_authority_id rsv) id) as [<-|]; [|done].
      by rewrite (proj2 (Z.eqb_neq id0 _)) by congruence.
  - unfold finish. destruct (cs_reservations y !! n) as [rsv|]; [apply Hat|by left].
  - unfold finish. destruct (cs_reservations y !! n) as [rsv|]; [apply Hat|by left].
Qed.

(** The reservations behind a step: some of the old ones, or one more that the
    step began. *)
Lemma exec_reservations y op r :
  r ∈ cs_reservations (exec y op) ->
  r ∈ cs_reservations y
  \/ exists id timeline rev, op = OpBegin id timeline rev
     /\ (begin_revocation id timeline rev (table y id)).2 = Ok r.
Proof.
  assert (Hf : forall n f, r ∈ cs_reservations (finish n f y) -> r ∈ cs_reservations y).
  { intros n f. unfold finish. destruct (cs_reservations y !! n); [|done]. cbn.
    rewrite delete_take_drop, elem_of_app.
    intros [(i & Hi & _)%elem_of_take|(i & Hi)%list_elem_of_lookup].
    - by eapply list_elem_of_lookup_2.
    - rewrite lookup_drop in Hi. by eapply list_elem_of_lookup_2. }
  destruct op; cbn [exec]; try (by left); try (intros ?; left; by eapply Hf).
  - destruct (_ !! _); by left.
  - unfold push_reservation, table. destruct (begin_revocation _ _ _ _).2 as [rsv|] eqn:Hb; [|by left].
    cbn. rewrite elem_of_app, list_elem_of_singleton. intros [Hr| ->]; [by left|].
    right. by exists id, timeline, r0.
Qed.
End Runs.

(** * What a restored consent history means

    The sessions a restore builds, stated on the history itself: a session for
    every grant that no later grant replaced, fenced at the earliest of the
    revocations that follow it. *)

(** ** The reading of a history *)

(** The fences the revocations of one session set. *)
Definition fences (timeline : TimelineId) (k : SessionKey) (post : list RestoredConsentEvent) : list Z :=
  omap (fun e => match e with
    | RevokedBy r => if decide (revocation_key timeline r = k) then Some (cr_fence_seq r) else None
    | Granted _ => None
    end) post.

(** No fence is [u64::MAX]. *)
Definition final_fence (timeline : TimelineId) (k : SessionKey) (post : list RestoredConsentEvent) : Z :=
  fold_left Z.min (fences timeline k post) U64_MAX.

(** [g] opened the session [k] last, and [post] came behind it. *)
Definition granted_last (timeline : TimelineId) (decoded : list RestoredConsentEvent) (k : SessionKey)
    (g : ConsentGrantedV1) (post : list RestoredConsentEvent) : Prop :=
  (exists pre, decoded = pre ++ Granted g :: post) /\ grant_key timeline g = k
  /\ forall g', Granted g' ∈ post -> grant_key timeline g' <> k.

Definition history_session (id : Z) (timeline : TimelineId) (k : SessionKey) (g : ConsentGrantedV1)
    (post : list RestoredConsentEvent) : ActiveConsent :=
  MkActive (with_fence_seq (final_fence timeline k post) (grant_token id timeline g)) (cg_expiry_secs g).

(** ** One more event *)

Lemma granted_last_snoc timeline d x k g post :
  granted_last timeline (d ++ [x]) k g post
  <-> (x = Granted g /\ grant_key timeline g = k /\ post = [])
      \/ exists post', post = post' ++ [x] /\ granted_last timeline d k g post'
         /\ forall g', x = Granted g' -> grant_key timeline g' <> k.
Proof.
  unfold granted_last. split.
  - intros ((pre & Hd) & Hk & Hl). destruct post as [|e post'] using rev_ind.
    + apply app_inj_tail in Hd as [_ ->]. by left.
    + right. exists post'. rewrite app_comm_cons, app_assoc in Hd. apply app_inj_tail in Hd as [-> ->].
      split; [done|]. split; [|intros g' ->; apply Hl; set_solver].
      split; [by eexists|]. split; [done|]. intros g' Hg'. apply Hl. set_solver.
  - intros [(-> & Hk & ->)|(post' & -> & ((pre & ->) & Hk & Hl) & Hx)].
    + split; [by exists d|]. split; [done|]. set_solver.
    + split; [exists pre; by rewrite <- app_assoc|]. split; [done|].
      intros g' [Hg'|Hg'%list_elem_of_singleton]%elem_of_app; [by apply Hl|by apply Hx].
Qed.

Lemma final_fence_snoc timeline k post x :
  final_fence timeline k (post ++ [x])
  = match x with
    | RevokedBy r => if decide (revocation_key timeline r = k)
                     then Z.min (final_fence timeline k post) (cr_fence_seq r) else final_fence timeline k post
    | Granted _ => final_fence timeline k post
    end.
Proof.
  unfold final_fence, fences. rewrite omap_app, fold_left_app. simpl.
  destruct x as [g|r]; [done|]. by case_decide.
Qed.

Lemma grant_key_timeline timeline g : key_timeline (grant_key timeline g) = timeline.
Proof. done. Qed.

Section Restored.
Context (id : Z) (timeline : TimelineId).

Lemma restore_events_app d1 d2 s :
  restore_events id timeline (d1 ++ d2) s
  = let? s1 := restore_events id timeline d1 s in restore_events id timeline d2 s1.
Proof.
  revert s. induction d1 as [|[g|r] d1 IH]; intros s; simpl; [done|apply IH|].
  destruct (s !! revocation_key timeline r); [apply IH|done].
Qed.

(** The table a restore leaves, session by session. *)
Definition restored (decoded : list RestoredConsentEvent) (base s : ActiveConsentSessions) : Prop :=
  forall k, (key_timeline k <> timeline -> s !! k = base !! k)
  /\ (key_timeline k = timeline -> forall a, s !! k = Some a
      <-> exists g post, granted_last timeline decoded k g post /\ a = history_session id timeline k g post).

Lemma restored_grant decoded base s g0 :
  restored decoded base s ->
  restored (decoded ++ [Granted g0]) base (record_grant id timeline g0 s).
Proof.
  intros Hr k. unfold record_grant. destruct (decide (grant_key timeline g0 = k)) as [<-|Hne].
  - split; [by rewrite grant_key_timeline|]. intros _ a. rewrite lookup_insert_eq. split.
    + intros [= <-]. exists g0, []. split; [apply granted_last_snoc; by left|]. done.
    + intros (g & post & [(Hg & _ & ->)|(post' & _ & _ & Hx)]%granted_last_snoc & ->).
      * injection Hg as <-. done.
      * by destruct (Hx g0).
  - rewrite lookup_insert_ne by done. destruct (Hr k) as [Ho Hs]. split; [done|].
    intros Hk a. rewrite (Hs Hk a). split.
    + intros (g & post & Hg & ->). exists g, (post ++ [Granted g0]). split.
      * apply granted_last_snoc. right. exists post. naive_solver.
      * unfold history_session. by rewrite final_fence_snoc.
    + intros (g & post & [(Hg & Hk' & ->)|(post' & -> & Hg & _)]%granted_last_snoc & ->).
      * by injection Hg as <-.
      * exists g, post'. split; [done|]. unfold history_session. by rewrite final_fence_snoc.
Qed.

Lemma restored_revocation decoded base s r active :
  s !! revocation_key timeline r = Some active -> restored decoded base s ->
  restored (decoded ++ [RevokedBy r]) base
    (<[revocation_key timeline r
         := fence_session (Z.min (session_fence active) (cr_fence_seq r)) active]> s).
Proof.
  intros Hact Hr k. destruct (decide (revocation_key timeline r = k)) as [<-|Hne].
  - split; [by intros []|]. intros _ a. rewrite lookup_insert_eq.
    destruct (Hr (revocation_key timeline r)) as [_ Hs]. specialize (Hs eq_refl).
    split.
    + intros [= <-]. apply Hs in Hact as (g & post & Hg & ->). exists g, (post ++ [RevokedBy r]). split.
      * apply granted_last_snoc. right. exists post. naive_solver.
      * unfold history_session. rewrite final_fence_snoc, decide_True by done. done.
    + intros (g & post & [(Hg & _)|(post' & -> & Hg & _)]%granted_last_snoc & ->); [done|].
      assert (Ha : Some (history_session id timeline (revocation_key timeline r) g post') = Some active)
        by (rewrite <- Hact; symmetry; apply Hs; eauto).
      injection Ha as <-. f_equal. unfold history_session. by rewrite final_fence_snoc, decide_True.
  - rewrite lookup_insert_ne by done. destruct (Hr k) as [Ho Hs]. split; [done|].
    intros Hk a. rewrite (Hs Hk a). split.
    + intros (g & post & Hg & ->). exists g, (post ++ [RevokedBy r]). split.
      * apply granted_last_snoc. right. exists post. naive_solver.
      * unfold history_session. by rewrite final_fence_snoc, decide_False.
    + intros (g & post & [(Hg & _)|(post' & -> & Hg & _)]%granted_last_snoc & ->); [done|].
      exists g, post'. split; [done|]. unfold history_session. by rewrite final_fence_snoc, decide_False.
Qed.

Lemma restore_events_exact decoded base s :
  (forall k, key_timeline k = timeline -> base !! k = None) ->
  restore_events id timeline decoded base = Ok s -> restored decoded base s.
Proof.
  intros Hbase. revert s. induction decoded as [|x decoded IH] using rev_ind; intros s.
  - intros [= <-] k. split; [done|]. intros Hk a. rewrite Hbase by done. split; [done|].
    intros (g & post & ((pre & Hd) & _) & _). by destruct pre.
  - rewrite restore_events_app. intros (s1 & Hs1%IH & Hx)%rbind_ok_inv. destruct x as [g|r]; simpl in Hx.
    + injection Hx as <-. by apply restored_grant.
    + destruct (s1 !! revocation_key timeline r) as [active|] eqn:Ha; [|done].
      injection Hx as <-. by apply restored_revocation.
Qed.
End Restored.

Lemma other_timelines_none timeline s k :
  key_timeline k = timeline -> other_timelines timeline s !! k = None.
Proof. intros Hk. unfold other_timelines. apply map_lookup_filter_None. right. by intros a _ []. Qed.

Lemma other_timelines_keep timeline s k :
  key_timeline k <> timeline -> other_timelines timeline s !! k = s !! k.
Proof.
  intros Hk. unfold other_timelines. apply option_eq. intros a. rewrite map_lookup_filter_Some. naive_solver.
Qed.

(** A restore changes nothing, or rebuilds exactly the sessions of its
    Timeline. *)
Lemma restore_from_history_cases `{Ciborium} `{CiboriumCursor} id timeline events s s' r :
  restore_from_history id timeline events s = (s', r) ->
  (s' = s /\ exists e, r = Err e)
  \/ r = Ok tt /\ len events <= MAX_CONSENT_HISTORY_EVENTS
     /\ exists decoded, decode_history events = Ok decoded
        /\ restored id timeline decoded (other_timelines timeline s) s'.
Proof.
  unfold restore_from_history. destruct (Z.ltb_spec MAX_CONSENT_HISTORY_EVENTS (len events)).
  { intros [= <- <-]. left. eauto. }
  destruct (decode_history events) as [decoded|e]; [|intros [= <- <-]; left; eauto].
  destruct (restore_events _ _ _ _) as [s1|e] eqn:Hr; intros [= <- <-]; [|left; eauto].
  right. split; [done|]. split; [done|]. exists decoded. split; [done|].
  eapply restore_events_exact; [|done]. intros k Hk. by apply other_timelines_none.
Qed.
