(* ===== verification/ConsentProperties.v ===== *)
(** * Properties of the consent authority

    Theorems over every run of the consent host, and over the gate decisions a
    run leads to; a sample host on which they are applied. *)

From Stdlib Require Import String ZArith Lia Bool.
From S2P Require Import Prelude Text Cbor FallbackRecords ErasureGate Events EventStore.
From S2P Require Import StrictCbor PluginTrust WireSyntax TrustPolicy TrustBridge.
From S2P Require Import Consent ConsentCodec ConsentSystem.

Local Open Scope Z_scope.

(** ** Steps that only move fences *)

Definition fence_only (s s' : ActiveConsentSessions) : Prop :=
  forall k a', s' !! k = Some a' -> exists a f, s !! k = Some a /\ a' = fence_session f a.

Lemma same_fence a : a = fence_session (session_fence a) a.
Proof. by destruct a as [[] ?]. Qed.

#[export] Instance fence_only_refl : Reflexive fence_only.
Proof. intros s k a Ha. exists a, (session_fence a). split; [done|apply same_fence]. Qed.

Lemma fence_only_insert s k a f : s !! k = Some a -> fence_only s (<[k := fence_session f a]> s).
Proof.
  intros Ha k' a' [[<- <-]|[Hne Hk]]%lookup_insert_Some; [by exists a, f|]. by apply fence_only_refl.
Qed.

Lemma fence_only_sessions here f s : fence_only s (fence_sessions here f s).
Proof.
  intros k a'. unfold fence_sessions. rewrite map_lookup_imap.
  destruct (s !! k) as [a|] eqn:Ha; [|done]. simpl. destruct (here k); intros [= <-]; [by eauto|].
  exists a, (session_fence a). split; [done|apply same_fence].
Qed.

Lemma fence_only_revocation timeline r s : fence_only s (record_revocation timeline r s).1.
Proof. unfold record_revocation. destruct (s !! _) eqn:Ha; [by apply fence_only_insert|done]. Qed.

Lemma fence_only_begin id timeline r s : fence_only s (begin_revocation id timeline r s).1.
Proof.
  unfold begin_revocation. destruct (s !! _) eqn:Ha; [|done].
  case_match; [done|by apply fence_only_insert].
Qed.

Lemma fence_only_rollback r s : fence_only s (reservation_rollback r s).
Proof. unfold reservation_rollback. destruct (s !! _) eqn:Ha; [|done]. case_match; [by apply fence_only_insert|done]. Qed.

Lemma fence_only_commit r s : fence_only s (commit_durable r s).1.
Proof.
  unfold commit_durable. destruct (s !! _) eqn:Ha; [|apply fence_only_rollback].
  case_match; [apply fence_only_rollback|by apply fence_only_insert].
Qed.

Create HintDb fences.
#[export] Hint Resolve fence_only_revocation fence_only_begin fence_only_rollback fence_only_commit
  fence_only_sessions : fences.

Section Properties.
Context `{Ciborium} `{CiboriumCursor}.

(** Every step moves fences, grants or restores. *)
Lemma effect_cases y op id f s :
  effect y op id = Some f ->
  fence_only s (f s)
  \/ (exists timeline g, op = OpGrant id timeline g /\ f s = record_grant id timeline g s)
  \/ exists timeline events, op = OpRestore id timeline events
     /\ f s = (restore_from_history id timeline events s).1.
Proof.
  destruct op as [|i tl g|i tl r|i tl r|i n|i n|n|i tl es|i tl fe|i tl sub fe|i tl sub fe];
    cbn [effect]; try done.
  all: try (destruct (Z.eqb_spec i id) as [->|]; [|done]; intros [= <-]; auto with fences).
  - right. left. by exists tl, g.
  - destruct (cs_reservations y !! n); [|done]. cbn. case_match; [|done].
    case_match; intros [= <-]; auto with fences.
  - destruct (cs_reservations y !! n); [|done]. cbn. case_match; [|done]. intros [= <-]. auto with fences.
  - destruct (cs_reservations y !! n); [|done]. cbn. case_match; [|done]. intros [= <-]. auto with fences.
  - right. right. by exists tl, es.
  - left. apply fence_only_sessions.
  - left. apply fence_only_sessions.
Qed.

(** ** Every session was granted *)

(** The grants a run recorded on a Timeline, live or from a restored history. *)
Definition minted (ops : list ConsentOp) (id : Z) (timeline : TimelineId) (g : ConsentGrantedV1) : Prop :=
  OpGrant id timeline g ∈ ops
  \/ exists events e, OpRestore id timeline events ∈ ops /\ e ∈ events
     /\ decode_consent_event e = Ok (Some (Granted g)).

(** The session [k] of authority [id] comes from a grant of the run. *)
Definition session_minted (ops : list ConsentOp) (id : Z) (k : SessionKey) (a : ActiveConsent) : Prop :=
  exists g f, minted ops id (key_timeline k) g /\ grant_key (key_timeline k) g = k
    /\ a = MkActive (with_fence_seq f (grant_token id (key_timeline k) g)) (cg_expiry_secs g).

Lemma minted_more ops op id timeline g : minted ops id timeline g -> minted (ops ++ [op]) id timeline g.
Proof. intros [Hg|(es & e & He & ?)]; [left; set_solver|right; exists es, e; set_solver]. Qed.

Lemma session_minted_more ops op id k a : session_minted ops id k a -> session_minted (ops ++ [op]) id k a.
Proof. intros (g & f & Hm & ?). exists g, f. split; [by apply minted_more|done]. Qed.

Lemma session_minted_fence ops id k a f :
  session_minted ops id k a -> session_minted ops id k (fence_session f a).
Proof. intros (g & f' & Hm & Hk & ->). exists g, f. done. Qed.

Lemma decode_history_granted events decoded g :
  decode_history events = Ok decoded -> Granted g ∈ decoded ->
  exists e, e ∈ events /\ decode_consent_event e = Ok (Some (Granted g)).
Proof.
  revert decoded. induction events as [|e events IH]; intros decoded; simpl.
  - intros [= <-]. set_solver.
  - intros (x & Hx & Hd)%rbind_ok_inv Hg. apply rbind_ok_inv in Hd as (others & Ho & Hd).
    injection Hd as <-. apply elem_of_app in Hg as [Hg|Hg].
    + destruct x; [|set_solver]. apply list_elem_of_singleton in Hg as ->. exists e. set_solver.
    + destruct (IH _ Ho Hg) as (e' & ? & ?). exists e'. set_solver.
Qed.

Lemma run_snoc y ops op : run y (ops ++ [op]) = exec (run y ops) op.
Proof. unfold run. by rewrite fold_left_app. Qed.

Lemma run_minted ops id k a : table (run consent_start ops) id !! k = Some a -> session_minted ops id k a.
Proof.
  revert k a. induction ops as [|op ops IH] using rev_ind; intros k a.
  { unfold table, sessions_of. simpl. rewrite lookup_empty. done. }
  rewrite run_snoc. destruct (exec_table (run consent_start ops) op id) as [->|(f & Hf & ->)].
  { intros Ha. apply session_minted_more. by apply IH. }
  destruct (effect_cases _ _ _ _ (table (run consent_start ops) id) Hf)
    as [Ho|[(tl & g & -> & ->)|(tl & events & -> & ->)]].
  - intros (a0 & f0 & Ha0 & ->)%Ho. apply session_minted_fence, session_minted_more. by apply IH.
  - unfold record_grant. intros [[<- <-]|[_ Ha]]%lookup_insert_Some.
    + exists g, U64_MAX. rewrite grant_key_timeline. split; [left; set_solver|done].
    + apply session_minted_more. by apply IH.
  - destruct (restore_from_history id tl events _) as [s' r] eqn:Hr. cbn [fst].
    destruct (restore_from_history_cases _ _ _ _ _ _ Hr)
      as [[-> _]|(_ & _ & decoded & Hd & Hres)]; intros Ha.
    { apply session_minted_more. by apply IH. }
    destruct (Hres k) as [Ho Hs]. destruct (decide (key_timeline k = tl)) as [<-|Hne].
    + apply (Hs eq_refl) in Ha as (g & post & ((pre & ->) & Hk & _) & ->).
      exists g, (final_fence (key_timeline k) k post). split; [|done]. right.
      destruct (decode_history_granted _ _ g Hd) as (e & He & Hde); [set_solver|].
      exists events, e. set_solver.
    + rewrite (Ho Hne), other_timelines_keep in Ha by done. apply session_minted_more. by apply IH.
Qed.

(** ** Closed sessions stay closed *)

(** The session has no fence above [f], and no unfinished reservation would put
    one back. *)
Definition closed_at (y : ConsentSystem) (id : Z) (k : SessionKey) (f : Z) : Prop :=
  (forall a, table y id !! k = Some a -> session_fence a <= f)
  /\ forall r, r ∈ cs_reservations y -> rr_authority_id r = id -> rr_key r = k ->
       rr_previous_fence_seq r <= f /\ rr_fence_seq r <= f.

(** The steps that open a session again: recording its grant, and restoring its
    Timeline. *)
Definition reopens (id : Z) (k : SessionKey) (op : ConsentOp) : bool :=
  match op with
  | OpGrant i timeline g => (i =? id) && bool_decide (grant_key timeline g = k)
  | OpRestore i timeline _ => (i =? id) && bool_decide (key_timeline k = timeline)
  | _ => false
  end.

Definition bounded (k : SessionKey) (f : Z) (s : ActiveConsentSessions) : Prop :=
  forall a, s !! k = Some a -> session_fence a <= f.

Lemma bounded_insert k f k' a s :
  bounded k f s -> (k' = k -> session_fence a <= f) -> bounded k f (<[k' := a]> s).
Proof. intros Hb Ha a' [[Hk <-]|[_ Hl]]%lookup_insert_Some; [by apply Ha|by apply Hb]. Qed.

Lemma fence_of_session f a : session_fence (fence_session f a) = f.
Proof. done. Qed.

Lemma bounded_sessions k f here g s : bounded k f s -> bounded k f (fence_sessions here g s).
Proof.
  intros Hb a'. unfold fence_sessions. rewrite map_lookup_imap.
  destruct (s !! k) as [a|] eqn:Ha; [|done]. specialize (Hb _ Ha). simpl.
  destruct (here k); intros [= <-]; rewrite ?fence_of_session; lia.
Qed.
Lemma bounded_revocation k f timeline r s : bounded k f s -> bounded k f (record_revocation timeline r s).1.
Proof.
  intros Hb. unfold record_revocation. destruct (s !! _) eqn:Ha; [|done]. apply bounded_insert; [done|].
  intros <-. specialize (Hb _ Ha). rewrite fence_of_session. lia.
Qed.

Lemma bounded_begin k f id timeline r s :
  0 <= f -> bounded k f s -> bounded k f (begin_revocation id timeline r s).1.
Proof.
  intros Hf Hb. unfold begin_revocation. destruct (s !! _) as [a|] eqn:Ha; [|done].
  destruct (Z.leb_spec (session_fence a) (cr_fence_seq r)); [done|]. apply bounded_insert; [done|].
  intros <-. specialize (Hb _ Ha). rewrite fence_of_session. unfold saturating_sub. lia.
Qed.

Lemma bounded_rollback k f r s :
  (rr_key r = k -> rr_previous_fence_seq r <= f) -> bounded k f s -> bounded k f (reservation_rollback r s).
Proof.
  intros Hr Hb. unfold reservation_rollback. destruct (s !! _) eqn:Ha; [|done].
  case_match; [|done]. by apply bounded_insert.
Qed.

Lemma bounded_commit k f r s :
  (rr_key r = k -> rr_previous_fence_seq r <= f /\ rr_fence_seq r <= f) ->
  bounded k f s -> bounded k f (commit_durable r s).1.
Proof.
  intros Hr Hb. unfold commit_durable.
  destruct (s !! _) eqn:Ha; [|apply bounded_rollback; naive_solver].
  case_match; [apply bounded_rollback; naive_solver|]. apply bounded_insert; [done|]. naive_solver.
Qed.

Lemma bounded_restore k f id timeline events s :
  key_timeline k <> timeline -> bounded k f s ->
  bounded k f (restore_from_history id timeline events s).1.
Proof.
  intros Hk Hb. destruct (restore_from_history id timeline events s) as [s' r] eqn:Hr.
  destruct (restore_from_history_cases _ _ _ _ _ _ Hr) as [[-> _]|(_ & _ & decoded & _ & Hres)]; [done|].
  intros a Ha. destruct (Hres k) as [Ho _]. cbn [fst] in Ha.
  rewrite (Ho Hk), other_timelines_keep in Ha by done. by apply Hb.
Qed.

Lemma closed_table y op id k f :
  0 <= f -> closed_at y id k f -> reopens id k op = false -> bounded k f (table (exec y op) id).
Proof.
  intros Hf [Hb Hr] Hop. destruct (exec_table y op id) as [->|(g & Hg & ->)]; [done|].
  assert (Hrsv : forall n r, cs_reservations y !! n = Some r -> rr_authority_id r = id -> rr_key r = k ->
      rr_previous_fence_seq r <= f /\ rr_fence_seq r <= f).
  { intros n r Hn. apply Hr. by eapply list_elem_of_lookup_2. }
  destruct op as [|i tl g0|i tl r|i tl r|i n|i n|n|i tl es|i tl fe|i tl sub fe|i tl sub fe];
    cbn [effect] in Hg; try done.
  all: try (destruct (Z.eqb_spec i id) as [->|]; [|done]; injection Hg as <-).
  - cbn [reopens] in Hop. rewrite Z.eqb_refl in Hop. apply bounded_insert; [done|]. intros Hk.
    by rewrite bool_decide_eq_true_2 in Hop.
  - by apply bounded_revocation.
  - by apply bounded_begin.
  - destruct (cs_reservations y !! n) as [r|] eqn:Hn; [|done]. cbn in Hg.
    destruct (Z.eqb_spec (rr_authority_id r) id) as [Hid|]; [|done].
    case_match; injection Hg as <-; [apply bounded_commit|apply bounded_rollback]; naive_solver.
  - destruct (cs_reservations y !! n) as [r|] eqn:Hn; [|done]. cbn in Hg.
    destruct (Z.eqb_spec (rr_authority_id r) id) as [Hid|]; [|done].
    injection Hg as <-. apply bounded_rollback; naive_solver.
  - destruct (cs_reservations y !! n) as [r|] eqn:Hn; [|done]. cbn in Hg.
    destruct (Z.eqb_spec (rr_authority_id r) id) as [Hid|]; [|done].
    injection Hg as <-. apply bounded_rollback; naive_solver.
  - cbn [reopens] in Hop. rewrite Z.eqb_refl in Hop. apply bounded_restore; [|done]. intros Hk.
    by rewrite bool_decide_eq_true_2 in Hop.
  - by apply bounded_sessions.
  - by apply bounded_sessions.
  - by apply bounded_sessions.
Qed.

Lemma fenced_closed_step y op id k f :
  0 <= f -> closed_at y id k f -> reopens id k op = false -> closed_at (exec y op) id k f.
Proof.
  intros Hf Hc Hop. split; [by apply closed_table|].
  intros r [Hr|(i & tl & rev & -> & Hb)]%exec_reservations Hid Hk; [by apply Hc|].
  unfold begin_revocation in Hb. destruct (table y i !! revocation_key tl rev) as [a|] eqn:Ha; [|done].
  destruct (Z.leb_spec (session_fence a) (cr_fence_seq rev)); [done|]. injection Hb as <-.
  cbn in Hid, Hk |- *. subst i. destruct Hc as [Hc _]. change (revocation_key tl rev = k) in Hk. subst k.
  specialize (Hc _ Ha). lia.
Qed.

Lemma closed_run y ops id k f :
  0 <= f -> closed_at y id k f -> forallb (fun op => negb (reopens id k op)) ops = true ->
  closed_at (run y ops) id k f.
Proof.
  intros Hf. revert y. induction ops as [|op ops IH]; intros y Hc; [done|]. cbn [forallb].
  intros [Ho%negb_true_iff Hops]%andb_prop. apply IH; [|done]. by apply fenced_closed_step.
Qed.

(** A closed session refuses every token at or behind its fence. *)
Lemma closed_refuses y id timeline token f head now :
  closed_at y id (token_key timeline token) f -> f <= head ->
  exists e, validate_with_timeline id timeline token head now (table y id) = Err e.
Proof.
  intros [Hb _] Hh. unfold validate_with_timeline, validate_from_sessions.
  destruct (negb (_ =? _)); [by eauto|]. destruct (negb (bool_decide (ct_timeline_id _ = _))); [by eauto|].
  destruct (table y id !! _) as [a|] eqn:Ha; [|by eauto]. specialize (Hb _ eq_refl). unfold session_fence in Hb.
  unfold is_valid_at. rewrite (proj2 (Z.ltb_ge head _)), andb_false_r by lia. simpl. by eauto.
Qed.

(** ** Theorems *)

(** Only granted sessions validate.  Whatever the run, a token the authority
    accepts was minted by it from a recorded or restored grant with exactly the
    permissions of that grant, is not fenced at the Timeline head, and its grant
    has not expired. *)
Theorem valid_token_was_granted ops id timeline token head now :
  validate_with_timeline id timeline token head now (table (run consent_start ops) id) = Ok tt ->
  exists g, minted ops id timeline g
    /\ token = with_fence_seq (ct_fence_seq token) (grant_token id timeline g)
    /\ head < ct_fence_seq token /\ (cg_expiry_secs g = 0 \/ now < cg_expiry_secs g).
Proof.
  unfold validate_with_timeline, validate_from_sessions. intros Hv.
  destruct (negb (_ =? _)); [done|]. destruct (negb (bool_decide _)); [done|].
  destruct (table _ id !! _) as [a|] eqn:Ha; [|done].
  destruct (bool_decide_reflect (ac_token a = token)) as [Ht|]; [|done]. subst token.
  destruct (is_valid_at (ac_token a) head) eqn:Hh; [|done]. simpl in Hv. apply Z.ltb_lt in Hh.
  apply run_minted in Ha as (g & f & Hm & Hk & Heq). cbn in Hm, Heq. subst a. exists g. cbn in *. split; [done|].
  split; [done|]. split; [done|].
  destruct (Z.eqb_spec (cg_expiry_secs g) 0); [by left|]. right. simpl in Hv.
  destruct (Z.leb_spec (cg_expiry_secs g) now); [done|lia].
Qed.

(** The steps that make a revocation of fence [f] take effect on session [k]:
    recording it, or committing the reservation that holds it. *)
Definition revokes (y : ConsentSystem) (op : ConsentOp) (id : Z) (k : SessionKey) (f : Z) : Prop :=
  match op with
  | OpRevoke i timeline r => i = id /\ revocation_key timeline r = k /\ cr_fence_seq r = f
  | OpCommit i n => i = id /\ exists r, cs_reservations y !! n = Some r /\ rr_key r = k /\ rr_fence_seq r = f
      /\ (commit_revocation i r (cs_host y)).2 = Ok tt
  | _ => False
  end.

Lemma revokes_bounds y op id k f : revokes y op id k f -> bounded k f (table (exec y op) id).
Proof.
  destruct op as [|i tl g0|i tl r|i tl r|i n|i n|n|i tl es|i tl fe|i tl sub fe|i tl sub fe]; try done.
  - intros (-> & <- & <-) a. cbn. unfold table, on_table, on_host, sessions_of, on_sessions. cbn.
    rewrite lookup_alter_eq. destruct (ch_sessions (cs_host y) !! id) as [s|]; [|done]. cbn.
    unfold record_revocation. destruct (s !! revocation_key tl r) eqn:Ha; cbn.
    + rewrite lookup_insert_eq. intros [= <-]. rewrite fence_of_session. lia.
    + by rewrite Ha.
  - intros (-> & r & Hn & <- & <- & Hc) a. cbn. unfold finish. rewrite Hn.
    unfold commit_revocation in *. destruct (negb (rr_authority_id r =? id)); [done|]. cbn in Hc.
    unfold table, sessions_of, on_sessions in *. cbn. rewrite lookup_alter_eq.
    destruct (ch_sessions (cs_host y) !! id) as [s|]; cbn in Hc |- *; [|done].
    unfold commit_durable in *. destruct (s !! rr_key r) eqn:Ha; [|done].
    destruct (negb _); [done|]. cbn. rewrite lookup_insert_eq. by intros [= <-].
Qed.

(** C19: a revocation is final.  Once a revocation is recorded or its reservation
    committed, and no other reservation of the session is unfinished, then after
    any further steps of any authority, unless the same grant is recorded again
    or its Timeline restored, every token of the session is refused at every head
    at or behind the fence, and no append runs under such a token. *)
Theorem revocation_final y op ops id timeline token f head now :
  revokes y op id (token_key timeline token) f -> 0 <= f <= head ->
  (forall r, r ∈ cs_reservations (exec y op) -> rr_authority_id r = id -> rr_key r <> token_key timeline token) ->
  forallb (fun o => negb (reopens id (token_key timeline token) o)) ops = true ->
  let s := table (run (exec y op) ops) id in
  (exists e, validate_with_timeline id timeline token head now s = Err e)
  /\ (exists e, authorize_projection id timeline (ct_subject_id token) head now token s = Err e)
  /\ forall (S : Type) (append : S -> S) st, (with_token_fence id timeline token head now s append st).1 = st.
Proof.
  intros Hrev [Hf Hh] Hres Hops s.
  assert (Hc : closed_at (run (exec y op) ops) id (token_key timeline token) f).
  { apply closed_run; [done| |done]. split; [by eapply revokes_bounds|].
    intros r Hr Hid Hk. by destruct (Hres r Hr Hid). }
  destruct (closed_refuses _ _ _ _ _ head now Hc Hh) as [e He].
  split; [by exists e|]. split.
  - exists e. unfold authorize_projection. by rewrite bool_decide_eq_true_2.
  - intros S append st. unfold with_token_fence. unfold validate_with_timeline in He.
    destruct (negb (_ =? _)); [done|]. destruct (negb (bool_decide _)); [done|]. simpl.
    fold s in He. by rewrite He.
Qed.

(** C20: a restored authority decides from the history alone.  A restore that is
    refused changes nothing.  One that succeeds keeps the sessions of every other
    Timeline, and afterwards a token validates on the Timeline exactly if it is
    that of a grant of the history no later grant of the same session replaced,
    fenced at the earliest of the revocations behind it, the head is before the
    fence and the grant has not expired. *)
Theorem restore_exact id timeline events s s' r :
  restore_from_history id timeline events s = (s', r) ->
  match r with
  | Err _ => s' = s
  | Ok _ =>
      (forall k, key_timeline k <> timeline -> s' !! k = s !! k)
      /\ exists decoded, decode_history events = Ok decoded
      /\ forall token head now, validate_with_timeline id timeline token head now s' = Ok tt
         <-> exists g post, granted_last timeline decoded (grant_key timeline g) g post
             /\ token = with_fence_seq (final_fence timeline (grant_key timeline g) post)
                          (grant_token id timeline g)
             /\ head < ct_fence_seq token /\ (cg_expiry_secs g = 0 \/ now < cg_expiry_secs g)
  end.
Proof.
  intros [[-> [e ->]]|(-> & _ & decoded & Hd & Hres)]%restore_from_history_cases; [done|].
  split.
  { intros k Hk. destruct (Hres k) as [Ho _]. rewrite Ho by done. by apply other_timelines_keep. }
  exists decoded. split; [done|]. intros token head now.
  unfold validate_with_timeline, validate_from_sessions. split.
  - destruct (negb (_ =? _)); [done|]. destruct (negb (bool_decide _)); [done|].
    destruct (s' !! token_key timeline token) as [a|] eqn:Ha; [|done].
    apply Hres in Ha as (g & post & Hg & ->); [|done]. cbn.
    assert (Hk : grant_key timeline g = token_key timeline token) by apply Hg. rewrite <- Hk in *.
    destruct (bool_decide_reflect
      (with_fence_seq (final_fence timeline (grant_key timeline g) post) (grant_token id timeline g) = token))
      as [<-|]; [|done].
    unfold is_valid_at. cbn. destruct (Z.ltb_spec head (final_fence timeline (grant_key timeline g) post)); [|done].
    cbn. intros He. exists g, post. split; [done|]. split; [done|]. split; [done|].
    destruct (Z.eqb_spec (cg_expiry_secs g) 0); [by left|]. right. simpl in He.
    destruct (Z.leb_spec (cg_expiry_secs g) now); [done|lia].
  - intros (g & post & Hg & -> & Hh & He). cbn in Hh |- *. rewrite Z.eqb_refl, bool_decide_eq_true_2 by done.
    cbn. change (token_key timeline _) with (grant_key timeline g).
    assert (Ha : s' !! grant_key timeline g = Some (history_session id timeline (grant_key timeline g) g post))
      by (apply Hres; [done|]; eauto).
    rewrite Ha. cbn. rewrite bool_decide_eq_true_2 by done. unfold is_valid_at. cbn.
    rewrite (proj2 (Z.ltb_lt _ _)) by done. cbn.
    destruct He as [->|He]; [done|]. rewrite (proj2 (Z.leb_gt _ _)) by done. by rewrite andb_false_r.
Qed.

(** ** The search of the gate *)

Lemma order_lookup (order : list (SessionKey * ActiveConsent)) (s : ActiveConsentSessions) k a :
  order ≡ₚ map_to_list s -> (k, a) ∈ order <-> s !! k = Some a.
Proof. intros ->. apply elem_of_map_to_list. Qed.

Lemma minted_token ops id k a :
  table (run consent_start ops) id !! k = Some a ->
  ct_authority_id (ac_token a) = id /\ ct_timeline_id (ac_token a) = key_timeline k
  /\ ct_subject_id (ac_token a) = key_subject k /\ token_key (key_timeline k) (ac_token a) = k.
Proof. intros (g & f & _ & Hk & ->)%run_minted. cbn. split; [done|]. split; [done|]. by rewrite <- Hk. Qed.

Lemma session_validates (s : ActiveConsentSessions) (k : SessionKey) a head now :
  s !! k = Some a -> is_valid_at (ac_token a) head = true ->
  negb (ac_expiry_secs a =? 0) && (ac_expiry_secs a <=? now) = false ->
  validate_from_sessions s k (ac_token a) head now = Ok tt.
Proof.
  intros Ha Hh He. unfold validate_from_sessions. rewrite Ha, bool_decide_eq_true_2, Hh by done. simpl. by rewrite He.
Qed.

(** What the gate returns for a subject.  However the session map iterates, a
    returned token is one of the subject's sessions on the Timeline, validates
    there at the same head and time and covers the event family; and the gate
    answers [NoConsent] exactly if every session of the subject is fenced at the
    head. *)
Theorem check_consent_sound ops id order timeline subject event_type head now :
  let s := table (run consent_start ops) id in
  order ≡ₚ map_to_list s ->
  (forall token, check_consent order timeline subject event_type head now = Ok token ->
     validate_with_timeline id timeline token head now s = Ok tt
     /\ authorize_event_type token event_type = Ok tt /\ ct_subject_id token = subject)
  /\ (is_consent_event_type event_type = false ->
      check_consent order timeline subject event_type head now = Err ConsentDenial.NoConsent
      <-> forall k a, s !! k = Some a -> key_timeline k = timeline -> key_subject k = subject ->
          session_fence a <= head).
Proof.
  intros s Ho. unfold check_consent. split.
  - intros token. destruct (is_consent_event_type event_type); [done|].
    destruct (List.find _ order) as [[k a]|] eqn:Hf; [|done]. cbn [snd].
    apply List.find_some in Hf as [Hin Hp]. apply list_elem_of_In, (order_lookup _ s _ _ Ho) in Hin.
    apply andb_prop in Hp as [Hp Hh]. apply andb_prop in Hp as [Ht%bool_decide_eq_true Hsub%bool_decide_eq_true].
    cbn [snd] in *. destruct (minted_token _ _ _ _ Hin) as (Hid & Hkt & Hks & Hk).
    destruct (negb (ac_expiry_secs a =? 0) && (ac_expiry_secs a <=? now)) eqn:He; [done|].
    destruct ((required_modality_for_event event_type =? MODALITY_EXPORT) && _) eqn:Hx; [done|].
    destruct (starts_with (lit "timeline.fork.") event_type && _) eqn:Hfk; [done|].
    destruct (starts_with (lit "retention.") event_type && _) eqn:Hrt; [done|].
    destruct (negb (required_modality_for_event event_type =? 0) && _) eqn:Hm; [done|].
    intros [= <-]. split; [|split; [|done]].
    + unfold validate_with_timeline. rewrite Hid, Z.eqb_refl, bool_decide_eq_true_2 by done. cbn [negb].
      assert (Hkk : token_key timeline (ac_token a) = k) by by rewrite <- Ht, Hkt.
      rewrite Hkk. by apply session_validates.
    + unfold authorize_event_type. by rewrite Hm, Hx, Hfk, Hrt.
  - intros ->. destruct (List.find _ order) as [[k a]|] eqn:Hf.
    + apply List.find_some in Hf as [Hin Hp]. apply list_elem_of_In, (order_lookup _ s _ _ Ho) in Hin.
      apply andb_prop in Hp as [Hp Hh%Z.ltb_lt].
      apply andb_prop in Hp as [Ht%bool_decide_eq_true Hsub%bool_decide_eq_true]. cbn [snd] in *.
      destruct (minted_token _ _ _ _ Hin) as (_ & Hkt & Hks & _).
      split; [repeat case_match; done|]. intros Hall.
      assert (session_fence a <= head) by (eapply Hall; [done|congruence..]). unfold session_fence in *. lia.
    + split; [|done]. intros _ k a Ha Hkt Hks.
      destruct (minted_token _ _ _ _ Ha) as (_ & Hct & Hcs & _).
      assert (Hin : In (k, a) order) by (apply list_elem_of_In; by apply (order_lookup _ s)).
      pose proof (List.find_none _ _ Hf _ Hin) as Hn. cbn [snd] in Hn.
      rewrite !bool_decide_eq_true_2 in Hn by congruence. cbn in Hn. by apply Z.ltb_ge in Hn.
Qed.

(** ** Aborted reservations *)

(** The highest fence the step leaves to session [k] of authority [id], if it closes
    it: a direct revocation keeps the heads below its fence, a closure those below
    the position before its fence. *)
Definition closes (op : ConsentOp) (id : Z) (k : SessionKey) : option Z :=
  match op with
  | OpRevoke i timeline r =>
      if (i =? id) && bool_decide (revocation_key timeline r = k) then Some (cr_fence_seq r) else None
  | OpFenceTimeline i timeline fence =>
      if (i =? id) && bool_decide (key_timeline k = timeline) then Some (saturating_sub fence 1) else None
  | OpFenceSubject i timeline subject fence =>
      if (i =? id) && (bool_decide (key_timeline k = timeline) && bool_decide (key_subject k = subject))
      then Some (saturating_sub fence 1) else None
  | OpRevocationFence i timeline subject fence =>
      if (i =? id) && (bool_decide (key_timeline k = timeline)
           && match subject with Some x => bool_decide (key_subject k = x) | None => true end)
      then Some (saturating_sub fence 1) else None
  | _ => None
  end.

Lemma table_on y id f k a :
  table y id !! k = Some a -> table (on_table id f y) id = f (table y id).
Proof.
  unfold table, sessions_of, on_table, on_host, on_sessions. cbn. rewrite lookup_alter_eq.
  by destruct (ch_sessions (cs_host y) !! id).
Qed.

Lemma fenced_lookup here fence s k a :
  s !! k = Some a -> here k = true ->
  fence_sessions here fence s !! k = Some (fence_session (Z.min (session_fence a) (saturating_sub fence 1)) a).
Proof. intros Ha Hh. unfold fence_sessions. by rewrite map_lookup_imap, Ha; cbn; rewrite Hh. Qed.

Lemma closes_session y op id k a f :
  closes op id k = Some f -> table y id !! k = Some a ->
  table (exec y op) id !! k = Some (fence_session (Z.min (session_fence a) f) a)
  /\ cs_reservations (exec y op) = cs_reservations y.
Proof.
  intros Hc Ha. destruct op as [|i tl g0|i tl r|i tl r|i n|i n|n|i tl es|i tl fe|i tl sub fe|i tl sub fe]; try done;
    cbn [closes] in Hc; destruct (Z.eqb_spec i id) as [->|]; try done; cbn [andb] in Hc;
    (match type of Hc with (if ?b then _ else _) = _ => destruct b eqn:Hb; [injection Hc as <-|done] end);
    cbn [exec]; rewrite (table_on _ _ _ _ _ Ha); (split; [|done]).
  2-4: by apply fenced_lookup.
  apply bool_decide_eq_true in Hb as <-. unfold record_revocation. rewrite Ha. cbn. by rewrite lookup_insert_eq.
Qed.

Lemma rollback_lookup r s a :
  s !! rr_key r = Some a -> session_fence a = rr_pending_fence_seq r ->
  reservation_rollback r s !! rr_key r = Some (fence_session (rr_previous_fence_seq r) a).
Proof. intros Ha Hf. unfold reservation_rollback. by rewrite Ha, Hf, Z.eqb_refl, lookup_insert_eq. Qed.

(** C39: aborting a reservation undoes a closure published meanwhile.  While a
    reservation of a session is unfinished, let the session be closed, by a direct
    revocation or by a closure of its Timeline or subject, at any fence from that of
    the reservation on.  When the reservation is then aborted, the session is again
    exactly what it was before, so each of its tokens validates as before at every
    head and time; the same closure without the reservation refuses every token of
    the session at every head from its fence on. *)
Theorem abort_reopens_closed_session y op id timeline r rsv f :
  (begin_revocation id timeline r (table y id)).2 = Ok rsv ->
  closes op id (revocation_key timeline r) = Some f -> rr_pending_fence_seq rsv <= f ->
  let k := revocation_key timeline r in
  let closed := exec (exec y (OpBegin id timeline r)) op in
  let aborted := exec closed (OpAbort id (length (cs_reservations y))) in
  table aborted id !! k = table y id !! k
  /\ (forall token head now, token_key timeline token = k ->
       validate_with_timeline id timeline token head now (table aborted id)
       = validate_with_timeline id timeline token head now (table y id))
  /\ forall token head now, token_key timeline token = k -> f <= head ->
       exists e, validate_with_timeline id timeline token head now (table (exec y op) id) = Err e.
Proof.
  intros Hb Hc Hf k closed aborted. pose proof Hb as Hbegin. unfold begin_revocation in Hb. fold k in Hb, Hc.
  destruct (table y id !! k) as [a|] eqn:Ha; [|done].
  destruct (session_fence a <=? cr_fence_seq r) eqn:Hlt; [done|]. cbn in Hb. injection Hb as <-. cbn in Hf.
  set (pend := saturating_sub (cr_fence_seq r) 1) in *.
  assert (Hpend : table (exec y (OpBegin id timeline r)) id !! k = Some (fence_session pend a)
    /\ cs_reservations (exec y (OpBegin id timeline r)) !! length (cs_reservations y)
       = Some (MkConsentReservation id timeline (cr_subject_id r) (cr_grantee_id r) (cr_grant_seq r)
                 (session_fence a) pend (cr_fence_seq r))).
  { cbn [exec]. unfold push_reservation. fold (table y id). rewrite Hbegin.
    cbn [cs_reservations]. split; [|by apply list_lookup_middle].
    pose proof (table_on y id (fun s => (begin_revocation id timeline r s).1) k a Ha) as Ht. unfold table in *. cbn in Ht |- *.
    rewrite Ht. unfold begin_revocation. fold k. rewrite Ha, Hlt. cbn. by rewrite lookup_insert_eq. }
  destruct Hpend as [Hpend Hrsv]. destruct (closes_session _ _ _ _ _ _ Hc Hpend) as [Hclosed Hres].
  fold closed in Hclosed, Hres. rewrite <- Hres in Hrsv.
  assert (Hsame : table aborted id !! k = Some a).
  { unfold aborted. cbn [exec]. unfold finish. rewrite Hrsv.
    change (table (on_table id (reservation_rollback (MkConsentReservation id timeline (cr_subject_id r)
      (cr_grantee_id r) (cr_grant_seq r) (session_fence a) pend (cr_fence_seq r))) closed) id !! k = Some a).
    rewrite (table_on _ _ _ _ _ Hclosed). etransitivity; [apply rollback_lookup; [exact Hclosed|]|].
    - rewrite !fence_of_session. by apply Z.min_l.
    - f_equal. by destruct a as [[] ?]. }
  split; [done|]. split.
  - intros token head now Hk. unfold validate_with_timeline, validate_from_sessions. by rewrite Hk, Hsame, Ha.
  - intros token head now Hk Hh. destruct (closes_session _ _ _ _ _ _ Hc Ha) as [Hx _].
    unfold validate_with_timeline, validate_from_sessions. rewrite Hk, Hx.
    destruct (negb (_ =? _)); [by eauto|]. destruct (negb (bool_decide (ct_timeline_id _ = _))); [by eauto|].
    unfold is_valid_at. cbn. rewrite (proj2 (Z.ltb_ge head _)), andb_false_r by lia. cbn. by eauto.
Qed.
End Properties.

(** ** A sample host *)

Module ConsentSample.
Import ConsentCbor.

Definition session_line : TimelineId := @Checked _ (has_len 16) (replicate 16 xaa) I.
Definition granting_subject : EntityId := sample_id x11.
Definition grantee : EntityId := sample_id x22.
Definition grant_at (seq expiry : Z) : ConsentGrantedV1 :=
  MkGranted granting_subject grantee (lit "study") 1 1 false false 0 expiry seq.
Definition revocation_at (grant_seq fence : Z) : ConsentRevokedV1 := MkRevoked granting_subject grantee grant_seq fence.
Definition token_at (seq : Z) : ConsentCapabilityToken := grant_token 1 session_line (grant_at seq 0).

Definition granted : list ConsentOp := [OpNew; OpGrant 1 session_line (grant_at 1 0)].

Lemma valid_token_was_granted_witness :
  validate_with_timeline 1 session_line (token_at 1) 7 100 (table (run consent_start granted) 1) = Ok tt
  /\ exists g, minted granted 1 session_line g /\ cg_grant_seq g = 1.
Proof.
  assert (Hv : validate_with_timeline 1 session_line (token_at 1) 7 100 (table (run consent_start granted) 1) = Ok tt)
    by (vm_compute; reflexivity).
  split; [exact Hv|].
  destruct (valid_token_was_granted granted 1 session_line (token_at 1) 7 100 Hv) as (g & Hm & Ht & _).
  exists g. split; [exact Hm|]. apply (f_equal ct_grant_seq) in Ht. symmetry. exact Ht.
Defined.

Lemma revocation_final_witness :
  exists e, validate_with_timeline 1 session_line (token_at 1) 9 100
    (table (run (exec (run consent_start granted) (OpRevoke 1 session_line (revocation_at 1 9))) [OpNew]) 1) = Err e.
Proof.
  apply (revocation_final (run consent_start granted) (OpRevoke 1 session_line (revocation_at 1 9)) [OpNew]
    1 session_line (token_at 1) 9 9 100).
  - split; [reflexivity|]. split; vm_compute; reflexivity.
  - lia.
  - intros r Hr. exfalso. revert Hr. replace (cs_reservations _) with (@nil ConsentRevocationReservation)
      by (vm_compute; reflexivity). apply not_elem_of_nil.
  - vm_compute. reflexivity.
Defined.

(** A history with a grant and its revocation. *)
Definition consent_event (seq : Z) (event_type : RString) (payload : Codec (list byte)) : Event :=
  MkEvent (sample_id x01) granting_subject event_type (match payload with Ok bs => bs | Err _ => [] end)
    0 seq None None None None None hash_zero.
Definition consent_history : list Event :=
  [consent_event 1 EVENT_TYPE_CONSENT_GRANTED_V1 (grant_encode (grant_at 1 0));
   consent_event 2 (lit "persona.note") (Ok []);
   consent_event 9 EVENT_TYPE_CONSENT_REVOKED_V1 (consent_revocation_encode (revocation_at 1 9))].

Definition restored_sessions : ActiveConsentSessions := (restore_from_history 1 session_line consent_history ∅).1.

Lemma restore_exact_witness :
  validate_with_timeline 1 session_line (with_fence_seq 9 (token_at 1)) 8 100 restored_sessions = Ok tt.
Proof.
  assert (Hr : (restore_from_history 1 session_line consent_history ∅).2 = Ok tt) by (vm_compute; reflexivity).
  assert (Hdec : decode_history consent_history = Ok [Granted (grant_at 1 0); RevokedBy (revocation_at 1 9)])
    by (vm_compute; reflexivity).
  pose proof (restore_exact 1 session_line consent_history ∅ _ _ (surjective_pairing _)) as He. rewrite Hr in He.
  destruct He as (_ & decoded & Hd & Hv).
  rewrite Hdec in Hd. injection Hd as <-.
  apply Hv. exists (grant_at 1 0), [RevokedBy (revocation_at 1 9)].
  split; [|split; [vm_compute; reflexivity|split; [vm_compute; reflexivity|by left]]].
  split; [by exists []|]. split; [reflexivity|].
  intros g Hg%list_elem_of_singleton. discriminate Hg.
Defined.

Lemma check_consent_sound_witness :
  authorize_event_type (token_at 1) (lit "geo.cell") = Ok tt.
Proof.
  apply (proj1 (check_consent_sound granted 1 (map_to_list (table (run consent_start granted) 1)) session_line granting_subject
    (lit "geo.cell") 5 100 (Permutation_refl _)) (token_at 1)).
  vm_compute. reflexivity.
Defined.

Lemma abort_reopens_closed_session_witness : exists e,
  let pending := exec (run consent_start granted) (OpBegin 1 session_line (revocation_at 1 10)) in
  let aborted := exec (exec pending (OpFenceTimeline 1 session_line 10)) (OpAbort 1 0) in
  validate_with_timeline 1 session_line (token_at 1) 10 100
    (table (exec (run consent_start granted) (OpFenceTimeline 1 session_line 10)) 1) = Err e
  /\ validate_with_timeline 1 session_line (token_at 1) 10 100 (table aborted 1) = Ok tt.
Proof.
  destruct (begin_revocation 1 session_line (revocation_at 1 10) (table (run consent_start granted) 1)).2
    as [rsv|] eqn:Hb; [|vm_compute in Hb; discriminate].
  assert (Hp : rr_pending_fence_seq rsv <= 9) by (vm_compute in Hb; injection Hb as <-; vm_compute; discriminate).
  destruct (abort_reopens_closed_session (run consent_start granted) (OpFenceTimeline 1 session_line 10) 1 session_line
    (revocation_at 1 10) rsv 9 Hb ltac:(vm_compute; reflexivity) Hp) as (_ & Hsame & Hclosed).
  destruct (Hclosed (token_at 1) 10 100 eq_refl ltac:(lia)) as [e He]. exists e. split; [exact He|].
  etransitivity; [exact (Hsame (token_at 1) 10 100 eq_refl)|]. vm_compute. reflexivity.
Defined.

(** A subject whose first grant was revoked and who granted again. *)
Definition regranted : ConsentSystem :=
  run consent_start (granted ++ [OpRevoke 1 session_line (revocation_at 1 5); OpGrant 1 session_line (grant_at 6 0)]).
(** A subject with an expired and a current grant. *)
Definition expired_and_current : ConsentSystem :=
  run consent_start [OpNew; OpGrant 1 session_line (grant_at 1 50); OpGrant 1 session_line (grant_at 6 0)].

(** The session the searches pick depends on how the session map iterates.
    With one revoked and one current grant the location check succeeds or reports
    [Revoked], and with one expired and one current grant the gate returns the
    current token or reports [Expired], for two iteration orders of one map. *)
Theorem session_choice_depends_on_order :
  (exists o1 o2, o1 ≡ₚ map_to_list (table regranted 1) /\ o2 ≡ₚ map_to_list (table regranted 1)
    /\ validate_location_subject_in_sessions o1 (table regranted 1) session_line granting_subject 7 100 = Ok tt
    /\ validate_location_subject_in_sessions o2 (table regranted 1) session_line granting_subject 7 100
        = Err ConsentDenial.Revoked)
  /\ exists o1 o2, o1 ≡ₚ map_to_list (table expired_and_current 1)
    /\ o2 ≡ₚ map_to_list (table expired_and_current 1)
    /\ check_consent o1 session_line granting_subject (lit "geo.cell") 7 100 = Ok (token_at 6)
    /\ check_consent o2 session_line granting_subject (lit "geo.cell") 7 100 = Err ConsentDenial.Expired.
Proof.
  assert (Hrev : forall l : list (SessionKey * ActiveConsent), rev l ≡ₚ l)
    by (intros l; symmetry; apply Permutation_rev).
  split.
  - exists (rev (map_to_list (table regranted 1))), (map_to_list (table regranted 1)).
    split; [apply Hrev|]. split; [done|]. split; vm_compute; reflexivity.
  - exists (rev (map_to_list (table expired_and_current 1))), (map_to_list (table expired_and_current 1)).
    split; [apply Hrev|]. split; [done|]. split; vm_compute; reflexivity.
Qed.
End ConsentSample.
