(* ===== verification/Projection.v ===== *)
(** * State projection

    [crates/pos-core/src/state.rs], [staged_install.rs] and [fork_ancestry.rs],
    and the registry of [crates/pos-state/src/lib.rs]: reducers folded over the
    Events of one Timeline into per-entity State, released only under the
    erasure gate.

    A gate is shared by reference: [Gates] is the current state of the gates of
    the host, and an operation looks the gate of its registry up there.  A
    reducer is a pure fold step.  JSON values are the [serde_json] crate: [Json]
    is what the code uses of it. *)

From Stdlib Require Import String ZArith Lia Bool.
From S2P Require Import Prelude Text Cbor FallbackRecords ErasureGate Events EventStore.
From S2P Require Import StrictCbor PluginTrust WireSyntax TrustPolicy TrustBridge Consent.

Local Open Scope Z_scope.

Definition PluginId : Type := Ulid.

Module AuthorityError.
Inductive AuthorityErrorV1 :=
| InvalidEncoding | UnsupportedVersion | FieldOutOfBounds | UnknownEnum | PolicyIndeterminate
| DigestMismatch | NonCanonicalOrder | DuplicateIdentity | PrincipalUnresolved | ConsentMissing
| CapabilityMissing | DelegationInvalid | RevokedAtFence | RevocationStateStale | SourceUnavailable
| UnauthorizedSource | ProvenanceMissing | BudgetExceeded | NonInterferenceDivergence.
End AuthorityError.

(** ** JSON values and State *)

Class Json := {
  json : Type;
  json_eq_dec :: EqDecision json;
  json_number : Z -> json;
  json_string : RString -> json;
  json_as_u64 : json -> option Z;
  (** [Value::to_string] *)
  json_text : json -> list byte;
}.

Section State.
Context `{Json}.

Record State := MkState { fields : gmap RString json }.

#[export] Instance state_eq_dec : EqDecision State.
Proof. solve_decision. Defined.

Definition state_new : State := MkState ∅.
Definition state_set (key : RString) (value : json) (s : State) : State := MkState (<[key := value]> (fields s)).
Definition state_get (key : RString) (s : State) : option json := fields s !! key.

(** ** Reducers and the State of one of them *)

Record Reducer := MkReducer {
  initial : State;
  projects_event : Event -> bool;
  reduce : State -> Event -> State;
}.

Record StateRegistry := MkStateRegistry { states : gmap EntityId State }.

#[export] Instance state_registry_eq_dec : EqDecision StateRegistry.
Proof. solve_decision. Defined.

Definition registry_empty : StateRegistry := MkStateRegistry ∅.
Definition registry_get (id : EntityId) (r : StateRegistry) : option State := states r !! id.
Definition get_or_default (id : EntityId) (r : StateRegistry) : State := default state_new (states r !! id).
Definition registry_len (r : StateRegistry) : Z := Z.of_nat (size (states r)).

(** The registry, and the [initial] State shown to the observer when the Event
    creates its entity. *)
Definition apply_reducer_event (reducer : Reducer) (event : Event) (r : StateRegistry)
    : StateRegistry * option State :=
  if negb (projects_event reducer event) then (r, None) else
  let created := match states r !! ev_entity event with
    | Some _ => None
    | None => Some (initial reducer)
    end in
  let state := default (initial reducer) (states r !! ev_entity event) in
  (MkStateRegistry (<[ev_entity event := reduce reducer state event]> (states r)), created).

Definition apply_observing_initial (reducer : Reducer) (event : Event) (r : StateRegistry)
    : StateRegistry * option State :=
  if is_geographic_event_type (ev_event_type event) || is_consent_event_type (ev_event_type event)
  then (r, None) else apply_reducer_event reducer event r.

Definition registry_apply (reducer : Reducer) (event : Event) (r : StateRegistry) : StateRegistry :=
  (apply_observing_initial reducer event r).1.

Definition registry_remove (id : EntityId) (r : StateRegistry) : StateRegistry :=
  MkStateRegistry (delete id (states r)).

Definition retain_only (id : EntityId) (r : StateRegistry) : StateRegistry :=
  MkStateRegistry (filter (fun entry => entry.1 = id) (states r)).

(** [EntityStateProjection]; [count + 1] on a [u64]. *)
Definition entity_state_apply (s : State) (event : Event) : State :=
  let count := default 0 (state_get (lit "event_count") s ≫= json_as_u64) in
  let s' := state_set (lit "event_count") (json_number (u64_wrap (count + 1))) s in
  state_set (lit "last_event_type") (json_string (ev_event_type event)) s'.

Definition EntityStateProjection : Reducer := MkReducer state_new (fun _ => true) entity_state_apply.

(** ** Sources *)

Inductive ProjectionSourceV1 :=
| Unbound
| Bound (timeline : TimelineId) (generation : option ErasureReferenceV1)
| Mixed.

Definition source_timeline (s : ProjectionSourceV1) : option TimelineId :=
  match s with Bound timeline _ => Some timeline | Unbound | Mixed => None end.
Definition source_generation (s : ProjectionSourceV1) : option ErasureReferenceV1 :=
  match s with Bound _ generation => generation | Unbound | Mixed => None end.
Definition is_mixed (s : ProjectionSourceV1) : bool :=
  match s with Mixed => true | _ => false end.

(** ** Fork ancestry *)

Definition is_root (meta : TimelineMeta) : bool :=
  match meta_fork_point meta with None => true | Some _ => false end.

(** [windows(2).all(..)]: every member's parent is the next one. *)
Fixpoint contiguous (ancestry : list TimelineMeta) : bool :=
  match ancestry with
  | child :: (parent :: _) as rest =>
      bool_decide (fst <$> meta_fork_point child = Some (meta_id parent)) && contiguous rest
  | _ => true
  end.

Definition validate_fork_ancestry (timeline : TimelineId) (ancestry : list TimelineMeta)
    : Containment unit :=
  let starts_at_timeline := match ancestry with first :: _ => bool_decide (meta_id first = timeline) | [] => false end in
  let ends_at_root := match last ancestry with Some meta => is_root meta | None => false end in
  if starts_at_timeline && contiguous ancestry && ends_at_root then Ok tt else Err RecoveryUnavailable.

Definition with_fork_ancestry_fence {S : Type} (gate : ErasureContainmentGateV1) (timeline : TimelineId)
    (ancestry : list TimelineMeta) (operation : ErasureProtectedOperationV1) (effect : S -> S) (s : S)
    : S * Containment unit :=
  match validate_fork_ancestry timeline ancestry with
  | Err e => (s, Err e)
  | Ok _ =>
      let '(s', decision, fence) := with_fence gate timeline operation (fun s =>
        match authorize_fork_scopes gate (meta_id <$> ancestry) operation with
        | Ok _ => (effect s, Ok tt)
        | Err e => (s, Err e)
        end) s in
      (s', let? _ := fence in default (Err RecoveryUnavailable) decision)
  end.

(** ** Observation policies *)

Definition Authority (A : Type) : Type := result AuthorityError.AuthorityErrorV1 A.

Definition MAX_AUTHORITY_TEXT_BYTES : Z := 128.
Definition MAX_OBSERVATION_SNAPSHOT_RECORDS : Z := 4096.

Record ProjectionObservationPolicyV1 := MkPolicy {
  op_permitted_fields : list RString;
  op_schema : RString;
  op_visibility_policy_revision : Hash;
  op_schema_revision : Hash;
  op_minimization_revision : Hash;
  op_digest : Hash;
}.

#[export] Instance observation_policy_eq_dec : EqDecision ProjectionObservationPolicyV1.
Proof. solve_decision. Defined.

Definition invalid_text (s : RString) : bool := is_empty s || (MAX_AUTHORITY_TEXT_BYTES <? str_len s).

Definition validate_observation_policy_fields (permitted_fields : list RString) (schema : RString)
    : Authority unit :=
  if invalid_text schema || (len permitted_fields =? 0)
     || (MAX_OBSERVATION_SNAPSHOT_RECORDS <? len permitted_fields) || existsb invalid_text permitted_fields
  then Err AuthorityError.FieldOutOfBounds
  else if negb (windows_sorted str_lt permitted_fields) then Err AuthorityError.NonCanonicalOrder else Ok tt.

Section Digests.
Context `{Blake3}.

Definition digest_text (value : RString) : list byte := hash_bytes (blake3 (as_bytes value)).

Definition observation_policy_digest (permitted_fields : list RString) (schema : RString)
    (visibility schema_revision minimization : Hash) : Hash :=
  blake3 (list_byte_of_string "PiglorOS.ProjectionObservationPolicy.v1" ++ [x00] ++ digest_text schema
    ++ mjoin (digest_text <$> permitted_fields) ++ hash_bytes visibility ++ hash_bytes schema_revision
    ++ hash_bytes minimization).

Definition policy_try_new (permitted_fields : list RString) (schema : RString)
    (visibility schema_revision minimization : Hash) : Authority ProjectionObservationPolicyV1 :=
  let? _ := validate_observation_policy_fields permitted_fields schema in
  if existsb (fun h => bool_decide (h = hash_zero)) [visibility; schema_revision; minimization]
  then Err AuthorityError.ProvenanceMissing
  else Ok (MkPolicy permitted_fields schema visibility schema_revision minimization
             (observation_policy_digest permitted_fields schema visibility schema_revision minimization)).
End Digests.

(** ** The registry *)

Record Slot := MkSlot {
  slot_plugin_id : option PluginId;
  slot_reducer : Reducer;
  slot_registry : StateRegistry;
  slot_policy : option ProjectionObservationPolicyV1;
}.

Definition with_registry (r : StateRegistry) (s : Slot) : Slot :=
  MkSlot (slot_plugin_id s) (slot_reducer s) r (slot_policy s).

(** The gate the constructor makes, which nobody else holds, or one of the host. *)
Inductive GateHandle := OwnFailClosed | HostGate (n : nat).
Definition Gates : Type := nat -> ErasureContainmentGateV1.
Definition gate_at (gates : Gates) (h : GateHandle) : ErasureContainmentGateV1 :=
  match h with OwnFailClosed => gate_new_fail_closed | HostGate n => gates n end.

Record ProjectionRegistry := MkProjections {
  slots : list (RString * Slot);
  erasure_gate : option GateHandle;
  erasure_gate_bound : bool;
  source : ProjectionSourceV1;
  source_ancestry : option (TimelineId * list TimelineId);
}.

Definition projections_new : ProjectionRegistry := MkProjections [] (Some OwnFailClosed) false Unbound None.

Definition with_slots (l : list (RString * Slot)) (p : ProjectionRegistry) : ProjectionRegistry :=
  MkProjections l (erasure_gate p) (erasure_gate_bound p) (source p) (source_ancestry p).
Definition with_source (s : ProjectionSourceV1) (p : ProjectionRegistry) : ProjectionRegistry :=
  MkProjections (slots p) (erasure_gate p) (erasure_gate_bound p) s (source_ancestry p).
Definition with_ancestry (a : option (TimelineId * list TimelineId)) (p : ProjectionRegistry)
    : ProjectionRegistry :=
  MkProjections (slots p) (erasure_gate p) (erasure_gate_bound p) (source p) a.
(** Every slot's State changed by [f]. *)
Definition map_registries (f : Slot -> StateRegistry) (p : ProjectionRegistry) : ProjectionRegistry :=
  with_slots ((fun entry => (entry.1, with_registry (f entry.2) entry.2)) <$> slots p) p.

Definition bind_erasure_gate (g : GateHandle) (p : ProjectionRegistry) : ProjectionRegistry :=
  if erasure_gate_bound p then p
  else MkProjections (slots p) (Some g) true (source p) (source_ancestry p).

Definition without_erasure_gate (p : ProjectionRegistry) : ProjectionRegistry :=
  MkProjections (slots p) None (erasure_gate_bound p) (source p) (source_ancestry p).

(** *** Registration *)

Definition named (name : RString) (entry : RString * Slot) : bool := bool_decide (entry.1 = name).
Definition owned_by (plugin_id : PluginId) (entry : RString * Slot) : bool :=
  bool_decide (slot_plugin_id entry.2 = Some plugin_id).

Definition register_with_policy (name : RString) (reducer : Reducer)
    (policy : option ProjectionObservationPolicyV1) (p : ProjectionRegistry) : ProjectionRegistry :=
  with_slots (List.filter (fun entry => negb (named name entry)
      || match slot_plugin_id entry.2 with Some _ => true | None => false end) (slots p)
    ++ [(name, MkSlot None reducer registry_empty policy)]) p.

Definition register (name : RString) (reducer : Reducer) : ProjectionRegistry -> ProjectionRegistry :=
  register_with_policy name reducer None.

Definition register_observable (name : RString) (reducer : Reducer)
    (policy : ProjectionObservationPolicyV1) (p : ProjectionRegistry) : ProjectionRegistry * Authority unit :=
  if invalid_text name then (p, Err AuthorityError.FieldOutOfBounds)
  else (register_with_policy name reducer (Some policy) p, Ok tt).

Inductive ProjectionSlotErrorV1 := InvalidName | DuplicatePluginId (plugin_id : PluginId).

Definition register_installed_reducer_with_policy (plugin_id : PluginId) (name : RString) (reducer : Reducer)
    (policy : option ProjectionObservationPolicyV1) (p : ProjectionRegistry)
    : ProjectionRegistry * result ProjectionSlotErrorV1 unit :=
  if invalid_text name then (p, Err InvalidName)
  else if existsb (owned_by plugin_id) (slots p) then (p, Err (DuplicatePluginId plugin_id))
  else (with_slots (slots p ++ [(name, MkSlot (Some plugin_id) reducer registry_empty policy)]) p, Ok tt).

Definition has_installed_reducer (plugin_id : PluginId) (p : ProjectionRegistry) : bool :=
  existsb (owned_by plugin_id) (slots p).

Definition reducer_names (p : ProjectionRegistry) : list RString := fst <$> slots p.

Definition clear_state (p : ProjectionRegistry) : ProjectionRegistry :=
  with_ancestry None (with_source Unbound (map_registries (fun _ => registry_empty) p)).

Definition retain_subject (subject : EntityId) : ProjectionRegistry -> ProjectionRegistry :=
  map_registries (fun s => retain_only subject (slot_registry s)).

Definition forget_subject (subject : EntityId) : ProjectionRegistry -> ProjectionRegistry :=
  map_registries (fun s => registry_remove subject (slot_registry s)).

Definition forget_revoked_subjects (subjects : list EntityId) (p : ProjectionRegistry) : ProjectionRegistry :=
  fold_left (fun p subject => forget_subject subject p) subjects p.

(** *** The fence of a read *)

Definition source_matches_timeline (p : ProjectionRegistry) (timeline : TimelineId) : bool :=
  negb (is_mixed (source p))
  && match source_timeline (source p) with
     | Some t => bool_decide (t = timeline)
     | None => true
     end.

(** [gate.inventory_generation().ok()]. *)
Definition gate_generation (g : ErasureContainmentGateV1) : option ErasureReferenceV1 :=
  match inventory_generation g with Ok generation => Some generation | Err _ => None end.

Definition source_generation_is_current (p : ProjectionRegistry) (g : ErasureContainmentGateV1) : bool :=
  bool_decide (source_timeline (source p) = None)
  || bool_decide (source_generation (source p) = gate_generation g).

Definition authorize_source_ancestry (p : ProjectionRegistry) (g : ErasureContainmentGateV1)
    (timeline : TimelineId) : Authority unit :=
  match source_ancestry p with
  | None => Ok tt
  | Some (head, scopes) =>
      if bool_decide (head = timeline)
      then map_err (fun _ => AuthorityError.SourceUnavailable) (authorize_fork_scopes g scopes OpSnapshot)
      else Err AuthorityError.SourceUnavailable
  end.

Definition apply_if_current_generation {A} (p : ProjectionRegistry) (g : ErasureContainmentGateV1)
    (effect : ProjectionRegistry -> Authority A) : Authority A :=
  if source_generation_is_current p g then effect p else Err AuthorityError.SourceUnavailable.

Definition with_erasure_fence {A} (gates : Gates) (p : ProjectionRegistry) (timeline : TimelineId)
    (effect : ProjectionRegistry -> Authority A) : Authority A :=
  match erasure_gate p with
  | Some h =>
      if negb (source_matches_timeline p timeline) then Err AuthorityError.SourceUnavailable else
      let g := gate_at gates h in
      let '(_, ran, fence) := with_fence g timeline OpSnapshot (fun u : unit =>
        (u, let? _ := authorize_source_ancestry p g timeline in apply_if_current_generation p g effect)) tt in
      let? _ := map_err (fun _ => AuthorityError.SourceUnavailable) fence in
      default (Err AuthorityError.SourceUnavailable) ran
  | None => Err AuthorityError.SourceUnavailable
  end.

Definition validate_fork_source (gates : Gates) (p : ProjectionRegistry) (timeline : TimelineId)
    : Authority unit := with_erasure_fence gates p timeline (fun _ => Ok tt).

Definition state_for (gates : Gates) (p : ProjectionRegistry) (timeline : TimelineId) (entity : EntityId)
    : Authority (option State) :=
  with_erasure_fence gates p timeline (fun r =>
    Ok (head (slots r) ≫= fun entry => registry_get entity (slot_registry entry.2))).

Definition state_for_reducer (gates : Gates) (p : ProjectionRegistry) (timeline : TimelineId)
    (name : RString) (entity : EntityId) : Authority (option State) :=
  with_erasure_fence gates p timeline (fun r =>
    match List.filter (named name) (slots r) with
    | _ :: _ :: _ => Err AuthorityError.SourceUnavailable
    | first => Ok (head first ≫= fun entry => registry_get entity (slot_registry entry.2))
    end).

Definition state_for_plugin (gates : Gates) (p : ProjectionRegistry) (timeline : TimelineId)
    (plugin_id : PluginId) (entity : EntityId) : Authority (option State) :=
  with_erasure_fence gates p timeline (fun r =>
    Ok (List.find (owned_by plugin_id) (slots r) ≫= fun entry => registry_get entity (slot_registry entry.2))).

(** *** Folding Events *)

Section Fold.
Context `{Ciborium} `{CiboriumCursor}.

(** [fold_bound_event] with an [offer] that cannot fail: every slot is offered
    the Event in order, or the revocation is returned. *)
Definition reaches_reducers (event : Event) : bool :=
  negb (bool_decide (ev_event_type event = EVENT_TYPE_CONSENT_REVOKED_V1))
  && negb (is_consent_event_type (ev_event_type event))
  && negb (is_geographic_event_type (ev_event_type event)).

Definition event_revocation (event : Event) : option ConsentRevokedV1 :=
  if bool_decide (ev_event_type event = EVENT_TYPE_CONSENT_REVOKED_V1)
  then match consent_revocation_decode (ev_payload event) with Ok r => Some r | Err _ => None end
  else None.

(** The general step, over any list of slots and any [offer], which may also
    change a value [A] of its caller; the slots offered before an error keep what
    the offer made of them. *)
Fixpoint offer_all {A T E} (offer : A -> T -> A * T * result E unit) (a : A) (slots : list T)
    : A * list T * result E unit :=
  match slots with
  | [] => (a, [], Ok tt)
  | slot :: rest =>
      match offer a slot with
      | (a', slot', Err e) => (a', slot' :: rest, Err e)
      | (a', slot', Ok _) => let '(a'', rest', r) := offer_all offer a' rest in (a'', slot' :: rest', r)
      end
  end.

Definition fold_bound_event {A T E} (offer : A -> T -> A * T * result E unit) (event : Event) (a : A)
    (slots : list T) : A * list T * result E (option ConsentRevokedV1) :=
  if bool_decide (ev_event_type event = EVENT_TYPE_CONSENT_REVOKED_V1)
  then (a, slots, Ok (match consent_revocation_decode (ev_payload event) with Ok r => Some r | Err _ => None end))
  else if is_consent_event_type (ev_event_type event) then (a, slots, Ok None)
  else if is_geographic_event_type (ev_event_type event) then (a, slots, Ok None)
  else let '(a', slots', r) := offer_all offer a slots in (a', slots', let? _ := r in Ok None).

Definition slot_fold (event : Event) (s : Slot) : Slot :=
  with_registry (registry_apply (slot_reducer s) event (slot_registry s)) s.

Definition apply_bound_event (event : Event) (p : ProjectionRegistry) : ProjectionRegistry :=
  let '(_, slots', revocation) := fold_bound_event
    (fun (u : unit) (entry : RString * Slot) => (u, (entry.1, slot_fold event entry.2), @Ok False unit tt))
    event tt (slots p) in
  let p' := with_slots slots' p in
  match revocation with
  | Ok (Some r) => forget_subject (cr_subject_id r) p'
  | _ => p'
  end.

Definition current_generation (gates : Gates) (p : ProjectionRegistry) : option ErasureReferenceV1 :=
  erasure_gate p ≫= fun h => gate_generation (gate_at gates h).

Definition bind_event_source (gates : Gates) (timeline : TimelineId) (p : ProjectionRegistry)
    : ProjectionRegistry * bool :=
  let generation := current_generation gates p in
  match source p with
  | Mixed => (p, false)
  | Bound t g =>
      if negb (bool_decide (g = generation)) || negb (bool_decide (t = timeline))
      then (with_source Mixed (clear_state p), false)
      else (p, true)
  | Unbound => (with_source (Bound timeline generation) p, true)
  end.

Definition apply_event (gates : Gates) (timeline : TimelineId) (event : Event) (p : ProjectionRegistry)
    : ProjectionRegistry :=
  let (p', bound) := bind_event_source gates timeline p in
  if bound then apply_bound_event event p' else p'.

Definition fold_events (gates : Gates) (timeline : TimelineId) (events : list Event)
    (p : ProjectionRegistry) : ProjectionRegistry :=
  fold_left (fun p event => apply_event gates timeline event p) events p.

(** *** Rebuilding, adopting and restoring *)

Definition record_source_ancestry (timeline : TimelineId) (ancestry : list TimelineMeta)
    : ProjectionRegistry -> ProjectionRegistry := with_ancestry (Some (timeline, meta_id <$> ancestry)).

Definition bind_fork_ancestry (timeline : TimelineId) (ancestry : list TimelineMeta)
    (p : ProjectionRegistry) : ProjectionRegistry * Authority unit :=
  match validate_fork_ancestry timeline ancestry with
  | Ok _ => (record_source_ancestry timeline ancestry p, Ok tt)
  | Err _ => (p, Err AuthorityError.SourceUnavailable)
  end.

Definition record_applied_ancestry (applied : bool) (timeline : TimelineId) (ancestry : list TimelineMeta)
    (p : ProjectionRegistry) : ProjectionRegistry * Authority unit :=
  if applied then (record_source_ancestry timeline ancestry p, Ok tt)
  else (p, Err AuthorityError.SourceUnavailable).

Definition refold_events (gates : Gates) (timeline : TimelineId) (ancestry : list TimelineMeta)
    (events : list Event) (expected_generation : option ErasureReferenceV1) (p : ProjectionRegistry)
    : ProjectionRegistry * Authority unit :=
  match erasure_gate p with
  | None => (p, Err AuthorityError.SourceUnavailable)
  | Some h =>
      let g := gate_at gates h in
      let '((p', refolded), fence) := with_fork_ancestry_fence g timeline ancestry OpSnapshot
        (fun s : ProjectionRegistry * bool =>
           if bool_decide (gate_generation g = expected_generation)
           then let folded := fold_events gates timeline events (clear_state s.1) in
                (folded, negb (is_mixed (source folded)))
           else s) (p, false) in
      match fence with
      | Err _ => (p', Err AuthorityError.SourceUnavailable)
      | Ok _ => record_applied_ancestry refolded timeline ancestry p'
      end
  end.

Definition validate_adopted_ancestry (parent child : TimelineId) (ancestry : list TimelineMeta)
    : Authority unit :=
  match validate_fork_ancestry child ancestry with
  | Ok _ =>
      if bool_decide (meta_id <$> ancestry !! 1%nat = Some parent) then Ok tt
      else Err AuthorityError.SourceUnavailable
  | Err _ => Err AuthorityError.SourceUnavailable
  end.

Definition adopt_committed_fork (gates : Gates) (parent child : TimelineId) (ancestry : list TimelineMeta)
    (p : ProjectionRegistry) : ProjectionRegistry * Authority unit :=
  if is_mixed (source p)
     || match source_timeline (source p) with Some t => negb (bool_decide (t = parent)) | None => false end
  then (p, Err AuthorityError.SourceUnavailable)
  else match validate_adopted_ancestry parent child ancestry, erasure_gate p with
  | Err e, _ => (p, Err e)
  | Ok _, None => (p, Err AuthorityError.SourceUnavailable)
  | Ok _, Some h =>
      let g := gate_at gates h in
      let '(p', ran, fence) := with_fence g child OpFork
        (fun p => (with_source (Bound child (gate_generation g)) p, tt)) p in
      match fence with
      | Err _ => (p', Err AuthorityError.SourceUnavailable)
      | Ok _ => record_applied_ancestry (match ran with Some _ => true | None => false end) child ancestry p'
      end
  end.

Local Abbreviation SnapshotMap := (gmap RString StateRegistry).

Definition has_duplicate_names (p : ProjectionRegistry) : bool := negb (all_unique (reducer_names p)).

(** Later slots of one name replace earlier ones. *)
Definition snapshot_unfenced (p : ProjectionRegistry) : SnapshotMap :=
  fold_left (fun snapshot entry => <[entry.1 := slot_registry entry.2]> snapshot) (slots p) ∅.

Definition state_snapshot (gates : Gates) (p : ProjectionRegistry) (timeline : TimelineId)
    : Authority SnapshotMap :=
  with_erasure_fence gates p timeline (fun r =>
    if has_duplicate_names r then Err AuthorityError.SourceUnavailable else Ok (snapshot_unfenced r)).

Definition restore_from_snapshot (gates : Gates) (timeline : TimelineId) (ancestry : list TimelineMeta)
    (snapshot : SnapshotMap) (expected_generation : option ErasureReferenceV1) (p : ProjectionRegistry)
    : ProjectionRegistry * Authority unit :=
  match (if has_duplicate_names p then None else erasure_gate p) with
  | None => (p, Err AuthorityError.SourceUnavailable)
  | Some h =>
      let g := gate_at gates h in
      let '((p', restored), fence) := with_fork_ancestry_fence g timeline ancestry OpSnapshot
        (fun s : ProjectionRegistry * bool =>
           if bool_decide (gate_generation g = expected_generation)
           then (with_slots ((fun entry => (entry.1,
                    match snapshot !! entry.1 with
                    | Some state => with_registry state entry.2
                    | None => entry.2
                    end)) <$> slots (clear_state s.1))
                   (with_source (Bound timeline (gate_generation g)) (clear_state s.1)), true)
           else s) (p, false) in
      match fence with
      | Err _ => (p', Err AuthorityError.SourceUnavailable)
      | Ok _ => record_applied_ancestry restored timeline ancestry p'
      end
  end.

(** The first entity of the list whose State differs from the snapshot. *)
Definition diff_slot (snapshot : SnapshotMap) (all_entities : list EntityId) (entry : RString * Slot)
    : option (RString * EntityId) :=
  let snap := default registry_empty (snapshot !! entry.1) in
  (fun entity => (entry.1, entity)) <$>
    List.find (fun entity => negb (bool_decide
      (get_or_default entity (slot_registry entry.2) = get_or_default entity snap))) all_entities.

Fixpoint diff_slots (snapshot : SnapshotMap) (all_entities : list EntityId) (l : list (RString * Slot))
    : option (RString * EntityId) :=
  match l with
  | [] => None
  | entry :: rest =>
      match diff_slot snapshot all_entities entry with
      | Some found => Some found
      | None => diff_slots snapshot all_entities rest
      end
  end.

Definition diff_against_snapshot (gates : Gates) (p : ProjectionRegistry) (timeline : TimelineId)
    (snapshot : SnapshotMap) (all_entities : list EntityId) : Authority (option (RString * EntityId)) :=
  with_erasure_fence gates p timeline (fun r =>
    if has_duplicate_names r then Err AuthorityError.SourceUnavailable
    else Ok (diff_slots snapshot all_entities (slots r))).

(** [RevokedSubjectsV1::from_verified_events]. *)
Definition from_verified_events (events : list Event) : list EntityId :=
  omap (fun event => cr_subject_id <$> event_revocation event) events.
End Fold.
End State.
