(* ===== verification/Candidate.v ===== *)
(** * Detached projection candidates and staged results

    [crates/pos-state/src/candidate.rs] and [staged.rs]: a candidate folds the
    Events with the step of the live registry into State of its own, accounts
    its size, and is taken as a staged result after an exact measurement. *)

From Stdlib Require Import String ZArith Lia Bool.
From S2P Require Import Prelude Text Cbor FallbackRecords FallbackPolicy ErasureGate Events EventStore StrictCbor.
From S2P Require Import PluginTrust WireSyntax TrustPolicy TrustBridge TrustedClock Consent Projection.

Local Open Scope Z_scope.

Definition MAX_STAGED_OUTPUT_BYTES_V1 : Z := 64 * 1024 * 1024.
Definition MAX_STAGED_ENTITIES_PER_CONSUMER_V1 : Z := 65536.
Definition MAX_STAGED_CONSUMERS_V1 : Z := 64.
Definition ENTITY_ID_BYTES : Z := 16.

Definition saturating_mul (a b : Z) : Z := Z.min (a * b) U64_MAX.

Record RecordedConsumerV1 := MkConsumer {
  rc_plugin_id : PluginId;
  rc_reducer_identity : Hash;
}.

Inductive ProjectionCandidateErrorV1 :=
| NotAdmitted | ConsumerSetMismatch | PluginMismatch | SourceMismatch.

Inductive StagedLimitErrorV1 := StagedOutputExceeded | EntityLimitExceeded | GrowthBoundExceeded.

Record CandidateBoundsV1 := MkBounds {
  callback_bound : Z;
  growth_per_payload_byte : Z;
  growth_constant_bytes : Z;
}.

Definition growth (b : CandidateBoundsV1) (event : Event) : Z :=
  saturating_add (saturating_mul (growth_per_payload_byte b) (len (ev_payload event)))
    (growth_constant_bytes b).

Section Candidates.
Context `{Json}.

Record CandidateReducerV1 := MkCandidateReducer {
  cdr_consumer : RecordedConsumerV1;
  cdr_name : RString;
  cdr_reducer : Reducer;
  cdr_bounds : CandidateBoundsV1;
  cdr_policy : option ProjectionObservationPolicyV1;
}.

(** ** Accounting *)

Record EntityAccountV1 := MkAccount { measured : Z; declared : Z }.

Record StagedAccountingV1 := MkAccounting {
  upper : Z;
  exact : Z;
  exact_passes : Z;
  current : bool;
  accounts : gmap (nat * EntityId) EntityAccountV1;
}.

Definition accounting_new : StagedAccountingV1 := MkAccounting 0 0 0 false ∅.
Definition account_default : EntityAccountV1 := MkAccount 0 0.

Definition account_record (key : nat * EntityId) (initial_size : option Z) (growth : Z)
    (a : StagedAccountingV1) : StagedAccountingV1 :=
  let initial := default 0 initial_size in
  let account := default account_default (accounts a !! key) in
  MkAccounting (saturating_add (saturating_add (upper a) initial) growth) (exact a) (exact_passes a) false
    (<[key := MkAccount (saturating_add (measured account) initial)
                        (saturating_add (declared account) growth)]> (accounts a)).

Definition account_forget (slots : nat) (subject : EntityId) (a : StagedAccountingV1) : StagedAccountingV1 :=
  MkAccounting (upper a) (exact a) (exact_passes a) false
    (fold_left (fun m ordinal => delete (ordinal, subject) m) (seq 0 slots) (accounts a)).

(** [key.len() + value.to_string().len()], summed over the fields. *)
Definition field_bytes (entry : RString * json) : Z := str_len entry.1 + len (json_text entry.2).
Definition staged_state_bytes (s : State) : Z :=
  fold_left saturating_add (field_bytes <$> map_to_list (fields s)) ENTITY_ID_BYTES.

(** One entity of an exact pass: its account is settled at its size. *)
Definition measure_entity (ordinal : nat) (entity : EntityId) (state : State)
    (acc : gmap (nat * EntityId) EntityAccountV1 * Z)
    : gmap (nat * EntityId) EntityAccountV1 * Z * result StagedLimitErrorV1 unit :=
  let size := staged_state_bytes state in
  let account := default account_default (acc.1 !! (ordinal, entity)) in
  if saturating_add (measured account) (declared account) <? size
  then (<[(ordinal, entity) := account]> acc.1, acc.2, Err GrowthBoundExceeded)
  else (<[(ordinal, entity) := MkAccount size 0]> acc.1, saturating_add acc.2 size, Ok tt).

Fixpoint measure_entities (l : list (nat * EntityId * State))
    (acc : gmap (nat * EntityId) EntityAccountV1 * Z)
    : gmap (nat * EntityId) EntityAccountV1 * Z * result StagedLimitErrorV1 unit :=
  match l with
  | [] => (acc, Ok tt)
  | (ordinal, entity, state) :: rest =>
      match measure_entity ordinal entity state acc with
      | (acc', Err e) => (acc', Err e)
      | (acc', Ok _) => measure_entities rest acc'
      end
  end.

(** Every entity of every slot; the maps may iterate in any order, which no
    measurement depends on. *)
Definition all_entries (registries : list StateRegistry) : list (nat * EntityId * State) :=
  mjoin (imap (fun ordinal r => (fun entry => (ordinal, entry.1, entry.2)) <$> map_to_list (states r)) registries).

Definition accounting_exact_pass (registries : list StateRegistry) (a : StagedAccountingV1)
    : StagedAccountingV1 * result StagedLimitErrorV1 unit :=
  let passes := Z.min (exact_passes a + 1) U32_MAX in
  match measure_entities (all_entries registries) (accounts a, 0) with
  | ((m, _), Err e) => (MkAccounting (upper a) (exact a) passes (current a) m, Err e)
  | ((m, total), Ok _) =>
      if MAX_STAGED_OUTPUT_BYTES_V1 <? total
      then (MkAccounting total total passes (current a) m, Err StagedOutputExceeded)
      else (MkAccounting total total passes true m, Ok tt)
  end.

(** ** Candidates *)

Record CandidateSlotV1 := MkCandidateSlot {
  csl_consumer : RecordedConsumerV1;
  csl_name : RString;
  csl_bounds : CandidateBoundsV1;
  csl_inner : Slot;
}.

Definition with_inner (s : Slot) (c : CandidateSlotV1) : CandidateSlotV1 :=
  MkCandidateSlot (csl_consumer c) (csl_name c) (csl_bounds c) s.

Record DetachedProjectionCandidateV1 := MkCandidate {
  cd_slots : list CandidateSlotV1;
  cd_source : ProjectionSourceV1;
  cd_accounting : StagedAccountingV1;
  cd_revocations : list EntityId;
}.

Definition candidate_slot (r : CandidateReducerV1) : CandidateSlotV1 :=
  MkCandidateSlot (cdr_consumer r) (cdr_name r) (cdr_bounds r)
    (MkSlot (Some (rc_plugin_id (cdr_consumer r))) (cdr_reducer r) registry_empty (cdr_policy r)).

Definition consumer_id (s : CandidateSlotV1) : PluginId := rc_plugin_id (csl_consumer s).

(** [slots[..index].iter().any(..)] at every index. *)
Definition repeated (slots : list CandidateSlotV1) : bool :=
  existsb (fun index =>
    match slots !! index with
    | Some slot => existsb (fun earlier => bool_decide (consumer_id earlier = consumer_id slot)) (take index slots)
    | None => false
    end) (seq 0 (length slots)).

Definition from_reducers (reducers : list CandidateReducerV1) (source : ProjectionSourceV1)
    : result ProjectionCandidateErrorV1 DetachedProjectionCandidateV1 :=
  match source_timeline source with
  | None => Err SourceMismatch
  | Some _ =>
      let slots := candidate_slot <$> reducers in
      if repeated slots then Err ConsumerSetMismatch
      else Ok (MkCandidate slots source accounting_new [])
  end.

(** A pending build: its admitted bounds, and what its factory returns. *)
Record CandidateBuildV1 := MkBuild {
  cb_bounds : CandidateBoundsV1;
  cb_build : result ProjectionCandidateErrorV1 CandidateReducerV1;
}.

Definition build_run (b : CandidateBuildV1) : result ProjectionCandidateErrorV1 CandidateReducerV1 :=
  let? r := cb_build b in
  Ok (MkCandidateReducer (cdr_consumer r) (cdr_name r) (cdr_reducer r) (cb_bounds b) (cdr_policy r)).

Fixpoint builds_run (builds : list CandidateBuildV1)
    : result ProjectionCandidateErrorV1 (list CandidateReducerV1) :=
  match builds with
  | [] => Ok []
  | b :: rest => let? r := build_run b in let? rs := builds_run rest in Ok (r :: rs)
  end.

Class ProtectedProjectionProviderV1 (P : Type) :=
  candidate_builds : P -> list RecordedConsumerV1 -> result ProjectionCandidateErrorV1 (list CandidateBuildV1).

Definition open_candidate `{ProtectedProjectionProviderV1 P} (provider : P)
    (recorded : list RecordedConsumerV1) (source : ProjectionSourceV1)
    : result ProjectionCandidateErrorV1 DetachedProjectionCandidateV1 :=
  let? builds := candidate_builds provider recorded in
  let? reducers := builds_run builds in
  from_reducers reducers source.

(** ** Turns *)

(** [CandidateTurnV1::apply]: the slot behind the reducer, and the measured
    [initial] State of an entity it created. *)
Definition turn_apply (event : Event) (slot : CandidateSlotV1) : CandidateSlotV1 * option Z :=
  let (registry, created) :=
    apply_observing_initial (slot_reducer (csl_inner slot)) event (slot_registry (csl_inner slot)) in
  (with_inner (with_registry registry (csl_inner slot)) slot, staged_state_bytes <$> created).

Definition turn_account (ordinal : nat) (event : Event) (slot : CandidateSlotV1) (initial_size : option Z)
    (a : StagedAccountingV1) : StagedAccountingV1 * result StagedLimitErrorV1 unit :=
  if MAX_STAGED_ENTITIES_PER_CONSUMER_V1 <? registry_len (slot_registry (csl_inner slot))
  then (a, Err EntityLimitExceeded)
  else match registry_get (ev_entity event) (slot_registry (csl_inner slot)) with
       | Some _ => (account_record (ordinal, ev_entity event) initial_size (growth (csl_bounds slot) event) a, Ok tt)
       | None => (a, Ok tt)
       end.

(** A turn, as the closure given to [fold_event_with] runs it; [G] is what the
    closure captures. *)
Definition Offer (G E : Type) : Type :=
  Event -> nat -> G * StagedAccountingV1 -> CandidateSlotV1 ->
  (G * StagedAccountingV1) * CandidateSlotV1 * result E unit.

(** [fold_events]: apply alone. *)
Definition offer_apply : Offer unit False := fun event _ ga slot => (ga, (turn_apply event slot).1, Ok tt).

Section Fold.
Context `{Ciborium} `{CiboriumCursor}.

Definition candidate_forget (subject : EntityId) (c : DetachedProjectionCandidateV1)
    : DetachedProjectionCandidateV1 :=
  MkCandidate
    ((fun s => with_inner (with_registry (registry_remove subject (slot_registry (csl_inner s))) (csl_inner s)) s)
       <$> cd_slots c)
    (cd_source c) (account_forget (length (cd_slots c)) subject (cd_accounting c))
    (cd_revocations c ++ [subject]).

Definition fold_event_with {G E} (offer : Offer G E) (event : Event) (g : G)
    (c : DetachedProjectionCandidateV1) : G * DetachedProjectionCandidateV1 * result E unit :=
  let '((g', a), entries, revocation) := fold_bound_event
    (fun (ga : G * StagedAccountingV1) (entry : nat * CandidateSlotV1) =>
       let '(ga', slot', r) := offer event entry.1 ga entry.2 in (ga', (entry.1, slot'), r))
    event (g, cd_accounting c) (imap pair (cd_slots c)) in
  let c' := MkCandidate (snd <$> entries) (cd_source c) a (cd_revocations c) in
  match revocation with
  | Err e => (g', c', Err e)
  | Ok (Some r) => (g', candidate_forget (cr_subject_id r) c', Ok tt)
  | Ok None => (g', c', Ok tt)
  end.

Definition candidate_fold_events (events : list Event) (c : DetachedProjectionCandidateV1)
    : DetachedProjectionCandidateV1 :=
  fold_left (fun c event => (fold_event_with offer_apply event tt c).1.2) events c.

End Fold.

Definition exact_pass_due (c : DetachedProjectionCandidateV1) : bool :=
  MAX_STAGED_OUTPUT_BYTES_V1 <? upper (cd_accounting c).

Definition candidate_registries (c : DetachedProjectionCandidateV1) : list StateRegistry :=
  (fun s => slot_registry (csl_inner s)) <$> cd_slots c.

Definition exact_pass (c : DetachedProjectionCandidateV1)
    : DetachedProjectionCandidateV1 * result StagedLimitErrorV1 unit :=
  let (a, r) := accounting_exact_pass (candidate_registries c) (cd_accounting c) in
  (MkCandidate (cd_slots c) (cd_source c) a (cd_revocations c), r).

Definition candidate_state_for (plugin_id : PluginId) (entity : EntityId) (c : DetachedProjectionCandidateV1)
    : option State :=
  List.find (fun s => bool_decide (consumer_id s = plugin_id)) (cd_slots c)
  ≫= fun s => registry_get entity (slot_registry (csl_inner s)).

(** ** Staged results *)

Record StagedSlotV1 := MkStagedSlot {
  ss_plugin_id : PluginId;
  ss_name : RString;
  ss_policy : option ProjectionObservationPolicyV1;
  ss_registry : StateRegistry;
}.

Record StagedProjectionV1 := MkStagedProjection {
  sp_consumers : list RecordedConsumerV1;
  sp_source : ProjectionSourceV1;
  sp_slots : list StagedSlotV1;
  sp_revocations : list EntityId;
}.

Definition staged_slot (s : CandidateSlotV1) : StagedSlotV1 :=
  MkStagedSlot (consumer_id s) (csl_name s) (slot_policy (csl_inner s)) (slot_registry (csl_inner s)).

(** The maps and policies are moved out of the candidate. *)
Definition take_staged (c : DetachedProjectionCandidateV1)
    : DetachedProjectionCandidateV1 * option StagedProjectionV1 :=
  let a := cd_accounting c in
  if negb (current a) then (c, None)
  else (MkCandidate
          ((fun s => with_inner (MkSlot (slot_plugin_id (csl_inner s)) (slot_reducer (csl_inner s)) registry_empty None) s)
             <$> cd_slots c)
          (cd_source c) (MkAccounting (upper a) (exact a) (exact_passes a) false (accounts a)) [],
        Some (MkStagedProjection (csl_consumer <$> cd_slots c) (cd_source c) (staged_slot <$> cd_slots c)
                (cd_revocations c))).
End Candidates.

(** * Comparing and installing staged results

    [StagedProjectionV1::diverged_entities] of [crates/pos-state/src/staged.rs],
    the install checks of [crates/pos-state/src/lib.rs], and the prepared
    installs of [crates/pos-core/src/staged_install.rs], which the trusted-clock
    fence commits.

    A prepared install borrows the registry it will change, so it carries it:
    committing returns the changed registry beside the displaced State. *)

Section Staged.
Context `{Json}.

(** ** Divergence *)

(** The maps of two results, consumer by consumer. *)
Fixpoint pair_registries (mine theirs : list StagedSlotV1) : option (list (StateRegistry * StateRegistry)) :=
  match mine with
  | [] => Some []
  | slot :: rest =>
      other ← List.find (fun theirs => bool_decide (ss_plugin_id theirs = ss_plugin_id slot)) theirs;
      pairs ← pair_registries rest theirs;
      Some ((ss_registry slot, ss_registry other) :: pairs)
  end.

Definition entity_ids (r : StateRegistry) : list EntityId := fst <$> map_to_list (states r).

Definition differs (pair : StateRegistry * StateRegistry) (entity : EntityId) : bool :=
  negb (bool_decide (get_or_default entity pair.1 = get_or_default entity pair.2)).

(** [sort_unstable_by_key(|entity| entity.to_bytes())]. *)
Fixpoint insert_sorted_id (id : EntityId) (l : list EntityId) : list EntityId :=
  match l with
  | [] => [id]
  | x :: rest => if bytes_lt (ulid_bytes x) (ulid_bytes id) then x :: insert_sorted_id id rest else id :: l
  end.
Definition sort_ids (l : list EntityId) : list EntityId := foldr insert_sorted_id [] l.

(** [Vec::dedup]. *)
Fixpoint dedup_from (previous : EntityId) (l : list EntityId) : list EntityId :=
  match l with
  | [] => []
  | x :: rest => if bool_decide (x = previous) then dedup_from previous rest else x :: dedup_from x rest
  end.
Definition dedup (l : list EntityId) : list EntityId :=
  match l with [] => [] | x :: rest => x :: dedup_from x rest end.

Definition diverged_entities (mine theirs : StagedProjectionV1)
    : result ProjectionCandidateErrorV1 (list EntityId) :=
  match pair_registries (sp_slots mine) (sp_slots theirs) with
  | Some pairs =>
      if len pairs =? len (sp_slots theirs)
      then Ok (dedup (sort_ids (mjoin ((fun pair =>
             List.filter (differs pair) (entity_ids pair.1 ++ entity_ids pair.2)) <$> pairs))))
      else Err ConsumerSetMismatch
  | None => Err ConsumerSetMismatch
  end.

(** ** Install checks *)

Inductive InstallErrorV1 := InstallSourceMismatch | SlotMismatch.

Definition slot_matches (live : RString * Slot) (staged : StagedSlotV1) : bool :=
  bool_decide (slot_plugin_id live.2 = Some (ss_plugin_id staged))
  && bool_decide (live.1 = ss_name staged)
  && bool_decide (slot_policy live.2 = ss_policy staged).

(** [zip(..).all(..)] of two lists of one length. *)
Definition slots_match (live : list (RString * Slot)) (staged : list StagedSlotV1) : bool :=
  (len live =? len staged) && forallb (fun pair => slot_matches pair.1 pair.2) (zip live staged).

Definition check_install (gates : Gates) (p : ProjectionRegistry) (staged : StagedProjectionV1)
    : result InstallErrorV1 unit :=
  if negb (erasure_gate_bound p)
     || negb (bool_decide (source_generation (sp_source staged) = current_generation gates p))
  then Err InstallSourceMismatch
  else if slots_match (slots p) (sp_slots staged) then Ok tt else Err SlotMismatch.

(** ** Prepared installs *)

Record PreparedInstallV1 := MkPrepared {
  pi_registry : ProjectionRegistry;
  pi_staged : list StateRegistry;
  pi_staged_source : ProjectionSourceV1;
}.

Record DisplacedStateV1 := MkDisplaced {
  ds_maps : list StateRegistry;
  ds_source : ProjectionSourceV1;
}.

Definition prepare_checked (p : ProjectionRegistry) (staged : StagedProjectionV1) : PreparedInstallV1 :=
  MkPrepared p (zip_with (fun _ s => ss_registry s) (slots p) (sp_slots staged)) (sp_source staged).

Definition prepare_install (gates : Gates) (p : ProjectionRegistry) (staged : StagedProjectionV1)
    : result InstallErrorV1 PreparedInstallV1 :=
  let? _ := check_install gates p staged in Ok (prepare_checked p staged).

Definition prepare_install_pair (gates : Gates) (a : ProjectionRegistry) (staged_a : StagedProjectionV1)
    (b : ProjectionRegistry) (staged_b : StagedProjectionV1)
    : result InstallErrorV1 (PreparedInstallV1 * PreparedInstallV1) :=
  let? _ := check_install gates a staged_a in
  let? _ := check_install gates b staged_b in
  Ok (prepare_checked a staged_a, prepare_checked b staged_b).

(** The loop of [swap]. *)
Fixpoint swap_maps (live : list (RString * Slot)) (staged : list StateRegistry)
    : list (RString * Slot) * list StateRegistry :=
  match live, staged with
  | (name, slot) :: live', r :: staged' =>
      let (l, d) := swap_maps live' staged' in
      ((name, with_registry r slot) :: l, slot_registry slot :: d)
  | _, _ => (live, staged)
  end.

Definition swap (i : PreparedInstallV1) : ProjectionRegistry * DisplacedStateV1 :=
  let (l, displaced) := swap_maps (slots (pi_registry i)) (pi_staged i) in
  (with_source (pi_staged_source i) (with_slots l (pi_registry i)),
   MkDisplaced displaced (source (pi_registry i))).

#[export] Instance prepared_target : ProtectedHandoffTargetV1 PreparedInstallV1
    (ProjectionRegistry * DisplacedStateV1) := swap.

#[export] Instance prepared_pair_target : ProtectedHandoffTargetV1 (PreparedInstallV1 * PreparedInstallV1)
    ((ProjectionRegistry * DisplacedStateV1) * (ProjectionRegistry * DisplacedStateV1)) :=
  fun pair => (swap pair.1, swap pair.2).
End Staged.
