(* ===== verification/ProjectionProperties.v ===== *)
(** * What a registry computes and promises

    The State of an entity as a function of the Events of its Timeline, and the
    lemmas that the registry's fold, event by event and slot by slot, computes
    it; then the theorems about folds, reads and snapshots. *)

From Stdlib Require Import String ZArith Lia Bool.
From S2P Require Import Prelude Text Cbor FallbackRecords FallbackPolicy ErasureGate Events EventStore StrictCbor.
From S2P Require Import PluginTrust WireSyntax TrustPolicy TrustBridge Consent Projection Candidate.

Local Open Scope Z_scope.

Section Fold.
Context `{Json} `{Ciborium} `{CiboriumCursor}.

(** ** The specification *)

(** [event] revokes the consent of [e]. *)
Definition revokes_subject (e : EntityId) (event : Event) : bool :=
  match event_revocation event with Some r => bool_decide (cr_subject_id r = e) | None => false end.

(** The Events behind the last revocation of [e]. *)
Definition current_events (e : EntityId) (events : list Event) : list Event :=
  fold_left (fun acc event => if revokes_subject e event then [] else acc ++ [event]) events [].

(** The Events among them that a reducer takes for [e]. *)
Definition contributes (reducer : Reducer) (e : EntityId) (event : Event) : bool :=
  bool_decide (ev_entity event = e) && reaches_reducers event && projects_event reducer event.

Definition entity_state (reducer : Reducer) (e : EntityId) (events : list Event) : option State :=
  match List.filter (contributes reducer e) (current_events e events) with
  | [] => None
  | contributing => Some (fold_left (reduce reducer) contributing (initial reducer))
  end.

Lemma current_events_snoc e events event :
  current_events e (events ++ [event])
  = if revokes_subject e event then [] else current_events e events ++ [event].
Proof. unfold current_events. by rewrite fold_left_app. Qed.

(** Nothing before a revocation counts. *)
Lemma current_events_split e pre event post :
  revokes_subject e event = true -> (forall ev, ev ∈ post -> revokes_subject e ev = false) ->
  current_events e (pre ++ event :: post) = post.
Proof.
  intros Hr. induction post as [|x post IH] using rev_ind; intros Hpost.
  - by rewrite current_events_snoc, Hr.
  - rewrite app_comm_cons, app_assoc, current_events_snoc, (Hpost x) by set_solver.
    rewrite IH; [done|]. intros ev Hev. apply Hpost. set_solver.
Qed.

Lemma entity_state_snoc reducer e events event :
  entity_state reducer e (events ++ [event])
  = if revokes_subject e event then None
    else if contributes reducer e event
    then Some (reduce reducer (default (initial reducer) (entity_state reducer e events)) event)
    else entity_state reducer e events.
Proof.
  unfold entity_state. rewrite current_events_snoc. destruct (revokes_subject e event); [done|].
  rewrite List.filter_app. simpl. destruct (contributes reducer e event); [|by rewrite app_nil_r].
  destruct (List.filter _ (current_events e events)) as [|x l]; [done|].
  cbn. by rewrite fold_left_app.
Qed.

(** ** One Event *)

Definition event_step (reducer : Reducer) (event : Event) (r : StateRegistry) : StateRegistry :=
  match event_revocation event with
  | Some rv => registry_remove (cr_subject_id rv) r
  | None => registry_apply reducer event r
  end.

Lemma revoked_is_consent : is_consent_event_type EVENT_TYPE_CONSENT_REVOKED_V1 = true.
Proof. vm_compute. reflexivity. Qed.

Lemma unreached_apply reducer event r : reaches_reducers event = false -> registry_apply reducer event r = r.
Proof.
  unfold reaches_reducers, registry_apply, apply_observing_initial. intros Hr.
  destruct (bool_decide_reflect (ev_event_type event = EVENT_TYPE_CONSENT_REVOKED_V1)) as [->|].
  { rewrite revoked_is_consent, orb_true_r. done. }
  destruct (is_consent_event_type (ev_event_type event)); [by rewrite orb_true_r|].
  by destruct (is_geographic_event_type (ev_event_type event)).
Qed.

Lemma reached_apply reducer event r :
  reaches_reducers event = true -> registry_apply reducer event r = (apply_reducer_event reducer event r).1.
Proof.
  unfold reaches_reducers, registry_apply, apply_observing_initial.
  intros [[_ ->%negb_true_iff]%andb_prop ->%negb_true_iff]%andb_prop. done.
Qed.

Lemma revocation_unreached event rv : event_revocation event = Some rv -> reaches_reducers event = false.
Proof. unfold event_revocation, reaches_reducers. by case_bool_decide. Qed.

Lemma event_step_states reducer event r e :
  states (event_step reducer event r) !! e
  = if revokes_subject e event then None
    else if contributes reducer e event
    then Some (reduce reducer (default (initial reducer) (states r !! e)) event)
    else states r !! e.
Proof.
  unfold event_step, revokes_subject, contributes. destruct (event_revocation event) as [rv|] eqn:Hrv.
  - apply revocation_unreached in Hrv as ->. rewrite andb_false_r. cbn.
    case_bool_decide as Hs; [rewrite Hs; apply lookup_delete_eq|by apply lookup_delete_ne].
  - destruct (reaches_reducers event) eqn:Hr; [|by rewrite (unreached_apply _ _ _ Hr), andb_false_r].
    rewrite (reached_apply _ _ _ Hr). unfold apply_reducer_event. rewrite andb_true_r.
    destruct (projects_event reducer event); cbn; [|by rewrite andb_false_r].
    rewrite andb_true_r. case_bool_decide as He; [rewrite He; apply lookup_insert_eq|by apply lookup_insert_ne].
Qed.

(** Folding [events] from the empty registry. *)
Lemma event_steps_states reducer events e :
  states (fold_left (fun r event => event_step reducer event r) events registry_empty) !! e
  = entity_state reducer e events.
Proof.
  induction events as [|event events IH] using rev_ind; [apply lookup_empty|].
  rewrite fold_left_app. cbn [fold_left]. rewrite event_step_states, entity_state_snoc, IH. done.
Qed.

(** ** The slots of a registry *)

Lemma offer_all_pure {A T E} (f : T -> T) (a : A) l :
  offer_all (fun a t => (a, f t, @Ok E unit tt)) a l = (a, f <$> l, Ok tt).
Proof. induction l as [|x l IH]; cbn; [done|]. by rewrite IH. Qed.

Lemma with_registry_same s : with_registry (slot_registry s) s = s.
Proof. by destruct s. Qed.

Lemma map_registries_id f p : (forall entry, entry ∈ slots p -> f entry.2 = slot_registry entry.2) ->
  map_registries f p = p.
Proof.
  intros Hf. destruct p as [l g b s a]. unfold map_registries, with_slots. cbn in *. f_equal.
  apply list_eq_Forall2, Forall2_fmap_l, Forall_Forall2_diag, Forall_forall. intros [n x] Hx.
  pose proof (Hf _ Hx) as He. cbn in *. by rewrite He, with_registry_same.
Qed.

Lemma apply_bound_event_slots event p :
  apply_bound_event event p
  = map_registries (fun s => event_step (slot_reducer s) event (slot_registry s)) p.
Proof.
  unfold apply_bound_event, fold_bound_event, event_step, event_revocation.
  case_bool_decide as Ht.
  - destruct (consent_revocation_decode (ev_payload event)) as [rv|e]; [done|].
    rewrite map_registries_id; [by destruct p|]. intros [n s] _. cbn.
    apply unreached_apply. unfold reaches_reducers. by rewrite bool_decide_eq_true_2.
  - destruct (is_consent_event_type (ev_event_type event)) eqn:Hc.
    { rewrite map_registries_id; [by destruct p|]. intros [n s] _. apply unreached_apply.
      unfold reaches_reducers. by rewrite Hc, andb_false_r. }
    destruct (is_geographic_event_type (ev_event_type event)) eqn:Hg.
    { rewrite map_registries_id; [by destruct p|]. intros [n s] _. apply unreached_apply.
      unfold reaches_reducers. by rewrite Hg, andb_false_r. }
    rewrite offer_all_pure. cbn. unfold map_registries. done.
Qed.

Lemma map_registries_compose f g p :
  map_registries f (map_registries g p) = map_registries (fun s => f (with_registry (g s) s)) p.
Proof.
  destruct p as [l gt b s a]. unfold map_registries, with_slots. cbn. f_equal.
  rewrite <- list_fmap_compose. apply list_fmap_ext. intros i [n x] _. by destruct x.
Qed.

(** The State of every slot after all [events]. *)
Definition folded (events : list Event) (s : Slot) : StateRegistry :=
  fold_left (fun r event => event_step (slot_reducer s) event r) events (slot_registry s).

Lemma fold_events_cons gates timeline event events p :
  fold_events gates timeline (event :: events) p
  = fold_events gates timeline events (apply_event gates timeline event p).
Proof. done. Qed.

Lemma apply_event_bound gates timeline event p :
  source p = Bound timeline (current_generation gates p) ->
  apply_event gates timeline event p
  = map_registries (fun s => event_step (slot_reducer s) event (slot_registry s)) p.
Proof.
  intros Hs. unfold apply_event, bind_event_source. rewrite Hs, !bool_decide_eq_true_2 by done.
  apply apply_bound_event_slots.
Qed.

Lemma apply_event_unbound gates timeline event p :
  source p = Unbound ->
  apply_event gates timeline event p
  = apply_event gates timeline event (with_source (Bound timeline (current_generation gates p)) p).
Proof.
  intros Hs. rewrite (apply_event_bound _ _ _ (with_source _ p)) by by destruct p.
  unfold apply_event, bind_event_source. rewrite Hs. apply apply_bound_event_slots.
Qed.

(** Folding on a registry whose source is, or becomes, the Timeline at the
    current generation. *)
Lemma fold_events_bound gates timeline events p :
  source p = Bound timeline (current_generation gates p) ->
  fold_events gates timeline events p = map_registries (folded events) p.
Proof.
  revert p. induction events as [|event events IH]; intros p Hs.
  - symmetry. by apply map_registries_id.
  - rewrite fold_events_cons, apply_event_bound, IH by (done || by destruct p).
    by rewrite map_registries_compose.
Qed.

Lemma fold_events_unbound gates timeline event events p :
  source p = Unbound ->
  fold_events gates timeline (event :: events) p
  = with_source (Bound timeline (current_generation gates p)) (map_registries (folded (event :: events)) p).
Proof.
  intros Hs. rewrite fold_events_cons, (apply_event_unbound _ _ _ _ Hs), <- fold_events_cons.
  rewrite fold_events_bound by by destruct p. by destruct p.
Qed.
End Fold.

(** * Properties of the projection registry

    What a registry releases and under which conditions, what a refold and a
    restore leave in it, and the invariant of every reachable registry. *)

Section Properties.
Context `{Json} `{Ciborium} `{CiboriumCursor}.

(** ** The fence of a read *)

(** What the host has to grant for a read of [timeline]: a gate that permits the
    snapshot on it and on every ancestor bound for it, and State folded from this
    Timeline, or none, at the generation of the gate. *)
Definition releasable (gates : Gates) (p : ProjectionRegistry) (timeline : TimelineId) : Prop :=
  exists h, erasure_gate p = Some h
  /\ gate_authorize (gate_at gates h) timeline OpSnapshot = Ok tt
  /\ (source p = Unbound \/ source p = Bound timeline (gate_generation (gate_at gates h)))
  /\ forall head scopes, source_ancestry p = Some (head, scopes) ->
       head = timeline /\ forall scope, scope ∈ scopes ->
         gate_authorize (gate_at gates h) scope OpSnapshot = Ok tt.

Lemma authorize_fork_scopes_ok g scopes op :
  authorize_fork_scopes g scopes op = Ok tt <-> forall scope, scope ∈ scopes -> gate_authorize g scope op = Ok tt.
Proof.
  induction scopes as [|x scopes IH]; cbn.
  - split; [|done]. intros _ scope Hs. by apply not_elem_of_nil in Hs.
  - destruct (gate_authorize g x op) as [[]|e] eqn:Hx; cbn.
    + rewrite IH. split; [|intros Hall scope Hs; apply Hall; by right].
      intros Hall scope [->|Hs]%elem_of_cons; [done|by apply Hall].
    + split; [done|]. intros Hall. specialize (Hall x ltac:(by left)). congruence.
Qed.

Lemma authorize_source_ancestry_ok p g timeline :
  authorize_source_ancestry p g timeline = Ok tt
  <-> forall head scopes, source_ancestry p = Some (head, scopes) ->
      head = timeline /\ forall scope, scope ∈ scopes -> gate_authorize g scope OpSnapshot = Ok tt.
Proof.
  unfold authorize_source_ancestry. destruct (source_ancestry p) as [[head scopes]|]; [|naive_solver].
  destruct (bool_decide_reflect (head = timeline)) as [->|Hne].
  - split.
    + intros Ha%map_err_ok_inv h s [= <- <-]. split; [done|]. by apply authorize_fork_scopes_ok.
    + intros Hall. destruct (Hall _ _ eq_refl) as [_ Hs%authorize_fork_scopes_ok]. by rewrite Hs.
  - split; [done|]. intros Hall. by destruct (Hall _ _ eq_refl).
Qed.

Lemma with_erasure_fence_ok {A} gates p timeline (effect : ProjectionRegistry -> Authority A) a :
  with_erasure_fence gates p timeline effect = Ok a <-> releasable gates p timeline /\ effect p = Ok a.
Proof.
  unfold with_erasure_fence, releasable, source_matches_timeline, apply_if_current_generation,
    source_generation_is_current.
  destruct (erasure_gate p) as [h|]; [|split; [done|by intros [(h & ? & _) _]]].
  cbv zeta. rewrite with_fence_spec. split.
  - intros Hf. destruct (negb _) eqn:Hm; [done|]. apply negb_false_iff in Hm.
    destruct (gate_authorize (gate_at gates h) timeline OpSnapshot) as [[]|] eqn:Hg; [|done]. cbn in Hf.
    apply rbind_ok_inv in Hf as ([] & Ha & Hf). pose proof (proj1 (authorize_source_ancestry_ok _ _ _) Ha) as Hanc.
    assert (Hs : effect p = Ok a
      /\ (source p = Unbound \/ source p = Bound timeline (gate_generation (gate_at gates h)))).
    { destruct (source p) as [|t gen|]; cbn in Hm, Hf; [split; [done|by left]| |done].
      apply bool_decide_eq_true in Hm as ->. destruct (bool_decide_reflect (Some timeline = None)); [done|].
      destruct (bool_decide_reflect (gen = gate_generation (gate_at gates h))) as [Hgen|]; [|done].
      split; [done|]. right. by rewrite Hgen. }
    destruct Hs as [He Hs]. split; [|done]. by exists h.
  - intros [(h' & [= <-] & Hg & Hsrc & Ha%authorize_source_ancestry_ok) He]. rewrite Hg.
    destruct Hsrc as [Hs|Hs]; rewrite Hs; cbn.
    + by rewrite Ha.
    + rewrite bool_decide_eq_true_2 by done. cbn. rewrite Ha. cbn.
      rewrite (bool_decide_eq_true_2 (gate_generation _ = _)) by done. by destruct (bool_decide (Some timeline = None)).
Qed.

(** ** What the reads return *)

(** What a reader sees of a slot: its name, its Plugin and the State of every
    entity. *)
Record SlotView := MkSlotView {
  view_name : RString;
  view_plugin : option PluginId;
  view_state : EntityId -> option State;
}.

Definition slot_view (entry : RString * Slot) : SlotView :=
  MkSlotView entry.1 (slot_plugin_id entry.2) (fun e => registry_get e (slot_registry entry.2)).

Definition view_agrees (v v' : SlotView) : Prop :=
  view_name v = view_name v' /\ view_plugin v = view_plugin v' /\ forall e, view_state v e = view_state v' e.

(** The registry shows the [views], slot by slot. *)
Definition shows (p : ProjectionRegistry) (views : list SlotView) : Prop :=
  Forall2 (fun entry v => view_agrees (slot_view entry) v) (slots p) views.

Definition view_named (name : RString) (v : SlotView) : bool := bool_decide (view_name v = name).
Definition view_owned (plugin : PluginId) (v : SlotView) : bool := bool_decide (view_plugin v = Some plugin).

(** The views that the first differing entity of a list comes from. *)
Definition view_differs (snapshot : gmap RString StateRegistry) (v : SlotView) (e : EntityId) : Prop :=
  default state_new (view_state v e) <> get_or_default e (default registry_empty (snapshot !! view_name v)).

(** Every read of the registry for [timeline], as a function of the views. *)
Record reads_as (gates : Gates) (p : ProjectionRegistry) (timeline : TimelineId) (views : list SlotView) : Prop := {
  ra_first e : state_for gates p timeline e = Ok (head views ≫= fun v => view_state v e);
  ra_named name e : state_for_reducer gates p timeline name e
    = match List.filter (view_named name) views with
      | [] => Ok None
      | [v] => Ok (view_state v e)
      | _ => Err AuthorityError.SourceUnavailable
      end;
  ra_plugin plugin e : state_for_plugin gates p timeline plugin e
    = Ok (List.find (view_owned plugin) views ≫= fun v => view_state v e);
  ra_snapshot : NoDup (view_name <$> views) -> exists snapshot, state_snapshot gates p timeline = Ok snapshot
    /\ (forall v, v ∈ views -> exists r, snapshot !! view_name v = Some r
         /\ forall e, registry_get e r = view_state v e)
    /\ forall name, is_Some (snapshot !! name) -> name ∈ view_name <$> views;
  ra_difference snapshot es : NoDup (view_name <$> views) ->
    exists d, diff_against_snapshot gates p timeline snapshot es = Ok d
    /\ match d with
       | None => forall v e, v ∈ views -> e ∈ es -> ~ view_differs snapshot v e
       | Some (name, e) => e ∈ es /\ exists v, v ∈ views /\ view_name v = name /\ view_differs snapshot v e
       end;
  ra_ambiguous : ~ NoDup (view_name <$> views) ->
    state_snapshot gates p timeline = Err AuthorityError.SourceUnavailable
    /\ forall snapshot es, diff_against_snapshot gates p timeline snapshot es = Err AuthorityError.SourceUnavailable;
}.

(** Every read of the registry for [timeline] is refused. *)
Definition reads_refused (gates : Gates) (p : ProjectionRegistry) (timeline : TimelineId) : Prop :=
  (forall e, state_for gates p timeline e = Err AuthorityError.SourceUnavailable)
  /\ (forall name e, state_for_reducer gates p timeline name e = Err AuthorityError.SourceUnavailable)
  /\ (forall plugin e, state_for_plugin gates p timeline plugin e = Err AuthorityError.SourceUnavailable)
  /\ state_snapshot gates p timeline = Err AuthorityError.SourceUnavailable
  /\ forall snapshot es, diff_against_snapshot gates p timeline snapshot es = Err AuthorityError.SourceUnavailable.

Lemma with_erasure_fence_runs {A} gates p timeline (effect : ProjectionRegistry -> Authority A) :
  releasable gates p timeline -> with_erasure_fence gates p timeline effect = effect p.
Proof.
  intros Hrel. assert (Hu : with_erasure_fence gates p timeline (fun _ => Ok tt) = Ok tt)
    by by apply with_erasure_fence_ok.
  revert Hu. unfold with_erasure_fence. destruct (erasure_gate p) as [h|]; [|done].
  destruct (negb _); [done|]. cbv zeta. rewrite !with_fence_spec.
  destruct (gate_authorize _ _ _) as [[]|]; [|done]. cbn.
  destruct (authorize_source_ancestry _ _ _) as [[]|]; [|done]. cbn.
  unfold apply_if_current_generation. by destruct (source_generation_is_current _ _).
Qed.

Lemma with_erasure_fence_refused {A} gates p timeline (effect : ProjectionRegistry -> Authority A) :
  ~ releasable gates p timeline -> with_erasure_fence gates p timeline effect = Err AuthorityError.SourceUnavailable.
Proof.
  intros Hn. destruct (with_erasure_fence gates p timeline effect) as [a|e] eqn:Hf.
  { apply with_erasure_fence_ok in Hf as [? _]. done. }
  revert Hf. destruct (with_erasure_fence gates p timeline (fun _ => Ok tt)) as [[]|e'] eqn:Hu.
  { apply with_erasure_fence_ok in Hu as [? _]. done. }
  revert Hu. unfold with_erasure_fence. destruct (erasure_gate p) as [h|]; [|congruence].
  destruct (negb _); [congruence|]. cbv zeta. rewrite !with_fence_spec.
  destruct (gate_authorize _ _ _) as [[]|]; cbn; [|congruence].
  destruct (authorize_source_ancestry _ _ _) as [[]|] eqn:Ha; cbn.
  - unfold apply_if_current_generation. destruct (source_generation_is_current _ _); congruence.
  - unfold authorize_source_ancestry in Ha. destruct (source_ancestry p) as [[head scopes]|]; [|done].
    destruct (bool_decide _); [|congruence]. destruct (authorize_fork_scopes _ _ _); cbn in Ha; congruence.
Qed.

Lemma reads_refused_unless gates p timeline : ~ releasable gates p timeline -> reads_refused gates p timeline.
Proof. intros Hn. split_and!; intros; by apply with_erasure_fence_refused. Qed.

Lemma shows_filter views p name :
  shows p views ->
  Forall2 (fun entry v => view_agrees (slot_view entry) v) (List.filter (named name) (slots p))
    (List.filter (view_named name) views).
Proof.
  unfold shows. induction 1 as [|entry v l vs Ha _ IH]; [constructor|]. cbn. unfold named at 1, view_named at 1.
  destruct Ha as (Hn & ?). cbn in Hn. rewrite Hn. case_bool_decide; [|done]. by constructor.
Qed.

Lemma shows_find views p plugin e :
  shows p views ->
  List.find (owned_by plugin) (slots p) ≫= (fun entry => registry_get e (slot_registry entry.2))
  = List.find (view_owned plugin) views ≫= fun v => view_state v e.
Proof.
  unfold shows. induction 1 as [|entry v l vs Ha _ IH]; [done|]. cbn. unfold owned_by at 1, view_owned at 1.
  destruct Ha as (_ & Hp & He). cbn in Hp. rewrite Hp. case_bool_decide; [|done]. apply He.
Qed.

Lemma shows_names views p : shows p views -> reducer_names p = view_name <$> views.
Proof.
  unfold shows, reducer_names. induction 1 as [|entry v l vs (Hn & _) _ IH]; [done|]. cbn in *. by rewrite Hn, IH.
Qed.

Lemma snapshot_lookup p name r :
  NoDup (reducer_names p) ->
  snapshot_unfenced p !! name = Some r <-> exists s, (name, s) ∈ slots p /\ slot_registry s = r.
Proof.
  unfold snapshot_unfenced, reducer_names. destruct p as [l g b src a]. cbn.
  induction l as [|[n x] l IH] using rev_ind; intros Hnd.
  - cbn. rewrite lookup_empty. split; [done|]. intros (s & Hs & _). by apply not_elem_of_nil in Hs.
  - rewrite fold_left_app. cbn. rewrite fmap_app, NoDup_app in Hnd. destruct Hnd as (Hl & Hx & _).
    specialize (IH Hl). destruct (decide (n = name)) as [->|Hne].
    + rewrite lookup_insert_eq. split.
      * intros [= <-]. exists x. set_solver.
      * intros (s & [Hs|Hs]%elem_of_app & <-).
        -- exfalso. apply (Hx name); [|set_solver]. apply list_elem_of_fmap. by exists (name, s).
        -- by apply list_elem_of_singleton in Hs as [= ->].
    + rewrite lookup_insert_ne by done. rewrite IH. set_solver.
Qed.

Lemma unique_names p : has_duplicate_names p = false <-> NoDup (reducer_names p).
Proof. unfold has_duplicate_names. rewrite negb_false_iff. apply all_unique_NoDup. Qed.

Lemma diff_slots_shown snapshot es l views :
  Forall2 (fun entry v => view_agrees (slot_view entry) v) l views ->
  match diff_slots snapshot es l with
  | None => forall v e, v ∈ views -> e ∈ es -> ~ view_differs snapshot v e
  | Some (name, e) => e ∈ es /\ exists v, v ∈ views /\ view_name v = name /\ view_differs snapshot v e
  end.
Proof.
  induction 1 as [|[n s] v l vs (Hn & _ & He) _ IH]; cbn [diff_slots].
  { intros v e Hv. by apply not_elem_of_nil in Hv. }
  unfold diff_slot. cbn in *.
  destruct (List.find _ es) as [e|] eqn:Hf; cbn.
  - apply List.find_some in Hf as [Hin%list_elem_of_In Hd]. split; [done|]. exists v. split; [by left|]. split; [done|].
    apply negb_true_iff, bool_decide_eq_false in Hd. unfold view_differs, get_or_default in *.
    by rewrite <- He, <- Hn.
  - destruct (diff_slots snapshot es l) as [[name e]|].
    + destruct IH as (Hin & v' & Hv' & ?). split; [done|]. exists v'. split; [by right|done].
    + intros v' e [->|Hv']%elem_of_cons Hin; [|by apply IH]. intros Hd.
      pose proof (List.find_none _ _ Hf e (proj1 (list_elem_of_In _ _) Hin)) as Heq.
      apply negb_false_iff, bool_decide_eq_true in Heq. apply Hd. unfold get_or_default in *.
      by rewrite <- He, <- Hn.
Qed.

(** A registry that shows the views, and may be read, is read as the views. *)
Lemma shown_reads gates p timeline views :
  shows p views -> releasable gates p timeline -> reads_as gates p timeline views.
Proof.
  intros Hs Hrel.
  assert (Hdup : has_duplicate_names p = false <-> NoDup (view_name <$> views))
    by (by rewrite unique_names, (shows_names _ _ Hs)).
  split; unfold state_for, state_for_reducer, state_for_plugin, state_snapshot, diff_against_snapshot; intros;
    rewrite ?with_erasure_fence_runs by done.
  - f_equal. unfold shows in Hs. destruct Hs as [|entry v l vs (_ & _ & He) _]; [done|]. apply He.
  - pose proof (shows_filter _ _ name Hs) as Hf.
    destruct Hf as [|entry v l vs (_ & _ & He) [|entry' v' l' vs' _ _]]; [done| |done]. cbn. f_equal. apply He.
  - f_equal. by apply shows_find.
  - rewrite (proj2 Hdup) by done. eexists. split; [done|].
    assert (Hnd : NoDup (reducer_names p)) by by apply unique_names, Hdup. split.
    + intros v (i & Hi)%list_elem_of_lookup. destruct (Forall2_lookup_r _ _ _ _ _ Hs Hi) as ([n x] & Hx & Hn & _ & He).
      exists (slot_registry x). split; [|apply He]. cbn in Hn. rewrite <- Hn. apply snapshot_lookup; [done|].
      exists x. split; [by eapply list_elem_of_lookup_2|done].
    + intros name [r (x & Hx & _)%snapshot_lookup]; [|done]. rewrite <- (shows_names _ _ Hs).
      apply list_elem_of_fmap. by exists (name, x).
  - rewrite (proj2 Hdup) by done. eexists. split; [done|]. by apply diff_slots_shown.
  - assert (Hd : has_duplicate_names p = true) by (apply not_false_is_true; tauto). rewrite Hd.
    split; [done|]. intros. by rewrite with_erasure_fence_runs, Hd.
Qed.

(** A read that returns something was released. *)
Lemma read_released gates p timeline :
  (exists e st, state_for gates p timeline e = Ok st)
  \/ (exists name e st, state_for_reducer gates p timeline name e = Ok st)
  \/ (exists plugin e st, state_for_plugin gates p timeline plugin e = Ok st)
  \/ (exists snapshot, state_snapshot gates p timeline = Ok snapshot)
  \/ (exists snapshot es d, diff_against_snapshot gates p timeline snapshot es = Ok d) ->
  releasable gates p timeline.
Proof.
  intros [(e & st & Hr)|[(n & e & st & Hr)|[(pl & e & st & Hr)|[(sn & Hr)|(sn & es & d & Hr)]]]];
    by apply with_erasure_fence_ok in Hr as [? _].
Qed.

(** ** Refolding *)

Lemma with_fork_ancestry_fence_ok {S} g timeline ancestry op (effect : S -> S) s s' :
  with_fork_ancestry_fence g timeline ancestry op effect s = (s', Ok tt) <->
  validate_fork_ancestry timeline ancestry = Ok tt /\ gate_authorize g timeline op = Ok tt
  /\ (forall meta, meta ∈ ancestry -> gate_authorize g (meta_id meta) op = Ok tt) /\ s' = effect s.
Proof.
  unfold with_fork_ancestry_fence. destruct (validate_fork_ancestry timeline ancestry) as [[]|]; [|naive_solver].
  rewrite with_fence_spec. destruct (gate_authorize g timeline op) as [[]|]; [|naive_solver].
  assert (Hall : authorize_fork_scopes g (meta_id <$> ancestry) op = Ok tt
    <-> forall meta, meta ∈ ancestry -> gate_authorize g (meta_id meta) op = Ok tt).
  { rewrite authorize_fork_scopes_ok. split.
    - intros Hs meta Hm. apply Hs, list_elem_of_fmap. eauto.
    - intros Hs scope (meta & -> & Hm)%list_elem_of_fmap. by apply Hs. }
  destruct (authorize_fork_scopes g _ op) as [[]|e]; cbn.
  - split; [|naive_solver]. intros [= <-]. split; [done|]. split; [done|]. split; [by apply Hall|done].
  - split; [naive_solver|]. intros (_ & _ & Hm & _). apply Hall in Hm. done.
Qed.

(** A refused ancestry fence leaves the state alone, if its effect does not fail. *)
Lemma with_fork_ancestry_fence_err {S} g timeline ancestry op (effect : S -> S) s s' e :
  with_fork_ancestry_fence g timeline ancestry op effect s = (s', Err e) -> s' = s.
Proof.
  unfold with_fork_ancestry_fence. destruct (validate_fork_ancestry timeline ancestry) as [[]|]; [|naive_solver].
  rewrite with_fence_spec. destruct (gate_authorize g timeline op) as [[]|]; [|naive_solver].
  destruct (authorize_fork_scopes g _ op) as [[]|e']; cbn; naive_solver.
Qed.

(** The slots of a registry with all its State replaced. *)
Lemma map_registries_lookup f p i name s :
  slots p !! i = Some (name, s) -> slots (map_registries f p) !! i = Some (name, with_registry (f s) s).
Proof. intros Hs. cbn. by rewrite list_lookup_fmap, Hs. Qed.

Lemma clear_then_folded events p :
  map_registries (folded events) (clear_state p)
  = with_ancestry None (with_source Unbound
      (map_registries (fun s => fold_left (fun r event => event_step (slot_reducer s) event r) events registry_empty) p)).
Proof.
  destruct p as [l g b s a]. unfold clear_state, map_registries, with_slots, with_source, with_ancestry. cbn.
  f_equal. rewrite <- list_fmap_compose. apply list_fmap_ext. intros i [n x] _. by destruct x.
Qed.

Lemma refold_cases gates timeline ancestry events generation p p' r :
  refold_events gates timeline ancestry events generation p = (p', r) ->
  (exists h, r = Ok tt /\ erasure_gate p = Some h
    /\ gate_authorize (gate_at gates h) timeline OpSnapshot = Ok tt
    /\ (forall meta, meta ∈ ancestry -> gate_authorize (gate_at gates h) (meta_id meta) OpSnapshot = Ok tt)
    /\ gate_generation (gate_at gates h) = generation
    /\ p' = record_source_ancestry timeline ancestry
         (with_source (if decide (events = []) then Unbound else Bound timeline generation)
           (map_registries (folded events) (clear_state p))))
  \/ (p' = p /\ exists e, r = Err e).
Proof.
  unfold refold_events. destruct (erasure_gate p) as [h|] eqn:Hh; [|intros [= <- <-]; eauto].
  destruct (with_fork_ancestry_fence _ _ _ _ _ _) as [[q refolded] [[]|e]] eqn:Hf.
  - apply with_fork_ancestry_fence_ok in Hf as (_ & Hg & Hm & Hq).
    destruct (bool_decide_reflect (gate_generation (gate_at gates h) = generation)) as [Hgen|];
      [|injection Hq as -> ->; intros [= <- <-]; eauto].
    assert (Hfold : fold_events gates timeline events (clear_state p)
      = with_source (if decide (events = []) then Unbound else Bound timeline generation)
          (map_registries (folded events) (clear_state p))).
    { destruct events as [|ev events].
      - cbn. rewrite map_registries_id by done. by destruct p.
      - rewrite fold_events_unbound by done. do 2 f_equal.
        unfold current_generation. cbn. by rewrite Hh. }
    cbv beta iota zeta in Hq. cbn [fst] in Hq. rewrite Hfold in Hq. injection Hq as -> ->. cbn. unfold record_applied_ancestry.
    assert (Hmix : negb (is_mixed (if decide (events = []) then Unbound else Bound timeline generation)) = true)
      by by case_decide.
    rewrite Hmix. intros [= <- <-]. left. by exists h.
  - apply with_fork_ancestry_fence_err in Hf. injection Hf as -> ->. intros [= <- <-]. eauto.
Qed.

(** The view of a slot folded from [events]. *)
Definition history_view (events : list Event) (entry : RString * Slot) : SlotView :=
  MkSlotView entry.1 (slot_plugin_id entry.2) (fun e => entity_state (slot_reducer entry.2) e events).

(** C16: the registry computes the fold of the history.  A successful refold from
    the Events of a Timeline leaves every slot, unchanged otherwise, with exactly
    the State its reducer folds from the Events of each entity behind the last
    revocation of the entity's consent, without consent and geographic Events; and
    every read through the fence then answers from that State alone: the first
    slot, the slot of a name, the slot of a Plugin, the snapshot and the difference
    to a snapshot, with names that several slots share refused. *)
Theorem projection_refines_history gates timeline ancestry events generation p p' :
  refold_events gates timeline ancestry events generation p = (p', Ok tt) ->
  (forall i name s, slots p !! i = Some (name, s) ->
     exists s', slots p' !! i = Some (name, s')
       /\ (slot_plugin_id s', slot_reducer s', slot_policy s') = (slot_plugin_id s, slot_reducer s, slot_policy s)
       /\ forall e, registry_get e (slot_registry s') = entity_state (slot_reducer s) e events)
  /\ length (slots p') = length (slots p)
  /\ reads_as gates p' timeline (history_view events <$> slots p).
Proof.
  intros [(h & _ & Hh & Hg & Hm & Hgen & ->)|[_ [? ?]]]%refold_cases; [|done].
  rewrite clear_then_folded. split; [|split; [cbn; by rewrite length_fmap|]].
  - intros i name s Hs. eexists. split; [by apply map_registries_lookup|]. split; [done|].
    intros e. apply event_steps_states.
  - apply shown_reads.
    + unfold shows. cbn. apply Forall2_fmap_2, Forall_Forall2_diag, Forall_forall. intros [n x] _.
      split; [done|]. split; [done|]. intros e. apply event_steps_states.
    + exists h. split; [done|]. split; [done|]. split.
      * destruct (decide (events = [])); [by left|]. right. cbn. by rewrite Hgen.
      * intros head scopes [= <- <-]. split; [done|].
        intros scope (meta & -> & Hin)%list_elem_of_fmap. by apply Hm.
Qed.

(** ** Snapshots *)

Lemma restore_cases gates timeline ancestry snapshot generation p p' r :
  restore_from_snapshot gates timeline ancestry snapshot generation p = (p', r) ->
  (exists h, r = Ok tt /\ erasure_gate p = Some h /\ NoDup (reducer_names p)
    /\ gate_authorize (gate_at gates h) timeline OpSnapshot = Ok tt
    /\ (forall meta, meta ∈ ancestry -> gate_authorize (gate_at gates h) (meta_id meta) OpSnapshot = Ok tt)
    /\ gate_generation (gate_at gates h) = generation
    /\ p' = record_source_ancestry timeline ancestry (with_source (Bound timeline generation)
         (with_slots ((fun entry => (entry.1, with_registry (default registry_empty (snapshot !! entry.1)) entry.2))
            <$> slots p) (clear_state p))))
  \/ (p' = p /\ exists e, r = Err e).
Proof.
  unfold restore_from_snapshot. destruct (has_duplicate_names p) eqn:Hd; [intros [= <- <-]; eauto|].
  apply unique_names in Hd. destruct (erasure_gate p) as [h|] eqn:Hh; [|intros [= <- <-]; eauto].
  destruct (with_fork_ancestry_fence _ _ _ _ _ _) as [[q restored] [[]|e]] eqn:Hf.
  - apply with_fork_ancestry_fence_ok in Hf as (_ & Hg & Hm & Hq).
    destruct (bool_decide_reflect (gate_generation (gate_at gates h) = generation)) as [Hgen|];
      [|injection Hq as -> ->; intros [= <- <-]; eauto].
    injection Hq as -> ->. cbn [record_applied_ancestry]. intros [= <- <-]. left. exists h.
    do 6 (split; [done|]). rewrite Hgen. f_equal. unfold with_source, with_slots. cbn. f_equal.
    rewrite <- list_fmap_compose. apply list_fmap_ext. intros i [n x] _. cbn.
    by destruct (snapshot !! n).
  - apply with_fork_ancestry_fence_err in Hf. injection Hf as -> ->. intros [= <- <-]. eauto.
Qed.

(** The registry a restore builds, seen by name. *)
Lemma restored_snapshot p snapshot f :
  NoDup (reducer_names p) -> (forall name, is_Some (snapshot !! name) <-> name ∈ reducer_names p) ->
  snapshot_unfenced (with_slots ((fun entry => (entry.1, with_registry (default registry_empty (snapshot !! entry.1)) entry.2))
    <$> slots p) f) = snapshot.
Proof.
  intros Hnd Hdom. apply map_eq. intros name. apply option_eq. intros r.
  rewrite snapshot_lookup by (unfold reducer_names; cbn; by rewrite <- list_fmap_compose). cbn. split.
  - intros (s & ([n x] & [= -> ->] & Hin)%list_elem_of_fmap & <-). cbn.
    destruct (proj2 (Hdom n)) as [r Hr]; [apply list_elem_of_fmap; by exists (n, x)|]. by rewrite Hr.
  - intros Hr. assert (Hin : name ∈ reducer_names p) by by apply Hdom.
    apply list_elem_of_fmap in Hin as ([n x] & -> & Hin). cbn in Hr.
    exists (with_registry r x). split; [|done]. apply list_elem_of_fmap. exists (n, x). cbn. by rewrite Hr.
Qed.

(** A slot equal to the snapshot shows no difference. *)
Lemma diff_slots_none snapshot es l :
  (forall name s, (name, s) ∈ l -> slot_registry s = default registry_empty (snapshot !! name)) ->
  diff_slots snapshot es l = None.
Proof.
  induction l as [|[n x] l IH]; intros Hall; [done|]. cbn [diff_slots].
  assert (Hd : diff_slot snapshot es (n, x) = None).
  { unfold diff_slot. cbn. rewrite (Hall n x) by by left.
    destruct (List.find _ es) as [e|] eqn:Hf; [|done]. apply List.find_some in Hf as [_ Hf].
    by rewrite bool_decide_eq_true_2 in Hf. }
  rewrite Hd. apply IH. intros name s Hs. apply Hall. by right.
Qed.

(** C34: a restored snapshot is the captured one.  After a successful restore of a
    captured snapshot into a registry with the same reducer names, the restored
    registry captures exactly that snapshot again, shows no difference to it for
    any entities, and every slot of a name holds the State the slot of that name
    had in the original. *)
Theorem snapshot_restores gates gates' timeline ancestry generation p q q' snapshot :
  state_snapshot gates p timeline = Ok snapshot ->
  reducer_names q = reducer_names p ->
  restore_from_snapshot gates' timeline ancestry snapshot generation q = (q', Ok tt) ->
  state_snapshot gates' q' timeline = Ok snapshot
  /\ (forall es, diff_against_snapshot gates' q' timeline snapshot es = Ok None)
  /\ forall name s s', (name, s) ∈ slots p -> (name, s') ∈ slots q' -> slot_registry s' = slot_registry s.
Proof.
  intros [_ Hsnap]%with_erasure_fence_ok Hnames
    [(h & _ & Hh & Hnd & Hg & Hm & Hgen & ->)|[_ [? ?]]]%restore_cases; [|done].
  destruct (has_duplicate_names p) eqn:Hdup; [done|]. injection Hsnap as <-.
  apply unique_names in Hdup.
  assert (Hdom : forall name, is_Some (snapshot_unfenced p !! name) <-> name ∈ reducer_names q).
  { intros name. rewrite Hnames. unfold reducer_names. rewrite list_elem_of_fmap. split.
    - intros [r (s & Hs & _)%snapshot_lookup]; [|done]. by exists (name, s).
    - intros ([n s] & -> & Hs). exists (slot_registry s). apply snapshot_lookup; [done|]. by exists s. }
  set (q' := record_source_ancestry _ _ _).
  assert (Hrel : releasable gates' q' timeline).
  { exists h. split; [done|]. split; [done|]. split; [right; cbn; by rewrite Hgen|].
    intros head scopes [= <- <-]. split; [done|].
    intros scope (meta & -> & Hin)%list_elem_of_fmap. by apply Hm. }
  assert (Hnd' : has_duplicate_names q' = false).
  { apply unique_names. unfold reducer_names, q'. cbn. by rewrite <- list_fmap_compose. }
  split; [|split].
  - apply with_erasure_fence_ok. split; [done|]. rewrite Hnd'. f_equal. by apply restored_snapshot.
  - intros es. apply with_erasure_fence_ok. split; [done|]. rewrite Hnd'. f_equal. apply diff_slots_none.
    intros name s ([n x] & [= -> ->] & _)%list_elem_of_fmap. done.
  - intros name s s' Hs ([n x] & [= -> ->] & _)%list_elem_of_fmap. cbn.
    rewrite (proj2 (snapshot_lookup p n (slot_registry s) Hdup)); [done|]. by exists s.
Qed.
End Properties.
