(* ===== verification/ProjectionReach.v ===== *)
(** * Reachable projection registries

    Every way the host changes a registry as one step, with any state of the
    gates at each, and the invariant of all registries that such steps reach;
    then where the State a registry releases comes from: a run as a list of
    effects on the State, its replay, and the labels it was folded under. *)

From Stdlib Require Import String ZArith Lia Bool.
From S2P Require Import Prelude Text Cbor FallbackRecords FallbackPolicy ErasureGate Events EventStore.
From S2P Require Import StrictCbor PluginTrust WireSyntax TrustPolicy TrustBridge Consent.
From S2P Require Import Projection ProjectionProperties Candidate.

Local Open Scope Z_scope.

Section Reach.
Context `{Json} `{Ciborium} `{CiboriumCursor}.

(** A staged result comes from a candidate, whose source is bound. *)
Inductive projection_step : ProjectionRegistry -> ProjectionRegistry -> Prop :=
| step_register p name reducer : projection_step p (register name reducer p)
| step_observable p name reducer policy : projection_step p (register_observable name reducer policy p).1
| step_installed p plugin name reducer policy :
    projection_step p (register_installed_reducer_with_policy plugin name reducer policy p).1
| step_gate p g : projection_step p (bind_erasure_gate g p)
| step_no_gate p : projection_step p (without_erasure_gate p)
| step_ancestry p timeline ancestry : projection_step p (bind_fork_ancestry timeline ancestry p).1
| step_event p gates timeline event : projection_step p (apply_event gates timeline event p)
| step_refold p gates timeline ancestry events generation :
    projection_step p (refold_events gates timeline ancestry events generation p).1
| step_adopt p gates parent child ancestry :
    projection_step p (adopt_committed_fork gates parent child ancestry p).1
| step_restore p gates timeline ancestry snapshot generation :
    projection_step p (restore_from_snapshot gates timeline ancestry snapshot generation p).1
| step_clear p : projection_step p (clear_state p)
| step_retain p subject : projection_step p (retain_subject subject p)
| step_forget p subjects : projection_step p (forget_revoked_subjects subjects p)
| step_install p gates staged prepared :
    prepare_install gates p staged = Ok prepared -> is_Some (source_timeline (sp_source staged)) ->
    projection_step p (swap prepared).1.

Inductive projection_reachable : ProjectionRegistry -> Prop :=
| reach_new : projection_reachable projections_new
| reach_step p p' : projection_reachable p -> projection_step p p' -> projection_reachable p'.

(** ** The invariant *)

Definition stateless (p : ProjectionRegistry) : Prop :=
  forall entry, entry ∈ slots p -> slot_registry entry.2 = registry_empty.

Definition installed_ids (p : ProjectionRegistry) : list PluginId :=
  omap (fun entry => slot_plugin_id entry.2) (slots p).

Definition legacy_names (p : ProjectionRegistry) : list RString :=
  omap (fun entry => match slot_plugin_id entry.2 with None => Some entry.1 | Some _ => None end) (slots p).

Definition projection_ok (p : ProjectionRegistry) : Prop :=
  (source_timeline (source p) = None -> stateless p)
  /\ NoDup (installed_ids p) /\ NoDup (legacy_names p)
  /\ (erasure_gate_bound p = false -> erasure_gate p = Some OwnFailClosed \/ erasure_gate p = None).

(** Steps that keep the slots apart from their State. *)
Definition same_slots (p p' : ProjectionRegistry) : Prop :=
  installed_ids p' = installed_ids p /\ legacy_names p' = legacy_names p
  /\ erasure_gate p' = erasure_gate p /\ erasure_gate_bound p' = erasure_gate_bound p.

Lemma omap_fmap_ext {A B C} (f : A -> B) (g : B -> option C) (h : A -> option C) (l : list A) :
  (forall a, g (f a) = h a) -> omap g (f <$> l) = omap h l.
Proof. intros Hgh. induction l as [|a l IH]; [done|]. cbn. rewrite Hgh. by destruct (h a); rewrite IH. Qed.

Lemma omap_filter_NoDup {A B} (g : A -> option B) (keep : A -> bool) (l : list A) :
  NoDup (omap g l) -> NoDup (omap g (List.filter keep l)).
Proof.
  induction l as [|x l IH]; [done|]. cbn. intros Hnd.
  assert (Hl : NoDup (omap g l)) by (destruct (g x); [by apply NoDup_cons in Hnd as [_ Hnd]|done]).
  destruct (keep x); cbn; [|by apply IH]. destruct (g x) as [b|] eqn:Hx; [|by apply IH].
  apply NoDup_cons in Hnd as [Hb _]. apply NoDup_cons. split; [|by apply IH].
  intros (y & Hy & Hg)%list_elem_of_omap. apply Hb, list_elem_of_omap. exists y. split; [|done].
  apply list_elem_of_In, List.filter_In in Hy as [Hy _]. by apply list_elem_of_In.
Qed.

(** Replacing the State of the slots, entry by entry. *)
Lemma same_slots_fmap (f : RString * Slot -> StateRegistry) p p' :
  slots p' = (fun entry => (entry.1, with_registry (f entry) entry.2)) <$> slots p ->
  erasure_gate p' = erasure_gate p -> erasure_gate_bound p' = erasure_gate_bound p -> same_slots p p'.
Proof.
  intros Hs Hg Hb. unfold same_slots, installed_ids, legacy_names. rewrite Hs.
  split; [by apply omap_fmap_ext|]. split; [|done]. by apply omap_fmap_ext.
Qed.

Lemma same_slots_map f p : same_slots p (map_registries f p).
Proof. by apply (same_slots_fmap (fun entry => f entry.2)). Qed.

Lemma same_slots_trans p q r : same_slots p q -> same_slots q r -> same_slots p r.
Proof. unfold same_slots. naive_solver congruence. Qed.

Lemma same_slots_ok p p' :
  projection_ok p -> same_slots p p' -> (source_timeline (source p') = None -> stateless p') -> projection_ok p'.
Proof. intros (_ & Hi & Hl & Hg) (Hi' & Hl' & Hg' & Hb') Hs. unfold projection_ok. by rewrite Hi', Hl', Hg', Hb'. Qed.

Lemma stateless_clear p : stateless (clear_state p).
Proof. intros entry ([n x] & -> & _)%list_elem_of_fmap. done. Qed.

Lemma stateless_map f p :
  (forall s, slot_registry s = registry_empty -> f s = registry_empty) ->
  stateless p -> stateless (map_registries f p).
Proof. intros Hf Hp entry ([n x] & -> & Hx)%list_elem_of_fmap. apply Hf. exact (Hp _ Hx). Qed.

Lemma remove_empty e : registry_remove e registry_empty = registry_empty.
Proof. unfold registry_remove. cbn. by rewrite delete_empty. Qed.

(** ** Every step preserves it *)

Lemma map_ok f p :
  (forall s, slot_registry s = registry_empty -> f s = registry_empty) ->
  projection_ok p -> projection_ok (map_registries f p).
Proof.
  intros Hf Hp. apply (same_slots_ok p); [done|apply same_slots_map|].
  intros Hs. apply stateless_map; [done|]. by apply Hp.
Qed.

Lemma forget_ok e p : projection_ok p -> projection_ok (forget_subject e p).
Proof. apply map_ok. intros s ->. apply remove_empty. Qed.

Lemma forget_all_ok es p : projection_ok p -> projection_ok (forget_revoked_subjects es p).
Proof.
  unfold forget_revoked_subjects. revert p. induction es as [|e es IH]; intros p Hp; [done|].
  apply IH. by apply forget_ok.
Qed.

Lemma retain_ok e p : projection_ok p -> projection_ok (retain_subject e p).
Proof. apply map_ok. intros s ->. unfold retain_only. cbn. by rewrite map_filter_empty. Qed.

Lemma clear_same p : same_slots p (clear_state p).
Proof. by apply (same_slots_fmap (fun _ => registry_empty)). Qed.

Lemma clear_ok p : projection_ok p -> projection_ok (clear_state p).
Proof. intros Hp. apply (same_slots_ok p); [done|apply clear_same|]. intros _. apply stateless_clear. Qed.

Lemma apply_event_ok gates timeline event p : projection_ok p -> projection_ok (apply_event gates timeline event p).
Proof.
  intros Hp. unfold apply_event, bind_event_source. destruct (source p) as [|t g|] eqn:Hs.
  - rewrite apply_bound_event_slots. apply (same_slots_ok p); [done| |done].
    apply (same_slots_trans _ (with_source (Bound timeline (current_generation gates p)) p)); [done|].
    apply same_slots_map.
  - destruct (_ || _).
    + apply (same_slots_ok p); [done| |].
      * apply (same_slots_trans _ (clear_state p)); [apply clear_same|done].
      * intros _. apply stateless_clear.
    + rewrite apply_bound_event_slots. apply (same_slots_ok p); [done|apply same_slots_map|].
      cbn. by rewrite Hs.
  - done.
Qed.

Lemma register_ok name reducer policy p : projection_ok p -> projection_ok (register_with_policy name reducer policy p).
Proof.
  intros (Hs & Hi & Hl & Hg). destruct p as [l g b src a]. unfold projection_ok, stateless, installed_ids, legacy_names in *.
  cbn in *. rewrite !omap_app. cbn. rewrite app_nil_r. split; [|split; [|split; [|done]]].
  - intros Hsrc entry [Hin|Hin]%elem_of_app.
    + apply (Hs Hsrc). apply list_elem_of_In, List.filter_In in Hin as [Hin _]. by apply list_elem_of_In.
    + by apply list_elem_of_singleton in Hin as ->.
  - by apply omap_filter_NoDup.
  - apply NoDup_app. split; [by apply omap_filter_NoDup|split; [|apply NoDup_singleton]].
    intros n ([m y] & Hy & Hpl)%list_elem_of_omap Hn%list_elem_of_singleton. subst n.
    apply list_elem_of_In, List.filter_In in Hy as [_ Hy]. cbn in Hpl, Hy.
    destruct (slot_plugin_id y); [done|]. injection Hpl as ->. unfold named in Hy. cbn in Hy.
    by rewrite bool_decide_eq_true_2 in Hy.
Qed.
Lemma installed_ok plugin name reducer policy p :
  projection_ok p -> projection_ok (register_installed_reducer_with_policy plugin name reducer policy p).1.
Proof.
  intros Hp. unfold register_installed_reducer_with_policy. destruct (invalid_text name); [done|].
  destruct (existsb (owned_by plugin) (slots p)) eqn:Hex; [done|]. destruct Hp as (Hs & Hi & Hl & Hg).
  unfold projection_ok, stateless, installed_ids, legacy_names in *. cbn. rewrite !omap_app. cbn. rewrite app_nil_r.
  split; [|split; [|done]].
  - intros Hsrc entry [Hin|Hin]%elem_of_app; [by apply (Hs Hsrc)|]. by apply list_elem_of_singleton in Hin as ->.
  - apply NoDup_app. split; [done|split; [|apply NoDup_singleton]].
    intros x ([n y] & Hy & Hpl)%list_elem_of_omap Hx%list_elem_of_singleton. subst x. cbn in Hpl.
    assert (Htrue : existsb (owned_by plugin) (slots p) = true); [|congruence].
    apply existsb_exists. exists (n, y). split; [by apply list_elem_of_In|].
    unfold owned_by. cbn. by apply bool_decide_eq_true.
Qed.

Lemma refold_ok gates timeline ancestry events generation p :
  projection_ok p -> projection_ok (refold_events gates timeline ancestry events generation p).1.
Proof.
  intros Hp. destruct (refold_events gates timeline ancestry events generation p) as [p' r] eqn:Hr.
  apply refold_cases in Hr as [(h & _ & _ & _ & _ & _ & ->)|[-> _]]; [|done].
  apply (same_slots_ok p); [done| |].
  - apply (same_slots_trans _ (clear_state p)); [apply clear_same|].
    apply (same_slots_trans _ (map_registries (folded events) (clear_state p))); [apply same_slots_map|done].
  - cbn. case_decide as He; [|done]. subst events. intros _ entry Hin.
    apply (stateless_map (folded []) (clear_state p)); [done|apply stateless_clear|exact Hin].
Qed.

Lemma restore_ok gates timeline ancestry snapshot generation p :
  projection_ok p -> projection_ok (restore_from_snapshot gates timeline ancestry snapshot generation p).1.
Proof.
  intros Hp. destruct (restore_from_snapshot gates timeline ancestry snapshot generation p) as [p' r] eqn:Hr.
  apply restore_cases in Hr as [(h & _ & _ & _ & _ & _ & _ & ->)|[-> _]]; [|done].
  apply (same_slots_ok p); [done| |done].
  by apply (same_slots_fmap (fun entry => default registry_empty (snapshot !! entry.1))).
Qed.

Lemma adopt_ok gates parent child ancestry p :
  projection_ok p -> projection_ok (adopt_committed_fork gates parent child ancestry p).1.
Proof.
  intros Hp. unfold adopt_committed_fork. destruct (_ || _); [done|].
  destruct (validate_adopted_ancestry parent child ancestry); [|done].
  destruct (erasure_gate p) as [h|]; [|done]. rewrite with_fence_spec.
  destruct (gate_authorize (gate_at gates h) child OpFork); [|done]. cbn.
  by apply (same_slots_ok p).
Qed.

Lemma gate_ok g p : projection_ok p -> projection_ok (bind_erasure_gate g p).
Proof.
  intros Hp. unfold bind_erasure_gate. destruct (erasure_gate_bound p) eqn:Hb; [done|].
  destruct Hp as (Hs & Hi & Hl & Hg). do 3 (split; [done|]). done.
Qed.

Lemma no_gate_ok p : projection_ok p -> projection_ok (without_erasure_gate p).
Proof. intros (Hs & Hi & Hl & Hg). do 3 (split; [done|]). intros _. by right. Qed.

(** The exchanged maps of an install. *)
Lemma swap_maps_spec (live : list (RString * Slot)) (staged : list StateRegistry) :
  length live = length staged ->
  swap_maps live staged = (zip_with (fun entry r => (entry.1, with_registry r entry.2)) live staged,
                           (fun entry => slot_registry entry.2) <$> live).
Proof.
  revert staged. induction live as [|[n x] live IH]; intros [|r staged] Hl; try done.
  cbn in *. injection Hl as Hl. by rewrite IH.
Qed.

Lemma omap_zip_same {A B C} (f : A -> B -> A) (g : A -> option C) (l : list A) (l' : list B) :
  length l = length l' -> (forall a b, g (f a b) = g a) -> omap g (zip_with f l l') = omap g l.
Proof.
  intros Hl Hf. revert l' Hl. induction l as [|a l IH]; intros [|b l'] Hl; try done.
  cbn in *. injection Hl as Hl. by rewrite Hf, IH.
Qed.

Lemma checked_length gates p staged : check_install gates p staged = Ok tt -> length (slots p) = length (sp_slots staged).
Proof.
  unfold check_install, slots_match. destruct (_ || _); [done|].
  destruct ((len (slots p) =? len (sp_slots staged)) && _) eqn:Hm; [|done].
  apply andb_prop in Hm as [Hl%Z.eqb_eq _]. unfold len in Hl. lia.
Qed.

Lemma prepared_swap gates p staged prepared :
  prepare_install gates p staged = Ok prepared ->
  check_install gates p staged = Ok tt
  /\ swap prepared
     = (with_source (sp_source staged) (with_slots
          (zip_with (fun entry r => (entry.1, with_registry r entry.2)) (slots p) (ss_registry <$> sp_slots staged)) p),
        MkDisplaced ((fun entry => slot_registry entry.2) <$> slots p) (source p)).
Proof.
  unfold prepare_install. intros ([] & Hc & [= <-])%rbind_ok_inv. split; [done|].
  apply checked_length in Hc. unfold swap, prepare_checked. cbn.
  assert (Hz : zip_with (fun _ s => ss_registry s) (slots p) (sp_slots staged) = ss_registry <$> sp_slots staged).
  { revert Hc. generalize (slots p) (sp_slots staged). intros l l'. revert l'.
    induction l as [|a l IH]; intros [|s l'] Hl; try done. cbn in *. injection Hl as Hl. by rewrite IH. }
  rewrite Hz, swap_maps_spec by by rewrite length_fmap. done.
Qed.

Lemma install_ok gates p staged prepared :
  prepare_install gates p staged = Ok prepared -> is_Some (source_timeline (sp_source staged)) ->
  projection_ok p -> projection_ok (swap prepared).1.
Proof.
  intros [Hc ->]%prepared_swap [t Ht] Hp. apply checked_length in Hc. cbn [fst].
  apply (same_slots_ok p); [done| |cbn; congruence].
  assert (Hl : length (slots p) = length (ss_registry <$> sp_slots staged)) by by rewrite length_fmap.
  unfold same_slots, installed_ids, legacy_names. cbn. by rewrite !omap_zip_same.
Qed.

Lemma projection_step_ok p p' : projection_step p p' -> projection_ok p -> projection_ok p'.
Proof.
  intros []; eauto using register_ok, installed_ok, gate_ok, no_gate_ok, apply_event_ok, refold_ok, adopt_ok,
    restore_ok, clear_ok, retain_ok, forget_all_ok, install_ok.
  - unfold register_observable. destruct (invalid_text name); [done|]. by apply register_ok.
  - intros Hp. unfold bind_fork_ancestry. destruct (validate_fork_ancestry _ _); [|done].
    by apply (same_slots_ok p0); [|done|apply Hp].
Qed.

Lemma projection_reachable_ok p : projection_reachable p -> projection_ok p.
Proof.
  induction 1 as [|p p' _ IH Hstep]; [|by eapply projection_step_ok].
  split; [intros _ entry Hin; by apply not_elem_of_nil in Hin|]. split; [constructor|]. split; [constructor|].
  by left.
Qed.

Lemma fail_closed_refuses timeline op : gate_authorize gate_new_fail_closed timeline op <> Ok tt.
Proof. by destruct op. Qed.

(** C18: registries stay consistent.  In every registry the host can reach, State
    exists only while the source is bound to a Timeline, every installed Plugin
    owns one slot and every legacy name one legacy slot; and before the host has
    bound its gate no read releases anything. *)
Theorem projection_invariant p :
  projection_reachable p ->
  projection_ok p /\ forall gates timeline, releasable gates p timeline -> erasure_gate_bound p = true.
Proof.
  intros Hp%projection_reachable_ok. split; [done|].
  intros gates timeline (h & Hh & Hg & _). destruct (erasure_gate_bound p) eqn:Hb; [done|exfalso].
  destruct Hp as (_ & _ & _ & Hgate). destruct (Hgate Hb) as [Ho|Hn]; [|congruence].
  rewrite Hh in Ho. injection Ho as ->. by apply fail_closed_refuses in Hg.
Qed.

(** ** Where State comes from *)

(** What a step does to the State of every slot. *)
Inductive StateEffect :=
| Emptied
| Applied (timeline : TimelineId) (generation : option ErasureReferenceV1) (event : Event)
| Loaded (timeline : TimelineId) (generation : option ErasureReferenceV1)
    (content : RString -> option PluginId -> StateRegistry)
| Adopted (child : TimelineId) (generation : option ErasureReferenceV1)
| Forgotten (subject : EntityId)
| Retained (subject : EntityId).

Definition effect_on (entry : RString * Slot) (r : StateRegistry) (f : StateEffect) : StateRegistry :=
  match f with
  | Emptied => registry_empty
  | Applied _ _ event => event_step (slot_reducer entry.2) event r
  | Loaded _ _ content => content entry.1 (slot_plugin_id entry.2)
  | Adopted _ _ => r
  | Forgotten subject => registry_remove subject r
  | Retained subject => retain_only subject r
  end.

(** The State of a slot that was empty before [effects]. *)
Definition replay (entry : RString * Slot) (effects : list StateEffect) : StateRegistry :=
  fold_left (effect_on entry) effects registry_empty.

Definition Label : Type := TimelineId * option ErasureReferenceV1.

(** The labels the source had since State was last emptied or replaced, latest first. *)
Definition label_step (ls : list Label) (f : StateEffect) : list Label :=
  match f with
  | Emptied => []
  | Applied t g _ => match ls with [] => [(t, g)] | _ => ls end
  | Loaded t g _ => [(t, g)]
  | Adopted child g => (child, g) :: ls
  | Forgotten _ | Retained _ => ls
  end.
Definition labels (effects : list StateEffect) : list Label := fold_left label_step effects [].

(** For which Timelines, at which generations, the State was folded or loaded. *)
Definition origin_step (os : list Label) (f : StateEffect) : list Label :=
  match f with
  | Emptied => []
  | Applied t g _ => (t, g) :: os
  | Loaded t g _ => [(t, g)]
  | Adopted _ _ | Forgotten _ | Retained _ => os
  end.
Definition origins (effects : list StateEffect) : list Label := fold_left origin_step effects [].

Definition event_effect (gates : Gates) (timeline : TimelineId) (event : Event) (p : ProjectionRegistry) : StateEffect :=
  if is_mixed (source (apply_event gates timeline event p)) then Emptied
  else Applied timeline (current_generation gates p) event.

Definition staged_content (staged : StagedProjectionV1) (_ : RString) (plugin : option PluginId) : StateRegistry :=
  match List.find (fun s => bool_decide (plugin = Some (ss_plugin_id s))) (sp_slots staged) with
  | Some s => ss_registry s
  | None => registry_empty
  end.

(** A step with its effects, in order; a refused operation has none. *)
Inductive effect_step : ProjectionRegistry -> list StateEffect -> ProjectionRegistry -> Prop :=
| effect_register p name reducer : effect_step p [] (register name reducer p)
| effect_observable p name reducer policy : effect_step p [] (register_observable name reducer policy p).1
| effect_installed p plugin name reducer policy :
    effect_step p [] (register_installed_reducer_with_policy plugin name reducer policy p).1
| effect_gate p g : effect_step p [] (bind_erasure_gate g p)
| effect_no_gate p : effect_step p [] (without_erasure_gate p)
| effect_ancestry p timeline ancestry : effect_step p [] (bind_fork_ancestry timeline ancestry p).1
| effect_event p gates timeline event :
    effect_step p [event_effect gates timeline event p] (apply_event gates timeline event p)
| effect_refold p gates timeline ancestry events generation :
    effect_step p (if is_ok (refold_events gates timeline ancestry events generation p).2
                   then Emptied :: (Applied timeline generation <$> events) else [])
      (refold_events gates timeline ancestry events generation p).1
| effect_adopt p gates parent child ancestry :
    effect_step p (if is_ok (adopt_committed_fork gates parent child ancestry p).2
                   then [Adopted child (current_generation gates p)] else [])
      (adopt_committed_fork gates parent child ancestry p).1
| effect_restore p gates timeline ancestry snapshot generation :
    effect_step p (if is_ok (restore_from_snapshot gates timeline ancestry snapshot generation p).2
                   then [Loaded timeline generation (fun name _ => default registry_empty (snapshot !! name))] else [])
      (restore_from_snapshot gates timeline ancestry snapshot generation p).1
| effect_clear p : effect_step p [Emptied] (clear_state p)
| effect_retain p subject : effect_step p [Retained subject] (retain_subject subject p)
| effect_forget p subjects : effect_step p (Forgotten <$> subjects) (forget_revoked_subjects subjects p)
| effect_install p gates staged prepared timeline generation :
    prepare_install gates p staged = Ok prepared -> sp_source staged = Bound timeline generation ->
    effect_step p [Loaded timeline generation (staged_content staged)] (swap prepared).1.

(** A registry with everything that was done to State on the way to it. *)
Inductive projection_run : list StateEffect -> ProjectionRegistry -> Prop :=
| run_new : projection_run [] projections_new
| run_step effects p more p' :
    projection_run effects p -> effect_step p more p' -> projection_run (effects ++ more) p'.

Lemma effect_step_step p effects p' : effect_step p effects p' -> projection_step p p'.
Proof.
  intros []; try by constructor. eapply step_install; [done|].
  match goal with Hs : sp_source _ = _ |- _ => by rewrite Hs end.
Qed.

Lemma run_reachable effects p : projection_run effects p -> projection_reachable p.
Proof. induction 1; [constructor|]. eapply reach_step; [done|]. by eapply effect_step_step. Qed.

(** *** Every slot holds the replay of the run since it was registered *)

Definition replayed (effects : list StateEffect) (p : ProjectionRegistry) : Prop :=
  forall entry, entry ∈ slots p ->
    exists before since, effects = before ++ since /\ slot_registry entry.2 = replay entry since.

Lemma replay_more entry since more : replay entry (since ++ more) = fold_left (effect_on entry) more (replay entry since).
Proof. apply fold_left_app. Qed.

(** A step that changes every slot by its effects. *)
Lemma replayed_map (f : RString * Slot -> StateRegistry) effects more p p' :
  replayed effects p -> slots p' = (fun entry => (entry.1, with_registry (f entry) entry.2)) <$> slots p ->
  (forall entry, entry ∈ slots p -> f entry = fold_left (effect_on entry) more (slot_registry entry.2)) ->
  replayed (effects ++ more) p'.
Proof.
  intros Hr Hs Hf entry Hin. rewrite Hs in Hin. apply list_elem_of_fmap in Hin as ([n x] & -> & Hin).
  destruct (Hr _ Hin) as (before & since & -> & Hold). exists before, (since ++ more).
  split; [by rewrite app_assoc|]. change (f (n, x) = replay (n, x) (since ++ more)). rewrite (Hf _ Hin), Hold.
  symmetry. exact (replay_more (n, x) since more).
Qed.

Lemma replayed_same effects p p' : replayed effects p -> slots p' = slots p -> replayed (effects ++ []) p'.
Proof. intros Hr Hs entry Hin. rewrite app_nil_r. apply Hr. by rewrite <- Hs. Qed.

(** A step that adds an empty slot and keeps some of the others. *)
Lemma replayed_register effects p p' name slot kept :
  replayed effects p -> slots p' = kept ++ [(name, slot)] -> slot_registry slot = registry_empty ->
  (forall entry, entry ∈ kept -> entry ∈ slots p) -> replayed (effects ++ []) p'.
Proof.
  intros Hr Hs He Hk entry Hin. rewrite app_nil_r. rewrite Hs in Hin.
  apply elem_of_app in Hin as [Hin|Hin]; [by apply Hr, Hk|]. apply list_elem_of_singleton in Hin as ->.
  exists effects, []. split; [by rewrite app_nil_r|done].
Qed.

Lemma replay_events entry t g events r :
  fold_left (effect_on entry) (Applied t g <$> events) r
  = fold_left (fun r event => event_step (slot_reducer entry.2) event r) events r.
Proof. revert r. induction events as [|event events IH]; intros r; [done|]. cbn. apply IH. Qed.

Lemma apply_event_source gates timeline event p :
  (source (apply_event gates timeline event p) = Bound timeline (current_generation gates p)
   /\ slots (apply_event gates timeline event p)
      = (fun entry => (entry.1, with_registry (event_step (slot_reducer entry.2) event (slot_registry entry.2)) entry.2)) <$> slots p
   /\ (source p = Unbound \/ source p = Bound timeline (current_generation gates p)))
  \/ (source (apply_event gates timeline event p) = Mixed
      /\ (slots (apply_event gates timeline event p) = slots (clear_state p)
          \/ (source p = Mixed /\ apply_event gates timeline event p = p))).
Proof.
  unfold apply_event, bind_event_source. destruct (source p) as [|t g|] eqn:Hs.
  - left. rewrite apply_bound_event_slots. split; [done|]. split; [done|by left].
  - destruct (bool_decide_reflect (g = current_generation gates p)) as [->|]; cbn; [|right; split; [done|by left]].
    destruct (bool_decide_reflect (t = timeline)) as [->|]; cbn; [|right; split; [done|by left]].
    left. rewrite apply_bound_event_slots. split; [done|]. split; [done|by right].
  - right. split; [done|by right].
Qed.

Lemma slots_match_spec live staged :
  slots_match live staged = true <->
  Forall2 (fun entry s => slot_plugin_id entry.2 = Some (ss_plugin_id s) /\ entry.1 = ss_name s
    /\ slot_policy entry.2 = ss_policy s) live staged.
Proof.
  unfold slots_match. split.
  - intros [Hl%Z.eqb_eq Hf]%andb_prop. unfold len in Hl. apply Nat2Z.inj in Hl.
    revert staged Hl Hf. induction live as [|x live IH]; intros [|s staged] Hl Hf; try done.
    cbn in Hf, Hl. apply andb_prop in Hf as [Hm Hf]. injection Hl as Hl. constructor; [|by apply IH].
    unfold slot_matches in Hm. by apply andb_prop in Hm as [[?%bool_decide_eq_true ?%bool_decide_eq_true]%andb_prop
      ?%bool_decide_eq_true].
  - induction 1 as [|x s live staged (H1' & H2 & H3) _ IH]; [done|]. apply andb_prop in IH as [Hl Hf].
    apply Z.eqb_eq in Hl. apply andb_true_intro.
    split; [apply Z.eqb_eq; unfold len in *; cbn [length]; lia|]. cbn. apply andb_true_intro. split; [|done].
    unfold slot_matches. cbn. by rewrite H1', H2, H3, !bool_decide_eq_true_2.
Qed.

Lemma find_by_plugin (l : list (RString * Slot)) (k : list StagedSlotV1) i entry s :
  Forall2 (fun entry s => slot_plugin_id entry.2 = Some (ss_plugin_id s) /\ entry.1 = ss_name s
    /\ slot_policy entry.2 = ss_policy s) l k ->
  NoDup (omap (fun entry => slot_plugin_id entry.2) l) -> l !! i = Some entry -> k !! i = Some s ->
  List.find (fun s => bool_decide (slot_plugin_id entry.2 = Some (ss_plugin_id s))) k = Some s.
Proof.
  intros Hm. revert i. induction Hm as [|[n x] s0 l k (Hp & _) Hm IH]; intros i; [done|].
  cbn in *. rewrite Hp. intros [Hnew Hnd]%NoDup_cons. destruct i as [|i]; cbn.
  - intros [= <-] [= <-]. cbn. by rewrite bool_decide_eq_true_2.
  - intros Hl Hk. rewrite bool_decide_eq_false_2; [by eapply IH|]. intros He. apply Hnew.
    apply list_elem_of_omap. exists entry. split; [by eapply list_elem_of_lookup_2|done].
Qed.

(** The State of an install, slot by slot. *)
Lemma installed_slots gates p staged :
  projection_ok p -> check_install gates p staged = Ok tt ->
  zip_with (fun entry r => (entry.1, with_registry r entry.2)) (slots p) (ss_registry <$> sp_slots staged)
  = (fun entry => (entry.1, with_registry (staged_content staged entry.1 (slot_plugin_id entry.2)) entry.2)) <$> slots p.
Proof.
  intros (_ & Hnd & _) Hc. assert (Hm : slots_match (slots p) (sp_slots staged) = true).
  { revert Hc. unfold check_install. destruct (_ || _); [done|]. by destruct (slots_match _ _). }
  apply slots_match_spec in Hm. apply list_eq. intros i. rewrite lookup_zip_with, !list_lookup_fmap.
  destruct (slots p !! i) as [entry|] eqn:Hi; [|done]. cbn.
  destruct (Forall2_lookup_l _ _ _ _ _ Hm Hi) as (s & Hs & _). rewrite Hs. cbn.
  unfold staged_content. by rewrite (find_by_plugin _ _ _ _ _ Hm Hnd Hi Hs).
Qed.

Lemma retain_forget_slots effects p subjects :
  replayed effects p -> replayed (effects ++ (Forgotten <$> subjects)) (forget_revoked_subjects subjects p).
Proof.
  unfold forget_revoked_subjects. revert effects p. induction subjects as [|x subjects IH]; intros effects p Hr.
  - by eapply replayed_same.
  - cbn. rewrite cons_middle, app_assoc. apply IH.
    by apply (replayed_map (fun entry => registry_remove x (slot_registry entry.2)) effects [Forgotten x] p).
Qed.

Lemma event_replayed effects gates timeline event p :
  projection_ok p -> replayed effects p ->
  replayed (effects ++ [event_effect gates timeline event p]) (apply_event gates timeline event p).
Proof.
  intros Hok Hr. unfold event_effect.
  destruct (apply_event_source gates timeline event p) as [(-> & Hs & _)|(-> & [Hs|[Hs ->]])]; cbn [is_mixed].
  - by eapply (replayed_map (fun entry => event_step (slot_reducer entry.2) event (slot_registry entry.2))).
  - by eapply (replayed_map (fun _ => registry_empty)).
  - intros entry Hin. exists effects, [Emptied]. split; [done|]. apply Hok; [by rewrite Hs|done].
Qed.

Lemma effect_step_replayed effects p more p' :
  projection_ok p -> effect_step p more p' -> replayed effects p -> replayed (effects ++ more) p'.
Proof.
  intros Hok Hs Hr. destruct Hs; try by eapply replayed_same.
  - eapply replayed_register; [done|reflexivity|done|]. intros entry Hin%list_elem_of_In.
    apply List.filter_In in Hin as [Hin _]. by apply list_elem_of_In.
  - unfold register_observable. destruct (invalid_text name); [by eapply replayed_same|].
    eapply replayed_register; [done|reflexivity|done|]. intros entry Hin%list_elem_of_In.
    apply List.filter_In in Hin as [Hin _]. by apply list_elem_of_In.
  - unfold register_installed_reducer_with_policy. destruct (invalid_text name); [by eapply replayed_same|].
    destruct (existsb _ _); [by eapply replayed_same|]. by eapply replayed_register.
  - unfold bind_erasure_gate. destruct (erasure_gate_bound _); by eapply replayed_same.
  - unfold bind_fork_ancestry. destruct (validate_fork_ancestry _ _); by eapply replayed_same.
  - by apply event_replayed.
  - destruct (refold_events gates timeline ancestry events generation p) as [p1 r] eqn:Hf.
    apply refold_cases in Hf as [(h & -> & _ & _ & _ & _ & ->)|[-> [e ->]]]; cbn [fst snd is_ok];
      [|by eapply replayed_same].
    rewrite clear_then_folded. eapply (replayed_map (fun entry => _)); [exact Hr|reflexivity|].
    intros entry _. cbn. symmetry. apply replay_events.
  - unfold adopt_committed_fork. destruct (_ || _); [by eapply replayed_same|].
    destruct (validate_adopted_ancestry _ _ _); [|by eapply replayed_same].
    destruct (erasure_gate p) as [h|]; [|by eapply replayed_same]. cbv zeta. rewrite with_fence_spec.
    destruct (gate_authorize _ _ _); [|by eapply replayed_same]. cbn.
    eapply (replayed_map (fun entry => slot_registry entry.2)); [exact Hr| |done]. cbn.
    symmetry. rewrite <- (list_fmap_id (slots p)) at 2. apply list_fmap_ext. intros i [n x] _. cbn.
    by rewrite with_registry_same.
  - destruct (restore_from_snapshot gates timeline ancestry snapshot generation p) as [p1 r] eqn:Hf.
    apply restore_cases in Hf as [(h & -> & _ & _ & _ & _ & _ & ->)|[-> [e ->]]]; cbn [fst snd is_ok];
      [|by eapply replayed_same].
    by eapply (replayed_map (fun entry => default registry_empty (snapshot !! entry.1))).
  - by apply (replayed_map (fun _ => registry_empty) effects [Emptied] p).
  - by apply (replayed_map (fun entry => retain_only subject (slot_registry entry.2)) effects [Retained subject] p).
  - by apply retain_forget_slots.
  - match goal with Hp : prepare_install _ _ _ = _ |- _ => apply prepared_swap in Hp as [Hc ->] end. cbn [fst].
    eapply (replayed_map (fun entry => staged_content staged entry.1 (slot_plugin_id entry.2))); [exact Hr| |done].
    cbn. by eapply installed_slots.
Qed.

(** *** Every label but the first was adopted *)

(** [child] is a Fork of [parent] by an ancestry that was checked. *)
Definition forked_from (child parent : Label) : Prop :=
  exists ancestry, validate_adopted_ancestry parent.1 child.1 ancestry = Ok tt.

Definition linked (ls : list Label) : Prop :=
  forall i child parent, ls !! i = Some child -> ls !! S i = Some parent -> forked_from child parent.

Definition adopts (f : StateEffect) : bool := match f with Adopted _ _ => true | _ => false end.

Record labelled (effects : list StateEffect) (p : ProjectionRegistry) : Prop := {
  lb_source : match source p with
              | Bound t g => head (labels effects) = Some (t, g)
              | Unbound | Mixed => labels effects = []
              end;
  lb_origins o : o ∈ origins effects -> o ∈ labels effects;
  lb_linked : linked (labels effects);
}.

Lemma labels_app l k : labels (l ++ k) = fold_left label_step k (labels l).
Proof. apply fold_left_app. Qed.
Lemma origins_app l k : origins (l ++ k) = fold_left origin_step k (origins l).
Proof. apply fold_left_app. Qed.

Lemma linked_one o : linked [o].
Proof. intros [|i] c q Hc Hq; [done|]. by destruct i. Qed.

Lemma labelled_same effects p p' : labelled effects p -> source p' = source p -> labelled (effects ++ []) p'.
Proof. intros [Hs Ho Hl] He. rewrite app_nil_r. split; [by rewrite He|done..]. Qed.

(** Nothing but the label of the step is left. *)
Lemma labelled_emptied effects more p :
  labels (effects ++ more) = [] -> origins (effects ++ more) = [] -> source_timeline (source p) = None ->
  labelled (effects ++ more) p.
Proof.
  intros Hl Ho Hs. split; rewrite ?Hl, ?Ho.
  - by destruct (source p).
  - intros o Hin. by apply not_elem_of_nil in Hin.
  - intros i c q Hc. by rewrite lookup_nil in Hc.
Qed.

Lemma labelled_only effects more p t g :
  labels (effects ++ more) = [(t, g)] -> (forall o, o ∈ origins (effects ++ more) -> o = (t, g)) ->
  source p = Bound t g -> labelled (effects ++ more) p.
Proof.
  intros Hl Ho Hs. split; rewrite ?Hl, ?Hs; [done| |apply linked_one].
  intros o ->%Ho. by left.
Qed.

Lemma applied_labels t g events ls os :
  Forall (eq (t, g)) ls -> (forall o, o ∈ os -> o = (t, g)) -> (length ls <= 1)%nat -> events <> [] ->
  fold_left label_step (Applied t g <$> events) ls = [(t, g)]
  /\ forall o, o ∈ fold_left origin_step (Applied t g <$> events) os -> o = (t, g).
Proof.
  intros Hls Hos Hlen Hne. revert ls os Hls Hos Hlen Hne.
  induction events as [|event events IH]; [done|]. intros ls os Hls Hos Hlen _. rewrite fmap_cons.
  cbn [fold_left]. assert (Hone : label_step ls (Applied t g event) = [(t, g)]).
  { destruct ls as [|x [|y ls]]; [done| |cbn in Hlen; lia]. apply Forall_cons in Hls as [<- _]. done. }
  assert (Hos' : forall o, o ∈ (t, g) :: os -> o = (t, g)) by (intros o [->|Ho]%elem_of_cons; [done|by apply Hos]).
  rewrite Hone. destruct (decide (events = [])) as [->|Hne]; [done|].
  apply IH; [by constructor|done|done|done].
Qed.

Lemma event_labelled effects gates timeline event p :
  labelled effects p -> labelled (effects ++ [event_effect gates timeline event p]) (apply_event gates timeline event p).
Proof.
  intros [Hsrc Ho Hl]. unfold event_effect.
  destruct (apply_event_source gates timeline event p) as [(Hs & _ & Hbefore)|(Hs & _)]; rewrite Hs; cbn [is_mixed].
  2: { apply labelled_emptied; [by rewrite labels_app|by rewrite origins_app|by rewrite Hs]. }
  destruct Hbefore as [Hb|Hb]; rewrite Hb in Hsrc.
  - assert (Hno : origins effects = []).
    { destruct (origins effects) as [|o os]; [done|]. specialize (Ho o ltac:(left)). rewrite Hsrc in Ho.
      by apply not_elem_of_nil in Ho. }
    eapply labelled_only; [by rewrite labels_app, Hsrc| |done].
    intros o. rewrite origins_app, Hno. cbn. by intros ->%list_elem_of_singleton.
  - destruct (labels effects) as [|x ls] eqn:Hls; [done|]. injection Hsrc as ->.
    assert (Hlab : labels (effects ++ [Applied timeline (current_generation gates p) event])
      = (timeline, current_generation gates p) :: ls) by by rewrite labels_app, Hls.
    split; rewrite Hlab, ?Hs; [done| |done].
    intros o. rewrite origins_app. cbn. intros [->|Hin]%elem_of_cons; [by left|by apply Ho].
Qed.

Lemma adopted_labelled effects gates parent child ancestry p h :
  labelled effects p ->
  match source_timeline (source p) with Some t => negb (bool_decide (t = parent)) | None => false end = false ->
  validate_adopted_ancestry parent child ancestry = Ok tt -> erasure_gate p = Some h ->
  labelled (effects ++ [Adopted child (current_generation gates p)])
    (record_source_ancestry child ancestry (with_source (Bound child (gate_generation (gate_at gates h))) p)).
Proof.
  intros [Hsrc Ho Hl] Hp Hv Hh.
  assert (Hlab : labels (effects ++ [Adopted child (current_generation gates p)])
    = (child, gate_generation (gate_at gates h)) :: labels effects)
    by (rewrite labels_app; cbn; unfold current_generation; by rewrite Hh).
  split; rewrite Hlab; [done| |].
  - intros o. rewrite origins_app. cbn. intros Hin. right. by apply Ho.
  - intros [|i] c q; [|apply Hl]. cbn. intros [= <-] Hq. exists ancestry. cbn.
    destruct (labels effects) as [|x ls] eqn:Hls; [done|]. injection Hq as ->.
    destruct (source p) as [|t g|]; [done| |done]. injection Hsrc as ->. cbn in Hp.
    by apply negb_false_iff, bool_decide_eq_true in Hp as ->.
Qed.

Lemma effect_step_labelled effects p more p' :
  effect_step p more p' -> labelled effects p -> labelled (effects ++ more) p'.
Proof.
  intros Hs Hl. destruct Hs; try by eapply labelled_same.
  - unfold register_observable. destruct (invalid_text name); by eapply labelled_same.
  - unfold register_installed_reducer_with_policy. destruct (invalid_text name); [by eapply labelled_same|].
    destruct (existsb _ _); by eapply labelled_same.
  - unfold bind_erasure_gate. destruct (erasure_gate_bound _); by eapply labelled_same.
  - unfold bind_fork_ancestry. destruct (validate_fork_ancestry _ _); by eapply labelled_same.
  - by apply event_labelled.
  - destruct (refold_events gates timeline ancestry events generation p) as [p1 r] eqn:Hf.
    apply refold_cases in Hf as [(h & -> & _ & _ & _ & _ & ->)|[-> [e ->]]]; cbn [fst snd is_ok];
      [|by eapply labelled_same].
    destruct (decide (events = [])) as [->|Hne].
    + apply labelled_emptied; [by rewrite labels_app|by rewrite origins_app|done].
    + destruct (applied_labels timeline generation events [] []) as [Hlab Hor];
        [constructor|intros o Ho; by apply not_elem_of_nil in Ho|cbn; lia|done|].
      eapply labelled_only; [rewrite labels_app; exact Hlab| |done]. intros o. rewrite origins_app. apply Hor.
  - destruct (adopt_committed_fork gates parent child ancestry p) as [p1 r] eqn:Ha. revert Ha.
    unfold adopt_committed_fork.
    destruct (is_mixed (source p) || _) eqn:Hm; [intros [= <- <-]; by eapply labelled_same|].
    apply orb_false_iff in Hm as [_ Hm].
    destruct (validate_adopted_ancestry _ _ _) as [[]|] eqn:Hv; [|intros [= <- <-]; by eapply labelled_same].
    destruct (erasure_gate p) as [h|] eqn:Hh; [|intros [= <- <-]; by eapply labelled_same]. cbv zeta.
    rewrite with_fence_spec.
    destruct (gate_authorize _ _ _); [|intros [= <- <-]; by eapply labelled_same]. intros [= <- <-].
    cbn [fst snd is_ok]. by eapply adopted_labelled.
  - destruct (restore_from_snapshot gates timeline ancestry snapshot generation p) as [p1 r] eqn:Hf.
    apply restore_cases in Hf as [(h & -> & _ & _ & _ & _ & _ & ->)|[-> [e ->]]]; cbn [fst snd is_ok];
      [|by eapply labelled_same].
    eapply labelled_only; [by rewrite labels_app| |done]. intros o. rewrite origins_app. cbn.
    by intros ->%list_elem_of_singleton.
  - apply labelled_emptied; [by rewrite labels_app|by rewrite origins_app|done].
  - destruct Hl as [Hsrc Ho Hl]. split; [by rewrite labels_app|by rewrite labels_app, origins_app|by rewrite labels_app].
  - assert (Hf : forall f : list Label -> StateEffect -> list Label, (forall ls x, f ls (Forgotten x) = ls) ->
      forall ls, fold_left f (Forgotten <$> subjects) ls = ls).
    { intros f Hf. clear -Hf. induction subjects as [|x subjects IH]; intros ls; [done|]. cbn. by rewrite Hf. }
    assert (Hsame : source (forget_revoked_subjects subjects p) = source p).
    { clear. unfold forget_revoked_subjects. revert p. induction subjects as [|x subjects IH]; intros p; [done|].
      cbn. by rewrite IH. }
    destruct Hl as [Hsrc Ho Hl]. split; rewrite ?Hsame, ?labels_app, ?origins_app, ?Hf by done; done.
  - match goal with Hp : prepare_install _ _ _ = _ |- _ => apply prepared_swap in Hp as [_ ->] end. cbn [fst].
    eapply labelled_only; [by rewrite labels_app| |done]. intros o. rewrite origins_app. cbn.
    by intros ->%list_elem_of_singleton.
Qed.

Lemma run_ok effects p : projection_run effects p -> replayed effects p /\ labelled effects p.
Proof.
  induction 1 as [|effects p more p' Hr [IHr IHl] Hs].
  - split; [intros entry Hin; by apply not_elem_of_nil in Hin|]. split; [done| |]; cbn.
    + intros o Ho. by apply not_elem_of_nil in Ho.
    + intros i c q Hc. by rewrite lookup_nil in Hc.
  - split; [|by eapply effect_step_labelled]. eapply effect_step_replayed; [|done|done].
    by apply projection_reachable_ok, (run_reachable effects).
Qed.

(** Without an adoption there is at most one label. *)
Lemma unadopted_labels effects :
  Forall (fun f => adopts f = false) effects -> (length (labels effects) <= 1)%nat.
Proof.
  induction effects as [|f effects IH] using rev_ind; [cbn; lia|]. intros [Ha [Hf _]%Forall_cons]%Forall_app.
  specialize (IH Ha). rewrite labels_app.
  cbn [fold_left]. destruct f as [|t g event| | | |]; cbn [label_step adopts length] in *; try done; try lia.
  by destruct (labels effects).
Qed.


(** ** Mixed sources *)

Definition apply_all (events : list (Gates * TimelineId * Event)) (p : ProjectionRegistry) : ProjectionRegistry :=
  fold_left (fun p e => apply_event e.1.1 e.1.2 e.2 p) events p.

Lemma mixed_stays events p : source p = Mixed -> stateless p ->
  source (apply_all events p) = Mixed /\ stateless (apply_all events p).
Proof.
  unfold apply_all. revert p. induction events as [|[[g t] e] events IH]; intros p Hm Hs; [done|].
  cbn. apply IH; unfold apply_event, bind_event_source; by rewrite Hm.
Qed.

(** Mixing sources closes the registry.  An Event of another Timeline, or one
    applied at another generation than the State was folded at, empties every
    slot, and whatever Events follow, at whatever gates, no Timeline can be read
    until the registry is cleared, refolded or restored. *)
Theorem mixing_closes gates timeline event p t g more :
  source p = Bound t g -> t <> timeline \/ g <> current_generation gates p ->
  let p' := apply_all more (apply_event gates timeline event p) in
  stateless p' /\ forall gates' timeline', ~ releasable gates' p' timeline'.
Proof.
  intros Hs Hne p'.
  assert (Hp : apply_event gates timeline event p = with_source Mixed (clear_state p)).
  { unfold apply_event, bind_event_source. rewrite Hs.
    destruct (bool_decide_reflect (g = current_generation gates p)); cbn; [|done].
    destruct (bool_decide_reflect (t = timeline)); [naive_solver|done]. }
  destruct (mixed_stays more (with_source Mixed (clear_state p))) as [Hm He]; [done|apply (stateless_clear p)|].
  unfold p'. rewrite Hp. split; [done|]. intros gates' timeline' (h & _ & _ & Hsrc & _).
  rewrite Hm in Hsrc. by destruct Hsrc.
Qed.
End Reach.
