(* ===== verification/CandidateProperties.v ===== *)
(** * Properties of projection candidates

    A candidate folds like the live registry, an accounted candidate is only
    staged within the limits, and a fold without accounting keeps the last pass. *)

From Stdlib Require Import String ZArith Lia Bool.
From S2P Require Import Prelude Text Cbor FallbackRecords FallbackPolicy ErasureGate Events EventStore StrictCbor.
From S2P Require Import PluginTrust WireSyntax TrustPolicy TrustBridge Consent Projection Candidate.
From S2P Require Import ProjectionProperties ProjectionReach.

Local Open Scope Z_scope.

Section Candidates.
Context `{Json} `{Ciborium} `{CiboriumCursor}.

(** ** Folding *)

Definition slot_step (event : Event) (s : CandidateSlotV1) : CandidateSlotV1 :=
  with_inner (with_registry (event_step (slot_reducer (csl_inner s)) event (slot_registry (csl_inner s)))
    (csl_inner s)) s.

(** An accounted turn: apply, then account. *)
Definition offer_accounted : Offer unit StagedLimitErrorV1 := fun event ordinal ga slot =>
  let (slot', initial_size) := turn_apply event slot in
  let (a', r) := turn_account ordinal event slot' initial_size ga.2 in
  ((tt, a'), slot', r).

(** An offer that, unless it fails, does to the slot what its reducer does. *)
Definition faithful {G E} (offer : Offer G E) : Prop :=
  forall event i ga slot ga' slot', offer event i ga slot = (ga', slot', Ok tt) -> slot' = (turn_apply event slot).1.

Lemma apply_faithful : faithful offer_apply.
Proof. by intros event i ga slot ga' slot' [= <- <-]. Qed.

Lemma accounted_faithful : faithful offer_accounted.
Proof.
  intros event i ga slot ga' slot'. unfold offer_accounted. destruct (turn_apply event slot) as [s init].
  destruct (turn_account i event s init ga.2). by intros [= _ <- _].
Qed.

Lemma turn_apply_registry event slot :
  (turn_apply event slot).1
  = with_inner (with_registry (registry_apply (slot_reducer (csl_inner slot)) event (slot_registry (csl_inner slot)))
      (csl_inner slot)) slot.
Proof. unfold turn_apply, registry_apply. by destruct (apply_observing_initial _ _ _). Qed.

Lemma offer_all_ok {A T E} (offer : A -> T -> A * T * result E unit) f a l a' l' :
  (forall a t a' t', offer a t = (a', t', Ok tt) -> t' = f t) ->
  offer_all offer a l = (a', l', Ok tt) -> l' = f <$> l.
Proof.
  intros Hf. revert a a' l'. induction l as [|t l IH]; intros a a' l'; cbn; [by intros [= _ <-]|].
  destruct (offer a t) as [[a1 t1] [[]|]] eqn:Ho; [|done]. apply Hf in Ho as ->.
  destruct (offer_all offer a1 l) as [[a2 l2] r] eqn:Hl. intros [= -> <- ->]. by rewrite (IH _ _ _ Hl).
Qed.

Lemma snd_imap_pair {A} (l : list A) : snd <$> imap pair l = l.
Proof.
  apply list_eq. intros i. rewrite list_lookup_fmap, list_lookup_imap. by destruct (l !! i).
Qed.

Lemma snd_map_imap_pair {A} (f : A -> A) (l : list A) :
  snd <$> ((fun entry : nat * A => (entry.1, f entry.2)) <$> imap pair l) = f <$> l.
Proof. rewrite <- (snd_imap_pair l) at 2. by rewrite <- !list_fmap_compose. Qed.

Lemma with_inner_same s : with_inner (with_registry (slot_registry (csl_inner s)) (csl_inner s)) s = s.
Proof. by destruct s as [? ? ? []]. Qed.

Lemma slot_step_unreached event s :
  event_revocation event = None -> reaches_reducers event = false -> slot_step event s = s.
Proof.
  intros Hr Hu. unfold slot_step, event_step. rewrite Hr, unreached_apply by done. apply with_inner_same.
Qed.

Lemma fold_event_slots {G E} (offer : Offer G E) event g g' c c' :
  faithful offer -> fold_event_with offer event g c = (g', c', Ok tt) -> cd_slots c' = slot_step event <$> cd_slots c.
Proof.
  intros Hf. unfold fold_event_with, fold_bound_event.
  assert (Hid : event_revocation event = None -> reaches_reducers event = false ->
    forall l : list CandidateSlotV1, slot_step event <$> l = l).
  { intros Hn Hu l. rewrite <- (list_fmap_id l) at 2. apply list_fmap_ext. intros i s _.
    by apply slot_step_unreached. }
  case_bool_decide as Ht.
  - assert (Hu : reaches_reducers event = false)
      by (unfold reaches_reducers; by rewrite bool_decide_eq_true_2).
    destruct (consent_revocation_decode (ev_payload event)) as [rv|e] eqn:Hd; intros [= _ <-]; cbn.
    + rewrite snd_imap_pair. apply list_fmap_ext. intros i s _. unfold slot_step, event_step, event_revocation.
      rewrite bool_decide_eq_true_2 by done. by rewrite Hd.
    + rewrite snd_imap_pair. symmetry. apply Hid; [|done]. unfold event_revocation.
      rewrite bool_decide_eq_true_2 by done. by rewrite Hd.
  - assert (Hn : event_revocation event = None)
      by (unfold event_revocation; by rewrite bool_decide_eq_false_2).
    destruct (is_consent_event_type (ev_event_type event)) eqn:Hc.
    { intros [= _ <-]. cbn. rewrite snd_imap_pair. symmetry. apply Hid; [done|].
      unfold reaches_reducers. by rewrite Hc, andb_false_r. }
    destruct (is_geographic_event_type (ev_event_type event)) eqn:Hg.
    { intros [= _ <-]. cbn. rewrite snd_imap_pair. symmetry. apply Hid; [done|].
      unfold reaches_reducers. by rewrite Hg, andb_false_r. }
    destruct (offer_all _ _ _) as [[[g1 a] l] [[]|e]] eqn:Ho; [|done]. intros [= _ <-]. cbn.
    apply (offer_all_ok _ (fun entry => (entry.1, (turn_apply event entry.2).1))) in Ho as ->.
    + rewrite (snd_map_imap_pair (fun s => (turn_apply event s).1)). apply list_fmap_ext. intros i s _.
      rewrite turn_apply_registry. unfold slot_step, event_step. by rewrite Hn.
    + intros a0 [i s] a1 t. cbn. destruct (offer event i a0 s) as [[a2 s2] r2] eqn:Hof.
      intros [= <- <- ->]. cbn. f_equal. by eapply Hf.
Qed.

(** Every accounted Event in turn, up to the first error. *)
Fixpoint fold_accounted (events : list Event) (c : DetachedProjectionCandidateV1)
    : DetachedProjectionCandidateV1 * result StagedLimitErrorV1 unit :=
  match events with
  | [] => (c, Ok tt)
  | event :: rest =>
      match fold_event_with offer_accounted event tt c with
      | (_, c', Ok _) => fold_accounted rest c'
      | (_, c', Err e) => (c', Err e)
      end
  end.

Definition slot_steps (events : list Event) (s : CandidateSlotV1) : CandidateSlotV1 :=
  fold_left (fun s event => slot_step event s) events s.

Lemma slot_steps_registry events s :
  slot_registry (csl_inner (slot_steps events s))
  = fold_left (fun r event => event_step (slot_reducer (csl_inner s)) event r) events (slot_registry (csl_inner s)).
Proof. revert s. induction events as [|event events IH]; intros s; [done|]. cbn. apply IH. Qed.

Lemma offer_apply_total event c : exists c', fold_event_with offer_apply event tt c = (tt, c', Ok tt).
Proof.
  unfold fold_event_with. destruct (fold_bound_event _ _ _ _) as [[[[] a] l] [[r|]|[]]]; by eexists.
Qed.

Lemma candidate_fold_slots events c :
  cd_slots (candidate_fold_events events c) = slot_steps events <$> cd_slots c.
Proof.
  unfold candidate_fold_events. revert c. induction events as [|event events IH]; intros c.
  - cbn. symmetry. apply list_fmap_id.
  - cbn [fold_left]. destruct (offer_apply_total event c) as [c' Hc]. rewrite Hc, IH. cbn [fst snd].
    rewrite (fold_event_slots _ _ _ _ _ _ apply_faithful Hc), <- list_fmap_compose. done.
Qed.

Lemma fold_accounted_slots events c c' :
  fold_accounted events c = (c', Ok tt) -> cd_slots c' = slot_steps events <$> cd_slots c.
Proof.
  revert c. induction events as [|event events IH]; intros c; cbn [fold_accounted].
  - intros [= <-]. symmetry. apply list_fmap_id.
  - destruct (fold_event_with offer_accounted event tt c) as [[[] c1] [[]|]] eqn:Hc; [|done].
    intros ->%IH. rewrite (fold_event_slots _ _ _ _ _ _ accounted_faithful Hc), <- list_fmap_compose. done.
Qed.

Lemma from_reducers_ok rs source c :
  from_reducers rs source = Ok c ->
  is_Some (source_timeline source) /\ c = MkCandidate (candidate_slot <$> rs) source accounting_new [].
Proof.
  unfold from_reducers. destruct (source_timeline source); [|done].
  destruct (repeated _); [done|]. intros [= <-]. eauto.
Qed.

(** C27: a candidate folds like the live registry.  For the same reducers in the
    same order and the same Events, the State a fresh candidate holds, folded
    plainly or through the accounted executor, equals the State of a registry
    that folded the Events live. *)
Theorem candidate_matches_live gates timeline generation rs c events p :
  from_reducers rs (Bound timeline generation) = Ok c ->
  (fun entry => slot_reducer entry.2) <$> slots p = cdr_reducer <$> rs -> stateless p -> source p = Unbound ->
  let live := (fun entry => slot_registry entry.2) <$> slots (fold_events gates timeline events p) in
  candidate_registries (candidate_fold_events events c) = live
  /\ forall c', fold_accounted events c = (c', Ok tt) -> candidate_registries c' = live.
Proof.
  intros [_ ->]%from_reducers_ok Hred Hst Hsrc live.
  set (fresh red := fold_left (fun r event => event_step red event r) events registry_empty).
  assert (Hlive : live = fresh <$> (cdr_reducer <$> rs)).
  { unfold live. rewrite <- Hred. assert (Hm : slots (fold_events gates timeline events p)
      = slots (map_registries (folded events) p)).
    { destruct events as [|event events'].
      - by rewrite (map_registries_id (folded []) p).
      - by rewrite fold_events_unbound. }
    rewrite Hm. cbn. rewrite <- !list_fmap_compose. apply list_fmap_ext. intros i [n s] Hi.
    cbn. unfold folded. cbn. pose proof (Hst _ (list_elem_of_lookup_2 _ _ _ Hi)) as He. cbn in He. by rewrite He. }
  assert (Hcand : forall c', cd_slots c' = slot_steps events <$> (candidate_slot <$> rs) -> candidate_registries c' = live).
  { intros c' Hc. unfold candidate_registries. rewrite Hc, Hlive, <- !list_fmap_compose.
    apply list_fmap_ext. intros i r _. cbn. by rewrite slot_steps_registry. }
  split; [apply Hcand, candidate_fold_slots|]. intros c' Hc%fold_accounted_slots. by apply Hcand.
Qed.

(** ** Folding without accounting *)

Lemma unaccounted_event event c :
  event_revocation event = None ->
  cd_accounting (fold_event_with offer_apply event tt c).1.2 = cd_accounting c.
Proof.
  assert (Hoffer : forall (l : list (nat * CandidateSlotV1)) (a : StagedAccountingV1),
    exists l', offer_all (fun (ga : unit * StagedAccountingV1) (entry : nat * CandidateSlotV1) =>
      let '(ga', slot', r) := offer_apply event entry.1 ga entry.2 in (ga', (entry.1, slot'), r)) (tt, a) l
    = ((tt, a), l', Ok tt)).
  { intros l a. induction l as [|[i x] l [l' IH]]; [by eexists|]. cbn [offer_all]. unfold offer_apply at 1. cbn [fst snd].
    rewrite IH. by eexists. }
  unfold event_revocation, fold_event_with, fold_bound_event. case_bool_decide as Ht; [|intros _].
  - by destruct (consent_revocation_decode _).
  - destruct (is_consent_event_type _); [done|]. destruct (is_geographic_event_type _); [done|].
    by destruct (Hoffer (imap pair (cd_slots c)) (cd_accounting c)) as [l' ->].
Qed.

(** C38: a staged result can hold unmeasured State.  After a successful exact pass
    of any candidate, a fold without accounting of any Events that revoke nothing
    changes the State of every slot as its reducer says but leaves the accounting,
    and so the passed measurement, as it was; the candidate then gives out a staged
    result with the changed State, however large that has become, although a result
    is documented to exist only if a pass succeeded after the last change. *)
Theorem unaccounted_fold_keeps_the_pass c passed events :
  exact_pass c = (passed, Ok tt) -> (forall event, event ∈ events -> event_revocation event = None) ->
  let changed := candidate_fold_events events passed in
  candidate_registries changed
    = (fun s => fold_left (fun r event => event_step (slot_reducer (csl_inner s)) event r) events
                  (slot_registry (csl_inner s))) <$> cd_slots c
  /\ cd_accounting changed = cd_accounting passed
  /\ exists st, (take_staged changed).2 = Some st /\ ss_registry <$> sp_slots st = candidate_registries changed.
Proof.
  intros Hp Hev changed.
  assert (Hs : cd_slots passed = cd_slots c /\ current (cd_accounting passed) = true).
  { revert Hp. unfold exact_pass, accounting_exact_pass.
    destruct (measure_entities _ _) as [[m t] [[]|e]]; [|done]. destruct (_ <? _); [done|]. by intros [= <-]. }
  destruct Hs as [Hs Hcur]. assert (Hacc : cd_accounting changed = cd_accounting passed).
  { unfold changed, candidate_fold_events. clear Hp Hs Hcur changed. revert passed Hev.
    induction events as [|event events IH]; intros passed Hev; [done|]. cbn [fold_left].
    rewrite IH by (intros; apply Hev; by right). apply unaccounted_event, Hev. by left. }
  split; [|split; [done|]].
  - unfold changed, candidate_registries. rewrite candidate_fold_slots, Hs, <- list_fmap_compose.
    apply list_fmap_ext. intros i x _. apply slot_steps_registry.
  - unfold take_staged. rewrite Hacc, Hcur. cbn. eexists. split; [done|]. cbn. by rewrite <- list_fmap_compose.
Qed.
End Candidates.

(** * Staged-size accounting

    The accounted fold of a candidate, as the staged executor drives it: what a
    staged result can hold, and that for reducers that keep their declared
    growth the incremental upper bound is one. *)

(** ** Sums *)

Definition zsum (l : list Z) : Z := foldr Z.add 0 l.

Lemma zsum_cons x l : zsum (x :: l) = x + zsum l.
Proof. done. Qed.

Lemma zsum_app l k : zsum (l ++ k) = zsum l + zsum k.
Proof. induction l as [|x l IH]; [done|]. rewrite <- app_comm_cons, !zsum_cons. lia. Qed.

#[export] Instance zsum_perm : Proper ((≡ₚ) ==> (=)) zsum.
Proof. intros l k Hp. induction Hp; rewrite ?zsum_cons in *; lia. Qed.

Lemma zsum_nonneg l : (forall x, x ∈ l -> 0 <= x) -> 0 <= zsum l.
Proof.
  induction l as [|x l IH]; intros Hl; [done|]. rewrite zsum_cons.
  pose proof (Hl x ltac:(by left)). assert (0 <= zsum l) by (apply IH; set_solver). lia.
Qed.

Lemma saturating_sum l start :
  0 <= start <= U64_MAX -> (forall x, x ∈ l -> 0 <= x) ->
  fold_left saturating_add l start = Z.min (start + zsum l) U64_MAX.
Proof.
  revert start. induction l as [|x l IH]; intros start Hs Hl; cbn [fold_left]; [cbn; lia|].
  pose proof (Hl x ltac:(by left)).
  assert (0 <= zsum l) by (apply zsum_nonneg; set_solver).
  rewrite IH, zsum_cons; unfold saturating_add; [lia|lia|set_solver].
Qed.

(** The arithmetic of a recorded growth, and of the upper bound. *)
Lemma saturating_grown m d init g old new :
  0 <= m -> 0 <= d -> 0 <= init -> 0 <= g -> old <= saturating_add m d -> new <= U64_MAX ->
  new <= old + init + g -> new <= saturating_add (saturating_add m init) (saturating_add d g).
Proof. unfold saturating_add. intros. assert (0 <= U64_MAX) by done. lia. Qed.

Lemma saturating_upper total total' init g up :
  0 <= init -> 0 <= g -> Z.min total U64_MAX <= up -> total' <= total + init + g ->
  Z.min total' U64_MAX <= saturating_add (saturating_add up init) g.
Proof. unfold saturating_add. intros. lia. Qed.

Lemma saturating_nonneg a b : 0 <= a -> 0 <= b -> 0 <= saturating_add a b.
Proof. unfold saturating_add. intros. assert (0 <= U64_MAX) by done. lia. Qed.

Section Accounting.
Context `{Json}.

(** ** Sizes *)

Definition registry_bytes (r : StateRegistry) : Z :=
  zsum ((fun entry => staged_state_bytes entry.2) <$> map_to_list (states r)).
Definition staged_size (rs : list StateRegistry) : Z := zsum (registry_bytes <$> rs).

Lemma field_bytes_nonneg entry : 0 <= field_bytes entry.
Proof. unfold field_bytes, str_len, len. lia. Qed.

Lemma state_bytes_bounds s : 0 <= staged_state_bytes s <= U64_MAX.
Proof.
  unfold staged_state_bytes.
  assert (Hl : forall x, x ∈ field_bytes <$> map_to_list (fields s) -> 0 <= x).
  { intros x (e & -> & _)%list_elem_of_fmap. apply field_bytes_nonneg. }
  rewrite saturating_sum by (done || (unfold ENTITY_ID_BYTES, U64_MAX; lia)).
  pose proof (zsum_nonneg _ Hl). unfold ENTITY_ID_BYTES, U64_MAX. lia.
Qed.

Lemma registry_bytes_nonneg r : 0 <= registry_bytes r.
Proof. apply zsum_nonneg. intros x (e & -> & _)%list_elem_of_fmap. apply state_bytes_bounds. Qed.

Lemma staged_size_nonneg rs : 0 <= staged_size rs.
Proof. apply zsum_nonneg. intros x (e & -> & _)%list_elem_of_fmap. apply registry_bytes_nonneg. Qed.

Lemma registry_bytes_insert r e s :
  registry_bytes (MkStateRegistry (<[e := s]> (states r)))
  = registry_bytes (registry_remove e r) + staged_state_bytes s.
Proof.
  unfold registry_bytes, registry_remove. cbn. rewrite <- insert_delete_eq.
  rewrite map_to_list_insert by apply lookup_delete_eq.
  rewrite fmap_cons, zsum_cons. cbn. lia.
Qed.

Lemma registry_bytes_remove r e :
  registry_bytes r
  = registry_bytes (registry_remove e r) + default 0 (staged_state_bytes <$> states r !! e).
Proof.
  destruct (states r !! e) as [s|] eqn:He; cbn.
  - rewrite <- registry_bytes_insert. rewrite insert_id by done. by destruct r.
  - unfold registry_remove. rewrite delete_id by done. destruct r. cbn. lia.
Qed.

(** ** The exact pass *)

Definition entry_key (entry : nat * EntityId * State) : nat * EntityId := entry.1.
Definition account_of (m : gmap (nat * EntityId) EntityAccountV1) (key : nat * EntityId) : EntityAccountV1 :=
  default account_default (m !! key).

Lemma all_entries_elem rs i e s :
  (i, e, s) ∈ all_entries rs <-> exists r, rs !! i = Some r /\ states r !! e = Some s.
Proof.
  unfold all_entries. rewrite list_elem_of_join. split.
  - intros (l & Hin & (j & r & Hl & Hr)%elem_of_lookup_imap). subst l.
    apply list_elem_of_fmap in Hin as ([e' s'] & [= -> -> ->] & Hin%elem_of_map_to_list). eauto.
  - intros (r & Hr & Hs). eexists. split; [|apply elem_of_lookup_imap; eauto].
    apply list_elem_of_fmap. exists (e, s). split; [done|]. by apply elem_of_map_to_list.
Qed.

Lemma all_entries_from rs k :
  mjoin (imap (fun ordinal r => (fun entry => (ordinal + k, entry.1, entry.2)%nat) <$> map_to_list (states r)) rs)
  = match rs with
    | [] => []
    | r :: rest => ((fun entry => (k, entry.1, entry.2)) <$> map_to_list (states r))
        ++ mjoin (imap (fun ordinal r =>
             (fun entry => (ordinal + S k, entry.1, entry.2)%nat) <$> map_to_list (states r)) rest)
    end.
Proof.
  destruct rs as [|r rs]; [done|]. cbn. f_equal. f_equal. apply imap_ext. intros i x _. cbn.
  apply list_fmap_ext. intros j [e s] _. cbn. by rewrite Nat.add_succ_r.
Qed.

Lemma all_entries_shift rs :
  all_entries rs
  = mjoin (imap (fun ordinal r => (fun entry => (ordinal + 0, entry.1, entry.2)%nat) <$> map_to_list (states r)) rs).
Proof.
  unfold all_entries. f_equal. apply imap_ext. intros i r _. cbn. apply list_fmap_ext.
  intros j [e s] _. cbn. by rewrite Nat.add_0_r.
Qed.

Lemma all_entries_sum rs : zsum ((fun entry => staged_state_bytes entry.2) <$> all_entries rs) = staged_size rs.
Proof.
  rewrite all_entries_shift. generalize 0%nat. induction rs as [|r rs IH]; intros k; [done|].
  rewrite all_entries_from, fmap_app, zsum_app, IH, <- list_fmap_compose. done.
Qed.

Lemma all_entries_keys rs : NoDup (entry_key <$> all_entries rs).
Proof.
  rewrite all_entries_shift. generalize 0%nat. induction rs as [|r rs IH]; intros k; [constructor|].
  rewrite all_entries_from, fmap_app. apply NoDup_app. split; [|split; [|apply IH]].
  - rewrite <- list_fmap_compose. apply (NoDup_fmap_1 snd). rewrite <- list_fmap_compose.
    apply NoDup_fst_map_to_list.
  - intros key ([[i e] s] & -> & Hin)%list_elem_of_fmap.
    apply list_elem_of_fmap in Hin as ([e' s'] & [= -> -> ->] & _).
    intros ([[j f] u] & Heq & Hin)%list_elem_of_fmap. cbn in Heq. injection Heq as <- <-.
    apply list_elem_of_join in Hin as (l & Hin & (n & x & -> & _)%elem_of_lookup_imap).
    apply list_elem_of_fmap in Hin as ([? ?] & [= Hk] & _). lia.
Qed.

(** Entities whose account covers them all measure, and are settled. *)
Lemma measure_ok l m total :
  NoDup (entry_key <$> l) ->
  (forall entry, entry ∈ l -> let a := account_of m (entry_key entry) in
     staged_state_bytes entry.2 <= saturating_add (measured a) (declared a)) ->
  exists m', measure_entities l (m, total)
    = ((m', fold_left saturating_add ((fun entry => staged_state_bytes entry.2) <$> l) total), Ok tt).
Proof.
  revert m total. induction l as [|[[i e] s] l IH]; intros m total Hnd Hc; [by eexists|].
  rewrite fmap_cons in Hnd. apply NoDup_cons in Hnd as [Hni Hnd]. cbn.
  unfold measure_entity. cbn.
  pose proof (Hc (i, e, s) ltac:(by left)) as Hs. cbn in Hs. fold (account_of m (i, e)).
  rewrite (proj2 (Z.ltb_ge _ _) Hs). apply IH; [done|]. intros entry Hin.
  unfold account_of. rewrite lookup_insert_ne; [apply Hc; by right|].
  intros Heq. apply Hni, list_elem_of_fmap. exists entry. cbn. by rewrite Heq.
Qed.

Lemma measure_keys l m total m' t' r key :
  measure_entities l (m, total) = ((m', t'), r) -> key ∉ entry_key <$> l -> m' !! key = m !! key.
Proof.
  revert m total. induction l as [|[[i e] s] l IH]; intros m total; cbn; [by intros [= <- _ _]|].
  intros Hm [Hne Hni]%not_elem_of_cons. unfold measure_entity in Hm. cbn in Hm, Hne.
  destruct (_ <? _); cbn in Hm.
  - injection Hm as <- _ _. by rewrite lookup_insert_ne.
  - rewrite (IH _ _ Hm Hni). by rewrite lookup_insert_ne.
Qed.

Lemma measure_settles l m total m' t' :
  NoDup (entry_key <$> l) -> measure_entities l (m, total) = ((m', t'), Ok tt) ->
  t' = fold_left saturating_add ((fun entry => staged_state_bytes entry.2) <$> l) total
  /\ forall entry, entry ∈ l -> m' !! entry_key entry = Some (MkAccount (staged_state_bytes entry.2) 0).
Proof.
  revert m total. induction l as [|[[i e] s] l IH]; intros m total Hnd; cbn.
  - intros [= _ <-]. split; [done|]. intros entry Hin. by apply not_elem_of_nil in Hin.
  - rewrite fmap_cons in Hnd. apply NoDup_cons in Hnd as [Hni Hnd]. unfold measure_entity. cbn.
    destruct (_ <? _); cbn; [done|]. intros Hm. destruct (IH _ _ Hnd Hm) as [-> Hl]. split; [done|].
    intros entry [->|Hin]%elem_of_cons; [|by apply Hl].
    rewrite (measure_keys _ _ _ _ _ _ _ Hm Hni). apply lookup_insert_eq.
Qed.

(** ** Accounted candidates *)

(** The account of every entity of the slot at [i] covers its size. *)
Definition covers (m : gmap (nat * EntityId) EntityAccountV1) (i : nat) (r : StateRegistry) : Prop :=
  forall e s, states r !! e = Some s ->
    let a := account_of m (i, e) in staged_state_bytes s <= saturating_add (measured a) (declared a).

Definition accounts_typed (m : gmap (nat * EntityId) EntityAccountV1) : Prop :=
  forall key a, m !! key = Some a -> 0 <= measured a /\ 0 <= declared a.

(** A slot whose reducer grows a State by at most what its bounds declare. *)
Definition grows_within (s : CandidateSlotV1) : Prop :=
  0 <= growth_per_payload_byte (csl_bounds s) /\ 0 <= growth_constant_bytes (csl_bounds s)
  /\ forall state event, projects_event (slot_reducer (csl_inner s)) event = true ->
       staged_state_bytes (reduce (slot_reducer (csl_inner s)) state event)
       <= staged_state_bytes state + growth (csl_bounds s) event.

Definition slot_bytes (entries : list (nat * CandidateSlotV1)) : Z :=
  staged_size ((fun entry => slot_registry (csl_inner entry.2)) <$> entries).

Lemma slot_bytes_cons i s l :
  slot_bytes ((i, s) :: l) = registry_bytes (slot_registry (csl_inner s)) + slot_bytes l.
Proof. done. Qed.

Lemma slot_bytes_nonneg l : 0 <= slot_bytes l.
Proof. apply staged_size_nonneg. Qed.

Lemma covers_agree m m' i r : (forall e, m' !! (i, e) = m !! (i, e)) -> covers m i r -> covers m' i r.
Proof. intros Hm Hc e s Hs. unfold account_of. rewrite Hm. by apply Hc. Qed.

Lemma account_of_typed m key : accounts_typed m -> 0 <= measured (account_of m key) /\ 0 <= declared (account_of m key).
Proof. intros Hm. unfold account_of. destruct (m !! key) eqn:Hk; cbn; [by eapply Hm|lia]. Qed.

Lemma growth_nonneg b event :
  0 <= growth_per_payload_byte b -> 0 <= growth_constant_bytes b -> 0 <= growth b event.
Proof. unfold growth, saturating_mul, saturating_add, U64_MAX, len. nia. Qed.

(** What one turn does: nothing, or it applied the reducer to the entity of the
    Event, recorded its growth and cleared [current]. *)
Lemma offer_accounted_cases event i a s a' s' :
  offer_accounted event i (tt, a) s = ((tt, a'), s', Ok tt) ->
  registry_len (slot_registry (csl_inner s')) <= MAX_STAGED_ENTITIES_PER_CONSUMER_V1
  /\ ((s' = s /\ (a' = a \/ a' = account_record (i, ev_entity event) None (growth (csl_bounds s) event) a))
      \/ exists old,
        let reducer := slot_reducer (csl_inner s) in let r := slot_registry (csl_inner s) in
        old = states r !! ev_entity event /\ projects_event reducer event = true
        /\ s' = with_inner (with_registry (MkStateRegistry
                  (<[ev_entity event := reduce reducer (default (initial reducer) old) event]> (states r))) (csl_inner s)) s
        /\ a' = account_record (i, ev_entity event)
                  (match old with Some _ => None | None => Some (staged_state_bytes (initial reducer)) end)
                  (growth (csl_bounds s) event) a).
Proof.
  unfold offer_accounted, turn_apply, apply_observing_initial, apply_reducer_event, turn_account, registry_get.
  destruct (_ || _); [|destruct (projects_event _ _) eqn:Hp]; cbn.
  2: { destruct (_ <? _) eqn:Hl; [done|]. cbn. rewrite lookup_insert_eq. intros [= <- <-].
       split; [by apply Z.ltb_ge|]. right. eexists. split; [done|]. split; [done|]. split; [done|]. cbn.
       by destruct (states (slot_registry (csl_inner s)) !! ev_entity event). }
  all: rewrite with_inner_same; destruct (_ <? _) eqn:Hl; [done|];
    destruct (states _ !! _); intros [= <- <-]; (split; [by apply Z.ltb_ge|]); left; eauto.
Qed.

Lemma record_accounts key init g a :
  account_of (accounts (account_record key init g a)) key
  = MkAccount (saturating_add (measured (account_of (accounts a) key)) (default 0 init))
              (saturating_add (declared (account_of (accounts a) key)) g).
Proof. unfold account_of, account_record. cbn. by rewrite lookup_insert_eq. Qed.

Lemma record_other key init g a other :
  other <> key -> accounts (account_record key init g a) !! other = accounts a !! other.
Proof. intros Hne. cbn. by rewrite lookup_insert_ne. Qed.

Lemma record_typed key init g a :
  0 <= default 0 init -> 0 <= g -> accounts_typed (accounts a) -> accounts_typed (accounts (account_record key init g a)).
Proof.
  intros Hi Hg Ha k acc. cbn. destruct (decide (k = key)) as [->|Hne]; [|rewrite lookup_insert_ne by done; apply Ha].
  rewrite lookup_insert_eq. intros [= <-]. cbn. fold (account_of (accounts a) key).
  destruct (account_of_typed _ key Ha). by split; apply saturating_nonneg.
Qed.

Lemma record_covers i e init g a r r' :
  0 <= default 0 init -> 0 <= g -> accounts_typed (accounts a) -> covers (accounts a) i r ->
  (forall f s, f <> e -> states r' !! f = Some s -> states r !! f = Some s) ->
  (forall s, states r' !! e = Some s ->
     staged_state_bytes s <= default 0 (staged_state_bytes <$> states r !! e) + default 0 init + g) ->
  covers (accounts (account_record (i, e) init g a)) i r'.
Proof.
  intros Hi Hg Ha Hc Ho He f s Hs. destruct (decide (f = e)) as [->|Hne].
  - cbv zeta. rewrite record_accounts. cbn [measured declared].
    destruct (account_of_typed _ (i, e) Ha) as [Hm Hd].
    apply (saturating_grown _ _ _ _ (default 0 (staged_state_bytes <$> states r !! e))); try done.
    + destruct (states r !! e) as [s0|] eqn:Hs0; [by apply Hc|by apply saturating_nonneg].
    + apply state_bytes_bounds.
    + by apply He.
  - unfold account_of. rewrite record_other by congruence. apply Hc. by apply Ho.
Qed.

Lemma turn_sound event i a s a' s' :
  offer_accounted event i (tt, a) s = ((tt, a'), s', Ok tt) -> grows_within s -> accounts_typed (accounts a) ->
  covers (accounts a) i (slot_registry (csl_inner s)) ->
  accounts_typed (accounts a') /\ covers (accounts a') i (slot_registry (csl_inner s')) /\ grows_within s'
  /\ (forall j e, j <> i -> accounts a' !! (j, e) = accounts a !! (j, e))
  /\ (forall rest, 0 <= rest -> Z.min (rest + registry_bytes (slot_registry (csl_inner s))) U64_MAX <= upper a ->
        Z.min (rest + registry_bytes (slot_registry (csl_inner s'))) U64_MAX <= upper a').
Proof.
  intros [_ Hc]%offer_accounted_cases Hg Ha Hcov. pose proof Hg as (Hp & Hk & Hgr).
  pose proof (growth_nonneg _ event Hp Hk) as Hge.
  destruct Hc as [[-> [->| ->]]|(old & Hold & Hpr & -> & ->)]; [done| |].
  - split; [by apply record_typed|]. split; [|split; [done|]].
    + apply (record_covers _ _ _ _ _ (slot_registry (csl_inner s))); try done.
      intros st Hst. rewrite Hst. cbn. lia.
    + split; [intros j e Hne; apply record_other; congruence|]. intros rest Hr Hu. cbn [upper account_record].
      by eapply saturating_upper; [..|exact Hu|cbn; lia].
  - set (e := ev_entity event) in *. set (init := match old with Some _ => None | None => _ end).
    assert (Hi : 0 <= default 0 init) by (unfold init; destruct old; cbn; [lia|apply state_bytes_bounds]).
    set (new := reduce _ _ _).
    assert (Hnew : staged_state_bytes new
      <= default 0 (staged_state_bytes <$> states (slot_registry (csl_inner s)) !! e) + default 0 init
         + growth (csl_bounds s) event).
    { rewrite <- Hold. specialize (Hgr (default (initial (slot_reducer (csl_inner s))) old) event Hpr).
      fold new in Hgr. unfold init. destruct old; cbn in *; lia. }
    split; [by apply record_typed|]. split; [|split; [done|]].
    + apply (record_covers _ _ _ _ _ (slot_registry (csl_inner s))); try done; cbn.
      * intros f st Hne. by rewrite lookup_insert_ne.
      * intros st. rewrite lookup_insert_eq. by intros [= <-].
    + split; [intros j f Hne; apply record_other; congruence|]. intros rest Hr Hu. cbn [upper account_record].
      eapply saturating_upper; [done|done|exact Hu|]. cbn [slot_registry csl_inner with_inner with_registry].
      rewrite registry_bytes_insert, (registry_bytes_remove (slot_registry (csl_inner s)) e). lia.
Qed.

(** ** One accounted Event *)

Local Abbreviation Entries := (list (nat * CandidateSlotV1)).

Definition entry_offer (event : Event) (ga : unit * StagedAccountingV1) (entry : nat * CandidateSlotV1)
    : (unit * StagedAccountingV1) * (nat * CandidateSlotV1) * result StagedLimitErrorV1 unit :=
  let '(ga', slot', r) := offer_accounted event entry.1 ga entry.2 in (ga', (entry.1, slot'), r).

Lemma entry_offer_ok event a i s a' entry' :
  entry_offer event (tt, a) (i, s) = ((tt, a'), entry', Ok tt) ->
  exists s', entry' = (i, s') /\ offer_accounted event i (tt, a) s = ((tt, a'), s', Ok tt).
Proof.
  unfold entry_offer. cbn [fst snd]. destruct (offer_accounted event i (tt, a) s) as [[a1 s1] r]. intros [= <- <- ->]. eauto.
Qed.

(** Within the entity limit; and while [current] stays, nothing changed. *)
Definition within_entities (s : CandidateSlotV1) : Prop :=
  registry_len (slot_registry (csl_inner s)) <= MAX_STAGED_ENTITIES_PER_CONSUMER_V1.

Lemma offers_limits event (l : Entries) a a' l' :
  offer_all (entry_offer event) (tt, a) l = ((tt, a'), l', Ok tt) ->
  Forall (fun entry => within_entities entry.2) l' /\ (current a' = true -> l' = l /\ current a = true).
Proof.
  revert a l'. induction l as [|[i s] l IH]; intros a l'; cbn [offer_all]; [intros [= <- <-]; by split|].
  destruct (entry_offer event (tt, a) (i, s)) as [[[[] a1] e1] [[]|]] eqn:Ho; [|done].
  destruct (offer_all (entry_offer event) (tt, a1) l) as [[[[] a2] l2] r] eqn:Hl. intros [= -> <- ->].
  apply entry_offer_ok in Ho as (s' & -> & [Hw Hc]%offer_accounted_cases). destruct (IH _ _ Hl) as [Hf Hcur].
  split; [by constructor|]. intros [-> H1]%Hcur.
  destruct Hc as [[-> [->| ->]]|(old & _ & _ & _ & ->)]; done.
Qed.

Lemma offers_sound event (l : Entries) a a' l' :
  offer_all (entry_offer event) (tt, a) l = ((tt, a'), l', Ok tt) -> NoDup l.*1 ->
  Forall (fun entry => grows_within entry.2 /\ covers (accounts a) entry.1 (slot_registry (csl_inner entry.2))) l ->
  accounts_typed (accounts a) ->
  accounts_typed (accounts a')
  /\ Forall (fun entry => grows_within entry.2
       /\ covers (accounts a') entry.1 (slot_registry (csl_inner entry.2))) l'
  /\ (forall j e, j ∉ l.*1 -> accounts a' !! (j, e) = accounts a !! (j, e))
  /\ (forall rest, 0 <= rest -> Z.min (rest + slot_bytes l) U64_MAX <= upper a ->
        Z.min (rest + slot_bytes l') U64_MAX <= upper a').
Proof.
  revert a l'. induction l as [|[i s] l IH]; intros a l'; cbn [offer_all].
  { intros [= <- <-] _ _ Ha. split; [done|]. split; [constructor|done]. }
  destruct (entry_offer event (tt, a) (i, s)) as [[[[] a1] e1] [[]|]] eqn:Ho; [|done].
  destruct (offer_all (entry_offer event) (tt, a1) l) as [[[[] a2] l2] r] eqn:Hl. intros [= -> <- ->].
  apply entry_offer_ok in Ho as (s' & -> & Ho). intros Hnd [[Hg Hcov] Hall]%Forall_cons Ha.
  rewrite fmap_cons in Hnd. apply NoDup_cons in Hnd as [Hi Hnd]. cbn in Hi, Hg, Hcov.
  destruct (turn_sound _ _ _ _ _ _ Ho Hg Ha Hcov) as (Ha1 & Hc1 & Hg1 & Hk1 & Hu1).
  destruct (IH _ _ Hl Hnd) as (Ha2 & Hall2 & Hk2 & Hu2); [|done|].
  { apply Forall_forall. intros [j t] Hin. rewrite Forall_forall in Hall.
    destruct (Hall _ Hin) as [Hgt Hct]. split; [done|]. apply (covers_agree (accounts a)); [|done].
    intros e. apply Hk1. cbn. intros ->. apply Hi, list_elem_of_fmap. by exists (i, t). }
  split; [done|]. split; [|split].
  - constructor; [|done]. split; [done|]. apply (covers_agree (accounts a1)); [|done].
    intros e. by apply Hk2.
  - intros j e [Hne Hj]%not_elem_of_cons. rewrite Hk2 by done. by apply Hk1.
  - intros rest Hr. rewrite !slot_bytes_cons. intros Hu. rewrite Z.add_assoc.
    pose proof (registry_bytes_nonneg (slot_registry (csl_inner s'))). pose proof (slot_bytes_nonneg l).
    apply Hu2; [lia|]. specialize (Hu1 (rest + slot_bytes l) ltac:(lia)).
    etrans; [|apply Hu1; etrans; [|exact Hu]]; apply Z.eq_le_incl; f_equal; lia.
Qed.

(** ** The accounted fold *)

Section Fold.
Context `{Ciborium} `{CiboriumCursor}.

(** The candidates the staged executor can hold: a failed Event discards the
    candidate, an exact pass may succeed or fail, and a taken result leaves it. *)
Inductive accounted (rs : list CandidateReducerV1) : DetachedProjectionCandidateV1 -> Prop :=
| accounted_new src c : from_reducers rs src = Ok c -> accounted rs c
| accounted_event event c c' :
    accounted rs c -> fold_event_with offer_accounted event tt c = (tt, c', Ok tt) -> accounted rs c'
| accounted_pass c : accounted rs c -> accounted rs (exact_pass c).1
| accounted_taken c : accounted rs c -> accounted rs (take_staged c).1.

(** An accounted Event: nothing happens, every slot is offered it in turn, or a
    subject is forgotten. *)
Lemma fold_accounted_cases event c c' :
  fold_event_with offer_accounted event tt c = (tt, c', Ok tt) ->
  c' = c
  \/ (exists a l, offer_all (entry_offer event) (tt, cd_accounting c) (imap pair (cd_slots c)) = ((tt, a), l, Ok tt)
      /\ c' = MkCandidate l.*2 (cd_source c) a (cd_revocations c))
  \/ exists subject, c' = candidate_forget subject c.
Proof.
  unfold fold_event_with, fold_bound_event. fold (entry_offer event).
  assert (Hsame : MkCandidate (imap pair (cd_slots c)).*2 (cd_source c) (cd_accounting c) (cd_revocations c) = c).
  { rewrite snd_imap_pair. by destruct c. }
  case_bool_decide; [|destruct (is_consent_event_type _); [|destruct (is_geographic_event_type _)]].
  - rewrite Hsame. destruct (consent_revocation_decode _); intros [= <-]; eauto.
  - rewrite Hsame. intros [= <-]. by left.
  - rewrite Hsame. intros [= <-]. by left.
  - destruct (offer_all _ _ _) as [[[[] a] l] [[]|]] eqn:Ho; [|done]. intros [= <-]. right. left. eauto.
Qed.

Lemma remove_within e r : registry_len (registry_remove e r) <= registry_len r.
Proof. unfold registry_len, registry_remove. cbn. rewrite map_size_delete. destruct (states r !! e); cbn; lia. Qed.

(** ** Limits *)

Definition limits_ok (c : DetachedProjectionCandidateV1) : Prop :=
  Forall within_entities (cd_slots c)
  /\ (current (cd_accounting c) = true -> staged_size (candidate_registries c) <= MAX_STAGED_OUTPUT_BYTES_V1).

Lemma exact_pass_total c c' :
  exact_pass c = (c', Ok tt) -> staged_size (candidate_registries c) <= MAX_STAGED_OUTPUT_BYTES_V1.
Proof.
  unfold exact_pass, accounting_exact_pass.
  destruct (measure_entities _ _) as [[m total] [[]|]] eqn:Hm; [|done].
  apply measure_settles in Hm as [-> _]; [|apply all_entries_keys].
  rewrite saturating_sum, all_entries_sum; [|done|].
  - destruct (_ <? _) eqn:Hl; [done|]. intros _. apply Z.ltb_ge in Hl.
    unfold MAX_STAGED_OUTPUT_BYTES_V1, U64_MAX in *. lia.
  - intros x (e & -> & _)%list_elem_of_fmap. apply state_bytes_bounds.
Qed.

Lemma exact_pass_current c :
  current (cd_accounting (exact_pass c).1) = true ->
  current (cd_accounting c) = true \/ exists c', exact_pass c = (c', Ok tt).
Proof.
  unfold exact_pass, accounting_exact_pass. destruct (measure_entities _ _) as [[m total] [[]|]]; cbn; [|by left].
  destruct (_ <? _); cbn; eauto.
Qed.

Lemma exact_pass_keeps c :
  cd_slots (exact_pass c).1 = cd_slots c /\ cd_source (exact_pass c).1 = cd_source c
  /\ cd_revocations (exact_pass c).1 = cd_revocations c.
Proof. unfold exact_pass. by destruct (accounting_exact_pass _ _). Qed.

Lemma accounted_limits rs c : accounted rs c -> limits_ok c.
Proof.
  induction 1 as [src c Hn|event c c' _ [Hw Ht] He|c _ [Hw Ht]|c _ [Hw Ht]].
  - apply from_reducers_ok in Hn as [_ ->]. split; [|done]. apply Forall_fmap, Forall_forall. done.
  - apply fold_accounted_cases in He as [->|[(a & l & Ho & ->)|[subject ->]]]; [done| |].
    + apply offers_limits in Ho as [Hl Hcur]. split; [by apply Forall_fmap|]. cbn. intros [-> Hc]%Hcur.
      unfold candidate_registries. cbn. rewrite snd_imap_pair. by apply Ht.
    + split; [|done]. apply Forall_fmap. eapply Forall_impl; [exact Hw|]. intros s Hs.
      exact (Z.le_trans _ _ _ (remove_within _ _) Hs).
  - destruct (exact_pass_keeps c) as (Hs & _ & _). split; [by rewrite Hs|].
    unfold candidate_registries. rewrite Hs. intros [Hc|[c' Hc]]%exact_pass_current; [by apply Ht|].
    by apply exact_pass_total in Hc.
  - unfold take_staged. destruct (current (cd_accounting c)) eqn:Hc; [|split; [done|cbn; by rewrite Hc]].
    split; [|done]. apply Forall_fmap, Forall_forall. done.
Qed.

(** A staged result is within the limits.  Whatever accounted Events and
    exact passes a candidate went through, the State a staged result takes out of
    it is the candidate's own, of at most 64 MiB measured over all consumers and
    at most 65,536 entities for each. *)
Theorem staged_within_limits rs c c' st :
  accounted rs c -> take_staged c = (c', Some st) ->
  ss_registry <$> sp_slots st = candidate_registries c /\ sp_source st = cd_source c
  /\ staged_size (ss_registry <$> sp_slots st) <= MAX_STAGED_OUTPUT_BYTES_V1
  /\ Forall (fun s => registry_len (ss_registry s) <= MAX_STAGED_ENTITIES_PER_CONSUMER_V1) (sp_slots st)
  /\ Forall (fun r => r = registry_empty) (candidate_registries c').
Proof.
  intros [Hw Ht]%accounted_limits. unfold take_staged.
  destruct (current (cd_accounting c)) eqn:Hc; [|done]. intros [= <- <-].
  assert (Hr : ss_registry <$> (staged_slot <$> cd_slots c) = candidate_registries c)
    by (unfold candidate_registries; by rewrite <- list_fmap_compose).
  cbn [sp_slots sp_source]. rewrite Hr. do 2 (split; [done|]). split; [by apply Ht|].
  split; [by apply Forall_fmap|]. unfold candidate_registries. cbn. apply Forall_fmap, Forall_fmap, Forall_forall. done.
Qed.

(** ** The upper bound *)

Definition accounting_sound (c : DetachedProjectionCandidateV1) : Prop :=
  accounts_typed (accounts (cd_accounting c))
  /\ (forall i s, cd_slots c !! i = Some s -> covers (accounts (cd_accounting c)) i (slot_registry (csl_inner s)))
  /\ Z.min (staged_size (candidate_registries c)) U64_MAX <= upper (cd_accounting c).

Lemma slot_bytes_imap (l : list CandidateSlotV1) :
  slot_bytes (imap pair l) = staged_size ((fun s => slot_registry (csl_inner s)) <$> l).
Proof. unfold slot_bytes. rewrite <- (snd_imap_pair l) at 2. by rewrite <- list_fmap_compose. Qed.

Lemma imap_pair_fst {A} (l : list A) : (imap pair l).*1 = seq 0 (length l).
Proof.
  apply list_eq. intros i. rewrite list_lookup_fmap, list_lookup_imap.
  destruct (l !! i) eqn:Hi; cbn.
  - symmetry. apply lookup_seq. split; [done|]. by eapply lookup_lt_Some.
  - symmetry. apply lookup_seq_ge. by apply lookup_ge_None.
Qed.

Lemma offer_all_fst event (l : Entries) a a' l' r :
  offer_all (entry_offer event) a l = (a', l', r) -> l'.*1 = l.*1.
Proof.
  revert a l'. induction l as [|[i s] l IH]; intros a l'; cbn [offer_all]; [by intros [= _ <- _]|].
  unfold entry_offer at 1. cbn [fst snd]. destruct (offer_accounted event i a s) as [[a1 s1] [[]|]]; [|by intros [= _ <- _]].
  destruct (offer_all (entry_offer event) a1 l) as [[a2 l2] r2] eqn:Hl. intros [= <- <- <-]. cbn.
  f_equal. by eapply IH.
Qed.

Lemma event_sound event c a l :
  offer_all (entry_offer event) (tt, cd_accounting c) (imap pair (cd_slots c)) = ((tt, a), l, Ok tt) ->
  Forall grows_within (cd_slots c) -> accounting_sound c ->
  Forall grows_within l.*2 /\ accounting_sound (MkCandidate l.*2 (cd_source c) a (cd_revocations c)).
Proof.
  intros Ho Hg (Ha & Hcov & Hu). pose proof (offer_all_fst _ _ _ _ _ _ Ho) as Hfst.
  apply offers_sound in Ho as (Ha' & Hall & _ & Hup); [| | |done].
  - assert (Hl : forall i s, l.*2 !! i = Some s -> (i, s) ∈ l).
    { intros i s Hi. rewrite list_lookup_fmap in Hi. destruct (l !! i) as [[j t]|] eqn:Hj; [|done].
      injection Hi as ->. assert (Hk : l.*1 !! i = Some j) by by rewrite list_lookup_fmap, Hj.
      rewrite Hfst, imap_pair_fst in Hk. apply lookup_seq in Hk as [-> _]. by eapply list_elem_of_lookup_2. }
    split; [apply Forall_fmap; eapply Forall_impl; [exact Hall|by intros ? []]|].
    split; [done|]. split.
    + intros i s Hi%Hl. rewrite Forall_forall in Hall. by apply (Hall _ Hi).
    + specialize (Hup 0 ltac:(done)). rewrite slot_bytes_imap in Hup. specialize (Hup Hu).
      unfold slot_bytes in Hup. unfold candidate_registries. cbn [cd_slots cd_accounting].
      rewrite <- list_fmap_compose. exact Hup.
  - rewrite imap_pair_fst. apply NoDup_seq.
  - apply Forall_forall. intros entry (i & s & -> & Hi)%elem_of_lookup_imap. cbn. split; [|by apply Hcov].
    rewrite Forall_forall in Hg. eapply Hg, list_elem_of_lookup_2, Hi.
Qed.

Lemma size_empty rs : Forall (fun r => r = registry_empty) rs -> staged_size rs = 0.
Proof.
  induction 1 as [|r rs -> _ IH]; [done|]. unfold staged_size in *. rewrite fmap_cons, zsum_cons, IH.
  unfold registry_bytes. cbn. by rewrite map_to_list_empty.
Qed.

Lemma taken_sound c : Forall grows_within (cd_slots c) -> accounting_sound c ->
  Forall grows_within (cd_slots (take_staged c).1) /\ accounting_sound (take_staged c).1.
Proof.
  intros Hg (Ha & Hcov & Hu). unfold take_staged. destruct (current (cd_accounting c)); [|done]. cbn.
  split; [by apply Forall_fmap|]. split; [done|]. split.
  - cbn. intros i s Hi. rewrite list_lookup_fmap in Hi. destruct (cd_slots c !! i); [|done].
    injection Hi as <-. intros e st. cbn. by rewrite lookup_empty.
  - rewrite size_empty.
    + cbn. pose proof (staged_size_nonneg (candidate_registries c)). assert (0 <= U64_MAX) by done. lia.
    + unfold candidate_registries. cbn. apply Forall_fmap, Forall_fmap, Forall_forall. done.
Qed.

Lemma forget_accounts slots subject a key :
  accounts (account_forget slots subject a) !! key
  = if bool_decide (key.2 = subject /\ (key.1 < slots)%nat) then None else accounts a !! key.
Proof.
  unfold account_forget. cbn. destruct key as [i e]. cbn.
  assert (Hl : forall l (m : gmap (nat * EntityId) EntityAccountV1), fold_left (fun m ordinal => delete (ordinal, subject) m) l m !! (i, e)
    = if bool_decide (e = subject /\ i ∈ l) then None else m !! (i, e)).
  { clear. induction l as [|j l IH]; intros m; cbn.
    - case_bool_decide as Hb; [|done]. by destruct Hb as [_ Hb%not_elem_of_nil].
    - rewrite IH. case_bool_decide as Hb.
      + rewrite bool_decide_eq_true_2; [done|]. destruct Hb. split; [done|by right].
      + case_bool_decide as Hc; [|rewrite lookup_delete_ne; [done|]].
        * destruct Hc as [-> [->|Hc]%elem_of_cons]; [apply lookup_delete_eq|naive_solver].
        * intros [= -> ->]. apply Hc. split; [done|by left]. }
  rewrite Hl. apply (f_equal (fun b : bool => if b then _ else _)). apply bool_decide_ext.
  rewrite elem_of_seq. naive_solver lia.
Qed.

Lemma staged_size_remove e (l : list CandidateSlotV1) :
  staged_size ((fun s => registry_remove e (slot_registry (csl_inner s))) <$> l)
  <= staged_size ((fun s => slot_registry (csl_inner s)) <$> l).
Proof.
  induction l as [|s l IH]; [done|]. unfold staged_size in *. rewrite !fmap_cons, !zsum_cons.
  rewrite (registry_bytes_remove (slot_registry (csl_inner s)) e).
  assert (0 <= default 0 (staged_state_bytes <$> states (slot_registry (csl_inner s)) !! e)); [|lia].
  destruct (states _ !! e); cbn; [apply state_bytes_bounds|done].
Qed.

Lemma forget_sound subject c : Forall grows_within (cd_slots c) -> accounting_sound c ->
  Forall grows_within (cd_slots (candidate_forget subject c)) /\ accounting_sound (candidate_forget subject c).
Proof.
  intros Hg (Ha & Hcov & Hu). split; [by apply Forall_fmap|]. split; [|split].
  - intros key acc. cbn [cd_accounting candidate_forget]. rewrite forget_accounts.
    case_bool_decide; [done|]. apply Ha.
  - intros i s Hi. cbn in Hi. rewrite list_lookup_fmap in Hi. destruct (cd_slots c !! i) as [t|] eqn:Ht; [|done].
    injection Hi as <-. intros e st Hst. cbn in Hst. apply lookup_delete_Some in Hst as [Hne Hst].
    cbv zeta. unfold account_of. cbn [cd_accounting candidate_forget]. rewrite forget_accounts.
    rewrite bool_decide_eq_false_2; [by eapply Hcov|]. cbn. naive_solver.
  - cbn [cd_accounting candidate_forget account_forget upper]. etrans; [|exact Hu].
    unfold candidate_registries. cbn [cd_slots candidate_forget]. rewrite <- list_fmap_compose.
    apply Z.min_le_compat_r. apply (staged_size_remove subject).
Qed.

Lemma registries_lookup c i r :
  candidate_registries c !! i = Some r <-> exists s, cd_slots c !! i = Some s /\ r = slot_registry (csl_inner s).
Proof. unfold candidate_registries. rewrite list_lookup_fmap. destruct (cd_slots c !! i); naive_solver. Qed.

(** On sound accounting an exact pass fails only for size, and settles. *)
Lemma pass_sound c : accounting_sound c ->
  (exact_pass c).2 = (if staged_size (candidate_registries c) <=? MAX_STAGED_OUTPUT_BYTES_V1
                      then Ok tt else Err StagedOutputExceeded)
  /\ accounting_sound (exact_pass c).1.
Proof.
  intros (Ha & Hcov & Hu). unfold exact_pass, accounting_exact_pass.
  assert (Hc : forall entry, entry ∈ all_entries (candidate_registries c) ->
    let a := account_of (accounts (cd_accounting c)) (entry_key entry) in
    staged_state_bytes entry.2 <= saturating_add (measured a) (declared a)).
  { intros [[i e] st] (r & (s & Hs & ->)%registries_lookup & Hst)%all_entries_elem. by eapply Hcov. }
  destruct (measure_ok _ _ 0 (all_entries_keys _) Hc) as [m Hm]. rewrite Hm.
  pose proof (measure_settles _ _ _ _ _ (all_entries_keys _) Hm) as [_ Hset].
  rewrite saturating_sum, all_entries_sum, Z.add_0_l;
    [|done|intros x (e & -> & _)%list_elem_of_fmap; apply state_bytes_bounds].
  set (total := staged_size _).
  assert (Hsound : forall cur, accounting_sound (MkCandidate (cd_slots c) (cd_source c)
    (MkAccounting (Z.min total U64_MAX) (Z.min total U64_MAX) (Z.min (exact_passes (cd_accounting c) + 1) U32_MAX) cur m)
    (cd_revocations c))).
  { intros cur. split; [|split; [|done]].
    - intros key acc Hk. cbn in Hk.
      destruct (decide (key ∈ entry_key <$> all_entries (candidate_registries c))) as [Hin|Hni].
      + apply list_elem_of_fmap in Hin as (entry & -> & Hin%Hset). rewrite Hin in Hk. injection Hk as <-. cbn.
        split; [apply state_bytes_bounds|done].
      + rewrite (measure_keys _ _ _ _ _ _ _ Hm Hni) in Hk. by eapply Ha.
    - intros i s Hi e st Hst. cbn [cd_accounting accounts] in *. unfold account_of.
      change (i, e) with (entry_key (i, e, st)).
      rewrite (Hset (i, e, st)); [|apply all_entries_elem; exists (slot_registry (csl_inner s)); split; [|done];
        apply registries_lookup; eauto].
      cbn. pose proof (state_bytes_bounds st). unfold saturating_add. lia. }
  destruct (Z.min total U64_MAX <=? MAX_STAGED_OUTPUT_BYTES_V1) eqn:Hle;
    destruct (total <=? MAX_STAGED_OUTPUT_BYTES_V1) eqn:Hle'; rewrite Z.ltb_antisym, Hle; try (split; [done|apply Hsound]).
  all: exfalso; unfold MAX_STAGED_OUTPUT_BYTES_V1, U64_MAX in *; lia.
Qed.

Lemma accounted_sound rs c :
  Forall (fun r => grows_within (candidate_slot r)) rs -> accounted rs c ->
  Forall grows_within (cd_slots c) /\ accounting_sound c.
Proof.
  intros Hrs. induction 1 as [src c Hn|event c c' _ [Hg Hs] He|c _ [Hg Hs]|c _ [Hg Hs]].
  - apply from_reducers_ok in Hn as [_ ->]. split; [by apply Forall_fmap|]. split; [done|]. split.
    + cbn. intros i s Hi. rewrite list_lookup_fmap in Hi. destruct (rs !! i); [|done]. injection Hi as <-.
      intros e st. cbn. by rewrite lookup_empty.
    + rewrite size_empty; [done|]. unfold candidate_registries. cbn.
      apply Forall_fmap, Forall_fmap, Forall_forall. done.
  - apply fold_accounted_cases in He as [->|[(a & l & Ho & ->)|[subject ->]]]; [done| |by apply forget_sound].
    by eapply event_sound.
  - destruct (exact_pass_keeps c) as (He & _ & _). rewrite He. split; [done|]. by apply pass_sound.
  - by apply taken_sound.
Qed.

(** C25: the incremental accounting is sound.  When every reducer grows a State by
    at most its declared bound, the upper bound is one for the staged size after
    any accounted Events, an exact pass fails only when the staged size really
    exceeds the limit, and while no pass is due the result can be staged. *)
Theorem accounting_upper_bound rs c :
  Forall (fun r => grows_within (candidate_slot r)) rs -> accounted rs c ->
  Z.min (staged_size (candidate_registries c)) U64_MAX <= upper (cd_accounting c)
  /\ (exact_pass c).2 = (if staged_size (candidate_registries c) <=? MAX_STAGED_OUTPUT_BYTES_V1
                         then Ok tt else Err StagedOutputExceeded)
  /\ (exact_pass_due c = false -> is_Some (take_staged (exact_pass c).1).2).
Proof.
  intros Hrs Hc. destruct (accounted_sound rs c Hrs Hc) as [_ Hs]. pose proof Hs as (_ & _ & Hu).
  split; [done|]. destruct (pass_sound c Hs) as [Hp _]. split; [done|].
  unfold exact_pass_due. intros Hd%Z.ltb_ge.
  rewrite (proj2 (Z.leb_le _ _)) in Hp by (unfold MAX_STAGED_OUTPUT_BYTES_V1, U64_MAX in *; lia).
  revert Hp. unfold exact_pass, accounting_exact_pass.
  destruct (measure_entities _ _) as [[m total] [[]|]]; cbn; [|done].
  destruct (_ <? _); cbn; [done|]. by eexists.
Qed.
End Fold.
End Accounting.
