(* ===== verification/StagedExecutor.v ===== *)
(** * The staged fold on the worker

    [crates/pos-runtime/src/staged_executor.rs]: the checks of a plan on the guard
    thread, and the fold the one worker of the process runs: every callback
    between a check of the deadline and the cancel flag and a check of its own
    bound, the staged size after each.

    What the worker meets is a parameter: its monotonic clock, the cancel flag
    the guard thread may set at any time, and whether a callback unwinds.  A
    callback that unwinds leaves a candidate that is dropped with its State, so
    that State is not modelled. *)

From Stdlib Require Import String ZArith Lia Bool.
From S2P Require Import Prelude Text Cbor FallbackRecords FallbackPolicy ErasureGate Events EventStore.
From S2P Require Import StrictCbor PluginTrust WireSyntax TrustPolicy TrustBridge Consent.
From S2P Require Import Projection Candidate TrustedClock.

Local Open Scope Z_scope.

(** Nanoseconds. *)
Definition STAGED_FOLD_DEADLINE_V1 : Z := 27 * 1000000000.
Definition STAGED_HANDOFF_DEADLINE_V1 : Z := 29 * 1000000000.
Definition STAGED_ACCOUNTING_PASS_BOUND_V1 : Z := 250 * 1000000.
Definition MEASURED_PREPARE_BOUND_V1 : Z := 500 * 1000000.
Definition MEASURED_TEARDOWN_BOUND_V1 : Z := 250 * 1000000.
Definition MAX_STAGED_INPUT_BYTES_V1 : Z := 256 * 1024 * 1024.
Definition GUARD_RELEASE_LATE_SIGNAL : RString := lit "guard_release_late".
Definition HOST_CONSENT_CLOSED_EVENT_TYPE : RString := lit "experiment.lifecycle.consent-closed.v1".

(** [Duration::MAX] and [Duration::checked_add]. *)
Definition DURATION_MAX : Z := U64_MAX * 1000000000 + 999999999.
Definition duration_checked_add (a b : Z) : option Z :=
  if a + b <=? DURATION_MAX then Some (a + b) else None.

Inductive StagedFoldErrorV1 :=
| UnsupportedPanicStrategy | WorkerUnavailable | FoldNotAdmitted | FoldConsumerSetMismatch | FoldSourceMismatch
| InputExceeded | FoldOutputExceeded | FoldEntityLimitExceeded | FoldGrowthBoundExceeded
| ReducerPanicked (consumer_ordinal event_ordinal : Z)
| CallbackBoundExceeded (consumer_ordinal event_ordinal : Z)
| DeadlineExceeded | Cancelled | ExecutorQuarantined | ExecutorBusy.

Definition candidate_error (e : ProjectionCandidateErrorV1) : StagedFoldErrorV1 :=
  match e with
  | NotAdmitted | PluginMismatch => FoldNotAdmitted
  | ConsumerSetMismatch => FoldConsumerSetMismatch
  | SourceMismatch => FoldSourceMismatch
  end.

Definition limit_error (e : StagedLimitErrorV1) : StagedFoldErrorV1 :=
  match e with
  | StagedOutputExceeded => FoldOutputExceeded
  | EntityLimitExceeded => FoldEntityLimitExceeded
  | GrowthBoundExceeded => FoldGrowthBoundExceeded
  end.

Definition TEARDOWN_PANICKED : StagedFoldErrorV1 := ReducerPanicked 0 U32_MAX.

(** ** Deadlines *)

Definition fits_before (now g0 bound deadline : Z) : bool :=
  match checked_elapsed_since now g0 ≫= fun elapsed => duration_checked_add elapsed bound with
  | Some planned => planned <=? deadline
  | None => false
  end.

Section Guard.
Context `{GuardMonotonicSourceV1 M}.

Definition check_handoff_reserve (clock : M) (g0 : Z) : M * result StagedFoldErrorV1 unit :=
  let (clock', now) := mono_mark clock in
  (clock', if fits_before now g0 MEASURED_PREPARE_BOUND_V1 STAGED_HANDOFF_DEADLINE_V1
           then Ok tt else Err DeadlineExceeded).

Definition teardown_signal (clock : M) (g0 : Z) : M * option RString :=
  let (clock', now) := mono_mark clock in
  (clock', if fits_before now g0 MEASURED_TEARDOWN_BOUND_V1 TRUSTED_CLOCK_GUARD_BUDGET
           then None else Some GUARD_RELEASE_LATE_SIGNAL).
End Guard.

Section Executor.
Context `{Json} `{Ciborium} `{CiboriumCursor}.

(** ** Plans *)

Record StagedFoldPlanV1 := MkPlan {
  plan_consumers : list RecordedConsumerV1;
  plan_events : list Event;
  plan_source : ProjectionSourceV1;
}.

Definition is_host_projection_event (event : Event) : bool :=
  negb (bool_decide (ev_event_type event = HOST_CONSENT_CLOSED_EVENT_TYPE)).

Definition plan_new (consumers : list RecordedConsumerV1) (events : list Event) (source : ProjectionSourceV1)
    : StagedFoldPlanV1 := MkPlan consumers (List.filter is_host_projection_event events) source.

Definition plan_input (plan : StagedFoldPlanV1) : Z :=
  fold_left saturating_add
    ((fun event => len (ev_payload event) + str_len (ev_event_type event)) <$> plan_events plan) 0.

Definition admit_plan `{GuardMonotonicSourceV1 M} (g0 : Z) (guard_clock : M) (plan : StagedFoldPlanV1)
    : M * result StagedFoldErrorV1 Z :=
  if (len (plan_consumers plan) =? 0) || (MAX_STAGED_CONSUMERS_V1 <? len (plan_consumers plan))
  then (guard_clock, Err FoldConsumerSetMismatch) else
  match source_timeline (plan_source plan) with
  | None => (guard_clock, Err FoldSourceMismatch)
  | Some _ =>
      if MAX_STAGED_INPUT_BYTES_V1 <? plan_input plan then (guard_clock, Err InputExceeded) else
      let (clock', now) := mono_mark guard_clock in
      (clock', match checked_elapsed_since now g0 with
               | None => Err DeadlineExceeded
               | Some elapsed =>
                   if STAGED_FOLD_DEADLINE_V1 - elapsed <=? 0 then Err DeadlineExceeded
                   else Ok (STAGED_FOLD_DEADLINE_V1 - elapsed)
               end)
  end.

(** ** The worker *)

(** The worker's surroundings: [clock.mark()], [cancel.load(..)], and whether the
    next contained callback returns. *)
Class WorkerGateV1 (W : Type) := {
  gate_mark : W -> W * Z;
  gate_cancelled : W -> W * bool;
  callback_returns : W -> W * bool;
}.

Section Worker.
Context `{WorkerGateV1 W} {P : Type} `{!ProtectedProjectionProviderV1 P}.
Variable g0 : Z.

Definition Work (A : Type) : Type := W -> W * result StagedFoldErrorV1 A.

Definition wret {A} (r : result StagedFoldErrorV1 A) : Work A := fun w => (w, r).
Definition wbind {A B} (m : Work A) (k : A -> Work B) : Work B := fun w =>
  match m w with
  | (w', Ok a) => k a w'
  | (w', Err e) => (w', Err e)
  end.
Local Notation "'work?' x ':=' e 'in' k" := (wbind e (fun x => k))
  (at level 100, x pattern, e at level 100, k at level 200, right associativity).

Definition run_callback {A} (a : A) (w : W) : W * option A :=
  let (w', returned) := callback_returns w in (w', if returned then Some a else None).
Definition drop_guarded (w : W) : W := (run_callback tt w).1.

Definition gate_before (bound : Z) : Work Z := fun w =>
  let (w1, cancelled) := gate_cancelled w in
  if cancelled then (w1, Err Cancelled) else
  let (w2, now) := gate_mark w1 in
  (w2, if fits_before now g0 bound STAGED_FOLD_DEADLINE_V1 then Ok now else Err DeadlineExceeded).

Definition gate_after (started bound consumer_ordinal event_ordinal : Z) : Work unit := fun w =>
  let (w', now) := gate_mark w in
  (w', match checked_elapsed_since now started with
       | Some elapsed => if elapsed <=? bound then Ok tt else Err (CallbackBoundExceeded consumer_ordinal event_ordinal)
       | None => Err (CallbackBoundExceeded consumer_ordinal event_ordinal)
       end).

(** [u16::try_from(..).unwrap_or(u16::MAX)] and its [u32] form. *)
Definition ordinal_u16 (n : nat) : Z := Z.min (Z.of_nat n) U16_MAX.
Definition ordinal_u32 (n : nat) : Z := Z.min (Z.of_nat n) U32_MAX.

Definition build_on_worker (b : CandidateBuildV1) (ordinal : nat) : Work CandidateReducerV1 :=
  let bound := callback_bound (cb_bounds b) in
  work? started := gate_before bound in
  fun w =>
    match run_callback (build_run b) w with
    | (w', None) => (w', Err (ReducerPanicked (ordinal_u16 ordinal) 0))
    | (w', Some (Err e)) => (w', Err (candidate_error e))
    | (w', Some (Ok reducer)) =>
        match gate_after started bound (ordinal_u16 ordinal) 0 w' with
        | (w'', Ok _) => (w'', Ok reducer)
        | (w'', Err e) => (drop_guarded w'', Err e)
        end
    end.

Fixpoint builds_on_worker (builds : list CandidateBuildV1) (ordinal : nat) : Work (list CandidateReducerV1) :=
  match builds with
  | [] => wret (Ok [])
  | b :: rest =>
      work? reducer := build_on_worker b ordinal in
      work? reducers := builds_on_worker rest (S ordinal) in
      wret (Ok (reducer :: reducers))
  end.

Definition open_on_worker (provider : P)
    (consumers : list RecordedConsumerV1) (source : ProjectionSourceV1) : Work DetachedProjectionCandidateV1 :=
  match candidate_builds provider consumers with
  | Err e => wret (Err (candidate_error e))
  | Ok builds => fun w =>
      match builds_on_worker builds 0 w with
      | (w', Err e) => (drop_guarded w', Err e)
      | (w', Ok reducers) =>
          match run_callback (from_reducers reducers source) w' with
          | (w'', None) => (w'', Err TEARDOWN_PANICKED)
          | (w'', Some assembled) => (w'', map_err candidate_error assembled)
          end
      end
  end.

Definition fold_turn (event_ordinal : Z) : Offer W StagedFoldErrorV1 := fun event ordinal ga slot =>
  let bound := callback_bound (csl_bounds slot) in
  match gate_before bound ga.1 with
  | (w1, Err e) => ((w1, ga.2), slot, Err e)
  | (w1, Ok started) =>
      match run_callback (turn_apply event slot) w1 with
      | (w2, None) => ((w2, ga.2), slot, Err (ReducerPanicked (ordinal_u16 ordinal) event_ordinal))
      | (w2, Some (slot', initial_size)) =>
          match gate_after started bound (ordinal_u16 ordinal) event_ordinal w2 with
          | (w3, Err e) => ((w3, ga.2), slot', Err e)
          | (w3, Ok _) =>
              let (a', r) := turn_account ordinal event slot' initial_size ga.2 in
              ((w3, a'), slot', map_err limit_error r)
          end
      end
  end.

Definition worker_exact_pass (c : DetachedProjectionCandidateV1) : Work DetachedProjectionCandidateV1 :=
  work? _ := gate_before STAGED_ACCOUNTING_PASS_BOUND_V1 in
  let (c', r) := exact_pass c in
  wret (let? _ := map_err limit_error r in Ok c').

(** The loop of [fold_candidate]. *)
Fixpoint fold_loop (event_ordinal : nat) (events : list Event) (c : DetachedProjectionCandidateV1)
    : Work DetachedProjectionCandidateV1 :=
  match events with
  | [] => wret (Ok c)
  | event :: rest =>
      work? c' := fun w =>
        let '(w', c', r) := fold_event_with (fold_turn (ordinal_u32 event_ordinal)) event w c in
        (w', let? _ := r in Ok c') in
      work? c'' := if exact_pass_due c' then worker_exact_pass c' else wret (Ok c') in
      fold_loop (S event_ordinal) rest c''
  end.

Definition fold_candidate (c : DetachedProjectionCandidateV1) (events : list Event) : Work StagedProjectionV1 :=
  work? c1 := fold_loop 0 events c in
  work? c2 := worker_exact_pass c1 in
  wret (match (take_staged c2).2 with Some staged => Ok staged | None => Err FoldOutputExceeded end).

Definition fold_on_worker (provider : P) (plan : StagedFoldPlanV1)
    : Work StagedProjectionV1 := fun w =>
  let (w1, opened) := open_on_worker provider (plan_consumers plan) (plan_source plan) w in
  let w2 := drop_guarded w1 in
  match opened with
  | Err e => (w2, Err e)
  | Ok candidate =>
      let (w3, outcome) := fold_candidate candidate (plan_events plan) w2 in
      let (w4, dropped) := run_callback tt w3 in
      (w4, let? staged := outcome in
           match dropped with Some _ => Ok staged | None => Err TEARDOWN_PANICKED end)
  end.
End Worker.
End Executor.
