(* ===== verification/StagedExecutorProperties.v ===== *)
(** * What a staged fold returns

    A fold that succeeds on the worker is the accounted fold of the recorded
    consumers over every Event of the plan, and in time by what the worker observed
    during the run; then when it succeeds. *)

From Stdlib Require Import String ZArith Lia Bool.
From S2P Require Import Prelude Text Cbor FallbackRecords FallbackPolicy ErasureGate Events EventStore StrictCbor.
From S2P Require Import PluginTrust WireSyntax TrustPolicy TrustBridge TrustedClock Consent Projection Candidate.
From S2P Require Import ProjectionProperties Candidate ProjectionReach CandidateProperties.
From S2P Require Import CandidateProperties StagedExecutor.

Local Open Scope Z_scope.

Section Worker.
Context `{Json} `{Ciborium} `{CiboriumCursor} `{WorkerGateV1 W} {P : Type} `{!ProtectedProjectionProviderV1 P}.
Variable g0 : Z.

Local Abbreviation Work := (StagedExecutor.Work (W:=W)).

Lemma wbind_ok {A B} (m : Work A) (k : A -> Work B) w w' b :
  wbind m k w = (w', Ok b) -> exists w1 a, m w = (w1, Ok a) /\ k a w1 = (w', Ok b).
Proof. unfold wbind. destruct (m w) as [w1 [a|e]]; [|done]. eauto. Qed.

(** ** What the worker observes *)

Inductive Observation := SawCancelled (cancelled : bool) | SawMark (now : Z) | SawCallback (returned : bool).

(** The run of a worker from one state of its surroundings to another, with what
    it observed on the way, in order. *)
Inductive observes : W -> list Observation -> W -> Prop :=
| observes_end w : observes w [] w
| observes_cancelled w l w' :
    observes (gate_cancelled w).1 l w' -> observes w (SawCancelled (gate_cancelled w).2 :: l) w'
| observes_mark w l w' : observes (gate_mark w).1 l w' -> observes w (SawMark (gate_mark w).2 :: l) w'
| observes_callback w l w' :
    observes (callback_returns w).1 l w' -> observes w (SawCallback (callback_returns w).2 :: l) w'.

Lemma observes_app w l w1 l' w' : observes w l w1 -> observes w1 l' w' -> observes w (l ++ l') w'.
Proof. induction 1; [done|constructor; auto..]. Qed.

(** A check before work that takes up to [bound], at the mark [started]: the flag
    is not set, and the work can end before the deadline. *)
Definition checked_start (bound started : Z) (l : list Observation) : Prop :=
  l = [SawCancelled false; SawMark started] /\ g0 <= started
  /\ started + bound <= g0 + STAGED_FOLD_DEADLINE_V1.

(** A callback of the given bound: checked before, returned, and within its bound
    by the mark taken behind it. *)
Definition timed_callback (bound : Z) (l : list Observation) : Prop :=
  exists started ended before, checked_start bound started before
    /\ l = before ++ [SawCallback true; SawMark ended] /\ started <= ended <= started + bound.

Definition timed_pass (l : list Observation) : Prop :=
  exists started, checked_start STAGED_ACCOUNTING_PASS_BOUND_V1 started l.

(** One callback for each bound, in order. *)
Definition timed_callbacks (bounds : list Z) (l : list Observation) : Prop :=
  exists ls, l = mjoin ls /\ Forall2 timed_callback bounds ls.

Lemma timed_callbacks_cons bound bounds l l' :
  timed_callback bound l -> timed_callbacks bounds l' -> timed_callbacks (bound :: bounds) (l ++ l').
Proof. intros Hl (ls & -> & Hls). exists (l :: ls). split; [done|by constructor]. Qed.

(** One Event: offered to every reducer if it reaches them, then a measurement if
    one was due. *)
Definition timed_event (bounds : list Z) (event : Event) (l : list Observation) : Prop :=
  exists turns pass, l = turns ++ pass
    /\ timed_callbacks (if reaches_reducers event then bounds else []) turns
    /\ (pass = [] \/ timed_pass pass).

(** A whole fold: the builds, the assembly of the candidate and the drop of what it
    leaves, the Events, the last measurement, and the drop of the candidate. *)
Definition timed_fold (builds : list CandidateBuildV1) (bounds : list Z) (events : list Event)
    (l : list Observation) : Prop :=
  exists built dropped turns pass,
    l = built ++ [SawCallback true; SawCallback dropped] ++ mjoin turns ++ pass ++ [SawCallback true]
    /\ timed_callbacks ((fun b => callback_bound (cb_bounds b)) <$> builds) built
    /\ Forall2 (timed_event bounds) events turns /\ timed_pass pass.

Lemma gate_before_ok bound w w' now :
  gate_before g0 bound w = (w', Ok now) ->
  exists l, observes w l w' /\ checked_start bound now l.
Proof.
  unfold gate_before. destruct (gate_cancelled w) as [w1 []] eqn:Hc; [done|].
  destruct (gate_mark w1) as [w2 t] eqn:Hm. unfold fits_before, checked_elapsed_since, duration_checked_add.
  destruct (g0 <=? t) eqn:Hg; cbn; [|done]. destruct (_ <=? DURATION_MAX); [|done].
  destruct (_ <=? STAGED_FOLD_DEADLINE_V1) eqn:Hd; [|done]. intros [= <- <-].
  exists [SawCancelled false; SawMark t]. split; [|split; [done|lia]].
  pose proof (observes_cancelled w [SawMark t] w2) as Hobs. rewrite Hc in Hobs. apply Hobs.
  pose proof (observes_mark w1 [] w2) as Hobs'. rewrite Hm in Hobs'. apply Hobs'. constructor.
Qed.

Lemma gate_after_ok started bound i j w w' :
  gate_after started bound i j w = (w', Ok tt) ->
  exists ended, observes w [SawMark ended] w' /\ started <= ended <= started + bound.
Proof.
  unfold gate_after. destruct (gate_mark w) as [w1 t] eqn:Hm. unfold checked_elapsed_since.
  destruct (started <=? t) eqn:Hs; [|done]. destruct (t - started <=? bound) eqn:Hb; [|done].
  intros [= <-]. exists t. split; [|lia].
  pose proof (observes_mark w [] w1) as Hobs. rewrite Hm in Hobs. apply Hobs. constructor.
Qed.

Lemma run_callback_ok {A} (a : A) (w w' : W) r :
  run_callback a w = (w', r) ->
  observes w [SawCallback (match r with Some _ => true | None => false end)] w'
  /\ forall b, r = Some b -> b = a.
Proof.
  unfold run_callback. destruct (callback_returns w) as [w1 returned] eqn:Hc. intros [= <- <-]. split.
  - pose proof (observes_callback w [] w1) as Hobs. rewrite Hc in Hobs. destruct returned; apply Hobs; constructor.
  - destruct returned; congruence.
Qed.

Lemma run_callback_some {A} (a b : A) (w w' : W) :
  run_callback a w = (w', Some b) -> b = a /\ observes w [SawCallback true] w'.
Proof. intros [Hl Hb]%run_callback_ok. auto. Qed.

(** The three of them around one callback. *)
Lemma timed_ok {A} (a b : A) bound started i j w w1 w2 w3 :
  gate_before g0 bound w = (w1, Ok started) -> run_callback a w1 = (w2, Some b) ->
  gate_after started bound i j w2 = (w3, Ok tt) ->
  b = a /\ exists l, observes w l w3 /\ timed_callback bound l.
Proof.
  intros (l & Hl & Hs)%gate_before_ok [-> Hc]%run_callback_some (e & Ha & He)%gate_after_ok. split; [done|].
  exists (l ++ [SawCallback true; SawMark e]). split; [|by exists started, e, l].
  eapply observes_app; [exact Hl|]. exact (observes_app _ [SawCallback true] _ [SawMark e] _ Hc Ha).
Qed.

(** ** Turns *)

Lemma fold_turn_ok n event i w a slot w' a' slot' :
  fold_turn g0 n event i (w, a) slot = ((w', a'), slot', Ok tt) ->
  offer_accounted event i (tt, a) slot = ((tt, a'), slot', Ok tt)
  /\ exists l, observes w l w' /\ timed_callback (callback_bound (csl_bounds slot)) l.
Proof.
  unfold fold_turn, offer_accounted. cbn [fst snd].
  destruct (gate_before _ _ w) as [w1 [started|e]] eqn:Hb; [|done].
  destruct (run_callback _ w1) as [w2 [[s1 init]|]] eqn:Hr; [|done].
  destruct (gate_after _ _ _ _ w2) as [w3 [[]|e]] eqn:Ha; [|done].
  destruct (timed_ok _ _ _ _ _ _ _ _ _ _ Hb Hr Ha) as [<- Hl].
  destruct (turn_account i event s1 init a) as [a1 [[]|e]]; [|done]. by intros [= <- <- <-].
Qed.

Lemma offer_all_turns n event (l : list (nat * CandidateSlotV1)) w a w' a' l' :
  offer_all (fun (ga : W * StagedAccountingV1) entry =>
    let '(ga', slot', r) := fold_turn g0 n event entry.1 ga entry.2 in (ga', (entry.1, slot'), r)) (w, a) l
    = ((w', a'), l', Ok tt) ->
  offer_all (entry_offer event) (tt, a) l = ((tt, a'), l', Ok tt)
  /\ exists obs, observes w obs w'
     /\ timed_callbacks ((fun entry => callback_bound (csl_bounds entry.2)) <$> l) obs.
Proof.
  revert w a l'. induction l as [|[i s] l IH]; intros w a l'; cbn [offer_all].
  { intros [= <- <- <-]. split; [done|]. exists []. split; [constructor|]. by exists []. }
  unfold entry_offer at 1. cbn [fst snd].
  destruct (fold_turn g0 n event i (w, a) s) as [[[w1 a1] s1] [[]|e]] eqn:Ht; [|done].
  destruct (fold_turn_ok _ _ _ _ _ _ _ _ _ Ht) as [Heq (l1 & Hl1 & Ht1)]. rewrite Heq.
  destruct (offer_all _ (w1, a1) l) as [[[w2 a2] l2] r] eqn:Hl. intros [= -> -> <- ->].
  destruct (IH _ _ _ Hl) as [Hacc (obs & Ho & Hobs)]. rewrite Hacc. split; [done|].
  exists (l1 ++ obs). split; [by eapply observes_app|]. by apply timed_callbacks_cons.
Qed.

Lemma fold_event_turns n event w w' c c' :
  fold_event_with (fold_turn g0 n) event w c = (w', c', Ok tt) ->
  fold_event_with offer_accounted event tt c = (tt, c', Ok tt)
  /\ exists obs, observes w obs w'
     /\ timed_callbacks (if reaches_reducers event
                         then (fun s => callback_bound (csl_bounds s)) <$> cd_slots c else []) obs.
Proof.
  assert (Hnone : observes w [] w /\ timed_callbacks [] []) by (split; [constructor|by exists []]).
  unfold fold_event_with, fold_bound_event, reaches_reducers. fold (entry_offer event).
  case_bool_decide; [|destruct (is_consent_event_type _); [|destruct (is_geographic_event_type _)]]; cbn [negb andb].
  - destruct (consent_revocation_decode _); intros [= <- <-]; eauto.
  - intros [= <- <-]; eauto.
  - intros [= <- <-]; eauto.
  - destruct (offer_all _ (w, _) _) as [[[w1 a1] l1] [[]|e]] eqn:Ho; [|done]. intros [= <- <-].
    destruct (offer_all_turns _ _ _ _ _ _ _ _ Ho) as [Hacc (obs & Hobs & Ht)]. rewrite Hacc. split; [done|].
    exists obs. split; [done|]. rewrite <- (snd_imap_pair (cd_slots c)), <- list_fmap_compose. exact Ht.
Qed.

(** ** Revocations *)

Lemma fold_event_revocations {G E} (offer : Offer G E) event g g' c c' :
  fold_event_with offer event g c = (g', c', Ok tt) ->
  cd_revocations c' = cd_revocations c ++ from_verified_events [event] /\ cd_source c' = cd_source c.
Proof.
  unfold fold_event_with, fold_bound_event, from_verified_events, event_revocation. cbn.
  case_bool_decide; [|destruct (is_consent_event_type _); [|destruct (is_geographic_event_type _)]].
  - destruct (consent_revocation_decode _); intros [= _ <-]; cbn; by rewrite ?app_nil_r.
  - intros [= _ <-]. cbn. by rewrite app_nil_r.
  - intros [= _ <-]. cbn. by rewrite app_nil_r.
  - destruct (offer_all _ _ _) as [[[g1 a1] l1] [[]|e]]; [|done]. intros [= _ <-]. cbn. by rewrite app_nil_r.
Qed.

Lemma from_verified_app l k : from_verified_events (l ++ k) = from_verified_events l ++ from_verified_events k.
Proof. unfold from_verified_events. apply omap_app. Qed.

(** ** The fold *)

Lemma slot_steps_keeps events s :
  csl_consumer (slot_steps events s) = csl_consumer s /\ csl_name (slot_steps events s) = csl_name s
  /\ slot_policy (csl_inner (slot_steps events s)) = slot_policy (csl_inner s)
  /\ csl_bounds (slot_steps events s) = csl_bounds s.
Proof. revert s. induction events as [|event events IH]; intros s; [done|]. apply (IH (slot_step event s)). Qed.

Lemma slot_steps_reducer events s : slot_reducer (csl_inner (slot_steps events s)) = slot_reducer (csl_inner s).
Proof. revert s. induction events as [|event events IH]; intros s; [done|]. apply (IH (slot_step event s)). Qed.

(** What the fold has made of a candidate. *)
Definition folded_candidate (rs : list CandidateReducerV1) (events : list Event)
    (source : ProjectionSourceV1) (c : DetachedProjectionCandidateV1) : Prop :=
  accounted rs c /\ cd_slots c = slot_steps events <$> (candidate_slot <$> rs)
  /\ cd_revocations c = from_verified_events events /\ cd_source c = source.

(** The callback bounds of the reducers, in order. *)
Definition reducer_bounds (rs : list CandidateReducerV1) : list Z :=
  (fun r => callback_bound (cdr_bounds r)) <$> rs.

Lemma folded_bounds rs events slots :
  slots = slot_steps events <$> (candidate_slot <$> rs) ->
  (fun s => callback_bound (csl_bounds s)) <$> slots = reducer_bounds rs.
Proof.
  intros ->. unfold reducer_bounds. rewrite <- !list_fmap_compose. apply list_fmap_ext. intros i r _. cbn.
  by destruct (slot_steps_keeps events (candidate_slot r)) as (_ & _ & _ & ->).
Qed.

Lemma pass_folded rs events src c c' w w' :
  worker_exact_pass g0 c w = (w', Ok c') -> folded_candidate rs events src c ->
  folded_candidate rs events src c' /\ current (cd_accounting c') = true
  /\ exists obs, observes w obs w' /\ timed_pass obs.
Proof.
  unfold worker_exact_pass. intros (w1 & now & (obs & Hobs & Hn)%gate_before_ok & Hk)%wbind_ok (Ha & Hs & Hr & Hsrc).
  destruct (exact_pass c) as [c1 [[]|e]] eqn:Hp; [|done]. injection Hk as <- <-.
  pose proof (exact_pass_keeps c) as (Hs' & Hsrc' & Hr'). pose proof (accounted_pass rs c Ha) as Ha'.
  rewrite Hp in Hs', Hsrc', Hr', Ha'. cbn in Hs', Hsrc', Hr', Ha'. split; [|split].
  - split; [done|]. by rewrite Hs', Hsrc', Hr'.
  - revert Hp. unfold exact_pass, accounting_exact_pass.
    destruct (measure_entities _ _) as [[m t] [[]|e]]; [|done]. destruct (_ <? _); [done|]. by intros [= <-].
  - exists obs. split; [done|by exists now].
Qed.

Lemma event_folded rs events src event n c c' w w' :
  fold_event_with (fold_turn g0 n) event w c = (w', c', Ok tt) -> folded_candidate rs events src c ->
  folded_candidate rs (events ++ [event]) src c'
  /\ exists obs, observes w obs w'
     /\ timed_callbacks (if reaches_reducers event then reducer_bounds rs else []) obs.
Proof.
  intros Hf (Ha & Hs & Hr & Hsrc). destruct (fold_event_revocations _ _ _ _ _ _ Hf) as [Hr' Hsrc'].
  apply fold_event_turns in Hf as [Hf Hobs]. split; [|by rewrite (folded_bounds rs events _ Hs) in Hobs].
  split; [by eapply accounted_event|]. split; [|split].
  - rewrite (fold_event_slots _ _ _ _ _ _ accounted_faithful Hf), Hs, <- list_fmap_compose.
    apply list_fmap_ext. intros i s _. unfold slot_steps. cbn. by rewrite fold_left_app.
  - by rewrite Hr', Hr, from_verified_app.
  - congruence.
Qed.

Lemma loop_folded rs events src more n c c' w w' :
  fold_loop g0 n more c w = (w', Ok c') -> folded_candidate rs events src c ->
  folded_candidate rs (events ++ more) src c'
  /\ exists turns, observes w (mjoin turns) w' /\ Forall2 (timed_event (reducer_bounds rs)) more turns.
Proof.
  revert n events c w. induction more as [|event more IH]; intros n events c w; cbn [fold_loop].
  { intros [= <- <-]. rewrite app_nil_r. intros Hc. split; [done|]. exists []. split; constructor. }
  intros (w1 & c1 & Hev & (w2 & c2 & Hpass & Hrest)%wbind_ok)%wbind_ok Hc.
  destruct (fold_event_with _ event w c) as [[w3 c3] [[]|e]] eqn:Hf; [|done]. injection Hev as <- <-.
  eapply event_folded in Hf as [Hf (turn & Hturn & Ht)]; [|exact Hc].
  assert (Hp : folded_candidate rs (events ++ [event]) src c2
    /\ exists pass, observes w3 pass w2 /\ (pass = [] \/ timed_pass pass)).
  { destruct (exact_pass_due c3).
    - eapply pass_folded in Hpass as (? & _ & pass & Hpass & ?); [|exact Hf]. eauto.
    - injection Hpass as <- <-. split; [done|]. exists []. split; [constructor|by left]. }
  destruct Hp as [Hc2 (pass & Hpobs & Hp)].
  destruct (IH _ _ _ _ Hrest Hc2) as [Hc' (turns & Hobs & Hturns)].
  rewrite cons_middle, app_assoc. split; [done|]. exists ((turn ++ pass) :: turns). split.
  - cbn. eapply observes_app; [|exact Hobs]. by eapply observes_app.
  - constructor; [by exists turn, pass|done].
Qed.

Lemma builds_on_worker_ok builds n w w' rs :
  builds_on_worker g0 builds n w = (w', Ok rs) ->
  builds_run builds = Ok rs
  /\ exists obs, observes w obs w'
     /\ timed_callbacks ((fun b => callback_bound (cb_bounds b)) <$> builds) obs.
Proof.
  revert n w w' rs. induction builds as [|b builds IH]; intros n w w' rs; cbn [builds_on_worker builds_run].
  { intros [= <- <-]. split; [done|]. exists []. split; [constructor|by exists []]. }
  intros (w1 & r & Hb & (w2 & rs' & Hbs & Hr)%wbind_ok)%wbind_ok. injection Hr as <- <-.
  destruct (IH _ _ _ _ Hbs) as [Hrun (obs & Hobs & Ht)]. rewrite Hrun.
  unfold build_on_worker in Hb. apply wbind_ok in Hb as (w3 & t & Hg & Hb).
  destruct (run_callback (build_run b) w3) as [w4 [[r'|e]|]] eqn:Hc; [|done|done].
  destruct (gate_after _ _ _ _ w4) as [w5 [[]|e]] eqn:Ha; [|done]. injection Hb as <- <-.
  destruct (timed_ok _ _ _ _ _ _ _ _ _ _ Hg Hc Ha) as [<- (l & Hl & Htl)]. split; [done|].
  exists (l ++ obs). split; [by eapply observes_app|]. by apply timed_callbacks_cons.
Qed.

Lemma open_on_worker_ok (provider : P) consumers src w w' c :
  open_on_worker g0 provider consumers src w = (w', Ok c) ->
  exists builds rs, candidate_builds provider consumers = Ok builds /\ builds_run builds = Ok rs
    /\ from_reducers rs src = Ok c
    /\ exists built, observes w (built ++ [SawCallback true]) w'
       /\ timed_callbacks ((fun b => callback_bound (cb_bounds b)) <$> builds) built.
Proof.
  unfold open_on_worker. destruct (candidate_builds provider consumers) as [builds|e]; [|done].
  destruct (builds_on_worker g0 builds 0 w) as [w1 [rs|e]] eqn:Hb; [|done].
  destruct (run_callback _ w1) as [w2 [[c'|e]|]] eqn:Hr; [|done|done]. intros [= <- <-].
  apply run_callback_some in Hr as [Hr Hobs]. apply builds_on_worker_ok in Hb as [Hb (built & Hbuilt & Ht)].
  exists builds, rs. split_and!; [done|done|by rewrite <- Hr|].
  exists built. split; [by eapply observes_app|done].
Qed.

(** The result of a fold of the Events of [plan] for the reducers [rs]. *)
Definition staged_result (plan : StagedFoldPlanV1) (rs : list CandidateReducerV1) (st : StagedProjectionV1) : Prop :=
  sp_consumers st = cdr_consumer <$> rs /\ sp_source st = plan_source plan
  /\ sp_revocations st = from_verified_events (plan_events plan)
  /\ Forall2 (fun s r => ss_plugin_id s = rc_plugin_id (cdr_consumer r) /\ ss_name s = cdr_name r
       /\ ss_policy s = cdr_policy r /\ registry_len (ss_registry s) <= MAX_STAGED_ENTITIES_PER_CONSUMER_V1
       /\ forall e, registry_get e (ss_registry s) = entity_state (cdr_reducer r) e (plan_events plan))
       (sp_slots st) rs
  /\ staged_size (ss_registry <$> sp_slots st) <= MAX_STAGED_OUTPUT_BYTES_V1.

Lemma fold_on_worker_ok (provider : P) plan w w' st :
  fold_on_worker g0 provider plan w = (w', Ok st) ->
  exists builds rs c, candidate_builds provider (plan_consumers plan) = Ok builds /\ builds_run builds = Ok rs
    /\ from_reducers rs (plan_source plan) = Ok c /\ staged_result plan rs st
    /\ exists obs, observes w obs w' /\ timed_fold builds (reducer_bounds rs) (plan_events plan) obs.
Proof.
  unfold fold_on_worker. destruct (open_on_worker g0 provider _ _ w) as [w1 [c|e]] eqn:Ho; [|done].
  apply open_on_worker_ok in Ho as (builds & rs & Hb & Hrs & Hc & built & Hbuilt & Htb).
  destruct (run_callback tt w1) as [w2 dropped0] eqn:Hd0. unfold drop_guarded. rewrite Hd0. cbn [fst].
  apply run_callback_ok in Hd0 as [Hd0 _].
  destruct (fold_candidate g0 c (plan_events plan) _) as [w3 outcome] eqn:Hf.
  destruct (run_callback tt w3) as [w4 dropped] eqn:Hd1. intros [= <- Hout]. apply run_callback_ok in Hd1 as [Hd1 _].
  apply rbind_ok_inv in Hout as (st' & -> & Hd). destruct dropped as [[]|]; [|done]. injection Hd as ->.
  unfold fold_candidate in Hf. apply wbind_ok in Hf as (w5 & c1 & Hloop & Hf).
  apply wbind_ok in Hf as (w6 & c2 & Hpass & Hf).
  assert (Hstart : folded_candidate rs [] (plan_source plan) c).
  { split; [by eapply accounted_new|]. apply from_reducers_ok in Hc as [_ ->]. cbn. by rewrite list_fmap_id. }
  eapply loop_folded in Hloop as [Hloop (turns & Hturns & Htt)]; [|exact Hstart]. cbn [app] in Hloop.
  eapply pass_folded in Hpass as (Hfc & Hcur & pass & Hpobs & Htp); [|exact Hloop].
  pose proof Hfc as (Ha & Hs & Hr & Hsrc). destruct (accounted_limits rs c2 Ha) as [Hw Ht].
  unfold take_staged in Hf. rewrite Hcur in Hf. cbn in Hf. injection Hf as <- <-.
  exists builds, rs, c. do 3 (split; [done|]). split.
  2: { eexists ((built ++ [_]) ++ [_] ++ mjoin turns ++ pass ++ [_]). split.
    - eapply observes_app; [exact Hbuilt|]. eapply (observes_app _ [_]); [exact Hd0|].
      eapply observes_app; [exact Hturns|]. by eapply observes_app.
    - rewrite <- (app_assoc built). by eexists built, _, turns, pass. }
  unfold staged_result. cbn [sp_consumers sp_source sp_revocations sp_slots].
  split_and!; [|done|done| |].
  - rewrite Hs, <- !list_fmap_compose. apply list_fmap_ext. intros i r _. by apply slot_steps_keeps.
  - rewrite Hs, !Forall_fmap in Hw. rewrite Hs. apply Forall2_fmap_l, Forall2_fmap_l, Forall2_fmap_l, Forall_Forall2_diag.
    eapply Forall_impl; [exact Hw|]. intros r Hr0. unfold staged_slot, consumer_id. cbn.
    destruct (slot_steps_keeps (plan_events plan) (candidate_slot r)) as (-> & -> & -> & _). do 3 (split; [done|]).
    split; [exact Hr0|]. intros e. rewrite slot_steps_registry. apply event_steps_states.
  - rewrite <- list_fmap_compose. by apply Ht.
Qed.

(** C5: a staged fold returns exactly the State of the history.  When the worker
    returns a result, every recorded consumer was built by the provider, and the
    State of each entity for each consumer is what its reducer makes of the
    Events of the plan behind the last revocation of the entity; the revoked
    subjects are those of the Events and the sizes are within the limits.  And the
    run was in time by its own observations, from the first to the last: before
    every build, every turn of a reducer and every measurement the worker saw that
    it was not cancelled and that the work, up to its bound, ends before
    [g0 + 27 s]; every build and turn returned within its bound; every Event was
    offered to every reducer it reaches; and nothing but the drop of the candidate
    followed the last measurement. *)
Theorem staged_fold_exact (provider : P) plan w w' st :
  fold_on_worker g0 provider plan w = (w', Ok st) ->
  exists builds rs, candidate_builds provider (plan_consumers plan) = Ok builds /\ builds_run builds = Ok rs
    /\ staged_result plan rs st
    /\ exists obs, observes w obs w' /\ timed_fold builds (reducer_bounds rs) (plan_events plan) obs.
Proof. intros (builds & rs & c & Hb & Hrs & _ & Hst)%fold_on_worker_ok. by exists builds, rs. Qed.
End Worker.

(** * A staged fold that is left alone succeeds

    On a worker that is never cancelled, whose callbacks return and whose clock
    stays in the window, a fold within the limits returns its result. *)

(** A worker nobody cancels, whose callbacks return, and whose clock runs forward
    within [slack] of [g0]. *)
Class PromptWorker (W : Type) `{WorkerGateV1 W} (g0 slack : Z) := {
  now : W -> Z;
  prompt_window w : g0 <= now w <= g0 + slack;
  prompt_mark w : (gate_mark w).2 = now (gate_mark w).1 /\ now w <= now (gate_mark w).1;
  prompt_cancel w : (gate_cancelled w).2 = false /\ now w <= now (gate_cancelled w).1;
  prompt_callback w : (callback_returns w).2 = true /\ now w <= now (callback_returns w).1;
}.

Section Prompt.
Context `{Json} `{Ciborium} `{CiboriumCursor} {P : Type} `{!ProtectedProjectionProviderV1 P}.
Context `{WorkerGateV1 W} (g0 slack : Z) `{!PromptWorker W g0 slack}.

(** A bound that is not below the slack and leaves it before the deadline. *)
Definition bound_fits (bound : Z) : Prop := slack <= bound /\ bound + slack <= STAGED_FOLD_DEADLINE_V1.

Lemma slack_nonneg (w : W) : 0 <= slack.
Proof. pose proof (prompt_window w). lia. Qed.

Lemma gate_before_prompt bound (w : W) :
  0 <= bound -> bound + slack <= STAGED_FOLD_DEADLINE_V1 ->
  exists w', gate_before g0 bound w = (w', Ok (now w')).
Proof.
  intros H0' Hb. unfold gate_before. pose proof (prompt_cancel w) as [Hc _].
  destruct (gate_cancelled w) as [w1 c]. cbn in Hc. subst c.
  pose proof (prompt_mark w1) as [Hm _]. destruct (gate_mark w1) as [w2 t]. cbn in Hm. subst t.
  exists w2. pose proof (prompt_window w2). unfold fits_before, checked_elapsed_since, duration_checked_add.
  rewrite (proj2 (Z.leb_le g0 (now w2))) by lia. cbn.
  rewrite (proj2 (Z.leb_le (now w2 - g0 + bound) DURATION_MAX))
    by (unfold STAGED_FOLD_DEADLINE_V1, DURATION_MAX, U64_MAX in *; lia).
  by rewrite (proj2 (Z.leb_le _ STAGED_FOLD_DEADLINE_V1)) by lia.
Qed.

Lemma gate_after_prompt started bound i j (w : W) :
  slack <= bound -> g0 <= started <= now w -> exists w', gate_after started bound i j w = (w', Ok tt).
Proof.
  intros Hb Hs. unfold gate_after. pose proof (prompt_mark w) as [Hm Hle].
  destruct (gate_mark w) as [w2 t]. cbn in Hm, Hle. subst t. exists w2. pose proof (prompt_window w2).
  unfold checked_elapsed_since. rewrite (proj2 (Z.leb_le started (now w2))) by lia.
  by rewrite (proj2 (Z.leb_le (now w2 - started) bound)) by lia.
Qed.

Lemma run_callback_prompt {A} (a : A) (w : W) :
  exists w', run_callback a w = (w', Some a) /\ now w <= now w'.
Proof.
  unfold run_callback. pose proof (prompt_callback w) as [Hr Hle].
  destruct (callback_returns w) as [w1 r]. cbn in Hr, Hle. subst r. eauto.
Qed.

(** One callback between its checks. *)
Lemma callback_prompt {A} (a : A) bound i j (w : W) :
  bound_fits bound ->
  exists w1 w2 w3 started, gate_before g0 bound w = (w1, Ok started) /\ run_callback a w1 = (w2, Some a)
    /\ gate_after started bound i j w2 = (w3, Ok tt).
Proof.
  intros [Hs Hb]. pose proof (slack_nonneg w).
  destruct (gate_before_prompt bound w) as [w1 Hbe]; [lia|done|].
  destruct (run_callback_prompt a w1) as (w2 & Hc & Hle). pose proof (prompt_window w1).
  destruct (gate_after_prompt (now w1) bound i j w2) as [w3 Ha]; [done|lia|].
  by exists w1, w2, w3, (now w1).
Qed.

(** ** The fold *)

Lemma fold_turn_prompt n event i w a s :
  bound_fits (callback_bound (csl_bounds s)) -> within_entities (turn_apply event s).1 ->
  exists w' a', fold_turn g0 n event i (w, a) s = ((w', a'), (turn_apply event s).1, Ok tt).
Proof.
  intros Hb Hw. unfold fold_turn. cbn [fst snd].
  destruct (callback_prompt (turn_apply event s) _ (ordinal_u16 i) n w Hb) as (w1 & w2 & w3 & t & -> & -> & ->).
  assert (Hbs : csl_bounds (turn_apply event s).1 = csl_bounds s)
    by (unfold turn_apply; by destruct (apply_observing_initial _ _ _)).
  revert Hw Hbs. destruct (turn_apply event s) as [s' init]. cbn [fst]. intros Hw Hbs.
  unfold turn_account. rewrite (proj2 (Z.ltb_ge _ _) Hw).
  destruct (registry_get _ _); by eexists _, _.
Qed.

Lemma offer_all_prompt n event (l : list (nat * CandidateSlotV1)) w a :
  Forall (fun entry => bound_fits (callback_bound (csl_bounds entry.2)) /\ within_entities (turn_apply event entry.2).1) l ->
  exists w' a' l', offer_all (fun (ga : W * StagedAccountingV1) entry =>
    let '(ga', slot', r) := fold_turn g0 n event entry.1 ga entry.2 in (ga', (entry.1, slot'), r)) (w, a) l
    = ((w', a'), l', Ok tt).
Proof.
  intros Hl. revert w a. induction Hl as [|[i s] l [Hb Hw] _ IH]; intros w a; cbn [offer_all]; [by eexists _, _, _|].
  cbn [fst snd] in *. destruct (fold_turn_prompt n event i w a s Hb Hw) as (w1 & a1 & ->).
  destruct (IH w1 a1) as (w2 & a2 & l2 & ->). by eexists _, _, _.
Qed.

Definition slot_fits (s : CandidateSlotV1) : Prop := bound_fits (callback_bound (csl_bounds s)).

Lemma fold_event_prompt n event w c :
  Forall (fun s => slot_fits s /\ within_entities (slot_step event s)) (cd_slots c) ->
  exists w' c', fold_event_with (fold_turn g0 n) event w c = (w', c', Ok tt).
Proof.
  intros Hs. unfold fold_event_with, fold_bound_event.
  case_bool_decide as Ht; [|destruct (is_consent_event_type _) eqn:Hc; [|destruct (is_geographic_event_type _) eqn:Hg]].
  - destruct (consent_revocation_decode _); by eexists _, _.
  - by eexists _, _.
  - by eexists _, _.
  - destruct (offer_all_prompt n event (imap pair (cd_slots c)) w (cd_accounting c)) as (w1 & a1 & l1 & ->);
      [|by eexists _, _].
    apply Forall_forall. intros entry (i & s & -> & Hi)%elem_of_lookup_imap. cbn [snd].
    rewrite Forall_forall in Hs. destruct (Hs s (list_elem_of_lookup_2 _ _ _ Hi)) as [Hf Hw].
    split; [done|]. rewrite turn_apply_registry. unfold slot_step, event_step, event_revocation in Hw.
    by rewrite bool_decide_eq_false_2 in Hw.
Qed.

Definition measurable (c : DetachedProjectionCandidateV1) : Prop :=
  accounting_sound c /\ staged_size (candidate_registries c) <= MAX_STAGED_OUTPUT_BYTES_V1.

Lemma pass_prompt c w :
  STAGED_ACCOUNTING_PASS_BOUND_V1 + slack <= STAGED_FOLD_DEADLINE_V1 -> measurable c ->
  exists w' c', worker_exact_pass g0 c w = (w', Ok c') /\ exact_pass c = (c', Ok tt).
Proof.
  intros Hf [Hs Hm]. unfold worker_exact_pass.
  destruct (gate_before_prompt STAGED_ACCOUNTING_PASS_BOUND_V1 w) as [w1 Hw]; [done|done|].
  destruct (pass_sound c Hs) as [Hp _]. rewrite (proj2 (Z.leb_le _ _) Hm) in Hp.
  unfold wbind. rewrite Hw. destruct (exact_pass c) as [c' r]. cbn in Hp. subst r. by eexists _, _.
Qed.

(** ** Opening *)

Lemma builds_prompt builds rs n (w : W) :
  Forall (fun b => bound_fits (callback_bound (cb_bounds b))) builds -> builds_run builds = Ok rs ->
  exists w', builds_on_worker g0 builds n w = (w', Ok rs).
Proof.
  intros Hb. revert n w rs. induction Hb as [|b builds Hb _ IH]; intros n w rs; cbn [builds_run builds_on_worker].
  { intros [= <-]. by eexists. }
  intros (r & Hr & (rs' & Hrs & [= <-])%rbind_ok_inv)%rbind_ok_inv.
  unfold wbind at 1. unfold build_on_worker, wbind at 1.
  destruct (callback_prompt (build_run b) _ (ordinal_u16 n) 0 w Hb) as (w1 & w2 & w3 & t & -> & -> & Ha).
  rewrite Hr, Ha. unfold wbind. destruct (IH (S n) w3 rs' Hrs) as [w4 ->]. by eexists.
Qed.

(** ** Every prefix within the limits *)

Definition consumer_state (events : list Event) (r : CandidateReducerV1) : StateRegistry :=
  fold_left (fun m event => event_step (cdr_reducer r) event m) events registry_empty.

Definition fits_limits (rs : list CandidateReducerV1) (events : list Event) : Prop :=
  forall k, staged_size (consumer_state (take k events) <$> rs) <= MAX_STAGED_OUTPUT_BYTES_V1
    /\ Forall (fun r => registry_len (consumer_state (take k events) r) <= MAX_STAGED_ENTITIES_PER_CONSUMER_V1) rs.

Lemma folded_registries rs events src c :
  folded_candidate rs events src c -> candidate_registries c = consumer_state events <$> rs.
Proof.
  intros (_ & Hs & _). unfold candidate_registries. rewrite Hs, <- !list_fmap_compose.
  apply list_fmap_ext. intros i r _. cbn. by rewrite slot_steps_registry.
Qed.

Section Fold.
Variables (rs : list CandidateReducerV1) (src : ProjectionSourceV1) (all : list Event).
Hypothesis rs_grow : Forall (fun r => grows_within (candidate_slot r)) rs.
Hypothesis rs_fit : Forall (fun r => slot_fits (candidate_slot r)) rs.
Hypothesis all_fit : fits_limits rs all.
Hypothesis pass_fits : STAGED_ACCOUNTING_PASS_BOUND_V1 + slack <= STAGED_FOLD_DEADLINE_V1.

Lemma folded_measurable k c : folded_candidate rs (take k all) src c -> measurable c.
Proof.
  intros Hc. split; [by apply (accounted_sound rs), Hc|]. rewrite (folded_registries _ _ _ _ Hc).
  apply all_fit.
Qed.

Lemma loop_prompt more done n c w :
  done ++ more = all -> folded_candidate rs done src c -> exists w' c', fold_loop g0 n more c w = (w', Ok c').
Proof.
  revert done n c w. induction more as [|event more IH]; intros done n c w Hall Hc; cbn [fold_loop]; [by eexists _, _|].
  assert (Hk : take (S (length done)) all = done ++ [event]).
  { subst all. rewrite cons_middle, app_assoc, take_app_length'; [done|]. rewrite length_app. cbn. lia. }
  destruct (fold_event_prompt (ordinal_u32 n) event w c) as (w1 & c1 & Hf).
  { pose proof Hc as (_ & -> & _). apply Forall_fmap, Forall_fmap, Forall_forall. intros r Hr.
    rewrite Forall_forall in rs_fit. destruct (slot_steps_keeps done (candidate_slot r)) as (_ & _ & _ & Hb).
    cbn. split; [unfold slot_fits; rewrite Hb; by apply rs_fit|].
    destruct (all_fit (S (length done))) as [_ Hl]. rewrite Forall_forall in Hl. specialize (Hl _ Hr).
    rewrite Hk in Hl. unfold consumer_state in Hl. rewrite fold_left_app in Hl. unfold within_entities, slot_step. cbn.
    rewrite slot_steps_registry, slot_steps_reducer. exact Hl. }
  unfold wbind at 1. rewrite Hf. cbn.
  assert (Hc1 : folded_candidate rs (done ++ [event]) src c1) by (by eapply event_folded in Hf as [? _]).
  unfold wbind. destruct (exact_pass_due c1).
  - destruct (pass_prompt c1 w1 pass_fits) as (w2 & c2 & Hp & _); [apply (folded_measurable (S (length done))); by rewrite Hk|].
    rewrite Hp. apply (IH (done ++ [event])); [by rewrite <- app_assoc|]. by eapply pass_folded in Hp as [? _].
  - cbn. apply (IH (done ++ [event])); [by rewrite <- app_assoc|done].
Qed.
End Fold.

(** C28: a staged fold that is left alone succeeds.  On a worker that is not
    cancelled, whose callbacks return and whose clock stays within [slack] of
    [g0], a plan whose consumers the provider builds, with callback bounds that
    fit, reducers that keep their declared growth, and State within the limits
    after every Event, is folded to a result. *)
Theorem staged_fold_succeeds (provider : P) plan builds rs c (w : W) :
  candidate_builds provider (plan_consumers plan) = Ok builds -> builds_run builds = Ok rs ->
  from_reducers rs (plan_source plan) = Ok c ->
  Forall (fun b => bound_fits (callback_bound (cb_bounds b))) builds ->
  STAGED_ACCOUNTING_PASS_BOUND_V1 + slack <= STAGED_FOLD_DEADLINE_V1 ->
  Forall (fun r => grows_within (candidate_slot r)) rs -> fits_limits rs (plan_events plan) ->
  exists w' st, fold_on_worker g0 provider plan w = (w', Ok st).
Proof.
  intros Hb Hrs Hc Hbf Hpf Hg Hl. unfold fold_on_worker, open_on_worker. rewrite Hb.
  destruct (builds_prompt builds rs 0 w Hbf Hrs) as [w1 ->].
  destruct (run_callback_prompt (from_reducers rs (plan_source plan)) w1) as (w2 & -> & _). rewrite Hc. cbn [map_err].
  assert (Hstart : folded_candidate rs [] (plan_source plan) c).
  { split; [by eapply accounted_new|]. apply from_reducers_ok in Hc as [_ ->]. cbn. by rewrite list_fmap_id. }
  assert (Hrf : Forall (fun r => slot_fits (candidate_slot r)) rs).
  { clear -Hbf Hrs. revert rs Hrs. induction Hbf as [|b builds Hb _ IH]; intros rs; cbn [builds_run].
    - by intros [= <-].
    - intros (r & Hr & (rs' & Hrs & [= <-])%rbind_ok_inv)%rbind_ok_inv. constructor; [|by apply IH].
      unfold build_run in Hr. apply rbind_ok_inv in Hr as (r' & _ & [= <-]). exact Hb. }
  destruct (loop_prompt rs (plan_source plan) _ Hg Hrf Hl Hpf (plan_events plan) [] 0 c (drop_guarded w2) eq_refl Hstart)
    as (w3 & c3 & Hloop).
  destruct (loop_folded _ _ _ _ _ _ _ _ _ _ Hloop Hstart) as [Hc3 _]. cbn [app] in Hc3.
  destruct (pass_prompt c3 w3 Hpf) as (w4 & c4 & Hp & _).
  { apply (folded_measurable rs (plan_source plan) (plan_events plan) Hg Hl (length (plan_events plan))).
    by rewrite firstn_all. }
  destruct (pass_folded _ _ _ _ _ _ _ _ Hp Hc3) as (_ & Hcur & _).
  unfold fold_candidate, wbind. rewrite Hloop, Hp. unfold take_staged. rewrite Hcur. cbn.
  destruct (run_callback_prompt tt w4) as (w5 & -> & _). by eexists _, _.
Qed.
End Prompt.
