(* ===== verification/ExecutorHealth.v ===== *)
(** * The health of the staged-fold executor

    [crates/pos-runtime/src/staged_executor.rs]: the one worker of the process,
    its queue, the process-global health, and the guard threads that claim the
    worker, wait for it and abandon it.

    One step is one atomic access of a thread: a load, store or exchange of the
    health or of a cancel flag, or one end of a channel operation; the steps of
    different threads interleave freely.  A wait may end at any time, since a
    deadline may pass at any time and a dropped reply ends it as a failure.  What
    the worker computes for a job is the parameter [computes]. *)

From Stdlib Require Import String ZArith Lia Bool.
From S2P Require Import Prelude Text Cbor FallbackRecords FallbackPolicy ErasureGate Events EventStore.
From S2P Require Import StrictCbor PluginTrust WireSyntax TrustPolicy TrustBridge Consent.
From S2P Require Import Projection Candidate TrustedClock StagedExecutor.

Local Open Scope Z_scope.

Inductive ExecutorHealthV1 := Ready | Busy | Quarantined.

Definition require_staged_release (h : ExecutorHealthV1) : result StagedFoldErrorV1 unit :=
  match h with Quarantined => Err ExecutorQuarantined | _ => Ok tt end.

(** [compare_exchange(READY, BUSY)]. *)
Definition claim_worker (h : ExecutorHealthV1) : ExecutorHealthV1 * result StagedFoldErrorV1 unit :=
  match h with
  | Ready => (Busy, Ok tt)
  | Busy => (Busy, Err ExecutorBusy)
  | Quarantined => (Quarantined, Err ExecutorQuarantined)
  end.

(** [compare_exchange(BUSY, QUARANTINED)]. *)
Definition quarantine_busy (h : ExecutorHealthV1) : ExecutorHealthV1 :=
  match h with Busy => Quarantined | _ => h end.

Section Executor.
Context {Staged : Type}.
Local Abbreviation Reply := (result StagedFoldErrorV1 Staged).

(** One call of [fold], and the window it was made in: two calls of one window
    share its cancel flag. *)
Definition Call : Type := nat.
Variable window : Call -> nat.
Variable computes : Call -> Reply -> Prop.

Inductive Worker :=
| WIdle
| WRunning (call : Call)
| WFinished (call : Call) (outcome : Reply)
| WDiscarding (call : Call)
| WReplying (call : Call) (outcome : Reply)
| WSending (call : Call) (outcome : Reply)
| WUnwound (call : Call).

(** [ex_claimed] are the calls between their claim and their send, [ex_waiting]
    those that wait for a reply, [ex_expired] those that have set their cancel
    flag and not yet exchanged the health, [ex_abandoned] those that have. *)
Record Executor := MkExecutor {
  ex_health : ExecutorHealthV1;
  ex_claimed : list Call;
  ex_queue : list Call;
  ex_worker : Worker;
  ex_waiting : gset Call;
  ex_expired : gset Call;
  ex_abandoned : gset Call;
  ex_cancelled : gset nat;
  ex_replies : gmap Call Reply;
  ex_results : gmap Call Reply;
  ex_faulted : bool;
}.

Definition executor_new : Executor := MkExecutor Ready [] [] WIdle ∅ ∅ ∅ ∅ ∅ ∅ false.

Definition with_worker (w : Worker) (x : Executor) : Executor :=
  MkExecutor (ex_health x) (ex_claimed x) (ex_queue x) w (ex_waiting x) (ex_expired x) (ex_abandoned x)
    (ex_cancelled x) (ex_replies x) (ex_results x) (ex_faulted x).
Definition with_health (h : ExecutorHealthV1) (x : Executor) : Executor :=
  MkExecutor h (ex_claimed x) (ex_queue x) (ex_worker x) (ex_waiting x) (ex_expired x) (ex_abandoned x)
    (ex_cancelled x) (ex_replies x) (ex_results x) (ex_faulted x).
Definition with_result (call : Call) (r : Reply) (x : Executor) : Executor :=
  MkExecutor (ex_health x) (ex_claimed x) (ex_queue x) (ex_worker x) (ex_waiting x) (ex_expired x) (ex_abandoned x)
    (ex_cancelled x) (ex_replies x) (<[call := r]> (ex_results x)) (ex_faulted x).

(** ** The guard thread *)

(** The claim of a call of [fold]; a refused one ends it. *)
Definition guard_claim (call : Call) (x : Executor) : Executor :=
  let (h, r) := claim_worker (ex_health x) in
  match r with
  | Ok _ => MkExecutor h (ex_claimed x ++ [call]) (ex_queue x) (ex_worker x) (ex_waiting x) (ex_expired x)
      (ex_abandoned x) (ex_cancelled x) (ex_replies x) (ex_results x) (ex_faulted x)
  | Err e => with_result call (Err e) x
  end.

Definition guard_send (call : Call) (rest : list Call) (x : Executor) : Executor :=
  MkExecutor (ex_health x) rest (ex_queue x ++ [call]) (ex_worker x) ({[call]} ∪ ex_waiting x) (ex_expired x)
    (ex_abandoned x) (ex_cancelled x) (ex_replies x) (ex_results x) (ex_faulted x).

Definition guard_receive (call : Call) (r : Reply) (x : Executor) : Executor :=
  MkExecutor (ex_health x) (ex_claimed x) (ex_queue x) (ex_worker x) (ex_waiting x ∖ {[call]}) (ex_expired x)
    (ex_abandoned x) (ex_cancelled x) (ex_replies x) (<[call := r]> (ex_results x)) (ex_faulted x).

(** [window.cancel.store(true)] when the wait ends without a reply. *)
Definition guard_expire (call : Call) (x : Executor) : Executor :=
  MkExecutor (ex_health x) (ex_claimed x) (ex_queue x) (ex_worker x) (ex_waiting x ∖ {[call]})
    ({[call]} ∪ ex_expired x) (ex_abandoned x) ({[window call]} ∪ ex_cancelled x) (ex_replies x) (ex_results x)
    (ex_faulted x).

Definition guard_abandon (call : Call) (x : Executor) : Executor :=
  MkExecutor (quarantine_busy (ex_health x)) (ex_claimed x) (ex_queue x) (ex_worker x) (ex_waiting x)
    (ex_expired x ∖ {[call]}) ({[call]} ∪ ex_abandoned x) (ex_cancelled x) (ex_replies x)
    (<[call := Err DeadlineExceeded]> (ex_results x)) (ex_faulted x).

(** ** The worker thread *)

Definition worker_take (call : Call) (rest : list Call) (x : Executor) : Executor :=
  MkExecutor (ex_health x) (ex_claimed x) rest (WRunning call) (ex_waiting x) (ex_expired x) (ex_abandoned x)
    (ex_cancelled x) (ex_replies x) (ex_results x) (ex_faulted x).

(** The load of the cancel flag behind a fold. *)
Definition worker_check (call : Call) (outcome : Reply) (x : Executor) : Executor :=
  with_worker (if bool_decide (window call ∈ ex_cancelled x) then WDiscarding call else WReplying call outcome) x.

Definition worker_reply (call : Call) (outcome : Reply) (x : Executor) : Executor :=
  MkExecutor (ex_health x) (ex_claimed x) (ex_queue x) WIdle (ex_waiting x) (ex_expired x) (ex_abandoned x)
    (ex_cancelled x) (if bool_decide (call ∈ ex_waiting x) then <[call := outcome]> (ex_replies x) else ex_replies x)
    (ex_results x) (ex_faulted x).

Definition worker_fault (x : Executor) : Executor :=
  MkExecutor Quarantined (ex_claimed x) (ex_queue x) WIdle (ex_waiting x) (ex_expired x) (ex_abandoned x)
    (ex_cancelled x) (ex_replies x) (ex_results x) true.

Definition worker_flight (w : Worker) : list Call :=
  match w with
  | WIdle | WSending _ _ => []
  | WRunning call | WFinished call _ | WDiscarding call | WReplying call _ | WUnwound call => [call]
  end.

(** The calls between their claim and the end of their job. *)
Definition flights (x : Executor) : list Call := ex_claimed x ++ ex_queue x ++ worker_flight (ex_worker x).

Definition fresh_call (call : Call) (x : Executor) : Prop :=
  (call ∉ flights x) /\ (call ∉ ex_waiting x) /\ (call ∉ ex_expired x) /\ (call ∉ ex_abandoned x)
  /\ ex_results x !! call = None /\ ex_replies x !! call = None.

Inductive executor_step (x : Executor) : Executor -> Prop :=
| step_claim call : fresh_call call x -> executor_step x (guard_claim call x)
| step_send call rest : ex_claimed x = call :: rest -> executor_step x (guard_send call rest x)
| step_receive call r :
    call ∈ ex_waiting x -> ex_replies x !! call = Some r -> executor_step x (guard_receive call r x)
| step_expire call : call ∈ ex_waiting x -> executor_step x (guard_expire call x)
| step_abandon call : call ∈ ex_expired x -> executor_step x (guard_abandon call x)
| step_take call rest :
    ex_worker x = WIdle -> ex_queue x = call :: rest -> executor_step x (worker_take call rest x)
| step_finish call outcome :
    ex_worker x = WRunning call -> computes call outcome -> executor_step x (with_worker (WFinished call outcome) x)
| step_unwind call : ex_worker x = WRunning call -> executor_step x (with_worker (WUnwound call) x)
| step_fault call : ex_worker x = WUnwound call -> executor_step x (worker_fault x)
| step_check call outcome : ex_worker x = WFinished call outcome -> executor_step x (worker_check call outcome x)
| step_discard call :
    ex_worker x = WDiscarding call -> executor_step x (with_health Ready (with_worker WIdle x))
| step_ready call outcome :
    ex_worker x = WReplying call outcome -> executor_step x (with_health Ready (with_worker (WSending call outcome) x))
| step_reply call outcome : ex_worker x = WSending call outcome -> executor_step x (worker_reply call outcome x).

Definition executor_run : Executor -> Executor -> Prop := rtc executor_step.
Definition executor_reachable (x : Executor) : Prop := executor_run executor_new x.

(** ** The invariant *)

(** The health says how many jobs are in flight. *)
Definition health_ok (x : Executor) : Prop :=
  match ex_health x with
  | Ready => flights x = [] /\ ex_faulted x = false
  | Busy => (exists call, flights x = [call]) /\ ex_faulted x = false
  | Quarantined => if ex_faulted x then flights x = [] else exists call, flights x = [call]
  end.

Definition replies_ok (x : Executor) : Prop :=
  (forall call r, ex_replies x !! call = Some r -> computes call r)
  /\ (forall call st, ex_results x !! call = Some (Ok st) -> computes call (Ok st))
  /\ match ex_worker x with
     | WFinished call outcome | WReplying call outcome | WSending call outcome => computes call outcome
     | _ => True
     end.

Record executor_ok (x : Executor) : Prop := {
  xo_health : health_ok x;
  xo_abandoned call : call ∈ ex_abandoned x -> call ∈ flights x -> ex_health x = Quarantined;
  xo_replies : replies_ok x;
}.

(** A step that changes neither the flights nor the health. *)
Lemma same_flights_ok x y :
  executor_ok x -> flights y = flights x -> ex_health y = ex_health x -> ex_faulted y = ex_faulted x ->
  ex_abandoned y = ex_abandoned x -> replies_ok y -> executor_ok y.
Proof.
  intros [Hh Ha _] Hf Hhe Hfa Hab Hr. split; [|by rewrite Hab, Hf, Hhe|done].
  unfold health_ok in *. by rewrite Hhe, Hf, Hfa.
Qed.

(** The job in flight is the only one. *)
Lemma flight_only x call : executor_ok x -> call ∈ flights x -> flights x = [call] /\ ex_faulted x = false.
Proof.
  intros [Hh _ _] Hin. unfold health_ok in Hh.
  assert (Hone : forall c, flights x = [c] -> flights x = [call]).
  { intros c Hc. rewrite Hc in Hin |- *. apply list_elem_of_singleton in Hin as ->. done. }
  destruct (ex_health x); [destruct Hh as [Hn _]|destruct Hh as [[c Hc] Hf]|destruct (ex_faulted x)].
  - rewrite Hn in Hin. by apply not_elem_of_nil in Hin.
  - split; [by eapply Hone|done].
  - rewrite Hh in Hin. by apply not_elem_of_nil in Hin.
  - destruct Hh as [c Hc]. split; [by eapply Hone|done].
Qed.

Lemma worker_flight_only x call :
  executor_ok x -> worker_flight (ex_worker x) = [call] ->
  ex_claimed x = [] /\ ex_queue x = [] /\ ex_faulted x = false.
Proof.
  intros Hx Hw. destruct (flight_only x call Hx) as [Hf Hfa].
  { unfold flights. rewrite Hw. set_solver. }
  unfold flights in Hf. rewrite Hw in Hf. destruct (ex_claimed x) as [|c l], (ex_queue x) as [|d k]; try done;
    injection Hf as _ Hf; by destruct (app_cons_not_nil _ _ _ (eq_sym Hf)) || by destruct l || by destruct k.
Qed.

Lemma claim_ok call x : executor_ok x -> fresh_call call x -> executor_ok (guard_claim call x).
Proof.
  intros Hx (_ & _ & _ & Hab & _). pose proof Hx as [Hh Ha Hr]. unfold guard_claim.
  destruct (ex_health x) eqn:Hhe; cbn.
  - unfold health_ok in Hh. rewrite Hhe in Hh. destruct Hh as [Hn Hfa].
    assert (Hf : flights x ++ [call] = [call]) by by rewrite Hn.
    unfold flights in Hn. apply app_eq_nil in Hn as [Hcl [Hq Hw]%app_eq_nil].
    split; [|cbn|done].
    + unfold health_ok, flights. cbn. rewrite Hcl, Hq, Hw. split; [by exists call|done].
    + intros c Hc. unfold flights. cbn. rewrite Hcl, Hq, Hw. cbn. intros ->%list_elem_of_singleton. done.
  - apply (same_flights_ok x); try done. destruct Hr as (H1 & H2 & H3). split_and!; [done| |done].
    intros c st. cbn. destruct (decide (c = call)) as [->|]; [by rewrite lookup_insert_eq|].
    rewrite lookup_insert_ne by done. apply H2.
  - apply (same_flights_ok x); try done. destruct Hr as (H1 & H2 & H3). split_and!; [done| |done].
    intros c st. cbn. destruct (decide (c = call)) as [->|]; [by rewrite lookup_insert_eq|].
    rewrite lookup_insert_ne by done. apply H2.
Qed.

Lemma send_ok call rest x : executor_ok x -> ex_claimed x = call :: rest -> executor_ok (guard_send call rest x).
Proof.
  intros Hx Hc. destruct (flight_only x call Hx) as [Hf _]; [unfold flights; rewrite Hc; set_solver|].
  apply (same_flights_ok x); try done; [|apply Hx]. rewrite Hf. unfold flights in *. cbn.
  rewrite Hc in Hf. injection Hf as Hf. apply app_eq_nil in Hf as [-> [-> ->]%app_eq_nil]. done.
Qed.

Lemma take_ok call rest x :
  executor_ok x -> ex_worker x = WIdle -> ex_queue x = call :: rest -> executor_ok (worker_take call rest x).
Proof.
  intros Hx Hw Hq. destruct (flight_only x call Hx) as [Hf _]; [unfold flights; rewrite Hq; set_solver|].
  apply (same_flights_ok x); try done; [|split_and!; try apply Hx; done]. rewrite Hf. unfold flights in *. cbn.
  rewrite Hw, Hq in Hf. cbn in Hf. rewrite app_nil_r in Hf.
  destruct (ex_claimed x) as [|c l]; [by injection Hf as ->|]. injection Hf as _ Hf. by destruct l.
Qed.

Lemma abandon_ok call x : executor_ok x -> executor_ok (guard_abandon call x).
Proof.
  intros [Hh Ha Hr]. split.
  - unfold health_ok in *. change (flights (guard_abandon call x)) with (flights x).
    destruct (ex_health x) eqn:He; cbn; rewrite He; cbn; [done| |done].
    destruct Hh as [Hf Hfa]. by rewrite Hfa.
  - intros c Hc Hin. change (flights (guard_abandon call x)) with (flights x) in Hin.
    unfold health_ok in Hh. cbn. destruct (ex_health x) eqn:He; [|done|done].
    destruct Hh as [Hn _]. rewrite Hn in Hin. by apply not_elem_of_nil in Hin.
  - destruct Hr as (H1 & H2 & H3). split_and!; [done| |done]. intros c st. cbn.
    destruct (decide (c = call)) as [->|]; [by rewrite lookup_insert_eq|]. rewrite lookup_insert_ne by done. apply H2.
Qed.

(** The end of a job. *)
Lemma ended_ok call w x :
  executor_ok x -> worker_flight (ex_worker x) = [call] -> worker_flight w = [] ->
  replies_ok (with_worker w x) -> executor_ok (with_health Ready (with_worker w x)).
Proof.
  intros Hx Hw Hw' Hr. destruct (worker_flight_only x call Hx Hw) as (Hc & Hq & Hf).
  assert (Hn : flights (with_health Ready (with_worker w x)) = []) by (unfold flights; cbn; by rewrite Hc, Hq, Hw').
  split; [by split|rewrite Hn; by intros c _ Hin%not_elem_of_nil|done].
Qed.

Lemma executor_step_ok x y : executor_step x y -> executor_ok x -> executor_ok y.
Proof.
  intros Hs Hx. pose proof Hx as [_ _ (Hrep & Hres & Hwork)].
  destruct Hs as [call Hf|call rest Hc|call r Hc Hr|call Hc|call Hc|call rest Hw Hq|call out Hw Hc|call Hw|call Hw
    |call out Hw|call Hw|call out Hw|call out Hw]; try rewrite Hw in Hwork.
  - by apply claim_ok.
  - by apply send_ok.
  - apply (same_flights_ok x); try done. split_and!; [done| |done]. intros c st. cbn.
    destruct (decide (c = call)) as [->|]; [rewrite lookup_insert_eq; intros [= ->]; by apply Hrep|].
    rewrite lookup_insert_ne by done. apply Hres.
  - by apply (same_flights_ok x).
  - by apply abandon_ok.
  - by apply take_ok.
  - apply (same_flights_ok x); try done; unfold flights; cbn; by rewrite Hw.
  - apply (same_flights_ok x); try done; unfold flights; cbn; by rewrite Hw.
  - destruct (worker_flight_only x call Hx) as (Hc & Hq & _); [by rewrite Hw|].
    split; [|done|by split_and!]. unfold health_ok, flights. cbn. by rewrite Hc, Hq.
  - apply (same_flights_ok x); try done; unfold worker_check; cbn.
    + unfold flights. cbn. rewrite Hw. by case_bool_decide.
    + split_and!; [done|done|]. cbn. by case_bool_decide.
  - apply (ended_ok call); [done|by rewrite Hw|done|by split_and!].
  - apply (ended_ok call); [done|by rewrite Hw|done|by split_and!].
  - apply (same_flights_ok x); try done; [unfold flights; cbn; by rewrite Hw|]. split_and!; [|done|done].
    intros c r. cbn. case_bool_decide; [|apply Hrep].
    destruct (decide (c = call)) as [->|]; [rewrite lookup_insert_eq; by intros [= <-]|].
    rewrite lookup_insert_ne by done. apply Hrep.
Qed.

Lemma executor_run_ok x y : executor_run x y -> executor_ok x -> executor_ok y.
Proof. induction 1 as [|x y z Hs _ IH]; [done|]. intros Hx. apply IH. by eapply executor_step_ok. Qed.

Lemma executor_reachable_ok x : executor_reachable x -> executor_ok x.
Proof.
  intros Hr. eapply executor_run_ok; [exact Hr|]. split; [done|done|]. split_and!; [|done|done].
  intros call r. cbn. by rewrite lookup_empty.
Qed.

(** C3: one fold at a time, and an abandoned one closes release.  However guard
    threads and the worker interleave, at most one job is between its claim and
    its end, a claim succeeds only with none; once a guard thread has abandoned
    its job, every release check and every claim fails until that job ends; and a
    result a call returns was computed for its own job. *)
Theorem executor_exclusive x :
  executor_reachable x ->
  (flights x = [] \/ exists call, flights x = [call])
  /\ ((claim_worker (ex_health x)).2 = Ok tt -> flights x = [])
  /\ (forall call, call ∈ ex_abandoned x -> call ∈ flights x ->
       require_staged_release (ex_health x) = Err ExecutorQuarantined
       /\ claim_worker (ex_health x) = (Quarantined, Err ExecutorQuarantined))
  /\ forall call st, ex_results x !! call = Some (Ok st) -> computes call (Ok st).
Proof.
  intros [Hh Ha (_ & Hres & _)]%executor_reachable_ok. unfold health_ok in Hh. split_and!.
  - destruct (ex_health x); [|destruct Hh as [? _]|destruct (ex_faulted x)]; naive_solver.
  - destruct (ex_health x); cbn; [|done..]. by destruct Hh.
  - intros call Hab Hin. by rewrite (Ha _ Hab Hin).
  - done.
Qed.

(** ** Faults and recovery *)

Lemma faulted_step x y : executor_step x y -> executor_ok x -> ex_faulted x = true -> ex_faulted y = true.
Proof.
  intros Hs Hx Hf. destruct Hs; cbn; try done.
  unfold guard_claim. by destruct (claim_worker (ex_health x)) as [h [[]|]].
Qed.

Lemma faulted_health x : executor_ok x -> ex_faulted x = true -> ex_health x = Quarantined /\ flights x = [].
Proof.
  intros [Hh _ _] Hf. unfold health_ok in Hh. rewrite Hf in Hh. destruct (ex_health x); naive_solver.
Qed.

(** A fault in the worker's host code closes release for good.  When a job
    unwinds outside every callback, the executor is quarantined and stays so,
    whatever the threads do next, and no later call gets a worker. *)
Theorem host_fault_is_final x y z call :
  executor_reachable x -> ex_worker x = WUnwound call -> y = worker_fault x -> executor_run y z ->
  executor_step x y /\ ex_health z = Quarantined /\ flights z = []
  /\ claim_worker (ex_health z) = (Quarantined, Err ExecutorQuarantined).
Proof.
  intros Hx Hw -> Hrun. assert (Hs : executor_step x (worker_fault x)) by by eapply step_fault.
  assert (Hy : executor_ok (worker_fault x)) by by eapply executor_step_ok, executor_reachable_ok.
  assert (Hz : executor_ok z /\ ex_faulted z = true).
  { clear -Hrun Hy. remember (worker_fault x) as y eqn:He. assert (Hf : ex_faulted y = true) by by rewrite He.
    clear He. induction Hrun as [|y y' z Hs _ IH]; [done|].
    apply IH; [by eapply executor_step_ok|by eapply faulted_step]. }
  destruct Hz as [Hz Hf]. destruct (faulted_health z Hz Hf) as [Hh Hn]. rewrite Hh. done.
Qed.

Lemma idle_worker x : executor_ok x -> worker_flight (ex_worker x) = [] ->
  exists y, executor_run x y /\ ex_worker y = WIdle /\ ex_claimed y = ex_claimed x /\ ex_queue y = ex_queue x
    /\ ex_faulted y = ex_faulted x /\ ex_health y = ex_health x.
Proof.
  intros Hx Hw. destruct (ex_worker x) eqn:He; try done.
  - exists x. by split; [apply rtc_refl|].
  - eexists. split; [eapply rtc_once, step_reply; exact He|]. done.
Qed.

(** A job whose fold returns ends, and the executor is ready. *)
Lemma finished_recovers x call outcome :
  ex_worker x = WFinished call outcome -> exists y, executor_run x y /\ ex_health y = Ready.
Proof.
  intros Hw. destruct (bool_decide_reflect (window call ∈ ex_cancelled x)) as [Hc|Hc].
  - exists (with_health Ready (with_worker WIdle (worker_check call outcome x))). split; [|done].
    eapply rtc_l; [by eapply step_check|]. eapply rtc_once, step_discard. cbn. by rewrite bool_decide_eq_true_2.
  - exists (with_health Ready (with_worker (WSending call outcome) (worker_check call outcome x))). split; [|done].
    eapply rtc_l; [by eapply step_check|]. eapply rtc_once, step_ready. cbn. by rewrite bool_decide_eq_false_2.
Qed.

Lemma worker_recovers x call :
  (forall c, exists out, computes c out) -> worker_flight (ex_worker x) = [call] -> ex_worker x <> WUnwound call ->
  exists y, executor_run x y /\ ex_health y = Ready.
Proof.
  intros Hc Hw Hu. destruct (ex_worker x) as [|c|c out|c|c out|c out|c] eqn:He; try done; injection Hw as ->.
  - destruct (Hc call) as [out Hout].
    destruct (finished_recovers (with_worker (WFinished call out) x) call out) as (y & Hy & Hr); [done|].
    exists y. split; [|done]. eapply rtc_l; [by eapply step_finish|exact Hy].
  - by eapply finished_recovers.
  - eexists. split; [by eapply rtc_once, step_discard|done].
  - eexists. split; [by eapply rtc_once, step_ready|done].
  - by destruct Hu.
Qed.

Lemma queued_recovers x call rest :
  (forall c, exists out, computes c out) -> executor_ok x -> ex_queue x = call :: rest ->
  worker_flight (ex_worker x) = [] -> exists y, executor_run x y /\ ex_health y = Ready.
Proof.
  intros Hc Hx Hq Hw. destruct (idle_worker x Hx Hw) as (y & Hy & Hi & _ & Hq' & _). rewrite Hq in Hq'.
  destruct (worker_recovers (worker_take call rest y) call Hc) as (z & Hz & Hr); [done..|].
  exists z. split; [|done]. etrans; [exact Hy|]. eapply rtc_l; [by eapply step_take|exact Hz].
Qed.

(** Quarantine ends with the job.  From every reachable state in which the
    worker's host code has not faulted, the job in flight can run to its end, and
    then the executor is ready again: no interleaving of claims, timeouts and
    abandoned jobs leaves it busy or quarantined with nothing running. *)
Theorem executor_recovers x :
  (forall call, exists outcome, computes call outcome) -> executor_reachable x -> ex_faulted x = false ->
  (forall call, ex_worker x <> WUnwound call) -> exists y, executor_run x y /\ ex_health y = Ready.
Proof.
  intros Hc Hr%executor_reachable_ok Hf Hu.
  assert (Hcases : ex_health x = Ready \/ exists call, flights x = [call]).
  { destruct Hr as [Hh _ _]. unfold health_ok in Hh. rewrite Hf in Hh. destruct (ex_health x); naive_solver. }
  destruct Hcases as [Hready|[call Hfl]]; [exists x; by split; [apply rtc_refl|]|].
  unfold flights in Hfl. destruct (ex_claimed x) as [|c l] eqn:Hcl.
  - destruct (ex_queue x) as [|c l] eqn:Hq.
    + by eapply worker_recovers.
    + injection Hfl as -> [-> Hw]%app_eq_nil. by eapply queued_recovers.
  - injection Hfl as -> [-> [Hq Hw]%app_eq_nil]%app_eq_nil.
    assert (Hs : executor_step x (guard_send call [] x)) by by eapply step_send.
    destruct (queued_recovers (guard_send call [] x) call []) as (y & Hy & Hready); [done| |by cbn; rewrite Hq|done|].
    { by eapply executor_step_ok. }
    exists y. split; [|done]. by eapply rtc_l.
Qed.
End Executor.
