(* ===== verification/InstallProperties.v ===== *)
(** * From the staged fold to the visible registry

    A staged result installed under the trusted-clock fence: what the registry
    serves then is the history the worker folded. *)

From Stdlib Require Import String ZArith Lia Bool.
From S2P Require Import Prelude Text Cbor FallbackRecords FallbackPolicy ErasureGate Events EventStore.
From S2P Require Import StrictCbor PluginTrust WireSyntax TrustPolicy TrustBridge Consent.
From S2P Require Import Projection ProjectionProperties Candidate ProjectionReach.
From S2P Require Import CandidateProperties.
From S2P Require Import TrustedClock TrustedClockSystem TrustedClockSpec TrustedClockInvariant.
From S2P Require Import TrustedClockProperties StagedExecutor StagedExecutorProperties.

Local Open Scope Z_scope.

Section Install.
Context `{Json} `{Ciborium} `{CiboriumCursor}.

(** ** The install *)

(** An install is exact or refused.  A staged result is installed exactly
    when the host has bound a gate, the result was folded at the generation of
    that gate and its slots are the registry's in Plugin, name and policy; the
    registry then keeps its names, Plugins, reducers, policies, gate and
    ancestry, holds exactly the staged State and source, and the State and source
    it held are handed back. *)
Theorem install_exact gates p st :
  match prepare_install gates p st with
  | Ok prepared =>
      let (p', displaced) := swap prepared in
      erasure_gate_bound p = true /\ source_generation (sp_source st) = current_generation gates p
      /\ Forall2 (fun entry s => slot_plugin_id entry.2 = Some (ss_plugin_id s) /\ entry.1 = ss_name s
           /\ slot_policy entry.2 = ss_policy s) (slots p) (sp_slots st)
      /\ slots p' = zip_with (fun entry s => (entry.1, with_registry (ss_registry s) entry.2)) (slots p) (sp_slots st)
      /\ source p' = sp_source st /\ source_ancestry p' = source_ancestry p
      /\ erasure_gate p' = erasure_gate p /\ erasure_gate_bound p' = true
      /\ displaced = MkDisplaced ((fun entry => slot_registry entry.2) <$> slots p) (source p)
  | Err InstallSourceMismatch =>
      erasure_gate_bound p = false \/ source_generation (sp_source st) <> current_generation gates p
  | Err SlotMismatch =>
      ~ Forall2 (fun entry s => slot_plugin_id entry.2 = Some (ss_plugin_id s) /\ entry.1 = ss_name s
          /\ slot_policy entry.2 = ss_policy s) (slots p) (sp_slots st)
  end.
Proof.
  destruct (prepare_install gates p st) as [prepared|e] eqn:Hp.
  - apply prepared_swap in Hp as [Hc ->]. revert Hc. unfold check_install.
    destruct (erasure_gate_bound p) eqn:Hb; [|done].
    destruct (bool_decide_reflect (source_generation (sp_source st) = current_generation gates p)); [|done]. cbn.
    destruct (slots_match (slots p) (sp_slots st)) eqn:Hm; [|done]. intros _. apply slots_match_spec in Hm.
    split_and!; try done. by rewrite zip_with_fmap_r.
  - revert Hp. unfold prepare_install, check_install.
    destruct (erasure_gate_bound p); [|intros [= <-]; by left].
    destruct (bool_decide_reflect (source_generation (sp_source st) = current_generation gates p));
      [|intros [= <-]; by right]. cbn.
    destruct (slots_match (slots p) (sp_slots st)) eqn:Hm; [done|]. intros [= <-].
    intros Hall%slots_match_spec. congruence.
Qed.

(** ** The whole protected path *)

Context {W M G P : Type} `{TrustedWallSourceV1 W} `{GuardMonotonicSourceV1 M} `{Blake3}.
Context `{!WorkerGateV1 G} `{!ProtectedProjectionProviderV1 P}.

(** What a reader should see of a recorded reducer after [events]. *)
Definition recorded_view (events : list Event) (r : CandidateReducerV1) : SlotView :=
  MkSlotView (cdr_name r) (Some (rc_plugin_id (cdr_consumer r))) (fun e => entity_state (cdr_reducer r) e events).

Lemma installed_shows gates p st prepared plan rs :
  prepare_install gates p st = Ok prepared -> staged_result plan rs st ->
  shows (swap prepared).1 (recorded_view (plan_events plan) <$> rs) /\ source (swap prepared).1 = plan_source plan.
Proof.
  intros [Hc ->]%prepared_swap (_ & Hsrc & _ & Hst & _). cbn [fst]. split; [|done].
  assert (Hm : slots_match (slots p) (sp_slots st) = true).
  { revert Hc. unfold check_install. destruct (_ || _); [done|]. by destruct (slots_match _ _). }
  apply slots_match_spec in Hm. unfold shows. cbn. rewrite zip_with_fmap_r, Forall2_fmap_r.
  revert Hst Hm. generalize (slots p) (sp_slots st). intros live staged Hst. revert live.
  induction Hst as [|s r staged rs' (Hid & Hname & _ & _ & He) _ IH]; intros live Hm; inversion Hm as [|entry ? live' ? Hentry Hlive]; subst; [constructor|].
  cbn. destruct Hentry as (Hplugin & Hn & _). constructor; [|by apply IH]. split; [|split]; cbn; [congruence|congruence|done].
Qed.

End Install.
