(* ===== verification/ForkAncestry.v ===== *)
(** * The Fork ancestry a host binds

    [fork_ancestry] of [crates/pos-core/src/fork_ancestry.rs]: the walk over
    [get_timeline] by which a host finds the chain it binds to a projection. *)

From Stdlib Require Import String ZArith Lia Bool.
From S2P Require Import Prelude Text Cbor FallbackRecords ErasureGate Events EventStore StoreHistory StoreCorrect.
From S2P Require Import StoreProperties StorePort StrictCbor PluginTrust WireSyntax TrustPolicy TrustBridge Consent Projection.

Local Open Scope Z_scope.

Section Walk.
Context {S : Type} `{EventStorePort S}.

(** The loop; [visited] grows by one Timeline each time. *)
Fixpoint ancestry_walk (fuel : nat) (s : S) (visited : gset TimelineId) (member : TimelineId)
    : option (Read (list TimelineMeta)) :=
  match fuel with
  | O => None
  | Datatypes.S fuel' =>
      if decide (member ∈ visited) then Some (Err (Storage (ForkCycle member))) else
      match port_get_timeline s member with
      | Err e => Some (Err e)
      | Ok None => Some (Err (TimelineNotFound member))
      | Ok (Some found) =>
          let meta := tl_meta found in
          match meta_fork_point meta with
          | None => Some (Ok [meta])
          | Some (parent, _) =>
              match ancestry_walk fuel' s ({[member]} ∪ visited) parent with
              | Some (Ok rest) => Some (Ok (meta :: rest))
              | other => other
              end
          end
      end
  end.

Definition fork_ancestry (fuel : nat) (s : S) (timeline : TimelineId) : option (Read (list TimelineMeta)) :=
  ancestry_walk fuel s ∅ timeline.
End Walk.

Section Memory.
Context `{Hasher} `{UlidText}.

Lemma get_timeline_found s id t :
  get_timeline s id = Ok (Some t) -> exists st, st_timelines s !! id = Some st /\ ts_timeline st = t.
Proof.
  unfold get_timeline. intros Hg%with_erasure_read_fence_ok. revert Hg.
  destruct (st_timelines s !! id) as [st|]; [|done]. unfold generic_timeline_is_visible. cbn.
  destruct (bool_decide _); cbn; [done|]. intros [= <-]. eauto.
Qed.

Lemma ancestry_walk_total fuel (s : Store) visited member :
  (size (dom (st_timelines s) ∖ visited) < fuel)%nat -> ancestry_walk fuel s visited member <> None.
Proof.
  revert visited member. induction fuel as [|fuel IH]; intros visited member Hf; [lia|]. cbn [ancestry_walk].
  case_decide as Hv; [done|]. destruct (port_get_timeline s member) as [[t|]|e] eqn:Hg; [|done..].
  destruct (meta_fork_point (tl_meta t)) as [[parent sq]|]; [|done].
  assert (Hne : ancestry_walk fuel s ({[member]} ∪ visited) parent <> None).
  { apply IH. destruct (get_timeline_found _ _ _ Hg) as (st & Hst & _).
    assert (Hin : {[member]} ⊆ dom (st_timelines s) ∖ visited)
      by (apply elem_of_dom_2 in Hst; set_solver).
    assert (Heq : dom (st_timelines s) ∖ ({[member]} ∪ visited) = (dom (st_timelines s) ∖ visited) ∖ {[member]})
      by set_solver.
    rewrite Heq, size_difference, size_singleton by done.
    apply subseteq_size in Hin. rewrite size_singleton in Hin. lia. }
  by destruct (ancestry_walk fuel s ({[member]} ∪ visited) parent) as [[]|].
Qed.

(** The chain of the walk, and the chain the store stitches, Timeline by
    Timeline. *)
Lemma ancestry_walk_chain fuel s visited member chain seqs ancestry :
  store_ok s -> ancestry_walk fuel s visited member = Some (Ok ancestry) ->
  (exists rest, ancestry = rest /\ meta_id <$> head rest = Some member)
  /\ contiguous ancestry = true /\ is_root <$> last ancestry = Some true
  /\ exists c, fork_walk fuel (st_timelines s) visited chain seqs member = Some (Ok c)
     /\ fc_timelines c = reverse (meta_id <$> ancestry) ++ chain.
Proof.
  intros Hs. revert visited member chain seqs ancestry.
  induction fuel as [|fuel IH]; intros visited member chain seqs ancestry; cbn [ancestry_walk fork_walk]; [done|].
  case_decide as Hv; [done|]. destruct (port_get_timeline s member) as [[t|]|e] eqn:Hg; [|done..].
  destruct (get_timeline_found _ _ _ Hg) as (st & Hst & <-). rewrite Hst.
  assert (Hid : meta_id (tl_meta (ts_timeline st)) = member) by apply (wf_states _ (proj1 Hs) _ _ Hst).
  change (fork_point_of st) with (meta_fork_point (tl_meta (ts_timeline st))).
  destruct (meta_fork_point (tl_meta (ts_timeline st))) as [[parent sq]|] eqn:Hfp.
  - destruct (ancestry_walk fuel s ({[member]} ∪ visited) parent) as [[rest|]|] eqn:Hw; [|done..].
    intros [= <-].
    destruct (IH _ _ (member :: chain) (sq :: seqs) _ Hw) as ((r' & <- & Hhd) & Hcont & Hlast & c & Hc & Hfc).
    destruct rest as [|first rest]; [done|]. injection Hhd as Hhd. split; [eexists; split; [done|]; cbn; by rewrite Hid|].
    split; [|split].
    + change (bool_decide (fst <$> meta_fork_point (tl_meta (ts_timeline st)) = Some (meta_id first)) &&
        contiguous (first :: rest) = true). rewrite Hfp, Hhd, bool_decide_eq_true_2 by done. done.
    + done.
    + exists c. split; [done|]. rewrite Hfc. rewrite (fmap_cons meta_id (tl_meta _)), reverse_cons, Hid, <- app_assoc. done.
  - intros [= <-]. split; [eexists; split; [done|]; cbn; by rewrite Hid|]. split; [done|]. split.
    + cbn. unfold is_root. by rewrite Hfp.
    + eexists. split; [done|]. cbn. by rewrite Hid.
Qed.

(** C35: the ancestry a host finds is the chain the store stitches.  On a
    reachable store the walk always ends; the chain it returns is accepted by the
    ancestry check of every fence, and lists exactly the Timelines whose segments
    a read of the Timeline stitches together, nearest first. *)
Theorem fork_ancestry_exact s timeline :
  reachable s ->
  exists r, fork_ancestry (S (size (st_timelines s))) s timeline = Some r
  /\ forall ancestry, r = Ok ancestry ->
     validate_fork_ancestry timeline ancestry = Ok tt
     /\ exists c, fork_chain s timeline = Ok c /\ meta_id <$> ancestry = reverse (fc_timelines c).
Proof.
  intros Hs%reachable_ok. unfold fork_ancestry.
  destruct (ancestry_walk (S (size (st_timelines s))) s ∅ timeline) as [r|] eqn:Hw.
  - exists r. split; [done|]. intros ancestry ->.
    destruct (ancestry_walk_chain _ _ _ _ [] [] _ Hs Hw) as ((r' & <- & Hhd) & Hcont & Hlast & c & Hc & Hfc).
    split.
    + unfold validate_fork_ancestry. destruct ancestry as [|first rest]; [done|]. injection Hhd as Hhd.
      rewrite bool_decide_eq_true_2 by done. rewrite Hcont.
      destruct (last (first :: rest)) as [m|]; [|done]. injection Hlast as ->. done.
    + exists c. unfold fork_chain. rewrite Hc. split; [done|]. by rewrite Hfc, app_nil_r, reverse_involutive.
  - exfalso. revert Hw. apply ancestry_walk_total. rewrite difference_empty_L, size_dom. lia.
Qed.
End Memory.

Module AncestrySample.
Import Sample.

Lemma fork_ancestry_exact_witness : exists ancestry,
  fork_ancestry 3 s4 fork_id = Some (Ok ancestry) /\ validate_fork_ancestry fork_id ancestry = Ok tt.
Proof.
  destruct (fork_ancestry_exact s4 fork_id s4_reachable) as (r & Hr & Hok).
  replace (S (size (st_timelines s4))) with 3%nat in Hr by (vm_compute; reflexivity).
  assert (Hs : match fork_ancestry 3 s4 fork_id with Some r => is_ok r | None => false end = true)
    by (vm_compute; reflexivity).
  rewrite Hr in Hs |- *. destruct r as [ancestry|]; [|discriminate]. exists ancestry. split; [reflexivity|].
  apply (Hok ancestry eq_refl).
Defined.
End AncestrySample.
