(* ===== verification/RelationshipIndex.v ===== *)
(** * The relationship index and the divergence of two results

    [RelationshipIndex] of [crates/pos-state/src/lib.rs], an adjacency index over
    recorded relationships, and [diverged_entities] of [staged.rs]: both answer
    exactly what a naive search over the same data answers. *)

From Stdlib Require Import String ZArith Lia Bool Sorting.Sorted.
From S2P Require Import Prelude Text Cbor FallbackRecords FallbackPolicy ErasureGate Events EventStore.
From S2P Require Import StrictCbor PluginTrust WireSyntax TrustPolicy TrustBridge Consent Projection Candidate.

Local Open Scope Z_scope.

(** ** Relationships *)

Record Relationship := MkRelationship {
  rel_id : Ulid;
  rel_source : EntityId;
  rel_target : EntityId;
  rel_kind : RString;
  rel_metadata : gmap RString RString;
}.

Record RelationshipIndex := MkRelationships {
  ri_outgoing : gmap EntityId (list Relationship);
  ri_incoming : gmap EntityId (list Relationship);
}.

Definition relationships_new : RelationshipIndex := MkRelationships ∅ ∅.

(** [entry(key).or_default().push(rel)]. *)
Definition push_relationship (key : EntityId) (rel : Relationship) (m : gmap EntityId (list Relationship))
    : gmap EntityId (list Relationship) := <[key := default [] (m !! key) ++ [rel]]> m.

Definition record_relationship (rel : Relationship) (i : RelationshipIndex) : RelationshipIndex :=
  MkRelationships (push_relationship (rel_source rel) rel (ri_outgoing i))
    (push_relationship (rel_target rel) rel (ri_incoming i)).

Definition outgoing_from (i : RelationshipIndex) (id : EntityId) : list Relationship := default [] (ri_outgoing i !! id).
Definition incoming_to (i : RelationshipIndex) (id : EntityId) : list Relationship := default [] (ri_incoming i !! id).

(** One loop of [neighbours]. *)
Definition visit (seen : gset EntityId * list EntityId) (id : EntityId) : gset EntityId * list EntityId :=
  if decide (id ∈ seen.1) then seen else ({[id]} ∪ seen.1, seen.2 ++ [id]).

Definition neighbours (i : RelationshipIndex) (id : EntityId) : list EntityId :=
  (fold_left visit (rel_source <$> incoming_to i id)
     (fold_left visit (rel_target <$> outgoing_from i id) (∅, []))).2.

Definition record_all (rels : list Relationship) : RelationshipIndex :=
  fold_left (fun i rel => record_relationship rel i) rels relationships_new.

Lemma push_lookup key rel m id :
  default [] (push_relationship key rel m !! id) = default [] (m !! id) ++ (if decide (key = id) then [rel] else []).
Proof.
  unfold push_relationship. case_decide as Hk; [subst; by rewrite lookup_insert_eq|].
  by rewrite lookup_insert_ne, app_nil_r.
Qed.

Lemma record_all_lookup rels id :
  outgoing_from (record_all rels) id = List.filter (fun r => bool_decide (rel_source r = id)) rels
  /\ incoming_to (record_all rels) id = List.filter (fun r => bool_decide (rel_target r = id)) rels.
Proof.
  induction rels as [|rel rels IH] using rev_ind; [done|].
  unfold record_all in *. rewrite fold_left_app. cbn [fold_left].
  unfold outgoing_from, incoming_to, record_relationship in *. cbn [ri_outgoing ri_incoming].
  rewrite !push_lookup, !List.filter_app. destruct IH as [-> ->]. cbn.
  split; f_equal; case_decide; by case_bool_decide.
Qed.

(** What a loop has found: every id once, in the order of first appearance. *)
Lemma visit_all l seen acc :
  NoDup acc -> (forall x, x ∈ seen <-> x ∈ acc) ->
  let '(seen', acc') := fold_left visit l (seen, acc) in
  NoDup acc' /\ (forall x, x ∈ seen' <-> x ∈ acc') /\ forall x, x ∈ acc' <-> x ∈ acc \/ x ∈ l.
Proof.
  revert seen acc. induction l as [|y l IH]; intros seen acc Hnd Hs; cbn [fold_left].
  - split; [done|]. split; [done|]. intros x. rewrite elem_of_nil. tauto.
  - unfold visit at 2. cbn [fst snd]. case_decide as Hy.
    + specialize (IH seen acc Hnd Hs). destruct (fold_left visit l (seen, acc)) as [s' a'].
      destruct IH as (H1 & H2 & H3). split_and!; [done|done|]. intros x. rewrite H3, elem_of_cons.
      apply Hs in Hy. naive_solver.
    + specialize (IH ({[y]} ∪ seen) (acc ++ [y])).
      destruct (fold_left visit l ({[y]} ∪ seen, acc ++ [y])) as [s' a'].
      destruct IH as (H1 & H2 & H3).
      * apply NoDup_app. split; [done|]. split; [|apply NoDup_singleton].
        intros x Hx ->%list_elem_of_singleton. by apply Hy, Hs.
      * intros x. rewrite elem_of_union, elem_of_singleton, elem_of_app, list_elem_of_singleton, Hs. tauto.
      * split_and!; [done|done|]. intros x. rewrite H3, elem_of_app, list_elem_of_singleton, elem_of_cons. tauto.
Qed.

(** The neighbours of an entity.  Whatever relationships were recorded, the
    neighbours of an entity are, each once, exactly the entities a recorded
    relationship connects it with, in either direction. *)
Theorem neighbours_exact rels id :
  NoDup (neighbours (record_all rels) id)
  /\ forall x, x ∈ neighbours (record_all rels) id <->
     exists r, r ∈ rels /\ ((rel_source r = id /\ rel_target r = x) \/ (rel_target r = id /\ rel_source r = x)).
Proof.
  unfold neighbours. destruct (record_all_lookup rels id) as [-> ->].
  pose proof (visit_all (rel_target <$> List.filter (fun r => bool_decide (rel_source r = id)) rels) ∅ []
    ltac:(constructor) ltac:(set_solver)) as H1.
  destruct (fold_left visit _ (∅, [])) as [s1 a1]. destruct H1 as (Hnd1 & Hs1 & Ha1).
  pose proof (visit_all (rel_source <$> List.filter (fun r => bool_decide (rel_target r = id)) rels) s1 a1 Hnd1 Hs1) as H2.
  destruct (fold_left visit _ (s1, a1)) as [s2 a2]. destruct H2 as (Hnd2 & _ & Ha2). cbn [snd].
  split; [done|]. intros x. rewrite Ha2, Ha1, elem_of_nil, !list_elem_of_fmap.
  setoid_rewrite list_elem_of_In. setoid_rewrite List.filter_In. setoid_rewrite bool_decide_eq_true. naive_solver.
Qed.

(** ** Diverged entities *)

Section Divergence.
Context `{Json}.

Lemma insert_sorted_perm id l : insert_sorted_id id l ≡ₚ id :: l.
Proof.
  induction l as [|x l IH]; [done|]. cbn. destruct (bytes_lt (ulid_bytes x) (ulid_bytes id)); [|done].
  rewrite IH. constructor.
Qed.

Lemma sort_ids_perm l : sort_ids l ≡ₚ l.
Proof. induction l as [|x l IH]; [done|]. cbn. by rewrite insert_sorted_perm, IH. Qed.

Lemma dedup_from_elem p l x : x ∈ p :: dedup_from p l <-> x ∈ p :: l.
Proof.
  revert p. induction l as [|y l IH]; intros p; [done|]. cbn. case_bool_decide as Hy.
  - subst. rewrite IH, !elem_of_cons. tauto.
  - rewrite !(elem_of_cons _ x p), IH, elem_of_cons. tauto.
Qed.

Lemma dedup_elem l x : x ∈ dedup l <-> x ∈ l.
Proof. destruct l as [|y l]; [done|]. apply dedup_from_elem. Qed.

Definition same_state (e : EntityId) (a b : StateRegistry) : Prop := get_or_default e a = get_or_default e b.

Lemma differs_known pair e :
  differs pair e = true -> e ∈ entity_ids pair.1 ++ entity_ids pair.2.
Proof.
  unfold differs, entity_ids, get_or_default. intros Hd%negb_true_iff%bool_decide_eq_false.
  rewrite elem_of_app, !list_elem_of_fmap. destruct (states pair.1 !! e) as [s|] eqn:H1.
  - left. exists (e, s). split; [done|]. by apply elem_of_map_to_list.
  - destruct (states pair.2 !! e) as [s|] eqn:H2; [|done].
    right. exists (e, s). split; [done|]. by apply elem_of_map_to_list.
Qed.

(** The divergence of two results.  It lists exactly the entities whose State
    differs for some consumer of both results, an absent entity counting as
    empty State. *)
Theorem diverged_exact mine theirs l e :
  diverged_entities mine theirs = Ok l ->
  e ∈ l <-> exists slot other, slot ∈ sp_slots mine
    /\ List.find (fun t => bool_decide (ss_plugin_id t = ss_plugin_id slot)) (sp_slots theirs) = Some other
    /\ ~ same_state e (ss_registry slot) (ss_registry other).
Proof.
  unfold diverged_entities. destruct (pair_registries (sp_slots mine) (sp_slots theirs)) as [pairs|] eqn:Hp; [|done].
  destruct (_ =? _); [|done]. intros [= <-]. rewrite dedup_elem, sort_ids_perm.
  assert (Hpairs : forall a b, (a, b) ∈ pairs <-> exists slot other, slot ∈ sp_slots mine
    /\ List.find (fun t => bool_decide (ss_plugin_id t = ss_plugin_id slot)) (sp_slots theirs) = Some other
    /\ a = ss_registry slot /\ b = ss_registry other).
  { clear -Hp. revert pairs Hp. induction (sp_slots mine) as [|slot rest IH]; intros pairs; cbn.
    - intros [= <-] a b. split; [by intros ?%not_elem_of_nil|]. intros (s & o & Hs & _). by apply not_elem_of_nil in Hs.
    - destruct (List.find _ (sp_slots theirs)) as [other|] eqn:Hf; [|done]. cbn.
      destruct (pair_registries rest (sp_slots theirs)) as [ps|]; [|done]. intros [= <-] a b.
      rewrite elem_of_cons, (IH ps eq_refl). setoid_rewrite elem_of_cons. split.
      + intros [[= -> ->]|(s & o & Hs & Ho)]; [exists slot, other; naive_solver|exists s, o; naive_solver].
      + intros (s & o & [->|Hs] & Ho & -> & ->); [left; congruence|right; eauto 10]. }
  rewrite list_elem_of_join. split.
  - intros (k & Hin & ([a b] & -> & Hab)%list_elem_of_fmap). apply list_elem_of_In, List.filter_In in Hin as [_ Hd].
    apply Hpairs in Hab as (slot & other & Hs & Ho & -> & ->). exists slot, other. do 2 (split; [done|]).
    unfold differs in Hd. cbn in Hd. by apply negb_true_iff, bool_decide_eq_false in Hd.
  - intros (slot & other & Hs & Ho & Hd). set (pair := (ss_registry slot, ss_registry other)).
    assert (Hdf : differs pair e = true) by (apply negb_true_iff, bool_decide_eq_false; exact Hd).
    exists (List.filter (differs pair) (entity_ids pair.1 ++ entity_ids pair.2)). split.
    + apply list_elem_of_In, List.filter_In. split; [|done]. apply list_elem_of_In. by apply differs_known.
    + apply list_elem_of_fmap. exists pair. split; [done|]. apply Hpairs. eauto 10.
Qed.
End Divergence.
