(* ===== verification/StagedCatalogue.v ===== *)
(** * The host catalogue of staged reducers

    [crates/pos-runtime/src/registry/staged_catalogue.rs]: the reviewed factories,
    the admission of a factory with its record and identity, and the provider that
    resolves recorded consumers to fresh builds.

    A factory is known by the names of its type and of the type of its Plugin, the
    bytes of its frozen configuration, and what it builds: [fac_build n] is the
    product of its [n]-th build, since a factory may build something else each
    time. *)

From Stdlib Require Import String ZArith Lia Bool.
From S2P Require Import Prelude Text Cbor FallbackRecords FallbackPolicy ErasureGate Events EventStore.
From S2P Require Import StrictCbor PluginTrust PluginTrustChain WireSyntax TrustPolicy TrustBridge Consent.
From S2P Require Import Projection Candidate CandidateProperties TrustedClock StagedExecutor.

Local Open Scope Z_scope.

Definition MAX_STAGED_CALLBACK_BOUND_V1 : Z := 250 * 1000000.

Record ReviewedStagedFactoryV1 := MkReviewed { rf_id : RString; rf_type_name : RString }.

Definition REVIEWED_STAGED_FACTORIES_V1 : list ReviewedStagedFactoryV1 := [
  MkReviewed (lit "pigloros/staged-factory/agent/v1") (lit "pos_plugin_agent::AgentPlugin");
  MkReviewed (lit "pigloros/staged-factory/bridges/v1") (lit "pos_plugin_bridges::BridgePlugin");
  MkReviewed (lit "pigloros/staged-factory/eval/v1") (lit "pos_plugin_eval::EvalPlugin");
  MkReviewed (lit "pigloros/staged-factory/persona/v1") (lit "pos_plugin_persona::PersonaPlugin");
  MkReviewed (lit "pigloros/staged-factory/rule-agent/v1") (lit "pos_plugin_rule_agent::RuleAgentPlugin");
  MkReviewed (lit "pigloros/staged-factory/society/v1") (lit "pos_plugin_society::SocietyPlugin");
  MkReviewed (lit "pigloros/staged-factory/synthetic-obs/v1") (lit "pos_plugin_synthetic_obs::SyntheticObsPlugin");
  MkReviewed (lit "pigloros/staged-factory/world/v1") (lit "pos_plugin_world::WorldPlugin")].

Record StagedGrowthBoundV1 := MkGrowthBound { per_payload_byte : Z; constant_bytes : Z }.

Record StagedReducerAdmissionV1 := MkAdmission {
  ad_callback_bound : Z;
  ad_growth_bound : StagedGrowthBoundV1;
  ad_conformance_digest : option Hash;
}.

Definition candidate_bounds (a : StagedReducerAdmissionV1) : CandidateBoundsV1 :=
  MkBounds (ad_callback_bound a) (per_payload_byte (ad_growth_bound a)) (constant_bytes (ad_growth_bound a)).

Definition PENDING_CONFORMANCE_ADMISSION_V1 : StagedReducerAdmissionV1 :=
  MkAdmission MAX_STAGED_CALLBACK_BOUND_V1 (MkGrowthBound 6 4096) None.

Inductive StagedReducerAdmissionErrorV1 :=
| NotReviewed | ConformanceEvidenceMissing | MissingReducer | DuplicatePlugin.

Inductive StagedEvidenceV1 := Reviewed | Fixture (callback_bound : Z).

Definition hash_framed (bytes : list byte) : list byte := le_bytes 8 (Z.min (len bytes) U64_MAX) ++ bytes.

Section Catalogue.
Context `{Json} `{Blake3}.

Record InstalledPluginProductV1 := MkProduct {
  pr_id : PluginId;
  pr_name : RString;
  pr_version : RString;
  pr_reducer : option Reducer;
}.

Record Factory := MkFactory {
  fac_type_name : RString;
  fac_plugin_type_name : RString;
  fac_details : list byte;
  fac_build : nat -> InstalledPluginProductV1;
}.

Definition reviewed_admission (f : Factory)
    : result StagedReducerAdmissionErrorV1 (StagedReducerAdmissionV1 * RString) :=
  match List.find (fun entry => bool_decide (rf_type_name entry = fac_type_name f)
                     && bool_decide (fac_plugin_type_name f = fac_type_name f)) REVIEWED_STAGED_FACTORIES_V1 with
  | None => Err NotReviewed
  | Some reviewed =>
      let admission := PENDING_CONFORMANCE_ADMISSION_V1 in
      match ad_conformance_digest admission with
      | Some _ => Ok (admission, rf_id reviewed)
      | None => Err ConformanceEvidenceMissing
      end
  end.

Definition evidence_admission (e : StagedEvidenceV1) (f : Factory)
    : result StagedReducerAdmissionErrorV1 (StagedReducerAdmissionV1 * RString) :=
  match e with
  | Reviewed => reviewed_admission f
  | Fixture callback_bound =>
      Ok (MkAdmission (Z.min callback_bound MAX_STAGED_CALLBACK_BOUND_V1)
            (ad_growth_bound PENDING_CONFORMANCE_ADMISSION_V1)
            (ad_conformance_digest PENDING_CONFORMANCE_ADMISSION_V1),
          fac_type_name f)
  end.

(** The hashed string: [as_micros] is a [u128]. *)
Definition identity_preimage (factory_id name version : RString) (details : list byte)
    (a : StagedReducerAdmissionV1) : list byte :=
  list_byte_of_string "pigloros/staged-reducer-identity/v1"
  ++ hash_framed (as_bytes factory_id) ++ hash_framed (as_bytes name) ++ hash_framed (as_bytes version)
  ++ hash_framed details ++ le_bytes 16 (ad_callback_bound a / 1000)
  ++ le_bytes 8 (per_payload_byte (ad_growth_bound a)) ++ le_bytes 8 (constant_bytes (ad_growth_bound a)).

Definition staged_reducer_identity (factory_id name version : RString) (details : list byte)
    (a : StagedReducerAdmissionV1) : Hash := blake3 (identity_preimage factory_id name version details a).

Record AdmittedStagedReducerV1 := MkAdmitted {
  ar_consumer : RecordedConsumerV1;
  ar_name : RString;
  ar_version : RString;
  ar_admission : StagedReducerAdmissionV1;
  ar_policy : option ProjectionObservationPolicyV1;
  ar_build : nat -> InstalledPluginProductV1;
}.

(** The [n]-th product of the entry's builder, re-checked. *)
Definition candidate_reducer (entry : AdmittedStagedReducerV1) (n : nat)
    : result ProjectionCandidateErrorV1 CandidateReducerV1 :=
  let built := ar_build entry n in
  let recorded := bool_decide (pr_name built = ar_name entry) && bool_decide (pr_version built = ar_version entry) in
  match pr_reducer built with
  | Some reducer =>
      if recorded
      then Ok (MkCandidateReducer (ar_consumer entry) (ar_name entry) reducer
                 (candidate_bounds (ar_admission entry)) (ar_policy entry))
      else Err PluginMismatch
  | None => Err PluginMismatch
  end.

Record HostProjectionProviderV1 := MkProvider { pv_entries : list AdmittedStagedReducerV1 }.

Definition provider_default : HostProjectionProviderV1 := MkProvider [].

Definition entry_id (entry : AdmittedStagedReducerV1) : PluginId := rc_plugin_id (ar_consumer entry).

(** [n] counts the builds of the factory that came before. *)
Definition admit_with (f : Factory) (n : nat) (e : StagedEvidenceV1)
    (policy : option ProjectionObservationPolicyV1) (p : HostProjectionProviderV1)
    : HostProjectionProviderV1 * result StagedReducerAdmissionErrorV1 RecordedConsumerV1 :=
  match evidence_admission e f with
  | Err e => (p, Err e)
  | Ok (admission, factory_id) =>
      let product := fac_build f n in
      let consumer := MkConsumer (pr_id product)
        (staged_reducer_identity factory_id (pr_name product) (pr_version product) (fac_details f) admission) in
      match pr_reducer product with
      | None => (p, Err MissingReducer)
      | Some _ =>
          if existsb (fun entry => bool_decide (entry_id entry = rc_plugin_id consumer)) (pv_entries p)
          then (p, Err DuplicatePlugin)
          else (MkProvider (pv_entries p ++ [MkAdmitted consumer (pr_name product) (pr_version product) admission policy
                  (fac_build f)]), Ok consumer)
      end
  end.

Definition admit_reviewed (f : Factory) (n : nat) (p : HostProjectionProviderV1) :=
  admit_with f n Reviewed None p.
Definition admit_observable (f : Factory) (n : nat) (policy : ProjectionObservationPolicyV1)
    (p : HostProjectionProviderV1) := admit_with f n Reviewed (Some policy) p.

(** [entry.consumer == consumer]. *)
#[export] Instance recorded_consumer_eq_dec : EqDecision RecordedConsumerV1.
Proof. solve_decision. Defined.

Definition admitted (p : HostProjectionProviderV1) (consumer : RecordedConsumerV1)
    : result ProjectionCandidateErrorV1 AdmittedStagedReducerV1 :=
  match List.find (fun entry => bool_decide (entry_id entry = rc_plugin_id consumer)) (pv_entries p) with
  | None => Err NotAdmitted
  | Some entry => if bool_decide (ar_consumer entry = consumer) then Ok entry else Err ConsumerSetMismatch
  end.

Definition provider_admission (p : HostProjectionProviderV1) (consumer : RecordedConsumerV1)
    : option StagedReducerAdmissionV1 :=
  match admitted p consumer with Ok entry => Some (ar_admission entry) | Err _ => None end.

(** [all(|consumer| seen.insert(..))]. *)
Fixpoint inserted_once (seen : gset PluginId) (consumers : list RecordedConsumerV1) : bool :=
  match consumers with
  | [] => true
  | c :: rest => if decide (rc_plugin_id c ∈ seen) then false else inserted_once ({[rc_plugin_id c]} ∪ seen) rest
  end.
Definition names_a_plugin_twice (consumers : list RecordedConsumerV1) : bool := negb (inserted_once ∅ consumers).

Fixpoint admitted_all (p : HostProjectionProviderV1) (consumers : list RecordedConsumerV1)
    : result ProjectionCandidateErrorV1 (list AdmittedStagedReducerV1) :=
  match consumers with
  | [] => Ok []
  | c :: rest => let? entry := admitted p c in let? entries := admitted_all p rest in Ok (entry :: entries)
  end.

Definition admitted_set (p : HostProjectionProviderV1) (consumers : list RecordedConsumerV1)
    : result ProjectionCandidateErrorV1 (list AdmittedStagedReducerV1) :=
  if (len consumers =? 0) || names_a_plugin_twice consumers then Err ConsumerSetMismatch
  else admitted_all p consumers.

(** The provider, at the build number its factories are asked for next. *)
#[export] Instance host_provider : ProtectedProjectionProviderV1 (HostProjectionProviderV1 * nat) :=
  fun provider consumers =>
    let? entries := admitted_set provider.1 consumers in
    Ok ((fun entry => MkBuild (candidate_bounds (ar_admission entry)) (candidate_reducer entry provider.2)) <$> entries).

Definition fold_detached_candidate_v1 `{Ciborium} `{CiboriumCursor} (events : list Event)
    (c : DetachedProjectionCandidateV1) : DetachedProjectionCandidateV1 :=
  candidate_fold_events (List.filter is_host_projection_event events) c.

(** ** Admission *)

Inductive provider_reachable : HostProjectionProviderV1 -> Prop :=
| provider_new : provider_reachable provider_default
| provider_admits p f n e policy :
    provider_reachable p -> provider_reachable (admit_with f n e policy p).1.

(** Providers reached by reviewed admissions alone, as a production host does. *)
Inductive provider_reviewed : HostProjectionProviderV1 -> Prop :=
| reviewed_new : provider_reviewed provider_default
| reviewed_admits p f n policy :
    provider_reviewed p -> provider_reviewed (admit_with f n Reviewed policy p).1.

Record provider_ok (p : HostProjectionProviderV1) : Prop := {
  po_unique : NoDup (entry_id <$> pv_entries p);
  po_bounds : Forall (fun entry => ad_callback_bound (ar_admission entry) <= MAX_STAGED_CALLBACK_BOUND_V1) (pv_entries p);
}.

Lemma evidence_bound e f a id : evidence_admission e f = Ok (a, id) -> ad_callback_bound a <= MAX_STAGED_CALLBACK_BOUND_V1.
Proof.
  destruct e; cbn.
  - unfold reviewed_admission. by destruct (List.find _ _).
  - intros [= <- <-]. cbn. lia.
Qed.

Lemma provider_reachable_ok p : provider_reachable p -> provider_ok p.
Proof.
  induction 1 as [|p f n e policy _ [Hu Hb]]; [split; constructor|]. unfold admit_with.
  destruct (evidence_admission e f) as [[a id]|] eqn:He; [|done].
  destruct (pr_reducer (fac_build f n)); [|done]. cbn [rc_plugin_id].
  destruct (existsb _ (pv_entries p)) eqn:Hex; [done|]. cbn. split; cbn.
  - rewrite fmap_app. apply NoDup_app. split; [done|]. split; [|apply NoDup_singleton].
    intros x (entry & -> & Hin)%list_elem_of_fmap Hx%list_elem_of_singleton.
    assert (Ht : existsb (fun entry => bool_decide (entry_id entry = pr_id (fac_build f n))) (pv_entries p) = true);
      [|congruence].
    apply existsb_exists. exists entry. split; [by apply list_elem_of_In|]. by apply bool_decide_eq_true.
  - apply Forall_app. split; [done|]. constructor; [|constructor]. by eapply evidence_bound.
Qed.

Lemma reviewed_empty p : provider_reviewed p -> pv_entries p = [].
Proof.
  induction 1 as [|p f n policy _ IH]; [done|]. unfold admit_with. cbn. unfold reviewed_admission.
  by destruct (List.find _ _).
Qed.

(** Reviewed admission is closed in this build.  No reviewed entry carries
    conformance evidence, so a host that admits reviewed factories only never
    admits one, and its provider resolves no recorded consumer: every protected
    fold of such a host is refused before a factory runs. *)
Theorem reviewed_admission_closed p f n policy consumers k :
  provider_reviewed p ->
  (exists e, admit_with f n Reviewed policy p = (p, Err e))
  /\ exists e, candidate_builds (p, k) consumers = Err e.
Proof.
  intros Hp%reviewed_empty. split.
  - unfold admit_with. cbn. unfold reviewed_admission. destruct (List.find _ _); by eexists.
  - unfold candidate_builds, host_provider, admitted_set. destruct (len consumers =? 0) eqn:Hl; [by eexists|].
    destruct (names_a_plugin_twice consumers); [by eexists|]. cbn.
    destruct consumers as [|c rest]; [done|]. cbn. unfold admitted. rewrite Hp. by eexists.
Qed.

(** ** Resolution *)

Lemma inserted_once_spec seen consumers :
  inserted_once seen consumers = true <->
  NoDup (rc_plugin_id <$> consumers) /\ forall c, c ∈ consumers -> rc_plugin_id c ∉ seen.
Proof.
  revert seen. induction consumers as [|c rest IH]; intros seen; cbn [inserted_once].
  - split; [|done]. intros _. split; [constructor|]. intros c Hc. by apply not_elem_of_nil in Hc.
  - rewrite fmap_cons, NoDup_cons. case_decide as Hc.
    + split; [done|]. intros [_ Hs]. by destruct (Hs c ltac:(by left)).
    + rewrite IH. setoid_rewrite elem_of_cons. setoid_rewrite elem_of_union. setoid_rewrite elem_of_singleton. split.
      * intros [Hnd Hs]. split; [split; [|done]|].
        -- intros (c' & He & Hin)%list_elem_of_fmap. apply (Hs c' Hin). by left.
        -- intros c' [->|Hin]; [done|]. intros Hs'. apply (Hs c' Hin). by right.
      * intros [[Hni Hnd] Hs]. split; [done|]. intros c' Hin [He|Hs'].
        -- apply Hni, list_elem_of_fmap. by exists c'.
        -- by apply (Hs c'); [right|].
Qed.

Lemma admitted_ok p consumer entry :
  admitted p consumer = Ok entry -> entry ∈ pv_entries p /\ ar_consumer entry = consumer.
Proof.
  unfold admitted. destruct (List.find _ _) as [e|] eqn:Hf; [|done].
  destruct (bool_decide_reflect (ar_consumer e = consumer)) as [He|]; [|done]. intros [= <-].
  apply List.find_some in Hf as [Hin _]. split; [by apply list_elem_of_In|done].
Qed.

Lemma admitted_all_ok p consumers entries :
  admitted_all p consumers = Ok entries ->
  Forall2 (fun c entry => entry ∈ pv_entries p /\ ar_consumer entry = c) consumers entries.
Proof.
  revert entries. induction consumers as [|c rest IH]; intros entries; cbn; [by intros [= <-]|].
  intros (entry & He%admitted_ok & (rest' & Hr%IH & [= <-])%rbind_ok_inv)%rbind_ok_inv. by constructor.
Qed.

Lemma builds_run_consumers k entries rs :
  builds_run ((fun entry => MkBuild (candidate_bounds (ar_admission entry)) (candidate_reducer entry k)) <$> entries) = Ok rs ->
  Forall2 (fun entry r => cdr_consumer r = ar_consumer entry /\ cdr_name r = ar_name entry
    /\ cdr_bounds r = candidate_bounds (ar_admission entry) /\ cdr_policy r = ar_policy entry
    /\ pr_reducer (ar_build entry k) = Some (cdr_reducer r) /\ pr_name (ar_build entry k) = ar_name entry
    /\ pr_version (ar_build entry k) = ar_version entry) entries rs.
Proof.
  revert rs. induction entries as [|entry entries IH]; intros rs; cbn; [by intros [= <-]|].
  intros (r & Hr & (rs' & Hrs%IH & [= <-])%rbind_ok_inv)%rbind_ok_inv. constructor; [|done].
  unfold build_run in Hr. cbn in Hr. apply rbind_ok_inv in Hr as (r0 & Hc & [= <-]). cbn.
  unfold candidate_reducer in Hc. destruct (pr_reducer (ar_build entry k)) as [red|]; [|done].
  destruct (bool_decide_reflect (pr_name (ar_build entry k) = ar_name entry)); [|done].
  destruct (bool_decide_reflect (pr_version (ar_build entry k) = ar_version entry)); [|done].
  injection Hc as <-. done.
Qed.

Lemma repeated_false (slots : list CandidateSlotV1) : NoDup (consumer_id <$> slots) -> repeated slots = false.
Proof.
  intros Hnd. unfold repeated. apply not_true_is_false. intros (i & _ & Hi)%existsb_exists.
  destruct (slots !! i) as [s|] eqn:Hs; [|done]. apply existsb_exists in Hi as (t & Ht & He%bool_decide_eq_true).
  apply list_elem_of_In, elem_of_take in Ht as (j & Hj & Hlt).
  assert (Hij : j = i); [|lia]. eapply NoDup_lookup; [exact Hnd| |];
    rewrite list_lookup_fmap; [rewrite Hj|rewrite Hs]; cbn; by rewrite ?He.
Qed.

(** What a provider opens.  On a reachable provider recorded consumers resolve
    only to entries admitted with exactly their identity, each Plugin once; every
    reducer that is built is of the recorded Plugin and version, carries the
    admitted record and policy of its entry, with callbacks of at most 250 ms; and
    a candidate of them over a bound source is always assembled. *)
Theorem provider_builds_admitted p k consumers builds rs source :
  provider_reachable p -> candidate_builds (p, k) consumers = Ok builds -> builds_run builds = Ok rs ->
  is_Some (source_timeline source) ->
  cdr_consumer <$> rs = consumers
  /\ Forall (fun r => exists entry, entry ∈ pv_entries p /\ ar_consumer entry = cdr_consumer r
       /\ cdr_name r = ar_name entry /\ cdr_policy r = ar_policy entry
       /\ cdr_bounds r = candidate_bounds (ar_admission entry)
       /\ callback_bound (cdr_bounds r) <= MAX_STAGED_CALLBACK_BOUND_V1
       /\ pr_name (ar_build entry k) = ar_name entry /\ pr_version (ar_build entry k) = ar_version entry) rs
  /\ exists c, from_reducers rs source = Ok c.
Proof.
  intros [_ Hpb]%provider_reachable_ok Hb Hrs [t Ht]. unfold candidate_builds, host_provider in Hb. cbn [fst snd] in Hb.
  apply rbind_ok_inv in Hb as (entries & Hset & [= <-]). unfold admitted_set in Hset.
  destruct (len consumers =? 0); [done|]. cbn in Hset. unfold names_a_plugin_twice in Hset.
  destruct (inserted_once ∅ consumers) eqn:Hu; [|done]. cbn in Hset.
  apply inserted_once_spec in Hu as [Hu _]. apply admitted_all_ok in Hset. apply builds_run_consumers in Hrs.
  assert (Hcon : cdr_consumer <$> rs = consumers).
  { clear -Hset Hrs. revert rs Hrs. induction Hset as [|c e cs es [_ He] _ IH]; intros rs Hrs; inversion Hrs; subst; [done|].
    cbn. f_equal; [naive_solver congruence|by apply IH]. }
  split; [done|]. split.
  - clear -Hset Hrs Hpb. rewrite Forall_forall in Hpb. revert rs Hrs.
    induction Hset as [|c e cs es [Hin He] _ IH]; intros rs Hrs; inversion Hrs as [|e' r es' rs' Hr]; subst; [constructor|].
    constructor; [|by apply IH]. exists e. destruct Hr as (H1 & H2 & H3 & H4 & H5 & H6 & H7).
    split_and!; try done. rewrite H3. by apply Hpb.
  - unfold from_reducers. rewrite Ht, repeated_false; [by eexists|].
    rewrite <- list_fmap_compose. rewrite <- Hcon, <- list_fmap_compose in Hu. exact Hu.
Qed.

(** ** Identity *)

Lemma length_le_bytes n z : length (le_bytes n z) = n.
Proof. unfold le_bytes. by rewrite length_rev, length_be_bytes. Qed.

Lemma be_bytes_mod n z z' : be_bytes n z = be_bytes n z' -> z mod 256 ^ Z.of_nat n = z' mod 256 ^ Z.of_nat n.
Proof.
  induction n as [|n IH]; cbn [be_bytes]; [by rewrite !Z.mod_1_r|]. intros [= Hd%(f_equal Z_of_byte) Hr%IH].
  rewrite !Z_of_byte_mod in Hd. rewrite !Z.shiftr_div_pow2 in Hd by lia.
  replace (2 ^ (8 * Z.of_nat n)) with (256 ^ Z.of_nat n) in Hd by (change 256 with (2 ^ 8); by rewrite <- Z.pow_mul_r by lia).
  rewrite Nat2Z.inj_succ, Z.pow_succ_r, (Z.mul_comm 256) by lia.
  assert (0 < 256 ^ Z.of_nat n) by (apply Z.pow_pos_nonneg; lia).
  rewrite !Z.rem_mul_r by lia. by rewrite Hd, Hr.
Qed.

Lemma le_bytes_inj n z z' :
  0 <= z < 256 ^ Z.of_nat n -> 0 <= z' < 256 ^ Z.of_nat n -> le_bytes n z = le_bytes n z' -> z = z'.
Proof.
  intros Hz Hz' He%(f_equal (@rev byte)). unfold le_bytes in He. rewrite !rev_involutive in He.
  apply be_bytes_mod in He. by rewrite !Z.mod_small in He.
Qed.

Lemma le_bytes_app_inj n z z' x y :
  0 <= z < 256 ^ Z.of_nat n -> 0 <= z' < 256 ^ Z.of_nat n -> le_bytes n z ++ x = le_bytes n z' ++ y -> z = z' /\ x = y.
Proof.
  intros Hz Hz' [Hn ->]%app_inj_1; [|by rewrite !length_le_bytes]. split; [|done]. by eapply le_bytes_inj.
Qed.

(** Adjacent framed fields cannot run together. *)
Lemma hash_framed_inj a b x y :
  len a <= U64_MAX -> len b <= U64_MAX -> hash_framed a ++ x = hash_framed b ++ y -> a = b /\ x = y.
Proof.
  intros Ha Hb. unfold hash_framed. rewrite <- !app_assoc. rewrite !Z.min_l by done.
  assert (Hr : forall l : list byte, len l <= U64_MAX -> 0 <= len l < 256 ^ Z.of_nat 8).
  { intros l Hl. split; [apply len_nonneg|]. change (256 ^ Z.of_nat 8) with (U64_MAX + 1). lia. }
  intros [Hl He]%le_bytes_app_inj; [|by apply Hr..]. apply app_inj_1; [unfold len in Hl; lia|done].
Qed.

(** A record as its Rust types hold it: a [Duration] of whole seconds in [u64] and
    two [u64] bounds. *)
Record admission_ok (a : StagedReducerAdmissionV1) : Prop := {
  ao_callback : 0 <= ad_callback_bound a < (U64_MAX + 1) * 1000000000;
  ao_byte : u64_ok (per_payload_byte (ad_growth_bound a));
  ao_constant : u64_ok (constant_bytes (ad_growth_bound a));
}.

Lemma micros_range z : 0 <= z < (U64_MAX + 1) * 1000000000 -> 0 <= z / 1000 < 256 ^ Z.of_nat 16.
Proof.
  intros Hz. split; [apply Z.div_pos; lia|]. apply Z.div_lt_upper_bound; [lia|].
  change (256 ^ Z.of_nat 16) with ((U64_MAX + 1) * (U64_MAX + 1)). unfold U64_MAX in *. lia.
Qed.

Lemma u64_range z : u64_ok z -> 0 <= z < 256 ^ Z.of_nat 8.
Proof. intros Hz. change (256 ^ Z.of_nat 8) with (U64_MAX + 1). unfold u64_ok in Hz. lia. Qed.

Lemma identity_preimage_inj id id' name name' version version' details details' a a' :
  Forall (fun l => len l <= U64_MAX) [as_bytes id; as_bytes id'; as_bytes name; as_bytes name';
    as_bytes version; as_bytes version'; details; details'] ->
  admission_ok a -> admission_ok a' ->
  identity_preimage id name version details a = identity_preimage id' name' version' details' a' ->
  id = id' /\ name = name' /\ version = version' /\ details = details'
  /\ ad_callback_bound a / 1000 = ad_callback_bound a' / 1000 /\ ad_growth_bound a = ad_growth_bound a'.
Proof.
  rewrite !Forall_cons. intros (L1 & L2 & L3 & L4 & L5 & L6 & L7 & L8 & _) [C1 B1 K1] [C2 B2 K2] He%app_inv_head.
  apply hash_framed_inj in He as [Hid%(inj raw) He]; [|done..].
  apply hash_framed_inj in He as [Hn%(inj raw) He]; [|done..].
  apply hash_framed_inj in He as [Hv%(inj raw) He]; [|done..].
  apply hash_framed_inj in He as [Hd He]; [|done..].
  apply le_bytes_app_inj in He as [Hc He]; [|by apply micros_range..].
  apply le_bytes_app_inj in He as [Hp He]; [|by apply u64_range..].
  apply le_bytes_inj in He; [|by apply u64_range..].
  destruct (ad_growth_bound a), (ad_growth_bound a'). cbn in *. naive_solver.
Qed.

(** What a recorded identity binds.  Two admissions with one staged reducer
    identity have the same factory, Plugin name and version, configuration and
    growth bound, and callback bounds of the same number of microseconds, unless
    two different strings were hashed to one digest. *)
Theorem staged_identity_binds id id' name name' version version' details details' a a' :
  Forall (fun l => len l <= U64_MAX) [as_bytes id; as_bytes id'; as_bytes name; as_bytes name';
    as_bytes version; as_bytes version'; details; details'] ->
  admission_ok a -> admission_ok a' ->
  staged_reducer_identity id name version details a = staged_reducer_identity id' name' version' details' a' ->
  (id = id' /\ name = name' /\ version = version' /\ details = details'
   /\ ad_callback_bound a / 1000 = ad_callback_bound a' / 1000 /\ ad_growth_bound a = ad_growth_bound a')
  \/ collides [identity_preimage id name version details a] [identity_preimage id' name' version' details' a'].
Proof.
  intros Hl Ha Ha' He.
  destruct (inj_or_collides _ _ [identity_preimage id name version details a]
    [identity_preimage id' name' version' details' a'] ltac:(by left) ltac:(by left) He) as [Hp|Hc]; [|by right].
  left. by apply identity_preimage_inj.
Qed.
End Catalogue.
