(* ===== verification/CfCodec.v ===== *)
(** * The codec of the counterfactual records

    [crates/pos-conformance/src/counterfactual/codec.rs]: canonical decoding, the
    values of the fields, and the reader of the fields of one array, which keeps
    the first failure and reads on.

    A reader passes its state along.  [exact] says what a straight-line reader
    accepts: the values it consumes and the result, in both directions; the rules
    for it compose, so a record's decoder is read off its definition. *)

From Stdlib Require Import String ZArith Lia Bool.
From S2P Require Import Prelude Text Ordering Cbor FallbackRecords StrictCbor PluginTrust WireSyntax TrustPolicy.

Local Open Scope Z_scope.

Inductive WireError := WInvalidEncoding | WFieldOutOfBounds | WUnsupportedVersion | WUnknownEnum.

Definition Wire (A : Type) : Type := result WireError A.

Record CborLimits := MkLimits {
  maximum_bytes : Z;
  maximum_depth : Z;
  maximum_items : Z;
  allow_simple_values : bool;
}.

(** A coordinate of the dependency graph ([lib.rs]); it orders by its fields. *)
Record DependencyNodeV1 := MkNode {
  nd_tick : Z;
  nd_scheduler_position : Z;
  nd_owner_id : RString;
  nd_output_ordinal : Z;
  nd_schema_id : Z;
  nd_artifact_digest : Hash;
}.

Definition node_tuple (n : DependencyNodeV1) : Z * (Z * (RString * (Z * (Z * Hash)))) :=
  (nd_tick n, (nd_scheduler_position n, (nd_owner_id n, (nd_output_ordinal n,
    (nd_schema_id n, nd_artifact_digest n))))).

#[export] Instance node_tuple_inj : Inj (=) (=) node_tuple.
Proof. intros [] []. unfold node_tuple. cbn. by intros [= -> -> -> -> -> ->]. Qed.
#[export] Instance node_eq_dec : EqDecision DependencyNodeV1.
Proof. solve_decision. Defined.
#[export] Instance node_countable : Countable DependencyNodeV1.
Proof.
  apply (inj_countable' (fun n => (nd_artifact_digest n,
      (nd_owner_id n, (nd_tick n, (nd_scheduler_position n, (nd_output_ordinal n, nd_schema_id n))))))
    (fun t => MkNode t.2.2.1 t.2.2.2.1 t.2.1 t.2.2.2.2.1 t.2.2.2.2.2 t.1)). by intros [].
Defined.
#[export] Instance node_ord : Ord DependencyNodeV1 := ord_by node_tuple.
#[export] Instance node_ord_laws : OrdLaws DependencyNodeV1 := ord_by_laws node_tuple _.

(** ** Bytes *)

Section Bytes.
Context `{Ciborium}.

Definition wire_encode (value : Value) : Wire (list byte) := ok_or (into_writer value) WInvalidEncoding.

Definition preflight_error (error : CborPreflightError) : WireError :=
  match error with PreflightInvalidEncoding => WInvalidEncoding | PreflightFieldOutOfBounds => WFieldOutOfBounds end.

Definition wire_decode (bytes : list byte) (limits : CborLimits) : Wire Value :=
  if maximum_bytes limits <? len bytes then Err WFieldOutOfBounds else
  let? _ := map_err preflight_error (preflight_array_cbor bytes (maximum_depth limits)
              (maximum_items limits) (allow_simple_values limits)) in
  let? value := ok_or (from_reader bytes) WInvalidEncoding in
  let? canonical := wire_encode value in
  if bool_decide (canonical = bytes) then Ok value else Err WInvalidEncoding.
End Bytes.

(** ** Values *)

Definition zero_array (n : nat) : list byte := replicate n x00.
Definition nonzero {n} (bytes : checked (has_len n)) : bool :=
  negb (bool_decide (raw bytes = zero_array (Z.to_nat n))).

Definition wire_uint (value : Z) : Value := VInteger value.
Definition wire_text (value : RString) : Value := VText value.
Definition wire_bytes {n} (value : checked (has_len n)) : Value := VBytes (raw value).
Definition wire_optional {n} (value : option (checked (has_len n))) : Value :=
  match value with Some digest => wire_bytes digest | None => VNull end.

Definition node_fields_value (n : DependencyNodeV1) : list Value :=
  [wire_uint (nd_tick n); wire_uint (nd_scheduler_position n); wire_text (nd_owner_id n);
   wire_uint (nd_output_ordinal n); wire_uint (nd_schema_id n); wire_bytes (nd_artifact_digest n)].
Definition node_value (n : DependencyNodeV1) : Value := VArray (node_fields_value n).

Definition NODE_FIELD_COUNT : nat := 6.

(** ** The field reader *)

Record FieldFailure := MkFailure { ff_error : WireError; ff_slot : nat; ff_item_slot : option nat }.

Definition failure_at (error : WireError) (slot : nat) : FieldFailure := MkFailure error slot None.

Record FieldReader := MkFieldReader {
  fr_fields : list Value;
  fr_next : nat;
  fr_slot : nat;
  fr_failure : option FieldFailure;
}.

(** [self.failure.or(..)]: the first failure is kept. *)
Definition first_failure (old new : option FieldFailure) : option FieldFailure :=
  match old with Some _ => old | None => new end.

Definition Fields (A : Type) : Type := FieldReader -> A * FieldReader.
Definition rd_ret {A} (a : A) : Fields A := fun r => (a, r).
Definition rd_bind {A B} (m : Fields A) (k : A -> Fields B) : Fields B := fun r =>
  let (a, r') := m r in k a r'.
Notation "'let&' x ':=' e 'in' k" := (rd_bind e (fun x => k))
  (at level 10, x pattern, e at level 200, k at level 200,
   format "'[v' 'let&'  x  ':='  '[' e ']'  'in' '/' k ']'").

Definition exact_array (value : option Value) (length : nat) : option (list Value) :=
  match value with
  | Some (VArray fields) => if (List.length fields =? length)%nat then Some fields else None
  | _ => None
  end.

(** [fields.is_none().then_some(..)]. *)
Definition shape_failure (fields : option (list Value)) (slot : nat) : option FieldFailure :=
  match fields with Some _ => None | None => Some (failure_at WInvalidEncoding slot) end.

Definition reader_new (value : Value) (length : nat) : FieldReader :=
  let fields := exact_array (Some value) length in
  MkFieldReader (default [] fields) 0 1 (shape_failure fields 0).

Definition read_nested {A} (length : nat) (decode : Fields A) : Fields A := fun r =>
  let fields := exact_array (fr_fields r !! fr_next r) length in
  let nested := MkFieldReader (default [] fields) 0 (S (fr_slot r))
                  (first_failure (fr_failure r) (shape_failure fields (fr_slot r))) in
  let (decoded, nested') := decode nested in
  (decoded, MkFieldReader (fr_fields r) (S (fr_next r)) (fr_slot nested') (fr_failure nested')).

Definition read_with {A} (decode : Value -> Wire A) (fallback : A) : Fields A := fun r =>
  let decoded := let? value := ok_or (fr_fields r !! fr_next r) WInvalidEncoding in decode value in
  let advance failure := MkFieldReader (fr_fields r) (S (fr_next r)) (S (fr_slot r)) failure in
  match decoded with
  | Ok a => (a, advance (fr_failure r))
  | Err e => (fallback, advance (first_failure (fr_failure r) (Some (failure_at e (fr_slot r)))))
  end.

(** ** Fields *)

Definition text_field (value : Value) : Wire RString :=
  match value with VText text => Ok text | _ => Err WInvalidEncoding end.

Definition u64_field (value : Value) : Wire Z :=
  match value with
  | VInteger z => if (0 <=? z) && (z <=? U64_MAX) then Ok z else Err WInvalidEncoding
  | _ => Err WInvalidEncoding
  end.

Definition u32_field (value : Value) : Wire Z :=
  let? integer := u64_field value in
  if integer <=? U32_MAX then Ok integer else Err WFieldOutOfBounds.

Definition byte_string_field (value : Value) : Wire (list byte) :=
  match value with VBytes bytes => Ok bytes | _ => Err WInvalidEncoding end.

Definition fixed_bytes_field (n : Z) (value : Value) : Wire (checked (has_len n)) :=
  match value with
  | VBytes bytes => ok_or (make (has_len n) bytes) WInvalidEncoding
  | _ => Err WInvalidEncoding
  end.

Definition enum_code {A} (codes : list A) (code : Z) : Wire A :=
  ok_or (codes !! Z.to_nat code) WUnknownEnum.

Definition optional_field {A} (decode : Value -> Wire A) (value : Value) : Wire (option A) :=
  match value with VNull => Ok None | _ => let? a := decode value in Ok (Some a) end.

Definition list_field {A} (decode : Value -> Wire A) (value : Value) : Wire (list A) :=
  match value with VArray values => try_collect decode values | _ => Err WInvalidEncoding end.

Definition ulid_zero : Ulid := @Checked _ (has_len 16) (replicate 16 x00) I.

Definition read_text : Fields RString := read_with text_field empty_string.
Definition read_u64 : Fields Z := read_with u64_field 0.
Definition read_u32 : Fields Z := read_with u32_field 0.
(** [read_bytes::<32>] and [read_bytes::<16>]. *)
Definition read_hash : Fields Hash := read_with (fixed_bytes_field 32) hash_zero.
Definition read_ulid : Fields Ulid := read_with (fixed_bytes_field 16) ulid_zero.
Definition read_enum {A} (codes : list A) (fallback : A) : Fields A :=
  read_with (fun value => let? code := u64_field value in enum_code codes code) fallback.
Definition read_nullable {A} (decode : Value -> Wire A) : Fields (option A) :=
  read_with (optional_field decode) None.
Definition read_optional_hash : Fields (option Hash) := read_nullable (fixed_bytes_field 32).
Definition read_list {A} (decode : Value -> Wire A) : Fields (list A) := read_with (list_field decode) [].
Definition read_hash_list : Fields (list Hash) := read_list (fixed_bytes_field 32).
Definition read_byte_string_list : Fields (list (list byte)) := read_list byte_string_field.

Definition read_record_array {A} (decode : Value -> result FieldFailure A) : Fields (list A) := fun r =>
  let slot := fr_slot r in
  let decoded := match fr_fields r !! fr_next r with
                 | Some (VArray items) => Some (try_collect decode items) | _ => None end in
  let advance failure := MkFieldReader (fr_fields r) (S (fr_next r)) (S slot) failure in
  match decoded with
  | Some (Ok items) => (items, advance (fr_failure r))
  | Some (Err item) =>
      ([], advance (first_failure (fr_failure r) (Some (MkFailure (ff_error item) slot (Some (ff_slot item))))))
  | None => ([], advance (first_failure (fr_failure r) (Some (failure_at WInvalidEncoding slot))))
  end.

Definition node_fields : Fields DependencyNodeV1 :=
  let& tick := read_u64 in
  let& scheduler_position := read_u32 in
  let& owner_id := read_text in
  let& output_ordinal := read_u32 in
  let& schema_id := read_u32 in
  let& artifact_digest := read_hash in
  rd_ret (MkNode tick scheduler_position owner_id output_ordinal schema_id artifact_digest).

Definition read_node : Fields DependencyNodeV1 := read_nested NODE_FIELD_COUNT node_fields.

Definition finish_at (r : FieldReader) : result FieldFailure unit :=
  match fr_failure r with None => Ok tt | Some failure => Err failure end.
Definition fields_finish (r : FieldReader) : Wire unit :=
  match fr_failure r with None => Ok tt | Some failure => Err (ff_error failure) end.

(** A whole record: its reader, read to the end. *)
Definition run_at {A} (r : FieldReader) (m : Fields A) : result FieldFailure A :=
  let (a, r') := m r in let? _ := finish_at r' in Ok a.
Definition run_reader {A} (r : FieldReader) (m : Fields A) : Wire A :=
  let (a, r') := m r in let? _ := fields_finish r' in Ok a.

Definition decode_node (value : Value) : result FieldFailure DependencyNodeV1 :=
  run_at (reader_new value NODE_FIELD_COUNT) node_fields.

Definition read_node_list : Fields (list DependencyNodeV1) := read_record_array decode_node.

Definition with_failure (r : FieldReader) (failure : option FieldFailure) : FieldReader :=
  MkFieldReader (fr_fields r) (fr_next r) (fr_slot r) failure.

Definition with_header (value : Value) (length : nat) (magic : RString) (version : Z) : FieldReader :=
  let count := match value with VArray fields => List.length fields | _ => length end in
  let reader := reader_new value count in
  let reader := if (count <? 2)%nat
                then with_failure reader (first_failure (fr_failure reader) (Some (failure_at WInvalidEncoding 0)))
                else reader in
  let magic_slot := fr_slot reader in
  let (read_magic, reader) := read_text reader in
  let (read_version, reader) := read_u64 reader in
  match fr_failure reader with
  | Some _ => reader
  | None =>
      if negb (bool_decide (read_magic = magic)) || negb (read_version =? version)
      then with_failure reader (Some (failure_at WUnsupportedVersion magic_slot))
      else if negb (count =? length)%nat
      then with_failure reader (Some (failure_at WInvalidEncoding 0))
      else reader
  end.

(** ** What a reader accepts *)

Definition remaining (r : FieldReader) : list Value := drop (fr_next r) (fr_fields r).

Record exact {A} (m : Fields A) (P : A -> list Value -> Prop) : Prop := {
  ex_failed : forall r, is_Some (fr_failure r) -> is_Some (fr_failure (m r).2);
  ex_sound : forall r a r', m r = (a, r') -> fr_failure r' = None ->
    exists vs, remaining r = vs ++ remaining r' /\ P a vs;
  ex_complete : forall r a vs rest, fr_failure r = None -> remaining r = vs ++ rest -> P a vs ->
    exists r', m r = (a, r') /\ fr_failure r' = None /\ remaining r' = rest;
}.

Lemma remaining_cons r v rest :
  remaining r = v :: rest <-> fr_fields r !! fr_next r = Some v /\ drop (S (fr_next r)) (fr_fields r) = rest.
Proof.
  unfold remaining. split.
  - intros Hd. split.
    + rewrite <- (Nat.add_0_r (fr_next r)), <- lookup_drop, Hd. done.
    + replace (S (fr_next r)) with (fr_next r + 1)%nat by lia. rewrite <- drop_drop, Hd. done.
  - intros [Hv <-]. by apply drop_S.
Qed.

Lemma not_failed {A} (m : Fields A) P r a r' :
  exact m P -> m r = (a, r') -> fr_failure r' = None -> fr_failure r = None.
Proof.
  intros Hm Hr Hn. destruct (fr_failure r) eqn:Hf; [|done]. exfalso.
  destruct (ex_failed _ _ Hm r) as [f' Hf']; [by eexists|]. rewrite Hr in Hf'. cbn in Hf'. congruence.
Qed.

Lemma exact_iff {A} (m : Fields A) P Q : exact m P -> (forall a vs, P a vs <-> Q a vs) -> exact m Q.
Proof.
  intros [H1 H2 H3] HPQ. split; [done|..].
  - intros r a r' Hm Hf. destruct (H2 _ _ _ Hm Hf) as (vs & ? & ?%HPQ). by exists vs.
  - intros r a vs rest Hf Hr ?%HPQ. by eapply H3.
Qed.

Lemma exact_ret {A} (a : A) : exact (rd_ret a) (fun b vs => b = a /\ vs = []).
Proof.
  split; [done|..].
  - intros r b r' [= <- <-] _. by exists [].
  - intros r b vs rest Hf Hr [-> ->]. by exists r.
Qed.

Lemma exact_bind {A B} (m : Fields A) (k : A -> Fields B) P Q :
  exact m P -> (forall a, exact (k a) (Q a)) ->
  exact (rd_bind m k) (fun b vs => exists a v1 v2, vs = v1 ++ v2 /\ P a v1 /\ Q a b v2).
Proof.
  intros Hm Hk. unfold rd_bind. split.
  - intros r Hf%(ex_failed _ _ Hm). destruct (m r) as [a r1]. by apply (ex_failed _ _ (Hk a)).
  - intros r b r' Hb Hf. destruct (m r) as [a r1] eqn:Hr.
    destruct (ex_sound _ _ (Hk a) _ _ _ Hb Hf) as (v2 & H2 & HQ).
    destruct (ex_sound _ _ Hm _ _ _ Hr) as (v1 & H1 & HP); [by eapply (not_failed (k a))|].
    exists (v1 ++ v2). rewrite H1, H2, app_assoc. split; [done|]. by exists a, v1, v2.
  - intros r b vs rest Hf Hr (a & v1 & v2 & -> & HP & HQ). rewrite <- app_assoc in Hr.
    destruct (ex_complete _ _ Hm _ _ _ _ Hf Hr HP) as (r1 & -> & Hf1 & Hr1).
    by apply (ex_complete _ _ (Hk a) _ _ _ _ Hf1 Hr1).
Qed.

Lemma exact_with {A} (decode : Value -> Wire A) fallback (Q : A -> Value -> Prop) :
  (forall v a, decode v = Ok a <-> Q a v) -> exact (read_with decode fallback) (fun a vs => exists v, vs = [v] /\ Q a v).
Proof.
  intros HQ. unfold read_with. split.
  - intros r [f Hf]. rewrite Hf. destruct (let? _ := _ in _); cbn; by eexists.
  - intros r a r' Hr Hf. destruct (fr_fields r !! fr_next r) as [v|] eqn:Hv; cbn in Hr.
    + destruct (decode v) as [a'|e] eqn:Hd; injection Hr as <- <-; cbn in Hf.
      * exists [v]. split; [by apply remaining_cons|]. exists v. split; [done|]. by apply HQ.
      * by destruct (fr_failure r).
    + injection Hr as <- <-. cbn in Hf. by destruct (fr_failure r).
  - intros r a vs rest Hf Hr (v & -> & Hv%HQ). cbn in Hr. apply remaining_cons in Hr as [Hl Hd].
    rewrite Hl. cbn. rewrite Hv. eexists. split; [done|]. done.
Qed.

Lemma exact_array_some v n fields : exact_array v n = Some fields <-> v = Some (VArray fields) /\ length fields = n.
Proof.
  unfold exact_array. destruct v as [[| | | | |items|]|]; try naive_solver. destruct (Nat.eqb_spec (length items) n); naive_solver.
Qed.

Lemma exact_nested {A} n (m : Fields A) P :
  exact m P -> (forall a vs, P a vs -> length vs = n) ->
  exact (read_nested n m) (fun a vs => exists ws, vs = [VArray ws] /\ P a ws).
Proof.
  intros Hm Hlen. unfold read_nested. split.
  - intros r [f Hf]. destruct (m _) as [a r'] eqn:Hr. cbn. revert Hr. match goal with |- m ?x = _ -> _ => intros Hr;
      pose proof (ex_failed _ _ Hm x) as Hx; rewrite Hr in Hx; apply Hx; cbn; rewrite Hf; by eexists end.
  - intros r a r' Hr Hf. destruct (m _) as [a1 r1] eqn:Hm1. injection Hr as -> <-. cbn in Hf.
    pose proof (not_failed _ _ _ _ _ Hm Hm1 Hf) as Hn. cbn in Hn.
    destruct (ex_sound _ _ Hm _ _ _ Hm1 Hf) as (ws & Hws & HP).
    destruct (exact_array (fr_fields r !! fr_next r) n) as [fields|] eqn:He;
      [|by destruct (fr_failure r)]. apply exact_array_some in He as [Hl He].
    unfold remaining in Hws. cbn in Hws. rewrite drop_0 in Hws.
    assert (drop (fr_next r1) (fr_fields r1) = []) as Hnil.
    { apply (f_equal length) in Hws. rewrite length_app, (Hlen _ _ HP) in Hws. destruct (drop _ _); [done|]. cbn in Hws. lia. }
    rewrite Hnil, app_nil_r in Hws. subst fields. exists [VArray ws]. split; [by apply remaining_cons|]. by exists ws.
  - intros r a vs rest Hf Hr (ws & -> & HP). cbn in Hr. apply remaining_cons in Hr as [Hl Hd]. rewrite Hl.
    assert (exact_array (Some (VArray ws)) n = Some ws) as -> by (apply exact_array_some; eauto). rewrite Hf. cbn.
    destruct (ex_complete _ _ Hm (MkFieldReader ws 0 (S (fr_slot r)) None) a ws []) as (r' & -> & Hf' & Hr');
      [done|by rewrite app_nil_r|done|]. cbn. eexists. split; [done|]. by cbn.
Qed.

Lemma try_collect_exact {E A} (f : Value -> result E A) (enc : A -> Value) (P : A -> Prop) vs l :
  (forall v a, f v = Ok a <-> v = enc a /\ P a) ->
  try_collect f vs = Ok l <-> vs = enc <$> l /\ Forall P l.
Proof.
  intros Hf. revert l. induction vs as [|v vs IH]; intros l; cbn [try_collect].
  - split; [intros [= <-]; done|intros [Hl _]]. by destruct l.
  - destruct (f v) as [a|e] eqn:Hv; cbn.
    + apply Hf in Hv as [-> Ha]. destruct (try_collect f vs) as [l'|] eqn:Hl; cbn.
      * destruct (proj1 (IH l') eq_refl) as [-> Hl']. split; [intros [= <-]; by split; [|constructor]|].
        intros [He HF]. destruct l as [|b l]; [done|]. injection He as Hab Hl2. apply Forall_cons in HF as [Hb HF].
        assert (f (enc a) = Ok b) as Hb' by by apply Hf. assert (f (enc a) = Ok a) as Ha' by by apply Hf.
        assert (Ok l' = Ok l) as [= ->] by (by apply IH). congruence.
      * split; [done|]. intros [He HF]. destruct l as [|b l]; [done|]. injection He as Hab Hl2.
        apply Forall_cons in HF as [_ HF]. by pose proof (proj2 (IH l) (conj Hl2 HF)).
    + split; [done|]. intros [He HF]. destruct l as [|b l]; [done|]. injection He as Hab _.
      apply Forall_cons in HF as [Hb _]. by rewrite (proj2 (Hf v b)) in Hv.
Qed.

Lemma exact_record_array {A} (decode : Value -> result FieldFailure A) (enc : A -> Value) (Q : A -> Prop) :
  (forall v a, decode v = Ok a <-> v = enc a /\ Q a) ->
  exact (read_record_array decode) (fun l vs => vs = [VArray (enc <$> l)] /\ Forall Q l).
Proof.
  intros HQ. pose proof (fun vs l => try_collect_exact decode enc Q vs l HQ) as HC. unfold read_record_array. split.
  - intros r [f Hf]. rewrite Hf. destruct (match _ with Some (VArray _) => _ | _ => _ end) as [[]|]; cbn; by eexists.
  - intros r a r' Hr Hf. destruct (fr_fields r !! fr_next r) as [[| | | | |items|]|] eqn:Hv; cbn in Hr;
      try (injection Hr as <- <-; cbn in Hf; by destruct (fr_failure r)).
    destruct (try_collect decode items) as [l|e] eqn:Hd; injection Hr as <- <-; cbn in Hf; [|by destruct (fr_failure r)].
    apply HC in Hd as [-> Hl]. exists [VArray (enc <$> l)]. split; [by apply remaining_cons|done].
  - intros r a vs rest Hf Hr [-> Hl]. cbn in Hr. apply remaining_cons in Hr as [Hv Hd].
    rewrite Hv, (proj2 (HC _ _) (conj eq_refl Hl)). by eexists.
Qed.

(** ** The fields, exactly

    [reads m enc P]: [m] reads exactly the values [enc a] of a result with [P a]. *)

Definition u32_ok (z : Z) : Prop := 0 <= z <= U32_MAX.
Definition any {A} (a : A) : Prop := True.

Definition reads {A} (m : Fields A) (enc : A -> list Value) (P : A -> Prop) : Prop :=
  exact m (fun a vs => vs = enc a /\ P a).

Lemma exact_step {A B} (m : Fields A) (k : A -> Fields B) enc P Q :
  reads m enc P -> (forall a, exact (k a) (Q a)) ->
  exact (rd_bind m k) (fun b vs => exists a v2, vs = enc a ++ v2 /\ P a /\ Q a b v2).
Proof.
  intros Hm Hk. eapply exact_iff; [by apply exact_bind|]. intros b vs. naive_solver.
Qed.

Lemma reads_with {A} (decode : Value -> Wire A) fallback (enc : A -> Value) (P : A -> Prop) :
  (forall v a, decode v = Ok a <-> v = enc a /\ P a) -> reads (read_with decode fallback) (fun a => [enc a]) P.
Proof.
  intros Hd. eapply exact_iff; [apply (exact_with _ _ (fun a v => v = enc a /\ P a)), Hd|]. naive_solver.
Qed.

Lemma text_field_exact v a : text_field v = Ok a <-> v = wire_text a /\ any a.
Proof. unfold text_field, wire_text, any. destruct v; naive_solver. Qed.

Lemma u64_field_exact v a : u64_field v = Ok a <-> v = wire_uint a /\ u64_ok a.
Proof.
  unfold u64_field, wire_uint, u64_ok. destruct v; try naive_solver.
  destruct (Z.leb_spec 0 z), (Z.leb_spec z U64_MAX); cbn; split; try naive_solver lia.
Qed.

Lemma u32_field_exact v a : u32_field v = Ok a <-> v = wire_uint a /\ u32_ok a.
Proof.
  unfold u32_field. destruct (u64_field v) as [z|e] eqn:Hz; cbn.
  - apply u64_field_exact in Hz as [-> Hz]. unfold u32_ok, u64_ok, wire_uint in *.
    destruct (Z.leb_spec z U32_MAX); split; naive_solver lia.
  - split; [done|]. intros [-> Ha]. rewrite (proj2 (u64_field_exact _ a)) in Hz; [done|].
    split; [done|]. unfold u64_ok, u32_ok, U32_MAX, U64_MAX in *. lia.
Qed.

Lemma fixed_bytes_field_exact n v a : fixed_bytes_field n v = Ok a <-> v = wire_bytes a /\ any a.
Proof.
  unfold fixed_bytes_field, wire_bytes, any. destruct v; try (split; [done|intros [? _]; done]). split.
  - intros Hm%ok_or_ok_inv%make_some. naive_solver.
  - intros [[= ->] _]. by rewrite make_raw.
Qed.

Lemma byte_string_field_exact v a : byte_string_field v = Ok a <-> v = VBytes a /\ any a.
Proof. unfold byte_string_field, any. destruct v; naive_solver. Qed.

Lemma optional_hash_exact v a : optional_field (fixed_bytes_field 32) v = Ok a <-> v = wire_optional a /\ any a.
Proof.
  unfold wire_optional. assert (optional_field (fixed_bytes_field 32) v = Ok a
    <-> match a with Some b => fixed_bytes_field 32 v = Ok b | None => v = VNull end) as ->.
  { unfold optional_field. destruct v, a; cbn; try naive_solver;
      match goal with |- rbind ?m _ = _ <-> _ => destruct m eqn:? end; cbn; naive_solver. }
  destruct a; [apply fixed_bytes_field_exact|]. unfold any. naive_solver.
Qed.

Lemma list_field_exact {A} (decode : Value -> Wire A) (enc : A -> Value) (P : A -> Prop) v l :
  (forall v a, decode v = Ok a <-> v = enc a /\ P a) ->
  list_field decode v = Ok l <-> v = VArray (enc <$> l) /\ Forall P l.
Proof.
  intros Hd. unfold list_field. destruct v; try (split; [done|intros [? _]; done]).
  rewrite (try_collect_exact _ _ _ _ _ Hd). naive_solver.
Qed.

(** A closed enum whose codes are the positions in its table. *)
Class WireCodes {A} (codes : list A) (code : A -> Z) : Prop := {
  code_table a : 0 <= code a <= U64_MAX /\ codes !! Z.to_nat (code a) = Some a;
  codes_distinct : NoDup codes;
}.

Lemma enum_field_exact {A} (codes : list A) (code : A -> Z) `{WireCodes A codes code} v a :
  (let? n := u64_field v in enum_code codes n) = Ok a <-> v = wire_uint (code a) /\ any a.
Proof.
  unfold enum_code, any. destruct (code_table a) as [Hr Ha]. split.
  - intros Hd. apply rbind_ok_inv in Hd as (n & [-> Hn]%u64_field_exact & Hc%ok_or_ok_inv). split; [|done].
    pose proof (NoDup_lookup _ _ _ _ codes_distinct Hc Ha) as He. unfold u64_ok in Hn. f_equal. lia.
  - intros [-> _]. rewrite (proj2 (u64_field_exact _ (code a))) by done. cbn. by rewrite Ha.
Qed.

Create HintDb cf_fields.

Lemma reads_text_field : reads read_text (fun a => [wire_text a]) any.
Proof. apply reads_with, text_field_exact. Qed.
Lemma reads_u64 : reads read_u64 (fun a => [wire_uint a]) u64_ok.
Proof. apply reads_with, u64_field_exact. Qed.
Lemma reads_u32 : reads read_u32 (fun a => [wire_uint a]) u32_ok.
Proof. apply reads_with, u32_field_exact. Qed.
Lemma reads_hash : reads read_hash (fun a => [wire_bytes a]) any.
Proof. apply reads_with, fixed_bytes_field_exact. Qed.
Lemma reads_ulid : reads read_ulid (fun a => [wire_bytes a]) any.
Proof. apply reads_with, fixed_bytes_field_exact. Qed.
Lemma reads_optional_hash : reads read_optional_hash (fun a => [wire_optional a]) any.
Proof. apply reads_with, optional_hash_exact. Qed.
Lemma reads_enum {A} (codes : list A) (code : A -> Z) `{WireCodes A codes code} fallback :
  reads (read_enum codes fallback) (fun a => [wire_uint (code a)]) any.
Proof. apply reads_with, enum_field_exact, _. Qed.
Lemma reads_value_list {A} (decode : Value -> Wire A) (enc : A -> Value) (P : A -> Prop) :
  (forall v a, decode v = Ok a <-> v = enc a /\ P a) ->
  reads (read_list decode) (fun l => [VArray (enc <$> l)]) (Forall P).
Proof. intros Hd. apply (reads_with _ _ (fun l => VArray (enc <$> l))). intros. by apply list_field_exact. Qed.
Lemma reads_hash_list : reads read_hash_list (fun l => [VArray (wire_bytes <$> l)]) (Forall any).
Proof. apply reads_value_list, fixed_bytes_field_exact. Qed.
Lemma reads_byte_string_list : reads read_byte_string_list (fun l => [VArray (VBytes <$> l)]) (Forall any).
Proof. apply reads_value_list, byte_string_field_exact. Qed.
Lemma reads_record_array {A} (decode : Value -> result FieldFailure A) (enc : A -> Value) (P : A -> Prop) :
  (forall v a, decode v = Ok a <-> v = enc a /\ P a) ->
  reads (read_record_array decode) (fun l => [VArray (enc <$> l)]) (Forall P).
Proof. apply exact_record_array. Qed.
Lemma reads_nested {A} n (m : Fields A) enc (P : A -> Prop) :
  reads m enc P -> (forall a, length (enc a) = n) -> reads (read_nested n m) (fun a => [VArray (enc a)]) P.
Proof.
  intros Hm Hn. eapply exact_iff; [apply exact_nested; [exact Hm|]|]; [intros a vs [-> _]; apply Hn|].
  intros a vs. naive_solver.
Qed.

#[export] Hint Resolve reads_text_field reads_u64 reads_u32 reads_hash reads_ulid reads_optional_hash
  reads_hash_list reads_byte_string_list reads_record_array : cf_fields.

Lemma Forall_any {A} (l : list A) : Forall any l.
Proof. by apply Forall_true. Qed.
#[export] Hint Resolve Forall_any : cf_fields.

(** Read a straight-line reader off its definition. *)
Ltac exact_record :=
  eapply exact_iff; [repeat (eapply exact_step; [solve [eauto with cf_fields]|intros ?]); apply exact_ret|];
  intros ? ?; split;
  [ intros; repeat match goal with
    | Hx : exists _, _ |- _ => destruct Hx
    | Hx : _ /\ _ |- _ => destruct Hx
    end; subst; split; [reflexivity|cbn; tauto]
  | intros [-> ?]; cbn in *; destruct_and?;
    repeat (eexists _, _; split; [reflexivity|split; [first [assumption|exact I|apply Forall_any]|]]);
    split; [|reflexivity] ].

Definition node_typed (n : DependencyNodeV1) : Prop :=
  u64_ok (nd_tick n) /\ u32_ok (nd_scheduler_position n) /\ u32_ok (nd_output_ordinal n) /\ u32_ok (nd_schema_id n).

Lemma reads_node_fields : reads node_fields node_fields_value node_typed.
Proof. unfold node_typed. exact_record. by destruct a. Qed.
Lemma reads_node : reads read_node (fun n => [node_value n]) node_typed.
Proof. by apply reads_nested; [apply reads_node_fields|]. Qed.
#[export] Hint Resolve reads_node : cf_fields.

(** ** Whole records *)

Section Runs.
Context {A : Type} (m : Fields A) (enc : A -> list Value) (P : A -> Prop) (Hm : reads m enc P).

Lemma run_at_reads r a :
  (forall a, length (enc a) = length (remaining r)) ->
  run_at r m = Ok a <-> fr_failure r = None /\ remaining r = enc a /\ P a.
Proof.
  intros Hlen. unfold run_at, finish_at. destruct (m r) as [b r'] eqn:Hr. split.
  - destruct (fr_failure r') eqn:Hf; [done|]. intros [= ->]. split; [by eapply not_failed|].
    destruct (ex_sound _ _ Hm _ _ _ Hr Hf) as (vs & Hvs & -> & HP). split; [|done].
    pose proof (f_equal length Hvs) as Hl. rewrite length_app, Hlen in Hl.
    destruct (remaining r'); [by rewrite app_nil_r in Hvs|]. cbn in Hl. lia.
  - intros (Hf & He & HP).
    destruct (ex_complete _ _ Hm r a (enc a) []) as (r2 & Hr2 & Hf2 & _); [done|by rewrite app_nil_r|done|].
    rewrite Hr in Hr2. injection Hr2 as -> ->. by rewrite Hf2.
Qed.

Lemma run_reader_at r a : run_reader r m = Ok a <-> run_at r m = Ok a.
Proof.
  unfold run_reader, run_at, fields_finish, finish_at. destruct (m r) as [b r'].
  destruct (fr_failure r'); cbn; naive_solver.
Qed.

Lemma run_new_exact v n a :
  (forall a, length (enc a) = n) -> run_at (reader_new v n) m = Ok a <-> v = VArray (enc a) /\ P a.
Proof.
  intros Hn. unfold reader_new. destruct (exact_array (Some v) n) as [fields|] eqn:He.
  - apply exact_array_some in He as [[= ->] Hl]. rewrite run_at_reads by (intros; rewrite Hn; done).
    unfold remaining. cbn. split; [intros (_ & He & ?)|intros [[= ->] ?]; done]. by rewrite <- He.
  - split.
    + unfold run_at, finish_at. destruct (m _) as [b r'] eqn:Hr. destruct (fr_failure r') eqn:Hf; [done|].
      by pose proof (not_failed _ _ _ _ _ Hm Hr Hf).
    + intros [-> _]. by rewrite (proj2 (exact_array_some _ n (enc a))) in He.
Qed.
End Runs.

Lemma with_header_exact v n magic version : u64_ok version ->
  (fr_failure (with_header v n magic version) = None ->
     exists rest, v = VArray (wire_text magic :: wire_uint version :: rest) /\ S (S (length rest)) = n)
  /\ forall rest, v = VArray (wire_text magic :: wire_uint version :: rest) -> S (S (length rest)) = n ->
     fr_failure (with_header v n magic version) = None /\ remaining (with_header v n magic version) = rest.
Proof.
  intros Hver. split.
  - unfold with_header. set (count := match v with VArray fields => length fields | _ => n end).
    set (r0 := if (count <? 2)%nat then _ else _). intros Hf.
    destruct (read_text r0) as [t r1] eqn:H1. destruct (read_u64 r1) as [u r2] eqn:H2.
    destruct (fr_failure r2) eqn:Hf2; [congruence|].
    pose proof (not_failed _ _ _ _ _ reads_u64 H2 Hf2) as Hf1. pose proof (not_failed _ _ _ _ _ reads_text_field H1 Hf1) as Hf0.
    destruct (ex_sound _ _ reads_text_field _ _ _ H1 Hf1) as (vs & Ht & -> & _).
    destruct (ex_sound _ _ reads_u64 _ _ _ H2 Hf2) as (vs & Hu & -> & _).
    destruct (bool_decide_reflect (t = magic)) as [->|]; [|done]. destruct (Z.eqb_spec u version) as [->|]; [|done].
    destruct (Nat.eqb_spec count n) as [Hc|]; [|done]. cbn in Ht, Hu. rewrite Hu in Ht. unfold r0 in Hf0, Ht.
    destruct (count <? 2)%nat; [by destruct (fr_failure (reader_new v count))|].
    unfold reader_new in Hf0, Ht. destruct (exact_array (Some v) count) as [fields|] eqn:He; [|done].
    apply exact_array_some in He as [[= ->] Hl]. unfold remaining at 1 in Ht. cbn in Ht. rewrite drop_0 in Ht. subst fields.
    exists (remaining r2). split; [done|]. by rewrite <- Hc, <- Hl.
  - intros rest -> Hn. unfold with_header. cbn [length]. rewrite Hn.
    assert ((n <? 2)%nat = false) as -> by (apply Nat.ltb_ge; lia). unfold reader_new.
    rewrite (proj2 (exact_array_some _ n (wire_text magic :: wire_uint version :: rest)) (conj eq_refl Hn)). cbn.
    destruct (ex_complete _ _ reads_u64 (MkFieldReader (wire_text magic :: wire_uint version :: rest) 1 2 None)
      version [wire_uint version] rest) as (r' & -> & Hf & Hr); [done..|]. rewrite Hf.
    by rewrite bool_decide_true, Z.eqb_refl, Nat.eqb_refl by done.
Qed.

Section Header.
Context {A : Type} (m : Fields A) (enc : A -> list Value) (P : A -> Prop) (Hm : reads m enc P).

Lemma run_header_exact v n magic version a :
  u64_ok version -> (forall a, S (S (length (enc a))) = n) ->
  run_at (with_header v n magic version) m = Ok a
  <-> v = VArray (wire_text magic :: wire_uint version :: enc a) /\ P a.
Proof.
  intros Hver Hn. destruct (with_header_exact v n magic version Hver) as [Hs Hc]. split.
  - intros Hr. assert (fr_failure (with_header v n magic version) = None) as Hf.
    { unfold run_at, finish_at in Hr. destruct (m _) as [b r'] eqn:Hmr. destruct (fr_failure r') eqn:Hf; [done|].
      by eapply not_failed. }
    destruct (Hs Hf) as (rest & Hv & Hl). destruct (Hc rest Hv Hl) as [_ Hrem].
    apply (run_at_reads _ _ _ Hm) in Hr as (_ & He & HP); [by rewrite Hv, <- He, Hrem|].
    intros b. specialize (Hn b). rewrite Hrem. lia.
  - intros [-> HP]. destruct (Hc (enc a) eq_refl (Hn a)) as [Hf Hrem].
    apply (run_at_reads _ _ _ Hm); [|done]. intros b. rewrite Hrem. pose proof (Hn a). pose proof (Hn b). lia.
Qed.
End Header.

Lemma decode_node_exact v n : decode_node v = Ok n <-> v = node_value n /\ node_typed n.
Proof. by apply run_new_exact; [apply reads_node_fields|]. Qed.

Lemma reads_node_list : reads read_node_list (fun l => [VArray (node_value <$> l)]) (Forall node_typed).
Proof. apply reads_record_array, decode_node_exact. Qed.
#[export] Hint Resolve reads_node_list decode_node_exact : cf_fields.

Lemma wire_decode_ok `{Ciborium} bytes limits v :
  wire_decode bytes limits = Ok v -> into_writer v = Some bytes /\ len bytes <= maximum_bytes limits.
Proof.
  unfold wire_decode, wire_encode. destruct (Z.ltb_spec (maximum_bytes limits) (len bytes)); [done|].
  intros Hd. ok_inv. bool_props. by subst.
Qed.
