(* ===== verification/CounterfactualInputs.v ===== *)
(** * Interventions and input dependencies

    The inputs of a plan.  [crates/pos-conformance/src/counterfactual/intervention.rs]: INT1 records and
    the ordered Interventions of one plan; [.../dependency.rs]: IDP1 edges. *)

From Stdlib Require Import String ZArith Lia Bool Sorted.
From S2P Require Import Prelude Text Cbor Ordering FallbackRecords StrictCbor PluginTrust WireSyntax TrustPolicy.
From S2P Require Import CfCodec.

Local Open Scope Z_scope.

(** [domain_digest] of [lib.rs]: the domain, a zero byte and the value. *)
Definition separated_digest `{Blake3} (domain value : list byte) : Hash := blake3 (domain ++ x00 :: value).

Definition INTERVENTION_MAGIC_V1 : RString := lit "INT1".
Definition MAX_INTERVENTION_BYTES_V1 : Z := 64 * 1024.
Definition MAX_INTERVENTIONS_PER_PLAN_V1 : Z := 1024.
Definition INTERVENTION_FIELD_COUNT : nat := 16.
Definition INTERVENTION_LIMITS : CborLimits := MkLimits MAX_INTERVENTION_BYTES_V1 1 16 false.
Definition MAX_INTERVENTION_IDENTIFIER_BYTES : Z := 128.
Definition MAX_RATIONALE_BYTES : Z := 4096.
Definition INTERVENTION_DIGEST_DOMAIN_V1 : list byte := list_byte_of_string "PiglorOS.Intervention.v1".

Module IntError.
Inductive InterventionContractErrorV1 :=
| InvalidEncoding | UnsupportedVersion | FieldOutOfBounds | UnknownEnum
| NonCanonicalOrder | DuplicateIdentity | NonContiguousOrdinal.
End IntError.

Notation IntResult := (result IntError.InterventionContractErrorV1).

Inductive InterventionOperationV1 := AssignValue | AssignArtifact.
#[export] Instance operation_eq_dec : EqDecision InterventionOperationV1.
Proof. solve_decision. Defined.

Definition OPERATIONS : list InterventionOperationV1 := [AssignValue; AssignArtifact].
Definition operation_code (o : InterventionOperationV1) : Z :=
  match o with AssignValue => 0 | AssignArtifact => 1 end.
#[export] Instance operation_codes : WireCodes OPERATIONS operation_code.
Proof. split; [by intros []|]. repeat constructor; set_solver. Qed.

Record InterventionV1 := MkIntervention {
  int_intervention_id : Ulid;
  int_target_schema_id : Z;
  int_target_entity_id : RString;
  int_target_field : RString;
  int_operation : InterventionOperationV1;
  int_value_digest : Hash;
  int_effective_tick : Z;
  int_ordinal : Z;
  int_principal_id : RString;
  int_capability : RString;
  int_consent_epoch : Z;
  int_consent_decision_digest : Hash;
  int_rationale : RString;
  int_provenance_digest : Hash;
}.
#[export] Instance intervention_eq_dec : EqDecision InterventionV1.
Proof. solve_decision. Defined.

(** The evidence of a proof ([lib.rs]) and what INT1 adds to it. *)
Record EvidenceInterventionV1 := MkEvidenceIntervention {
  ei_intervention_id : Ulid;
  ei_target : RString;
  ei_operation : RString;
  ei_value_digest : Hash;
  ei_effective_tick : Z;
  ei_ordinal : Z;
  ei_principal_id : RString;
  ei_capability : RString;
  ei_consent_epoch : Z;
  ei_provenance_digest : Hash;
}.
Record ProofInterventionBindingV1 := MkInterventionBinding {
  ib_target_schema_id : Z;
  ib_target_field : RString;
  ib_operation : InterventionOperationV1;
  ib_consent_decision_digest : Hash;
  ib_rationale : RString;
}.

(** ** Validation *)

(** [value.chars().any(char::is_control)]: U+0000 to U+001F and U+007F to U+009F,
    the latter from U+0080 on as the two bytes C2 80 to C2 9F. *)
Fixpoint any_control (bytes : list byte) : bool :=
  match bytes with
  | [] => false
  | b :: rest =>
      in_range 0 0x1F b || bool_decide (b = x7f)
      || (bool_decide (b = xc2) && match rest with c :: _ => in_range 0x80 0x9F c | [] => false end)
      || any_control rest
  end.

Definition bounded_text (value : RString) (maximum_bytes : Z) : bool :=
  negb (is_empty value) && (str_len value <=? maximum_bytes) && negb (any_control (as_bytes value)).

Definition intervention_validate (i : InterventionV1) : IntResult unit :=
  if nonzero (int_intervention_id i) && negb (int_target_schema_id i =? 0)
     && forallb nonzero [int_value_digest i; int_consent_decision_digest i; int_provenance_digest i]
     && forallb (fun value => bounded_text value MAX_INTERVENTION_IDENTIFIER_BYTES)
          [int_target_entity_id i; int_target_field i; int_principal_id i; int_capability i]
     && bounded_text (int_rationale i) MAX_RATIONALE_BYTES
  then Ok tt else Err IntError.FieldOutOfBounds.

Definition intervention_from_proof_evidence_v1 (evidence : EvidenceInterventionV1)
    (binding : ProofInterventionBindingV1) : IntResult InterventionV1 :=
  let intervention := MkIntervention (ei_intervention_id evidence) (ib_target_schema_id binding)
    (ei_target evidence) (ib_target_field binding) (ib_operation binding) (ei_value_digest evidence)
    (ei_effective_tick evidence) (ei_ordinal evidence) (ei_principal_id evidence) (ei_capability evidence)
    (ei_consent_epoch evidence) (ib_consent_decision_digest binding) (ib_rationale binding)
    (ei_provenance_digest evidence) in
  let? _ := intervention_validate intervention in Ok intervention.

(** ** The record *)

Definition intervention_values (i : InterventionV1) : list Value :=
  [wire_bytes (int_intervention_id i); wire_uint (int_target_schema_id i);
   wire_text (int_target_entity_id i); wire_text (int_target_field i);
   wire_uint (operation_code (int_operation i)); wire_bytes (int_value_digest i);
   wire_uint (int_effective_tick i); wire_uint (int_ordinal i); wire_text (int_principal_id i);
   wire_text (int_capability i); wire_uint (int_consent_epoch i);
   wire_bytes (int_consent_decision_digest i); wire_text (int_rationale i);
   wire_bytes (int_provenance_digest i)].

Definition encode_intervention (i : InterventionV1) : Value :=
  VArray (wire_text INTERVENTION_MAGIC_V1 :: wire_uint 1 :: intervention_values i).

Definition int_contract_error (error : WireError) : IntError.InterventionContractErrorV1 :=
  match error with
  | WInvalidEncoding => IntError.InvalidEncoding
  | WFieldOutOfBounds => IntError.FieldOutOfBounds
  | WUnsupportedVersion => IntError.UnsupportedVersion
  | WUnknownEnum => IntError.UnknownEnum
  end.

Definition intervention_fields : Fields InterventionV1 :=
  let& intervention_id := read_ulid in
  let& target_schema_id := read_u32 in
  let& target_entity_id := read_text in
  let& target_field := read_text in
  let& operation := read_enum OPERATIONS AssignValue in
  let& value_digest := read_hash in
  let& effective_tick := read_u64 in
  let& ordinal := read_u32 in
  let& principal_id := read_text in
  let& capability := read_text in
  let& consent_epoch := read_u64 in
  let& consent_decision_digest := read_hash in
  let& rationale := read_text in
  let& provenance_digest := read_hash in
  rd_ret (MkIntervention intervention_id target_schema_id target_entity_id target_field operation
    value_digest effective_tick ordinal principal_id capability consent_epoch consent_decision_digest
    rationale provenance_digest).

Definition decode_intervention (value : Value) : IntResult InterventionV1 :=
  map_err int_contract_error
    (run_reader (with_header value INTERVENTION_FIELD_COUNT INTERVENTION_MAGIC_V1 1) intervention_fields).

Section Codec.
Context `{Ciborium}.

Definition intervention_to_canonical_cbor (i : InterventionV1) : IntResult (list byte) :=
  let? _ := intervention_validate i in
  map_err int_contract_error (wire_encode (encode_intervention i)).

Definition intervention_from_canonical_cbor (bytes : list byte) : IntResult InterventionV1 :=
  let? value := map_err int_contract_error (wire_decode bytes INTERVENTION_LIMITS) in
  let? intervention := decode_intervention value in
  let? _ := intervention_validate intervention in
  Ok intervention.

Definition intervention_digest `{Blake3} (i : InterventionV1) : IntResult Hash :=
  let? bytes := intervention_to_canonical_cbor i in
  Ok (separated_digest INTERVENTION_DIGEST_DOMAIN_V1 bytes).
End Codec.

(** ** The Interventions of a plan *)

Definition int_order_key (i : InterventionV1) : Z * (Z * Ulid) :=
  (int_effective_tick i, (int_ordinal i, int_intervention_id i)).

(** The loop of [validate_contiguous_ordinals], over what is left of the list.  The
    list has at most 1,024 items, so the [u32] count does not overflow. *)
Fixpoint contiguous_from (previous_tick : option Z) (expected_ordinal : Z) (interventions : list InterventionV1)
    : IntResult unit :=
  match interventions with
  | [] => Ok tt
  | i :: rest =>
      let expected := if bool_decide (previous_tick = Some (int_effective_tick i)) then expected_ordinal else 0 in
      if negb (int_ordinal i =? expected) then Err IntError.NonContiguousOrdinal
      else contiguous_from (Some (int_effective_tick i)) (expected + 1) rest
  end.

Definition validate_contiguous_ordinals : list InterventionV1 -> IntResult unit := contiguous_from None 0.

Definition validate_unique_ids (interventions : list InterventionV1) : IntResult unit :=
  if all_inserted ∅ (int_intervention_id <$> interventions) then Ok tt else Err IntError.DuplicateIdentity.

Definition validate_plan_interventions_v1 (interventions : list InterventionV1) : IntResult unit :=
  if (len interventions =? 0) || (MAX_INTERVENTIONS_PER_PLAN_V1 <? len interventions)
  then Err IntError.FieldOutOfBounds else
  let? _ := try_collect intervention_validate interventions in
  if negb (windows_sorted (fun a b => ltb (int_order_key a) (int_order_key b)) interventions)
  then Err IntError.NonCanonicalOrder else
  let? _ := validate_contiguous_ordinals interventions in
  validate_unique_ids interventions.

(** ** The codec, exactly *)

Definition intervention_typed (i : InterventionV1) : Prop :=
  u32_ok (int_target_schema_id i) /\ u64_ok (int_effective_tick i) /\ u32_ok (int_ordinal i)
  /\ u64_ok (int_consent_epoch i).

Lemma reads_operation fallback :
  reads (read_enum OPERATIONS fallback) (fun a => [wire_uint (operation_code a)]) any.
Proof. apply reads_enum, _. Qed.
#[local] Hint Resolve reads_operation : cf_fields.

Lemma reads_intervention : reads intervention_fields intervention_values intervention_typed.
Proof. unfold intervention_typed. exact_record. by destruct a. Qed.

Lemma decode_intervention_exact v i :
  decode_intervention v = Ok i <-> v = encode_intervention i /\ intervention_typed i.
Proof.
  unfold decode_intervention. rewrite <- (run_header_exact _ _ _ reads_intervention v INTERVENTION_FIELD_COUNT
    INTERVENTION_MAGIC_V1 1 i) by done. rewrite <- run_reader_at. destruct (run_reader _ _); cbn; naive_solver.
Qed.

Lemma intervention_canonical `{Ciborium} bytes i :
  intervention_from_canonical_cbor bytes = Ok i -> intervention_to_canonical_cbor i = Ok bytes.
Proof.
  unfold intervention_from_canonical_cbor, intervention_to_canonical_cbor, wire_encode. intros Hd. ok_inv.
  apply decode_intervention_exact in Hm0 as [-> _]. apply wire_decode_ok in Hm as [-> _]. by rewrite Hm1.
Qed.

(** * Input dependencies

    [crates/pos-conformance/src/counterfactual/dependency.rs]: IDP1 edges from a
    source node to a consumer node, their order and the order of edge lists. *)

Definition INPUT_DEPENDENCY_MAGIC_V1 : RString := lit "IDP1".
Definition MAX_INPUT_DEPENDENCY_BYTES_V1 : Z := 16 * 1024.
Definition MAX_DEPENDENCY_OWNER_ID_BYTES_V1 : Z := 128.
Definition DEPENDENCY_FIELD_COUNT : nat := 9.
Definition DEPENDENCY_LIMITS : CborLimits := MkLimits MAX_INPUT_DEPENDENCY_BYTES_V1 2 9 false.
Definition MAX_RULE_ID_BYTES : Z := 128.
Definition DEPENDENCY_DIGEST_DOMAIN_V1 : list byte := list_byte_of_string "PiglorOS.InputDependency.v1".

Inductive DependencyClassV1 :=
| ExogenousFrozen | InterventionAssigned | EndogenousRecomputed | FixedPolicy | PresentationOnly.
#[export] Instance class_eq_dec : EqDecision DependencyClassV1.
Proof. solve_decision. Defined.

Definition CLASSES_V1 : list DependencyClassV1 :=
  [ExogenousFrozen; InterventionAssigned; EndogenousRecomputed; FixedPolicy; PresentationOnly].
Definition class_code (c : DependencyClassV1) : Z :=
  match c with
  | ExogenousFrozen => 0 | InterventionAssigned => 1 | EndogenousRecomputed => 2
  | FixedPolicy => 3 | PresentationOnly => 4
  end.
Definition class_from_code (code : Z) : option DependencyClassV1 := CLASSES_V1 !! Z.to_nat code.
#[export] Instance class_codes : WireCodes CLASSES_V1 class_code.
Proof. split; [by intros []|]. repeat constructor; set_solver. Qed.

(** ** Coordinates *)

Definition coordinate_key (n : DependencyNodeV1) : Z * (Z * (RString * Z)) :=
  (nd_tick n, (nd_scheduler_position n, (nd_owner_id n, nd_output_ordinal n))).

Definition is_valid_coordinate (n : DependencyNodeV1) : bool :=
  negb (is_empty (nd_owner_id n)) && (str_len (nd_owner_id n) <=? MAX_DEPENDENCY_OWNER_ID_BYTES_V1)
  && negb (nd_schema_id n =? 0) && nonzero (nd_artifact_digest n).

(** ** Records *)

Module DepError.
Inductive InputDependencyContractErrorV1 :=
| InvalidEncoding | UnsupportedVersion | FieldOutOfBounds | UnknownEnum | NonCanonicalOrder | DuplicateIdentity.
End DepError.

Notation DepResult := (result DepError.InputDependencyContractErrorV1).

Record DependencyTickRangeV1 := MkTickRange { first_tick_of : Z; last_tick_of : Z }.
Record DependencyClassificationRuleV1 := MkRule { rule_id : RString; rule_version : Z }.

Record InputDependencyV1 := MkDependency {
  dep_consumer : DependencyNodeV1;
  dep_source : DependencyNodeV1;
  dep_class : DependencyClassV1;
  dep_tick_range : DependencyTickRangeV1;
  dep_authorization_digest : Hash;
  dep_classification_rule : DependencyClassificationRuleV1;
  dep_provenance_digest : Hash;
}.

(** The evidence of a proof ([lib.rs]). *)
Record EvidenceDependencyV1 := MkEvidenceDependency {
  ed_consumer : DependencyNodeV1;
  ed_source : DependencyNodeV1;
  ed_class : DependencyClassV1;
  ed_authorization_digest : Hash;
  ed_provenance_digest : Hash;
}.

Definition range_covers (r : DependencyTickRangeV1) (source_tick consumer_tick : Z) : bool :=
  (first_tick_of r <=? source_tick) && (consumer_tick <=? last_tick_of r).

Definition valid_rule (r : DependencyClassificationRuleV1) : bool :=
  identifier (rule_id r) MAX_RULE_ID_BYTES && negb (rule_version r =? 0).

Definition dependency_validate (d : InputDependencyV1) : DepResult unit :=
  if negb (is_valid_coordinate (dep_consumer d)) || negb (is_valid_coordinate (dep_source d))
     || negb (range_covers (dep_tick_range d) (nd_tick (dep_source d)) (nd_tick (dep_consumer d)))
     || negb (nonzero (dep_authorization_digest d)) || negb (valid_rule (dep_classification_rule d))
     || negb (nonzero (dep_provenance_digest d))
  then Err DepError.FieldOutOfBounds
  else if ltb (coordinate_key (dep_source d)) (coordinate_key (dep_consumer d)) then Ok tt
  else Err DepError.NonCanonicalOrder.

Definition dependency_from_proof_evidence_v1 (evidence : EvidenceDependencyV1)
    (classification_rule : DependencyClassificationRuleV1) : DepResult InputDependencyV1 :=
  let dependency := MkDependency (ed_consumer evidence) (ed_source evidence) (ed_class evidence)
    (MkTickRange (nd_tick (ed_source evidence)) (nd_tick (ed_consumer evidence)))
    (ed_authorization_digest evidence) classification_rule (ed_provenance_digest evidence) in
  let? _ := dependency_validate dependency in Ok dependency.

Definition tick_range_values (r : DependencyTickRangeV1) : list Value :=
  [wire_uint (first_tick_of r); wire_uint (last_tick_of r)].
Definition rule_values (r : DependencyClassificationRuleV1) : list Value :=
  [wire_text (rule_id r); wire_uint (rule_version r)].

Definition dependency_values (d : InputDependencyV1) : list Value :=
  [node_value (dep_consumer d); node_value (dep_source d); wire_uint (class_code (dep_class d));
   VArray (tick_range_values (dep_tick_range d)); wire_bytes (dep_authorization_digest d);
   VArray (rule_values (dep_classification_rule d)); wire_bytes (dep_provenance_digest d)].

Definition encode_dependency (d : InputDependencyV1) : Value :=
  VArray (wire_text INPUT_DEPENDENCY_MAGIC_V1 :: wire_uint 1 :: dependency_values d).

Definition dep_contract_error (error : WireError) : DepError.InputDependencyContractErrorV1 :=
  match error with
  | WInvalidEncoding => DepError.InvalidEncoding
  | WFieldOutOfBounds => DepError.FieldOutOfBounds
  | WUnsupportedVersion => DepError.UnsupportedVersion
  | WUnknownEnum => DepError.UnknownEnum
  end.

Definition tick_range_fields : Fields DependencyTickRangeV1 :=
  let& first_tick := read_u64 in
  let& last_tick := read_u64 in
  rd_ret (MkTickRange first_tick last_tick).
Definition tick_range_field (value : Value) : Wire DependencyTickRangeV1 :=
  run_reader (reader_new value 2) tick_range_fields.

Definition rule_fields : Fields DependencyClassificationRuleV1 :=
  let& rule_id := read_text in
  let& rule_version := read_u32 in
  rd_ret (MkRule rule_id rule_version).
Definition rule_field (value : Value) : Wire DependencyClassificationRuleV1 :=
  run_reader (reader_new value 2) rule_fields.

Definition dependency_fields : Fields InputDependencyV1 :=
  let& consumer := read_node in
  let& source := read_node in
  let& dependency_class := read_enum CLASSES_V1 ExogenousFrozen in
  let& tick_range := read_with tick_range_field (MkTickRange 0 0) in
  let& authorization_digest := read_hash in
  let& classification_rule := read_with rule_field (MkRule empty_string 0) in
  let& provenance_digest := read_hash in
  rd_ret (MkDependency consumer source dependency_class tick_range authorization_digest
    classification_rule provenance_digest).

Definition decode_dependency (value : Value) : DepResult InputDependencyV1 :=
  map_err dep_contract_error
    (run_reader (with_header value DEPENDENCY_FIELD_COUNT INPUT_DEPENDENCY_MAGIC_V1 1) dependency_fields).

Section Codec.
Context `{Ciborium}.

Definition dependency_to_canonical_cbor (d : InputDependencyV1) : DepResult (list byte) :=
  let? _ := dependency_validate d in
  map_err dep_contract_error (wire_encode (encode_dependency d)).

Definition dependency_from_canonical_cbor (bytes : list byte) : DepResult InputDependencyV1 :=
  let? value := map_err dep_contract_error (wire_decode bytes DEPENDENCY_LIMITS) in
  let? dependency := decode_dependency value in
  let? _ := dependency_validate dependency in
  Ok dependency.

Definition dependency_digest `{Blake3} (d : InputDependencyV1) : DepResult Hash :=
  let? bytes := dependency_to_canonical_cbor d in
  Ok (separated_digest DEPENDENCY_DIGEST_DOMAIN_V1 bytes).
End Codec.

(** ** Edge lists *)

Definition edge_order_key (d : InputDependencyV1) : Z * (Z * (RString * (Z * Hash))) :=
  (nd_tick (dep_consumer d), (nd_scheduler_position (dep_consumer d), (nd_owner_id (dep_consumer d),
    (nd_output_ordinal (dep_consumer d), nd_artifact_digest (dep_source d))))).

Definition order_cmp (a b : InputDependencyV1) : comparison := cmp (edge_order_key a) (edge_order_key b).

Definition validate_input_dependency_list_order_v1 (dependencies : list InputDependencyV1) : DepResult unit :=
  ascending order_cmp DepError.DuplicateIdentity DepError.NonCanonicalOrder dependencies.

Definition validate_input_dependency_order_v1 (dependencies : list InputDependencyV1) : DepResult unit :=
  let? _ := try_collect dependency_validate dependencies in
  validate_input_dependency_list_order_v1 dependencies.

(** ** The codec, exactly *)

Definition range_typed (r : DependencyTickRangeV1) : Prop := u64_ok (first_tick_of r) /\ u64_ok (last_tick_of r).
Definition rule_typed (r : DependencyClassificationRuleV1) : Prop := u32_ok (rule_version r).
Definition dependency_typed (d : InputDependencyV1) : Prop :=
  node_typed (dep_consumer d) /\ node_typed (dep_source d) /\ range_typed (dep_tick_range d)
  /\ rule_typed (dep_classification_rule d).

Lemma reads_class fallback : reads (read_enum CLASSES_V1 fallback) (fun a => [wire_uint (class_code a)]) any.
Proof. apply reads_enum, _. Qed.

(** A field read by a nested record of its own. *)
Lemma reads_sub {A} (m : Fields A) n fallback enc (P : A -> Prop) :
  reads m enc P -> (forall a, length (enc a) = n) ->
  reads (read_with (fun v => run_reader (reader_new v n) m) fallback) (fun a => [VArray (enc a)]) P.
Proof.
  intros Hm Hn. apply (reads_with _ _ (fun a => VArray (enc a))). intros v a. rewrite run_reader_at.
  by apply run_new_exact.
Qed.

Lemma reads_tick_range_fields : reads tick_range_fields tick_range_values range_typed.
Proof. unfold range_typed. exact_record. by destruct a. Qed.
Lemma reads_rule_fields : reads rule_fields rule_values rule_typed.
Proof. unfold rule_typed. exact_record. by destruct a. Qed.
Lemma reads_tick_range fallback :
  reads (read_with tick_range_field fallback) (fun a => [VArray (tick_range_values a)]) range_typed.
Proof. by apply reads_sub; [apply reads_tick_range_fields|]. Qed.
Lemma reads_rule fallback : reads (read_with rule_field fallback) (fun a => [VArray (rule_values a)]) rule_typed.
Proof. by apply reads_sub; [apply reads_rule_fields|]. Qed.
#[local] Hint Resolve reads_class reads_tick_range reads_rule : cf_fields.

Lemma reads_dependency : reads dependency_fields dependency_values dependency_typed.
Proof. unfold dependency_typed. exact_record. by destruct a. Qed.

Lemma decode_dependency_exact v d :
  decode_dependency v = Ok d <-> v = encode_dependency d /\ dependency_typed d.
Proof.
  unfold decode_dependency. rewrite <- (run_header_exact _ _ _ reads_dependency v DEPENDENCY_FIELD_COUNT
    INPUT_DEPENDENCY_MAGIC_V1 1 d) by done. rewrite <- run_reader_at. destruct (run_reader _ _); cbn; naive_solver.
Qed.

Lemma dependency_canonical `{Ciborium} bytes d :
  dependency_from_canonical_cbor bytes = Ok d -> dependency_to_canonical_cbor d = Ok bytes.
Proof.
  unfold dependency_from_canonical_cbor, dependency_to_canonical_cbor, wire_encode. intros Hd. ok_inv.
  apply decode_dependency_exact in Hm0 as [-> _]. apply wire_decode_ok in Hm as [-> _]. by rewrite Hm1.
Qed.

(** A valid edge goes forward: its source is strictly before its consumer. *)
Lemma dependency_validate_ok d :
  dependency_validate d = Ok tt ->
  is_valid_coordinate (dep_consumer d) = true /\ is_valid_coordinate (dep_source d) = true
  /\ ltb (coordinate_key (dep_source d)) (coordinate_key (dep_consumer d)) = true
  /\ nd_tick (dep_consumer d) <= last_tick_of (dep_tick_range d).
Proof.
  unfold dependency_validate, range_covers. intros Hv.
  destruct (_ || _) eqn:Hb; [done|]. bool_props. by destruct (ltb _ _).
Qed.
