(* ===== verification/CounterfactualPlan.v ===== *)
(** * Counterfactual plans

    [crates/pos-conformance/src/counterfactual/plan.rs]: the CFP1 plan, sealed by
    its digest, its validation and its codec.

    The constructor from an execution profile is left out: EPF1 records are not
    modelled. *)

From Stdlib Require Import String ZArith Lia Bool Sorted.
From S2P Require Import Prelude Text Ordering Cbor FallbackRecords StrictCbor PluginTrust WireSyntax TrustPolicy CfCodec.
From S2P Require Import CounterfactualInputs.

Local Open Scope Z_scope.

Definition COUNTERFACTUAL_PLAN_MAGIC_V1 : RString := lit "CFP1".
Definition MAX_COUNTERFACTUAL_PLAN_BYTES_V1 : Z := 16 * 1024 * 1024.
Definition MAX_EXOGENOUS_DESCRIPTORS_PER_PLAN_V1 : Z := 65536.
Definition MAX_FIXED_POLICY_DESCRIPTORS_PER_PLAN_V1 : Z := 4096.
Definition PLAN_FIELD_COUNT : nat := 26.
Definition DESCRIPTOR_FIELD_COUNT : nat := 4.
Definition PLAN_LIMITS : CborLimits := MkLimits MAX_COUNTERFACTUAL_PLAN_BYTES_V1 3 65536 true.
Definition PLAN_DIGEST_DOMAIN_V1 : list byte := list_byte_of_string "PiglorOS.CounterfactualPlan.v1".

Module PlanError.
Inductive CounterfactualPlanContractErrorV1 :=
| InvalidEncoding | UnsupportedVersion | FieldOutOfBounds | UnknownEnum | NonCanonicalOrder
| DuplicateIdentity | InterventionBeforeCut
| Intervention (error : IntError.InterventionContractErrorV1)
| DigestMismatch.
End PlanError.

Notation PlanResult := (result PlanError.CounterfactualPlanContractErrorV1).

Inductive UnknownEdgePolicyV1 := Reject | FullSuffixFromCut.
#[export] Instance policy_eq_dec : EqDecision UnknownEdgePolicyV1.
Proof. solve_decision. Defined.
Definition POLICIES_V1 : list UnknownEdgePolicyV1 := [Reject; FullSuffixFromCut].
Definition policy_code (p : UnknownEdgePolicyV1) : Z := match p with Reject => 0 | FullSuffixFromCut => 1 end.
#[export] Instance policy_codes : WireCodes POLICIES_V1 policy_code.
Proof. split; [by intros []|]. repeat constructor; set_solver. Qed.

Inductive ReplayClaimV1 :=
| Exact | ExactAuthoritativeWithRedactedViews | StructuralOnly | UnverifiableArtifactsMissing | IncompatibleProfile.
#[export] Instance claim_eq_dec : EqDecision ReplayClaimV1.
Proof. solve_decision. Defined.
Definition REPLAY_CLAIMS : list ReplayClaimV1 :=
  [Exact; ExactAuthoritativeWithRedactedViews; StructuralOnly; UnverifiableArtifactsMissing; IncompatibleProfile].
Definition replay_claim_code (c : ReplayClaimV1) : Z :=
  match c with
  | Exact => 0 | ExactAuthoritativeWithRedactedViews => 1 | StructuralOnly => 2
  | UnverifiableArtifactsMissing => 3 | IncompatibleProfile => 4
  end.
#[export] Instance claim_codes : WireCodes REPLAY_CLAIMS replay_claim_code.
Proof. split; [by intros []|]. repeat constructor; set_solver. Qed.

Record FrozenArtifactDescriptorV1 := MkDescriptor {
  fd_schema_id : Z;
  fd_artifact_digest : Hash;
  fd_authorization_digest : Hash;
  fd_provenance_digest : Hash;
}.
Record PlanExecutionProfileRefV1 := MkProfileRef {
  ep_profile_id : RString;
  ep_semantic_version : RString;
  ep_profile_digest : Hash;
}.
Record PlanTrustPolicyRefV1 := MkPolicyRef {
  tp_policy_id : RString;
  tp_epoch : Z;
  tp_snapshot_digest : Hash;
}.

Definition from_trust_policy_snapshot_v1 `{Ciborium} `{Blake3} (snapshot : TrustPolicySnapshotV1)
    : TpsResult PlanTrustPolicyRefV1 :=
  let? digest := snapshot_digest snapshot in
  Ok (MkPolicyRef (policy_id snapshot) (epoch snapshot) digest).

Record CounterfactualPlanV1 := MkPlan {
  pl_plan_id : Ulid;
  pl_room_id : RString;
  pl_room_digest : Hash;
  pl_parent_timeline_id : Ulid;
  pl_parent_cut_seq : Z;
  pl_parent_cut_tick : Z;
  pl_parent_cut_digest : Hash;
  pl_first_tick : Z;
  pl_horizon_tick : Z;
  pl_interventions : list InterventionV1;
  pl_exogenous_descriptors : list FrozenArtifactDescriptorV1;
  pl_fixed_policy_descriptors : list FrozenArtifactDescriptorV1;
  pl_classification_bundle_digest : Hash;
  pl_unknown_edge_policy : UnknownEdgePolicyV1;
  pl_execution_profile : PlanExecutionProfileRefV1;
  pl_trust_policy : PlanTrustPolicyRefV1;
  pl_plugin_composition_digest : Hash;
  pl_scheduler_digest : Hash;
  pl_numeric_profile_digest : Hash;
  pl_budget_digest : Hash;
  pl_failure_policy_digest : Hash;
  pl_replay_claim : ReplayClaimV1;
  pl_previous_plan_digest : option Hash;
  pl_plan_digest : Hash;
}.

(** ** Bounds *)

Definition has_drive_letter_prefix (bytes : list byte) : bool :=
  match bytes with
  | letter :: colon :: _ =>
      bool_decide (colon = ":"%byte) && (ascii_lower letter || in_range 0x41 0x5A letter)
  | _ => false
  end.

Definition plan_identifier (value : RString) : bool :=
  let bytes := as_bytes value in
  negb (is_empty value) && (str_len value <=? MAX_IDENTIFIER_BYTES) && negb (any_control bytes)
  && negb (bool_decide (head bytes = Some "/"%byte) || bool_decide (head bytes = Some "~"%byte))
  && negb (has_drive_letter_prefix bytes) && negb (contains "\"%byte bytes)
  && negb (existsb (fun component => bool_decide (component = ["."%byte])
                     || bool_decide (component = ["."; "."]%byte)) (split_on "/" bytes)).

Definition valid_identities (p : CounterfactualPlanV1) : bool :=
  plan_identifier (pl_room_id p) && plan_identifier (ep_profile_id (pl_execution_profile p))
  && semantic_version (ep_semantic_version (pl_execution_profile p)) MAX_SEMANTIC_VERSION_BYTES None
  && plan_identifier (tp_policy_id (pl_trust_policy p)) && negb (tp_epoch (pl_trust_policy p) =? 0).

Definition nonzero_digests (p : CounterfactualPlanV1) : bool :=
  nonzero (pl_plan_id p) && nonzero (pl_parent_timeline_id p)
  && forallb nonzero
       [pl_room_digest p; pl_parent_cut_digest p; pl_classification_bundle_digest p;
        ep_profile_digest (pl_execution_profile p); tp_snapshot_digest (pl_trust_policy p);
        pl_plugin_composition_digest p; pl_scheduler_digest p; pl_numeric_profile_digest p;
        pl_budget_digest p; pl_failure_policy_digest p]
  && match pl_previous_plan_digest p with Some digest => nonzero digest | None => true end.

Definition valid_descriptor (d : FrozenArtifactDescriptorV1) : bool :=
  negb (fd_schema_id d =? 0) && nonzero (fd_artifact_digest d) && nonzero (fd_authorization_digest d)
  && nonzero (fd_provenance_digest d).

Definition valid_tick_range (p : CounterfactualPlanV1) : bool :=
  bool_decide (checked_add (pl_parent_cut_tick p) 1 = Some (pl_first_tick p))
  && (pl_first_tick p <=? pl_horizon_tick p).

Definition valid_descriptor_counts (p : CounterfactualPlanV1) : bool :=
  (len (pl_exogenous_descriptors p) <=? MAX_EXOGENOUS_DESCRIPTORS_PER_PLAN_V1)
  && (len (pl_fixed_policy_descriptors p) <=? MAX_FIXED_POLICY_DESCRIPTORS_PER_PLAN_V1).

Definition validate_bounds (p : CounterfactualPlanV1) : PlanResult unit :=
  if valid_identities p && nonzero_digests p && valid_tick_range p && valid_descriptor_counts p
     && forallb valid_descriptor (pl_exogenous_descriptors p ++ pl_fixed_policy_descriptors p)
     && negb (bool_decide (pl_previous_plan_digest p = Some (pl_plan_digest p)))
  then Ok tt else Err PlanError.FieldOutOfBounds.

Definition validate_intervention_window (p : CounterfactualPlanV1) : PlanResult unit :=
  if existsb (fun i => int_effective_tick i <? pl_first_tick p) (pl_interventions p)
  then Err PlanError.InterventionBeforeCut
  else if existsb (fun i => pl_horizon_tick p <? int_effective_tick i) (pl_interventions p)
  then Err PlanError.FieldOutOfBounds
  else Ok tt.

Definition descriptor_key (d : FrozenArtifactDescriptorV1) : Z * Hash := (fd_schema_id d, fd_artifact_digest d).

Definition validate_descriptor_order (descriptors : list FrozenArtifactDescriptorV1) : PlanResult unit :=
  ascending (fun a b => cmp (descriptor_key a) (descriptor_key b))
    PlanError.DuplicateIdentity PlanError.NonCanonicalOrder descriptors.

Definition validate_descriptors (p : CounterfactualPlanV1) : PlanResult unit :=
  let? _ := validate_descriptor_order (pl_exogenous_descriptors p) in
  let? _ := validate_descriptor_order (pl_fixed_policy_descriptors p) in
  let exogenous : gset (Z * Hash) := list_to_set (descriptor_key <$> pl_exogenous_descriptors p) in
  if existsb (fun d => bool_decide (descriptor_key d ∈ exogenous)) (pl_fixed_policy_descriptors p)
  then Err PlanError.DuplicateIdentity else Ok tt.

(** ** The record *)

Definition descriptor_values (d : FrozenArtifactDescriptorV1) : list Value :=
  [wire_uint (fd_schema_id d); wire_bytes (fd_artifact_digest d); wire_bytes (fd_authorization_digest d);
   wire_bytes (fd_provenance_digest d)].
Definition encode_descriptor (d : FrozenArtifactDescriptorV1) : Value := VArray (descriptor_values d).
Definition profile_ref_values (r : PlanExecutionProfileRefV1) : list Value :=
  [wire_text (ep_profile_id r); wire_text (ep_semantic_version r); wire_bytes (ep_profile_digest r)].
Definition policy_ref_values (r : PlanTrustPolicyRefV1) : list Value :=
  [wire_text (tp_policy_id r); wire_uint (tp_epoch r); wire_bytes (tp_snapshot_digest r)].

(** Fields 2 to 24, with the Interventions as their own canonical bytes. *)
Definition plan_values (p : CounterfactualPlanV1) (interventions : list (list byte)) : list Value :=
  [wire_bytes (pl_plan_id p); wire_text (pl_room_id p); wire_bytes (pl_room_digest p);
   wire_bytes (pl_parent_timeline_id p); wire_uint (pl_parent_cut_seq p); wire_uint (pl_parent_cut_tick p);
   wire_bytes (pl_parent_cut_digest p); wire_uint (pl_first_tick p); wire_uint (pl_horizon_tick p);
   VArray (VBytes <$> interventions); VArray (encode_descriptor <$> pl_exogenous_descriptors p);
   VArray (encode_descriptor <$> pl_fixed_policy_descriptors p);
   wire_bytes (pl_classification_bundle_digest p); wire_uint (policy_code (pl_unknown_edge_policy p));
   VArray (profile_ref_values (pl_execution_profile p)); VArray (policy_ref_values (pl_trust_policy p));
   wire_bytes (pl_plugin_composition_digest p); wire_bytes (pl_scheduler_digest p);
   wire_bytes (pl_numeric_profile_digest p); wire_bytes (pl_budget_digest p);
   wire_bytes (pl_failure_policy_digest p); wire_uint (replay_claim_code (pl_replay_claim p));
   wire_optional (pl_previous_plan_digest p)].

Definition plan_contract_error (error : WireError) : PlanError.CounterfactualPlanContractErrorV1 :=
  match error with
  | WInvalidEncoding => PlanError.InvalidEncoding
  | WFieldOutOfBounds => PlanError.FieldOutOfBounds
  | WUnsupportedVersion => PlanError.UnsupportedVersion
  | WUnknownEnum => PlanError.UnknownEnum
  end.

Section Seal.
Context `{Ciborium} `{Blake3}.

Definition body_fields (p : CounterfactualPlanV1) : PlanResult (list Value) :=
  let? interventions := map_err PlanError.Intervention
    (try_collect intervention_to_canonical_cbor (pl_interventions p)) in
  Ok (wire_text COUNTERFACTUAL_PLAN_MAGIC_V1 :: wire_uint 1 :: plan_values p interventions).

Definition digested_body_fields (p : CounterfactualPlanV1) : PlanResult (list Value * Hash) :=
  let? fields := body_fields p in
  let? unsigned := map_err plan_contract_error (wire_encode (VArray fields)) in
  Ok (fields, separated_digest PLAN_DIGEST_DOMAIN_V1 unsigned).

Definition validated_body_fields (p : CounterfactualPlanV1) : PlanResult (list Value) :=
  let? _ := validate_bounds p in
  let? _ := map_err PlanError.Intervention (validate_plan_interventions_v1 (pl_interventions p)) in
  let? _ := validate_intervention_window p in
  let? _ := validate_descriptors p in
  let? (fields, digest) := digested_body_fields p in
  if bool_decide (digest = pl_plan_digest p) then Ok fields else Err PlanError.DigestMismatch.

Definition plan_validate (p : CounterfactualPlanV1) : PlanResult unit :=
  let? _ := validated_body_fields p in Ok tt.

Definition plan_to_canonical_cbor (p : CounterfactualPlanV1) : PlanResult (list byte) :=
  let? fields := validated_body_fields p in
  map_err plan_contract_error (wire_encode (VArray (fields ++ [wire_bytes (pl_plan_digest p)]))).

Definition plan_digest (p : CounterfactualPlanV1) : PlanResult Hash :=
  let? (fields, digest) := digested_body_fields p in Ok digest.

(** ** Decoding *)

Definition descriptor_fields : Fields FrozenArtifactDescriptorV1 :=
  let& schema_id := read_u32 in
  let& artifact_digest := read_hash in
  let& authorization_digest := read_hash in
  let& provenance_digest := read_hash in
  rd_ret (MkDescriptor schema_id artifact_digest authorization_digest provenance_digest).
Definition descriptor_field (value : Value) : Wire FrozenArtifactDescriptorV1 :=
  run_reader (reader_new value DESCRIPTOR_FIELD_COUNT) descriptor_fields.
Definition profile_ref_fields : Fields PlanExecutionProfileRefV1 :=
  let& profile_id := read_text in
  let& semantic_version := read_text in
  let& profile_digest := read_hash in
  rd_ret (MkProfileRef profile_id semantic_version profile_digest).
Definition policy_ref_fields : Fields PlanTrustPolicyRefV1 :=
  let& policy_id := read_text in
  let& epoch := read_u64 in
  let& snapshot_digest := read_hash in
  rd_ret (MkPolicyRef policy_id epoch snapshot_digest).

(** The plan without its Interventions, and their bytes. *)
Definition plan_fields : Fields (CounterfactualPlanV1 * list (list byte)) :=
  let& plan_id := read_ulid in
  let& room_id := read_text in
  let& room_digest := read_hash in
  let& parent_timeline_id := read_ulid in
  let& parent_cut_seq := read_u64 in
  let& parent_cut_tick := read_u64 in
  let& parent_cut_digest := read_hash in
  let& first_tick := read_u64 in
  let& horizon_tick := read_u64 in
  let& interventions := read_byte_string_list in
  let& exogenous_descriptors := read_list descriptor_field in
  let& fixed_policy_descriptors := read_list descriptor_field in
  let& classification_bundle_digest := read_hash in
  let& unknown_edge_policy := read_enum POLICIES_V1 Reject in
  let& execution_profile := read_nested 3 profile_ref_fields in
  let& trust_policy := read_nested 3 policy_ref_fields in
  let& plugin_composition_digest := read_hash in
  let& scheduler_digest := read_hash in
  let& numeric_profile_digest := read_hash in
  let& budget_digest := read_hash in
  let& failure_policy_digest := read_hash in
  let& replay_claim := read_enum REPLAY_CLAIMS Exact in
  let& previous_plan_digest := read_optional_hash in
  let& plan_digest := read_hash in
  rd_ret (MkPlan plan_id room_id room_digest parent_timeline_id parent_cut_seq parent_cut_tick
    parent_cut_digest first_tick horizon_tick [] exogenous_descriptors fixed_policy_descriptors
    classification_bundle_digest unknown_edge_policy execution_profile trust_policy
    plugin_composition_digest scheduler_digest numeric_profile_digest budget_digest
    failure_policy_digest replay_claim previous_plan_digest plan_digest, interventions).

Definition with_interventions (interventions : list InterventionV1) (p : CounterfactualPlanV1)
    : CounterfactualPlanV1 :=
  MkPlan (pl_plan_id p) (pl_room_id p) (pl_room_digest p) (pl_parent_timeline_id p) (pl_parent_cut_seq p)
    (pl_parent_cut_tick p) (pl_parent_cut_digest p) (pl_first_tick p) (pl_horizon_tick p) interventions
    (pl_exogenous_descriptors p) (pl_fixed_policy_descriptors p) (pl_classification_bundle_digest p)
    (pl_unknown_edge_policy p) (pl_execution_profile p) (pl_trust_policy p)
    (pl_plugin_composition_digest p) (pl_scheduler_digest p) (pl_numeric_profile_digest p)
    (pl_budget_digest p) (pl_failure_policy_digest p) (pl_replay_claim p) (pl_previous_plan_digest p)
    (pl_plan_digest p).

Definition decode_plan (value : Value) : PlanResult CounterfactualPlanV1 :=
  let? (plan, records) := map_err plan_contract_error
    (run_reader (with_header value PLAN_FIELD_COUNT COUNTERFACTUAL_PLAN_MAGIC_V1 1) plan_fields) in
  let? interventions := map_err PlanError.Intervention (try_collect intervention_from_canonical_cbor records) in
  Ok (with_interventions interventions plan).

Definition plan_from_canonical_cbor (bytes : list byte) : PlanResult CounterfactualPlanV1 :=
  let? value := map_err plan_contract_error (wire_decode bytes PLAN_LIMITS) in
  let? plan := decode_plan value in
  let? _ := plan_validate plan in
  Ok plan.
End Seal.

(** ** The codec, exactly *)

Definition descriptor_typed (d : FrozenArtifactDescriptorV1) : Prop := u32_ok (fd_schema_id d).
Definition policy_ref_typed (r : PlanTrustPolicyRefV1) : Prop := u64_ok (tp_epoch r).

Definition plan_typed (p : CounterfactualPlanV1) : Prop :=
  u64_ok (pl_parent_cut_seq p) /\ u64_ok (pl_parent_cut_tick p) /\ u64_ok (pl_first_tick p)
  /\ u64_ok (pl_horizon_tick p) /\ Forall descriptor_typed (pl_exogenous_descriptors p)
  /\ Forall descriptor_typed (pl_fixed_policy_descriptors p) /\ policy_ref_typed (pl_trust_policy p).

Lemma reads_policy fallback : reads (read_enum POLICIES_V1 fallback) (fun a => [wire_uint (policy_code a)]) any.
Proof. apply reads_enum, _. Qed.
Lemma reads_claim fallback :
  reads (read_enum REPLAY_CLAIMS fallback) (fun a => [wire_uint (replay_claim_code a)]) any.
Proof. apply reads_enum, _. Qed.
Lemma reads_descriptor_fields : reads descriptor_fields descriptor_values descriptor_typed.
Proof. unfold descriptor_typed. exact_record. by destruct a. Qed.
Lemma descriptor_field_exact v d : descriptor_field v = Ok d <-> v = encode_descriptor d /\ descriptor_typed d.
Proof. unfold descriptor_field. rewrite run_reader_at. by apply run_new_exact; [apply reads_descriptor_fields|]. Qed.
Lemma reads_descriptors :
  reads (read_list descriptor_field) (fun l => [VArray (encode_descriptor <$> l)]) (Forall descriptor_typed).
Proof. apply reads_value_list, descriptor_field_exact. Qed.
Lemma reads_profile_ref_fields : reads profile_ref_fields profile_ref_values any.
Proof. unfold any. exact_record. by destruct a. Qed.
Lemma reads_policy_ref_fields : reads policy_ref_fields policy_ref_values policy_ref_typed.
Proof. unfold policy_ref_typed. exact_record. by destruct a. Qed.
Lemma reads_profile_ref : reads (read_nested 3 profile_ref_fields) (fun a => [VArray (profile_ref_values a)]) any.
Proof. by apply reads_nested; [apply reads_profile_ref_fields|]. Qed.
Lemma reads_policy_ref :
  reads (read_nested 3 policy_ref_fields) (fun a => [VArray (policy_ref_values a)]) policy_ref_typed.
Proof. by apply reads_nested; [apply reads_policy_ref_fields|]. Qed.
#[export] Hint Resolve reads_policy reads_claim reads_descriptors reads_profile_ref reads_policy_ref : cf_fields.

Lemma reads_plan :
  reads plan_fields (fun x => plan_values x.1 x.2 ++ [wire_bytes (pl_plan_digest x.1)])
    (fun x => plan_typed x.1 /\ pl_interventions x.1 = []).
Proof. unfold plan_typed. exact_record. destruct a as [[] records]. cbn in *. by subst. Qed.

Section PlanCodec.
Context `{Ciborium} `{Blake3}.

Lemma collect_back {E A B} (f : A -> result E B) (g : B -> result E A) l l' :
  (forall a b, f a = Ok b -> g b = Ok a) -> try_collect f l = Ok l' -> try_collect g l' = Ok l.
Proof.
  intros Hf. revert l'. induction l as [|a l IH]; intros l'; cbn; intros Hl; ok_inv; [done|].
  cbn. rewrite (Hf _ _ Hm). cbn. by rewrite (IH _ Hm0).
Qed.

Lemma decode_plan_ok v p :
  decode_plan v = Ok p ->
  exists records, v = VArray (wire_text COUNTERFACTUAL_PLAN_MAGIC_V1 :: wire_uint 1
      :: plan_values p records ++ [wire_bytes (pl_plan_digest p)])
    /\ try_collect intervention_to_canonical_cbor (pl_interventions p) = Ok records
    /\ plan_typed p.
Proof.
  unfold decode_plan. intros Hd. apply rbind_ok_inv in Hd as ([p0 records] & Hm & Hd). ok_inv.
  apply run_reader_at, (run_header_exact _ _ _ reads_plan) in Hm as (-> & Ht & _); [|done..].
  exists records. split; [done|]. split; [|done]. cbn.
  eapply collect_back; [|exact Hm0]. intros. by apply intervention_canonical.
Qed.

Lemma validated_body p fields :
  validated_body_fields p = Ok fields -> exists unsigned,
    body_fields p = Ok fields /\ into_writer (VArray fields) = Some unsigned
    /\ pl_plan_digest p = separated_digest PLAN_DIGEST_DOMAIN_V1 unsigned.
Proof.
  unfold validated_body_fields, digested_body_fields, wire_encode. intros Hv.
  do 4 apply rbind_ok_inv in Hv as (? & _ & Hv). apply rbind_ok_inv in Hv as ([fs digest] & Hd & Hv).
  apply rbind_ok_inv in Hd as (fs' & Hb & Hd). apply rbind_ok_inv in Hd as (unsigned & Hw & Hd).
  apply map_err_ok_inv, ok_or_ok_inv in Hw. injection Hd as <- <-. cbn [fst snd] in Hv.
  case_bool_decide as He; [|done]. injection Hv as <-. by exists unsigned.
Qed.

(** Bytes that decode to a plan are what the plan encodes to. *)
Lemma plan_canonical bytes p : plan_from_canonical_cbor bytes = Ok p -> plan_to_canonical_cbor p = Ok bytes.
Proof.
  unfold plan_from_canonical_cbor, plan_to_canonical_cbor, plan_validate. intros Hd.
  apply rbind_ok_inv in Hd as (v & [Hw _]%map_err_ok_inv%wire_decode_ok & Hd).
  apply rbind_ok_inv in Hd as (p' & Hp & Hd). apply rbind_ok_inv in Hd as (? & Hv & [= ->]).
  apply rbind_ok_inv in Hv as (fields & Hv & _). rewrite Hv. cbn [rbind].
  apply decode_plan_ok in Hp as (records & -> & Hr & _). apply validated_body in Hv as (_ & Hb & _).
  unfold body_fields in Hb. rewrite Hr in Hb. injection Hb as <-.
  unfold wire_encode. rewrite <- !app_comm_cons. by rewrite Hw.
Qed.
End PlanCodec.

(** ** What a valid plan promises *)

Record plan_ok `{Ciborium} `{Blake3} (p : CounterfactualPlanV1) : Prop := {
  po_first : pl_first_tick p = pl_parent_cut_tick p + 1;
  po_horizon : pl_first_tick p <= pl_horizon_tick p;
  po_count : 1 <= len (pl_interventions p) <= MAX_INTERVENTIONS_PER_PLAN_V1;
  po_ids : NoDup (int_intervention_id <$> pl_interventions p);
  po_window : forall i, i ∈ pl_interventions p -> pl_first_tick p <= int_effective_tick i <= pl_horizon_tick p;
  po_exogenous : StronglySorted (fun a b => ltb (descriptor_key a) (descriptor_key b) = true) (pl_exogenous_descriptors p);
  po_fixed : StronglySorted (fun a b => ltb (descriptor_key a) (descriptor_key b) = true) (pl_fixed_policy_descriptors p);
  po_cut_digest : nonzero (pl_parent_cut_digest p) = true;
  po_bundle_digest : nonzero (pl_classification_bundle_digest p) = true;
  po_digest : plan_digest p = Ok (pl_plan_digest p);
}.

Lemma forallb_not_existsb {A} (f : A -> bool) l : existsb f l = false -> forall x, x ∈ l -> f x = false.
Proof.
  intros Hf x Hx. destruct (f x) eqn:He; [|done]. rewrite <- Hf. symmetry. apply existsb_exists.
  exists x. by rewrite <- list_elem_of_In.
Qed.

Lemma plan_interventions_ok l : validate_plan_interventions_v1 l = Ok tt ->
  1 <= len l <= MAX_INTERVENTIONS_PER_PLAN_V1 /\ NoDup (int_intervention_id <$> l).
Proof.
  unfold validate_plan_interventions_v1, validate_unique_ids. intros Hi.
  destruct (_ || _) eqn:Hb in Hi; [done|]. apply rbind_ok_inv in Hi as (? & _ & Hi).
  destruct (negb _) in Hi; [done|]. apply rbind_ok_inv in Hi as (? & _ & Hi).
  destruct (all_inserted _ _) eqn:Ha in Hi; [|done]. apply all_inserted_NoDup in Ha as [Ha _]. split; [|done].
  bool_props. pose proof (len_nonneg l). lia.
Qed.

Lemma plan_validate_ok `{Ciborium} `{Blake3} p : plan_validate p = Ok tt -> plan_ok p.
Proof.
  unfold plan_validate. intros Hv. apply rbind_ok_inv in Hv as (fields & Hv & _).
  pose proof (validated_body _ _ Hv) as (unsigned & Hbody & Hw & Hdig).
  unfold validated_body_fields in Hv. apply rbind_ok_inv in Hv as ([] & Hb & Hv).
  apply rbind_ok_inv in Hv as ([] & Hi%map_err_ok_inv & Hv). apply rbind_ok_inv in Hv as ([] & Hwin & Hv).
  apply rbind_ok_inv in Hv as ([] & Hd & _). apply plan_interventions_ok in Hi as [Hc Hids].
  unfold validate_bounds in Hb. destruct (_ && _) eqn:Hbb in Hb; [|done].
  unfold nonzero_digests, valid_tick_range in Hbb. cbn [forallb] in Hbb. bool_props.
  unfold validate_intervention_window in Hwin. destruct (existsb _ _) eqn:He1 in Hwin; [done|].
  destruct (existsb _ _) eqn:He2 in Hwin; [done|].
  unfold validate_descriptors, validate_descriptor_order in Hd.
  apply rbind_ok_inv in Hd as ([] & Hd1%ascending_sorted & Hd). apply rbind_ok_inv in Hd as ([] & Hd2%ascending_sorted & _).
  split; try done.
  - unfold checked_add in *. destruct (_ <=? U64_MAX); [|done]. by match goal with Hx : Some _ = Some _ |- _ => injection Hx as <- end.
  - intros i Hin. pose proof (forallb_not_existsb _ _ He1 i Hin). pose proof (forallb_not_existsb _ _ He2 i Hin).
    cbv beta in *. bool_props. lia.
  - unfold plan_digest, digested_body_fields, wire_encode. rewrite Hbody. cbn [rbind]. rewrite Hw. cbn [ok_or map_err rbind].
    by rewrite Hdig.
Qed.
