(* ===== verification/FrontierArtifacts.v ===== *)
(** * Frontier artifacts

    [crates/pos-conformance/src/counterfactual/frontier_artifacts.rs]: the RCF1
    recomputation frontier and the SIV1 suffix invalidation, their contracts, their
    codecs, and the names of their malformed fields. *)

From Stdlib Require Import String ZArith Lia Bool Sorted.
From S2P Require Import Prelude Text Ordering Cbor FallbackRecords StrictCbor PluginTrust WireSyntax TrustPolicy CfCodec.
From S2P Require Import CounterfactualInputs CounterfactualPlan.

Local Open Scope Z_scope.

Definition RECOMPUTATION_FRONTIER_MAGIC_V1 : RString := lit "RCF1".
Definition SUFFIX_INVALIDATION_MAGIC_V1 : RString := lit "SIV1".
Definition MAX_RECOMPUTATION_FRONTIER_BYTES_V1 : Z := 64 * 1024 * 1024.
Definition MAX_SUFFIX_INVALIDATION_BYTES_V1 : Z := 128 * 1024 * 1024.
Definition MAX_UNKNOWN_EDGE_COORDINATES_V1 : Z := 65536.
Definition MAX_CAUSE_DIGESTS_V1 : Z := 4096.
Definition FRONTIER_DIGEST_DOMAIN_V1 : list byte := list_byte_of_string "PiglorOS.RecomputationFrontier.v1".
Definition INVALIDATION_DIGEST_DOMAIN_V1 : list byte := list_byte_of_string "PiglorOS.SuffixInvalidation.v1".
Definition FRONTIER_FIELDS : nat := 17.
Definition INVALIDATION_FIELDS : nat := 18.
Definition MAX_ARTIFACT_CLASS_BYTES : Z := 128.
Definition MAX_SEED_NODES : Z := 1024.
Definition MAX_AFFECTED_NODES : Z := 1000000.
Definition MAX_OWNER_FRONTIERS : Z := 4096.
Definition MAX_INVALID_ARTIFACTS : Z := 1000000.
Definition MAX_DIGEST_LIST : Z := 65536.
Definition FRONTIER_LIMITS : CborLimits := MkLimits MAX_RECOMPUTATION_FRONTIER_BYTES_V1 4 1000000 true.
Definition INVALIDATION_LIMITS : CborLimits := MkLimits MAX_SUFFIX_INVALIDATION_BYTES_V1 4 1000000 true.
Definition DIGEST_FIELD_BYTES : Z := 34.

Inductive SuffixInvalidationReasonV1 :=
| NewIntervention | ChangedIntervention | UnknownEdgeFallback | RetryAfterAtomicFailure | TrustOrErasureChange.
#[export] Instance reason_eq_dec : EqDecision SuffixInvalidationReasonV1.
Proof. solve_decision. Defined.
Definition REASONS : list SuffixInvalidationReasonV1 :=
  [NewIntervention; ChangedIntervention; UnknownEdgeFallback; RetryAfterAtomicFailure; TrustOrErasureChange].
Definition invalidation_reason_code (r : SuffixInvalidationReasonV1) : Z :=
  match r with
  | NewIntervention => 0 | ChangedIntervention => 1 | UnknownEdgeFallback => 2
  | RetryAfterAtomicFailure => 3 | TrustOrErasureChange => 4
  end.
#[export] Instance reason_codes : WireCodes REASONS invalidation_reason_code.
Proof. split; [by intros []|]. repeat constructor; set_solver. Qed.

Module ArtifactError.
Inductive FrontierArtifactErrorV1 :=
| InvalidEncoding | UnsupportedVersion | UnknownEnum | FieldOutOfBounds | NonCanonicalOrder
| DuplicateIdentity | FrontierOutOfRange | PriorGenerationMismatch | DigestMismatch.
End ArtifactError.

Notation ArtifactResult := (result ArtifactError.FrontierArtifactErrorV1).

(** ** Records *)

Record UnknownEdgeCoordinateV1 := MkUnknownEdge {
  ue_consumer : DependencyNodeV1;
  ue_missing_source_digest : option Hash;
}.
Definition unknown_edge_tuple (e : UnknownEdgeCoordinateV1) : DependencyNodeV1 * option Hash :=
  (ue_consumer e, ue_missing_source_digest e).
#[export] Instance unknown_edge_tuple_inj : Inj (=) (=) unknown_edge_tuple.
Proof. intros [] []. unfold unknown_edge_tuple. cbn. by intros [= -> ->]. Qed.
#[export] Instance unknown_edge_eq_dec : EqDecision UnknownEdgeCoordinateV1.
Proof. solve_decision. Defined.
#[export] Instance unknown_edge_ord : Ord UnknownEdgeCoordinateV1 := ord_by unknown_edge_tuple.
#[export] Instance unknown_edge_ord_laws : OrdLaws UnknownEdgeCoordinateV1 := ord_by_laws unknown_edge_tuple _.

Record OwnerFrontierV1 := MkOwnerFrontier {
  of_owner_id : RString;
  of_earliest_tick : Z;
  of_earliest_scheduler_position : Z;
  of_earliest_output_ordinal : Z;
  of_cause_node_digests : list Hash;
}.

Record RecomputationFrontierV1 := MkFrontier {
  rf_frontier_id : Ulid;
  rf_plan_digest : Hash;
  rf_parent_cut_digest : Hash;
  rf_dependency_graph_digest : Hash;
  rf_intervention_seed_nodes : list DependencyNodeV1;
  rf_affected_nodes : list DependencyNodeV1;
  rf_owner_frontiers : list OwnerFrontierV1;
  rf_global_frontier_tick : Z;
  rf_global_frontier_scheduler_position : Z;
  rf_unknown_edge_policy : UnknownEdgePolicyV1;
  rf_unknown_edge_coordinates : list UnknownEdgeCoordinateV1;
  rf_endogenous_suffix_end_tick : Z;
  rf_classification_bundle_digest : Hash;
  rf_provenance_digest : Hash;
  rf_frontier_digest : Hash;
}.

Record InvalidArtifactV1 := MkInvalidArtifact {
  ia_artifact_class : RString;
  ia_schema_id : Z;
  ia_artifact_digest : Hash;
  ia_producer : DependencyNodeV1;
  ia_prior_generation : Z;
  ia_reason : SuffixInvalidationReasonV1;
}.

Record SuffixInvalidationV1 := MkInvalidation {
  si_invalidation_id : Ulid;
  si_plan_digest : Hash;
  si_fork_id : Ulid;
  si_prior_generation : Z;
  si_new_generation : Z;
  si_frontier_digest : Hash;
  si_invalid_start : DependencyNodeV1;
  si_invalid_end : DependencyNodeV1;
  si_invalid_artifacts : list InvalidArtifactV1;
  si_invalid_checkpoint_digests : list Hash;
  si_invalid_projection_digests : list Hash;
  si_retained_exogenous_digests : list Hash;
  si_reason : SuffixInvalidationReasonV1;
  si_commit_timeline_id : Ulid;
  si_commit_seq : Z;
  si_commit_tick : Z;
  si_provenance_digest : Hash;
  si_invalidation_digest : Hash;
}.

(** ** Contracts *)

(** Between one and [maximum] items. *)
Definition within_count (length maximum : Z) : bool := negb (length =? 0) && (length <=? maximum).

Definition frontier_counts_within_bounds (seeds affected owners unknown_edges : Z) : bool :=
  within_count seeds MAX_SEED_NODES && within_count affected MAX_AFFECTED_NODES && within_count owners MAX_OWNER_FRONTIERS
  && (unknown_edges <=? MAX_UNKNOWN_EDGE_COORDINATES_V1).

Definition invalidation_counts_within_bounds (artifacts checkpoints projections retained : Z) : bool :=
  (artifacts <=? MAX_INVALID_ARTIFACTS) && (checkpoints <=? MAX_DIGEST_LIST)
  && (projections <=? MAX_DIGEST_LIST) && (retained <=? MAX_DIGEST_LIST).

Definition frontier_identifiers_nonzero (f : RecomputationFrontierV1) : bool :=
  nonzero (rf_frontier_id f)
  && forallb nonzero [rf_plan_digest f; rf_parent_cut_digest f; rf_dependency_graph_digest f;
                      rf_classification_bundle_digest f; rf_provenance_digest f].

Definition invalidation_identifiers_nonzero (i : SuffixInvalidationV1) : bool :=
  nonzero (si_invalidation_id i) && nonzero (si_fork_id i) && nonzero (si_commit_timeline_id i)
  && forallb nonzero [si_plan_digest i; si_frontier_digest i; si_provenance_digest i].

Definition valid_coordinate (n : DependencyNodeV1) : bool :=
  within_count (str_len (nd_owner_id n)) MAX_DEPENDENCY_OWNER_ID_BYTES_V1.

Definition valid_unknown_edge (e : UnknownEdgeCoordinateV1) : bool :=
  is_valid_coordinate (ue_consumer e)
  && match ue_missing_source_digest e with Some digest => nonzero digest | None => true end.

Definition valid_owner_frontier (o : OwnerFrontierV1) : bool :=
  within_count (str_len (of_owner_id o)) MAX_DEPENDENCY_OWNER_ID_BYTES_V1
  && within_count (len (of_cause_node_digests o)) MAX_CAUSE_DIGESTS_V1
  && forallb nonzero (of_cause_node_digests o).

Definition valid_invalid_artifact (a : InvalidArtifactV1) (i : SuffixInvalidationV1) : bool :=
  within_count (str_len (ia_artifact_class a)) MAX_ARTIFACT_CLASS_BYTES && nonzero (ia_artifact_digest a)
  && is_valid_coordinate (ia_producer a) && (ia_schema_id a =? nd_schema_id (ia_producer a))
  && bool_decide (ia_reason a = si_reason i) && (ia_prior_generation a =? si_prior_generation i).

Definition unknown_edges_contradict_policy (f : RecomputationFrontierV1) : bool :=
  match rf_unknown_edge_policy f with
  | Reject => negb (len (rf_unknown_edge_coordinates f) =? 0)
  | FullSuffixFromCut => len (rf_unknown_edge_coordinates f) =? 0
  end.

(** [ordered]: strictly ascending, with an equal neighbour as a duplicate. *)
Definition strictly_ordered {A} (compare : A -> A -> comparison) (values : list A) : ArtifactResult unit :=
  ascending compare ArtifactError.DuplicateIdentity ArtifactError.NonCanonicalOrder values.

Definition owner_frontier_key (o : OwnerFrontierV1) : Z * (Z * (RString * Z)) :=
  (of_earliest_tick o, (of_earliest_scheduler_position o, (of_owner_id o, of_earliest_output_ordinal o))).
Definition compare_owner_frontiers (a b : OwnerFrontierV1) : comparison :=
  cmp (owner_frontier_key a) (owner_frontier_key b).

(** The owners in order, inserted in a set as the scan goes. *)
Fixpoint owners_once (owner_ids : gset RString) (owners : list OwnerFrontierV1) : ArtifactResult unit :=
  match owners with
  | [] => Ok tt
  | o :: rest =>
      if bool_decide (of_owner_id o ∈ owner_ids) then Err ArtifactError.DuplicateIdentity
      else let? _ := strictly_ordered cmp (of_cause_node_digests o) in
           owners_once ({[of_owner_id o]} ∪ owner_ids) rest
  end.

Definition validate_owner_frontiers (owners : list OwnerFrontierV1) : ArtifactResult unit :=
  let? _ := strictly_ordered compare_owner_frontiers owners in
  owners_once ∅ owners.

Definition validate_frontier_range (f : RecomputationFrontierV1) : ArtifactResult unit :=
  let global := (rf_global_frontier_tick f, rf_global_frontier_scheduler_position f) in
  if (rf_endogenous_suffix_end_tick f <? rf_global_frontier_tick f)
     || existsb (fun o => ltb (of_earliest_tick o, of_earliest_scheduler_position o) global) (rf_owner_frontiers f)
  then Err ArtifactError.FrontierOutOfRange else Ok tt.

Definition validate_frontier_fields (f : RecomputationFrontierV1) : ArtifactResult unit :=
  if negb (frontier_counts_within_bounds (len (rf_intervention_seed_nodes f)) (len (rf_affected_nodes f))
             (len (rf_owner_frontiers f)) (len (rf_unknown_edge_coordinates f)))
     || negb (frontier_identifiers_nonzero f)
     || negb (forallb is_valid_coordinate (rf_intervention_seed_nodes f))
     || negb (forallb is_valid_coordinate (rf_affected_nodes f))
     || negb (forallb valid_owner_frontier (rf_owner_frontiers f))
     || negb (forallb valid_unknown_edge (rf_unknown_edge_coordinates f))
     || unknown_edges_contradict_policy f
  then Err ArtifactError.FieldOutOfBounds
  else
    let? _ := strictly_ordered cmp (rf_intervention_seed_nodes f) in
    let? _ := strictly_ordered cmp (rf_affected_nodes f) in
    let? _ := validate_owner_frontiers (rf_owner_frontiers f) in
    let? _ := strictly_ordered cmp (rf_unknown_edge_coordinates f) in
    validate_frontier_range f.

Definition invalid_artifact_key (a : InvalidArtifactV1) : DependencyNodeV1 * (RString * Hash) :=
  (ia_producer a, (ia_artifact_class a, ia_artifact_digest a)).
Definition compare_invalid_artifacts (a b : InvalidArtifactV1) : comparison :=
  cmp (invalid_artifact_key a) (invalid_artifact_key b).

Definition validate_invalidation_fields (i : SuffixInvalidationV1) : ArtifactResult unit :=
  if negb (invalidation_counts_within_bounds (len (si_invalid_artifacts i)) (len (si_invalid_checkpoint_digests i))
             (len (si_invalid_projection_digests i)) (len (si_retained_exogenous_digests i)))
     || negb (invalidation_identifiers_nonzero i)
     || negb (valid_coordinate (si_invalid_start i)) || negb (valid_coordinate (si_invalid_end i))
     || negb (forallb (fun a => valid_invalid_artifact a i) (si_invalid_artifacts i))
     || negb (forallb nonzero (si_invalid_checkpoint_digests i))
     || negb (forallb nonzero (si_invalid_projection_digests i))
     || negb (forallb nonzero (si_retained_exogenous_digests i))
  then Err ArtifactError.FieldOutOfBounds
  else if negb (bool_decide (checked_add (si_prior_generation i) 1 = Some (si_new_generation i)))
  then Err ArtifactError.PriorGenerationMismatch
  else if ltb (si_invalid_end i) (si_invalid_start i) then Err ArtifactError.FrontierOutOfRange
  else
    let? _ := strictly_ordered compare_invalid_artifacts (si_invalid_artifacts i) in
    let? _ := strictly_ordered cmp (si_invalid_checkpoint_digests i) in
    let? _ := strictly_ordered cmp (si_invalid_projection_digests i) in
    strictly_ordered cmp (si_retained_exogenous_digests i).

(** ** Values *)

Definition node_list (nodes : list DependencyNodeV1) : Value := VArray (node_value <$> nodes).
Definition digest_list (digests : list Hash) : Value := VArray (wire_bytes <$> digests).

Definition owner_frontier_values (o : OwnerFrontierV1) : list Value :=
  [wire_text (of_owner_id o); wire_uint (of_earliest_tick o); wire_uint (of_earliest_scheduler_position o);
   wire_uint (of_earliest_output_ordinal o); digest_list (of_cause_node_digests o)].
Definition owner_frontier_value (o : OwnerFrontierV1) : Value := VArray (owner_frontier_values o).
Definition unknown_edge_values (e : UnknownEdgeCoordinateV1) : list Value :=
  [node_value (ue_consumer e); wire_optional (ue_missing_source_digest e)].
Definition unknown_edge_value (e : UnknownEdgeCoordinateV1) : Value := VArray (unknown_edge_values e).
Definition invalid_artifact_values (a : InvalidArtifactV1) : list Value :=
  [wire_text (ia_artifact_class a); wire_uint (ia_schema_id a); wire_bytes (ia_artifact_digest a);
   node_value (ia_producer a); wire_uint (ia_prior_generation a);
   wire_uint (invalidation_reason_code (ia_reason a))].
Definition invalid_artifact_value (a : InvalidArtifactV1) : Value := VArray (invalid_artifact_values a).

(** Fields 2 to 15, and the digest behind them. *)
Definition frontier_values (f : RecomputationFrontierV1) : list Value :=
  [wire_bytes (rf_frontier_id f); wire_bytes (rf_plan_digest f); wire_bytes (rf_parent_cut_digest f);
   wire_bytes (rf_dependency_graph_digest f); node_list (rf_intervention_seed_nodes f);
   node_list (rf_affected_nodes f); VArray (owner_frontier_value <$> rf_owner_frontiers f);
   wire_uint (rf_global_frontier_tick f); wire_uint (rf_global_frontier_scheduler_position f);
   wire_uint (policy_code (rf_unknown_edge_policy f));
   VArray (unknown_edge_value <$> rf_unknown_edge_coordinates f); wire_uint (rf_endogenous_suffix_end_tick f);
   wire_bytes (rf_classification_bundle_digest f); wire_bytes (rf_provenance_digest f);
   wire_bytes (rf_frontier_digest f)].
Definition frontier_fields (f : RecomputationFrontierV1) : list Value :=
  wire_text RECOMPUTATION_FRONTIER_MAGIC_V1 :: wire_uint 1 :: frontier_values f.
Definition recomputation_frontier_value (f : RecomputationFrontierV1) : Value := VArray (frontier_fields f).

Definition commit_values (c : Ulid * (Z * Z)) : list Value :=
  [wire_bytes c.1; wire_uint c.2.1; wire_uint c.2.2].
Definition invalidation_values (i : SuffixInvalidationV1) : list Value :=
  [wire_bytes (si_invalidation_id i); wire_bytes (si_plan_digest i); wire_bytes (si_fork_id i);
   wire_uint (si_prior_generation i); wire_uint (si_new_generation i); wire_bytes (si_frontier_digest i);
   node_value (si_invalid_start i); node_value (si_invalid_end i);
   VArray (invalid_artifact_value <$> si_invalid_artifacts i); digest_list (si_invalid_checkpoint_digests i);
   digest_list (si_invalid_projection_digests i); digest_list (si_retained_exogenous_digests i);
   wire_uint (invalidation_reason_code (si_reason i));
   VArray (commit_values (si_commit_timeline_id i, (si_commit_seq i, si_commit_tick i)));
   wire_bytes (si_provenance_digest i); wire_bytes (si_invalidation_digest i)].
Definition invalidation_fields (i : SuffixInvalidationV1) : list Value :=
  wire_text SUFFIX_INVALIDATION_MAGIC_V1 :: wire_uint 1 :: invalidation_values i.
Definition suffix_invalidation_value (i : SuffixInvalidationV1) : Value := VArray (invalidation_fields i).

(** ** Decoding *)

Definition artifact_contract_error (error : WireError) : ArtifactError.FrontierArtifactErrorV1 :=
  match error with
  | WInvalidEncoding => ArtifactError.InvalidEncoding
  | WFieldOutOfBounds => ArtifactError.FieldOutOfBounds
  | WUnsupportedVersion => ArtifactError.UnsupportedVersion
  | WUnknownEnum => ArtifactError.UnknownEnum
  end.

Definition owner_frontier_reader : Fields OwnerFrontierV1 :=
  let& owner_id := read_text in
  let& earliest_tick := read_u64 in
  let& earliest_scheduler_position := read_u32 in
  let& earliest_output_ordinal := read_u32 in
  let& cause_node_digests := read_hash_list in
  rd_ret (MkOwnerFrontier owner_id earliest_tick earliest_scheduler_position earliest_output_ordinal
    cause_node_digests).
Definition owner_frontier_field (value : Value) : result FieldFailure OwnerFrontierV1 :=
  run_at (reader_new value 5) owner_frontier_reader.

Definition unknown_edge_reader : Fields UnknownEdgeCoordinateV1 :=
  let& consumer := read_node in
  let& missing_source_digest := read_optional_hash in
  rd_ret (MkUnknownEdge consumer missing_source_digest).
Definition unknown_edge_field (value : Value) : result FieldFailure UnknownEdgeCoordinateV1 :=
  run_at (reader_new value 2) unknown_edge_reader.

Definition invalid_artifact_reader : Fields InvalidArtifactV1 :=
  let& artifact_class := read_text in
  let& schema_id := read_u32 in
  let& artifact_digest := read_hash in
  let& producer := read_node in
  let& prior_generation := read_u64 in
  let& reason := read_enum REASONS NewIntervention in
  rd_ret (MkInvalidArtifact artifact_class schema_id artifact_digest producer prior_generation reason).
Definition invalid_artifact_field (value : Value) : result FieldFailure InvalidArtifactV1 :=
  run_at (reader_new value 6) invalid_artifact_reader.

Definition frontier_reader : Fields RecomputationFrontierV1 :=
  let& frontier_id := read_ulid in
  let& plan_digest := read_hash in
  let& parent_cut_digest := read_hash in
  let& dependency_graph_digest := read_hash in
  let& intervention_seed_nodes := read_node_list in
  let& affected_nodes := read_node_list in
  let& owner_frontiers := read_record_array owner_frontier_field in
  let& global_frontier_tick := read_u64 in
  let& global_frontier_scheduler_position := read_u32 in
  let& unknown_edge_policy := read_enum POLICIES_V1 Reject in
  let& unknown_edge_coordinates := read_record_array unknown_edge_field in
  let& endogenous_suffix_end_tick := read_u64 in
  let& classification_bundle_digest := read_hash in
  let& provenance_digest := read_hash in
  let& frontier_digest := read_hash in
  rd_ret (MkFrontier frontier_id plan_digest parent_cut_digest dependency_graph_digest
    intervention_seed_nodes affected_nodes owner_frontiers global_frontier_tick
    global_frontier_scheduler_position unknown_edge_policy unknown_edge_coordinates
    endogenous_suffix_end_tick classification_bundle_digest provenance_digest frontier_digest).
Definition decode_frontier (value : Value) : result FieldFailure RecomputationFrontierV1 :=
  run_at (with_header value FRONTIER_FIELDS RECOMPUTATION_FRONTIER_MAGIC_V1 1) frontier_reader.

Definition commit_reader : Fields (Ulid * (Z * Z)) :=
  let& timeline := read_ulid in
  let& seq := read_u64 in
  let& tick := read_u64 in
  rd_ret (timeline, (seq, tick)).

Definition invalidation_reader : Fields SuffixInvalidationV1 :=
  let& invalidation_id := read_ulid in
  let& plan_digest := read_hash in
  let& fork_id := read_ulid in
  let& prior_generation := read_u64 in
  let& new_generation := read_u64 in
  let& frontier_digest := read_hash in
  let& invalid_start := read_node in
  let& invalid_end := read_node in
  let& invalid_artifacts := read_record_array invalid_artifact_field in
  let& invalid_checkpoint_digests := read_hash_list in
  let& invalid_projection_digests := read_hash_list in
  let& retained_exogenous_digests := read_hash_list in
  let& reason := read_enum REASONS NewIntervention in
  let& commit := read_nested 3 commit_reader in
  let& provenance_digest := read_hash in
  let& invalidation_digest := read_hash in
  rd_ret (MkInvalidation invalidation_id plan_digest fork_id prior_generation new_generation
    frontier_digest invalid_start invalid_end invalid_artifacts invalid_checkpoint_digests
    invalid_projection_digests retained_exogenous_digests reason commit.1 commit.2.1 commit.2.2
    provenance_digest invalidation_digest).
Definition decode_invalidation (value : Value) : result FieldFailure SuffixInvalidationV1 :=
  run_at (with_header value INVALIDATION_FIELDS SUFFIX_INVALIDATION_MAGIC_V1 1) invalidation_reader.

(** ** Sealing and digests *)

Definition matching_digest (computed declared : Hash) : ArtifactResult unit :=
  if bool_decide (computed = declared) then Ok tt else Err ArtifactError.DigestMismatch.

Definition within_size (length maximum : Z) : ArtifactResult unit :=
  if maximum <? length then Err ArtifactError.FieldOutOfBounds else Ok tt.

(** [fields[..fields.len() - 1]]. *)
Definition unsigned_fields (fields : list Value) : list Value := take (length fields - 1) fields.

Definition signed_length (unsigned : Z) : Z := unsigned + DIGEST_FIELD_BYTES.

(** The one-byte array header counts one item more; both records hold fewer than
    24 fields, so it never wraps. *)
Definition signed_encoding (unsigned : list byte) (digest : Hash) : list byte :=
  match unsigned with
  | [] => []
  | head :: rest => byte_of_Z (Z_of_byte head + 1) :: rest ++ [x58; x20] ++ raw digest
  end.

Section Seal.
Context `{Ciborium} `{Blake3}.

Definition unsigned_digest (fields : list Value) (domain : list byte) : ArtifactResult Hash :=
  let? unsigned := map_err artifact_contract_error (wire_encode (VArray (unsigned_fields fields))) in
  Ok (separated_digest domain unsigned).

Definition verify_record_digest (fields : list Value) (declared : Hash) (domain : list byte)
    : ArtifactResult unit :=
  let? computed := unsigned_digest fields domain in matching_digest computed declared.

Definition unsigned_encoding (fields : list Value) (domain : list byte) (maximum : Z)
    : ArtifactResult (Hash * list byte) :=
  let? unsigned := map_err artifact_contract_error (wire_encode (VArray (unsigned_fields fields))) in
  let? _ := within_size (signed_length (len unsigned)) maximum in
  Ok (separated_digest domain unsigned, unsigned).

Definition decode_bounded (bytes : list byte) (limits : CborLimits) : ArtifactResult Value :=
  let? _ := within_size (len bytes) (maximum_bytes limits) in
  map_err artifact_contract_error (wire_decode bytes limits).

Definition with_frontier_digest (digest : Hash) (f : RecomputationFrontierV1) : RecomputationFrontierV1 :=
  MkFrontier (rf_frontier_id f) (rf_plan_digest f) (rf_parent_cut_digest f) (rf_dependency_graph_digest f)
    (rf_intervention_seed_nodes f) (rf_affected_nodes f) (rf_owner_frontiers f) (rf_global_frontier_tick f)
    (rf_global_frontier_scheduler_position f) (rf_unknown_edge_policy f) (rf_unknown_edge_coordinates f)
    (rf_endogenous_suffix_end_tick f) (rf_classification_bundle_digest f) (rf_provenance_digest f) digest.

Definition frontier_seal (f : RecomputationFrontierV1) : ArtifactResult RecomputationFrontierV1 :=
  let? _ := validate_frontier_fields f in
  let? (digest, _) := unsigned_encoding (frontier_fields f) FRONTIER_DIGEST_DOMAIN_V1
                        MAX_RECOMPUTATION_FRONTIER_BYTES_V1 in
  Ok (with_frontier_digest digest f).

Definition frontier_verified_unsigned (f : RecomputationFrontierV1) : ArtifactResult (list byte) :=
  let? _ := validate_frontier_fields f in
  let? (digest, unsigned) := unsigned_encoding (frontier_fields f) FRONTIER_DIGEST_DOMAIN_V1
                               MAX_RECOMPUTATION_FRONTIER_BYTES_V1 in
  let? _ := matching_digest digest (rf_frontier_digest f) in
  Ok unsigned.

Definition frontier_validate (f : RecomputationFrontierV1) : ArtifactResult unit :=
  let? _ := frontier_verified_unsigned f in Ok tt.

Definition frontier_to_canonical_cbor (f : RecomputationFrontierV1) : ArtifactResult (list byte) :=
  let? unsigned := frontier_verified_unsigned f in
  Ok (signed_encoding unsigned (rf_frontier_digest f)).

Definition frontier_from_canonical_cbor (bytes : list byte) : ArtifactResult RecomputationFrontierV1 :=
  let? value := decode_bounded bytes FRONTIER_LIMITS in
  let? frontier := map_err (fun failure => artifact_contract_error (ff_error failure)) (decode_frontier value) in
  let? _ := validate_frontier_fields frontier in
  let? _ := verify_record_digest (frontier_fields frontier) (rf_frontier_digest frontier)
              FRONTIER_DIGEST_DOMAIN_V1 in
  Ok frontier.

Definition frontier_digest (f : RecomputationFrontierV1) : ArtifactResult Hash :=
  unsigned_digest (frontier_fields f) FRONTIER_DIGEST_DOMAIN_V1.

Definition with_invalidation_digest (digest : Hash) (i : SuffixInvalidationV1) : SuffixInvalidationV1 :=
  MkInvalidation (si_invalidation_id i) (si_plan_digest i) (si_fork_id i) (si_prior_generation i)
    (si_new_generation i) (si_frontier_digest i) (si_invalid_start i) (si_invalid_end i)
    (si_invalid_artifacts i) (si_invalid_checkpoint_digests i) (si_invalid_projection_digests i)
    (si_retained_exogenous_digests i) (si_reason i) (si_commit_timeline_id i) (si_commit_seq i)
    (si_commit_tick i) (si_provenance_digest i) digest.

Definition invalidation_seal (i : SuffixInvalidationV1) : ArtifactResult SuffixInvalidationV1 :=
  let? _ := validate_invalidation_fields i in
  let? (digest, _) := unsigned_encoding (invalidation_fields i) INVALIDATION_DIGEST_DOMAIN_V1
                        MAX_SUFFIX_INVALIDATION_BYTES_V1 in
  Ok (with_invalidation_digest digest i).

Definition invalidation_verified_unsigned (i : SuffixInvalidationV1) : ArtifactResult (list byte) :=
  let? _ := validate_invalidation_fields i in
  let? (digest, unsigned) := unsigned_encoding (invalidation_fields i) INVALIDATION_DIGEST_DOMAIN_V1
                               MAX_SUFFIX_INVALIDATION_BYTES_V1 in
  let? _ := matching_digest digest (si_invalidation_digest i) in
  Ok unsigned.

Definition invalidation_validate (i : SuffixInvalidationV1) : ArtifactResult unit :=
  let? _ := invalidation_verified_unsigned i in Ok tt.

Definition invalidation_to_canonical_cbor (i : SuffixInvalidationV1) : ArtifactResult (list byte) :=
  let? unsigned := invalidation_verified_unsigned i in
  Ok (signed_encoding unsigned (si_invalidation_digest i)).

Definition invalidation_from_canonical_cbor (bytes : list byte) : ArtifactResult SuffixInvalidationV1 :=
  let? value := decode_bounded bytes INVALIDATION_LIMITS in
  let? invalidation :=
    map_err (fun failure => artifact_contract_error (ff_error failure)) (decode_invalidation value) in
  let? _ := validate_invalidation_fields invalidation in
  let? _ := verify_record_digest (invalidation_fields invalidation) (si_invalidation_digest invalidation)
              INVALIDATION_DIGEST_DOMAIN_V1 in
  Ok invalidation.

Definition invalidation_digest (i : SuffixInvalidationV1) : ArtifactResult Hash :=
  unsigned_digest (invalidation_fields i) INVALIDATION_DIGEST_DOMAIN_V1.
End Seal.

(** ** Names of malformed fields *)

Definition NODE_FIELD_NAMES : list string :=
  ["dependency_node"; "node_tick"; "node_scheduler"; "node_owner"; "node_ordinal"; "node_schema";
   "node_digest"]%string.
Definition OWNER_FRONTIER_FIELD_NAMES : list string :=
  ["owner_frontier"; "frontier_owner"; "frontier_tick"; "frontier_scheduler"; "frontier_ordinal";
   "frontier_causes"]%string.
Definition UNKNOWN_EDGE_FIELD_NAMES : list string :=
  ["unknown_edge"%string] ++ NODE_FIELD_NAMES ++ ["unknown_edge_source"%string].
Definition INVALID_ARTIFACT_FIELD_NAMES : list string :=
  ["invalid_artifact"; "artifact_class"; "artifact_schema"; "artifact_digest"]%string ++ NODE_FIELD_NAMES
  ++ ["artifact_generation"; "invalidation_reason"]%string.
Definition FRONTIER_SEEDS_SLOT : nat := 7.
Definition FRONTIER_AFFECTED_SLOT : nat := 8.
Definition FRONTIER_OWNERS_SLOT : nat := 9.
Definition FRONTIER_UNKNOWN_EDGES_SLOT : nat := 13.
Definition INVALID_ARTIFACTS_SLOT : nat := 23.
Definition FRONTIER_FIELD_NAMES : list string :=
  ["recomputation_frontier"; "frontier_magic"; "frontier_version"; "frontier_id"; "frontier_plan";
   "frontier_parent_cut"; "frontier_graph"; "frontier_seeds"; "frontier_affected"; "frontier_owners";
   "frontier_global_tick"; "frontier_global_scheduler"; "frontier_unknown_policy";
   "frontier_unknown_edges"; "frontier_end_tick"; "frontier_classification"; "frontier_provenance";
   "frontier_digest"]%string.
Definition INVALIDATION_FIELD_NAMES : list string :=
  ["suffix_invalidation"; "invalidation_magic"; "invalidation_version"; "invalidation_id";
    "invalidation_plan"; "invalidation_fork"; "invalidation_prior_generation";
    "invalidation_new_generation"; "invalidation_frontier"]%string ++ NODE_FIELD_NAMES ++ NODE_FIELD_NAMES
   ++ ["invalid_artifacts"; "invalid_checkpoints"; "invalid_projections"; "retained_exogenous";
       "invalidation_reason"; "invalidation_commit_coordinate"; "invalidation_commit_timeline";
       "invalidation_commit_seq"; "invalidation_commit_tick"; "invalidation_provenance";
       "invalidation_digest"]%string.

(** [field_names[failure.slot]] is evaluated first and panics, [None], past the
    table. *)
Definition field_name (failure : FieldFailure) (field_names item_names : list string) : option string :=
  match field_names !! ff_slot failure with
  | None => None
  | Some name =>
      Some (match ff_item_slot failure with
            | Some slot => default name (item_names !! slot)
            | None => name
            end)
  end.

Definition frontier_field_name (failure : FieldFailure) : option string :=
  let slot := ff_slot failure in
  let item_names :=
    if (slot =? FRONTIER_SEEDS_SLOT)%nat || (slot =? FRONTIER_AFFECTED_SLOT)%nat then NODE_FIELD_NAMES
    else if (slot =? FRONTIER_OWNERS_SLOT)%nat then OWNER_FRONTIER_FIELD_NAMES
    else if (slot =? FRONTIER_UNKNOWN_EDGES_SLOT)%nat then UNKNOWN_EDGE_FIELD_NAMES
    else [] in
  field_name failure FRONTIER_FIELD_NAMES item_names.

Definition invalidation_field_name (failure : FieldFailure) : option string :=
  let item_names := if (ff_slot failure =? INVALID_ARTIFACTS_SLOT)%nat then INVALID_ARTIFACT_FIELD_NAMES else [] in
  field_name failure INVALIDATION_FIELD_NAMES item_names.

Definition dependency_node_value : DependencyNodeV1 -> Value := node_value.

Definition decode_dependency_node_value (value : Value) : result (option string) DependencyNodeV1 :=
  map_err (fun failure => NODE_FIELD_NAMES !! ff_slot failure) (decode_node value).

Definition decode_recomputation_frontier_value (value : Value)
    : result (ArtifactError.FrontierArtifactErrorV1 * option string) RecomputationFrontierV1 :=
  map_err (fun failure => (artifact_contract_error (ff_error failure), frontier_field_name failure))
    (decode_frontier value).

Definition decode_suffix_invalidation_value (value : Value)
    : result (ArtifactError.FrontierArtifactErrorV1 * option string) SuffixInvalidationV1 :=
  map_err (fun failure => (artifact_contract_error (ff_error failure), invalidation_field_name failure))
    (decode_invalidation value).
