(* ===== verification/FrontierArtifactsProperties.v ===== *)
(** * Frontier artifacts: theorems

    The RCF1 and SIV1 decoders are exact, sealing gives a valid record, the bytes
    of a record are canonical, and every malformed field has a name. *)

From Stdlib Require Import String ZArith Lia Bool Sorted.
From S2P Require Import Prelude Text Ordering Cbor FallbackRecords StrictCbor PluginTrust WireSyntax TrustPolicy CfCodec.
From S2P Require Import CounterfactualInputs CounterfactualPlan FrontierArtifacts.

Local Open Scope Z_scope.

(** ** The decoders, exactly *)

Definition owner_typed (o : OwnerFrontierV1) : Prop :=
  u64_ok (of_earliest_tick o) /\ u32_ok (of_earliest_scheduler_position o) /\ u32_ok (of_earliest_output_ordinal o).
Definition unknown_edge_typed (e : UnknownEdgeCoordinateV1) : Prop := node_typed (ue_consumer e).
Definition invalid_artifact_typed (a : InvalidArtifactV1) : Prop :=
  u32_ok (ia_schema_id a) /\ node_typed (ia_producer a) /\ u64_ok (ia_prior_generation a).
Definition frontier_typed (f : RecomputationFrontierV1) : Prop :=
  Forall node_typed (rf_intervention_seed_nodes f) /\ Forall node_typed (rf_affected_nodes f)
  /\ Forall owner_typed (rf_owner_frontiers f) /\ u64_ok (rf_global_frontier_tick f)
  /\ u32_ok (rf_global_frontier_scheduler_position f)
  /\ Forall unknown_edge_typed (rf_unknown_edge_coordinates f) /\ u64_ok (rf_endogenous_suffix_end_tick f).
Definition commit_typed (c : Ulid * (Z * Z)) : Prop := u64_ok c.2.1 /\ u64_ok c.2.2.
Definition invalidation_typed (i : SuffixInvalidationV1) : Prop :=
  u64_ok (si_prior_generation i) /\ u64_ok (si_new_generation i) /\ node_typed (si_invalid_start i)
  /\ node_typed (si_invalid_end i) /\ Forall invalid_artifact_typed (si_invalid_artifacts i)
  /\ commit_typed (si_commit_timeline_id i, (si_commit_seq i, si_commit_tick i)).

Lemma reads_owner_frontier : reads owner_frontier_reader owner_frontier_values owner_typed.
Proof. unfold owner_typed. exact_record. by destruct a. Qed.
Lemma owner_frontier_field_exact v o :
  owner_frontier_field v = Ok o <-> v = owner_frontier_value o /\ owner_typed o.
Proof. by apply run_new_exact; [apply reads_owner_frontier|]. Qed.

Lemma reads_unknown_edge : reads unknown_edge_reader unknown_edge_values unknown_edge_typed.
Proof. unfold unknown_edge_typed. exact_record. by destruct a. Qed.
Lemma unknown_edge_field_exact v e :
  unknown_edge_field v = Ok e <-> v = unknown_edge_value e /\ unknown_edge_typed e.
Proof. by apply run_new_exact; [apply reads_unknown_edge|]. Qed.

Lemma reads_reason_field fallback :
  reads (read_enum REASONS fallback) (fun a => [wire_uint (invalidation_reason_code a)]) any.
Proof. apply reads_enum, _. Qed.
#[export] Hint Resolve owner_frontier_field_exact unknown_edge_field_exact reads_reason_field : cf_fields.

Lemma reads_invalid_artifact : reads invalid_artifact_reader invalid_artifact_values invalid_artifact_typed.
Proof. unfold invalid_artifact_typed. exact_record. by destruct a. Qed.
Lemma invalid_artifact_field_exact v a :
  invalid_artifact_field v = Ok a <-> v = invalid_artifact_value a /\ invalid_artifact_typed a.
Proof. by apply run_new_exact; [apply reads_invalid_artifact|]. Qed.
Lemma reads_commit_fields : reads commit_reader commit_values commit_typed.
Proof. unfold commit_typed. exact_record. by destruct a as [? []]. Qed.
Lemma reads_commit : reads (read_nested 3 commit_reader) (fun c => [VArray (commit_values c)]) commit_typed.
Proof. by apply reads_nested; [apply reads_commit_fields|]. Qed.
#[export] Hint Resolve invalid_artifact_field_exact reads_commit : cf_fields.

Lemma reads_frontier : reads frontier_reader frontier_values frontier_typed.
Proof. unfold frontier_typed. exact_record. by destruct a. Qed.

Lemma reads_invalidation : reads invalidation_reader invalidation_values invalidation_typed.
Proof.
  unfold invalidation_typed. eapply exact_iff.
  { repeat (eapply exact_step; [solve [eauto with cf_fields]|intros ?]). apply exact_ret. }
  intros i vs. split.
  - intros. repeat match goal with
    | Hx : exists _, _ |- _ => destruct Hx
    | Hx : _ /\ _ |- _ => destruct Hx
    end. subst. repeat match goal with Hx : (_ * _)%type |- _ => destruct Hx end. split; [reflexivity|cbn in *; tauto].
  - intros [-> Ht]. destruct i. cbn in *. destruct_and?.
    repeat (eexists _, _; split; [reflexivity|split; [first [assumption|exact I|apply Forall_any]|]]). done.
Qed.

Lemma decode_frontier_exact v f : decode_frontier v = Ok f <-> v = recomputation_frontier_value f /\ frontier_typed f.
Proof. by apply run_header_exact; [apply reads_frontier|..]. Qed.
Lemma decode_invalidation_exact v i :
  decode_invalidation v = Ok i <-> v = suffix_invalidation_value i /\ invalidation_typed i.
Proof. by apply run_header_exact; [apply reads_invalidation|..]. Qed.

(** ** What the writer promises

    RFC 8949: an array of at most 23 items is one head byte and its items, a string
    of 32 bytes the head 58 20 and the bytes. *)

Class ShortArrays `{Ciborium} : Prop := {
  short_array items bytes : len items <= 23 ->
    into_writer (VArray items) = Some bytes
    <-> exists parts, Forall2 (fun v b => into_writer v = Some b) items parts
        /\ bytes = byte_of_Z (0x80 + len items) :: concat parts;
  digest_string (d : Hash) : into_writer (wire_bytes d) = Some ([x58; x20] ++ raw d);
}.

Section Canonical.
Context `{Ciborium} `{Blake3}.

(** The digest is the last field, and the others do not depend on it. *)
Lemma frontier_unsigned f :
  frontier_fields f = unsigned_fields (frontier_fields f) ++ [wire_bytes (rf_frontier_digest f)].
Proof. done. Qed.
Lemma invalidation_unsigned i :
  invalidation_fields i = unsigned_fields (invalidation_fields i) ++ [wire_bytes (si_invalidation_digest i)].
Proof. done. Qed.

Lemma wire_encode_ok {E} (g : WireError -> E) v bytes :
  map_err g (wire_encode v) = Ok bytes -> into_writer v = Some bytes.
Proof. unfold wire_encode. by intros Hx%map_err_ok_inv%ok_or_ok_inv. Qed.

Lemma unsigned_encoding_ok fields domain maximum digest unsigned :
  unsigned_encoding fields domain maximum = Ok (digest, unsigned)
  <-> into_writer (VArray (unsigned_fields fields)) = Some unsigned
      /\ signed_length (len unsigned) <= maximum /\ digest = separated_digest domain unsigned.
Proof.
  unfold unsigned_encoding, wire_encode, within_size. destruct (into_writer _) as [bytes|]; cbn; [|naive_solver].
  destruct (Z.ltb_spec maximum (signed_length (len bytes))); cbn; split; try naive_solver lia.
Qed.

Lemma unsigned_digest_ok fields domain digest :
  unsigned_digest fields domain = Ok digest
  <-> exists unsigned, into_writer (VArray (unsigned_fields fields)) = Some unsigned
      /\ digest = separated_digest domain unsigned.
Proof. unfold unsigned_digest, wire_encode. destruct (into_writer _); cbn; naive_solver. Qed.

(** A sealed record is the record with its digest, and passes validation. *)
Lemma frontier_seal_ok f f' :
  frontier_seal f = Ok f' ->
  validate_frontier_fields f = Ok tt /\ f' = with_frontier_digest (rf_frontier_digest f') f
  /\ frontier_validate f' = Ok tt /\ frontier_digest f' = Ok (rf_frontier_digest f').
Proof.
  unfold frontier_seal. intros Hs. apply rbind_ok_inv in Hs as ([] & Hv & Hs).
  apply rbind_ok_inv in Hs as ([digest unsigned] & Hu & [= <-]). split; [done|]. split; [done|].
  assert (validate_frontier_fields (with_frontier_digest digest f) = Ok tt) as Hv' by exact Hv.
  assert (unsigned_encoding (frontier_fields (with_frontier_digest digest f)) FRONTIER_DIGEST_DOMAIN_V1
            MAX_RECOMPUTATION_FRONTIER_BYTES_V1 = Ok (digest, unsigned)) as Hu' by exact Hu. split.
  - unfold frontier_validate, frontier_verified_unsigned. rewrite Hv'. cbn [rbind]. rewrite Hu'. cbn [rbind].
    unfold matching_digest. cbn [rf_frontier_digest with_frontier_digest]. by rewrite bool_decide_true.
  - apply unsigned_digest_ok. apply unsigned_encoding_ok in Hu' as (Hw & _ & ->). by exists unsigned.
Qed.

Lemma invalidation_seal_ok i i' :
  invalidation_seal i = Ok i' ->
  validate_invalidation_fields i = Ok tt /\ i' = with_invalidation_digest (si_invalidation_digest i') i
  /\ invalidation_validate i' = Ok tt.
Proof.
  unfold invalidation_seal. intros Hs. apply rbind_ok_inv in Hs as ([] & Hv & Hs).
  apply rbind_ok_inv in Hs as ([digest unsigned] & Hu & [= <-]). split; [done|]. split; [done|].
  assert (validate_invalidation_fields (with_invalidation_digest digest i) = Ok tt) as Hv' by exact Hv.
  assert (unsigned_encoding (invalidation_fields (with_invalidation_digest digest i)) INVALIDATION_DIGEST_DOMAIN_V1
            MAX_SUFFIX_INVALIDATION_BYTES_V1 = Ok (digest, unsigned)) as Hu' by exact Hu.
  unfold invalidation_validate, invalidation_verified_unsigned. rewrite Hv'. cbn [rbind]. rewrite Hu'. cbn [rbind].
  unfold matching_digest. cbn [si_invalidation_digest with_invalidation_digest]. by rewrite bool_decide_true.
Qed.

Context `{!ShortArrays}.

(** Extending the unsigned bytes in place gives the bytes of the whole record. *)
Lemma signed_encoding_exact fields d bytes :
  len fields <= 22 -> into_writer (VArray (fields ++ [wire_bytes d])) = Some bytes ->
  exists unsigned, into_writer (VArray fields) = Some unsigned /\ signed_encoding unsigned d = bytes
    /\ len bytes = signed_length (len unsigned).
Proof.
  intros Hl Hw. apply short_array in Hw as (parts & HF & ->); [|rewrite len_app, len_cons, len_nil; lia].
  apply Forall2_app_inv_l in HF as (p1 & p2 & Hp1 & Hp2 & ->). inversion Hp2 as [|? b ? rest Hb Hr]; subst.
  inversion Hr; subst. rewrite digest_string in Hb. injection Hb as <-. pose proof (len_nonneg fields).
  exists (byte_of_Z (0x80 + len fields) :: concat p1). split; [apply short_array; [lia|]; by exists p1|].
  unfold signed_encoding, signed_length, DIGEST_FIELD_BYTES. rewrite len_app, len_cons, len_nil. split.
  - rewrite Z_of_byte_of_Z by lia. rewrite concat_app. cbn. rewrite app_nil_r. f_equal. f_equal. lia.
  - rewrite !len_cons, concat_app, len_app. cbn. rewrite app_nil_r, !len_cons. rewrite (len_checked 32 d). lia.
Qed.

Lemma within_size_ok n m : within_size n m = Ok tt <-> n <= m.
Proof. unfold within_size. destruct (Z.ltb_spec m n); split; (done || lia). Qed.

(** A whole record whose digest verifies, as the encoder reads it. *)
Lemma record_canonical fields d domain maximum bytes :
  fields = unsigned_fields fields ++ [wire_bytes d] -> len fields <= 23 ->
  into_writer (VArray fields) = Some bytes -> len bytes <= maximum -> verify_record_digest fields d domain = Ok tt ->
  exists unsigned, unsigned_encoding fields domain maximum = Ok (d, unsigned) /\ signed_encoding unsigned d = bytes.
Proof.
  intros Hf Hn Hw Hsize Hd. rewrite Hf in Hw. rewrite Hf, len_app, len_cons, len_nil in Hn.
  apply signed_encoding_exact in Hw as (unsigned & Hu & He & Hlen); [|lia]. exists unsigned. split; [|done].
  apply rbind_ok_inv in Hd as (computed & (u & Hu' & ->)%unsigned_digest_ok & Hm). rewrite Hu in Hu'.
  injection Hu' as <-. unfold matching_digest in Hm. case_bool_decide; [|done].
  apply unsigned_encoding_ok. split_and!; [done|lia|done].
Qed.

Lemma decode_bounded_ok bytes limits v :
  decode_bounded bytes limits = Ok v -> into_writer v = Some bytes /\ len bytes <= maximum_bytes limits.
Proof. unfold decode_bounded. intros Hd. apply rbind_ok_inv in Hd as ([] & _ & Hd). by apply map_err_ok_inv, wire_decode_ok in Hd. Qed.

Lemma frontier_canonical bytes f :
  frontier_from_canonical_cbor bytes = Ok f -> frontier_to_canonical_cbor f = Ok bytes /\ frontier_typed f.
Proof.
  unfold frontier_from_canonical_cbor. intros Hd. apply rbind_ok_inv in Hd as (v & [Hw Hsize]%decode_bounded_ok & Hd).
  apply rbind_ok_inv in Hd as (f' & [-> Ht]%map_err_ok_inv%decode_frontier_exact & Hd).
  apply rbind_ok_inv in Hd as ([] & Hf & Hd). apply rbind_ok_inv in Hd as ([] & Hdig & [= ->]). split; [|done].
  destruct (record_canonical _ _ _ _ _ (frontier_unsigned f) ltac:(done) Hw Hsize Hdig) as (unsigned & Hu & <-).
  cbn [maximum_bytes FRONTIER_LIMITS] in Hu. unfold frontier_to_canonical_cbor, frontier_verified_unsigned, matching_digest. rewrite Hf. cbn [rbind].
  rewrite Hu. cbn [rbind]. by rewrite bool_decide_true.
Qed.

(** What is encoded carries its own digest. *)
Lemma frontier_encoded_digest f bytes :
  frontier_to_canonical_cbor f = Ok bytes -> frontier_digest f = Ok (rf_frontier_digest f).
Proof.
  unfold frontier_to_canonical_cbor, frontier_verified_unsigned, matching_digest. intros Hf.
  apply rbind_ok_inv in Hf as (unsigned & Hf & _). apply rbind_ok_inv in Hf as ([] & _ & Hf).
  apply rbind_ok_inv in Hf as ([digest u] & (Hw & _ & ->)%unsigned_encoding_ok & Hf).
  apply unsigned_digest_ok. exists u. split; [done|]. apply rbind_ok_inv in Hf as ([] & Hm & _). by case_bool_decide.
Qed.

Lemma invalidation_canonical bytes i :
  invalidation_from_canonical_cbor bytes = Ok i -> invalidation_to_canonical_cbor i = Ok bytes /\ invalidation_typed i.
Proof.
  unfold invalidation_from_canonical_cbor. intros Hd. apply rbind_ok_inv in Hd as (v & [Hw Hsize]%decode_bounded_ok & Hd).
  apply rbind_ok_inv in Hd as (i' & [-> Ht]%map_err_ok_inv%decode_invalidation_exact & Hd).
  apply rbind_ok_inv in Hd as ([] & Hf & Hd). apply rbind_ok_inv in Hd as ([] & Hdig & [= ->]). split; [|done].
  destruct (record_canonical _ _ _ _ _ (invalidation_unsigned i) ltac:(done) Hw Hsize Hdig) as (unsigned & Hu & <-).
  cbn [maximum_bytes INVALIDATION_LIMITS] in Hu. unfold invalidation_to_canonical_cbor, invalidation_verified_unsigned, matching_digest. rewrite Hf. cbn [rbind].
  rewrite Hu. cbn [rbind]. by rewrite bool_decide_true.
Qed.
End Canonical.

(** C32: the decoders of the five counterfactual records accept only the bytes that
    their encoders write.  What INT1, IDP1, CFP1, RCF1 and SIV1 decode to is valid and
    encodes to the very bytes that were read, so that no two byte strings decode to
    one record; a decoded plan and frontier carry their own digest. *)
Theorem counterfactual_canonical `{Ciborium} `{Blake3} `{!ShortArrays} (bytes : list byte) :
  (forall i, intervention_from_canonical_cbor bytes = Ok i -> intervention_to_canonical_cbor i = Ok bytes)
  /\ (forall d, dependency_from_canonical_cbor bytes = Ok d -> dependency_to_canonical_cbor d = Ok bytes)
  /\ (forall p, plan_from_canonical_cbor bytes = Ok p ->
        plan_to_canonical_cbor p = Ok bytes /\ plan_digest p = Ok (pl_plan_digest p))
  /\ (forall f, frontier_from_canonical_cbor bytes = Ok f ->
        frontier_to_canonical_cbor f = Ok bytes /\ frontier_digest f = Ok (rf_frontier_digest f))
  /\ (forall i, invalidation_from_canonical_cbor bytes = Ok i -> invalidation_to_canonical_cbor i = Ok bytes).
Proof.
  split_and!; [apply intervention_canonical|apply dependency_canonical|..|intros i; apply invalidation_canonical].
  - intros p Hp. split; [by apply plan_canonical|]. apply plan_canonical in Hp. unfold plan_to_canonical_cbor in Hp.
    apply rbind_ok_inv in Hp as (fields & Hv & _). apply (po_digest p), plan_validate_ok. unfold plan_validate. by rewrite Hv.
  - intros f Hf. apply frontier_canonical in Hf as [Hf _]. split; [done|]. by apply frontier_encoded_digest in Hf.
Qed.

(** ** Names of malformed fields

    A reader passes a fixed number of slots, and records a failure at one of them. *)

Definition spans {A} (m : Fields A) (k : nat) : Prop := forall r,
  fr_slot (m r).2 = (fr_slot r + k)%nat
  /\ forall f, fr_failure (m r).2 = Some f ->
       fr_failure r = Some f \/ (fr_slot r <= ff_slot f < fr_slot r + k)%nat.

Lemma spans_ret {A} (a : A) : spans (rd_ret a) 0.
Proof. intros r. split; [cbn; lia|]. cbn. auto. Qed.

Lemma spans_bind {A B} (m : Fields A) (k : A -> Fields B) i j :
  spans m i -> (forall a, spans (k a) j) -> spans (rd_bind m k) (i + j).
Proof.
  intros Hm Hk r. unfold rd_bind. destruct (Hm r) as [Hs Hf]. destruct (m r) as [a r1]. cbn in Hs, Hf.
  destruct (Hk a r1) as [Hs' Hf']. split; [lia|]. intros f [H1|H1]%Hf'; [apply Hf in H1 as [?|?]|]; [by left|right; lia..].
Qed.

Lemma spans_with {A} (decode : Value -> Wire A) fallback : spans (read_with decode fallback) 1.
Proof.
  intros r. unfold read_with. destruct (let? _ := _ in _) as [a|e]; cbn; (split; [lia|]); [auto|].
  intros f. destruct (fr_failure r); cbn; [auto|]. intros [= <-]. right. cbn. lia.
Qed.

Lemma spans_record_array {A} (decode : Value -> result FieldFailure A) : spans (read_record_array decode) 1.
Proof.
  intros r. unfold read_record_array. destruct (match _ with Some (VArray _) => _ | _ => _ end) as [[]|]; cbn;
    (split; [lia|]); intros f; [auto|..]; (destruct (fr_failure r); cbn; [auto|]); intros [= <-]; right; cbn; lia.
Qed.

Lemma spans_nested {A} n (m : Fields A) k : spans m k -> spans (read_nested n m) (S k).
Proof.
  intros Hm r. unfold read_nested. match goal with |- context [m ?x] => destruct (Hm x) as [Hs Hf]; destruct (m x) as [a r1] end.
  cbn in *. split; [lia|]. intros f [H1|H1]%Hf; [|right; lia]. destruct (fr_failure r); cbn in H1; [by left|right].
  unfold shape_failure in H1. destruct (exact_array _ _); [done|]. injection H1 as <-. cbn. lia.
Qed.

(** Count the slots of a straight-line reader. *)
Ltac count_slots :=
  repeat first [apply spans_bind; [|intros ?]|apply spans_nested|apply spans_with|apply spans_record_array|apply spans_ret].

Lemma spans_node_fields : spans node_fields 6.
Proof. change 6%nat with (1 + (1 + (1 + (1 + (1 + (1 + 0))))))%nat. count_slots. Qed.

Lemma spans_frontier : spans frontier_reader 15.
Proof.
  change 15%nat with (1 + (1 + (1 + (1 + (1 + (1 + (1 + (1 + (1 + (1 + (1 + (1 + (1 + (1 + (1 + 0)))))))))))))))%nat.
  count_slots.
Qed.

Lemma spans_invalidation : spans invalidation_reader 31.
Proof.
  change 31%nat with (1 + (1 + (1 + (1 + (1 + (1 + (S 6 + (S 6 + (1 + (1 + (1 + (1 + (1
    + (S (1 + (1 + (1 + 0))) + (1 + (1 + 0))))))))))))))))%nat.
  unfold invalidation_reader. count_slots; apply spans_node_fields.
Qed.

Lemma with_header_slot v n magic version :
  fr_slot (with_header v n magic version) = 3%nat
  /\ forall f, fr_failure (with_header v n magic version) = Some f -> (ff_slot f < 3)%nat.
Proof.
  unfold with_header. set (count := match v with VArray _ => _ | _ => _ end).
  set (r0 := if (count <? 2)%nat then _ else _).
  assert (fr_slot r0 = 1%nat /\ forall f, fr_failure r0 = Some f -> ff_slot f = 0%nat) as [Hs0 Hf0].
  { unfold r0, reader_new. destruct (exact_array _ _), (count <? 2)%nat; cbn; (split; [done|]); intros f; naive_solver. }
  destruct (spans_with text_field empty_string r0) as [Hs1 Hf1]. change (read_with _ _ _) with (read_text r0) in *.
  destruct (read_text r0) as [t r1]. destruct (spans_with u64_field 0 r1) as [Hs2 Hf2].
  change (read_with _ _ _) with (read_u64 r1) in *. destruct (read_u64 r1) as [u r2]. cbn in *.
  destruct (fr_failure r2) as [g|] eqn:Hg.
  - split; [lia|]. intros f Hf. rewrite Hg in Hf. destruct (Hf2 f) as [H1|H1]; [congruence| |lia].
    destruct (Hf1 f H1) as [H2|H2]; [apply Hf0 in H2; lia|lia].
  - destruct (_ || _); cbn; [split; [lia|]; intros f [= <-]; cbn; lia|].
    destruct (negb _); cbn; [split; [lia|]; intros f [= <-]; cbn; lia|]. split; [lia|]. intros f. congruence.
Qed.

Lemma run_at_failure {A} v n magic version (m : Fields A) k f :
  spans m k -> run_at (with_header v n magic version) m = Err f -> (ff_slot f < 3 + k)%nat.
Proof.
  intros Hm. destruct (with_header_slot v n magic version) as [Hs Hf]. unfold run_at, finish_at.
  destruct (Hm (with_header v n magic version)) as [_ Hf']. destruct (m _) as [a r']. cbn in Hf'.
  destruct (fr_failure r') as [g|]; [|done]. intros [= <-]. destruct (Hf' g eq_refl) as [H1|H1]; [apply Hf in H1; lia|lia].
Qed.

(** Every malformed field of a nested RCF1 or SIV1 record has a name: the lookup in
    the table of names never fails. *)
Theorem malformed_field_named :
  (forall v e name, decode_recomputation_frontier_value v = Err (e, name) -> is_Some name)
  /\ (forall v e name, decode_suffix_invalidation_value v = Err (e, name) -> is_Some name).
Proof.
  assert (forall f (names items : list string), (ff_slot f < length names)%nat -> is_Some (field_name f names items)) as Hn.
  { intros f names items Hl. unfold field_name. destruct (lookup_lt_is_Some_2 _ _ Hl) as [name ->]. by eexists. }
  split; intros v e name Hd.
  - unfold decode_recomputation_frontier_value, decode_frontier in Hd.
    destruct (run_at _ _) as [|f] eqn:Hr in Hd; [done|]. injection Hd as _ <-. apply Hn.
    apply (run_at_failure _ _ _ _ _ _ _ spans_frontier) in Hr. cbn. lia.
  - unfold decode_suffix_invalidation_value, decode_invalidation in Hd.
    destruct (run_at _ _) as [|f] eqn:Hr in Hd; [done|]. injection Hd as _ <-. apply Hn.
    apply (run_at_failure _ _ _ _ _ _ _ spans_invalidation) in Hr. cbn. lia.
Qed.
