(* ===== verification/DependencyGraph.v ===== *)
(** * The counterfactual dependency graph

    [crates/pos-time/src/counterfactual/dependency_graph.rs]: validation of a closed
    graph of nodes and IDP1 edges against its CFP1 plan. *)

From Stdlib Require Import String ZArith Lia Bool Sorted.
From stdpp Require Import sorting.
From S2P Require Import Prelude Text Ordering Cbor FallbackRecords StrictCbor PluginTrust WireSyntax TrustPolicy CfCodec.
From S2P Require Import CounterfactualInputs CounterfactualPlan FrontierArtifacts.

Local Open Scope Z_scope.

Definition MAX_DEPENDENCY_GRAPH_NODES_V1 : Z := 1000000.
Definition MAX_DEPENDENCY_GRAPH_EDGES_V1 : Z := 4000000.

Module GraphError.
Inductive DependencyGraphErrorV1 :=
| FieldOutOfBounds | ResourceLimitExceeded
| Plan (error : PlanError.CounterfactualPlanContractErrorV1)
| Dependency (error : DepError.InputDependencyContractErrorV1)
| NonCanonicalOrder | DuplicateIdentity | ProvenanceMissing | OutOfRange | RootNotInPlan
| UnclosedEndogenousInput | InterventionNodeMissing
| UnknownDependencyEdge (coordinate : UnknownEdgeCoordinateV1)
| ClassRuleViolation (coordinate : UnknownEdgeCoordinateV1)
| UnauthorizedDependency (coordinate : UnknownEdgeCoordinateV1)
| DependencyGraphIncomplete (coordinate : UnknownEdgeCoordinateV1).
End GraphError.

Notation GraphResult := (result GraphError.DependencyGraphErrorV1).

Record DependencyGraphBoundsV1 := MkGraphBounds { max_nodes : Z; max_edges : Z }.

Inductive DependencyGraphNodeOriginV1 := Committed | Provisional.
#[export] Instance origin_eq_dec : EqDecision DependencyGraphNodeOriginV1.
Proof. solve_decision. Defined.

Record DependencyGraphNodeV1 := MkGraphNode {
  gn_node : DependencyNodeV1;
  gn_class : DependencyClassV1;
  gn_origin : DependencyGraphNodeOriginV1;
  gn_input_digests : list Hash;
  gn_provenance_digest : Hash;
}.
#[export] Instance graph_node_eq_dec : EqDecision DependencyGraphNodeV1.
Proof. solve_decision. Defined.

Definition gn_digest (n : DependencyGraphNodeV1) : Hash := nd_artifact_digest (gn_node n).

Record ValidatedDependencyGraphV1 := MkGraph {
  vg_plan_digest : Hash;
  vg_parent_cut_digest : Hash;
  vg_classification_bundle_digest : Hash;
  vg_first_tick : Z;
  vg_horizon_tick : Z;
  vg_unknown_edge_policy : UnknownEdgePolicyV1;
  vg_nodes : list DependencyGraphNodeV1;
  vg_edges : list InputDependencyV1;
  vg_edge_digests : list Hash;
  vg_unknown_edge_coordinates : list UnknownEdgeCoordinateV1;
  vg_by_digest : gmap Hash nat;
  vg_outgoing : list (nat * nat);
}.

Definition is_complete (g : ValidatedDependencyGraphV1) : bool := len (vg_unknown_edge_coordinates g) =? 0.

Definition graph_node (g : ValidatedDependencyGraphV1) (artifact_digest : Hash) : option DependencyGraphNodeV1 :=
  position ← vg_by_digest g !! artifact_digest; vg_nodes g !! position.

Fixpoint take_while {A} (p : A -> bool) (items : list A) : list A :=
  match items with x :: rest => if p x then x :: take_while p rest else [] | [] => [] end.

(** The direct consumers of a node.  The positions of a validated graph are in
    range, so that [nodes[consumer]] does not fail. *)
Definition consumers (g : ValidatedDependencyGraphV1) (source_digest : Hash) : list DependencyGraphNodeV1 :=
  let source := vg_by_digest g !! source_digest in
  let start := partition_point (fun e : nat * nat => ltb (Some e.1) source) (vg_outgoing g) in
  omap (fun e : nat * nat => vg_nodes g !! e.2)
    (take_while (fun e : nat * nat => bool_decide (Some e.1 = source)) (drop start (vg_outgoing g))).

(** ** Bounds *)

Definition declared_inputs (nodes : list DependencyGraphNodeV1) : Z :=
  fold_left (fun total n => saturating_add total (len (gn_input_digests n))) nodes 0.

Definition check_work_bounds (bounds : DependencyGraphBoundsV1) (nodes : list DependencyGraphNodeV1)
    (edges : list InputDependencyV1) : GraphResult unit :=
  if (MAX_DEPENDENCY_GRAPH_NODES_V1 <? max_nodes bounds) || (MAX_DEPENDENCY_GRAPH_EDGES_V1 <? max_edges bounds)
  then Err GraphError.FieldOutOfBounds
  else if (max_nodes bounds <? len nodes) || (max_edges bounds <? len edges)
          || existsb (fun n => MAX_CAUSE_DIGESTS_V1 <? len (gn_input_digests n)) nodes
          || (max_edges bounds <? declared_inputs nodes)
  then Err GraphError.ResourceLimitExceeded
  else Ok tt.

(** ** The plan *)

Record RootBinding := MkRootBinding { rb_authorization_digest : Hash; rb_provenance_digest : Hash }.

Record PlanBindings := MkPlanBindings {
  pb_plan : CounterfactualPlanV1;
  pb_interventions : gmap Hash InterventionV1;
}.

(** [collect::<BTreeMap<_, _>>()]: a later entry replaces an earlier one. *)
Definition collect_map {K V} `{Countable K} (entries : list (K * V)) : gmap K V :=
  fold_left (fun m e => <[e.1 := e.2]> m) entries ∅.

Definition bindings_new `{Ciborium} `{Blake3} (plan : CounterfactualPlanV1) : PlanResult PlanBindings :=
  let? _ := plan_validate plan in
  let? entries := map_err PlanError.Intervention
    (try_collect (fun i => let? id := intervention_digest i in Ok (id, i)) (pl_interventions plan)) in
  Ok (MkPlanBindings plan (collect_map entries)).

Definition descriptor_binding (descriptors : list FrozenArtifactDescriptorV1) (coordinate : DependencyNodeV1)
    : option RootBinding :=
  match binary_search_by
          (fun d => cmp (descriptor_key d) (nd_schema_id coordinate, nd_artifact_digest coordinate)) descriptors with
  | Ok position =>
      (fun d => MkRootBinding (fd_authorization_digest d) (fd_provenance_digest d)) <$> descriptors !! position
  | Err _ => None
  end.

Definition root_binding (b : PlanBindings) (n : DependencyGraphNodeV1) : option RootBinding :=
  let coordinate := gn_node n in
  match gn_class n with
  | ExogenousFrozen => descriptor_binding (pl_exogenous_descriptors (pb_plan b)) coordinate
  | FixedPolicy => descriptor_binding (pl_fixed_policy_descriptors (pb_plan b)) coordinate
  | InterventionAssigned =>
      match pb_interventions b !! nd_artifact_digest coordinate with
      | Some i =>
          if (int_effective_tick i =? nd_tick coordinate) && (int_target_schema_id i =? nd_schema_id coordinate)
          then Some (MkRootBinding (int_consent_decision_digest i) (int_provenance_digest i)) else None
      | None => None
      end
  | EndogenousRecomputed | PresentationOnly => None
  end.

(** ** Nodes *)

Definition is_root_class (c : DependencyClassV1) : bool :=
  match c with ExogenousFrozen | FixedPolicy | InterventionAssigned => true | _ => false end.

(** [ordered(..)] over the windows of a list. *)
Definition graph_ordered {A} (compare : A -> A -> comparison) (items : list A) : GraphResult unit :=
  ascending compare GraphError.DuplicateIdentity GraphError.NonCanonicalOrder items.

Definition validate_node_fields (n : DependencyGraphNodeV1) : GraphResult unit :=
  if negb (is_valid_coordinate (gn_node n)) || existsb (fun d => negb (nonzero d)) (gn_input_digests n)
  then Err GraphError.FieldOutOfBounds
  else if negb (nonzero (gn_provenance_digest n)) then Err GraphError.ProvenanceMissing
  else graph_ordered cmp (gn_input_digests n).

Definition validate_node_range (plan : CounterfactualPlanV1) (n : DependencyGraphNodeV1) : GraphResult unit :=
  let tick := nd_tick (gn_node n) in
  if match gn_origin n with
     | Committed => tick <=? pl_parent_cut_tick plan
     | Provisional => (pl_first_tick plan <=? tick) && (tick <=? pl_horizon_tick plan)
     end
  then Ok tt else Err GraphError.OutOfRange.

Definition validate_root (b : PlanBindings) (n : DependencyGraphNodeV1) : GraphResult unit :=
  if negb (is_root_class (gn_class n)) then Ok tt
  else if negb (len (gn_input_digests n) =? 0) then Err GraphError.UnclosedEndogenousInput
  else
    let accepts_unbound := bool_decide (gn_origin n = Committed) in
    let matches_plan := match root_binding b n with
                        | Some binding => bool_decide (rb_provenance_digest binding = gn_provenance_digest n)
                        | None => accepts_unbound
                        end in
    if matches_plan then Ok tt else Err GraphError.RootNotInPlan.

Definition validate_node (b : PlanBindings) (n : DependencyGraphNodeV1) : GraphResult unit :=
  let? _ := validate_node_fields n in
  let? _ := validate_node_range (pb_plan b) n in
  validate_root b n.

(** The loop of [validate_nodes]: the nodes from [position] on. *)
Fixpoint index_nodes (b : PlanBindings) (position : nat) (nodes : list DependencyGraphNodeV1)
    (by_digest : gmap Hash nat) : GraphResult (gmap Hash nat) :=
  match nodes with
  | [] => Ok by_digest
  | n :: rest =>
      let? _ := validate_node b n in
      if bool_decide (is_Some (by_digest !! gn_digest n)) then Err GraphError.DuplicateIdentity
      else index_nodes b (S position) rest (<[gn_digest n := position]> by_digest)
  end.

Definition validate_nodes (b : PlanBindings) (nodes : list DependencyGraphNodeV1) : GraphResult (gmap Hash nat) :=
  let? _ := graph_ordered (fun x y => cmp (coordinate_key (gn_node x)) (coordinate_key (gn_node y))) nodes in
  let? by_digest := index_nodes b 0 nodes ∅ in
  let intervention_nodes := len (filter (fun n => gn_class n = InterventionAssigned) nodes) in
  if intervention_nodes =? len (pl_interventions (pb_plan b)) then Ok by_digest
  else Err GraphError.InterventionNodeMissing.

(** ** Edges *)

Definition edge_coordinate (e : InputDependencyV1) : UnknownEdgeCoordinateV1 :=
  MkUnknownEdge (dep_consumer e) (Some (nd_artifact_digest (dep_source e))).

Definition gap (n : DependencyGraphNodeV1) (source : option Hash) : UnknownEdgeCoordinateV1 :=
  MkUnknownEdge (gn_node n) source.

Definition declared (nodes : list DependencyGraphNodeV1) (by_digest : gmap Hash nat) (coordinate : DependencyNodeV1)
    : option nat :=
  position ← by_digest !! nd_artifact_digest coordinate;
  if bool_decide (gn_node <$> nodes !! position = Some coordinate) then Some position else None.

Definition check_edge_rules (b : PlanBindings) (consumer source : DependencyGraphNodeV1) (e : InputDependencyV1)
    : GraphResult unit :=
  if pl_horizon_tick (pb_plan b) <? last_tick_of (dep_tick_range e) then Err GraphError.OutOfRange
  else if negb (bool_decide (dep_class e = gn_class source))
          || (bool_decide (gn_class source = PresentationOnly) && negb (bool_decide (gn_class consumer = PresentationOnly)))
  then Err (GraphError.ClassRuleViolation (edge_coordinate e))
  else if match root_binding b source with
          | Some binding => negb (bool_decide (rb_authorization_digest binding = dep_authorization_digest e))
          | None => false
          end
  then Err (GraphError.UnauthorizedDependency (edge_coordinate e))
  else Ok tt.

(** [input_digests.binary_search(..).is_ok()]. *)
Definition declares_input (n : DependencyGraphNodeV1) (digest : Hash) : bool :=
  is_ok (binary_search_by (fun d => cmp d digest) (gn_input_digests n)).

Definition validate_edge (b : PlanBindings) (nodes : list DependencyGraphNodeV1) (by_digest : gmap Hash nat)
    (e : InputDependencyV1) : GraphResult (nat * nat) :=
  match declared nodes by_digest (dep_consumer e), declared nodes by_digest (dep_source e) with
  | Some consumer, Some source =>
      match nodes !! consumer, nodes !! source with
      | Some cn, Some sn =>
          if declares_input cn (nd_artifact_digest (dep_source e))
          then let? _ := check_edge_rules b cn sn e in Ok (source, consumer)
          else Err (GraphError.UnknownDependencyEdge (edge_coordinate e))
      | _, _ => Err (GraphError.UnknownDependencyEdge (edge_coordinate e))
      end
  | _, _ => Err (GraphError.UnknownDependencyEdge (edge_coordinate e))
  end.

Definition KeyedEdgeError : Type := UnknownEdgeCoordinateV1 * GraphError.DependencyGraphErrorV1.

Record EdgeScan := MkEdgeScan {
  es_edge_digests : list Hash;
  es_outgoing : list (nat * nat);
  es_first_error : option KeyedEdgeError;
}.

(** One turn of the loop over the edges. *)
Definition scan_edge (b : PlanBindings) (nodes : list DependencyGraphNodeV1) (by_digest : gmap Hash nat)
    (acc : list (nat * nat) * option KeyedEdgeError) (e : InputDependencyV1)
    : list (nat * nat) * option KeyedEdgeError :=
  match validate_edge b nodes by_digest e with
  | Ok positions => (acc.1 ++ [positions], acc.2)
  | Err error =>
      let key := edge_coordinate e in
      (acc.1, if match acc.2 with Some (first, _) => ltb key first | None => true end
              then Some (key, error) else acc.2)
  end.

Definition position_le (x y : nat * nat) : Prop := Is_true (leb x y).
#[export] Instance position_le_dec : RelDecision position_le.
Proof. intros x y. unfold position_le. apply _. Defined.

Definition validate_edges `{Ciborium} `{Blake3} (b : PlanBindings) (nodes : list DependencyGraphNodeV1)
    (by_digest : gmap Hash nat) (edges : list InputDependencyV1) : GraphResult EdgeScan :=
  let? edge_digests := map_err GraphError.Dependency
    (let? digests := try_collect dependency_digest edges in
     let? _ := validate_input_dependency_list_order_v1 edges in Ok digests) in
  let scan := fold_left (scan_edge b nodes by_digest) edges ([], None) in
  Ok (MkEdgeScan edge_digests (merge_sort position_le scan.1) scan.2).

(** ** Missing edges *)

Definition node_gaps (n : DependencyGraphNodeV1) (present : gset (Hash * Hash)) : list UnknownEdgeCoordinateV1 :=
  let unknown_closure := bool_decide (gn_class n = EndogenousRecomputed)
    && bool_decide (gn_origin n = Provisional) && (len (gn_input_digests n) =? 0) in
  (if unknown_closure then [gap n None] else [])
  ++ ((fun source => gap n (Some source)) <$>
        filter (fun source => (gn_digest n, source) ∉ present) (gn_input_digests n)).

Definition present_edges (nodes : list DependencyGraphNodeV1) (outgoing : list (nat * nat)) : gset (Hash * Hash) :=
  list_to_set (omap (fun e : nat * nat =>
    consumer ← nodes !! e.2; source ← nodes !! e.1; Some (gn_digest consumer, gn_digest source)) outgoing).

(** [min_by] keeps the first of equal keys. *)
Definition min_keyed (a b : option KeyedEdgeError) : option KeyedEdgeError :=
  match a, b with
  | Some x, Some y => if ltb y.1 x.1 then b else a
  | Some _, None => a
  | None, _ => b
  end.

Definition missing_edges (policy : UnknownEdgePolicyV1) (nodes : list DependencyGraphNodeV1)
    (outgoing : list (nat * nat)) (first_error : option KeyedEdgeError)
    : GraphResult (list UnknownEdgeCoordinateV1) :=
  let present := present_edges nodes outgoing in
  let gaps := concat ((fun n => node_gaps n present) <$> nodes) in
  match policy, first_error with
  | Reject, _ =>
      let first_gap := (fun g => (g, GraphError.DependencyGraphIncomplete g)) <$> head gaps in
      match min_keyed first_error first_gap with
      | None => Ok []
      | Some (_, error) => Err error
      end
  | FullSuffixFromCut, Some (_, error) => Err error
  | FullSuffixFromCut, None =>
      let recorded := take (Z.to_nat (MAX_UNKNOWN_EDGE_COORDINATES_V1 + 1)) gaps in
      if MAX_UNKNOWN_EDGE_COORDINATES_V1 <? len recorded then Err GraphError.ResourceLimitExceeded
      else Ok recorded
  end.

(** ** The graph *)

Definition validate_dependency_graph_v1 `{Ciborium} `{Blake3} (plan : CounterfactualPlanV1)
    (bounds : DependencyGraphBoundsV1) (nodes : list DependencyGraphNodeV1) (edges : list InputDependencyV1)
    : GraphResult ValidatedDependencyGraphV1 :=
  let? _ := check_work_bounds bounds nodes edges in
  let? bindings := map_err GraphError.Plan (bindings_new plan) in
  let? by_digest := validate_nodes bindings nodes in
  let? scan := validate_edges bindings nodes by_digest edges in
  let? unknown_edge_coordinates :=
    missing_edges (pl_unknown_edge_policy plan) nodes (es_outgoing scan) (es_first_error scan) in
  Ok (MkGraph (pl_plan_digest plan) (pl_parent_cut_digest plan) (pl_classification_bundle_digest plan)
        (pl_first_tick plan) (pl_horizon_tick plan) (pl_unknown_edge_policy plan) nodes edges
        (es_edge_digests scan) unknown_edge_coordinates by_digest (es_outgoing scan)).
