(* ===== verification/DependencyGraphProperties.v ===== *)
(** * The dependency graph: theorems

    A declarative account of the graphs that validation accepts, the gaps it
    records and the error it returns, and what the index of a validated graph
    answers. *)

From Stdlib Require Import String ZArith Lia Bool Sorted.
From stdpp Require Import sorting.
From S2P Require Import Prelude Text Ordering Cbor FallbackRecords StrictCbor PluginTrust WireSyntax TrustPolicy CfCodec.
From S2P Require Import CounterfactualInputs CounterfactualPlan FrontierArtifacts DependencyGraph.

Local Open Scope Z_scope.

(** ** What a closed graph is *)

Section Spec.
Context (b : PlanBindings).

(** A root declares nothing and is bound by the plan, or inherited and unknown to it. *)
Definition root_ok (n : DependencyGraphNodeV1) : Prop :=
  is_root_class (gn_class n) = true ->
  gn_input_digests n = []
  /\ match root_binding b n with
     | Some binding => rb_provenance_digest binding = gn_provenance_digest n
     | None => gn_origin n = Committed
     end.

Record node_ok (n : DependencyGraphNodeV1) : Prop := {
  no_coordinate : is_valid_coordinate (gn_node n) = true;
  no_inputs : Forall (fun d => nonzero d = true) (gn_input_digests n);
  no_sorted : StronglySorted (fun x y => ltb x y = true) (gn_input_digests n);
  no_provenance : nonzero (gn_provenance_digest n) = true;
  no_range : match gn_origin n with
             | Committed => nd_tick (gn_node n) <= pl_parent_cut_tick (pb_plan b)
             | Provisional => pl_first_tick (pb_plan b) <= nd_tick (gn_node n) <= pl_horizon_tick (pb_plan b)
             end;
  no_root : root_ok n;
}.

(** An edge joins two declared nodes, is declared by its consumer and obeys the rules. *)
Record edge_ok (nodes : list DependencyGraphNodeV1) (e : InputDependencyV1) (s c : DependencyGraphNodeV1) : Prop := {
  eo_source : s ∈ nodes /\ gn_node s = dep_source e;
  eo_consumer : c ∈ nodes /\ gn_node c = dep_consumer e;
  eo_declared : gn_digest s ∈ gn_input_digests c;
  eo_horizon : last_tick_of (dep_tick_range e) <= pl_horizon_tick (pb_plan b);
  eo_class : dep_class e = gn_class s;
  eo_presentation : gn_class s = PresentationOnly -> gn_class c = PresentationOnly;
  eo_authorized : forall binding, root_binding b s = Some binding ->
    rb_authorization_digest binding = dep_authorization_digest e;
}.
End Spec.

(** A required edge that is not there. *)
Inductive is_gap (nodes : list DependencyGraphNodeV1) (edges : list InputDependencyV1) : UnknownEdgeCoordinateV1 -> Prop :=
| gap_closure n : n ∈ nodes -> gn_class n = EndogenousRecomputed -> gn_origin n = Provisional ->
    gn_input_digests n = [] -> is_gap nodes edges (gap n None)
| gap_input n source : n ∈ nodes -> source ∈ gn_input_digests n ->
    (forall e, e ∈ edges -> dep_consumer e = gn_node n -> nd_artifact_digest (dep_source e) <> source) ->
    is_gap nodes edges (gap n (Some source)).

(** ** Nodes *)

Lemma forallb_negb_nonzero (l : list Hash) :
  existsb (fun d => negb (nonzero d)) l = false <-> Forall (fun d => nonzero d = true) l.
Proof.
  induction l as [|d l IH]; cbn; [done|]. rewrite Forall_cons, <- IH, orb_false_iff, negb_false_iff. done.
Qed.

Lemma validate_root_exact b n : validate_root b n = Ok tt <-> root_ok b n.
Proof.
  unfold validate_root, root_ok. destruct (is_root_class (gn_class n)); cbn; [|done].
  destruct (gn_input_digests n) as [|d l]; cbn.
  - destruct (root_binding b n); case_bool_decide; split; (done || naive_solver).
  - rewrite len_cons. pose proof (len_nonneg l). destruct (Z.eqb_spec (1 + len l) 0); [lia|]. cbn. naive_solver.
Qed.

Lemma validate_node_exact b n : validate_node b n = Ok tt <-> node_ok b n.
Proof.
  unfold validate_node, validate_node_fields, validate_node_range, graph_ordered. split.
  - intros Hv. apply rbind_ok_inv in Hv as ([] & Hf & Hv). apply rbind_ok_inv in Hv as ([] & Hr & Hv%validate_root_exact).
    destruct (_ || _) eqn:Hb in Hf; [done|]. destruct (negb _) eqn:Hp in Hf; [done|]. bool_props.
    apply (ascending_sorted (fun d => d)) in Hf. split; try done; [by apply forallb_negb_nonzero|].
    destruct (gn_origin n); [destruct (Z.leb_spec (nd_tick (gn_node n)) (pl_parent_cut_tick (pb_plan b))); done|].
    destruct (_ && _) eqn:Hb in Hr; [|done]. bool_props. lia.
  - intros [H1 H2 H3 H4 H5 H6%validate_root_exact]. apply forallb_negb_nonzero in H2. rewrite H1, H2, H4. cbn.
    rewrite (proj2 (ascending_sorted (fun d => d) _ _ _) H3). cbn [rbind].
    destruct (gn_origin n); cbn [rbind].
    + rewrite (proj2 (Z.leb_le _ _) H5). done.
    + rewrite (proj2 (Z.leb_le _ _) (proj1 H5)), (proj2 (Z.leb_le _ _) (proj2 H5)). done.
Qed.

(** The index holds the position of every node by its digest. *)
Definition indexed (nodes : list DependencyGraphNodeV1) (by_digest : gmap Hash nat) : Prop :=
  forall d p, by_digest !! d = Some p <-> exists n, nodes !! p = Some n /\ gn_digest n = d.

Lemma indexed_fresh nodes by_digest d :
  indexed nodes by_digest -> by_digest !! d = None <-> d ∉ gn_digest <$> nodes.
Proof.
  intros Hi. rewrite eq_None_not_Some. unfold is_Some. split.
  - intros Hn (n & -> & [p Hp]%list_elem_of_lookup)%list_elem_of_fmap. apply Hn. exists p. apply Hi. by exists n.
  - intros Hn [p Hp]. apply (proj1 (Hi _ _)) in Hp as (n & Hp & <-). apply Hn, list_elem_of_fmap_2, (list_elem_of_lookup_2 _ p). done.
Qed.

Lemma indexed_snoc nodes by_digest n :
  indexed nodes by_digest -> gn_digest n ∉ gn_digest <$> nodes ->
  indexed (nodes ++ [n]) (<[gn_digest n := length nodes]> by_digest).
Proof.
  intros Hi Hn d p. destruct (decide (gn_digest n = d)) as [<-|Hd].
  - rewrite lookup_insert_eq. split.
    + intros [= <-]. exists n. by rewrite list_lookup_middle.
    + intros (m & Hm & Hdm). apply lookup_snoc_Some in Hm as [[_ Hm]|[-> _]]; [|done].
      exfalso. apply Hn. rewrite <- Hdm. by apply list_elem_of_fmap_2, (list_elem_of_lookup_2 _ p).
  - rewrite lookup_insert_ne by done. rewrite (Hi d p). split; intros (m & Hm & Hdm); exists m.
    + split; [|done]. by apply lookup_app_l_Some.
    + split; [|done]. apply lookup_snoc_Some in Hm as [[_ Hm]|[_ <-]]; [done|congruence].
Qed.

Lemma index_nodes_sound b nodes : forall prior m r,
  index_nodes b (length prior) nodes m = Ok r -> indexed prior m -> NoDup (gn_digest <$> prior) ->
  Forall (node_ok b) nodes /\ NoDup (gn_digest <$> prior ++ nodes) /\ indexed (prior ++ nodes) r.
Proof.
  induction nodes as [|n nodes IH]; intros prior m r; cbn [index_nodes].
  - intros [= <-] Hi Hn. by rewrite app_nil_r.
  - intros Hr Hi Hn. apply rbind_ok_inv in Hr as ([] & Hv%validate_node_exact & Hr).
    case_bool_decide as Hs; [done|]. apply eq_None_not_Some in Hs.
    pose proof (proj1 (indexed_fresh _ _ _ Hi) Hs) as Hf.
    replace (S (length prior)) with (length (prior ++ [n])) in Hr by (rewrite length_app; cbn; lia).
    apply IH in Hr as (HF & HN & HI); [|by apply indexed_snoc|].
    + rewrite <- app_assoc in HN, HI. split_and!; [by constructor|done..].
    + rewrite fmap_app. apply NoDup_app. split_and!; [done| |apply NoDup_singleton].
      intros x Hx ->%list_elem_of_singleton. by apply Hf.
Qed.

Lemma index_nodes_complete b nodes : forall prior m,
  Forall (node_ok b) nodes -> NoDup (gn_digest <$> prior ++ nodes) -> indexed prior m ->
  exists r, index_nodes b (length prior) nodes m = Ok r.
Proof.
  induction nodes as [|n nodes IH]; intros prior m HF HN Hi; cbn [index_nodes]; [by eexists|].
  apply Forall_cons in HF as [Hn HF]. rewrite (proj2 (validate_node_exact b n) Hn). cbn [rbind].
  assert (gn_digest n ∉ gn_digest <$> prior) as Hf.
  { rewrite fmap_app, fmap_cons in HN. apply NoDup_app in HN as (_ & HN & _). intros Hx%HN. apply Hx. by left. }
  rewrite bool_decide_false; [|by apply eq_None_not_Some, (indexed_fresh _ _ _ Hi)].
  destruct (IH (prior ++ [n]) (<[gn_digest n := length prior]> m)) as [r Hr];
    [done|by rewrite <- app_assoc|by apply indexed_snoc|].
  exists r. rewrite length_app in Hr. cbn in Hr. by replace (S (length prior)) with (length prior + 1)%nat by lia.
Qed.

Definition nodes_sorted (nodes : list DependencyGraphNodeV1) : Prop :=
  StronglySorted (fun x y => ltb (coordinate_key (gn_node x)) (coordinate_key (gn_node y)) = true) nodes.

(** The number of Intervention nodes, compared with that of the plan's Interventions. *)
Definition intervention_count (nodes : list DependencyGraphNodeV1) : Z :=
  len (filter (fun n => gn_class n = InterventionAssigned) nodes).

Record nodes_ok (b : PlanBindings) (nodes : list DependencyGraphNodeV1) : Prop := {
  ns_sorted : nodes_sorted nodes;
  ns_digests : NoDup (gn_digest <$> nodes);
  ns_nodes : Forall (node_ok b) nodes;
  ns_interventions : intervention_count nodes = len (pl_interventions (pb_plan b));
}.

Lemma validate_nodes_ok b nodes by_digest :
  validate_nodes b nodes = Ok by_digest -> nodes_ok b nodes /\ indexed nodes by_digest.
Proof.
  unfold validate_nodes, graph_ordered. intros Hv. apply rbind_ok_inv in Hv as ([] & Hs%ascending_sorted & Hv).
  apply rbind_ok_inv in Hv as (m & Hi & Hv). fold (intervention_count nodes) in Hv.
  destruct (Z.eqb_spec (intervention_count nodes) (len (pl_interventions (pb_plan b)))) as [Hc|]; [|done].
  injection Hv as <-. apply (index_nodes_sound b nodes []) in Hi as (HF & HN & HI); [|by intros ??; naive_solver|constructor].
  split; [|done]. by split.
Qed.

Lemma validate_nodes_complete b nodes :
  nodes_ok b nodes -> exists by_digest, validate_nodes b nodes = Ok by_digest.
Proof.
  intros [H1 H2 H3 H4]. unfold validate_nodes, graph_ordered. rewrite (proj2 (ascending_sorted _ _ _ _) H1). cbn [rbind].
  destruct (index_nodes_complete b nodes [] ∅) as [r Hr]; [done..|by intros ??; naive_solver|]. cbn in Hr.
  rewrite Hr. cbn [rbind]. unfold intervention_count in H4. rewrite H4, Z.eqb_refl. by eexists.
Qed.

(** ** Edges *)

Section Edges.
Context (b : PlanBindings) (nodes : list DependencyGraphNodeV1) (by_digest : gmap Hash nat).
Context (Hnodes : nodes_ok b nodes) (Hindex : indexed nodes by_digest).

Lemma declared_exact coordinate p :
  declared nodes by_digest coordinate = Some p <-> exists n, nodes !! p = Some n /\ gn_node n = coordinate.
Proof.
  unfold declared. rewrite bind_Some. split.
  - intros (q & Hq & Hd). case_bool_decide as Hb; [|done]. injection Hd as <-.
    apply fmap_Some in Hb as (n & Hn & ->). by exists n.
  - intros (n & Hn & <-). exists p. split; [apply Hindex; by exists n|]. by rewrite Hn, bool_decide_true.
Qed.

Lemma node_by_digest n m : n ∈ nodes -> m ∈ nodes -> gn_digest n = gn_digest m -> n = m.
Proof.
  intros [i Hi]%list_elem_of_lookup [j Hj]%list_elem_of_lookup Hd.
  pose proof (proj2 (Hindex (gn_digest n) i) (ex_intro _ n (conj Hi eq_refl))) as H1.
  pose proof (proj2 (Hindex (gn_digest n) j) (ex_intro _ m (conj Hj (eq_sym Hd)))) as H2.
  rewrite H1 in H2. injection H2 as <-. congruence.
Qed.

Lemma declares_input_exact n d : n ∈ nodes -> declares_input n d = true <-> d ∈ gn_input_digests n.
Proof.
  intros Hn. pose proof (proj1 (Forall_forall _ _) (ns_nodes _ _ Hnodes) n Hn) as Hok. unfold declares_input.
  pose proof (binary_search_sorted (fun x => x) d _ (no_sorted _ _ Hok)) as Hs. cbv beta in Hs.
  destruct (binary_search_by _ _) as [i|i]; cbn.
  - destruct Hs as (x & Hx & <-). split; [|done]. intros _. by eapply list_elem_of_lookup_2.
  - split; [done|]. rewrite list_fmap_id in Hs. done.
Qed.

Lemma check_edge_rules_exact c s e :
  check_edge_rules b c s e = Ok tt <->
  last_tick_of (dep_tick_range e) <= pl_horizon_tick (pb_plan b) /\ dep_class e = gn_class s
  /\ (gn_class s = PresentationOnly -> gn_class c = PresentationOnly)
  /\ (forall binding, root_binding b s = Some binding -> rb_authorization_digest binding = dep_authorization_digest e).
Proof.
  unfold check_edge_rules. destruct (Z.ltb_spec (pl_horizon_tick (pb_plan b)) (last_tick_of (dep_tick_range e)));
    [split; [done|lia]|].
  repeat case_bool_decide; cbn; destruct (root_binding b s) as [binding|]; cbn; repeat case_bool_decide; cbn;
    (split; [done || naive_solver|]); intros (? & ? & ? & Ha); try done; try naive_solver; by rewrite (Ha _ eq_refl) in *.
Qed.

(** The checks of an edge accept exactly the edges of the account, and give the
    positions of their two ends. *)
Lemma validate_edge_exact e ps pc :
  validate_edge b nodes by_digest e = Ok (ps, pc) <->
  exists s c, nodes !! ps = Some s /\ nodes !! pc = Some c /\ edge_ok b nodes e s c.
Proof.
  unfold validate_edge. split.
  - destruct (declared _ _ (dep_consumer e)) as [p|] eqn:Hp; [|done].
    destruct (declared _ _ (dep_source e)) as [q|] eqn:Hq; [|done].
    apply declared_exact in Hp as (c & Hc & Hce). apply declared_exact in Hq as (s & Hs & Hse). rewrite Hc, Hs.
    pose proof (list_elem_of_lookup_2 _ _ _ Hc). pose proof (list_elem_of_lookup_2 _ _ _ Hs).
    destruct (declares_input c _) eqn:Hd; [|done]. apply declares_input_exact in Hd; [|done]. intros Hr.
    apply rbind_ok_inv in Hr as ([] & (? & ? & ? & ?)%check_edge_rules_exact & [= <- <-]). exists s, c.
    split_and!; [done..|]. rewrite <- Hse in Hd. by split.
  - intros (s & c & Hs & Hc & [[? Hse] [? Hce] Hd ? ? ? ?]).
    rewrite (proj2 (declared_exact (dep_consumer e) pc)) by (by exists c).
    rewrite (proj2 (declared_exact (dep_source e) ps)) by (by exists s). rewrite Hc, Hs, <- Hse.
    change (nd_artifact_digest (gn_node s)) with (gn_digest s).
    rewrite (proj2 (declares_input_exact c _ ltac:(done)) Hd). by rewrite (proj2 (check_edge_rules_exact c s e)).
Qed.

Lemma validate_edge_some e :
  (exists ps, validate_edge b nodes by_digest e = Ok ps) <-> exists s c, edge_ok b nodes e s c.
Proof.
  split.
  - intros [[ps pc] (s & c & _ & _ & Hok)%validate_edge_exact]. by exists s, c.
  - intros (s & c & Hok). destruct (list_elem_of_lookup_1 _ _ (proj1 (eo_source _ _ _ _ _ Hok))) as [ps Hs].
    destruct (list_elem_of_lookup_1 _ _ (proj1 (eo_consumer _ _ _ _ _ Hok))) as [pc Hc].
    exists (ps, pc). apply validate_edge_exact. by exists s, c.
Qed.

(** *** The scan of the edges *)

Definition scan_edges (edges : list InputDependencyV1) : list (nat * nat) * option KeyedEdgeError :=
  fold_left (scan_edge b nodes by_digest) edges ([], None).

Lemma scan_edges_snoc edges e :
  scan_edges (edges ++ [e]) = scan_edge b nodes by_digest (scan_edges edges) e.
Proof. unfold scan_edges. by rewrite fold_left_app. Qed.

Lemma scan_outgoing edges p :
  p ∈ (scan_edges edges).1 <-> exists e, e ∈ edges /\ validate_edge b nodes by_digest e = Ok p.
Proof.
  induction edges as [|e edges IH] using rev_ind; [set_solver|]. rewrite scan_edges_snoc. unfold scan_edge.
  destruct (validate_edge b nodes by_digest e) as [q|err] eqn:He; cbn; [rewrite elem_of_app, list_elem_of_singleton|]; rewrite IH.
  - setoid_rewrite elem_of_app. setoid_rewrite list_elem_of_singleton. split.
    + intros [(x & Hx & Hv)| ->]; [exists x; auto|exists e; auto].
    + intros (x & [Hx| ->] & Hv); [left; by exists x|right; congruence].
  - setoid_rewrite elem_of_app. setoid_rewrite list_elem_of_singleton.
    split; [naive_solver|]. intros (x & [Hx| ->] & Hv); [by exists x|by rewrite He in Hv].
Qed.

(** The error kept is that of the least edge key that fails; edges whose key ties
    keep the first. *)
Lemma scan_first edges :
  match (scan_edges edges).2 with
  | None => Forall (fun e => is_ok (validate_edge b nodes by_digest e) = true) edges
  | Some (key, error) =>
      (exists e, e ∈ edges /\ edge_coordinate e = key /\ validate_edge b nodes by_digest e = Err error)
      /\ forall e, e ∈ edges -> is_ok (validate_edge b nodes by_digest e) = false -> leb key (edge_coordinate e) = true
  end.
Proof.
  induction edges as [|e edges IH] using rev_ind; [constructor|]. rewrite scan_edges_snoc. unfold scan_edge.
  destruct (validate_edge b nodes by_digest e) as [q|err] eqn:He; cbn [fst snd].
  - destruct ((scan_edges edges).2) as [[key error]|].
    + destruct IH as [(x & Hx & Hk) Hall]. split; [exists x; set_solver|].
      intros y [Hy| ->%list_elem_of_singleton]%elem_of_app; [by apply Hall|by rewrite He].
    + apply Forall_app. split; [done|]. constructor; [by rewrite He|done].
  - destruct ((scan_edges edges).2) as [[key error]|].
    + destruct IH as [(x & Hx & Hk) Hall]. destruct (ltb (edge_coordinate e) key) eqn:Hl.
      * split; [exists e; set_solver|]. intros y [Hy| ->%list_elem_of_singleton]%elem_of_app; [|by rewrite leb_refl].
        intros Hf. eapply leb_trans; [by apply ltb_leb|]. by apply Hall.
      * split; [exists x; set_solver|]. intros y [Hy| ->%list_elem_of_singleton]%elem_of_app; [by apply Hall|].
        intros _. by rewrite leb_ltb, Hl.
    + split; [exists e; set_solver|]. intros y [Hy| ->%list_elem_of_singleton]%elem_of_app; [|by rewrite leb_refl].
      rewrite Forall_forall in IH. by rewrite (IH _ Hy).
Qed.

Lemma scan_edges_ok edges :
  (scan_edges edges).2 = None <-> Forall (fun e => exists s c, edge_ok b nodes e s c) edges.
Proof.
  rewrite (Forall_iff _ _ (fun e => is_ok (validate_edge b nodes by_digest e) = true)).
  - pose proof (scan_first edges) as Hs. destruct ((scan_edges edges).2) as [[key error]|]; [|done].
    destruct Hs as [(e & He & _ & Hv) _]. split; [done|]. intros Hf. rewrite Forall_forall in Hf.
    specialize (Hf _ He). by rewrite Hv in Hf.
  - intros e. rewrite <- validate_edge_some. destruct (validate_edge b nodes by_digest e); cbn; naive_solver.
Qed.
End Edges.

(** ** Gaps *)

Lemma coordinate_lt x y : ltb (coordinate_key x) (coordinate_key y) = true -> ltb x y = true.
Proof.
  change (ltb x y) with (ltb (node_tuple x) (node_tuple y)). unfold node_tuple, coordinate_key. rewrite !ltb_pair.
  destruct (cmp (nd_tick x) _); [|done..]. destruct (cmp (nd_scheduler_position x) _); [|done..].
  destruct (cmp (nd_owner_id x) _); [|done..]. unfold ltb at 1. by destruct (cmp (nd_output_ordinal x) _).
Qed.

Section Gaps.
Context (b : PlanBindings) (nodes : list DependencyGraphNodeV1) (by_digest : gmap Hash nat).
Context (Hnodes : nodes_ok b nodes) (Hindex : indexed nodes by_digest).

Lemma gap_lt n m s t :
  ltb (gap n s) (gap m t) = match cmp (gn_node n) (gn_node m) with Lt => true | Eq => ltb s t | Gt => false end.
Proof. change (ltb (gap n s) (gap m t)) with (ltb (gn_node n, s) (gn_node m, t)). apply ltb_pair. Qed.

Lemma node_gaps_sorted n present :
  node_ok b n -> StronglySorted (fun x y => ltb x y = true) (node_gaps n present).
Proof.
  intros Hn. unfold node_gaps. apply StronglySorted_app_2.
  - intros u v Hu (s & -> & _)%list_elem_of_fmap. destruct (_ && _) in Hu; [|by apply not_elem_of_nil in Hu].
    apply list_elem_of_singleton in Hu as ->. by rewrite gap_lt, cmp_refl.
  - destruct (_ && _); repeat constructor.
  - eapply StronglySorted_fmap; [|apply sorted_filter, Hn]. intros x y Hxy. by rewrite gap_lt, cmp_refl.
Qed.

Lemma gap_consumer n present g : g ∈ node_gaps n present -> exists source, g = gap n source.
Proof.
  unfold node_gaps. rewrite elem_of_app, list_elem_of_fmap. intros [Hg|(s & -> & _)]; [|by exists (Some s)].
  destruct (_ && _) in Hg; [|by apply not_elem_of_nil in Hg]. apply list_elem_of_singleton in Hg as ->. by exists None.
Qed.

Definition all_gaps (present : gset (Hash * Hash)) : list UnknownEdgeCoordinateV1 :=
  concat ((fun n => node_gaps n present) <$> nodes).

Lemma all_gaps_sorted present : StronglySorted (fun x y => ltb x y = true) (all_gaps present).
Proof.
  unfold all_gaps. destruct Hnodes as [Hs _ Hf _]. rewrite Forall_forall in Hf.
  eapply sorted_concat; [exact Hs|intros n Hn; by apply node_gaps_sorted, Hf|].
  intros n m u v Hlt%coordinate_lt [s ->]%gap_consumer [t ->]%gap_consumer. rewrite gap_lt.
  by rewrite (proj1 (ltb_lt _ _) Hlt).
Qed.

(** *** The edges that are there *)

Lemma present_exact edges c d outgoing :
  (forall p, p ∈ outgoing <-> exists e, e ∈ edges /\ validate_edge b nodes by_digest e = Ok p) ->
  Forall (fun e => exists s c, edge_ok b nodes e s c) edges -> c ∈ nodes ->
  (gn_digest c, d) ∈ present_edges nodes outgoing
  <-> exists e, e ∈ edges /\ dep_consumer e = gn_node c /\ nd_artifact_digest (dep_source e) = d.
Proof.
  intros Hout Hok Hc. unfold present_edges. rewrite elem_of_list_to_set, list_elem_of_omap. rewrite Forall_forall in Hok. split.
  - intros ([ps pc] & Hp & Hb). apply Hout in Hp as (e & He & Hv).
    apply validate_edge_exact in Hv as (s & c' & Hs & Hc' & [[_ Hse] [Hin Hce] _ _ _ _ _]); [|done..].
    cbn in Hb. rewrite Hc', Hs in Hb. cbn in Hb. injection Hb as Hd <-.
    rewrite (node_by_digest nodes by_digest Hindex c' c) in Hce by done. exists e. by rewrite <- Hse.
  - intros (e & He & Hce & <-). destruct (Hok e He) as (s & c' & Hedge). pose proof Hedge as [[Hs Hse] [Hin Hce'] _ _ _ _ _].
    apply list_elem_of_lookup in Hs as [ps Hps], Hin as [pc Hpc]. exists (ps, pc). split.
    + apply Hout. exists e. split; [done|]. apply validate_edge_exact; [done..|]. by exists s, c'.
    + cbn. rewrite Hpc, Hps. cbn. unfold gn_digest. by rewrite Hse, Hce', Hce.
Qed.

Lemma all_gaps_exact edges outgoing g :
  (forall p, p ∈ outgoing <-> exists e, e ∈ edges /\ validate_edge b nodes by_digest e = Ok p) ->
  Forall (fun e => exists s c, edge_ok b nodes e s c) edges ->
  g ∈ all_gaps (present_edges nodes outgoing) <-> is_gap nodes edges g.
Proof.
  intros Hout Hok. unfold all_gaps. rewrite elem_of_concat_map. unfold node_gaps. split.
  - intros (n & Hn & [Hg|(d & -> & [Hd Hin]%list_elem_of_filter)%list_elem_of_fmap]%elem_of_app).
    + destruct (_ && _) eqn:Hb in Hg; [|by apply not_elem_of_nil in Hg]. apply list_elem_of_singleton in Hg as ->.
      bool_props. apply gap_closure; try done. by apply length_zero_iff_nil, Nat2Z.inj.
    + apply gap_input; [done..|]. intros e He Hc Hs. apply Hd, (present_exact edges); [done..|]. by exists e.
  - intros [n Hn H1 H2 H3|n d Hn Hd He]; exists n; (split; [done|]); apply elem_of_app.
    + left. rewrite !bool_decide_true, H3 by done. by left.
    + right. apply list_elem_of_fmap. exists d. split; [done|]. apply list_elem_of_filter. split; [|done].
      intros (e & Hin & Hc & Hs)%(present_exact edges); [|done..]. by apply (He e).
Qed.
End Gaps.

(** ** Bounds and bindings *)

Definition input_count (nodes : list DependencyGraphNodeV1) : Z :=
  len (concat (gn_input_digests <$> nodes)).

Record within_bounds (bounds : DependencyGraphBoundsV1) (nodes : list DependencyGraphNodeV1)
    (edges : list InputDependencyV1) : Prop := {
  wb_contract : max_nodes bounds <= MAX_DEPENDENCY_GRAPH_NODES_V1 /\ max_edges bounds <= MAX_DEPENDENCY_GRAPH_EDGES_V1;
  wb_nodes : len nodes <= max_nodes bounds;
  wb_edges : len edges <= max_edges bounds;
  wb_causes : Forall (fun n => len (gn_input_digests n) <= MAX_CAUSE_DIGESTS_V1) nodes;
  wb_inputs : input_count nodes <= max_edges bounds;
}.

Lemma declared_inputs_sum nodes : declared_inputs nodes = Z.min (input_count nodes) U64_MAX.
Proof.
  unfold declared_inputs, input_count. induction nodes as [|n nodes IH] using rev_ind; [done|].
  rewrite fold_left_app. cbn [fold_left]. rewrite IH, fmap_app, concat_app, len_app. cbn [fmap list_fmap concat].
  rewrite app_nil_r. unfold saturating_add. pose proof (len_nonneg (gn_input_digests n)). lia.
Qed.

Lemma check_work_bounds_exact bounds nodes edges :
  check_work_bounds bounds nodes edges = Ok tt <-> within_bounds bounds nodes edges.
Proof.
  unfold check_work_bounds. rewrite declared_inputs_sum.
  assert (existsb (fun n => MAX_CAUSE_DIGESTS_V1 <? len (gn_input_digests n)) nodes = false
    <-> Forall (fun n => len (gn_input_digests n) <= MAX_CAUSE_DIGESTS_V1) nodes) as Hc.
  { induction nodes as [|n l IH]; cbn; [done|]. rewrite orb_false_iff, Forall_cons, IH, Z.ltb_ge. done. }
  unfold MAX_DEPENDENCY_GRAPH_NODES_V1, MAX_DEPENDENCY_GRAPH_EDGES_V1. split.
  - case_match eqn:Hb1; [done|]. case_match eqn:Hb2; [done|]. intros _.
    rewrite !orb_false_iff, Hc in Hb2. rewrite !orb_false_iff in Hb1. rewrite !Z.ltb_ge in *.
    destruct Hb1, Hb2 as [[[??]?]?]. unfold U64_MAX in *. split; unfold MAX_DEPENDENCY_GRAPH_NODES_V1, MAX_DEPENDENCY_GRAPH_EDGES_V1; (done || lia).
  - intros [[] ?? Hf%Hc ?]. rewrite Hf. unfold MAX_DEPENDENCY_GRAPH_NODES_V1, MAX_DEPENDENCY_GRAPH_EDGES_V1 in *.
    rewrite !(proj2 (Z.ltb_ge _ _)); cbn; (done || lia).
Qed.

(** The bindings of a plan: the plan is valid and its Interventions have digests. *)
Lemma bindings_new_ok `{Ciborium} `{Blake3} plan b :
  bindings_new plan = Ok b -> pb_plan b = plan /\ plan_ok plan.
Proof.
  unfold bindings_new. intros Hb. apply rbind_ok_inv in Hb as ([] & Hv%plan_validate_ok & Hb).
  apply rbind_ok_inv in Hb as (entries & _ & [= <-]). done.
Qed.

Lemma collect_map_elem {K V} `{Countable K} (entries : list (K * V)) k v :
  collect_map entries !! k = Some v -> (k, v) ∈ entries.
Proof.
  unfold collect_map. induction entries as [|[k' v'] l IH] using rev_ind; [done|].
  rewrite fold_left_app. cbn. intros Hk. apply elem_of_app. destruct (decide (k' = k)) as [->|Hne].
  - rewrite lookup_insert_eq in Hk. injection Hk as ->. right. by left.
  - rewrite lookup_insert_ne in Hk by done. left. by apply IH.
Qed.

(** Every Intervention the bindings hold is one of the plan. *)
Lemma bindings_interventions `{Ciborium} `{Blake3} plan b d i :
  bindings_new plan = Ok b -> pb_interventions b !! d = Some i -> i ∈ pl_interventions plan.
Proof.
  unfold bindings_new. intros Hb. apply rbind_ok_inv in Hb as ([] & _ & Hb).
  apply rbind_ok_inv in Hb as (entries & He%map_err_ok_inv & [= <-]). intros Hin%collect_map_elem.
  revert entries He Hin. induction (pl_interventions plan) as [|j l IH]; intros entries He Hin; cbn in He.
  - injection He as <-. by apply not_elem_of_nil in Hin.
  - apply rbind_ok_inv in He as (e & Hj & He). apply rbind_ok_inv in He as (es & Hl & [= <-]).
    apply rbind_ok_inv in Hj as (id & _ & [= <-]).
    apply elem_of_cons in Hin as [[= _ ->]|Hin]; [by left|right; by eapply IH].
Qed.

(** An Intervention node at or before the parent cut is bound by no Intervention of
    the plan: they all take effect after it. *)
Lemma inherited_unbound `{Ciborium} `{Blake3} plan b n :
  bindings_new plan = Ok b -> gn_class n = InterventionAssigned -> nd_tick (gn_node n) <= pl_parent_cut_tick plan ->
  root_binding b n = None.
Proof.
  intros Hb Hc Ht. unfold root_binding. rewrite Hc. destruct (bindings_new_ok _ _ Hb) as [_ Hp].
  destruct (pb_interventions b !! _) as [i|] eqn:Hi; [|done].
  pose proof (po_window _ Hp _ (bindings_interventions _ _ _ _ Hb Hi)). pose proof (po_first _ Hp).
  destruct (Z.eqb_spec (int_effective_tick i) (nd_tick (gn_node n))); [lia|done].
Qed.

(** ** The graph *)

Record edges_ok `{Ciborium} `{Blake3} (b : PlanBindings) (nodes : list DependencyGraphNodeV1)
    (edges : list InputDependencyV1) : Prop := {
  es_digests : Forall (fun e => exists d, dependency_digest e = Ok d) edges;
  es_sorted : StronglySorted (fun x y => ltb (edge_order_key x) (edge_order_key y) = true) edges;
  es_edges : Forall (fun e => exists s c, edge_ok b nodes e s c) edges;
}.

Lemma validate_edges_ok `{Ciborium} `{Blake3} b nodes by_digest edges scan :
  validate_edges b nodes by_digest edges = Ok scan <->
  exists digests, try_collect dependency_digest edges = Ok digests
    /\ StronglySorted (fun x y => ltb (edge_order_key x) (edge_order_key y) = true) edges
    /\ scan = MkEdgeScan digests (merge_sort position_le (scan_edges b nodes by_digest edges).1)
                (scan_edges b nodes by_digest edges).2.
Proof.
  unfold validate_edges, validate_input_dependency_list_order_v1, order_cmp. split.
  - intros Hv. apply rbind_ok_inv in Hv as (d & Hd%map_err_ok_inv & [= <-]).
    apply rbind_ok_inv in Hd as (d' & Hd & Ho). apply rbind_ok_inv in Ho as ([] & Ho%ascending_sorted & [= <-]). by exists d'.
  - intros (d & Hd & Ho & ->). rewrite Hd. cbn [rbind]. by rewrite (proj2 (ascending_sorted _ _ _ _) Ho).
Qed.

(** The recorded gaps, in order; the reject policy admits none. *)
Record gaps_ok (plan : CounterfactualPlanV1) (nodes : list DependencyGraphNodeV1) (edges : list InputDependencyV1)
    (gaps : list UnknownEdgeCoordinateV1) : Prop := {
  gk_sorted : StronglySorted (fun x y => ltb x y = true) gaps;
  gk_exact : forall g, g ∈ gaps <-> is_gap nodes edges g;
  gk_reject : pl_unknown_edge_policy plan = Reject -> gaps = [];
  gk_bound : len gaps <= MAX_UNKNOWN_EDGE_COORDINATES_V1;
}.

Lemma take_bound {A} (l : list A) m :
  len (take (Z.to_nat (m + 1)) l) <= m -> take (Z.to_nat (m + 1)) l = l.
Proof. unfold len. rewrite length_take. intros Hm. apply take_ge. lia. Qed.

Lemma missing_edges_exact b plan nodes by_digest edges gaps :
  nodes_ok b nodes -> indexed nodes by_digest ->
  missing_edges (pl_unknown_edge_policy plan) nodes (merge_sort position_le (scan_edges b nodes by_digest edges).1)
    (scan_edges b nodes by_digest edges).2 = Ok gaps
  <-> Forall (fun e => exists s c, edge_ok b nodes e s c) edges /\ gaps_ok plan nodes edges gaps.
Proof.
  intros Hn Hi. rewrite <- (scan_edges_ok b nodes by_digest Hn Hi). unfold missing_edges.
  set (present := present_edges _ _). fold (all_gaps nodes present).
  pose proof (all_gaps_sorted b nodes Hn present) as Hsort.
  assert ((scan_edges b nodes by_digest edges).2 = None -> forall g, g ∈ all_gaps nodes present <-> is_gap nodes edges g) as Hex.
  { intros Hs%scan_edges_ok g; [|done..]. apply (all_gaps_exact b nodes by_digest Hn Hi); [|done].
    intros p. rewrite merge_sort_Permutation. by apply scan_outgoing. }
  destruct ((scan_edges b nodes by_digest edges).2) as [[key error]|].
  - destruct (pl_unknown_edge_policy plan); cbn; [|naive_solver].
    destruct (head _) as [g|]; cbn; [destruct (ltb _ _)|]; naive_solver.
  - specialize (Hex eq_refl). split.
    + intros Hg. split; [done|].
      assert (gaps = all_gaps nodes present /\ (pl_unknown_edge_policy plan = Reject -> gaps = [])
        /\ len gaps <= MAX_UNKNOWN_EDGE_COORDINATES_V1) as (-> & ? & ?); [|by split].
      destruct (pl_unknown_edge_policy plan).
      * cbn in Hg. destruct (all_gaps nodes present); [|done]. injection Hg as <-. done.
      * destruct (Z.ltb_spec MAX_UNKNOWN_EDGE_COORDINATES_V1 (len (take (Z.to_nat (MAX_UNKNOWN_EDGE_COORDINATES_V1 + 1)) (all_gaps nodes present)))) as [|Hle]; [done|].
        injection Hg as <-. pose proof (take_bound _ _ Hle) as Ht. rewrite Ht in Hle |- *. done.
    + intros [_ [H1 H2 H3 H4]]. assert (gaps = all_gaps nodes present) as ->.
      { apply sorted_unique; [done..|]. intros x. rewrite H2, Hex. done. }
      destruct (pl_unknown_edge_policy plan); [by rewrite H3|].
      rewrite take_ge; [by rewrite (proj2 (Z.ltb_ge _ _))|]. revert H4. unfold len, MAX_UNKNOWN_EDGE_COORDINATES_V1. lia.
Qed.

Section Validation.
Context `{Ciborium} `{Blake3}.

(** What validation leaves: the parts of the graph, and the contract they satisfy. *)
Record graph_of (plan : CounterfactualPlanV1) (nodes : list DependencyGraphNodeV1) (edges : list InputDependencyV1)
    (b : PlanBindings) (g : ValidatedDependencyGraphV1) : Prop := {
  go_bindings : bindings_new plan = Ok b;
  go_nodes : nodes_ok b nodes;
  go_edges : edges_ok b nodes edges;
  go_gaps : gaps_ok plan nodes edges (vg_unknown_edge_coordinates g);
  go_index : indexed nodes (vg_by_digest g);
  go_digests : try_collect dependency_digest edges = Ok (vg_edge_digests g);
  go_outgoing : vg_outgoing g = merge_sort position_le (scan_edges b nodes (vg_by_digest g) edges).1;
  go_parts : vg_nodes g = nodes /\ vg_edges g = edges /\ vg_plan_digest g = pl_plan_digest plan
    /\ vg_parent_cut_digest g = pl_parent_cut_digest plan
    /\ vg_classification_bundle_digest g = pl_classification_bundle_digest plan
    /\ vg_first_tick g = pl_first_tick plan /\ vg_horizon_tick g = pl_horizon_tick plan
    /\ vg_unknown_edge_policy g = pl_unknown_edge_policy plan;
}.

Lemma collect_some {E A B} (f : A -> result E B) l :
  (exists ys, try_collect f l = Ok ys) <-> Forall (fun x => exists y, f x = Ok y) l.
Proof.
  induction l as [|x l IH]; cbn [try_collect]; [split; [done|by eexists]|]. rewrite Forall_cons, <- IH.
  destruct (f x); cbn; [|naive_solver]. destruct (try_collect f l); cbn; naive_solver.
Qed.

Lemma validate_graph_inv plan bounds nodes edges g :
  validate_dependency_graph_v1 plan bounds nodes edges = Ok g ->
  within_bounds bounds nodes edges /\ exists b, graph_of plan nodes edges b g.
Proof.
  unfold validate_dependency_graph_v1. intros Hv. apply rbind_ok_inv in Hv as ([] & Hw%check_work_bounds_exact & Hv).
  split; [done|]. apply rbind_ok_inv in Hv as (b & Hb%map_err_ok_inv & Hv). exists b.
  apply rbind_ok_inv in Hv as (m & Hm & Hv). apply rbind_ok_inv in Hv as (scan & (d & Hd & Hs & ->)%validate_edges_ok & Hv).
  cbn [es_outgoing es_first_error es_edge_digests] in Hv. apply rbind_ok_inv in Hv as (gaps & Hg & [= <-]).
  apply validate_nodes_ok in Hm as [Hn Hi]. apply missing_edges_exact in Hg as [He Hg]; [|done..].
  split; try done. split; [|done..]. apply collect_some. by exists d.
Qed.

Lemma validate_graph_complete plan bounds nodes edges b gaps :
  within_bounds bounds nodes edges -> bindings_new plan = Ok b -> nodes_ok b nodes -> edges_ok b nodes edges ->
  gaps_ok plan nodes edges gaps ->
  exists g, validate_dependency_graph_v1 plan bounds nodes edges = Ok g /\ vg_unknown_edge_coordinates g = gaps.
Proof.
  intros Hw Hb Hn [Hd Hs He] Hg. unfold validate_dependency_graph_v1.
  rewrite (proj2 (check_work_bounds_exact _ _ _) Hw), Hb. cbn [rbind map_err].
  destruct (validate_nodes_complete b nodes Hn) as [m Hm]. rewrite Hm. cbn [rbind].
  apply validate_nodes_ok in Hm as [_ Hi]. apply collect_some in Hd as [d Hd].
  rewrite (proj2 (validate_edges_ok b nodes m edges _) (ex_intro _ d (conj Hd (conj Hs eq_refl)))).
  cbn [rbind es_outgoing es_first_error es_edge_digests].
  rewrite (proj2 (missing_edges_exact b plan nodes m edges gaps Hn Hi) (conj He Hg)). cbn [rbind]. by eexists.
Qed.

(** C13: validation accepts exactly the closed graphs of a plan and records exactly
    their gaps.  The count bounds hold, the plan is valid, every node is well formed,
    in its tick range and, if it is a root, bound by the plan or inherited; nodes
    are in order and have distinct digests; every edge joins declared nodes and
    obeys the rules; and the recorded coordinates are, in order, the required edges
    that are absent, none of them under the reject policy. *)
Theorem dependency_graph_exact plan bounds nodes edges gaps :
  (exists g, validate_dependency_graph_v1 plan bounds nodes edges = Ok g /\ vg_unknown_edge_coordinates g = gaps)
  <-> within_bounds bounds nodes edges
      /\ exists b, bindings_new plan = Ok b /\ nodes_ok b nodes /\ edges_ok b nodes edges
          /\ gaps_ok plan nodes edges gaps.
Proof.
  split.
  - intros (g & (Hw & b & Hg)%validate_graph_inv & <-). split; [done|]. exists b. destruct Hg. done.
  - intros (Hw & b & Hb & Hn & He & Hg). by eapply validate_graph_complete.
Qed.
End Validation.
