(* ===== verification/RecomputationFrontier.v ===== *)
(** * The recomputation frontier

    [crates/pos-time/src/counterfactual/frontier.rs]: the RCF1 frontier of a
    validated graph, the presentation outputs it makes stale, and the digest of a
    graph.

    The loop of [reachable_from] runs on fuel, one turn for every node and one more.
    [None] says that it ran out or that the first affected node, which the source
    indexes, does not exist; the theorems below prove that neither happens. *)

From Stdlib Require Import String ZArith Lia Bool Sorted.
From stdpp Require Import sorting.
From S2P Require Import Prelude Text Cbor Ordering Keys FallbackRecords StrictCbor PluginTrust WireSyntax.
From S2P Require Import TrustPolicy CfCodec CounterfactualInputs CounterfactualPlan FrontierArtifacts.
From S2P Require Import FrontierArtifactsProperties DependencyGraph DependencyGraphProperties.

Local Open Scope Z_scope.

Definition DEPENDENCY_GRAPH_DIGEST_DOMAIN_V1 : list byte :=
  list_byte_of_string "PiglorOS.CounterfactualDependencyGraph.v1".

Module FrontierError.
Inductive RecomputationFrontierErrorV1 :=
| PlanMismatch | ProvenanceMissing | Frontier (error : ArtifactError.FrontierArtifactErrorV1).
End FrontierError.

Notation FrontierResult := (result FrontierError.RecomputationFrontierErrorV1).

(** ** Traversal *)

Definition seeds (g : ValidatedDependencyGraphV1) : list DependencyGraphNodeV1 :=
  filter (fun n => gn_class n = InterventionAssigned) (vg_nodes g).

Notation NodeSet := (gmap DependencyNodeV1 DependencyGraphNodeV1).

(** The values of a node set, in the order of the coordinates. *)
Definition set_values (s : NodeSet) : list DependencyGraphNodeV1 := (btree_iter ltb s).*2.

Definition node_set (nodes : list DependencyGraphNodeV1) : NodeSet := collect_map ((fun n => (gn_node n, n)) <$> nodes).

(** The consumers of a layer that are not visited yet. *)
Definition next_layer (g : ValidatedDependencyGraphV1) (enter : DependencyClassV1) (visited : NodeSet)
    (layer : list DependencyGraphNodeV1) : NodeSet :=
  node_set (filter (fun c => gn_class c = enter /\ visited !! gn_node c = None)
              (concat ((fun n => consumers g (gn_digest n)) <$> layer))).

(** [visited.extend(next)]. *)
Definition extend (visited next : NodeSet) : NodeSet := next ∪ visited.

Fixpoint reach_loop (fuel : nat) (g : ValidatedDependencyGraphV1) (enter : DependencyClassV1) (visited : NodeSet)
    (layer : list DependencyGraphNodeV1) : option NodeSet :=
  match layer with
  | [] => Some visited
  | _ =>
      match fuel with
      | O => None
      | S fuel' =>
          let next := next_layer g enter visited layer in
          reach_loop fuel' g enter (extend visited next) (set_values next)
      end
  end.

Definition reachable_from (g : ValidatedDependencyGraphV1) (start : list DependencyGraphNodeV1) (enter : DependencyClassV1)
    : option NodeSet :=
  reach_loop (S (length (vg_nodes g))) g enter (node_set start) start.

Definition affected_nodes (g : ValidatedDependencyGraphV1) : option (list DependencyGraphNodeV1) :=
  set_values <$> reachable_from g (seeds g) EndogenousRecomputed.

(** The outputs before their coordinates are taken. *)
Definition affected_presentation (g : ValidatedDependencyGraphV1) : option (list DependencyGraphNodeV1) :=
  if is_complete g
  then affected ← affected_nodes g;
       visited ← reachable_from g affected PresentationOnly;
       Some (filter (fun n => gn_class n = PresentationOnly) (set_values visited))
  else Some (filter (fun n => gn_class n = PresentationOnly /\ gn_origin n = Provisional) (vg_nodes g)).

Definition affected_presentation_outputs_v1 (g : ValidatedDependencyGraphV1) : option (list DependencyNodeV1) :=
  (fun outputs => (gn_node <$> outputs : list DependencyNodeV1)) <$> affected_presentation g.

(** ** Owner frontiers *)

Definition owner_frontier (n : DependencyGraphNodeV1) (affected : gset Hash) : OwnerFrontierV1 :=
  let causes := filter (fun digest => digest ∈ affected) (gn_input_digests n) in
  MkOwnerFrontier (nd_owner_id (gn_node n)) (nd_tick (gn_node n)) (nd_scheduler_position (gn_node n))
    (nd_output_ordinal (gn_node n)) (if len causes =? 0 then [gn_digest n] else causes).

(** [filter(|node| owners.insert(..))]: the first node of each owner. *)
Fixpoint first_of_owner (owners : gset RString) (nodes : list DependencyGraphNodeV1) : list DependencyGraphNodeV1 :=
  match nodes with
  | [] => []
  | n :: rest =>
      let owner := nd_owner_id (gn_node n) in
      if bool_decide (owner ∈ owners) then first_of_owner owners rest
      else n :: first_of_owner ({[owner]} ∪ owners) rest
  end.

Definition owner_frontiers (affected : list DependencyGraphNodeV1) : list OwnerFrontierV1 :=
  let digests : gset Hash := list_to_set (gn_digest <$> affected) in
  (fun n => owner_frontier n digests) <$> first_of_owner ∅ affected.

(** ** The digest of a graph *)

Definition length_bytes (count : Z) : list byte := be_bytes 8 count.

Definition hash_node (n : DependencyGraphNodeV1) : list byte :=
  let c := gn_node n in
  be_bytes 8 (nd_tick c) ++ be_bytes 4 (nd_scheduler_position c) ++ length_bytes (str_len (nd_owner_id c))
  ++ as_bytes (nd_owner_id c) ++ be_bytes 4 (nd_output_ordinal c) ++ be_bytes 4 (nd_schema_id c)
  ++ raw (nd_artifact_digest c) ++ [byte_of_Z (class_code (gn_class n))]
  ++ length_bytes (len (gn_input_digests n)) ++ concat (raw <$> gn_input_digests n)
  ++ raw (gn_provenance_digest n).

(** What the hasher is fed behind the domain. *)
Definition graph_frame (g : ValidatedDependencyGraphV1) : list byte :=
  raw (vg_plan_digest g) ++ length_bytes (len (vg_nodes g)) ++ concat (hash_node <$> vg_nodes g)
  ++ length_bytes (len (vg_edge_digests g)) ++ concat (raw <$> vg_edge_digests g).

Definition dependency_graph_digest_v1 `{Blake3} (g : ValidatedDependencyGraphV1) : Hash :=
  separated_digest DEPENDENCY_GRAPH_DIGEST_DOMAIN_V1 (graph_frame g).

(** ** Derivation *)

Definition check_inputs (plan : CounterfactualPlanV1) (g : ValidatedDependencyGraphV1) (provenance_digest : Hash)
    : FrontierResult unit :=
  if negb (nonzero provenance_digest) then Err FrontierError.ProvenanceMissing
  else if bool_decide (pl_plan_digest plan = vg_plan_digest g) then Ok tt
  else Err FrontierError.PlanMismatch.

(** Every derived field, with the ones the caller supplies. *)
Definition unsealed_frontier `{Blake3} (g : ValidatedDependencyGraphV1) (frontier_id : Ulid) (provenance_digest : Hash)
    : option RecomputationFrontierV1 :=
  affected ← affected_nodes g;
  earliest ← gn_node <$> head affected;
  let fallback := negb (is_complete g) in
  Some (MkFrontier frontier_id (vg_plan_digest g) (vg_parent_cut_digest g) (dependency_graph_digest_v1 g)
    (gn_node <$> seeds g) (gn_node <$> affected) (owner_frontiers affected)
    (if fallback then vg_first_tick g else nd_tick earliest)
    (if fallback then 0 else nd_scheduler_position earliest)
    (if fallback then FullSuffixFromCut else Reject)
    (vg_unknown_edge_coordinates g) (vg_horizon_tick g) (vg_classification_bundle_digest g)
    provenance_digest hash_zero).

Definition derive_recomputation_frontier_v1 `{Ciborium} `{Blake3} (plan : CounterfactualPlanV1)
    (g : ValidatedDependencyGraphV1) (frontier_id : Ulid) (provenance_digest : Hash)
    : option (FrontierResult RecomputationFrontierV1) :=
  match check_inputs plan g provenance_digest with
  | Err e => Some (Err e)
  | Ok _ =>
      frontier ← unsealed_frontier g frontier_id provenance_digest;
      Some (map_err FrontierError.Frontier (frontier_seal frontier))
  end.

(** * The recomputation frontier: theorems

    The traversal of a validated graph terminates and finds exactly the nodes that
    the Interventions reach; the frontier is derived from them. *)

(** ** Ordered sets of nodes *)

Lemma btree_iter_sorted {K V} `{Countable K} `{!Ord K} `{!OrdLaws K} (m : gmap K V) :
  StronglySorted (fun x y => ltb x.1 y.1 = true) (btree_iter ltb m).
Proof.
  assert (StronglySorted (entry_le ltb) (btree_iter ltb m)) as Hs.
  { apply StronglySorted_merge_sort.
    - intros x y z. unfold entry_le. rewrite !Is_true_true, <- !leb_ltb. apply leb_trans.
    - intros x y. unfold entry_le. rewrite !Is_true_true, !negb_true_iff.
      destruct (ltb y.1 x.1) eqn:Hl; [right; by apply ltb_asym|by left]. }
  pose proof (btree_iter_keys_NoDup ltb m) as Hn. induction Hs as [|e l _ IH He]; [constructor|].
  cbn in Hn. apply NoDup_cons in Hn as [Hin Hn]. constructor; [by apply IH|]. rewrite Forall_forall in *.
  intros y Hy. specialize (He y Hy). unfold entry_le in He. apply Is_true_true, negb_true_iff in He.
  destruct (ltb_total _ _ He) as [Heq|]; [|done]. exfalso. apply Hin. rewrite <- Heq. by apply list_elem_of_fmap_2.
Qed.

(** A set holds every node under its coordinate. *)
Definition keyed (s : NodeSet) : Prop := forall k n, s !! k = Some n -> gn_node n = k.

Lemma elem_of_set_values s n : keyed s -> n ∈ set_values s <-> s !! gn_node n = Some n.
Proof.
  intros Hk. unfold set_values. rewrite list_elem_of_fmap. split.
  - intros ([k m] & -> & Hkm%elem_of_btree_iter). cbn. by rewrite (Hk _ _ Hkm).
  - intros Hn. exists (gn_node n, n). split; [done|]. by apply elem_of_btree_iter.
Qed.

Lemma set_values_sorted s : keyed s -> StronglySorted (fun x y => ltb (gn_node x) (gn_node y) = true) (set_values s).
Proof.
  intros Hk. unfold set_values. pose proof (btree_iter_sorted s) as Hs.
  assert (Forall (fun e => gn_node e.2 = e.1) (btree_iter ltb s)) as Hf by (apply Forall_btree_iter; exact Hk).
  induction Hs as [|e l _ IH He]; cbn; [constructor|]. apply Forall_cons in Hf as [Hn Hf]. constructor; [by apply IH|].
  rewrite Forall_fmap. rewrite Forall_forall in *. intros y Hy. cbn. rewrite Hn, (Hf _ Hy). by apply He.
Qed.

Lemma collect_map_lookup {K V} `{Countable K} (entries : list (K * V)) k v :
  (forall i x y, (i, x) ∈ entries -> (i, y) ∈ entries -> x = y) ->
  collect_map entries !! k = Some v <-> (k, v) ∈ entries.
Proof.
  unfold collect_map. induction entries as [|[i x] l IH] using rev_ind; intros Hfun.
  { cbn. split; [intros Hn; by apply lookup_empty_Some in Hn|by intros ?%not_elem_of_nil]. }
  rewrite fold_left_app. cbn [fold_left fst snd]. rewrite lookup_insert_Some, IH by set_solver.
  rewrite elem_of_app, list_elem_of_singleton. split; [naive_solver|].
  intros [Hin|[= -> ->]]; [|by left]. destruct (decide (i = k)) as [->|]; [|naive_solver].
  left. split; [done|]. apply (Hfun k); set_solver.
Qed.

Lemma node_set_lookup l k n :
  (forall x y, x ∈ l -> y ∈ l -> gn_node x = gn_node y -> x = y) ->
  node_set l !! k = Some n <-> n ∈ l /\ gn_node n = k.
Proof.
  intros Hinj. unfold node_set. rewrite collect_map_lookup.
  - rewrite list_elem_of_fmap. naive_solver.
  - intros i x y (x' & [= -> ->] & Hx)%list_elem_of_fmap (y' & [= Hxy ->] & Hy)%list_elem_of_fmap. by apply Hinj.
Qed.

(** ** What a node reaches *)

Section Reach.
Context `{Ciborium} `{Blake3}.
Context {plan : CounterfactualPlanV1} {nodes : list DependencyGraphNodeV1} {edges : list InputDependencyV1}.
Context {b : PlanBindings} {g : ValidatedDependencyGraphV1} (Hgraph : graph_of plan nodes edges b g).

(** An edge of the graph from [s] to [c]. *)
Definition feeds (s c : DependencyGraphNodeV1) : Prop :=
  s ∈ vg_nodes g /\ c ∈ vg_nodes g
  /\ exists e, e ∈ vg_edges g /\ dep_source e = gn_node s /\ dep_consumer e = gn_node c.

Inductive reaches (enter : DependencyClassV1) (start : list DependencyGraphNodeV1) : DependencyGraphNodeV1 -> Prop :=
| reaches_start n : n ∈ start -> reaches enter start n
| reaches_step s c : reaches enter start s -> feeds s c -> gn_class c = enter -> reaches enter start c.

Lemma graph_nodes : vg_nodes g = nodes.
Proof. apply Hgraph. Qed.

Lemma node_by_coordinate x y : x ∈ nodes -> y ∈ nodes -> gn_node x = gn_node y -> x = y.
Proof.
  intros Hx Hy Hxy. apply (node_by_digest nodes (vg_by_digest g)); [apply Hgraph|done..|]. unfold gn_digest. by rewrite Hxy.
Qed.

Lemma take_while_split {A} (p : A -> bool) l1 l2 :
  Forall (fun x => p x = true) l1 -> Forall (fun x => p x = false) l2 -> take_while p (l1 ++ l2) = l1.
Proof.
  induction 1 as [|x l1 Hx _ IH]; intros H2; cbn; [|by rewrite Hx, IH].
  destruct H2 as [|y l2 Hy _]; cbn; [done|]. by rewrite Hy.
Qed.

Lemma position_le_source (x1 x2 y1 y2 : nat) :
  position_le (x1, x2) (y1, y2) -> leb (Some x1) (Some y1) = true.
Proof.
  unfold position_le. rewrite Is_true_true, !leb_ltb, ltb_pair. unfold ltb. cbn.
  change (cmp (Some y1) (Some x1)) with (cmp y1 x1). by destruct (cmp y1 x1).
Qed.

Lemma position_le_total : Total position_le.
Proof.
  intros x y. unfold position_le. rewrite !Is_true_true, !leb_ltb, !negb_true_iff.
  destruct (ltb y x) eqn:Hl; [right; by apply ltb_asym|by left].
Qed.

Lemma position_le_trans : Transitive position_le.
Proof. intros x y z. unfold position_le. rewrite !Is_true_true. apply leb_trans. Qed.

(** The index of edges by source answers with the edges of that source. *)
Lemma outgoing_of (target : option nat) (outgoing : list (nat * nat)) :
  StronglySorted position_le outgoing ->
  forall p, p ∈ take_while (fun e : nat * nat => bool_decide (Some e.1 = target))
       (drop (partition_point (fun e : nat * nat => ltb (Some e.1) target) outgoing) outgoing)
  <-> p ∈ outgoing /\ Some p.1 = target.
Proof.
  intros Hs p. destruct (sorted_split (fun e : nat * nat => Some e.1) target outgoing) as (l1 & l2 & l3 & -> & H1 & H2 & H3).
  { eapply sorted_weaken; [|exact Hs]. intros [x1 x2] [y1 y2] _ _. apply position_le_source. }
  rewrite (partition_point_spec _ _ (length l1)).
  - rewrite drop_app_length, take_while_split.
    + rewrite !elem_of_app. rewrite Forall_forall in *. split; [intros Hp; split; [auto|by apply H2]|].
      intros [[Hp|[Hp|Hp]] Ht]; [|done|].
      * specialize (H1 _ Hp). cbv beta in H1. by rewrite Ht, ltb_irrefl in H1.
      * specialize (H3 _ Hp). cbv beta in H3. by rewrite Ht, ltb_irrefl in H3.
    + eapply Forall_impl; [exact H2|]. intros x Hx. by apply bool_decide_eq_true.
    + eapply Forall_impl; [exact H3|]. intros x Hx. apply bool_decide_eq_false. cbv beta in Hx. intros He. by rewrite He, ltb_irrefl in Hx.
  - split; [rewrite length_app; lia|]. rewrite Forall_forall in *. intros i x Hx. split.
    + intros Hlt. destruct (decide (i < length l1)%nat) as [|Hge]; [done|]. rewrite lookup_app_r in Hx by lia.
      apply list_elem_of_lookup_2, elem_of_app in Hx as [Hx|Hx].
      * specialize (H2 _ Hx). cbv beta in H2. by rewrite H2, ltb_irrefl in Hlt.
      * apply H3, ltb_asym in Hx. cbv beta in Hx. congruence.
    + intros Hi. rewrite lookup_app_l in Hx by done. by eapply H1, list_elem_of_lookup_2.
Qed.

Lemma consumers_exact s c : s ∈ nodes -> c ∈ consumers g (gn_digest s) <-> feeds s c.
Proof.
  intros Hs. pose proof (go_nodes _ _ _ _ _ Hgraph) as Hn. pose proof (go_index _ _ _ _ _ Hgraph) as Hi.
  pose proof (es_edges _ _ _ (go_edges _ _ _ _ _ Hgraph)) as He. rewrite Forall_forall in He.
  destruct (go_parts _ _ _ _ _ Hgraph) as (Hgn & Hge & _). unfold consumers, feeds. rewrite list_elem_of_omap. rewrite Hgn, Hge.
  assert (StronglySorted position_le (vg_outgoing g)) as Hsort.
  { rewrite (go_outgoing _ _ _ _ _ Hgraph).
    exact (@StronglySorted_merge_sort _ _ _ position_le_trans position_le_total _). }
  assert (forall p, p ∈ vg_outgoing g <-> exists e, e ∈ edges /\ validate_edge b nodes (vg_by_digest g) e = Ok p) as Hout.
  { intros p. rewrite (go_outgoing _ _ _ _ _ Hgraph), merge_sort_Permutation. by apply scan_outgoing. }
  setoid_rewrite (outgoing_of _ _ Hsort). split.
  - intros ([ps pc] & [Hp Hd] & Hc). apply Hout in Hp as (e & Hin & Hv). cbn in Hd, Hc.
    apply validate_edge_exact in Hv as (s' & c' & Hs' & Hc' & Hok); [|done..]. destruct Hok as [[_ Hse] [Hcin Hce] _ _ _ _ _].
    symmetry in Hd. apply (proj1 (Hi _ _)) in Hd as (s'' & Hs'' & Hd). rewrite Hs' in Hs''. injection Hs'' as <-.
    rewrite Hc in Hc'. injection Hc' as <-.
    assert (s' = s) as ->.
    { apply (node_by_digest nodes (vg_by_digest g)); [done| |done..]. by eapply list_elem_of_lookup_2. }
    split_and!; [done..|]. by exists e.
  - intros (_ & Hc & e & Hin & Hse & Hce). destruct (He e Hin) as (s' & c' & Hok).
    pose proof Hok as [[Hs' Hse'] [Hc' Hce'] _ _ _ _ _].
    assert (s' = s) as -> by (apply node_by_coordinate; [done..|congruence]).
    assert (c' = c) as -> by (apply node_by_coordinate; [done..|congruence]).
    apply list_elem_of_lookup in Hs' as [ps Hps], Hc' as [pc Hpc]. exists (ps, pc). cbn. split_and!; [..|done].
    + apply Hout. exists e. split; [done|]. apply validate_edge_exact; [done..|]. by exists s, c.
    + symmetry. apply Hi. by exists s.
Qed.

(** *** The loop *)

Section Loop.
Context (enter : DependencyClassV1) (start : list DependencyGraphNodeV1) (Hstart : forall n, n ∈ start -> n ∈ nodes).

Record reach_inv (visited : NodeSet) (layer : list DependencyGraphNodeV1) : Prop := {
  ri_keyed : keyed visited;
  ri_nodes : forall k n, visited !! k = Some n -> n ∈ nodes;
  ri_layer : forall n, n ∈ layer -> visited !! gn_node n = Some n;
  ri_sound : forall k n, visited !! k = Some n -> reaches enter start n;
  ri_start : forall n, n ∈ start -> visited !! gn_node n = Some n;
  ri_closed : forall s c, visited !! gn_node s = Some s -> s ∉ layer -> feeds s c -> gn_class c = enter ->
    visited !! gn_node c = Some c;
}.

Lemma next_layer_lookup visited layer k c :
  (forall n, n ∈ layer -> n ∈ nodes) ->
  next_layer g enter visited layer !! k = Some c
  <-> gn_node c = k /\ gn_class c = enter /\ visited !! k = None /\ exists s, s ∈ layer /\ feeds s c.
Proof.
  intros Hl. unfold next_layer.
  assert (forall x, x ∈ filter (fun c => gn_class c = enter /\ visited !! gn_node c = None)
      (concat ((fun n => consumers g (gn_digest n)) <$> layer))
    <-> (gn_class x = enter /\ visited !! gn_node x = None) /\ exists s, s ∈ layer /\ feeds s x) as Hf.
  { intros x. rewrite list_elem_of_filter, elem_of_concat_map. split; intros [Hx (n & Hn & Hc)]; (split; [done|]); exists n;
      (split; [done|]); by apply consumers_exact; [apply Hl|]. }
  rewrite node_set_lookup.
  - rewrite Hf. naive_solver.
  - intros x y (_ & s & _ & _ & Hx & _)%Hf (_ & t & _ & _ & Hy & _)%Hf. rewrite graph_nodes in *. by apply node_by_coordinate.
Qed.

Lemma layer_nodes visited layer n : reach_inv visited layer -> n ∈ layer -> n ∈ nodes.
Proof. intros Hi Hn. by eapply (ri_nodes _ _ Hi), (ri_layer _ _ Hi). Qed.

Lemma visited_lookup visited layer k n :
  reach_inv visited layer ->
  extend visited (next_layer g enter visited layer) !! k = Some n
  <-> next_layer g enter visited layer !! k = Some n \/ visited !! k = Some n.
Proof.
  intros Hi. unfold extend. rewrite lookup_union_Some_raw. split; [naive_solver|].
  intros [Hn|Hv]; [by left|]. right. split; [|done].
  destruct (next_layer g enter visited layer !! k) as [m|] eqn:Hm; [|done]. exfalso.
  apply next_layer_lookup in Hm as (_ & _ & Hnone & _); [congruence|]. intros x. by apply (layer_nodes visited).
Qed.

Lemma reach_inv_step visited layer :
  reach_inv visited layer ->
  reach_inv (extend visited (next_layer g enter visited layer)) (set_values (next_layer g enter visited layer)).
Proof.
  intros Hi. pose proof (fun x => layer_nodes _ _ x Hi) as Hl. pose proof Hi as [Hk Hn Hlay Hsound Hst Hcl].
  pose proof (fun k n => next_layer_lookup visited layer k n Hl) as Hnext.
  assert (keyed (next_layer g enter visited layer)) as Hkn by (intros k n Hx%Hnext; apply Hx).
  split.
  - intros k n [Hx|Hx]%visited_lookup; [by apply Hkn|by apply Hk|done].
  - intros k n [(_ & _ & _ & s & _ & Hs)%Hnext|Hx]%visited_lookup; [|by eapply Hn|done].
    destruct Hs as (_ & Hc & _). by rewrite graph_nodes in Hc.
  - intros n Hx%elem_of_set_values; [|done]. apply visited_lookup; [done|by left].
  - intros k n [(_ & Hc & _ & s & Hs & Hf)%Hnext|Hx]%visited_lookup; [|by eapply Hsound|done].
    eapply reaches_step; [|done..]. by eapply Hsound, Hlay.
  - intros n Hx%Hst. apply visited_lookup; [done|by right].
  - intros s c Hs Hni Hf Hc. apply visited_lookup in Hs as [Hs|Hs]; [exfalso; apply Hni; by apply elem_of_set_values| |done].
    apply visited_lookup; [done|]. destruct (decide (s ∈ layer)) as [Hin|Hnin]; [|right; by eapply Hcl].
    destruct (visited !! gn_node c) as [c'|] eqn:Hv.
    + right. f_equal. apply node_by_coordinate; [by eapply Hn| |by apply Hk in Hv].
      destruct Hf as (_ & Hc' & _). by rewrite graph_nodes in Hc'.
    + left. apply Hnext. split_and!; try done. by exists s.
Qed.

Lemma visited_size visited layer : reach_inv visited layer -> (size visited <= length nodes)%nat.
Proof.
  intros [Hk Hn _ _ _ _]. rewrite <- size_dom.
  assert (dom visited ⊆ (list_to_set (gn_node <$> nodes) : gset DependencyNodeV1)) as Hsub.
  { intros k [n Hkn]%elem_of_dom. apply elem_of_list_to_set, list_elem_of_fmap. exists n. split; [by symmetry; apply Hk|by eapply Hn]. }
  apply subseteq_size in Hsub. rewrite size_list_to_set, length_fmap in Hsub; [done|].
  apply (NoDup_fmap_1 nd_artifact_digest). rewrite <- list_fmap_compose. apply (go_nodes _ _ _ _ _ Hgraph).
Qed.

Lemma extend_size visited layer :
  reach_inv visited layer ->
  size (extend visited (next_layer g enter visited layer))
  = (size (next_layer g enter visited layer) + size visited)%nat.
Proof.
  intros Hi. unfold extend. apply map_size_disj_union, map_disjoint_spec. intros k x y Hx Hy.
  apply next_layer_lookup in Hx as (_ & _ & Hnone & _); [congruence|]. intros n. by apply (layer_nodes visited).
Qed.

(** The loop ends within its fuel, at a set closed under the edges it may enter. *)
Lemma reach_loop_ok fuel visited layer :
  reach_inv visited layer -> (length nodes < fuel + size visited)%nat ->
  exists final, reach_loop fuel g enter visited layer = Some final /\ reach_inv final [].
Proof.
  revert visited layer. induction fuel as [|fuel IH]; intros visited layer Hi Hfuel.
  - pose proof (visited_size _ _ Hi). lia.
  - destruct layer as [|n layer]; [by exists visited|]. cbn [reach_loop].
    pose proof (reach_inv_step _ _ Hi) as Hstep. pose proof (extend_size _ _ Hi) as Hsize.
    set (next := next_layer g enter visited (n :: layer)) in *.
    destruct (decide (next = ∅)) as [He|He].
    + rewrite He in *. exists (extend visited ∅). split; [by destruct fuel|done].
    + apply IH; [done|]. rewrite Hsize. assert (size next <> 0)%nat; [|lia]. by rewrite map_size_non_empty_iff.
Qed.

Lemma reach_inv_start : reach_inv (node_set start) start.
Proof.
  assert (forall k n, node_set start !! k = Some n <-> n ∈ start /\ gn_node n = k) as Hl.
  { intros k n. apply node_set_lookup. intros x y Hx%Hstart Hy%Hstart. by apply node_by_coordinate. }
  split.
  - by intros k n [_ ?]%Hl.
  - intros k n [Hn _]%Hl. by apply Hstart.
  - intros n Hn. by apply Hl.
  - intros k n [Hn _]%Hl. by constructor.
  - intros n Hn. by apply Hl.
  - intros s c [Hs _]%Hl Hni. done.
Qed.

(** The traversal returns, and what it returns is exactly what the start reaches. *)
Lemma reachable_from_exact :
  exists visited, reachable_from g start enter = Some visited /\ keyed visited
    /\ forall n, n ∈ set_values visited <-> reaches enter start n.
Proof.
  destruct (reach_loop_ok (S (length (vg_nodes g))) (node_set start) start reach_inv_start) as (final & Hr & Hi).
  { rewrite graph_nodes. lia. }
  exists final. split; [done|]. destruct Hi as [Hk Hn _ Hsound Hst Hcl]. split; [done|]. intros n.
  rewrite (elem_of_set_values _ _ Hk). split; [by eapply Hsound|].
  induction 1 as [n Hin|s c _ IH Hf Hc]; [by apply Hst|]. eapply Hcl; [done|apply not_elem_of_nil|done..].
Qed.
End Loop.
End Reach.

#[global] Arguments feeds : clear implicits.
#[global] Arguments reaches : clear implicits.

(** ** Owner frontiers *)

(** The earliest node of its owner. *)
Definition earliest_of_owner (l : list DependencyGraphNodeV1) (n : DependencyGraphNodeV1) : Prop :=
  n ∈ l /\ forall m, m ∈ l -> nd_owner_id (gn_node m) = nd_owner_id (gn_node n) -> leb (gn_node n) (gn_node m) = true.

Lemma first_of_owner_exact owners l n :
  StronglySorted (fun x y => ltb (gn_node x) (gn_node y) = true) l ->
  n ∈ first_of_owner owners l <-> nd_owner_id (gn_node n) ∉ owners /\ earliest_of_owner l n.
Proof.
  intros Hs. revert owners. unfold earliest_of_owner. induction Hs as [|x l _ IH Hx]; intros owners; cbn [first_of_owner].
  { split; [by intros ?%not_elem_of_nil|by intros (_ & ?%not_elem_of_nil & _)]. }
  rewrite Forall_forall in Hx.
  assert (forall m, m ∈ l -> leb (gn_node m) (gn_node x) = true -> False) as Hlast.
  { intros m Hm Hl. rewrite leb_ltb, (Hx _ Hm) in Hl. done. }
  case_bool_decide as Hin.
  - rewrite IH. setoid_rewrite elem_of_cons. split.
    + intros (Ho & Hn & Hmin). split_and!; [done|by right|]. intros m [->|Hm] He; [by rewrite <- He in Ho|by apply Hmin].
    + intros (Ho & [->|Hn] & Hmin); [done|]. split_and!; [done..|]. intros m Hm. apply Hmin. by right.
  - rewrite elem_of_cons, IH, not_elem_of_union, not_elem_of_singleton. setoid_rewrite elem_of_cons. split.
    + intros [->|([Hne Ho] & Hn & Hmin)].
      * split_and!; [done|by left|]. intros m [->|Hm] _; [apply leb_refl|by apply ltb_leb, Hx].
      * split_and!; [done|by right|]. intros m [->|Hm] He; [congruence|by apply Hmin].
    + intros (Ho & [->|Hn] & Hmin); [by left|]. right. split_and!; [|done|done|].
      * intros He. apply (Hlast n Hn), Hmin; [by left|congruence].
      * intros m Hm. apply Hmin. by right.
Qed.

Lemma first_of_owner_sublist owners l : first_of_owner owners l `sublist_of` l.
Proof.
  revert owners. induction l as [|x l IH]; intros owners; cbn [first_of_owner]; [done|].
  case_bool_decide; [by apply sublist_cons|by apply sublist_skip].
Qed.

Lemma first_of_owner_NoDup owners l :
  NoDup ((fun n => nd_owner_id (gn_node n)) <$> first_of_owner owners l)
  /\ forall n, n ∈ first_of_owner owners l -> nd_owner_id (gn_node n) ∉ owners.
Proof.
  revert owners. induction l as [|x l IH]; intros owners; cbn [first_of_owner]; [split; [constructor|by intros ? ?%not_elem_of_nil]|].
  case_bool_decide as Hin; [apply IH|]. destruct (IH ({[nd_owner_id (gn_node x)]} ∪ owners)) as [Hn Hm]. split.
  - rewrite fmap_cons. constructor; [|done]. intros (n & He & Hx%Hm)%list_elem_of_fmap. set_solver.
  - intros n [->|Hx%Hm]%elem_of_cons; set_solver.
Qed.

(** Every owner of the list has its earliest node. *)
Lemma first_of_owner_covers owners l m :
  m ∈ l -> nd_owner_id (gn_node m) ∈ owners
    \/ exists n, n ∈ first_of_owner owners l /\ nd_owner_id (gn_node n) = nd_owner_id (gn_node m).
Proof.
  revert owners. induction l as [|x l IH]; intros owners Hm; [by apply not_elem_of_nil in Hm|]. cbn [first_of_owner].
  apply elem_of_cons in Hm as [->|Hm]; case_bool_decide as Hin.
  - by left.
  - right. exists x. split; [by left|done].
  - by apply IH.
  - destruct (IH ({[nd_owner_id (gn_node x)]} ∪ owners) Hm) as [[He%elem_of_singleton|Ho]%elem_of_union|(n & Hn & He)].
    + right. exists x. split; [by left|done].
    + by left.
    + right. exists n. split; [by right|done].
Qed.

(** ** The frontier *)

Section Frontier.
Context `{Ciborium} `{Blake3}.
Context {plan : CounterfactualPlanV1} {nodes : list DependencyGraphNodeV1} {edges : list InputDependencyV1}.
Context {b : PlanBindings} {g : ValidatedDependencyGraphV1} (Hgraph : graph_of plan nodes edges b g).

Lemma seeds_exact n : n ∈ seeds g <-> n ∈ nodes /\ gn_class n = InterventionAssigned.
Proof. unfold seeds. rewrite list_elem_of_filter, (graph_nodes Hgraph). naive_solver. Qed.

Lemma seeds_nonempty : seeds g <> [].
Proof.
  pose proof (ns_interventions _ _ (go_nodes _ _ _ _ _ Hgraph)) as Hc.
  destruct (bindings_new_ok _ _ (go_bindings _ _ _ _ _ Hgraph)) as [Hb Hp]. pose proof (po_count _ Hp).
  unfold intervention_count in Hc. rewrite Hb in Hc. unfold seeds. rewrite (graph_nodes Hgraph). intros He.
  rewrite He, len_nil in Hc. lia.
Qed.

(** The affected nodes: what the Interventions reach through recomputed nodes. *)
Lemma affected_nodes_exact :
  exists affected, affected_nodes g = Some affected
    /\ StronglySorted (fun x y => ltb (gn_node x) (gn_node y) = true) affected
    /\ (forall n, n ∈ affected <-> reaches g EndogenousRecomputed (seeds g) n)
    /\ (forall n, n ∈ affected -> n ∈ nodes).
Proof.
  destruct (reachable_from_exact Hgraph EndogenousRecomputed (seeds g)) as (visited & Hr & Hk & Hx).
  { intros n Hn. by apply seeds_exact. }
  exists (set_values visited). unfold affected_nodes. rewrite Hr. split; [done|]. split; [by apply set_values_sorted|].
  split; [done|]. intros n Hn%Hx. destruct Hn as [n Hs|s c _ (_ & Hc & _) _]; [by apply seeds_exact|].
  by rewrite (graph_nodes Hgraph) in Hc.
Qed.

(** *** Order *)

Lemma node_order x y :
  x ∈ nodes -> y ∈ nodes -> ltb (gn_node x) (gn_node y) = true ->
  ltb (coordinate_key (gn_node x)) (coordinate_key (gn_node y)) = true.
Proof.
  intros [i Hx]%list_elem_of_lookup [j Hy]%list_elem_of_lookup Hlt.
  pose proof (ns_sorted _ _ (go_nodes _ _ _ _ _ Hgraph)) as Hs. destruct (decide (i = j)) as [->|Hne].
  { assert (x = y) as -> by congruence. by rewrite ltb_irrefl in Hlt. }
  destruct (decide (i < j)%nat) as [Hij|Hij]; [by apply (sorted_lookup _ _ _ _ _ _ Hs Hx Hy Hij)|].
  assert (j < i)%nat as Hji by lia. pose proof (sorted_lookup _ _ _ _ _ _ Hs Hy Hx Hji) as Hl%coordinate_lt%ltb_asym.
  congruence.
Qed.

Lemma coordinate_position x y :
  ltb (coordinate_key x) (coordinate_key y) = true ->
  nd_tick x < nd_tick y \/ (nd_tick x = nd_tick y /\ nd_scheduler_position x <= nd_scheduler_position y).
Proof.
  unfold coordinate_key. rewrite !ltb_pair. unfold cmp, Z_ord.
  destruct (Z.compare_spec (nd_tick x) (nd_tick y)); [|lia|done].
  destruct (Z.compare_spec (nd_scheduler_position x) (nd_scheduler_position y)); [lia|lia|done].
Qed.

Lemma feeds_forward s c : feeds g s c -> ltb (coordinate_key (gn_node s)) (coordinate_key (gn_node c)) = true.
Proof.
  intros (_ & _ & e & He & Hs & Hc). destruct (go_parts _ _ _ _ _ Hgraph) as (_ & Hge & _). rewrite Hge in He.
  pose proof (es_digests _ _ _ (go_edges _ _ _ _ _ Hgraph)) as Hd. rewrite Forall_forall in Hd. destruct (Hd _ He) as [d Hdig].
  unfold dependency_digest, dependency_to_canonical_cbor in Hdig. apply rbind_ok_inv in Hdig as (bytes & Hdig & _).
  apply rbind_ok_inv in Hdig as ([] & Hv & _). apply dependency_validate_ok in Hv as (_ & _ & Hlt & _). by rewrite Hs, Hc in Hlt.
Qed.

Lemma reaches_tick enter start first n :
  (forall m, m ∈ start -> first <= nd_tick (gn_node m)) -> reaches g enter start n -> first <= nd_tick (gn_node n).
Proof.
  intros Hst. induction 1 as [n Hn|s c _ IH Hf%feeds_forward%coordinate_position _]; [by apply Hst|lia].
Qed.

Lemma owner_frontiers_sorted affected :
  StronglySorted (fun x y => ltb (gn_node x) (gn_node y) = true) affected -> (forall n, n ∈ affected -> n ∈ nodes) ->
  StronglySorted (fun x y => ltb (owner_frontier_key x) (owner_frontier_key y) = true) (owner_frontiers affected).
Proof.
  intros Hs Hn. unfold owner_frontiers. apply sorted_map.
  apply (sorted_sublist _ _ _ (first_of_owner_sublist ∅ affected)).
  eapply sorted_weaken; [|exact Hs]. intros x y Hx%Hn Hy%Hn. by apply node_order.
Qed.

(** *** The contract of the derived record *)

Lemma owners_once_ok owners set :
  NoDup (of_owner_id <$> owners) -> (forall o, o ∈ owners -> of_owner_id o ∉ set) ->
  (forall o, o ∈ owners -> StronglySorted (fun x y => ltb x y = true) (of_cause_node_digests o)) ->
  owners_once set owners = Ok tt.
Proof.
  revert set. induction owners as [|o owners IH]; intros set Hn Hset Hs; cbn [owners_once]; [done|].
  rewrite fmap_cons in Hn. apply NoDup_cons in Hn as [Ho Hn]. rewrite bool_decide_false by (apply Hset; by left).
  unfold strictly_ordered. rewrite (proj2 (ascending_sorted (fun d => d) _ _ _)) by (apply Hs; by left). cbn [rbind].
  apply IH; [done| |intros x Hx; apply Hs; by right]. intros x Hx. apply not_elem_of_union. split; [|apply Hset; by right].
  intros He%elem_of_singleton. apply Ho. rewrite <- He. by apply list_elem_of_fmap_2.
Qed.

Lemma node_contract n : n ∈ nodes -> node_ok b n.
Proof. pose proof (ns_nodes _ _ (go_nodes _ _ _ _ _ Hgraph)) as Hf. rewrite Forall_forall in Hf. apply Hf. Qed.

Lemma owner_frontier_causes n digests :
  n ∈ nodes -> StronglySorted (fun x y => ltb x y = true) (of_cause_node_digests (owner_frontier n digests)).
Proof.
  intros Hn. cbn. destruct (_ =? 0); [repeat constructor|]. apply sorted_filter. by apply (no_sorted b), node_contract.
Qed.

Lemma valid_coordinate_len c :
  is_valid_coordinate c = true -> within_count (str_len (nd_owner_id c)) MAX_DEPENDENCY_OWNER_ID_BYTES_V1 = true.
Proof.
  unfold is_valid_coordinate, within_count, is_empty, str_len. intros Hv. apply andb_true_iff in Hv as [Hv _].
  by apply andb_true_iff in Hv as [Hv _].
Qed.

Lemma owner_frontier_valid n digests :
  n ∈ nodes -> len (gn_input_digests n) <= MAX_CAUSE_DIGESTS_V1 -> valid_owner_frontier (owner_frontier n digests) = true.
Proof.
  intros Hn Hl. pose proof (node_contract _ Hn) as Hok. unfold valid_owner_frontier. cbn.
  rewrite (valid_coordinate_len _ (no_coordinate _ _ Hok)). cbn [andb].
  assert (nonzero (gn_digest n) = true) as Hd.
  { pose proof (no_coordinate _ _ Hok) as Hv. unfold is_valid_coordinate in Hv. bool_props. done. }
  set (causes := filter _ (gn_input_digests n)). destruct (Z.eqb_spec (len causes) 0) as [He|He].
  - cbn. rewrite Hd. done.
  - apply andb_true_iff. split.
    + unfold within_count. rewrite (proj2 (Z.eqb_neq _ _) He). cbn. apply Z.leb_le.
      assert (len causes <= len (gn_input_digests n)); [|lia]. unfold len, causes.
      pose proof (length_filter (fun d => d ∈ digests) (gn_input_digests n)). lia.
    + apply forallb_forall. intros x Hx%list_elem_of_In. apply list_elem_of_filter in Hx as [_ Hx].
      pose proof (no_inputs _ _ Hok) as Hf. rewrite Forall_forall in Hf. by apply Hf.
Qed.

Lemma forallb_elem {A} (f : A -> bool) l : (forall x, x ∈ l -> f x = true) -> forallb f l = true.
Proof. intros Hf. apply forallb_forall. intros x Hx%list_elem_of_In. by apply Hf. Qed.

Lemma gap_valid x : is_gap nodes edges x -> valid_unknown_edge x = true.
Proof.
  intros [n Hn _ _ _|n d Hn Hd _]; pose proof (node_contract _ Hn) as Hok; unfold valid_unknown_edge; cbn;
    rewrite (no_coordinate _ _ Hok); [done|]. pose proof (no_inputs _ _ Hok) as Hf. rewrite Forall_forall in Hf. by apply Hf.
Qed.

Lemma strictly_ordered_ok {A K} `{OrdLaws K} (key : A -> K) l :
  StronglySorted (fun x y => ltb (key x) (key y) = true) l -> strictly_ordered (fun x y => cmp (key x) (key y)) l = Ok tt.
Proof. apply ascending_sorted. Qed.

Lemma strictly_ordered_self {K} `{OrdLaws K} (l : list K) :
  StronglySorted (fun x y => ltb x y = true) l -> strictly_ordered cmp l = Ok tt.
Proof. apply (strictly_ordered_ok (fun x => x)). Qed.

Lemma node_tick_range n : n ∈ nodes -> nd_tick (gn_node n) <= pl_horizon_tick plan.
Proof.
  intros Hn%node_contract. destruct (bindings_new_ok _ _ (go_bindings _ _ _ _ _ Hgraph)) as [Hb [Hfirst Hhor _ _ _ _ _ _ _ _]].
  pose proof (no_range _ _ Hn) as Hr. rewrite Hb in Hr. destruct (gn_origin n); lia.
Qed.

(** The order checks of the record hold of what the traversal found. *)
Lemma derived_order affected digests :
  StronglySorted (fun x y => ltb (gn_node x) (gn_node y) = true) affected -> (forall n, n ∈ affected -> n ∈ nodes) ->
  (let? _ := strictly_ordered cmp (gn_node <$> seeds g) in
   let? _ := strictly_ordered cmp (gn_node <$> affected) in
   let? _ := validate_owner_frontiers (owner_frontiers affected) in
   let? _ := strictly_ordered cmp (vg_unknown_edge_coordinates g) in
   digests) = digests :> ArtifactResult unit.
Proof.
  intros Hs Hn. assert (StronglySorted (fun x y => ltb (gn_node x) (gn_node y) = true) (seeds g)) as Hseeds.
  { unfold seeds. rewrite (graph_nodes Hgraph). apply sorted_filter.
    eapply sorted_weaken; [|exact (ns_sorted _ _ (go_nodes _ _ _ _ _ Hgraph))]. intros x y _ _. apply coordinate_lt. }
  rewrite (sorted_map (fun x y => ltb x y = true)) in Hseeds.
  rewrite (strictly_ordered_self _ Hseeds). cbn [rbind].
  pose proof Hs as Hs'. rewrite (sorted_map (fun x y => ltb x y = true)) in Hs'.
  rewrite (strictly_ordered_self _ Hs'). cbn [rbind]. unfold validate_owner_frontiers.
  change compare_owner_frontiers with (fun x y => cmp (owner_frontier_key x) (owner_frontier_key y)).
  rewrite (strictly_ordered_ok owner_frontier_key _ (owner_frontiers_sorted _ Hs Hn)). cbn [rbind]. rewrite owners_once_ok.
  - cbn [rbind]. by rewrite (strictly_ordered_self _ (gk_sorted _ _ _ _ (go_gaps _ _ _ _ _ Hgraph))).
  - unfold owner_frontiers. rewrite <- list_fmap_compose. apply (first_of_owner_NoDup ∅ affected).
  - intros o _. apply not_elem_of_empty.
  - intros o (n & -> & Hx)%list_elem_of_fmap. apply owner_frontier_causes, Hn.
    eapply elem_of_sublist; [exact Hx|apply first_of_owner_sublist].
Qed.

Lemma pair_not_lt (a c u v : Z) : c < a \/ (c = a /\ v <= u) -> ltb (a, u) (c, v) = false.
Proof.
  intros Hx. rewrite ltb_pair. unfold ltb, cmp, Z_ord.
  destruct (Z.compare_spec a c); [|lia|done]. destruct (Z.compare_spec u v); (done || lia).
Qed.

(** The seeds lie behind the cut, where the fallback starts (a position is unsigned). *)
Definition seeds_after_cut : Prop :=
  (forall n, n ∈ seeds g -> gn_origin n = Provisional)
  /\ forall n, n ∈ nodes -> 0 <= nd_scheduler_position (gn_node n).

Lemma derived_range affected earliest :
  affected_nodes g = Some affected -> gn_node <$> head affected = Some earliest ->
  is_complete g = true \/ seeds_after_cut ->
  let fallback := negb (is_complete g) in
  let tick := if fallback then vg_first_tick g else nd_tick earliest in
  let position := if fallback then 0 else nd_scheduler_position earliest in
  tick <= vg_horizon_tick g
  /\ forall n, n ∈ affected -> ltb (nd_tick (gn_node n), nd_scheduler_position (gn_node n)) (tick, position) = false.
Proof.
  intros Ha Hh Hcase. destruct affected_nodes_exact as (l & Hl & Hs & Hx & Hn). rewrite Ha in Hl. injection Hl as <-.
  destruct affected as [|x affected]; [done|]. injection Hh as <-. destruct (go_parts _ _ _ _ _ Hgraph) as (_ & _ & _ & _ & _ & Hf & Hho & _).
  destruct (bindings_new_ok _ _ (go_bindings _ _ _ _ _ Hgraph)) as [Hb [_ Hhor _ _ _ _ _ _ _ _]]. rewrite Hf, Hho.
  destruct (is_complete g) eqn:Hc; cbn [negb].
  - split; [apply node_tick_range, Hn; by left|]. apply StronglySorted_inv in Hs as [_ Hs]. rewrite Forall_forall in Hs.
    intros n Hin. assert (n = x \/ ltb (coordinate_key (gn_node x)) (coordinate_key (gn_node n)) = true) as [->|Hlt].
    { apply elem_of_cons in Hin as [->|Hin]; [by left|]. right. apply node_order; [apply Hn; by left|apply Hn; by right|by apply Hs]. }
    { apply ltb_irrefl. }
    apply coordinate_position in Hlt. apply pair_not_lt. lia.
  - destruct Hcase as [|[Hseeds Hpos]]; [done|]. split; [done|]. intros n Hin.
    assert (pl_first_tick plan <= nd_tick (gn_node n)) as Htick.
    { eapply reaches_tick; [|by apply Hx]. intros m Hm. pose proof (Hseeds _ Hm) as Ho. apply seeds_exact in Hm as [Hm%node_contract _].
      pose proof (no_range _ _ Hm) as Hr. rewrite Ho, Hb in Hr. lia. }
    pose proof (Hpos n (Hn _ Hin)). apply pair_not_lt. lia.
Qed.

Lemma unsealed_total id provenance :
  exists affected earliest, affected_nodes g = Some affected /\ gn_node <$> head affected = Some earliest
    /\ exists f, unsealed_frontier g id provenance = Some f.
Proof.
  destruct affected_nodes_exact as (affected & Ha & Hs & Hx & Hn). unfold unsealed_frontier. rewrite Ha.
  destruct affected as [|n affected]; [|by eexists _, _; split_and!; [..|by eexists]]. exfalso.
  destruct (seeds g) as [|m l] eqn:Hseeds; [by apply seeds_nonempty|].
  apply (not_elem_of_nil m), Hx. rewrite <- Hseeds. apply reaches_start. rewrite Hseeds. by left.
Qed.

Lemma seeds_count : 1 <= len (seeds g) <= MAX_SEED_NODES.
Proof.
  pose proof (ns_interventions _ _ (go_nodes _ _ _ _ _ Hgraph)) as Hc.
  destruct (bindings_new_ok _ _ (go_bindings _ _ _ _ _ Hgraph)) as [Hb Hp]. pose proof (po_count _ Hp) as Hcount.
  unfold intervention_count in Hc. rewrite Hb in Hc. unfold seeds. rewrite (graph_nodes Hgraph). 
  unfold MAX_INTERVENTIONS_PER_PLAN_V1, MAX_SEED_NODES in *. lia.
Qed.

Lemma within_count_ok n m : within_count n m = true <-> n <> 0 /\ n <= m.
Proof. unfold within_count. rewrite andb_true_iff, negb_true_iff, Z.eqb_neq, Z.leb_le. done. Qed.

Lemma affected_length affected :
  StronglySorted (fun x y => ltb (gn_node x) (gn_node y) = true) affected -> (forall n, n ∈ affected -> n ∈ nodes) ->
  len affected <= len nodes.
Proof.
  intros Hs%sorted_ltb_NoDup Hn. apply NoDup_fmap_1 in Hs. pose proof (NoDup_submseteq _ _ Hs Hn) as Hl.
  apply submseteq_length in Hl. unfold len. lia.
Qed.

Lemma derived_counts bounds affected :
  within_bounds bounds nodes edges -> affected <> [] ->
  StronglySorted (fun x y => ltb (gn_node x) (gn_node y) = true) affected -> (forall n, n ∈ affected -> n ∈ nodes) ->
  len (owner_frontiers affected) <= MAX_OWNER_FRONTIERS ->
  frontier_counts_within_bounds (len (gn_node <$> seeds g)) (len (gn_node <$> affected))
    (len (owner_frontiers affected)) (len (vg_unknown_edge_coordinates g)) = true.
Proof.
  intros [[Hmax _] Hnodes _ _ _] Hne Hs Hn Ho. pose proof (affected_length _ Hs Hn). pose proof seeds_count.
  pose proof (gk_bound _ _ _ _ (go_gaps _ _ _ _ _ Hgraph)). unfold frontier_counts_within_bounds.
  rewrite !andb_true_iff, !within_count_ok, Z.leb_le. rewrite !len_fmap.
  unfold MAX_DEPENDENCY_GRAPH_NODES_V1, MAX_AFFECTED_NODES in *. destruct affected as [|x affected]; [done|].
  rewrite len_cons in *. pose proof (len_nonneg affected). split_and!; try lia.
  unfold owner_frontiers. cbn [first_of_owner]. rewrite bool_decide_false by apply not_elem_of_empty.
  rewrite fmap_cons, len_cons. pose proof (len_nonneg ((fun n => owner_frontier n (list_to_set (gn_digest <$> x :: affected)))
    <$> first_of_owner ({[nd_owner_id (gn_node x)]} ∪ ∅) affected)). lia.
Qed.

Lemma derived_items bounds affected :
  within_bounds bounds nodes edges -> (forall n, n ∈ affected -> n ∈ nodes) ->
  forallb is_valid_coordinate (gn_node <$> seeds g) = true
  /\ forallb is_valid_coordinate (gn_node <$> affected) = true
  /\ forallb valid_owner_frontier (owner_frontiers affected) = true
  /\ forallb valid_unknown_edge (vg_unknown_edge_coordinates g) = true.
Proof.
  intros Hw Hn. split_and!; apply forallb_elem.
  - intros c (n & -> & [Hin _]%seeds_exact)%list_elem_of_fmap. by apply (no_coordinate b), node_contract.
  - intros c (n & -> & Hin)%list_elem_of_fmap. by apply (no_coordinate b), node_contract, Hn.
  - intros o (n & -> & Hin)%list_elem_of_fmap.
    assert (n ∈ nodes) as Hnn by (apply Hn; eapply elem_of_sublist; [exact Hin|apply first_of_owner_sublist]).
    apply owner_frontier_valid; [done|]. pose proof (wb_causes _ _ _ Hw) as Hc. rewrite Forall_forall in Hc. by apply Hc.
  - intros x Hin%(gk_exact _ _ _ _ (go_gaps _ _ _ _ _ Hgraph)). by apply gap_valid.
Qed.

(** The RCF1 contract of what is derived: only the number of owners and a seed
    before the cut can break it. *)
Lemma derived_valid bounds id provenance f :
  within_bounds bounds nodes edges -> unsealed_frontier g id provenance = Some f ->
  forallb nonzero [pl_plan_digest plan; dependency_graph_digest_v1 g; provenance] = true -> nonzero id = true ->
  is_complete g = true \/ seeds_after_cut ->
  len (rf_owner_frontiers f) <= MAX_OWNER_FRONTIERS -> validate_frontier_fields f = Ok tt.
Proof.
  intros Hw Hf Hdig Hid Hcut Howners. destruct affected_nodes_exact as (affected & Ha & Hs & Hx & Hn).
  unfold unsealed_frontier in Hf. rewrite Ha in Hf. cbn [mbind option_bind] in Hf.
  destruct (gn_node <$> head affected) as [earliest|] eqn:Hh; [|done]. cbn in Hf. injection Hf as <-. cbn [rf_owner_frontiers] in Howners.
  destruct (derived_range affected earliest Ha Hh Hcut) as [Hhor Hrange].
  destruct (go_parts _ _ _ _ _ Hgraph) as (Hgn & _ & Hpd & Hcd & Hbd & _).
  destruct (bindings_new_ok _ _ (go_bindings _ _ _ _ _ Hgraph)) as [_ Hplan].
  assert (affected <> []) as Hne by (intros ->; done).
  destruct (derived_items bounds affected Hw Hn) as (H1 & H2 & H3 & H4).
  unfold validate_frontier_fields. cbn [rf_intervention_seed_nodes rf_affected_nodes rf_owner_frontiers rf_unknown_edge_coordinates].
  rewrite derived_order, (derived_counts bounds), H1, H2, H3, H4 by done.
  match goal with |- context [frontier_identifiers_nonzero ?r] => assert (frontier_identifiers_nonzero r = true) as -> end.
  { unfold frontier_identifiers_nonzero. cbn -[nonzero]. cbn -[nonzero] in Hdig. rewrite Hid, Hpd, Hcd, Hbd.
    rewrite (po_cut_digest _ Hplan), (po_bundle_digest _ Hplan). by bool_props. }
  match goal with |- context [unknown_edges_contradict_policy ?r] => assert (unknown_edges_contradict_policy r = false) as -> end.
  { unfold unknown_edges_contradict_policy, is_complete. cbn. destruct (_ =? 0) eqn:He; cbn; by rewrite ?He. }
  cbn [negb orb]. unfold validate_frontier_range. cbn.
  rewrite (proj2 (Z.ltb_ge _ _) Hhor). cbn [orb].
  match goal with |- context [existsb ?p ?l] => assert (existsb p l = false) as -> end; [|done].
  apply not_true_iff_false. rewrite existsb_exists. intros (o & Ho%list_elem_of_In & Hlt).
  apply list_elem_of_fmap in Ho as (n & -> & Hin). cbn in Hlt. rewrite Hrange in Hlt; [done|].
  eapply elem_of_sublist; [exact Hin|apply first_of_owner_sublist].
Qed.
End Frontier.

Section Theorems.
Context `{Ciborium} `{Blake3}.

(** What a frontier says of a graph: its seeds are the Interventions, its affected
    nodes are what they reach through recomputed nodes, in order; each owner with an
    affected node appears once, at its earliest; and no affected node of a complete
    graph is before the global frontier, which a graph with gaps puts at the cut. *)
Record describes (g : ValidatedDependencyGraphV1) (f : RecomputationFrontierV1) : Prop := {
  de_plan : rf_plan_digest f = vg_plan_digest g /\ rf_dependency_graph_digest f = dependency_graph_digest_v1 g;
  de_seeds : forall c, c ∈ rf_intervention_seed_nodes f
    <-> exists n, n ∈ vg_nodes g /\ gn_class n = InterventionAssigned /\ gn_node n = c;
  de_affected : forall c, c ∈ rf_affected_nodes f
    <-> exists n, reaches g EndogenousRecomputed (seeds g) n /\ gn_node n = c;
  de_sorted : StronglySorted (fun x y => ltb x y = true) (rf_affected_nodes f);
  de_owners : NoDup (of_owner_id <$> rf_owner_frontiers f);
  de_earliest : forall o, o ∈ rf_owner_frontiers f -> exists c, c ∈ rf_affected_nodes f
    /\ owner_frontier_key o = coordinate_key c
    /\ forall c', c' ∈ rf_affected_nodes f -> nd_owner_id c' = of_owner_id o -> leb c c' = true;
  de_covered : forall c, c ∈ rf_affected_nodes f -> nd_owner_id c ∈ of_owner_id <$> rf_owner_frontiers f;
  de_complete : is_complete g = true -> rf_unknown_edge_policy f = Reject
    /\ (exists c, c ∈ rf_affected_nodes f /\ nd_tick c = rf_global_frontier_tick f
          /\ nd_scheduler_position c = rf_global_frontier_scheduler_position f)
    /\ forall c, c ∈ rf_affected_nodes f -> ltb (nd_tick c, nd_scheduler_position c)
         (rf_global_frontier_tick f, rf_global_frontier_scheduler_position f) = false;
  de_fallback : is_complete g = false -> rf_unknown_edge_policy f = FullSuffixFromCut
    /\ rf_global_frontier_tick f = vg_first_tick g /\ rf_global_frontier_scheduler_position f = 0;
  de_gaps : rf_unknown_edge_coordinates f = vg_unknown_edge_coordinates g;
}.

Lemma unsealed_describes plan nodes edges b g id provenance f :
  graph_of plan nodes edges b g -> unsealed_frontier g id provenance = Some f -> describes g f.
Proof.
  intros Hg Hf. destruct (affected_nodes_exact Hg) as (affected & Ha & Hs & Hx & Hn).
  unfold unsealed_frontier in Hf. rewrite Ha in Hf. cbn [mbind option_bind] in Hf.
  destruct (gn_node <$> head affected) as [earliest|] eqn:Hh; [|done]. cbn in Hf. injection Hf as <-.
  pose proof Hh as (x & Hhead%head_Some_elem_of & ->)%fmap_Some.
  assert (forall c, c ∈ gn_node <$> affected <-> exists n, reaches g EndogenousRecomputed (seeds g) n /\ gn_node n = c) as Hc.
  { intros c. rewrite list_elem_of_fmap. setoid_rewrite <- Hx. naive_solver. }
  split; cbn -[owner_frontiers]; try done.
  - intros c. rewrite list_elem_of_fmap. setoid_rewrite (seeds_exact Hg). rewrite (graph_nodes Hg). naive_solver.
  - by rewrite <- (sorted_map (fun x y => ltb x y = true)).
  - unfold owner_frontiers. rewrite <- list_fmap_compose. apply (first_of_owner_NoDup ∅ affected).
  - intros o (n & -> & Hin)%list_elem_of_fmap. apply first_of_owner_exact in Hin as (_ & Hn' & Hmin); [|done].
    exists (gn_node n). split; [by apply list_elem_of_fmap_2|]. split; [done|].
    intros c (m & -> & Hm)%list_elem_of_fmap. by apply Hmin.
  - intros c (m & -> & Hm)%list_elem_of_fmap. destruct (first_of_owner_covers ∅ affected m Hm) as [?%not_elem_of_empty|(n & Hin & He)]; [done|].
    apply list_elem_of_fmap. exists (owner_frontier n (list_to_set (gn_digest <$> affected))). split; [done|].
    unfold owner_frontiers. apply list_elem_of_fmap. by exists n.
  - intros Hcomp. destruct (derived_range Hg affected _ Ha Hh (or_introl Hcomp)) as [_ Hrange]. rewrite Hcomp in *. cbn in *.
    split; [done|]. split; [exists (gn_node x); split; [by apply list_elem_of_fmap_2|done]|].
    intros c (n & -> & Hin)%list_elem_of_fmap. by apply Hrange.
  - intros Hcomp. rewrite Hcomp. done.
Qed.

(** C14: the derivation returns, and a frontier it returns describes the graph and
    satisfies the RCF1 contract. *)
Theorem frontier_exact plan bounds nodes edges g id provenance :
  validate_dependency_graph_v1 plan bounds nodes edges = Ok g ->
  exists r, derive_recomputation_frontier_v1 plan g id provenance = Some r
    /\ forall f, r = Ok f -> describes g f /\ frontier_validate f = Ok tt.
Proof.
  intros (Hw & b & Hg)%validate_graph_inv. unfold derive_recomputation_frontier_v1.
  destruct (check_inputs _ _ _) as [[]|e]; [|by eexists].
  destruct (unsealed_total Hg id provenance) as (_ & _ & _ & _ & f & Hf). rewrite Hf. cbn. eexists. split; [done|].
  intros f' Hs%map_err_ok_inv. apply frontier_seal_ok in Hs as (_ & -> & Hv & _). split; [|done].
  destruct (unsealed_describes _ _ _ _ _ _ _ _ Hg Hf). by split.
Qed.

(** C29: the derivation succeeds.  With the plan of the graph, digests and identifiers
    that are not zero, no more owners than RCF1 admits and no Intervention before the
    cut if there are gaps, it fails only if the encoding does. *)
Theorem frontier_derivable plan bounds nodes edges g id provenance affected :
  validate_dependency_graph_v1 plan bounds nodes edges = Ok g ->
  forallb nonzero [pl_plan_digest plan; dependency_graph_digest_v1 g; provenance] = true -> nonzero id = true ->
  is_complete g = true \/ @seeds_after_cut nodes g ->
  affected_nodes g = Some affected -> len (owner_frontiers affected) <= MAX_OWNER_FRONTIERS ->
  exists f, unsealed_frontier g id provenance = Some f
    /\ derive_recomputation_frontier_v1 plan g id provenance
       = Some (map_err FrontierError.Frontier
           (let? (digest, _) := unsigned_encoding (frontier_fields f) FRONTIER_DIGEST_DOMAIN_V1
              MAX_RECOMPUTATION_FRONTIER_BYTES_V1 in
            Ok (with_frontier_digest digest f))).
Proof.
  intros (Hw & b & Hg)%validate_graph_inv Hdig Hid Hcut Ha Ho.
  destruct (unsealed_total Hg id provenance) as (_ & _ & _ & _ & f & Hf). exists f. split; [done|].
  assert (validate_frontier_fields f = Ok tt) as Hv.
  { apply (derived_valid Hg bounds id provenance f); try done. unfold unsealed_frontier in Hf. rewrite Ha in Hf.
    cbn [mbind option_bind] in Hf. destruct (gn_node <$> head affected); [|done]. cbn in Hf. by injection Hf as <-. }
  unfold derive_recomputation_frontier_v1, check_inputs. destruct (go_parts _ _ _ _ _ Hg) as (_ & _ & Hp & _).
  cbn in Hdig. bool_props. rewrite bool_decide_true by done.
  match goal with Hx : nonzero provenance = true |- _ => rewrite Hx end. cbn [negb]. rewrite Hf. cbn. unfold frontier_seal.
  by rewrite Hv.
Qed.

Lemma reaches_from_one g enter start n :
  reaches g enter start n <-> exists s, s ∈ start /\ reaches g enter [s] n.
Proof.
  split.
  - induction 1 as [n Hn|s c _ (x & Hx & Hr) Hf Hc]; [exists n; split; [done|constructor; by left]|].
    exists x. split; [done|]. by eapply reaches_step.
  - intros (x & Hx & Hr). induction Hr as [n ->%list_elem_of_singleton|s c _ IH Hf Hc]; [by constructor|by eapply reaches_step].
Qed.

(** The stale presentation outputs are, in order, the presentation nodes of a
    complete graph that an affected node reaches through presentation nodes, and
    every provisional presentation node of a graph with gaps. *)
Theorem presentation_exact plan bounds nodes edges g :
  validate_dependency_graph_v1 plan bounds nodes edges = Ok g ->
  exists outputs, affected_presentation_outputs_v1 g = Some outputs
    /\ StronglySorted (fun x y => ltb x y = true) outputs
    /\ forall c, c ∈ outputs <-> exists n, gn_node n = c /\ gn_class n = PresentationOnly
         /\ if is_complete g
            then exists a, reaches g EndogenousRecomputed (seeds g) a /\ reaches g PresentationOnly [a] n
            else n ∈ nodes /\ gn_origin n = Provisional.
Proof.
  intros (_ & b & Hg)%validate_graph_inv. unfold affected_presentation_outputs_v1, affected_presentation.
  destruct (is_complete g).
  - destruct (affected_nodes_exact Hg) as (affected & Ha & _ & Hx & Hn). rewrite Ha. cbn [mbind option_bind].
    destruct (reachable_from_exact Hg PresentationOnly affected Hn) as (visited & Hr & Hk & Hv). rewrite Hr.
    cbn [mbind option_bind]. eexists. split; [done|]. split.
    + apply (sorted_map (fun x y => ltb x y = true) gn_node), sorted_filter. by apply set_values_sorted.
    + intros c. rewrite list_elem_of_fmap. setoid_rewrite list_elem_of_filter. setoid_rewrite Hv.
      setoid_rewrite (reaches_from_one g PresentationOnly affected). setoid_rewrite Hx. naive_solver.
  - eexists. split; [done|]. rewrite (graph_nodes Hg). split.
    + apply (sorted_map (fun x y => ltb x y = true) gn_node), sorted_filter.
      eapply sorted_weaken; [|exact (ns_sorted _ _ (go_nodes _ _ _ _ _ Hg))]. intros x y _ _. apply coordinate_lt.
    + intros c. rewrite list_elem_of_fmap. setoid_rewrite list_elem_of_filter. naive_solver.
Qed.
(** An Intervention node inherited from the parent: committed at or before the
    cut, with no inputs. *)
Record inherited_intervention (plan : CounterfactualPlanV1) (n : DependencyGraphNodeV1) : Prop := {
  ii_class : gn_class n = InterventionAssigned;
  ii_origin : gn_origin n = Committed;
  ii_tick : nd_tick (gn_node n) <= pl_parent_cut_tick plan;
  ii_inputs : gn_input_digests n = [];
  ii_coordinate : is_valid_coordinate (gn_node n) = true;
  ii_provenance : nonzero (gn_provenance_digest n) = true;
}.

Lemma filter_all {A} (P : A -> Prop) `{!forall x, Decision (P x)} (l : list A) :
  (forall x, x ∈ l -> P x) -> filter P l = l.
Proof.
  induction l as [|x l IH]; [done|]. intros Hl. rewrite filter_cons_True by (apply Hl; by left).
  rewrite IH; [done|]. intros y Hy. apply Hl. by right.
Qed.

Lemma inherited_node_ok plan b n :
  bindings_new plan = Ok b -> inherited_intervention plan n -> node_ok b n.
Proof.
  intros Hb [Hc Ho Ht Hi Hk Hp]. destruct (bindings_new_ok _ _ Hb) as [<- _].
  split; [done|by rewrite Hi|rewrite Hi; constructor|done|by rewrite Ho|]. intros _. split; [done|].
  by rewrite (inherited_unbound _ _ _ Hb Hc Ht).
Qed.

(** C40: the Intervention nodes are counted, not matched.  For every plan, any list
    of inherited Intervention nodes that is in order, has distinct digests and is
    as long as the plan's list of Interventions is accepted as the whole graph, with
    no gap under either policy.  The plan binds none of those nodes, since each of its
    Interventions takes effect after the cut; they are all the seeds of the frontier,
    and nothing else is affected. *)
Theorem intervention_nodes_counted plan bounds b nodes :
  bindings_new plan = Ok b -> within_bounds bounds nodes [] ->
  nodes_sorted nodes -> NoDup (gn_digest <$> nodes) -> Forall (inherited_intervention plan) nodes ->
  len nodes = len (pl_interventions plan) ->
  exists g, validate_dependency_graph_v1 plan bounds nodes [] = Ok g
    /\ vg_unknown_edge_coordinates g = [] /\ seeds g = nodes /\ nodes <> []
    /\ (forall n, n ∈ nodes -> root_binding b n = None)
    /\ forall n, reaches g EndogenousRecomputed (seeds g) n <-> n ∈ nodes.
Proof.
  intros Hb Hw Hs Hd Hi Hl. rewrite Forall_forall in Hi. destruct (bindings_new_ok _ _ Hb) as [Hpl Hp].
  assert (filter (fun n => gn_class n = InterventionAssigned) nodes = nodes) as Hf.
  { apply filter_all. intros n Hn. apply (ii_class plan). by apply Hi. }
  destruct (validate_graph_complete plan bounds nodes [] b []) as (g & Hg & Hgaps); [done|done| | | |].
  - split; [done|done|apply Forall_forall; intros n Hn; by eapply inherited_node_ok; [|apply Hi]|].
    unfold intervention_count. by rewrite Hf, Hpl.
  - split; constructor.
  - split; [constructor| |done|done]. intros x. split; [by intros ?%not_elem_of_nil|].
    intros [n Hn Hc _ _|n d Hn Hx _]; [by rewrite (ii_class _ _ (Hi n Hn)) in Hc|].
    rewrite (ii_inputs _ _ (Hi n Hn)) in Hx. by apply not_elem_of_nil in Hx.
  - destruct (validate_graph_inv _ _ _ _ _ Hg) as (_ & b' & Hgo). exists g.
    assert (seeds g = nodes) as Hseeds by (unfold seeds; by rewrite (graph_nodes Hgo)).
    split_and!; [done|done|done| | |].
    + intros ->. pose proof (po_count _ Hp). rewrite len_nil in Hl. lia.
    + intros n Hn. by apply (inherited_unbound plan); [|apply Hi..].
    + intros n. rewrite Hseeds. split; [|by apply reaches_start].
      intros [|s c _ (_ & Hc & _) _]; [done|]. by rewrite (graph_nodes Hgo) in Hc.
Qed.
End Theorems.
