(* ===== verification/CounterfactualPort.v ===== *)
(** * The counterfactual storage port

    [crates/pos-core/src/counterfactual_store.rs]: RCF1 and SIV1 bytes carried
    without their codec, the basis a write rechecks, the invalidation command and
    its receipt, and the reads of one Fork generation. *)

From Stdlib Require Import String ZArith Lia Bool.
From S2P Require Import Prelude Text Ordering Cbor FallbackRecords Keys ErasureGate Events.

Local Open Scope Z_scope.

Definition MAX_COUNTERFACTUAL_FRONTIER_BYTES_V1 : Z := 64 * 1024 * 1024.
Definition MAX_COUNTERFACTUAL_INVALIDATION_BYTES_V1 : Z := 128 * 1024 * 1024.
Definition MAX_COUNTERFACTUAL_INVALID_ARTIFACTS_V1 : Z := 1000000.
Definition MAX_COUNTERFACTUAL_EVICTIONS_V1 : Z := 131072.

Definition DIGEST_FIELD_HEAD : list byte := [x58; x20].
Definition PORT_DIGEST_FIELD_BYTES : Z := 34.
Definition ID_FIELD_HEAD : list byte := [x50].
Definition COMMIT_COORDINATE_HEAD : list byte := [x83].
Definition SKIPPED_INVALIDATION_FIELDS : nat := 7.
Definition MAX_SKIPPED_ARRAY_DEPTH : nat := 3.

Module StoreError.
Inductive CounterfactualStoreErrorV1 :=
| InvalidEncoding | UnsupportedVersion | FieldOutOfBounds | NonCanonicalOrder | DuplicateIdentity
| DigestMismatch | PriorGenerationMismatch | BindingMismatch | MixedForkGeneration | InvalidArtifactReuse
| ForkNotFound | CorruptState | StorageFailure | OutcomeUnknown.
End StoreError.

Notation StoreResult := (result StoreError.CounterfactualStoreErrorV1).

(** [read.or(Err(..))]: any failure of a read becomes the one given. *)
Definition or_err {E F A} (e : F) (r : result E A) : result F A := map_err (fun _ => e) r.

(** [slice.strip_prefix(..)]. *)
Fixpoint strip_prefix (prefix bytes : list byte) : option (list byte) :=
  match prefix, bytes with
  | [], _ => Some bytes
  | p :: ps, b :: bs => if decide (p = b) then strip_prefix ps bs else None
  | _ :: _, [] => None
  end.

(** ** Framing *)

Record ArtifactFramingV1 := MkFraming {
  af_array_head : byte;
  af_unsigned_head : byte;
  af_prefix : list byte;
  af_domain : list byte;
  af_max_bytes : Z;
}.

Definition FRONTIER_FRAMING : ArtifactFramingV1 :=
  MkFraming x91 x90 [x64; "R"; "C"; "F"; "1"; x01]%byte (list_byte_of_string "PiglorOS.RecomputationFrontier.v1")
    MAX_COUNTERFACTUAL_FRONTIER_BYTES_V1.
Definition INVALIDATION_FRAMING : ArtifactFramingV1 :=
  MkFraming x92 x91 [x64; "S"; "I"; "V"; "1"; x01]%byte (list_byte_of_string "PiglorOS.SuffixInvalidation.v1")
    MAX_COUNTERFACTUAL_INVALIDATION_BYTES_V1.

(** [hash_from_slice] copies exactly 32 bytes; its callers pass no other length. *)
Definition hash_from_slice (bytes : list byte) : Hash := default hash_zero (make (has_len 32) bytes).

Definition split_digest_field (bytes : list byte) : option (list byte * Hash) :=
  at_ ← checked_sub (len bytes) PORT_DIGEST_FIELD_BYTES;
  let unsigned := take (Z.to_nat at_) bytes in
  let field := drop (Z.to_nat at_) bytes in
  if bool_decide (take 2 field = DIGEST_FIELD_HEAD) then Some (unsigned, hash_from_slice (drop 2 field)) else None.

Section Framing.
Context `{Blake3}.

Definition framing_unsigned_digest (f : ArtifactFramingV1) (unsigned_fields : list byte) : Hash :=
  blake3 (af_domain f ++ [x00; af_unsigned_head f] ++ unsigned_fields).

Definition framing_verify (f : ArtifactFramingV1) (bytes : list byte) : StoreResult (list byte * Hash) :=
  if af_max_bytes f <? len bytes then Err StoreError.FieldOutOfBounds else
  let? (unsigned, digest) := ok_or (split_digest_field bytes) StoreError.InvalidEncoding in
  let? unsigned_fields := ok_or (strip_prefix [af_array_head f] unsigned) StoreError.InvalidEncoding in
  let? fields := ok_or (strip_prefix (af_prefix f) unsigned_fields) StoreError.UnsupportedVersion in
  if bool_decide (framing_unsigned_digest f unsigned_fields = digest) then Ok (fields, digest)
  else Err StoreError.DigestMismatch.
End Framing.

(** ** Reads over the cursor *)

Definition port_read_id : Parser CborReadError Ulid :=
  let! _ := cfixed ID_FIELD_HEAD in
  let! bytes := ctake 16 in
  pret (default (@Checked _ (has_len 16) (replicate 16 x00) I) (make (has_len 16) bytes)).

Definition port_read_hash : Parser CborReadError Hash :=
  let! _ := cfixed DIGEST_FIELD_HEAD in
  let! bytes := ctake 32 in
  pret (hash_from_slice bytes).

Definition read_wide (width minimum : Z) : Parser CborReadError Z :=
  let! value := unsigned_bytes width in
  if minimum <=? value then pret value else plift (Err InvalidEncoding).

Definition read_unsigned : Parser CborReadError Z :=
  let! first := cbyte in
  let small := Z_of_byte first in
  if small <=? 23 then pret small
  else if small =? 24 then read_wide 1 24
  else if small =? 25 then read_wide 2 0x100
  else if small =? 26 then read_wide 4 0x10000
  else if small =? 27 then read_wide 8 0x100000000
  else plift (Err InvalidEncoding).

(** [(0..n).try_for_each(|_| p)]. *)
Fixpoint times (n : nat) (p : Parser CborReadError unit) : Parser CborReadError unit :=
  match n with O => pret tt | S n' => let! _ := p in times n' p end.

Definition skip_argument (info : Z) : Parser CborReadError Z :=
  if info <=? 23 then pret info
  else if info =? 24 then cnumber 1
  else if info =? 25 then cnumber 2
  else if info =? 26 then cnumber 4
  else if info =? 27 then cnumber 8
  else plift (Err InvalidEncoding).

Fixpoint skip_item (array_depth : nat) : Parser CborReadError unit :=
  let! first := cbyte in
  let! argument := skip_argument (Z.land (Z_of_byte first) 0x1f) in
  let major := Z.shiftr (Z_of_byte first) 5 in
  if major =? 0 then pret tt
  else if (major =? 2) || (major =? 3) then let! _ := ctake argument in pret tt
  else match array_depth with
       | S depth => if major =? 4 then times (Z.to_nat argument) (skip_item depth)
                    else plift (Err InvalidEncoding)
       | O => plift (Err InvalidEncoding)
       end.

(** ** RCF1 and SIV1 bytes *)

Record RecomputationFrontierBytesV1 := MkFrontierBytes {
  fb_bytes : list byte;
  fb_digest : Hash;
  fb_plan_digest : Hash;
  fb_dependency_graph_digest : Hash;
}.

Definition frontier_header_fields : Parser CborReadError (Hash * Hash) :=
  let! _ := port_read_id in
  let! plan_digest := port_read_hash in
  let! _ := port_read_hash in
  let! dependency_graph_digest := port_read_hash in
  pret (plan_digest, dependency_graph_digest).

Definition frontier_header (fields : list byte) : result CborReadError (Hash * Hash) :=
  let? (header, _) := frontier_header_fields (cursor_new fields) in Ok header.

Record InvalidationHeaderV1 := MkInvalidationHeader {
  ih_plan_digest : Hash;
  ih_fork_id : Ulid;
  ih_prior_generation : Z;
  ih_new_generation : Z;
  ih_frontier_digest : Hash;
  ih_commit_timeline_id : Ulid;
  ih_commit_seq : Z;
  ih_commit_tick : Z;
}.

Record SuffixInvalidationBytesV1 := MkInvalidationBytes {
  ib_bytes : list byte;
  ib_digest : Hash;
  ib_header : InvalidationHeaderV1;
}.

Definition invalidation_header_fields : Parser CborReadError InvalidationHeaderV1 :=
  let! _ := port_read_id in
  let! plan_digest := port_read_hash in
  let! fork_id := port_read_id in
  let! prior_generation := read_unsigned in
  let! new_generation := read_unsigned in
  let! frontier_digest := port_read_hash in
  let! _ := times SKIPPED_INVALIDATION_FIELDS (skip_item MAX_SKIPPED_ARRAY_DEPTH) in
  let! _ := cfixed COMMIT_COORDINATE_HEAD in
  let! commit_timeline_id := port_read_id in
  let! commit_seq := read_unsigned in
  let! commit_tick := read_unsigned in
  pret (MkInvalidationHeader plan_digest fork_id prior_generation new_generation frontier_digest
    commit_timeline_id commit_seq commit_tick).

Definition invalidation_header (fields : list byte) : result CborReadError InvalidationHeaderV1 :=
  let? (header, _) := invalidation_header_fields (cursor_new fields) in Ok header.

Section Bytes.
Context `{Blake3}.

Definition frontier_bytes_try_from_canonical (bytes : list byte) : StoreResult RecomputationFrontierBytesV1 :=
  let? (fields, digest) := framing_verify FRONTIER_FRAMING bytes in
  let? (plan_digest, dependency_graph_digest) := or_err StoreError.InvalidEncoding (frontier_header fields) in
  Ok (MkFrontierBytes bytes digest plan_digest dependency_graph_digest).

Definition invalidation_bytes_try_from_canonical (bytes : list byte) : StoreResult SuffixInvalidationBytesV1 :=
  let? (fields, digest) := framing_verify INVALIDATION_FRAMING bytes in
  let? header := or_err StoreError.InvalidEncoding (invalidation_header fields) in
  if negb (bool_decide (checked_add (ih_prior_generation header) 1 = Some (ih_new_generation header)))
  then Err StoreError.PriorGenerationMismatch
  else Ok (MkInvalidationBytes bytes digest header).
End Bytes.

(** ** The basis of a write *)

Inductive InvalidationConflictV1 :=
| LogicalHead | PlanDigest | DependencyGraphDigest | PriorGeneration | TrustEpoch | RevocationEpoch | ErasureEpoch.

Record CounterfactualFactsV1 := MkFacts {
  fa_plan_digest : Hash;
  fa_dependency_graph_digest : Hash;
  fa_trust_epoch : Z;
  fa_revocation_epoch : Z;
  fa_erasure_epoch : Z;
}.
#[export] Instance facts_eq_dec : EqDecision CounterfactualFactsV1.
Proof. solve_decision. Defined.

Record CounterfactualBasisV1 := MkBasis {
  ba_fork_logical_head : Z;
  ba_generation : Z;
  ba_facts : CounterfactualFactsV1;
}.
#[export] Instance basis_eq_dec : EqDecision CounterfactualBasisV1.
Proof. solve_decision. Defined.

Fixpoint first_difference (checks : list (bool * InvalidationConflictV1)) : option InvalidationConflictV1 :=
  match checks with
  | [] => None
  | (same, conflict) :: rest => if negb same then Some conflict else first_difference rest
  end.

Definition first_epoch_change (self current : CounterfactualFactsV1) : option InvalidationConflictV1 :=
  first_difference
    [(fa_trust_epoch self =? fa_trust_epoch current, TrustEpoch);
     (fa_revocation_epoch self =? fa_revocation_epoch current, RevocationEpoch);
     (fa_erasure_epoch self =? fa_erasure_epoch current, ErasureEpoch)].

Definition first_conflict (self persisted : CounterfactualBasisV1) : option InvalidationConflictV1 :=
  match first_difference
    [(ba_fork_logical_head self =? ba_fork_logical_head persisted, LogicalHead);
     (bool_decide (fa_plan_digest (ba_facts self) = fa_plan_digest (ba_facts persisted)), PlanDigest);
     (bool_decide (fa_dependency_graph_digest (ba_facts self) = fa_dependency_graph_digest (ba_facts persisted)),
       DependencyGraphDigest);
     (ba_generation self =? ba_generation persisted, PriorGeneration)] with
  | Some conflict => Some conflict
  | None => first_epoch_change (ba_facts self) (ba_facts persisted)
  end.

Inductive CounterfactualTickOutcomeV1 := TickCommitted (head : Z) | TickStale (conflict : InvalidationConflictV1).

Definition committed_tick (self : CounterfactualBasisV1) (head : Z) : StoreResult CounterfactualTickOutcomeV1 :=
  if ba_fork_logical_head self <? head then Ok (TickCommitted head) else Err StoreError.CorruptState.

(** ** Generations *)

Record ForkGenerationV1 := MkGeneration { fg_fork : TimelineId; fg_generation : Z }.

Inductive StoredCounterfactualArtifactV1 :=
| Absent
| Stored (bytes : list byte) (written_generation : Z) (quarantined_through : option Z).

(** [option.is_some_and(..)]. *)
Definition is_some_and {A} (p : A -> bool) (o : option A) : bool := match o with Some a => p a | None => false end.

Definition resolve_read (self : ForkGenerationV1) (current_generation : Z) (stored : StoredCounterfactualArtifactV1)
    : StoreResult (option (list byte)) :=
  if negb (fg_generation self =? current_generation) then Err StoreError.MixedForkGeneration else
  match stored with
  | Absent => Ok None
  | Stored bytes written_generation quarantined_through =>
      if (current_generation <? written_generation)
         || is_some_and (fun through => current_generation <=? through) quarantined_through
      then Err StoreError.CorruptState
      else if is_some_and (fun through => written_generation <=? through) quarantined_through
      then Err StoreError.InvalidArtifactReuse
      else Ok (Some bytes)
  end.

(** ** The invalidation command *)

(** The drafts of one Tick; [PipelineDraftBatchV1::try_new] bounds them. *)
Record CounterfactualInvalidationInputV1 := MkInvalidationInput {
  ci_fork : TimelineId;
  ci_fork_logical_head : Z;
  ci_trust_epoch : Z;
  ci_revocation_epoch : Z;
  ci_erasure_epoch : Z;
  ci_frontier : RecomputationFrontierBytesV1;
  ci_invalidation : SuffixInvalidationBytesV1;
  ci_invalid_artifacts : list Hash;
  ci_evictions : list Hash;
  ci_first_tick : Z;
  ci_first_tick_drafts : list EventDraft;
}.

Definition ordered_digest_set (digests : list Hash) (maximum : Z) : StoreResult unit :=
  if maximum <? len digests then Err StoreError.FieldOutOfBounds
  else ascending cmp StoreError.DuplicateIdentity StoreError.NonCanonicalOrder digests.

Definition quarantines_own_records (input : CounterfactualInvalidationInputV1) : bool :=
  let own := [fb_digest (ci_frontier input); ib_digest (ci_invalidation input)] in
  existsb (fun set => existsb (fun digest => is_ok (binary_search_by (fun d => cmp d digest) set)) own)
    [ci_invalid_artifacts input; ci_evictions input].

Definition command_bound (input : CounterfactualInvalidationInputV1) : Ulid * Hash * Hash * Ulid * Z * Z :=
  let h := ib_header (ci_invalidation input) in
  (ih_fork_id h, ih_plan_digest h, ih_frontier_digest h, ih_commit_timeline_id h, ih_commit_seq h, ih_commit_tick h).
Definition command_expected (input : CounterfactualInvalidationInputV1) : Ulid * Hash * Hash * Ulid * Z * Z :=
  (ci_fork input, fb_plan_digest (ci_frontier input), fb_digest (ci_frontier input), ci_fork input,
   ci_fork_logical_head input, ci_first_tick input).

Definition command_try_new (input : CounterfactualInvalidationInputV1)
    : StoreResult CounterfactualInvalidationInputV1 :=
  if negb (bool_decide (command_bound input = command_expected input)) then Err StoreError.BindingMismatch else
  let? _ := ordered_digest_set (ci_invalid_artifacts input) MAX_COUNTERFACTUAL_INVALID_ARTIFACTS_V1 in
  let? _ := ordered_digest_set (ci_evictions input) MAX_COUNTERFACTUAL_EVICTIONS_V1 in
  if quarantines_own_records input then Err StoreError.BindingMismatch else Ok input.

Definition expected_basis (c : CounterfactualInvalidationInputV1) : CounterfactualBasisV1 :=
  MkBasis (ci_fork_logical_head c) (ih_prior_generation (ib_header (ci_invalidation c)))
    (MkFacts (fb_plan_digest (ci_frontier c)) (fb_dependency_graph_digest (ci_frontier c)) (ci_trust_epoch c)
      (ci_revocation_epoch c) (ci_erasure_epoch c)).
Definition command_new_generation (c : CounterfactualInvalidationInputV1) : ForkGenerationV1 :=
  MkGeneration (ci_fork c) (ih_new_generation (ib_header (ci_invalidation c))).
Definition quarantines_through (c : CounterfactualInvalidationInputV1) : Z :=
  ih_prior_generation (ib_header (ci_invalidation c)).

(** ** Receipts *)

Record CounterfactualGenerationRecordV1 := MkGenerationRecord {
  gr_generation : ForkGenerationV1;
  gr_frontier_digest : Hash;
  gr_invalidation_digest : Hash;
  gr_first_tick : Z;
  gr_first_tick_head : Z;
  gr_facts : CounterfactualFactsV1;
}.

(** A receipt has the fields of the record it is stored as. *)
Record CounterfactualGenerationReceiptV1 := MkReceipt { receipt_record : CounterfactualGenerationRecordV1 }.

Definition committed_receipt (c : CounterfactualInvalidationInputV1) (first_tick_head : Z)
    : StoreResult CounterfactualGenerationReceiptV1 :=
  if first_tick_head <=? ci_fork_logical_head c then Err StoreError.CorruptState else
  Ok (MkReceipt (MkGenerationRecord (command_new_generation c) (fb_digest (ci_frontier c))
    (ib_digest (ci_invalidation c)) (ci_first_tick c) first_tick_head (ba_facts (expected_basis c)))).

Definition receipt_from_record (record : CounterfactualGenerationRecordV1)
    : StoreResult CounterfactualGenerationReceiptV1 :=
  if fg_generation (gr_generation record) =? 0 then Err StoreError.CorruptState else Ok (MkReceipt record).

Definition tick_basis (receipt : CounterfactualGenerationReceiptV1) (fork_logical_head : Z) : CounterfactualBasisV1 :=
  MkBasis fork_logical_head (fg_generation (gr_generation (receipt_record receipt))) (gr_facts (receipt_record receipt)).

Definition matches_invalidation (receipt : CounterfactualGenerationReceiptV1) (invalidation : SuffixInvalidationBytesV1)
    : bool := bool_decide (gr_invalidation_digest (receipt_record receipt) = ib_digest invalidation).

Inductive CounterfactualInvalidationOutcomeV1 :=
| InvalidationCommitted (receipt : CounterfactualGenerationReceiptV1)
| InvalidationConflict (conflict : InvalidationConflictV1).
