(* ===== verification/DependencyRecords.v ===== *)
(** * Dependency records

    [crates/pos-core/src/counterfactual_dependency.rs]: the coordinates, node and
    edge rows a store records per Tick, with IDP1 bytes carried without their codec,
    the checks of one Tick record and of one recorded set, and the pages a reader
    asks for. *)

From Stdlib Require Import String ZArith Lia Bool.
From S2P Require Import Prelude Text Ordering Cbor FallbackRecords StrictCbor PluginTrust Keys ErasureGate CounterfactualPort.

Local Open Scope Z_scope.

Definition MAX_RECORDED_DEPENDENCY_NODES_V1 : Z := 1000000.
Definition MAX_RECORDED_DEPENDENCY_EDGES_V1 : Z := 4000000.
Definition MAX_TICK_DEPENDENCY_NODES_V1 : Z := 65536.
Definition MAX_TICK_DEPENDENCY_EDGES_V1 : Z := 262144.
Definition MAX_DEPENDENCY_NODE_INPUTS_V1 : Z := 4096.
Definition MAX_DEPENDENCY_EDGE_BYTES_V1 : Z := 16 * 1024.
Definition MAX_TICK_DEPENDENCY_EDGE_BYTES_V1 : Z := 128 * 1024 * 1024.
Definition MAX_OWNER_ID_BYTES : Z := 128.
Definition MAX_DEPENDENCY_PAGE_ROWS_V1 : Z := 1024.

Definition EDGE_ARRAY_HEAD : byte := x89.
Definition EDGE_PREFIX : list byte := [x64; "I"; "D"; "P"; "1"; x01]%byte.
Definition EDGE_DIGEST_DOMAIN : list byte := list_byte_of_string "PiglorOS.InputDependency.v1".
Definition NODE_ARRAY_HEAD : byte := x86.
Definition OWNER_TEXT_MAJOR : Z := 3.
Definition EDGE_TAIL_FIELDS : nat := 5.
Definition EDGE_TAIL_ARRAY_DEPTH : nat := 1.
Definition EDGE_CLASS_AND_RANGE_FIELDS : nat := 2.

Module DepRecordError.
Inductive CounterfactualDependencyErrorV1 :=
| InvalidEncoding | UnsupportedVersion | FieldOutOfBounds | UnknownEnum | NonCanonicalOrder | DuplicateIdentity
| ProvenanceMissing | BindingMismatch | UnknownConsumer | UndeclaredInput | InvalidCursor | InvalidPageLimit.
End DepRecordError.

Notation DependencyResult := (result DepRecordError.CounterfactualDependencyErrorV1).

Definition READ_BACK_FAULT : StoreError.CounterfactualStoreErrorV1 := StoreError.CorruptState.

Definition store_error_from (e : DepRecordError.CounterfactualDependencyErrorV1) : StoreError.CounterfactualStoreErrorV1 :=
  match e with
  | DepRecordError.InvalidEncoding | DepRecordError.UnknownEnum => StoreError.InvalidEncoding
  | DepRecordError.UnsupportedVersion => StoreError.UnsupportedVersion
  | DepRecordError.FieldOutOfBounds | DepRecordError.ProvenanceMissing | DepRecordError.InvalidPageLimit =>
      StoreError.FieldOutOfBounds
  | DepRecordError.NonCanonicalOrder => StoreError.NonCanonicalOrder
  | DepRecordError.DuplicateIdentity => StoreError.DuplicateIdentity
  | DepRecordError.BindingMismatch | DepRecordError.UnknownConsumer | DepRecordError.UndeclaredInput
  | DepRecordError.InvalidCursor => StoreError.BindingMismatch
  end.

(** ** Classes and origins *)

Inductive RecordedDependencyClassV1 :=
| RecExogenousFrozen | RecInterventionAssigned | RecEndogenousRecomputed | RecFixedPolicy | RecPresentationOnly.
#[export] Instance recorded_class_eq_dec : EqDecision RecordedDependencyClassV1.
Proof. solve_decision. Defined.

Definition recorded_class_code (c : RecordedDependencyClassV1) : Z :=
  match c with
  | RecExogenousFrozen => 0 | RecInterventionAssigned => 1 | RecEndogenousRecomputed => 2
  | RecFixedPolicy => 3 | RecPresentationOnly => 4
  end.
Definition recorded_class_is_root (c : RecordedDependencyClassV1) : bool :=
  match c with RecExogenousFrozen | RecInterventionAssigned | RecFixedPolicy => true | _ => false end.
Definition recorded_class_from_code (code : Z) : DependencyResult RecordedDependencyClassV1 :=
  if code =? 0 then Ok RecExogenousFrozen else if code =? 1 then Ok RecInterventionAssigned
  else if code =? 2 then Ok RecEndogenousRecomputed else if code =? 3 then Ok RecFixedPolicy
  else if code =? 4 then Ok RecPresentationOnly else Err DepRecordError.UnknownEnum.

Inductive RecordedNodeOriginV1 := RecCommitted | RecProvisional.
#[export] Instance recorded_origin_eq_dec : EqDecision RecordedNodeOriginV1.
Proof. solve_decision. Defined.

Definition recorded_origin_code (o : RecordedNodeOriginV1) : Z :=
  match o with RecCommitted => 0 | RecProvisional => 1 end.
Definition recorded_origin_from_code (code : Z) : DependencyResult RecordedNodeOriginV1 :=
  if code =? 0 then Ok RecCommitted else if code =? 1 then Ok RecProvisional else Err DepRecordError.UnknownEnum.

(** [check_order] over the windows of a list. *)
Definition check_order {A} (compare : A -> A -> comparison) (items : list A) : DependencyResult unit :=
  ascending compare DepRecordError.DuplicateIdentity DepRecordError.NonCanonicalOrder items.

Definition valid_owner (owner_id : RString) : bool :=
  (1 <=? str_len owner_id) && (str_len owner_id <=? MAX_OWNER_ID_BYTES).

(** ** Coordinates *)

Record DependencyNodeCoordinateV1 := MkCoordinate {
  co_tick : Z;
  co_scheduler_position : Z;
  co_owner_id : RString;
  co_output_ordinal : Z;
  co_schema_id : Z;
  co_artifact_digest : Hash;
}.
#[export] Instance coordinate_eq_dec : EqDecision DependencyNodeCoordinateV1.
Proof. solve_decision. Defined.

Definition coordinate_try_new (tick scheduler_position : Z) (owner_id : RString) (output_ordinal schema_id : Z)
    (artifact_digest : Hash) : DependencyResult DependencyNodeCoordinateV1 :=
  if valid_owner owner_id && negb (schema_id =? 0) && negb (bool_decide (artifact_digest = hash_zero))
  then Ok (MkCoordinate tick scheduler_position owner_id output_ordinal schema_id artifact_digest)
  else Err DepRecordError.FieldOutOfBounds.

Definition position_key (c : DependencyNodeCoordinateV1) : Z * (Z * (RString * Z)) :=
  (co_tick c, (co_scheduler_position c, (co_owner_id c, co_output_ordinal c))).

Definition coordinate_encoded (c : DependencyNodeCoordinateV1) : list byte :=
  [NODE_ARRAY_HEAD] ++ encode_head 0 (co_tick c) ++ encode_head 0 (co_scheduler_position c)
  ++ encode_bytes (as_bytes (co_owner_id c)) OWNER_TEXT_MAJOR ++ encode_head 0 (co_output_ordinal c)
  ++ encode_head 0 (co_schema_id c) ++ encode_hash (co_artifact_digest c).

(** ** Nodes *)

Record DependencyNodeRecordV1 := MkNodeRecord {
  nr_coordinate : DependencyNodeCoordinateV1;
  nr_class : RecordedDependencyClassV1;
  nr_origin : RecordedNodeOriginV1;
  nr_input_digests : list Hash;
  nr_provenance_digest : Hash;
}.
#[export] Instance node_record_eq_dec : EqDecision DependencyNodeRecordV1.
Proof. solve_decision. Defined.

Definition node_record_try_new (coordinate : DependencyNodeCoordinateV1) (class : RecordedDependencyClassV1)
    (origin : RecordedNodeOriginV1) (input_digests : list Hash) (provenance_digest : Hash)
    : DependencyResult DependencyNodeRecordV1 :=
  if (MAX_DEPENDENCY_NODE_INPUTS_V1 <? len input_digests) || bool_decide (hash_zero ∈ input_digests)
  then Err DepRecordError.FieldOutOfBounds
  else if bool_decide (provenance_digest = hash_zero) then Err DepRecordError.ProvenanceMissing
  else let? _ := check_order cmp input_digests in
       Ok (MkNodeRecord coordinate class origin input_digests provenance_digest).

(** ** Edges *)

Record DependencyEdgeRecordV1 := MkEdgeRecord {
  er_bytes : list byte;
  er_consumer : DependencyNodeCoordinateV1;
  er_source_digest : Hash;
  er_authorization : option Hash;
  er_digest : Hash;
}.
#[export] Instance edge_record_eq_dec : EqDecision DependencyEdgeRecordV1.
Proof. solve_decision. Defined.

Definition malformed {A} (p : Parser CborReadError A) : Parser DepRecordError.CounterfactualDependencyErrorV1 A :=
  pmap_err (fun _ => DepRecordError.InvalidEncoding) p.

Definition skip_source_head : Parser CborReadError unit :=
  let! _ := cfixed [NODE_ARRAY_HEAD] in times 2 (skip_item 1).

Definition read_source_digest : Parser CborReadError Hash :=
  let! _ := times 2 (skip_item 1) in port_read_hash.

Definition owner_text_length (length : Z) : DependencyResult Z :=
  if (1 <=? length) && (length <=? MAX_OWNER_ID_BYTES) then Ok length else Err DepRecordError.FieldOutOfBounds.

(** [read_hash(&mut cursor.clone()).ok()]: the cursor stays where it is. *)
Definition peek {E A} (p : Parser E A) : Parser E (option A) := fun c =>
  Ok (match p c with Ok (a, _) => Some a | Err _ => None end, c).

Definition tail_authorization : Parser CborReadError (option Hash) :=
  let! _ := times EDGE_CLASS_AND_RANGE_FIELDS (skip_item EDGE_TAIL_ARRAY_DEPTH) in
  let! authorization := peek port_read_hash in
  let! _ := times (EDGE_TAIL_FIELDS - EDGE_CLASS_AND_RANGE_FIELDS) (skip_item EDGE_TAIL_ARRAY_DEPTH) in
  pret authorization.

Definition edge_fields (rest : list byte) : DependencyResult (Hash * option Hash) :=
  let? (fields, cursor) := (let! _ := malformed skip_source_head in
    let! length := malformed (chead OWNER_TEXT_MAJOR) in
    let! length := plift (owner_text_length length) in
    let! _ := malformed (ctake length) in
    let! digest := malformed read_source_digest in
    let! authorization := malformed tail_authorization in
    pret (digest, authorization)) (cursor_new rest) in
  if is_finished cursor then Ok fields else Err DepRecordError.InvalidEncoding.

Section Edges.
Context `{Blake3}.

Definition edge_digest (bytes : list byte) : Hash := blake3 (EDGE_DIGEST_DOMAIN ++ [x00] ++ bytes).

Definition edge_try_from_canonical (bytes : list byte) (consumer : DependencyNodeCoordinateV1) (source_digest : Hash)
    : DependencyResult DependencyEdgeRecordV1 :=
  if (MAX_DEPENDENCY_EDGE_BYTES_V1 <? len bytes) || bool_decide (source_digest = hash_zero)
  then Err DepRecordError.FieldOutOfBounds else
  let? fields := ok_or (strip_prefix [EDGE_ARRAY_HEAD] bytes) DepRecordError.InvalidEncoding in
  let? fields := ok_or (strip_prefix EDGE_PREFIX fields) DepRecordError.UnsupportedVersion in
  let? rest := ok_or (strip_prefix (coordinate_encoded consumer) fields) DepRecordError.BindingMismatch in
  let? (extracted, authorization) := edge_fields rest in
  if bool_decide (extracted = source_digest)
  then Ok (MkEdgeRecord bytes consumer source_digest authorization (edge_digest bytes))
  else Err DepRecordError.BindingMismatch.
End Edges.

Definition edge_record_key (e : DependencyEdgeRecordV1) : Z * (Z * (RString * Z)) * Hash :=
  (position_key (er_consumer e), er_source_digest e).
Definition edge_record_cmp (a b : DependencyEdgeRecordV1) : comparison := cmp (edge_record_key a) (edge_record_key b).

(** ** Tick records *)

Record RecordedSetCountsV1 := MkSetCounts { sc_nodes : Z; sc_edges : Z; sc_inputs : Z }.

Definition set_bound_exceeded (recorded : RecordedSetCountsV1) (nodes edges inputs : Z) : bool :=
  (MAX_RECORDED_DEPENDENCY_NODES_V1 <? saturating_add (sc_nodes recorded) nodes)
  || (MAX_RECORDED_DEPENDENCY_EDGES_V1 <? saturating_add (sc_edges recorded) edges)
  || (MAX_RECORDED_DEPENDENCY_EDGES_V1 <? saturating_add (sc_inputs recorded) inputs).

Record TickDependencyRecordV1 := MkTickRecord {
  tr_tick : Z;
  tr_origin : RecordedNodeOriginV1;
  tr_nodes : list DependencyNodeRecordV1;
  tr_edges : list DependencyEdgeRecordV1;
}.

(** The sums are of the lengths of lists in memory, which do not overflow. *)
Definition sum_inputs (nodes : list DependencyNodeRecordV1) : Z :=
  fold_left (fun total node => total + len (nr_input_digests node)) nodes 0.
Definition edge_bytes (edges : list DependencyEdgeRecordV1) : Z :=
  fold_left (fun total edge => saturating_add total (len (er_bytes edge))) edges 0.

Definition within_record_bounds (nodes : list DependencyNodeRecordV1) (edges : list DependencyEdgeRecordV1) : bool :=
  (len nodes <=? MAX_TICK_DEPENDENCY_NODES_V1) && (len edges <=? MAX_TICK_DEPENDENCY_EDGES_V1)
  && (sum_inputs nodes <=? MAX_TICK_DEPENDENCY_EDGES_V1) && (edge_bytes edges <=? MAX_TICK_DEPENDENCY_EDGE_BYTES_V1).

Definition tick_fits (node : DependencyNodeRecordV1) (tick : Z) : bool :=
  if recorded_class_is_root (nr_class node) then co_tick (nr_coordinate node) <=? tick
  else co_tick (nr_coordinate node) =? tick.

(** The loop over the digests with the set [seen]. *)
Fixpoint digests_once (seen : gset Hash) (nodes : list DependencyNodeRecordV1) : DependencyResult unit :=
  match nodes with
  | [] => Ok tt
  | node :: rest =>
      let digest := co_artifact_digest (nr_coordinate node) in
      if bool_decide (digest ∈ seen) then Err DepRecordError.DuplicateIdentity
      else digests_once ({[digest]} ∪ seen) rest
  end.

Definition check_nodes (tick : Z) (origin : RecordedNodeOriginV1) (nodes : list DependencyNodeRecordV1)
    : DependencyResult unit :=
  if existsb (fun node => negb (bool_decide (nr_origin node = origin)) || negb (tick_fits node tick)) nodes
  then Err DepRecordError.BindingMismatch else
  let? _ := check_order (fun l r => cmp (position_key (nr_coordinate l)) (position_key (nr_coordinate r))) nodes in
  digests_once ∅ nodes.

Definition check_edge (nodes : list DependencyNodeRecordV1) (edge : DependencyEdgeRecordV1) : DependencyResult unit :=
  let found := match binary_search_by
      (fun node => cmp (position_key (nr_coordinate node)) (position_key (er_consumer edge))) nodes with
    | Ok index => nodes !! index | Err _ => None end in
  let consumer := match found with
    | Some node => if bool_decide (nr_coordinate node = er_consumer edge) then Some node else None
    | None => None end in
  let? node := ok_or consumer DepRecordError.UnknownConsumer in
  if is_ok (binary_search_by (fun d => cmp d (er_source_digest edge)) (nr_input_digests node)) then Ok tt
  else Err DepRecordError.UndeclaredInput.

Definition check_edges (nodes : list DependencyNodeRecordV1) (edges : list DependencyEdgeRecordV1)
    : DependencyResult unit :=
  let? _ := check_order edge_record_cmp edges in
  let? _ := try_collect (check_edge nodes) edges in
  Ok tt.

Definition tick_record_try_new (tick : Z) (origin : RecordedNodeOriginV1) (nodes : list DependencyNodeRecordV1)
    (edges : list DependencyEdgeRecordV1) : DependencyResult TickDependencyRecordV1 :=
  if negb (within_record_bounds nodes edges) then Err DepRecordError.FieldOutOfBounds else
  let? _ := check_nodes tick origin nodes in
  let? _ := check_edges nodes edges in
  Ok (MkTickRecord tick origin nodes edges).

Definition declared_input_count (r : TickDependencyRecordV1) : Z := sum_inputs (tr_nodes r).
Definition uncovered_input_count (r : TickDependencyRecordV1) : Z :=
  saturating_sub (declared_input_count r) (len (tr_edges r)).

Definition ensure_set_capacity (r : TickDependencyRecordV1) (recorded : RecordedSetCountsV1) : DependencyResult unit :=
  if set_bound_exceeded recorded (len (tr_nodes r)) (len (tr_edges r)) (declared_input_count r)
  then Err DepRecordError.FieldOutOfBounds else Ok tt.

Definition ensure_provisional (r : TickDependencyRecordV1) : StoreResult unit :=
  if bool_decide (tr_origin r = RecProvisional) then Ok tt else Err StoreError.BindingMismatch.

(** ** Cursors and scopes *)

Record DependencyPageCursorV1 := MkPageCursor {
  pc_tick : Z;
  pc_scheduler_position : Z;
  pc_owner_id : RString;
  pc_output_ordinal : Z;
  pc_source_digest : option Hash;
}.
Definition page_cursor_tuple (c : DependencyPageCursorV1) : Z * (Z * (RString * (Z * option Hash))) :=
  (pc_tick c, (pc_scheduler_position c, (pc_owner_id c, (pc_output_ordinal c, pc_source_digest c)))).
#[export] Instance page_cursor_tuple_inj : Inj (=) (=) page_cursor_tuple.
Proof. intros [] []. unfold page_cursor_tuple. cbn. by intros [= -> -> -> -> ->]. Qed.
#[export] Instance page_cursor_eq_dec : EqDecision DependencyPageCursorV1.
Proof. solve_decision. Defined.
#[export] Instance page_cursor_ord : Ord DependencyPageCursorV1 := ord_by page_cursor_tuple.
#[export] Instance page_cursor_ord_laws : OrdLaws DependencyPageCursorV1 := ord_by_laws page_cursor_tuple _.

Definition page_cursor_try_new (tick scheduler_position : Z) (owner_id : RString) (output_ordinal : Z)
    (source_digest : option Hash) : DependencyResult DependencyPageCursorV1 :=
  if valid_owner owner_id && negb (bool_decide (source_digest = Some hash_zero))
  then Ok (MkPageCursor tick scheduler_position owner_id output_ordinal source_digest)
  else Err DepRecordError.InvalidCursor.

Definition cursor_at (c : DependencyNodeCoordinateV1) (source_digest : option Hash) : DependencyPageCursorV1 :=
  MkPageCursor (co_tick c) (co_scheduler_position c) (co_owner_id c) (co_output_ordinal c) source_digest.

Inductive DependencyReadScopeV1 :=
| ParentPrefix (timeline : TimelineId) (through_tick : Z)
| ForkGeneration (generation : ForkGenerationV1).

Definition scope_through_tick (s : DependencyReadScopeV1) : option Z :=
  match s with ParentPrefix _ through => Some through | ForkGeneration _ => None end.

Definition ensure_current (s : DependencyReadScopeV1) (current_generation : Z) : StoreResult unit :=
  match s with
  | ParentPrefix _ _ => Ok tt
  | ForkGeneration at_ => let? _ := resolve_read at_ current_generation Absent in Ok tt
  end.

(** The two kinds of row: nodes, whose cursors name no source, and edges. *)
Class PagedRow (T : Type) := {
  keyed_by_source : bool;
  in_scope : T -> DependencyReadScopeV1 -> bool;
  row_cursor : T -> DependencyPageCursorV1;
}.

#[export] Instance node_row : PagedRow DependencyNodeRecordV1 := {|
  keyed_by_source := false;
  in_scope row scope :=
    let committed := bool_decide (nr_origin row = RecCommitted) in
    match scope_through_tick scope with
    | Some through => committed && (co_tick (nr_coordinate row) <=? through)
    | None => negb committed
    end;
  row_cursor row := cursor_at (nr_coordinate row) None;
|}.

#[export] Instance edge_row : PagedRow DependencyEdgeRecordV1 := {|
  keyed_by_source := true;
  in_scope row scope :=
    match scope_through_tick scope with
    | Some through => co_tick (er_consumer row) <=? through
    | None => true
    end;
  row_cursor row := cursor_at (er_consumer row) (Some (er_source_digest row));
|}.

(** ** Pages *)

Record DependencyPageRequestV1 := MkPageRequest {
  rq_scope : DependencyReadScopeV1;
  rq_after : option DependencyPageCursorV1;
  rq_limit : Z;
}.

Definition beyond_scope (scope : DependencyReadScopeV1) (after : option DependencyPageCursorV1) : bool :=
  match after, scope_through_tick scope with
  | Some cursor, Some through_tick => through_tick <? pc_tick cursor
  | _, _ => false
  end.

Definition page_request_try_new (scope : DependencyReadScopeV1) (after : option DependencyPageCursorV1) (limit : Z)
    : DependencyResult DependencyPageRequestV1 :=
  if negb ((1 <=? limit) && (limit <=? MAX_DEPENDENCY_PAGE_ROWS_V1)) then Err DepRecordError.InvalidPageLimit
  else if beyond_scope scope after then Err DepRecordError.InvalidCursor
  else Ok (MkPageRequest scope after limit).

Record DependencyPageV1 (T : Type) := MkPage { pg_items : list T; pg_next : option DependencyPageCursorV1 }.
Arguments MkPage {T} _ _.
Arguments pg_items {T} _.
Arguments pg_next {T} _.

Section Pages.
Context {T : Type} `{PagedRow T}.

Definition check_cursor_kind (request : DependencyPageRequestV1) : DependencyResult unit :=
  if match rq_after request with
     | None => true
     | Some cursor => Bool.eqb (bool_decide (is_Some (pc_source_digest cursor))) keyed_by_source
     end
  then Ok tt else Err DepRecordError.InvalidCursor.

Definition check_items (request : DependencyPageRequestV1) (items : list T) : DependencyResult unit :=
  if rq_limit request <? len items then Err DepRecordError.FieldOutOfBounds
  else if forallb (fun row => in_scope row (rq_scope request)) items then Ok tt
  else Err DepRecordError.BindingMismatch.

Definition continuation_valid (request : DependencyPageRequestV1) (items : list T)
    (next : option DependencyPageCursorV1) : bool :=
  match next with
  | None => true
  | Some cursor => (len items =? rq_limit request) && bool_decide (row_cursor <$> last items = Some cursor)
  end.

Definition page_try_new (request : DependencyPageRequestV1) (items : list T) (next : option DependencyPageCursorV1)
    : DependencyResult (DependencyPageV1 T) :=
  let? _ := check_cursor_kind request in
  let? _ := check_items request items in
  let? _ := check_order cmp (option_list (rq_after request) ++ (row_cursor <$> items)) in
  if continuation_valid request items next then Ok (MkPage items next) else Err DepRecordError.InvalidCursor.

Definition page_from_ordered (request : DependencyPageRequestV1) (rows : list T)
    : DependencyResult (DependencyPageV1 T) :=
  let? _ := check_cursor_kind request in
  let start := match rq_after request with
    | Some after => partition_point (fun row => leb (row_cursor row) after) rows
    | None => 0%nat end in
  let remaining := drop start rows in
  let items := take (Z.to_nat (rq_limit request)) remaining in
  let next := match last items with
    | Some row => if rq_limit request <? len remaining then Some (row_cursor row) else None
    | None => None end in
  Ok (MkPage items next).
End Pages.
