(* ===== verification/RecordParity.v ===== *)
(** * The port carries what the codec writes

    The storage port reads RCF1, SIV1 and IDP1 bytes without the conformance codec.
    Against a writer of preferred CBOR, the two agree: the bytes of every valid
    record are accepted by the port, which extracts from them exactly the fields
    of the record. *)

From Stdlib Require Import String ZArith Lia Bool.
From S2P Require Import Prelude Text Ordering Cbor FallbackRecords StrictCbor PluginTrust WireSyntax TrustPolicy CfCodec.
From S2P Require Import Keys ErasureGate CounterfactualInputs CounterfactualPlan FrontierArtifacts FrontierArtifactsProperties.
From S2P Require Import CounterfactualPort DependencyRecords.

Local Open Scope Z_scope.

(** RFC 8949, preferred serialization of the values the records are made of. *)
Class PreferredWriter `{Ciborium} : Prop := {
  writes_uint z : u64_ok z -> into_writer (VInteger z) = Some (encode_head 0 z);
  writes_bytes b : len b <= U64_MAX -> into_writer (VBytes b) = Some (encode_bytes b 2);
  writes_text t : str_len t <= U64_MAX -> into_writer (VText t) = Some (encode_bytes (as_bytes t) 3);
  writes_array items bytes : len items <= U64_MAX ->
    into_writer (VArray items) = Some bytes
    <-> exists parts, Forall2 (fun v b => into_writer v = Some b) items parts
        /\ bytes = encode_head 4 (len items) ++ concat parts;
}.

Lemma short_head n : 0 <= n <= 23 -> encode_head 4 n = [byte_of_Z (0x80 + n)].
Proof.
  intros Hn. assert (Forall (fun k => encode_head 4 (Z.of_nat k) = [byte_of_Z (0x80 + Z.of_nat k)]) (seq 0 24)) as Hf
    by repeat constructor.
  rewrite Forall_seq in Hf. rewrite <- (Z2Nat.id n) by lia. apply Hf. lia.
Qed.

Section Writer.
Context `{PreferredWriter}.

Lemma writes_fixed n (d : checked (has_len n)) :
  n <= U64_MAX -> into_writer (wire_bytes d) = Some (encode_head 2 n ++ raw d).
Proof. intros Hn. unfold wire_bytes. rewrite writes_bytes by (by rewrite len_checked). unfold encode_bytes. by rewrite len_checked. Qed.

#[export] Instance preferred_short_arrays : ShortArrays.
Proof.
  split.
  - intros items bytes Hl. pose proof (len_nonneg items). rewrite writes_array by (unfold U64_MAX; lia).
    by rewrite short_head by lia.
  - intros d. by rewrite writes_fixed.
Qed.
End Writer.

(** ** The port's readers *)

Lemma encode_head_parts m v :
  0 <= m <= 7 -> u64_ok v ->
  exists b tail, encode_head m v = b :: tail /\ Z.shiftr (Z_of_byte b) 5 = m
    /\ yields (skip_argument (Z.land (Z_of_byte b) 0x1f)) v tail.
Proof.
  unfold u64_ok. intros Hm Hv. unfold encode_head, to_be_bytes.
  change (drop 7 (be_bytes 8 v)) with (be_bytes 1 v). change (drop 6 (be_bytes 8 v)) with (be_bytes 2 v).
  change (drop 4 (be_bytes 8 v)) with (be_bytes 4 v).
  destruct (Z.leb_spec v 23) as [Hs|Hs].
  { eexists _, _. split; [done|]. cbn [be_bytes nth]. change (8 * Z.of_nat 0) with 0.
    rewrite Z.shiftr_0_r, (Z_of_byte_of_Z v), head_byte, head_byte_major, head_byte_info by lia. split; [done|].
    unfold skip_argument. rewrite (proj2 (Z.leb_le _ _)) by lia. apply yields_ret. }
  repeat match goal with |- context [?x <=? ?k] => destruct (Z.leb_spec x k) end;
    (eexists _, _; split; [done|]; rewrite head_byte, head_byte_major, head_byte_info by lia; split; [done|];
     unfold skip_argument, cnumber; cbn [Z.leb Z.eqb Z.compare Pos.compare Pos.compare_cont Pos.eqb];
     match goal with |- yields _ _ (be_bytes ?n _) => apply (yields_unsigned_bytes n); cbn; unfold U64_MAX in *; lia end).
Qed.

Lemma yields_read_unsigned v : u64_ok v -> yields read_unsigned v (encode_head 0 v).
Proof.
  unfold u64_ok. intros Hv. unfold encode_head, to_be_bytes.
  change (drop 7 (be_bytes 8 v)) with (be_bytes 1 v). change (drop 6 (be_bytes 8 v)) with (be_bytes 2 v).
  change (drop 4 (be_bytes 8 v)) with (be_bytes 4 v).
  destruct (Z.leb_spec v 23) as [Hs|Hs].
  { eapply yields_bind_last; [apply yields_cbyte|]. cbn [be_bytes nth]. change (8 * Z.of_nat 0) with 0.
    rewrite Z.shiftr_0_r, (Z_of_byte_of_Z v), head_byte by lia. cbv zeta. change (0 * 32 + v) with v.
    rewrite (proj2 (Z.leb_le _ _)) by lia. apply yields_ret. }
  repeat match goal with |- context [?x <=? ?k] => destruct (Z.leb_spec x k) end;
    (change (?b :: ?r) with ([b] ++ r); eapply yields_bind; [apply yields_cbyte|]; rewrite head_byte by lia; cbv zeta;
     cbn [Z.leb Z.eqb Z.compare Z.add Z.mul Pos.compare Pos.compare_cont Pos.eqb]; unfold read_wide;
     match goal with |- yields _ _ (be_bytes ?n _) =>
       eapply yields_bind_last; [apply (yields_unsigned_bytes n); cbn; unfold U64_MAX in *; lia|] end;
     rewrite (proj2 (Z.leb_le _ _)) by lia; apply yields_ret).
Qed.

Lemma yields_port_hash (h : Hash) : yields port_read_hash h (encode_hash h).
Proof.
  rewrite encode_hash_eq. change (x58 :: x20 :: hash_bytes h) with (DIGEST_FIELD_HEAD ++ hash_bytes h).
  eapply yields_bind; [apply yields_cfixed|]. eapply yields_bind_last; [apply yields_ctake; by rewrite len_hash_bytes|].
  unfold hash_from_slice, hash_bytes. rewrite make_raw. apply yields_ret.
Qed.

Lemma yields_port_id (id : Ulid) : yields port_read_id id (encode_head 2 16 ++ raw id).
Proof.
  change (encode_head 2 16) with ID_FIELD_HEAD. eapply yields_bind; [apply yields_cfixed|].
  eapply yields_bind_last; [apply yields_ctake; by rewrite (len_checked 16)|]. rewrite make_raw. apply yields_ret.
Qed.

(** The values [skip_item] passes over with [depth] levels of arrays. *)
Fixpoint skippable (depth : nat) (v : Value) : Prop :=
  match v with
  | VInteger z => u64_ok z
  | VBytes b => len b <= U64_MAX
  | VText t => str_len t <= U64_MAX
  | VArray items =>
      match depth with S d => len items <= U64_MAX /\ Forall (skippable d) items | O => False end
  | _ => False
  end.

Lemma yields_times n p parts :
  length parts = n -> Forall (yields p tt) parts -> yields (times n p) tt (concat parts).
Proof.
  intros <-. induction 1 as [|e parts He _ IH]; [apply yields_ret|]. cbn [times length concat].
  by eapply yields_bind.
Qed.

Section Skip.
Context `{PreferredWriter}.

(** Behind a head, [skip_item] goes on with what the head announces. *)
Lemma yields_skip depth m v e :
  0 <= m <= 7 -> u64_ok v ->
  yields (if m =? 0 then pret tt
          else if (m =? 2) || (m =? 3) then let! _ := ctake v in pret tt
          else match depth with
               | S d => if m =? 4 then times (Z.to_nat v) (skip_item d) else plift (Err InvalidEncoding)
               | O => plift (Err InvalidEncoding)
               end) tt e ->
  yields (skip_item depth) tt (encode_head m v ++ e).
Proof.
  intros Hm Hv He. destruct (encode_head_parts m v Hm Hv) as (b & tail & -> & Hmajor & Harg).
  assert (yields (let! first := cbyte in
    let! argument := skip_argument (Z.land (Z_of_byte first) 0x1f) in
    let major := Z.shiftr (Z_of_byte first) 5 in
    if major =? 0 then pret tt
    else if (major =? 2) || (major =? 3) then let! _ := ctake argument in pret tt
    else match depth with
         | S d => if major =? 4 then times (Z.to_nat argument) (skip_item d) else plift (Err InvalidEncoding)
         | O => plift (Err InvalidEncoding)
         end) tt ([b] ++ tail ++ e)) as Hy.
  { eapply yields_bind; [apply yields_cbyte|]. eapply yields_bind; [exact Harg|]. cbv zeta. by rewrite Hmajor. }
  by destruct depth.
Qed.

Lemma skip_written depth v bytes :
  skippable depth v -> into_writer v = Some bytes -> yields (skip_item depth) tt bytes.
Proof.
  revert v bytes. induction depth as [|depth IH]; intros v bytes Hs Hw; destruct v as [z|b|t| |b|items|tag]; cbn in Hs; try done.
  all: try (rewrite writes_uint in Hw by done; injection Hw as <-; rewrite <- (app_nil_r (encode_head 0 z));
    apply yields_skip; [lia|done|apply yields_ret]).
  all: try (rewrite writes_bytes in Hw by done; injection Hw as <-; apply yields_skip;
    [lia|pose proof (len_nonneg b); unfold u64_ok; lia|eapply yields_bind_last; [by apply yields_ctake|apply yields_ret]]).
  all: try (rewrite writes_text in Hw by done; injection Hw as <-; apply yields_skip;
    [lia|pose proof (len_nonneg (as_bytes t)); unfold u64_ok, str_len in *; lia|eapply yields_bind_last; [by apply yields_ctake|apply yields_ret]]).
  destruct Hs as [Hl Hs]. apply writes_array in Hw as (parts & HF & ->); [|done]. pose proof (len_nonneg items).
  apply yields_skip; [lia|unfold u64_ok; lia|]. cbn [Z.eqb Pos.eqb orb]. apply yields_times.
  - rewrite <- (Forall2_length _ _ _ HF). unfold len. by rewrite Nat2Z.id.
  - clear Hl. induction HF as [|v b items' parts' Hv _ IHF]; constructor; inversion Hs; subst; [by eapply IH|].
    apply IHF; [done|apply len_nonneg].
Qed.

Lemma skip_all n depth vs parts :
  length vs = n -> Forall (skippable depth) vs -> Forall2 (fun v b => into_writer v = Some b) vs parts ->
  yields (times n (skip_item depth)) tt (concat parts).
Proof.
  intros Hn Hs HF. apply yields_times; [by rewrite <- (Forall2_length _ _ _ HF)|].
  clear Hn. induction HF; constructor; inversion Hs; subst; [by eapply skip_written|by apply IHHF].
Qed.
End Skip.

(** ** The self-digested frames *)

Lemma strip_prefix_app p rest : strip_prefix p (p ++ rest) = Some rest.
Proof. induction p as [|b p IH]; [done|]. cbn. by rewrite decide_True. Qed.

Lemma strip_prefix_Some p l rest : strip_prefix p l = Some rest -> l = p ++ rest.
Proof.
  revert l. induction p as [|b p IH]; intros [|c l]; cbn; try done; [by intros [= ->]..|].
  destruct (decide (b = c)) as [->|]; [|done]. by intros ->%IH.
Qed.

Lemma split_digest_field_app unsigned (d : Hash) :
  split_digest_field (unsigned ++ DIGEST_FIELD_HEAD ++ raw d) = Some (unsigned, d).
Proof.
  unfold split_digest_field, PORT_DIGEST_FIELD_BYTES, checked_sub. rewrite !len_app, (len_checked 32 d).
  change (len DIGEST_FIELD_HEAD) with 2. pose proof (len_nonneg unsigned).
  rewrite (proj2 (Z.leb_le _ _)) by lia. cbn [mbind option_bind].
  replace (len unsigned + (2 + 32) - 34) with (len unsigned) by lia.
  replace (Z.to_nat (len unsigned)) with (length unsigned) by (unfold len; by rewrite Nat2Z.id).
  rewrite take_app_length, drop_app_length. rewrite bool_decide_true by done. change (drop 2 (DIGEST_FIELD_HEAD ++ raw d)) with (raw d).
  unfold hash_from_slice. by rewrite make_raw.
Qed.

(** The frame of a sealed record: what [framing_verify] finds in its bytes. *)
Record frames (f : ArtifactFramingV1) (magic : RString) (domain : list byte) (count maximum : Z) : Prop := {
  fr_count : 2 <= count <= 22;
  fr_magic : str_len magic <= U64_MAX;
  fr_unsigned_head : af_unsigned_head f = byte_of_Z (0x80 + count);
  fr_array_head : af_array_head f = byte_of_Z (0x80 + count + 1);
  fr_prefix : af_prefix f = encode_bytes (as_bytes magic) 3 ++ encode_head 0 1;
  fr_domain : af_domain f = domain;
  fr_max : af_max_bytes f = maximum;
}.

Lemma frontier_frames :
  frames FRONTIER_FRAMING RECOMPUTATION_FRONTIER_MAGIC_V1 FRONTIER_DIGEST_DOMAIN_V1 16 MAX_RECOMPUTATION_FRONTIER_BYTES_V1.
Proof. split; done. Qed.
Lemma invalidation_frames :
  frames INVALIDATION_FRAMING SUFFIX_INVALIDATION_MAGIC_V1 INVALIDATION_DIGEST_DOMAIN_V1 17 MAX_SUFFIX_INVALIDATION_BYTES_V1.
Proof. split; done. Qed.

Section Frames.
Context `{Blake3} `{PreferredWriter}.

Lemma framing_verify_signed f magic domain count maximum fields unsigned :
  frames f magic domain count maximum -> len fields = count - 2 ->
  into_writer (VArray (wire_text magic :: wire_uint 1 :: fields)) = Some unsigned ->
  signed_length (len unsigned) <= maximum ->
  let digest := separated_digest domain unsigned in
  exists parts, Forall2 (fun v b => into_writer v = Some b) fields parts
    /\ framing_verify f (signed_encoding unsigned digest) = Ok (concat parts, digest).
Proof.
  intros Hf Hl Hw Hsize digest. pose proof (fr_count _ _ _ _ _ Hf) as Hc.
  assert (len (wire_text magic :: wire_uint 1 :: fields) = count) as Hn by (rewrite !len_cons; lia).
  apply writes_array in Hw as (parts & HF & Hu); [|rewrite Hn; unfold U64_MAX; lia].
  rewrite Hn, short_head in Hu by lia.
  inversion HF as [|? b1 ? r1 Hb1 HF1]; subst parts. inversion HF1 as [|? b2 ? r2 Hb2 HF2]; subst r1. exists r2.
  split; [done|]. unfold wire_text in Hb1. rewrite writes_text in Hb1 by exact (fr_magic _ _ _ _ _ Hf). injection Hb1 as <-.
  unfold wire_uint in Hb2. rewrite writes_uint in Hb2 by done. injection Hb2 as <-.
  cbn [concat] in Hu. rewrite (app_assoc (encode_bytes _ _)), <- (fr_prefix _ _ _ _ _ Hf), <- (fr_unsigned_head _ _ _ _ _ Hf) in Hu.
  assert (signed_encoding unsigned digest
    = (af_array_head f :: af_prefix f ++ concat r2) ++ DIGEST_FIELD_HEAD ++ raw digest) as He.
  { rewrite Hu. cbn [app signed_encoding]. rewrite (fr_unsigned_head _ _ _ _ _ Hf), Z_of_byte_of_Z by lia.
    by rewrite (fr_array_head _ _ _ _ _ Hf). }
  assert (len (signed_encoding unsigned digest) <= maximum) as Hbound.
  { rewrite He. rewrite Hu in Hsize. unfold signed_length in Hsize. unfold DIGEST_FIELD_BYTES in Hsize.
    cbn [app] in *. autorewrite with len in *. pose proof (len_checked 32 digest). change (len DIGEST_FIELD_HEAD) with 2. lia. }
  unfold framing_verify. rewrite (fr_max _ _ _ _ _ Hf), (proj2 (Z.ltb_ge _ _)) by lia. rewrite He, split_digest_field_app.
  cbn [ok_or rbind]. assert (strip_prefix [af_array_head f] (af_array_head f :: af_prefix f ++ concat r2) = Some (af_prefix f ++ concat r2)) as ->
    by exact (strip_prefix_app [af_array_head f] _). cbn [ok_or rbind].
  rewrite strip_prefix_app. cbn [ok_or rbind]. unfold framing_unsigned_digest. rewrite (fr_domain _ _ _ _ _ Hf).
  rewrite bool_decide_true; [done|]. unfold digest, separated_digest. by rewrite Hu.
Qed.
End Frames.

(** ** RCF1 and SIV1 *)

(** A header is read off the front of the fields. *)
Lemma header_read {A} (p : Parser CborReadError A) a e fields rest :
  yields p a e -> fields = e ++ rest -> (let? (header, _) := p (cursor_new fields) in Ok header) = Ok a.
Proof. intros Hp ->. specialize (Hp [] rest). cbn in Hp. change (len []) with 0 in Hp. unfold cursor_new. by rewrite Hp. Qed.

Section Sealed.
Context `{Blake3} `{PreferredWriter}.

(** The bytes of the first values of a list, and of the others. *)
Lemma written_split vs1 vs2 parts :
  Forall2 (fun v b => into_writer v = Some b) (vs1 ++ vs2) parts ->
  exists p1 p2, Forall2 (fun v b => into_writer v = Some b) vs1 p1
    /\ Forall2 (fun v b => into_writer v = Some b) vs2 p2 /\ concat parts = concat p1 ++ concat p2.
Proof. intros (p1 & p2 & ? & ? & ->)%Forall2_app_inv_l. exists p1, p2. by rewrite concat_app. Qed.

Lemma written_cons v vs parts b :
  Forall2 (fun v b => into_writer v = Some b) (v :: vs) parts -> into_writer v = Some b ->
  exists rest, Forall2 (fun v b => into_writer v = Some b) vs rest /\ concat parts = b ++ concat rest.
Proof. intros HF Hv. inversion HF as [|? b' ? rest Hb Hr]; subst. exists rest. split; [done|]. cbn. congruence. Qed.

Lemma written_hash (d : Hash) : into_writer (wire_bytes d) = Some (encode_hash d).
Proof. rewrite writes_fixed by done. unfold encode_hash, encode_bytes. by rewrite len_hash_bytes. Qed.

Lemma frontier_parity f bytes :
  frontier_to_canonical_cbor f = Ok bytes ->
  frontier_bytes_try_from_canonical bytes
  = Ok (MkFrontierBytes bytes (rf_frontier_digest f) (rf_plan_digest f) (rf_dependency_graph_digest f)).
Proof.
  unfold frontier_to_canonical_cbor, frontier_verified_unsigned, matching_digest. intros Hf.
  apply rbind_ok_inv in Hf as (unsigned & Hf & [= <-]). apply rbind_ok_inv in Hf as ([] & _ & Hf).
  apply rbind_ok_inv in Hf as ([digest u] & (Hw & Hsize & ->)%unsigned_encoding_ok & Hf).
  apply rbind_ok_inv in Hf as ([] & Hm & [= <-]). case_bool_decide as Hd; [|done]. rewrite <- Hd.
  destruct (framing_verify_signed _ _ _ _ _ (take 14 (frontier_values f)) _ frontier_frames eq_refl Hw Hsize) as (parts & HF & Hv).
  unfold frontier_bytes_try_from_canonical. rewrite Hv. cbn [rbind].
  eapply written_cons in HF as (r1 & HF & ->); [|by apply writes_fixed].
  eapply written_cons in HF as (r2 & HF & ->); [|apply written_hash].
  eapply written_cons in HF as (r3 & HF & ->); [|apply written_hash].
  eapply written_cons in HF as (r4 & HF & ->); [|apply written_hash].
  unfold frontier_header. erewrite (header_read _ (rf_plan_digest f, rf_dependency_graph_digest f)); [done| |].
  - eapply yields_bind; [apply yields_port_id|]. do 2 (eapply yields_bind; [apply yields_port_hash|]).
    eapply yields_bind_last; [apply yields_port_hash|apply yields_ret].
  - by rewrite <- !app_assoc.
Qed.

End Sealed.

Lemma skippable_uint depth z : u64_ok z -> skippable depth (wire_uint z).
Proof. by destruct depth. Qed.
Lemma skippable_u32 depth z : u32_ok z -> skippable depth (wire_uint z).
Proof. intros Hz. apply skippable_uint. unfold u32_ok, U32_MAX, u64_ok, U64_MAX in *. lia. Qed.
Lemma skippable_text depth t : str_len t <= U64_MAX -> skippable depth (wire_text t).
Proof. by destruct depth. Qed.
Lemma skippable_fixed depth n (d : checked (has_len n)) : n <= U64_MAX -> skippable depth (wire_bytes d).
Proof. intros Hn. destruct depth; cbn; by rewrite len_checked. Qed.
Lemma skippable_array depth vs : len vs <= U64_MAX -> Forall (skippable depth) vs -> skippable (S depth) (VArray vs).
Proof. done. Qed.

Create HintDb skips.
#[local] Hint Resolve skippable_uint skippable_u32 skippable_text : skips.
#[local] Hint Extern 0 (skippable _ (wire_bytes _)) => apply skippable_fixed; discriminate : skips.
#[local] Hint Extern 0 (Forall _ []) => apply Forall_nil_2 : skips.

(** The values of an array of few fields, one by one. *)
Ltac skip_fields := apply skippable_array; [discriminate|]; repeat (apply Forall_cons; split); auto with skips.

Lemma node_skippable depth n :
  node_typed n -> str_len (nd_owner_id n) <= U64_MAX -> skippable (S depth) (node_value n).
Proof. intros (Ht & Hs & Ho & Hi) Hl. skip_fields. Qed.

Lemma digests_skippable depth ds : len ds <= U64_MAX -> skippable (S depth) (digest_list ds).
Proof.
  intros Hl. apply skippable_array; [by rewrite len_fmap|]. apply Forall_fmap, Forall_forall. intros d _.
  by apply skippable_fixed.
Qed.

Lemma artifact_skippable a :
  invalid_artifact_typed a -> str_len (ia_artifact_class a) <= U64_MAX -> str_len (nd_owner_id (ia_producer a)) <= U64_MAX ->
  skippable 2 (invalid_artifact_value a).
Proof.
  intros (Hs & Hn & Hg) Hc Ho. skip_fields; [by apply node_skippable|]. apply skippable_uint. by destruct (ia_reason a).
Qed.

Section Parity.
Context `{Blake3} `{PreferredWriter}.

(** Fields 8 to 14 of a valid SIV1. *)
Lemma middle_skippable i :
  invalidation_typed i -> validate_invalidation_fields i = Ok tt ->
  Forall (skippable MAX_SKIPPED_ARRAY_DEPTH) (take 7 (drop 6 (invalidation_values i))).
Proof.
  intros (_ & _ & Hs & He & Ha & _). unfold validate_invalidation_fields. destruct (_ || _) eqn:Hb; [done|]. intros _.
  unfold invalidation_counts_within_bounds, valid_coordinate, within_count, MAX_INVALID_ARTIFACTS, MAX_DIGEST_LIST,
    MAX_DEPENDENCY_OWNER_ID_BYTES_V1 in Hb. bool_props.
  cbn [drop take invalidation_values]. repeat (apply Forall_cons; split); auto with skips.
  - apply node_skippable; [done|unfold U64_MAX; lia].
  - apply node_skippable; [done|unfold U64_MAX; lia].
  - apply skippable_array; [rewrite len_fmap; unfold U64_MAX; lia|]. apply Forall_fmap, Forall_forall. intros a Hin.
    match goal with Hx : forallb (fun a => valid_invalid_artifact a i) _ = true |- _ =>
      rewrite forallb_forall in Hx; specialize (Hx a (proj1 (list_elem_of_In _ _) Hin)) as Hv end.
    rewrite Forall_forall in Ha. specialize (Ha a Hin).
    unfold valid_invalid_artifact, within_count, MAX_ARTIFACT_CLASS_BYTES, is_valid_coordinate, MAX_DEPENDENCY_OWNER_ID_BYTES_V1 in Hv.
    bool_props. apply artifact_skippable; [done|unfold U64_MAX; lia..].
  - apply digests_skippable. unfold U64_MAX. lia.
  - apply digests_skippable. unfold U64_MAX. lia.
  - apply digests_skippable. unfold U64_MAX. lia.
  - apply skippable_uint. by destruct (si_reason i).
Qed.

Definition header_of (i : SuffixInvalidationV1) : InvalidationHeaderV1 :=
  MkInvalidationHeader (si_plan_digest i) (si_fork_id i) (si_prior_generation i) (si_new_generation i)
    (si_frontier_digest i) (si_commit_timeline_id i) (si_commit_seq i) (si_commit_tick i).

(** The header of a valid SIV1 is read off the bytes of its fields. *)
Lemma invalidation_header_read i parts :
  invalidation_typed i -> validate_invalidation_fields i = Ok tt ->
  Forall2 (fun v b => into_writer v = Some b) (take 15 (invalidation_values i)) parts ->
  invalidation_header (concat parts) = Ok (header_of i).
Proof.
  intros Ht Hv HF. pose proof Ht as (Hp & Hn & _ & _ & _ & Hc1 & Hc2).
  pose proof (middle_skippable i Ht Hv) as Hmid.
  eapply written_cons in HF as (r1 & HF & ->); [|by apply writes_fixed].
  eapply written_cons in HF as (r2 & HF & ->); [|apply written_hash].
  eapply written_cons in HF as (r3 & HF & ->); [|by apply writes_fixed].
  eapply written_cons in HF as (r4 & HF & ->); [|by apply writes_uint].
  eapply written_cons in HF as (r5 & HF & ->); [|by apply writes_uint].
  eapply written_cons in HF as (r6 & HF & ->); [|apply written_hash].
  apply (written_split (take 7 (drop 6 (invalidation_values i)))) in HF as (mid & tail & Hm & HF & ->).
  inversion HF as [|? commit ? rest Hcommit Hrest]; subst tail. cbn [concat].
  apply writes_array in Hcommit as (cs & HC & ->); [|done].
  eapply written_cons in HC as (c1 & HC & ->); [|by apply writes_fixed].
  eapply written_cons in HC as (c2 & HC & ->); [|by apply writes_uint].
  eapply written_cons in HC as (c3 & HC & ->); [|by apply writes_uint]. inversion HC; subst c3. cbn [concat].
  unfold invalidation_header. erewrite (header_read _ (header_of i)); [done| |].
  - eapply yields_bind; [apply (yields_port_id (si_invalidation_id i))|].
    eapply yields_bind; [apply (yields_port_hash (si_plan_digest i))|].
    eapply yields_bind; [apply (yields_port_id (si_fork_id i))|].
    eapply yields_bind; [exact (yields_read_unsigned _ Hp)|]. eapply yields_bind; [exact (yields_read_unsigned _ Hn)|].
    eapply yields_bind; [apply (yields_port_hash (si_frontier_digest i))|].
    eapply yields_bind; [eapply skip_all; [|exact Hmid|exact Hm]; done|].
    eapply yields_bind; [apply yields_cfixed|]. eapply yields_bind; [apply (yields_port_id (si_commit_timeline_id i))|].
    eapply yields_bind; [exact (yields_read_unsigned _ Hc1)|]. eapply yields_bind_last; [exact (yields_read_unsigned _ Hc2)|].
    apply yields_ret.
  - rewrite <- !app_assoc. cbn [app]. done.
Qed.

Lemma invalidation_parity i bytes :
  invalidation_typed i -> invalidation_to_canonical_cbor i = Ok bytes ->
  invalidation_bytes_try_from_canonical bytes = Ok (MkInvalidationBytes bytes (si_invalidation_digest i) (header_of i)).
Proof.
  unfold invalidation_to_canonical_cbor, invalidation_verified_unsigned, matching_digest. intros Ht Hi.
  apply rbind_ok_inv in Hi as (unsigned & Hi & [= <-]). apply rbind_ok_inv in Hi as ([] & Hval & Hi).
  apply rbind_ok_inv in Hi as ([digest u] & (Hw & Hsize & ->)%unsigned_encoding_ok & Hi).
  apply rbind_ok_inv in Hi as ([] & Hm & [= <-]). case_bool_decide as Hd; [|done]. rewrite <- Hd.
  destruct (framing_verify_signed _ _ _ _ _ (take 15 (invalidation_values i)) _ invalidation_frames eq_refl Hw Hsize)
    as (parts & HF & Hv).
  unfold invalidation_bytes_try_from_canonical. rewrite Hv. cbn [rbind].
  rewrite (invalidation_header_read i parts Ht Hval HF). cbn [or_err map_err rbind].
  rewrite bool_decide_true; [done|]. cbn [header_of ih_prior_generation ih_new_generation].
  unfold validate_invalidation_fields in Hval. destruct (_ || _); [done|].
  by destruct (bool_decide_reflect (checked_add (si_prior_generation i) 1 = Some (si_new_generation i))).
Qed.

(** ** IDP1 *)

Definition core_coordinate (n : DependencyNodeV1) : DependencyNodeCoordinateV1 :=
  MkCoordinate (nd_tick n) (nd_scheduler_position n) (nd_owner_id n) (nd_output_ordinal n) (nd_schema_id n)
    (nd_artifact_digest n).

Lemma u32_u64 z : u32_ok z -> u64_ok z.
Proof. unfold u32_ok, U32_MAX, u64_ok, U64_MAX. lia. Qed.

Lemma writes_node n :
  node_typed n -> str_len (nd_owner_id n) <= U64_MAX ->
  into_writer (node_value n) = Some (coordinate_encoded (core_coordinate n)).
Proof.
  intros (Ht & Hs%u32_u64 & Ho%u32_u64 & Hi%u32_u64) Hl. apply writes_array; [done|].
  exists [encode_head 0 (nd_tick n); encode_head 0 (nd_scheduler_position n); encode_bytes (as_bytes (nd_owner_id n)) 3;
    encode_head 0 (nd_output_ordinal n); encode_head 0 (nd_schema_id n); encode_hash (nd_artifact_digest n)].
  split.
  - do 2 (constructor; [by apply writes_uint|]). constructor; [by apply writes_text|].
    do 2 (constructor; [by apply writes_uint|]). constructor; [apply written_hash|constructor].
  - cbn [concat]. by rewrite app_nil_r.
Qed.

Lemma writes_pair v w b c :
  into_writer v = Some b -> into_writer w = Some c -> into_writer (VArray [v; w]) = Some (encode_head 4 2 ++ b ++ c).
Proof.
  intros Hv Hw. apply writes_array; [done|]. exists [b; c]. split; [by repeat constructor|]. cbn [concat]. by rewrite app_nil_r.
Qed.

(** Reading ahead leaves the cursor in front of what was read. *)
Lemma yields_peek {A B} (p : Parser CborReadError A) (k : option A -> Parser CborReadError B) a b e1 e2 :
  yields p a e1 -> yields (k (Some a)) b (e1 ++ e2) -> yields (pbind (peek p) k) b (e1 ++ e2).
Proof.
  intros Hp Hk pre rest. unfold pbind, peek. specialize (Hp pre (e2 ++ rest)). rewrite <- app_assoc in *. rewrite Hp.
  specialize (Hk pre rest). by rewrite <- app_assoc in Hk.
Qed.

(** The fields of a valid edge, behind its consumer. *)
Definition edge_tail (d : InputDependencyV1) : list byte :=
  encode_head 0 (class_code (dep_class d))
  ++ (encode_head 4 2 ++ encode_head 0 (first_tick_of (dep_tick_range d)) ++ encode_head 0 (last_tick_of (dep_tick_range d)))
  ++ encode_hash (dep_authorization_digest d)
  ++ (encode_head 4 2 ++ encode_bytes (as_bytes (rule_id (dep_classification_rule d))) 3
      ++ encode_head 0 (rule_version (dep_classification_rule d)))
  ++ encode_hash (dep_provenance_digest d).

Definition edge_encoding (d : InputDependencyV1) : list byte :=
  [EDGE_ARRAY_HEAD] ++ EDGE_PREFIX ++ coordinate_encoded (core_coordinate (dep_consumer d))
  ++ coordinate_encoded (core_coordinate (dep_source d)) ++ edge_tail d.

(** What validation bounds in a coordinate and in the rule. *)
Lemma valid_coordinate_sizes n :
  is_valid_coordinate n = true -> 1 <= str_len (nd_owner_id n) <= 128 /\ nd_schema_id n <> 0 /\ nd_artifact_digest n <> hash_zero.
Proof.
  unfold is_valid_coordinate, is_empty, MAX_DEPENDENCY_OWNER_ID_BYTES_V1, nonzero. intros Hv. bool_props.
  pose proof (len_nonneg (as_bytes (nd_owner_id n))). unfold str_len in *. split; [lia|]. split; [lia|].
  intros Hz. match goal with Hx : raw _ <> _ |- _ => by rewrite Hz in Hx end.
Qed.

Lemma valid_rule_size r : valid_rule r = true -> str_len (rule_id r) <= 128.
Proof.
  unfold valid_rule, identifier, MAX_RULE_ID_BYTES. intros Hv. destruct (as_bytes (rule_id r)); [done|]. bool_props. lia.
Qed.

Record edge_sizes (d : InputDependencyV1) : Prop := {
  sz_consumer : is_valid_coordinate (dep_consumer d) = true;
  sz_source : is_valid_coordinate (dep_source d) = true;
  sz_rule : str_len (rule_id (dep_classification_rule d)) <= 128;
}.

Lemma valid_sizes d : dependency_validate d = Ok tt -> edge_sizes d.
Proof.
  unfold dependency_validate. intros Hv. destruct (_ || _) eqn:Hb in Hv; [done|]. bool_props.
  split; [done..|by apply valid_rule_size].
Qed.

Lemma owner_u64 n : is_valid_coordinate n = true -> str_len (nd_owner_id n) <= U64_MAX.
Proof. intros [? _]%valid_coordinate_sizes. unfold U64_MAX. lia. Qed.

Lemma writes_edge d :
  dependency_typed d -> dependency_validate d = Ok tt -> into_writer (encode_dependency d) = Some (edge_encoding d).
Proof.
  intros (Hc & Hs & (Hf & Hl) & Hr%u32_u64) Hv. apply writes_array; [done|].
  destruct (valid_sizes d Hv) as [Hoc%owner_u64 Hos%owner_u64 Hid].
  assert (str_len (rule_id (dep_classification_rule d)) <= U64_MAX) by (unfold U64_MAX; lia).
  eexists [_; _; _; _; _; _; _; _; _]. split.
  - constructor; [by apply writes_text|]. constructor; [by apply writes_uint|].
    do 2 (constructor; [by apply writes_node|]). constructor; [apply writes_uint; by destruct (dep_class d)|].
    constructor; [by apply writes_pair; apply writes_uint|]. constructor; [apply written_hash|].
    constructor; [by apply writes_pair; [apply writes_text|apply writes_uint]|]. constructor; [apply written_hash|constructor].
  - unfold edge_encoding, edge_tail. cbn [concat]. rewrite !app_nil_r.
    change (encode_head 4 (len _)) with [EDGE_ARRAY_HEAD].
    change (encode_bytes (as_bytes INPUT_DEPENDENCY_MAGIC_V1) 3) with [x64; "I"; "D"; "P"; "1"]%byte.
    change (encode_head 0 1) with [x01]. unfold EDGE_PREFIX. by rewrite <- !app_assoc.
Qed.

Lemma len_coordinate_encoded c : len (coordinate_encoded c) <= 80 + str_len (co_owner_id c).
Proof.
  unfold coordinate_encoded, encode_bytes, str_len. autorewrite with len.
  pose proof (len_encode_head_le9 0 (co_tick c)). pose proof (len_encode_head_le9 0 (co_scheduler_position c)).
  pose proof (len_encode_head_le9 0 (co_output_ordinal c)). pose proof (len_encode_head_le9 0 (co_schema_id c)).
  pose proof (len_encode_head_le9 OWNER_TEXT_MAJOR (len (as_bytes (co_owner_id c)))). lia.
Qed.

(** A valid edge is far below the bound of the port. *)
Lemma len_edge_encoding d : edge_sizes d -> len (edge_encoding d) <= MAX_DEPENDENCY_EDGE_BYTES_V1.
Proof.
  intros [[Hc _]%valid_coordinate_sizes [Hs _]%valid_coordinate_sizes Hr].
  pose proof (len_coordinate_encoded (core_coordinate (dep_consumer d))).
  pose proof (len_coordinate_encoded (core_coordinate (dep_source d))). cbn [core_coordinate co_owner_id] in *.
  unfold edge_encoding, edge_tail, encode_bytes, str_len, MAX_DEPENDENCY_EDGE_BYTES_V1 in *. autorewrite with len.
  change (len EDGE_PREFIX) with 6. change (len (encode_head 4 2)) with 1.
  pose proof (len_encode_head_le9 0 (class_code (dep_class d))).
  pose proof (len_encode_head_le9 0 (first_tick_of (dep_tick_range d))).
  pose proof (len_encode_head_le9 0 (last_tick_of (dep_tick_range d))).
  pose proof (len_encode_head_le9 0 (rule_version (dep_classification_rule d))).
  pose proof (len_encode_head_le9 3 (len (as_bytes (rule_id (dep_classification_rule d))))). lia.
Qed.

Lemma skip_uint depth z : u64_ok z -> yields (skip_item depth) tt (encode_head 0 z).
Proof. intros Hz. eapply skip_written; [by apply skippable_uint|by apply writes_uint]. Qed.
Lemma skip_hash depth (h : Hash) : yields (skip_item depth) tt (encode_hash h).
Proof. eapply skip_written; [by apply (skippable_fixed depth 32 h)|apply written_hash]. Qed.

Lemma yields_tail d :
  dependency_typed d -> edge_sizes d -> yields tail_authorization (Some (dep_authorization_digest d)) (edge_tail d).
Proof.
  intros (_ & _ & (Hf & Hl) & Hr%u32_u64) [_ _ Hid].
  assert (str_len (rule_id (dep_classification_rule d)) <= U64_MAX) as Hid' by (unfold U64_MAX; lia).
  assert (u64_ok (class_code (dep_class d))) as Hclass by (by destruct (dep_class d)).
  unfold edge_tail, tail_authorization, EDGE_CLASS_AND_RANGE_FIELDS, EDGE_TAIL_FIELDS, EDGE_TAIL_ARRAY_DEPTH.
  rewrite (app_assoc (encode_head 0 _)). eapply yields_bind.
  { eapply yields_bind; [by apply skip_uint|]. eapply yields_bind_last; [|apply yields_ret].
    eapply skip_written; [|by apply writes_pair; apply writes_uint]. skip_fields. }
  eapply yields_peek; [apply yields_port_hash|]. eapply yields_bind_last; [|apply yields_ret].
  eapply yields_bind; [apply skip_hash|]. eapply yields_bind.
  { eapply skip_written; [|by apply writes_pair; [apply writes_text|apply writes_uint]]. skip_fields. }
  eapply yields_bind_last; [apply skip_hash|apply yields_ret].
Qed.

(** The port finds the digest of the source and the authorization behind the consumer. *)
Lemma edge_fields_read d :
  dependency_typed d -> edge_sizes d ->
  edge_fields (coordinate_encoded (core_coordinate (dep_source d)) ++ edge_tail d)
  = Ok (nd_artifact_digest (dep_source d), Some (dep_authorization_digest d)).
Proof.
  intros Hd Hz. pose proof Hd as (_ & (Ht & Hs%u32_u64 & Ho%u32_u64 & Hi%u32_u64) & _).
  destruct (valid_coordinate_sizes _ (sz_source _ Hz)) as [Hown _]. unfold edge_fields.
  set (n := dep_source d) in *. set (owner := as_bytes (nd_owner_id n)).
  match goal with |- (let? (_, _) := ?p (cursor_new ?l) in _) = _ =>
    assert (yields p (nd_artifact_digest n, Some (dep_authorization_digest d)) l) as Hy end.
  { replace (coordinate_encoded (core_coordinate n) ++ edge_tail d) with
      (([NODE_ARRAY_HEAD] ++ encode_head 0 (nd_tick n) ++ encode_head 0 (nd_scheduler_position n))
       ++ encode_head OWNER_TEXT_MAJOR (len owner) ++ [] ++ owner
       ++ ((encode_head 0 (nd_output_ordinal n) ++ encode_head 0 (nd_schema_id n)) ++ encode_hash (nd_artifact_digest n))
       ++ edge_tail d) by (unfold coordinate_encoded, encode_bytes; cbn [core_coordinate co_tick co_scheduler_position
         co_owner_id co_output_ordinal co_schema_id co_artifact_digest app]; by rewrite <- !app_assoc).
    eapply yields_bind; [apply yields_map_err|].
    { eapply yields_bind; [apply yields_cfixed|]. eapply yields_bind; [by apply skip_uint|].
      eapply yields_bind_last; [by apply skip_uint|apply yields_ret]. }
    unfold str_len in Hown. fold owner in Hown.
    eapply yields_bind; [apply yields_map_err, (yields_chead OWNER_TEXT_MAJOR (len owner)); unfold u64_ok, U64_MAX, OWNER_TEXT_MAJOR; lia|].
    eapply yields_bind; [apply yields_lift; unfold owner_text_length, MAX_OWNER_ID_BYTES;
      rewrite (proj2 (Z.leb_le 1 _)), (proj2 (Z.leb_le _ 128)) by lia; reflexivity|].
    eapply yields_bind; [by apply yields_map_err, yields_ctake|]. eapply yields_bind; [apply yields_map_err|].
    { eapply yields_bind; [|apply yields_port_hash]. eapply yields_bind; [by apply skip_uint|].
      eapply yields_bind_last; [by apply skip_uint|apply yields_ret]. }
    eapply yields_bind_last; [by apply yields_map_err, yields_tail|apply yields_ret]. }
  rewrite (yields_run _ _ _ Hy). cbn [rbind]. unfold is_finished. cbn [coffset cbytes]. by rewrite Z.eqb_refl.
Qed.

(** The widths of the fields in Rust. *)
Definition coordinate_typed (c : DependencyNodeCoordinateV1) : Prop :=
  u64_ok (co_tick c) /\ u32_ok (co_scheduler_position c) /\ u32_ok (co_output_ordinal c) /\ u32_ok (co_schema_id c)
  /\ str_len (co_owner_id c) <= U64_MAX.

Definition coordinate_reader : Parser CborReadError (Z * Z * list byte * Z * Z * Hash) :=
  let! _ := cfixed [NODE_ARRAY_HEAD] in
  let! tick := chead 0 in
  let! position := chead 0 in
  let! length := chead OWNER_TEXT_MAJOR in
  let! owner := ctake length in
  let! ordinal := chead 0 in
  let! schema := chead 0 in
  let! digest := port_read_hash in
  pret (tick, position, owner, ordinal, schema, digest).

Lemma yields_coordinate c :
  coordinate_typed c ->
  yields coordinate_reader (co_tick c, co_scheduler_position c, as_bytes (co_owner_id c), co_output_ordinal c,
    co_schema_id c, co_artifact_digest c) (coordinate_encoded c).
Proof.
  intros (Ht & Hs%u32_u64 & Ho%u32_u64 & Hi%u32_u64 & Hl). unfold coordinate_encoded, encode_bytes.
  rewrite <- (app_assoc (encode_head OWNER_TEXT_MAJOR _)).
  pose proof (len_nonneg (as_bytes (co_owner_id c))).
  eapply yields_bind; [apply yields_cfixed|]. do 2 (eapply yields_bind; [apply yields_chead; [lia|eassumption]|]).
  eapply yields_bind; [apply yields_chead; [unfold OWNER_TEXT_MAJOR; lia|unfold u64_ok, str_len in *; lia]|].
  eapply yields_bind; [by apply yields_ctake|]. do 2 (eapply yields_bind; [apply yields_chead; [lia|eassumption]|]).
  eapply yields_bind_last; [apply yields_port_hash|apply yields_ret].
Qed.

(** No encoded coordinate is a prefix of another. *)
Lemma coordinate_encoded_inj c c' r r' :
  coordinate_typed c -> coordinate_typed c' -> coordinate_encoded c ++ r = coordinate_encoded c' ++ r' -> c = c' /\ r = r'.
Proof.
  intros Hc Hc' He. destruct (yields_inj _ _ _ _ _ _ _ (yields_coordinate c Hc) (yields_coordinate c' Hc') He) as [Heq ->].
  split; [|done]. injection Heq as ??? ???. destruct c, c'. cbn in *. subst. f_equal. by apply (inj raw).
Qed.

Lemma core_coordinate_typed n : node_typed n -> is_valid_coordinate n = true -> coordinate_typed (core_coordinate n).
Proof. intros (? & ? & ? & ?) Hv%owner_u64. done. Qed.

Lemma edge_parity d bytes c s r :
  dependency_typed d -> dependency_to_canonical_cbor d = Ok bytes -> coordinate_typed c ->
  edge_try_from_canonical bytes c s = Ok r
  <-> c = core_coordinate (dep_consumer d) /\ s = nd_artifact_digest (dep_source d)
      /\ r = MkEdgeRecord bytes c s (Some (dep_authorization_digest d)) (separated_digest DEPENDENCY_DIGEST_DOMAIN_V1 bytes).
Proof.
  intros Hd Hb Hc. unfold dependency_to_canonical_cbor in Hb. apply rbind_ok_inv in Hb as ([] & Hv & Hw%wire_encode_ok).
  rewrite (writes_edge d Hd Hv) in Hw. injection Hw as <-. pose proof (valid_sizes d Hv) as Hz.
  pose proof (len_edge_encoding d Hz) as Hlen. destruct (valid_coordinate_sizes _ (sz_source _ Hz)) as (_ & _ & Hnz).
  assert (forall s, s <> hash_zero -> edge_try_from_canonical (edge_encoding d) c s
    = let? rest := ok_or (strip_prefix (coordinate_encoded c) (coordinate_encoded (core_coordinate (dep_consumer d))
          ++ coordinate_encoded (core_coordinate (dep_source d)) ++ edge_tail d)) DepRecordError.BindingMismatch in
      let? (extracted, authorization) := edge_fields rest in
      if bool_decide (extracted = s)
      then Ok (MkEdgeRecord (edge_encoding d) c s authorization (edge_digest (edge_encoding d)))
      else Err DepRecordError.BindingMismatch) as Hrun.
  { intros t Ht. unfold edge_try_from_canonical. rewrite (proj2 (Z.ltb_ge _ _)) by lia. rewrite bool_decide_false by done.
    reflexivity. }
  split.
  - destruct (decide (s = hash_zero)) as [->|Hs].
    { unfold edge_try_from_canonical. rewrite bool_decide_true, orb_true_r by done. done. }
    rewrite (Hrun s Hs). intros He. apply rbind_ok_inv in He as (rest & Hrest%ok_or_ok_inv%strip_prefix_Some & He).
    apply coordinate_encoded_inj in Hrest as [<- <-];
      [|destruct Hd as (Hcons & _); apply (core_coordinate_typed _ Hcons), Hz|done].
    rewrite (edge_fields_read d Hd Hz) in He. cbn [rbind] in He. case_bool_decide as Hx; [|done].
    injection He as <-. by rewrite Hx.
  - intros (-> & -> & ->). rewrite (Hrun _ Hnz), strip_prefix_app. cbn [ok_or rbind]. rewrite (edge_fields_read d Hd Hz).
    cbn [rbind]. by rewrite bool_decide_true.
Qed.
End Parity.

(** C33: the storage port carries the counterfactual records without their codec.  The
    bytes the conformance codec writes for a valid IDP1 edge are accepted for
    exactly one consumer and one source, those of the edge, and the record has
    the edge's authorization and digest; the bytes of a sealed RCF1 frontier and
    SIV1 invalidation are accepted with the record's own digest and header
    fields, with a new generation that is the prior one plus one. *)
Theorem record_parity `{Blake3} `{PreferredWriter} bytes :
  (forall d, dependency_typed d -> dependency_to_canonical_cbor d = Ok bytes ->
     exists digest, dependency_digest d = Ok digest
     /\ forall c s r, coordinate_typed c ->
          edge_try_from_canonical bytes c s = Ok r
          <-> c = core_coordinate (dep_consumer d) /\ s = nd_artifact_digest (dep_source d)
              /\ r = MkEdgeRecord bytes c s (Some (dep_authorization_digest d)) digest)
  /\ (forall f, frontier_to_canonical_cbor f = Ok bytes ->
        frontier_bytes_try_from_canonical bytes
        = Ok (MkFrontierBytes bytes (rf_frontier_digest f) (rf_plan_digest f) (rf_dependency_graph_digest f)))
  /\ (forall i, invalidation_typed i -> invalidation_to_canonical_cbor i = Ok bytes ->
        invalidation_bytes_try_from_canonical bytes
        = Ok (MkInvalidationBytes bytes (si_invalidation_digest i) (header_of i))).
Proof.
  split_and!; [|intros f; apply frontier_parity|intros i; apply invalidation_parity].
  intros d Hd Hb. exists (separated_digest DEPENDENCY_DIGEST_DOMAIN_V1 bytes). split.
  - unfold dependency_digest. by rewrite Hb.
  - intros c s r Hc. by apply edge_parity.
Qed.
