(* ===== verification/FrontierSources.v ===== *)
(** * The frontier sources

    [crates/pos-time/src/counterfactual/{frontier_source,prefix_seeded_source}.rs]:
    the two host sources of a recomputation frontier.  One pages the recorded graph
    of a plan, parent prefix and Fork generation, out of a read port; the other pages
    the prefix and appends the graph the host built for the generation. *)

From Stdlib Require Import String ZArith Lia Bool Sorted.
From S2P Require Import Prelude Text Ordering Cbor FallbackRecords StrictCbor PluginTrust WireSyntax TrustPolicy CfCodec.
From S2P Require Import ErasureGate CounterfactualInputs CounterfactualPlan FrontierArtifacts DependencyGraph.
From S2P Require Import DependencyGraphProperties RecomputationFrontier.
From S2P Require Import CounterfactualPort DependencyRecords.

Local Open Scope Z_scope.

(** ** The port *)

Class ReadPort (P : Type) := {
  read_dependency_nodes : P -> DependencyPageRequestV1 -> StoreResult (DependencyPageV1 DependencyNodeRecordV1);
  read_dependency_edges : P -> DependencyPageRequestV1 -> StoreResult (DependencyPageV1 DependencyEdgeRecordV1);
}.

(** ** Faults *)

(** The errors of an admission that a source returns; the others are raised by the
    coordinator around it. *)
Module AdmissionError.
Inductive CounterfactualAdmissionErrorV1 :=
| Store (error : StoreError.CounterfactualStoreErrorV1)
| DependencyGraphIncomplete (coordinate : UnknownEdgeCoordinateV1)
| UnknownDependencyEdge (coordinate : UnknownEdgeCoordinateV1)
| DependencyGraphInvalid.
End AdmissionError.

Notation AdmissionResult := (result AdmissionError.CounterfactualAdmissionErrorV1).

Inductive RecordedGraphFaultV1 :=
| FaultStore (error : StoreError.CounterfactualStoreErrorV1)
| FaultGraph (error : GraphError.DependencyGraphErrorV1).

Definition admission_error (fault : RecordedGraphFaultV1) : AdmissionError.CounterfactualAdmissionErrorV1 :=
  match fault with
  | FaultStore error => AdmissionError.Store error
  | FaultGraph (GraphError.DependencyGraphIncomplete coordinate) => AdmissionError.DependencyGraphIncomplete coordinate
  | FaultGraph (GraphError.UnknownDependencyEdge coordinate) => AdmissionError.UnknownDependencyEdge coordinate
  | FaultGraph _ => AdmissionError.DependencyGraphInvalid
  end.

(** A read of the port may go on forever: [None] means that it has not returned yet. *)
Definition Paging (A : Type) : Type := option (result RecordedGraphFaultV1 A).
Definition pg_ret {A} (a : A) : Paging A := Some (Ok a).
Definition pg_bind {A B} (m : Paging A) (k : A -> Paging B) : Paging B :=
  match m with Some (Ok a) => k a | Some (Err e) => Some (Err e) | None => None end.
Notation "'page!' x ':=' e 'in' k" := (pg_bind e (fun x => k))
  (at level 10, x pattern, e at level 200, k at level 200,
   format "'[v' 'page!'  x  ':='  '[' e ']'  'in' '/' k ']'").

(** ** Rows *)

Definition graph_class (class : RecordedDependencyClassV1) : DependencyClassV1 :=
  match class with
  | RecExogenousFrozen => ExogenousFrozen | RecInterventionAssigned => InterventionAssigned
  | RecEndogenousRecomputed => EndogenousRecomputed | RecFixedPolicy => FixedPolicy
  | RecPresentationOnly => PresentationOnly
  end.
Definition graph_origin (origin : RecordedNodeOriginV1) : DependencyGraphNodeOriginV1 :=
  match origin with RecCommitted => Committed | RecProvisional => Provisional end.

Definition recorded_graph_node (record : DependencyNodeRecordV1) : DependencyGraphNodeV1 :=
  let coordinate := nr_coordinate record in
  MkGraphNode
    (MkNode (co_tick coordinate) (co_scheduler_position coordinate) (co_owner_id coordinate)
      (co_output_ordinal coordinate) (co_schema_id coordinate) (co_artifact_digest coordinate))
    (graph_class (nr_class record)) (graph_origin (nr_origin record)) (nr_input_digests record)
    (nr_provenance_digest record).

(** A row kind the sources page: how it is read, its Tick, and what it becomes. *)
Class RecordedRow (R G : Type) `{PagedRow R} := {
  read_row {P} `{ReadPort P} : P -> DependencyPageRequestV1 -> StoreResult (DependencyPageV1 R);
  row_tick : R -> Z;
  row_convert : R -> StoreResult G;
}.

#[export] Instance node_recorded : RecordedRow DependencyNodeRecordV1 DependencyGraphNodeV1 := {|
  read_row P _ port request := read_dependency_nodes port request;
  row_tick row := co_tick (nr_coordinate row);
  row_convert row := Ok (recorded_graph_node row);
|}.
#[export] Instance edge_recorded `{Ciborium} : RecordedRow DependencyEdgeRecordV1 InputDependencyV1 := {|
  read_row P _ port request := read_dependency_edges port request;
  row_tick row := co_tick (er_consumer row);
  row_convert row := or_err READ_BACK_FAULT (dependency_from_canonical_cbor (er_bytes row));
|}.

(** ** Paging *)

Record ScopeReadV1 := MkScopeRead { sr_scope : DependencyReadScopeV1; sr_through_tick : Z }.

Definition row_caps (bounds : DependencyGraphBoundsV1) : Z * Z :=
  (Z.min (max_nodes bounds) MAX_DEPENDENCY_GRAPH_NODES_V1, Z.min (max_edges bounds) MAX_DEPENDENCY_GRAPH_EDGES_V1).

Section Paging.
Context {P : Type} `{ReadPort P}.

(** The loop of [collect_rows], at most [fuel] pages. *)
Fixpoint collect_loop {R G} `{RecordedRow R G} (fuel : nat) (port : P) (page_limit : Z) (read : ScopeReadV1)
    (max_rows : Z) (after : option DependencyPageCursorV1) (out : list G) : Paging (list G) :=
  match fuel with
  | O => None
  | S fuel' =>
      page! request := Some (or_err (FaultStore READ_BACK_FAULT) (page_request_try_new (sr_scope read) after page_limit)) in
      page! page := Some (map_err FaultStore (read_row port request)) in
      let rows := pg_items page in
      let within := partition_point (fun row => row_tick row <=? sr_through_tick read) rows in
      if max_rows <? len out + Z.of_nat within then Some (Err (FaultGraph GraphError.ResourceLimitExceeded)) else
      page! converted := Some (map_err FaultStore (try_collect row_convert (take within rows))) in
      match pg_next page with
      | Some cursor =>
          if (within =? length rows)%nat
          then collect_loop fuel' port page_limit read max_rows (Some cursor) (out ++ converted)
          else pg_ret (out ++ converted)
      | None => pg_ret (out ++ converted)
      end
  end.

Definition collect_rows {R G} `{RecordedRow R G} (fuel : nat) (port : P) (page_limit : Z) (read : ScopeReadV1)
    (max_rows : Z) (out : list G) : Paging (list G) :=
  collect_loop fuel port page_limit read max_rows None out.

Definition read_scope `{Ciborium} (fuel : nat) (port : P) (page_limit : Z) (read : ScopeReadV1) (caps : Z * Z)
    (graph : list DependencyGraphNodeV1 * list InputDependencyV1)
    : Paging (list DependencyGraphNodeV1 * list InputDependencyV1) :=
  page! nodes := collect_rows (R := DependencyNodeRecordV1) fuel port page_limit read caps.1 graph.1 in
  page! edges := collect_rows (R := DependencyEdgeRecordV1) fuel port page_limit read caps.2 graph.2 in
  pg_ret (nodes, edges).
End Paging.

(** ** Scopes *)

Definition prefix_read (plan : CounterfactualPlanV1) : ScopeReadV1 :=
  MkScopeRead (ParentPrefix (pl_parent_timeline_id plan) (pl_parent_cut_tick plan)) U64_MAX.
Definition scope_reads (plan : CounterfactualPlanV1) (generation : ForkGenerationV1) : list ScopeReadV1 :=
  [prefix_read plan; MkScopeRead (ForkGeneration generation) (pl_horizon_tick plan)].

(** ** Derivation *)

Record CounterfactualProvisionalOutputV1 := MkProvisionalOutput { po_node : DependencyNodeV1; po_class : DependencyClassV1 }.
Record CounterfactualFrontierDerivationV1 := MkDerivation {
  fd_frontier : RecomputationFrontierV1;
  fd_provisional_outputs : list CounterfactualProvisionalOutputV1;
}.

Definition provisional_outputs (g : ValidatedDependencyGraphV1) : list CounterfactualProvisionalOutputV1 :=
  (fun n => MkProvisionalOutput (gn_node n) (gn_class n)) <$> filter (fun n => gn_origin n = Provisional) (vg_nodes g).

Section Derivation.
Context `{Ciborium} `{Blake3}.

(** [None] is a derivation the graph cannot support; the outer option is the fuel of
    the traversal, of which [frontier_exact] shows that there is enough. *)
Definition derive_validated (plan : CounterfactualPlanV1) (g : ValidatedDependencyGraphV1) (frontier_id : Ulid)
    (provenance_digest : Hash) : option (option CounterfactualFrontierDerivationV1) :=
  derived ← derive_recomputation_frontier_v1 plan g frontier_id provenance_digest;
  Some (match derived with
        | Ok frontier => Some (MkDerivation frontier (provisional_outputs g))
        | Err _ => None
        end).

Definition derive_from (plan : CounterfactualPlanV1) (graph : Paging ValidatedDependencyGraphV1) (frontier_id : Ulid)
    (provenance_digest : Hash) : option (AdmissionResult CounterfactualFrontierDerivationV1) :=
  read ← graph;
  match map_err admission_error read with
  | Err e => Some (Err e)
  | Ok g =>
      derived ← derive_validated plan g frontier_id provenance_digest;
      Some (ok_or derived AdmissionError.DependencyGraphInvalid)
  end.
End Derivation.

(** ** The recorded source *)

(** [page_limit.clamp(1, MAX_DEPENDENCY_PAGE_ROWS_V1)]. *)
Definition clamp_limit (page_limit : Z) : Z := Z.min (Z.max page_limit 1) MAX_DEPENDENCY_PAGE_ROWS_V1.

Record RecordedFrontierSourceV1 (P : Type) := MkRecordedSource {
  rs_port : P;
  rs_generation : ForkGenerationV1;
  rs_bounds : DependencyGraphBoundsV1;
  rs_page_limit : Z;
}.
Arguments MkRecordedSource {P} _ _ _ _.
Arguments rs_port {P} _.
Arguments rs_generation {P} _.
Arguments rs_bounds {P} _.
Arguments rs_page_limit {P} _.

Definition recorded_new {P} (port : P) (generation : ForkGenerationV1) (bounds : DependencyGraphBoundsV1)
    : RecordedFrontierSourceV1 P := MkRecordedSource port generation bounds MAX_DEPENDENCY_PAGE_ROWS_V1.
Definition recorded_with_page_limit {P} (s : RecordedFrontierSourceV1 P) (page_limit : Z) : RecordedFrontierSourceV1 P :=
  MkRecordedSource (rs_port s) (rs_generation s) (rs_bounds s) (clamp_limit page_limit).

(** ** The prefix-seeded source *)

Record PrefixSeededFrontierSourceV1 (P : Type) := MkSeededSource {
  ps_port : P;
  ps_nodes : list DependencyGraphNodeV1;
  ps_edges : list InputDependencyV1;
  ps_bounds : DependencyGraphBoundsV1;
  ps_page_limit : Z;
}.
Arguments MkSeededSource {P} _ _ _ _ _.
Arguments ps_port {P} _.
Arguments ps_nodes {P} _.
Arguments ps_edges {P} _.
Arguments ps_bounds {P} _.
Arguments ps_page_limit {P} _.

Definition seeded_new {P} (port : P) (nodes : list DependencyGraphNodeV1) (edges : list InputDependencyV1)
    (bounds : DependencyGraphBoundsV1) : PrefixSeededFrontierSourceV1 P :=
  MkSeededSource port nodes edges bounds MAX_DEPENDENCY_PAGE_ROWS_V1.
Definition seeded_with_page_limit {P} (s : PrefixSeededFrontierSourceV1 P) (page_limit : Z)
    : PrefixSeededFrontierSourceV1 P :=
  MkSeededSource (ps_port s) (ps_nodes s) (ps_edges s) (ps_bounds s) (clamp_limit page_limit).

Section Sources.
Context {P : Type} `{ReadPort P} `{Ciborium} `{Blake3}.

(** [for read in scope_reads(..) { read_scope(..)?; }]. *)
Fixpoint read_scopes (fuel : nat) (port : P) (page_limit : Z) (caps : Z * Z) (reads : list ScopeReadV1)
    (graph : list DependencyGraphNodeV1 * list InputDependencyV1)
    : Paging (list DependencyGraphNodeV1 * list InputDependencyV1) :=
  match reads with
  | [] => pg_ret graph
  | read :: rest =>
      page! graph := read_scope fuel port page_limit read caps graph in
      read_scopes fuel port page_limit caps rest graph
  end.

Definition validated (plan : CounterfactualPlanV1) (bounds : DependencyGraphBoundsV1)
    (graph : list DependencyGraphNodeV1 * list InputDependencyV1) : Paging ValidatedDependencyGraphV1 :=
  Some (map_err FaultGraph (validate_dependency_graph_v1 plan bounds graph.1 graph.2)).

Definition recorded_read_graph (fuel : nat) (s : RecordedFrontierSourceV1 P) (plan : CounterfactualPlanV1)
    : Paging ValidatedDependencyGraphV1 :=
  page! graph := read_scopes fuel (rs_port s) (rs_page_limit s) (row_caps (rs_bounds s))
                   (scope_reads plan (rs_generation s)) ([], []) in
  validated plan (rs_bounds s) graph.

Definition seeded_read_graph (fuel : nat) (s : PrefixSeededFrontierSourceV1 P) (plan : CounterfactualPlanV1)
    : Paging ValidatedDependencyGraphV1 :=
  page! graph := read_scope fuel (ps_port s) (ps_page_limit s) (prefix_read plan) (row_caps (ps_bounds s)) ([], []) in
  validated plan (ps_bounds s) (graph.1 ++ ps_nodes s, graph.2 ++ ps_edges s).

Definition recorded_graph (fuel : nat) (s : RecordedFrontierSourceV1 P) (plan : CounterfactualPlanV1)
    : option (AdmissionResult ValidatedDependencyGraphV1) := map_err admission_error <$> recorded_read_graph fuel s plan.
Definition seeded_graph (fuel : nat) (s : PrefixSeededFrontierSourceV1 P) (plan : CounterfactualPlanV1)
    : option (AdmissionResult ValidatedDependencyGraphV1) := map_err admission_error <$> seeded_read_graph fuel s plan.

Definition graph_digest (graph : option (AdmissionResult ValidatedDependencyGraphV1)) : option (AdmissionResult Hash) :=
  (fun r : AdmissionResult ValidatedDependencyGraphV1 => let? g := r in Ok (dependency_graph_digest_v1 g)) <$> graph.
Definition recorded_graph_digest (fuel : nat) (s : RecordedFrontierSourceV1 P) (plan : CounterfactualPlanV1)
    : option (AdmissionResult Hash) := graph_digest (recorded_graph fuel s plan).
Definition seeded_graph_digest (fuel : nat) (s : PrefixSeededFrontierSourceV1 P) (plan : CounterfactualPlanV1)
    : option (AdmissionResult Hash) := graph_digest (seeded_graph fuel s plan).

Definition recorded_derive_frontier (fuel : nat) (s : RecordedFrontierSourceV1 P) (plan : CounterfactualPlanV1)
    (frontier_id : Ulid) (provenance_digest : Hash) : option (AdmissionResult CounterfactualFrontierDerivationV1) :=
  derive_from plan (recorded_read_graph fuel s plan) frontier_id provenance_digest.
Definition seeded_derive_frontier (fuel : nat) (s : PrefixSeededFrontierSourceV1 P) (plan : CounterfactualPlanV1)
    (frontier_id : Ulid) (provenance_digest : Hash) : option (AdmissionResult CounterfactualFrontierDerivationV1) :=
  derive_from plan (seeded_read_graph fuel s plan) frontier_id provenance_digest.
End Sources.

(** ** Prefixes of a page *)

Lemma take_while_app {A} (p : A -> bool) l1 l2 :
  take_while p (l1 ++ l2) = if forallb p l1 then l1 ++ take_while p l2 else take_while p l1.
Proof.
  induction l1 as [|x l1 IH]; [done|]. cbn. destruct (p x); [|done]. cbn. rewrite IH. by destruct (forallb p l1).
Qed.

Lemma take_while_length {A} (p : A -> bool) l : (length (take_while p l) <= length l)%nat.
Proof. induction l as [|x l IH]; [done|]. cbn. destruct (p x); cbn; lia. Qed.

Lemma take_while_all {A} (p : A -> bool) l : (length (take_while p l) =? length l)%nat = forallb p l.
Proof.
  induction l as [|x l IH]; [reflexivity|]. cbn. destruct (p x); cbn; [exact IH|reflexivity].
Qed.

Lemma take_take_while {A} (p : A -> bool) l : take (length (take_while p l)) l = take_while p l.
Proof. induction l as [|x l IH]; [done|]. cbn. destruct (p x); [|done]. cbn. by rewrite IH. Qed.

Lemma take_while_whole {A} (p : A -> bool) l : forallb p l = true -> take_while p l = l.
Proof.
  induction l as [|x l IH]; [done|]. cbn. destruct (p x); cbn; [|done]. intros Hl. by rewrite (IH Hl).
Qed.

Lemma take_while_head {A} (p : A -> bool) l1 l2 : exists rest, take_while p (l1 ++ l2) = take_while p l1 ++ rest.
Proof.
  rewrite take_while_app. destruct (forallb p l1) eqn:Hp; [|exists []; by rewrite app_nil_r].
  exists (take_while p l2). by rewrite (take_while_whole p l1 Hp).
Qed.

(** Where what satisfies [p] comes first, the partition point is the end of it. *)
Lemma partition_take_while {A} (p : A -> bool) l :
  StronglySorted (fun x y => p y = true -> p x = true) l -> partition_point p l = length (take_while p l).
Proof.
  intros Hs. apply partition_point_spec. split; [apply take_while_length|].
  induction Hs as [|x l Hs IH Hx]; [done|]. intros [|i] y Hy; cbn in *.
  - injection Hy as ->. destruct (p y); cbn; [split; [lia|done]|split; [done|lia]].
  - destruct (p x) eqn:Hpx; cbn.
    + rewrite (IH i y Hy). lia.
    + split; [|lia]. intros Hpy. rewrite Forall_forall in Hx.
      assert (false = true) by (apply (Hx y); [by eapply list_elem_of_lookup_2|done]). done.
Qed.

Lemma try_collect_app {E A B} (f : A -> result E B) l1 l2 :
  try_collect f (l1 ++ l2)
  = let? y1 := try_collect f l1 in let? y2 := try_collect f l2 in Ok (y1 ++ y2).
Proof.
  induction l1 as [|x l1 IH]; cbn; [by destruct (try_collect f l2)|]. destruct (f x); cbn; [|done]. rewrite IH.
  destruct (try_collect f l1); cbn; [|done]. by destruct (try_collect f l2).
Qed.

(** ** What a port promises *)

(** The cursor of a row has its Tick first and is of the kind of the row, and lies in
    every scope the row belongs to. *)
Class RowLaws (R G : Type) `{RecordedRow R G} : Prop := {
  cursor_tick row : pc_tick (row_cursor row) = row_tick row;
  cursor_kind row : bool_decide (is_Some (pc_source_digest (row_cursor row))) = keyed_by_source;
  cursor_in_scope row scope : in_scope row scope = true -> beyond_scope scope (Some (row_cursor row)) = false;
}.

#[export] Instance node_row_laws : RowLaws DependencyNodeRecordV1 DependencyGraphNodeV1.
Proof.
  split; [done..|]. intros row scope. cbn. destruct (scope_through_tick scope) as [t|]; [|done].
  intros [_ Ht]%andb_true_iff. lia.
Qed.
#[export] Instance edge_row_laws `{Ciborium} : RowLaws DependencyEdgeRecordV1 InputDependencyV1.
Proof. split; [done..|]. intros row scope. cbn. destruct (scope_through_tick scope) as [t|]; [|done]. intros Ht. lia. Qed.

(** A port serves [rows] for a scope: they are in strictly ascending order, belong to
    the scope, and every page of a valid request is the page of them. *)
Record serves {P R G : Type} `{ReadPort P} `{RecordedRow R G} (port : P) (scope : DependencyReadScopeV1) (rows : list R)
    : Prop := {
  sv_sorted : StronglySorted (fun x y => ltb (row_cursor x) (row_cursor y) = true) rows;
  sv_scope : Forall (fun row => in_scope row scope = true) rows;
  sv_page request : rq_scope request = scope -> 1 <= rq_limit request <= MAX_DEPENDENCY_PAGE_ROWS_V1 ->
    read_row port request = map_err store_error_from (page_from_ordered request rows);
}.

Section Pages.
Context {P R G : Type} `{ReadPort P} `{RowLaws R G}.
Context (port : P) (scope : DependencyReadScopeV1) (rows : list R) (Hserves : serves port scope rows).

(** The cursor behind the first [k] rows. *)
Definition behind (k : nat) : option DependencyPageCursorV1 :=
  match k with O => None | S k' => row_cursor <$> rows !! k' end.

Lemma start_behind k :
  (k <= length rows)%nat ->
  match behind k with Some after => partition_point (fun row => leb (row_cursor row) after) rows | None => 0%nat end = k.
Proof.
  intros Hk. destruct k as [|k]; [done|]. cbn. destruct (lookup_lt_is_Some_2 rows k Hk) as [x Hx]. rewrite Hx. cbn.
  apply partition_point_spec. split; [done|]. intros i y Hy. destruct (decide (i = k)) as [->|Hi].
  { rewrite Hx in Hy. injection Hy as ->. rewrite leb_refl. split; [lia|done]. }
  rewrite leb_ltb. destruct (decide (i < k)%nat) as [Hlt|Hge].
  - rewrite ltb_asym; [split; [lia|done]|]. exact (sorted_lookup _ _ _ _ _ _ (sv_sorted _ _ _ Hserves) Hy Hx Hlt).
  - rewrite (sorted_lookup _ _ _ _ _ _ (sv_sorted _ _ _ Hserves) Hx Hy) by lia. split; [done|lia].
Qed.

Lemma page_behind k limit :
  (k <= length rows)%nat -> 1 <= limit ->
  page_from_ordered (MkPageRequest scope (behind k) limit) rows
  = Ok (MkPage (take (Z.to_nat limit) (drop k rows))
          (if limit <? len (drop k rows) then behind (k + Z.to_nat limit) else None)).
Proof.
  intros Hk Hl. unfold page_from_ordered, check_cursor_kind. cbn [rq_after rq_limit].
  assert (match behind k with None => true
    | Some cursor => Bool.eqb (bool_decide (is_Some (pc_source_digest cursor))) keyed_by_source end = true) as ->.
  { destruct k as [|k]; [done|]. cbn. destruct (rows !! k) as [x|]; [|done]. cbn. rewrite cursor_kind. apply eqb_reflx. }
  cbn [rbind]. rewrite start_behind by done. do 2 f_equal.
  destruct (Z.ltb_spec limit (len (drop k rows))) as [Hlt|Hge].
  - unfold len in Hlt. rewrite length_drop in Hlt.
    rewrite last_lookup, length_take, length_drop, Nat.min_l by lia.
    rewrite lookup_take_lt, lookup_drop by lia. replace (k + Z.to_nat limit)%nat with (S (k + pred (Z.to_nat limit)))%nat by lia.
    cbn. by destruct (rows !! _).
  - by destruct (last _).
Qed.

Lemma request_behind k limit :
  (k <= length rows)%nat -> 1 <= limit <= MAX_DEPENDENCY_PAGE_ROWS_V1 ->
  page_request_try_new scope (behind k) limit = Ok (MkPageRequest scope (behind k) limit).
Proof.
  intros Hk Hl. unfold page_request_try_new. rewrite (proj2 (Z.leb_le 1 limit)), (proj2 (Z.leb_le limit _)) by lia. cbn [andb negb].
  assert (beyond_scope scope (behind k) = false) as ->; [|done]. destruct k as [|k]; [done|]. cbn [behind].
  destruct (lookup_lt_is_Some_2 rows k Hk) as [x Hx]. rewrite Hx. apply cursor_in_scope.
  exact (Forall_lookup_1 _ _ _ _ (sv_scope _ _ _ Hserves) Hx).
Qed.

(** The rows within a Tick bound come first on every page. *)
Lemma within_prefix through l :
  l `sublist_of` rows ->
  partition_point (fun row => row_tick row <=? through) l = length (take_while (fun row => row_tick row <=? through) l).
Proof.
  intros Hl. apply partition_take_while. eapply sorted_weaken; [|eapply sorted_sublist; [exact Hl|apply (sv_sorted _ _ _ Hserves)]].
  cbv beta. intros x y _ _ Hlt Hy. apply Z.leb_le in Hy. apply Z.leb_le. rewrite <- !cursor_tick in *.
  unfold ltb, cmp, page_cursor_ord, ord_by, page_cursor_tuple, cmp, prod_ord in Hlt. cbn [fst snd] in Hlt.
  unfold cmp at 1, Z_ord in Hlt. destruct (Z.compare_spec (pc_tick (row_cursor x)) (pc_tick (row_cursor y))); [lia..|done].
Qed.

(** What [collect_rows] returns for the rows [kept] of a scope, behind [out]. *)
Definition collected (max_rows : Z) (out : list G) (kept : list R) (r : result RecordedGraphFaultV1 (list G)) : Prop :=
  match try_collect row_convert kept with
  | Ok converted =>
      r = if max_rows <? len out + len kept then Err (FaultGraph GraphError.ResourceLimitExceeded)
          else Ok (out ++ converted)
  | Err e =>
      r = Err (FaultStore e)
      \/ (max_rows < len out + len kept /\ r = Err (FaultGraph GraphError.ResourceLimitExceeded))
  end.

Lemma len_convert l (converted : list G) : try_collect row_convert l = Ok converted -> len converted = len l.
Proof.
  revert converted. induction l as [|x l IH]; intros converted; cbn; [by intros [= <-]|].
  destruct (row_convert x); cbn; [|done]. destruct (try_collect row_convert l) as [ys|]; cbn; [|done].
  intros [= <-]. rewrite !len_cons. by rewrite (IH ys).
Qed.

(** The pages before have been kept whole, and the rest is collected. *)
Lemma collected_app max_rows out (kept rest : list R) converted r :
  try_collect row_convert kept = Ok converted -> collected max_rows (out ++ converted) rest r ->
  collected max_rows out (kept ++ rest) r.
Proof.
  unfold collected. intros Hk. pose proof (len_convert _ _ Hk) as Hl. rewrite try_collect_app, Hk. cbn [rbind].
  rewrite !len_app, Hl, <- Z.add_assoc. destruct (try_collect row_convert rest) as [ys|e]; cbn [rbind]; [|done].
  by rewrite <- app_assoc.
Qed.

Lemma collect_loop_exact fuel read max_rows limit k out :
  sr_scope read = scope -> 1 <= limit <= MAX_DEPENDENCY_PAGE_ROWS_V1 ->
  (k <= length rows)%nat -> (length rows - k < fuel)%nat ->
  exists r, collect_loop fuel port limit read max_rows (behind k) out = Some r
    /\ collected max_rows out (take_while (fun row => row_tick row <=? sr_through_tick read) (drop k rows)) r.
Proof.
  intros Hscope Hlimit. revert k out. induction fuel as [|fuel IH]; intros k out Hk Hf; [lia|].
  cbn [collect_loop]. rewrite Hscope, request_behind by done. cbn [or_err map_err pg_bind].
  rewrite (sv_page _ _ _ Hserves), page_behind by (done || cbn; lia). cbn [map_err pg_bind pg_items pg_next].
  set (p := fun row => row_tick row <=? sr_through_tick read). set (page := take (Z.to_nat limit) (drop k rows)).
  assert (page `sublist_of` rows) as Hsub.
  { etrans; [apply sublist_take|apply sublist_drop]. }
  assert (partition_point p page = length (take_while p page)) as -> by exact (within_prefix _ page Hsub).
  assert (drop k rows = page ++ drop (k + Z.to_nat limit) rows) as Hsplit.
  { unfold page. by rewrite <- drop_drop, take_drop. }
  change (Z.of_nat (length (take_while p page))) with (len (take_while p page)).
  destruct (take_while_head p page (drop (k + Z.to_nat limit) rows)) as [rest Hrest]. rewrite <- Hsplit in Hrest.
  destruct (Z.ltb_spec max_rows (len out + len (take_while p page))) as [Hover|Hroom].
  { eexists. split; [done|]. unfold collected. rewrite Hrest, len_app. pose proof (len_nonneg rest).
    destruct (try_collect _ _); [|right; split; [lia|done]]. by rewrite (proj2 (Z.ltb_lt _ _)) by lia. }
  rewrite take_take_while. destruct (try_collect row_convert (take_while p page)) as [converted|e] eqn:Hconv; cbn [map_err pg_bind].
  2: { eexists. split; [done|]. unfold collected. rewrite Hrest, try_collect_app, Hconv. by left. }
  rewrite take_while_all.
  assert (forall r, (limit <? len (drop k rows)) = false \/ forallb p page = false -> r = Ok (out ++ converted) ->
    collected max_rows out (take_while p (drop k rows)) r) as Hlast.
  { intros r Hend ->. assert (take_while p (drop k rows) = take_while p page) as ->.
    { destruct Hend as [Hend|Hend]; [|by rewrite Hsplit, take_while_app, Hend].
      apply Z.ltb_ge in Hend. unfold len in Hend. unfold page. rewrite (take_ge (drop k rows)) by lia. done. }
    unfold collected. rewrite Hconv. by rewrite (proj2 (Z.ltb_ge _ _)) by lia. }
  destruct (limit <? len (drop k rows)) eqn:Hmore.
  2: { eexists. split; [done|]. by apply Hlast; [left|]. }
  apply Z.ltb_lt in Hmore. unfold len in Hmore. rewrite length_drop in Hmore.
  assert (is_Some (behind (k + Z.to_nat limit))) as [cursor Hcursor].
  { replace (k + Z.to_nat limit)%nat with (S (k + pred (Z.to_nat limit)))%nat by lia. cbn. apply fmap_is_Some, lookup_lt_is_Some_2. lia. }
  destruct (forallb p page) eqn:Hall.
  2: { rewrite Hcursor. eexists. split; [done|]. by apply Hlast; [right|]. }
  destruct (IH (k + Z.to_nat limit)%nat (out ++ converted)) as (r & Hr & Hc); [lia..|].
  rewrite Hcursor in Hr |- *. exists r. split; [done|]. rewrite Hsplit, take_while_app, Hall.
  rewrite <- (take_while_whole p page Hall) at 1. by eapply collected_app.
Qed.
End Pages.

(** ** The sources *)

Section Sources.
Context {P : Type} `{ReadPort P} `{Ciborium} `{Blake3}.

(** The rows of a scope that a source keeps. *)
Definition visible {R G} `{RecordedRow R G} (read : ScopeReadV1) (rows : list R) : list R :=
  take_while (fun row => row_tick row <=? sr_through_tick read) rows.

(** One scope: the rows the port serves for it, and the edges its rows decode to. *)
Record scope_rows (port : P) (read : ScopeReadV1) (nodes : list DependencyNodeRecordV1)
    (edges : list DependencyEdgeRecordV1) (decoded : list InputDependencyV1) : Prop := {
  sc_node_rows : serves port (sr_scope read) nodes;
  sc_edge_rows : serves port (sr_scope read) edges;
  sc_decoded : try_collect row_convert (visible read edges) = Ok decoded;
}.

Definition scope_nodes (read : ScopeReadV1) (nodes : list DependencyNodeRecordV1) : list DependencyGraphNodeV1 :=
  recorded_graph_node <$> visible read nodes.

Lemma convert_nodes (nodes : list DependencyNodeRecordV1) :
  try_collect (row_convert (G := DependencyGraphNodeV1)) nodes = Ok (recorded_graph_node <$> nodes).
Proof. induction nodes as [|n nodes IH]; [done|]. cbn in *. by rewrite IH. Qed.

Lemma collect_rows_exact {R G} `{RowLaws R G} fuel port read max_rows limit (rows : list R) out converted :
  serves port (sr_scope read) rows -> 1 <= limit <= MAX_DEPENDENCY_PAGE_ROWS_V1 -> (length rows < fuel)%nat ->
  try_collect row_convert (visible read rows) = Ok converted ->
  collect_rows fuel port limit read max_rows out
  = Some (if max_rows <? len out + len converted then Err (FaultGraph GraphError.ResourceLimitExceeded)
          else Ok (out ++ converted)).
Proof.
  intros Hs Hl Hf Hc. destruct (collect_loop_exact port _ rows Hs fuel read max_rows limit 0 out) as (r & Hr & Hx); [done..|lia|lia|].
  unfold collect_rows. cbn [behind] in Hr. rewrite Hr. rewrite drop_0 in Hx. fold (visible read rows) in Hx. unfold collected in Hx. rewrite Hc in Hx.
  rewrite Hx. by rewrite (len_convert _ _ Hc).
Qed.

Lemma read_scope_exact fuel port read caps limit nodes edges decoded graph :
  scope_rows port read nodes edges decoded -> 1 <= limit <= MAX_DEPENDENCY_PAGE_ROWS_V1 ->
  (length nodes < fuel)%nat -> (length edges < fuel)%nat ->
  read_scope fuel port limit read caps graph
  = Some (if (caps.1 <? len (graph.1 ++ scope_nodes read nodes)) || (caps.2 <? len (graph.2 ++ decoded))
          then Err (FaultGraph GraphError.ResourceLimitExceeded)
          else Ok (graph.1 ++ scope_nodes read nodes, graph.2 ++ decoded)).
Proof.
  intros [Hn He Hd] Hl Hfn Hfe. unfold read_scope.
  rewrite (collect_rows_exact fuel port read caps.1 limit nodes graph.1 (scope_nodes read nodes)) by (done || apply convert_nodes).
  rewrite (collect_rows_exact fuel port read caps.2 limit edges graph.2 decoded) by done. rewrite !len_app.
  destruct (caps.1 <? _); [done|]. cbn [pg_bind orb]. by destruct (caps.2 <? _).
Qed.

Definition fork_read (plan : CounterfactualPlanV1) (generation : ForkGenerationV1) : ScopeReadV1 :=
  MkScopeRead (ForkGeneration generation) (pl_horizon_tick plan).

(** A validated graph, as the admission sees it. *)
Definition admitted_graph (plan : CounterfactualPlanV1) (bounds : DependencyGraphBoundsV1)
    (nodes : list DependencyGraphNodeV1) (edges : list InputDependencyV1) : AdmissionResult ValidatedDependencyGraphV1 :=
  map_err (fun error => admission_error (FaultGraph error)) (validate_dependency_graph_v1 plan bounds nodes edges).

(** What a reader refuses for its size, the validator refuses too. *)
Lemma over_caps_invalid plan bounds nodes edges :
  (row_caps bounds).1 < len nodes \/ (row_caps bounds).2 < len edges ->
  admitted_graph plan bounds nodes edges = Err AdmissionError.DependencyGraphInvalid.
Proof.
  intros Ho. unfold admitted_graph, validate_dependency_graph_v1, check_work_bounds. cbn [row_caps fst snd] in Ho.
  destruct (Z.ltb_spec MAX_DEPENDENCY_GRAPH_NODES_V1 (max_nodes bounds)); [done|].
  destruct (Z.ltb_spec MAX_DEPENDENCY_GRAPH_EDGES_V1 (max_edges bounds)); [done|]. cbn [orb].
  destruct (Z.ltb_spec (max_nodes bounds) (len nodes)); [done|].
  destruct (Z.ltb_spec (max_edges bounds) (len edges)); [done|]. lia.
Qed.

Lemma clamp_limit_range limit : 1 <= clamp_limit limit <= MAX_DEPENDENCY_PAGE_ROWS_V1.
Proof. unfold clamp_limit, MAX_DEPENDENCY_PAGE_ROWS_V1. lia. Qed.

Context (port : P) (plan : CounterfactualPlanV1) (generation : ForkGenerationV1) (bounds : DependencyGraphBoundsV1).
Context (pn fn : list DependencyNodeRecordV1) (pe fe : list DependencyEdgeRecordV1) (pd fd : list InputDependencyV1).
Context (Hprefix : scope_rows port (prefix_read plan) pn pe pd).
Context (fuel : nat) (Hfuel : Forall (fun n => (n < fuel)%nat) [length pn; length pe; length fn; length fe]).

(** The graph of the plan: the rows of the prefix, then those of the generation. *)
Definition stitched_nodes : list DependencyGraphNodeV1 :=
  scope_nodes (prefix_read plan) pn ++ scope_nodes (fork_read plan generation) fn.

Lemma seeded_exact limit :
  seeded_graph fuel (seeded_with_page_limit (seeded_new port (scope_nodes (fork_read plan generation) fn) fd bounds) limit) plan
  = Some (admitted_graph plan bounds stitched_nodes (pd ++ fd)).
Proof.
  rewrite !Forall_cons in Hfuel. destruct Hfuel as (? & ? & _ & _). unfold seeded_graph, seeded_read_graph.
  cbn [seeded_with_page_limit seeded_new ps_port ps_nodes ps_edges ps_bounds ps_page_limit].
  rewrite (read_scope_exact _ _ _ _ _ _ _ _ _ Hprefix) by (done || apply clamp_limit_range). cbn [fst snd app].
  pose proof (len_nonneg (scope_nodes (fork_read plan generation) fn)). pose proof (len_nonneg fd).
  destruct (_ || _) eqn:Ho.
  - cbn. f_equal. symmetry. apply over_caps_invalid. unfold stitched_nodes. rewrite !len_app. bool_props. lia.
  - cbn. unfold admitted_graph, stitched_nodes. by destruct (validate_dependency_graph_v1 _ _ _ _).
Qed.

Context (Hfork : scope_rows port (fork_read plan generation) fn fe fd).

Lemma recorded_exact limit :
  recorded_graph fuel (recorded_with_page_limit (recorded_new port generation bounds) limit) plan
  = Some (admitted_graph plan bounds stitched_nodes (pd ++ fd)).
Proof.
  rewrite !Forall_cons in Hfuel. destruct Hfuel as (? & ? & ? & ? & _). unfold recorded_graph, recorded_read_graph.
  cbn [recorded_with_page_limit recorded_new rs_port rs_generation rs_bounds rs_page_limit read_scopes scope_reads].
  rewrite (read_scope_exact _ _ _ _ _ _ _ _ _ Hprefix) by (done || apply clamp_limit_range). cbn [fst snd app].
  pose proof (len_nonneg (scope_nodes (fork_read plan generation) fn)). pose proof (len_nonneg fd).
  destruct (_ || _) eqn:Ho.
  - cbn. f_equal. symmetry. apply over_caps_invalid. unfold stitched_nodes. rewrite !len_app. bool_props. lia.
  - cbn [pg_bind]. rewrite (read_scope_exact _ _ _ _ _ _ _ _ _ Hfork) by (done || apply clamp_limit_range). cbn [fst snd].
    fold stitched_nodes.
    match goal with |- context [if ?b then _ else _] => destruct b eqn:Ho2 end.
    + cbn. f_equal. symmetry. apply over_caps_invalid. apply orb_true_iff in Ho2 as [Ho2|Ho2]; apply Z.ltb_lt in Ho2; cbn in *; tauto.
    + cbn. unfold admitted_graph. by destruct (validate_dependency_graph_v1 _ _ _ _).
Qed.
End Sources.

(** ** Derivation *)

Section Derive.
Context {P : Type} `{ReadPort P} `{Ciborium} `{Blake3}.

(** The derivation reads no more of the graph than the admission sees. *)
Lemma derive_from_admission plan graph id provenance :
  derive_from plan graph id provenance
  = r ← map_err admission_error <$> graph;
    match r with
    | Err e => Some (Err e)
    | Ok g => derived ← derive_validated plan g id provenance; Some (ok_or derived AdmissionError.DependencyGraphInvalid)
    end.
Proof. unfold derive_from. by destruct graph as [[g|e]|]. Qed.

Lemma derive_total plan bounds nodes edges g id provenance :
  validate_dependency_graph_v1 plan bounds nodes edges = Ok g -> is_Some (derive_validated plan g id provenance).
Proof.
  intros (_ & b & Hg)%validate_graph_inv. unfold derive_validated, derive_recomputation_frontier_v1.
  destruct (check_inputs _ _ _); [|by eexists]. destruct (unsealed_total Hg id provenance) as (_ & _ & _ & _ & f & Hf).
  rewrite Hf. by eexists.
Qed.

(** C30: the two sources agree.  When a port serves the rows of the parent prefix and of
    the Fork generation, and its edges decode, the recorded source returns, for
    every page limit, what validation says of the stitched graph: the prefix, then
    the generation up to the horizon.  The source seeded with the graph of that
    generation returns the same graph, digest and derivation, for every page limit
    of its own, and the derivation ends. *)
Theorem frontier_sources_agree (port : P) plan generation bounds pn pe pd fn fe fd fuel limit limit' id provenance :
  scope_rows port (prefix_read plan) pn pe pd -> scope_rows port (fork_read plan generation) fn fe fd ->
  Forall (fun n => (n < fuel)%nat) [length pn; length pe; length fn; length fe] ->
  let recorded := recorded_with_page_limit (recorded_new port generation bounds) limit in
  let seeded := seeded_with_page_limit (seeded_new port (scope_nodes (fork_read plan generation) fn) fd bounds) limit' in
  recorded_graph fuel recorded plan = Some (admitted_graph plan bounds (stitched_nodes plan generation pn fn) (pd ++ fd))
  /\ seeded_graph fuel seeded plan = recorded_graph fuel recorded plan
  /\ seeded_graph_digest fuel seeded plan = recorded_graph_digest fuel recorded plan
  /\ seeded_derive_frontier fuel seeded plan id provenance = recorded_derive_frontier fuel recorded plan id provenance
  /\ is_Some (recorded_derive_frontier fuel recorded plan id provenance).
Proof.
  intros Hp Hf Hfuel recorded seeded.
  pose proof (recorded_exact port plan generation bounds pn fn pe fe pd fd Hp fuel Hfuel Hf limit) as Hr.
  pose proof (seeded_exact port plan generation bounds pn fn pe fe pd fd Hp fuel Hfuel limit') as Hs.
  fold recorded in Hr. fold seeded in Hs. unfold seeded_graph_digest, recorded_graph_digest.
  unfold seeded_derive_frontier, recorded_derive_frontier. rewrite !derive_from_admission.
  fold (seeded_graph fuel seeded plan) (recorded_graph fuel recorded plan). rewrite Hr, Hs. split_and!; [done..|].
  cbn. unfold admitted_graph. destruct (validate_dependency_graph_v1 _ _ _ _) as [g|e] eqn:Hv; [|by eexists]. cbn.
  destruct (derive_total _ _ _ _ _ id provenance Hv) as [r ->]. by eexists.
Qed.
End Derive.
