(* ===== verification/CounterfactualSample.v ===== *)
(** * Concrete counterfactuals

    A plan with one Intervention, a closed graph of it, a graph with a gap, and the
    frontiers derived from them: what the theorems of the counterfactual component
    promise, and a graph that lacks the node of its plan's Intervention. *)

From Stdlib Require Import String ZArith Lia Bool Sorted.
From stdpp Require Import sorting.
From S2P Require Import Prelude Text Ordering Cbor FallbackRecords StrictCbor PluginTrust WireSyntax TrustPolicy TrustSample CfCodec.
From S2P Require Import Keys CounterfactualInputs CounterfactualPlan FrontierArtifacts FrontierArtifactsProperties.
From S2P Require Import DependencyGraph DependencyGraphProperties RecomputationFrontier CounterfactualPort DependencyRecords RecordParity FrontierSources.

Local Open Scope Z_scope.

Module CfSample.
Export TrustInstances.
#[export] Instance blake3_cf : Blake3 := sample_digest.

(** ** The writer satisfies its laws *)

Lemma write_items items :
  fold_right (fun v acc => w ← write_value v; r ← acc; Some (w ++ r)) (Some []) items
  = @concat byte <$> mapM write_value items.
Proof.
  induction items as [|v items IH]; [done|]. cbn. rewrite IH. destruct (write_value v); [|done]. cbn.
  destruct (mapM write_value items); done.
Qed.

Lemma write_array items :
  write_value (VArray items)
  = (fun parts => encode_head 4 (len items) ++ concat parts) <$> mapM write_value items.
Proof.
  change (write_value (VArray items)) with ((fun body => encode_head 4 (len items) ++ body)
    <$> fold_right (fun v acc => w ← write_value v; r ← acc; Some (w ++ r)) (Some []) items).
  rewrite write_items. by destruct (mapM write_value items).
Qed.

#[export] Instance sample_preferred : PreferredWriter.
Proof.
  split; [done|done|done|]. intros items bytes _. change (into_writer (VArray items)) with (write_value (VArray items)).
  rewrite write_array, fmap_Some. setoid_rewrite mapM_Some.
  split; intros (parts & Hx & Hy); exists parts; done.
Qed.

(** Decide an equation of samples by evaluating its decision. *)
Ltac evaluate := apply (bool_decide_eq_true_1 _); vm_compute; reflexivity.

(** ** A plan *)

Definition cf_digest (b : byte) : Hash := @Checked _ (has_len 32) (replicate 32 b) I.
Definition cf_ulid (b : byte) : Ulid := @Checked _ (has_len 16) (replicate 16 b) I.
Definition ok_or_else {E A} (d : A) (r : result E A) : A := match r with Ok a => a | Err _ => d end.

Lemma ok_or_else_ok {E A} (d : A) (r : result E A) : is_ok r = true -> r = Ok (ok_or_else d r).
Proof. by destruct r. Defined.

(** The parent is cut behind tick 10; the Intervention acts at tick 11. *)
Definition change : InterventionV1 :=
  MkIntervention (cf_ulid x01) 7 (lit "entity") (lit "field") AssignValue (cf_digest x02) 11 0 (lit "principal")
    (lit "capability") 1 (cf_digest x03) (lit "why") (cf_digest x04).
Definition change_digest : Hash := ok_or_else hash_zero (intervention_digest change).

Definition unsealed_plan (policy : UnknownEdgePolicyV1) (digest : Hash) : CounterfactualPlanV1 :=
  MkPlan (cf_ulid x10) (lit "room") (cf_digest x11) (cf_ulid x12) 40 10 (cf_digest x13) 11 20 [change]
    [MkDescriptor 3 (cf_digest x20) (cf_digest x21) (cf_digest x22)] [] (cf_digest x14) policy
    (MkProfileRef (lit "profile") (lit "1.0.0") (cf_digest x15)) (MkPolicyRef (lit "policy") 1 (cf_digest x16))
    (cf_digest x17) (cf_digest x18) (cf_digest x19) (cf_digest x1a) (cf_digest x1b) Exact None digest.
Definition sample_plan (policy : UnknownEdgePolicyV1) : CounterfactualPlanV1 :=
  unsealed_plan policy (ok_or_else hash_zero (plan_digest (unsealed_plan policy hash_zero))).

Example sample_plan_valid : plan_validate (sample_plan Reject) = Ok tt.
Proof. vm_compute. reflexivity. Qed.

(** ** Graphs

    A frozen input of tick 4 and the Intervention feed a recomputed output of tick
    12, which a view of tick 13 shows. *)

Definition frozen_node : DependencyGraphNodeV1 :=
  MkGraphNode (MkNode 4 0 (lit "world") 0 3 (cf_digest x20)) ExogenousFrozen Committed [] (cf_digest x22).
Definition change_node : DependencyGraphNodeV1 :=
  MkGraphNode (MkNode 11 0 (lit "plan") 0 7 change_digest) InterventionAssigned Provisional [] (cf_digest x04).
Definition output_node : DependencyGraphNodeV1 :=
  MkGraphNode (MkNode 12 1 (lit "plugin") 0 5 (cf_digest x30)) EndogenousRecomputed Provisional
    [change_digest; cf_digest x20] (cf_digest x31).
Definition view_node : DependencyGraphNodeV1 :=
  MkGraphNode (MkNode 13 0 (lit "view") 0 6 (cf_digest x40)) PresentationOnly Provisional [cf_digest x30] (cf_digest x41).
Definition sample_nodes : list DependencyGraphNodeV1 := [frozen_node; change_node; output_node; view_node].

Definition edge (source consumer : DependencyGraphNodeV1) (authorization : Hash) : InputDependencyV1 :=
  MkDependency (gn_node consumer) (gn_node source) (gn_class source)
    (MkTickRange (nd_tick (gn_node source)) (nd_tick (gn_node consumer))) authorization
    (MkRule (lit "rule") 1) (cf_digest x51).
Definition change_edge : InputDependencyV1 := edge change_node output_node (cf_digest x03).
Definition frozen_edge : InputDependencyV1 := edge frozen_node output_node (cf_digest x21).
Definition view_edge : InputDependencyV1 := edge output_node view_node (cf_digest x52).
Definition sample_edges : list InputDependencyV1 := [change_edge; frozen_edge; view_edge].
Definition sample_bounds : DependencyGraphBoundsV1 := MkGraphBounds 100 100.

Definition empty_graph : ValidatedDependencyGraphV1 :=
  MkGraph hash_zero hash_zero hash_zero 0 0 Reject [] [] [] [] ∅ [].
Definition closed_graph : ValidatedDependencyGraphV1 :=
  ok_or_else empty_graph (validate_dependency_graph_v1 (sample_plan Reject) sample_bounds sample_nodes sample_edges).

Lemma closed_graph_valid :
  validate_dependency_graph_v1 (sample_plan Reject) sample_bounds sample_nodes sample_edges = Ok closed_graph.
Proof. apply ok_or_else_ok. vm_compute. reflexivity. Defined.

(** Without the edge from the frozen input the graph has a gap. *)
Definition gap_edges : list InputDependencyV1 := [change_edge; view_edge].
Definition gap_graph : ValidatedDependencyGraphV1 :=
  ok_or_else empty_graph (validate_dependency_graph_v1 (sample_plan FullSuffixFromCut) sample_bounds sample_nodes gap_edges).

Lemma gap_graph_valid :
  validate_dependency_graph_v1 (sample_plan FullSuffixFromCut) sample_bounds sample_nodes gap_edges = Ok gap_graph.
Proof. apply ok_or_else_ok. vm_compute. reflexivity. Defined.

Example gap_recorded :
  vg_unknown_edge_coordinates gap_graph = [gap output_node (Some (cf_digest x20))]
  /\ match validate_dependency_graph_v1 (sample_plan Reject) sample_bounds sample_nodes gap_edges with
     | Err (GraphError.DependencyGraphIncomplete c) => bool_decide (c = gap output_node (Some (cf_digest x20)))
     | _ => false
     end = true.
Proof. split; [evaluate|vm_compute; reflexivity]. Qed.

Example affected_sample :
  affected_nodes closed_graph = Some [change_node; output_node]
  /\ affected_presentation_outputs_v1 closed_graph = Some [gn_node view_node].
Proof. split; evaluate. Qed.

(** ** The guarantees, on the sample *)

Definition frontier_ulid : Ulid := cf_ulid x70.
Definition frontier_provenance : Hash := cf_digest x71.

Lemma frontier_exact_witness :
  validate_dependency_graph_v1 (sample_plan Reject) sample_bounds sample_nodes sample_edges = Ok closed_graph
  /\ exists f, derive_recomputation_frontier_v1 (sample_plan Reject) closed_graph frontier_ulid frontier_provenance
       = Some (Ok f) /\ describes closed_graph f /\ frontier_validate f = Ok tt
       /\ rf_affected_nodes f = [gn_node change_node; gn_node output_node].
Proof.
  split; [exact closed_graph_valid|].
  destruct (frontier_exact _ _ _ _ _ frontier_ulid frontier_provenance closed_graph_valid) as (r & Hr & Hf).
  destruct r as [f|e].
  - exists f. destruct (Hf f eq_refl) as [Hd Hv]. split; [exact Hr|]. split; [exact Hd|]. split; [exact Hv|].
    assert (match derive_recomputation_frontier_v1 (sample_plan Reject) closed_graph frontier_ulid frontier_provenance with
            | Some (Ok f) => bool_decide (rf_affected_nodes f = [gn_node change_node; gn_node output_node])
            | _ => false end = true) as Hx by (vm_compute; reflexivity).
    rewrite Hr in Hx. exact (bool_decide_eq_true_1 _ Hx).
  - exfalso. assert (match derive_recomputation_frontier_v1 (sample_plan Reject) closed_graph frontier_ulid frontier_provenance with
            | Some (Ok _) => True | _ => False end) as Hx by (vm_compute; exact I).
    rewrite Hr in Hx. exact Hx.
Defined.

(** The seeds of the graph with a gap lie behind the cut. *)
Lemma frontier_derivable_witness :
  exists f, derive_recomputation_frontier_v1 (sample_plan FullSuffixFromCut) gap_graph frontier_ulid frontier_provenance
    = Some (map_err FrontierError.Frontier
        (let? (digest, _) := unsigned_encoding (frontier_fields f) FRONTIER_DIGEST_DOMAIN_V1
           MAX_RECOMPUTATION_FRONTIER_BYTES_V1 in
         Ok (with_frontier_digest digest f))).
Proof.
  destruct (frontier_derivable _ _ _ _ _ frontier_ulid frontier_provenance [change_node; output_node] gap_graph_valid)
    as (f & _ & Hf).
  - vm_compute. reflexivity.
  - vm_compute. reflexivity.
  - right. split.
    + assert (seeds gap_graph = [change_node]) as -> by evaluate. intros n ->%list_elem_of_singleton. reflexivity.
    + apply (proj1 (Forall_forall (fun n => 0 <= nd_scheduler_position (gn_node n)) sample_nodes)).
      repeat constructor; cbn; lia.
  - evaluate.
  - vm_compute. discriminate.
  - exists f. exact Hf.
Defined.

Lemma presentation_exact_witness :
  exists outputs, affected_presentation_outputs_v1 closed_graph = Some outputs
    /\ StronglySorted (fun x y => ltb x y = true) outputs /\ outputs = [gn_node view_node].
Proof.
  destruct (presentation_exact _ _ _ _ _ closed_graph_valid) as (outputs & Ho & Hs & _). exists outputs.
  split; [exact Ho|]. split; [exact Hs|]. rewrite (proj2 affected_sample) in Ho. by injection Ho as <-.
Defined.

(** The bytes of the derived frontier, decoded and encoded again. *)
Definition no_frontier : RecomputationFrontierV1 :=
  MkFrontier ulid_zero hash_zero hash_zero hash_zero [] [] [] 0 0 Reject [] 0 hash_zero hash_zero hash_zero.
Definition sample_frontier : RecomputationFrontierV1 :=
  ok_or_else no_frontier (default (Err FrontierError.PlanMismatch)
    (derive_recomputation_frontier_v1 (sample_plan Reject) closed_graph frontier_ulid frontier_provenance)).
Definition frontier_bytes : list byte := ok_or_else [] (frontier_to_canonical_cbor sample_frontier).
Definition decoded_frontier : RecomputationFrontierV1 :=
  ok_or_else no_frontier (frontier_from_canonical_cbor frontier_bytes).

Lemma frontier_decodes : frontier_from_canonical_cbor frontier_bytes = Ok decoded_frontier.
Proof. apply ok_or_else_ok. vm_compute. reflexivity. Defined.

Lemma counterfactual_canonical_witness :
  frontier_from_canonical_cbor frontier_bytes = Ok decoded_frontier
  /\ frontier_to_canonical_cbor decoded_frontier = Ok frontier_bytes
  /\ frontier_digest decoded_frontier = Ok (rf_frontier_digest decoded_frontier).
Proof.
  split; [exact frontier_decodes|].
  destruct (counterfactual_canonical frontier_bytes) as (_ & _ & _ & Hf & _). exact (Hf _ frontier_decodes).
Defined.

(** The bytes of an edge and of the frontier, as the storage port reads them. *)
Definition edge_sample_bytes : list byte := ok_or_else [] (dependency_to_canonical_cbor change_edge).

Lemma edge_encodes : dependency_to_canonical_cbor change_edge = Ok edge_sample_bytes.
Proof. apply ok_or_else_ok. vm_compute. reflexivity. Defined.
Lemma frontier_encodes : frontier_to_canonical_cbor sample_frontier = Ok frontier_bytes.
Proof. apply ok_or_else_ok. vm_compute. reflexivity. Defined.

Lemma record_parity_witness :
  (exists r, edge_try_from_canonical edge_sample_bytes (core_coordinate (gn_node output_node)) change_digest = Ok r
     /\ er_authorization r = Some (cf_digest x03) /\ dependency_digest change_edge = Ok (er_digest r))
  /\ is_ok (edge_try_from_canonical edge_sample_bytes (core_coordinate (gn_node view_node)) change_digest) = false
  /\ frontier_bytes_try_from_canonical frontier_bytes
     = Ok (MkFrontierBytes frontier_bytes (rf_frontier_digest sample_frontier) (rf_plan_digest sample_frontier)
             (rf_dependency_graph_digest sample_frontier)).
Proof.
  assert (dependency_typed change_edge) as Ht by (repeat split; vm_compute; discriminate).
  destruct (record_parity edge_sample_bytes) as (He & _ & _).
  destruct (He change_edge Ht edge_encodes) as (digest & Hd & Hx).
  assert (coordinate_typed (core_coordinate (gn_node output_node))) as H1 by (repeat split; vm_compute; discriminate).
  assert (coordinate_typed (core_coordinate (gn_node view_node))) as H2 by (repeat split; vm_compute; discriminate).
  split; [|split].
  - eexists. split; [apply (Hx _ change_digest _ H1); split; [reflexivity|split; reflexivity]|]. split; [reflexivity|exact Hd].
  - destruct (edge_try_from_canonical edge_sample_bytes (core_coordinate (gn_node view_node)) change_digest) eqn:Hv; [|reflexivity].
    apply (Hx _ _ _ H2) in Hv as [Hc _]. discriminate Hc.
  - destruct (record_parity frontier_bytes) as (_ & Hf & _). exact (Hf _ frontier_encodes).
Defined.

(** ** The sources *)

(** A port over four lists of rows: nodes and edges of the prefix and of the Fork. *)
Record Tables := MkTables {
  tb_prefix_nodes : list DependencyNodeRecordV1;
  tb_prefix_edges : list DependencyEdgeRecordV1;
  tb_fork_nodes : list DependencyNodeRecordV1;
  tb_fork_edges : list DependencyEdgeRecordV1;
}.
Definition served {R} (request : DependencyPageRequestV1) (prefix fork : list R) : list R :=
  match rq_scope request with ParentPrefix _ _ => prefix | ForkGeneration _ => fork end.
#[export] Instance tables_port : ReadPort Tables := {|
  read_dependency_nodes t request :=
    map_err store_error_from (page_from_ordered request (served request (tb_prefix_nodes t) (tb_fork_nodes t)));
  read_dependency_edges t request :=
    map_err store_error_from (page_from_ordered request (served request (tb_prefix_edges t) (tb_fork_edges t)));
|}.

Definition record_class (c : DependencyClassV1) : RecordedDependencyClassV1 :=
  match c with
  | ExogenousFrozen => RecExogenousFrozen | InterventionAssigned => RecInterventionAssigned
  | EndogenousRecomputed => RecEndogenousRecomputed | FixedPolicy => RecFixedPolicy
  | PresentationOnly => RecPresentationOnly
  end.
Definition record_node (n : DependencyGraphNodeV1) : DependencyNodeRecordV1 :=
  MkNodeRecord (core_coordinate (gn_node n)) (record_class (gn_class n))
    (match gn_origin n with Committed => RecCommitted | Provisional => RecProvisional end)
    (gn_input_digests n) (gn_provenance_digest n).
Definition no_edge : DependencyEdgeRecordV1 :=
  MkEdgeRecord [] (core_coordinate (gn_node change_node)) hash_zero None hash_zero.
Definition record_edge (e : InputDependencyV1) : DependencyEdgeRecordV1 :=
  ok_or_else no_edge (edge_try_from_canonical (ok_or_else [] (dependency_to_canonical_cbor e))
    (core_coordinate (dep_consumer e)) (nd_artifact_digest (dep_source e))).

Definition sample_tables : Tables :=
  MkTables [record_node frozen_node] [] (record_node <$> [change_node; output_node; view_node])
    (record_edge <$> sample_edges).
Definition sample_generation : ForkGenerationV1 := MkGeneration (cf_ulid x60) 1.

Lemma sample_prefix_rows :
  scope_rows sample_tables (prefix_read (sample_plan Reject)) (tb_prefix_nodes sample_tables) [] [].
Proof.
  split; [split|split|reflexivity].
  - repeat constructor.
  - repeat constructor.
  - intros [scope after limit] Hs _. cbn in Hs. subst scope. reflexivity.
  - constructor.
  - constructor.
  - intros [scope after limit] Hs _. cbn in Hs. subst scope. reflexivity.
Defined.

Lemma sample_fork_rows :
  scope_rows sample_tables (fork_read (sample_plan Reject) sample_generation) (tb_fork_nodes sample_tables)
    (tb_fork_edges sample_tables) sample_edges.
Proof.
  split; [split|split|].
  - apply (ascending_sorted (row_cursor (T := DependencyNodeRecordV1)) tt tt). vm_compute. reflexivity.
  - repeat constructor.
  - intros [scope after limit] Hs _. cbn in Hs. subst scope. reflexivity.
  - apply (ascending_sorted (row_cursor (T := DependencyEdgeRecordV1)) tt tt). vm_compute. reflexivity.
  - repeat constructor.
  - intros [scope after limit] Hs _. cbn in Hs. subst scope. reflexivity.
  - vm_compute. reflexivity.
Defined.

Lemma frontier_sources_agree_witness :
  recorded_graph 5 (recorded_with_page_limit (recorded_new sample_tables sample_generation sample_bounds) 1) (sample_plan Reject)
    = Some (Ok closed_graph)
  /\ seeded_graph 5 (seeded_with_page_limit (seeded_new sample_tables [change_node; output_node; view_node] sample_edges
       sample_bounds) 2) (sample_plan Reject) = Some (Ok closed_graph).
Proof.
  destruct (frontier_sources_agree sample_tables (sample_plan Reject) sample_generation sample_bounds _ _ _ _ _ _ 5 1 2
    frontier_ulid frontier_provenance sample_prefix_rows sample_fork_rows) as (Hr & Hs & _).
  - repeat constructor.
  - assert (admitted_graph (sample_plan Reject) sample_bounds sample_nodes sample_edges = Ok closed_graph) as Ha
      by (unfold admitted_graph; rewrite closed_graph_valid; reflexivity).
    split; [etransitivity; [exact Hr|]|etransitivity; [exact Hs|etransitivity; [exact Hr|]]]; f_equal; exact Ha.
Defined.

(** An edge whose class code is 9: the record contract accepts it, the codec does not. *)
Definition unknown_class_bytes : list byte :=
  let at_ := (7 + length (coordinate_encoded (core_coordinate (dep_consumer change_edge)))
              + length (coordinate_encoded (core_coordinate (dep_source change_edge))))%nat in
  take at_ edge_sample_bytes ++ [x09] ++ drop (S at_) edge_sample_bytes.
Definition corrupt_edge : DependencyEdgeRecordV1 :=
  ok_or_else no_edge (edge_try_from_canonical unknown_class_bytes (core_coordinate (dep_consumer change_edge)) change_digest).
Definition corrupt_tables : Tables :=
  MkTables [record_node frozen_node] [] (record_node <$> [change_node; output_node; view_node])
    [corrupt_edge; record_edge frozen_edge; record_edge view_edge].
Definition paged_graph (limit : Z) : option (AdmissionResult ValidatedDependencyGraphV1) :=
  recorded_graph 5 (recorded_with_page_limit
    (recorded_new corrupt_tables sample_generation (MkGraphBounds 100 1)) limit) (sample_plan Reject).

(** The page limit decides which of two faults is reported: with a stored edge that
    does not decode and more edges than the bound admits, pages of one row end in
    corrupt state, and full pages in an invalid graph. *)
Theorem page_limit_selects_fault :
  edge_try_from_canonical unknown_class_bytes (core_coordinate (dep_consumer change_edge)) change_digest = Ok corrupt_edge
  /\ paged_graph 1 = Some (Err (AdmissionError.Store StoreError.CorruptState))
  /\ paged_graph 1024 = Some (Err AdmissionError.DependencyGraphInvalid).
Proof. split_and!; [apply ok_or_else_ok|..]; vm_compute; reflexivity. Qed.

(** ** An Intervention without a node *)

(** A committed node the plan does not bind. *)
Definition stray_node : DependencyGraphNodeV1 :=
  MkGraphNode (MkNode 5 0 (lit "plan") 0 7 (cf_digest x60)) InterventionAssigned Committed [] (cf_digest x61).

Lemma stray_inherited : inherited_intervention (sample_plan Reject) stray_node.
Proof. split; vm_compute; (reflexivity || discriminate). Qed.

(** The digest of the stray node is that of no Intervention of the plan. *)
Lemma intervention_nodes_counted_witness :
  exists g, validate_dependency_graph_v1 (sample_plan Reject) sample_bounds [stray_node] [] = Ok g
    /\ seeds g = [stray_node]
    /\ forall i, i ∈ pl_interventions (sample_plan Reject) -> intervention_digest i <> Ok (gn_digest stray_node).
Proof.
  destruct (bindings_new (sample_plan Reject)) as [b|e] eqn:Hb; [|vm_compute in Hb; discriminate].
  destruct (intervention_nodes_counted (sample_plan Reject) sample_bounds b [stray_node]) as (g & Hg & _ & Hs & _).
  - exact Hb.
  - apply check_work_bounds_exact. vm_compute. reflexivity.
  - repeat constructor.
  - apply NoDup_singleton.
  - repeat constructor; apply stray_inherited.
  - reflexivity.
  - exists g. split; [exact Hg|]. split; [exact Hs|].
    intros i Hi. apply list_elem_of_singleton in Hi. subst i. vm_compute. discriminate.
Defined.
End CfSample.
