(* ===== verification/ProjectionSample.v ===== *)
(** * Concrete registries, candidates and staged folds

    One Timeline with two notes about one subject, folded by a reducer that
    counts and by a reducer that marks: what the theorems of the projection
    promise, and a staged result given out without a measurement. *)

From Stdlib Require Import String ZArith Lia Bool.
From S2P Require Import Prelude Text Cbor FallbackRecords FallbackPolicy ErasureGate Events EventStore.
From S2P Require Import StrictCbor PluginTrust WireSyntax TrustPolicy TrustBridge.
From S2P Require Import TrustedClock TrustedClockSpec TrustedClockSystem TrustedClockProperties.
From S2P Require Import TrustedClockSample.
From S2P Require Import Consent ConsentCodec ConsentSystem ConsentProperties.
From S2P Require Import Projection ProjectionProperties Candidate ProjectionReach.
From S2P Require Import CandidateProperties StagedExecutor StagedExecutorProperties.
From S2P Require Import StagedExecutorProperties ExecutorHealth InstallProperties.

Local Open Scope Z_scope.

Module ProjectionSample.
Import ConsentCbor.

(** ** A host *)

(** Numbers and strings; a number is written in unary. *)
Inductive SampleJson := JNumber (n : Z) | JString (s : RString).

#[export] Instance sample_json_eq_dec : EqDecision SampleJson.
Proof. solve_decision. Defined.

#[export] Instance sample_json : Json := {|
  json := SampleJson;
  json_number := JNumber;
  json_string := JString;
  json_as_u64 j := match j with JNumber n => Some n | JString _ => None end;
  json_text j := match j with JNumber n => replicate (Z.to_nat n) x31 | JString s => x22 :: as_bytes s ++ [x22] end;
|}.

Definition main_line : TimelineId := sample_id xaa.
Definition side_line : TimelineId := sample_id xab.
Definition noted_subject : EntityId := sample_id x11.
Definition mark_plugin : PluginId := sample_id x31.
Definition gates : Gates := fun _ => gate_new_test_open.
Definition ancestry : list TimelineMeta := [meta_root main_line (lit "root")].
Definition note (seq : Z) : Event :=
  MkEvent (sample_id x01) noted_subject (lit "persona.note") [x41] 0 seq None None None None None hash_zero.
Definition notes : list Event := [note 1; note 2].

Definition count_slot : ProjectionRegistry :=
  bind_erasure_gate (HostGate 0)
    (register_installed_reducer_with_policy mark_plugin (lit "count") EntityStateProjection None projections_new).1.
Definition counted : ProjectionRegistry := fold_events gates main_line notes count_slot.

(** ** The registry *)

Lemma applied_step effects p e :
  projection_run effects p -> is_mixed (source (apply_event gates main_line e p)) = false ->
  current_generation gates p = None ->
  projection_run (effects ++ [Applied main_line None e]) (apply_event gates main_line e p).
Proof.
  intros Hr Hm Hg. eapply run_step; [exact Hr|]. rewrite <- Hg.
  pose proof (effect_event p gates main_line e) as Hs. unfold event_effect in Hs. rewrite Hm in Hs. exact Hs.
Qed.

Lemma counted_run : projection_run (Applied main_line None <$> notes) counted.
Proof.
  assert (projection_run [] count_slot) as Hc.
  { change (@nil StateEffect) with ((@nil StateEffect ++ []) ++ []). unfold count_slot.
    eapply run_step; [|apply effect_gate]. eapply run_step; [|apply effect_installed]. apply run_new. }
  apply (applied_step [Applied main_line None (note 1)]);
    [apply (applied_step []); [exact Hc|..]|..]; vm_compute; reflexivity.
Qed.


Lemma projection_refines_history_witness :
  let p' := (refold_events gates main_line ancestry notes None count_slot).1 in
  let counted_notes := entity_state EntityStateProjection noted_subject notes in
  state_for gates p' main_line noted_subject = Ok counted_notes
  /\ state_for_reducer gates p' main_line (lit "count") noted_subject = Ok counted_notes
  /\ state_for_plugin gates p' main_line mark_plugin noted_subject = Ok counted_notes.
Proof.
  assert (Hok : (refold_events gates main_line ancestry notes None count_slot).2 = Ok tt) by (vm_compute; reflexivity).
  destruct (refold_events gates main_line ancestry notes None count_slot) as [p' r] eqn:Hr.
  cbn [snd] in Hok. subst r. cbn [fst].
  destruct (projection_refines_history _ _ _ _ _ _ _ Hr) as (_ & _ & Hreads).
  split; [|split].
  - rewrite (ra_first _ _ _ _ Hreads). reflexivity.
  - rewrite (ra_named _ _ _ _ Hreads). reflexivity.
  - rewrite (ra_plugin _ _ _ _ Hreads). reflexivity.
Defined.

Lemma snapshot_restores_witness : exists snapshot,
  state_snapshot gates counted main_line = Ok snapshot
  /\ state_snapshot gates (restore_from_snapshot gates main_line ancestry snapshot None count_slot).1 main_line = Ok snapshot.
Proof.
  destruct (state_snapshot gates counted main_line) as [snapshot|e] eqn:Hs;
    [|exfalso; assert (Hok : is_ok (state_snapshot gates counted main_line) = true) by (vm_compute; reflexivity);
      rewrite Hs in Hok; discriminate].
  exists snapshot. split; [reflexivity|].
  assert (Hr : (restore_from_snapshot gates main_line ancestry snapshot None count_slot).2 = Ok tt) by reflexivity.
  destruct (restore_from_snapshot gates main_line ancestry snapshot None count_slot) as [q r] eqn:Hq.
  cbn [snd] in Hr. subst r.
  apply (snapshot_restores gates gates main_line ancestry None counted count_slot q snapshot Hs); [|exact Hq].
  vm_compute. reflexivity.
Defined.

Lemma projection_invariant_witness : projection_ok counted.
Proof.
  apply projection_invariant. unfold counted, fold_events, notes. cbn [fold_left].
  do 2 (eapply reach_step; [|apply step_event]). unfold count_slot.
  eapply reach_step; [|apply step_gate]. eapply reach_step; [|apply step_installed]. apply reach_new.
Defined.

Lemma mixing_closes_witness :
  ~ releasable gates (apply_event gates side_line (note 3) counted) main_line.
Proof.
  apply (proj2 (mixing_closes gates side_line (note 3) counted main_line None []
    ltac:(vm_compute; reflexivity) ltac:(left; discriminate))).
Defined.

(** ** Candidates *)

(** A reducer that leaves the same mark whatever happens. *)
Definition mark : State := state_set (lit "seen") (JNumber 1) state_new.
Definition marker : Reducer := MkReducer state_new (fun _ => true) (fun _ _ => mark).
Definition marker_bounds : CandidateBoundsV1 := MkBounds 1000000000 0 21.
Definition consumer : RecordedConsumerV1 := MkConsumer mark_plugin hash_zero.
Definition marker_reducer : CandidateReducerV1 :=
  MkCandidateReducer consumer (lit "count") marker marker_bounds None.
Definition candidate : DetachedProjectionCandidateV1 :=
  MkCandidate [candidate_slot marker_reducer] (Bound main_line None) accounting_new [].

Lemma candidate_built : from_reducers [marker_reducer] (Bound main_line None) = Ok candidate.
Proof. reflexivity. Qed.

Lemma marker_grows : Forall (fun r => grows_within (candidate_slot r)) [marker_reducer].
Proof.
  constructor; [|constructor]. split; [done|]. split; [done|]. intros state event _. cbn [slot_reducer csl_inner].
  assert (Hm : staged_state_bytes mark = 21) by (vm_compute; reflexivity).
  pose proof (state_bytes_bounds state). cbn. rewrite Hm. unfold growth, saturating_mul, saturating_add, U64_MAX, len.
  cbn. lia.
Qed.

Lemma candidate_matches_live_witness :
  candidate_registries (candidate_fold_events notes candidate)
  = (fun entry => slot_registry entry.2) <$> slots (fold_events gates main_line notes
      (register (lit "mark") marker projections_new)).
Proof.
  refine (proj1 (candidate_matches_live gates main_line None [marker_reducer] candidate notes
    (register (lit "mark") marker projections_new) eq_refl eq_refl _ eq_refl)).
  intros entry Hin. apply list_elem_of_singleton in Hin as ->. reflexivity.
Defined.

Definition noted : DetachedProjectionCandidateV1 := (fold_accounted notes candidate).1.
Definition measured_candidate : DetachedProjectionCandidateV1 := (exact_pass noted).1.

Lemma noted_accounted : accounted [marker_reducer] noted.
Proof.
  assert (Hok : (fold_accounted notes candidate).2 = Ok tt) by (vm_compute; reflexivity).
  unfold noted. revert Hok. unfold notes. cbn [fold_accounted].
  destruct (fold_event_with offer_accounted (note 1) tt candidate) as [[[] c1] [[]|]] eqn:H1; [|done].
  destruct (fold_event_with offer_accounted (note 2) tt c1) as [[[] c2] [[]|]] eqn:H2; [|done]. intros _.
  eapply accounted_event; [|exact H2]. eapply accounted_event; [|exact H1].
  eapply accounted_new. apply candidate_built.
Qed.

Lemma staged_within_limits_witness : exists st,
  (take_staged measured_candidate).2 = Some st
  /\ staged_size (ss_registry <$> sp_slots st) <= MAX_STAGED_OUTPUT_BYTES_V1.
Proof.
  assert (Hok : match (take_staged measured_candidate).2 with Some _ => true | None => false end = true)
    by (vm_compute; reflexivity).
  destruct (take_staged measured_candidate) as [c' [st|]] eqn:Ht; [|discriminate]. exists st. split; [reflexivity|].
  apply (staged_within_limits [marker_reducer] measured_candidate c' st); [|exact Ht].
  apply accounted_pass, noted_accounted.
Defined.

Lemma accounting_upper_bound_witness : is_Some (take_staged (exact_pass noted).1).2.
Proof.
  apply (accounting_upper_bound [marker_reducer] noted marker_grows noted_accounted). vm_compute. reflexivity.
Defined.

(** A candidate measured while it was empty, and then folded without accounting. *)
Lemma unaccounted_fold_keeps_the_pass_witness :
  let passed := (exact_pass candidate).1 in
  let changed := candidate_fold_events notes passed in
  exact (cd_accounting changed) = 0 /\ staged_size (candidate_registries changed) = 21
  /\ exists st, (take_staged changed).2 = Some st /\ ss_registry <$> sp_slots st = candidate_registries changed.
Proof.
  assert (Hok : (exact_pass candidate).2 = Ok tt) by (vm_compute; reflexivity).
  destruct (exact_pass candidate) as [passed r] eqn:Hp. cbn [snd] in Hok. subst r.
  destruct (unaccounted_fold_keeps_the_pass candidate passed notes Hp) as (_ & Ha & Hst).
  - intros event [->|[->|[]%not_elem_of_nil]%elem_of_cons]%elem_of_cons; vm_compute; reflexivity.
  - cbn [fst]. rewrite Ha. split_and!; [| |exact Hst].
    + replace passed with (exact_pass candidate).1 by (rewrite Hp; reflexivity). vm_compute. reflexivity.
    + replace passed with (exact_pass candidate).1 by (rewrite Hp; reflexivity). vm_compute. reflexivity.
Defined.

(** ** The worker *)

(** A worker that is left alone, at the start of the window. *)
#[export] Instance quiet_worker : WorkerGateV1 unit := {|
  gate_mark w := (w, 0);
  gate_cancelled w := (w, false);
  callback_returns w := (w, true);
|}.

#[export] Instance quiet_prompt : PromptWorker unit 0 0.
Proof. refine {| now := fun _ => 0 |}; cbn; intros; lia. Defined.

(** A provider that has admitted the marker. *)
#[export] Instance admitted_provider : ProtectedProjectionProviderV1 (list CandidateBuildV1) :=
  fun builds _ => Ok builds.
Definition marker_builds : list CandidateBuildV1 := [MkBuild marker_bounds (Ok marker_reducer)].
Definition fold_plan : StagedFoldPlanV1 := plan_new [consumer] notes (Bound main_line None).

(** The State of the marker never exceeds one mark. *)
Lemma marker_limits : fits_limits [marker_reducer] (plan_events fold_plan).
Proof.
  intros [|[|k]]; [| |replace (take (S (S k)) (plan_events fold_plan)) with (take 2 (plan_events fold_plan)) by (by destruct k)].
  all: split; [apply Z.leb_le; vm_compute; reflexivity|constructor; [apply Z.leb_le; vm_compute; reflexivity|constructor]].
Qed.

Lemma staged_fold_succeeds_witness : exists w' st, fold_on_worker 0 marker_builds fold_plan tt = (w', Ok st).
Proof.
  apply (staged_fold_succeeds 0 0 marker_builds fold_plan marker_builds [marker_reducer] candidate).
  - reflexivity.
  - reflexivity.
  - reflexivity.
  - constructor; [|constructor]. split; vm_compute; discriminate.
  - vm_compute. discriminate.
  - apply marker_grows.
  - apply marker_limits.
Defined.

Lemma folded_ok : is_ok (fold_on_worker 0 marker_builds fold_plan tt).2 = true.
Proof. vm_compute. reflexivity. Qed.

Lemma staged_fold_exact_witness : exists rs st,
  (fold_on_worker 0 marker_builds fold_plan tt).2 = Ok st /\ staged_result fold_plan rs st.
Proof.
  pose proof folded_ok as Hok. destruct (fold_on_worker 0 marker_builds fold_plan tt) as [w' [st|]] eqn:Hf; [|discriminate].
  destruct (staged_fold_exact 0 marker_builds fold_plan tt w' st Hf) as (builds & rs & _ & _ & Hr & _).
  exists rs, st. split; [reflexivity|exact Hr].
Defined.

(** ** Publication *)

Definition mark_slot : ProjectionRegistry :=
  bind_erasure_gate (HostGate 0)
    (register_installed_reducer_with_policy mark_plugin (lit "count") marker None projections_new).1.

Import ClockSample.


(** ** The executor *)

Definition any_outcome (call : nat) (out : result StagedFoldErrorV1 unit) : Prop := out = Err Cancelled.
Definition dispatched : Executor := guard_send 0%nat [] (guard_claim 0%nat (executor_new (Staged:=unit))).
Definition running : Executor := worker_take 0%nat [] dispatched.
Definition abandoned : Executor := guard_abandon 0%nat (guard_expire id 0%nat running).
Definition unwound : Executor := with_worker (WUnwound 0%nat) running.

Lemma running_reachable : executor_reachable id any_outcome running.
Proof.
  eapply rtc_l; [apply (step_claim _ _ _ 0%nat); unfold fresh_call; split_and!; set_solver|].
  eapply rtc_l; [apply (step_send _ _ _ 0%nat []); reflexivity|].
  eapply rtc_l; [apply (step_take _ _ _ 0%nat []); reflexivity|]. apply rtc_refl.
Qed.

Lemma abandoned_reachable : executor_reachable id any_outcome abandoned.
Proof.
  unfold executor_reachable, executor_run. etrans; [apply running_reachable|].
  eapply rtc_l; [apply (step_expire _ _ _ 0%nat); unfold running, dispatched; cbn; set_solver|].
  eapply rtc_l; [apply (step_abandon _ _ _ 0%nat); cbn; set_solver|]. apply rtc_refl.
Qed.

Lemma executor_exclusive_witness : require_staged_release (ex_health abandoned) = Err ExecutorQuarantined.
Proof.
  apply (proj1 (proj2 (proj2 (executor_exclusive id any_outcome abandoned abandoned_reachable))) 0%nat).
  - cbn. set_solver.
  - vm_compute. left.
Defined.

Lemma host_fault_is_final_witness : ex_health (guard_claim 1%nat (worker_fault unwound)) = Quarantined.
Proof.
  apply (host_fault_is_final id any_outcome unwound (worker_fault unwound) (guard_claim 1%nat (worker_fault unwound)) 0%nat).
  - unfold executor_reachable, executor_run. etrans; [apply running_reachable|]. apply rtc_once. apply (step_unwind _ _ _ 0%nat). reflexivity.
  - reflexivity.
  - reflexivity.
  - apply rtc_once. apply (step_claim _ _ _ 1%nat). unfold fresh_call. split_and!; cbn; set_solver.
Defined.

Lemma executor_recovers_witness : exists y, executor_run id any_outcome abandoned y /\ ex_health y = Ready.
Proof.
  apply executor_recovers.
  - intros call. by exists (Err Cancelled).
  - apply abandoned_reachable.
  - reflexivity.
  - intros call. discriminate.
Defined.
End ProjectionSample.
